(* ===== verification/_CoqProject ===== *)
-Q . S2P
Prelude.v
HexId.v
Durability.v
Canonical.v
SignedRecords.v
Transcripts.v
AuthHello.v
MeshAuth.v
TopicId.v
TombstoneAuth.v
ChannelLedger.v
MeshDegree.v
DeadPeers.v
AttemptGuard.v
Role.v
TopicStore.v
Ingest.v
RootClaim.v
Stamped.v
MergeFrames.v
MergeMachine.v
MergeRound.v
MergeGate.v
Publish.v
WriteFlight.v
PeerTable.v
Routing.v
AdmissionGate.v
FindClosest.v
SubTree.v
Lifetime.v
Deliver.v
Ingress.v
Replicate.v
Leave.v
Sync.v
