(* ===== verification/Prelude.v ===== *)
(** The Axona protocol kernel: a verification library (root file).

    ** The program

    The repository is a peer-to-peer publish/subscribe kernel in JavaScript. A node has an
    id in a keyspace of 264 bits (8 bits of region, 256 of hash), holds channels to some
    hundred peers (src/src/transport), routes messages greedily by XOR distance
    (src/src/dht), and on top of that keeps topics: the node closest to a topic is its root,
    it caches the topic's messages, replicates them and hands them over when a closer node
    or a root of a higher epoch appears (src/src/pubsub). One JavaScript thread runs it, so a
    method without an [await] is a transaction; what makes the code hard is what happens
    between two of them: a role replaced while a commit is suspended, a peer that dies
    between the choice of a hop and the send, two nodes that both believe to be root, budgets
    of channels, bytes and attempts that must hold under any order of events.

    ** The files

    In dependency order, with the source each one models.

    - [Prelude]: JavaScript values the models need - a value or a thrown error ([js_result]),
      dynamically typed values ([jsv]), a [Map] in insertion order ([jmap] with [jget],
      [jset], [jdel]), stable sorts ([sort_by], [sort_cmp]) with their rank lemmas, 32-bit
      truncation - and the tactics ([zb] reflects boolean comparisons) and hint databases.
    - [HexId]: utils/hexid.js and pubsub/ids.js. The keyspace profile (module state) is the
      record [keyspace]; every gate, conversion, composition and distance.
    - [Durability]: pubsub/durability.js. The per-role ledger of what became of a message
      ([ledger]) and the node-wide facade ([node]).
    - [Canonical]: the canonical JSON of pubsub/post.js and kill.js that is signed and hashed.
    - [SignedRecords]: the JSON records that carry a signature: pubsub/envelope.js, kill.js,
      touch.js, unpub.js, authorClass.js and signedExpiry.js, each builder and each verifier,
      with the text that is signed ([signable], [signed_text]).
    - [Transcripts]: the binary transcripts that are signed: pubsub/ackProof.js, capAttest.js
      and handoffBinding.js, to the byte.
    - [AuthHello]: transport/handshake-auth.js and pow/pow.js. The hello with which a peer proves its
      node id, its channel-binding values, and the proof of work it carries.
    - [MeshAuth]: transport/web/mesh-auth.js. The mutual handshake of a WebRTC channel: the records
      by channel, what is awaited as tasks, and any interleaving of frames and resumptions.
    - [TopicId]: [resolveTopic] of pubsub/post.js, from a topic's descriptor to its id.
    - [TombstoneAuth]: pubsub/tombstoneAuth.js. Body cache, kill candidates and tombstones with
      their byte and count budgets, and the authority over the three.
    - [ChannelLedger]: transport/web/channel_ledger.js and pool_profile.js. Reservations,
      channel phases, bindings of ids to channels, the two class pools and their capacity.
    - [MeshDegree]: transport/web/mesh_degree.js. Which channel a full node retires.
    - [DeadPeers]: dht/DeadPeers.js. The dead-peer marks and their retry schedule.
    - [AttemptGuard]: dht/attemptGuard.js. The dial attempts of an identity.
    - [Role]: the state the pub/sub mixins share, as a heap of role objects named by
      reference (rootClaim.js [makeRole], the maps of AxonaManager.js).
    - [TopicStore]: pubsub/topicStore.js, [_applyKill] of wireHandlers.js, and the cut and the
      gate of mergeMachine.js that every suspended commit re-checks.
    - [Ingest]: the ingest queue of pubsub/repairPlane.js: inline slice, pump, overflow, and the
      in-flight count that the duty gate reads.
    - [RootClaim]: pubsub/rootClaim.js and the parts of rootElection.js, mergeMachine.js,
      writeFlight.js and AxonaManager.js that decide who is the root of a topic.
    - [Stamped]: [_ingestStamped] and its batch (pubsub/wireHandlers.js): how a role takes over
      messages another node stamped, with the other tasks that run at the awaits.
    - [MergeFrames], [MergeMachine]: pubsub/mergeMachine.js and the loser's half of
      pubsub/successorGate.js: two roots of one topic become one. [MergeFrames] cuts the export
      into frames; [MergeMachine] has the handlers of both sides. [MergeRound] and [MergeGate]
      hold their theorems: the flip and what it conserves; the bind, the gate, the sweep and
      the completion. [MergeRound] also runs a whole round between two nodes ([round_runs]).
    - [Publish]: what a root does with a write: [_ingestPublish], the commit of [_onKill] and the
      ingest acknowledgement (pubsub/wireHandlers.js).
    - [WriteFlight]: pubsub/writeFlight.js. The recovery of a forwarded write.
    - [PeerTable]: dht/Synapse.js, dht/NeuronNode.js and the usable set of dht/AxonaPeer.js
      ([_usablePeers]). Weights and latencies are IEEE doubles ([SpecFloat]).
    - [Routing]: the [route_msg] forwarder and the originator [routeMessage] of
      dht/AxonaPeer.js, their selectors and the probe handlers.
    - [FindClosest]: the iterative K-closest search [findKClosest] of dht/AxonaPeer.js.
    - [SubTree]: the subscription tree of a topic (pubsub/wireHandlers.js): seats, children,
      delegations and their acknowledgement, replay and fan-out; and the exchange of ADOPT and
      ADOPTACK between nodes, as steps over a soup of messages.
    - [Lifetime]: the life of a topic at a node (pubsub/topicLifetime.js and the grant rule of
      pubsub/syncEngine.js): LEFT records, appointments of backups, termination and its notice.
    - [Deliver]: a node as a subscriber: [_onDeliver] with the attachment decision
      (pubsub/wireHandlers.js), and the SUB it sends, its renewal and what unpins it
      (pubsub/AxonaManager.js [_sendSubscribe], [_emitSubscribe], [_unpinIfWaypointDead]).
    - [Replicate]: how a root's history reaches other nodes (pubsub/repairPlane.js [_replicateRoots],
      [_replicateRole], [_inheritCohort]): rounds of pushes with their two awaits, the credits, the
      tick's budget, and the evidence the ledger of [Durability] gets.
    - [Sync]: pubsub/syncEngine.js. What a push, a pull and a replay carry, and what the receiver of a
      hand-over, a replica or a replay does with it.
    - [Leave]: a node that leaves hands its topics over (pubsub/repairPlane.js [pubsubLeaveHandoff],
      [_pickHeirs], [_rootAliveForLeave]; the acknowledgement, wireHandlers.js [_onHandoffAck]).
    - [Ingress]: the way of a PUB or a KILL through a node: [_onPub], [_onKill], [_topicDecision],
      [_holdIntercept], [_cutDisposition] (pubsub/wireHandlers.js), the forward to a root and the
      refusal (pubsub/AxonaManager.js), and the verdicts of pubsub/dispatch.js.
    - [AdmissionGate]: which peers the routing table holds (dht/AxonaPeer.js): retention policy,
      hold-or-improve, join lane, promotion, seed path, deferred closes, duty gate.

    How they interact: [MeshAuth] runs [AuthHello] per channel, and attests with [Transcripts];
    [Replicate] reads the roles of [Role], classifies answers with [Ingress] and reports to
    [Durability]; the heir of [Leave] ingests with [Sync], which adopts through [RootClaim] and [Ingress],
    takes in with [Stamped], and has its replicas appointed by [Lifetime]; [Routing], [FindClosest] and [AdmissionGate] work on the tables of [PeerTable],
    which reads the marks of [DeadPeers] and the channel classes of [ChannelLedger]; [AdmissionGate] keys the
    lane by the identity of [AttemptGuard] and keeps what the roles oblige it to through a reader
    argument; [TopicStore], [Stamped], [RootClaim], the merge machine and [WriteFlight] operate on the
    one heap of [Role]; [Stamped] verifies with [SignedRecords] and [TopicId] and writes with
    [TopicStore]; a merge round starts from [RootClaim]'s candidate, cuts with [TopicStore], ingests
    with [Stamped] and steps down through [RootClaim]'s guarded [demote]; [Ingress] puts the hold of
    [RootClaim], the gates of [MergeMachine] and the flights of [WriteFlight] in front of [Publish],
    which verifies with [SignedRecords] and stores with [TopicStore]; [Deliver] takes in with
    [TopicStore] what a parent fans out; [Lifetime]
    adds the seat tables of [SubTree] to that heap, and a write flight that convicts its root does so
    through [RootClaim]'s evidence.

    ** Conventions

    A method is a definition of the same name (a leading underscore is dropped, a name Rocq
    reserves gets a trailing one) from the state before, with everything it reads from outside as an
    argument, to the state after and its result. Clock readings, random draws, nonces, and the
    answers of the transport, of a parser or of another node are arguments, or fields of an
    environment record ([env], [tenv], [genv]) a run supplies anew at each step. A call that
    leaves the modelled part is appended to a log of effects ([outbox], [sent], [closed]). An
    [await] splits a handler: what may have changed meanwhile is an argument of the second
    half, and where a role object is held across it, it is held by reference in the heap.
    Numbers that count or measure time are exact integers; the code stays far below 2^53.
    Where the code truncates ([| 0]) or computes in doubles, so does the model. The numbers of a JSON
    value are integers or not finite: a fractional number, which a message or a forged frame may
    hold, has no counterpart. Texts are their UTF-8 bytes; where the code counts or orders UTF-16
    units ([Canonical.str_le], [SignedRecords.utf16]) so does the model. An exception is a value
    ([js_result]) of the method it leaves, also where it is a [TypeError] of [String].

    ** What the theorems show

    - Identifiers. [HexId.toHex_fromHex_roundtrip] and the gate [asId]; composition and extraction of
      ids; strata as shared prefixes; XOR as a metric. [Canonical.canonical_injective]: two JSON
      values with the same signed text are the same value.
    - Ingress. [Publish.publish_admits_exactly]: what a publish must have passed for each answer it
      gets. [stamp_exact], [kill_exact]: one synchronous run of the root, branch by branch.
      [stamps_strictly_increase]: stamps and numbers increase over every interleaving.
      [Ingress.write_disposed]: a write is passed on, taken in, or leaves by exactly one frame or
      report. [held_forward_is_final]: a held forward that returns goes no further.
      [forward_moves_on_evidence]: what a verdict may change.
    - Delivery. [Deliver.attachment_moves_on_evidence] and [replies_commit_once]: the parent changes
      on a newer attempt of the node's own or forward from the selected parent, and a reply commits
      once. [custody_names_its_sender]: what a relay counts as held upstream, its upstream sent.
      [renewal_exact]: when a renewal fails and what it sends otherwise.
    - Signatures. [SignedRecords.signed_texts_separate] and [Transcripts.signatures_unambiguous]: two
      signed objects with the same signed bytes, hellos and presence records included, are of one
      kind and equal in every signed field.
      [verify_envelope_exact]: what is accepted, what is refused and why, and when the verifier
      throws; [signed_roundtrip]: what a node or an author builds verifies after the wire; [validate_exp_exact];
      [ack_proof_binds]. [TopicId.topic_id_commits]: an id has one descriptor.
    - Replication. [Replicate.replication_is_evidence]: in every interleaving, what the ledger says of a
      message and the credit of a replica rest on a full push that was taken, or on as many that
      were not, or on there being no cohort to push to, known or configured. [full_pushes_bounded]: a tick's budget holds. [round_exact]: one round by branches.
    - Departure. [Leave.departure_accounts]: when a hand-off is over, every topic was acknowledged or
      taken, or pushed once more, or nobody was known, or the adapter has no lookup. [departure_ends]: it ends within a bounded
      number of steps, each wait with a fixed deadline. [Sync.full_ack_is_held]: a heir with room that
      acknowledges in full holds, or has deleted, all it was sent. [honest_push_arrives]: what an
      honest node pushes, such a heir takes in completely.
    - Handshake. [MeshAuth.bind_is_proven]: who is bound at a channel has proved its id over that
      channel's value, and once. [bind_excludes_relay]: two nodes between which a relay ends the
      encryption do not bind each other. [quiet_link_is_bound]: a channel that loses nothing, and whose
      bind nothing refuses, ends bound. [AuthHello.hello_exact]: what a hello proves and why one is refused; [hello_roundtrip].
    - Hand-over. [MergeRound.step_down_exact]: of all acknowledgements, a root steps down on exactly
      one kind.
      [handover_conserves]: when it does, the winner held all of the export at its
      acknowledgement. [MergeFrames.export_delivered]: the frames are the export, in order and in
      finitely many pulls. [MergeGate.bind_is_exact], [gated_write_forwarded], [completion_exact] and
      [rounds_end]: the start of a round, the writes during it, its completion, and the sweep's
      bound on what is open.
      [Stamped.stamped_history_is_genuine]: whatever is received, a role holds only verified
      messages of its own topic. [Ingest.dependency_pinned].
    - Roots. [RootClaim.custody_gate]: a root that holds messages does not stop being root in passing,
      only with the merge machine's token. [claim_transition], [claim_order], [beacon_rules] and
      [stepdown_hold] give the state machine's steps, the claim order (with the cycle it has where
      an epoch is unknown) and the end of a step-down hold.
    - Stores. [TopicStore.cut_is_final]: no commit prepared before a merge cut lands after it.
      [migrated_deletions], [push_bounded], [delivered_once]. [TombstoneAuth]: the running totals are
      exact and within budget in every reachable state, and a live tombstone decides.
    - Writes. [WriteFlight.receipt_binds], [evict_conserves], [promotion_cap] and [flight_ends]:
      a flight closes only on its own receipt, an eviction loses no write, puts the conviction on
      record and picks the closest admissible node, and every flight and every chain of promotions ends.
      [Durability]: only evidence verifies a message; states move one way.
    - Subscribers. [SubTree.seated_stays_served]: under loss, repetition and reordering, delegation
      loses no subscriber: it is seated at the node it was seated at or below, unless such a node
      gave its role up with it, where delegations do not form a cycle. [accept_spec] gives every branch of seating, [delegations_disjoint] the invariant
      of the open delegations, [replay_complete] what a replay carries and in what frames.
    - Lifetime. [Lifetime.backup_does_not_flip]: appointments only move up the order of claims
      while the lease lives. [left_generation_stays_left]; [dismantled_role_goes]: a termination
      ends in a bounded number of the ticks that find the role a root, and no others count
      ([demoted_dismantling_stays]); [notice_binds]: a notice ends the obligations of its
      generation and no other.
    - Channels. [ChannelLedger.capacity_never_exceeded] for every sequence of events and every
      feasible profile; charges are released only when the transport confirms; the bound set is
      exactly the set of pointable bindings. [DeadPeers] and [AttemptGuard]: bounded tables, one
      attempt per window, a token ends once. [MeshDegree.retire_choice].
    - Routing. [Routing.forward_is_fresh] and [walk_never_circles]: for any network and any answers
      a walk is shorter than [MAX_HOPS] and any [PATH_MEMORY + 2] consecutive nodes differ.
      [terminal_is_local_minimum]: a walk ends only where nothing closer is known and the node can
      serve. [route_msg_ends], [greedy_is_closest]; [find_closest_set_reference]: the insertion scan is
      the prefix of the sorted table. [FindClosest.findk_result] and [findk_closed]: the search
      returns the nearest of all it heard, asks nobody twice, and stops closed or out of rounds.
    - Table. [AdmissionGate.table_never_exceeds_cap] for every sequence of offers, promotions,
      timers and drops; [swap_spec] and [swap_does_not_bounce]: a swap evicts only an unprotected
      peer of the densest band and is not undone at once; [closes_respect_duty],
      [deferred_closes_bounded], [lane_paced].

    ** Bounds and fuel

    Loops over a collection are folds or structural recursion. Loops that shrink a collection
    ([overflow], [evict_loop], [prune_loop]) take its length as fuel, and their specifications show that
    it is enough. The pulls of an export ([frames]) take one more than its length, which
    [export_delivered] shows to be enough. [toString16] takes the number's bit length. The send loop of [Routing] recurses on
    the list of the transport's answers; [route_msg_ends] bounds how many it needs. A run is a
    list of operations of any length.

    ** Not modelled, and why

    Sockets, WebRTC, timers and storage (src/src/transport beside the channel ledger, the degree
    retirement and the handshake, src/src/persistence): I/O. Signatures and hashes: third-party or
    platform cryptography, which the models take as parameters where its answer matters. The frame
    registries, which observe and declare. Logs, counters nothing reads, telemetry and
    visualisation. [Math.exp] in the vitality of a synapse is a parameter. Of AxonaPeer.js the
    other lookups, maintenance and bootstrap; of the pub/sub plane the routing
    of a SUB before it is seated, reads, what the thin-branch step-down sends, the public API, and of the repair
    plane the reapers, the probes and the retry pump: they are left to the sources. In the merge machine, the asynchronous signing of an offer
    is its result as an argument, and what a failed log line would do is left out. *)

From Stdlib Require Import Ascii.
From stdpp Require Import base tactics sets list sorting numbers strings gmap.
From Stdlib Require Import ZArith Lia.

(** * Notations and tactics shared by the development *)

Declare Scope js_scope.
Delimit Scope js_scope with js.
#[global] Open Scope Z_scope.

Create HintDb axona.
Create Rewrite HintDb axona_rw.

(** Case analysis on every [decide], boolean test or [match] in sight. *)
Ltac js_cases :=
  repeat (case_decide || case_match || case_bool_decide); simplify_eq/=.

(** Reflect boolean comparisons on [Z] in the hypotheses and close by [lia]. *)
Ltac zb :=
  repeat match goal with
  | H : (_ <? _) = true |- _ => apply Z.ltb_lt in H
  | H : (_ <? _) = false |- _ => apply Z.ltb_ge in H
  | H : (_ <=? _) = true |- _ => apply Z.leb_le in H
  | H : (_ <=? _) = false |- _ => apply Z.leb_gt in H
  | H : (_ =? _) = true |- _ => apply Z.eqb_eq in H
  | H : (_ =? _) = false |- _ => apply Z.eqb_neq in H
  | H : (_ && _)%bool = true |- _ => apply andb_true_iff in H; destruct H
  | H : (_ || _)%bool = false |- _ => apply orb_false_iff in H; destruct H
  | H : negb _ = true |- _ => apply negb_true_iff in H
  | H : negb _ = false |- _ => apply negb_false_iff in H
  end.
Ltac zlia := zb; simpl in *; lia.

(** * JavaScript results: a value, or a thrown error with its [code] tag *)

Inductive js_error_kind := ErrorK | TypeErrorK | RangeErrorK.

Record js_error := mk_error { err_kind : js_error_kind; err_code : option string }.

#[export] Instance js_error_kind_eq_dec : EqDecision js_error_kind.
Proof. solve_decision. Defined.
#[export] Instance js_error_eq_dec : EqDecision js_error.
Proof. solve_decision. Defined.

Inductive js_result (A : Type) :=
| Ok (a : A)
| Throw (e : js_error).
Arguments Ok {A} a.
Arguments Throw {A} e.

#[export] Instance js_result_eq_dec {A} `{EqDecision A} : EqDecision (js_result A).
Proof. solve_decision. Defined.

#[export] Instance js_result_ret : MRet js_result := λ A a, Ok a.
#[export] Instance js_result_bind : MBind js_result := λ A B f r,
  match r with Ok a => f a | Throw e => Throw e end.

(** [try { x = f() } catch { .. }]: the value, or nothing. *)
Definition catch {A} (r : js_result A) : option A :=
  match r with Ok a => Some a | Throw _ => None end.

Lemma catch_Some {A} (r : js_result A) a : catch r = Some a ↔ r = Ok a.
Proof. destruct r; naive_solver. Qed.

(** A string JavaScript tests for truth: the empty one counts as absent. *)
Definition truthy (s : option string) : option string := match s with Some EmptyString => None | _ => s end.

(** * JavaScript values, where the code inspects the type of what it is given

    A number is an integer, a fraction, an infinity or NaN; [Number.isInteger]
    and [Number.isFinite] tell them apart. *)

Inductive jsv :=
| JUndef | JNull
| JBool (b : bool)
| JInt (z : Z)               (* a number that is an integer *)
| JFrac                      (* a finite number that is not an integer *)
| JNonFinite                 (* NaN and the infinities *)
| JBig (z : Z)               (* a bigint *)
| JStr (s : string)
| JObj.                      (* an object, an array or a function *)

#[export] Instance jsv_eq_dec : EqDecision jsv.
Proof. solve_decision. Defined.

Definition js_is_string (v : jsv) : bool := match v with JStr _ => true | _ => false end.

(** * JavaScript [Map]: an association list in insertion order

    [set] on a key that is present keeps the key's position and replaces the
    value; a new key goes to the end; iteration and [keys().next()] follow the
    list's order. *)

Abbreviation jmap K V := (list (K * V)).

Section jmap.
Context {K V : Type} `{EqDecision K}.
Implicit Types (m : jmap K V) (k : K) (v : V).

Fixpoint jget m k : option V :=
  match m with
  | [] => None
  | (k', v) :: m' => if decide (k' = k) then Some v else jget m' k
  end.

Fixpoint jset m k v : jmap K V :=
  match m with
  | [] => [(k, v)]
  | (k', v') :: m' => if decide (k' = k) then (k', v) :: m' else (k', v') :: jset m' k v
  end.

Definition jdel m k : jmap K V := filter (λ p, p.1 ≠ k) m.

Definition jhas m k : bool := match jget m k with Some _ => true | None => false end.

Definition jsize m : Z := Z.of_nat (length m).

(** Mutating the object a key is bound to. *)
Definition jalter (f : V → V) m k : jmap K V :=
  (λ p, if decide (p.1 = k) then (p.1, f p.2) else p) <$> m.

(** [map.keys().next().value] *)
Definition jfirst m : option K := fst <$> head m.

(** A [Map] never holds a key twice. *)
Definition jwf m : Prop := NoDup m.*1.

Lemma jget_Some_elem m k v : jget m k = Some v → (k, v) ∈ m.
Proof.
  induction m as [|[k' v'] m IH]; [done|]; simpl.
  case_decide; intros ?; simplify_eq; [left|right; auto].
Qed.

Lemma jget_None m k : jget m k = None ↔ k ∉ m.*1.
Proof.
  induction m as [|[k' v'] m IH]; simpl; [set_solver|].
  case_decide; simplify_eq; set_solver.
Qed.

Lemma jget_Some_key m k v : jget m k = Some v → k ∈ m.*1.
Proof.
  intros Hg%jget_Some_elem. apply list_elem_of_fmap. by exists (k, v).
Qed.

Lemma elem_jget m k v : jwf m → (k, v) ∈ m → jget m k = Some v.
Proof.
  unfold jwf. induction m as [|[k' v'] m IH]; simpl; [set_solver|].
  intros [Hni Hnd]%NoDup_cons [Heq|Hin]%elem_of_cons; simplify_eq/=.
  - by rewrite decide_True.
  - case_decide; simplify_eq; [|auto].
    exfalso. apply Hni, list_elem_of_fmap. by exists (k, v).
Qed.

Lemma jhas_true m k : jhas m k = true ↔ ∃ v, jget m k = Some v.
Proof. unfold jhas. destruct (jget m k); naive_solver. Qed.
Lemma jhas_false m k : jhas m k = false ↔ jget m k = None.
Proof. unfold jhas. destruct (jget m k); naive_solver. Qed.
Lemma jhas_true_key m k : jhas m k = true ↔ k ∈ m.*1.
Proof.
  rewrite jhas_true. split; [intros [v ?]; eauto using jget_Some_key|].
  intros Hin. destruct (jget m k) eqn:E; [eauto|]. by apply jget_None in E.
Qed.

Lemma jget_jset_eq m k v : jget (jset m k v) k = Some v.
Proof.
  induction m as [|[k' v'] m IH]; simpl; [by rewrite decide_True|].
  case_decide; simpl; [by rewrite decide_True|by rewrite decide_False].
Qed.

Lemma jget_jset_ne m k k' v : k ≠ k' → jget (jset m k v) k' = jget m k'.
Proof.
  intros Hne. induction m as [|[k1 v1] m IH]; simpl; [by rewrite decide_False|].
  repeat (case_decide; simplify_eq/=); auto.
Qed.

Lemma jget_jset m k k' v :
  jget (jset m k v) k' = if decide (k = k') then Some v else jget m k'.
Proof. case_decide; subst; auto using jget_jset_eq, jget_jset_ne. Qed.

Lemma jget_jdel m k k' :
  jget (jdel m k) k' = if decide (k = k') then None else jget m k'.
Proof.
  unfold jdel. induction m as [|[k1 v1] m IH]; simpl; [by case_decide|].
  rewrite filter_cons; simpl. repeat (case_decide; simplify_eq/=); auto.
Qed.
Lemma jget_jdel_eq m k : jget (jdel m k) k = None.
Proof. rewrite jget_jdel. by rewrite decide_True. Qed.
Lemma jget_jdel_ne m k k' : k ≠ k' → jget (jdel m k) k' = jget m k'.
Proof. intros. rewrite jget_jdel. by rewrite decide_False. Qed.

Lemma jget_jalter f m k k' :
  jget (jalter f m k) k' = if decide (k = k') then f <$> jget m k' else jget m k'.
Proof.
  unfold jalter. induction m as [|[k1 v1] m IH]; simpl; [by case_decide|].
  repeat (case_decide; simplify_eq/=); auto.
Qed.

Lemma jalter_cons f k1 v1 m k :
  jalter f ((k1, v1) :: m) k =
    if decide (k1 = k) then (k1, f v1) :: jalter f m k else (k1, v1) :: jalter f m k.
Proof. unfold jalter. simpl. by case_decide. Qed.

Lemma jkeys_jalter f m k : (jalter f m k).*1 = m.*1.
Proof.
  unfold jalter. rewrite <-list_fmap_compose. apply list_fmap_ext.
  intros i [k1 v1] _. simpl. by case_decide.
Qed.

Lemma jkeys_jset m k v :
  (jset m k v).*1 = if decide (k ∈ m.*1) then m.*1 else m.*1 ++ [k].
Proof.
  induction m as [|[k1 v1] m IH]; [done|]. cbn [jset].
  destruct (decide (k1 = k)) as [->|Hne]; cbn [fmap list_fmap fst].
  - rewrite decide_True by set_solver. done.
  - rewrite IH. destruct (decide (k ∈ m.*1)).
    + rewrite decide_True by set_solver. done.
    + rewrite decide_False by set_solver. done.
Qed.

Lemma jkeys_jdel_sublist m k : (jdel m k).*1 `sublist_of` m.*1.
Proof. apply fmap_sublist, sublist_filter. Qed.

Lemma elem_of_jdel m k p : p ∈ jdel m k ↔ p ∈ m ∧ p.1 ≠ k.
Proof. unfold jdel. rewrite list_elem_of_filter. naive_solver. Qed.

Lemma jwf_nil : jwf [].
Proof. constructor. Qed.
Lemma jwf_jset m k v : jwf m → jwf (jset m k v).
Proof.
  unfold jwf. rewrite jkeys_jset. intros. case_decide; [done|].
  apply NoDup_app. split_and!; [done| set_solver | apply NoDup_singleton].
Qed.
Lemma jwf_jdel m k : jwf m → jwf (jdel m k).
Proof. unfold jwf. eauto using sublist_NoDup, jkeys_jdel_sublist. Qed.
Lemma jwf_jalter f m k : jwf m → jwf (jalter f m k).
Proof. unfold jwf. by rewrite jkeys_jalter. Qed.

Lemma jsize_nonneg m : 0 ≤ jsize m.
Proof. unfold jsize. lia. Qed.
Lemma jsize_jset m k v : jsize (jset m k v) = jsize m + (if jhas m k then 0 else 1).
Proof.
  unfold jsize. rewrite <-(length_fmap fst (jset m k v)), jkeys_jset.
  destruct (jhas m k) eqn:E; [apply jhas_true_key in E|].
  - rewrite decide_True, length_fmap by done. lia.
  - rewrite decide_False by (rewrite <-jhas_true_key; by rewrite E).
    rewrite length_app, length_fmap. simpl. lia.
Qed.
Lemma jsize_jalter f m k : jsize (jalter f m k) = jsize m.
Proof. unfold jsize, jalter. by rewrite length_fmap. Qed.
Lemma jsize_jdel_le m k : jsize (jdel m k) ≤ jsize m.
Proof. unfold jsize, jdel. pose proof (length_filter (λ p : K * V, p.1 ≠ k) m). lia. Qed.

Lemma jdel_notin m k : k ∉ m.*1 → jdel m k = m.
Proof.
  unfold jdel. induction m as [|[k1 v1] m IH]; simpl; [done|].
  intros Hni. rewrite filter_cons. simpl.
  rewrite decide_True by set_solver. f_equal. set_solver.
Qed.

Lemma jdel_cons k1 v1 m k :
  jdel ((k1, v1) :: m) k = if decide (k1 = k) then jdel m k else (k1, v1) :: jdel m k.
Proof. unfold jdel. rewrite filter_cons. simpl. repeat case_decide; naive_solver. Qed.

Lemma jsize_jdel m k : jwf m → jsize (jdel m k) = jsize m - (if jhas m k then 1 else 0).
Proof.
  unfold jwf, jsize. induction m as [|[k1 v1] m IH]; [unfold jhas; simpl; lia|].
  intros [Hni Hnd]%NoDup_cons. rewrite jdel_cons. unfold jhas in *. simpl.
  destruct (decide (k1 = k)) as [->|Hne].
  - rewrite (jdel_notin m k) by done. lia.
  - simpl. specialize (IH Hnd). lia.
Qed.

Lemma jsize_le_keys m m' : jwf m → (∀ k, k ∈ m.*1 → k ∈ m'.*1) → jsize m ≤ jsize m'.
Proof.
  intros Hwf Hsub. unfold jsize. rewrite <-(length_fmap fst m), <-(length_fmap fst m').
  apply inj_le, submseteq_length, NoDup_submseteq; [exact Hwf|exact Hsub].
Qed.

(** ** Sums over the bindings *)
Definition jsum (f : K → V → Z) m : Z := foldr (λ p acc, f p.1 p.2 + acc) 0 m.

Lemma jsum_nonneg f m : (∀ k v, 0 ≤ f k v) → 0 ≤ jsum f m.
Proof. intros Hf. induction m as [|[k v] m IH]; simpl; [lia|]. specialize (Hf k v). lia. Qed.

Lemma jsum_jdel f m k :
  jwf m → jsum f (jdel m k) = jsum f m - match jget m k with Some v => f k v | None => 0 end.
Proof.
  unfold jwf. induction m as [|[k1 v1] m IH]; [simpl; lia|].
  intros [Hni Hnd]%NoDup_cons. rewrite jdel_cons. simpl.
  destruct (decide (k1 = k)) as [->|Hne].
  - rewrite (jdel_notin m k) by done. lia.
  - simpl. rewrite IH by done. lia.
Qed.

Lemma jsum_jset f m k v :
  jsum f (jset m k v) = jsum f m + f k v - match jget m k with Some v' => f k v' | None => 0 end.
Proof.
  induction m as [|[k1 v1] m IH]; simpl; [lia|].
  case_decide; simplify_eq/=; [lia|]. rewrite IH. lia.
Qed.

Lemma jsum_ext f g m : (∀ k v, (k, v) ∈ m → f k v = g k v) → jsum f m = jsum g m.
Proof.
  induction m as [|[k v] m IH]; intros Hfg; [done|]. simpl.
  rewrite (Hfg k v) by set_solver. rewrite IH; [done|].
  intros k' v' Hin. apply (Hfg k'). set_solver.
Qed.

Lemma jsum_jalter f g m k :
  jwf m → jsum f (jalter g m k) =
    jsum f m + match jget m k with Some v => f k (g v) - f k v | None => 0 end.
Proof.
  unfold jwf. induction m as [|[k1 v1] m IH]; [simpl; lia|].
  intros [Hni Hnd]%NoDup_cons. rewrite jalter_cons. simpl.
  destruct (decide (k1 = k)) as [->|Hne]; simpl.
  - assert (jget m k = None) as Hn by (by apply jget_None).
    specialize (IH Hnd). rewrite Hn in IH. lia.
  - rewrite IH by done. lia.
Qed.

Lemma jsum_app f m1 m2 : jsum f (m1 ++ m2) = jsum f m1 + jsum f m2.
Proof. induction m1 as [|[k v] m1 IH]; simpl; lia. Qed.

Lemma jsum_elem_le f m k v : (∀ k v, 0 ≤ f k v) → jget m k = Some v → f k v ≤ jsum f m.
Proof.
  intros Hf. induction m as [|[k1 v1] m IH]; simpl; [done|].
  pose proof (jsum_nonneg f m Hf). pose proof (Hf k1 v1).
  case_decide; intros; simplify_eq; [lia|]. specialize (IH ltac:(done)). lia.
Qed.
End jmap.

Arguments jget {_ _ _} !m k /.
Arguments jset {_ _ _} !m k v /.

Notation "m @[ k ]" := (jget m k) (at level 1, k at level 200, format "m @[ k ]") : js_scope.
Notation "m @[ k := v ]" := (jset m k v)
  (at level 1, k at level 200, v at level 200, format "m @[ k  :=  v ]") : js_scope.

#[export] Hint Resolve jwf_nil jwf_jset jwf_jdel jwf_jalter jsize_nonneg : axona.
#[export] Hint Rewrite @jget_jset_eq @jget_jdel_eq @jsize_jalter @jkeys_jalter : axona_rw.

(** * Stable sort by a numeric key, as [l.sort((a, b) => key(a) - key(b))] *)

(** * Lists *)

(** Two filters agree on a list as soon as they agree on its elements. *)
Lemma filter_ext_in {A} (P Q : A → Prop) `{!∀ x, Decision (P x), !∀ x, Decision (Q x)} (l : list A) :
  (∀ x, x ∈ l → (P x ↔ Q x)) → filter P l = filter Q l.
Proof.
  induction l as [|x l IH]; intros Hl; [done|].
  assert (filter P l = filter Q l) as E by (apply IH; intros y Hy; apply Hl; by right).
  assert (P x ↔ Q x) as Hx by (apply Hl; by left).
  destruct (decide (P x)).
  - rewrite !filter_cons_True by tauto. by rewrite E.
  - rewrite !filter_cons_False by tauto. by rewrite E.
Qed.

Lemma filter_all {A} (P : A → Prop) `{!∀ x, Decision (P x)} (l : list A) :
  (∀ x, x ∈ l → P x) → filter P l = l.
Proof.
  induction l as [|x l IH]; intros Hl; [done|]. rewrite filter_cons_True by (apply Hl; by left).
  rewrite IH; [done|]. intros y Hy. apply Hl. by right.
Qed.

Section sort_by.
Context {A : Type} (key : A → Z).

Fixpoint ins_by (x : A) (l : list A) : list A :=
  match l with
  | [] => [x]
  | y :: l' => if key x <=? key y then x :: y :: l' else y :: ins_by x l'
  end.

Definition sort_by (l : list A) : list A := foldr ins_by [] l.

Lemma ins_by_perm x l : ins_by x l ≡ₚ x :: l.
Proof.
  induction l as [|y l IH]; simpl; [done|].
  case_match; [done|]. rewrite IH. apply Permutation_swap.
Qed.

Lemma sort_by_perm l : sort_by l ≡ₚ l.
Proof.
  induction l as [|x l IH]; [done|]. unfold sort_by in *; simpl.
  by rewrite ins_by_perm, IH.
Qed.

Definition key_le (x y : A) : Prop := key x ≤ key y.

Lemma ins_by_sorted x l : StronglySorted key_le l → StronglySorted key_le (ins_by x l).
Proof.
  induction 1 as [|y l Hs IH Hf]; simpl; [repeat constructor|].
  destruct (key x <=? key y) eqn:E; zb.
  - constructor; [by constructor|]. constructor; [done|].
    eapply Forall_impl; [exact Hf|]. unfold key_le; simpl. lia.
  - constructor; [done|]. rewrite ins_by_perm. constructor; [|done].
    unfold key_le. lia.
Qed.

Lemma sort_by_sorted l : StronglySorted key_le (sort_by l).
Proof. induction l; simpl; [constructor|]. by apply ins_by_sorted. Qed.

Lemma elem_of_sort_by x l : x ∈ sort_by l ↔ x ∈ l.
Proof. by rewrite sort_by_perm. Qed.

(** What a prefix leaves behind is not smaller. *)
Lemma sort_by_take_le n l x y :
  x ∈ take n (sort_by l) → y ∈ l → y ∉ take n (sort_by l) → key x ≤ key y.
Proof.
  intros Hx Hy Hny. pose proof (sort_by_sorted l) as Hs.
  rewrite <-(take_drop n (sort_by l)) in Hs.
  refine (StronglySorted_app_1_elem_of _ _ _ _ _ Hs Hx _).
  apply elem_of_sort_by in Hy. rewrite <-(take_drop n (sort_by l)) in Hy.
  apply elem_of_app in Hy. naive_solver.
Qed.

(** How many entries are below a key decides the place in the sorted list. *)
Definition below (d : Z) (l : list A) : nat := length (filter (λ y, key y < d) l).

Lemma below_app d l1 l2 : below d (l1 ++ l2) = (below d l1 + below d l2)%nat.
Proof. unfold below. by rewrite filter_app, length_app. Qed.

#[export] Instance below_perm d : Proper (Permutation ==> eq) (below d).
Proof. intros l1 l2 H. unfold below. by rewrite H. Qed.

Lemma below_0 d l : (∀ y, y ∈ l → d ≤ key y) → below d l = 0%nat.
Proof.
  induction l as [|x l IH]; intros H; [done|]. unfold below in *. rewrite filter_cons, decide_False.
  - apply IH. intros y Hy. apply H. by right.
  - specialize (H x ltac:(left)). lia.
Qed.

Lemma below_le_length d l : (below d l ≤ length l)%nat.
Proof. apply length_filter. Qed.

Lemma below_all d l : (∀ y, y ∈ l → key y < d) → below d l = length l.
Proof.
  induction l as [|x l IH]; intros H; [done|]. unfold below in *. rewrite filter_cons, decide_True by (apply H; left).
  cbn. f_equal. apply IH. intros y Hy. apply H. by right.
Qed.

Lemma sorted_below_split l1 x l2 : StronglySorted key_le (l1 ++ x :: l2) → NoDup (key <$> (l1 ++ x :: l2)) →
  below (key x) (l1 ++ x :: l2) = length l1.
Proof.
  intros Hs Hn. rewrite below_app. rewrite (below_all _ l1), (below_0 _ (x :: l2)); [lia| |].
  - intros y Hy. apply StronglySorted_app_1_r in Hs. inversion Hs as [|? ? _ Hf]; subst.
    apply elem_of_cons in Hy as [->|Hy]; [lia|]. rewrite Forall_forall in Hf. by apply Hf.
  - intros y Hy. assert (key y ≤ key x) by (apply (StronglySorted_app_1_elem_of _ _ _ _ _ Hs Hy); left).
    rewrite fmap_app, NoDup_app in Hn. destruct Hn as (_ & Hn & _).
    assert (key y ≠ key x); [|lia]. intros E. apply (Hn (key y)); [by apply list_elem_of_fmap_2|]. rewrite E. left.
Qed.

Lemma take_sort_rank n l x : NoDup (key <$> l) →
  x ∈ take n (sort_by l) ↔ x ∈ l ∧ (below (key x) l < n)%nat.
Proof.
  intros Hn. rewrite <- (elem_of_sort_by x l). rewrite <- (sort_by_perm l) in Hn.
  assert (below (key x) l = below (key x) (sort_by l)) as -> by (by rewrite sort_by_perm).
  pose proof (sort_by_sorted l) as Hs. revert Hn Hs. generalize (sort_by l). clear l. intros l Hn Hs. split.
  - intros Hx. split; [rewrite <- (take_drop n l); apply elem_of_app; by left|].
    apply list_elem_of_lookup in Hx as [i Hi]. rewrite lookup_take_Some in Hi. destruct Hi as [Hi Hin].
    rewrite <- (take_drop_middle l i x Hi) in Hs, Hn |- *. rewrite (sorted_below_split _ _ _ Hs Hn), length_take. lia.
  - intros [Hx Hlt]. apply list_elem_of_lookup in Hx as [i Hi].
    assert (i < length l)%nat as Hil by (apply lookup_lt_is_Some; by eexists).
    rewrite <- (take_drop_middle l i x Hi) in Hs, Hn, Hlt. rewrite (sorted_below_split _ _ _ Hs Hn), length_take in Hlt.
    apply list_elem_of_lookup. exists i. apply lookup_take_Some. split; [done|lia].
Qed.

Lemma sorted_nth_below n d l : StronglySorted key_le l → (n < below d l)%nat → ∃ y, l !! n = Some y ∧ key y < d.
Proof.
  intros Hs Hlt. destruct (l !! n) as [y|] eqn:E.
  2: { apply lookup_ge_None in E. pose proof (below_le_length d l). lia. }
  exists y. split; [done|]. destruct (decide (key y < d)) as [|Hge]; [done|]. exfalso.
  rewrite <- (take_drop_middle l n y E) in Hs, Hlt. rewrite below_app, (below_0 _ (y :: _)) in Hlt.
  - pose proof (below_le_length d (take n l)). rewrite length_take in *. lia.
  - intros z Hz. apply StronglySorted_app_1_r in Hs. inversion Hs as [|? ? _ Hf]; subst.
    apply elem_of_cons in Hz as [->|Hz]; [lia|]. rewrite Forall_forall in Hf. specialize (Hf z Hz). unfold key_le in Hf. lia.
Qed.

Lemma sorted_nth_above n d y l : StronglySorted key_le l → l !! n = Some y → d ≤ key y → (below d l ≤ n)%nat.
Proof.
  intros Hs Hy Hd. rewrite <- (take_drop_middle l n y Hy) in Hs |- *. rewrite below_app, (below_0 _ (y :: _)).
  - pose proof (below_le_length d (take n l)). rewrite length_take in *. lia.
  - intros z Hz. apply StronglySorted_app_1_r in Hs. inversion Hs as [|? ? _ Hf]; subst.
    apply elem_of_cons in Hz as [->|Hz]; [lia|]. rewrite Forall_forall in Hf. specialize (Hf z Hz). unfold key_le in Hf. lia.
Qed.

Lemma length_sort_by l : length (sort_by l) = length l.
Proof. by rewrite sort_by_perm. Qed.
End sort_by.

#[export] Hint Resolve sort_by_perm sort_by_sorted : axona.

(** * Stable sort by a comparator, as [l.sort(cmp)] *)

Section sort_cmp.
Context {A : Type} (cmp : A → A → Z).

Fixpoint ins_cmp (x : A) (l : list A) : list A :=
  match l with
  | [] => [x]
  | y :: l' => if cmp x y <=? 0 then x :: y :: l' else y :: ins_cmp x l'
  end.
Definition sort_cmp (l : list A) : list A := foldr ins_cmp [] l.

Lemma ins_cmp_perm x l : ins_cmp x l ≡ₚ x :: l.
Proof.
  induction l as [|y l IH]; simpl; [done|].
  case_match; [done|]. rewrite IH. apply Permutation_swap.
Qed.

Lemma sort_cmp_perm l : sort_cmp l ≡ₚ l.
Proof.
  induction l as [|x l IH]; [done|]. unfold sort_cmp in *; simpl.
  by rewrite ins_cmp_perm, IH.
Qed.

Definition cmp_le (x y : A) : Prop := cmp x y ≤ 0.

(** A comparator JavaScript may be given: total and transitive. *)
Class Comparator : Prop := {
  cmp_total x y : cmp_le x y ∨ cmp_le y x;
  cmp_trans x y z : cmp_le x y → cmp_le y z → cmp_le x z
}.

Lemma sort_cmp_sorted `{!Comparator} l : StronglySorted cmp_le (sort_cmp l).
Proof.
  induction l as [|x l IH]; [constructor|]. unfold sort_cmp in *. simpl.
  induction IH as [|y l' Hs IH' Hf]; simpl; [repeat constructor|].
  destruct (cmp x y <=? 0) eqn:E; zb.
  - constructor; [by constructor|]. constructor; [exact E|].
    eapply Forall_impl; [exact Hf|]. intros z. by apply cmp_trans.
  - constructor; [done|]. rewrite ins_cmp_perm. constructor; [|done].
    destruct (cmp_total x y); [|done]. unfold cmp_le in *. lia.
Qed.

Lemma elem_of_sort_cmp x l : x ∈ sort_cmp l ↔ x ∈ l.
Proof. by rewrite sort_cmp_perm. Qed.

(** The first element of a sorted list that passes a test is a least one. *)
Lemma find_sorted_least `{!Comparator} (P : A → bool) l x y :
  List.find P (sort_cmp l) = Some x → y ∈ l → P y = true → cmp_le x y ∨ x = y.
Proof.
  rewrite <-(elem_of_sort_cmp y). pose proof (sort_cmp_sorted l) as Hs. revert Hs.
  generalize (sort_cmp l). clear l. intros l. induction l as [|z l IH]; [done|].
  intros Hs. inversion Hs as [|? ? Hs' Hf]; subst. cbn [List.find].
  destruct (P z) eqn:E.
  - intros [= <-] [->|Hy]%elem_of_cons _; [by right|left].
    rewrite Forall_forall in Hf. by apply Hf.
  - intros Hfi [->|Hy]%elem_of_cons HP; [congruence|by apply IH].
Qed.
End sort_cmp.

(** * [x | 0] of an integer *)

Definition to_int32 (z : Z) : Z := (z + 2 ^ 31) mod 2 ^ 32 - 2 ^ 31.

Lemma to_int32_id z : - 2 ^ 31 ≤ z < 2 ^ 31 → to_int32 z = z.
Proof. intros H. unfold to_int32. rewrite Z.mod_small by lia. lia. Qed.

(** * ASCII lower case, [String(s).toLowerCase()] *)

Definition lower_ascii (c : ascii) : ascii :=
  let n := Ascii.nat_of_ascii c in
  if (65 <=? n)%nat && (n <=? 90)%nat then Ascii.ascii_of_nat (n + 32) else c.

Fixpoint lc (s : string) : string :=
  match s with
  | EmptyString => EmptyString
  | String c s' => String (lower_ascii c) (lc s')
  end.

Lemma lower_ascii_idemp c : lower_ascii (lower_ascii c) = lower_ascii c.
Proof. by destruct c as [[] [] [] [] [] [] [] []]. Qed.

Lemma lc_idemp s : lc (lc s) = lc s.
Proof. induction s as [|c s IH]; simpl; [done|]. by rewrite lower_ascii_idemp, IH. Qed.

Lemma length_lc s : String.length (lc s) = String.length s.
Proof. induction s as [|c s IH]; simpl; congruence. Qed.

#[export] Hint Rewrite lc_idemp length_lc : axona_rw.
