(* ===== verification/HexId.v ===== *)
(** 264-bit identifier arithmetic of the keyspace: [src/src/utils/hexid.js] and
    the wire helpers of [src/src/pubsub/ids.js].

    The keyspace profile (module variables [_hashBits], [_regionBits] and the
    exported values [_recompute] derives from them) is the record [keyspace];
    every operation takes the profile it reads.  A bigint is a [Z]; a JavaScript
    value whose type the code tests is a [jsv]. *)

From Stdlib Require Import Ascii.
From stdpp Require Import base tactics sets list numbers strings.
From Stdlib Require Import ZArith Lia.
From S2P Require Import Prelude.

(** * The keyspace profile *)

Record keyspace := mk_keyspace {
  v_hashBits : Z; v_regionBits : Z; v_configured : bool;
  ID_BITS : Z; HASH_BITS : Z; S2_BITS : Z; HEX_CHARS : Z;
  AUTHOR_ID_BITS : Z; AUTHOR_HEX_CHARS : Z;
  MAX_ID : Z; MAX_HASH : Z; MAX_S2 : Z; HASH_MASK : Z; S2_SHIFT : Z;
  AUTH_VERIFY_RELAXED : bool
}.

(** [Math.ceil(n / 4)] on a non-negative integer. *)
Definition ceil4 (n : Z) : Z := (n + 3) / 4.

(** [_recompute()]: every exported width from the two configured ones. *)
Definition recompute (hashBits regionBits : Z) (configured : bool) : keyspace := {|
  v_hashBits := hashBits; v_regionBits := regionBits; v_configured := configured;
  HASH_BITS := hashBits;
  S2_BITS := regionBits;
  ID_BITS := regionBits + hashBits;
  HEX_CHARS := ceil4 (regionBits + hashBits);
  AUTHOR_ID_BITS := hashBits;
  AUTHOR_HEX_CHARS := ceil4 hashBits;
  MAX_HASH := Z.shiftl 1 hashBits - 1;
  MAX_ID := Z.shiftl 1 (regionBits + hashBits) - 1;
  MAX_S2 := Z.shiftl 1 regionBits - 1;
  HASH_MASK := Z.shiftl 1 hashBits - 1;
  S2_SHIFT := hashBits;
  AUTH_VERIFY_RELAXED := hashBits <? 256
|}.

Definition set_hashBits (ks : keyspace) (h : Z) : keyspace :=
  mk_keyspace h (v_regionBits ks) (v_configured ks) (ID_BITS ks) (HASH_BITS ks)
    (S2_BITS ks) (HEX_CHARS ks) (AUTHOR_ID_BITS ks) (AUTHOR_HEX_CHARS ks) (MAX_ID ks)
    (MAX_HASH ks) (MAX_S2 ks) (HASH_MASK ks) (S2_SHIFT ks) (AUTH_VERIFY_RELAXED ks).

(** The module's state as it is loaded. *)
Definition production : keyspace := recompute 256 8 false.

Definition rangeError : js_error := mk_error RangeErrorK None.
Definition typeError : js_error := mk_error TypeErrorK None.

Definition is_js_number (v : jsv) : bool :=
  match v with JInt _ | JFrac | JNonFinite => true | _ => false end.

(** [Number.isInteger(v)] and within [lo, hi]. *)
Definition int_in (v : jsv) (lo hi : Z) : option Z :=
  match v with
  | JInt z => if (z <? lo) || (z >? hi) then None else Some z
  | _ => None
  end.

(** [configureKeyspace({ hashBits, regionBits })]: the state it leaves, thrown
    error or not. The width of the hash is assigned before the region's check. *)
Definition configureKeyspace (ks : keyspace) (hashBits regionBits : jsv)
    : keyspace * js_result unit :=
  match (if is_js_number hashBits then
           match int_in hashBits 8 256 with
           | None => (ks, Throw rangeError)
           | Some h => (set_hashBits ks h, Ok tt)
           end
         else (ks, Ok tt)) with
  | (ks1, Throw e) => (ks1, Throw e)
  | (ks1, Ok _) =>
      if is_js_number regionBits then
        match int_in regionBits 0 16 with
        | None => (ks1, Throw rangeError)
        | Some r => (recompute (v_hashBits ks1) r true, Ok tt)
        end
      else (recompute (v_hashBits ks1) (v_regionBits ks1) true, Ok tt)
  end.

Record ks_info := mk_ks_info {
  i_regionBits : Z; i_hashBits : Z; i_idBits : Z; i_authorIdBits : Z;
  i_hexChars : Z; i_authorHexChars : Z; i_configured : bool; isProductionDefault : bool
}.

Definition getKeyspace (ks : keyspace) : ks_info := {|
  i_regionBits := S2_BITS ks; i_hashBits := HASH_BITS ks; i_idBits := ID_BITS ks;
  i_authorIdBits := AUTHOR_ID_BITS ks; i_hexChars := HEX_CHARS ks;
  i_authorHexChars := AUTHOR_HEX_CHARS ks; i_configured := v_configured ks;
  isProductionDefault := (v_hashBits ks =? 256) && (v_regionBits ks =? 8)
|}.

(** * Hexadecimal text *)

Definition hex_digit (d : Z) : ascii :=
  if d <? 10 then Ascii.ascii_of_nat (48 + Z.to_nat d)
  else Ascii.ascii_of_nat (87 + Z.to_nat d).

(** The value of a character of [[0-9a-fA-F]]. *)
Definition hex_val (c : ascii) : option Z :=
  let n := Z.of_nat (Ascii.nat_of_ascii c) in
  if (48 <=? n) && (n <=? 57) then Some (n - 48)
  else if (97 <=? n) && (n <=? 102) then Some (n - 87)
  else if (65 <=? n) && (n <=? 70) then Some (n - 55)
  else None.

(** [n.toString(16)] for a non-negative bigint. *)
Fixpoint hex_go (fuel : nat) (n : Z) (acc : string) : string :=
  match fuel with
  | O => acc
  | S f =>
      let acc' := String (hex_digit (n mod 16)) acc in
      if n / 16 =? 0 then acc' else hex_go f (n / 16) acc'
  end.
Definition toString16 (n : Z) : string := hex_go (S (Z.to_nat (Z.log2 n))) n "".

Fixpoint repeat_ascii (n : nat) (c : ascii) : string :=
  match n with O => EmptyString | S n' => String c (repeat_ascii n' c) end.

(** [s.padStart(w, '0')] *)
Definition padStart0 (s : string) (w : Z) : string :=
  (repeat_ascii (Z.to_nat w - String.length s) "0"%char +:+ s)%string.

(** [/^[0-9a-fA-F]+$/.test(h)], [BigInt('0x' + h)] *)
Fixpoint hex_fold (h : string) (acc : Z) : option Z :=
  match h with
  | EmptyString => Some acc
  | String c h' =>
      match hex_val c with Some d => hex_fold h' (16 * acc + d) | None => None end
  end.
Definition parseHex (h : string) : option Z :=
  match h with EmptyString => None | _ => hex_fold h 0 end.
Definition all_hex (h : string) : bool :=
  match parseHex h with Some _ => true | None => false end.

(** * Encoding *)

Definition BAD_ID_CODE : string := "AXONA_BAD_ID".
Definition badId (k : js_error_kind) : js_error := mk_error k (Some BAD_ID_CODE).

Definition toHex (ks : keyspace) (id : jsv) : js_result string :=
  match id with
  | JBig id =>
      if (id <? 0) || (id >? MAX_ID ks) then Throw rangeError
      else Ok (padStart0 (toString16 id) (HEX_CHARS ks))
  | _ => Throw typeError
  end.

Definition strlen (s : string) : Z := Z.of_nat (String.length s).

Definition fromHex (ks : keyspace) (hex : jsv) : js_result Z :=
  match hex with
  | JStr hex =>
      if negb (strlen hex =? HEX_CHARS ks) then Throw (badId RangeErrorK)
      else match parseHex hex with
           | None => Throw (badId RangeErrorK)
           | Some n => Ok n
           end
  | _ => Throw (badId TypeErrorK)
  end.

Definition isHexId (ks : keyspace) (hex : jsv) : bool :=
  match hex with
  | JStr hex => (strlen hex =? HEX_CHARS ks) && all_hex hex
  | _ => false
  end.

Definition strip0x (v : string) : string :=
  match v with
  | String "0" (String c h) =>
      if decide (c = "x"%char ∨ c = "X"%char) then h else v
  | _ => v
  end.

Definition asId (ks : keyspace) (v : jsv) : js_result Z :=
  match v with
  | JBig n =>
      if (n <? 0) || (n >? MAX_ID ks) then Throw (badId RangeErrorK) else Ok n
  | JStr s =>
      match parseHex (strip0x s) with
      | None => Throw (badId TypeErrorK)
      | Some n => if n >? MAX_ID ks then Throw (badId RangeErrorK) else Ok n
      end
  | _ => Throw (badId TypeErrorK)
  end.

(** [ids.js]: the egress pads to 66 digits whatever the profile. *)
Definition idHex (big : Z) : string := padStart0 (toString16 big) 66.
Definition idBig : keyspace → jsv → js_result Z := asId.

(** [ids.js isHexId]: [/^[0-9a-f]{1,66}$/] *)
Definition is_lower_hex (c : ascii) : bool :=
  let n := Ascii.nat_of_ascii c in
  ((48 <=? n) && (n <=? 57) || (97 <=? n) && (n <=? 102))%nat.
Fixpoint all_lower_hex (s : string) : bool :=
  match s with EmptyString => true | String c s' => is_lower_hex c && all_lower_hex s' end.
Definition ids_isHexId (s : string) : bool :=
  (1 <=? strlen s) && (strlen s <=? 66) && all_lower_hex s.

(** * Composition and decomposition *)

(** [randomU256()]: [getRandomValues] is the argument, 32 bytes. *)
Definition randomU256 (ks : keyspace) (bytes : list Z) : Z :=
  Z.land (foldl (λ n b, Z.lor (Z.shiftl n 8) b) 0 bytes) (HASH_MASK ks).

Definition assembleId (ks : keyspace) (s2Prefix hash256 : jsv) : js_result Z :=
  match int_in s2Prefix 0 (MAX_S2 ks) with
  | None => Throw rangeError
  | Some p =>
      match hash256 with
      | JBig h =>
          if (h <? 0) || (h >? MAX_HASH ks) then Throw rangeError
          else Ok (Z.lor (Z.shiftl p (S2_SHIFT ks)) h)
      | _ => Throw rangeError
      end
  end.

Definition extractS2Prefix (ks : keyspace) (id : jsv) : js_result Z :=
  match id with JBig id => Ok (Z.shiftr id (S2_SHIFT ks)) | _ => Throw typeError end.

Definition extractHash (ks : keyspace) (id : jsv) : js_result Z :=
  match id with JBig id => Ok (Z.land id (HASH_MASK ks)) | _ => Throw typeError end.

(** [parseInt(hex.slice(0, 2), 16)] on a valid id. *)
Definition s2PrefixOfHex (ks : keyspace) (hex : jsv) : js_result Z :=
  match hex with
  | JStr h =>
      if isHexId ks hex then
        match parseHex (String.substring 0 2 h) with
        | Some n => Ok n
        | None => Throw rangeError
        end
      else Throw rangeError
  | _ => Throw rangeError
  end.

(** * Distance and stratum *)

Definition xorDistance (a b : Z) : Z := Z.lxor a b.

(** [Math.clz32] on an unsigned 32-bit number. *)
Definition clz32 (x : Z) : Z := if x =? 0 then 32 else 31 - Z.log2 x.

Fixpoint clz_loop (ks : keyspace) (n : Z) (i : nat) : Z :=
  match i with
  | O => ID_BITS ks
  | S i' =>
      let chunk := Z.land (Z.shiftr n (Z.of_nat i' * 32)) 4294967295 in
      if negb (chunk =? 0)
      then ID_BITS ks - 1 - (Z.of_nat i' * 32 + (31 - clz32 chunk))
      else clz_loop ks n i'
  end.

Definition clz264 (ks : keyspace) (n : jsv) : js_result Z :=
  match n with
  | JBig n =>
      if n =? 0 then Ok (ID_BITS ks)
      else Ok (clz_loop ks n (Z.to_nat ((ID_BITS ks + 31) / 32)))
  | _ => Throw typeError
  end.

Definition stratumOf (ks : keyspace) (selfId peerId : Z) : js_result Z :=
  match clz264 ks (JBig (Z.lxor selfId peerId)) with
  | Ok c => Ok (Z.min (ID_BITS ks - 1) c)
  | Throw e => Throw e
  end.

(** * Well-formed profiles *)

(** The exported values are those of some profile in the configurable range. *)
Definition ks_wf (ks : keyspace) : Prop :=
  ∃ h r c, 8 ≤ h ≤ 256 ∧ 0 ≤ r ≤ 16 ∧
    ID_BITS ks = ID_BITS (recompute h r c) ∧ HASH_BITS ks = h ∧ S2_BITS ks = r ∧
    HEX_CHARS ks = HEX_CHARS (recompute h r c) ∧
    AUTHOR_ID_BITS ks = AUTHOR_ID_BITS (recompute h r c) ∧
    AUTHOR_HEX_CHARS ks = AUTHOR_HEX_CHARS (recompute h r c) ∧
    MAX_ID ks = MAX_ID (recompute h r c) ∧ MAX_HASH ks = MAX_HASH (recompute h r c) ∧
    MAX_S2 ks = MAX_S2 (recompute h r c) ∧ HASH_MASK ks = HASH_MASK (recompute h r c) ∧
    S2_SHIFT ks = S2_SHIFT (recompute h r c) ∧
    AUTH_VERIFY_RELAXED ks = AUTH_VERIFY_RELAXED (recompute h r c).

(** The configured widths are in range. *)
Definition ks_config_wf (ks : keyspace) : Prop :=
  8 ≤ v_hashBits ks ≤ 256 ∧ 0 ≤ v_regionBits ks ≤ 16.

Lemma recompute_wf h r c : 8 ≤ h ≤ 256 → 0 ≤ r ≤ 16 → ks_wf (recompute h r c).
Proof. intros. exists h, r, c. naive_solver. Qed.

Lemma production_wf : ks_wf production.
Proof. apply recompute_wf; lia. Qed.

Lemma int_in_Some v lo hi z : int_in v lo hi = Some z ↔ v = JInt z ∧ lo ≤ z ≤ hi.
Proof.
  destruct v; simpl; try naive_solver.
  destruct (_ || _)%bool eqn:E; [apply orb_true_iff in E|apply orb_false_iff in E].
  - rewrite Z.ltb_lt, Z.gtb_ltb, Z.ltb_lt in E. split; [done|]. intros [[=] ?]; lia.
  - rewrite Z.ltb_ge, Z.gtb_ltb, Z.ltb_ge in E. split; [intros [=->]|intros [[=->] ?]]; naive_solver lia.
Qed.

Lemma ks_wf_facts ks : ks_wf ks →
  8 ≤ ID_BITS ks ≤ 272 ∧ MAX_ID ks = 2 ^ ID_BITS ks - 1 ∧
  HEX_CHARS ks = (ID_BITS ks + 3) / 4 ∧ 8 ≤ S2_SHIFT ks ≤ 256 ∧
  HASH_BITS ks = S2_SHIFT ks ∧ 0 ≤ S2_BITS ks ≤ 16 ∧
  ID_BITS ks = S2_BITS ks + HASH_BITS ks ∧
  MAX_HASH ks = 2 ^ S2_SHIFT ks - 1 ∧ HASH_MASK ks = Z.ones (S2_SHIFT ks) ∧
  MAX_S2 ks = 2 ^ S2_BITS ks - 1.
Proof.
  intros (h & r & c & Hh & Hr & H1 & H2 & H3 & H4 & H5 & H6 & H7 & H8 & H9 & H10 & H11 & H12).
  rewrite H1, H2, H3, H4, H7, H8, H9, H10, H11. simpl. unfold ceil4, Z.ones.
  rewrite !Z.shiftl_1_l. split_and!; lia.
Qed.

(** * Hexadecimal text: lemmas *)

#[global] Arguments strlen : simpl never.
#[local] Arguments String.append !s1 s2 / : simpl nomatch, rename.

Fixpoint hval (s : string) : Z :=
  match s with
  | EmptyString => 0
  | String c s' => default 0 (hex_val c) * 16 ^ strlen s' + hval s'
  end.

Fixpoint is_hex (s : string) : Prop :=
  match s with EmptyString => True | String c s' => is_Some (hex_val c) ∧ is_hex s' end.

Lemma strlen_cons c s : strlen (String c s) = strlen s + 1.
Proof. unfold strlen; simpl; lia. Qed.
Lemma strlen_nonneg s : 0 ≤ strlen s.
Proof. unfold strlen; lia. Qed.
Lemma strlen_app s t : strlen (s +:+ t) = strlen s + strlen t.
Proof. induction s as [|c s IH]; simpl; [done|]. rewrite !strlen_cons, IH. lia. Qed.

Lemma hex_val_range c d : hex_val c = Some d → 0 ≤ d < 16.
Proof. destruct c as [[] [] [] [] [] [] [] []]; vm_compute; intros [=<-]; split; congruence. Qed.

Lemma hex_val_lower c d : hex_val c = Some d → lower_ascii c = hex_digit d.
Proof.
  intros H. assert (Hd := H). revert H Hd.
  destruct c as [[] [] [] [] [] [] [] []]; vm_compute hex_val; intros [=<-] _; reflexivity.
Qed.

Lemma Z_lt16 d : 0 ≤ d < 16 → d ∈ [0;1;2;3;4;5;6;7;8;9;10;11;12;13;14;15].
Proof.
  intros [Hl Hu]. change [0;1;2;3;4;5;6;7;8;9;10;11;12;13;14;15] with (seqZ 0 16).
  apply elem_of_seqZ. lia.
Qed.

Lemma hex_digit_facts d : 0 ≤ d < 16 →
  hex_val (hex_digit d) = Some d ∧ is_lower_hex (hex_digit d) = true ∧
  lower_ascii (hex_digit d) = hex_digit d.
Proof.
  intros Hd%Z_lt16. set (L := [0;1;2;3;4;5;6;7;8;9;10;11;12;13;14;15]) in *.
  assert (Forall (λ d, hex_val (hex_digit d) = Some d ∧ is_lower_hex (hex_digit d) = true ∧
    lower_ascii (hex_digit d) = hex_digit d) L) as HF by (subst L; repeat constructor).
  rewrite Forall_forall in HF. auto.
Qed.

Lemma hex_fold_hval s a : is_hex s → hex_fold s a = Some (a * 16 ^ strlen s + hval s).
Proof.
  revert a. induction s as [|c s IH]; intros a; simpl.
  { intros _. change (strlen "") with 0. f_equal. lia. }
  intros [[d Hd] Hs]. rewrite Hd, IH by done. rewrite strlen_cons, Z.pow_add_r by (pose proof (strlen_nonneg s); lia).
  simpl. f_equal. lia.
Qed.
Lemma hex_fold_is_hex s a n : hex_fold s a = Some n → is_hex s.
Proof.
  revert a. induction s as [|c s IH]; intros a; simpl; [done|].
  destruct (hex_val c); [|done]. intros. split; [eauto|]. by eapply IH.
Qed.

Lemma parseHex_Some s n : parseHex s = Some n ↔ s ≠ EmptyString ∧ is_hex s ∧ hval s = n.
Proof.
  destruct s as [|c s]; [naive_solver|].
  change (parseHex (String c s)) with (hex_fold (String c s) 0).
  split.
  - intros H. pose proof (hex_fold_is_hex _ _ _ H) as Hh.
    rewrite (hex_fold_hval _ _ Hh), Z.mul_0_l, Z.add_0_l in H. split_and!; [done..|].
    by injection H.
  - intros (_ & Hh & <-). by rewrite (hex_fold_hval _ _ Hh), Z.mul_0_l, Z.add_0_l.
Qed.

Lemma hval_bound s : is_hex s → 0 ≤ hval s < 16 ^ strlen s.
Proof.
  induction s as [|c s IH]; simpl; [done|]. intros [[d Hd] Hs].
  rewrite Hd, strlen_cons, Z.pow_add_r by (pose proof (strlen_nonneg s); lia).
  specialize (IH Hs). apply hex_val_range in Hd. simpl. nia.
Qed.

Lemma hval_app s t : hval (s +:+ t) = hval s * 16 ^ strlen t + hval t.
Proof.
  induction s as [|c s IH]; simpl; [lia|]. rewrite strlen_app, Z.pow_add_r, IH; [lia|..]; apply strlen_nonneg.
Qed.
Lemma is_hex_app s t : is_hex (s +:+ t) ↔ is_hex s ∧ is_hex t.
Proof. induction s; simpl; naive_solver. Qed.

Lemma app_cons_assoc s c t : (s +:+ String c t) = ((s +:+ String c "") +:+ t).
Proof. induction s as [|d s IH]; simpl; congruence. Qed.

Lemma lc_app s t : lc (s +:+ t) = (lc s +:+ lc t).
Proof. induction s; simpl; congruence. Qed.

(** The digits [hex_go] writes in front of the accumulator. *)
Lemma hex_go_spec fuel n acc :
  0 ≤ n → n < 16 ^ Z.of_nat fuel → fuel ≠ O →
  ∃ d, hex_go fuel n acc = (d +:+ acc) ∧ 1 ≤ strlen d ∧ is_hex d ∧ hval d = n ∧
    lc d = d ∧ (n ≠ 0 → 16 ^ (strlen d - 1) ≤ n) ∧ (n = 0 → strlen d = 1).
Proof.
  revert n acc. induction fuel as [|fuel IH]; intros n acc Hn Hlt Hf; [done|].
  assert (0 ≤ n mod 16 < 16) as Hm by (apply Z.mod_pos_bound; lia).
  destruct (hex_digit_facts _ Hm) as (Hv & Hl & Hlo). simpl hex_go.
  destruct (n / 16 =? 0) eqn:E; zb.
  - exists (String (hex_digit (n mod 16)) ""). simpl. rewrite Hv, Hlo. simpl.
    assert (n = n mod 16) by (pose proof (Z.div_mod n 16); lia).
    split_and!; try done; try (unfold strlen; simpl; lia); eauto.
  - assert (0 < n / 16) by (pose proof (Z.div_pos n 16); lia).
    assert (n / 16 < 16 ^ Z.of_nat fuel) as Hlt'.
    { apply Z.div_lt_upper_bound; [lia|]. rewrite Nat2Z.inj_succ, Z.pow_succ_r in Hlt; lia. }
    destruct (IH (n / 16) (String (hex_digit (n mod 16)) acc)) as (d & Hd & H1 & H2 & H3 & H4 & H5 & H6);
      [lia|done| |].
    { intros ->. simpl in Hlt'. change (Z.of_nat 0) with 0 in Hlt'. rewrite Z.pow_0_r in Hlt'. lia. }
    exists (d +:+ String (hex_digit (n mod 16)) "").
    rewrite Hd, hval_app, is_hex_app, strlen_app. simpl. rewrite Hv. simpl.
    change (strlen (String (hex_digit (n mod 16)) "")) with 1. change (strlen "") with 0.
    split_and!; eauto; try lia.
    + by rewrite <-app_cons_assoc.
    + rewrite H3. pose proof (Z.div_mod n 16). lia.
    + rewrite lc_app, H4. simpl. by rewrite Hlo.
    + intros _. specialize (H5 ltac:(lia)).
      replace (strlen d + 1 - 1) with (Z.succ (strlen d - 1)) by lia.
      rewrite Z.pow_succ_r by lia. pose proof (Z.div_mod n 16). lia.
    + intros ->. simpl in E. done.
Qed.

Lemma append_empty_r s : (s +:+ "")%string = s.
Proof. induction s; simpl; congruence. Qed.

Lemma toString16_spec n : 0 ≤ n →
  1 ≤ strlen (toString16 n) ∧ is_hex (toString16 n) ∧ hval (toString16 n) = n ∧
  lc (toString16 n) = toString16 n ∧ (n ≠ 0 → 16 ^ (strlen (toString16 n) - 1) ≤ n) ∧
  (n = 0 → strlen (toString16 n) = 1).
Proof.
  intros Hn. unfold toString16.
  destruct (hex_go_spec (S (Z.to_nat (Z.log2 n))) n "") as (d & -> & ?); [done| |done|].
  - rewrite Nat2Z.inj_succ, Z2Nat.id by apply Z.log2_nonneg.
    destruct (decide (n = 0)) as [->|]; [done|].
    destruct (Z.log2_spec n) as [_ Hlt]; [lia|]. eapply Z.lt_le_trans; [exact Hlt|].
    apply Z.pow_le_mono_l. lia.
  - by rewrite append_empty_r.
Qed.

(** The width of a number's text is bounded by any power of 16 above it. *)
Lemma toString16_width n w : 0 ≤ n < 16 ^ w → 1 ≤ w → strlen (toString16 n) ≤ w.
Proof.
  intros [Hn Hlt] Hw. destruct (toString16_spec n Hn) as (H1 & _ & _ & _ & Hp & H0).
  destruct (decide (n = 0)) as [->|Hne]; [rewrite H0 by done; lia|].
  specialize (Hp Hne). destruct (decide (strlen (toString16 n) ≤ w)); [done|].
  exfalso. assert (16 ^ w ≤ 16 ^ (strlen (toString16 n) - 1)); [|lia].
  apply Z.pow_le_mono_r; lia.
Qed.

Lemma zeros_facts k : is_hex (repeat_ascii k "0") ∧ hval (repeat_ascii k "0") = 0 ∧
  lc (repeat_ascii k "0") = repeat_ascii k "0" ∧ strlen (repeat_ascii k "0") = Z.of_nat k.
Proof.
  induction k as [|k (IH1 & IH2 & IH3 & IH4)]; [done|]. simpl. rewrite IH2, IH3, strlen_cons, IH4.
  split_and!; [by eexists|done|done|done|lia].
Qed.

Lemma padStart0_spec n w : 0 ≤ n < 16 ^ w → 1 ≤ w →
  let s := padStart0 (toString16 n) w in
  strlen s = w ∧ is_hex s ∧ hval s = n ∧ lc s = s.
Proof.
  intros Hn Hw. pose proof (toString16_width n w Hn Hw) as Hwid.
  destruct (toString16_spec n) as (H1 & H2 & H3 & H4 & _); [lia|].
  unfold padStart0. set (k := (Z.to_nat w - String.length (toString16 n))%nat).
  destruct (zeros_facts k) as (Z1 & Z2 & Z3 & Z4). simpl.
  rewrite strlen_app, is_hex_app, hval_app, lc_app, Z2, Z3, Z4, H3, H4.
  split_and!; [|done..|lia|done]. subst k. unfold strlen in *. lia.
Qed.

Lemma is_hex_all_hex s : is_hex s → s ≠ EmptyString → all_hex s = true.
Proof.
  intros Hh Hne. unfold all_hex. destruct (parseHex s) eqn:E; [done|].
  assert (parseHex s = Some (hval s)) by (by apply parseHex_Some). congruence.
Qed.

(** Lexicographic order on hex text of one width is the numeric order. *)
Lemma hex_compare_ascii a b x y : hex_val a = Some x → hex_val b = Some y →
  Ascii.compare (lower_ascii a) (lower_ascii b) = (x ?= y).
Proof.
  intros Ha Hb. rewrite (hex_val_lower _ _ Ha), (hex_val_lower _ _ Hb).
  apply hex_val_range in Ha, Hb. apply Z_lt16 in Ha, Hb.
  set (L := [0;1;2;3;4;5;6;7;8;9;10;11;12;13;14;15]) in *.
  assert (Forall (λ x, Forall (λ y, Ascii.compare (hex_digit x) (hex_digit y) = (x ?= y)) L) L)
    as HF by (subst L; repeat constructor).
  rewrite Forall_forall in HF. specialize (HF x Ha). rewrite Forall_forall in HF. auto.
Qed.

Lemma hex_compare s t : is_hex s → is_hex t → strlen s = strlen t →
  String.compare (lc s) (lc t) = (hval s ?= hval t).
Proof.
  revert t. induction s as [|a s IH]; intros [|b t]; simpl; [done|unfold strlen; simpl; lia..|].
  rewrite !strlen_cons. intros [[x Hx] Hs] [[y Hy] Ht] Hlen.
  rewrite (hex_compare_ascii _ _ _ _ Hx Hy), Hx, Hy. simpl.
  assert (strlen s = strlen t) as Hl by lia. rewrite Hl.
  pose proof (hval_bound s Hs) as B1. pose proof (hval_bound t Ht) as B2. rewrite Hl in B1.
  destruct (Z.compare_spec x y) as [->|Hlt|Hgt].
  - rewrite IH by done. symmetry. apply Z.add_compare_mono_l.
  - symmetry. apply Z.compare_lt_iff. nia.
  - symmetry. apply Z.compare_gt_iff. nia.
Qed.

(** * Encoding: lemmas *)

Lemma ks_width ks id : ks_wf ks → 0 ≤ id ≤ MAX_ID ks →
  0 ≤ id < 16 ^ HEX_CHARS ks ∧ 2 ≤ HEX_CHARS ks ≤ 68.
Proof.
  intros Hks Hid. destruct (ks_wf_facts ks Hks) as (Hb & HM & HH & _).
  rewrite HM in Hid. rewrite HH.
  pose proof (Z.div_mod (ID_BITS ks + 3) 4 ltac:(lia)) as Hdm.
  pose proof (Z.mod_pos_bound (ID_BITS ks + 3) 4 ltac:(lia)).
  split; [|lia]. split; [lia|]. change 16 with (2 ^ 4). rewrite <-Z.pow_mul_r by lia.
  apply Z.lt_le_trans with (2 ^ ID_BITS ks); [lia|]. apply Z.pow_le_mono_r; lia.
Qed.

Lemma toHex_Ok ks id : ks_wf ks → 0 ≤ id ≤ MAX_ID ks →
  toHex ks (JBig id) = Ok (padStart0 (toString16 id) (HEX_CHARS ks)).
Proof.
  intros _ Hid. simpl. destruct (_ || _)%bool eqn:E; [|done].
  apply orb_true_iff in E. rewrite Z.gtb_ltb, !Z.ltb_lt in E. lia.
Qed.

Lemma toHex_text ks id s : ks_wf ks → 0 ≤ id ≤ MAX_ID ks → toHex ks (JBig id) = Ok s →
  strlen s = HEX_CHARS ks ∧ is_hex s ∧ hval s = id ∧ lc s = s ∧ s ≠ EmptyString.
Proof.
  intros Hks Hid. rewrite toHex_Ok by done. intros [=<-].
  destruct (ks_width ks id Hks Hid) as [Hw Hc].
  destruct (padStart0_spec id (HEX_CHARS ks)) as (H1 & H2 & H3 & H4); [done|lia|].
  split_and!; try done. intros He. rewrite He in H1. change (strlen "") with 0 in H1. lia.
Qed.

Lemma fromHex_Ok ks h n :
  fromHex ks (JStr h) = Ok n ↔ strlen h = HEX_CHARS ks ∧ parseHex h = Some n.
Proof.
  simpl. destruct (strlen h =? HEX_CHARS ks) eqn:E; simpl; zb; [|naive_solver].
  destruct (parseHex h); naive_solver.
Qed.

Lemma hex_nox s : is_hex s → strip0x s = s.
Proof.
  destruct s as [|c s]; [done|]. simpl. intros [[d Hd] Hs].
  destruct c as [[] [] [] [] [] [] [] []]; try done.
  destruct s as [|c' s]; [done|]. destruct Hs as [[d' Hd'] _].
  case_decide as Hx; [|done]. destruct Hx as [-> | ->]; vm_compute in Hd'; done.
Qed.

Lemma asId_hex ks s id : is_hex s → s ≠ EmptyString → hval s = id → id ≤ MAX_ID ks →
  asId ks (JStr s) = Ok id ∧ asId ks (JStr ("0x" +:+ s)) = Ok id ∧
  asId ks (JStr ("0X" +:+ s)) = Ok id.
Proof.
  intros Hh Hne Hv Hmax. assert (parseHex s = Some id) as Hp by (by apply parseHex_Some).
  simpl. rewrite (hex_nox s Hh), Hp, Z.gtb_ltb.
  destruct (MAX_ID ks <? id) eqn:E; [zlia|done].
Qed.

Lemma hex_lower_char c d : hex_val c = Some d → lower_ascii c = c → is_lower_hex c = true.
Proof.
  intros Hv Hl. rewrite (hex_val_lower c d Hv) in Hl. pose proof (hex_val_range c d Hv) as Hr.
  rewrite <-Hl. clear -Hr. pose proof (Z_lt16 d Hr) as Hin. clear Hr.
  repeat (apply elem_of_cons in Hin as [->|Hin]; [reflexivity|]). by apply elem_of_nil in Hin.
Qed.

Lemma lower_hex_text s : is_hex s → lc s = s → all_lower_hex s = true.
Proof.
  induction s as [|c s IH]; [done|]. cbn [is_hex lc all_lower_hex]. intros [(d & Hd) Hs] Hl.
  injection Hl as Hc Hl. rewrite (hex_lower_char c d), IH; done.
Qed.

(** Text that passes [isHexId] always converts, and an id's text passes it. *)
Lemma lower_hex_is_hex s : all_lower_hex s = true → is_hex s.
Proof.
  induction s as [|c s IH]; [done|]. cbn [all_lower_hex is_hex]. intros [Hc Hs]%andb_true_iff. split; [|by apply IH].
  unfold is_lower_hex in Hc. unfold hex_val. set (n := Ascii.nat_of_ascii c) in *.
  apply orb_true_iff in Hc as [[H1 H2]%andb_true_iff|[H1 H2]%andb_true_iff]; apply Nat.leb_le in H1, H2.
  - rewrite (proj2 (Z.leb_le 48 _)), (proj2 (Z.leb_le _ 57)) by lia. by eexists.
  - destruct (_ && _); [by eexists|]. rewrite (proj2 (Z.leb_le 97 _)), (proj2 (Z.leb_le _ 102)) by lia. by eexists.
Qed.

Lemma isHexId_asId s : ids_isHexId s = true → asId production (JStr s) = Ok (hval s) ∧ 0 ≤ hval s < 2 ^ 264.
Proof.
  unfold ids_isHexId. intros [[H1 H2]%andb_true_iff H3]%andb_true_iff. zb. apply lower_hex_is_hex in H3.
  pose proof (hval_bound s H3) as Hb.
  assert (16 ^ strlen s ≤ 2 ^ 264) by (change (2 ^ 264) with (16 ^ 66); apply Z.pow_le_mono_r; lia).
  split; [|lia]. assert (hval s ≤ MAX_ID production) as Hm by (change (MAX_ID production) with (2 ^ 264 - 1); lia).
  refine (proj1 (asId_hex production s (hval s) H3 _ eq_refl Hm)). intros ->. unfold strlen in H1. cbn in H1. lia.
Qed.

Lemma idHex_spec id : 0 ≤ id < 2 ^ 264 →
  catch (asId production (JStr (idHex id))) = Some id ∧ lc (idHex id) = idHex id ∧ ids_isHexId (idHex id) = true.
Proof.
  intros H. destruct (padStart0_spec id 66) as (H1 & H2 & H3 & H4); [lia|lia|]. unfold idHex.
  destruct (asId_hex production (padStart0 (toString16 id) 66) id) as (-> & _); try done.
  - intros E. rewrite E in H1. done.
  - change (MAX_ID production) with (2 ^ 264 - 1). lia.
  - split_and!; [done|done|]. unfold ids_isHexId. rewrite H1, (lower_hex_text _ H2 H4). done.
Qed.

(** * Distance: lemmas *)

Lemma clz_loop_spec ks n i : 0 < n < 2 ^ (32 * Z.of_nat i) →
  clz_loop ks n i = ID_BITS ks - 1 - Z.log2 n.
Proof.
  induction i as [|i IH]; intros [Hn Hlt]; [simpl in Hlt; lia|]. cbn [clz_loop].
  rewrite Nat2Z.inj_succ in Hlt. set (k := Z.of_nat i) in *.
  assert (0 ≤ Z.shiftr n (k * 32)) as H0 by (apply Z.shiftr_nonneg; lia).
  assert (Z.shiftr n (k * 32) < 2 ^ 32) as H1.
  { rewrite Z.shiftr_div_pow2 by lia. apply Z.div_lt_upper_bound; [lia|].
    rewrite <-Z.pow_add_r by lia. by replace (k * 32 + 32) with (32 * Z.succ k) by lia. }
  change 4294967295 with (Z.ones 32). rewrite Z.land_ones, Z.mod_small by lia.
  destruct (Z.shiftr n (k * 32) =? 0) eqn:E; simpl; zb.
  - apply IH. split; [done|]. apply Z.shiftr_eq_0_iff in E as [->|[_ Hl]]; [lia|].
    apply Z.log2_lt_pow2; [done|]. replace (32 * k) with (k * 32) by lia. lia.
  - unfold clz32. rewrite (proj2 (Z.eqb_neq _ _) E).
    rewrite Z.log2_shiftr by done.
    assert (k * 32 ≤ Z.log2 n); [|lia].
    destruct (decide (k * 32 ≤ Z.log2 n)); [done|].
    exfalso. apply E, Z.shiftr_eq_0_iff. right. lia.
Qed.

Lemma clz264_log2 ks n : ks_wf ks → 0 < n ≤ MAX_ID ks →
  clz264 ks (JBig n) = Ok (ID_BITS ks - 1 - Z.log2 n).
Proof.
  intros Hks Hn. destruct (ks_wf_facts ks Hks) as (Hb & HM & _). simpl.
  rewrite (proj2 (Z.eqb_neq n 0)) by lia. f_equal. apply clz_loop_spec.
  split; [lia|]. rewrite Z2Nat.id by (apply Z.div_pos; lia).
  apply Z.lt_le_trans with (2 ^ ID_BITS ks); [lia|]. apply Z.pow_le_mono_r; [lia|].
  pose proof (Z.div_mod (ID_BITS ks + 31) 32). pose proof (Z.mod_pos_bound (ID_BITS ks + 31) 32). lia.
Qed.

Lemma lxor_range k a b : 0 ≤ k → 0 ≤ a < 2 ^ k → 0 ≤ b < 2 ^ k → 0 ≤ Z.lxor a b < 2 ^ k.
Proof.
  intros Hk Ha Hb. split; [apply Z.lxor_nonneg; lia|].
  destruct (decide (Z.lxor a b = 0)) as [->|Hne]; [lia|].
  assert (0 ≤ Z.lxor a b) by (apply Z.lxor_nonneg; lia).
  apply Z.log2_lt_pow2; [lia|]. eapply Z.le_lt_trans; [apply Z.log2_lxor; lia|].
  assert (∀ x, 0 ≤ x < 2 ^ k → Z.log2 x < k ∨ k = 0) as Hl.
  { intros x Hx. destruct (decide (x = 0)) as [->|]; [simpl; lia|].
    left. apply Z.log2_lt_pow2; lia. }
  destruct (Hl a Ha), (Hl b Hb); subst; try lia.
  - simpl in *. exfalso. apply Hne. assert (a = 0) as -> by lia. by assert (b = 0) as -> by lia.
  - exfalso. apply Hne. simpl in *. assert (a = 0) as -> by lia. by assert (b = 0) as -> by lia.
  - exfalso. apply Hne. simpl in *. assert (a = 0) as -> by lia. by assert (b = 0) as -> by lia.
Qed.

Lemma xor_distance_triangle a b c : 0 ≤ a → 0 ≤ b → 0 ≤ c →
  Z.lxor a c ≤ Z.lxor a b + Z.lxor b c.
Proof.
  intros. replace (Z.lxor a c) with (Z.lxor (Z.lxor a b) (Z.lxor b c)).
  - pose proof (Z.add_lxor_2land (Z.lxor a b) (Z.lxor b c)).
    assert (0 ≤ Z.land (Z.lxor a b) (Z.lxor b c)); [|lia].
    apply Z.land_nonneg. left. apply Z.lxor_nonneg. lia.
  - rewrite Z.lxor_assoc, <-(Z.lxor_assoc b b c), Z.lxor_nilpotent, Z.lxor_0_l. done.
Qed.

Lemma lxor_cancel a b t : Z.lxor a t = Z.lxor b t → a = b.
Proof.
  intros H. rewrite <-(Z.lxor_0_r a), <-(Z.lxor_0_r b), <-(Z.lxor_nilpotent t).
  by rewrite <-!Z.lxor_assoc, H.
Qed.

Lemma lor_shiftl_add k p h : 0 ≤ k → 0 ≤ h < 2 ^ k →
  Z.lor (Z.shiftl p k) h = p * 2 ^ k + h.
Proof.
  intros Hk Hh. rewrite <-Z.shiftl_mul_pow2 by done. symmetry. apply Z.add_nocarry_lor.
  apply Z.bits_inj'. intros n Hn. rewrite Z.land_spec, Z.bits_0.
  destruct (decide (n < k)); [by rewrite Z.shiftl_spec_low|].
  rewrite <-(Z.mod_small h (2 ^ k)) by done.
  by rewrite Z.mod_pow2_bits_high, andb_false_r by lia.
Qed.

(** * Properties *)

(** Encoding: every id of the keyspace has a hex text of exactly
    [HEX_CHARS] lower-case digits, which [isHexId] accepts and which
    [fromHex] and [asId] (with or without [0x]) decode to the id. *)
Theorem toHex_fromHex_roundtrip (ks : keyspace) (id : Z) :
  ks_wf ks → 0 ≤ id ≤ MAX_ID ks →
  ∃ s, toHex ks (JBig id) = Ok s ∧ strlen s = HEX_CHARS ks ∧ lc s = s ∧
    isHexId ks (JStr s) = true ∧ fromHex ks (JStr s) = Ok id ∧
    asId ks (JStr s) = Ok id ∧ asId ks (JStr ("0x" +:+ s)) = Ok id.
Proof.
  intros Hks Hid. pose proof (toHex_Ok ks id Hks Hid) as HOk. eexists. split; [exact HOk|].
  destruct (toHex_text ks id _ Hks Hid HOk) as (H1 & H2 & H3 & H4 & H5).
  destruct (asId_hex ks _ id H2 H5 H3 ltac:(lia)) as (A1 & A2 & _).
  split_and!; try done.
  - unfold isHexId. rewrite H1, Z.eqb_refl. simpl. by apply is_hex_all_hex.
  - apply fromHex_Ok. split; [done|]. by apply parseHex_Some.
Qed.

Lemma toHex_fromHex_roundtrip_witness :
  ∃ s, toHex production (JBig 255) = Ok s ∧ strlen s = 66 ∧ lc s = s ∧
    isHexId production (JStr s) = true ∧ fromHex production (JStr s) = Ok 255 ∧
    asId production (JStr s) = Ok 255 ∧ asId production (JStr ("0x" +:+ s)) = Ok 255.
Proof.
  apply (toHex_fromHex_roundtrip production 255).
  - exists 256, 8, false. repeat split; discriminate.
  - split; discriminate.
Defined.

(** Decoding: [fromHex] accepts exactly the hex texts of width
    [HEX_CHARS], in either case, answers every refusal with the [BAD_ID_CODE]
    tag, and on byte-aligned profiles the canonical text of what it returns
    is the lower-cased input; ordering by canonical text is ordering by id. *)
Theorem fromHex_canonical (ks : keyspace) (h : string) :
  ks_wf ks → (ID_BITS ks) mod 4 = 0 →
  match fromHex ks (JStr h) with
  | Ok n => isHexId ks (JStr h) = true ∧ toHex ks (JBig n) = Ok (lc h) ∧
      ∀ h' n', fromHex ks (JStr h') = Ok n' →
        String.compare (lc h) (lc h') = (n ?= n')
  | Throw e => isHexId ks (JStr h) = false ∧ err_code e = Some BAD_ID_CODE
  end.
Proof.
  intros Hks H4. destruct (fromHex ks (JStr h)) as [n|e] eqn:E.
  - apply fromHex_Ok in E as [Hlen Hp]. apply parseHex_Some in Hp as (Hne & Hh & Hv).
    destruct (ks_wf_facts ks Hks) as (Hb & HM & HH & _).
    assert (4 * HEX_CHARS ks = ID_BITS ks) as HW.
    { rewrite HH. pose proof (Z.div_mod (ID_BITS ks) 4).
      replace (ID_BITS ks + 3) with (3 + ID_BITS ks / 4 * 4) by lia.
      rewrite Z.div_add by lia. change (3 / 4) with 0. lia. }
    pose proof (hval_bound h Hh) as Hbd. rewrite Hlen, Hv in Hbd.
    change 16 with (2 ^ 4) in Hbd. rewrite <-Z.pow_mul_r, HW in Hbd by lia.
    assert (0 ≤ n ≤ MAX_ID ks) as Hn by lia.
    split_and!.
    + unfold isHexId. rewrite Hlen, Z.eqb_refl. by apply is_hex_all_hex.
    + pose proof (toHex_Ok ks n Hks Hn) as HOk. rewrite HOk. f_equal.
      destruct (toHex_text ks n _ Hks Hn HOk) as (T1 & T2 & T3 & T4 & _).
      rewrite <-T4. apply String.compare_eq_iff.
      rewrite hex_compare, T3, Hv by (done || congruence). apply Z.compare_refl.
    + intros h' n' [Hl' Hp']%fromHex_Ok. apply parseHex_Some in Hp' as (_ & Hh' & Hv').
      rewrite hex_compare by (done || congruence). by rewrite Hv, Hv'.
  - simpl in E. unfold isHexId, all_hex. destruct (strlen h =? HEX_CHARS ks); simpl in *; simplify_eq; [|done].
    destruct (parseHex h); simplify_eq. done.
Qed.

Lemma fromHex_canonical_witness :
  let h := ("AB" +:+ repeat_ascii 64 "0")%string in
  match fromHex production (JStr h) with
  | Ok n => isHexId production (JStr h) = true ∧ toHex production (JBig n) = Ok (lc h) ∧
      ∀ h' n', fromHex production (JStr h') = Ok n' →
        String.compare (lc h) (lc h') = (n ?= n')
  | Throw e => isHexId production (JStr h) = false ∧ err_code e = Some BAD_ID_CODE
  end.
Proof.
  apply (fromHex_canonical production).
  - exists 256, 8, false. repeat split; discriminate.
  - reflexivity.
Defined.

(** Composition: [assembleId] accepts exactly an in-range integer prefix
    and an in-range bigint hash, its id is in the keyspace, [extractS2Prefix]
    and [extractHash] give the parts back, and every id of the keyspace is the
    assembly of its own parts. *)
Theorem assembleId_extract (ks : keyspace) (Hks : ks_wf ks) :
  (∀ p h, 0 ≤ p ≤ MAX_S2 ks → 0 ≤ h ≤ MAX_HASH ks →
     ∃ id, assembleId ks (JInt p) (JBig h) = Ok id ∧ 0 ≤ id ≤ MAX_ID ks ∧
       extractS2Prefix ks (JBig id) = Ok p ∧ extractHash ks (JBig id) = Ok h) ∧
  (∀ id, 0 ≤ id ≤ MAX_ID ks →
     ∃ p h, extractS2Prefix ks (JBig id) = Ok p ∧ extractHash ks (JBig id) = Ok h ∧
       assembleId ks (JInt p) (JBig h) = Ok id).
Proof.
  destruct (ks_wf_facts ks Hks) as (Hb & HM & _ & Hsh & HHB & HS & HID & HMH & Hmask & HMS).
  set (k := S2_SHIFT ks) in *.
  assert (∀ p h, 0 ≤ h < 2 ^ k → Z.lor (Z.shiftl p k) h = p * 2 ^ k + h) as Hlor.
  { intros. apply lor_shiftl_add; lia. }
  assert (∀ p h, 0 ≤ p ≤ MAX_S2 ks → 0 ≤ h ≤ MAX_HASH ks →
    assembleId ks (JInt p) (JBig h) = Ok (p * 2 ^ k + h)) as Has.
  { intros p h Hp Hh. unfold assembleId.
    rewrite (proj2 (int_in_Some (JInt p) 0 (MAX_S2 ks) p)) by done.
    rewrite Z.gtb_ltb, (proj2 (Z.ltb_ge h 0)), (proj2 (Z.ltb_ge (MAX_HASH ks) h)) by lia. simpl.
    f_equal. apply Hlor. lia. }
  assert (2 ^ ID_BITS ks = 2 ^ S2_BITS ks * 2 ^ k) as Hpow by (rewrite HID, HHB, Z.pow_add_r; lia).
  split.
  - intros p h Hp Hh. eexists. split; [by apply Has|]. simpl. fold k.
    rewrite Hmask, Z.land_ones, Z.shiftr_div_pow2 by lia.
    rewrite (Z.add_comm (p * 2 ^ k)), Z.div_add, Z.mod_add, Z.div_small, Z.mod_small by lia.
    split_and!; [nia|nia|done|done].
  - intros id Hid. exists (id / 2 ^ k), (id mod 2 ^ k). simpl. fold k.
    rewrite Hmask, Z.land_ones, Z.shiftr_div_pow2 by lia.
    pose proof (Z.div_mod id (2 ^ k)). pose proof (Z.mod_pos_bound id (2 ^ k)).
    split_and!; [done..|]. rewrite Has; [f_equal; lia| |lia].
    split; [apply Z.div_pos; lia|].
    assert (id / 2 ^ k < 2 ^ S2_BITS ks); [|lia]. apply Z.div_lt_upper_bound; lia.
Qed.

Lemma assembleId_extract_witness :
  (∀ p h, 0 ≤ p ≤ 255 → 0 ≤ h ≤ 2 ^ 256 - 1 →
     ∃ id, assembleId production (JInt p) (JBig h) = Ok id ∧ 0 ≤ id ≤ MAX_ID production ∧
       extractS2Prefix production (JBig id) = Ok p ∧ extractHash production (JBig id) = Ok h) ∧
  assembleId production (JInt 256) (JBig 0) = Throw rangeError.
Proof.
  split; [|reflexivity]. apply (assembleId_extract production).
  exists 256, 8, false. repeat split; discriminate.
Defined.

(** Stratum: for two distinct ids of the keyspace, [clz264] of their XOR
    counts their shared leading bits: [stratumOf] is the number [s] such that
    the ids agree on every bit above position [ID_BITS - 1 - s] and differ
    there; it is a valid bucket index, symmetric, and [ID_BITS - 1] on equal
    ids. *)
Theorem stratumOf_shared_prefix (ks : keyspace) (a b : Z) :
  ks_wf ks → 0 ≤ a ≤ MAX_ID ks → 0 ≤ b ≤ MAX_ID ks →
  ∃ s, stratumOf ks a b = Ok s ∧ stratumOf ks b a = Ok s ∧ 0 ≤ s ≤ ID_BITS ks - 1 ∧
    (a = b → s = ID_BITS ks - 1) ∧
    (a ≠ b → clz264 ks (JBig (Z.lxor a b)) = Ok s ∧
       Z.testbit a (ID_BITS ks - 1 - s) ≠ Z.testbit b (ID_BITS ks - 1 - s) ∧
       ∀ j, ID_BITS ks - 1 - s < j → Z.testbit a j = Z.testbit b j).
Proof.
  intros Hks Ha Hb. destruct (ks_wf_facts ks Hks) as (Hbits & HM & _). unfold stratumOf.
  rewrite (Z.lxor_comm b a).
  destruct (decide (a = b)) as [->|Hne].
  - rewrite Z.lxor_nilpotent. simpl. exists (ID_BITS ks - 1).
    rewrite Z.min_l by lia. naive_solver lia.
  - assert (0 < Z.lxor a b) as Hpos.
    { assert (0 ≤ Z.lxor a b) by (apply Z.lxor_nonneg; lia).
      assert (Z.lxor a b ≠ 0); [|lia]. by intros ?%Z.lxor_eq. }
    pose proof (lxor_range (ID_BITS ks) a b) as Hr.
    rewrite clz264_log2 by (done || lia).
    assert (0 ≤ Z.log2 (Z.lxor a b) < ID_BITS ks) as Hlog.
    { split; [apply Z.log2_nonneg|]. apply Z.log2_lt_pow2; lia. }
    rewrite Z.min_r by lia. eexists. split_and!; [done..|lia|lia|done|].
    intros _. split; [done|].
    replace (ID_BITS ks - 1 - (ID_BITS ks - 1 - Z.log2 (Z.lxor a b))) with (Z.log2 (Z.lxor a b)) by lia.
    split.
    + pose proof (Z.bit_log2 (Z.lxor a b) Hpos) as Hbit. rewrite Z.lxor_spec in Hbit.
      by destruct (Z.testbit a _), (Z.testbit b _).
    + intros j Hj. pose proof (Z.bits_above_log2 (Z.lxor a b) j ltac:(lia) Hj) as Hbit.
      rewrite Z.lxor_spec in Hbit. by destruct (Z.testbit a j), (Z.testbit b j).
Qed.

Lemma stratumOf_shared_prefix_witness :
  ∃ s, stratumOf production 5 4 = Ok s ∧ stratumOf production 4 5 = Ok s ∧ 0 ≤ s ≤ 263 ∧
    (5 = 4 → s = 263) ∧
    (5 ≠ 4 → clz264 production (JBig (Z.lxor 5 4)) = Ok s ∧
       Z.testbit 5 (ID_BITS production - 1 - s) ≠ Z.testbit 4 (ID_BITS production - 1 - s) ∧
       ∀ j, ID_BITS production - 1 - s < j → Z.testbit 5 j = Z.testbit 4 j).
Proof.
  apply (stratumOf_shared_prefix production 5 4).
  - exists 256, 8, false. repeat split; discriminate.
  - split; discriminate.
  - split; discriminate.
Defined.

(** Distance: [xorDistance] is a metric on ids with values in the
    keyspace, and it is unidirectional: two ids at one distance from a target
    are the same id, so the node closest to a topic is unique. *)
Theorem xorDistance_metric (ks : keyspace) (a b c : Z) :
  ks_wf ks → 0 ≤ a ≤ MAX_ID ks → 0 ≤ b ≤ MAX_ID ks → 0 ≤ c ≤ MAX_ID ks →
  0 ≤ xorDistance a b ≤ MAX_ID ks ∧ xorDistance a b = xorDistance b a ∧
  (xorDistance a b = 0 ↔ a = b) ∧
  xorDistance a c ≤ xorDistance a b + xorDistance b c ∧
  (xorDistance a c = xorDistance b c → a = b).
Proof.
  intros Hks Ha Hb Hc. destruct (ks_wf_facts ks Hks) as (Hbits & HM & _). unfold xorDistance.
  pose proof (lxor_range (ID_BITS ks) a b). split_and!; [lia|lia|apply Z.lxor_comm| | |].
  - split; [apply Z.lxor_eq|intros ->; apply Z.lxor_nilpotent].
  - apply xor_distance_triangle; lia.
  - apply lxor_cancel.
Qed.

Lemma xorDistance_metric_witness :
  0 ≤ xorDistance 5 9 ≤ MAX_ID production ∧ xorDistance 5 9 = xorDistance 9 5 ∧
  (xorDistance 5 9 = 0 ↔ 5 = 9) ∧
  xorDistance 5 3 ≤ xorDistance 5 9 + xorDistance 9 3 ∧
  (xorDistance 5 3 = xorDistance 9 3 → 5 = 9).
Proof.
  apply (xorDistance_metric production 5 9 3).
  - exists 256, 8, false. repeat split; discriminate.
  - split; discriminate.
  - split; discriminate.
  - split; discriminate.
Defined.

(** Configuration: whatever it is given, [configureKeyspace] leaves the
    exported widths those of an in-range profile and the configured widths in
    range; when it returns the two agree.  A throw keeps every exported width,
    but an in-range [hashBits] beside a refused [regionBits] stays assigned. *)
Theorem configureKeyspace_total (ks : keyspace) (hb rb : jsv) :
  ks_wf ks → ks_config_wf ks →
  let '(ks', r) := configureKeyspace ks hb rb in
  ks_wf ks' ∧ ks_config_wf ks' ∧
  match r with
  | Ok _ => ks' = recompute (v_hashBits ks') (v_regionBits ks') true
  | Throw e => e = rangeError ∧ ID_BITS ks' = ID_BITS ks ∧ HASH_BITS ks' = HASH_BITS ks ∧
      MAX_ID ks' = MAX_ID ks ∧ v_regionBits ks' = v_regionBits ks ∧
      (v_hashBits ks' = v_hashBits ks ∨ (hb = JInt (v_hashBits ks') ∧ int_in rb 0 16 = None))
  end.
Proof.
  intros Hks [Hh Hr]. unfold configureKeyspace.
  destruct (is_js_number hb); [destruct (int_in hb 8 256) as [h|] eqn:Eh|].
  - apply int_in_Some in Eh as [-> Hh'].
    assert (ks_wf (set_hashBits ks h)) by (destruct Hks as (h0 & r0 & c0 & ?); by exists h0, r0, c0).
    destruct (is_js_number rb); [destruct (int_in rb 0 16) as [r|] eqn:Er|].
    + apply int_in_Some in Er as [-> Hr']. split; [by apply recompute_wf|done].
    + split; [done|split; [done|naive_solver]].
    + split; [by apply recompute_wf|done].
  - split; [done|split; [done|naive_solver]].
  - destruct (is_js_number rb); [destruct (int_in rb 0 16) as [r|] eqn:Er|].
    + apply int_in_Some in Er as [-> Hr']. split; [by apply recompute_wf|done].
    + split; [done|split; [done|naive_solver]].
    + split; [by apply recompute_wf|done].
Qed.

Lemma configureKeyspace_total_witness :
  let '(ks', r) := configureKeyspace production (JInt 64) (JInt 99) in
  ks_wf ks' ∧ ks_config_wf ks' ∧
  match r with
  | Ok _ => ks' = recompute (v_hashBits ks') (v_regionBits ks') true
  | Throw e => e = rangeError ∧ ID_BITS ks' = 264 ∧ HASH_BITS ks' = 256 ∧
      MAX_ID ks' = MAX_ID production ∧ v_regionBits ks' = 8 ∧
      (v_hashBits ks' = 256 ∨ (JInt 64 = JInt (v_hashBits ks') ∧ int_in (JInt 99) 0 16 = None))
  end.
Proof.
  apply (configureKeyspace_total production (JInt 64) (JInt 99)).
  - exists 256, 8, false. repeat split; discriminate.
  - repeat split; discriminate.
Defined.
