(* ===== verification/Durability.v ===== *)
(** The durability state machine: [src/src/pubsub/durability.js].

    [DurabilityLedger] is the record [ledger] with one operation per method;
    the clock [this._now()] is an argument of the operations that read it.
    [RoleScopedDurability], the node-wide facade over one ledger per role, is
    the record [node]: role objects live in a heap, a role argument is a
    reference into it ([None] for a null role), and [_roles()] is the list of
    references the node iterates. *)

From Stdlib Require Import Ascii.
From stdpp Require Import base tactics sets list numbers strings.
From Stdlib Require Import ZArith Lia.
From S2P Require Import Prelude.

Definition DURABILITY_MAX : Z := 4096.
Definition DURABILITY_ATTEMPTS : Z := 6.
Definition DURABILITY_PER_ROLE_MAX : Z := 1024.

Inductive dstate := pending | verified | expired | cancelled.
Inductive dreason := no_replication_configured | no_cohort_available.

#[export] Instance dstate_eq_dec : EqDecision dstate.
Proof. solve_decision. Defined.
#[export] Instance dreason_eq_dec : EqDecision dreason.
Proof. solve_decision. Defined.

Record entry := mk_entry {
  e_topicBig : Z; e_state : dstate; e_attempts : Z; e_at : Z; e_reason : option dreason
}.

Record ledger := mk_ledger { l_m : jmap string entry; l_max : Z; l_maxAttempts : Z }.

(** * The ledger *)

Definition new_ledger (max maxAttempts : Z) : ledger := mk_ledger [] max maxAttempts.

Definition with_m (L : ledger) (m : jmap string entry) : ledger :=
  mk_ledger m (l_max L) (l_maxAttempts L).

Definition is_terminal (e : entry) : bool := negb (bool_decide (e_state e = pending)).

(** The terminal entries, [terminal.sort((a, b) => a[1] - b[1])]. *)
Definition terminal_by_age (m : jmap string entry) : list (string * Z) :=
  sort_by snd ((λ p, (p.1, e_at p.2)) <$> filter (λ p, is_terminal p.2 = true) m).

(** [for (const [k] of terminal) { if (size <= max) break; delete(k) }] *)
Fixpoint prune_loop (max : Z) (victims : list (string * Z)) (m : jmap string entry)
    : jmap string entry :=
  match victims with
  | [] => m
  | (k, _) :: vs => if jsize m <=? max then m else prune_loop max vs (jdel m k)
  end.

Definition prune (L : ledger) : ledger :=
  if jsize (l_m L) <=? l_max L then L
  else with_m L (prune_loop (l_max L) (terminal_by_age (l_m L)) (l_m L)).

Definition open (now : Z) (L : ledger) (msgId : string) (topicBig : Z) : ledger :=
  if decide (msgId = "") then L
  else if jhas (l_m L) msgId then L
  else prune (with_m L (jset (l_m L) msgId (mk_entry topicBig pending 0 now None))).

Definition set_state (s : dstate) (now : Z) (e : entry) : entry :=
  mk_entry (e_topicBig e) s (e_attempts e) now (e_reason e).

(** [record(msgId, { verified, attempted })] *)
Definition record (now : Z) (L : ledger) (msgId : string) (nverified attempted : Z)
    : ledger * option dstate :=
  match jget (l_m L) msgId with
  | None => (L, None)
  | Some e =>
      if is_terminal e then (L, Some (e_state e))
      else if 0 <? nverified then
        (with_m L (jset (l_m L) msgId (set_state verified now e)), Some verified)
      else
        let e1 := mk_entry (e_topicBig e) (e_state e) (e_attempts e + 1) (e_at e) (e_reason e) in
        let e2 := if (attempted =? 0) || (l_maxAttempts L <=? e_attempts e1)
                  then set_state expired now e1 else e1 in
        (with_m L (jset (l_m L) msgId e2), Some (e_state e2))
  end.

(** A replication outcome; a flag that is absent is [None]. *)
Record rep := mk_rep {
  r_noCohort : option bool; r_dispatched : option bool; r_snapshot : option bool;
  r_verified : option Z; r_attempted : option Z
}.

Inductive evidence_kind := KNoCohort | KNoDispatch | KNoSnapshot | KEvidence.

#[export] Instance evidence_kind_eq_dec : EqDecision evidence_kind.
Proof. solve_decision. Defined.

Definition strictly_true (o : option bool) : bool := bool_decide (o = Some true).

Definition classify (r : rep) : evidence_kind :=
  if strictly_true (r_noCohort r) then KNoCohort
  else if negb (strictly_true (r_dispatched r)) then KNoDispatch
  else if negb (strictly_true (r_snapshot r)) then KNoSnapshot
  else KEvidence.

Definition expire (now : Z) (L : ledger) (msgId : string) (reason : dreason) : ledger :=
  match jget (l_m L) msgId with
  | None => L
  | Some e =>
      if is_terminal e then L
      else with_m L (jset (l_m L) msgId
             (mk_entry (e_topicBig e) expired (e_attempts e) now (Some reason)))
  end.

Definition noCohortConfigured (now : Z) (L : ledger) (msgId : string) : ledger :=
  expire now L msgId no_replication_configured.
Definition noCohortAvailable (now : Z) (L : ledger) (msgId : string) : ledger :=
  expire now L msgId no_cohort_available.

Definition cancel (now : Z) (L : ledger) (msgId : string) : ledger :=
  match jget (l_m L) msgId with
  | None => L
  | Some e => if is_terminal e then L
              else with_m L (jset (l_m L) msgId (set_state cancelled now e))
  end.

Definition state (L : ledger) (msgId : string) : option dstate :=
  e_state <$> jget (l_m L) msgId.

Definition recordOne (now : Z) (L : ledger) (msgId : string) (r : rep)
    : ledger * option dstate :=
  match classify r with
  | KNoCohort => let L' := noCohortAvailable now L msgId in (L', state L' msgId)
  | KEvidence => record now L msgId (default 0 (r_verified r)) (default 0 (r_attempted r))
  | _ => (L, state L msgId)
  end.

Record topic_out := mk_out { o_verified : Z; o_expired : Z; o_pending : Z; o_kind : evidence_kind }.

Definition is_open_for (topicBig : Z) (e : entry) : bool :=
  negb (is_terminal e) && (e_topicBig e =? topicBig).

(** The body of [recordTopic]'s loop on one entry of the map. *)
Definition recordTopic_step (now topicBig : Z) (r : rep) (acc : ledger * topic_out) (msgId : string)
    : ledger * topic_out :=
  let '(L, o) := acc in
  match jget (l_m L) msgId with
  | None => acc
  | Some e =>
      if negb (is_open_for topicBig e) then acc
      else match classify r with
           | KNoCohort => (noCohortAvailable now L msgId,
                           mk_out (o_verified o) (o_expired o + 1) (o_pending o) (o_kind o))
           | _ =>
               let '(L', st) := record now L msgId (default 0 (r_verified r)) (default 0 (r_attempted r)) in
               (L', match st with
                    | Some verified => mk_out (o_verified o + 1) (o_expired o) (o_pending o) (o_kind o)
                    | Some expired => mk_out (o_verified o) (o_expired o + 1) (o_pending o) (o_kind o)
                    | _ => mk_out (o_verified o) (o_expired o) (o_pending o + 1) (o_kind o)
                    end)
           end
  end.

Definition count_entries (P : entry → bool) (m : jmap string entry) : Z :=
  jsum (λ _ e, if P e then 1 else 0) m.

Definition recordTopic (now : Z) (L : ledger) (topicBig : Z) (r : rep) : ledger * topic_out :=
  match classify r with
  | (KNoDispatch | KNoSnapshot) as k =>
      (L, mk_out 0 0 (count_entries (is_open_for topicBig) (l_m L)) k)
  | k => foldl (recordTopic_step now topicBig r) (L, mk_out 0 0 0 k) (l_m L).*1
  end.

Definition pending_count (L : ledger) : Z := count_entries (λ e, negb (is_terminal e)) (l_m L).
Definition undurable_count (L : ledger) : Z :=
  count_entries (λ e, bool_decide (e_state e = expired)) (l_m L).
Definition clear (L : ledger) : ledger := with_m L [].

Definition reclaimTerminal (L : ledger) : ledger * Z :=
  let t := terminal_by_age (l_m L) in
  (with_m L (foldl (λ m p, jdel m p.1) (l_m L) t), Z.of_nat (length t)).

(** * The node-wide facade *)

Record drole := mk_drole { d_topicId : Z; d_durability : option ledger }.

Record node := mk_node {
  n_heap : jmap Z drole; n_live : list Z;
  n_nodeMax : Z; n_perRoleMax : Z; n_maxAttempts : Z
}.

Definition with_heap (N : node) (h : jmap Z drole) : node :=
  mk_node h (n_live N) (n_nodeMax N) (n_perRoleMax N) (n_maxAttempts N).

Definition ledger_of (N : node) (r : Z) : option ledger :=
  match jget (n_heap N) r with Some d => d_durability d | None => None end.

(** Writing back the ledger object a role owns. *)
Definition put_ledger (N : node) (r : Z) (L : ledger) : node :=
  with_heap N (jalter (λ d, mk_drole (d_topicId d) (Some L)) (n_heap N) r).

(** [_ledger(role)]: get or create. *)
Definition ledger_ (N : node) (role : option Z) : node * option (Z * Z * ledger) :=
  match role with
  | None => (N, None)
  | Some r =>
      match jget (n_heap N) r with
      | None => (N, None)
      | Some d =>
          match d_durability d with
          | Some L => (N, Some (r, d_topicId d, L))
          | None =>
              let L := new_ledger (n_perRoleMax N) (n_maxAttempts N) in
              (put_ledger N r L, Some (r, d_topicId d, L))
          end
      end
  end.

Definition ledger_size (o : option ledger) : Z :=
  match o with Some L => jsize (l_m L) | None => 0 end.

Definition nodeSize (N : node) : Z :=
  foldr (λ r acc, ledger_size (ledger_of N r) + acc) 0 (n_live N).

Definition reclaim_role (N : node) (r : Z) : node :=
  match ledger_of N r with
  | Some L => put_ledger N r (reclaimTerminal L).1
  | None => N
  end.

Definition node_open (now : Z) (N : node) (role : option Z) (msgId : string) : node :=
  match ledger_ N role with
  | (N1, None) => N1
  | (N1, Some (r, topicId, _)) =>
      let open_in N2 := match ledger_of N2 r with
                        | Some L => put_ledger N2 r (open now L msgId topicId)
                        | None => N2
                        end in
      if n_nodeMax N1 <=? nodeSize N1 then
        let N2 := foldl reclaim_role N1 (n_live N1) in
        if n_nodeMax N2 <=? nodeSize N2 then N2 else open_in N2
      else open_in N1
  end.

Definition node_record (now : Z) (N : node) (role : option Z) (msgId : string) (v a : Z)
    : node * option dstate :=
  match ledger_ N role with
  | (N1, None) => (N1, None)
  | (N1, Some (r, _, L)) => let '(L', s) := record now L msgId v a in (put_ledger N1 r L', s)
  end.

Definition node_recordOne (now : Z) (N : node) (role : option Z) (msgId : string) (rp : rep)
    : node * option dstate :=
  match ledger_ N role with
  | (N1, None) => (N1, None)
  | (N1, Some (r, _, L)) => let '(L', s) := recordOne now L msgId rp in (put_ledger N1 r L', s)
  end.

Definition node_recordTopic (now : Z) (N : node) (role : option Z) (rp : rep)
    : node * option topic_out :=
  match ledger_ N role with
  | (N1, None) => (N1, None)
  | (N1, Some (r, t, L)) => let '(L', o) := recordTopic now L t rp in (put_ledger N1 r L', Some o)
  end.

Definition node_noCohortConfigured (now : Z) (N : node) (role : option Z) (msgId : string) : node :=
  match ledger_ N role with
  | (N1, None) => N1
  | (N1, Some (r, _, L)) => put_ledger N1 r (noCohortConfigured now L msgId)
  end.

Definition node_cancel (now : Z) (N : node) (role : option Z) (msgId : string) : node :=
  match ledger_ N role with
  | (N1, None) => N1
  | (N1, Some (r, _, L)) => put_ledger N1 r (cancel now L msgId)
  end.

(** [_find(msgId)]: the first match across this node's roles. *)
Definition node_find (N : node) (msgId : string) : option entry :=
  foldr (λ r acc, match ledger_of N r with
                  | Some L => match jget (l_m L) msgId with Some e => Some e | None => acc end
                  | None => acc
                  end) None (n_live N).
Definition node_state (N : node) (msgId : string) : option dstate :=
  e_state <$> node_find N msgId.

Definition node_pending (N : node) : Z :=
  foldr (λ r acc, match ledger_of N r with Some L => pending_count L | None => 0 end + acc) 0 (n_live N).
Definition node_undurable (N : node) : Z :=
  foldr (λ r acc, match ledger_of N r with Some L => undurable_count L | None => 0 end + acc) 0 (n_live N).
Definition node_clear (N : node) : node :=
  foldl (λ N r, match ledger_of N r with Some L => put_ledger N r (clear L) | None => N end)
    N (n_live N).

(** * Operations as one step function *)

Inductive lop :=
| OOpen (msgId : string) (topicBig : Z)
| ORecord (msgId : string) (v a : Z)
| ORecordOne (msgId : string) (r : rep)
| ORecordTopic (topicBig : Z) (r : rep)
| ONoCohortConfigured (msgId : string)
| ONoCohortAvailable (msgId : string)
| OCancel (msgId : string)
| OReclaim
| OClear.

Definition lstep (now : Z) (L : ledger) (o : lop) : ledger :=
  match o with
  | OOpen m t => open now L m t
  | ORecord m v a => (record now L m v a).1
  | ORecordOne m r => (recordOne now L m r).1
  | ORecordTopic t r => (recordTopic now L t r).1
  | ONoCohortConfigured m => noCohortConfigured now L m
  | ONoCohortAvailable m => noCohortAvailable now L m
  | OCancel m => cancel now L m
  | OReclaim => (reclaimTerminal L).1
  | OClear => clear L
  end.

(** The operations that carry positive cohort evidence about a message. *)
Definition evidence_for (o : lop) (msgId : string) (topicBig : Z) : Prop :=
  match o with
  | ORecord m v _ => m = msgId ∧ 0 < v
  | ORecordOne m r => m = msgId ∧ classify r = KEvidence ∧ 0 < default 0 (r_verified r)
  | ORecordTopic t r => t = topicBig ∧ classify r = KEvidence ∧ 0 < default 0 (r_verified r)
  | _ => False
  end.

(** * Entry-wise effect of the operations *)

Definition rec_entry (maxA now v a : Z) (e : entry) : entry :=
  if is_terminal e then e
  else if 0 <? v then set_state verified now e
  else
    let e1 := mk_entry (e_topicBig e) (e_state e) (e_attempts e + 1) (e_at e) (e_reason e) in
    if (a =? 0) || (maxA <=? e_attempts e + 1) then set_state expired now e1 else e1.

Definition exp_entry (now : Z) (reason : dreason) (e : entry) : entry :=
  if is_terminal e then e else mk_entry (e_topicBig e) expired (e_attempts e) now (Some reason).

Definition can_entry (now : Z) (e : entry) : entry :=
  if is_terminal e then e else set_state cancelled now e.

Definition topic_entry (maxA now topicBig : Z) (r : rep) (e : entry) : entry :=
  if is_open_for topicBig e then
    match classify r with
    | KNoCohort => exp_entry now no_cohort_available e
    | KEvidence => rec_entry maxA now (default 0 (r_verified r)) (default 0 (r_attempted r)) e
    | _ => e
    end
  else e.

(** [L'] is [L] with one entry mapped through [f]. *)
Definition maps_entry (L L' : ledger) (msgId : string) (f : entry → entry) : Prop :=
  (∀ k, jget (l_m L') k = if decide (msgId = k) then f <$> jget (l_m L) k else jget (l_m L) k) ∧
  (l_m L').*1 = (l_m L).*1 ∧ l_max L' = l_max L ∧ l_maxAttempts L' = l_maxAttempts L.

Lemma maps_entry_refl L msgId f : (f <$> jget (l_m L) msgId) = jget (l_m L) msgId → maps_entry L L msgId f.
Proof. intros Hf. split_and!; [|done..]. intros k. case_decide; subst; done. Qed.

Lemma maps_entry_jset L msgId e f : jget (l_m L) msgId = Some e →
  maps_entry L (with_m L (jset (l_m L) msgId (f e))) msgId f.
Proof.
  intros He. split_and!; [|simpl|done..].
  - intros k. simpl. rewrite jget_jset. case_decide; subst; [by rewrite He|done].
  - rewrite jkeys_jset, decide_True; [done|]. by eapply jget_Some_key.
Qed.

Ltac entry_op L msgId :=
  destruct (jget (l_m L) msgId) as [e|] eqn:He; [|simpl; by apply maps_entry_refl; rewrite He];
  destruct (is_terminal e) eqn:Ht; simpl;
    [apply maps_entry_refl; rewrite He; simpl; by rewrite Ht|].

Lemma record_maps now L msgId v a :
  maps_entry L (record now L msgId v a).1 msgId (rec_entry (l_maxAttempts L) now v a).
Proof.
  unfold record, rec_entry. entry_op L msgId. destruct (0 <? v) eqn:Hv; simpl.
  - erewrite (f_equal (with_m L)); [apply maps_entry_jset; exact He|].
    simpl. by rewrite Ht.
  - erewrite (f_equal (with_m L)); [apply maps_entry_jset; exact He|].
    simpl. by rewrite Ht.
Qed.

Lemma expire_maps now L msgId reason :
  maps_entry L (expire now L msgId reason) msgId (exp_entry now reason).
Proof.
  unfold expire, exp_entry. entry_op L msgId.
  erewrite (f_equal (with_m L)); [apply maps_entry_jset; exact He|]. simpl. by rewrite Ht.
Qed.

Lemma cancel_maps now L msgId : maps_entry L (cancel now L msgId) msgId (can_entry now).
Proof.
  unfold cancel, can_entry. entry_op L msgId.
  erewrite (f_equal (with_m L)); [apply maps_entry_jset; exact He|]. simpl. by rewrite Ht.
Qed.

Lemma recordTopic_step_maps now t r L o msgId :
  classify r = KNoCohort ∨ classify r = KEvidence →
  maps_entry L (recordTopic_step now t r (L, o) msgId).1 msgId (topic_entry (l_maxAttempts L) now t r).
Proof.
  intros Hk. unfold recordTopic_step, topic_entry.
  destruct (jget (l_m L) msgId) as [e|] eqn:He; [|simpl; by apply maps_entry_refl; rewrite He].
  destruct (is_open_for t e) eqn:Ho; simpl; [|apply maps_entry_refl; rewrite He; simpl; by rewrite Ho].
  assert (∀ L' f, maps_entry L L' msgId f →
    maps_entry L L' msgId (λ e, if is_open_for t e then f e else e)) as Hw.
  { intros L' f (H1 & H2 & H3 & H4). split_and!; try done. intros k. rewrite H1.
    case_decide; subst; [|done]. rewrite He. simpl. by rewrite Ho. }
  destruct Hk as [Hk|Hk]; rewrite Hk; simpl.
  - apply Hw, expire_maps.
  - pose proof (record_maps now L msgId (default 0 (r_verified r)) (default 0 (r_attempted r))) as Hr.
    destruct (record now L msgId _ _) as [L' st]. simpl in *. by apply Hw.
Qed.

Lemma recordTopic_fold now t r ks L o :
  classify r = KNoCohort ∨ classify r = KEvidence → NoDup ks →
  let L' := (foldl (recordTopic_step now t r) (L, o) ks).1 in
  (∀ k, jget (l_m L') k = if decide (k ∈ ks) then topic_entry (l_maxAttempts L) now t r <$> jget (l_m L) k
                          else jget (l_m L) k) ∧
  (l_m L').*1 = (l_m L).*1 ∧ l_max L' = l_max L ∧ l_maxAttempts L' = l_maxAttempts L.
Proof.
  intros Hk. revert L o. induction ks as [|k0 ks IH]; intros L o Hnd; cbn [foldl].
  { split_and!; [|done..]. intros k. by rewrite decide_False by (intros []%elem_of_nil). }
  apply NoDup_cons in Hnd as [Hni Hnd].
  pose proof (recordTopic_step_maps now t r L o k0 Hk) as (S1 & S2 & S3 & S4).
  destruct (recordTopic_step now t r (L, o) k0) as [L1 o1]. simpl in *.
  destruct (IH L1 o1 Hnd) as (I1 & I2 & I3 & I4). simpl in *. split_and!; try congruence.
  intros k. rewrite I1, S1, S4.
  destruct (decide (k0 = k)) as [->|Hne].
  - rewrite (decide_False (P := k ∈ ks)) by done. by rewrite decide_True by set_solver.
  - destruct (decide (k ∈ ks)).
    + by rewrite (decide_True (P := k ∈ k0 :: ks)) by set_solver.
    + by rewrite (decide_False (P := k ∈ k0 :: ks)) by set_solver.
Qed.

(** [recordTopic] maps every entry of the ledger through [topic_entry]. *)
Lemma recordTopic_get now L t r : jwf (l_m L) →
  let L' := (recordTopic now L t r).1 in
  (∀ k, jget (l_m L') k = topic_entry (l_maxAttempts L) now t r <$> jget (l_m L) k) ∧
  (l_m L').*1 = (l_m L).*1 ∧ l_max L' = l_max L ∧ l_maxAttempts L' = l_maxAttempts L.
Proof.
  intros Hwf. unfold recordTopic. simpl.
  destruct (classify r) eqn:Hk; simpl.
  2,3: split_and!; [|done..]; intros k; destruct (jget (l_m L) k) as [e|]; simpl; [|done];
       unfold topic_entry; rewrite Hk; by case_match.
  all: destruct (recordTopic_fold now t r (l_m L).*1 L (mk_out 0 0 0 (classify r)))
         as (F1 & F2 & F3 & F4); [auto|done|]; rewrite <-Hk; split_and!; try done;
       intros k; rewrite F1; case_decide as Hin; [done|];
       rewrite (proj2 (jget_None _ _) Hin); done.
Qed.

(** * Eviction *)

Lemma elem_of_terminal m k a : (k, a) ∈ terminal_by_age m ↔
  ∃ e, (k, e) ∈ m ∧ is_terminal e = true ∧ a = e_at e.
Proof.
  unfold terminal_by_age. rewrite elem_of_sort_by, list_elem_of_fmap. split.
  - intros ([k' e] & Heq & Hin). simplify_eq/=. apply list_elem_of_filter in Hin as [??]. eauto.
  - intros (e & Hin & Ht & ->). exists (k, e). split; [done|]. by apply list_elem_of_filter.
Qed.

Lemma terminal_keys_NoDup m : jwf m → NoDup (terminal_by_age m).*1.
Proof.
  intros Hwf. unfold terminal_by_age.
  eapply NoDup_Permutation_proper; [apply fmap_Permutation, sort_by_perm|].
  rewrite <-list_fmap_compose. eapply sublist_NoDup; [exact Hwf|].
  apply (fmap_sublist fst), sublist_filter.
Qed.

(** [prune_loop] deletes a prefix of its victims, as many as it needs. *)
Lemma prune_loop_prefix max vs m : jwf m → NoDup vs.*1 → (∀ k, k ∈ vs.*1 → k ∈ m.*1) →
  ∃ n, prune_loop max vs m = foldl (λ m p, jdel m p.1) m (take n vs) ∧
    jsize (prune_loop max vs m) = Z.max (Z.min (jsize m) max) (jsize m - Z.of_nat (length vs)).
Proof.
  revert m. induction vs as [|[k a] vs IH]; intros m Hwf Hnd Hin; simpl.
  { exists O. split; [done|]. lia. }
  destruct (jsize m <=? max) eqn:E; zb.
  { exists O. split; [done|]. lia. }
  simpl in Hnd. apply NoDup_cons in Hnd as [Hni Hnd].
  destruct (IH (jdel m k)) as (n & Hn & Hs); [by apply jwf_jdel|done| |].
  - intros k' Hk'. assert (k' ∈ m.*1) as (v & Hv)%jhas_true_key%jhas_true by (apply Hin; set_solver).
    apply jhas_true_key, jhas_true. exists v. rewrite jget_jdel_ne; [done|]. intros ->. done.
  - exists (S n). split; [exact Hn|]. rewrite Hs, jsize_jdel by done.
    rewrite (proj2 (jhas_true_key m k)) by set_solver. lia.
Qed.

Lemma jget_foldl_jdel (vs : list (string * Z)) (m : jmap string entry) k :
  jget (foldl (λ m p, jdel m p.1) m vs) k = if decide (k ∈ vs.*1) then None else jget m k.
Proof.
  revert m. induction vs as [|[k' a] vs IH]; intros m; cbn [foldl fmap list_fmap fst].
  { by rewrite decide_False by (intros []%elem_of_nil). }
  rewrite IH, jget_jdel. repeat case_decide; set_solver.
Qed.

Lemma jwf_foldl_jdel (vs : list (string * Z)) (m : jmap string entry) :
  jwf m → jwf (foldl (λ m p, jdel m p.1) m vs).
Proof. revert m. induction vs; simpl; auto with axona. Qed.

Lemma terminal_key_get m k : jwf m → k ∈ (terminal_by_age m).*1 →
  ∃ e, jget m k = Some e ∧ is_terminal e = true ∧ (k, e_at e) ∈ terminal_by_age m.
Proof.
  intros Hwf ([k' a] & -> & Hin)%list_elem_of_fmap.
  apply elem_of_terminal in Hin as (e & Hin & Ht & ->). exists e.
  split; [by apply elem_jget|]. split; [done|]. apply elem_of_terminal. eauto.
Qed.

(** What [prune] keeps: every pending entry, and of the terminal entries the
    newest. *)
Lemma prune_get L : jwf (l_m L) →
  jwf (l_m (prune L)) ∧
  (∀ k e, jget (l_m (prune L)) k = Some e → jget (l_m L) k = Some e) ∧
  (∀ k e, jget (l_m L) k = Some e → jget (l_m (prune L)) k = None → is_terminal e = true) ∧
  (∀ k e k' e', jget (l_m L) k = Some e → jget (l_m (prune L)) k = None →
     jget (l_m (prune L)) k' = Some e' → is_terminal e' = true → e_at e ≤ e_at e').
Proof.
  intros Hwf. unfold prune. destruct (jsize (l_m L) <=? l_max L) eqn:E; simpl.
  { split_and!; naive_solver. }
  pose proof (terminal_keys_NoDup _ Hwf) as Hnd.
  set (T := terminal_by_age (l_m L)) in *.
  destruct (prune_loop_prefix (l_max L) T (l_m L)) as (n & -> & _); [done|done| |].
  { intros k Hk. destruct (terminal_key_get _ _ Hwf Hk) as (e & He & _). by eapply jget_Some_key. }
  assert (∀ k, k ∈ (take n T).*1 → k ∈ T.*1) as Htake.
  { intros k. rewrite fmap_take. intros Hk. by eapply elem_of_take in Hk as (i & ? & _); eapply list_elem_of_lookup_2. }
  split_and!.
  - by apply jwf_foldl_jdel.
  - intros k e. rewrite jget_foldl_jdel. by case_decide.
  - intros k e He. rewrite jget_foldl_jdel. case_decide as Hk; [|naive_solver].
    intros _. destruct (terminal_key_get _ _ Hwf (Htake _ Hk)) as (e' & He' & ? & _). naive_solver.
  - intros k e k' e' He. rewrite !jget_foldl_jdel. case_decide as Hk; [|naive_solver]. intros _.
    case_decide as Hk'; [done|]. intros He' Ht'.
    destruct (terminal_key_get _ _ Hwf (Htake _ Hk)) as (e1 & He1 & Ht1 & Hin1).
    assert (e1 = e) as -> by naive_solver.
    apply list_elem_of_fmap in Hk as ([k1 a1] & -> & Hin). simpl in *.
    assert (a1 = e_at e) as ->.
    { assert ((k1, a1) ∈ T) as HT by (rewrite <-(take_drop n T); set_solver).
      apply elem_of_terminal in HT as (e2 & Hin2%(elem_jget _ _ _ Hwf) & _ & ->). naive_solver. }
    refine (sort_by_take_le snd n _ (k1, e_at e) (k', e_at e') Hin _ _).
    + apply (elem_of_sort_by snd), elem_of_terminal. exists e'.
      split; [by apply jget_Some_elem|done].
    + intros Hin'. apply Hk'. apply list_elem_of_fmap. by exists (k', e_at e').
Qed.

(** * The effect of any operation on one entry *)

(** A pending entry is below its attempt budget, and no entry is above it. *)
Definition ledger_wf (L : ledger) : Prop :=
  jwf (l_m L) ∧ ∀ k e, jget (l_m L) k = Some e →
    0 ≤ e_attempts e ≤ Z.max 1 (l_maxAttempts L) ∧
    (is_terminal e = false → e_attempts e < Z.max 1 (l_maxAttempts L)).

(** How one entry may change in a step: the transition table of the machine. *)
Definition entry_moves (o : lop) (k : string) (e e' : entry) : Prop :=
  e_topicBig e' = e_topicBig e ∧
  (is_terminal e = true → e' = e) ∧
  (e_state e' = verified → e_state e = verified ∨ evidence_for o k (e_topicBig e)) ∧
  (e_attempts e' = e_attempts e ∨ e_attempts e' = e_attempts e + 1 ∧ (e_state e' = pending ∨ e_state e' = expired)).

Lemma rec_entry_moves o k maxA now v a e :
  (0 < v → evidence_for o k (e_topicBig e)) → entry_moves o k e (rec_entry maxA now v a e).
Proof.
  intros Hev. unfold entry_moves, rec_entry.
  destruct (is_terminal e) eqn:Ht; [naive_solver lia|].
  assert (e_state e = pending) as Hp by (unfold is_terminal in Ht; by apply negb_false_iff, bool_decide_eq_true in Ht).
  destruct (0 <? v) eqn:Hv; [|destruct (_ || _)%bool]; simpl; zb; split_and!; try done; auto; try lia.
Qed.

Lemma exp_entry_moves o k now r e : entry_moves o k e (exp_entry now r e).
Proof. unfold entry_moves, exp_entry. destruct (is_terminal e) eqn:?; simpl; naive_solver lia. Qed.

Lemma can_entry_moves o k now e : entry_moves o k e (can_entry now e).
Proof. unfold entry_moves, can_entry. destruct (is_terminal e) eqn:?; simpl; naive_solver lia. Qed.

Lemma same_entry_moves o k e : entry_moves o k e e.
Proof. unfold entry_moves. naive_solver lia. Qed.

Lemma rec_entry_budget maxA now v a e :
  0 ≤ e_attempts e ≤ Z.max 1 maxA ∧ (is_terminal e = false → e_attempts e < Z.max 1 maxA) →
  let e' := rec_entry maxA now v a e in
  0 ≤ e_attempts e' ≤ Z.max 1 maxA ∧ (is_terminal e' = false → e_attempts e' < Z.max 1 maxA).
Proof.
  intros [Hb Hp]. unfold rec_entry. destruct (is_terminal e) eqn:Ht; cbv zeta.
  { split; [done|]. by rewrite Ht. }
  specialize (Hp eq_refl). destruct (0 <? v); [simpl; split; [lia|done]|].
  destruct (_ || _)%bool eqn:E; simpl; [split; [lia|done]|].
  apply orb_false_iff in E as [_ E]. zb. split; [lia|]. intros _. lia.
Qed.

Lemma maps_entry_wf L L' k f : maps_entry L L' k f → ledger_wf L →
  (∀ e, jget (l_m L) k = Some e →
    0 ≤ e_attempts e ≤ Z.max 1 (l_maxAttempts L) ∧ (is_terminal e = false → e_attempts e < Z.max 1 (l_maxAttempts L)) →
    0 ≤ e_attempts (f e) ≤ Z.max 1 (l_maxAttempts L) ∧ (is_terminal (f e) = false → e_attempts (f e) < Z.max 1 (l_maxAttempts L))) →
  ledger_wf L'.
Proof.
  intros (H1 & H2 & H3 & H4) [Hwf Hb] Hf. split; [unfold jwf in *; congruence|].
  intros k' e'. rewrite H1, H4. case_decide; subst; [|by apply Hb].
  destruct (jget (l_m L) k') as [e|] eqn:He; [|done]. intros [=<-]. eauto.
Qed.

Lemma open_get now L m t : jwf (l_m L) →
  open now L m t = L ∨
  (m ≠ "" ∧ jget (l_m L) m = None ∧
   open now L m t = prune (with_m L (jset (l_m L) m (mk_entry t pending 0 now None)))).
Proof.
  intros Hwf. unfold open. case_decide; [auto|].
  destruct (jhas (l_m L) m) eqn:E; [auto|]. right. by apply jhas_false in E.
Qed.

Lemma prune_params L : l_max (prune L) = l_max L ∧ l_maxAttempts (prune L) = l_maxAttempts L.
Proof. unfold prune. by case_match. Qed.

Lemma reclaim_get L k : jwf (l_m L) →
  jget (l_m (reclaimTerminal L).1) k =
    match jget (l_m L) k with Some e => if is_terminal e then None else Some e | None => None end.
Proof.
  intros Hwf. simpl. rewrite jget_foldl_jdel. case_decide as Hk.
  - destruct (terminal_key_get _ _ Hwf Hk) as (e & -> & -> & _). done.
  - destruct (jget (l_m L) k) as [e|] eqn:He; [|done].
    destruct (is_terminal e) eqn:Ht; [|done]. exfalso. apply Hk.
    apply list_elem_of_fmap. exists (k, e_at e). split; [done|].
    apply elem_of_terminal. exists e. eauto using jget_Some_elem.
Qed.

(** The whole transition table, for every operation and every key. *)
Lemma lstep_entry now L o k : ledger_wf L →
  match jget (l_m L) k, jget (l_m (lstep now L o)) k with
  | Some e, Some e' => entry_moves o k e e'
  | None, Some e' => ∃ t, o = OOpen k t ∧ e' = mk_entry t pending 0 now None
  | Some e, None => o = OClear ∨ is_terminal e = true
  | None, None => True
  end.
Proof.
  intros [Hwf Hb].
  assert (∀ L' m f, maps_entry L L' m f → (∀ e, jget (l_m L) k = Some e → m = k → entry_moves o k e (f e)) →
    match jget (l_m L) k, jget (l_m L') k with
    | Some e, Some e' => entry_moves o k e e'
    | None, Some e' => ∃ t, o = OOpen k t ∧ e' = mk_entry t pending 0 now None
    | Some e, None => o = OClear ∨ is_terminal e = true
    | None, None => True
    end) as Hmap.
  { intros L' m f (H1 & _) Hm. rewrite H1. case_decide; subst.
    - destruct (jget (l_m L) k) eqn:He; simpl; [by apply Hm|done].
    - destruct (jget (l_m L) k); [apply same_entry_moves|done]. }
  destruct o as [m t|m v a|m r|t r|m|m|m| |]; cbn [lstep].
  - destruct (open_get now L m t Hwf) as [->|(Hm & Hn & ->)].
    { destruct (jget (l_m L) k); [apply same_entry_moves|done]. }
    set (L1 := with_m L _). assert (jwf (l_m L1)) as Hwf1 by (by apply jwf_jset).
    destruct (prune_get L1 Hwf1) as (_ & P1 & P2 & _).
    destruct (decide (m = k)) as [->|Hne].
    + rewrite Hn. destruct (jget (l_m (prune L1)) k) eqn:E; [|done].
      apply P1 in E. simpl in E. rewrite jget_jset_eq in E. simplify_eq. eauto.
    + assert (jget (l_m L1) k = jget (l_m L) k) as Hk by (simpl; by rewrite jget_jset_ne).
      rewrite <-Hk. destruct (jget (l_m L1) k) eqn:E1, (jget (l_m (prune L1)) k) eqn:E2; [|eauto| |done].
      * apply P1 in E2. simplify_eq. apply same_entry_moves.
      * apply P1 in E2. congruence.
  - eapply Hmap; [apply record_maps|]. intros e _ ->. by apply rec_entry_moves.
  - unfold recordOne. destruct (classify r) eqn:Hk; simpl.
    + eapply Hmap; [apply expire_maps|]. intros. apply exp_entry_moves.
    + destruct (jget (l_m L) k); [apply same_entry_moves|done].
    + destruct (jget (l_m L) k); [apply same_entry_moves|done].
    + eapply Hmap; [apply record_maps|]. intros e _ ->. by apply rec_entry_moves.
  - destruct (recordTopic_get now L t r Hwf) as (H1 & _). rewrite H1.
    destruct (jget (l_m L) k) as [e|]; simpl; [|done]. unfold topic_entry.
    destruct (is_open_for t e) eqn:Ho; [|apply same_entry_moves].
    unfold is_open_for in Ho. zb. subst.
    destruct (classify r) eqn:Hk; try apply same_entry_moves; [apply exp_entry_moves|].
    by apply rec_entry_moves.
  - eapply Hmap; [apply expire_maps|]. intros. apply exp_entry_moves.
  - eapply Hmap; [apply expire_maps|]. intros. apply exp_entry_moves.
  - eapply Hmap; [apply cancel_maps|]. intros. apply can_entry_moves.
  - rewrite reclaim_get by done. destruct (jget (l_m L) k) as [e|]; [|done].
    destruct (is_terminal e); [auto|apply same_entry_moves].
  - destruct (jget (l_m L) k); simpl; auto.
Qed.

Lemma sub_ledger_wf L L' : ledger_wf L → jwf (l_m L') → l_maxAttempts L' = l_maxAttempts L →
  (∀ k e, jget (l_m L') k = Some e → jget (l_m L) k = Some e) → ledger_wf L'.
Proof. intros [_ Hb] Hwf HM Hs. split; [done|]. rewrite HM. eauto. Qed.

Lemma lstep_wf now L o : ledger_wf L → ledger_wf (lstep now L o).
Proof.
  intros Hwf. pose proof Hwf as [Hw Hb].
  destruct o as [m t|m v a|m r|t r|m|m|m| |]; cbn [lstep].
  - destruct (open_get now L m t Hw) as [->|(Hm & Hn & ->)]; [done|].
    set (L1 := with_m L _). assert (ledger_wf L1) as Hwf1.
    { split; [by apply jwf_jset|]. intros k e. simpl. rewrite jget_jset.
      case_decide; [intros [=<-]; simpl; lia|apply Hb]. }
    destruct (prune_get L1 (proj1 Hwf1)) as (P0 & P1 & _).
    eapply sub_ledger_wf; [exact Hwf1|done| |done]. apply prune_params.
  - eapply maps_entry_wf; [apply record_maps|done|]. intros. by apply rec_entry_budget.
  - unfold recordOne. destruct (classify r); simpl; [|done|done|].
    + eapply maps_entry_wf; [apply expire_maps|done|]. intros e _ ?. unfold exp_entry. case_match; naive_solver.
    + eapply maps_entry_wf; [apply record_maps|done|]. intros. by apply rec_entry_budget.
  - destruct (recordTopic_get now L t r Hw) as (H1 & H2 & H3 & H4).
    split; [unfold jwf; by rewrite H2|]. intros k e'. rewrite H1, H4.
    destruct (jget (l_m L) k) as [e|] eqn:He; [|done]. intros [=<-]. specialize (Hb k e He).
    unfold topic_entry. destruct (is_open_for t e); [|done].
    destruct (classify r); try done; [|by apply rec_entry_budget].
    unfold exp_entry. case_match; naive_solver.
  - eapply maps_entry_wf; [apply expire_maps|done|]. intros e _ ?. unfold exp_entry. case_match; naive_solver.
  - eapply maps_entry_wf; [apply expire_maps|done|]. intros e _ ?. unfold exp_entry. case_match; naive_solver.
  - eapply maps_entry_wf; [apply cancel_maps|done|]. intros e _ ?. unfold can_entry. case_match; naive_solver.
  - eapply sub_ledger_wf; [exact Hwf|by apply jwf_foldl_jdel|done|].
    intros k e. rewrite reclaim_get by done. destruct (jget (l_m L) k) as [e0|]; [|done].
    by case_match.
  - split; [apply jwf_nil|]. intros k e. done.
Qed.

(** * Runs *)

Definition lrun (L : ledger) (ops : list (Z * lop)) : ledger :=
  foldl (λ L p, lstep p.1 L p.2) L ops.

Lemma lrun_snoc L ops p : lrun L (ops ++ [p]) = lstep p.1 (lrun L ops) p.2.
Proof. unfold lrun. by rewrite foldl_app. Qed.

Lemma new_ledger_wf mx ma : ledger_wf (new_ledger mx ma).
Proof. split; [apply jwf_nil|]. intros k e. done. Qed.

Lemma lrun_wf L ops : ledger_wf L → ledger_wf (lrun L ops).
Proof.
  revert L. induction ops as [|p ops IH]; [done|]. intros L HL. apply IH. by apply lstep_wf.
Qed.

Lemma verified_origin mx ma ops k e :
  jget (l_m (lrun (new_ledger mx ma) ops)) k = Some e → e_state e = verified →
  ∃ ops1 now o ops2 e0, ops = ops1 ++ (now, o) :: ops2 ∧
    jget (l_m (lrun (new_ledger mx ma) ops1)) k = Some e0 ∧ e_state e0 = pending ∧
    e_topicBig e0 = e_topicBig e ∧ evidence_for o k (e_topicBig e).
Proof.
  revert e. induction ops as [|[now o] ops IH] using rev_ind; intros e; [done|].
  rewrite lrun_snoc. simpl. intros Hg Hv.
  pose proof (lstep_entry now (lrun (new_ledger mx ma) ops) o k (lrun_wf _ _ (new_ledger_wf mx ma))) as Ht.
  rewrite Hg in Ht. destruct (jget _ k) as [e0|] eqn:He0.
  - destruct Ht as (Htop & Hterm & Hver & _). destruct (decide (e_state e0 = pending)) as [Hp|Hnp].
    + destruct (Hver Hv) as [|Hev]; [congruence|]. exists ops, now, o, [], e0.
      rewrite Htop. done.
    + assert (is_terminal e0 = true) as Ht0 by (unfold is_terminal; rewrite bool_decide_eq_false_2; done).
      specialize (Hterm Ht0) as ->. destruct (IH e0 eq_refl Hv) as (o1 & n1 & o2 & o3 & e1 & -> & ?).
      exists o1, n1, o2, (o3 ++ [(now, o)]), e1. split; [by rewrite <-app_assoc|done].
  - destruct Ht as (t & -> & ->). done.
Qed.

(** * Counting *)

Lemma count_entries_nonneg P m : 0 ≤ count_entries P m.
Proof. apply jsum_nonneg. intros; case_match; lia. Qed.

Lemma record_jset now L k v a e : jget (l_m L) k = Some e → is_terminal e = false →
  (record now L k v a).1 = with_m L (jset (l_m L) k (rec_entry (l_maxAttempts L) now v a e)) ∧
  (record now L k v a).2 = Some (e_state (rec_entry (l_maxAttempts L) now v a e)).
Proof.
  intros He Ht. unfold record, rec_entry. rewrite He, Ht. by destruct (0 <? v).
Qed.

Lemma expire_jset now L k r e : jget (l_m L) k = Some e → is_terminal e = false →
  expire now L k r = with_m L (jset (l_m L) k (exp_entry now r e)).
Proof. intros He Ht. unfold expire, exp_entry. by rewrite He, Ht. Qed.

Definition out_total (o : topic_out) : Z := o_verified o + o_expired o + o_pending o.

Lemma recordTopic_step_total now t r L o k :
  out_total (recordTopic_step now t r (L, o) k).2 =
    out_total o + match jget (l_m L) k with
                  | Some e => if is_open_for t e then 1 else 0 | None => 0 end.
Proof.
  unfold recordTopic_step. destruct (jget (l_m L) k) as [e|]; simpl; [|lia].
  destruct (is_open_for t e); simpl; [|lia].
  destruct (classify r); simpl; try (unfold out_total; simpl; lia);
  destruct (record now L k _ _) as [L' [[]|]]; unfold out_total; simpl; lia.
Qed.

Lemma recordTopic_fold_total now t r m L o :
  classify r = KNoCohort ∨ classify r = KEvidence → jwf m →
  (∀ k e, (k, e) ∈ m → jget (l_m L) k = Some e) →
  out_total (foldl (recordTopic_step now t r) (L, o) m.*1).2
    = out_total o + count_entries (is_open_for t) m.
Proof.
  intros Hk. revert L o. induction m as [|[k e] m IH]; intros L o Hwf Hin.
  { unfold count_entries. simpl. lia. }
  unfold jwf in *. cbn [fmap list_fmap fst foldl]. apply NoDup_cons in Hwf as [Hni Hwf].
  pose proof (recordTopic_step_total now t r L o k) as Ht.
  pose proof (recordTopic_step_maps now t r L o k Hk) as (Hm & _).
  destruct (recordTopic_step now t r (L, o) k) as [L1 o1]. simpl in Ht, Hm.
  rewrite IH; [|done|].
  - rewrite Ht, (Hin k e) by set_solver. unfold count_entries. simpl. lia.
  - intros k' e' Hin'. rewrite Hm, decide_False; [apply Hin; set_solver|].
    intros <-. apply Hni, list_elem_of_fmap. by exists (k, e').
Qed.

Lemma recordTopic_fold_kind now t r ks L o :
  o_kind (foldl (recordTopic_step now t r) (L, o) ks).2 = o_kind o.
Proof.
  revert L o. induction ks as [|k ks IH]; intros L o; [done|]. cbn [foldl].
  assert (o_kind (recordTopic_step now t r (L, o) k).2 = o_kind o) as Hs.
  { unfold recordTopic_step. destruct (jget (l_m L) k) as [e|]; [|done].
    destruct (negb (is_open_for t e)); [done|]. destruct (classify r); [done|..];
    by destruct (record now L k _ _) as [L' [[]|]]. }
  destruct (recordTopic_step now t r (L, o) k) as [L1 o1]. by rewrite IH.
Qed.

Lemma terminal_length m :
  Z.of_nat (length (terminal_by_age m)) = jsize m - count_entries (λ e, negb (is_terminal e)) m.
Proof.
  unfold terminal_by_age, jsize, count_entries. rewrite length_sort_by, length_fmap.
  induction m as [|[k e] m IH]; [done|]. rewrite filter_cons. cbn [snd jsum foldr] in *.
  destruct (decide (is_terminal e = true)) as [Ht|Ht%not_true_iff_false]; rewrite Ht; simpl;
    unfold jsum in *; lia.
Qed.

(** What a new obligation costs: the size after the eviction, and the new entry survives it. *)
Lemma prune_keeps_new now L m t : jwf (l_m L) → jget (l_m L) m = None →
  let L' := prune (with_m L (jset (l_m L) m (mk_entry t pending 0 now None))) in
  jsize (l_m L') = Z.max (Z.min (jsize (l_m L) + 1) (l_max L)) (pending_count L + 1) ∧
  jget (l_m L') m = Some (mk_entry t pending 0 now None).
Proof.
  intros Hwf Hn. cbv zeta. set (L1 := with_m L _).
  assert (jwf (l_m L1)) as Hwf1 by (by apply jwf_jset).
  assert (jhas (l_m L) m = false) as Hh by (by apply jhas_false).
  assert (jsize (l_m L1) = jsize (l_m L) + 1) as Hs1 by (simpl; rewrite jsize_jset, Hh; lia).
  assert (pending_count L1 = pending_count L + 1) as Hp1.
  { unfold pending_count, count_entries. simpl. rewrite jsum_jset, Hn. simpl. lia. }
  destruct (prune_get L1 Hwf1) as (_ & P1 & P2 & _). split.
  - unfold prune. change (l_max L) with (l_max L1).
    pose proof (terminal_length (l_m L1)) as Hlen. fold (pending_count L1) in Hlen.
    destruct (jsize (l_m L1) <=? l_max L1) eqn:E; zb; [lia|].
    destruct (prune_loop_prefix (l_max L1) (terminal_by_age (l_m L1)) (l_m L1)) as (n & _ & Hs);
      [done|by apply terminal_keys_NoDup| |].
    { intros k Hk. destruct (terminal_key_get _ _ Hwf1 Hk) as (e & He & _). by eapply jget_Some_key. }
    cbn [l_m with_m]. rewrite Hs, Hlen. lia.
  - destruct (jget (l_m (prune L1)) m) as [e|] eqn:E.
    + apply P1 in E. simpl in E. by rewrite jget_jset_eq in E.
    + exfalso. assert (jget (l_m L1) m = Some (mk_entry t pending 0 now None)) as Hg1 by apply jget_jset_eq.
      pose proof (P2 _ _ Hg1 E) as Hc. done.
Qed.

(** * The facade *)

Inductive nop :=
| NOpen (msgId : string)
| NRecord (msgId : string) (v a : Z)
| NRecordOne (msgId : string) (r : rep)
| NRecordTopic (r : rep)
| NNoCohortConfigured (msgId : string)
| NCancel (msgId : string).

Definition nstep (now : Z) (N : node) (role : option Z) (o : nop) : node :=
  match o with
  | NOpen m => node_open now N role m
  | NRecord m v a => (node_record now N role m v a).1
  | NRecordOne m r => (node_recordOne now N role m r).1
  | NRecordTopic r => (node_recordTopic now N role r).1
  | NNoCohortConfigured m => node_noCohortConfigured now N role m
  | NCancel m => node_cancel now N role m
  end.

Lemma ledger_of_put N r L r' : ledger_of (put_ledger N r L) r' =
  if decide (r = r') then (if jhas (n_heap N) r' then Some L else None) else ledger_of N r'.
Proof.
  unfold ledger_of, put_ledger, jhas. simpl. rewrite jget_jalter.
  case_decide; subst; [|done]. by destruct (jget (n_heap N) r').
Qed.

Lemma ledger_of_put_ne N r L r' : r ≠ r' → ledger_of (put_ledger N r L) r' = ledger_of N r'.
Proof. intros. rewrite ledger_of_put. by rewrite decide_False. Qed.

Lemma ledger_of_has N r L : ledger_of N r = Some L → jhas (n_heap N) r = true.
Proof. unfold ledger_of, jhas. by destruct (jget (n_heap N) r). Qed.

Lemma ledger_of_put_eq N r L L' : ledger_of N r = Some L → ledger_of (put_ledger N r L') r = Some L'.
Proof.
  intros H%ledger_of_has. rewrite ledger_of_put, decide_True by done. by rewrite H.
Qed.

(** [_ledger] changes no other role, and at most creates an empty ledger. *)
Lemma ledger_other N r r' : r ≠ r' → ledger_of (ledger_ N (Some r)).1 r' = ledger_of N r'.
Proof.
  intros Hne. unfold ledger_. destruct (jget (n_heap N) r) as [d|]; [|done].
  destruct (d_durability d); [done|]. by apply ledger_of_put_ne.
Qed.

Lemma ledger_result N r N1 x : ledger_ N (Some r) = (N1, Some x) →
  ∃ t L, x = (r, t, L) ∧ ledger_of N1 r = Some L ∧
    (ledger_of N r = Some L ∨
     (ledger_of N r = None ∧ L = new_ledger (n_perRoleMax N) (n_maxAttempts N))).
Proof.
  unfold ledger_. destruct (jget (n_heap N) r) as [d|] eqn:Hd; [|done].
  assert (ledger_of N r = d_durability d) as Hl by (unfold ledger_of; by rewrite Hd).
  destruct (d_durability d) as [L|]; intros [=<-<-].
  - eexists _, _. split_and!; [done|done|auto].
  - eexists _, _. split; [done|]. split; [|auto].
    rewrite ledger_of_put, decide_True by done. unfold jhas. by rewrite Hd.
Qed.

Lemma ledger_result_role N r N1 r0 t L : ledger_ N (Some r) = (N1, Some (r0, t, L)) → r0 = r.
Proof. intros E. destruct (ledger_result _ _ _ _ E) as (? & ? & ? & _). by simplify_eq. Qed.

Lemma ledger_node N role : n_live (ledger_ N role).1 = n_live N ∧
  n_nodeMax (ledger_ N role).1 = n_nodeMax N ∧ nodeSize (ledger_ N role).1 = nodeSize N.
Proof.
  destruct role as [r|]; [|done]. unfold ledger_.
  destruct (jget (n_heap N) r) as [d|] eqn:Hd; [|done].
  destruct (d_durability d) as [L|] eqn:HL; [done|]. split_and!; [done|done|].
  unfold nodeSize. cbn [n_live put_ledger with_heap fst].
  induction (n_live N) as [|r' l IH]; simpl; [done|]. f_equal; [|exact IH].
  rewrite ledger_of_put. case_decide; subst; [|done]. unfold jhas, ledger_of. by rewrite Hd, HL.
Qed.

(** Reclaiming keeps exactly the live obligations of every ledger. *)
Lemma reclaim_role_of N r r' : ledger_of (reclaim_role N r) r' =
  if decide (r = r') then (λ L, (reclaimTerminal L).1) <$> ledger_of N r' else ledger_of N r'.
Proof.
  unfold reclaim_role. destruct (ledger_of N r) as [L|] eqn:HL.
  - rewrite ledger_of_put. case_decide; subst; [|done].
    rewrite (ledger_of_has _ _ _ HL), HL. done.
  - case_decide; subst; [by rewrite HL|done].
Qed.

Definition node_wf (N : node) : Prop :=
  NoDup (n_live N) ∧ ∀ r L, ledger_of N r = Some L → jwf (l_m L).

Lemma reclaim_fold N rs : (∀ r L, ledger_of N r = Some L → jwf (l_m L)) →
  let N' := foldl reclaim_role N rs in
  n_live N' = n_live N ∧ n_nodeMax N' = n_nodeMax N ∧
  (∀ r, match ledger_of N r, ledger_of N' r with
        | Some L, Some L' => jwf (l_m L') ∧ jsize (l_m L') ≤ jsize (l_m L) ∧
            (∀ k e, jget (l_m L') k = Some e → jget (l_m L) k = Some e) ∧
            (∀ k e, jget (l_m L) k = Some e → is_terminal e = false → jget (l_m L') k = Some e)
        | None, None => True
        | _, _ => False
        end).
Proof.
  revert N. induction rs as [|r0 rs IH]; intros N Hwf; cbn [foldl].
  { split_and!; [done..|]. intros r. destruct (ledger_of N r) eqn:E; [|done].
    split_and!; [by eapply Hwf|lia|done|done]. }
  assert (∀ r L, ledger_of (reclaim_role N r0) r = Some L → jwf (l_m L)) as Hwf1.
  { intros r L. rewrite reclaim_role_of. case_decide; [|by apply Hwf].
    destruct (ledger_of N r) as [L0|] eqn:E; [|done]. intros [=<-]. apply jwf_foldl_jdel. by eapply Hwf. }
  destruct (IH (reclaim_role N r0) Hwf1) as (I1 & I2 & I3). cbv zeta in *.
  assert (n_live (reclaim_role N r0) = n_live N ∧ n_nodeMax (reclaim_role N r0) = n_nodeMax N) as [E1 E2]
    by (unfold reclaim_role; by destruct (ledger_of N r0)).
  split_and!; [congruence..|]. intros r. specialize (I3 r). rewrite reclaim_role_of in I3.
  case_decide; subst; [|done].
  destruct (ledger_of N r) as [L|] eqn:E; simpl in I3; [|done].
  destruct (ledger_of (foldl reclaim_role (reclaim_role N r) rs) r) as [L'|]; [|done].
  destruct I3 as (J1 & J2 & J3 & J4). assert (jwf (l_m L)) as HwL by (by eapply Hwf).
  assert (∀ k, jget (foldl (λ m p, jdel m p.1) (l_m L) (terminal_by_age (l_m L))) k =
    match jget (l_m L) k with Some e => if is_terminal e then None else Some e | None => None end) as Hr
    by (intros k; apply (reclaim_get L k HwL)).
  split_and!; [done| | |].
  - etransitivity; [exact J2|]. clear. generalize (l_m L) as m. intros m.
    generalize (terminal_by_age m) as vs. intros vs. revert m.
    induction vs as [|v vs IHv]; intros m; simpl; [lia|].
    etransitivity; [apply IHv|apply jsize_jdel_le].
  - intros k e Hk. apply J3 in Hk. rewrite Hr in Hk. destruct (jget (l_m L) k); [|done]. by case_match; simplify_eq.
  - intros k e Hk Ht. apply J4; [|done]. by rewrite Hr, Hk, Ht.
Qed.

Lemma nodeSize_le (N N' : node) : n_live N' = n_live N →
  (∀ r, ledger_size (ledger_of N' r) ≤ ledger_size (ledger_of N r)) → nodeSize N' ≤ nodeSize N.
Proof.
  intros Hl Hs. unfold nodeSize. rewrite Hl. clear Hl.
  induction (n_live N) as [|r l IH]; simpl; [lia|]. specialize (Hs r). lia.
Qed.

Lemma nodeSize_put N r L L' : NoDup (n_live N) → ledger_of N r = Some L →
  jsize (l_m L') ≤ jsize (l_m L) + 1 → nodeSize (put_ledger N r L') ≤ nodeSize N + 1.
Proof.
  intros Hnd HL Hs. unfold nodeSize. cbn [n_live put_ledger with_heap].
  assert (∀ l, r ∉ l → foldr (λ r0 acc, ledger_size (ledger_of (put_ledger N r L') r0) + acc) 0 l =
     foldr (λ r0 acc, ledger_size (ledger_of N r0) + acc) 0 l) as Hno.
  { intros l. induction l as [|r' l IH]; [done|]. intros [Hne Hni]%not_elem_of_cons. simpl.
    rewrite IH, ledger_of_put_ne by done. done. }
  induction (n_live N) as [|r' l IH]; simpl; [lia|]. apply NoDup_cons in Hnd as [Hni Hnd].
  destruct (decide (r = r')) as [->|Hne].
  - rewrite Hno, HL by done. erewrite ledger_of_put_eq by done. simpl. lia.
  - rewrite ledger_of_put_ne by done. specialize (IH Hnd). lia.
Qed.

Lemma open_size now L m t : jwf (l_m L) → jsize (l_m (open now L m t)) ≤ jsize (l_m L) + 1.
Proof.
  intros Hwf. destruct (open_get now L m t Hwf) as [->|(Hm & Hn & ->)]; [lia|].
  destruct (prune_keeps_new now L m t Hwf Hn) as [-> _].
  assert (pending_count L ≤ jsize (l_m L)); [|lia].
  pose proof (terminal_length (l_m L)). unfold pending_count. lia.
Qed.

Lemma open_jwf now L m t : jwf (l_m L) → jwf (l_m (open now L m t)).
Proof.
  intros Hwf. destruct (open_get now L m t Hwf) as [->|(Hm & Hn & ->)]; [done|].
  apply prune_get. by apply jwf_jset.
Qed.

(** Role [r]'s ledger holds entry [e] for message [k]. *)
Definition held (N : node) (r : Z) (k : string) (e : entry) : Prop :=
  ∃ L, ledger_of N r = Some L ∧ jget (l_m L) k = Some e.

Lemma put_held_ne N r L r' k e : r ≠ r' → held (put_ledger N r L) r' k e ↔ held N r' k e.
Proof. intros Hne. unfold held. by rewrite ledger_of_put_ne. Qed.

Lemma ledger_wf_node N role : node_wf N → node_wf (ledger_ N role).1.
Proof.
  intros [Hnd Hwf]. destruct (ledger_node N role) as (Hl & _). split; [by rewrite Hl|].
  destruct role as [r|]; [|done]. intros r' L.
  destruct (decide (r = r')) as [<-|Hne]; [|rewrite ledger_other by done; apply Hwf].
  unfold ledger_. destruct (jget (n_heap N) r) as [d|]; [|by apply Hwf].
  destruct (d_durability d); [by apply Hwf|]. cbn [fst]. rewrite ledger_of_put, decide_True by done.
  case_match; [intros [=<-]; apply jwf_nil|done].
Qed.

(** [node_open] on a role whose ledger exists after [_ledger]. *)
Lemma node_open_unfold now N r m : 
  node_open now N (Some r) m =
    let N1 := (ledger_ N (Some r)).1 in
    match (ledger_ N (Some r)).2 with
    | None => N1
    | Some (r0, t, _) =>
        let N2 := if n_nodeMax N1 <=? nodeSize N1 then foldl reclaim_role N1 (n_live N1) else N1 in
        if n_nodeMax N2 <=? nodeSize N2 then N2
        else match ledger_of N2 r0 with Some L => put_ledger N2 r0 (open now L m t) | None => N2 end
    end.
Proof.
  unfold node_open. destruct (ledger_ N (Some r)) as [N1 [[[r0 t] L]|]]; [|done]. simpl.
  destruct (n_nodeMax N1 <=? nodeSize N1) eqn:E; [done|]. by rewrite E.
Qed.

(** The node after the reclaim an admission may run: nothing pending is lost. *)
Lemma node_reclaimed N1 : node_wf N1 →
  let N2 := if n_nodeMax N1 <=? nodeSize N1 then foldl reclaim_role N1 (n_live N1) else N1 in
  node_wf N2 ∧ n_nodeMax N2 = n_nodeMax N1 ∧ nodeSize N2 ≤ nodeSize N1 ∧
  (∀ r k e, held N2 r k e → held N1 r k e) ∧
  (∀ r k e, held N1 r k e → is_terminal e = false → held N2 r k e).
Proof.
  intros [Hnd Hwf]. cbv zeta. destruct (_ <=? _); [|split_and!; [done|done|lia|auto|auto]].
  destruct (reclaim_fold N1 (n_live N1) Hwf) as (R1 & R2 & R3). cbv zeta in *. split_and!; [|done| | |].
  - split; [by rewrite R1|]. intros r L HL. specialize (R3 r). rewrite HL in R3.
    destruct (ledger_of N1 r); [|done]. apply R3.
  - apply nodeSize_le; [done|]. intros r. specialize (R3 r).
    destruct (ledger_of N1 r), (ledger_of _ r); try done; simpl; apply R3.
  - intros r k e (L & HL & Hg). specialize (R3 r). rewrite HL in R3.
    destruct (ledger_of N1 r) as [L1|] eqn:E; [|done]. exists L1. split; [done|]. by apply R3.
  - intros r k e (L & HL & Hg) Ht. specialize (R3 r). rewrite HL in R3.
    destruct (ledger_of _ r) as [L1|] eqn:E; [|done]. exists L1. split; [done|]. by apply R3.
Qed.

Lemma ledger_held_other N r r' k e : r ≠ r' → held (ledger_ N (Some r)).1 r' k e ↔ held N r' k e.
Proof. intros Hne. unfold held. by rewrite ledger_other. Qed.

(** With nothing terminal in the live ledgers a reclaim frees nothing. *)
Lemma reclaim_noop_size N : node_wf N →
  (∀ r L k e, r ∈ n_live N → ledger_of N r = Some L → jget (l_m L) k = Some e → is_terminal e = false) →
  nodeSize (foldl reclaim_role N (n_live N)) = nodeSize N.
Proof.
  intros [Hnd Hwf] Hlive. apply Z.le_antisymm.
  - destruct (reclaim_fold N (n_live N) Hwf) as (R1 & R2 & R3). apply nodeSize_le; [done|].
    intros r. specialize (R3 r). destruct (ledger_of N r), (ledger_of _ r); try done; simpl; apply R3.
  - destruct (reclaim_fold N (n_live N) Hwf) as (R1 & R2 & R3). cbv zeta in *.
    set (N' := foldl reclaim_role N (n_live N)) in *. unfold nodeSize. rewrite R1.
    assert (∀ r, r ∈ n_live N → ledger_size (ledger_of N r) ≤ ledger_size (ledger_of N' r)) as Hle.
    { intros r Hr. specialize (R3 r). destruct (ledger_of N r) as [L|] eqn:EL; [|destruct (ledger_of N' r); simpl; try done; lia].
      destruct (ledger_of N' r) as [L'|]; [|done]. destruct R3 as (J1 & _ & _ & J4). simpl.
      apply jsize_le_keys; [by eapply Hwf|]. intros k (e & Hg)%jhas_true_key%jhas_true.
      eapply jget_Some_key, J4; [done|]. by eapply Hlive. }
    revert Hle. generalize (n_live N) as l. clear. intros l Hle.
    induction l as [|r l IH]; simpl; [lia|].
    pose proof (Hle r ltac:(set_solver)). assert (∀ r, r ∈ l → ledger_size (ledger_of N r) ≤ ledger_size (ledger_of N' r)) as Hl
      by (intros; apply Hle; set_solver). specialize (IH Hl). lia.
Qed.

(** * Properties *)

(** Fail-closed durability: in every run of ledger operations from an
    empty ledger, a message that is [verified] was pending when some earlier
    operation brought positive cohort evidence for it — a direct [record] with
    verified > 0, or a replication outcome classified as a dispatched full
    snapshot.  A deferral, a keepalive, an open, a cancel or silence never
    verifies. *)
Theorem verified_needs_evidence (mx ma : Z) (ops : list (Z * lop)) (k : string) :
  state (lrun (new_ledger mx ma) ops) k = Some verified →
  ∃ ops1 now o ops2 t, ops = ops1 ++ (now, o) :: ops2 ∧
    state (lrun (new_ledger mx ma) ops1) k = Some pending ∧ evidence_for o k t.
Proof.
  unfold state. intros (e & Hg & Hv)%fmap_Some.
  destruct (verified_origin mx ma ops k e Hg (eq_sym Hv)) as (o1 & n1 & o & o2 & e0 & -> & Hg0 & Hp & _ & Hev).
  exists o1, n1, o, o2, (e_topicBig e). split; [done|]. rewrite Hg0. simpl. by rewrite Hp.
Qed.

Lemma verified_needs_evidence_witness :
  let full := mk_rep None (Some true) (Some true) (Some 2) (Some 2) in
  let ops := [(0, OOpen "m" 7); (1, ORecordTopic 7 full)] in
  state (lrun (new_ledger 4 6) ops) "m" = Some verified ∧
  ∃ ops1 now o ops2 t, ops = ops1 ++ (now, o) :: ops2 ∧
    state (lrun (new_ledger 4 6) ops1) "m" = Some pending ∧ evidence_for o "m" t.
Proof.
  split; [reflexivity|]. apply (verified_needs_evidence 4 6). reflexivity.
Defined.

(** C36. The transition table: in a well-formed ledger any operation leaves it
    well formed, keeps every terminal entry exactly as it is or evicts it,
    never removes a pending entry (except [clear]), creates an entry only as a
    fresh pending one by [open], and moves an entry's attempt count by at most
    one - and then leaves it pending or expired - and never to its budget
    without a terminal state. *)
Theorem ledger_transitions (now : Z) (L : ledger) (o : lop) (k : string) :
  ledger_wf L →
  ledger_wf (lstep now L o) ∧
  match jget (l_m L) k, jget (l_m (lstep now L o)) k with
  | Some e, Some e' => entry_moves o k e e'
  | None, Some e' => ∃ t, o = OOpen k t ∧ e' = mk_entry t pending 0 now None
  | Some e, None => o = OClear ∨ is_terminal e = true
  | None, None => True
  end.
Proof. split; [by apply lstep_wf|by apply lstep_entry]. Qed.

Lemma ledger_transitions_witness :
  let L := mk_ledger [("m", mk_entry 7 expired 6 3 None)] 4 6 in
  ledger_wf (lstep 9 L (ORecord "m" 5 5)) ∧
  match jget (l_m L) "m", jget (l_m (lstep 9 L (ORecord "m" 5 5))) "m" with
  | Some e, Some e' => entry_moves (ORecord "m" 5 5) "m" e e'
  | None, Some e' => ∃ t, ORecord "m" 5 5 = OOpen "m" t ∧ e' = mk_entry t pending 0 9 None
  | Some e, None => ORecord "m" 5 5 = OClear ∨ is_terminal e = true
  | None, None => True
  end.
Proof.
  apply (ledger_transitions 9 (mk_ledger [("m", mk_entry 7 expired 6 3 None)] 4 6)).
  split; [repeat constructor; set_solver|]. intros k e. simpl. case_decide; [|done].
  intros [=<-]. simpl. split; [lia|done].
Defined.

(** The ledger cap: an [open] that admits leaves exactly
    [max(min(size + 1, max), pending + 1)] entries, so the ledger exceeds its
    cap only by live obligations; every pending entry is still there unchanged,
    and every terminal entry it evicted is no younger than every terminal
    entry it kept.  A falsy or known id changes nothing. *)
Theorem open_bounded_evicts_oldest (now : Z) (L : ledger) (m : string) (t : Z) :
  ledger_wf L →
  let L' := open now L m t in
  (m = "" ∨ jhas (l_m L) m = true → L' = L) ∧
  (m ≠ "" → jhas (l_m L) m = false →
     jsize (l_m L') = Z.max (Z.min (jsize (l_m L) + 1) (l_max L)) (pending_count L + 1) ∧
     state L' m = Some pending) ∧
  (∀ k e, jget (l_m L) k = Some e → is_terminal e = false → jget (l_m L') k = Some e) ∧
  (∀ k e k' e', jget (l_m L) k = Some e → jget (l_m L') k = None →
     jget (l_m L') k' = Some e' → is_terminal e' = true → e_at e ≤ e_at e').
Proof.
  intros [Hwf _]. cbv zeta. split.
  { intros [-> | Hh]; unfold open; [by rewrite decide_True|]. case_decide; [done|]. by rewrite Hh. }
  destruct (open_get now L m t Hwf) as [Heq|(Hm & Hn & ->)].
  { rewrite Heq. split_and!; [|done|congruence]. intros Hm Hh. exfalso.
    unfold open in Heq. rewrite decide_False, Hh in Heq by done.
    apply jhas_false in Hh. destruct (prune_keeps_new now L m t Hwf Hh) as [_ Hp].
    rewrite Heq in Hp. congruence. }
  set (L1 := with_m L _). assert (jwf (l_m L1)) as Hwf1 by (by apply jwf_jset).
  destruct (prune_get L1 Hwf1) as (P0 & P1 & P2 & P3).
  assert (∀ k e, jget (l_m L) k = Some e → jget (l_m L1) k = Some e) as Hsub.
  { intros k e He. simpl. rewrite jget_jset_ne; [done|]. congruence. }
  split_and!.
  - intros _ _. destruct (prune_keeps_new now L m t Hwf Hn) as [Hs Hp]. split; [exact Hs|].
    unfold state. fold L1 in Hp. by rewrite Hp.
  - intros k e He Ht. destruct (jget (l_m (prune L1)) k) eqn:E.
    + apply P1 in E. rewrite (Hsub k e He) in E. congruence.
    + exfalso. pose proof (P2 k e (Hsub k e He) E). congruence.
  - intros k e k' e' He. apply P3. by apply Hsub.
Qed.

Lemma open_bounded_evicts_oldest_witness :
  let L := mk_ledger [("a", mk_entry 7 expired 6 3 None); ("b", mk_entry 7 verified 0 1 None)] 2 6 in
  let L' := open 9 L "m" 7 in
  l_m L' = [("a", mk_entry 7 expired 6 3 None); ("m", mk_entry 7 pending 0 9 None)] ∧
  (∀ k e, jget (l_m L) k = Some e → is_terminal e = false → jget (l_m L') k = Some e).
Proof.
  split; [reflexivity|].
  apply (open_bounded_evicts_oldest 9
    (mk_ledger [("a", mk_entry 7 expired 6 3 None); ("b", mk_entry 7 verified 0 1 None)] 2 6) "m" 7).
  split; [repeat constructor; set_solver|]. intros k e. simpl.
  repeat case_decide; intros; simplify_eq/=; split; lia || done.
Defined.

(** The attempt budget terminates every obligation: a pending message in
    a well-formed ledger that gets [n] failed cohort attempts is still pending
    exactly while [attempts + n] is below [maxAttempts], and [expired] from
    then on. *)
Theorem attempts_budget_expires (now : Z) (L : ledger) (k : string) (e : entry) (a : Z) (n : nat) :
  ledger_wf L → jget (l_m L) k = Some e → e_state e = pending → a ≠ 0 → 1 ≤ l_maxAttempts L →
  state (Nat.iter n (λ L, (record now L k 0 a).1) L) k =
    if (n =? 0)%nat || (e_attempts e + Z.of_nat n <? l_maxAttempts L) then Some pending else Some expired.
Proof.
  intros [Hwf Hb] He Hp Ha HM. specialize (Hb k e He).
  assert (is_terminal e = false) as Ht by (unfold is_terminal; by rewrite Hp).
  set (Ln := Nat.iter n _ L).
  assert (l_maxAttempts Ln = l_maxAttempts L ∧
    ∃ e', jget (l_m Ln) k = Some e' ∧
      if (n =? 0)%nat || (e_attempts e + Z.of_nat n <? l_maxAttempts L)
      then e_state e' = pending ∧ e_attempts e' = e_attempts e + Z.of_nat n
      else e_state e' = expired) as (_ & e' & He' & Hc).
  { subst Ln. induction n as [|n IH]; [simpl; split; [done|]; exists e; naive_solver lia|].
    destruct IH as (HMn & e' & He' & Hc). rewrite Nat.iter_succ. set (Ln := Nat.iter n _ L) in *. cbv beta.
    destruct (record_maps now Ln k 0 a) as (Hg & _ & _ & HM').
    split; [by rewrite HM'|]. rewrite Hg, decide_True, He' by done. eexists. split; [done|].
    rewrite HMn. simpl ((S n =? 0)%nat || _). unfold rec_entry.
    destruct ((n =? 0)%nat || (e_attempts e + Z.of_nat n <? l_maxAttempts L)) eqn:E.
    - destruct Hc as [Hc1 Hc2]. unfold is_terminal. rewrite Hc1, bool_decide_eq_true_2 by done. simpl.
      rewrite (proj2 (Z.eqb_neq a 0) Ha), Hc2. simpl.
      destruct (e_attempts e + Z.of_nat (S n) <? l_maxAttempts L) eqn:E2; zb.
      + destruct (l_maxAttempts L <=? e_attempts e + Z.of_nat n + 1) eqn:E3; zb; [lia|]. simpl. split; [done|lia].
      + destruct (l_maxAttempts L <=? e_attempts e + Z.of_nat n + 1) eqn:E3; zb; [done|lia].
    - unfold is_terminal. rewrite Hc, bool_decide_eq_false_2 by done. simpl.
      apply orb_false_iff in E as [_ E]. zb.
      destruct (e_attempts e + Z.of_nat (S n) <? l_maxAttempts L) eqn:E2; zb; [lia|done]. }
  unfold state. rewrite He'. simpl. case_match; [destruct Hc as [-> _]; done|by rewrite Hc].
Qed.

Lemma attempts_budget_expires_witness :
  let L := mk_ledger [("m", mk_entry 7 pending 0 3 None)] 4 DURABILITY_ATTEMPTS in
  state (Nat.iter 5 (λ L, (record 9 L "m" 0 2).1) L) "m" = Some pending ∧
  state (Nat.iter 6 (λ L, (record 9 L "m" 0 2).1) L) "m" = Some expired.
Proof.
  assert (ledger_wf (mk_ledger [("m", mk_entry 7 pending 0 3 None)] 4 DURABILITY_ATTEMPTS)) as Hwf.
  { split; [repeat constructor; set_solver|]. intros k e. simpl. case_decide; [|done].
    intros [=<-]. simpl. unfold DURABILITY_ATTEMPTS. lia. }
  split.
  - apply (attempts_budget_expires 9 _ "m" (mk_entry 7 pending 0 3 None) 2 5 Hwf);
      [reflexivity|reflexivity|discriminate|vm_compute; discriminate].
  - apply (attempts_budget_expires 9 _ "m" (mk_entry 7 pending 0 3 None) 2 6 Hwf);
      [reflexivity|reflexivity|discriminate|vm_compute; discriminate].
Defined.

(** Topic-level verdicts: [recordTopic] accounts for every pending entry of
    its topic exactly once (verified + expired + pending is their number),
    leaves every other entry untouched, and an outcome that dispatched no full
    snapshot changes nothing at all. *)
Theorem recordTopic_accounts (now : Z) (L : ledger) (t : Z) (r : rep) :
  ledger_wf L →
  let '(L', o) := recordTopic now L t r in
  out_total o = count_entries (is_open_for t) (l_m L) ∧ o_kind o = classify r ∧
  (∀ k e, jget (l_m L) k = Some e → is_open_for t e = false → jget (l_m L') k = Some e) ∧
  (classify r = KNoDispatch ∨ classify r = KNoSnapshot → L' = L) ∧
  (classify r = KNoCohort → ∀ k e, jget (l_m L) k = Some e → is_open_for t e = true →
     state L' k = Some expired).
Proof.
  intros [Hwf _]. pose proof (recordTopic_get now L t r Hwf) as (Hg & _).
  assert (out_total (recordTopic now L t r).2 = count_entries (is_open_for t) (l_m L) ∧
    o_kind (recordTopic now L t r).2 = classify r ∧
    (classify r = KNoDispatch ∨ classify r = KNoSnapshot → (recordTopic now L t r).1 = L)) as (H1 & H2 & H3).
  { unfold recordTopic. destruct (classify r) eqn:Hk; [|split; [unfold out_total; simpl; lia|naive_solver]..|].
    - split_and!; [|by rewrite recordTopic_fold_kind|naive_solver].
      rewrite recordTopic_fold_total; [done|auto|done|]. intros. by apply elem_jget.
    - split_and!; [|by rewrite recordTopic_fold_kind|naive_solver].
      rewrite recordTopic_fold_total; [done|auto|done|]. intros. by apply elem_jget. }
  destruct (recordTopic now L t r) as [L' o]. simpl in *. split_and!; try done.
  - intros k e He Ho. rewrite Hg, He. simpl. unfold topic_entry. by rewrite Ho.
  - intros Hk k e He Ho. unfold state. rewrite Hg, He. simpl. unfold topic_entry. rewrite Ho, Hk.
    unfold exp_entry, is_open_for in *. zb. by rewrite H.
Qed.

Lemma recordTopic_accounts_witness :
  let L := mk_ledger [("m", mk_entry 7 pending 0 3 None); ("n", mk_entry 8 pending 0 3 None)] 4 6 in
  let alone := mk_rep (Some true) None None None None in
  let '(L', o) := recordTopic 9 L 7 alone in
  out_total o = count_entries (is_open_for 7) (l_m L) ∧ o_kind o = classify alone ∧
  (∀ k e, jget (l_m L) k = Some e → is_open_for 7 e = false → jget (l_m L') k = Some e) ∧
  (classify alone = KNoDispatch ∨ classify alone = KNoSnapshot → L' = L) ∧
  (classify alone = KNoCohort → ∀ k e, jget (l_m L) k = Some e → is_open_for 7 e = true →
     state L' k = Some expired).
Proof.
  apply (recordTopic_accounts 9
    (mk_ledger [("m", mk_entry 7 pending 0 3 None); ("n", mk_entry 8 pending 0 3 None)] 4 6)
    7 (mk_rep (Some true) None None None None)).
  split; [repeat constructor; set_solver|]. intros k e. simpl.
  repeat case_decide; intros; simplify_eq/=; lia.
Defined.

(** Role isolation (the shared-msgId fix): an operation on one role never
    touches another role's obligations — same message id or not — except that
    an admission under node pressure may drop another role's finished entries;
    it adds nothing there and keeps every pending obligation as it is. *)
Theorem node_roles_isolated (now : Z) (N : node) (r r' : Z) (o : nop) :
  node_wf N → r ≠ r' →
  let N' := nstep now N (Some r) o in
  (∀ k e, held N r' k e → is_terminal e = false → held N' r' k e) ∧
  (∀ k e, held N' r' k e → held N r' k e) ∧
  match o with NOpen _ => True | _ => ledger_of N' r' = ledger_of N r' end.
Proof.
  intros Hwf Hne. cbv zeta.
  assert (∀ N' : node, ledger_of N' r' = ledger_of N r' →
    (∀ k e, held N r' k e → is_terminal e = false → held N' r' k e) ∧
    (∀ k e, held N' r' k e → held N r' k e) ∧
    match o with NOpen _ => True | _ => ledger_of N' r' = ledger_of N r' end) as Hsame.
  { intros N' Heq. unfold held. rewrite Heq. split_and!; [done|done|by destruct o]. }
  assert (ledger_of (ledger_ N (Some r)).1 r' = ledger_of N r') as Hl by (by apply ledger_other).
  destruct o as [m|m v a|m rp|rp|m|m]; cbn [nstep].
  - rewrite node_open_unfold. cbv zeta.
    destruct (ledger_ N (Some r)).2 as [[[r0 t] L]|] eqn:E2; [|by apply Hsame].
    assert (r0 = r) as ->.
    { destruct (ledger_ N (Some r)) as [N1 x] eqn:E. simpl in E2. subst x.
      by eapply ledger_result_role. }
    destruct (node_reclaimed (ledger_ N (Some r)).1 (ledger_wf_node _ _ Hwf)) as (_ & _ & _ & R1 & R2).
    set (N1 := (ledger_ N (Some r)).1) in *.
    set (N2 := if n_nodeMax N1 <=? nodeSize N1 then foldl reclaim_role N1 (n_live N1) else N1) in *.
    split_and!; [| |done]; intros k e Hh.
    + intros Ht. apply (ledger_held_other N r r' k e Hne) in Hh. specialize (R2 _ _ _ Hh Ht).
      case_match; [done|]. case_match; [by apply put_held_ne|done].
    + apply (ledger_held_other N r r' k e Hne), R1. revert Hh.
      case_match; [done|]. case_match; [by apply put_held_ne|done].
  - unfold node_record. destruct (ledger_ N (Some r)) as [N1 [[[r0 t] L]|]] eqn:E; [|by apply Hsame].
    rewrite (ledger_result_role _ _ _ _ _ _ E) in *.
    destruct (record now L m v a). apply Hsame. cbn [fst]. by rewrite ledger_of_put_ne.
  - unfold node_recordOne. destruct (ledger_ N (Some r)) as [N1 [[[r0 t] L]|]] eqn:E; [|by apply Hsame].
    rewrite (ledger_result_role _ _ _ _ _ _ E) in *.
    destruct (recordOne now L m rp). apply Hsame. cbn [fst]. by rewrite ledger_of_put_ne.
  - unfold node_recordTopic. destruct (ledger_ N (Some r)) as [N1 [[[r0 t] L]|]] eqn:E; [|by apply Hsame].
    rewrite (ledger_result_role _ _ _ _ _ _ E) in *.
    destruct (recordTopic now L t rp). apply Hsame. cbn [fst]. by rewrite ledger_of_put_ne.
  - unfold node_noCohortConfigured. destruct (ledger_ N (Some r)) as [N1 [[[r0 t] L]|]] eqn:E; [|by apply Hsame].
    rewrite (ledger_result_role _ _ _ _ _ _ E) in *.
    apply Hsame. cbn [fst]. by rewrite ledger_of_put_ne.
  - unfold node_cancel. destruct (ledger_ N (Some r)) as [N1 [[[r0 t] L]|]] eqn:E; [|by apply Hsame].
    rewrite (ledger_result_role _ _ _ _ _ _ E) in *.
    apply Hsame. cbn [fst]. by rewrite ledger_of_put_ne.
Qed.

Definition two_roles : node :=
  mk_node [(1, mk_drole 7 None); (2, mk_drole 8 (Some (mk_ledger [("m", mk_entry 8 pending 0 1 None)] 4 6)))]
    [1; 2] 2 4 6.

Lemma two_roles_wf : node_wf two_roles.
Proof.
  split; [repeat constructor; set_solver|]. intros r L. unfold ledger_of, two_roles. simpl.
  repeat case_decide; intros; simplify_eq/=. repeat constructor; set_solver.
Qed.

Lemma node_roles_isolated_witness :
  let N' := nstep 5 two_roles (Some 1) (NOpen "m") in
  ledger_of N' 1 = Some (mk_ledger [("m", mk_entry 7 pending 0 5 None)] 4 6) ∧
  (∀ k e, held two_roles 2 k e → is_terminal e = false → held N' 2 k e).
Proof.
  split; [reflexivity|].
  apply (node_roles_isolated 5 two_roles 1 2 (NOpen "m") two_roles_wf). discriminate.
Defined.

(** The node-wide budget: admissions keep the node's total number of
    entries within [nodeMax], and when live obligations alone fill the budget
    the admission is refused: the message is held after only if it was before. *)
Theorem node_budget (now : Z) (N : node) (r : Z) (m : string) :
  node_wf N → nodeSize N ≤ n_nodeMax N →
  let N' := node_open now N (Some r) m in
  nodeSize N' ≤ n_nodeMax N ∧
  (nodeSize N = n_nodeMax N → (∀ r0 L k e, r0 ∈ n_live N → ledger_of N r0 = Some L →
       jget (l_m L) k = Some e → is_terminal e = false) →
     ∀ e, held N' r m e → held N r m e).
Proof.
  intros Hwf Hb. cbv zeta. rewrite node_open_unfold. cbv zeta.
  destruct (ledger_node N (Some r)) as (Hl & Hmax & Hsz).
  pose proof (ledger_wf_node N (Some r) Hwf) as Hwf1.
  destruct (ledger_ N (Some r)) as [N1 [x|]] eqn:E; cbn [fst snd] in *.
  2:{ split; [lia|]. intros _ _ e. unfold ledger_ in E.
      destruct (jget (n_heap N) r) as [d|]; [destruct (d_durability d)|]; by simplify_eq. }
  destruct (ledger_result _ _ _ _ E) as (t & L & -> & HL & Hor).
  assert (∀ k e, held N1 r k e → held N r k e) as Hback.
  { intros k e (L' & HL' & Hg). destruct Hor as [Hor|[_ ->]]; [|by simplify_eq].
    exists L. naive_solver. }
  destruct (node_reclaimed N1 Hwf1) as (R0 & R1 & R2 & R3 & R4).
  set (N2 := if n_nodeMax N1 <=? nodeSize N1 then foldl reclaim_role N1 (n_live N1) else N1) in *.
  split.
  - destruct (n_nodeMax N2 <=? nodeSize N2) eqn:E2; zb; [lia|].
    destruct (ledger_of N2 r) as [L2|] eqn:EL; [|lia].
    pose proof (nodeSize_put N2 r L2 (open now L2 m t) (proj1 R0) EL) as Hp.
    pose proof (open_size now L2 m t (proj2 R0 _ _ EL)). lia.
  - intros Hfull Hlive e. assert (nodeSize N2 = nodeSize N1) as Hs2.
    { subst N2. destruct (n_nodeMax N1 <=? nodeSize N1); [|done]. apply reclaim_noop_size; [done|].
      intros r0 L0 k0 e0 Hr0 HL0 Hg0. rewrite Hl in Hr0.
      destruct (decide (r = r0)) as [<-|Hne].
      - destruct Hor as [Hor|[_ ->]]; [|by simplify_eq]. simplify_eq. by eapply Hlive.
      - pose proof (ledger_other N r r0 Hne) as Ho. rewrite E in Ho. simpl in Ho.
        eapply Hlive; [done| |done]. by rewrite <-Ho. }
    rewrite (proj2 (Z.leb_le (n_nodeMax N2) (nodeSize N2))) by lia. intros Hh%R3. by apply Hback.
Qed.

Lemma node_budget_witness :
  let N' := node_open 5 (mk_node (n_heap two_roles) [1; 2] 1 4 6) (Some 1) "q" in
  nodeSize N' ≤ 1 ∧ ∀ e, held N' 1 "q" e → held (mk_node (n_heap two_roles) [1; 2] 1 4 6) 1 "q" e.
Proof.
  set (N := mk_node (n_heap two_roles) [1; 2] 1 4 6).
  assert (node_wf N) as Hwf by (destruct two_roles_wf as [? Hw]; split; [done|exact Hw]).
  assert (nodeSize N ≤ n_nodeMax N) as Hle by (vm_compute; discriminate).
  split; [exact (proj1 (node_budget 5 N 1 "q" Hwf Hle))|].
  apply (proj2 (node_budget 5 N 1 "q" Hwf Hle)); [reflexivity|].
  intros r0 L k e Hr. unfold ledger_of, N. simpl.
  repeat case_decide; intros; simplify_eq/=; try done; repeat case_decide; by simplify_eq/=.
Defined.
