(* ===== verification/Canonical.v ===== *)
(** Canonical JSON: [canonical] of [src/src/pubsub/post.js], the text every
    signature and content address of the kernel is computed over.

    A [string] is a text as its UTF-8 bytes, so [TextEncoder] is the identity
    and its byte count is [String.length].  A JavaScript value with a JSON form
    is a [json]; [JUndefined] stands for the values without one (undefined,
    functions, symbols).  A number is an integer, below 10^21 in absolute value
    where its text is at stake, as every time, counter, epoch, sequence number
    and purpose of the protocol's own records is, or a non-finite one: a value
    with a fractional number, which a message or a frame of the wire may hold,
    has no counterpart here, and nothing is said of it. *)

From Stdlib Require Import Ascii DecimalString DecimalZ.
From stdpp Require Import base tactics sets list sorting numbers strings.
From Stdlib Require Import ZArith Lia.
From S2P Require Import Prelude.

#[local] Arguments String.append !s1 s2 / : simpl nomatch, rename.

Inductive json :=
| JUndefined
| JNullV
| JBoolV (b : bool)
| JNumber (z : Z)
| JNotFinite
| JText (s : string)
| JArray (l : list json)
| JObject (l : list (string * json)).

(** * Printing *)

(** [JSON.stringify] of one character of a text. *)
Definition hex2 (n : nat) : ascii :=
  if (n <? 10)%nat then ascii_of_nat (48 + n) else ascii_of_nat (87 + n).

Definition escape_char (c : ascii) : string :=
  let n := nat_of_ascii c in
  if (n =? 34)%nat then String "\" (String c "")
  else if (n =? 92)%nat then String "\" (String c "")
  else if (n =? 8)%nat then "\b"
  else if (n =? 12)%nat then "\f"
  else if (n =? 10)%nat then "\n"
  else if (n =? 13)%nat then "\r"
  else if (n =? 9)%nat then "\t"
  else if (n <? 32)%nat then "\u00" +:+ String (hex2 (n / 16)) (String (hex2 (n mod 16)) "")
  else String c "".

Definition quote_char : ascii := ascii_of_nat 34.

Fixpoint escape (s : string) : string :=
  match s with EmptyString => "" | String c s' => escape_char c +:+ escape s' end.

(** [JSON.stringify] of a text, and of an integer. *)
Definition js_quote (s : string) : string :=
  String quote_char (escape s +:+ String quote_char "").
Definition js_int (z : Z) : string := NilZero.string_of_int (Z.to_int z).

(** [parts.join(',')] *)
Fixpoint join_comma (l : list string) : string :=
  match l with
  | [] => ""
  | [x] => x
  | x :: l' => x +:+ String "," (join_comma l')
  end.

(** JavaScript orders texts by UTF-16 units. On well-formed UTF-8 that is the order of the bytes,
    but for the three-byte characters from U+E000 on (lead bytes 238, 239), which come after the
    four-byte ones (240 to 244), whose first unit is a surrogate. *)
Definition utf16_rank (c : ascii) : ascii :=
  match nat_of_ascii c with
  | 238 => ascii_of_nat 254 | 239 => ascii_of_nat 255
  | 254 => ascii_of_nat 238 | 255 => ascii_of_nat 239
  | _ => c
  end%nat.
Fixpoint utf16_key (s : string) : string :=
  match s with EmptyString => "" | String c s' => String (utf16_rank c) (utf16_key s') end.

(** [Object.keys(value).sort()], with the values. *)
Definition str_le (a b : string) : bool :=
  match String.compare (utf16_key a) (utf16_key b) with Gt => false | _ => true end.
Fixpoint ins_key {A} (p : string * A) (l : list (string * A)) : list (string * A) :=
  match l with
  | [] => [p]
  | q :: l' => if str_le p.1 q.1 then p :: q :: l' else q :: ins_key p l'
  end.
Definition sort_keys {A} (l : list (string * A)) : list (string * A) := foldr ins_key [] l.

Definition has_json_form (v : json) : bool :=
  match v with JUndefined => false | _ => true end.

Fixpoint canonical (v : json) : string :=
  match v with
  | JUndefined | JNullV | JNotFinite => "null"
  | JBoolV true => "true"
  | JBoolV false => "false"
  | JNumber z => js_int z
  | JText s => js_quote s
  | JArray l => String "[" (join_comma (canonical <$> l) +:+ "]")
  | JObject l =>
      String "{" (join_comma ((λ p, js_quote p.1 +:+ String ":" p.2.2) <$>
        filter (λ p, p.2.1 = true)
          (sort_keys ((λ p, (p.1, (has_json_form p.2, canonical p.2))) <$> l))) +:+ "}")
  end.

(** * What the wire makes of a value

    The value a JSON round trip yields: keys without a JSON form are dropped,
    array elements without one and non-finite numbers are [null], and the keys
    of an object are taken in sorted order. *)
Fixpoint wire (v : json) : json :=
  match v with
  | JUndefined | JNullV | JNotFinite => JNullV
  | JBoolV b => JBoolV b
  | JNumber z => JNumber z
  | JText s => JText s
  | JArray l => JArray (wire <$> l)
  | JObject l =>
      JObject ((λ p, (p.1, p.2.2)) <$>
        filter (λ p, p.2.1 = true)
          (sort_keys ((λ p, (p.1, (has_json_form p.2, wire p.2))) <$> l)))
  end.

(** * Induction on JSON values *)

Section json_ind.
Variable P : json → Prop.
Hypothesis Hundef : P JUndefined.
Hypothesis Hnull : P JNullV.
Hypothesis Hbool : ∀ b, P (JBoolV b).
Hypothesis Hnum : ∀ z, P (JNumber z).
Hypothesis Hnf : P JNotFinite.
Hypothesis Htext : ∀ s, P (JText s).
Hypothesis Harr : ∀ l, Forall P l → P (JArray l).
Hypothesis Hobj : ∀ l, Forall (λ p, P p.2) l → P (JObject l).

Fixpoint json_ind' (v : json) : P v :=
  match v with
  | JUndefined => Hundef | JNullV => Hnull | JBoolV b => Hbool b
  | JNumber z => Hnum z | JNotFinite => Hnf | JText s => Htext s
  | JArray l => Harr l ((fix go l : Forall P l :=
      match l with [] => Forall_nil_2 _ | x :: l' => Forall_cons_2 _ _ _ (json_ind' x) (go l') end) l)
  | JObject l => Hobj l ((fix go l : Forall (λ p, P p.2) l :=
      match l with
      | [] => Forall_nil_2 _
      | p :: l' => Forall_cons_2 (λ p, P p.2) p l' (json_ind' p.2) (go l')
      end) l)
  end.
End json_ind.

(** * Sorting keys *)

Lemma sort_keys_map {A B} (f : A → B) (l : list (string * A)) :
  sort_keys ((λ p, (p.1, f p.2)) <$> l) = (λ p, (p.1, f p.2)) <$> sort_keys l.
Proof.
  unfold sort_keys. induction l as [|p l IH]; [done|]. cbn [fmap list_fmap foldr] in *.
  rewrite IH. generalize (foldr ins_key [] l) as m. intros m.
  induction m as [|q m IHm]; [done|]. cbn [fmap list_fmap ins_key fst].
  destruct (str_le p.1 q.1); [done|]. cbn [fmap list_fmap]. by rewrite IHm.
Qed.

Lemma ins_key_perm {A} (p : string * A) l : ins_key p l ≡ₚ p :: l.
Proof.
  induction l as [|q l IH]; simpl; [done|]. case_match; [done|]. rewrite IH. apply Permutation_swap.
Qed.
Lemma sort_keys_perm {A} (l : list (string * A)) : sort_keys l ≡ₚ l.
Proof. induction l as [|p l IH]; [done|]. unfold sort_keys in *. simpl. by rewrite ins_key_perm, IH. Qed.

Definition key_sorted {A} (l : list (string * A)) : Prop :=
  StronglySorted (λ p q, str_le p.1 q.1 = true) l.

Lemma ascii_compare_N a b : Ascii.compare a b = N.compare (Ascii.N_of_ascii a) (Ascii.N_of_ascii b).
Proof. done. Qed.

Lemma str_le_total a b : str_le a b = false → str_le b a = true.
Proof.
  unfold str_le. rewrite (String.compare_antisym (utf16_key a) (utf16_key b)). by destruct (String.compare (utf16_key b) _).
Qed.

Lemma utf16_rank_invol c : utf16_rank (utf16_rank c) = c.
Proof. by destruct c as [[] [] [] [] [] [] [] []]. Qed.
Lemma utf16_key_invol s : utf16_key (utf16_key s) = s.
Proof. induction s as [|c s IH]; [done|]. cbn. by rewrite utf16_rank_invol, IH. Qed.

Lemma str_le_antisym a b : str_le a b = true → str_le b a = true → a = b.
Proof.
  unfold str_le. rewrite (String.compare_antisym (utf16_key b) (utf16_key a)).
  destruct (String.compare (utf16_key a) (utf16_key b)) eqn:E; simpl; try done.
  intros _ _. apply String.compare_eq_iff in E. by rewrite <- (utf16_key_invol a), E, utf16_key_invol.
Qed.

(** U+1F600 (two surrogates) comes before U+FF5E (one unit), though its bytes do not. *)
Example surrogates_first :
  let grin := String "240" (String "159" (String "152" (String "128" ""))) in
  let tilde := String "239" (String "189" (String "158" "")) in
  str_le grin tilde = true ∧ str_le tilde grin = false ∧ String.compare grin tilde = Gt.
Proof. split_and!; vm_compute; reflexivity. Qed.

Lemma string_compare_trans a b c x :
  String.compare a b = x → String.compare b c = x → String.compare a c = x.
Proof.
  revert b c. induction a as [|a1 a IH]; intros [|b1 b] [|c1 c]; simpl; try congruence.
  rewrite !ascii_compare_N.
  destruct (N.compare_spec (N_of_ascii a1) (N_of_ascii b1)) as [Hab|Hab|Hab],
    (N.compare_spec (N_of_ascii b1) (N_of_ascii c1)) as [Hbc|Hbc|Hbc];
    intros H1 H2; subst; try congruence; try (apply (IH b c); congruence);
  destruct (N.compare_spec (N_of_ascii a1) (N_of_ascii c1)); try congruence; try lia; eauto.
Qed.

Lemma str_le_trans a b c : str_le a b = true → str_le b c = true → str_le a c = true.
Proof.
  unfold str_le. generalize (utf16_key a), (utf16_key b), (utf16_key c). clear. intros a b c H1 H2.
  destruct (String.compare a b) eqn:E1; [apply String.compare_eq_iff in E1; by subst| |done].
  destruct (String.compare b c) eqn:E2; [apply String.compare_eq_iff in E2; subst; by rewrite E1| |done].
  by rewrite (string_compare_trans a b c Lt).
Qed.

Lemma ins_key_sorted {A} (p : string * A) l : key_sorted l → key_sorted (ins_key p l).
Proof.
  unfold key_sorted. induction 1 as [|q l Hs IH Hf]; simpl; [repeat constructor|].
  destruct (str_le p.1 q.1) eqn:E.
  - constructor; [by constructor|]. constructor; [done|].
    eapply Forall_impl; [exact Hf|]. simpl. intros r. by apply str_le_trans.
  - constructor; [done|]. rewrite ins_key_perm. constructor; [by apply str_le_total|done].
Qed.

Lemma sort_keys_sorted {A} (l : list (string * A)) : key_sorted (sort_keys l).
Proof. induction l; simpl; [constructor|]. by apply ins_key_sorted. Qed.

Lemma sort_keys_id {A} (l : list (string * A)) : key_sorted l → sort_keys l = l.
Proof.
  unfold key_sorted, sort_keys. induction 1 as [|p l Hs IH Hf]; simpl; [done|]. rewrite IH.
  destruct l as [|q l]; simpl; [done|]. apply Forall_cons in Hf as [-> _]. done.
Qed.

(** The members of an object that its JSON text shows, in order. *)
Definition shown (l : list (string * json)) : list (string * json) :=
  filter (λ p, has_json_form p.2 = true) (sort_keys l).

Lemma filter_form_map {B} (f : json → B) (l : list (string * json)) :
  filter (λ p, p.2.1 = true) ((λ p, (p.1, (has_json_form p.2, f p.2))) <$> l)
  = (λ p, (p.1, (has_json_form p.2, f p.2))) <$> filter (λ p, has_json_form p.2 = true) l.
Proof.
  induction l as [|p l IH]; [done|]. cbn [fmap list_fmap]. rewrite !filter_cons. cbn [snd fst].
  destruct (decide (has_json_form p.2 = true)); cbn [fmap list_fmap]; [by f_equal|done].
Qed.

Lemma canonical_object l :
  canonical (JObject l) =
    String "{" (join_comma ((λ p, js_quote p.1 +:+ String ":" (canonical p.2)) <$> shown l) +:+ "}").
Proof.
  cbn [canonical]. rewrite (sort_keys_map (λ v, (has_json_form v, canonical v))), filter_form_map.
  rewrite <-list_fmap_compose. done.
Qed.

Lemma wire_object l : wire (JObject l) = JObject ((λ p, (p.1, wire p.2)) <$> shown l).
Proof.
  cbn [wire]. rewrite (sort_keys_map (λ v, (has_json_form v, wire v))), filter_form_map.
  rewrite <-list_fmap_compose. done.
Qed.

Lemma wire_has_form v : has_json_form (wire v) = true.
Proof. by destruct v. Qed.

Lemma shown_sorted l : key_sorted (shown l).
Proof.
  unfold shown, key_sorted. pose proof (sort_keys_sorted l) as Hs. revert Hs.
  generalize (sort_keys l) as m. intros m. induction 1 as [|p m Hs IH Hf]; [constructor|].
  rewrite filter_cons. case_decide; [|done]. constructor; [done|].
  rewrite Forall_forall in Hf |- *. intros q [_ Hq]%list_elem_of_filter. auto.
Qed.

Lemma shown_wired l : shown ((λ p, (p.1, wire p.2)) <$> shown l) = (λ p, (p.1, wire p.2)) <$> shown l.
Proof.
  unfold shown at 1. rewrite sort_keys_map, (sort_keys_id (shown l)) by apply shown_sorted.
  generalize (shown l) as m. intros m.
  induction m as [|p m IH]; [done|]. cbn [fmap list_fmap]. rewrite filter_cons. cbn [snd].
  rewrite decide_True by apply wire_has_form. by f_equal.
Qed.

Lemma Forall_shown (P : json → Prop) l : Forall (λ p, P p.2) l → Forall (λ p, P p.2) (shown l).
Proof.
  intros HP. rewrite Forall_forall in HP |- *. intros p [_ Hp]%list_elem_of_filter.
  rewrite sort_keys_perm in Hp. auto.
Qed.

(** * Reading canonical text back, one token at a time *)

Lemma append_assoc (a b c : string) : (a +:+ b) +:+ c = a +:+ (b +:+ c).
Proof. induction a as [|x a IH]; simpl; [done|]. by rewrite IH. Qed.
Lemma append_cons x (a b : string) : String x a +:+ b = String x (a +:+ b).
Proof. done. Qed.
Lemma append_nil_l (b : string) : "" +:+ b = b.
Proof. done. Qed.

(** A value of [[0-9a-f]] back from its digit. *)
Definition unhex2 (c : ascii) : nat :=
  let n := nat_of_ascii c in if (n <? 58)%nat then n - 48 else n - 87.

(** One (possibly escaped) character of a quoted text. *)
Definition unescape (s : string) : option (ascii * string) :=
  match s with
  | EmptyString => None
  | String c r =>
      if (nat_of_ascii c =? 34)%nat then None
      else if (nat_of_ascii c =? 92)%nat then
        match r with
        | String "b" r' => Some (ascii_of_nat 8, r')
        | String "f" r' => Some (ascii_of_nat 12, r')
        | String "n" r' => Some (ascii_of_nat 10, r')
        | String "r" r' => Some (ascii_of_nat 13, r')
        | String "t" r' => Some (ascii_of_nat 9, r')
        | String "u" (String _ (String _ (String h (String l r')))) =>
            Some (ascii_of_nat (16 * unhex2 h + unhex2 l), r')
        | String d r' => Some (d, r')
        | EmptyString => None
        end
      else Some (c, r)
  end.

Lemma unescape_escape c r : unescape (escape_char c +:+ r) = Some (c, r).
Proof. destruct c as [[] [] [] [] [] [] [] []]; reflexivity. Qed.

Lemma unescape_quote r : unescape (String quote_char r) = None.
Proof. done. Qed.

Lemma escape_unique s t r1 r2 :
  escape s +:+ String quote_char r1 = escape t +:+ String quote_char r2 → s = t ∧ r1 = r2.
Proof.
  revert t. induction s as [|c s IH]; intros [|d t]; cbn [escape].
  - rewrite !append_nil_l. intros H. by injection H.
  - rewrite append_nil_l, append_assoc. intros H%(f_equal unescape).
    by rewrite unescape_escape, unescape_quote in H.
  - rewrite append_nil_l, append_assoc. intros H%(f_equal unescape).
    by rewrite unescape_escape, unescape_quote in H.
  - rewrite !append_assoc. intros H%(f_equal unescape). rewrite !unescape_escape in H.
    injection H as -> H. destruct (IH t H) as [-> ->]. done.
Qed.

Lemma js_quote_unique s t r1 r2 : js_quote s +:+ r1 = js_quote t +:+ r2 → s = t ∧ r1 = r2.
Proof.
  unfold js_quote. rewrite !append_cons, !append_assoc, !append_cons, !append_nil_l.
  intros H. injection H as H. by apply escape_unique.
Qed.

(** Numbers: a run of digits and signs, ended by something that is neither. *)
Definition is_num_char (c : ascii) : bool :=
  let n := nat_of_ascii c in (n =? 45)%nat || ((48 <=? n)%nat && (n <=? 57)%nat).
Fixpoint all_num (s : string) : bool :=
  match s with EmptyString => true | String c s' => is_num_char c && all_num s' end.
Definition ends_num (r : string) : Prop :=
  match r with EmptyString => True | String c _ => is_num_char c = false end.

Lemma num_run_unique s t r1 r2 : all_num s = true → all_num t = true → ends_num r1 → ends_num r2 →
  s +:+ r1 = t +:+ r2 → s = t ∧ r1 = r2.
Proof.
  revert t. induction s as [|c s IH]; intros [|d t] Hs Ht H1 H2; simpl in *.
  - done.
  - intros ->. simpl in H1. rewrite H1 in Ht. done.
  - intros <-. simpl in H2. rewrite H2 in Hs. done.
  - intros H. injection H as -> H. apply andb_true_iff in Hs as [_ Hs], Ht as [_ Ht].
    by destruct (IH t Hs Ht H1 H2 H) as [-> ->].
Qed.

Lemma uint_all_num d : all_num (NilEmpty.string_of_uint d) = true.
Proof. induction d; simpl; auto. Qed.

Lemma js_int_all_num z : all_num (js_int z) = true.
Proof.
  unfold js_int. destruct (Z.to_int z) as [d|d]; simpl; destruct d; simpl; auto using uint_all_num.
Qed.

Lemma js_int_inj a b : js_int a = js_int b → a = b.
Proof.
  unfold js_int. intros H. apply DecimalZ.to_int_inj.
  apply (f_equal NilZero.int_of_string) in H.
  assert (∀ z, Z.to_int z ≠ Decimal.Pos Decimal.Nil ∧ Z.to_int z ≠ Decimal.Neg Decimal.Nil) as Hn.
  { intros z. destruct z; simpl; split; intros Heq; try discriminate; injection Heq;
      apply DecimalPos.Unsigned.to_uint_nonnil. }
  destruct (Hn a), (Hn b). rewrite !NilZero.isi in H by done. by injection H.
Qed.

Lemma js_int_head z : ∃ c r, js_int z = String c r ∧ is_num_char c = true.
Proof.
  pose proof (js_int_all_num z) as Ha. destruct (js_int z) as [|c r] eqn:E.
  - exfalso. revert E. unfold js_int. destruct (Z.to_int z) as [d|d]; simpl; [by destruct d|done].
  - exists c, r. simpl in Ha. apply andb_true_iff in Ha as [? _]. done.
Qed.

(** Comma-separated lists are read back element by element. *)
Section join.
Context {A B : Type} (f : A → string) (g : A → B) (close : ascii).
Hypothesis Hhead : ∀ x, ∃ c r, f x = String c r ∧ c ≠ close.
Hypothesis Hclose : is_num_char close = false ∧ close ≠ ","%char.

Definition reads (x : A) : Prop := ∀ y r1 r2, ends_num r1 → ends_num r2 →
  f x +:+ r1 = f y +:+ r2 → g x = g y ∧ r1 = r2.

Lemma join_cons x l r :
  join_comma (f <$> (x :: l)) +:+ r =
    f x +:+ match l with [] => r | _ => String "," (join_comma (f <$> l) +:+ r) end.
Proof. destruct l as [|y l]; [done|]. cbn [fmap list_fmap join_comma]. by rewrite append_assoc. Qed.

Lemma join_unique l1 l2 r1 r2 : Forall reads l1 →
  join_comma (f <$> l1) +:+ String close r1 = join_comma (f <$> l2) +:+ String close r2 →
  g <$> l1 = g <$> l2 ∧ r1 = r2.
Proof.
  destruct Hclose as [Hcl Hcm]. intros Hl. revert l2.
  induction Hl as [|x l1 Hx Hl IH]; intros [|y l2].
  - simpl. intros H. by injection H.
  - rewrite join_cons. destruct (Hhead y) as (c & r & -> & Hc). simpl. intros H. by injection H.
  - rewrite join_cons. destruct (Hhead x) as (c & r & -> & Hc). simpl. intros H. by injection H.
  - rewrite !join_cons. intros H. apply Hx in H as [Hg H];
      [|by destruct l1|by destruct l2].
    destruct l1 as [|x' l1], l2 as [|y' l2].
    + injection H as ->. simpl. by rewrite Hg.
    + by injection H.
    + by injection H.
    + injection H as H. apply (IH (y' :: l2)) in H as [Hgl ->].
      rewrite !(fmap_cons g x), !(fmap_cons g y), Hg, Hgl. done.
Qed.
End join.

Definition vtag (v : json) : nat :=
  match v with
  | JUndefined | JNullV | JNotFinite => 0 | JBoolV true => 1 | JBoolV false => 2
  | JNumber _ => 3 | JText _ => 4 | JArray _ => 5 | JObject _ => 6
  end%nat.
Definition ctag (c : ascii) : nat :=
  if is_num_char c then 3%nat
  else if decide (c = "n"%char) then 0%nat else if decide (c = "t"%char) then 1%nat
  else if decide (c = "f"%char) then 2%nat else if decide (c = "["%char) then 5%nat
  else if decide (c = "{"%char) then 6%nat else 4%nat.

Lemma canonical_head v : ∃ c r, canonical v = String c r ∧ ctag c = vtag v ∧
  c ≠ "]"%char ∧ c ≠ "}"%char.
Proof.
  destruct v as [| |[]|z| |s|l|l]; try (eexists _, _; split_and!; [done|done|done|done]).
  cbn [canonical]. destruct (js_int_head z) as (c & r & -> & Hc). exists c, r.
  unfold ctag. rewrite Hc. split_and!; [done|done|by intros ->|by intros ->].
Qed.

Lemma canonical_unique v : ∀ w r1 r2, ends_num r1 → ends_num r2 →
  canonical v +:+ r1 = canonical w +:+ r2 → wire v = wire w ∧ r1 = r2.
Proof.
  induction v as [| |b|z| |s|l IH|l IH] using json_ind'; intros w r1 r2 H1 H2 H;
    (assert (vtag w = ctag (match canonical w +:+ r2 with String c _ => c | _ => "x"%char end)) as Ht;
      [destruct (canonical_head w) as (c' & r' & -> & <- & _); done|]);
    rewrite <-H in Ht.
  1-3,5: destruct w as [| |[]| | | | |]; try (by destruct b); try done;
         try (destruct b; done); try (injection H as H; done); destruct b; injection H as H; done.
  - assert (∃ z', w = JNumber z') as [z' ->].
    { cbn [canonical] in Ht. destruct (js_int_head z) as (c & r & Hz & Hc). rewrite Hz in Ht.
      cbn in Ht. unfold ctag in Ht. rewrite Hc in Ht. destruct w as [| |[]| | | | |]; naive_solver. }
    cbn [canonical] in H. apply num_run_unique in H as [Hz ->]; try done; try apply js_int_all_num.
    apply js_int_inj in Hz as ->. done.
  - destruct w as [| |[]| | |t| |]; try done. cbn [canonical] in H.
    apply js_quote_unique in H as [-> ->]. done.
  - destruct w as [| |[]| | | |l'|]; try done. cbn [canonical] in H.
    rewrite !append_cons, !append_assoc, !append_cons, !append_nil_l in H. injection H as H.
    apply (join_unique canonical wire "]") in H as [Hl ->].
    + cbn [wire]. by rewrite Hl.
    + intros x. destruct (canonical_head x) as (c & r & ? & _ & ? & _). eauto.
    + done.
    + exact IH.
  - destruct w as [| |[]| | | | |l']; try done.
    rewrite !canonical_object, !append_cons, !append_assoc, !append_cons, !append_nil_l in H.
    injection H as H. rewrite !wire_object.
    apply (join_unique (λ p, js_quote p.1 +:+ String ":" (canonical p.2)) (λ p, (p.1, wire p.2)) "}")
      in H as [Hl ->].
    + by rewrite Hl.
    + intros x. eexists _, _. done.
    + done.
    + apply (Forall_shown (λ v, ∀ w r1 r2, ends_num r1 → ends_num r2 →
        canonical v +:+ r1 = canonical w +:+ r2 → wire v = wire w ∧ r1 = r2)) in IH.
      eapply Forall_impl; [exact IH|]. intros [k x] Hx [k' y] q1 q2 Hq1 Hq2. cbn [fst snd] in *.
      rewrite !append_assoc, !append_cons. intros Hk%js_quote_unique. destruct Hk as [-> Hk].
      injection Hk as Hk. destruct (Hx y q1 q2 Hq1 Hq2 Hk) as [-> ->]. done.
Qed.

Lemma canonical_of_wire (v : json) : canonical (wire v) = canonical v.
Proof.
  induction v as [| |b|z| |s|l IH|l IH] using json_ind'; try done.
  - cbn [wire canonical]. rewrite <-list_fmap_compose. do 3 f_equal.
    apply Forall_fmap_ext. exact IH.
  - rewrite wire_object, !canonical_object, shown_wired, <-list_fmap_compose. do 3 f_equal.
    apply Forall_fmap_ext.
    apply (Forall_shown (λ v, canonical (wire v) = canonical v)) in IH. eapply Forall_impl; [exact IH|].
    intros [k x] Hx. simpl in *. by rewrite Hx.
Qed.

Lemma canonical_inj (v w : json) : canonical v = canonical w → wire v = wire w.
Proof. intros H. destruct (canonical_unique v w "" "") as [? _]; [done|done| |done]. by rewrite H. Qed.

(** * Properties *)

(** Canonical text and the wire agree (finding C-1 of the source): for
    every value, the canonical text of what a JSON round trip makes of it is
    the canonical text of the value itself, so signer and verifier sign and
    verify the same bytes. *)
Theorem canonical_wire (v : json) : canonical (wire v) = canonical v.
Proof. apply canonical_of_wire. Qed.

(** Canonical text is unambiguous: two values have one canonical text
    exactly when they are the same value on the wire, so a signature or a
    content address over the text commits to the whole value. *)
Theorem canonical_injective (v w : json) : canonical v = canonical w ↔ wire v = wire w.
Proof.
  split.
  - apply canonical_inj.
  - intros H. rewrite <-(canonical_of_wire v), <-(canonical_of_wire w). by rewrite H.
Qed.
