(* ===== verification/SignedRecords.v ===== *)
(** SignedRecords.v - the signed objects of the pub/sub plane whose signature covers a
    canonical JSON text: src/src/pubsub/envelope.js, kill.js, touch.js, unpub.js,
    authorClass.js, and the content addresses and lifetimes of signedExpiry.js.

    A record that came from the wire is a [json] value of [Canonical]; a text is
    its UTF-8 bytes, and the length of a hex field is the length of an ASCII text.
    SHA-256 and Ed25519 are parameters: [sha256] of a byte string, [ed_sign] of a
    private key, and [ed_verify] of the raw public key ([importPublicKey] and
    [verify] of ed25519.js, which may throw).  A verifier answers a verdict, or
    throws where the code does. *)
From Stdlib Require Import Ascii.
From stdpp Require Import base tactics sets list numbers strings.
From Stdlib Require Import ZArith Lia.
From S2P Require Import Prelude HexId Canonical.
#[local] Open Scope Z_scope.

(** * Values *)

Definition bytes := list Z.

(** [new TextEncoder().encode(s)] *)
Definition utf8 (s : string) : bytes := (λ c, Z.of_nat (nat_of_ascii c)) <$> String.list_ascii_of_string s.

(** [v.k] of a value that is neither null nor undefined, and [k in v]. *)
Fixpoint member (l : list (string * json)) (k : string) : option json :=
  match l with
  | [] => None
  | (k', v) :: l => if decide (k' = k) then Some v else member l k
  end.
Definition field (v : json) (k : string) : json :=
  match v with JObject l => default JUndefined (member l k) | _ => JUndefined end.
Definition has_key (v : json) (k : string) : bool :=
  match v with JObject l => match member l k with Some _ => true | None => false end | _ => false end.

(** [v && typeof v === 'object'] *)
Definition is_object (v : json) : bool := match v with JObject _ | JArray _ => true | _ => false end.
Definition is_number (v : json) : bool := match v with JNumber _ | JNotFinite => true | _ => false end.
Definition is_boolean (v : json) : bool := match v with JBoolV _ => true | _ => false end.
(** [v == null] *)
Definition nullish (v : json) : bool := match v with JNullV | JUndefined => true | _ => false end.
Definition as_text (v : json) : option string := match v with JText s => Some s | _ => None end.
Definition is_text (v : json) : bool := match v with JText _ => true | _ => false end.

(** [v === s] for a text [s]. *)
Definition text_is (v : json) (s : string) : bool := match v with JText t => bool_decide (t = s) | _ => false end.

(** [s.slice(n)] *)
Fixpoint slice_from (n : nat) (s : string) : string :=
  match n, s with
  | S n, String _ s => slice_from n s
  | _, _ => s
  end.

(** * Hex and bytes *)

(** [b.toString(16).padStart(2, '0')] over an array of bytes. *)
Definition byte_hex (b : Z) : string := padStart0 (toString16 b) 2.
Fixpoint bytesToHex (l : bytes) : string :=
  match l with [] => "" | b :: l => byte_hex b +:+ bytesToHex l end.

(** [parseInt] of two characters in base 16, stored in a [Uint8Array]: leading white
    space and a sign are read, a character that is no digit ends the number, and
    what is no number at all is stored as 0. *)
Definition is_space (c : ascii) : bool :=
  let n := nat_of_ascii c in ((9 <=? n) && (n <=? 13) || (n =? 32))%nat.
Definition parse_byte (a b : ascii) : Z :=
  match hex_val a with
  | Some x =>
      if bool_decide (a = "0"%char) && bool_decide (b = "x"%char ∨ b = "X"%char) then 0
      else match hex_val b with Some y => 16 * x + y | None => x end
  | None =>
      match hex_val b with
      | Some y => if bool_decide (a = "-"%char) then (- y) mod 256
                  else if is_space a || bool_decide (a = "+"%char) then y else 0
      | None => 0
      end
  end.
Fixpoint parse_bytes (s : string) : bytes :=
  match s with
  | String a (String b s) => parse_byte a b :: parse_bytes s
  | _ => []
  end.

Definition plainError : js_error := mk_error ErrorK None.

(** A text as JavaScript indexes it, in UTF-16 units: an ASCII character is a unit, a character of
    two or three bytes is one, a character of four bytes two (its surrogates). [parseInt] tells a
    unit that is not ASCII only from white space, so it is kept as a space where it is white space
    (U+00A0, U+1680, U+2000 to U+200A, U+2028, U+2029, U+202F, U+205F, U+3000, U+FEFF), and as a
    tilde, which is no digit, otherwise. *)
Definition next_byte (s : string) : nat := match s with String c _ => nat_of_ascii c | "" => 0%nat end.
Definition wide_space (n : nat) (s : string) : bool :=
  let m := next_byte s in
  let l := match s with String _ s' => next_byte s' | "" => 0%nat end in
  ((n =? 194) && (m =? 160) || (n =? 225) && (m =? 154) && (l =? 128)
   || (n =? 226) && (m =? 128) && ((128 <=? l) && (l <=? 138) || (l =? 168) || (l =? 169) || (l =? 175))
   || (n =? 226) && (m =? 129) && (l =? 159) || (n =? 227) && (m =? 128) && (l =? 128)
   || (n =? 239) && (m =? 187) && (l =? 191))%nat.
Fixpoint utf16 (s : string) : string :=
  match s with
  | "" => ""
  | String c s' =>
      let n := nat_of_ascii c in
      if (n <? 128)%nat then String c (utf16 s')
      else if (n <? 192)%nat then utf16 s'
      else if (n <? 240)%nat then String (if wide_space n s' then " " else "~")%char (utf16 s')
      else String "~" (String "~" (utf16 s'))
  end.
(** [hex.length] *)
Definition units (hex : string) : nat := String.length (utf16 hex).

(** [hexToBytes] of envelope.js, kill.js, touch.js, unpub.js and authorClass.js. *)
Definition hexToBytes (hex : string) : js_result bytes :=
  if Nat.odd (units hex) then Throw plainError else Ok (parse_bytes (utf16 hex)).

Definition ED25519 : string := "ed25519:".
Definition sig_scheme (v : json) : bool :=
  match v with JText s => String.prefix ED25519 s | _ => false end.
Definition sig_hex (v : json) : string :=
  match v with JText s => slice_from (String.length ED25519) s | _ => "" end.

(** [if (c) return bad;] *)
Notation "'refuse' c 'with' r ';;' k" := (if c then Ok r else k)
  (at level 10, c at level 99, r at level 99, k at level 200).

(** * Signed texts *)

Definition ENVELOPE_DOMAIN : string := "axona:pubsub-envelope:v2".
Definition KILL_DOMAIN : string := "axona:pubsub-kill:v1".
Definition TOUCH_DOMAIN : string := "axona:pubsub-touch:v1".
Definition UNPUB_DOMAIN : string := "axona:pubsub-unpub:v1".
Definition AUTHOR_CLASS_KIND : string := "axona:author-class:v1".
Definition AUTHOR_CLASS_OPERATOR_DOMAIN : string := "axona:author-class-operator:v1".
Definition MSGID_DOMAIN_V2 : string := "axona:pubsub-msgid:v2".

(** What each signature covers, as the value whose canonical text is signed. *)
Definition envelope_core (seq ts topic message : json) : json :=
  JObject [("d", JText ENVELOPE_DOMAIN); ("seq", seq); ("ts", ts); ("topic", topic); ("message", message)].
Definition point_core (domain : string) (topicId msgId ts seq : json) : json :=
  JObject [("d", JText domain); ("topicId", topicId); ("msgId", msgId); ("ts", ts); ("seq", seq)].
Definition unpub_core (topicId topicName ownerNodeId destroy ts seq : json) : json :=
  JObject [("d", JText UNPUB_DOMAIN); ("topicId", topicId); ("topicName", topicName);
           ("ownerNodeId", ownerNodeId); ("destroy", destroy); ("ts", ts); ("seq", seq)].
Definition opt_member (k : string) (v : json) : list (string * json) := if nullish v then [] else [(k, v)].
(** [signedBytes(obj)] of authorClass.js *)
Definition class_core (cls ts author operator label : json) : json :=
  JObject ([("kind", JText AUTHOR_CLASS_KIND); ("class", cls); ("ts", ts); ("author", author)] ++
           opt_member "operator" operator ++ opt_member "label" label).
(** [operatorSignedBytes] *)
Definition operator_core (author operator : string) : json :=
  JObject [("d", JText AUTHOR_CLASS_OPERATOR_DOMAIN); ("author", JText author); ("operator", JText operator)].

(** ** Content addresses *)
Definition msgid_core (publisher message : json) : json := JObject [("publisher", publisher); ("message", message)].
Definition msgid_v2_core (publisher message topicId exp : json) : json :=
  JObject [("d", JText MSGID_DOMAIN_V2); ("exp", exp); ("message", message); ("publisher", publisher);
           ("topicId", topicId)].
Definition msgIdV2Preimage (publisher message topicId exp : json) : string :=
  canonical (msgid_v2_core publisher message topicId exp).

(** * Lifetimes (signedExpiry.js)

    A number argument is a [jsv]; sums of two safe integers are exact. *)
Definition TTL_CEILING : Z := 24 * 60 * 60 * 1000.
Definition CLOCK_SKEW : Z := 5000.
Definition PUBLISHER_WIDTH : Z := 64.
Definition TOPICID_WIDTH : Z := 66.
Definition expiryError (code : string) : js_error := mk_error ErrorK (Some code).

Definition isSafe (z : Z) : bool := (- (2 ^ 53 - 1) <=? z) && (z <=? 2 ^ 53 - 1).
(** [Number.isSafeInteger(v)], with the integer. *)
Definition safe_int (v : jsv) : option Z := match v with JInt z => if isSafe z then Some z else None | _ => None end.

Definition assertSafeExp (exp : jsv) : js_result Z :=
  match safe_int exp with
  | None => Throw (expiryError "BAD_EXP")
  | Some e => if isSafe (e + CLOCK_SKEW) then Ok e else Throw (expiryError "BAD_EXP")
  end.

Definition isHexOfWidth (s : json) (width : Z) : bool :=
  match s with JText s => (strlen s =? width) && negb (strlen s =? 0) && all_lower_hex s | _ => false end.
Definition is_null (v : json) : bool := match v with JNullV => true | _ => false end.

Definition assertV2Widths (publisher topicId : json) (pubWidth topicWidth : jsv) : js_result unit :=
  match pubWidth, topicWidth with
  | JInt pw, JInt tw =>
      if (pw <=? 0) || (tw <=? 0) then Throw (expiryError "BAD_PROFILE_WIDTH")
      else if negb (is_null publisher) && negb (isHexOfWidth publisher pw)
      then Throw (expiryError "BAD_PUBLISHER_WIDTH")
      else if negb (isHexOfWidth topicId tw) then Throw (expiryError "BAD_TOPICID_WIDTH")
      else Ok tt
  | _, _ => Throw (expiryError "BAD_PROFILE_WIDTH")
  end.

Definition clampExp (ts : jsv) : js_result Z :=
  match safe_int ts with
  | None => Throw (expiryError "BAD_EXP")
  | Some ts => if isSafe (ts + TTL_CEILING + CLOCK_SKEW) then Ok (ts + TTL_CEILING) else Throw (expiryError "BAD_EXP")
  end.

Definition validateExp (ts exp : jsv) : js_result Z :=
  match safe_int ts, safe_int exp with
  | Some ts, Some exp =>
      if negb (ts <? exp) then Throw (expiryError "EXP_NOT_AFTER_TS")
      else if ts + TTL_CEILING <? exp then Throw (expiryError "EXP_OVER_CEILING")
      else if isSafe (exp + CLOCK_SKEW) then Ok exp else Throw (expiryError "BAD_EXP")
  | _, _ => Throw (expiryError "BAD_EXP")
  end.

Definition effectiveDeath (exp : jsv) : js_result Z :=
  match assertSafeExp exp with Ok e => Ok (e + CLOCK_SKEW) | Throw e => Throw e end.
Definition isBodyFresh (now : Z) (exp : jsv) : js_result bool :=
  match effectiveDeath exp with Ok d => Ok (now <=? d) | Throw e => Throw e end.

(** [checkFreshness] of envelope.js.  A number that is not finite is an infinity: JSON has
    no NaN. *)
Definition MAX_PUBLISH_SKEW_MS : Z := 300000.
Inductive freshness := Fresh | Stale | MissingTs.
Definition checkFreshness (envelope : json) (now maxSkewMs : Z) : freshness :=
  if nullish envelope then MissingTs
  else match field envelope "ts" with
  | JNumber ts => if maxSkewMs <? Z.abs (ts - now) then Stale else Fresh
  | JNotFinite => Stale
  | _ => MissingTs
  end.

(** * Verdicts *)

(** [verifyEnvelope]: [{ok: true, signed}] or [{ok: false, reason, signed}]. *)
Inductive everdict := EOk (signed : bool) | EBad (reason : string) (signed : bool).
(** [verifyKill] and its siblings: [{ok: true, signerPubkey}] or [{ok: false, reason}]. *)
Inductive kverdict := KOk (signerPubkey : string) | KBad (reason : string).
Record class_info := mk_class {
  ci_class : json; ci_operator : json; ci_operatorVerified : bool; ci_label : json; ci_ts : json; ci_author : string
}.
Inductive cverdict := COk (i : class_info) | CBad (reason : string).

(** An identity, as far as a builder reads it; [K] is the type of private keys. *)
Record identity (K : Type) := mk_identity { id_privateKey : option K; id_pubkeyHex : option string; id_authorId : option string }.
#[global] Arguments mk_identity {K} _ _ _.
#[global] Arguments id_privateKey {K} _.
#[global] Arguments id_pubkeyHex {K} _.
#[global] Arguments id_authorId {K} _.

Definition sig_text (sig : bytes) : string := ED25519 +:+ bytesToHex sig.

Section crypto.
Context {K : Type} (sha256 : bytes → bytes) (ed_verify : bytes → bytes → bytes → js_result bool)
  (ed_sign : K → bytes → bytes).

Definition sha256Hex (s : string) : string := bytesToHex (sha256 (utf8 s)).
Definition computeMsgId (publisher message : json) : string := sha256Hex (canonical (msgid_core publisher message)).
Definition computeMsgIdV2 (publisher message topicId : json) (exp pubWidth topicWidth : jsv) : js_result string :=
  match assertSafeExp exp with
  | Throw e => Throw e
  | Ok x => match assertV2Widths publisher topicId pubWidth topicWidth with
            | Throw e => Throw e
            | Ok _ => Ok (sha256Hex (msgIdV2Preimage publisher message topicId (JNumber x)))
            end
  end.

(** ** The envelope *)

(** The signature check of [verifyEnvelope], from the decoding of the two hex fields. *)
Definition check_sig {V} (ok : js_result V) (bad : string → V) (sigHex pkHex : string) (core : json) : js_result V :=
  sigBytes ← hexToBytes sigHex;
  pkBytes ← hexToBytes pkHex;
  refuse negb (Nat.eqb (length sigBytes) 64) || negb (Nat.eqb (length pkBytes) 32)
    with bad "wrong_key_or_signature_length";;
  sigOk ← ed_verify pkBytes (utf8 (canonical core)) sigBytes;
  refuse negb sigOk with bad "bad_signature";;
  ok.

(** The recomputation of the content address. *)
Definition check_msgid (e : json) (signed : bool) : js_result everdict :=
  let expected := computeMsgId (if signed then field e "signerPubkey" else JNullV) (field e "message") in
  refuse negb (text_is (field e "msgId") expected) with EBad "bad_msgid" signed;;
  Ok (EOk signed).

Definition verifyEnvelope (ks : keyspace) (e : json) : js_result everdict :=
  refuse negb (is_object e) with EBad "not_an_object" false;;
  refuse negb (is_text (field e "msgId")) with EBad "missing_msgId" false;;
  refuse negb (is_number (field e "ts")) with EBad "missing_ts" false;;
  refuse negb (is_object (field e "topic")) || negb (is_text (field (field e "topic") "name"))
    with EBad "missing_topic" false;;
  refuse negb (has_key e "message") with EBad "missing_message" false;;
  refuse negb (is_number (field e "seq")) with EBad "missing_seq" false;;
  let signed := is_text (field e "signature") in
  if signed then
    refuse negb (is_text (field e "signerPubkey")) with EBad "missing_signerPubkey" true;;
    refuse negb (sig_scheme (field e "signature")) with EBad "unknown_signature_scheme" true;;
    if AUTH_VERIFY_RELAXED ks then check_msgid e true
    else check_sig (check_msgid e true) (λ r, EBad r true)
           (sig_hex (field e "signature")) (default "" (as_text (field e "signerPubkey")))
           (envelope_core (field e "seq") (field e "ts") (field e "topic") (field e "message"))
  else check_msgid e false.

(** [buildEnvelope]: [pow] is what [powMint] answered for the signer. *)
Definition buildEnvelope (topic message ts seq : json) (id : option (identity K)) (doSign : bool) (pow : string → json)
    : js_result json :=
  let envelope msgId := [("msgId", JText msgId); ("seq", seq); ("ts", ts); ("topic", topic); ("message", message)] in
  if doSign then
    match id ≫= λ i, k ← id_privateKey i; p ← id_pubkeyHex i; Some (k, p, i) with
    | None => Throw typeError
    | Some (k, pubkeyHex, i) =>
        let sig := ed_sign k (utf8 (canonical (envelope_core seq ts topic message))) in
        let signer := default pubkeyHex (id_authorId i) in
        Ok (JObject (envelope (computeMsgId (JText signer) message) ++
              [("signature", JText (sig_text sig)); ("signerPubkey", JText signer); ("signerPow", pow signer)]))
    end
  else Ok (JObject (envelope (computeMsgId JNullV message))).

(** ** Kill, touch, unpub *)

(** The end of the three verifiers, from the type of [signerPubkey] on. *)
Definition verify_tail (o core : json) : js_result kverdict :=
  match field o "signerPubkey" with
  | JText pk =>
      refuse negb (sig_scheme (field o "signature")) with KBad "unknown_signature_scheme";;
      check_sig (Ok (KOk pk)) KBad (sig_hex (field o "signature")) pk core
  | _ => Ok (KBad "missing_signerPubkey")
  end.

(** [verifyKill] and [verifyTouch] differ in the domain only. *)
Definition verify_point (domain : string) (o : json) : js_result kverdict :=
  refuse negb (is_object o) with KBad "not_an_object";;
  refuse negb (is_text (field o "topicId")) with KBad "missing_topicId";;
  refuse negb (is_text (field o "msgId")) with KBad "missing_msgId";;
  refuse negb (is_number (field o "ts")) with KBad "missing_ts";;
  refuse negb (is_number (field o "seq")) with KBad "missing_seq";;
  verify_tail o (point_core domain (field o "topicId") (field o "msgId") (field o "ts") (field o "seq")).
Definition verifyKill : json → js_result kverdict := verify_point KILL_DOMAIN.
Definition verifyTouch : json → js_result kverdict := verify_point TOUCH_DOMAIN.

Definition verifyUnpub (o : json) : js_result kverdict :=
  refuse negb (is_object o) with KBad "not_an_object";;
  refuse negb (is_text (field o "topicId")) with KBad "missing_topicId";;
  refuse negb (is_text (field o "topicName")) with KBad "missing_topicName";;
  refuse negb (is_text (field o "ownerNodeId")) with KBad "missing_ownerNodeId";;
  refuse negb (is_boolean (field o "destroy")) with KBad "missing_destroy";;
  refuse negb (is_number (field o "ts")) with KBad "missing_ts";;
  refuse negb (is_number (field o "seq")) with KBad "missing_seq";;
  verify_tail o (unpub_core (field o "topicId") (field o "topicName") (field o "ownerNodeId") (field o "destroy")
                   (field o "ts") (field o "seq")).

(** The key pair a builder of these three signs with. *)
Definition signing_pair (id : option (identity K)) : option (K * string) :=
  id ≫= λ i, k ← id_privateKey i; p ← id_pubkeyHex i; Some (k, p).

Definition build_point (domain : string) (topicId msgId ts seq : json) (id : option (identity K)) : js_result json :=
  match signing_pair id with
  | None => Throw typeError
  | Some (k, pk) =>
      if negb (is_text topicId) || negb (is_text msgId) then Throw typeError
      else
        let sig := ed_sign k (utf8 (canonical (point_core domain topicId msgId ts seq))) in
        Ok (JObject [("kind", JText domain); ("topicId", topicId); ("msgId", msgId); ("ts", ts); ("seq", seq);
                     ("signerPubkey", JText pk); ("signature", JText (sig_text sig))])
  end.
Definition buildKill : json → json → json → json → option (identity K) → js_result json := build_point KILL_DOMAIN.
Definition buildTouch : json → json → json → json → option (identity K) → js_result json := build_point TOUCH_DOMAIN.

Definition buildUnpub (topicId topicName ownerNodeId destroy ts seq : json) (id : option (identity K)) : js_result json :=
  match signing_pair id with
  | None => Throw typeError
  | Some (k, pk) =>
      if negb (is_text topicId) || negb (is_text topicName) || negb (is_text ownerNodeId) then Throw typeError
      else
        let flag := JBoolV (match destroy with JBoolV b => b | _ => false end) in
        let sig := ed_sign k (utf8 (canonical (unpub_core topicId topicName ownerNodeId flag ts seq))) in
        Ok (JObject [("kind", JText UNPUB_DOMAIN); ("topicId", topicId); ("topicName", topicName);
                     ("ownerNodeId", ownerNodeId); ("destroy", flag); ("ts", ts); ("seq", seq);
                     ("signerPubkey", JText pk); ("signature", JText (sig_text sig))])
  end.

(** ** Author class *)

Definition CLASSES : list string := ["agent"; "human"; "service"; "instrument"; "bridge"; "relay"].

Definition class_sig_core (o : json) : json :=
  class_core (field o "class") (field o "ts") (field o "author") (field o "operator") (field o "label").

(** Both signature checks decode inside a [try], which names the failure. *)
Definition check_try (hexBad lenBad verifyBad sigBad : string) (sigHex pkHex : string) (core : json)
    : option string :=
  match hexToBytes sigHex, hexToBytes pkHex with
  | Ok sigBytes, Ok pkBytes =>
      if negb (Nat.eqb (length sigBytes) 64) || negb (Nat.eqb (length pkBytes) 32) then Some lenBad
      else match ed_verify pkBytes (utf8 (canonical core)) sigBytes with
           | Throw _ => Some verifyBad
           | Ok false => Some sigBad
           | Ok true => None
           end
  | _, _ => Some hexBad
  end.

Definition check_operator (o : json) (author : string) : option string :=
  match field o "operator" with
  | JText op =>
      if negb (strlen op =? 64) then Some "operator_not_pubkey"
      else check_try "bad_operator_hex" "bad_operator_proof" "operator_verify_error" "bad_operator_proof"
             (sig_hex (field o "operatorProof")) op (operator_core (lc author) (lc op))
  | _ => Some "operator_not_pubkey"
  end.

Definition verifyAuthorClass (o : json) (expectedAuthor : option string) : cverdict :=
  let bad r := CBad r in
  if negb (is_object o) then bad "not_object"
  else if negb (text_is (field o "kind") AUTHOR_CLASS_KIND) then bad "wrong_kind"
  else match as_text (field o "class") with
  | None => bad "bad_class"
  | Some cls =>
      if negb (bool_decide (cls ∈ CLASSES)) then bad "bad_class"
      else match as_text (field o "author") with
      | None => bad "bad_author"
      | Some author =>
          if negb (strlen author =? 64) then bad "bad_author"
          else if negb (sig_scheme (field o "signature")) then bad "unsigned"
          else if match expectedAuthor with
                  | Some x => negb (bool_decide (x = "")) && negb (bool_decide (lc author = lc x))
                  | None => false
                  end then bad "author_mismatch"
          else match check_try "bad_hex" "bad_sig_or_key_length" "verify_error" "bad_signature"
                       (sig_hex (field o "signature")) author (class_sig_core o) with
          | Some r => bad r
          | None =>
              let orNull v := if nullish v then JNullV else v in
              let ok verified := COk (mk_class (field o "class") (orNull (field o "operator")) verified
                                        (orNull (field o "label")) (orNull (field o "ts")) (lc author)) in
              if nullish (field o "operatorProof") then ok false
              else if negb (sig_scheme (field o "operatorProof")) then bad "bad_operator_proof"
              else match check_operator o author with Some r => bad r | None => ok true end
          end
      end
  end.

Definition rangeErr : js_error := mk_error RangeErrorK None.

Definition buildAuthorClass (cls : string) (operator label ts : json) (signWith operatorSignWith : option (identity K))
    : js_result json :=
  if negb (bool_decide (cls ∈ CLASSES)) then Throw rangeErr
  else match signing_pair signWith with
  | None => Throw typeError
  | Some (k, pk) =>
      let author := lc pk in
      let signed op :=
        let core := class_core (JText cls) ts (JText author) op label in
        [("kind", JText AUTHOR_CLASS_KIND); ("class", JText cls); ("ts", ts); ("author", JText author)] ++
        opt_member "operator" op ++ opt_member "label" label ++
        [("signature", JText (sig_text (ed_sign k (utf8 (canonical core)))))] in
      match operatorSignWith with
      | None => Ok (JObject (signed operator))
      | Some _ =>
          match signing_pair operatorSignWith with
          | None => Throw typeError
          | Some (ok, opk) =>
              Ok (JObject (signed (JText (lc opk)) ++
                [("operatorProof", JText (sig_text (ed_sign ok (utf8 (canonical (operator_core author (lc opk)))))))]))
          end
      end
  end.
End crypto.

(** [authorClassTopic]: the profile topic of an author. *)
Definition AUTHOR_CLASS_NAME : string := "axona:author-class".
Definition AUTHOR_CLASS_REGION : string := "useast".
Definition authorClassTopic (authorId : json) : js_result json :=
  match authorId with
  | JText a =>
      if strlen a =? 64
      then Ok (JObject [("region", JText AUTHOR_CLASS_REGION); ("owner", JText (lc a)); ("name", JText AUTHOR_CLASS_NAME)])
      else Throw rangeError
  | _ => Throw rangeError
  end.

(** * Lemmas: members, wire and canonical text *)

(** What the wire makes of a member: nothing, where it has no JSON form. *)
Definition wired (l : list (string * json)) (k : string) : option json :=
  v ← member l k; if has_json_form v then Some (wire v) else None.

Lemma member_elem l k v : NoDup l.*1 → member l k = Some v ↔ (k, v) ∈ l.
Proof.
  induction l as [|[k' v'] l IH]; [set_solver|]. cbn [member fmap list_fmap fst]. intros [Hk Hn]%NoDup_cons.
  rewrite elem_of_cons. destruct (decide (k' = k)) as [->|Hne].
  - split; [intros [= ->]; by left|intros [[= ->]|Hin]; [done|]].
    destruct Hk. apply list_elem_of_fmap. by exists (k, v).
  - rewrite IH by done. split; [auto|]. intros [[= ? ?]|?]; [congruence|done].
Qed.

Lemma elem_fst_exists {A B} (l : list (A * B)) k : k ∈ l.*1 → ∃ w, (k, w) ∈ l.
Proof. intros ([k' w] & -> & Hin)%list_elem_of_fmap. by exists w. Qed.

Lemma member_None l k : member l k = None ↔ k ∉ l.*1.
Proof.
  induction l as [|[k' v'] l IH]; [set_solver|]. cbn [member fmap list_fmap fst]. rewrite not_elem_of_cons.
  destruct (decide (k' = k)); [naive_solver|]. rewrite IH. naive_solver.
Qed.

Lemma NoDup_shown l : NoDup l.*1 → NoDup (shown l).*1.
Proof.
  intros Hn. rewrite <-(fmap_Permutation fst _ _ (sort_keys_perm l)) in Hn.
  eapply sublist_NoDup; [exact Hn|]. apply fmap_sublist, sublist_filter.
Qed.

Lemma member_wire l k : NoDup l.*1 → member ((λ p, (p.1, wire p.2)) <$> shown l) k = wired l k.
Proof.
  intros Hn. pose proof (NoDup_shown l Hn) as Hs.
  assert (∀ v, (k, v) ∈ shown l ↔ member l k = Some v ∧ has_json_form v = true) as Hsh.
  { intros v. unfold shown. rewrite list_elem_of_filter, sort_keys_perm, <-member_elem by done. cbn [snd]. tauto. }
  assert (NoDup ((λ p, (p.1, wire p.2)) <$> shown l).*1) as Hs' by (by rewrite <-list_fmap_compose).
  assert (∀ w, (k, w) ∈ ((λ p, (p.1, wire p.2)) <$> shown l) ↔ ∃ v, (k, v) ∈ shown l ∧ w = wire v) as Hw.
  { intros w. rewrite list_elem_of_fmap. split.
    - intros ([k' v] & [= -> ->] & Hin). by exists v.
    - intros (v & Hin & ->). by exists (k, v). }
  unfold wired. destruct (member l k) as [v|] eqn:E; simpl.
  - destruct (has_json_form v) eqn:F.
    + apply member_elem; [done|]. apply Hw. exists v. rewrite Hsh. done.
    + apply member_None. intros (w & (v' & [Hv ?]%Hsh & _)%Hw)%elem_fst_exists. congruence.
  - apply member_None. intros (w & (v' & [Hv ?]%Hsh & _)%Hw)%elem_fst_exists. congruence.
Qed.

Lemma field_wire l k : NoDup l.*1 → field (wire (JObject l)) k = default JUndefined (wired l k).
Proof. intros Hn. rewrite wire_object. cbn [field]. by rewrite member_wire. Qed.

(** Two objects with one signed text agree member by member. *)
Lemma canonical_wired l l' k : NoDup l.*1 → NoDup l'.*1 →
  canonical (JObject l) = canonical (JObject l') → wired l k = wired l' k.
Proof.
  intros Hn Hn' H%canonical_inj. rewrite !wire_object in H. injection H as H.
  by rewrite <-!member_wire, H by done.
Qed.

(** ** The signed texts, together *)

(** Everything the plane signs or addresses as canonical JSON. *)
Inductive signable :=
| SEnvelope (seq ts topic message : json)
| SKill (topicId msgId ts seq : json)
| STouch (topicId msgId ts seq : json)
| SUnpub (topicId topicName ownerNodeId destroy ts seq : json)
| SClass (cls ts author operator label : json)
| SOperator (author operator : string)
| SMsgId (publisher message : json)
| SMsgIdV2 (publisher message topicId exp : json).

Definition core_of (s : signable) : list (string * json) :=
  match match s with
  | SEnvelope seq ts topic message => envelope_core seq ts topic message
  | SKill t m ts seq => point_core KILL_DOMAIN t m ts seq
  | STouch t m ts seq => point_core TOUCH_DOMAIN t m ts seq
  | SUnpub t n o d ts seq => unpub_core t n o d ts seq
  | SClass c ts a op l => class_core c ts a op l
  | SOperator a op => operator_core a op
  | SMsgId p m => msgid_core p m
  | SMsgIdV2 p m t e => msgid_v2_core p m t e
  end with JObject l => l | _ => [] end.
Definition signed_text (s : signable) : string := canonical (JObject (core_of s)).

(** A field as the wire carries it, and a field the builder leaves out when it is null. *)
Definition seen (v : json) : option json := if has_json_form v then Some (wire v) else None.
Definition seen_opt (v : json) : option json := if nullish v then None else Some (wire v).

(** The record as any reader of its signed text sees it. *)
Inductive view :=
| VEnvelope (fields : list (option json))
| VKill (fields : list (option json))
| VTouch (fields : list (option json))
| VUnpub (fields : list (option json))
| VClass (fields : list (option json))
| VOperator (author operator : string)
| VMsgId (fields : list (option json))
| VMsgIdV2 (fields : list (option json)).
Definition view_of (s : signable) : view :=
  match s with
  | SEnvelope seq ts topic message => VEnvelope [seen seq; seen ts; seen topic; seen message]
  | SKill t m ts seq => VKill [seen t; seen m; seen ts; seen seq]
  | STouch t m ts seq => VTouch [seen t; seen m; seen ts; seen seq]
  | SUnpub t n o d ts seq => VUnpub [seen t; seen n; seen o; seen d; seen ts; seen seq]
  | SClass c ts a op l => VClass [seen c; seen ts; seen a; seen_opt op; seen_opt l]
  | SOperator a op => VOperator a op
  | SMsgId p m => VMsgId [seen p; seen m]
  | SMsgIdV2 p m t e => VMsgIdV2 [seen p; seen m; seen t; seen e]
  end.

(** The kind of a record from two members of its text. *)
Definition tag_of (d kind : option json) : nat :=
  match d, kind with
  | Some (JText d), _ =>
      if decide (d = ENVELOPE_DOMAIN) then 0
      else if decide (d = KILL_DOMAIN) then 1
      else if decide (d = TOUCH_DOMAIN) then 2
      else if decide (d = UNPUB_DOMAIN) then 3
      else if decide (d = AUTHOR_CLASS_OPERATOR_DOMAIN) then 5
      else 7
  | _, Some _ => 4
  | _, _ => 6
  end%nat.
Definition kind_of (s : signable) : nat :=
  match s with
  | SEnvelope _ _ _ _ => 0 | SKill _ _ _ _ => 1 | STouch _ _ _ _ => 2 | SUnpub _ _ _ _ _ _ => 3
  | SClass _ _ _ _ _ => 4 | SOperator _ _ => 5 | SMsgId _ _ => 6 | SMsgIdV2 _ _ _ _ => 7
  end%nat.

Lemma core_NoDup s : NoDup (core_of s).*1.
Proof.
  destruct s; try (apply (bool_decide_unpack _); vm_compute; exact I).
  cbn [core_of class_core]. unfold opt_member. destruct (nullish operator), (nullish label);
    apply (bool_decide_unpack _); vm_compute; exact I.
Qed.

Lemma wired_opt l k v : wired (opt_member k v ++ l) k = match seen_opt v with Some w => Some w | None => wired l k end.
Proof.
  unfold opt_member, seen_opt, wired. destruct (nullish v) eqn:E; [done|]. cbn [app member].
  rewrite decide_True by done. simpl. by destruct v.
Qed.

Lemma wired_opt_ne l k k' v : k ≠ k' → wired (opt_member k v ++ l) k' = wired l k'.
Proof.
  intros Hne. unfold opt_member, wired. destruct (nullish v); [done|]. cbn [app member]. by rewrite decide_False.
Qed.

Lemma wired_cons k v l : wired ((k, v) :: l) k = seen v.
Proof. unfold wired. cbn [member]. by rewrite decide_True. Qed.
Lemma wired_ne k k' v l : k ≠ k' → wired ((k, v) :: l) k' = wired l k'.
Proof. intros Hne. unfold wired. cbn [member]. by rewrite decide_False. Qed.

Lemma wired_last k v : wired (opt_member k v) k = seen_opt v.
Proof. rewrite <-(app_nil_r (opt_member k v)), wired_opt. by destruct (seen_opt v). Qed.
Lemma wired_last_ne k k' v : k ≠ k' → wired (opt_member k v) k' = None.
Proof. intros. by rewrite <-(app_nil_r (opt_member k v)), wired_opt_ne. Qed.

(** Read a member of a concrete core. *)
Ltac read_member := repeat first
  [ rewrite wired_cons | rewrite wired_last | rewrite wired_last_ne by done | rewrite wired_opt
  | rewrite wired_opt_ne by done | rewrite wired_ne by done ].
Ltac read_at Hw k := let H := fresh in pose proof (Hw k) as H; revert H; read_member.

Lemma tag_core s : tag_of (wired (core_of s) "d") (wired (core_of s) "kind") = kind_of s.
Proof.
  destruct s; cbn [core_of envelope_core point_core unpub_core class_core operator_core msgid_core msgid_v2_core app];
    read_member; reflexivity.
Qed.

Definition same_member (p q : string * json) : Prop := p.1 = q.1 ∧ seen p.2 = seen q.2.

Lemma seen_eq v w : seen v = seen w → has_json_form v = has_json_form w ∧ wire v = wire w.
Proof. unfold seen. destruct v, w; simpl; intros H; split; congruence. Qed.

Lemma canonical_same l l' : Forall2 same_member l l' → canonical (JObject l) = canonical (JObject l').
Proof.
  intros H. rewrite <-(canonical_of_wire (JObject l)), <-(canonical_of_wire (JObject l')). f_equal. cbn [wire].
  assert ((λ p : string * json, (p.1, (has_json_form p.2, wire p.2))) <$> l =
          (λ p : string * json, (p.1, (has_json_form p.2, wire p.2))) <$> l') as ->; [|done].
  induction H as [|p q l l' [Hk Hs%seen_eq] _ IH]; [done|]. destruct Hs as [Hf Hw].
  cbn [fmap list_fmap]. rewrite Hk, Hf, Hw. by f_equal.
Qed.

Lemma same_opt k v w : seen_opt v = seen_opt w → Forall2 same_member (opt_member k v) (opt_member k w).
Proof.
  unfold seen_opt, opt_member. destruct (nullish v) eqn:E, (nullish w) eqn:F; try done.
  intros H. constructor; [|constructor]. split; [done|]. unfold seen. cbn [snd]. by destruct v, w.
Qed.

Lemma signed_text_view s s' : signed_text s = signed_text s' ↔ view_of s = view_of s'.
Proof.
  split.
  - intros H. assert (∀ k, wired (core_of s) k = wired (core_of s') k) as Hw
      by (intros k; apply canonical_wired; auto using core_NoDup).
    assert (kind_of s = kind_of s') as Hk by (rewrite <-(tag_core s), <-(tag_core s'), !Hw; done). clear H.
    destruct s, s'; try discriminate Hk; clear Hk; cbn [view_of];
      cbn [core_of envelope_core point_core unpub_core class_core operator_core msgid_core msgid_v2_core app] in Hw.
    + read_at Hw "seq"; read_at Hw "ts"; read_at Hw "topic"; read_at Hw "message". congruence.
    + read_at Hw "topicId"; read_at Hw "msgId"; read_at Hw "ts"; read_at Hw "seq". congruence.
    + read_at Hw "topicId"; read_at Hw "msgId"; read_at Hw "ts"; read_at Hw "seq". congruence.
    + read_at Hw "topicId"; read_at Hw "topicName"; read_at Hw "ownerNodeId"; read_at Hw "destroy"; read_at Hw "ts";
        read_at Hw "seq". congruence.
    + read_at Hw "class"; read_at Hw "ts"; read_at Hw "author"; read_at Hw "label"; read_at Hw "operator".
      destruct (seen_opt operator), (seen_opt operator0); congruence.
    + read_at Hw "author"; read_at Hw "operator". unfold seen. simpl. congruence.
    + read_at Hw "publisher"; read_at Hw "message". congruence.
    + read_at Hw "publisher"; read_at Hw "message"; read_at Hw "topicId"; read_at Hw "exp". congruence.
  - intros H. unfold signed_text. apply canonical_same.
    destruct s, s'; try discriminate H; injection H; intros; subst; clear H;
      cbn [core_of envelope_core point_core unpub_core class_core operator_core msgid_core msgid_v2_core app];
      repeat (apply Forall2_cons_2; [by split|]); try apply Forall2_nil_2.
    apply Forall2_app; by apply same_opt.
Qed.

(** The signed objects of the plane cannot be mistaken for one another: two of them
    (envelope, kill, touch, unpub, author class, operator countersignature, and the two
    content addresses) have one signed text exactly when they are of the same kind and
    agree on every field as the wire carries it, so a signature made for one is never
    one for another kind, topic, message, time or sequence number. *)
Theorem signed_texts_separate s s' : signed_text s = signed_text s' ↔ view_of s = view_of s'.
Proof. apply signed_text_view. Qed.

(** * The verifiers *)

Set Default Proof Using "Type".

Section verifiers.
Context {K : Type} (sha256 : bytes → bytes) (ed_verify : bytes → bytes → bytes → js_result bool)
  (ed_sign : K → bytes → bytes).

(** The signature a verifier accepts: both fields decode, to the right lengths, and Ed25519 agrees. *)
Definition sig_ok (sigHex pkHex : string) (core : json) : Prop := ∃ sb pb,
  hexToBytes sigHex = Ok sb ∧ hexToBytes pkHex = Ok pb ∧ length sb = 64%nat ∧ length pb = 32%nat ∧
  ed_verify pb (utf8 (canonical core)) sb = Ok true.
(** How a signature check may throw instead of answering. *)
Definition sig_throws (sigHex pkHex : string) (core : json) (x : js_error) : Prop :=
  (Nat.odd (units sigHex) = true ∨ Nat.odd (units pkHex) = true) ∧ x = plainError ∨
  ∃ sb pb, hexToBytes sigHex = Ok sb ∧ hexToBytes pkHex = Ok pb ∧ ed_verify pb (utf8 (canonical core)) sb = Throw x.

Lemma hexToBytes_cases h : hexToBytes h = (if Nat.odd (units h) then Throw plainError else Ok (parse_bytes (utf16 h))).
Proof. done. Qed.

Lemma check_sig_odd {V} (ok : js_result V) bad s p core : Nat.odd (units s) = true ∨ Nat.odd (units p) = true →
  check_sig ed_verify ok bad s p core = Throw plainError.
Proof.
  intros H. unfold check_sig. rewrite (hexToBytes_cases s), (hexToBytes_cases p).
  destruct (Nat.odd (units s)); [done|]. destruct H as [?| ->]; done.
Qed.

(** The three ways out of a signature check. *)
Lemma check_sig_spec {V} (ok : js_result V) bad s p core r : check_sig ed_verify ok bad s p core = r →
  sig_ok s p core ∧ r = ok ∨
  (∃ why, r = Ok (bad why) ∧ why ∈ ["wrong_key_or_signature_length"; "bad_signature"] ∧ ¬ sig_ok s p core) ∨
  ∃ x, r = Throw x ∧ sig_throws s p core x ∧ ¬ sig_ok s p core.
Proof.
  intros <-. unfold check_sig, sig_ok, sig_throws. rewrite !hexToBytes_cases.
  destruct (Nat.odd (units s)) eqn:Es; cbn [mbind js_result_bind].
  { right. right. exists plainError. split; [done|]. split; [left; auto|by intros (? & ? & ? & _)]. }
  destruct (Nat.odd (units p)) eqn:Ep; cbn [mbind js_result_bind].
  { right. right. exists plainError. split; [done|]. split; [left; auto|by intros (? & ? & _ & ? & _)]. }
  destruct (Nat.eqb_spec (length (parse_bytes (utf16 s))) 64) as [H64|H64]; cbn [negb orb].
  2: { right. left. exists "wrong_key_or_signature_length". split; [done|].
         split; [left|by intros (? & ? & [= <-] & _ & ? & _)]. }
  destruct (Nat.eqb_spec (length (parse_bytes (utf16 p))) 32) as [H32|H32]; cbn [negb orb].
  2: { right. left. exists "wrong_key_or_signature_length". split; [done|].
         split; [left|by intros (? & ? & _ & [= <-] & _ & ? & _)]. }
  destruct (ed_verify (parse_bytes (utf16 p)) (utf8 (canonical core)) (parse_bytes (utf16 s))) as [[]|x] eqn:Ev; simpl.
  - left. split; [|done]. by exists (parse_bytes (utf16 s)), (parse_bytes (utf16 p)).
  - right. left. exists "bad_signature". split; [done|]. split; [right; left|]. intros (? & ? & [= <-] & [= <-] & ? & ? & Hv). congruence.
  - right. right. exists x. split; [done|]. split; [right; by exists (parse_bytes (utf16 s)), (parse_bytes (utf16 p))|]. intros (? & ? & [= <-] & [= <-] & ? & ? & Hv). congruence.
Qed.

Definition env_shape (e : json) : bool :=
  is_object e && is_text (field e "msgId") && is_number (field e "ts") && is_object (field e "topic") &&
  is_text (field (field e "topic") "name") && has_key e "message" && is_number (field e "seq").
Definition env_core (e : json) : json :=
  envelope_core (field e "seq") (field e "ts") (field e "topic") (field e "message").
Definition env_pk (e : json) : string := default "" (as_text (field e "signerPubkey")).
Definition env_publisher (e : json) (signed : bool) : json := if signed then field e "signerPubkey" else JNullV.

Definition ENVELOPE_REASONS : list string :=
  ["not_an_object"; "missing_msgId"; "missing_ts"; "missing_topic"; "missing_message"; "missing_seq";
   "missing_signerPubkey"; "unknown_signature_scheme"; "wrong_key_or_signature_length"; "bad_signature"; "bad_msgid"].

Lemma text_is_true v s : text_is v s = true ↔ v = JText s.
Proof.
  destruct v; simpl; try (split; congruence). rewrite bool_decide_eq_true. split; congruence.
Qed.

Lemma check_msgid_spec e signed :
  let E := field e "msgId" = JText (computeMsgId sha256 (env_publisher e signed) (field e "message")) in
  (check_msgid sha256 e signed = Ok (EOk signed) ∧ E) ∨ (check_msgid sha256 e signed = Ok (EBad "bad_msgid" signed) ∧ ¬ E).
Proof.
  intros E. unfold check_msgid. change (if signed then field e "signerPubkey" else JNullV) with (env_publisher e signed).
  destruct (text_is _ _) eqn:H; [left|right]; (split; [done|]).
  - by apply text_is_true.
  - intros HE%text_is_true. congruence.
Qed.

(** An envelope of the right shape: what is left to check. *)
Lemma verify_shaped ks e : env_shape e = true → verifyEnvelope sha256 ed_verify ks e =
  if is_text (field e "signature") then
    if negb (is_text (field e "signerPubkey")) then Ok (EBad "missing_signerPubkey" true)
    else if negb (sig_scheme (field e "signature")) then Ok (EBad "unknown_signature_scheme" true)
    else if AUTH_VERIFY_RELAXED ks then check_msgid sha256 e true
    else check_sig ed_verify (check_msgid sha256 e true) (λ r, EBad r true) (sig_hex (field e "signature")) (env_pk e) (env_core e)
  else check_msgid sha256 e false.
Proof.
  unfold env_shape. intros ((((((H1 & H2)%andb_true_iff & H3)%andb_true_iff & H4)%andb_true_iff & H4')%andb_true_iff
    & H5)%andb_true_iff & H6)%andb_true_iff. unfold verifyEnvelope. by rewrite H1, H2, H3, H4, H4', H5, H6.
Qed.

Lemma verify_unshaped ks e : env_shape e = false → ∃ r, verifyEnvelope sha256 ed_verify ks e = Ok (EBad r false) ∧ r ∈ ENVELOPE_REASONS.
Proof.
  unfold env_shape, verifyEnvelope.
  destruct (is_object e) eqn:H1; cbn [negb]; [|intros _; eexists; split; [done|by left]].
  destruct (is_text (field e "msgId")) eqn:H2; cbn [negb]; [|intros _; eexists; split; [done|right; by left]].
  destruct (is_number (field e "ts")) eqn:H3; cbn [negb]; [|intros _; eexists; split; [done|do 2 right; by left]].
  destruct (is_object (field e "topic")) eqn:H4; cbn [negb orb]; [|intros _; eexists; split; [done|do 3 right; by left]].
  destruct (is_text (field (field e "topic") "name")) eqn:H4'; cbn [negb]; [|intros _; eexists; split; [done|do 3 right; by left]].
  destruct (has_key e "message") eqn:H5; cbn [negb]; [|intros _; eexists; split; [done|do 4 right; by left]].
  destruct (is_number (field e "seq")) eqn:H6; cbn [negb]; [|intros _; eexists; split; [done|do 5 right; by left]].
  done.
Qed.

(** The signature part of an accepted signed envelope. *)
Definition env_signed (ks : keyspace) (e : json) : Prop :=
  is_text (field e "signerPubkey") = true ∧ sig_scheme (field e "signature") = true ∧
  (AUTH_VERIFY_RELAXED ks = true ∨ sig_ok (sig_hex (field e "signature")) (env_pk e) (env_core e)).

(** The three outcomes of a well-shaped envelope. *)
Inductive outcome (ks : keyspace) (e : json) (s : bool) : Prop :=
| Accepted : verifyEnvelope sha256 ed_verify ks e = Ok (EOk s) → (s = true → env_signed ks e) →
    field e "msgId" = JText (computeMsgId sha256 (env_publisher e s) (field e "message")) → outcome ks e s
| Rejected r : verifyEnvelope sha256 ed_verify ks e = Ok (EBad r s) → r ∈ ENVELOPE_REASONS →
    ¬ ((s = true → env_signed ks e) ∧
       field e "msgId" = JText (computeMsgId sha256 (env_publisher e s) (field e "message"))) → outcome ks e s
| Threw x : verifyEnvelope sha256 ed_verify ks e = Throw x → s = true → AUTH_VERIFY_RELAXED ks = false →
    sig_throws (sig_hex (field e "signature")) (env_pk e) (env_core e) x → ¬ env_signed ks e → outcome ks e s.

Lemma outcome_msgid ks e s : verifyEnvelope sha256 ed_verify ks e = check_msgid sha256 e s →
  (s = true → env_signed ks e) → outcome ks e s.
Proof.
  intros Hv Hs. destruct (check_msgid_spec e s) as [[E HE]|[E HE]]; rewrite E in Hv.
  - by apply Accepted.
  - eapply Rejected; [exact Hv|do 10 right; by left|by intros [_ ?]].
Qed.

Lemma verify_outcome ks e : env_shape e = true → outcome ks e (is_text (field e "signature")).
Proof.
  intros Hs. pose proof (verify_shaped ks e Hs) as Hv. destruct (is_text (field e "signature")) eqn:Hsg.
  2: { by apply outcome_msgid. }
  destruct (is_text (field e "signerPubkey")) eqn:Hpk; cbn [negb] in Hv.
  2: { eapply Rejected; [exact Hv|do 6 right; by left|]. intros [H _]. destruct (H eq_refl) as [? _]. congruence. }
  destruct (sig_scheme (field e "signature")) eqn:Hsc; cbn [negb] in Hv.
  2: { eapply Rejected; [exact Hv|do 7 right; by left|]. intros [H _]. destruct (H eq_refl) as (_ & ? & _). congruence. }
  destruct (AUTH_VERIFY_RELAXED ks) eqn:Hr.
  { apply outcome_msgid; [done|]. intros _. split_and!; [done..|by left]. }
  assert (env_signed ks e → sig_ok (sig_hex (field e "signature")) (env_pk e) (env_core e)) as Hno
    by (intros (_ & _ & [?|?]); [congruence|done]).
  destruct (check_sig_spec _ _ _ _ _ _ (eq_sym Hv)) as [[Hok Hc]|[(why & Hc & Hw & Hn)|(x & Hc & Hth & Hn)]].
  - apply outcome_msgid; [done|]. intros _. split_and!; [done..|by right].
  - eapply Rejected; [exact Hc| |naive_solver].
    apply elem_of_cons in Hw as [->|[->|[]%not_elem_of_nil]%elem_of_cons]; [do 8 right; by left|do 9 right; by left].
  - eapply Threw; [exact Hc|done|done|done|auto].
Qed.

Lemma sig_scheme_text v : sig_scheme v = true → is_text v = true.
Proof. by destruct v. Qed.

(** C38. What [verifyEnvelope] answers. It accepts exactly the envelopes of the right shape
    whose content address is the hash of the author and the message and which, where their
    signature field is a text, name their signer by a text, have a signature of the scheme
    ["ed25519:"] and, under the strict profile, one of the named key over the domain-tagged core
    (under a relaxed profile, that of the simulator, the signature is not looked at); a
    signature field that is no text counts as none. Every other envelope is answered with
    one of eleven reasons, except where [verifyEnvelope] throws: then the profile is strict, the
    envelope well-shaped with a signature, and one of the two hex fields has an odd number of
    UTF-16 units, or the key import or the primitive throws; and wherever one of the two is
    odd it throws. *)
Theorem verify_envelope_exact ks e :
  (∀ signed, verifyEnvelope sha256 ed_verify ks e = Ok (EOk signed) ↔
    env_shape e = true ∧ signed = is_text (field e "signature") ∧ (signed = true → env_signed ks e) ∧
    field e "msgId" = JText (computeMsgId sha256 (env_publisher e signed) (field e "message"))) ∧
  (∀ r signed, verifyEnvelope sha256 ed_verify ks e = Ok (EBad r signed) → r ∈ ENVELOPE_REASONS) ∧
  (∀ x, verifyEnvelope sha256 ed_verify ks e = Throw x →
    env_shape e = true ∧ is_text (field e "signature") = true ∧ AUTH_VERIFY_RELAXED ks = false ∧
    sig_throws (sig_hex (field e "signature")) (env_pk e) (env_core e) x) ∧
  (env_shape e = true → is_text (field e "signerPubkey") = true → sig_scheme (field e "signature") = true →
    AUTH_VERIFY_RELAXED ks = false →
    Nat.odd (units (sig_hex (field e "signature"))) = true ∨ Nat.odd (units (env_pk e)) = true →
    verifyEnvelope sha256 ed_verify ks e = Throw plainError).
Proof.
  destruct (env_shape e) eqn:Hs.
  2: { destruct (verify_unshaped ks e Hs) as (r & -> & Hr). split_and!; intros; naive_solver. }
  pose proof (verify_outcome ks e Hs) as Ho. destruct Ho as [Hv H1 H2|r Hv Hr Hn|x Hv Hsg Hx Ht Hn]; rewrite Hv.
  - split_and!; try done.
    + intros signed. split; [intros [= <-]; by split_and!|]. by intros (_ & -> & _ & _).
    + intros _ Hpk Hsc Hrx Hodd. exfalso. rewrite (sig_scheme_text _ Hsc) in H1.
      destruct (H1 eq_refl) as (_ & _ & [?|(sb & pb & Hb & Hp & _)]); [congruence|].
      rewrite hexToBytes_cases in Hb, Hp. destruct Hodd as [Hodd|Hodd]; rewrite Hodd in *; done.
  - split_and!; try done.
    + intros signed. split; [done|]. intros (_ & -> & ? & ?). by destruct Hn.
    + intros r' signed [= <- <-]. done.
    + intros _ Hpk Hsc Hrx Hodd. rewrite verify_shaped in Hv by done.
      rewrite (sig_scheme_text _ Hsc), Hpk, Hsc, Hrx in Hv. cbn [negb] in Hv.
      by rewrite check_sig_odd in Hv.
  - split_and!; try done.
    + intros signed. split; [done|]. intros (_ & -> & H & _). destruct Hn. by apply H.
    + intros x' [= <-]. done.
    + intros _ Hpk Hsc Hrx Hodd. rewrite verify_shaped in Hv by done.
      rewrite (sig_scheme_text _ Hsc), Hpk, Hsc, Hrx in Hv. cbn [negb] in Hv.
      by rewrite check_sig_odd in Hv.
Qed.
End verifiers.

(** * Hex round trip *)

Definition is_byte (b : Z) : Prop := 0 ≤ b < 256.

Definition byte_ok (b : Z) : bool :=
  match byte_hex b with String x (String y "") => parse_byte x y =? b | _ => false end.

Lemma byte_hex_shape b : is_byte b → ∃ x y, byte_hex b = String x (String y "") ∧ parse_byte x y = b.
Proof.
  intros Hb. assert (b ∈ seqZ 0 256) as Hin by (apply elem_of_seqZ; unfold is_byte in *; lia).
  assert (forallb byte_ok (seqZ 0 256) = true) as Hall by (vm_compute; reflexivity).
  rewrite forallb_forall in Hall. specialize (Hall b ltac:(by apply list_elem_of_In)). unfold byte_ok in Hall.
  destruct (byte_hex b) as [|x [|y [|]]]; try done. exists x, y. split; [done|]. by apply Z.eqb_eq.
Qed.

Lemma bytesToHex_parse l : Forall is_byte l →
  parse_bytes (bytesToHex l) = l ∧ String.length (bytesToHex l) = (2 * length l)%nat.
Proof.
  induction 1 as [|b l Hb _ [IH1 IH2]]; [done|]. destruct (byte_hex_shape b Hb) as (x & y & Hx & Hp).
  cbn [bytesToHex]. rewrite Hx.
  change (String x (String y "") +:+ bytesToHex l) with (String x (String y (bytesToHex l))).
  cbn [parse_bytes String.length length]. rewrite Hp, IH1, IH2. split; [done|lia].
Qed.

Lemma byte_hex_utf16 b s : is_byte b → utf16 (byte_hex b +:+ s) = byte_hex b +:+ utf16 s.
Proof.
  intros Hb. assert (b ∈ seqZ 0 256) as Hin by (apply elem_of_seqZ; unfold is_byte in *; lia).
  set (small := λ c, (nat_of_ascii c <? 128)%nat).
  assert (forallb (λ b, match byte_hex b with String x (String y "") => small x && small y | _ => false end) (seqZ 0 256) = true)
    as Hall by (vm_compute; reflexivity).
  rewrite forallb_forall in Hall. specialize (Hall b ltac:(by apply list_elem_of_In)).
  destruct (byte_hex b) as [|x [|y [|]]]; try done. apply andb_true_iff in Hall as [H1 H2].
  change (String x (String y "") +:+ s) with (String x (String y s)). unfold small in *. cbn [utf16]. by rewrite H1, H2.
Qed.
Lemma bytesToHex_utf16 l : Forall is_byte l → utf16 (bytesToHex l) = bytesToHex l.
Proof. induction 1 as [|b l Hb _ IH]; [done|]. cbn [bytesToHex]. by rewrite byte_hex_utf16, IH. Qed.

Lemma hex_roundtrip l : Forall is_byte l → hexToBytes (bytesToHex l) = Ok l.
Proof.
  intros Hl. pose proof (bytesToHex_parse l Hl) as [H1 H2]. unfold hexToBytes, units. rewrite bytesToHex_utf16, H2, H1 by done.
  replace (Nat.odd (2 * length l)) with false; [done|]. symmetry. rewrite <-Nat.negb_even, Nat.even_mul. done.
Qed.

Lemma lc_append a b : lc (a +:+ b) = lc a +:+ lc b.
Proof. induction a as [|c a IH]; [done|]. change (lc (String c a +:+ b)) with (String (lower_ascii c) (lc (a +:+ b))). by rewrite IH. Qed.

Lemma lc_byte_hex b : is_byte b → lc (byte_hex b) = byte_hex b.
Proof.
  intros Hb. assert (b ∈ seqZ 0 256) as Hin by (apply elem_of_seqZ; unfold is_byte in *; lia).
  assert (forallb (λ b, bool_decide (lc (byte_hex b) = byte_hex b)) (seqZ 0 256) = true) as Hall by (vm_compute; reflexivity).
  rewrite forallb_forall in Hall. specialize (Hall b ltac:(by apply list_elem_of_In)). by apply bool_decide_eq_true in Hall.
Qed.

Lemma lc_bytesToHex l : Forall is_byte l → lc (bytesToHex l) = bytesToHex l.
Proof.
  induction 1 as [|b l Hb _ IH]; [done|]. cbn [bytesToHex]. by rewrite lc_append, lc_byte_hex, IH.
Qed.

Lemma slice_prefix p s : slice_from (String.length p) (p +:+ s) = s.
Proof. induction p as [|c p IH]; simpl; [by destruct s|done]. Qed.
Lemma prefix_append p s : String.prefix p (p +:+ s) = true.
Proof. induction p as [|c p IH]; simpl; [by destruct s|]. by destruct (ascii_dec c c). Qed.

Lemma sig_hex_text sig : sig_hex (JText (sig_text sig)) = bytesToHex sig.
Proof. apply slice_prefix. Qed.
Lemma sig_scheme_sig sig : sig_scheme (JText (sig_text sig)) = true.
Proof. apply prefix_append. Qed.

(** * What survives the wire *)

Lemma wire_idemp v : wire (wire v) = wire v.
Proof. apply canonical_inj, canonical_of_wire. Qed.
Lemma seen_wire v : has_json_form v = true → seen (wire v) = seen v.
Proof. intros H. unfold seen. by rewrite wire_has_form, H, wire_idemp. Qed.

(** A member of a built object, after the wire. *)
Lemma field_sent l k v : NoDup l.*1 → member l k = Some v → has_json_form v = true →
  field (wire (JObject l)) k = wire v.
Proof. intros Hn Hm Hf. rewrite field_wire by done. unfold wired. rewrite Hm. simpl. by rewrite Hf. Qed.

Lemma has_sent l k v : NoDup l.*1 → member l k = Some v → has_json_form v = true → has_key (wire (JObject l)) k = true.
Proof.
  intros Hn Hm Hf. rewrite wire_object. cbn [has_key]. rewrite member_wire by done. unfold wired. rewrite Hm. simpl.
  by rewrite Hf.
Qed.

(** * Building and verifying *)

(** The members of a built object after the wire. *)
Ltac sent := repeat match goal with x := _ |- _ => subst x end; rewrite field_wire by (apply (bool_decide_unpack _); vm_compute; exact I);
  cbn [app]; read_member; unfold seen;
  repeat match goal with H : has_json_form ?v = true |- context [has_json_form ?v] => rewrite H end; reflexivity.

Section roundtrip.
Context {K : Type} (sha256 : bytes → bytes) (ed_verify : bytes → bytes → bytes → js_result bool)
  (ed_sign : K → bytes → bytes) (pub : K → bytes).

(** What the builders rely on: a signature has 64 bytes, a public key 32, and Ed25519
    verifies what it signed. *)
Definition ed25519_laws : Prop :=
  (∀ k m, ed_verify (pub k) m (ed_sign k m) = Ok true) ∧
  (∀ k m, length (ed_sign k m) = 64%nat ∧ Forall is_byte (ed_sign k m)) ∧
  (∀ k, length (pub k) = 32%nat ∧ Forall is_byte (pub k)).

(** A node's identity, which has no author id, and the author identity [buildAuthorIdentity]
    makes of a key pair: its id is the public key, cut to the author width under a shrunk profile. *)
Definition own_id (k : K) : identity K := mk_identity (Some k) (Some (bytesToHex (pub k))) None.
Definition buildAuthorIdentity (ks : keyspace) (k : K) : identity K :=
  let pubkeyHex := bytesToHex (pub k) in
  let authorId := if AUTHOR_ID_BITS ks =? 256 then pubkeyHex
                  else String.substring 0 (Z.to_nat (AUTHOR_HEX_CHARS ks)) pubkeyHex in
  mk_identity (Some k) (Some pubkeyHex) (Some authorId).
Definition identity_of (ks : keyspace) (k : K) (i : identity K) : Prop := i = own_id k ∨ i = buildAuthorIdentity ks k.

(** The builders other than [buildEnvelope] read the key pair alone. *)
Lemma signing_pair_of ks k i : identity_of ks k i → signing_pair (Some i) = signing_pair (Some (own_id k)).
Proof. by intros [-> | ->]. Qed.

Lemma sig_ok_signed k c c' : ed25519_laws → canonical c' = canonical c →
  sig_ok ed_verify (bytesToHex (ed_sign k (utf8 (canonical c)))) (bytesToHex (pub k)) c'.
Proof.
  intros (Hv & Hs & Hp) Hc. destruct (Hs k (utf8 (canonical c))) as [Hs1 Hs2], (Hp k) as [Hp1 Hp2].
  exists (ed_sign k (utf8 (canonical c))), (pub k). rewrite !hex_roundtrip, Hc by done. by split_and!.
Qed.

Lemma check_sig_signed {V} (ok : js_result V) bad k c c' : ed25519_laws → canonical c' = canonical c →
  check_sig ed_verify ok bad (bytesToHex (ed_sign k (utf8 (canonical c)))) (bytesToHex (pub k)) c' = ok.
Proof.
  intros Hl Hc. pose proof (sig_ok_signed k c c' Hl Hc) as Hok.
  destruct (check_sig_spec ed_verify ok bad (bytesToHex (ed_sign k (utf8 (canonical c)))) (bytesToHex (pub k)) c' _ eq_refl)
    as [[_ ?]|[(? & _ & _ & Hn)|(? & _ & _ & Hn)]]; [done|by destruct Hn..].
Qed.

(** The signed core, rebuilt from the fields the wire carried. *)
Ltac resent := apply canonical_same;
  repeat (apply Forall2_cons_2; [split; [done|first [done|by apply seen_wire]]|]); apply Forall2_nil_2.

Lemma envelope_core_sent q ts tp m :
  has_json_form q = true → has_json_form ts = true → has_json_form tp = true → has_json_form m = true →
  canonical (envelope_core (wire q) (wire ts) (wire tp) (wire m)) = canonical (envelope_core q ts tp m).
Proof. intros. unfold envelope_core. resent. Qed.

Lemma msgid_sent p m : has_json_form p = true → has_json_form m = true →
  computeMsgId sha256 (wire p) (wire m) = computeMsgId sha256 p m.
Proof. intros. unfold computeMsgId. f_equal. unfold msgid_core. resent. Qed.

Definition finite (v : json) : Prop := ∃ z, v = JNumber z.
Definition descriptor (tp : json) : Prop := ∃ l n, tp = JObject l ∧ NoDup l.*1 ∧ member l "name" = Some (JText n).

Lemma descriptor_sent tp : descriptor tp →
  has_json_form tp = true ∧ is_object (wire tp) = true ∧ is_text (field (wire tp) "name") = true.
Proof.
  intros (l & n & -> & Hn & Hm). rewrite (field_sent l "name" (JText n)) by done. rewrite wire_object. done.
Qed.

Lemma accept_sent ks e topic message zs zt signed signer :
  is_object e = true → field e "seq" = JNumber zs → field e "ts" = JNumber zt → field e "topic" = wire topic →
  field e "message" = wire message → has_key e "message" = true → descriptor topic → has_json_form message = true →
  signed = is_text (field e "signature") → (if signed then field e "signerPubkey" else JNullV) = wire signer →
  has_json_form signer = true → field e "msgId" = JText (computeMsgId sha256 signer message) →
  (signed = true → env_signed ed_verify ks e) →
  verifyEnvelope sha256 ed_verify ks e = Ok (EOk signed).
Proof.
  intros H1 H2 H3 H4 H5 H6 Ht Hm -> Hp Hs H7 Hsig. destruct (descriptor_sent topic Ht) as (Ht1 & Ht2 & Ht3).
  destruct (verify_outcome sha256 ed_verify ks e) as [? _ _|r _ _ Hn|x _ Hx _ _ Hn]; [|done| |].
  - unfold env_shape. by rewrite H1, H2, H3, H4, H6, H7, Ht2, Ht3.
  - destruct Hn. split; [done|]. rewrite H7. f_equal. unfold env_publisher. by rewrite Hp, H5, msgid_sent.
  - by destruct Hn; apply Hsig.
Qed.

Lemma env_signed_sent ks e topic message zs zt k signer : ed25519_laws →
  field e "seq" = JNumber zs → field e "ts" = JNumber zt → field e "topic" = wire topic →
  field e "message" = wire message → has_json_form topic = true → has_json_form message = true →
  field e "signerPubkey" = JText signer → signer = bytesToHex (pub k) ∨ AUTH_VERIFY_RELAXED ks = true →
  field e "signature" = JText (sig_text (ed_sign k (utf8 (canonical (envelope_core (JNumber zs) (JNumber zt) topic message))))) →
  env_signed ed_verify ks e.
Proof.
  intros Hl H2 H3 H4 H5 Ht Hm Hp Hsg Hs. unfold env_signed, env_pk, env_core.
  rewrite Hp, Hs, sig_scheme_sig, sig_hex_text, H2, H3, H4, H5. split_and!; [done..|].
  destruct Hsg as [-> |?]; [right|by left].
  apply sig_ok_signed; [done|]. by apply (envelope_core_sent (JNumber zs) (JNumber zt)).
Qed.

Lemma envelope_roundtrip ks topic message ts seq k i doSign pow : ed25519_laws → identity_of ks k i →
  AUTHOR_ID_BITS ks = 256 ∨ AUTH_VERIFY_RELAXED ks = true →
  descriptor topic → has_json_form message = true → finite ts → finite seq →
  ∃ e, buildEnvelope sha256 ed_sign topic message ts seq (Some i) doSign pow = Ok e ∧
       verifyEnvelope sha256 ed_verify ks (wire e) = Ok (EOk doSign).
Proof.
  intros Hl Hi Hw Ht Hm (zt & ->) (zs & ->).
  assert (∃ signer, i = mk_identity (Some k) (Some (bytesToHex (pub k))) (id_authorId i) ∧
    default (bytesToHex (pub k)) (id_authorId i) = signer ∧
    (signer = bytesToHex (pub k) ∨ AUTH_VERIFY_RELAXED ks = true)) as (signer & Hi' & Hsg & Hsr).
  { destruct Hi as [-> | ->]; (eexists; split; [done|]; split; [reflexivity|]); [by left|].
    destruct Hw as [Hw|?]; [left|by right]. cbn. by rewrite Hw. }
  rewrite Hi'. clear Hi Hi' Hw. generalize dependent (id_authorId i). intros a Hsg. pose proof (descriptor_sent topic Ht) as (Ht1 & Ht2 & Ht3).
  destruct doSign; (eexists; split; [unfold buildEnvelope; cbn [mbind option_bind id_privateKey id_pubkeyHex id_authorId];
    rewrite ?Hsg; reflexivity|]); clear Hsg.
  - apply (accept_sent ks _ topic message zs zt true (JText signer)); try done.
    1-4,6-8: sent.
    + apply (has_sent _ "message" message); [apply (bool_decide_unpack _); vm_compute; exact I|done..].
    + intros _. eapply (env_signed_sent ks _ topic message zs zt k signer); try done. all: sent.
  - apply (accept_sent ks _ topic message zs zt false JNullV); try done.
    1-4,6-7: sent.
    apply (has_sent _ "message" message); [apply (bool_decide_unpack _); vm_compute; exact I|done..].
Qed.

Lemma tail_sent e core core' k : ed25519_laws → canonical core' = canonical core →
  field e "signerPubkey" = JText (bytesToHex (pub k)) →
  field e "signature" = JText (sig_text (ed_sign k (utf8 (canonical core)))) →
  verify_tail ed_verify e core' = Ok (KOk (bytesToHex (pub k))).
Proof.
  intros Hl Hc Hp Hs. unfold verify_tail. rewrite Hp, Hs, sig_scheme_sig, sig_hex_text. cbn [negb].
  by apply check_sig_signed.
Qed.

Lemma point_roundtrip domain t m zt zs k : ed25519_laws →
  ∃ o, build_point ed_sign domain (JText t) (JText m) (JNumber zt) (JNumber zs) (Some (own_id k)) = Ok o ∧
       verify_point ed_verify domain (wire o) = Ok (KOk (bytesToHex (pub k))).
Proof.
  intros Hl. eexists. split; [reflexivity|]. match goal with |- verify_point _ _ ?o = _ => set (e := o) end.
  assert (field e "topicId" = JText t) as H1 by sent. assert (field e "msgId" = JText m) as H2 by sent.
  assert (field e "ts" = JNumber zt) as H3 by sent. assert (field e "seq" = JNumber zs) as H4 by sent.
  unfold verify_point. rewrite H1, H2, H3, H4. cbn [is_text is_number negb]. change (is_object e) with true. cbn [negb].
  apply (tail_sent e (point_core domain (JText t) (JText m) (JNumber zt) (JNumber zs))); [done|done|sent|sent].
Qed.

Lemma unpub_roundtrip t n o d zt zs k : ed25519_laws →
  ∃ u, buildUnpub ed_sign (JText t) (JText n) (JText o) (JBoolV d) (JNumber zt) (JNumber zs) (Some (own_id k)) = Ok u ∧
       verifyUnpub ed_verify (wire u) = Ok (KOk (bytesToHex (pub k))).
Proof.
  intros Hl. eexists. split; [reflexivity|]. match goal with |- verifyUnpub _ ?o = _ => set (e := o) end.
  assert (field e "topicId" = JText t) as H1 by sent. assert (field e "topicName" = JText n) as H2 by sent.
  assert (field e "ownerNodeId" = JText o) as H3 by sent. assert (field e "destroy" = JBoolV d) as H4 by sent.
  assert (field e "ts" = JNumber zt) as H5 by sent. assert (field e "seq" = JNumber zs) as H6 by sent.
  unfold verifyUnpub. rewrite H1, H2, H3, H4, H5, H6. change (is_object e) with true.
  cbn [is_text is_number is_boolean negb].
  apply (tail_sent e (unpub_core (JText t) (JText n) (JText o) (JBoolV d) (JNumber zt) (JNumber zs))); [done|done|sent|sent].
Qed.

Lemma check_try_signed h v l s k c c' : ed25519_laws → canonical c' = canonical c →
  check_try ed_verify h l v s (bytesToHex (ed_sign k (utf8 (canonical c)))) (bytesToHex (pub k)) c' = None.
Proof.
  intros Hl Hc. destruct (sig_ok_signed k c c' Hl Hc) as (sb & pb & H1 & H2 & H3 & H4 & H5).
  unfold check_try. by rewrite H1, H2, H3, H4, H5.
Qed.

Lemma pub_text k : ed25519_laws → lc (bytesToHex (pub k)) = bytesToHex (pub k) ∧ strlen (bytesToHex (pub k)) = 64.
Proof.
  intros (_ & _ & Hp). destruct (Hp k) as [H1 H2]. split; [by apply lc_bytesToHex|].
  destruct (bytesToHex_parse _ H2) as [_ H]. unfold strlen. rewrite H, H1. done.
Qed.

(** The label, given or left out. *)
Definition label_of (lb : option string) : json := match lb with Some s => JText s | None => JNullV end.

Lemma class_roundtrip cls lb zt k k' : ed25519_laws → cls ∈ CLASSES →
  ∃ o, buildAuthorClass ed_sign cls JNullV (label_of lb) (JNumber zt) (Some (own_id k)) (Some (own_id k')) = Ok o ∧
       verifyAuthorClass ed_verify (wire o) None =
         COk (mk_class (JText cls) (JText (bytesToHex (pub k'))) true (label_of lb) (JNumber zt) (bytesToHex (pub k))).
Proof.
  intros Hl Hc. destruct (pub_text k Hl) as [Hk1 Hk2], (pub_text k' Hl) as [Hk3 Hk4]. eexists. split.
  { unfold buildAuthorClass. rewrite bool_decide_eq_true_2 by done. cbn [negb signing_pair own_id mbind option_bind id_privateKey id_pubkeyHex].
    rewrite Hk1, Hk3. reflexivity. }
  match goal with |- verifyAuthorClass _ ?o _ = _ => set (e := o) end.
  set (core := class_core (JText cls) (JNumber zt) (JText (bytesToHex (pub k))) (JText (bytesToHex (pub k'))) (label_of lb)) in *.
  assert (field e "kind" = JText AUTHOR_CLASS_KIND ∧ field e "class" = JText cls ∧ field e "ts" = JNumber zt ∧
    field e "author" = JText (bytesToHex (pub k)) ∧ field e "operator" = JText (bytesToHex (pub k')) ∧
    (field e "label" = match lb with Some s => JText s | None => JUndefined end) ∧
    field e "signature" = JText (sig_text (ed_sign k (utf8 (canonical core)))) ∧
    field e "operatorProof" = JText (sig_text (ed_sign k' (utf8 (canonical
      (operator_core (bytesToHex (pub k)) (bytesToHex (pub k')))))))) as (H1 & H2 & H3 & H4 & H5 & H6 & H7 & H8).
  { destruct lb; split_and!; sent. }
  assert (canonical (class_sig_core e) = canonical core) as Hcore.
  { unfold class_sig_core. rewrite H2, H3, H4, H5, H6. by destruct lb. }
  clearbody core. unfold verifyAuthorClass, check_operator. rewrite H1, H2, H3, H4, H5, H7, H8. change (is_object e) with true.
  cbn [text_is as_text negb nullish]. rewrite !bool_decide_eq_true_2 by done. rewrite !sig_scheme_sig, !sig_hex_text, Hk1, Hk2, Hk3, Hk4.
  cbn [negb Z.eqb Pos.eqb]. rewrite !check_try_signed by done. rewrite H6. by destruct lb.
Qed.

(** C39. What a builder makes with a key pair, be it a node's identity or an author's, the
    verifier accepts after the record has crossed the wire, where numbers are integers: an
    envelope, signed or not, whose topic is a descriptor with a name (a text topic is built, and
    refused: [text_topic_refused]), whatever JSON value its message is; a kill or a touch; an
    unpub; and an author class with its operator's countersignature, of which the verifier
    reports exactly the class, operator, label, time and author that were signed. An author id
    cut to a shrunk profile's width asks for the relaxed verification such a profile has. *)
Theorem signed_roundtrip : ed25519_laws →
  (∀ ks topic message ts seq k i doSign pow, identity_of ks k i →
    AUTHOR_ID_BITS ks = 256 ∨ AUTH_VERIFY_RELAXED ks = true →
    descriptor topic → has_json_form message = true → finite ts → finite seq →
    ∃ e, buildEnvelope sha256 ed_sign topic message ts seq (Some i) doSign pow = Ok e ∧
         verifyEnvelope sha256 ed_verify ks (wire e) = Ok (EOk doSign)) ∧
  (∀ ks t m zt zs k i, identity_of ks k i →
    (∃ o, buildKill ed_sign (JText t) (JText m) (JNumber zt) (JNumber zs) (Some i) = Ok o ∧
          verifyKill ed_verify (wire o) = Ok (KOk (bytesToHex (pub k)))) ∧
    (∃ o, buildTouch ed_sign (JText t) (JText m) (JNumber zt) (JNumber zs) (Some i) = Ok o ∧
          verifyTouch ed_verify (wire o) = Ok (KOk (bytesToHex (pub k))))) ∧
  (∀ ks t n o d zt zs k i, identity_of ks k i →
    ∃ u, buildUnpub ed_sign (JText t) (JText n) (JText o) (JBoolV d) (JNumber zt) (JNumber zs) (Some i) = Ok u ∧
         verifyUnpub ed_verify (wire u) = Ok (KOk (bytesToHex (pub k)))) ∧
  (∀ ks cls lb zt k k' i i', identity_of ks k i → identity_of ks k' i' → cls ∈ CLASSES →
    ∃ o, buildAuthorClass ed_sign cls JNullV (label_of lb) (JNumber zt) (Some i) (Some i') = Ok o ∧
         verifyAuthorClass ed_verify (wire o) None =
           COk (mk_class (JText cls) (JText (bytesToHex (pub k'))) true (label_of lb) (JNumber zt) (bytesToHex (pub k)))).
Proof.
  intros Hl. split_and!.
  - intros. by apply (envelope_roundtrip ks topic message ts seq k i).
  - intros ks t m zt zs k i Hi. unfold buildKill, buildTouch, build_point. rewrite (signing_pair_of ks k i Hi).
    split; by apply point_roundtrip.
  - intros ks t n o d zt zs k i Hi. unfold buildUnpub. rewrite (signing_pair_of ks k i Hi). by apply unpub_roundtrip.
  - intros ks cls lb zt k k' i i' Hi Hi' Hc. unfold buildAuthorClass.
    rewrite (signing_pair_of ks k i Hi), (signing_pair_of ks k' i' Hi'). by apply class_roundtrip.
Qed.

(** * The author's text is not bound

    Neither the signed core nor the hex decoding fixes the text of [signerPubkey]: another
    spelling of the same key, with the content address recomputed for it, carries the same
    signature to a different message id. *)
Lemma signer_respelled ks e e' : verifyEnvelope sha256 ed_verify ks e = Ok (EOk true) →
  AUTH_VERIFY_RELAXED ks = false → env_shape e' = true → env_core e' = env_core e →
  field e' "signature" = field e "signature" → is_text (field e' "signerPubkey") = true →
  hexToBytes (env_pk e') = hexToBytes (env_pk e) →
  field e' "msgId" = JText (computeMsgId sha256 (field e' "signerPubkey") (field e' "message")) →
  verifyEnvelope sha256 ed_verify ks e' = Ok (EOk true).
Proof.
  intros Hv Hr Hs Hc Hsig Hpk Hhex Hid.
  assert (env_shape e = true) as Hse.
  { destruct (env_shape e) eqn:E; [done|]. destruct (verify_unshaped sha256 ed_verify ks e E) as (r & Hu & _). congruence. }
  destruct (verify_outcome sha256 ed_verify ks e Hse) as [Ha Hsg _| |]; [|congruence..].
  rewrite Ha in Hv. injection Hv as Hv. destruct (Hsg Hv) as (_ & Hsc & [?|Hok]); [congruence|].
  destruct (verify_outcome sha256 ed_verify ks e' Hs) as [Ha' _ _|r _ _ Hn|x _ _ _ _ Hn].
  - by rewrite Ha', Hsig, Hv.
  - destruct Hn. rewrite Hsig, Hv. split; [|done]. intros _. split; [done|]. rewrite Hsig. split; [done|]. right.
    destruct Hok as (sb & pb & ? & ? & ? & ? & ?). exists sb, pb. by rewrite Hc, Hhex.
  - destruct Hn. split; [done|]. rewrite Hsig. split; [done|]. right.
    destruct Hok as (sb & pb & ? & ? & ? & ? & ?). exists sb, pb. by rewrite Hc, Hhex.
Qed.

(** A character that is no ASCII counts by its UTF-16 units, not its bytes: an e with an
    acute accent is one, an emoji two, and a no-break space before a digit is skipped. *)
Example hex_units :
  hexToBytes (String "195" (String "169" "")) = Throw plainError ∧
  hexToBytes (String "240" (String "159" (String "152" (String "128" "")))) = Ok [0] ∧
  hexToBytes (String "194" (String "160" "a")) = Ok [10].
Proof. split_and!; reflexivity. Qed.
(** Upper case is another spelling. *)
Example respelled_key : hexToBytes "AB" = hexToBytes "ab" ∧ hexToBytes "zz" = hexToBytes "00".
Proof. split; reflexivity. Qed.
End roundtrip.

(** * Lifetimes *)

Lemma isSafe_spec z : isSafe z = true ↔ - (2 ^ 53 - 1) ≤ z ≤ 2 ^ 53 - 1.
Proof. unfold isSafe. rewrite andb_true_iff, !Z.leb_le. done. Qed.

(** Signed lifetimes: [validateExp] accepts an expiry exactly when it is a safe integer
    strictly after the time of signing, at most the 24-hour ceiling after it, with its skewed
    death still a safe integer, and otherwise throws one of three named codes; an accepted
    expiry always has an effective death, five seconds later, up to which the body is fresh;
    and the clamped expiry of any time that has one is accepted. *)
Theorem validate_exp_exact (ts exp : Z) :
  (∀ e, validateExp (JInt ts) (JInt exp) = Ok e ↔
    e = exp ∧ isSafe ts = true ∧ ts < exp ≤ ts + TTL_CEILING ∧ - (2 ^ 53 - 1) ≤ exp ∧ exp + CLOCK_SKEW ≤ 2 ^ 53 - 1) ∧
  (∀ v w x, validateExp v w = Throw x →
    err_code x = Some "BAD_EXP" ∨ err_code x = Some "EXP_NOT_AFTER_TS" ∨ err_code x = Some "EXP_OVER_CEILING") ∧
  (∀ e now, validateExp (JInt ts) (JInt exp) = Ok e →
    effectiveDeath (JInt e) = Ok (e + CLOCK_SKEW) ∧ isBodyFresh now (JInt e) = Ok (now <=? e + CLOCK_SKEW)) ∧
  (∀ e, clampExp (JInt ts) = Ok e → e = ts + TTL_CEILING ∧ validateExp (JInt ts) (JInt e) = Ok e).
Proof.
  assert (∀ e, validateExp (JInt ts) (JInt exp) = Ok e → e = exp ∧ isSafe ts = true ∧ ts < exp ≤ ts + TTL_CEILING ∧
    isSafe exp = true ∧ isSafe (exp + CLOCK_SKEW) = true) as Hval.
  { intros e. unfold validateExp, safe_int. destruct (isSafe ts) eqn:E1; [|done]. destruct (isSafe exp) eqn:E2; [|done].
    destruct (ts <? exp) eqn:E3; cbn [negb]; [|done]. destruct (ts + TTL_CEILING <? exp) eqn:E4; [done|].
    destruct (isSafe (exp + CLOCK_SKEW)) eqn:E5; [|done]. intros [= <-]. zb. split_and!; lia || done. }
  split_and!.
  - intros e. split.
    + intros (-> & ? & ? & H1%isSafe_spec & H2%isSafe_spec)%Hval. split_and!; (done || lia).
    + intros (-> & Hts & [H1 H2] & H3 & H4). unfold validateExp, safe_int. rewrite Hts.
      pose proof (proj1 (isSafe_spec ts) Hts). unfold CLOCK_SKEW in *.
      rewrite (proj2 (isSafe_spec exp)) by lia. rewrite (proj2 (Z.ltb_lt ts exp)) by lia. cbn [negb].
      rewrite (proj2 (Z.ltb_ge (ts + TTL_CEILING) exp)) by lia. by rewrite (proj2 (isSafe_spec _)) by lia.
  - intros v w x. unfold validateExp. repeat case_match; intros [= <-]; simpl; tauto.
  - intros e n (-> & _ & _ & H1 & H2)%Hval. unfold isBodyFresh, effectiveDeath, assertSafeExp, safe_int. by rewrite H1, H2.
  - intros e. unfold clampExp, safe_int. destruct (isSafe ts) eqn:E1; [|done].
    destruct (isSafe (ts + TTL_CEILING + CLOCK_SKEW)) eqn:E2; [|done]. intros [= <-]. split; [done|].
    unfold validateExp, safe_int. rewrite E1. pose proof (proj1 (isSafe_spec _) E1). pose proof (proj1 (isSafe_spec _) E2).
    unfold TTL_CEILING, CLOCK_SKEW in *. rewrite (proj2 (isSafe_spec _)) by lia. rewrite (proj2 (Z.ltb_lt _ _)) by lia.
    cbn [negb]. rewrite Z.ltb_irrefl. by rewrite E2.
Qed.

(** * Witnesses *)

Definition toy_sign (k : Z) (m : bytes) : bytes := repeat k 64.
Definition toy_pub (k : Z) : bytes := repeat k 32.
Definition toy_verify (p m s : bytes) : js_result bool := Ok (bool_decide (take 32 s = p)).
Definition toy_hash (m : bytes) : bytes := [foldr Z.add 0 m mod 256].

(** Keys are bytes here; a key's signature and its public key repeat it. *)
Definition toy_key : Z → Z := λ k, k mod 256.

Lemma toy_laws : ed25519_laws toy_verify (toy_sign ∘ toy_key) (toy_pub ∘ toy_key).
Proof.
  assert (∀ k n, Forall is_byte (repeat (toy_key k) n)) as Hb.
  { intros k n. induction n as [|n IH]; [constructor|]. constructor; [|done].
    unfold is_byte, toy_key. apply Z.mod_pos_bound. lia. }
  split_and!; intros; [|split; [apply repeat_length|apply Hb]..].
  unfold toy_verify, toy_sign, toy_pub, compose. f_equal. by apply bool_decide_eq_true.
Qed.

Definition toy_topic : json := JObject [("name", JText "cats")].
Definition toy_envelope : json :=
  match buildEnvelope toy_hash toy_sign toy_topic (JText "hello") (JNumber 7) (JNumber 1)
          (Some (own_id toy_pub 5)) true (λ _, JText "") with Ok e => e | Throw _ => JNullV end.

(** The documentation of [buildEnvelope] gives its topic as a text; [verifyEnvelope] refuses one. *)
Example text_topic_refused : ∃ e,
  buildEnvelope toy_hash toy_sign (JText "cats") (JText "hello") (JNumber 7) (JNumber 1)
    (Some (own_id toy_pub 5)) true (λ _, JText "") = Ok e ∧
  verifyEnvelope toy_hash toy_verify production (wire e) = Ok (EBad "missing_topic" false).
Proof. eexists. split; [reflexivity|]. vm_compute. reflexivity. Qed.

Lemma signed_roundtrip_witness : ∃ e,
  buildEnvelope toy_hash (toy_sign ∘ toy_key) toy_topic (JArray [JNullV; JText "x"]) (JNumber 7) (JNumber 1)
    (Some (buildAuthorIdentity (toy_pub ∘ toy_key) production 5)) true (λ _, JText "") = Ok e ∧
  verifyEnvelope toy_hash toy_verify production (wire e) = Ok (EOk true).
Proof.
  destruct (signed_roundtrip toy_hash toy_verify (toy_sign ∘ toy_key) (toy_pub ∘ toy_key) toy_laws) as (H & _).
  apply (H production) with (k := 5).
  - by right.
  - by left.
  - exists [("name", JText "cats")], "cats". split; [done|]. split; [|done].
    apply (bool_decide_unpack _). vm_compute. exact I.
  - done.
  - by exists 7.
  - by exists 1.
Defined.

Lemma verify_envelope_exact_witness :
  env_shape toy_envelope = true ∧ field toy_envelope "msgId" =
    JText (computeMsgId toy_hash (env_publisher toy_envelope true) (field toy_envelope "message")).
Proof.
  assert (verifyEnvelope toy_hash toy_verify production toy_envelope = Ok (EOk true)) as Hv by (vm_compute; reflexivity).
  destruct (verify_envelope_exact toy_hash toy_verify production toy_envelope) as (H & _).
  destruct (proj1 (H true) Hv) as (? & _ & _ & ?). by split.
Defined.

(** The finding of [signer_respelled] on a concrete envelope: one signature, two messages. *)
Definition respelled_envelope : json :=
  match toy_envelope with
  | JObject l => JObject ((λ p, if decide (p.1 = "signerPubkey") then (p.1, JText ("+5" +:+ slice_from 2 (bytesToHex (toy_pub 5))))
                              else if decide (p.1 = "msgId")
                              then (p.1, JText (computeMsgId toy_hash (JText ("+5" +:+ slice_from 2 (bytesToHex (toy_pub 5)))) (JText "hello")))
                              else p) <$> l)
  | _ => JNullV
  end.
Example two_messages_one_signature :
  verifyEnvelope toy_hash toy_verify production respelled_envelope = Ok (EOk true) ∧
  field respelled_envelope "signature" = field toy_envelope "signature" ∧
  field respelled_envelope "msgId" ≠ field toy_envelope "msgId".
Proof. split; [vm_compute; reflexivity|]. split; [reflexivity|]. vm_compute. discriminate. Qed.

Lemma validate_exp_exact_witness : effectiveDeath (JInt 90000000) = Ok 90005000.
Proof.
  destruct (validate_exp_exact 50000000 90000000) as (_ & _ & H & _).
  exact (proj1 (H 90000000 0 eq_refl)).
Defined.
