(* ===== verification/Transcripts.v ===== *)
(** Transcripts.v - the signatures over fixed byte layouts: the ingest-ack proof
    (src/src/pubsub/ackProof.js), the channel capability attestation (capAttest.js) and the
    handoff capability (handoffBinding.js).

    A field of a received frame is a [json]; a field the caller supplies is a byte array or a
    value that is first turned into a text ([barg]).  A transcript is the concatenation of
    fixed-width parts; what makes the layouts sound is that it can be read back. *)
From Stdlib Require Import Ascii.
From stdpp Require Import base tactics sets list numbers strings.
From Stdlib Require Import ZArith Lia.
From S2P Require Import Prelude HexId Canonical SignedRecords.
#[local] Open Scope Z_scope.
#[local] Set Default Proof Using "Type".

(** * Constants *)
Definition DOMAIN : bytes := utf8 "AXONA_INGEST_ACK_PROOF_V1".
Definition MSG_ID_BYTES : nat := 32.
Definition ATTEMPT_ID_BYTES : nat := 16.
Definition FLIGHT_NONCE_BYTES : nat := 16.
Definition ROOT_PUB_BYTES : nat := 32.
Definition ID_BYTES : nat := 33.
Definition SIG_BYTES : nat := 64.
Definition CAP_DOMAIN : bytes := utf8 "AXONA_CAP_ATTEST_V1".
Definition WRITE_FLIGHT_ACK_V1 : string := "write-flight-ack-v1".
Definition CAP_ID_BYTES : bytes := utf8 WRITE_FLIGHT_ACK_V1.
Definition CBV_DIGEST_BYTES : nat := 32.
Definition HANDOFF_DOMAIN : bytes := utf8 "AXONA_HANDOFF_CAP_V1".

(** * Text and bytes *)

(** [String(v)] of a value from JSON.  An own member [toString] is no function, so converting
    such an object throws. *)
Fixpoint js_String (v : json) : js_result string :=
  match v with
  | JText s => Ok s
  | JNumber z => Ok (js_int z)
  | JNotFinite => Ok "Infinity"
  | JBoolV true => Ok "true"
  | JBoolV false => Ok "false"
  | JNullV => Ok "null"
  | JUndefined => Ok "undefined"
  | JObject l => if has_key (JObject l) "toString" then Throw typeError else Ok "[object Object]"
  | JArray l =>
      s ← (fix go l := match l with
                       | [] => Ok []
                       | v :: l => s ← match v with JNullV | JUndefined => Ok "" | _ => js_String v end;
                                   r ← go l; Ok (s :: r)
                       end) l;
      Ok (join_comma s)
  end.

(** [hexToBytes(hex, n)] of ackProof.js: [None] for anything but [n] bytes of hex. *)
Definition hexBytes (n : nat) (hex : string) : option bytes :=
  if bool_decide (hex = "") || Nat.odd (String.length hex) then None
  else if negb (all_hex hex) then None
  else if negb (Nat.eqb (String.length hex / 2) n) then None
  else Some (parse_bytes hex).

(** [(x instanceof Uint8Array) ? x : hexToBytes(String(x), n)] *)
Inductive barg := Raw (b : bytes) | Val (v : json).
Definition bytes_of (n : nat) (a : barg) : js_result (option bytes) :=
  match a with
  | Raw b => Ok (if Nat.eqb (length b) n then Some b else None)
  | Val v => s ← js_String v; Ok (hexBytes n s)
  end.

(** The big-endian loop: the low byte goes last, then the rest. *)
Fixpoint be (k : nat) (v : Z) (acc : bytes) : bytes :=
  match k with
  | O => acc
  | S k => be k (Z.shiftr v 8) (Z.land v 255 :: acc)
  end.
(** [u64be], and [DataView.setUint32(0, n >>> 0, false)]. *)
Definition u64be (n : Z) : bytes := be 8 (Z.max 0 n) [].
Definition u32be (n : Z) : bytes := be 4 (n mod 2 ^ 32) [].

(** * The ingest-ack proof *)

Definition ackError (code : string) : js_error := mk_error ErrorK (Some code).
Definition isPurpose (p : json) : bool := match p with JNumber p => (p =? 1) || (p =? 2) || (p =? 3) | _ => false end.

(** [OP[op]]: the two codes, or a member every object inherits. *)
Definition OBJECT_PROTOTYPE : list string :=
  ["constructor"; "__defineGetter__"; "__defineSetter__"; "hasOwnProperty"; "__lookupGetter__"; "__lookupSetter__";
   "isPrototypeOf"; "propertyIsEnumerable"; "toString"; "valueOf"; "__proto__"; "toLocaleString"].
Inductive opcode := Op (n : Z) | Inherited.
Definition OP (k : string) : option opcode :=
  if decide (k = "pub") then Some (Op 1) else if decide (k = "kill") then Some (Op 2)
  else if bool_decide (k ∈ OBJECT_PROTOTYPE) then Some Inherited else None.
Definition OP_NAME (n : Z) : json := if n =? 1 then JText "pub" else if n =? 2 then JText "kill" else JUndefined.
Definition isOp (o : opcode) : bool := match o with Op n => (n =? 1) || (n =? 2) | Inherited => false end.

Record fields := mk_fields {
  f_purpose : json; f_op : opcode; f_topicId : barg; f_msgId : barg; f_epoch : json;
  f_attemptId : barg; f_ackTo : barg; f_flightNonce : barg; f_rootPub : barg
}.

(** One field of the transcript, or the refusal [code]. *)
Definition part (n : nat) (a : barg) (code : string) : js_result bytes :=
  o ← bytes_of n a; match o with Some b => Ok b | None => Throw (ackError code) end.
Definition byte_of (p : json) : Z := match p with JNumber n => n mod 256 | _ => 0 end.
Definition opbyte (o : opcode) : Z := match o with Op n => n mod 256 | Inherited => 0 end.

Definition buildTranscript (f : fields) : js_result bytes :=
  if negb (isPurpose (f_purpose f)) then Throw (ackError "bad_purpose")
  else if negb (isOp (f_op f)) then Throw (ackError "bad_op")
  else
    topicB ← part ID_BYTES (f_topicId f) "bad_topic";
    msgB ← part MSG_ID_BYTES (f_msgId f) "bad_msgid";
    match f_epoch f with
    | JNumber epoch =>
        if negb (isSafe epoch) || (epoch <? 0) then Throw (ackError "bad_epoch")
        else
          attB ← part ATTEMPT_ID_BYTES (f_attemptId f) "bad_attempt";
          ackB ← part ID_BYTES (f_ackTo f) "bad_ackto";
          nonceB ← part FLIGHT_NONCE_BYTES (f_flightNonce f) "bad_nonce";
          pubB ← part ROOT_PUB_BYTES (f_rootPub f) "bad_rootpub";
          Ok (DOMAIN ++ [byte_of (f_purpose f)] ++ [opbyte (f_op f)] ++ topicB ++ msgB ++ u64be epoch ++ attB ++ ackB ++
              nonceB ++ pubB)
    | _ => Throw (ackError "bad_epoch")
    end.

(** The text a frame carries for a field; [low] where the code lower-cases it. *)
Definition frame_text (low : bool) (a : barg) : js_result json :=
  match a with
  | Raw b => Ok (JText (bytesToHex b))
  | Val v => s ← js_String v; Ok (JText (if low then lc s else s))
  end.

(** [??] with an empty text. *)
Definition or_empty (v : json) : json := if nullish v then JText "" else v.

Inductive averdict := AOk (f : list (string * json)) (rootPub : bytes) | ABad (reason : string).

Section crypto.
Context (sha256 : bytes → bytes) (ed_verify : bytes → bytes → bytes → js_result bool).

(** [signAckProof]: [sign] is the node's signer. *)
Definition signAckProof (sign : bytes → bytes) (f : fields) : js_result json :=
  transcript ← buildTranscript f;
  let sig := sign transcript in
  if negb (Nat.eqb (length sig) SIG_BYTES) then Throw (ackError "bad_sig_len")
  else
    topicId ← frame_text true (f_topicId f);
    msgId ← frame_text false (f_msgId f);
    attemptId ← frame_text true (f_attemptId f);
    ackTo ← frame_text true (f_ackTo f);
    flightNonce ← frame_text true (f_flightNonce f);
    rootPub ← frame_text true (f_rootPub f);
    Ok (JObject [("purpose", f_purpose f); ("op", match f_op f with Op n => OP_NAME n | Inherited => JUndefined end);
                 ("topicId", topicId); ("msgId", msgId); ("epoch", f_epoch f); ("attemptId", attemptId);
                 ("ackTo", ackTo); ("flightNonce", flightNonce); ("rootPub", rootPub); ("sig", JText (bytesToHex sig))]).

Definition frame_fields (frame : json) (op : opcode) (rootPub : bytes) : fields :=
  mk_fields (field frame "purpose") op (Val (field frame "topicId")) (Val (field frame "msgId")) (field frame "epoch")
    (Val (field frame "attemptId")) (Val (field frame "ackTo")) (Val (field frame "flightNonce")) (Raw rootPub).

(** [verifyAckProof]: it throws only where the operation, the signature or the key of the
    frame is an object that cannot be converted to a text. *)
Definition verifyAckProof (frame : json) : js_result averdict :=
  if negb (is_object frame) then Ok (ABad "no_frame")
  else
    opk ← js_String (field frame "op");
    match OP opk with
    | None => Ok (ABad "bad_op")
    | Some op =>
        if negb (isPurpose (field frame "purpose")) then Ok (ABad "bad_purpose")
        else
          sigs ← js_String (or_empty (field frame "sig"));
          match hexBytes SIG_BYTES sigs with
          | None => Ok (ABad "bad_sig_len")
          | Some sig =>
              pubs ← js_String (or_empty (field frame "rootPub"));
              match hexBytes ROOT_PUB_BYTES pubs with
              | None => Ok (ABad "bad_rootpub")
              | Some rootPub =>
                  match buildTranscript (frame_fields frame op rootPub) with
                  | Throw e => Ok (ABad (default "bad_transcript" (err_code e)))
                  | Ok transcript =>
                      match ed_verify rootPub transcript sig with
                      | Throw _ => Ok (ABad "verify_threw")
                      | Ok false => Ok (ABad "bad_signature")
                      | Ok true =>
                          topicId ← frame_text true (Val (field frame "topicId"));
                          msgId ← frame_text false (Val (field frame "msgId"));
                          attemptId ← frame_text true (Val (field frame "attemptId"));
                          ackTo ← frame_text true (Val (field frame "ackTo"));
                          flightNonce ← frame_text true (Val (field frame "flightNonce"));
                          Ok (AOk [("purpose", field frame "purpose"); ("op", field frame "op"); ("topicId", topicId);
                                   ("msgId", msgId); ("epoch", field frame "epoch"); ("attemptId", attemptId);
                                   ("ackTo", ackTo); ("flightNonce", flightNonce)] rootPub)
                      end
                  end
              end
          end
    end.

(** [rootPubMatchesNodeHash]: the hash bits of the expected id are those of the key. *)
Definition rootPubMatchesNodeHash (ks : keyspace) (rootPub : bytes) (expectedRootBig : Z) : bool :=
  if negb (Nat.eqb (length rootPub) ROOT_PUB_BYTES) then false
  else match parseHex (bytesToHex (sha256 rootPub)) with
       | Some n => Z.land n (HASH_MASK ks) =? Z.land expectedRootBig (HASH_MASK ks)
       | None => false
       end.

(** * The capability attestation *)

Definition cbvDigest (cbvString : json) : js_result bytes :=
  match cbvString with
  | JText s => if bool_decide (s = "") then Throw (ackError "bad_cbv") else Ok (sha256 (utf8 s))
  | _ => Throw (ackError "bad_cbv")
  end.

Definition buildCapTranscript (nodeId : barg) (digest : bytes) : js_result bytes :=
  nodeB ← part ID_BYTES nodeId "bad_nodeid";
  if negb (Nat.eqb (length digest) CBV_DIGEST_BYTES) then Throw (ackError "bad_digest")
  else Ok (CAP_DOMAIN ++ [Z.of_nat (length CAP_ID_BYTES)] ++ CAP_ID_BYTES ++ nodeB ++ digest).

Definition signCapAttest (sign : bytes → bytes) (nodeId : barg) (cbvString : json) : js_result json :=
  digest ← cbvDigest cbvString;
  transcript ← buildCapTranscript nodeId digest;
  let sig := sign transcript in
  if negb (Nat.eqb (length sig) SIG_BYTES) then Throw (ackError "bad_sig_len")
  else
    n ← frame_text true nodeId;
    Ok (JObject [("capId", JText WRITE_FLIGHT_ACK_V1); ("nodeId", n); ("sig", JText (bytesToHex sig))]).

Inductive capverdict := CapOk (capId nodeId : string) | CapBad (reason : string).

(** [verifyCapAttest]: [peerKey], [expectedNodeId] and [cbvString] are the verifier's own. *)
Definition verifyCapAttest (frame : json) (peerKey : option bytes) (expectedNodeId : option string) (cbvString : json)
    : js_result capverdict :=
  if negb (is_object frame) then Ok (CapBad "no_frame")
  else if negb (text_is (field frame "capId") WRITE_FLIGHT_ACK_V1) then Ok (CapBad "bad_capid")
  else match peerKey with
  | None => Ok (CapBad "no_peer_key")
  | Some key =>
      match expectedNodeId with
      | None => Ok (CapBad "no_expected_nodeid")
      | Some expected =>
          if bool_decide (expected = "") then Ok (CapBad "no_expected_nodeid")
          else if negb match field frame "nodeId" with JText n => bool_decide (lc n = lc expected) | _ => false end
          then Ok (CapBad "nodeid_mismatch")
          else
            sigs ← js_String (or_empty (field frame "sig"));
            match hexBytes SIG_BYTES sigs with
            | None => Ok (CapBad "bad_sig_len")
            | Some sig =>
                match digest ← cbvDigest cbvString; buildCapTranscript (Val (JText expected)) digest with
                | Throw e => Ok (CapBad (default "bad_transcript" (err_code e)))
                | Ok transcript =>
                    match ed_verify key transcript sig with
                    | Throw _ => Ok (CapBad "verify_threw")
                    | Ok false => Ok (CapBad "bad_signature")
                    | Ok true => Ok (CapOk WRITE_FLIGHT_ACK_V1 (lc expected))
                    end
                end
            end
      end
  end.

(** * The texts a transport signs *)

(** The hello's transcript (handshake-auth.js), and that of a presence record (dht/presence.js). *)
Definition hello_core (proto nodeId pubkey cbv : string) : list (string * json) :=
  [("proto", JText proto); ("nodeId", JText nodeId); ("pubkey", JText pubkey); ("cbv", JText cbv)].
Definition transcriptBytes (proto nodeId pubkey cbv : string) : bytes :=
  utf8 (canonical (JObject (hello_core proto nodeId pubkey cbv))).

Definition PRESENCE_PROTO : string := "axona/presence/1".
Definition presence_core (nodeId pubkey : string) (gen : Z) (nonce : string) : list (string * json) :=
  [("proto", JText PRESENCE_PROTO); ("nodeId", JText nodeId); ("pubkey", JText pubkey); ("gen", JNumber gen); ("nonce", JText nonce)].
Definition presenceBytes (nodeId pubkey : string) (gen : Z) (nonce : string) : bytes :=
  utf8 (canonical (JObject (presence_core nodeId pubkey gen nonce))).

(** * The handoff capability *)

Definition handoffTranscript (topicId corr loser winner : string) (loserEpoch : Z) : js_result bytes :=
  let c := utf8 corr in
  if Nat.eqb (length c) 0 || Nat.ltb 255 (length c) then Throw plainError
  else match hexBytes ID_BYTES (lc topicId), hexBytes ID_BYTES (lc loser), hexBytes ID_BYTES (lc winner) with
  | Some t, Some l, Some w =>
      Ok (HANDOFF_DOMAIN ++ [Z.of_nat (length c)] ++ c ++ t ++ l ++ w ++ u32be loserEpoch)
  | _, _, _ => Throw plainError
  end.

(** [_signHandoff]: the two fields of an offer, or nothing. *)
Definition signHandoff (id : option (bytes * (bytes → bytes))) (topicId corr loser winnerHex : string) (loserEpoch : Z)
    : option (string * string) :=
  match id with
  | None => None
  | Some (pubkey, sign) =>
      match handoffTranscript topicId corr loser winnerHex (to_int32 loserEpoch) with
      | Throw _ => None
      | Ok t => let sig := sign t in
                if Nat.eqb (length sig) SIG_BYTES then Some (bytesToHex sig, bytesToHex pubkey) else None
      end
  end.

(** [/^[0-9a-f]{n}$/] *)
Definition lower_hex_of (n : Z) (s : string) : bool := (strlen s =? n) && all_lower_hex s.

(** [_verifyHandoff]: everything runs in a [try] whose [catch] answers false. *)
Definition verifyHandoff (ks : keyspace) (self : Z) (payload : json) (loserHex : string) : bool :=
  match field payload "handoff", field payload "handoffSig", field payload "handoffPub" with
  | JNumber 1, JText sigHex, JText pubHex =>
      if negb (lower_hex_of 128 sigHex) || negb (lower_hex_of 64 pubHex) || negb (ids_isHexId loserHex) then false
      else match hexBytes ROOT_PUB_BYTES pubHex, catch (asId ks (JStr loserHex)) with
      | Some pub, Some loserBig =>
          if negb (rootPubMatchesNodeHash ks pub loserBig) then false
          else
            let epoch := match field payload "loserEpoch" with JNumber e => e | _ => 0 end in
            match topicId ← js_String (field payload "topicId"); corr ← js_String (field payload "corr");
                  handoffTranscript topicId corr loserHex (lc (idHex self)) epoch with
            | Throw _ => false
            | Ok t => match hexBytes SIG_BYTES sigHex with
                      | Some sig => match ed_verify pub t sig with Ok b => b | Throw _ => false end
                      | None => false
                      end
            end
      | _, _ => false
      end
  | _, _, _ => false
  end.
End crypto.

(** * Reading a transcript back *)

Lemma be_length k v acc : length (be k v acc) = (k + length acc)%nat.
Proof. revert v acc. induction k as [|k IH]; intros; [done|]. cbn [be]. rewrite IH. cbn [length]. lia. Qed.

Lemma be_inj k v w acc acc' : 0 ≤ v < 256 ^ Z.of_nat k → 0 ≤ w < 256 ^ Z.of_nat k → length acc = length acc' →
  be k v acc = be k w acc' → v = w ∧ acc = acc'.
Proof.
  revert v w acc acc'. induction k as [|k IH]; intros v w acc acc' Hv Hw Hl; [cbn [be]; intros ->; split; [simpl in *; lia|done]|].
  cbn [be]. intros H. rewrite Nat2Z.inj_succ, Z.pow_succ_r in Hv, Hw by lia.
  assert (∀ x, 0 ≤ x < 256 * 256 ^ Z.of_nat k → 0 ≤ Z.shiftr x 8 < 256 ^ Z.of_nat k) as Hs.
  { intros x Hx. rewrite Z.shiftr_div_pow2 by lia. change (2 ^ 8) with 256. split; [apply Z.div_pos; lia|].
    apply Z.div_lt_upper_bound; lia. }
  destruct (IH _ _ (Z.land v 255 :: acc) (Z.land w 255 :: acc') (Hs v Hv) (Hs w Hw) (f_equal S Hl) H) as [E [= E' ->]].
  split; [|done].
  rewrite !Z.shiftr_div_pow2 in E by lia. change 255 with (Z.ones 8) in E'. rewrite !Z.land_ones in E' by lia.
  change (2 ^ 8) with 256 in *. rewrite (Z.div_mod v 256), (Z.div_mod w 256) by lia. congruence.
Qed.

Lemma u64be_inj a b : 0 ≤ a < 2 ^ 64 → 0 ≤ b < 2 ^ 64 → u64be a = u64be b → a = b.
Proof.
  intros Ha Hb H. unfold u64be in H. rewrite !Z.max_r in H by lia. by apply be_inj in H as [? _].
Qed.
Lemma u32be_inj a b : u32be a = u32be b → a mod 2 ^ 32 = b mod 2 ^ 32.
Proof.
  intros H. by destruct (be_inj 4 (a mod 2 ^ 32) (b mod 2 ^ 32) [] [] (Z.mod_pos_bound _ (2 ^ 32) eq_refl)
    (Z.mod_pos_bound _ (2 ^ 32) eq_refl) eq_refl H) as [? _].
Qed.

Lemma parse_bytes_length s : length (parse_bytes s) = (String.length s / 2)%nat.
Proof.
  assert (∀ n s, (String.length s < n)%nat → length (parse_bytes s) = (String.length s / 2)%nat) as H
    ; [|apply (H (S (String.length s))); lia].
  intros n. induction n as [|n IH]; intros [|a [|b s']] Hn; cbn [String.length] in *; try lia; try done.
  cbn [parse_bytes length]. rewrite IH by lia. change (S (S (String.length s'))) with (2 + String.length s')%nat.
  replace (2 + String.length s')%nat with (1 * 2 + String.length s')%nat by lia. rewrite Nat.div_add_l by lia. lia.
Qed.

Lemma hexBytes_length n s b : hexBytes n s = Some b → length b = n.
Proof.
  unfold hexBytes. destruct (_ || _); [done|]. destruct (all_hex s); [|done]. cbn [negb].
  destruct (Nat.eqb_spec (String.length s / 2) n); [|done]. cbn [negb]. intros [= <-]. by rewrite parse_bytes_length.
Qed.

Lemma part_Ok n a code b : part n a code = Ok b → bytes_of n a = Ok (Some b) ∧ length b = n.
Proof.
  unfold part. destruct (bytes_of n a) as [[b'|]|] eqn:E; simpl; [|done..]. intros [= ->]. split; [done|].
  destruct a as [r|v]; simpl in E.
  - destruct (Nat.eqb_spec (length r) n); [|done]. by injection E as ->.
  - destruct (js_String v) as [s|]; simpl in E; [|done]. injection E as E. by eapply hexBytes_length.
Qed.

(** What a transcript was built from. *)
Record ack_parts (f : fields) (t : bytes) (p o e : Z) (tp m at_ ac no pu : bytes) : Prop := {
  ap_purpose : f_purpose f = JNumber p ∧ 1 ≤ p ≤ 3;
  ap_op : f_op f = Op o ∧ 1 ≤ o ≤ 2;
  ap_epoch : f_epoch f = JNumber e ∧ 0 ≤ e < 2 ^ 64;
  ap_topic : bytes_of ID_BYTES (f_topicId f) = Ok (Some tp) ∧ length tp = ID_BYTES;
  ap_msg : bytes_of MSG_ID_BYTES (f_msgId f) = Ok (Some m) ∧ length m = MSG_ID_BYTES;
  ap_attempt : bytes_of ATTEMPT_ID_BYTES (f_attemptId f) = Ok (Some at_) ∧ length at_ = ATTEMPT_ID_BYTES;
  ap_ackTo : bytes_of ID_BYTES (f_ackTo f) = Ok (Some ac) ∧ length ac = ID_BYTES;
  ap_nonce : bytes_of FLIGHT_NONCE_BYTES (f_flightNonce f) = Ok (Some no) ∧ length no = FLIGHT_NONCE_BYTES;
  ap_pub : bytes_of ROOT_PUB_BYTES (f_rootPub f) = Ok (Some pu) ∧ length pu = ROOT_PUB_BYTES;
  ap_bytes : t = DOMAIN ++ [p] ++ [o] ++ tp ++ m ++ u64be e ++ at_ ++ ac ++ no ++ pu
}.

Lemma purpose_range v : isPurpose v = true → ∃ p, v = JNumber p ∧ 1 ≤ p ≤ 3.
Proof. destruct v; try done. simpl. rewrite !orb_true_iff, !Z.eqb_eq. intros. eexists. split; [done|lia]. Qed.
Lemma op_range o : isOp o = true → ∃ n, o = Op n ∧ 1 ≤ n ≤ 2.
Proof. destruct o; try done. simpl. rewrite !orb_true_iff, !Z.eqb_eq. intros. eexists. split; [done|lia]. Qed.

(** A bind that succeeded. *)
Lemma bind_Ok {A B} (x : js_result A) (f : A → js_result B) b : x ≫= f = Ok b → ∃ a, x = Ok a ∧ f a = Ok b.
Proof. destruct x as [a|]; simpl; [|done]. by exists a. Qed.

Lemma buildTranscript_parts f t : buildTranscript f = Ok t →
  ∃ p o e tp m at_ ac no pu, ack_parts f t p o e tp m at_ ac no pu.
Proof.
  unfold buildTranscript. destruct (isPurpose (f_purpose f)) eqn:Ep; cbn [negb]; [|done].
  destruct (isOp (f_op f)) eqn:Eo; cbn [negb]; [|done].
  destruct (purpose_range _ Ep) as (p & Hp & Hp'), (op_range _ Eo) as (o & Ho & Ho').
  intros (tp & Htp%part_Ok & H)%bind_Ok. apply bind_Ok in H as (m & Hm%part_Ok & H).
  destruct (f_epoch f) as [| | |e| | | |] eqn:Ee; try done.
  destruct (negb (isSafe e) || (e <? 0)) eqn:Es; [done|]. apply orb_false_iff in Es as [Es1 Es2]. zb.
  apply isSafe_spec in Es1.
  apply bind_Ok in H as (at_ & Hat%part_Ok & H). apply bind_Ok in H as (ac & Hac%part_Ok & H).
  apply bind_Ok in H as (no & Hno%part_Ok & H). apply bind_Ok in H as (pu & Hpu%part_Ok & H). injection H as <-.
  exists p, o, e, tp, m, at_, ac, no, pu. split; try done; [split; [done|lia]|]. rewrite Hp, Ho.
  cbn [byte_of opbyte]. by rewrite !Z.mod_small by lia.
Qed.

Lemma utf8_inj a b : utf8 a = utf8 b → a = b.
Proof.
  intros H. rewrite <-(String.string_of_list_ascii_of_string a), <-(String.string_of_list_ascii_of_string b). f_equal.
  unfold utf8 in H. revert H. generalize (String.list_ascii_of_string a), (String.list_ascii_of_string b).
  intros l. induction l as [|x l IH]; intros [|y l']; try done. cbn [fmap list_fmap]. intros [= Hxy%Nat2Z.inj Hl].
  f_equal; [|by apply IH]. by rewrite <-(ascii_nat_embedding x), <-(ascii_nat_embedding y), Hxy.
Qed.

(** Two concatenations with first parts of one length. *)
Lemma split_app {A} (l l' r r' : list A) : l ++ r = l' ++ r' → length l = length l' → l = l' ∧ r = r'.
Proof. intros H Hl. by apply app_inj_1. Qed.
Ltac split_part H := apply split_app in H as [? H]; [|congruence || (rewrite !be_length; reflexivity)].

Lemma ack_parts_inj f g t p o e tp m a ac no pu p' o' e' tp' m' a' ac' no' pu' :
  ack_parts f t p o e tp m a ac no pu → ack_parts g t p' o' e' tp' m' a' ac' no' pu' →
  p = p' ∧ o = o' ∧ e = e' ∧ tp = tp' ∧ m = m' ∧ a = a' ∧ ac = ac' ∧ no = no' ∧ pu = pu'.
Proof.
  intros [_ _ [_ He] [_ L1] [_ L2] [_ L3] [_ L4] [_ L5] _ Ht] [_ _ [_ He'] [_ L1'] [_ L2'] [_ L3'] [_ L4'] [_ L5'] _ Ht'].
  rewrite Ht' in Ht. apply app_inv_head in Ht. apply split_app in Ht as [[= Hp] Ht]; [|done].
  apply split_app in Ht as [[= Ho] H]; [|done]. apply split_app in H as [Ha1 H]; [|congruence]. apply split_app in H as [Ha2 H]; [|congruence].
  apply split_app in H as [Ha3 H]; [|unfold u64be; by rewrite !be_length].
  apply split_app in H as [Ha4 H]; [|congruence]. apply split_app in H as [Ha5 H]; [|congruence].
  apply split_app in H as [Ha6 H]; [|congruence]. apply u64be_inj in Ha3; [|lia..]. by subst.
Qed.

(** ** The texts of the transport: the hello of a channel and the presence record *)

Lemma transcript_inj p n k c p' n' k' c' : transcriptBytes p n k c = transcriptBytes p' n' k' c' →
  p = p' ∧ n = n' ∧ k = k' ∧ c = c'.
Proof.
  intros H%utf8_inj. assert (∀ x, wired (hello_core p n k c) x = wired (hello_core p' n' k' c') x) as Hw.
  { intros x. apply canonical_wired; [apply (bool_decide_unpack _); vm_compute; exact I..|exact H]. }
  read_at Hw "proto"; read_at Hw "nodeId"; read_at Hw "pubkey"; read_at Hw "cbv". unfold seen. simpl.
  intros; simplify_eq. done.
Qed.

Lemma presence_inj n k g c n' k' g' c' : presenceBytes n k g c = presenceBytes n' k' g' c' →
  n = n' ∧ k = k' ∧ g = g' ∧ c = c'.
Proof.
  intros H%utf8_inj. assert (∀ x, wired (presence_core n k g c) x = wired (presence_core n' k' g' c') x) as Hw.
  { intros x. apply canonical_wired; [apply (bool_decide_unpack _); vm_compute; exact I..|exact H]. }
  read_at Hw "nodeId"; read_at Hw "pubkey"; read_at Hw "gen"; read_at Hw "nonce". unfold seen. simpl.
  intros; simplify_eq. done.
Qed.

(** No record of the plane has the key [proto], and a presence record has no [cbv]. *)
Lemma record_no_proto s : wired (core_of s) "proto" = None.
Proof.
  destruct s; cbn [core_of envelope_core point_core unpub_core class_core operator_core msgid_core msgid_v2_core app];
    read_member; done.
Qed.
Lemma record_apart s l : NoDup l.*1 → is_Some (wired l "proto") → utf8 (signed_text s) ≠ utf8 (canonical (JObject l)).
Proof.
  intros Hl [v Hv] H%utf8_inj. unfold signed_text in H.
  rewrite <- (canonical_wired (core_of s) l "proto"), record_no_proto in Hv; [done|apply core_NoDup|done|exact H].
Qed.
Lemma hello_apart s p n k c : utf8 (signed_text s) ≠ transcriptBytes p n k c.
Proof. apply record_apart; [apply (bool_decide_unpack _); vm_compute; exact I|]. cbn [hello_core]. read_member. by eexists. Qed.
Lemma presence_apart s n k g c : utf8 (signed_text s) ≠ presenceBytes n k g c.
Proof. apply record_apart; [apply (bool_decide_unpack _); vm_compute; exact I|]. unfold presence_core. read_member. by eexists. Qed.
Lemma hello_presence_apart p n k c n' k' g c' : transcriptBytes p n k c ≠ presenceBytes n' k' g c'.
Proof.
  intros H%utf8_inj. assert (wired (hello_core p n k c) "cbv" = wired (presence_core n' k' g c') "cbv") as Hw.
  { apply canonical_wired; [apply (bool_decide_unpack _); vm_compute; exact I..|exact H]. }
  revert Hw. unfold hello_core, presence_core. read_member. done.
Qed.

Section layouts.
Context (sha256 : bytes → bytes).

(** Everything a node signs for another to read. *)
Inductive layout :=
| LAck (f : fields)
| LCap (nodeId : barg) (digest : bytes)
| LHandoff (topicId corr loser winner : string) (loserEpoch : Z)
| LJson (s : signable)
| LHello (proto nodeId pubkey cbv : string)
| LPresence (nodeId pubkey : string) (gen : Z) (nonce : string).
Definition layout_bytes (l : layout) : js_result bytes :=
  match l with
  | LAck f => buildTranscript f
  | LCap n d => buildCapTranscript n d
  | LHandoff t c l w e => handoffTranscript t c l w e
  | LJson s => Ok (utf8 (signed_text s))
  | LHello p n k c => Ok (transcriptBytes p n k c)
  | LPresence n k g c => Ok (presenceBytes n k g c)
  end.

(** Equal up to the spelling of the byte fields. *)
Definition same_layout (l l' : layout) : Prop :=
  match l, l' with
  | LAck f, LAck g =>
      f_purpose f = f_purpose g ∧ f_op f = f_op g ∧ f_epoch f = f_epoch g ∧
      bytes_of ID_BYTES (f_topicId f) = bytes_of ID_BYTES (f_topicId g) ∧
      bytes_of MSG_ID_BYTES (f_msgId f) = bytes_of MSG_ID_BYTES (f_msgId g) ∧
      bytes_of ATTEMPT_ID_BYTES (f_attemptId f) = bytes_of ATTEMPT_ID_BYTES (f_attemptId g) ∧
      bytes_of ID_BYTES (f_ackTo f) = bytes_of ID_BYTES (f_ackTo g) ∧
      bytes_of FLIGHT_NONCE_BYTES (f_flightNonce f) = bytes_of FLIGHT_NONCE_BYTES (f_flightNonce g) ∧
      bytes_of ROOT_PUB_BYTES (f_rootPub f) = bytes_of ROOT_PUB_BYTES (f_rootPub g)
  | LCap n d, LCap n' d' => bytes_of ID_BYTES n = bytes_of ID_BYTES n' ∧ d = d'
  | LHandoff t c l w e, LHandoff t' c' l' w' e' =>
      c = c' ∧ hexBytes ID_BYTES (lc t) = hexBytes ID_BYTES (lc t') ∧ hexBytes ID_BYTES (lc l) = hexBytes ID_BYTES (lc l') ∧
      hexBytes ID_BYTES (lc w) = hexBytes ID_BYTES (lc w') ∧ e mod 2 ^ 32 = e' mod 2 ^ 32
  | LJson s, LJson s' => view_of s = view_of s'
  | LHello p n k c, LHello p' n' k' c' => p = p' ∧ n = n' ∧ k = k' ∧ c = c'
  | LPresence n k g c, LPresence n' k' g' c' => n = n' ∧ k = k' ∧ g = g' ∧ c = c'
  | _, _ => False
  end.

Lemma cap_inj n d n' d' t : buildCapTranscript n d = Ok t → buildCapTranscript n' d' = Ok t → same_layout (LCap n d) (LCap n' d').
Proof.
  unfold buildCapTranscript. intros (b & [Hb L]%part_Ok & H)%bind_Ok (b' & [Hb' L']%part_Ok & H')%bind_Ok.
  destruct (negb (length d =? _)%nat), (negb (length d' =? _)%nat); try done. injection H as <-. injection H' as H'.
  apply split_app in H' as [E ->]; [|congruence]. simpl. by rewrite Hb, Hb', E.
Qed.

Lemma handoff_inv t c l w e b : handoffTranscript t c l w e = Ok b → ∃ bt bl bw,
  hexBytes ID_BYTES (lc t) = Some bt ∧ hexBytes ID_BYTES (lc l) = Some bl ∧ hexBytes ID_BYTES (lc w) = Some bw ∧
  b = HANDOFF_DOMAIN ++ [Z.of_nat (length (utf8 c))] ++ utf8 c ++ bt ++ bl ++ bw ++ u32be e.
Proof.
  unfold handoffTranscript. destruct (_ || _); [done|].
  destruct (hexBytes ID_BYTES (lc t)) as [bt|], (hexBytes ID_BYTES (lc l)) as [bl|], (hexBytes ID_BYTES (lc w)) as [bw|]; try done.
  intros [= <-]. by exists bt, bl, bw.
Qed.

Lemma handoff_inj t c l w e t' c' l' w' e' b : handoffTranscript t c l w e = Ok b → handoffTranscript t' c' l' w' e' = Ok b →
  same_layout (LHandoff t c l w e) (LHandoff t' c' l' w' e').
Proof.
  intros (bt & bl & bw & Ht & Hl & Hw & ->)%handoff_inv (bt' & bl' & bw' & Ht' & Hl' & Hw' & H)%handoff_inv.
  pose proof (hexBytes_length _ _ _ Ht). pose proof (hexBytes_length _ _ _ Hl). pose proof (hexBytes_length _ _ _ Hw).
  pose proof (hexBytes_length _ _ _ Ht'). pose proof (hexBytes_length _ _ _ Hl'). pose proof (hexBytes_length _ _ _ Hw').
  apply app_inv_head in H. apply split_app in H as [[= Hc] H]; [|done]. apply Nat2Z.inj in Hc.
  apply split_app in H as [E%utf8_inj H]; [|done].
  apply split_app in H as [E1 H]; [|congruence]. apply split_app in H as [E2 H]; [|congruence].
  apply split_app in H as [E3 H]; [|congruence]. apply u32be_inj in H. simpl. by rewrite Ht, Hl, Hw, Ht', Hl', Hw', E1, E2, E3.
Qed.

Lemma ack_inj f g t : buildTranscript f = Ok t → buildTranscript g = Ok t → same_layout (LAck f) (LAck g).
Proof.
  intros (p & o & e & tp & m & a & ac & no & pu & A)%buildTranscript_parts (p' & o' & e' & tp' & m' & a' & ac' & no' & pu' & B)%buildTranscript_parts.
  destruct (ack_parts_inj _ _ _ _ _ _ _ _ _ _ _ _ _ _ _ _ _ _ _ _ _ A B) as (-> & -> & -> & -> & -> & -> & -> & -> & ->).
  destruct A as [[]  [] [] [] [] [] [] [] [] _], B as [[] [] [] [] [] [] [] [] [] _]. simpl. split_and!; congruence.
Qed.

(** The seventh byte tells the layouts apart, the first one an object's text. *)
Lemma layout_tag l t : layout_bytes l = Ok t →
  match l with
  | LAck _ => t !! 0%nat = Some 65 ∧ t !! 6%nat = Some 73
  | LCap _ _ => t !! 0%nat = Some 65 ∧ t !! 6%nat = Some 67
  | LHandoff _ _ _ _ _ => t !! 0%nat = Some 65 ∧ t !! 6%nat = Some 72
  | LJson _ | LHello _ _ _ _ | LPresence _ _ _ _ => t !! 0%nat = Some 123
  end.
Proof.
  destruct l as [f|n d|tp c l w e|s|p n k c|n k g c]; cbn [layout_bytes].
  - intros (p & o & e & tp & m & a & ac & no & pu & A)%buildTranscript_parts. by rewrite (ap_bytes _ _ _ _ _ _ _ _ _ _ _ A).
  - unfold buildCapTranscript. intros (b & _ & H)%bind_Ok. destruct (negb _); [done|]. by injection H as <-.
  - by intros (bt & bl & bw & _ & _ & _ & ->)%handoff_inv.
  - intros [= <-]. unfold signed_text. by rewrite canonical_object.
  - intros [= <-]. unfold transcriptBytes. by rewrite canonical_object.
  - intros [= <-]. unfold presenceBytes. by rewrite canonical_object.
Qed.

(** C40. One signature, one meaning: over all that a node signs for others - ack proofs of three
    purposes and two operations, capability attestations, handoff claims, the canonical JSON
    records of the plane, the hello of a channel and the presence record - two objects with the
    same signed bytes are of the same kind and equal in every field that is signed: byte fields as
    the bytes they decode to, the loser's epoch of a handoff modulo 2^32, the JSON values of a
    record, where numbers are integers, as the wire shows them. So no signature made for one
    purpose, channel, round, topic or record is one for another. *)
Theorem signatures_unambiguous l l' t : layout_bytes l = Ok t → layout_bytes l' = Ok t → same_layout l l'.
Proof.
  intros H H'. pose proof (layout_tag l t H) as T. pose proof (layout_tag l' t H') as T'.
  destruct l as [f|n d|tp c a w e|s|p n k c|n k g c], l' as [f'|n' d'|tp' c' a' w' e'|s'|p' n' k' c'|n' k' g' c'];
    cbn [layout_bytes] in *;
    try (exfalso; clear H H'; repeat match goal with X : _ ∧ _ |- _ => destruct X end; congruence).
  - by eapply ack_inj.
  - by eapply cap_inj.
  - by eapply handoff_inj.
  - simpl. apply signed_text_view, utf8_inj. congruence.
  - exfalso. apply (hello_apart s p' n' k' c'). congruence.
  - exfalso. apply (presence_apart s n' k' g' c'). congruence.
  - exfalso. apply (hello_apart s' p n k c). congruence.
  - apply transcript_inj. congruence.
  - exfalso. apply (hello_presence_apart p n k c n' k' g' c'). congruence.
  - exfalso. apply (presence_apart s' n k g c). congruence.
  - exfalso. apply (hello_presence_apart p' n' k' c' n k g c). congruence.
  - apply presence_inj. congruence.
Qed.
End layouts.

(** * Signing and verifying *)

Lemma hex_val_lc c : hex_val (lower_ascii c) = hex_val c.
Proof. by destruct c as [[] [] [] [] [] [] [] []]. Qed.

Lemma all_hex_lc s : all_hex (lc s) = all_hex s.
Proof.
  unfold all_hex. destruct s as [|c s]; [done|]. unfold parseHex. cbn [lc].
  assert (∀ s z, hex_fold (lc s) z = hex_fold s z) as E.
  { clear. intros s. induction s as [|c s IH]; intros z; [done|]. cbn [lc hex_fold]. rewrite hex_val_lc.
    destruct (hex_val c); [apply IH|done]. }
  change (String (lower_ascii c) (lc s)) with (lc (String c s)). by rewrite E.
Qed.

Lemma parse_byte_hex a b x y : hex_val a = Some x → hex_val b = Some y → parse_byte a b = 16 * x + y.
Proof.
  intros Ha Hb. unfold parse_byte. rewrite Ha, Hb. rewrite (bool_decide_eq_false_2 (b = "x"%char ∨ b = "X"%char)).
  - by rewrite andb_false_r.
  - intros [-> | ->]; by vm_compute in Hb.
Qed.

Lemma hex_fold_all s z : is_Some (hex_fold s z) → ∀ c, c ∈ String.list_ascii_of_string s → is_Some (hex_val c).
Proof.
  revert z. induction s as [|x s IH]; intros z; simpl; [set_solver|]. destruct (hex_val x) as [d|] eqn:E; [|by intros [? ?]].
  intros H c [->|Hc]%elem_of_cons; [by rewrite E|by eapply IH].
Qed.

Lemma parse_bytes_lc s : (∀ c, c ∈ String.list_ascii_of_string s → is_Some (hex_val c)) → parse_bytes (lc s) = parse_bytes s.
Proof.
  assert (∀ n s, (String.length s < n)%nat → (∀ c, c ∈ String.list_ascii_of_string s → is_Some (hex_val c)) →
    parse_bytes (lc s) = parse_bytes s) as H; [|apply (H (S (String.length s))); lia].
  clear s. intros n. induction n as [|n IH]; intros [|a [|b s]] Hn Hc; try done; simpl in Hn; [lia|].
  cbn [lc parse_bytes]. rewrite IH by (first [lia|intros c Hin; apply Hc; by do 2 right]).
  destruct (Hc a ltac:(by left)) as [x Hx], (Hc b ltac:(right; by left)) as [y Hy].
  rewrite (parse_byte_hex a b x y Hx Hy). by rewrite (parse_byte_hex _ _ x y) by (by rewrite hex_val_lc).
Qed.

Lemma hexBytes_lc n s : hexBytes n (lc s) = hexBytes n s.
Proof.
  unfold hexBytes. rewrite length_lc, all_hex_lc.
  replace (bool_decide (lc s = "")) with (bool_decide (s = "")) by (destruct s; done).
  destruct (_ || _); [done|]. destruct (all_hex s) eqn:E; [|done]. destruct (negb (_ =? _)%nat); [done|]. cbn [negb]. f_equal.
  apply parse_bytes_lc. unfold all_hex, parseHex in E. destruct s as [|c s]; [set_solver|].
  eapply hex_fold_all with (z := 0). destruct (hex_fold (String c s) 0); [by eexists|done].
Qed.

Lemma all_hex_bytes l : l ≠ [] → Forall is_byte l → all_hex (bytesToHex l) = true.
Proof.
  intros Hne Hl. unfold all_hex, parseHex.
  assert (∀ l z, Forall is_byte l → is_Some (hex_fold (bytesToHex l) z)) as H.
  { clear. induction l as [|b l IH]; intros z; [by eexists|]. intros [Hb Hl]%Forall_cons. cbn [bytesToHex].
    assert (∀ z, ∃ z', hex_fold (byte_hex b +:+ bytesToHex l) z = hex_fold (bytesToHex l) z') as Hz.
    { clear z. intros z. assert (b ∈ seqZ 0 256) as Hin by (apply elem_of_seqZ; unfold is_byte in *; lia).
      assert (forallb (λ b, match byte_hex b with
                String x (String y "") => match hex_val x, hex_val y with Some _, Some _ => true | _, _ => false end
              | _ => false end) (seqZ 0 256) = true) as Hall by (vm_compute; reflexivity).
      rewrite forallb_forall in Hall. specialize (Hall b ltac:(by apply list_elem_of_In)). cbv beta in Hall.
      destruct (byte_hex b) as [|x [|y [|]]]; try done. destruct (hex_val x) as [dx|] eqn:Ex; [|done].
      destruct (hex_val y) as [dy|] eqn:Ey; [|done]. eexists.
      change (String x (String y "") +:+ bytesToHex l) with (String x (String y (bytesToHex l))).
      cbn [hex_fold]. rewrite Ex, Ey. reflexivity. }
    destruct (Hz z) as [z' ->]. by apply IH. }
  destruct (H l 0 Hl) as [z Hz]. destruct l as [|b l]; [done|].
  destruct (bytesToHex_parse (b :: l) Hl) as [_ Hlen]. destruct (bytesToHex (b :: l)); [done|]. by rewrite Hz.
Qed.

Lemma hexBytes_hex n l : (0 < n)%nat → length l = n → Forall is_byte l → hexBytes n (bytesToHex l) = Some l.
Proof.
  intros Hn Hl Hb. destruct (bytesToHex_parse l Hb) as [Hp Hlen]. unfold hexBytes. rewrite Hp, Hlen, Hl.
  rewrite (all_hex_bytes l) by (first [done|intros ->; simpl in *; lia]).
  replace (Nat.odd (2 * n)) with false by (by rewrite <-Nat.negb_even, Nat.even_mul).
  rewrite (bool_decide_eq_false_2 (bytesToHex l = "")) by (intros E; rewrite E in Hlen; simpl in Hlen; lia).
  cbn [orb negb]. replace (2 * n / 2)%nat with n by (rewrite Nat.mul_comm, Nat.div_mul; lia). by rewrite Nat.eqb_refl.
Qed.

Definition arg_ok (a : barg) : Prop := match a with Raw b => Forall is_byte b | Val _ => True end.

Lemma frame_text_bytes n low a b : (0 < n)%nat → arg_ok a → bytes_of n a = Ok (Some b) → ∃ s,
  frame_text low a = Ok (JText s) ∧ hexBytes n s = Some b.
Proof.
  intros Hn Ha Hb. destruct a as [r|v]; simpl in *.
  - destruct (Nat.eqb_spec (length r) n); [|done]. injection Hb as ->. exists (bytesToHex b). split; [done|]. by apply hexBytes_hex.
  - destruct (js_String v) as [s|]; [|done]. simpl in *. injection Hb as Hb. exists (if low then lc s else s).
    split; [done|]. destruct low; [by rewrite hexBytes_lc|done].
Qed.

Lemma buildTranscript_of_parts f t p o e tp m a ac no pu : e ≤ 2 ^ 53 - 1 →
  ack_parts f t p o e tp m a ac no pu → buildTranscript f = Ok t.
Proof.
  intros He [[Hp Hp'] [Ho Ho'] [Ee He'] [H1 _] [H2 _] [H3 _] [H4 _] [H5 _] [H6 _] ->].
  unfold buildTranscript, part. rewrite Hp, Ho, Ee, H1, H2, H3, H4, H5, H6. cbn [isPurpose isOp].
  replace ((p =? 1) || (p =? 2) || (p =? 3)) with true by (symmetry; rewrite !orb_true_iff, !Z.eqb_eq; lia).
  replace ((o =? 1) || (o =? 2)) with true by (symmetry; rewrite !orb_true_iff, !Z.eqb_eq; lia).
  cbn [negb mbind js_result_bind]. rewrite (proj2 (isSafe_spec e)) by lia. rewrite (proj2 (Z.ltb_ge e 0)) by lia.
  cbn [negb orb byte_of opbyte]. by rewrite !Z.mod_small by lia.
Qed.

Lemma parts_epoch f t : buildTranscript f = Ok t → ∃ e, f_epoch f = JNumber e ∧ e ≤ 2 ^ 53 - 1.
Proof.
  unfold buildTranscript. destruct (isPurpose (f_purpose f)); cbn [negb]; [|done].
  destruct (isOp (f_op f)); cbn [negb]; [|done].
  intros (tp & _ & H)%bind_Ok. apply bind_Ok in H as (m & _ & H).
  destruct (f_epoch f) as [| | |e| | | |] eqn:Ee; try done. exists e. split; [done|].
  destruct (isSafe e) eqn:Es; [|done]. apply isSafe_spec in Es. lia.
Qed.

Section proofs.
Context (ed_verify : bytes → bytes → bytes → js_result bool).

(** An accepted proof: its signature is one of the named key over a transcript with the
    fields of the frame. *)
Lemma verify_accepted frame fs pub : verifyAckProof ed_verify frame = Ok (AOk fs pub) → ∃ sigs sig opk op t,
  js_String (or_empty (field frame "sig")) = Ok sigs ∧ hexBytes SIG_BYTES sigs = Some sig ∧
  js_String (field frame "op") = Ok opk ∧ OP opk = Some op ∧
  buildTranscript (frame_fields frame op pub) = Ok t ∧ ed_verify pub t sig = Ok true.
Proof.
  unfold verifyAckProof. destruct (is_object frame); cbn [negb]; [|done].
  destruct (js_String (field frame "op")) as [opk|] eqn:E1; simpl; [|done].
  destruct (OP opk) as [op|] eqn:E2; [|done]. destruct (isPurpose (field frame "purpose")); cbn [negb]; [|done].
  destruct (js_String (or_empty (field frame "sig"))) as [sigs|] eqn:E3; simpl; [|done].
  destruct (hexBytes SIG_BYTES sigs) as [sig|] eqn:Es; [|done].
  destruct (js_String (or_empty (field frame "rootPub"))) as [pubs|]; simpl; [|done].
  destruct (hexBytes ROOT_PUB_BYTES pubs) as [pub'|]; [|done].
  destruct (buildTranscript (frame_fields frame op pub')) as [t|] eqn:Et; [|done].
  destruct (ed_verify pub' t sig) as [[]|] eqn:Ev; try done. intros H.
  repeat (apply bind_Ok in H as (? & _ & H)). injection H as _ ->. by exists sigs, sig, opk, op, t.
Qed.

Lemma ack_roundtrip sign f t pub : buildTranscript f = Ok t → length (sign t) = SIG_BYTES → Forall is_byte (sign t) →
  arg_ok (f_topicId f) → arg_ok (f_msgId f) → arg_ok (f_attemptId f) → arg_ok (f_ackTo f) → arg_ok (f_flightNonce f) →
  arg_ok (f_rootPub f) → bytes_of ROOT_PUB_BYTES (f_rootPub f) = Ok (Some pub) → ed_verify pub t (sign t) = Ok true →
  ∃ frame, signAckProof sign f = Ok frame ∧ ∃ fs, verifyAckProof ed_verify (wire frame) = Ok (AOk fs pub).
Proof.
  intros Ht Hl Hb A1 A2 A3 A4 A5 A6 Hpub Hv. destruct (parts_epoch f t Ht) as (e' & Ee & He).
  destruct (buildTranscript_parts f t Ht) as (p & o & e & tp & m & a & ac & no & pu & P).
  pose proof P as [[Hp Hp'] [Ho Ho'] [Ee' Er] [H1 L1] [H2 L2] [H3 L3] [H4 L4] [H5 L5] [H6 L6] Hbytes].
  assert (e' = e) as -> by congruence. assert (pu = pub) as -> by congruence.
  destruct (frame_text_bytes ID_BYTES true _ _ ltac:(unfold ID_BYTES; lia) A1 H1) as (s1 & T1 & B1).
  destruct (frame_text_bytes MSG_ID_BYTES false _ _ ltac:(unfold MSG_ID_BYTES; lia) A2 H2) as (s2 & T2 & B2).
  destruct (frame_text_bytes ATTEMPT_ID_BYTES true _ _ ltac:(unfold ATTEMPT_ID_BYTES; lia) A3 H3) as (s3 & T3 & B3).
  destruct (frame_text_bytes ID_BYTES true _ _ ltac:(unfold ID_BYTES; lia) A4 H4) as (s4 & T4 & B4).
  destruct (frame_text_bytes FLIGHT_NONCE_BYTES true _ _ ltac:(unfold FLIGHT_NONCE_BYTES; lia) A5 H5) as (s5 & T5 & B5).
  destruct (frame_text_bytes ROOT_PUB_BYTES true _ _ ltac:(unfold ROOT_PUB_BYTES; lia) A6 H6) as (s6 & T6 & B6).
  unfold signAckProof. rewrite Ht. cbn [mbind js_result_bind]. rewrite Hl, Nat.eqb_refl. cbn [negb].
  rewrite T1, T2, T3, T4, T5, T6. cbn [mbind js_result_bind]. rewrite Hp, Ho, Ee.
  eexists. split; [reflexivity|]. match goal with |- ∃ fs, verifyAckProof _ ?x = _ => set (fr := x) end.
  assert (∃ ops, field fr "op" = JText ops ∧ OP ops = Some (Op o)) as (ops & F0 & Fop).
  { assert (o = 1 ∨ o = 2) as [-> | ->] by lia; [exists "pub"|exists "kill"]; (split; [sent|done]). }
  assert (field fr "purpose" = JNumber p) as F1 by sent. assert (field fr "epoch" = JNumber e) as F2 by sent.
  assert (field fr "topicId" = JText s1) as F3 by sent. assert (field fr "msgId" = JText s2) as F4 by sent.
  assert (field fr "attemptId" = JText s3) as F5 by sent. assert (field fr "ackTo" = JText s4) as F6 by sent.
  assert (field fr "flightNonce" = JText s5) as F7 by sent. assert (field fr "rootPub" = JText s6) as F8 by sent.
  assert (field fr "sig" = JText (bytesToHex (sign t))) as F9 by sent.
  assert (is_object fr = true) as F10 by done. clearbody fr.
  assert (buildTranscript (frame_fields fr (Op o) pub) = Ok t) as Hbt.
  { apply (buildTranscript_of_parts _ _ p o e tp m a ac no pub He). unfold frame_fields. rewrite F1, F2, F3, F4, F5, F6, F7.
    destruct P. split; simpl; rewrite ?B1, ?B2, ?B3, ?B4, ?B5; try done; rewrite ?L6; done. }
  unfold verifyAckProof. rewrite F10. cbn [negb].
  rewrite F0, F1, F2, F3, F4, F5, F6, F7, F8, F9. cbn [js_String mbind js_result_bind or_empty nullish frame_text].
  rewrite Fop. cbn [isPurpose]. replace ((p =? 1) || (p =? 2) || (p =? 3)) with true by (symmetry; rewrite !orb_true_iff, !Z.eqb_eq; lia).
  cbn [negb]. rewrite (hexBytes_hex SIG_BYTES), B6 by (unfold SIG_BYTES in *; (done || lia)).
  rewrite Hbt, Hv. eexists. reflexivity.
Qed.

(** What an accepted ack proof proves. If [verifyAckProof] accepts a frame under a key, the
    key's signature covers a transcript, and whatever fields anybody signed in that transcript
    are the frame's: the purpose, so a signed NACK is no ACK; the operation, topic, message,
    epoch, attempt, flight and return address. A proof a root signs over any fields it can
    sign, in whatever spelling, is accepted after the wire under the root's key. *)
Theorem ack_proof_binds :
  (∀ frame fs pub, verifyAckProof ed_verify frame = Ok (AOk fs pub) → ∃ opk op t sig,
    js_String (field frame "op") = Ok opk ∧ OP opk = Some op ∧ ed_verify pub t sig = Ok true ∧
    buildTranscript (frame_fields frame op pub) = Ok t ∧
    ∀ f, buildTranscript f = Ok t → same_layout (LAck f) (LAck (frame_fields frame op pub))) ∧
  (∀ sign f t pub, buildTranscript f = Ok t → length (sign t) = SIG_BYTES → Forall is_byte (sign t) →
    arg_ok (f_topicId f) → arg_ok (f_msgId f) → arg_ok (f_attemptId f) → arg_ok (f_ackTo f) → arg_ok (f_flightNonce f) →
    arg_ok (f_rootPub f) → bytes_of ROOT_PUB_BYTES (f_rootPub f) = Ok (Some pub) → ed_verify pub t (sign t) = Ok true →
    ∃ frame, signAckProof sign f = Ok frame ∧ ∃ fs, verifyAckProof ed_verify (wire frame) = Ok (AOk fs pub)).
Proof.
  split; [|intros; by eapply ack_roundtrip].
  intros frame fs pub H. destruct (verify_accepted frame fs pub H) as (sigs & sig & opk & op & t & _ & _ & Ho & Hop & Ht & Hv).
  exists opk, op, t, sig. split_and!; [done..|]. intros f Hf. by eapply ack_inj.
Qed.
End proofs.

(** * Witnesses *)

Definition toy_fields (purpose : Z) : fields :=
  mk_fields (JNumber purpose) (Op 1) (Raw (repeat 1 33)) (Raw (repeat 2 32)) (JNumber 7) (Raw (repeat 3 16))
    (Val (JText (bytesToHex (repeat 171 33)))) (Raw (repeat 5 16)) (Raw (repeat 6 32)).
Definition toy_sig (m : bytes) : bytes := repeat (foldr Z.add 0 m mod 256) 64.
Definition toy_check (p m s : bytes) : js_result bool := Ok (bool_decide (s = toy_sig m)).

Lemma ack_proof_binds_witness : ∃ frame, signAckProof toy_sig (toy_fields 2) = Ok frame ∧
  ∃ fs, verifyAckProof toy_check (wire frame) = Ok (AOk fs (repeat 6 32)).
Proof.
  destruct (buildTranscript (toy_fields 2)) as [t|x] eqn:E; [|vm_compute in E; discriminate E].
  destruct (ack_proof_binds toy_check) as [_ H].
  assert (∀ x n, is_byte x → Forall is_byte (repeat x n)) as Hb.
  { intros x n Hx. induction n as [|n IH]; constructor; done. }
  apply (H toy_sig (toy_fields 2) t (repeat 6 32) E); try done; try (apply Hb; unfold is_byte; lia).
  - apply Hb. unfold is_byte. apply Z.mod_pos_bound. lia.
  - unfold toy_check. by rewrite bool_decide_eq_true_2.
Defined.

Lemma signatures_unambiguous_witness : ∃ t, layout_bytes (LAck (toy_fields 1)) = Ok t ∧
  same_layout (LAck (toy_fields 1)) (LAck (toy_fields 1)).
Proof.
  destruct (buildTranscript (toy_fields 1)) as [t|x] eqn:E; [|vm_compute in E; discriminate E].
  exists t. split; [exact E|]. exact (signatures_unambiguous (LAck (toy_fields 1)) (LAck (toy_fields 1)) t E E).
Defined.
