(* ===== verification/AuthHello.v ===== *)
(** AuthHello.v - how a peer proves its node id: the authenticated hello
    (src/src/transport/handshake-auth.js) and the proof of work it carries (src/src/pow/pow.js).

    A hello claims a node id, presents a public key that must hash to the id's low 256 bits, and
    signs both together with a channel-binding value that each side derives for itself.  The hash
    and the signature are parameters. *)
From Stdlib Require Import Ascii.
From stdpp Require Import base tactics sets list numbers strings.
From Stdlib Require Import ZArith Lia.
From S2P Require Import Prelude HexId Canonical SignedRecords Transcripts.
#[local] Open Scope Z_scope.
#[local] Set Default Proof Using "Type".

(** * Data *)

Definition AUTH_PROTO : string := "axona/5".
Definition MASK_256 : Z := Z.ones 256.

(** An identity, as far as it has the members a hello needs. *)
Record auth_identity := mk_auth_identity {
  ai_id : option string; ai_pubkeyHex : option string; ai_sign : option (bytes → js_result bytes); ai_pow : option string
}.

Inductive hverdict := HOk (nodeId pubkey : string) | HBad (reason : string).

(** [/^[0-9a-fA-F]*$/.test(s)] *)
Definition isHex (s : string) : bool := bool_decide (s = "") || all_hex s.

(** * Channel-binding values *)

(** [[a, b].sort()] *)
Definition sorted_pair (a b : string) : string * string := if str_le a b then (a, b) else (b, a).

Definition cbvFromNonces (nonceA nonceB extra : string) : string :=
  let '(lo, hi) := sorted_pair nonceA nonceB in
  "n:" +:+ lo +:+ ":" +:+ hi +:+ (if bool_decide (extra = "") then "" else ":" +:+ extra).
Definition cbvFromFingerprints (fpA fpB : string) : string :=
  let '(lo, hi) := sorted_pair fpA fpB in "fp:" +:+ lo +:+ ":" +:+ hi.

(** * Proof of work *)

Definition POW_DOMAIN : string := "axona:pow:v1".

(** The active difficulties by role; what is no positive integer counts as 0. *)
Definition pow_state := jmap string jsv.
Definition POW_DIFFICULTY : pow_state := [("transport", JInt 0); ("publish", JInt 0)].
Definition powDifficulty (active : pow_state) (role : string) : Z :=
  match jget active role with Some (JInt d) => if 0 <? d then d else 0 | _ => 0 end.
Definition setPowDifficulty (active : pow_state) (role : option string) (n : jsv) : pow_state :=
  match role with
  | None => foldl (λ m p, jset m p.1 p.2) active POW_DIFFICULTY
  | Some role => jset active role n
  end.

(** The leading zeros of a byte, from the bit [k - 1] down, and of an array of bytes. *)
Fixpoint top_zeros (k : nat) (b : Z) : Z :=
  match k with O => 0 | S k => if Z.testbit b (Z.of_nat k) then 0 else 1 + top_zeros k b end.
Fixpoint leadingZeroBits (l : bytes) : Z :=
  match l with
  | [] => 0
  | b :: l => if b =? 0 then 8 + leadingZeroBits l else top_zeros 8 b
  end.

(** [i.toString(36)] *)
Definition digit36 (d : Z) : ascii := if d <? 10 then ascii_of_nat (48 + Z.to_nat d) else ascii_of_nat (87 + Z.to_nat d).
Fixpoint go36 (fuel : nat) (n : Z) (acc : string) : string :=
  match fuel with
  | O => acc
  | S f => let acc := String (digit36 (n mod 36)) acc in if n / 36 =? 0 then acc else go36 f (n / 36) acc
  end.
Definition toString36 (n : Z) : string := go36 (S (Z.to_nat (Z.log2 n))) n "".

Section crypto.
Context (sha256 : bytes → bytes) (ed_verify : bytes → bytes → bytes → js_result bool).

Definition workHash (pubkeyHex role nonce : string) : bytes :=
  sha256 (utf8 (POW_DOMAIN +:+ ":" +:+ role +:+ ":" +:+ pubkeyHex +:+ ":" +:+ nonce)).
Definition powBits (pubkeyHex nonce role : string) : Z := leadingZeroBits (workHash pubkeyHex role nonce).

(** The difficulty asked for, where it is an integer, else the active one. *)
Definition pow_of (active : pow_state) (role : string) (difficulty : jsv) : Z :=
  match difficulty with JInt d => d | _ => powDifficulty active role end.

Definition powVerify (active : pow_state) (pubkeyHex nonce : jsv) (role : string) (difficulty : jsv) : bool :=
  let d := pow_of active role difficulty in
  if d <=? 0 then true
  else match pubkeyHex, nonce with
       | JStr pk, JStr n => if bool_decide (n = "") then false else d <=? leadingZeroBits (workHash pk role n)
       | _, _ => false
       end.

(** The first nonce of [i, i + 1, ...] that is hard enough, of at most [tries]. *)
Fixpoint mint_from (pubkeyHex role : string) (d i : Z) (tries : nat) : js_result string :=
  match tries with
  | O => Throw plainError
  | S tries =>
      if d <=? leadingZeroBits (workHash pubkeyHex role (toString36 i)) then Ok (toString36 i)
      else mint_from pubkeyHex role d (i + 1) tries
  end.
Definition powMint (active : pow_state) (pubkeyHex : jsv) (role : string) (difficulty : jsv) (maxTries : nat) : js_result string :=
  let d := pow_of active role difficulty in
  if d <=? 0 then Ok ""
  else match pubkeyHex with
       | JStr pk => if bool_decide (pk = "") then Throw typeError else mint_from pk role d 0 maxTries
       | _ => Throw typeError
       end.

(** * The hello: its transcript, [transcriptBytes], is among the signed texts of Transcripts.v *)

Definition buildAuthHello (identity : option auth_identity) (cbv : option string) (proto : string) : js_result json :=
  match identity ≫= λ i, id ← ai_id i; pk ← ai_pubkeyHex i; sg ← ai_sign i; Some (id, pk, sg) with
  | None => Throw typeError
  | Some (id, pk, sg) =>
      match cbv with
      | None => Throw typeError
      | Some cbv =>
          if bool_decide (cbv = "") then Throw typeError
          else
            sigBytes ← sg (transcriptBytes proto id pk cbv);
            Ok (JObject [("proto", JText proto); ("nodeId", JText id); ("pubkey", JText pk);
                         ("sig", JText (ED25519 +:+ bytesToHex sigBytes));
                         ("pow", JText (default "" (identity ≫= ai_pow)))])
      end
  end.

(** [BigInt('0x' + hash)] is the low 256 bits of the id. *)
Definition pubkeyMatchesNodeId (pubkeyBytes : bytes) (nodeIdHex : string) : bool :=
  Nat.eqb (length pubkeyBytes) 32 && (strlen nodeIdHex =? 66) &&
  match parseHex (bytesToHex (sha256 pubkeyBytes)), parseHex nodeIdHex with
  | Some h, Some n => Z.land n MASK_256 =? h
  | _, _ => false
  end.

(** A text of [n] hex digits. *)
Definition hex_text (v : json) (n : Z) : option string :=
  s ← as_text v; if (strlen s =? n) && isHex s then Some s else None.

Definition verifyAuthHello (active : pow_state) (frame : json) (cbv : option string) (proto : string) : hverdict :=
  if negb (is_object frame) then HBad "not_an_object"
  else if negb (text_is (field frame "proto") proto) then HBad "proto_mismatch"
  else match hex_text (field frame "nodeId") 66 with
  | None => HBad "bad_nodeId"
  | Some nodeId =>
  match hex_text (field frame "pubkey") 64 with
  | None => HBad "bad_pubkey"
  | Some pubkey =>
      if negb (sig_scheme (field frame "sig")) then HBad "bad_sig_scheme"
      else match cbv with
      | None => HBad "missing_cbv"
      | Some cbv =>
          if bool_decide (cbv = "") then HBad "missing_cbv"
          else match hex_text (JText (sig_hex (field frame "sig"))) 128 with
          | None => HBad "bad_sig_length"
          | Some sigHex =>
              if negb (pubkeyMatchesNodeId (parse_bytes pubkey) nodeId) then HBad "pubkey_nodeid_mismatch"
              else match ed_verify (parse_bytes pubkey) (transcriptBytes proto nodeId pubkey cbv) (parse_bytes sigHex) with
              | Throw _ => HBad "verify_threw"
              | Ok false => HBad "bad_signature"
              | Ok true =>
                  if powVerify active (JStr pubkey) (JStr (default "" (as_text (field frame "pow")))) "transport" JUndef
                  then HOk nodeId pubkey else HBad "bad_pow"
              end
          end
      end
  end
  end.
End crypto.

(** * Properties *)

(** ** Channel-binding values *)


Lemma sorted_pair_comm a b : sorted_pair a b = sorted_pair b a.
Proof.
  unfold sorted_pair. destruct (str_le a b) eqn:E1, (str_le b a) eqn:E2; try done.
  - by rewrite (str_le_antisym a b).
  - apply str_le_total in E1. congruence.
Qed.
Lemma sorted_pair_cases a b : sorted_pair a b = (a, b) ∨ sorted_pair a b = (b, a).
Proof. unfold sorted_pair. destruct (str_le a b); auto. Qed.

(** A text without the separator. *)
Fixpoint clean (c : ascii) (s : string) : bool :=
  match s with EmptyString => true | String x s => negb (bool_decide (x = c)) && clean c s end.

Lemma cut_at c a b r r' : clean c a = true → clean c b = true → a +:+ String c r = b +:+ String c r' → a = b ∧ r = r'.
Proof.
  revert b. induction a as [|x a IH]; intros [|y b] Ha Hb H; simpl in *.
  - injection H as H. done.
  - injection H as <- H. by rewrite bool_decide_eq_true_2 in Hb.
  - injection H as -> H. by rewrite bool_decide_eq_true_2 in Ha.
  - injection H as -> H. apply andb_true_iff in Ha as [_ Ha], Hb as [_ Hb]. destruct (IH b Ha Hb H) as [-> ->]. done.
Qed.

(** What the handshakes derive their nonces' binding from can be read back. *)
Lemma nonces_inj a b x a' b' x' : clean ":" a = true → clean ":" b = true → clean ":" a' = true → clean ":" b' = true →
  x ≠ "" → x' ≠ "" → cbvFromNonces a b x = cbvFromNonces a' b' x' →
  x = x' ∧ (a = a' ∧ b = b' ∨ a = b' ∧ b = a').
Proof.
  intros Ha Hb Ha' Hb' Hx Hx'. unfold cbvFromNonces.
  destruct (sorted_pair_cases a b) as [E|E], (sorted_pair_cases a' b') as [E'|E']; rewrite E, E';
    rewrite !bool_decide_eq_false_2 by done; intros H; injection H as H;
    (apply cut_at in H as [? H]; [|done..]); (apply cut_at in H as [? H]; [|done..]); auto.
Qed.
Lemma fingerprints_inj a b a' b' : clean ":" a = true → clean ":" b = true → clean ":" a' = true → clean ":" b' = true →
  cbvFromFingerprints a b = cbvFromFingerprints a' b' → a = a' ∧ b = b' ∨ a = b' ∧ b = a'.
Proof.
  intros Ha Hb Ha' Hb'. unfold cbvFromFingerprints.
  destruct (sorted_pair_cases a b) as [E|E], (sorted_pair_cases a' b') as [E'|E']; rewrite E, E';
    intros H; injection H as H; (apply cut_at in H as [? H]; [|done..]); auto.
Qed.

(** ** The verdict *)

Lemma hex_text_Some v n s : hex_text v n = Some s ↔ v = JText s ∧ strlen s = n ∧ isHex s = true.
Proof.
  unfold hex_text. destruct v as [| | | | |t| |]; simpl; try naive_solver. destruct (_ && _) eqn:E.
  - apply andb_true_iff in E as [E1%Z.eqb_eq E2]. split; [by intros [= <-]|by intros [[= ->] _]].
  - split; [done|]. intros ([= ->] & <- & H). by rewrite Z.eqb_refl, H in E.
Qed.
Lemma hex_text_None v n : hex_text v n = None → ¬ ∃ s, v = JText s ∧ strlen s = n ∧ isHex s = true.
Proof. intros H (s & Hs). apply hex_text_Some in Hs. congruence. Qed.

Section verdicts.
Context (sha256 : bytes → bytes) (ed_verify : bytes → bytes → bytes → js_result bool) (active : pow_state).

(** The node id [n] carries the hash of the key [k]. *)
Definition bound_to (k n : string) : Prop :=
  length (parse_bytes k) = 32%nat ∧ strlen n = 66 ∧
  ∃ v, parseHex n = Some v ∧ parseHex (bytesToHex (sha256 (parse_bytes k))) = Some (v mod 2 ^ 256).

(** The frame proves [n] under [k] over the verifier's own [c]. *)
Record authentic (frame : json) (c proto n k : string) : Prop := {
  au_proto : field frame "proto" = JText proto;
  au_nodeId : field frame "nodeId" = JText n ∧ strlen n = 66 ∧ isHex n = true;
  au_pubkey : field frame "pubkey" = JText k ∧ strlen k = 64 ∧ isHex k = true;
  au_bound : bound_to k n;
  au_cbv : c ≠ "";
  au_signed : ∃ s, field frame "sig" = JText (ED25519 +:+ s) ∧ strlen s = 128 ∧ isHex s = true ∧
    ed_verify (parse_bytes k) (transcriptBytes proto n k c) (parse_bytes s) = Ok true;
  au_pow : powVerify sha256 active (JStr k) (JStr (default "" (as_text (field frame "pow")))) "transport" JUndef = true
}.

(** What each refusal says of the frame. *)
Definition refusal (frame : json) (cbv : option string) (proto r : string) : Prop :=
  let hex f n := ∃ s, f = JText s ∧ strlen s = n ∧ isHex s = true in
  r = "not_an_object" ∧ is_object frame = false ∨
  r = "proto_mismatch" ∧ field frame "proto" ≠ JText proto ∨
  r = "bad_nodeId" ∧ ¬ hex (field frame "nodeId") 66 ∨
  r = "bad_pubkey" ∧ ¬ hex (field frame "pubkey") 64 ∨
  r = "bad_sig_scheme" ∧ (∀ s, field frame "sig" ≠ JText (ED25519 +:+ s)) ∨
  r = "missing_cbv" ∧ (cbv = None ∨ cbv = Some "") ∨
  r = "bad_sig_length" ∧ (∀ s, field frame "sig" = JText (ED25519 +:+ s) → ¬ (strlen s = 128 ∧ isHex s = true)) ∨
  r = "pubkey_nodeid_mismatch" ∧ (∀ n k, field frame "nodeId" = JText n → field frame "pubkey" = JText k → ¬ bound_to k n) ∨
  (r = "verify_threw" ∨ r = "bad_signature") ∧
    (∀ n k s c, field frame "nodeId" = JText n → field frame "pubkey" = JText k → field frame "sig" = JText (ED25519 +:+ s) →
       cbv = Some c → ed_verify (parse_bytes k) (transcriptBytes proto n k c) (parse_bytes s) ≠ Ok true) ∨
  r = "bad_pow" ∧ (∀ k, field frame "pubkey" = JText k →
       powVerify sha256 active (JStr k) (JStr (default "" (as_text (field frame "pow")))) "transport" JUndef = false).

Lemma matches_spec k n : pubkeyMatchesNodeId sha256 (parse_bytes k) n = true ↔ bound_to k n.
Proof.
  unfold pubkeyMatchesNodeId, bound_to, MASK_256. split.
  - intros [[H1%Nat.eqb_eq H2%Z.eqb_eq]%andb_true_iff H3]%andb_true_iff. split_and!; [done..|].
    destruct (parseHex (bytesToHex _)) as [h|]; [|done]. destruct (parseHex n) as [v|]; [|done].
    apply Z.eqb_eq in H3. exists v. split; [done|]. f_equal. rewrite <-H3. by apply Z.land_ones.
  - intros (H1 & H2 & v & H3 & H4). rewrite H1, H2, H3, H4, Z.land_ones by done. by rewrite !Z.eqb_refl.
Qed.

Lemma prefix_split p t : String.prefix p t = true → ∃ s, t = p +:+ s.
Proof.
  revert t. induction p as [|c p IH]; intros [|x t] H; try done; [by exists ""|by exists (String x t)|].
  simpl in H. destruct (ascii_dec c x) as [->|]; [|done]. destruct (IH t H) as [s ->]. by exists s.
Qed.
Lemma scheme_cases v : sig_scheme v = true → ∃ s, v = JText (ED25519 +:+ s) ∧ sig_hex v = s.
Proof. intros H. destruct v as [| | | | |t| |]; try done. apply prefix_split in H as [s ->]. exists s. split; [done|]. apply slice_prefix. Qed.

Lemma hello_verdict frame cbv proto :
  match verifyAuthHello sha256 ed_verify active frame cbv proto with
  | HOk n k => ∃ c, cbv = Some c ∧ authentic frame c proto n k
  | HBad r => refusal frame cbv proto r
  end.
Proof.
  unfold verifyAuthHello, refusal. cbv zeta. destruct (is_object frame) eqn:E1; cbn [negb]; [|by left].
  destruct (text_is _ proto) eqn:E2; cbn [negb].
  2: { right; left. split; [done|]. intros H. rewrite H in E2. simpl in E2. by rewrite bool_decide_eq_true_2 in E2. }
  destruct (hex_text (field frame "nodeId") 66) as [n|] eqn:E3; [|do 2 right; left; split; [done|by apply hex_text_None]].
  destruct (hex_text (field frame "pubkey") 64) as [k|] eqn:E4; [|do 3 right; left; split; [done|by apply hex_text_None]].
  apply hex_text_Some in E3, E4. destruct (sig_scheme (field frame "sig")) eqn:E5; cbn [negb].
  2: { do 4 right; left. split; [done|]. intros s H. rewrite H in E5. change (String.prefix ED25519 (ED25519 +:+ s) = false) in E5.
       by rewrite prefix_append in E5. }
  destruct cbv as [c|]; [|do 5 right; left; auto]. destruct (bool_decide (c = "")) eqn:E6.
  { apply bool_decide_eq_true in E6 as ->. do 5 right; left; auto. }
  apply bool_decide_eq_false in E6. apply scheme_cases in E5 as (s & Es & Eh). rewrite Eh.
  destruct (hex_text (JText s) 128) as [s'|] eqn:E7.
  2: { do 6 right; left. split; [done|]. intros s' H [? ?]. apply (hex_text_None _ _ E7). exists s. rewrite Es in H. injection H as H.
       change (s = s') in H. by subst s'. }
  apply hex_text_Some in E7 as ([= <-] & E7 & E8).
  destruct E3 as (Fn & ? & ?), E4 as (Fk & ? & ?).
  destruct (pubkeyMatchesNodeId _ _ _) eqn:E9; cbn [negb].
  2: { do 7 right; left. split; [done|]. intros n' k'. rewrite Fn, Fk. intros [= <-] [= <-] Hb%matches_spec. congruence. }
  apply matches_spec in E9. destruct (ed_verify _ _ _) as [[]|x] eqn:E10.
  - destruct (powVerify _ _ _ _ _ _) eqn:E11.
    + exists c. split; [done|]. split; try done; [|by exists s]. destruct (field frame "proto"); try done. by apply bool_decide_eq_true in E2 as ->.
    + do 9 right. split; [done|]. intros k'. rewrite Fk. intros [= <-]. done.
  - do 8 right; left. split; [by right|]. intros n' k' s' c'. rewrite Fn, Fk, Es. intros [= <-] [= <-] Hs [= <-].
    injection Hs as Hs. change (s = s') in Hs. subst s'. congruence.
  - do 8 right; left. split; [by left|]. intros n' k' s' c'. rewrite Fn, Fk, Es. intros [= <-] [= <-] Hs [= <-].
    injection Hs as Hs. change (s = s') in Hs. subst s'. congruence.
Qed.

Lemma authentic_ok frame c proto n k : authentic frame c proto n k →
  verifyAuthHello sha256 ed_verify active frame (Some c) proto = HOk n k.
Proof.
  intros [H1 H2 H3 H4 H5 (s & H6 & H7 & H8 & H9) H10]. unfold verifyAuthHello.
  assert (is_object frame = true) as -> by (destruct frame; done). rewrite H1. cbn [text_is negb].
  rewrite bool_decide_eq_true_2 by done. cbn [negb]. rewrite (proj2 (hex_text_Some _ _ _) H2), (proj2 (hex_text_Some _ _ _) H3), H6.
  cbn [sig_scheme sig_hex]. rewrite prefix_append, slice_prefix. cbn [negb]. rewrite bool_decide_eq_false_2 by done.
  rewrite (proj2 (hex_text_Some _ _ _) (conj eq_refl (conj H7 H8))). rewrite (proj2 (matches_spec k n) H4). cbn [negb]. by rewrite H9, H10.
Qed.
End verdicts.

(** ** Building and verifying *)

Lemma hex_text_bytes l : l ≠ [] → Forall is_byte l →
  hex_text (JText (bytesToHex l)) (2 * Z.of_nat (length l)) = Some (bytesToHex l).
Proof.
  intros Hn Hb. apply hex_text_Some. destruct (bytesToHex_parse l Hb) as [_ Hl]. unfold strlen. rewrite Hl. split_and!; [done|lia|].
  unfold isHex. rewrite (all_hex_bytes l Hn Hb). by rewrite orb_true_r.
Qed.

Section hello_trip.
Context {K : Type} (sha256 : bytes → bytes) (ed_verify : bytes → bytes → bytes → js_result bool)
  (ed_sign : K → bytes → bytes) (pub : K → bytes) (active : pow_state).

(** The identity of a key under the node id [n]. *)
Definition auth_of (k : K) (n : string) (pow : option string) : auth_identity :=
  mk_auth_identity (Some n) (Some (bytesToHex (pub k))) (Some (λ m, Ok (ed_sign k m))) pow.

Lemma hello_built k n pow c proto : ed25519_laws ed_verify ed_sign pub → isHex n = true →
  bound_to sha256 (bytesToHex (pub k)) n → c ≠ "" →
  powVerify sha256 active (JStr (bytesToHex (pub k))) (JStr (default "" pow)) "transport" JUndef = true →
  ∃ frame, buildAuthHello (Some (auth_of k n pow)) (Some c) proto = Ok frame ∧
    verifyAuthHello sha256 ed_verify active (wire frame) (Some c) proto = HOk n (bytesToHex (pub k)).
Proof.
  intros (Hv & Hs & Hp) Hn Hb Hc Hw. destruct (Hp k) as [Hpl Hpb]. unfold buildAuthHello. cbn [mbind option_bind auth_of ai_id ai_pubkeyHex ai_sign].
  rewrite bool_decide_eq_false_2 by done. cbn [mbind js_result_bind]. eexists. split; [reflexivity|].
  set (t := transcriptBytes proto n (bytesToHex (pub k)) c). destruct (Hs k t) as [Hsl Hsb].
  match goal with |- context [wire ?o] => set (e := o) end.
  assert (∀ x, field (wire e) x = default JUndefined (wired [("proto", JText proto); ("nodeId", JText n); ("pubkey", JText (bytesToHex (pub k)));
      ("sig", JText (ED25519 +:+ bytesToHex (ed_sign k t))); ("pow", JText (default "" pow))] x)) as Hf.
  { intros x. apply field_wire, (bool_decide_unpack _). vm_compute. exact I. }
  apply authentic_ok. split; [..|done| |].
  - rewrite Hf. by read_member.
  - rewrite Hf. read_member. split_and!; [done| |done]. by apply Hb.
  - rewrite Hf. read_member. assert (pub k ≠ []) as Hne by (intros E; by rewrite E in Hpl).
    pose proof (hex_text_bytes (pub k) Hne Hpb) as H%hex_text_Some. rewrite Hpl in H. exact H.
  - done.
  - rewrite Hf. read_member. exists (bytesToHex (ed_sign k t)). assert (ed_sign k t ≠ []) as Hne by (intros E; by rewrite E in Hsl).
    pose proof (hex_text_bytes _ Hne Hsb) as (_ & H1 & H2)%hex_text_Some. rewrite Hsl in H1. split_and!; [done|exact H1|done|].
    destruct (bytesToHex_parse _ Hpb) as [-> _], (bytesToHex_parse _ Hsb) as [-> _]. apply Hv.
  - rewrite Hf. by read_member.
Qed.

Lemma go36_text f n acc : acc ≠ "" → go36 f n acc ≠ "".
Proof. revert n acc. induction f as [|f IH]; intros n acc H; [done|]. cbn [go36]. cbv zeta. destruct (_ =? _); [done|]. by apply IH. Qed.
Lemma toString36_text n : toString36 n ≠ "".
Proof. unfold toString36. cbn [go36]. cbv zeta. destruct (_ =? _); [done|]. by apply go36_text. Qed.

Lemma mint_from_ok pk role d i tries n : mint_from sha256 pk role d i tries = Ok n →
  n ≠ "" ∧ d ≤ leadingZeroBits (workHash sha256 pk role n) ∧
  ∃ j, i ≤ j < i + Z.of_nat tries ∧ n = toString36 j ∧ ∀ j', i ≤ j' < j → leadingZeroBits (workHash sha256 pk role (toString36 j')) < d.
Proof.
  revert i. induction tries as [|tries IH]; intros i; [done|]. cbn [mint_from]. destruct (d <=? _) eqn:E.
  - intros [= <-]. zb. split_and!; [apply toString36_text|done|]. exists i. split_and!; [lia|lia|done|intros; lia].
  - intros (H1 & H2 & j & Hj & -> & Hmin)%IH. zb. split_and!; [done..|]. exists j. split; [lia|]. split; [done|].
    intros j' Hj'. destruct (decide (j' = i)) as [->|]; [done|]. apply Hmin. lia.
Qed.

(** What is minted verifies, and it is the first nonce that does. *)
Lemma mint_verifies pk role difficulty tries n : powMint sha256 active (JStr pk) role difficulty tries = Ok n →
  powVerify sha256 active (JStr pk) (JStr n) role difficulty = true.
Proof.
  unfold powMint, powVerify. cbv zeta. destruct (_ <=? 0); [done|]. destruct (bool_decide (pk = "")); [done|].
  intros (H1 & H2 & _)%mint_from_ok. rewrite bool_decide_eq_false_2 by done. by apply Z.leb_le.
Qed.
End hello_trip.

(** C27. What a hello proves.  A frame is accepted exactly where it names the verifier's protocol and
    carries a node id whose low 256 bits are the hash of the public key it presents, a signature
    that verifies under that key over a transcript with the verifier's own channel-binding value, and
    enough work; each refusal's reason is true of the frame.  The transcript determines protocol, id,
    key and channel value, and is the signed text of no other record of the plane. *)
Theorem hello_exact sha256 ed_verify active proto :
  (∀ frame cbv, match verifyAuthHello sha256 ed_verify active frame cbv proto with
    | HOk n k => ∃ c, cbv = Some c ∧ authentic sha256 ed_verify active frame c proto n k
    | HBad r => refusal sha256 ed_verify active frame cbv proto r
    end) ∧
  (∀ frame c n k, authentic sha256 ed_verify active frame c proto n k →
    verifyAuthHello sha256 ed_verify active frame (Some c) proto = HOk n k) ∧
  (∀ n k c p' n' k' c', transcriptBytes proto n k c = transcriptBytes p' n' k' c' → proto = p' ∧ n = n' ∧ k = k' ∧ c = c') ∧
  (∀ s n k c, utf8 (signed_text s) ≠ transcriptBytes proto n k c).
Proof.
  split_and!.
  - intros. apply hello_verdict.
  - intros. by apply authentic_ok.
  - intros. by apply transcript_inj.
  - intros. apply hello_apart.
Qed.

(** An honest hello is accepted.  What an identity builds over a channel-binding value, with
    the work it minted, verifies after the wire under the value the other end derives for itself,
    and proves the identity's own id and key; both ends derive the same value from the nonces and
    from the fingerprints, whichever of the two each calls its own. *)
Theorem hello_roundtrip {K : Type} sha256 ed_verify (ed_sign : K → bytes → bytes) (pub : K → bytes) active k n tries pow c proto :
  ed25519_laws ed_verify ed_sign pub → isHex n = true → bound_to sha256 (bytesToHex (pub k)) n → c ≠ "" →
  powMint sha256 active (JStr (bytesToHex (pub k))) "transport" JUndef tries = Ok pow →
  (∃ frame, buildAuthHello (Some (auth_of ed_sign pub k n (Some pow))) (Some c) proto = Ok frame ∧
    verifyAuthHello sha256 ed_verify active (wire frame) (Some c) proto = HOk n (bytesToHex (pub k))) ∧
  (∀ a b x, cbvFromNonces a b x = cbvFromNonces b a x) ∧ (∀ a b, cbvFromFingerprints a b = cbvFromFingerprints b a).
Proof.
  intros HL Hn Hb Hc Hw%mint_verifies. split_and!.
  - by apply hello_built.
  - intros a b x. unfold cbvFromNonces. by rewrite sorted_pair_comm.
  - intros a b. unfold cbvFromFingerprints. by rewrite sorted_pair_comm.
Qed.

Lemma hello_roundtrip_witness : ∃ frame,
  buildAuthHello (Some (auth_of (toy_sign ∘ toy_key) (toy_pub ∘ toy_key) 5 ("aa" +:+ bytesToHex (repeat 0 32)) (Some "0"))) (Some "n:a:b") AUTH_PROTO = Ok frame ∧
  verifyAuthHello (λ _, repeat 0 32) toy_verify [("transport", JInt 8)] (wire frame) (Some "n:a:b") AUTH_PROTO =
    HOk ("aa" +:+ bytesToHex (repeat 0 32)) (bytesToHex (toy_pub (toy_key 5))).
Proof.
  assert (bound_to (λ _, repeat 0 32) (bytesToHex (toy_pub (toy_key 5))) ("aa" +:+ bytesToHex (repeat 0 32))) as Hb.
  { split_and!; [vm_compute; reflexivity..|]. exists (0xaa * 2 ^ 256). split; vm_compute; reflexivity. }
  assert (powMint (λ _, repeat 0 32) [("transport", JInt 8)] (JStr (bytesToHex (toy_pub (toy_key 5)))) "transport" JUndef 3 = Ok "0") as Hw
    by (vm_compute; reflexivity).
  refine (proj1 (hello_roundtrip (λ _, repeat 0 32) toy_verify (toy_sign ∘ toy_key) (toy_pub ∘ toy_key) [("transport", JInt 8)] 5
    ("aa" +:+ bytesToHex (repeat 0 32)) 3 "0" "n:a:b" AUTH_PROTO toy_laws _ Hb _ Hw)); [vm_compute; reflexivity|done].
Defined.
