(* ===== verification/MeshAuth.v ===== *)
(** MeshAuth.v - the mutual handshake of the WebRTC mesh (src/src/transport/web/mesh-auth.js).

    The per-channel records are objects of a heap ([m_chans]); the table [m_state] names the one a
    channel id stands for.  A handler runs up to its first await; what it awaits is a task, and a
    task that resumes holds the record it was started with, whatever the table says by then.  A run
    is any sequence of events, resumptions included. *)
From Stdlib Require Import Ascii.
From stdpp Require Import base tactics sets list numbers strings.
From Stdlib Require Import ZArith Lia.
From S2P Require Import Prelude HexId Canonical SignedRecords Transcripts AuthHello.
#[local] Open Scope Z_scope.
#[local] Set Default Proof Using "Type".

(** * Data *)

Definition MESH_CBV_TAG : string := "mesh".

Record chan := mk_chan {
  c_myNonce : string; c_peerNonce : option string; c_peerNodeId : option string; c_pendingSig : json;
  c_sigSent : bool; c_verifying : bool; c_bound : bool;
  c_peerPubkey : option string; c_cbv : option string; c_pendingCap : json; c_capable : bool
}.
Definition new_chan (nonce : string) : chan :=
  mk_chan nonce None None JUndefined false false false None None JUndefined false.
Definition with_peerNonce (v : string) (c : chan) : chan :=
  mk_chan (c_myNonce c) (Some v) (c_peerNodeId c) (c_pendingSig c) (c_sigSent c) (c_verifying c) (c_bound c) (c_peerPubkey c) (c_cbv c) (c_pendingCap c) (c_capable c).
Definition with_pendingSig (b : json) (c : chan) : chan :=
  mk_chan (c_myNonce c) (c_peerNonce c) (match as_text (field b "nodeId") with Some n => Some n | None => c_peerNodeId c end) b
    (c_sigSent c) (c_verifying c) (c_bound c) (c_peerPubkey c) (c_cbv c) (c_pendingCap c) (c_capable c).
Definition with_sigSent (c : chan) : chan :=
  mk_chan (c_myNonce c) (c_peerNonce c) (c_peerNodeId c) (c_pendingSig c) true (c_verifying c) (c_bound c) (c_peerPubkey c) (c_cbv c) (c_pendingCap c) (c_capable c).
Definition with_verifying (v : bool) (c : chan) : chan :=
  mk_chan (c_myNonce c) (c_peerNonce c) (c_peerNodeId c) (c_pendingSig c) (c_sigSent c) v (c_bound c) (c_peerPubkey c) (c_cbv c) (c_pendingCap c) (c_capable c).
Definition with_pendingCap (v : json) (c : chan) : chan :=
  mk_chan (c_myNonce c) (c_peerNonce c) (c_peerNodeId c) (c_pendingSig c) (c_sigSent c) (c_verifying c) (c_bound c) (c_peerPubkey c) (c_cbv c) v (c_capable c).
Definition with_capable (c : chan) : chan :=
  mk_chan (c_myNonce c) (c_peerNonce c) (c_peerNodeId c) (c_pendingSig c) (c_sigSent c) (c_verifying c) (c_bound c) (c_peerPubkey c) (c_cbv c) (c_pendingCap c) true.
(** What a completed bind retains. *)
Definition bind_chan (cbv : string) (c : chan) : chan :=
  mk_chan (c_myNonce c) (c_peerNonce c) (c_peerNodeId c) (c_pendingSig c) (c_sigSent c) (c_verifying c) true
    (as_text (field (c_pendingSig c) "pubkey")) (Some cbv) (c_pendingCap c) (c_capable c).

(** What is awaited: a signed hello, the verdict on one, a signed attestation, the verdict on one. *)
Inductive task :=
| TSig (meshId : string) (ref : nat) (cbv : string)
| TVerify (meshId : string) (ref : nat) (cbv : string) (frame : json)
| TCapSign (meshId : string) (frame : js_result json)
| TCapVerify (meshId : string) (ref : nat) (verdict : js_result capverdict).

(** What leaves the handshake; [SignHello] is the call of the node's signer for a hello over [cbv]. *)
Inductive meff :=
| SignHello (meshId cbv : string)
| Sent (meshId type : string) (body : json)
| Bind (ref : nat) (nodeId meshId channelKey : string)
| BindThrew (nodeId meshId : string)
| Capable (nodeId : option string) (meshId : string).

Record mnode := mk_mnode { m_chans : list chan; m_state : jmap string nat; m_tasks : list task; m_log : list meff }.
Definition new_mnode : mnode := mk_mnode [] [] [] [].
Definition put_state (v : jmap string nat) (N : mnode) : mnode := mk_mnode (m_chans N) v (m_tasks N) (m_log N).
Definition upd_chan (ref : nat) (f : chan → chan) (N : mnode) : mnode :=
  mk_mnode (alter f ref (m_chans N)) (m_state N) (m_tasks N) (m_log N).
Definition await (t : task) (N : mnode) : mnode := mk_mnode (m_chans N) (m_state N) (m_tasks N ++ [t]) (m_log N).
Definition log (e : meff) (N : mnode) : mnode := mk_mnode (m_chans N) (m_state N) (m_tasks N) (m_log N ++ [e]).

(** The outside world at one event: the nonce a new record draws, the DTLS fingerprints where both
    are known, whether the send throws, whether the binding of a channel throws and which channels it closes, and
    the allowlist where one is set. *)
Record menv := mk_menv {
  e_nonce : string; e_fp : string → option (string * string); e_sendFails : bool;
  e_bindFails : string → bool; e_closes : list string; e_allow : list string
}.

(** [!!v] *)
Definition truthy_json (v : json) : bool :=
  match v with
  | JUndefined | JNullV | JBoolV false => false
  | JNumber z => negb (z =? 0)
  | JText s => negb (bool_decide (s = ""))
  | _ => true
  end.

Inductive mevent :=
| ChannelOpen (meshId : string)
| ChannelLost (meshId : string)
| Hello (meshId : string) (body : json)
| HelloSig (meshId : string) (body : json)
| CapAttest (meshId : string) (body : json)
| Resume (i : nat).

Section handshake.
Context (sha256 : bytes → bytes) (ed_verify : bytes → bytes → bytes → js_result bool) (active : pow_state).
(** This node: its id, its key in hex, its signer, its proof of work; and whether the link has
    fingerprints to bind to. *)
Context (self pubkeyHex : string) (sign : bytes → bytes) (pow : option string) (fingerprints : bool).

Definition identity_ : auth_identity := mk_auth_identity (Some self) (Some pubkeyHex) (Some (λ m, Ok (sign m))) pow.

(** [_cbv] *)
Definition cbv_of (E : menv) (meshId : string) (c : chan) : option string :=
  my ← truthy (Some (c_myNonce c)); peer ← truthy (c_peerNonce c);
  let nonceCbv := cbvFromNonces my peer MESH_CBV_TAG in
  if negb fingerprints then Some nonceCbv
  else fp ← e_fp E meshId; Some (nonceCbv +:+ "|" +:+ cbvFromFingerprints fp.1 fp.2).

Definition send (E : menv) (meshId ty : string) (body : json) (N : mnode) : mnode :=
  if e_sendFails E then N else log (Sent meshId ty body) N.

(** [_ensure] *)
Definition ensure (E : menv) (meshId : string) (N : mnode) : mnode * nat :=
  match jget (m_state N) meshId with
  | Some ref => (N, ref)
  | None =>
      let ref := length (m_chans N) in
      let N := mk_mnode (m_chans N ++ [new_chan (e_nonce E)]) (jset (m_state N) meshId ref) (m_tasks N) (m_log N) in
      (send E meshId "hello" (JObject [("proto", JText AUTH_PROTO); ("nonce", JText (e_nonce E))]) N, ref)
  end.

(** The second half of [_progress]: what remains to be verified is taken up once. *)
Definition verify_pending (meshId : string) (ref : nat) (cbv : string) (N : mnode) : mnode :=
  match m_chans N !! ref with
  | Some c =>
      if truthy_json (c_pendingSig c) && negb (c_verifying c) && negb (c_bound c)
      then await (TVerify meshId ref cbv (c_pendingSig c)) (upd_chan ref (with_verifying true) N)
      else N
  | None => N
  end.

(** [_progress] up to its first await *)
Definition progress (E : menv) (meshId : string) (N : mnode) : mnode :=
  match jget (m_state N) meshId with
  | None => N
  | Some ref =>
      match m_chans N !! ref with
      | None => N
      | Some c =>
          if c_bound c then N
          else match cbv_of E meshId c with
               | None => N
               | Some cbv =>
                   if c_sigSent c then verify_pending meshId ref cbv N
                   else await (TSig meshId ref cbv) (log (SignHello meshId cbv) (upd_chan ref with_sigSent N))
               end
      end
  end.

(** [_verifyCap] up to its await *)
Definition verifyCap (meshId : string) (ref : nat) (body : json) (N : mnode) : mnode :=
  match m_chans N !! ref with
  | Some c =>
      if c_capable c then N
      else match hexBytes ROOT_PUB_BYTES (default "null" (c_peerPubkey c)) with
           | None => N
           | Some key =>
               await (TCapVerify meshId ref
                 (verifyCapAttest sha256 ed_verify body (Some key) (c_peerNodeId c) (match c_cbv c with Some s => JText s | None => JUndefined end))) N
           end
  | None => N
  end.

(** [_sendCapAttest] up to its await *)
Definition sendCapAttest (meshId : string) (cbv : string) (N : mnode) : mnode :=
  if bool_decide (cbv = "") then N
  else await (TCapSign meshId (signCapAttest sha256 sign (Val (JText self)) (JText cbv))) N.

(** The rest of [_progress] once the verdict is there. *)
Definition resume_verify (E : menv) (meshId : string) (ref : nat) (cbv : string) (frame : json) (N : mnode) : mnode :=
  let clear := upd_chan ref (with_verifying false) in
  match m_chans N !! ref with
  | None => N
  | Some c =>
      match verifyAuthHello sha256 ed_verify active frame (Some cbv) AUTH_PROTO with
      | HBad _ => clear N
      | HOk n _ =>
          if match truthy (c_peerNodeId c) with Some x => negb (bool_decide (x = n)) | None => false end then clear N
          else if match e_allow E with [] => false | l => negb (bool_decide (n ∈ l)) end then clear N
          else
            let '(lo, hi) := sorted_pair (c_myNonce c) (default "undefined" (c_peerNonce c)) in
            if e_bindFails E meshId then clear (log (BindThrew n meshId) N)
            else
              let N := log (Bind ref n meshId (lo +:+ ":" +:+ hi)) N in
              let N := put_state (foldl jdel (m_state N) (e_closes E)) N in
              let N := sendCapAttest meshId cbv (upd_chan ref (bind_chan cbv) N) in
              let N := if truthy_json (c_pendingCap c)
                       then verifyCap meshId ref (c_pendingCap c) (upd_chan ref (with_pendingCap JNullV) N) else N in
              clear N
      end
  end.

(** A task that resumes. *)
Definition resume (E : menv) (t : task) (N : mnode) : mnode :=
  match t with
  | TSig meshId ref cbv =>
      let N := match buildAuthHello (Some identity_) (Some cbv) AUTH_PROTO with
               | Ok proof => send E meshId "hello-sig" proof N
               | Throw _ => N
               end in
      verify_pending meshId ref cbv N
  | TVerify meshId ref cbv frame => resume_verify E meshId ref cbv frame N
  | TCapSign meshId (Ok frame) => send E meshId "cap-attest" frame N
  | TCapSign _ (Throw _) => N
  | TCapVerify meshId ref (Ok (CapOk _ _)) =>
      match m_chans N !! ref with
      | Some c => log (Capable (c_peerNodeId c) meshId) (upd_chan ref with_capable N)
      | None => N
      end
  | TCapVerify _ _ _ => N
  end.

Definition mstep (N : mnode) (x : menv * mevent) : mnode :=
  let E := x.1 in
  match x.2 with
  | ChannelOpen meshId => match jget (m_state N) meshId with Some _ => N | None => (ensure E meshId N).1 end
  | ChannelLost meshId => put_state (jdel (m_state N) meshId) N
  | Hello meshId body =>
      match field body "nonce" with
      | JText nonce => let '(N, ref) := ensure E meshId N in progress E meshId (upd_chan ref (with_peerNonce nonce) N)
      | _ => N
      end
  | HelloSig meshId body => let '(N, ref) := ensure E meshId N in progress E meshId (upd_chan ref (with_pendingSig body) N)
  | CapAttest meshId body =>
      match jget (m_state N) meshId with
      | Some ref =>
          match m_chans N !! ref with
          | Some c =>
              if negb (c_bound c) || bool_decide (truthy (c_peerPubkey c) = None) || bool_decide (truthy (c_cbv c) = None)
              then upd_chan ref (with_pendingCap body) N else verifyCap meshId ref body N
          | None => N
          end
      | None => N
      end
  | Resume i =>
      match m_tasks N !! i with
      | Some t => resume E t (mk_mnode (m_chans N) (m_state N) (delete i (m_tasks N)) (m_log N))
      | None => N
      end
  end.
Definition mrun (N : mnode) (l : list (menv * mevent)) : mnode := foldl mstep N l.

(** [isBound], [boundCount], [isCapable] *)
Definition chan_of (N : mnode) (meshId : string) : option chan := jget (m_state N) meshId ≫= λ ref, m_chans N !! ref.
Definition isBound (N : mnode) (meshId : string) : bool := match chan_of N meshId with Some c => c_bound c | None => false end.
Definition boundCount (N : mnode) : nat :=
  length (filter (λ p, match m_chans N !! p.2 with Some c => c_bound c | None => false end = true) (m_state N)).
Definition isCapable (N : mnode) (meshId : string) : bool := match chan_of N meshId with Some c => c_capable c | None => false end.
End handshake.

(** * Properties *)

(** ** Channel values *)

Lemma cut_last c x x' b b' : clean c b = true → clean c b' = true → x +:+ String c b = x' +:+ String c b' → x = x' ∧ b = b'.
Proof.
  assert (∀ y b b', clean c b = true → b = y +:+ String c b' → False) as Hno.
  { induction y as [|z y IH]; intros d d' Hd ->; simpl in Hd; [by rewrite bool_decide_eq_true_2 in Hd|].
    apply andb_true_iff in Hd as [_ Hd]. by eapply IH. }
  intros Hb Hb'. revert x'. induction x as [|y x IH]; intros [|z x'] H; simpl in H.
  - by injection H as ->.
  - injection H as -> H. destruct (Hno _ _ _ Hb H).
  - injection H as -> H. symmetry in H. destruct (Hno _ _ _ Hb' H).
  - injection H as -> H. by destruct (IH x' H) as [-> ->].
Qed.

(** The fingerprints are read back from the end, whatever the nonces are made of. *)
Lemma channel_inj n n' a b a' b' : clean ":" a = true → clean ":" b = true → clean ":" a' = true → clean ":" b' = true →
  n +:+ "|" +:+ cbvFromFingerprints a b = n' +:+ "|" +:+ cbvFromFingerprints a' b' →
  n = n' ∧ (a = a' ∧ b = b' ∨ a = b' ∧ b = a').
Proof.
  assert (∀ n lo hi, n +:+ "|" +:+ "fp:" +:+ lo +:+ ":" +:+ hi = ((n +:+ "|fp") +:+ String ":" lo) +:+ String ":" hi) as Ha.
  { intros. rewrite !append_assoc. reflexivity. }
  assert (∀ n n', n +:+ "|fp" = n' +:+ "|fp" → n = n') as Hn.
  { intros x. induction x as [|c x IH]; intros [|c' x'] H; simpl in H; try done.
    - injection H as <- H. by destruct x' as [|? [|? [|? ?]]].
    - injection H as -> H. by destruct x as [|? [|? [|? ?]]].
    - injection H as -> H. f_equal. by apply IH. }
  intros H1 H2 H3 H4. unfold cbvFromFingerprints.
  destruct (sorted_pair_cases a b) as [E|E], (sorted_pair_cases a' b') as [E'|E']; rewrite E, E', !Ha;
    intros H; (apply cut_last in H as [H ?]; [|done..]); (apply cut_last in H as [H ?]; [|done..]); apply Hn in H; auto.
Qed.

(** ** One verification, one bind *)

Definition is_verify (ref : nat) (t : task) : bool := match t with TVerify _ r _ _ => Nat.eqb r ref | _ => false end.
Definition is_bind (ref : nat) (e : meff) : bool := match e with Bind r _ _ _ => Nat.eqb r ref | _ => false end.
Definition vtasks (ref : nat) (N : mnode) : nat := length (filter (λ t, is_verify ref t = true) (m_tasks N)).
Definition binds (ref : nat) (N : mnode) : nat := length (filter (λ e, is_bind ref e = true) (m_log N)).
Definition one (b : bool) : nat := if b then 1 else 0.
Lemma filter_one {A} (f : A → bool) x : length (filter (λ t, f t = true) [x]) = one (f x).
Proof. rewrite filter_cons, filter_nil. case_decide as H; [by rewrite H|]. by destruct (f x). Qed.
Definition in_hole (hole : option nat) (ref : nat) : bool := bool_decide (hole = Some ref).

(** Every record is verifying exactly while one verification of it is awaited, is bound exactly when
    it was bound once, and is not verified again then; [hole] is a record whose verification has just
    been resumed. *)
Record shape (hole : option nat) (N : mnode) : Prop := {
  sh_state : ∀ m ref, jget (m_state N) m = Some ref → (ref < length (m_chans N))%nat;
  sh_task : ∀ ref, (length (m_chans N) ≤ ref)%nat → vtasks ref N = 0%nat;
  sh_log : ∀ ref, (length (m_chans N) ≤ ref)%nat → binds ref N = 0%nat;
  sh_verifying : ∀ ref c, m_chans N !! ref = Some c → (vtasks ref N + one (in_hole hole ref) = one (c_verifying c))%nat;
  sh_bound : ∀ ref c, m_chans N !! ref = Some c → binds ref N = one (c_bound c);
  sh_excl : ∀ ref c, m_chans N !! ref = Some c → in_hole hole ref = false → c_verifying c = true → c_bound c = false
}.

Lemma shape_upd hole ref f N : (∀ c, c_verifying (f c) = c_verifying c ∧ c_bound (f c) = c_bound c) →
  shape hole N → shape hole (upd_chan ref f N).
Proof.
  intros Hf [H1 H2 H3 H4 H5 H6]. split; cbn [upd_chan m_state m_chans]; try rewrite length_alter; try done.
  all: intros r c Hc; destruct (decide (r = ref)) as [->|Hne];
    [rewrite list_lookup_alter_eq in Hc; destruct (m_chans N !! ref) as [c0|] eqn:E; [|done]; injection Hc as <-; destruct (Hf c0) as [Ev Eb]; rewrite ?Ev, ?Eb
    |rewrite list_lookup_alter_ne in Hc by done]; eauto.
Qed.
Lemma shape_log hole e N : (∀ ref, is_bind ref e = false) → shape hole N → shape hole (log e N).
Proof.
  intros He [H1 H2 H3 H4 H5 H6]. assert (∀ ref, binds ref (log e N) = binds ref N) as Hb.
  { intros ref. unfold binds. cbn [log m_log]. rewrite filter_app, filter_cons_False; [|by rewrite He]. by rewrite app_nil_r. }
  split; try done; intros; rewrite Hb; [by apply H3|by apply H5].
Qed.
Lemma shape_await hole t N : (∀ ref, is_verify ref t = false) → shape hole N → shape hole (await t N).
Proof.
  intros Ht [H1 H2 H3 H4 H5 H6]. assert (∀ ref, vtasks ref (await t N) = vtasks ref N) as Hb.
  { intros ref. unfold vtasks. cbn [await m_tasks]. rewrite filter_app, filter_cons_False; [|by rewrite Ht]. by rewrite app_nil_r. }
  split; try done; intros; rewrite Hb; [by apply H2|by apply H4].
Qed.
Lemma shape_put hole s N : (∀ m ref, jget s m = Some ref → jget (m_state N) m = Some ref) → shape hole N → shape hole (put_state s N).
Proof. intros Hs [H1 H2 H3 H4 H5 H6]. split; try done. intros m ref H. cbn. eauto. Qed.

Lemma jget_foldl_gone (l : list string) (s : jmap string nat) m ref : jget (foldl jdel s l) m = Some ref → jget s m = Some ref.
Proof.
  revert s. induction l as [|x l IH]; intros s; [done|]. cbn [foldl]. intros H%IH. rewrite jget_jdel in H. by destruct (decide _).
Qed.

Section invariants.
Context (sha256 : bytes → bytes) (ed_verify : bytes → bytes → bytes → js_result bool) (active : pow_state).
Context (self pubkeyHex : string) (sign : bytes → bytes) (pow : option string) (fingerprints : bool).

Local Abbreviation mstep := (mstep sha256 ed_verify active self pubkeyHex sign pow fingerprints).
Local Abbreviation mrun := (mrun sha256 ed_verify active self pubkeyHex sign pow fingerprints).
Local Abbreviation progress := (progress fingerprints).
Local Abbreviation resume_verify := (resume_verify sha256 ed_verify active self sign).
Local Abbreviation resume := (resume sha256 ed_verify active self pubkeyHex sign pow).
Local Abbreviation verifyCap := (verifyCap sha256 ed_verify).
Local Abbreviation sendCapAttest := (sendCapAttest sha256 self sign).

Lemma shape_send hole E m ty b N : shape hole N → shape hole (send E m ty b N).
Proof. intros H. unfold send. destruct (e_sendFails E); [done|]. by apply shape_log. Qed.

Lemma shape_ensure E m N : shape None N → shape None (ensure E m N).1 ∧ ((ensure E m N).2 < length (m_chans (ensure E m N).1))%nat.
Proof.
  intros H. unfold ensure. destruct (jget (m_state N) m) as [ref|] eqn:Em; [split; [done|]; by eapply sh_state|]. cbn [fst snd].
  assert (∀ E' ty b N', m_chans (send E' m ty b N') = m_chans N') as -> by (intros; unfold send; by destruct (e_sendFails _)).
  cbn [m_chans]. rewrite length_app. split; [|simpl; lia]. apply shape_send. destruct H as [H1 H2 H3 H4 H5 H6].
  assert (∀ r c, (m_chans N ++ [new_chan (e_nonce E)]) !! r = Some c → m_chans N !! r = Some c ∨ r = length (m_chans N) ∧ c = new_chan (e_nonce E)) as Hl.
  { intros r c [?|[? Hc]]%lookup_app_Some; [by left|right]. destruct (r - length (m_chans N))%nat eqn:Er; [|done]. injection Hc as <-. split; [lia|done]. }
  split; cbn [m_state m_chans]; try rewrite length_app; simpl.
  - intros m' r. rewrite jget_jset. destruct (decide _); [intros [= <-]; lia|]. intros ?%H1. lia.
  - intros r Hr. apply H2. lia.
  - intros r Hr. apply H3. lia.
  - intros r c [Hc|[-> ->]]%Hl; [by apply H4|]. change (vtasks _ _) with (vtasks (length (m_chans N)) N). by rewrite H2.
  - intros r c [Hc|[-> ->]]%Hl; [by apply H5|]. change (binds _ _) with (binds (length (m_chans N)) N). by rewrite H3.
  - intros r c [Hc|[-> ->]]%Hl; [by apply H6|done].
Qed.

Lemma shape_verify_pending m ref cbv N : shape None N → shape None (verify_pending m ref cbv N).
Proof.
  intros H. unfold verify_pending. destruct (m_chans N !! ref) as [c|] eqn:Ec; [|done].
  destruct (truthy_json _ && _ && _) eqn:E; [|done]. apply andb_true_iff in E as [[_ Ev%negb_true_iff]%andb_true_iff Eb%negb_true_iff].
  destruct H as [H1 H2 H3 H4 H5 H6]. set (t := TVerify _ _ _ _).
  assert (∀ r, vtasks r (await t (upd_chan ref (with_verifying true) N)) = (vtasks r N + one (Nat.eqb ref r))%nat) as Hv.
  { intros r. unfold vtasks. cbn [await m_tasks upd_chan]. by rewrite filter_app, length_app, (filter_one (is_verify r)). }
  split; cbn [await upd_chan m_state m_chans]; try rewrite length_alter; try done.
  - intros r Hr. rewrite Hv, H2 by done. apply lookup_lt_Some in Ec. destruct (Nat.eqb_spec ref r); [lia|done].
  - intros r c' Hc. rewrite Hv. destruct (decide (r = ref)) as [->|Hne].
    + rewrite list_lookup_alter_eq, Ec in Hc. injection Hc as <-. rewrite Nat.eqb_refl. pose proof (H4 _ _ Ec) as Hx. rewrite Ev in Hx. simpl in *. lia.
    + rewrite list_lookup_alter_ne in Hc by done. pose proof (H4 _ _ Hc) as Hx. destruct (Nat.eqb_spec ref r); [done|]. simpl in *. lia.
  - intros r c' Hc. change (binds r N = one (c_bound c')). destruct (decide (r = ref)) as [->|Hne].
    + rewrite list_lookup_alter_eq, Ec in Hc. injection Hc as <-. by apply (H5 ref c).
    + rewrite list_lookup_alter_ne in Hc by done. by apply H5.
  - intros r c' Hc. destruct (decide (r = ref)) as [->|Hne].
    + rewrite list_lookup_alter_eq, Ec in Hc. by injection Hc as <-.
    + rewrite list_lookup_alter_ne in Hc by done. by apply H6.
Qed.

Lemma shape_progress E m N : shape None N → shape None (progress E m N).
Proof.
  intros H. unfold MeshAuth.progress. destruct (jget _ _) as [ref|]; [|done]. destruct (m_chans N !! ref) as [c|]; [|done].
  destruct (c_bound c); [done|]. destruct (cbv_of _ _ _ _); [|done]. destruct (c_sigSent c); [by apply shape_verify_pending|].
  by apply shape_await, shape_log, shape_upd.
Qed.

Lemma shape_verifyCap hole m ref b N : shape hole N → shape hole (verifyCap m ref b N).
Proof.
  intros H. unfold MeshAuth.verifyCap. destruct (m_chans N !! ref); [|done]. destruct (c_capable _); [done|].
  destruct (hexBytes _ _); [|done]. by apply shape_await.
Qed.
Lemma shape_sendCap hole m cbv N : shape hole N → shape hole (sendCapAttest m cbv N).
Proof. intros H. unfold MeshAuth.sendCapAttest. destruct (bool_decide _); [done|]. by apply shape_await. Qed.

(** The end of a verification. *)
Lemma shape_clear ref N : shape (Some ref) N → is_Some (m_chans N !! ref) → shape None (upd_chan ref (with_verifying false) N).
Proof.
  intros [H1 H2 H3 H4 H5 H6] [c Hc]. assert (vtasks ref N = 0%nat) as Hv.
  { specialize (H4 _ _ Hc). unfold in_hole in H4. rewrite bool_decide_eq_true_2 in H4 by done. destruct (c_verifying c); simpl in *; lia. }
  split; cbn [upd_chan m_state m_chans]; try rewrite length_alter; try done.
  all: intros r c' Hr; destruct (decide (r = ref)) as [->|Hne];
    [rewrite list_lookup_alter_eq, Hc in Hr; injection Hr as <-
    |rewrite list_lookup_alter_ne in Hr by done; assert (in_hole (Some ref) r = false) as Hh by (apply bool_decide_eq_false; congruence)].
  - change (vtasks ref N + 0 = 0)%nat. lia.
  - specialize (H4 _ _ Hr). by rewrite Hh in H4.
  - by apply (H5 ref c).
  - by apply (H5 r c').
  - done.
  - intros _. by apply (H6 r).
Qed.

Lemma shape_bind ref n m key cbv N c : shape (Some ref) N → m_chans N !! ref = Some c → c_bound c = false →
  shape (Some ref) (upd_chan ref (bind_chan cbv) (log (Bind ref n m key) N)).
Proof.
  intros [H1 H2 H3 H4 H5 H6] Hc Hb. set (e := Bind _ _ _ _).
  assert (∀ r, binds r (upd_chan ref (bind_chan cbv) (log e N)) = (binds r N + one (Nat.eqb ref r))%nat) as Hv.
  { intros r. unfold binds. cbn [log m_log upd_chan]. by rewrite filter_app, length_app, (filter_one (is_bind r)). }
  split; cbn [log upd_chan m_state m_chans]; try rewrite length_alter; try done.
  - intros r Hr. rewrite Hv, H3 by done. apply lookup_lt_Some in Hc. destruct (Nat.eqb_spec ref r); [lia|done].
  - intros r c' Hr. destruct (decide (r = ref)) as [->|Hne].
    + rewrite list_lookup_alter_eq, Hc in Hr. injection Hr as <-. by apply (H4 ref c).
    + rewrite list_lookup_alter_ne in Hr by done. by apply H4.
  - intros r c' Hr. rewrite Hv. destruct (decide (r = ref)) as [->|Hne].
    + rewrite list_lookup_alter_eq, Hc in Hr. injection Hr as <-. rewrite (H5 _ _ Hc), Hb, Nat.eqb_refl. done.
    + rewrite list_lookup_alter_ne in Hr by done. rewrite (H5 _ _ Hr). destruct (Nat.eqb_spec ref r); [done|]. simpl. lia.
  - intros r c' Hr Hh. assert (r ≠ ref) as Hne by (intros ->; unfold in_hole in Hh; by rewrite bool_decide_eq_true_2 in Hh).
    rewrite list_lookup_alter_ne in Hr by done. by apply (H6 r).
Qed.

Lemma chans_verifyCap m ref b N : m_chans (verifyCap m ref b N) = m_chans N.
Proof. unfold MeshAuth.verifyCap. by repeat case_match. Qed.
Lemma chans_sendCap m cbv N : m_chans (sendCapAttest m cbv N) = m_chans N.
Proof. unfold MeshAuth.sendCapAttest. by case_match. Qed.

(** A record of the hole that is not yet bound. *)
Lemma shape_resume_verify E m ref cbv frame N c : shape (Some ref) N → m_chans N !! ref = Some c → c_bound c = false →
  shape None (resume_verify E m ref cbv frame N).
Proof.
  intros H Hc Hb. unfold MeshAuth.resume_verify. rewrite Hc.
  assert (∀ N', m_chans N' = m_chans N → shape (Some ref) N' → shape None (upd_chan ref (with_verifying false) N')) as Hcl.
  { intros N' E' H'. apply shape_clear; [done|]. rewrite E', Hc. by eexists. }
  destruct (verifyAuthHello _ _ _ _ _ _) as [n k|r]; [|by apply Hcl].
  destruct (match truthy _ with Some x => _ | None => _ end); [by apply Hcl|]. destruct (match e_allow E with [] => _ | _ => _ end); [by apply Hcl|].
  destruct (sorted_pair _ _) as [lo hi]. cbv zeta. destruct (e_bindFails E _); [apply Hcl; [done|by apply shape_log]|].
  set (N1 := log _ N). assert (shape (Some ref) (upd_chan ref (bind_chan cbv) (put_state (foldl jdel (m_state N1) (e_closes E)) N1)) ∧
    is_Some (m_chans (upd_chan ref (bind_chan cbv) (put_state (foldl jdel (m_state N1) (e_closes E)) N1)) !! ref)) as [H2 Hs2].
  { split; [|cbn [upd_chan put_state m_chans]; rewrite list_lookup_alter_eq; unfold N1; cbn [log m_chans]; rewrite Hc; by eexists].
    change (shape (Some ref) (put_state (foldl jdel (m_state N1) (e_closes E)) (upd_chan ref (bind_chan cbv) N1))).
    apply shape_put; [intros m' r; apply jget_foldl_gone|]. by eapply shape_bind. }
  set (N2 := upd_chan ref (bind_chan cbv) _) in *. clearbody N2.
  assert (shape (Some ref) (sendCapAttest m cbv N2) ∧ is_Some (m_chans (sendCapAttest m cbv N2) !! ref)) as [H3 Hs3].
  { split; [by apply shape_sendCap|]. by rewrite chans_sendCap. }
  destruct (truthy_json _); [|by apply shape_clear]. apply shape_clear.
  - apply shape_verifyCap, shape_upd; [by intros []|done].
  - rewrite chans_verifyCap. cbn [upd_chan m_chans]. rewrite list_lookup_alter_eq. destruct Hs3 as [? ->]. by eexists.
Qed.

Lemma vtasks_delete i N t ref : m_tasks N !! i = Some t →
  (vtasks ref (mk_mnode (m_chans N) (m_state N) (delete i (m_tasks N)) (m_log N)) + one (is_verify ref t) = vtasks ref N)%nat.
Proof.
  intros H. unfold vtasks. cbn [m_tasks]. rewrite <-(take_drop_middle _ _ _ H) at 2. rewrite delete_take_drop.
  rewrite !filter_app, filter_cons, !length_app. case_decide as Hd; [rewrite Hd; simpl; lia|]. destruct (is_verify ref t); [done|]. simpl. lia.
Qed.

Lemma shape_resume E i t N : shape None N → m_tasks N !! i = Some t →
  shape None (resume E t (mk_mnode (m_chans N) (m_state N) (delete i (m_tasks N)) (m_log N))).
Proof.
  intros [H1 H2 H3 H4 H5 H6] Hi. set (D := mk_mnode _ _ _ _). assert (∀ r, (vtasks r D + one (is_verify r t) = vtasks r N)%nat) as Hv
    by (intros; by apply vtasks_delete).
  assert ((∀ r, is_verify r t = false) → shape None D) as Hd.
  { intros Ht. split; try done; intros r; specialize (Hv r); rewrite Ht in Hv; simpl in Hv; rewrite Nat.add_0_r in Hv; rewrite Hv; [apply H2|apply H4]. }
  destruct t as [m ref cbv|m ref cbv frame|m [frame|x]|m ref [[]|x]]; cbn [MeshAuth.resume]; try (by apply Hd).
  - apply shape_verify_pending. destruct (buildAuthHello _ _ _); [apply shape_send|]; by apply Hd.
  - assert (is_Some (m_chans N !! ref)) as [c Hc].
    { apply lookup_lt_is_Some. destruct (decide (ref < length (m_chans N))%nat); [done|]. specialize (Hv ref).
      rewrite H2 in Hv by lia. simpl in Hv. rewrite Nat.eqb_refl in Hv. simpl in Hv. lia. }
    pose proof (H4 _ _ Hc) as Hx. pose proof (Hv ref) as Hy. simpl in Hy. rewrite Nat.eqb_refl in Hy. simpl in Hx, Hy.
    assert (c_verifying c = true) as Hvc by (destruct (c_verifying c); [done|simpl in Hx; lia]).
    eapply (shape_resume_verify _ _ _ _ _ _ c); [|done|by apply (H6 ref)].
    split; try done.
    + intros r Hr. specialize (Hv r). rewrite H2 in Hv by done. lia.
    + intros r c' Hr. specialize (Hv r). simpl in Hv. pose proof (H4 _ _ Hr) as Hz. simpl in Hz. unfold in_hole.
      destruct (Nat.eqb_spec ref r) as [->|Hne]; [rewrite bool_decide_eq_true_2 by done|rewrite bool_decide_eq_false_2 by congruence];
        simpl in *; lia.
    + intros r c' Hr _. by apply (H6 r).
  - by apply shape_send, Hd.
  - destruct (m_chans D !! ref); [|by apply Hd]. apply shape_log; [done|]. apply shape_upd; [by intros []|]. by apply Hd.
Qed.

Lemma shape_step N x : shape None N → shape None (mstep N x).
Proof.
  intros H. destruct x as [E [m|m|m b|m b|m b|i]]; cbn [MeshAuth.mstep fst snd].
  - destruct (jget _ _); [done|]. by apply shape_ensure.
  - apply shape_put; [|done]. intros m' r. rewrite jget_jdel. by destruct (decide _).
  - destruct (field b "nonce") as [| | | | |p| |]; try done. destruct (shape_ensure E m N H) as [He _]. destruct (ensure E m N) as [N1 ref].
    apply shape_progress, shape_upd; [by intros []|done].
  - destruct (shape_ensure E m N H) as [He _]. destruct (ensure E m N) as [N1 ref]. apply shape_progress, shape_upd; [by intros []|done].
  - destruct (jget _ _) as [ref|]; [|done]. destruct (m_chans N !! ref); [|done]. destruct (_ || _); [apply shape_upd; [by intros []|done]|].
    by apply shape_verifyCap.
  - destruct (m_tasks N !! i) as [t|] eqn:Hi; [|done]. by eapply shape_resume.
Qed.

Lemma shape_run N l : shape None N → shape None (mrun N l).
Proof. revert N. induction l as [|x l IH]; intros N H; [done|]. apply IH. by apply shape_step. Qed.
Lemma shape_new : shape None new_mnode.
Proof. by split. Qed.

(** ** Where a bind comes from *)

Definition history := list (menv * mevent).
Definition heard (l : history) (m p : string) : Prop := ∃ E b, (E, Hello m b) ∈ l ∧ field b "nonce" = JText p.
Definition proof_heard (l : history) (m : string) (b : json) : Prop := ∃ E, (E, HelloSig m b) ∈ l.
Definition drawn (l : history) (n : string) : Prop := ∃ x, x ∈ l ∧ e_nonce x.1 = n.
(** [cbv] binds this node's nonce [my], a nonce the channel [m] was told, and the fingerprints of [m]. *)
Definition channel_value (l : history) (m my cbv : string) : Prop := ∃ p, my ≠ "" ∧ p ≠ "" ∧ drawn l my ∧ heard l m p ∧
  if fingerprints then ∃ x fp, x ∈ l ∧ e_fp x.1 m = Some fp ∧
    cbv = cbvFromNonces my p MESH_CBV_TAG +:+ "|" +:+ cbvFromFingerprints fp.1 fp.2
  else cbv = cbvFromNonces my p MESH_CBV_TAG.

(** What justified binding [n] at the channel [m] under the record whose nonce is [my]. *)
Definition proven (l : history) (m my n : string) : Prop := ∃ cbv frame k,
  channel_value l m my cbv ∧ proof_heard l m frame ∧ authentic sha256 ed_verify active frame cbv AUTH_PROTO n k ∧
  (∃ x, x ∈ l ∧ (e_allow x.1 = [] ∨ n ∈ e_allow x.1)).

Definition my_at (N : mnode) (ref : nat) : option string := c_myNonce <$> m_chans N !! ref.

(** [home] tells the channel a record was made for. *)
Record sound (l : history) (home : list string) (N : mnode) : Prop := {
  so_len : length home = length (m_chans N);
  so_state : ∀ m ref, jget (m_state N) m = Some ref → home !! ref = Some m;
  so_chan : ∀ ref c m, m_chans N !! ref = Some c → home !! ref = Some m → drawn l (c_myNonce c) ∧
    (∀ p, c_peerNonce c = Some p → heard l m p) ∧ (truthy_json (c_pendingSig c) = true → proof_heard l m (c_pendingSig c));
  so_task : ∀ t, t ∈ m_tasks N → match t with
    | TSig m ref cbv => home !! ref = Some m ∧ ∃ my, my_at N ref = Some my ∧ channel_value l m my cbv
    | TVerify m ref cbv frame => home !! ref = Some m ∧ proof_heard l m frame ∧ ∃ my, my_at N ref = Some my ∧ channel_value l m my cbv
    | _ => True
    end;
  so_log : ∀ e, e ∈ m_log N → match e with
    | Bind ref n m key => home !! ref = Some m ∧ ∃ my, my_at N ref = Some my ∧ proven l m my n
    | SignHello m cbv => ∃ my, channel_value l m my cbv
    | _ => True
    end
}.

Lemma channel_value_mono l l' m my cbv : l ⊆ l' → channel_value l m my cbv → channel_value l' m my cbv.
Proof.
  intros Hl (p & H1 & H2 & (x & Hx & ?) & (E & b & Hb & ?) & Hfp). exists p. split_and!; [done..|by exists x; auto|by exists E, b; auto|].
  destruct fingerprints; [|done]. destruct Hfp as (y & fp & ? & ? & ?). exists y, fp. auto.
Qed.
Lemma proof_heard_mono l l' m b : l ⊆ l' → proof_heard l m b → proof_heard l' m b.
Proof. intros Hl [E H]. exists E. auto. Qed.
Lemma proven_mono l l' m my n : l ⊆ l' → proven l m my n → proven l' m my n.
Proof.
  intros Hl (cbv & frame & k & H1 & H2 & H3 & x & Hx & H4). exists cbv, frame, k. split_and!; [by eapply channel_value_mono|by eapply proof_heard_mono|done|].
  exists x. auto.
Qed.

Lemma sound_mono l l' home N : l ⊆ l' → sound l home N → sound l' home N.
Proof.
  intros Hl [H1 H2 H3 H4 H5]. split; try done.
  - intros ref c m Hc Hh. destruct (H3 _ _ _ Hc Hh) as ((x & Hx & ?) & Hp & Hs). split_and!; [by exists x; auto| |].
    + intros p (E & b & ? & ?)%Hp. exists E, b. auto.
    + intros ?%Hs. by eapply proof_heard_mono.
  - intros t Ht. specialize (H4 _ Ht). destruct t as [m ref cbv|m ref cbv frame| |]; try done.
    + destruct H4 as (? & my & ? & ?). split; [done|]. exists my. split; [done|]. by eapply channel_value_mono.
    + destruct H4 as (? & ? & my & ? & ?). split_and!; [done|by eapply proof_heard_mono|]. exists my. split; [done|]. by eapply channel_value_mono.
  - intros e He. specialize (H5 _ He). destruct e as [m cbv| |ref n m key| |]; try done.
    + destruct H5 as (my & ?). exists my. by eapply channel_value_mono.
    + destruct H5 as (? & my & ? & ?). split; [done|]. exists my. split; [done|]. by eapply proven_mono.
Qed.

(** Steps that keep it: a changed record, a new effect, a new task, a lost channel. *)
Lemma sound_chans l home N cs : sound l home N → (∀ ref, c_myNonce <$> cs !! ref = my_at N ref) → length cs = length (m_chans N) →
  (∀ ref c m, cs !! ref = Some c → home !! ref = Some m →
    (∀ p, c_peerNonce c = Some p → heard l m p) ∧ (truthy_json (c_pendingSig c) = true → proof_heard l m (c_pendingSig c))) →
  sound l home (mk_mnode cs (m_state N) (m_tasks N) (m_log N)).
Proof.
  intros [H1 H2 H3 H4 H5] Hm Hl Hc. split; try done; [by cbn; rewrite H1, Hl| | |].
  - intros ref c m Hr Hh. split; [|by eapply Hc]. specialize (Hm ref). cbn in Hr. rewrite Hr in Hm. unfold my_at in Hm.
    destruct (m_chans N !! ref) as [c0|] eqn:E; [|done]. injection Hm as Hm. rewrite Hm. by eapply H3.
  - intros t Ht. specialize (H4 _ Ht). destruct t; unfold my_at in *; cbn [m_chans]; rewrite ?Hm; done.
  - intros e He. specialize (H5 _ He). destruct e; unfold my_at in *; cbn [m_chans]; rewrite ?Hm; done.
Qed.

Lemma sound_upd l home N ref f : sound l home N → (∀ c, c_myNonce (f c) = c_myNonce c) →
  (∀ c m, m_chans N !! ref = Some c → home !! ref = Some m → (∀ p, c_peerNonce (f c) = Some p → heard l m p) ∧
    (truthy_json (c_pendingSig (f c)) = true → proof_heard l m (c_pendingSig (f c)))) →
  sound l home (upd_chan ref f N).
Proof.
  intros HS Hf Hc. apply sound_chans; [done| |by rewrite length_alter|].
  - intros r. unfold my_at. destruct (decide (r = ref)) as [->|]; [|by rewrite list_lookup_alter_ne].
    rewrite list_lookup_alter_eq. destruct (m_chans N !! ref); [|done]. simpl. by rewrite Hf.
  - intros r c m. destruct (decide (r = ref)) as [->|]; [|rewrite list_lookup_alter_ne by done; intros; by eapply so_chan].
    rewrite list_lookup_alter_eq. destruct (m_chans N !! ref) as [c0|]; [|done]. intros [= <-] Hh. by apply Hc.
Qed.
(** A change that keeps what was heard. *)
Lemma sound_same l home N ref f : sound l home N →
  (∀ c, c_myNonce (f c) = c_myNonce c ∧ c_peerNonce (f c) = c_peerNonce c ∧ c_pendingSig (f c) = c_pendingSig c) →
  sound l home (upd_chan ref f N).
Proof.
  intros HS Hf. apply sound_upd; [done|intros c; apply Hf|]. intros c m Hc Hh. destruct (Hf c) as (_ & -> & ->). by eapply so_chan.
Qed.

Lemma sound_log l home N e : sound l home N → match e with
    | Bind ref n m key => home !! ref = Some m ∧ ∃ my, my_at N ref = Some my ∧ proven l m my n
    | SignHello m cbv => ∃ my, channel_value l m my cbv
    | _ => True
    end → sound l home (log e N).
Proof. intros [H1 H2 H3 H4 H5] He. split; try done. intros e' [?|?%list_elem_of_singleton]%elem_of_app; [by apply H5|by subst e']. Qed.

Lemma sound_await l home N t : sound l home N → match t with
    | TSig m ref cbv => home !! ref = Some m ∧ ∃ my, my_at N ref = Some my ∧ channel_value l m my cbv
    | TVerify m ref cbv frame => home !! ref = Some m ∧ proof_heard l m frame ∧ ∃ my, my_at N ref = Some my ∧ channel_value l m my cbv
    | _ => True
    end → sound l home (await t N).
Proof. intros [H1 H2 H3 H4 H5] He. split; try done. intros e' [?|?%list_elem_of_singleton]%elem_of_app; [by apply H4|by subst e']. Qed.

Lemma sound_put l home N s : sound l home N → (∀ m ref, jget s m = Some ref → jget (m_state N) m = Some ref) → sound l home (put_state s N).
Proof. intros [H1 H2 H3 H4 H5] Hs. split; try done. intros m ref H. cbn in H. eauto. Qed.

Lemma sound_send l home E m ty b N : sound l home N → sound l home (send E m ty b N).
Proof. intros H. unfold send. destruct (e_sendFails E); [done|]. by apply sound_log. Qed.

Lemma sound_ensure l home E m N : sound l home N → drawn l (e_nonce E) →
  ∃ home', sound l home' (ensure E m N).1 ∧ home' !! (ensure E m N).2 = Some m ∧ jget (m_state (ensure E m N).1) m = Some (ensure E m N).2.
Proof.
  intros HS Hd. unfold ensure. destruct (jget (m_state N) m) as [ref|] eqn:Em.
  - exists home. split_and!; [done|by eapply so_state|done].
  - exists (home ++ [m]). cbn [fst snd]. destruct HS as [H1 H2 H3 H4 H5].
    assert (∀ E' ty b N', m_state (send E' m ty b N') = m_state N') as -> by (intros; unfold send; by destruct (e_sendFails _)).
    cbn [m_state]. rewrite jget_jset_eq. split; [|split; [rewrite <-H1; by rewrite lookup_app_r, Nat.sub_diag by lia|done]].
    assert (∀ r, is_Some (home !! r) → (home ++ [m]) !! r = home !! r) as Hh.
    { intros r Hr%lookup_lt_is_Some. by rewrite lookup_app_l. }
    assert (∀ r my, my_at N r = Some my → c_myNonce <$> (m_chans N ++ [new_chan (e_nonce E)]) !! r = Some my) as Hm.
    { intros r my. unfold my_at. destruct (m_chans N !! r) eqn:Er; [|done]. rewrite lookup_app_l by (by eapply lookup_lt_Some). by rewrite Er. }
    apply sound_send. split; cbn [m_chans m_state m_tasks m_log].
    + rewrite !length_app, H1. done.
    + intros m' r. rewrite jget_jset. destruct (decide _) as [->|]; [intros [= <-]; rewrite <-H1; by rewrite lookup_app_r, Nat.sub_diag by lia|].
      intros Hr%H2. by rewrite Hh by (by eexists).
    + intros r c m' [Hc|[Hge Hc]]%lookup_app_Some Hm'.
      * rewrite lookup_app_l in Hm' by (rewrite H1; by eapply lookup_lt_Some). by eapply H3.
      * destruct (r - length (m_chans N))%nat; [|done]. injection Hc as <-. split_and!; [done|done|done].
    + intros t Ht. specialize (H4 _ Ht). destruct t as [m' r cbv|m' r cbv fr| |]; try done.
      * destruct H4 as (Hr & my & Hmy & ?). rewrite Hh by (by eexists). split; [done|]. exists my. split; [by apply Hm|done].
      * destruct H4 as (Hr & ? & my & Hmy & ?). rewrite Hh by (by eexists). split_and!; [done..|]. exists my. split; [by apply Hm|done].
    + intros e He. specialize (H5 _ He). destruct e as [| |r n m' key| |]; try done.
      destruct H5 as (Hr & my & Hmy & ?). rewrite Hh by (by eexists). split; [done|]. exists my. split; [by apply Hm|done].
Qed.

Lemma truthy_Some s x : truthy s = Some x ↔ s = Some x ∧ x ≠ "".
Proof. destruct s as [[|c s]|]; simpl; naive_solver. Qed.

Lemma cbv_value l home N E x m ref c cbv : sound l home N → x ∈ l → E = x.1 → home !! ref = Some m → m_chans N !! ref = Some c →
  cbv_of fingerprints E m c = Some cbv → channel_value l m (c_myNonce c) cbv.
Proof.
  intros HS Hx -> Hh Hc. unfold cbv_of. destruct (truthy (Some (c_myNonce c))) as [my|] eqn:E1; [|done].
  destruct (truthy (c_peerNonce c)) as [p|] eqn:E2; [|done]. apply truthy_Some in E1 as [[= E1] ?], E2 as [E2 ?]. subst my.
  destruct (so_chan _ _ _ HS _ _ _ Hc Hh) as (Hd & Hp & _). cbn [mbind option_bind]. intros Hcv. exists p. split_and!; try done; [by apply Hp|].
  destruct fingerprints; cbn [negb] in Hcv; [|by injection Hcv as <-]. destruct (e_fp x.1 m) as [fp|] eqn:Ef; [|done]. injection Hcv as <-.
  by exists x, fp.
Qed.

Lemma sound_verify_pending l home m ref cbv N my : sound l home N → home !! ref = Some m → my_at N ref = Some my → channel_value l m my cbv →
  sound l home (verify_pending m ref cbv N).
Proof.
  intros HS Hh Hm Hv. unfold verify_pending. destruct (m_chans N !! ref) as [c|] eqn:Ec; [|done].
  destruct (truthy_json _ && _ && _) eqn:E; [|done]. apply andb_true_iff in E as [[Ht _]%andb_true_iff _].
  apply sound_await; [by apply sound_same|]. split_and!; [done|by eapply so_chan|]. exists my. split; [|done].
  unfold my_at in *. cbn [upd_chan m_chans]. rewrite list_lookup_alter_eq, Ec. rewrite Ec in Hm. done.
Qed.

Lemma sound_progress l home E x m N : sound l home N → x ∈ l → E = x.1 → sound l home (progress E m N).
Proof.
  intros HS Hx HE. unfold MeshAuth.progress. destruct (jget (m_state N) m) as [ref|] eqn:Em; [|done].
  destruct (m_chans N !! ref) as [c|] eqn:Ec; [|done]. destruct (c_bound c); [done|].
  destruct (cbv_of _ _ _ _) as [cbv|] eqn:Ev; [|done]. pose proof (so_state _ _ _ HS _ _ Em) as Hh.
  pose proof (cbv_value _ _ _ _ _ _ _ _ _ HS Hx HE Hh Ec Ev) as Hv.
  assert (my_at N ref = Some (c_myNonce c)) as Hm by (unfold my_at; by rewrite Ec).
  destruct (c_sigSent c); [by eapply sound_verify_pending|]. apply sound_await.
  - apply sound_log; [by apply sound_same|]. by exists (c_myNonce c).
  - split; [done|]. exists (c_myNonce c). split; [|done]. unfold my_at. cbn [log upd_chan m_chans]. by rewrite list_lookup_alter_eq, Ec.
Qed.

Lemma sound_verifyCap l home m ref b N : sound l home N → sound l home (verifyCap m ref b N).
Proof. intros H. unfold MeshAuth.verifyCap. destruct (m_chans N !! ref); [|done]. destruct (c_capable _); [done|].
  destruct (hexBytes _ _); [|done]. by apply sound_await. Qed.
Lemma sound_sendCap l home m cbv N : sound l home N → sound l home (sendCapAttest m cbv N).
Proof. intros H. unfold MeshAuth.sendCapAttest. case_match; [done|]. by apply sound_await. Qed.

Lemma sound_resume_verify l home E x m ref cbv frame N my : sound l home N → x ∈ l → E = x.1 → home !! ref = Some m →
  my_at N ref = Some my → channel_value l m my cbv → proof_heard l m frame → sound l home (resume_verify E m ref cbv frame N).
Proof.
  intros HS Hx HE Hh Hm Hv Hp. unfold MeshAuth.resume_verify. destruct (m_chans N !! ref) as [c|] eqn:Ec; [|done].
  pose proof (hello_verdict sha256 ed_verify active frame (Some cbv) AUTH_PROTO) as Hok.
  destruct (verifyAuthHello _ _ _ _ _ _) as [n k|r]; [|by apply sound_same]. destruct Hok as (? & [= <-] & Hok).
  destruct (match truthy _ with Some x => _ | None => _ end); [by apply sound_same|].
  destruct (match e_allow E with [] => _ | _ => _ end) eqn:Ea; [by apply sound_same|].
  destruct (sorted_pair _ _) as [lo hi]. cbv zeta. destruct (e_bindFails E _); [apply sound_same; [by apply sound_log|done]|].
  apply sound_same; [|done].
  assert (∀ N', sound l home N' → sound l home (if truthy_json (c_pendingCap c)
    then verifyCap m ref (c_pendingCap c) (upd_chan ref (with_pendingCap JNullV) N') else N')) as Hcap.
  { intros N' H'. destruct (truthy_json _); [|done]. apply sound_verifyCap. by apply sound_same. }
  apply Hcap, sound_sendCap, sound_same; [|done]. apply sound_put; [|intros m' r; apply jget_foldl_gone].
  apply sound_log; [done|]. split; [done|]. exists my. split; [done|]. exists cbv, frame, k. split_and!; [done..|].
  exists x. split; [done|]. subst E. destruct (e_allow x.1) as [|a q]; [by left|right]. by apply negb_false_iff, bool_decide_eq_true in Ea.
Qed.

Lemma sound_step l home N x : sound l home N → ∃ home', sound (l ++ [x]) home' (mstep N x).
Proof.
  intros HS%(sound_mono _ (l ++ [x])); [|intros ? ?; apply elem_of_app; by left]. set (l' := l ++ [x]) in *.
  assert (x ∈ l') as Hx by (apply elem_of_app; right; by apply list_elem_of_singleton). clearbody l'.
  assert (drawn l' (e_nonce x.1)) as Hd by by exists x.
  destruct x as [E [m|m|m b|m b|m b|i]]; cbn [MeshAuth.mstep fst snd] in *.
  - destruct (jget (m_state N) m) eqn:Em; [by exists home|]. destruct (sound_ensure _ _ E m N HS Hd) as (home' & H & _). by exists home'.
  - exists home. apply sound_put; [done|]. intros m' r. rewrite jget_jdel. by destruct (decide _).
  - destruct (field b "nonce") as [| | | | |p| |] eqn:Eb; try by exists home.
    destruct (sound_ensure _ _ E m N HS Hd) as (home' & H & Hh & _). destruct (ensure E m N) as [N1 ref]. cbn [fst snd] in *. exists home'.
    eapply sound_progress; [|exact Hx|done]. apply sound_upd; [done|done|]. intros c m' Hc Hm'. rewrite Hh in Hm'. injection Hm' as <-.
    destruct (so_chan _ _ _ H _ _ _ Hc Hh) as (_ & _ & Hs). split; [|exact Hs]. intros ? [= <-]. by exists E, b.
  - destruct (sound_ensure _ _ E m N HS Hd) as (home' & H & Hh & _). destruct (ensure E m N) as [N1 ref]. cbn [fst snd] in *. exists home'.
    eapply sound_progress; [|exact Hx|done]. apply sound_upd; [done|done|]. intros c m' Hc Hm'. rewrite Hh in Hm'. injection Hm' as <-.
    destruct (so_chan _ _ _ H _ _ _ Hc Hh) as (_ & Hs & _). split; [exact Hs|]. intros _. by exists E.
  - exists home. destruct (jget _ _) as [ref|]; [|done]. destruct (m_chans N !! ref); [|done]. destruct (_ || _); [by apply sound_same|].
    by apply sound_verifyCap.
  - exists home. destruct (m_tasks N !! i) as [t|] eqn:Hi; [|done]. pose proof (so_task _ _ _ HS t (list_elem_of_lookup_2 _ _ _ Hi)) as Ht.
    set (D := mk_mnode _ _ _ _). assert (sound l' home D) as HD.
    { destruct HS as [H1 H2 H3 H4 H5]. split; try done. intros t' Ht'. apply H4. rewrite <-(take_drop_middle _ _ _ Hi).
      cbn [m_tasks D] in Ht'. rewrite delete_take_drop in Ht'. apply elem_of_app in Ht' as [?|?]; apply elem_of_app; [by left|right; by right]. }
    destruct t as [m ref cbv|m ref cbv frame|m [frame|e]|m ref [[]|e]]; cbn [MeshAuth.resume]; try done.
    + destruct Ht as (Hh & my & Hm & Hv). apply (sound_verify_pending _ _ _ _ _ _ my); [|done| |done].
      * destruct (buildAuthHello _ _ _); [by apply sound_send|done].
      * destruct (buildAuthHello _ _ _); [|done]. unfold send. by destruct (e_sendFails E).
    + destruct Ht as (Hh & Hp & my & Hm & Hv). by eapply (sound_resume_verify _ _ _ _ _ _ _ _ _ my HD Hx).
    + by apply sound_send.
    + destruct (m_chans D !! ref); [|done]. apply sound_log; [|done]. by apply sound_same.
Qed.

Lemma sound_run l : ∃ home, sound l home (mrun new_mnode l).
Proof.
  induction l as [|x l [home IH]] using rev_ind; [exists []; split; cbn; [done|done|done|by intros t ?%not_elem_of_nil|by intros e ?%not_elem_of_nil]|].
  unfold MeshAuth.mrun in *. rewrite foldl_snoc. by eapply sound_step.
Qed.

(** ** A link that loses nothing ends bound *)

Definition touches (m : string) (ev : mevent) : Prop :=
  match ev with ChannelOpen x | ChannelLost x | Hello x _ | HelloSig x _ | CapAttest x _ => x = m | Resume _ => False end.

(** The channel [m] stays open; the peer tells one nonce [p] and sends one proof [body] of [n], over the
    value of the nonce [my] this node drew for it; nothing refuses the bind. *)
Record good_link (l : history) (m my p n k : string) (fp : string * string) (body : json) : Prop := {
  gl_my : ∀ E ev, (E, ev) ∈ l → touches m ev → e_nonce E = my;
  gl_open : ∀ E, (E, ChannelLost m) ∉ l;
  gl_hello : ∀ q, heard l m q → q = p;
  gl_sig : ∀ b, proof_heard l m b → b = body;
  gl_env : ∀ x, x ∈ l → e_bindFails x.1 m = false ∧ m ∉ e_closes x.1 ∧ (e_allow x.1 = [] ∨ n ∈ e_allow x.1) ∧ e_fp x.1 m = Some fp;
  gl_some : my ≠ "" ∧ p ≠ "" ∧ truthy_json body = true;
  gl_proof : verifyAuthHello sha256 ed_verify active body
    (Some (cbvFromNonces my p MESH_CBV_TAG +:+ (if fingerprints then ("|" +:+ cbvFromFingerprints fp.1 fp.2) else ""))) AUTH_PROTO = HOk n k
}.

Definition under_way (N : mnode) (ref : nat) (c : chan) : Prop :=
  c_bound c = true ∨ c_verifying c = true ∨ ∃ m cbv, TSig m ref cbv ∈ m_tasks N.

Section link.
Context (m my p n k : string) (fp : string * string) (body : json).

(** With both halves in hand, the channel is bound or on its way. *)
Definition rolling (N : mnode) : Prop := ∀ ref c, jget (m_state N) m = Some ref → m_chans N !! ref = Some c →
  c_myNonce c = my ∧ (c_peerNodeId c = None ∨ c_peerNodeId c = Some n) ∧
  (c_peerNonce c = Some p → c_pendingSig c = body → under_way N ref c).

Lemma under_way_await N t ref c : under_way N ref c → under_way (await t N) ref c.
Proof. intros [?|[?|(m' & cbv & H)]]; [by left|by right; left|]. right; right. exists m', cbv. cbn. apply elem_of_app. by left. Qed.

Lemma rolling_await N t : rolling N → rolling (await t N).
Proof. intros H ref c Hs Hc. destruct (H ref c Hs Hc) as (? & ? & Hu). split_and!; [done..|]. intros. by apply under_way_await, Hu. Qed.
Lemma rolling_log N e : rolling N → rolling (log e N).
Proof. done. Qed.
Lemma rolling_send E x ty b N : rolling N → rolling (send E x ty b N).
Proof. unfold send. by destruct (e_sendFails E). Qed.
Lemma rolling_put N s : jget s m = jget (m_state N) m → rolling N → rolling (put_state s N).
Proof. intros E H ref c Hs. cbn in Hs. rewrite E in Hs. by apply H. Qed.
Lemma rolling_upd N ref f : rolling N → (∀ c, m_chans N !! ref = Some c → jget (m_state N) m = Some ref →
    c_myNonce (f c) = c_myNonce c ∧ c_peerNodeId (f c) = c_peerNodeId c ∧ c_peerNonce (f c) = c_peerNonce c ∧
    c_pendingSig (f c) = c_pendingSig c ∧ (under_way N ref c → under_way N ref (f c))) → rolling (upd_chan ref f N).
Proof.
  intros H Hf r c Hs. cbn [upd_chan m_chans m_state] in *. destruct (decide (r = ref)) as [->|].
  - rewrite list_lookup_alter_eq. destruct (m_chans N !! ref) as [c0|] eqn:E; [|done]. intros [= <-].
    destruct (Hf _ eq_refl Hs) as (E1 & E2 & E3 & E4 & Hu), (H _ _ Hs E) as (H1 & H2 & H3). rewrite E1, E2, E3, E4. split_and!; [done..|].
    intros. by apply Hu, H3.
  - rewrite list_lookup_alter_ne by done. by apply H.
Qed.
Lemma rolling_other N ref f : rolling N → jget (m_state N) m ≠ Some ref → rolling (upd_chan ref f N).
Proof. intros H Hn. apply rolling_upd; [done|]. by intros c _ ?. Qed.

Lemma rolling_verify_pending x ref cbv N : rolling N → rolling (verify_pending x ref cbv N).
Proof.
  intros H. unfold verify_pending. destruct (m_chans N !! ref) as [c|] eqn:Ec; [|done]. destruct (_ && _ && _); [|done].
  apply rolling_await, rolling_upd; [done|]. intros c' _ _. split_and!; try done. intros _. right; by left.
Qed.
Lemma rolling_verifyCap x ref b N : rolling N → rolling (verifyCap x ref b N).
Proof.
  intros H. unfold MeshAuth.verifyCap. destruct (m_chans N !! ref); [|done]. destruct (c_capable _); [done|].
  destruct (hexBytes _ _); [|done]. by apply rolling_await.
Qed.
Lemma rolling_sendCap x cbv N : rolling N → rolling (sendCapAttest x cbv N).
Proof. intros H. unfold MeshAuth.sendCapAttest. case_match; [done|]. by apply rolling_await. Qed.

(** The channel of [m] once its verification is taken up, and once it is started. *)
Lemma pending_done x ref cbv N c : m_chans N !! ref = Some c → truthy_json (c_pendingSig c) = true → ∃ c',
  m_chans (verify_pending x ref cbv N) !! ref = Some c' ∧ m_state (verify_pending x ref cbv N) = m_state N ∧
  (c_myNonce c' = c_myNonce c ∧ c_peerNodeId c' = c_peerNodeId c) ∧ (c_bound c' = true ∨ c_verifying c' = true).
Proof.
  intros Hc Ht. unfold verify_pending. rewrite Hc, Ht. cbn [andb]. destruct (c_verifying c) eqn:Ev; cbn [negb andb].
  - exists c. split_and!; [done..|]. by right.
  - destruct (c_bound c) eqn:Eb; cbn [negb]; [exists c; split_and!; [done..|]; by left|]. exists (with_verifying true c).
    cbn [await upd_chan m_chans]. rewrite list_lookup_alter_eq, Hc. split_and!; try done. by right.
Qed.

Lemma rolling_progress E N ref c : jget (m_state N) m = Some ref → m_chans N !! ref = Some c → c_myNonce c = my → my ≠ "" → p ≠ "" →
  truthy_json body = true → (c_peerNodeId c = None ∨ c_peerNodeId c = Some n) → e_fp E m = Some fp → rolling (progress E m N).
Proof.
  intros Hs Hc Hmy Hm0 Hp0 Ht Hn Hf. unfold MeshAuth.progress. rewrite Hs, Hc.
  assert (∀ N', m_state N' = m_state N → m_chans N' !! ref = Some c → (c_peerNonce c = Some p → c_pendingSig c = body → under_way N' ref c) → rolling N') as Hr.
  { intros N' E1 E2 Hu r c' Hs' Hc'. rewrite E1, Hs in Hs'. injection Hs' as <-. rewrite E2 in Hc'. by injection Hc' as <-. }
  destruct (c_bound c) eqn:Eb; [apply Hr; [done..|]; by left|].
  destruct (cbv_of _ _ _ _) as [cbv|] eqn:Ev.
  2: { apply Hr; [done..|]. intros Hp _. unfold cbv_of in Ev. rewrite Hp, Hmy in Ev. rewrite (proj2 (truthy_Some (Some my) my)) in Ev by done.
       rewrite (proj2 (truthy_Some (Some p) p)) in Ev by done. cbn [mbind option_bind] in Ev. rewrite Hf in Ev. by destruct fingerprints. }
  destruct (c_sigSent c).
  - destruct (truthy_json (c_pendingSig c)) eqn:Et.
    + destruct (pending_done m ref cbv N c Hc Et) as (c' & Hc' & Es & [E1 E2] & Hu). intros r c2 Hs2 Hc2. rewrite Es, Hs in Hs2.
      injection Hs2 as <-. rewrite Hc' in Hc2. injection Hc2 as <-. rewrite E1, E2. split_and!; [done..|]. intros _ _. unfold under_way. tauto.
    + unfold verify_pending. rewrite Hc, Et. apply Hr; [done..|]. intros _ Hb. congruence.
  - intros r c2 Hs2 Hc2. cbn [await log upd_chan m_state m_chans] in *. rewrite Hs in Hs2. injection Hs2 as <-.
    rewrite list_lookup_alter_eq, Hc in Hc2. injection Hc2 as <-. split_and!; [done..|]. intros _ _. right; right. exists m, cbv.
    cbn. apply elem_of_app. right. by apply list_elem_of_singleton.
Qed.

(** The verdict of a good proof binds. *)
Lemma rolling_resume_verify E x ref cbv frame N c : rolling N → m_chans N !! ref = Some c →
  (jget (m_state N) m = Some ref → verifyAuthHello sha256 ed_verify active frame (Some cbv) AUTH_PROTO = HOk n k ∧
     (e_allow E = [] ∨ n ∈ e_allow E) ∧ e_bindFails E x = false) → m ∉ e_closes E → rolling (resume_verify E x ref cbv frame N).
Proof.
  intros H Hc Hok Hcl. unfold MeshAuth.resume_verify. rewrite Hc.
  assert (∀ s : jmap string nat, jget (foldl jdel s (e_closes E)) m = jget s m) as Hd.
  { intros s. revert Hcl s. induction (e_closes E) as [|y ys IH]; intros Hn s; [done|]. cbn [foldl]. apply not_elem_of_cons in Hn as [? ?].
    rewrite IH by done. by rewrite jget_jdel_ne. }
  destruct (decide (jget (m_state N) m = Some ref)) as [Hs|Hs].
  - destruct (Hok Hs) as (-> & Ha & Hbf). destruct (H _ _ Hs Hc) as (Hmy & Hn & _).
    replace (match truthy (c_peerNodeId c) with Some x => _ | None => _ end) with false.
    2: { destruct Hn as [-> | ->]; [done|]. destruct n as [|? ?] eqn:En; [done|]. cbn [truthy]. by rewrite bool_decide_eq_true_2. }
    replace (match e_allow E with [] => _ | _ => _ end) with false.
    2: { destruct Ha as [-> | Ha]; [done|]. destruct (e_allow E); [done|]. by rewrite bool_decide_eq_true_2. }
    destruct (sorted_pair _ _) as [lo hi]. cbv zeta. rewrite Hbf. set (N1 := put_state _ _). set (N2 := upd_chan ref (bind_chan cbv) N1).
    assert (rolling N2) as H2.
    { apply rolling_upd; [by apply rolling_put, rolling_log; [apply Hd|]|]. intros c' _ _. split_and!; try done. intros _. by left. }
    assert (∃ c', m_chans N2 !! ref = Some c' ∧ c_bound c' = true) as Hb2.
    { exists (bind_chan cbv c). cbn [N2 N1 upd_chan put_state log m_chans]. by rewrite list_lookup_alter_eq, Hc. }
    clearbody N2. clear N1. assert (∀ N', rolling N' → m_chans N' = m_chans N2 → rolling (upd_chan ref (with_verifying false) N')) as Hfin.
    { intros N' H' E'. apply rolling_upd; [done|]. intros c' Hc' _. split_and!; try done. destruct Hb2 as (c2 & Hc2 & Hb). rewrite E' in Hc'.
      assert (c' = c2) as -> by congruence. intros _. by left. }
    destruct (truthy_json _); [|apply Hfin; [by apply rolling_sendCap|apply chans_sendCap]].
    set (N3 := upd_chan ref (with_pendingCap JNullV) _). assert (rolling N3) as H3.
    { apply rolling_upd; [by apply rolling_sendCap|]. intros. by split_and!. }
    apply rolling_upd; [by apply rolling_verifyCap|]. intros c' Hc' _. split_and!; try done. intros _. left. rewrite chans_verifyCap in Hc'.
    cbn [N3 upd_chan m_chans] in Hc'. rewrite list_lookup_alter_eq, chans_sendCap in Hc'. destruct Hb2 as (c2 & Hc2 & Hb).
    rewrite Hc2 in Hc'. by injection Hc' as <-.
  - assert (∀ f N', rolling N' → m_state N' = m_state N ∨ m_state N' = foldl jdel (m_state N) (e_closes E) → rolling (upd_chan ref f N')) as Ho.
    { intros f N' H' [E'|E']; (apply rolling_other; [done|]); rewrite E'; [done|]. by rewrite Hd. }
    destruct (verifyAuthHello _ _ _ _ _ _) as [n' k'|]; [|by apply Ho; [|left]].
    destruct (match truthy _ with Some x => _ | None => _ end); [by apply Ho; [|left]|].
    destruct (match e_allow E with [] => _ | _ => _ end); [by apply Ho; [|left]|].
    destruct (sorted_pair _ _) as [lo hi]. cbv zeta. destruct (e_bindFails E x); [by apply Ho; [apply rolling_log|left]|].
    assert (∀ b N', m_state (verifyCap x ref b N') = m_state N') as Ev by (intros; unfold MeshAuth.verifyCap; by repeat case_match).
    assert (∀ N', m_state (sendCapAttest x cbv N') = m_state N') as Es by (intros; unfold MeshAuth.sendCapAttest; by case_match).
    apply Ho; [|right; destruct (truthy_json _); rewrite ?Ev; cbn [upd_chan m_state]; by rewrite Es].
    assert (∀ N', rolling N' → m_state N' = foldl jdel (m_state N) (e_closes E) → rolling (if truthy_json (c_pendingCap c)
      then verifyCap x ref (c_pendingCap c) (upd_chan ref (with_pendingCap JNullV) N') else N')) as Hcap.
    { intros N' H' E'. destruct (truthy_json _); [|done]. apply rolling_verifyCap. apply Ho; [done|by right]. }
    apply Hcap; [|by rewrite Es]. apply rolling_sendCap, Ho; [|by right]. by apply rolling_put; [apply Hd|].
Qed.
End link.

(** What a channel has been told stays told, as long as it is open. *)
Definition stays (m : string) (N N' : mnode) : Prop := ∀ ref c, jget (m_state N) m = Some ref → m_chans N !! ref = Some c →
  ∃ c', jget (m_state N') m = Some ref ∧ m_chans N' !! ref = Some c' ∧ (is_Some (c_peerNonce c) → is_Some (c_peerNonce c')) ∧
    (truthy_json (c_pendingSig c) = true → truthy_json (c_pendingSig c') = true).

Lemma stays_refl m N : stays m N N.
Proof. intros ref c Hs Hc. by exists c. Qed.
Lemma stays_trans m N N1 N2 : stays m N N1 → stays m N1 N2 → stays m N N2.
Proof.
  intros H1 H2 ref c Hs Hc. destruct (H1 _ _ Hs Hc) as (c1 & Hs1 & Hc1 & ? & ?), (H2 _ _ Hs1 Hc1) as (c2 & ? & ? & ? & ?).
  exists c2. split_and!; auto.
Qed.
Lemma stays_same m N N' : m_state N' = m_state N → m_chans N' = m_chans N → stays m N N'.
Proof. intros Es Ec ref c Hs Hc. exists c. by rewrite Es, Ec. Qed.
Lemma stays_upd m N ref f : (∀ c, jget (m_state N) m = Some ref → (is_Some (c_peerNonce c) → is_Some (c_peerNonce (f c))) ∧
    (truthy_json (c_pendingSig c) = true → truthy_json (c_pendingSig (f c)) = true)) → stays m N (upd_chan ref f N).
Proof.
  intros Hf r c Hs Hc. cbn [upd_chan m_chans m_state]. destruct (decide (r = ref)) as [->|].
  - exists (f c). rewrite list_lookup_alter_eq, Hc. by destruct (Hf c Hs).
  - exists c. by rewrite list_lookup_alter_ne.
Qed.
Lemma stays_put m N s : jget s m = jget (m_state N) m → stays m N (put_state s N).
Proof. intros E ref c Hs Hc. exists c. cbn. by rewrite E. Qed.
Lemma stays_ensure m E x N : stays m N (ensure E x N).1.
Proof.
  unfold ensure. destruct (jget (m_state N) x) eqn:Ex; [apply stays_refl|]. cbn [fst]. intros r c Hs Hc. exists c.
  assert (∀ ty b N', m_state (send E x ty b N') = m_state N' ∧ m_chans (send E x ty b N') = m_chans N') as Hd
    by (intros; unfold send; by destruct (e_sendFails E)). destruct (Hd "hello" (JObject [("proto", JText AUTH_PROTO); ("nonce", JText (e_nonce E))])
      (mk_mnode (m_chans N ++ [new_chan (e_nonce E)]) (jset (m_state N) x (length (m_chans N))) (m_tasks N) (m_log N))) as [-> ->].
  cbn [m_state m_chans]. rewrite jget_jset_ne by congruence. rewrite lookup_app_l by (by eapply lookup_lt_Some). done.
Qed.
Lemma stays_verify_pending m x ref cbv N : stays m N (verify_pending x ref cbv N).
Proof.
  unfold verify_pending. destruct (m_chans N !! ref); [|apply stays_refl]. destruct (_ && _ && _); [|apply stays_refl].
  eapply stays_trans; [by apply (stays_upd _ _ ref (with_verifying true))|by apply stays_same].
Qed.
Lemma stays_progress m E x N : stays m N (progress E x N).
Proof.
  unfold MeshAuth.progress. destruct (jget _ x) as [ref|]; [|apply stays_refl]. destruct (m_chans N !! ref); [|apply stays_refl].
  destruct (c_bound _); [apply stays_refl|]. destruct (cbv_of _ _ _ _); [|apply stays_refl].
  destruct (c_sigSent _); [apply stays_verify_pending|]. eapply stays_trans; [by apply (stays_upd _ _ ref with_sigSent)|by apply stays_same].
Qed.
Lemma stays_verifyCap m x ref b N : stays m N (verifyCap x ref b N).
Proof. apply stays_same; unfold MeshAuth.verifyCap; by repeat case_match. Qed.
Lemma stays_sendCap m x cbv N : stays m N (sendCapAttest x cbv N).
Proof. apply stays_same; unfold MeshAuth.sendCapAttest; by case_match. Qed.

Lemma stays_resume_verify m E x ref cbv frame N : m ∉ e_closes E → stays m N (resume_verify E x ref cbv frame N).
Proof.
  intros Hcl. unfold MeshAuth.resume_verify. destruct (m_chans N !! ref) as [c|]; [|apply stays_refl].
  assert (∀ N', stays m N' (upd_chan ref (with_verifying false) N')) as Hc by (intros; by apply stays_upd).
  destruct (verifyAuthHello _ _ _ _ _ _); [|apply Hc]. destruct (match truthy _ with Some x => _ | None => _ end); [apply Hc|].
  destruct (match e_allow E with [] => _ | _ => _ end); [apply Hc|]. destruct (sorted_pair _ _). cbv zeta.
  destruct (e_bindFails E _); [eapply stays_trans; [|apply Hc]; by apply stays_same|]. eapply stays_trans; [|apply Hc].
  match goal with |- stays m N (if _ then _ else ?X) => set (N3 := X) end.
  assert (stays m N N3) as H3.
  { unfold N3. eapply stays_trans; [|apply stays_sendCap]. eapply stays_trans; [|by apply stays_upd].
    eapply stays_trans; [|apply stays_put]; [by apply stays_same|]. cbn [log m_state]. generalize (m_state N). revert Hcl. induction (e_closes E) as [|y ys IH]; intros Hn st; [done|].
    apply not_elem_of_cons in Hn as [? ?]. cbn [foldl]. rewrite IH by done. by rewrite jget_jdel_ne. }
  destruct (truthy_json _); [|done]. eapply stays_trans; [exact H3|]. eapply stays_trans; [|apply stays_verifyCap]. by apply stays_upd.
Qed.

Lemma stays_step m N E ev : m ∉ e_closes E → (ev ≠ ChannelLost m) → (∀ x ref, jget (m_state N) x = Some ref → jget (m_state N) m = Some ref → x = m) →
  (∀ b, ev = HelloSig m b → truthy_json b = true) → stays m N (mstep N (E, ev)).
Proof.
  intros Hcl Hev Hinj Hb. destruct ev as [x|x|x b|x b|x b|i]; cbn [MeshAuth.mstep fst snd].
  - destruct (jget _ x); [apply stays_refl|apply stays_ensure].
  - apply stays_put. rewrite jget_jdel_ne; congruence.
  - destruct (field b "nonce"); try apply stays_refl. pose proof (stays_ensure m E x N) as He. destruct (ensure E x N) as [N1 ref].
    eapply stays_trans; [exact He|]. eapply stays_trans; [|apply stays_progress]. apply stays_upd. intros c _. split; [by eexists|done].
  - pose proof (stays_ensure m E x N) as He. destruct (ensure E x N) as [N1 ref] eqn:Een. cbn [fst] in He.
    intros r c Hs Hc. destruct (He _ _ Hs Hc) as (c1 & Hs1 & Hc1 & K1 & K2).
    assert (stays m N1 (progress E x (upd_chan ref (with_pendingSig b) N1))) as Hk.
    { eapply stays_trans; [|apply stays_progress]. apply stays_upd. intros c' Hs'. split; [done|]. intros _. apply (Hb b). f_equal.
      destruct (decide (x = m)) as [->|Hne]; [done|]. unfold ensure in Een. destruct (jget (m_state N) x) as [rx|] eqn:Ex.
      - injection Een as <- <-. by apply (Hinj x rx).
      - injection Een as <- <-. assert (m_state (send E x "hello" (JObject [("proto", JText AUTH_PROTO); ("nonce", JText (e_nonce E))])
          (mk_mnode (m_chans N ++ [new_chan (e_nonce E)]) (jset (m_state N) x (length (m_chans N))) (m_tasks N) (m_log N))) =
          jset (m_state N) x (length (m_chans N))) as Est by (unfold send; by destruct (e_sendFails E)).
        rewrite Est, jget_jset_ne, Hs in Hs' by congruence. injection Hs' as Hr'. apply lookup_lt_Some in Hc. lia. }
    destruct (Hk _ _ Hs1 Hc1) as (c2 & ? & ? & ? & ?). exists c2. split_and!; auto.
  - destruct (jget _ x) as [ref|]; [|apply stays_refl]. destruct (m_chans N !! ref); [|apply stays_refl].
    destruct (_ || _); [by apply stays_upd|apply stays_verifyCap].
  - destruct (m_tasks N !! i) as [t|]; [|apply stays_refl]. set (D := mk_mnode _ _ _ _).
    apply (stays_trans m N D); [by apply stays_same|]. destruct t as [x ref cbv|x ref cbv frame|x [frame|e]|x ref [[]|e]]; cbn [MeshAuth.resume];
      try apply stays_refl.
    + eapply stays_trans; [|apply stays_verify_pending]. destruct (buildAuthHello _ _ _); [|apply stays_refl]. unfold send.
      destruct (e_sendFails E); [apply stays_refl|by apply stays_same].
    + by apply stays_resume_verify.
    + unfold send. destruct (e_sendFails E); [apply stays_refl|by apply stays_same].
    + destruct (m_chans D !! ref); [|apply stays_refl]. eapply stays_trans; [by apply (stays_upd _ _ ref with_capable)|by apply stays_same].
Qed.

(** ** Along a good link *)

Lemma text_nil_r (x : string) : x +:+ "" = x.
Proof. induction x as [|a x IH]; [done|]. by apply (f_equal (String a)) in IH. Qed.

Lemma ensure_cases E x N :
  (jget (m_state N) x = Some (ensure E x N).2 ∧ (ensure E x N).1 = N) ∨
  (jget (m_state N) x = None ∧ (ensure E x N).2 = length (m_chans N) ∧
   m_chans (ensure E x N).1 = m_chans N ++ [new_chan (e_nonce E)] ∧
   m_state (ensure E x N).1 = jset (m_state N) x (length (m_chans N)) ∧ m_tasks (ensure E x N).1 = m_tasks N).
Proof. unfold ensure. destruct (jget (m_state N) x); [by left|right]. cbn [fst snd]. unfold send. by destruct (e_sendFails E). Qed.

Lemma sound_here l home N m ref : sound l home N → jget (m_state N) m = Some ref → is_Some (m_chans N !! ref).
Proof. intros HS Hs%(so_state _ _ _ HS). apply lookup_lt_is_Some. rewrite <-(so_len _ _ _ HS). by eapply lookup_lt_Some. Qed.
Lemma sound_one l home N m x ref : sound l home N → jget (m_state N) x = Some ref → jget (m_state N) m = Some ref → x = m.
Proof. intros HS H1%(so_state _ _ _ HS) H2%(so_state _ _ _ HS). congruence. Qed.

Section along.
Context (m my p n k : string) (fp : string * string) (body : json).
Local Abbreviation rolling := (rolling m my p n body).

Lemma rolling_ensure E x N : rolling N → (∀ ref, jget (m_state N) m = Some ref → is_Some (m_chans N !! ref)) → (x = m → e_nonce E = my) →
  rolling (ensure E x N).1.
Proof.
  intros H Hh Hm. destruct (ensure_cases E x N) as [[_ ->]|(Ex & _ & E1 & E2 & E3)]; [done|]. intros r c. rewrite E1, E2.
  destruct (decide (x = m)) as [->|Hne].
  - rewrite jget_jset_eq. intros [= <-]. rewrite lookup_app_r, Nat.sub_diag by lia. intros [= <-]. split_and!; [by apply Hm|by left|done].
  - rewrite jget_jset_ne by done. intros Hs. destruct (Hh _ Hs) as [c0 Hc0]. rewrite lookup_app_l by (by eapply lookup_lt_Some). intros Hc.
    destruct (H _ _ Hs Hc) as (? & ? & Hu). split_and!; [done..|]. unfold under_way. rewrite E3. exact Hu.
Qed.

Lemma rolling_progress_any E x N : rolling N → rolling (progress E x N).
Proof.
  intros H. unfold MeshAuth.progress. destruct (jget _ x) as [ref|]; [|done]. destruct (m_chans N !! ref) as [c|]; [|done].
  destruct (c_bound c); [done|]. destruct (cbv_of _ _ _ _); [|done]. destruct (c_sigSent c); [by apply rolling_verify_pending|].
  apply rolling_await, rolling_log, rolling_upd; [done|]. intros. by split_and!.
Qed.

Lemma rolling_touch l home E x ref f N : sound l home N → rolling N → jget (m_state N) x = Some ref → my ≠ "" → p ≠ "" →
  truthy_json body = true → e_fp E m = Some fp →
  (x = m → ∀ c, c_myNonce (f c) = c_myNonce c ∧ (c_peerNodeId c = None ∨ c_peerNodeId c = Some n → c_peerNodeId (f c) = None ∨ c_peerNodeId (f c) = Some n)) →
  rolling (progress E x (upd_chan ref f N)).
Proof.
  intros HS H Hs Hm0 Hp0 Ht Hf Hfc. destruct (decide (x = m)) as [->|Hne].
  - destruct (sound_here _ _ _ _ _ HS Hs) as [c Hc], (Hfc eq_refl c) as [E1 E2], (H _ _ Hs Hc) as (Em & En & _).
    eapply rolling_progress; [exact Hs| |rewrite E1; exact Em|done..|by apply E2|done].
    cbn [upd_chan m_chans]. by rewrite list_lookup_alter_eq, Hc.
  - apply rolling_progress_any, rolling_other; [done|]. intros Hs'. by apply Hne, (sound_one _ _ _ _ _ _ HS Hs).
Qed.

Lemma rolling_delete N i t : rolling N → m_tasks N !! i = Some t → (∀ ref x cbv, t = TSig x ref cbv → jget (m_state N) m ≠ Some ref) →
  rolling (mk_mnode (m_chans N) (m_state N) (delete i (m_tasks N)) (m_log N)).
Proof.
  intros H Hi Ht r c Hs Hc. cbn [m_state m_chans] in *. destruct (H _ _ Hs Hc) as (? & ? & Hu). split_and!; [done..|].
  intros Hp1 Hp2. destruct (Hu Hp1 Hp2) as [?|[?|(x & cbv & Hin)]]; [by left|by right; left|]. right; right. exists x, cbv. cbn [m_tasks].
  rewrite <-(take_drop_middle _ _ _ Hi) in Hin. rewrite delete_take_drop. apply elem_of_app in Hin as [Hin|Hin]; apply elem_of_app; [by left|].
  apply elem_of_cons in Hin as [Hin|Hin]; [|by right]. destruct (Ht _ _ _ (eq_sym Hin)). exact Hs.
Qed.

(** The signed proof is out: what was held back is taken up. *)
Lemma rolling_resume_sig N i x ref cbv ef : truthy_json body = true → rolling N → m_tasks N !! i = Some (TSig x ref cbv) →
  rolling (verify_pending x ref cbv (mk_mnode (m_chans N) (m_state N) (delete i (m_tasks N)) ef)).
Proof.
  clear fp. intros Ht H Hi. set (D := mk_mnode _ _ _ _). destruct (decide (jget (m_state N) m = Some ref)) as [Hs|Hs].
  - destruct (m_chans N !! ref) as [c|] eqn:Hc.
    2: { unfold verify_pending. cbn [D m_chans]. rewrite Hc. intros r c2 Hs2 Hc2. cbn in Hs2, Hc2. congruence. }
    destruct (H _ _ Hs Hc) as (Em & En & _). destruct (truthy_json (c_pendingSig c)) eqn:Et.
    + destruct (pending_done x ref cbv D c Hc Et) as (c' & Hc' & Es & [E1 E2] & Hu). intros r c2 Hs2 Hc2. rewrite Es in Hs2. cbn in Hs2.
      assert (r = ref) as -> by congruence. rewrite Hc' in Hc2. injection Hc2 as <-. rewrite E1, E2. split_and!; [done..|]. intros _ _. unfold under_way. tauto.
    + unfold verify_pending. cbn [D m_chans]. rewrite Hc, Et. intros r c2 Hs2 Hc2. cbn in Hs2, Hc2. assert (c2 = c) as -> by congruence.
      split_and!; [done..|]. intros _ Hb. congruence.
  - apply rolling_verify_pending. refine (rolling_delete N i _ H Hi _). intros ref' x' cbv' [= -> -> ->]. done.
Qed.

Lemma rolling_step l home E ev N : good_link l m my p n k fp body → sound l home N → (E, ev) ∈ l → rolling N → rolling (mstep N (E, ev)).
Proof.
  intros G HS Hin H. destruct (gl_env _ _ _ _ _ _ _ _ G _ Hin) as (Hbf & Hcl & Hal & Hfp), (gl_some _ _ _ _ _ _ _ _ G) as (Hm0 & Hp0 & Ht).
  cbn [fst] in *.
  assert (∀ x, (x = m → touches m ev) → rolling (ensure E x N).1) as Hen.
  { intros x Hx. apply rolling_ensure; [done|intros ref; by apply (sound_here _ _ _ _ _ HS)|]. intros Hxm. by apply (gl_my _ _ _ _ _ _ _ _ G E ev Hin), Hx. }
  assert (drawn l (e_nonce E)) as Hd by by exists (E, ev).
  destruct ev as [x|x|x b|x b|x b|i]; cbn [MeshAuth.mstep fst snd touches] in *.
  - destruct (jget (m_state N) x); [done|]. by apply Hen.
  - apply rolling_put; [|done]. apply jget_jdel_ne. intros ->. by apply (gl_open _ _ _ _ _ _ _ _ G E).
  - destruct (field b "nonce") as [| | | | |q| |]; try done. specialize (Hen x id). destruct (sound_ensure _ _ E x N HS Hd) as (home' & HS' & _ & Hs').
    destruct (ensure E x N) as [N1 ref]. cbn [fst snd] in *. by eapply rolling_touch.
  - specialize (Hen x id). destruct (sound_ensure _ _ E x N HS Hd) as (home' & HS' & _ & Hs').
    destruct (ensure E x N) as [N1 ref]. cbn [fst snd] in *. eapply rolling_touch; try done. intros -> c. split; [done|]. intros Hc.
    assert (b = body) as -> by (apply (gl_sig _ _ _ _ _ _ _ _ G); by exists E). pose proof (gl_proof _ _ _ _ _ _ _ _ G) as Hv.
    match type of Hv with verifyAuthHello _ _ _ _ ?c _ = _ => pose proof (hello_verdict sha256 ed_verify active body c AUTH_PROTO) as Hok end.
    rewrite Hv in Hok. destruct Hok as (? & _ & [_ (Hn & _) _ _ _ _ _]). cbn [with_pendingSig c_peerNodeId]. rewrite Hn. by right.
  - destruct (jget _ x) as [ref|]; [|done]. destruct (m_chans N !! ref); [|done].
    destruct (_ || _); [apply rolling_upd; [done|]; intros; by split_and!|by apply rolling_verifyCap].
  - destruct (m_tasks N !! i) as [t|] eqn:Hi; [|done]. pose proof (so_task _ _ _ HS t (list_elem_of_lookup_2 _ _ _ Hi)) as Hts.
    pose proof (rolling_delete N i t H Hi) as HD. set (D := mk_mnode _ _ _ _) in *.
    destruct t as [x ref cbv|x ref cbv frame|x [frame|e]|x ref [[]|e]]; cbn [MeshAuth.resume]; try (by apply HD).
    + destruct (buildAuthHello _ _ _) as [pr|]; [unfold send; destruct (e_sendFails E)|]; exact (rolling_resume_sig N i x ref cbv _ Ht H Hi).
    + destruct Hts as (Hh & Hp & my' & Hmy & (q & _ & _ & _ & Hq & Hv)). destruct (m_chans N !! ref) as [c|] eqn:Hc.
      2: { unfold MeshAuth.resume_verify. cbn [D m_chans]. rewrite Hc. by apply HD. }
      eapply rolling_resume_verify; [by apply HD|exact Hc| |done]. intros Hs. change (jget (m_state N) m = Some ref) in Hs.
      assert (x = m) as -> by (apply (so_state _ _ _ HS) in Hs; congruence). destruct (H _ _ Hs Hc) as (Em & _). unfold my_at in Hmy.
      rewrite Hc in Hmy. injection Hmy as Hmy. rewrite (gl_sig _ _ _ _ _ _ _ _ G _ Hp), (gl_hello _ _ _ _ _ _ _ _ G _ Hq) in *.
      split; [|done]. rewrite <-(gl_proof _ _ _ _ _ _ _ _ G). f_equal. f_equal. rewrite <-Em, Hmy. destruct fingerprints.
      * destruct Hv as (y & fp' & Hy & Hfy & ->). destruct (gl_env _ _ _ _ _ _ _ _ G _ Hy) as (_ & _ & _ & Hfy'). congruence.
      * rewrite Hv. by rewrite text_nil_r.
    + unfold send. destruct (e_sendFails E); by apply HD.
    + destruct (m_chans D !! ref); [|by apply HD]. apply rolling_log, rolling_upd; [by apply HD|]. intros. by split_and!.
Qed.

(** What the channel was told is in its record. *)
Definition told (l : history) (N : mnode) : Prop :=
  ((∃ q, heard l m q) → ∃ ref c, jget (m_state N) m = Some ref ∧ m_chans N !! ref = Some c ∧ is_Some (c_peerNonce c)) ∧
  ((∃ b, proof_heard l m b) → ∃ ref c, jget (m_state N) m = Some ref ∧ m_chans N !! ref = Some c ∧ truthy_json (c_pendingSig c) = true).

Lemma told_set l home E ref f N : sound l home N → jget (m_state N) m = Some ref → ∃ c c', m_chans N !! ref = Some c ∧
  jget (m_state (progress E m (upd_chan ref f N))) m = Some ref ∧ m_chans (progress E m (upd_chan ref f N)) !! ref = Some c' ∧
  (is_Some (c_peerNonce (f c)) → is_Some (c_peerNonce c')) ∧ (truthy_json (c_pendingSig (f c)) = true → truthy_json (c_pendingSig c') = true).
Proof.
  intros HS Hs. destruct (sound_here _ _ _ _ _ HS Hs) as [c Hc]. exists c.
  destruct (stays_progress m E m (upd_chan ref f N) ref (f c)) as (c' & ? & ? & ? & ?); [done| |by exists c'].
  cbn [upd_chan m_chans]. by rewrite list_lookup_alter_eq, Hc.
Qed.

Lemma told_step l home l1 E ev N : good_link l m my p n k fp body → sound l home N → (E, ev) ∈ l →
  told l1 N → told (l1 ++ [(E, ev)]) (mstep N (E, ev)).
Proof.
  intros G HS Hin [T1 T2]. destruct (gl_env _ _ _ _ _ _ _ _ G _ Hin) as (_ & Hcl & _), (gl_some _ _ _ _ _ _ _ _ G) as (_ & _ & Ht).
  assert (drawn l (e_nonce E)) as Hd by by exists (E, ev).
  assert (stays m N (mstep N (E, ev))) as Hk.
  { apply stays_step; [done| |intros x ref; by apply (sound_one _ _ _ _ _ _ HS)|].
    - intros ->. by apply (gl_open _ _ _ _ _ _ _ _ G E).
    - intros b ->. rewrite (gl_sig _ _ _ _ _ _ _ _ G b); [done|by exists E]. }
  split.
  - intros (q & E' & b & [Hb|Hb%list_elem_of_singleton]%elem_of_app & Hq).
    + destruct T1 as (ref & c & Hs & Hc & Hp); [by exists q, E', b|]. destruct (Hk _ _ Hs Hc) as (c' & ? & ? & Hp' & _). exists ref, c'. split_and!; [done..|by apply Hp'].
    + injection Hb as -> <-. cbn [MeshAuth.mstep fst snd]. rewrite Hq. destruct (sound_ensure _ _ E m N HS Hd) as (home' & HS' & _ & Hs').
      destruct (ensure E m N) as [N1 ref]. cbn [fst snd] in *.
      destruct (told_set _ _ E ref (with_peerNonce q) N1 HS' Hs') as (c & c' & _ & ? & ? & Hp & _). exists ref, c'. split_and!; [done..|]. by apply Hp.
  - intros (b & E' & [Hb|Hb%list_elem_of_singleton]%elem_of_app).
    + destruct T2 as (ref & c & Hs & Hc & Hp); [by exists b, E'|]. destruct (Hk _ _ Hs Hc) as (c' & ? & ? & _ & Hp'). exists ref, c'. split_and!; [done..|by apply Hp'].
    + injection Hb as -> <-. cbn [MeshAuth.mstep fst snd]. destruct (sound_ensure _ _ E m N HS Hd) as (home' & HS' & _ & Hs').
      destruct (ensure E m N) as [N1 ref]. cbn [fst snd] in *.
      destruct (told_set _ _ E ref (with_pendingSig b) N1 HS' Hs') as (c & c' & _ & ? & ? & _ & Hp). exists ref, c'. split_and!; [done..|].
      apply Hp. cbn [with_pendingSig c_pendingSig]. rewrite (gl_sig _ _ _ _ _ _ _ _ G b); [done|by exists E].
Qed.

Lemma along l l1 : good_link l m my p n k fp body → l1 `prefix_of` l →
  (∃ home, sound l home (mrun new_mnode l1)) ∧ rolling (mrun new_mnode l1) ∧ told l1 (mrun new_mnode l1).
Proof.
  intros G. induction l1 as [|x l1 IH] using rev_ind; intros Hp.
  - split_and!; [|by intros ref c Hs|split; [intros (q & E & b & []%not_elem_of_nil & _)|intros (b & E & []%not_elem_of_nil)]].
    exists []. split; cbn; [done|done|done|by intros t ?%not_elem_of_nil|by intros e ?%not_elem_of_nil].
  - destruct IH as ((home & HS) & HR & HT); [by etrans; [apply prefix_app_r|]|].
    assert (l1 ++ [x] ⊆ l) as Hl by (destruct Hp as [q ->]; intros y Hy; apply elem_of_app; by left).
    assert (x ∈ l) as Hx by (apply Hl, elem_of_app; right; by apply list_elem_of_singleton).
    unfold MeshAuth.mrun in *. rewrite foldl_snoc. destruct x as [E ev]. split_and!.
    + destruct (sound_run (l1 ++ [(E, ev)])) as [home' HS']. exists home'. unfold MeshAuth.mrun in HS'. rewrite foldl_snoc in HS'.
      by eapply sound_mono.
    + by eapply rolling_step.
    + by eapply told_step.
Qed.
End along.

Lemma link_bound l m my p n k fp body : good_link l m my p n k fp body → heard l m p → proof_heard l m body →
  m_tasks (mrun new_mnode l) = [] → isBound (mrun new_mnode l) m = true.
Proof.
  intros G Hh Hp Hq. destruct (along m my p n k fp body l l G) as ((home & HS) & HR & HT1 & HT2); [done|].
  destruct HT1 as (ref & c & Hs & Hc & [q Hpn]); [by exists p|]. destruct HT2 as (ref' & c' & Hs' & Hc' & Hps); [by exists body|].
  assert (ref' = ref) as -> by congruence. assert (c' = c) as -> by congruence. clear Hs' Hc'.
  pose proof (so_state _ _ _ HS _ _ Hs) as Hhm. destruct (so_chan _ _ _ HS _ _ _ Hc Hhm) as (_ & S1 & S2).
  destruct (HR _ _ Hs Hc) as (_ & _ & Hu). unfold isBound, chan_of. rewrite Hs. cbn [mbind option_bind]. rewrite Hc.
  assert (c_peerNonce c = Some p) as Hpn' by (rewrite Hpn; f_equal; by apply (gl_hello _ _ _ _ _ _ _ _ G), S1).
  assert (c_pendingSig c = body) as Hps' by (by apply (gl_sig _ _ _ _ _ _ _ _ G), S2).
  destruct (Hu Hpn' Hps') as [?|[Hv|(x & cbv & Hin)]]; [done| |by rewrite Hq in Hin; apply not_elem_of_nil in Hin].
  pose proof (sh_verifying _ _ (shape_run _ l shape_new) _ _ Hc) as Hsh. rewrite Hv in Hsh. unfold vtasks in Hsh. rewrite Hq in Hsh. by simpl in Hsh.
Qed.
End invariants.

(** ** The theorems *)

(** C16. A mesh peer is bound on proof, and once.  Whatever frames arrive in whatever order, and
    however the handshake's own awaits interleave with them: every peer the handshake binds had sent,
    on the channel it is bound at, a nonce and a signed hello that proves its node id over a value
    made of that nonce, of this node's own nonce for that very channel record and, where the link has
    them, of the channel's fingerprints; and it was on the allowlist.  No record is bound twice, and
    none stays blocked: it is marked as verifying exactly while one verification of it is awaited. *)
Theorem bind_is_proven sha256 ed_verify active self pubkeyHex sign pow fingerprints l :
  let N := mrun sha256 ed_verify active self pubkeyHex sign pow fingerprints new_mnode l in
  (∀ ref n m key, Bind ref n m key ∈ m_log N → ∃ my, my_at N ref = Some my ∧ proven sha256 ed_verify active fingerprints l m my n) ∧
  (∀ ref c, m_chans N !! ref = Some c → binds ref N = one (c_bound c) ∧ vtasks ref N = one (c_verifying c) ∧
    (c_verifying c = true → c_bound c = false)).
Proof.
  cbv zeta. destruct (sound_run sha256 ed_verify active self pubkeyHex sign pow fingerprints l) as [home HS].
  pose proof (shape_run sha256 ed_verify active self pubkeyHex sign pow fingerprints _ l shape_new) as HI.
  split; [intros ref n m key He; by destruct (so_log _ _ _ _ _ _ _ HS _ He)|].
  intros ref c Hc. split_and!; [by apply (sh_bound _ _ HI)| |by apply (sh_excl _ _ HI ref)].
  pose proof (sh_verifying _ _ HI _ _ Hc) as Hv. simpl in Hv. lia.
Qed.

(** C17. A relay binds nobody.  Take the runs of two nodes whose links have fingerprints, and let the
    second be the only one to sign with its key: hellos over the values of its own channels, hellos
    of transports without fingerprints (nonces of its choice or a stranger's, under another tag), and
    records.  When the first node binds the second's id at a channel, the second signed for a channel
    of its own that has the same two fingerprints, over the same nonces: who ends the encryption in
    the middle and forwards every frame verbatim is not bound, and no older proof is. *)
Theorem bind_excludes_relay sha256 ed_verify active selfV pkV signV powV lV idH pkH signH powH lH keyH :
  let NV := mrun sha256 ed_verify active selfV pkV signV powV true new_mnode lV in
  let NH := mrun sha256 ed_verify active idH pkH signH powH true new_mnode lH in
  (∀ k, bound_to sha256 k idH → parse_bytes k = keyH) →
  (∀ x m fp, x ∈ lV ∨ x ∈ lH → e_fp x.1 m = Some fp → clean ":" fp.1 = true ∧ clean ":" fp.2 = true) →
  (∀ t s, ed_verify keyH t s = Ok true →
     (∃ m cbv, SignHello m cbv ∈ m_log NH ∧ t = transcriptBytes AUTH_PROTO idH pkH cbv) ∨
     (∃ a b tag, clean ":" tag = true ∧ tag ≠ "" ∧ (∀ x m fp, x ∈ lV → e_fp x.1 m = Some fp → tag ≠ fp.1 ∧ tag ≠ fp.2) ∧
        t = transcriptBytes AUTH_PROTO idH pkH (cbvFromNonces a b tag)) ∨
     (∃ r, t = utf8 (signed_text r))) →
  ∀ ref m key, Bind ref idH m key ∈ m_log NV →
  ∃ my p x fp m' my' p' x' fp', my_at NV ref = Some my ∧ heard lV m p ∧ x ∈ lV ∧ e_fp x.1 m = Some fp ∧
    drawn lH my' ∧ heard lH m' p' ∧ x' ∈ lH ∧ e_fp x'.1 m' = Some fp' ∧
    (fp = fp' ∨ fp = (fp'.2, fp'.1)) ∧ cbvFromNonces my p MESH_CBV_TAG = cbvFromNonces my' p' MESH_CBV_TAG.
Proof.
  cbv zeta. intros Hkey Hfp Hunf ref m key He.
  destruct (sound_run sha256 ed_verify active selfV pkV signV powV true lV) as [home HS].
  destruct (so_log _ _ _ _ _ _ _ HS _ He) as (_ & my & Hmy & cbv & frame & k & (p & _ & _ & _ & Hp & x & fp & Hx & Hf & Hv) & _ & Hau & _).
  destruct Hau as [_ _ _ Hb _ (s & _ & _ & _ & Hs) _]. rewrite (Hkey _ Hb) in Hs. destruct (Hfp x m fp (or_introl Hx) Hf) as [C1 C2].
  apply Hunf in Hs as [(m' & cbv' & Hin & Ht)|[(a & b & tag & Htag & Hne & Htn & Ht)|[r Ht]]]; [| |by destruct (hello_apart _ _ _ _ _ (eq_sym Ht))].
  - apply transcript_inj in Ht as (_ & _ & _ & ->).
    destruct (sound_run sha256 ed_verify active idH pkH signH powH true lH) as [home' HS'].
    destruct (so_log _ _ _ _ _ _ _ HS' _ Hin) as (my' & p' & _ & _ & Hd & Hp' & x' & fp' & Hx' & Hf' & Hv').
    destruct (Hfp x' m' fp' (or_intror Hx') Hf') as [C3 C4]. rewrite Hv in Hv'. apply channel_inj in Hv' as [Hn Hfps]; [|done..].
    exists my, p, x, fp, m', my', p', x', fp'. split_and!; try done. destruct fp as [f1 f2], fp' as [g1 g2]. cbn [fst snd] in *.
    destruct Hfps as [[-> ->]|[-> ->]]; auto.
  - apply transcript_inj in Ht as (_ & _ & _ & Ht). exfalso. destruct (Htn x m fp Hx Hf) as [T1 T2]. rewrite Ht in Hv. clear Ht.
    assert (∀ q lo hi, q +:+ "|" +:+ "fp:" +:+ lo +:+ ":" +:+ hi = (q +:+ "|fp:" +:+ lo) +:+ String ":" hi) as Ha.
    { intros. rewrite !append_assoc. reflexivity. }
    assert (∃ q, cbvFromNonces a b tag = q +:+ String ":" tag) as [q Hq].
    { unfold cbvFromNonces. destruct (sorted_pair a b) as [lo hi]. rewrite bool_decide_eq_false_2 by done. exists ("n:" +:+ lo +:+ ":" +:+ hi).
      rewrite !append_assoc. reflexivity. }
    rewrite Hq in Hv. unfold cbvFromFingerprints in Hv.
    destruct (sorted_pair_cases fp.1 fp.2) as [Ep|Ep]; rewrite Ep, Ha in Hv; apply cut_last in Hv as [_ Hv]; congruence.
Qed.

(** C26. A link that loses nothing ends bound, in whatever order its frames and the handshake's
    awaits come, repeats and the other channels' events included. The conditions ([good_link]) are: the
    channel is never lost, and no binding of another closes it; the nonce this node draws for it is the
    same at each event; the one nonce it hears and the one proof it hears, repeated or not, are the
    peer's, and the proof verifies over the value of the two nonces and, where fingerprints are used, of
    the two DTLS fingerprints, which are known and the same at every event; the allowlist, at every
    event, is unset or admits the peer; binding this channel does not throw. Then, once nonce and proof
    are heard and nothing is left to resume, the channel is bound. *)
Theorem quiet_link_is_bound sha256 ed_verify active self pubkeyHex sign pow fingerprints l m my p n k fp body :
  let N := mrun sha256 ed_verify active self pubkeyHex sign pow fingerprints new_mnode l in
  good_link sha256 ed_verify active fingerprints l m my p n k fp body → heard l m p → proof_heard l m body → m_tasks N = [] →
  isBound N m = true.
Proof. cbv zeta. intros G Hh Hp Hq. by eapply link_bound. Qed.

(** * Runs *)

Definition toy_node_key : bytes := repeat 7 32.
Definition toy_sha (b : bytes) : bytes := if bool_decide (b = toy_node_key) then repeat 1 32 else repeat 2 32.
Definition toy_id : string := "aa" +:+ bytesToHex (repeat 1 32).
Definition toy_pk : string := bytesToHex toy_node_key.
Definition toy_cbv : string := cbvFromNonces "aa" "bb" MESH_CBV_TAG +:+ "|" +:+ cbvFromFingerprints "sha-256 01" "sha-256 02".
Definition toy_open (p t s : bytes) : js_result bool :=
  Ok (bool_decide (p = toy_node_key) && bool_decide (t = transcriptBytes AUTH_PROTO toy_id toy_pk toy_cbv)).
Definition toy_hello (pk : string) : json :=
  JObject [("proto", JText AUTH_PROTO); ("nodeId", JText toy_id); ("pubkey", JText pk);
           ("sig", JText (ED25519 +:+ bytesToHex (repeat 3 64))); ("pow", JText "")].
Definition toy_env (nonce : string) (local remote : string) : menv :=
  mk_menv nonce (λ m, if bool_decide (m = "m") then Some (local, remote) else None) false (λ _, false) [] [].
Definition at_v (ev : mevent) : menv * mevent := (toy_env "aa" "sha-256 01" "sha-256 02", ev).
Definition at_h (ev : mevent) : menv * mevent := (toy_env "bb" "sha-256 02" "sha-256 01", ev).
Definition told_nonce (n : string) : json := JObject [("proto", JText AUTH_PROTO); ("nonce", JText n)].
Local Abbreviation toy_run := (mrun toy_sha toy_open POW_DIFFICULTY "cc" "dd" (λ _, repeat 3 64) None true).

(** The proof comes before the nonce; the signature resumes, then the verdict, then the attestation. *)
Definition v_run : history :=
  map at_v [ChannelOpen "m"; HelloSig "m" (toy_hello toy_pk); Hello "m" (told_nonce "bb"); Resume 0; Resume 0; Resume 0].
Definition h_run : history := map at_h [Hello "m" (told_nonce "aa"); Resume 0].

Lemma toy_second_preimage k : bound_to toy_sha k toy_id → parse_bytes k = toy_node_key.
Proof.
  intros (_ & _ & v & Hv & Hk). unfold toy_sha in Hk. case_bool_decide; [done|]. vm_compute in Hv. injection Hv as <-. vm_compute in Hk. done.
Qed.

Lemma bind_excludes_relay_witness : ∃ ref key, Bind ref toy_id "m" key ∈ m_log (toy_run new_mnode v_run) ∧
  ∃ my p x fp m' my' p' x' fp', my_at (toy_run new_mnode v_run) ref = Some my ∧ heard v_run "m" p ∧ x ∈ v_run ∧ e_fp x.1 "m" = Some fp ∧
    drawn h_run my' ∧ heard h_run m' p' ∧ x' ∈ h_run ∧ e_fp x'.1 m' = Some fp' ∧
    (fp = fp' ∨ fp = (fp'.2, fp'.1)) ∧ cbvFromNonces my p MESH_CBV_TAG = cbvFromNonces my' p' MESH_CBV_TAG.
Proof.
  assert (Bind 0 toy_id "m" "aa:bb" ∈ m_log (toy_run new_mnode v_run)) as He by (apply (list_elem_of_lookup_2 _ 3); vm_compute; reflexivity).
  exists 0%nat, "aa:bb". split; [exact He|].
  apply (bind_excludes_relay toy_sha toy_open POW_DIFFICULTY "cc" "dd" (λ _, repeat 3 64) None v_run toy_id toy_pk (λ _, repeat 3 64) None h_run
    toy_node_key) with (key := "aa:bb"); [exact toy_second_preimage| | |exact He].
  - intros x m fp Hx. assert (x.1 = toy_env "aa" "sha-256 01" "sha-256 02" ∨ x.1 = toy_env "bb" "sha-256 02" "sha-256 01") as [-> | ->].
    { destruct Hx as [Hx|Hx]; apply list_elem_of_fmap in Hx as (ev & -> & _); auto. }
    all: simpl; case_bool_decide; [intros [= <-]; done|done].
  - intros t s [= ->%bool_decide_eq_true]. left. exists "m", toy_cbv. split; [|done].
    apply (list_elem_of_lookup_2 _ 1). vm_compute. reflexivity.
Defined.

Lemma quiet_link_is_bound_witness : isBound (toy_run new_mnode v_run) "m" = true.
Proof.
  apply (quiet_link_is_bound toy_sha toy_open POW_DIFFICULTY "cc" "dd" (λ _, repeat 3 64) None true v_run "m" "aa" "bb" toy_id toy_pk
    ("sha-256 01", "sha-256 02") (toy_hello toy_pk)).
  - assert (∀ E ev, (E, ev) ∈ v_run → E = toy_env "aa" "sha-256 01" "sha-256 02" ∧
      ev ∈ [ChannelOpen "m"; HelloSig "m" (toy_hello toy_pk); Hello "m" (told_nonce "bb"); Resume 0; Resume 0; Resume 0]) as Hin.
    { intros E ev Hx. apply list_elem_of_fmap in Hx as (ev' & [= -> ->] & Hx). done. }
    split.
    + intros E ev [-> _]%Hin _. done.
    + intros E [_ Hx]%Hin. repeat (apply elem_of_cons in Hx as [Hx|Hx]; [done|]). by apply not_elem_of_nil in Hx.
    + intros q (E & b & [_ Hx]%Hin & Hq). repeat (apply elem_of_cons in Hx as [Hx|Hx]; [first [done|injection Hx as ->; by injection Hq as <-]|]).
      by apply not_elem_of_nil in Hx.
    + intros b (E & [_ Hx]%Hin). repeat (apply elem_of_cons in Hx as [Hx|Hx]; [first [done|by injection Hx as ->]|]). by apply not_elem_of_nil in Hx.
    + intros [E ev] [-> _]%Hin. split_and!; [done|apply not_elem_of_nil|by left|done].
    + done.
    + vm_compute. reflexivity.
  - exists (toy_env "aa" "sha-256 01" "sha-256 02"), (told_nonce "bb"). split; [|done]. do 2 right; left.
  - exists (toy_env "aa" "sha-256 01" "sha-256 02"). right; left.
  - vm_compute. reflexivity.
Defined.

(** The verdict arrives after the channel is gone: the record is not compared with the table, and a
    channel that no longer exists is bound. *)
Example lost_channel_binds :
  let N := toy_run new_mnode (map at_v [Hello "m" (told_nonce "bb"); HelloSig "m" (toy_hello toy_pk); Resume 0; ChannelLost "m"; Resume 0]) in
  last (m_log N) = Some (Bind 0 toy_id "m" "aa:bb") ∧ isBound N "m" = false ∧ jget (m_state N) "m" = None.
Proof. vm_compute. done. Qed.

(** The key that attestations are checked with is read after the await, from whatever frame came last:
    it need not be the one that was verified. *)
Example unproven_key_retained :
  let N := toy_run new_mnode (map at_v [Hello "m" (told_nonce "bb"); HelloSig "m" (toy_hello toy_pk); Resume 0;
    HelloSig "m" (toy_hello (bytesToHex (repeat 9 32))); Resume 0]) in
  c_peerPubkey <$> chan_of N "m" = Some (Some (bytesToHex (repeat 9 32))) ∧
  isBound N "m" = true ∧ ¬ bound_to toy_sha (bytesToHex (repeat 9 32)) toy_id.
Proof.
  cbv zeta. split_and!; [vm_compute; reflexivity..|]. intros H%toy_second_preimage. vm_compute in H. done.
Qed.
