(* ===== verification/TopicId.v ===== *)
(** TopicId.v - how a topic descriptor becomes a topic id: [resolveTopic], [deriveTopicId] and
    [deriveTopicIdBig] of src/src/pubsub/post.js.

    [resolveRegion] (src/src/utils/region-names.js) folds a region to a populated cell by
    great-circle distances in floating point; it is a parameter, of which only the range of its
    answers is used. *)
From Stdlib Require Import Ascii.
From stdpp Require Import base tactics sets list numbers strings.
From Stdlib Require Import ZArith Lia.
From S2P Require Import Prelude HexId Canonical SignedRecords Transcripts.
#[local] Open Scope Z_scope.
#[local] Set Default Proof Using "Type".

Definition SYSTEM_REGION_BRIDGE : Z := 255.
Definition isSystemRegion (code : Z) : bool := code =? SYSTEM_REGION_BRIDGE.
Definition BRIDGE_DIRECTORY_TOPIC : string := "axona:bridge-directory".

(** A resolved descriptor. *)
Record resolved := mk_resolved {
  r_region : Z; r_owner : option string; r_name : string; r_write : string; r_topicId : string
}.

(** [/^[0-9a-f]{n}$/] *)
Definition author_hex (ks : keyspace) (s : string) : bool := lower_hex_of (AUTHOR_HEX_CHARS ks) s.

(** [s.slice(0, n)] *)
Fixpoint slice_to (n : nat) (s : string) : string :=
  match n, s with
  | S n, String c s => String c (slice_to n s)
  | _, _ => EmptyString
  end.

Definition owner_json (o : option string) : json := match o with Some o => JText o | None => JNullV end.
(** What the hash part of a topic id is taken over. *)
Definition topic_core (owner : option string) (name write : string) : json :=
  JObject [("owner", owner_json owner); ("name", JText name); ("write", JText write)].

Section topics.
Context (sha256 : bytes → bytes) (resolveRegion : json → option Z) (ks : keyspace).

Definition topic_id (region : Z) (owner : option string) (name write : string) : string :=
  padStart0 (toString16 region) 2 +:+
  slice_to (Z.to_nat (HEX_CHARS ks - 2)) (sha256Hex sha256 (canonical (topic_core owner name write))).

(** The owner, lower-cased; [None] where there is none. *)
Definition owner_lc (owner : json) : js_result (option string) :=
  if nullish owner then Ok None
  else s ← js_String owner;
       if author_hex ks (lc s) then Ok (Some (lc s)) else Throw rangeError.

Definition write_policy (owner : option string) (write : json) : js_result string :=
  match owner with
  | None => Ok "open"
  | Some _ =>
      if nullish write || text_is write "owner" then Ok "owner"
      else if text_is write "open" then Ok "open" else Throw rangeError
  end.

Definition region_code (region selfRegion : json) : js_result Z :=
  if negb (nullish region) then match resolveRegion region with Some c => Ok c | None => Throw rangeError end
  else if negb (nullish selfRegion) then match resolveRegion selfRegion with Some c => Ok c | None => Throw rangeError end
  else Throw rangeError.

Definition resolveTopic (region owner name write selfRegion : json) : js_result resolved :=
  match name with
  | JText n =>
      if bool_decide (n = "") then Throw typeError
      else
        o ← owner_lc owner;
        w ← write_policy o write;
        code ← region_code region selfRegion;
        if isSystemRegion code && (negb (bool_decide (n = BRIDGE_DIRECTORY_TOPIC)) || match o with Some _ => true | None => false end)
        then Throw rangeError
        else Ok (mk_resolved code o n w (topic_id code o n w))
  | _ => Throw typeError
  end.

Definition deriveTopicId (region owner name write selfRegion : json) : js_result string :=
  r ← resolveTopic region owner name write selfRegion; Ok (r_topicId r).

(** [BigInt('0x' + hex)], a SyntaxError for no digits. *)
Definition deriveTopicIdBig (region owner name write selfRegion : json) : js_result Z :=
  h ← deriveTopicId region owner name write selfRegion;
  match parseHex h with Some n => Ok n | None => Throw plainError end.

(** * Properties *)

(** A region code is one byte. *)
Definition regions_ok : Prop := ∀ v c, resolveRegion v = Some c → 0 ≤ c < 256.
(** SHA-256 answers 32 bytes. *)
Definition sha_ok : Prop := ∀ m, length (sha256 m) = 32%nat ∧ Forall is_byte (sha256 m).

Lemma region_code_Ok r s c : region_code r s = Ok c → ∃ v, resolveRegion v = Some c.
Proof. unfold region_code. repeat case_match; intros; simplify_eq; eauto. Qed.

(** What a resolved descriptor satisfies. *)
Lemma resolveTopic_Ok region owner name write self r : resolveTopic region owner name write self = Ok r →
  name = JText (r_name r) ∧ r_name r ≠ "" ∧ owner_lc owner = Ok (r_owner r) ∧
  write_policy (r_owner r) write = Ok (r_write r) ∧ region_code region self = Ok (r_region r) ∧
  (r_region r = SYSTEM_REGION_BRIDGE → r_name r = BRIDGE_DIRECTORY_TOPIC ∧ r_owner r = None) ∧
  r_topicId r = topic_id (r_region r) (r_owner r) (r_name r) (r_write r).
Proof.
  unfold resolveTopic. destruct name as [| | | | |n| |]; try done. case_bool_decide as Hn; [done|].
  intros (o & Ho & H)%bind_Ok. apply bind_Ok in H as (w & Hw & H). apply bind_Ok in H as (c & Hc & H).
  unfold isSystemRegion in H. destruct ((c =? SYSTEM_REGION_BRIDGE) && _) eqn:E; [done|]. injection H as <-. simpl.
  split_and!; try done. intros ->. rewrite Z.eqb_refl in E. cbn [andb] in E. apply orb_false_iff in E as [E1 E2].
  split; [by apply negb_false_iff, bool_decide_eq_true in E1|by destruct o].
Qed.

Lemma write_policy_range o w p : write_policy o w = Ok p → p = "open" ∨ p = "owner" ∧ is_Some o.
Proof. unfold write_policy. repeat case_match; intros; simplify_eq; eauto. Qed.

Lemma slice_to_append n a b : String.length a = n → slice_to n (a +:+ b) = a.
Proof. revert a. induction n as [|n IH]; intros [|c a] H; try done. simpl in *. f_equal. apply IH. lia. Qed.
Lemma slice_to_all n s : (String.length s ≤ n)%nat → slice_to n s = s.
Proof. revert s. induction n as [|n IH]; intros [|c s] H; simpl in *; try done; [lia|]. f_equal. apply IH. lia. Qed.

Lemma append_split a b a' b' : String.length a = String.length a' → a +:+ b = a' +:+ b' → a = a' ∧ b = b'.
Proof.
  revert a'. induction a as [|c a IH]; intros [|c' a'] Hl; try done. simpl. intros [= -> H]. apply IH in H as [-> ->]; [done|].
  simpl in Hl. lia.
Qed.

Lemma byte_hex_length b : is_byte b → String.length (byte_hex b) = 2%nat.
Proof. intros (x & y & -> & _)%byte_hex_shape. done. Qed.
Lemma byte_hex_inj a b : is_byte a → is_byte b → byte_hex a = byte_hex b → a = b.
Proof. intros (x & y & Ha & <-)%byte_hex_shape (x' & y' & Hb & <-)%byte_hex_shape H. congruence. Qed.

Lemma bytesToHex_inj l l' : Forall is_byte l → Forall is_byte l' → bytesToHex l = bytesToHex l' → l = l'.
Proof. intros [H1 _]%bytesToHex_parse [H2 _]%bytesToHex_parse E. by rewrite <-H1, <-H2, E. Qed.

(** At the full width the id is the region's two digits and the whole hash. *)
Lemma topic_id_full c o n w : sha_ok → HEX_CHARS ks = 66 →
  topic_id c o n w = byte_hex c +:+ bytesToHex (sha256 (utf8 (canonical (topic_core o n w)))).
Proof.
  intros Hs Hk. unfold topic_id. rewrite Hk. f_equal. apply slice_to_all.
  destruct (Hs (utf8 (canonical (topic_core o n w)))) as [Hl Hb]. unfold sha256Hex.
  destruct (bytesToHex_parse _ Hb) as [_ ->]. rewrite Hl. done.
Qed.

Lemma topic_core_inj o n w o' n' w' : canonical (topic_core o n w) = canonical (topic_core o' n' w') →
  o = o' ∧ n = n' ∧ w = w'.
Proof.
  intros H. assert (∀ k, wired [("owner", owner_json o); ("name", JText n); ("write", JText w)] k =
    wired [("owner", owner_json o'); ("name", JText n'); ("write", JText w')] k) as Hw.
  { intros k. apply canonical_wired; [apply (bool_decide_unpack _); vm_compute; exact I..|exact H]. }
  read_at Hw "owner"; read_at Hw "name"; read_at Hw "write". unfold seen. simpl. intros [= ->] [= ->] Ho.
  destruct o, o'; simpl in Ho; by simplify_eq.
Qed.

(** A topic id commits to the descriptor. At the production width, two descriptors that
    resolve to one id (and whose hashed texts are no SHA-256 collision) have the same region,
    owner, name and write policy; the owner's case does not matter and leaving the policy out
    means owner-only where an owner is named and open where none is; and the system region
    holds the open bridge directory and nothing else. *)
Theorem topic_id_commits region owner name write self r region' owner' name' write' self' r' :
  sha_ok → regions_ok → HEX_CHARS ks = 66 →
  resolveTopic region owner name write self = Ok r → resolveTopic region' owner' name' write' self' = Ok r' →
  (r_topicId r = r_topicId r' →
    (sha256 (utf8 (canonical (topic_core (r_owner r) (r_name r) (r_write r)))) =
     sha256 (utf8 (canonical (topic_core (r_owner r') (r_name r') (r_write r')))) →
     canonical (topic_core (r_owner r) (r_name r) (r_write r)) = canonical (topic_core (r_owner r') (r_name r') (r_write r'))) →
    r = r') ∧
  (r_owner r = None → r_write r = "open") ∧
  (is_Some (r_owner r) → nullish write = true → r_write r = "owner") ∧
  (r_region r = SYSTEM_REGION_BRIDGE → r_name r = BRIDGE_DIRECTORY_TOPIC ∧ r_owner r = None ∧ r_write r = "open") ∧
  strlen (r_topicId r) = 66.
Proof.
  intros Hsha Hreg Hk Hr Hr'.
  destruct (resolveTopic_Ok _ _ _ _ _ _ Hr) as (En & Hn & Ho & Hw & (v & Hc)%region_code_Ok & Hsys & Hid).
  destruct (resolveTopic_Ok _ _ _ _ _ _ Hr') as (_ & _ & _ & _ & (v' & Hc')%region_code_Ok & _ & Hid').
  pose proof (Hreg _ _ Hc) as Rc. pose proof (Hreg _ _ Hc') as Rc'.
  rewrite topic_id_full in Hid, Hid' by done. split_and!.
  - intros E Hcol. rewrite Hid, Hid' in E. apply append_split in E as [E1 E2]; [|by rewrite !byte_hex_length].
    apply byte_hex_inj in E1; [|done..]. apply bytesToHex_inj in E2; [|apply Hsha..].
    apply Hcol, topic_core_inj in E2 as (E2 & E3 & E4). destruct r, r'; simpl in *. by subst.
  - intros Hno. rewrite Hno in Hw. simpl in Hw. congruence.
  - intros [o Hso] Hnull. rewrite Hso in Hw. simpl in Hw. rewrite Hnull in Hw. simpl in Hw. congruence.
  - intros [? Hno]%Hsys. rewrite Hno in Hw. injection Hw as Hw. by split_and!.
  - rewrite Hid. unfold strlen. assert (∀ a b, String.length (a +:+ b) = (String.length a + String.length b)%nat) as L.
    { intros a b. induction a as [|x a IH]; [done|]. change (String x a +:+ b) with (String x (a +:+ b)).
      cbn [String.length]. by rewrite IH. }
    rewrite L, byte_hex_length by done. destruct (Hsha (utf8 (canonical (topic_core (r_owner r) (r_name r) (r_write r))))) as [L1 L2].
    destruct (bytesToHex_parse _ L2) as [_ ->]. by rewrite L1.
Qed.
End topics.

(** * Witness *)

Definition toy_sha (m : bytes) : bytes := repeat (foldr Z.add 0 m mod 256) 32.
Definition toy_region (v : json) : option Z := match v with JNumber z => Some (z mod 192) | _ => None end.

Lemma topic_id_commits_witness : ∃ r,
  resolveTopic toy_sha toy_region production (JNumber 9) JNullV (JText "cats") (JText "owner") JNullV = Ok r ∧ r_write r = "open".
Proof.
  destruct (resolveTopic toy_sha toy_region production (JNumber 9) JNullV (JText "cats") (JText "owner") JNullV) as [r|] eqn:E;
    [|vm_compute in E; discriminate E].
  exists r. split; [done|].
  assert (sha_ok toy_sha) as Hs.
  { intros m. split; [apply repeat_length|]. unfold toy_sha. generalize 32%nat as n.
    assert (is_byte (foldr Z.add 0 m mod 256)) as Hb by (apply Z.mod_pos_bound; lia).
    intros n. induction n as [|n IH]; constructor; done. }
  assert (regions_ok toy_region) as Hr.
  { intros [| | |z| | | |] c; try done. intros [= <-]. pose proof (Z.mod_pos_bound z 192 ltac:(lia)). lia. }
  destruct (topic_id_commits toy_sha toy_region production _ _ _ _ _ r _ _ _ _ _ r Hs Hr eq_refl E E) as (_ & H & _).
  apply H. vm_compute in E. by injection E as <-.
Defined.
