(* ===== verification/TombstoneAuth.v ===== *)
(** Co-located tombstone authorization: [src/src/pubsub/tombstoneAuth.js].

    [BodyCache], [CandidateStore], [TombstoneStore] and [TombstoneAuthority]
    are the records [bodycache], [candstore], [tombstore] and [authority], one
    definition per method.  Signers, kill bytes, topic and message ids are
    texts; a publisher may be null ([None]).  [Infinity] is [None] in
    [t_minDeath]. *)

From Stdlib Require Import Ascii.
From stdpp Require Import base tactics sets list sorting numbers strings.
From Stdlib Require Import ZArith Lia.
From S2P Require Import Prelude Canonical.

Definition TTL_CEILING : Z := 24 * 60 * 60 * 1000.
Definition CLOCK_SKEW : Z := 5000.
Definition FUTURE_TOLERANCE_MS : Z := 30000.
Definition TOMBSTONE_RECORD_MAX : Z := 768.
Definition SUBLIMIT_FRACTION : Z := 16.

Record caps_profile := mk_profile {
  tombMaxCount : Z; candMax : Z; p_recordMax : Z; p_enabled : bool
}.
Definition RELAY_CAPS : caps_profile := mk_profile 32768 8192 TOMBSTONE_RECORD_MAX true.
Definition BROWSER_CAPS : caps_profile := mk_profile 512 128 TOMBSTONE_RECORD_MAX false.

Definition claimRetention (localReceipt : Z) : Z :=
  localReceipt + FUTURE_TOLERANCE_MS + TTL_CEILING + CLOCK_SKEW.

(** * Keys and byte accounting *)

Definition canonicalBytes (s : string) : Z := Z.of_nat (String.length s).
Definition recBytesOf (key : string) (rec : json) : Z :=
  canonicalBytes key + canonicalBytes (canonical rec).

Definition bar : ascii := "|"%char.
Definition authKey (topicId msgId : string) : string := topicId +:+ String bar msgId.

(** [k.slice(0, k.indexOf('|'))]: without a bar [indexOf] is -1 and the last
    character goes. *)
Fixpoint before_bar (k : string) : option string :=
  match k with
  | EmptyString => None
  | String c k' => if decide (c = bar) then Some "" else String c <$> before_bar k'
  end.
Fixpoint drop_last (k : string) : string :=
  match k with
  | EmptyString => ""
  | String c EmptyString => ""
  | String c k' => String c (drop_last k')
  end.
Definition topicOf (k : string) : string :=
  match before_bar k with Some t => t | None => drop_last k end.

(** [const [t, m] = k.split('|')]: the first two fields. *)
Fixpoint after_bar (k : string) : string :=
  match k with
  | EmptyString => ""
  | String c k' => if decide (c = bar) then k' else after_bar k'
  end.
Definition split_key (k : string) : string * string :=
  (default k (before_bar k), let m := after_bar k in default m (before_bar m)).

#[global] Arguments split_key : simpl never.
#[global] Arguments authKey : simpl never.

(** * Body cache *)

Record body := mk_body { publisher : option string; b_effectiveDeath : Z; b_arrivedAt : Z }.
Record bodycache := mk_bodycache { b_max : Z; b_map : jmap string body }.

Definition bc_has (B : bodycache) (k : string) : bool := jhas (b_map B) k.
Definition bc_get (B : bodycache) (k : string) : option body := jget (b_map B) k.
Definition bc_put (B : bodycache) (k : string) (b : body) : bodycache * option string :=
  let '(m, evicted) :=
    if negb (jhas (b_map B) k) && (b_max B <=? jsize (b_map B))
    then match jfirst (b_map B) with
         | Some old => (jdel (b_map B) old, Some old)
         | None => (b_map B, None)
         end
    else (b_map B, None) in
  (mk_bodycache (b_max B) (jset m k b), evicted).
Definition bc_evict (B : bodycache) (k : string) : bodycache * bool :=
  (mk_bodycache (b_max B) (jdel (b_map B) k), jhas (b_map B) k).

(** * Counters per signer and per topic

    A counter is a number or [NaN] ([None]): decrementing a key that is absent
    stores [NaN], and [m.get(k) || 0] reads [NaN] as 0. *)

Abbreviation counters := (jmap string (option Z)).

Definition cnt (m : counters) (k : string) : Z :=
  match jget m k with Some (Some c) => c | _ => 0 end.
Definition cnt_inc (m : counters) (k : string) : counters := jset m k (Some (cnt m k + 1)).
Definition cnt_dec (m : counters) (k : string) : counters :=
  match jget m k with
  | Some (Some c) => if c - 1 <=? 0 then jdel m k else jset m k (Some (c - 1))
  | _ => jset m k None
  end.

(** * Candidate store *)

Inductive cand_tag := plain | pending_tag.
#[export] Instance cand_tag_eq_dec : EqDecision cand_tag.
Proof. solve_decision. Defined.

Record candidate := mk_cand {
  c_signer : string; c_killBytes : string; c_tag : cand_tag;
  c_bodyArrivedAt : option Z; c_claimRet : Z; c_bytes : Z
}.

Record candcaps := mk_candcaps {
  cc_max : Z; cc_maxBytes : Z; cc_perSignerMax : Z; cc_perTopicMax : Z; cc_recordMax : option Z
}.
Record candstore := mk_candstore {
  c_caps : candcaps; c_map : jmap string (list candidate);
  c_total : Z; c_bytesTotal : Z; c_perSigner : counters; c_perTopic : counters
}.

Definition new_candstore (caps : candcaps) : candstore := mk_candstore caps [] 0 0 [] [].

(** One candidate of key [k] leaves the accounting. *)
Definition cand_uncount (k : string) (c : candidate) (st : candstore) : candstore :=
  mk_candstore (c_caps st) (c_map st) (c_total st - 1) (c_bytesTotal st - c_bytes c)
    (cnt_dec (c_perSigner st) (c_signer c)) (cnt_dec (c_perTopic st) (topicOf k)).

Definition cand_with_map (st : candstore) (m : jmap string (list candidate)) : candstore :=
  mk_candstore (c_caps st) m (c_total st) (c_bytesTotal st) (c_perSigner st) (c_perTopic st).

Definition claim_expired (now : Z) (c : candidate) : bool := c_claimRet c <? now.

(** The list of one key is scanned from its end; an emptied list drops the key. *)
Definition cand_reclaim_key (now : Z) (st : candstore) (p : string * list candidate) : candstore :=
  let '(k, l) := p in
  let S1 := foldr (λ c st, if claim_expired now c then cand_uncount k c st else st) st l in
  let l' := filter (λ c, claim_expired now c = false) l in
  cand_with_map S1 (match l' with [] => jdel (c_map S1) k | _ => jset (c_map S1) k l' end).

Definition cand_reclaimExpired (now : Z) (st : candstore) : candstore :=
  foldl (cand_reclaim_key now) st (c_map st).

Definition cand_get (st : candstore) (k : string) : list candidate := default [] (jget (c_map st) k).

Inductive admit_res :=
| ADMITTED | DUP | REFUSED_RECORD_TOO_LARGE | REFUSED_CAND_GLOBAL | REFUSED_CAND_BYTES
| REFUSED_CAND_SIGNER | REFUSED_CAND_TOPIC.
#[export] Instance admit_res_eq_dec : EqDecision admit_res.
Proof. solve_decision. Defined.

Definition recordMaxOr (st : candstore) : Z := default TOMBSTONE_RECORD_MAX (cc_recordMax (c_caps st)).

Definition cand_rec (signer killBytes : string) : json :=
  JObject [("signer", JText signer); ("killBytes", JText killBytes)].

Definition cand_admit (st : candstore) (k signer killBytes : string) (now : Z)
    (tag : cand_tag) (bodyArrivedAt : option Z) : candstore * admit_res :=
  let st := cand_reclaimExpired now st in
  let l := cand_get st k in
  let bytes := recBytesOf k (cand_rec signer killBytes) in
  if existsb (λ c, bool_decide (c_signer c = signer)) l then (st, DUP)
  else if recordMaxOr st <? bytes then (st, REFUSED_RECORD_TOO_LARGE)
  else if cc_max (c_caps st) <=? c_total st then (st, REFUSED_CAND_GLOBAL)
  else if cc_maxBytes (c_caps st) <? c_bytesTotal st + bytes then (st, REFUSED_CAND_BYTES)
  else if cc_perSignerMax (c_caps st) <=? cnt (c_perSigner st) signer then (st, REFUSED_CAND_SIGNER)
  else if cc_perTopicMax (c_caps st) <=? cnt (c_perTopic st) (topicOf k) then (st, REFUSED_CAND_TOPIC)
  else
    (mk_candstore (c_caps st)
       (jset (c_map st) k (l ++ [mk_cand signer killBytes tag bodyArrivedAt (claimRetention now) bytes]))
       (c_total st + 1) (c_bytesTotal st + bytes)
       (cnt_inc (c_perSigner st) signer) (cnt_inc (c_perTopic st) (topicOf k)), ADMITTED).

Definition cand_find (st : candstore) (k : string) (signer : option string) : option candidate :=
  List.find (λ c, bool_decide (Some (c_signer c) = signer)) (cand_get st k).

Definition retag (tag : cand_tag) (at_ : option Z) (c : candidate) : candidate :=
  mk_cand (c_signer c) (c_killBytes c) tag at_ (c_claimRet c) (c_bytes c).

(** Only the first match of [find] is retagged. *)
Fixpoint retag_first (signer : option string) (tag : cand_tag) (at_ : option Z)
    (l : list candidate) : list candidate :=
  match l with
  | [] => []
  | c :: l' => if bool_decide (Some (c_signer c) = signer) then retag tag at_ c :: l'
               else c :: retag_first signer tag at_ l'
  end.

Definition cand_setTag (st : candstore) (k : string) (signer : option string)
    (tag : cand_tag) (at_ : option Z) : candstore :=
  cand_with_map st (jalter (retag_first signer tag at_) (c_map st) k).

Definition cand_demoteKey (st : candstore) (k : string) : candstore :=
  cand_with_map st (jalter (fmap (retag plain None)) (c_map st) k).

Fixpoint remove_first (signer : string) (l : list candidate) : list candidate :=
  match l with
  | [] => []
  | c :: l' => if bool_decide (c_signer c = signer) then l' else c :: remove_first signer l'
  end.

Definition cand_remove (st : candstore) (k signer : string) : candstore * bool :=
  match jget (c_map st) k with
  | None => (st, false)
  | Some l =>
      match List.find (λ c, bool_decide (c_signer c = signer)) l with
      | None => (st, false)
      | Some c =>
          let S1 := cand_uncount k c st in
          let l' := remove_first signer l in
          (cand_with_map S1 (match l' with [] => jdel (c_map S1) k | _ => jset (c_map S1) k l' end), true)
      end
  end.

Definition cand_purge (st : candstore) (k : string) : candstore * Z :=
  match jget (c_map st) k with
  | None => (st, 0)
  | Some l =>
      let S1 := foldl (λ st c, cand_uncount k c st) st l in
      (cand_with_map S1 (jdel (c_map S1) k), Z.of_nat (length l))
  end.

Definition pendingOldestFirst (st : candstore) : list (string * candidate) :=
  sort_by (λ p, default 0 (c_bodyArrivedAt p.2))
    (mbind (λ p : string * list candidate,
       (λ c, (p.1, c)) <$> filter (λ c, c_tag c = pending_tag) p.2) (c_map st)).

(** * Tombstone store *)

Record tombrec := mk_tombrec {
  signerPubkey : string; t_effectiveDeath : Z; t_killBytes : string; t_bytes : Z
}.
Record tombcaps := mk_tombcaps {
  tc_maxCount : Z; tc_maxBytes : Z; tc_perSignerMax : Z; tc_perTopicMax : Z; tc_recordMax : option Z
}.
Record tombstore := mk_tombstore {
  t_caps : tombcaps; t_map : jmap string tombrec; t_bytesTotal : Z;
  t_perSigner : counters; t_perTopic : counters; t_minDeath : option Z
}.

Definition new_tombstore (caps : tombcaps) : tombstore := mk_tombstore caps [] 0 [] [] None.

Definition tomb_json (signer : string) (death : Z) (killBytes : string) : json :=
  JObject [("signerPubkey", JText signer); ("effectiveDeath", JNumber death);
           ("killBytes", JText killBytes)].

(** One entry of [reclaimExpired]'s loop; [min] is the running minimum. *)
Definition tomb_reclaim_one (now : Z) (acc : tombstore * option Z) (p : string * tombrec)
    : tombstore * option Z :=
  let '(st, min) := acc in let '(k, r) := p in
  if t_effectiveDeath r <? now then
    (mk_tombstore (t_caps st) (jdel (t_map st) k) (t_bytesTotal st - t_bytes r)
       (cnt_dec (t_perSigner st) (signerPubkey r)) (cnt_dec (t_perTopic st) (topicOf k)) (t_minDeath st), min)
  else (st, match min with
           | None => Some (t_effectiveDeath r)
           | Some d => if t_effectiveDeath r <? d then Some (t_effectiveDeath r) else min
           end).

Definition tomb_reclaimExpired (now : Z) (st : tombstore) : tombstore :=
  if match t_minDeath st with None => true | Some d => now <=? d end then st
  else
    let '(st', min) := foldl (tomb_reclaim_one now) (st, None) (t_map st) in
    mk_tombstore (t_caps st') (t_map st') (t_bytesTotal st') (t_perSigner st') (t_perTopic st') min.

Inductive would_res :=
| OK | W_RECORD_TOO_LARGE | REFUSED_GLOBAL_COUNT | REFUSED_GLOBAL_BYTES | REFUSED_SIGNER | REFUSED_TOPIC.
#[export] Instance would_res_eq_dec : EqDecision would_res.
Proof. solve_decision. Defined.

Definition wouldAdmit (st : tombstore) (topicId k signer : string) (death : Z) (killBytes : string)
    : would_res :=
  let b := recBytesOf k (tomb_json signer death killBytes) in
  if default TOMBSTONE_RECORD_MAX (tc_recordMax (t_caps st)) <? b then W_RECORD_TOO_LARGE
  else if tc_maxCount (t_caps st) <=? jsize (t_map st) then REFUSED_GLOBAL_COUNT
  else if tc_maxBytes (t_caps st) <? t_bytesTotal st + b then REFUSED_GLOBAL_BYTES
  else if tc_perSignerMax (t_caps st) <=? cnt (t_perSigner st) signer then REFUSED_SIGNER
  else if tc_perTopicMax (t_caps st) <=? cnt (t_perTopic st) topicId then REFUSED_TOPIC
  else OK.

Definition tomb_insert (st : tombstore) (topicId k signer : string) (death : Z) (killBytes : string)
    : tombstore :=
  let b := recBytesOf k (tomb_json signer death killBytes) in
  mk_tombstore (t_caps st) (jset (t_map st) k (mk_tombrec signer death killBytes b))
    (t_bytesTotal st + b) (cnt_inc (t_perSigner st) signer) (cnt_inc (t_perTopic st) topicId)
    (match t_minDeath st with None => Some death | Some d => if death <? d then Some death else Some d end).

Definition tomb_has (st : tombstore) (k : string) : bool := jhas (t_map st) k.
Definition tomb_get (st : tombstore) (k : string) : option tombrec := jget (t_map st) k.

Definition sublimit (n : Z) : Z := Z.max 1 (n / SUBLIMIT_FRACTION).
Definition tombCapsFor (p : caps_profile) : tombcaps :=
  mk_tombcaps (tombMaxCount p) (tombMaxCount p * p_recordMax p)
    (sublimit (tombMaxCount p)) (sublimit (tombMaxCount p)) (Some (p_recordMax p)).
Definition candCapsFor (p : caps_profile) : candcaps :=
  mk_candcaps (candMax p) (candMax p * p_recordMax p)
    (sublimit (candMax p)) (sublimit (candMax p)) (Some (p_recordMax p)).

(** * The authority over the three stores *)

Record effects := mk_fx {
  cacheRemovals : Z; fanouts : Z; candidatePurges : Z;
  liveEvictions : Z; suppressions : Z; demotions : Z
}.
Definition fx0 : effects := mk_fx 0 0 0 0 0 0.

Record authority := mk_authority {
  a_profile : caps_profile; tomb : tombstore; cand : candstore; bodies : bodycache; fx : effects
}.

Definition new_authority (p : caps_profile) (bodyMax : Z) : authority :=
  mk_authority p (new_tombstore (tombCapsFor p)) (new_candstore (candCapsFor p))
    (mk_bodycache bodyMax []) fx0.

Definition with_tomb (a : authority) (t : tombstore) : authority :=
  mk_authority (a_profile a) t (cand a) (bodies a) (fx a).
Definition with_cand (a : authority) (c : candstore) : authority :=
  mk_authority (a_profile a) (tomb a) c (bodies a) (fx a).

(** The codes [suppress], [onKill] and [onBody] return. *)
Inductive verdict :=
| V_SUPPRESSED | V_CONFIRMED | V_REFUSED_MISMATCH_TOMB | V_REFUSED_EXPIRED
| V_REFUSED (w : would_res)
| V_DROP_MISMATCH_TOMB | V_DROP_EXPIRED | V_DROP_NONAUTHOR_BODYPRESENT
| V_PENDING_CAPACITY (r : verdict) (a : option admit_res)
| V_CAND (a : admit_res)
| V_SUPPRESSED_TOMBSTONE | V_DELIVERED.
#[export] Instance verdict_eq_dec : EqDecision verdict.
Proof. solve_decision. Defined.

Definition suppress (a : authority) (topicId msgId signer killBytes : string)
    (death now : Z) : authority * verdict :=
  let k := authKey topicId msgId in
  let a := with_tomb a (tomb_reclaimExpired now (tomb a)) in
  match tomb_get (tomb a) k with
  | Some existing =>
      (a, if decide (signerPubkey existing = signer) then V_CONFIRMED else V_REFUSED_MISMATCH_TOMB)
  | None =>
      if death <? now then (a, V_REFUSED_EXPIRED)
      else match wouldAdmit (tomb a) topicId k signer death killBytes with
           | OK =>
               let t := tomb_insert (tomb a) topicId k signer death killBytes in
               let '(b, had) := bc_evict (bodies a) k in
               let '(c, n) := cand_purge (cand a) k in
               let f := fx a in
               (mk_authority (a_profile a) t c b
                  (mk_fx (cacheRemovals f + if had then 1 else 0) (fanouts f + 1)
                     (candidatePurges f + if 0 <? n then 1 else 0)
                     (liveEvictions f) (suppressions f + 1) (demotions f)), V_SUPPRESSED)
           | w => (a, V_REFUSED w)
           end
  end.

Definition putBody (a : authority) (k : string) (b : body) : authority :=
  let '(B, ev) := bc_put (bodies a) k b in
  let f := fx a in
  match ev with
  | Some old =>
      mk_authority (a_profile a) (tomb a) (cand_demoteKey (cand a) old) B
        (mk_fx (cacheRemovals f) (fanouts f) (candidatePurges f)
           (liveEvictions f + 1) (suppressions f) (demotions f + 1))
  | None => mk_authority (a_profile a) (tomb a) (cand a) B f
  end.

Definition onKill (a : authority) (topicId msgId signer killBytes : string) (now : Z)
    : authority * verdict :=
  let k := authKey topicId msgId in
  let a := with_tomb a (tomb_reclaimExpired now (tomb a)) in
  match tomb_get (tomb a) k with
  | Some t => (a, if decide (signerPubkey t = signer) then V_CONFIRMED else V_DROP_MISMATCH_TOMB)
  | None =>
      match bc_get (bodies a) k with
      | Some b =>
          if decide (publisher b = Some signer) then
            let '(a, r) := suppress a topicId msgId signer killBytes (b_effectiveDeath b) now in
            match r with
            | V_SUPPRESSED => (a, V_SUPPRESSED)
            | V_REFUSED_EXPIRED => (a, V_DROP_EXPIRED)
            | _ =>
                let '(c, d) := cand_admit (cand a) k signer killBytes now pending_tag
                                 (Some (b_arrivedAt b)) in
                (with_cand a c, V_PENDING_CAPACITY r (Some d))
            end
          else (a, V_DROP_NONAUTHOR_BODYPRESENT)
      | None =>
          let '(c, d) := cand_admit (cand a) k signer killBytes now plain None in
          (with_cand a c, V_CAND d)
      end
  end.

Definition isSuppressed (a : authority) (topicId msgId : string) (now : Z) : bool :=
  match tomb_get (tomb a) (authKey topicId msgId) with
  | None => false
  | Some r => negb (t_effectiveDeath r <? now)
  end.

Definition onBody (a : authority) (topicId msgId : string) (pub : option string)
    (death now : Z) : authority * verdict :=
  let k := authKey topicId msgId in
  let a := with_tomb a (tomb_reclaimExpired now (tomb a)) in
  if isSuppressed a topicId msgId now then (a, V_SUPPRESSED_TOMBSTONE)
  else if death <? now then (a, V_DROP_EXPIRED)
  else
    let a := putBody a k (mk_body pub death now) in
    match cand_find (cand a) k pub, pub with
    | Some m, Some p =>
        let '(a, r) := suppress a topicId msgId p (c_killBytes m) death now in
        match r with
        | V_SUPPRESSED | V_CONFIRMED => (a, V_SUPPRESSED)
        | V_REFUSED_EXPIRED => (a, V_DROP_EXPIRED)
        | _ => (with_cand a (cand_setTag (cand a) k pub pending_tag (Some now)),
                V_PENDING_CAPACITY r None)
        end
    | _, _ =>
        match cand_get (cand a) k with
        | [] => (a, V_DELIVERED)
        | _ =>
            let '(c, n) := cand_purge (cand a) k in
            let f := fx a in
            (mk_authority (a_profile a) (tomb a) c (bodies a)
               (mk_fx (cacheRemovals f) (fanouts f) (candidatePurges f + if 0 <? n then 1 else 0)
                  (liveEvictions f) (suppressions f) (demotions f)), V_DELIVERED)
        end
    end.

Definition evictBody (a : authority) (topicId msgId : string) : authority * bool :=
  let k := authKey topicId msgId in
  let '(B, had) := bc_evict (bodies a) k in
  let f := fx a in
  (mk_authority (a_profile a) (tomb a) (cand_demoteKey (cand a) k) B
     (mk_fx (cacheRemovals f) (fanouts f) (candidatePurges f) (liveEvictions f)
        (suppressions f) (demotions f + if had then 1 else 0)), had).

Definition retry_one (now : Z) (a : authority) (p : string * candidate) : authority :=
  let '(k, c) := p in
  match bc_get (bodies a) k with
  | Some b =>
      if bool_decide (publisher b = Some (c_signer c)) && (now <=? b_effectiveDeath b) then
        let '(t, m) := split_key k in
        let '(a, r) := suppress a t m (c_signer c) (c_killBytes c) (b_effectiveDeath b) now in
        if decide (r = V_SUPPRESSED) then with_cand a (cand_remove (cand a) k (c_signer c)).1 else a
      else a
  | None => a
  end.

Definition reclaimAndRetry (a : authority) (now : Z) : authority :=
  let a := with_tomb a (tomb_reclaimExpired now (tomb a)) in
  let a := with_cand a (cand_reclaimExpired now (cand a)) in
  foldl (retry_one now) a (pendingOldestFirst (cand a)).

(** * Keys *)

Fixpoint bar_free (s : string) : bool :=
  match s with
  | EmptyString => true
  | String c s' => negb (bool_decide (c = bar)) && bar_free s'
  end.

Definition key_ok (k : string) : Prop :=
  ∃ t m, bar_free t = true ∧ bar_free m = true ∧ k = authKey t m.

#[local] Arguments String.append !s1 s2 / : simpl nomatch, rename.

Lemma before_bar_free m : bar_free m = true → before_bar m = None.
Proof.
  induction m as [|c m IH]; cbn [bar_free before_bar]; [done|].
  rewrite andb_true_iff, negb_true_iff, bool_decide_eq_false. intros [? ?].
  rewrite decide_False, IH by done. done.
Qed.

Lemma before_bar_authKey t m : bar_free t = true → before_bar (authKey t m) = Some t.
Proof.
  unfold authKey. induction t as [|c t IH];
    cbn [bar_free before_bar after_bar String.append]; [by rewrite decide_True|].
  rewrite andb_true_iff, negb_true_iff, bool_decide_eq_false. intros [? ?].
  rewrite decide_False, IH by done. done.
Qed.

Lemma after_bar_authKey t m : bar_free t = true → after_bar (authKey t m) = m.
Proof.
  unfold authKey. induction t as [|c t IH];
    cbn [bar_free before_bar after_bar String.append]; [by rewrite decide_True|].
  rewrite andb_true_iff, negb_true_iff, bool_decide_eq_false. intros [? ?].
  rewrite decide_False, IH by done. done.
Qed.

Lemma topicOf_authKey t m : bar_free t = true → topicOf (authKey t m) = t.
Proof. intros. unfold topicOf. by rewrite before_bar_authKey. Qed.

Lemma split_key_authKey t m :
  bar_free t = true → bar_free m = true → split_key (authKey t m) = (t, m).
Proof.
  intros. unfold split_key. rewrite before_bar_authKey, after_bar_authKey by done.
  simpl. by rewrite before_bar_free.
Qed.

Lemma authKey_ok t m : bar_free t = true → bar_free m = true → key_ok (authKey t m).
Proof. by exists t, m. Qed.
#[local] Hint Resolve authKey_ok : axona.

(** * Counters agree with what they count

    [counts_ok m f]: the counter of [s] is [f s], and a counter that would be
    0 is absent; no counter is [NaN]. *)

Definition counts_ok (m : counters) (f : string → Z) : Prop :=
  ∀ s, 0 ≤ f s ∧ jget m s = if decide (0 < f s) then Some (Some (f s)) else None.

Definition ind (b : bool) : Z := if b then 1 else 0.
Abbreviation isz a b := (ind (bool_decide (a = b))).

Lemma ind_nonneg b : 0 ≤ ind b.
Proof. destruct b; simpl; lia. Qed.

Lemma counts_ok_ext m f g : (∀ s, f s = g s) → counts_ok m f → counts_ok m g.
Proof. intros Hfg Hf s. rewrite <-Hfg. apply Hf. Qed.

Lemma counts_ok_nil : counts_ok [] (λ _, 0).
Proof. intros s. split; [lia|]. by rewrite decide_False by lia. Qed.

Lemma cnt_counts m f s : counts_ok m f → cnt m s = f s.
Proof. intros Hm. destruct (Hm s) as [? Hg]. unfold cnt. rewrite Hg. case_decide; lia. Qed.

Lemma cnt_inc_ok m f k : counts_ok m f → counts_ok (cnt_inc m k) (λ s, f s + isz k s).
Proof.
  intros Hm s. unfold cnt_inc. rewrite (cnt_counts m f) by done. destruct (Hm s) as [? Hg].
  pose proof (ind_nonneg (bool_decide (k = s))). split; [lia|]. rewrite jget_jset.
  destruct (decide (k = s)) as [->|Hne].
  - rewrite bool_decide_true by done. simpl. rewrite decide_True by lia. done.
  - rewrite bool_decide_false by done. simpl. rewrite Hg, Z.add_0_r. done.
Qed.

Lemma cnt_dec_ok m f k : 0 < f k → counts_ok m f → counts_ok (cnt_dec m k) (λ s, f s - isz k s).
Proof.
  intros Hk Hm. unfold cnt_dec. destruct (Hm k) as [_ Hg]. rewrite Hg, decide_True by done.
  intros s. destruct (Hm s) as [? Hs].
  destruct (decide (k = s)) as [->|Hne].
  - rewrite bool_decide_true by done. simpl. split; [lia|]. destruct (f s - 1 <=? 0) eqn:E; zb.
    + rewrite jget_jdel_eq, decide_False by lia. done.
    + rewrite jget_jset_eq, decide_True by lia. done.
  - rewrite bool_decide_false by done. simpl. rewrite Z.sub_0_r. split; [done|].
    destruct (f k - 1 <=? 0); [by rewrite jget_jdel_ne | by rewrite jget_jset_ne].
Qed.

(** * Tombstone store: accounting and reclamation *)

Definition tomb_sum (g : string → tombrec → Z) (st : tombstore) : Z := jsum g (t_map st).

(** The counters hold what the map holds. *)
Definition tomb_acc (st : tombstore) : Prop :=
  jwf (t_map st) ∧
  t_bytesTotal st = tomb_sum (λ _ r, t_bytes r) st ∧
  counts_ok (t_perSigner st) (λ s, tomb_sum (λ _ r, isz (signerPubkey r) s) st) ∧
  counts_ok (t_perTopic st) (λ t, tomb_sum (λ k _, isz (topicOf k) t) st).

Definition le_inf (o : option Z) (d : Z) : Prop := match o with Some m => m ≤ d | None => False end.

(** [minDeath] is a lower bound of every deadline held. *)
Definition tomb_min (st : tombstore) : Prop :=
  ∀ k r, jget (t_map st) k = Some r → le_inf (t_minDeath st) (t_effectiveDeath r).

Definition rec_max (st : tombstore) : Z := default TOMBSTONE_RECORD_MAX (tc_recordMax (t_caps st)).

Definition tomb_bounded (st : tombstore) : Prop :=
  jsize (t_map st) ≤ tc_maxCount (t_caps st) ∧
  t_bytesTotal st ≤ tc_maxBytes (t_caps st) ∧
  (∀ s, cnt (t_perSigner st) s ≤ tc_perSignerMax (t_caps st)) ∧
  (∀ t, cnt (t_perTopic st) t ≤ tc_perTopicMax (t_caps st)) ∧
  (∀ k r, jget (t_map st) k = Some r → 0 ≤ t_bytes r ≤ rec_max st).

Record tomb_wf (st : tombstore) : Prop := {
  tw_acc : tomb_acc st; tw_min : tomb_min st; tw_bounded : tomb_bounded st
}.

Definition tomb_drop (st : tombstore) (k : string) (r : tombrec) : tombstore :=
  mk_tombstore (t_caps st) (jdel (t_map st) k) (t_bytesTotal st - t_bytes r)
    (cnt_dec (t_perSigner st) (signerPubkey r)) (cnt_dec (t_perTopic st) (topicOf k)) (t_minDeath st).

Lemma tomb_sum_drop g st k r :
  jwf (t_map st) → jget (t_map st) k = Some r →
  tomb_sum g (tomb_drop st k r) = tomb_sum g st - g k r.
Proof. intros Hw Hg. unfold tomb_sum. simpl. by rewrite jsum_jdel, Hg. Qed.

Lemma tomb_drop_acc st k r :
  jget (t_map st) k = Some r → tomb_acc st → tomb_acc (tomb_drop st k r).
Proof.
  intros Hg (Hw & Hb & Hs & Ht).
  pose proof (λ g Hnn, jsum_elem_le g (t_map st) k r Hnn Hg) as Hle.
  split_and!.
  - simpl. auto with axona.
  - rewrite tomb_sum_drop by done. simpl. by rewrite Hb.
  - eapply counts_ok_ext; [intros s; symmetry; by apply tomb_sum_drop|].
    apply cnt_dec_ok; [|done].
    specialize (Hle (λ _ r0, isz (signerPubkey r0) (signerPubkey r)) (λ _ _, ind_nonneg _)).
    simpl in Hle. rewrite bool_decide_true in Hle by done. unfold tomb_sum. simpl in *. lia.
  - eapply counts_ok_ext; [intros s; symmetry; by apply tomb_sum_drop|].
    apply cnt_dec_ok; [|done].
    specialize (Hle (λ k0 _, isz (topicOf k0) (topicOf k)) (λ _ _, ind_nonneg _)).
    simpl in Hle. rewrite bool_decide_true in Hle by done. unfold tomb_sum. simpl in *. lia.
Qed.

Lemma tomb_drop_bounded st k r :
  jget (t_map st) k = Some r → tomb_acc st → tomb_bounded st → tomb_bounded (tomb_drop st k r).
Proof.
  intros Hg Hacc (Hc & Hb & Hs & Ht & Hr). pose proof (tomb_drop_acc st k r Hg Hacc) as Hacc'.
  destruct Hacc as (Hw & Hbt & Hcs & Hct), Hacc' as (_ & _ & Hcs' & Hct').
  destruct (Hr k r Hg) as [Hr0 _]. split_and!; simpl.
  - pose proof (jsize_jdel_le (t_map st) k). lia.
  - lia.
  - intros s. specialize (Hs s). rewrite (cnt_counts _ _ _ Hcs) in Hs.
    rewrite (cnt_counts _ _ _ Hcs'), tomb_sum_drop by done.
    pose proof (ind_nonneg (bool_decide (signerPubkey r = s))). lia.
  - intros s. specialize (Ht s). rewrite (cnt_counts _ _ _ Hct) in Ht.
    rewrite (cnt_counts _ _ _ Hct'), tomb_sum_drop by done.
    pose proof (ind_nonneg (bool_decide (topicOf k = s))). lia.
  - intros k' r'. rewrite jget_jdel. case_decide; [done|]. apply Hr.
Qed.

Lemma decide_cons_ne {A} (x y : string) l (a b : A) :
  x ≠ y → (if decide (y ∈ x :: l) then a else b) = (if decide (y ∈ l) then a else b).
Proof.
  intros Hne. destruct (decide (y ∈ l)).
  - by rewrite decide_True by (by right).
  - rewrite decide_False; [done|]. by intros [?|?]%elem_of_cons.
Qed.

(** One entry of the scan. *)
Lemma tomb_reclaim_one_dead now st min k r :
  t_effectiveDeath r < now → tomb_reclaim_one now (st, min) (k, r) = (tomb_drop st k r, min).
Proof. intros. unfold tomb_reclaim_one. by rewrite (proj2 (Z.ltb_lt _ _)). Qed.

Lemma tomb_reclaim_one_live now st min k r :
  now ≤ t_effectiveDeath r →
  ∃ min', tomb_reclaim_one now (st, min) (k, r) = (st, min') ∧
    le_inf min' (t_effectiveDeath r) ∧ (∀ d, le_inf min d → le_inf min' d).
Proof.
  intros. unfold tomb_reclaim_one. rewrite (proj2 (Z.ltb_ge _ _)) by done.
  eexists; split; [done|]. destruct min as [d|]; simpl; [|split; [lia|done]].
  case_match; zb; simpl; split; intros; lia.
Qed.

(** The scan of [l]: what is past its deadline goes, the rest stays. *)
Lemma tomb_scan now l st min st' min' :
  foldl (tomb_reclaim_one now) (st, min) l = (st', min') →
  NoDup l.*1 → (∀ k r, (k, r) ∈ l → jget (t_map st) k = Some r) →
  tomb_acc st → tomb_bounded st →
  tomb_acc st' ∧ tomb_bounded st' ∧ t_caps st' = t_caps st ∧
  (∀ k, jget (t_map st') k =
     if decide (k ∈ l.*1) then r ← jget (t_map st) k; if t_effectiveDeath r <? now then None else Some r
     else jget (t_map st) k) ∧
  (∀ k r, (k, r) ∈ l → now ≤ t_effectiveDeath r → le_inf min' (t_effectiveDeath r)) ∧
  (∀ d, le_inf min d → le_inf min' d).
Proof.
  revert st min. induction l as [|[k r] l IH]; intros st min Hf Hnd Hin Hacc Hbd.
  { simplify_eq/=. split_and!; try done. set_solver. }
  cbn [foldl] in Hf. cbn [fmap list_fmap fst] in Hnd. apply NoDup_cons in Hnd as [Hni Hnd].
  pose proof (Hin k r ltac:(left)) as Hk.
  destruct (decide (t_effectiveDeath r < now)) as [Hd|Hd].
  - rewrite tomb_reclaim_one_dead in Hf by done.
    apply IH in Hf; [|done| |by apply tomb_drop_acc|by apply tomb_drop_bounded].
    2:{ intros k' r' Hin'. simpl. rewrite jget_jdel_ne by (intros ->; apply Hni, list_elem_of_fmap;
          by exists (k', r')). apply Hin. by right. }
    destruct Hf as (? & ? & ? & Hg & Hm & Hmin). split_and!; try done.
    + intros k'. rewrite Hg. simpl. rewrite jget_jdel. cbn [fmap list_fmap fst].
      destruct (decide (k = k')) as [<-|Hne].
      * rewrite decide_False by done. rewrite decide_True by left. rewrite Hk. simpl.
        by rewrite (proj2 (Z.ltb_lt _ _)).
      * by rewrite decide_cons_ne.
    + intros k' r' [?|?]%elem_of_cons ?; simplify_eq; [lia|eauto].
  - destruct (tomb_reclaim_one_live now st min k r) as (m1 & E & Hm1 & Hmon); [lia|].
    rewrite E in Hf. apply IH in Hf; [|done|intros; apply Hin; by right|done|done].
    destruct Hf as (? & ? & ? & Hg & Hm & Hmin). split_and!; try done.
    + intros k'. rewrite Hg. cbn [fmap list_fmap fst]. destruct (decide (k = k')) as [<-|Hne].
      * rewrite decide_False by done. rewrite decide_True by left. rewrite Hk. simpl.
        by rewrite (proj2 (Z.ltb_ge _ _)) by lia.
      * by rewrite decide_cons_ne.
    + intros k' r' [?|?]%elem_of_cons ?; simplify_eq; eauto.
    + eauto.
Qed.

(** [reclaimExpired] drops exactly what is past its deadline: the [minDeath]
    shortcut never skips a record that is due. *)
Lemma tomb_reclaim_get now st k :
  tomb_wf st →
  jget (t_map (tomb_reclaimExpired now st)) k =
    r ← jget (t_map st) k; if t_effectiveDeath r <? now then None else Some r.
Proof.
  intros [Hacc Hmin Hbd]. unfold tomb_reclaimExpired.
  destruct (jget (t_map st) k) as [r|] eqn:Hk; simpl.
  - specialize (Hmin k r Hk). destruct (t_minDeath st) as [d|]; [|done]. simpl in Hmin.
    destruct (now <=? d) eqn:E; zb.
    { rewrite Hk, (proj2 (Z.ltb_ge _ _)) by lia. done. }
    destruct (foldl _ _ _) as [st' min'] eqn:Hf.
    apply tomb_scan in Hf; [|apply Hacc| |done|done].
    2:{ intros. apply elem_jget; [apply Hacc|done]. }
    destruct Hf as (_ & _ & _ & Hg & _). simpl. rewrite Hg, decide_True, Hk; [done|].
    by eapply jget_Some_key.
  - destruct (t_minDeath st) as [d|]; [|done]. destruct (now <=? d) eqn:E; [done|].
    destruct (foldl _ _ _) as [st' min'] eqn:Hf.
    apply tomb_scan in Hf; [|apply Hacc| |done|done].
    2:{ intros. apply elem_jget; [apply Hacc|done]. }
    destruct Hf as (_ & _ & _ & Hg & _). simpl. rewrite Hg, Hk. by case_decide.
Qed.

Lemma tomb_reclaim_wf now st : tomb_wf st → tomb_wf (tomb_reclaimExpired now st).
Proof.
  intros Hwf. pose proof (λ k, tomb_reclaim_get now st k Hwf) as Hget.
  destruct Hwf as [Hacc Hmin Hbd]. unfold tomb_reclaimExpired in *.
  destruct (match t_minDeath st with None => true | Some d => now <=? d end) eqn:E; [done|].
  destruct (foldl _ _ _) as [st' min'] eqn:Hf. pose proof Hf as Hf'.
  apply tomb_scan in Hf as (Ha & Hb & Hc & Hg & Hm & _); [|apply Hacc| |done|done].
  2:{ intros. apply elem_jget; [apply Hacc|done]. }
  split; [done| |done].
  intros k r Hk. simpl in *. rewrite Hget in Hk.
  destruct (jget (t_map st) k) as [r'|] eqn:Hk'; [|done]. simpl in Hk.
  case_match; simplify_eq; zb. apply (Hm k r); [by apply jget_Some_elem|done].
Qed.

Lemma tomb_reclaim_caps now st : tomb_wf st → t_caps (tomb_reclaimExpired now st) = t_caps st.
Proof.
  intros [Hacc Hmin Hbd]. unfold tomb_reclaimExpired. case_match; [done|].
  destruct (foldl _ _ _) as [st' min'] eqn:Hf.
  apply tomb_scan in Hf as (_ & _ & Hc & _); [done|apply Hacc| |done|done].
  intros. apply elem_jget; [apply Hacc|done].
Qed.
#[local] Hint Resolve tomb_reclaim_wf : axona.

Lemma tomb_insert_wf st topicId m signer death kb :
  bar_free topicId = true →
  tomb_wf st → jget (t_map st) (authKey topicId m) = None →
  wouldAdmit st topicId (authKey topicId m) signer death kb = OK →
  tomb_wf (tomb_insert st topicId (authKey topicId m) signer death kb).
Proof.
  intros Hbf [(Hw & Hbt & Hcs & Hct) Hmin (Hc & Hb & Hs & Ht & Hr)] Hg Hok.
  unfold wouldAdmit in Hok. repeat (case_match; [done|]). zb.
  set (k := authKey topicId m) in *. set (b := recBytesOf k (tomb_json signer death kb)) in *.
  assert (0 ≤ b) as Hb0 by (unfold b, recBytesOf, canonicalBytes; lia).
  assert (∀ g, tomb_sum g (tomb_insert st topicId k signer death kb)
    = tomb_sum g st + g k (mk_tombrec signer death kb b)) as Hsum.
  { intros g. unfold tomb_sum.
    change (t_map (tomb_insert st topicId k signer death kb))
      with (jset (t_map st) k (mk_tombrec signer death kb b)).
    rewrite jsum_jset, Hg. lia. }
  assert (topicOf k = topicId) as Htop by (by apply topicOf_authKey).
  split.
  - split_and!.
    + simpl. auto with axona.
    + rewrite Hsum. simpl. by rewrite Hbt.
    + eapply counts_ok_ext; [intros s; symmetry; apply Hsum|]. by apply cnt_inc_ok.
    + eapply counts_ok_ext; [intros s; symmetry; apply Hsum|]. simpl. rewrite Htop.
      by apply cnt_inc_ok.
  - intros k' r. simpl. rewrite jget_jset. case_decide; intros Hk'; simplify_eq.
    + simpl. destruct (t_minDeath st) as [d|]; [|simpl; lia]. case_match; zb; simpl; lia.
    + apply Hmin in Hk'. destruct (t_minDeath st) as [d|]; [|done]. simpl in *.
      case_match; zb; simpl; lia.
  - assert (∀ m (s s' : string) b, cnt m s + 1 ≤ b → (∀ x, cnt m x ≤ b) → cnt (cnt_inc m s) s' ≤ b) as Hinc.
    { intros m0 s s' b0 Hle Hall. unfold cnt_inc, cnt at 1. rewrite jget_jset.
      case_decide; [lia|]. apply Hall. }
    split_and!; simpl.
    + rewrite jsize_jset. unfold jhas. rewrite Hg. lia.
    + lia.
    + intros s. apply Hinc; [lia|done].
    + intros s. apply Hinc; [lia|done].
    + intros k' r. rewrite jget_jset. case_decide; intros; simplify_eq; [simpl|by eauto].
      unfold rec_max. simpl. lia.
Qed.

Lemma new_tombstore_wf caps :
  0 ≤ tc_maxCount caps → 0 ≤ tc_maxBytes caps → 0 ≤ tc_perSignerMax caps → 0 ≤ tc_perTopicMax caps →
  tomb_wf (new_tombstore caps).
Proof.
  intros. split; [|done|].
  - split_and!; [apply jwf_nil|done|apply counts_ok_nil|apply counts_ok_nil].
  - split_and!; simpl; try done; by intros.
Qed.

(** * Candidate store: accounting *)

Definition lsum (g : candidate → Z) (l : list candidate) : Z := foldr (λ c a, g c + a) 0 l.
Definition csum (g : string → candidate → Z) (m : jmap string (list candidate)) : Z :=
  jsum (λ k l, lsum (g k) l) m.

(** The counters hold the weights [Φ] gives: [Φ] is [λ g, csum g m] for the
    map [m] held, and less what a running loop has taken off already. *)
Definition cand_counted (st : candstore) (Φ : (string → candidate → Z) → Z) : Prop :=
  c_total st = Φ (λ _ _, 1) ∧ c_bytesTotal st = Φ (λ _ c, c_bytes c) ∧
  counts_ok (c_perSigner st) (λ s, Φ (λ _ c, isz (c_signer c) s)) ∧
  counts_ok (c_perTopic st) (λ t, Φ (λ k _, isz (topicOf k) t)).

Lemma cand_counted_ext st Φ Ψ : (∀ g, Φ g = Ψ g) → cand_counted st Φ → cand_counted st Ψ.
Proof.
  intros HΦ (? & ? & ? & ?). split_and!; try (by rewrite <-HΦ);
    (eapply counts_ok_ext; [|done]; simpl; intros; by rewrite <-HΦ).
Qed.

Lemma lsum_cons g c l : lsum g (c :: l) = g c + lsum g l.
Proof. done. Qed.
Lemma lsum_nonneg g l : (∀ c, 0 ≤ g c) → 0 ≤ lsum g l.
Proof. intros Hg. induction l as [|c l IH]; simpl; [lia|]. specialize (Hg c). lia. Qed.
Lemma lsum_app g l1 l2 : lsum g (l1 ++ l2) = lsum g l1 + lsum g l2.
Proof. induction l1; simpl; lia. Qed.
Lemma lsum_filter g (P : candidate → Prop) `{∀ c, Decision (P c)} l :
  lsum g l = lsum g (filter P l) + lsum g (filter (λ c, ¬ P c) l).
Proof.
  induction l as [|c l IH]; [done|]. rewrite !filter_cons. simpl.
  destruct (decide (P c)).
  - rewrite (decide_False (P := ¬ P c)) by tauto. simpl. lia.
  - rewrite (decide_True (P := ¬ P c)) by tauto. simpl. lia.
Qed.

Definition covers (Φ : (string → candidate → Z) → Z) (k : string) (l : list candidate) : Prop :=
  ∀ g, (∀ k c, 0 ≤ g k c) → lsum (g k) l ≤ Φ g.

Lemma uncount_counted k c st Φ :
  covers Φ k [c] → cand_counted st Φ → cand_counted (cand_uncount k c st) (λ g, Φ g - g k c).
Proof.
  intros Hcov (Ht & Hb & Hs & Hp). split_and!; simpl.
  - lia.
  - lia.
  - apply cnt_dec_ok; [|done]. specialize (Hcov (λ _ c', isz (c_signer c') (c_signer c)) (λ _ _, ind_nonneg _)).
    simpl in Hcov. rewrite bool_decide_true in Hcov by done. simpl in Hcov. lia.
  - apply cnt_dec_ok; [|done]. specialize (Hcov (λ k' _, isz (topicOf k') (topicOf k)) (λ _ _, ind_nonneg _)).
    simpl in Hcov. rewrite bool_decide_true in Hcov by done. simpl in Hcov. lia.
Qed.

Lemma covers_cons Φ k c l : covers Φ k (c :: l) → covers Φ k [c] ∧ covers (λ g, Φ g - g k c) k l.
Proof.
  intros Hcov. split; intros g Hg; specialize (Hcov g Hg); simpl in *.
  - pose proof (lsum_nonneg (g k) l (Hg k)). lia.
  - lia.
Qed.

(** Taking every element of [l] off, in either direction of the loop. *)
Lemma uncount_foldl k l st Φ :
  covers Φ k l → cand_counted st Φ →
  cand_counted (foldl (λ st c, cand_uncount k c st) st l) (λ g, Φ g - lsum (g k) l).
Proof.
  revert st Φ. induction l as [|c l IH]; intros st Φ Hcov Hc; simpl.
  - eapply cand_counted_ext; [|done]. intros; simpl; lia.
  - apply covers_cons in Hcov as [H1 H2].
    eapply cand_counted_ext; [|apply (IH _ _ H2), uncount_counted; done]. intros; simpl; lia.
Qed.

Lemma uncount_foldr (P : candidate → bool) k l st Φ :
  covers Φ k (filter (λ c, P c = true) l) → cand_counted st Φ →
  cand_counted (foldr (λ c st, if P c then cand_uncount k c st else st) st l)
    (λ g, Φ g - lsum (g k) (filter (λ c, P c = true) l)).
Proof.
  revert st Φ. induction l as [|c l IH]; intros st Φ Hcov Hc; simpl.
  - eapply cand_counted_ext; [|done]. intros; simpl; lia.
  - rewrite filter_cons in Hcov |- *. destruct (P c) eqn:E; simpl in *.
    + pose proof (covers_cons _ _ _ _ Hcov) as [H1 H2].
      assert (covers Φ k (filter (λ c, P c = true) l)) as H3.
      { intros g Hg. specialize (Hcov g Hg). specialize (Hg k c). simpl in Hcov. lia. }
      eapply cand_counted_ext; [|apply uncount_counted; [|by apply IH]]; [intros; simpl; lia|].
      intros g Hg. specialize (Hcov g Hg). simpl in *. lia.
    + by apply IH.
Qed.

Lemma uncount_foldl_map k l st : c_map (foldl (λ st c, cand_uncount k c st) st l) = c_map st.
Proof. revert st. induction l; simpl; intros; [done|]. by rewrite IHl. Qed.
Lemma uncount_foldl_caps k l st : c_caps (foldl (λ st c, cand_uncount k c st) st l) = c_caps st.
Proof. revert st. induction l; simpl; intros; [done|]. by rewrite IHl. Qed.
Lemma uncount_foldr_map (P : candidate → bool) k l st :
  c_map (foldr (λ c st, if P c then cand_uncount k c st else st) st l) = c_map st.
Proof. induction l as [|c l IH]; simpl; [done|]. by destruct (P c). Qed.
Lemma uncount_foldr_caps (P : candidate → bool) k l st :
  c_caps (foldr (λ c st, if P c then cand_uncount k c st else st) st l) = c_caps st.
Proof. induction l as [|c l IH]; simpl; [done|]. by destruct (P c). Qed.

Definition cand_bounded (st : candstore) : Prop :=
  c_total st ≤ cc_max (c_caps st) ∧ c_bytesTotal st ≤ cc_maxBytes (c_caps st) ∧
  (∀ s, cnt (c_perSigner st) s ≤ cc_perSignerMax (c_caps st)) ∧
  (∀ t, cnt (c_perTopic st) t ≤ cc_perTopicMax (c_caps st)).

(** Every list held is non-empty, has one candidate per signer, and its records
    are within the record cap. *)
Definition cand_lists (st : candstore) : Prop :=
  ∀ k l, jget (c_map st) k = Some l →
    l ≠ [] ∧ NoDup (c_signer <$> l) ∧ key_ok k ∧ Forall (λ c, 0 ≤ c_bytes c ≤ recordMaxOr st) l.

Record cand_wf (st : candstore) : Prop := {
  cw_jwf : jwf (c_map st);
  cw_counted : cand_counted st (λ g, csum g (c_map st));
  cw_lists : cand_lists st;
  cw_bounded : cand_bounded st
}.

Lemma csum_bytes_max m :
  jwf m → (∀ k l, jget m k = Some l → Forall (λ c, 0 ≤ c_bytes c) l) →
  csum (λ _ c, c_bytes c) m = csum (λ _ c, Z.max 0 (c_bytes c)) m.
Proof.
  intros Hw Hm. apply jsum_ext. intros k l Hin%elem_jget; [|done]. apply Hm in Hin.
  induction Hin as [|c l Hc _ IH]; simpl; [done|]. rewrite IH. lia.
Qed.

(** Whatever only takes candidates away keeps the store well formed. *)
Lemma cand_removed_wf st st' :
  cand_wf st → c_caps st' = c_caps st → jwf (c_map st') →
  cand_counted st' (λ g, csum g (c_map st')) →
  (∀ g, (∀ k c, 0 ≤ g k c) → csum g (c_map st') ≤ csum g (c_map st)) →
  (∀ k l', jget (c_map st') k = Some l' → l' ≠ [] ∧
     ∃ l, jget (c_map st) k = Some l ∧ l' `sublist_of` l) →
  cand_wf st'.
Proof.
  intros [Hw Hc Hl Hb] Hcaps Hw' Hc' Hle Hsub.
  assert (cand_lists st') as Hl'.
  { intros k l' Hk. destruct (Hsub k l' Hk) as (Hne & l & Hkl & Hs).
    destruct (Hl k l Hkl) as (_ & Hnd & Hok & Hf). split_and!; try done.
    - eapply sublist_NoDup; [exact Hnd|]. by apply fmap_sublist.
    - unfold recordMaxOr. rewrite Hcaps. rewrite Forall_forall in Hf |- *. intros c Hc0. eapply Hf, elem_of_sublist; done. }
  split; try done. destruct Hb as (B1 & B2 & B3 & B4).
  pose proof Hc as (C1 & C2 & C3 & C4). pose proof Hc' as (D1 & D2 & D3 & D4).
  unfold cand_bounded. rewrite Hcaps. split_and!.
  - specialize (Hle (λ _ _, 1) ltac:(lia)). lia.
  - specialize (Hle (λ _ c, Z.max 0 (c_bytes c)) ltac:(lia)).
    rewrite <-!csum_bytes_max in Hle; [lia|done| |done|].
    + intros k l Hk. destruct (Hl k l Hk) as (_ & _ & _ & Hf).
      eapply Forall_impl; [exact Hf|simpl; lia].
    + intros k l Hk. destruct (Hl' k l Hk) as (_ & _ & _ & Hf).
      eapply Forall_impl; [exact Hf|simpl; lia].
  - intros s. specialize (B3 s). rewrite (cnt_counts _ _ _ C3) in B3.
    rewrite (cnt_counts _ _ _ D3). etrans; [apply Hle; intros; apply ind_nonneg|done].
  - intros s. specialize (B4 s). rewrite (cnt_counts _ _ _ C4) in B4.
    rewrite (cnt_counts _ _ _ D4). etrans; [apply Hle; intros; apply ind_nonneg|done].
Qed.

Lemma csum_covers m k l l' :
  jget m k = Some l → l' `sublist_of` l → covers (λ g, csum g m) k l'.
Proof.
  intros Hk Hs g Hg. etrans.
  - assert (lsum (g k) l' ≤ lsum (g k) l) as H; [|exact H].
    clear Hk. induction Hs as [|c l1 l2 _ IH|c l1 l2 _ IH]; rewrite ?lsum_cons; [done| |];
      specialize (Hg k c); lia.
  - apply (jsum_elem_le (λ k l, lsum (g k) l)); [|done]. intros. by apply lsum_nonneg.
Qed.

(** The map after key [k]'s list became [l']. *)
Definition put_list (m : jmap string (list candidate)) (k : string) (l' : list candidate) :=
  match l' with [] => jdel m k | _ => jset m k l' end.

Lemma csum_put_list g m k l l' :
  jwf m → jget m k = Some l → csum g (put_list m k l') = csum g m - lsum (g k) l + lsum (g k) l'.
Proof.
  intros Hw Hk. unfold csum, put_list. destruct l' as [|c l'].
  - rewrite jsum_jdel, Hk by done. simpl. lia.
  - rewrite jsum_jset, Hk. lia.
Qed.

Lemma put_list_get m k l' k' :
  jget (put_list m k l') k' =
    if decide (k = k') then match l' with [] => None | _ => Some l' end else jget m k'.
Proof. destruct l'; simpl; [apply jget_jdel|apply jget_jset]. Qed.

Lemma put_list_jwf m k l' : jwf m → jwf (put_list m k l').
Proof. destruct l'; simpl; auto with axona. Qed.

(** Replacing the list of [k] by a sublist, having counted the rest off. *)
Lemma cand_sublist_wf st st1 k l l' gone :
  cand_wf st → jget (c_map st) k = Some l → l' `sublist_of` l →
  c_caps st1 = c_caps st →
  cand_counted st1 (λ g, csum g (c_map st) - lsum (g k) gone) →
  (∀ g, lsum g l = lsum g l' + lsum g gone) →
  cand_wf (cand_with_map st1 (put_list (c_map st) k l')).
Proof.
  intros Hwf Hk Hs Hcaps Hcnt Hsplit. pose proof (cw_jwf _ Hwf) as Hw.
  assert (∀ g, csum g (c_map st) - lsum (g k) gone = csum g (put_list (c_map st) k l')) as Hput.
  { intros g. rewrite (csum_put_list g _ k l l') by done. specialize (Hsplit (g k)). lia. }
  apply (cand_removed_wf st); try done; simpl.
  - by apply put_list_jwf.
  - eapply cand_counted_ext in Hcnt; [|exact Hput]. destruct Hcnt as (? & ? & ? & ?). by split_and!.
  - intros g Hg. rewrite <-Hput. pose proof (lsum_nonneg (g k) gone (Hg k)). lia.
  - intros k' l1. rewrite put_list_get. case_decide; subst.
    + destruct l'; intros; simplify_eq. eauto.
    + intros Hk'. destruct (cw_lists _ Hwf k' l1 Hk'). eauto.
Qed.

Definition live_cands (now : Z) (l : list candidate) : list candidate :=
  filter (λ c, claim_expired now c = false) l.

Lemma cand_reclaim_key_eq now st k l :
  cand_reclaim_key now st (k, l) =
    cand_with_map (foldr (λ c st, if claim_expired now c then cand_uncount k c st else st) st l)
      (put_list (c_map st) k (live_cands now l)).
Proof.
  unfold cand_reclaim_key, put_list, live_cands. rewrite uncount_foldr_map. done.
Qed.

Lemma cand_reclaim_key_wf now st k l :
  cand_wf st → jget (c_map st) k = Some l → cand_wf (cand_reclaim_key now st (k, l)).
Proof.
  intros Hwf Hk. rewrite cand_reclaim_key_eq.
  apply (cand_sublist_wf st _ k l _ (filter (λ c, claim_expired now c = true) l)); try done.
  - apply sublist_filter.
  - apply uncount_foldr_caps.
  - apply uncount_foldr; [|apply Hwf]. eapply csum_covers; [done|apply sublist_filter].
  - intros g. unfold live_cands.
    rewrite (lsum_filter g (λ c, claim_expired now c = false) l). f_equal.
    f_equal. apply list_filter_iff. intros c. by destruct (claim_expired now c).
Qed.

Lemma cand_scan now L st :
  cand_wf st → NoDup L.*1 → (∀ k l, (k, l) ∈ L → jget (c_map st) k = Some l) →
  cand_wf (foldl (cand_reclaim_key now) st L) ∧
  c_caps (foldl (cand_reclaim_key now) st L) = c_caps st ∧
  ∀ k, jget (c_map (foldl (cand_reclaim_key now) st L)) k =
    if decide (k ∈ L.*1)
    then l ← jget (c_map st) k; match live_cands now l with [] => None | l' => Some l' end
    else jget (c_map st) k.
Proof.
  revert st. induction L as [|[k l] L IH]; intros st Hwf Hnd Hin; cbn [foldl].
  { split_and!; [done|done|]. intros k. rewrite decide_False; [done|]. apply not_elem_of_nil. }
  cbn [fmap list_fmap fst] in Hnd |- *. apply NoDup_cons in Hnd as [Hni Hnd].
  pose proof (Hin k l ltac:(left)) as Hk.
  pose proof (cand_reclaim_key_eq now st k l) as Heq.
  destruct (IH (cand_reclaim_key now st (k, l))) as (H1 & H2 & H3); [by apply cand_reclaim_key_wf|done| |].
  { intros k' l' Hin'. rewrite Heq. simpl. rewrite put_list_get, decide_False.
    - apply Hin. by right.
    - intros ->. apply Hni, list_elem_of_fmap. by exists (k', l'). }
  split_and!; [done| |].
  - rewrite H2, Heq. simpl. apply uncount_foldr_caps.
  - intros k'. rewrite H3, Heq. cbn [c_map cand_with_map]. rewrite put_list_get.
    destruct (decide (k = k')) as [<-|Hne].
    + rewrite decide_False by done. rewrite decide_True by left. rewrite Hk. simpl.
      by destruct (live_cands now l).
    + by rewrite decide_cons_ne.
Qed.

(** [reclaimExpired] of the candidates, key by key. *)
Lemma cand_reclaim_spec now st :
  cand_wf st →
  cand_wf (cand_reclaimExpired now st) ∧ c_caps (cand_reclaimExpired now st) = c_caps st ∧
  ∀ k, jget (c_map (cand_reclaimExpired now st)) k =
    l ← jget (c_map st) k; match live_cands now l with [] => None | l' => Some l' end.
Proof.
  intros Hwf. destruct (cand_scan now (c_map st) st Hwf) as (H1 & H2 & H3);
    [apply Hwf|intros; apply elem_jget; [apply Hwf|done]|].
  split_and!; [done..|]. intros k. unfold cand_reclaimExpired. rewrite H3.
  case_decide as Hd; [done|]. apply jget_None in Hd. by rewrite Hd.
Qed.

Lemma cand_get_lists st k l :
  cand_wf st → jget (c_map st) k = Some l → Forall (λ c, 0 ≤ c_bytes c ≤ recordMaxOr st) l.
Proof. intros Hwf Hk. by destruct (cw_lists _ Hwf k l Hk) as (_ & _ & _ & Hf). Qed.

Lemma cand_admit_wf st k signer kb now tag at_ :
  key_ok k → cand_wf st → cand_wf (cand_admit st k signer kb now tag at_).1.
Proof.
  intros Hko Hwf. unfold cand_admit.
  destruct (cand_reclaim_spec now st Hwf) as (Hwf' & _ & _).
  revert Hwf'. generalize (cand_reclaimExpired now st). clear st Hwf. intros st Hwf.
  repeat (case_match; [done|]). zb. simpl.
  set (b := recBytesOf k (cand_rec signer kb)) in *.
  assert (0 ≤ b) as Hb0 by (unfold b, recBytesOf, canonicalBytes; lia).
  set (c := mk_cand signer kb tag at_ (claimRetention now) b).
  assert (∀ g, csum g (jset (c_map st) k (cand_get st k ++ [c])) = csum g (c_map st) + g k c) as Hsum.
  { intros g. unfold csum. rewrite jsum_jset, lsum_app. unfold cand_get.
    destruct (jget (c_map st) k); rewrite !lsum_cons; simpl; lia. }
  destruct Hwf as [Hw (C1 & C2 & C3 & C4) Hl (B1 & B2 & B3 & B4)].
  assert (∀ m (s s' : string) b, cnt m s + 1 ≤ b → (∀ x, cnt m x ≤ b) → cnt (cnt_inc m s) s' ≤ b) as Hinc.
  { intros m0 s s' b0 Hle Hall. unfold cnt_inc, cnt at 1. rewrite jget_jset.
    case_decide; [lia|]. apply Hall. }
  split; simpl.
  - auto with axona.
  - split_and!; simpl; rewrite ?Hsum; [lia|simpl; lia| |].
    + eapply counts_ok_ext; [intros s; symmetry; apply Hsum|]. by apply cnt_inc_ok.
    + eapply counts_ok_ext; [intros s; symmetry; apply Hsum|]. by apply cnt_inc_ok.
  - intros k' l. simpl. rewrite jget_jset. case_decide; subst.
    + intros [= <-]. split_and!; [by destruct (cand_get st k')| |done|].
      * rewrite fmap_app. apply NoDup_app. split_and!.
        -- unfold cand_get. destruct (jget _ _) eqn:E; simpl; [|constructor].
           by destruct (Hl _ _ E) as (_ & ? & _).
        -- intros s (c' & -> & Hin)%list_elem_of_fmap Hs%list_elem_of_singleton.
           match goal with H : existsb _ _ = false |- _ => rename H into He end.
           assert (existsb (λ c0, bool_decide (c_signer c0 = signer)) (cand_get st k') = true); [|congruence].
           apply existsb_exists. exists c'. split; [by apply list_elem_of_In|]. by apply bool_decide_eq_true.
        -- apply NoDup_singleton.
      * apply Forall_app. split; [|constructor; [simpl; unfold recordMaxOr in *; simpl; lia|done]].
        unfold cand_get. destruct (jget _ _) eqn:E; simpl; [|done].
        by destruct (Hl _ _ E) as (_ & _ & _ & ?).
    + intros Hk'. by apply Hl.
  - split_and!; simpl; [lia|lia| |]; intros; apply Hinc; (lia || done).
Qed.

Lemma cand_admit_caps st k signer kb now tag at_ :
  cand_wf st → c_caps (cand_admit st k signer kb now tag at_).1 = c_caps st.
Proof.
  intros Hwf. destruct (cand_reclaim_spec now st Hwf) as (_ & <- & _). unfold cand_admit.
  by repeat case_match.
Qed.

(** Retagging touches neither signers nor bytes. *)
Definition same_shape (l l' : list candidate) : Prop :=
  Forall2 (λ c c', c_signer c = c_signer c' ∧ c_bytes c = c_bytes c') l l'.

Lemma lsum_same g l l' :
  same_shape l l' → (∀ c c', c_signer c = c_signer c' → c_bytes c = c_bytes c' → g c = g c') →
  lsum g l = lsum g l'.
Proof.
  intros Hs Hg. induction Hs as [|c c' l l' [? ?] _ IH]; [done|].
  rewrite !lsum_cons, IH, (Hg c c'); done.
Qed.

Lemma cand_retag_wf st f k :
  (∀ l, same_shape l (f l)) → cand_wf st → cand_wf (cand_with_map st (jalter f (c_map st) k)).
Proof.
  intros Hf [Hw (C1 & C2 & C3 & C4) Hl Hb].
  assert (∀ g, (∀ k c c', c_signer c = c_signer c' → c_bytes c = c_bytes c' → g k c = g k c') →
    csum g (jalter f (c_map st) k) = csum g (c_map st)) as Hsum.
  { intros g Hg. unfold csum. rewrite jsum_jalter by done. destruct (jget _ _) as [l|]; [|lia].
    rewrite (lsum_same (g k) l (f l)); [lia|done|by apply Hg]. }
  split; simpl; [auto with axona| | |done].
  - split_and!; simpl; rewrite ?Hsum; try done; [by intros..| |].
    + eapply counts_ok_ext; [|exact C3]. intros s. symmetry. apply Hsum. by intros ? ? ? ->.
    + eapply counts_ok_ext; [|exact C4]. intros s. symmetry. by apply Hsum.
  - intros k' l'. simpl. rewrite jget_jalter. case_decide; [|apply Hl]. subst.
    destruct (jget (c_map st) k') as [l|] eqn:E; simpl; [|done]. intros [= <-].
    destruct (Hl _ _ E) as (Hne & Hnd & Hok & Hfa). pose proof (Hf l) as Hs. split_and!; [| |done|].
    + intros Hnil. rewrite Hnil in Hs. by inversion Hs; subst.
    + replace (c_signer <$> f l) with (c_signer <$> l); [done|].
      revert Hs. generalize (f l). clear. intros l' Hs.
      induction Hs as [|c c' l l' [Hc _] _ IH]; [done|]. csimpl. by rewrite Hc, IH.
    + revert Hs Hfa. unfold recordMaxOr. simpl. generalize (f l). clear. intros l' Hs Hfa.
      induction Hs as [|c c' l l' [_ Hc] _ IH]; inversion Hfa; subst; constructor; [|auto].
      by rewrite <-Hc.
Qed.

Lemma same_shape_refl l : same_shape l l.
Proof. by apply Forall_Forall2_diag, Forall_true. Qed.

Lemma cand_demoteKey_wf st k : cand_wf st → cand_wf (cand_demoteKey st k).
Proof.
  apply cand_retag_wf. intros l. induction l; simpl; constructor; done.
Qed.

Lemma cand_setTag_wf st k s tag at_ : cand_wf st → cand_wf (cand_setTag st k s tag at_).
Proof.
  apply cand_retag_wf. intros l. induction l as [|c l IH]; simpl; [constructor|].
  case_match; constructor; try done. apply same_shape_refl.
Qed.

Lemma remove_first_spec signer l c :
  List.find (λ c, bool_decide (c_signer c = signer)) l = Some c →
  remove_first signer l `sublist_of` l ∧ c_signer c = signer ∧ c ∈ l ∧
  ∀ g, lsum g l = lsum g (remove_first signer l) + lsum g [c].
Proof.
  induction l as [|c' l IH]; [done|]. cbn [List.find remove_first].
  destruct (bool_decide (c_signer c' = signer)) eqn:E.
  - intros [= ->]. apply bool_decide_eq_true in E. split_and!; [by constructor|done|by left|].
    intros g. rewrite !lsum_cons. simpl. lia.
  - intros Hf. destruct (IH Hf) as (? & ? & ? & Hs).
    split_and!; [by constructor|done|by right|]. intros g. rewrite !lsum_cons, Hs, lsum_cons. lia.
Qed.

Lemma cand_remove_wf st k signer : cand_wf st → cand_wf (cand_remove st k signer).1.
Proof.
  intros Hwf. unfold cand_remove. destruct (jget (c_map st) k) as [l|] eqn:Hk; [|done].
  destruct (List.find _ l) as [c|] eqn:Hf; [|done].
  destruct (remove_first_spec _ _ _ Hf) as (Hs & _ & Hin & Hsum).
  change (cand_wf (cand_with_map (cand_uncount k c st) (put_list (c_map st) k (remove_first signer l)))).
  apply (cand_sublist_wf st _ k l _ [c]); try done.
  change (cand_uncount k c st) with (foldl (λ st c, cand_uncount k c st) st [c]).
  apply uncount_foldl; [|apply Hwf]. eapply csum_covers; [done|]. by apply singleton_sublist_l.
Qed.

Lemma cand_purge_wf st k : cand_wf st → cand_wf (cand_purge st k).1.
Proof.
  intros Hwf. unfold cand_purge. destruct (jget (c_map st) k) as [l|] eqn:Hk; [|done].
  simpl. rewrite uncount_foldl_map.
  apply (cand_sublist_wf st _ k l [] l); try done.
  - apply sublist_nil_l.
  - apply uncount_foldl_caps.
  - apply uncount_foldl; [|apply Hwf]. by eapply csum_covers.
Qed.

Lemma cand_purge_caps st k : c_caps (cand_purge st k).1 = c_caps st.
Proof. unfold cand_purge. destruct (jget _ _); [|done]. simpl. apply uncount_foldl_caps. Qed.
Lemma cand_remove_caps st k s : c_caps (cand_remove st k s).1 = c_caps st.
Proof. unfold cand_remove. by repeat case_match. Qed.

Lemma cand_purge_get st k k' :
  jget (c_map (cand_purge st k).1) k' = if decide (k = k') then None else jget (c_map st) k'.
Proof.
  unfold cand_purge. destruct (jget (c_map st) k) as [l|] eqn:Hk; simpl.
  - rewrite uncount_foldl_map. apply jget_jdel.
  - case_decide; by subst.
Qed.

Lemma new_candstore_wf caps :
  0 ≤ cc_max caps → 0 ≤ cc_maxBytes caps → 0 ≤ cc_perSignerMax caps → 0 ≤ cc_perTopicMax caps →
  cand_wf (new_candstore caps).
Proof.
  intros. split; [apply jwf_nil| |by intros ? ?|].
  - split_and!; try done; apply counts_ok_nil.
  - split_and!; simpl; try done; by intros.
Qed.

#[local] Hint Resolve cand_demoteKey_wf cand_setTag_wf cand_remove_wf cand_purge_wf cand_admit_wf : axona.

(** * The authority: events and the invariant *)

Inductive event :=
| EvKill (topicId msgId signer killBytes : string) (now : Z)
| EvBody (topicId msgId : string) (pub : option string) (death now : Z)
| EvEvict (topicId msgId : string)
| EvRetry (now : Z).

Definition apply_ev (a : authority) (e : event) : authority :=
  match e with
  | EvKill t m s kb now => (onKill a t m s kb now).1
  | EvBody t m p d now => (onBody a t m p d now).1
  | EvEvict t m => (evictBody a t m).1
  | EvRetry now => reclaimAndRetry a now
  end.

(** Topic and message ids carry no bar (they are hexadecimal). *)
Definition ev_ok (e : event) : Prop :=
  match e with
  | EvKill t m _ _ _ | EvBody t m _ _ _ | EvEvict t m => bar_free t = true ∧ bar_free m = true
  | EvRetry _ => True
  end.

(** The clock reading of an event; an eviction takes none. *)
Definition ev_now (e : event) : option Z :=
  match e with
  | EvKill _ _ _ _ now | EvBody _ _ _ _ now | EvRetry now => Some now
  | EvEvict _ _ => None
  end.

Record auth_wf (p : caps_profile) (a : authority) : Prop := {
  aw_tomb : tomb_wf (tomb a);
  aw_tcaps : t_caps (tomb a) = tombCapsFor p;
  aw_cand : cand_wf (cand a);
  aw_ccaps : c_caps (cand a) = candCapsFor p
}.

Definition reclaimed (now : Z) (a : authority) : authority :=
  with_tomb a (tomb_reclaimExpired now (tomb a)).

Lemma reclaimed_wf p now a : auth_wf p a → auth_wf p (reclaimed now a).
Proof.
  intros [? ? ? ?]. split; simpl; [auto with axona| |done|done].
  by rewrite tomb_reclaim_caps.
Qed.

(** Everything [suppress] does, by verdict. *)
Lemma suppress_cases a t m s kb d now a' v :
  suppress a t m s kb d now = (a', v) →
  let k := authKey t m in
  (a' = reclaimed now a ∧
    match jget (t_map (tomb (reclaimed now a))) k with
    | Some r => v = if decide (signerPubkey r = s) then V_CONFIRMED else V_REFUSED_MISMATCH_TOMB
    | None => (d < now ∧ v = V_REFUSED_EXPIRED) ∨
              (now ≤ d ∧ ∃ w, w ≠ OK ∧ wouldAdmit (tomb (reclaimed now a)) t k s d kb = w ∧ v = V_REFUSED w)
    end) ∨
  (v = V_SUPPRESSED ∧ now ≤ d ∧ jget (t_map (tomb (reclaimed now a))) k = None ∧
   wouldAdmit (tomb (reclaimed now a)) t k s d kb = OK ∧
   tomb a' = tomb_insert (tomb (reclaimed now a)) t k s d kb ∧
   bodies a' = (bc_evict (bodies a) k).1 ∧ cand a' = (cand_purge (cand a) k).1 ∧
   a_profile a' = a_profile a ∧
   fx a' = mk_fx (cacheRemovals (fx a) + if jhas (b_map (bodies a)) k then 1 else 0)
             (fanouts (fx a) + 1)
             (candidatePurges (fx a) + if 0 <? (cand_purge (cand a) k).2 then 1 else 0)
             (liveEvictions (fx a)) (suppressions (fx a) + 1) (demotions (fx a))).
Proof.
  intros Hs k. unfold suppress in Hs. fold k in Hs.
  change (with_tomb a (tomb_reclaimExpired now (tomb a))) with (reclaimed now a) in Hs.
  unfold tomb_get in Hs.
  destruct (jget (t_map (tomb (reclaimed now a))) k) as [r|]; [left; by simplify_eq|].
  destruct (d <? now) eqn:Ed; zb; [left; simplify_eq; by auto|].
  destruct (wouldAdmit _ _ _ _ _ _) eqn:Ew; simplify_eq; try (left; split; [done|right; split; [lia|];
    refine (ex_intro _ _ (conj _ (conj eq_refl eq_refl))); done]).
  right. destruct (cand_purge (cand (reclaimed now a)) k) as [c n] eqn:Ep.
  cbn [reclaimed with_tomb a_profile tomb cand bodies fx] in *. rewrite Ep.
  injection Hs as <- <-. by split_and!.
Qed.

Lemma suppress_wf p a t m s kb d now :
  bar_free t = true → auth_wf p a → auth_wf p (suppress a t m s kb d now).1.
Proof.
  intros Ht Hwf%(reclaimed_wf p now). destruct (suppress a t m s kb d now) as [a' v] eqn:E.
  apply suppress_cases in E as [[-> _]|(_ & _ & Hg & Hw & Htm & _ & Hc & _)]; [done|].
  destruct Hwf as [W1 W2 W3 W4]. split; simpl; rewrite ?Htm, ?Hc.
  - by apply tomb_insert_wf.
  - done.
  - by apply cand_purge_wf.
  - rewrite cand_purge_caps. done.
Qed.

Lemma with_cand_wf p a c :
  auth_wf p a → cand_wf c → c_caps c = candCapsFor p → auth_wf p (with_cand a c).
Proof. by intros [? ? ? ?]; split. Qed.

Lemma putBody_wf p a k b : auth_wf p a → auth_wf p (putBody a k b).
Proof.
  intros [W1 W2 W3 W4]. unfold putBody. destruct (bc_put _ _ _) as [B [old|]]; [|done].
  split; simpl; auto with axona.
Qed.

Lemma admit_wf p a k s kb now tag at_ :
  key_ok k → auth_wf p a → auth_wf p (with_cand a (cand_admit (cand a) k s kb now tag at_).1).
Proof.
  intros Hk Hwf. apply with_cand_wf; [done|apply cand_admit_wf; [done|apply Hwf]|].
  rewrite cand_admit_caps; apply Hwf.
Qed.

Lemma onKill_wf p a t m s kb now :
  bar_free t = true → bar_free m = true → auth_wf p a → auth_wf p (onKill a t m s kb now).1.
Proof.
  intros Ht Hm Hwf%(reclaimed_wf p now). unfold onKill. fold (reclaimed now a).
  destruct (tomb_get _ _); [done|].
  assert (∀ a k s kb now tag at_, key_ok k → auth_wf p a →
    auth_wf p (with_cand a (cand_admit (cand a) k s kb now tag at_).1)) as Had by eauto using admit_wf.
  destruct (bc_get _ _) as [b|].
  - case_decide; [|done].
    destruct (suppress _ _ _ _ _ _ _) as [a' v] eqn:E.
    pose proof (suppress_wf p (reclaimed now a) t m s kb (b_effectiveDeath b) now Ht Hwf) as Hw.
    rewrite E in Hw. simpl in Hw.
    specialize (Had a' (authKey t m) s kb now pending_tag (Some (b_arrivedAt b)) (authKey_ok _ _ Ht Hm) Hw).
    destruct (cand_admit _ _ _ _ _ _ _) as [c d]. by destruct v.
  - specialize (Had (reclaimed now a) (authKey t m) s kb now plain None (authKey_ok _ _ Ht Hm) Hwf).
    by destruct (cand_admit _ _ _ _ _ _ _) as [c d].
Qed.

Lemma onBody_wf p a t m pub d now :
  bar_free t = true → auth_wf p a → auth_wf p (onBody a t m pub d now).1.
Proof.
  intros Ht Hwf%(reclaimed_wf p now). unfold onBody. fold (reclaimed now a).
  destruct (isSuppressed _ _ _ _); [done|]. destruct (d <? now); [done|].
  apply (putBody_wf p _ (authKey t m) (mk_body pub d now)) in Hwf.
  revert Hwf. generalize (putBody (reclaimed now a) (authKey t m) (mk_body pub d now)).
  clear a. intros a Hwf.
  assert (auth_wf p (match cand_get (cand a) (authKey t m) with
        | [] => (a, V_DELIVERED)
        | _ => let '(c, n) := cand_purge (cand a) (authKey t m) in
            (mk_authority (a_profile a) (tomb a) c (bodies a)
               (mk_fx (cacheRemovals (fx a)) (fanouts (fx a)) (candidatePurges (fx a) + if 0 <? n then 1 else 0)
                  (liveEvictions (fx a)) (suppressions (fx a)) (demotions (fx a))), V_DELIVERED) end).1) as Hdel.
  { destruct (cand_get _ _); [done|]. destruct Hwf as [W1 W2 W3 W4].
    pose proof (cand_purge_wf (cand a) (authKey t m) W3) as P1.
    pose proof (cand_purge_caps (cand a) (authKey t m)) as P2.
    destruct (cand_purge _ _) as [c' n]. simpl in *. split; simpl; congruence. }
  destruct (cand_find _ _ _) as [c|]; [destruct pub as [s|]|]; [|exact Hdel..].
  pose proof (suppress_wf p a t m s (c_killBytes c) d now Ht Hwf) as Hw.
  destruct (suppress _ _ _ _ _ _ _) as [a' v]. simpl in Hw.
  destruct v; try done; apply with_cand_wf; try done; try apply cand_setTag_wf; apply Hw.
Qed.

Lemma evictBody_wf p a t m : auth_wf p a → auth_wf p (evictBody a t m).1.
Proof. intros [? ? ? ?]. split; simpl; auto with axona. Qed.

Lemma cand_get_key_ok st k c : cand_wf st → c ∈ cand_get st k → key_ok k.
Proof.
  intros Hwf Hc. unfold cand_get in Hc. destruct (jget _ _) as [l|] eqn:E; [|by apply elem_of_nil in Hc].
  by destruct (cw_lists _ Hwf k l E) as (_ & _ & ? & _).
Qed.

Lemma pending_elem st k c :
  cand_wf st → (k, c) ∈ pendingOldestFirst st → c ∈ cand_get st k ∧ c_tag c = pending_tag.
Proof.
  intros Hwf Hin. unfold pendingOldestFirst in Hin. apply elem_of_sort_by in Hin.
  apply list_elem_of_bind in Hin as ([k' l] & Hc & Hl).
  apply list_elem_of_fmap in Hc as (c' & [= -> ->] & Hc). apply list_elem_of_filter in Hc as [Ht Hc].
  split; [|done]. unfold cand_get. simpl in *. by rewrite (elem_jget _ _ _ (cw_jwf _ Hwf) Hl).
Qed.

Lemma retry_one_wf p now a k c :
  key_ok k → auth_wf p a → auth_wf p (retry_one now a (k, c)).
Proof.
  intros (t & m & Ht & Hm & ->) Hwf. unfold retry_one.
  destruct (bc_get _ _) as [b|]; [|done]. destruct (_ && _); [|done].
  rewrite split_key_authKey by done.
  pose proof (suppress_wf p a t m (c_signer c) (c_killBytes c) (b_effectiveDeath b) now Ht Hwf) as Hw.
  destruct (suppress _ _ _ _ _ _ _) as [a' v]. simpl in Hw. case_decide; [|done].
  apply with_cand_wf; [done|apply cand_remove_wf, Hw|]. rewrite cand_remove_caps. apply Hw.
Qed.

Lemma retry_all_wf p now l a :
  (∀ k c, (k, c) ∈ l → key_ok k) → auth_wf p a → auth_wf p (foldl (retry_one now) a l).
Proof.
  revert a. induction l as [|[k c] l IH]; intros a Hl Hwf; [done|]. cbn [foldl].
  apply IH; [intros k' c' ?; apply (Hl k' c'); by right|].
  apply retry_one_wf; [apply (Hl k c); by left|done].
Qed.

Definition retry_start (now : Z) (a : authority) : authority :=
  let a := reclaimed now a in with_cand a (cand_reclaimExpired now (cand a)).

Lemma retry_start_wf p now a : auth_wf p a → auth_wf p (retry_start now a).
Proof.
  intros Hwf%(reclaimed_wf p now).
  destruct (cand_reclaim_spec now _ (aw_cand _ _ Hwf)) as (? & Hc & _).
  apply with_cand_wf; [done..|]. rewrite Hc. apply Hwf.
Qed.

Lemma reclaimAndRetry_wf p a now : auth_wf p a → auth_wf p (reclaimAndRetry a now).
Proof.
  intros Hwf%(retry_start_wf p now). unfold reclaimAndRetry.
  apply (retry_all_wf p); [|exact Hwf].
  intros k c Hin. pose proof (aw_cand _ _ Hwf) as Hc.
  destruct (pending_elem _ _ _ Hc Hin) as [Hg _]. by eapply cand_get_key_ok.
Qed.

Lemma apply_ev_wf p a e : ev_ok e → auth_wf p a → auth_wf p (apply_ev a e).
Proof.
  destruct e; simpl; intros Hok Hwf.
  - by destruct Hok; apply onKill_wf.
  - by destruct Hok; apply onBody_wf.
  - by apply evictBody_wf.
  - by apply reclaimAndRetry_wf.
Qed.

Lemma apply_evs_wf p a es : Forall ev_ok es → auth_wf p a → auth_wf p (foldl apply_ev a es).
Proof.
  intros Hes. revert a. induction Hes as [|e es He _ IH]; intros a Hwf; [done|].
  apply IH, apply_ev_wf; done.
Qed.

Lemma new_authority_wf p bm :
  0 ≤ tombMaxCount p → 0 ≤ candMax p → 0 ≤ p_recordMax p → auth_wf p (new_authority p bm).
Proof.
  intros. assert (∀ n, 0 ≤ sublimit n) by (unfold sublimit; lia).
  split; try done; [apply new_tombstore_wf|apply new_candstore_wf]; simpl; auto; lia.
Qed.

(** * What a step does to the tombstones held *)

Definition held (a : authority) (k : string) (r : tombrec) : Prop := jget (t_map (tomb a)) k = Some r.

Lemma reclaimed_held now a k r :
  tomb_wf (tomb a) → held (reclaimed now a) k r ↔ held a k r ∧ now ≤ t_effectiveDeath r.
Proof.
  intros Hwf. unfold held. simpl. rewrite tomb_reclaim_get by done.
  destruct (jget (t_map (tomb a)) k) as [r'|]; simpl; [|naive_solver].
  case_match; zb; split; [done| |intros; simplify_eq|intros [? ?]; congruence]; [|done].
  intros [? ?]; simplify_eq. lia.
Qed.

Lemma suppress_held a t m s kb d now a' v k r :
  tomb_wf (tomb a) → suppress a t m s kb d now = (a', v) → held a' k r →
  (held a k r ∧ now ≤ t_effectiveDeath r) ∨
  (v = V_SUPPRESSED ∧ k = authKey t m ∧ signerPubkey r = s ∧ t_killBytes r = kb ∧
   t_effectiveDeath r = d ∧ now ≤ d).
Proof.
  intros Hwf Hs Hh. apply suppress_cases in Hs as [[-> _]|(-> & Hd & Hg & _ & Ht & _)].
  - left. by apply reclaimed_held.
  - unfold held in Hh. rewrite Ht in Hh. unfold tomb_insert in Hh. cbn [t_map] in Hh.
    rewrite jget_jset in Hh. case_decide; simplify_eq/=; [by right|].
    left. by apply reclaimed_held.
Qed.

Lemma suppress_live a t m s kb d now k r :
  tomb_wf (tomb a) → held a k r → now ≤ t_effectiveDeath r →
  held (suppress a t m s kb d now).1 k r.
Proof.
  intros Hwf Hh Hd. pose proof (proj2 (reclaimed_held now a k r Hwf) (conj Hh Hd)) as Hr.
  destruct (suppress a t m s kb d now) as [a' v] eqn:E.
  apply suppress_cases in E as [[-> _]|(_ & _ & Hg & _ & Ht & _)]; [done|].
  unfold held. simpl. rewrite Ht. unfold tomb_insert. cbn [t_map]. rewrite jget_jset.
  case_decide as Hk; [|done]. subst. unfold held in Hr. congruence.
Qed.

Lemma suppress_bodies a t m s kb d now k b :
  bc_get (bodies (suppress a t m s kb d now).1) k = Some b → bc_get (bodies a) k = Some b.
Proof.
  destruct (suppress a t m s kb d now) as [a' v] eqn:E.
  apply suppress_cases in E as [[-> _]|(_ & _ & _ & _ & _ & Hb & _)]; [done|].
  simpl. rewrite Hb. unfold bc_get. simpl. rewrite jget_jdel. by case_decide.
Qed.

Definition colocated (a : authority) (k signer : string) (death : Z) : Prop :=
  ∃ b, bc_get (bodies a) k = Some b ∧ publisher b = Some signer ∧ b_effectiveDeath b = death.
Definition kill_known (a : authority) (k signer kb : string) : Prop :=
  ∃ c, c ∈ cand_get (cand a) k ∧ c_signer c = signer ∧ c_killBytes c = kb.

(** What makes event [e] entitled to install record [r] for key [k] from state
    [a]: the body held here was published by the kill's signer. *)
Definition authorised (a : authority) (e : event) (k : string) (r : tombrec) : Prop :=
  match e with
  | EvKill t m s kb now =>
      k = authKey t m ∧ signerPubkey r = s ∧ t_killBytes r = kb ∧ now ≤ t_effectiveDeath r ∧
      colocated a k s (t_effectiveDeath r)
  | EvBody t m p d now =>
      k = authKey t m ∧ p = Some (signerPubkey r) ∧ t_effectiveDeath r = d ∧ now ≤ d ∧
      kill_known a k (signerPubkey r) (t_killBytes r)
  | EvRetry now =>
      now ≤ t_effectiveDeath r ∧ colocated a k (signerPubkey r) (t_effectiveDeath r) ∧
      kill_known a k (signerPubkey r) (t_killBytes r)
  | EvEvict _ _ => False
  end.

Lemma onKill_held a t m s kb now k r :
  tomb_wf (tomb a) → held (onKill a t m s kb now).1 k r →
  (held a k r ∧ now ≤ t_effectiveDeath r) ∨ authorised a (EvKill t m s kb now) k r.
Proof.
  intros Hwf. unfold onKill. fold (reclaimed now a).
  destruct (tomb_get _ _); [left; by apply reclaimed_held|].
  destruct (bc_get _ _) as [b|] eqn:Eb.
  2:{ destruct (cand_admit _ _ _ _ _ _ _). left. by apply reclaimed_held. }
  case_decide as Hp; [|left; by apply reclaimed_held].
  destruct (suppress _ _ _ _ _ _ _) as [a' v] eqn:E. intros Hh.
  assert (held a' k r) as Hh'.
  { destruct v; try done; by destruct (cand_admit _ _ _ _ _ _ _). }
  destruct (λ W, suppress_held (reclaimed now a) _ _ _ _ _ _ _ _ _ _ W E Hh')
    as [[H1 H2]|(_ & -> & ? & ? & ? & ?)]; [by apply tomb_reclaim_wf| |].
  - left. split; [|done]. by apply reclaimed_held in H1 as [? _].
  - right. split_and!; try done; [lia|]. by exists b.
Qed.

Lemma putBody_tomb a k b : tomb (putBody a k b) = tomb a.
Proof. unfold putBody. by destruct (bc_put _ _ _) as [B []]. Qed.

Lemma demote_cands st k k' c :
  c ∈ cand_get (cand_demoteKey st k) k' →
  ∃ c', c' ∈ cand_get st k' ∧ c_signer c' = c_signer c ∧ c_killBytes c' = c_killBytes c.
Proof.
  unfold cand_get, cand_demoteKey. simpl. rewrite jget_jalter. case_decide; [|by eauto].
  destruct (jget (c_map st) k') as [l|]; simpl; [|by intros ?%elem_of_nil].
  intros (c' & -> & ?)%list_elem_of_fmap. by exists c'.
Qed.

Lemma putBody_known a k b k' s kb :
  kill_known (putBody a k b) k' s kb → kill_known a k' s kb.
Proof.
  unfold putBody, kill_known. destruct (bc_put _ _ _) as [B [old|]]; [|done].
  intros (c & (c' & Hc & <- & <-)%demote_cands & <- & <-). by exists c'.
Qed.

Lemma cand_find_spec st k s c :
  cand_find st k s = Some c → c ∈ cand_get st k ∧ s = Some (c_signer c).
Proof.
  unfold cand_find. intros [Hin Hs]%List.find_some. apply list_elem_of_In in Hin.
  by apply bool_decide_eq_true in Hs.
Qed.

Lemma onBody_held a t m p d now k r :
  tomb_wf (tomb a) → held (onBody a t m p d now).1 k r →
  (held a k r ∧ now ≤ t_effectiveDeath r) ∨ authorised a (EvBody t m p d now) k r.
Proof.
  intros Hwf. unfold onBody. fold (reclaimed now a).
  destruct (isSuppressed _ _ _ _); [left; by apply reclaimed_held|].
  destruct (d <? now); [left; by apply reclaimed_held|].
  pose proof (putBody_tomb (reclaimed now a) (authKey t m) (mk_body p d now)) as Ht.
  pose proof (putBody_known (reclaimed now a) (authKey t m) (mk_body p d now) (authKey t m)) as Hk.
  revert Ht Hk. generalize (putBody (reclaimed now a) (authKey t m) (mk_body p d now)).
  intros a1 Ht Hk.
  assert (∀ k r, held a1 k r → held a k r ∧ now ≤ t_effectiveDeath r) as Hold.
  { unfold held. rewrite Ht. intros ? ?. by apply reclaimed_held. }
  assert (held (match cand_get (cand a1) (authKey t m) with
        | [] => (a1, V_DELIVERED)
        | _ => let '(c, n) := cand_purge (cand a1) (authKey t m) in
            (mk_authority (a_profile a1) (tomb a1) c (bodies a1)
               (mk_fx (cacheRemovals (fx a1)) (fanouts (fx a1)) (candidatePurges (fx a1) + if 0 <? n then 1 else 0)
                  (liveEvictions (fx a1)) (suppressions (fx a1)) (demotions (fx a1))), V_DELIVERED) end).1 k r
    → held a1 k r) as Hdel.
  { destruct (cand_get _ _); [done|]. by destruct (cand_purge _ _). }
  destruct (cand_find _ _ _) as [c|] eqn:Ef; [destruct p as [s|]|]; [|by eauto..].
  apply cand_find_spec in Ef as [Hin [= ->]].
  destruct (suppress _ _ _ _ _ _ _) as [a' v] eqn:E. intros Hh.
  assert (held a' k r) as Hh' by (by destruct v).
  destruct (λ W, suppress_held a1 _ _ _ _ _ _ _ _ _ _ W E Hh')
    as [[H1 H2]|(_ & -> & Hsg & Hkb & ? & ?)];
    [rewrite Ht; by apply tomb_reclaim_wf|left; by apply Hold|].
  right. simpl. split_and!; [done|by rewrite Hsg|done..|]. apply Hk. by exists c.
Qed.

Lemma retry_one_held now a k c k' r :
  key_ok k → tomb_wf (tomb a) → held (retry_one now a (k, c)) k' r →
  (held a k' r ∧ now ≤ t_effectiveDeath r) ∨ held a k' r ∨
  (k' = k ∧ now ≤ t_effectiveDeath r ∧ colocated a k (signerPubkey r) (t_effectiveDeath r) ∧
   c_signer c = signerPubkey r ∧ c_killBytes c = t_killBytes r).
Proof.
  intros (t & m & Ht & Hm & ->) Hwf. unfold retry_one. rewrite split_key_authKey by done.
  destruct (bc_get _ _) as [b|] eqn:Eb; [|by auto].
  destruct (bool_decide _) eqn:Ep; simpl; [|by auto]. destruct (now <=? _); [|by auto].
  apply bool_decide_eq_true in Ep.
  destruct (suppress _ _ _ _ _ _ _) as [a' v] eqn:E. intros Hh.
  assert (held a' k' r) as Hh' by (by case_decide).
  destruct (suppress_held a _ _ _ _ _ _ _ _ _ _ Hwf E Hh')
    as [[H1 H2]|(_ & -> & Hsg & Hkb & Hd & ?)]; [by auto|].
  right; right. split_and!; [done|by rewrite Hd| |done..]. exists b. by rewrite Hsg.
Qed.

Lemma retry_one_bodies now a p k b :
  bc_get (bodies (retry_one now a p)) k = Some b → bc_get (bodies a) k = Some b.
Proof.
  destruct p as [k' c]. unfold retry_one. destruct (bc_get _ k'); [|done]. destruct (_ && _); [|done].
  destruct (split_key k') as [t m].
  destruct (suppress _ _ _ _ _ _ _) as [a' v] eqn:E. intros Hh.
  apply (suppress_bodies a t m (c_signer c) (c_killBytes c) (b_effectiveDeath b0) now).
  rewrite E. simpl. by case_decide.
Qed.

Lemma retry_all_held p now l a k r :
  (∀ k c, (k, c) ∈ l → key_ok k) → auth_wf p a → held (foldl (retry_one now) a l) k r →
  held a k r ∨ ∃ c, (k, c) ∈ l ∧ now ≤ t_effectiveDeath r ∧
    colocated a k (signerPubkey r) (t_effectiveDeath r) ∧
    c_signer c = signerPubkey r ∧ c_killBytes c = t_killBytes r.
Proof.
  revert a. induction l as [|[k0 c0] l IH]; intros a Hl Hwf Hh; [by left|]. cbn [foldl] in Hh.
  apply IH in Hh as [Hh|(c & Hin & Hd & (b & Hb & ? & ?) & ? & ?)].
  - apply retry_one_held in Hh as [[? _]|[?|(-> & ? & ? & ? & ?)]]; auto.
    + right. exists c0. split_and!; try done. by left.
    + apply (Hl k0 c0). by left.
    + apply Hwf.
  - right. exists c. split_and!; try done; [by right|].
    exists b. split_and!; try done. by eapply retry_one_bodies.
  - intros k1 c1 ?. apply (Hl k1 c1). by right.
  - apply retry_one_wf; [|done]. apply (Hl k0 c0). by left.
Qed.

Lemma reclaim_cands_get now st k c :
  cand_wf st → c ∈ cand_get (cand_reclaimExpired now st) k → c ∈ cand_get st k.
Proof.
  intros Hwf. destruct (cand_reclaim_spec now st Hwf) as (_ & _ & Hg). unfold cand_get.
  rewrite Hg. destruct (jget (c_map st) k) as [l|]; simpl; [|done].
  destruct (live_cands now l) as [|c0 l0] eqn:E; simpl; [by intros ?%elem_of_nil|].
  rewrite <-E. unfold live_cands. by intros [_ ?]%list_elem_of_filter.
Qed.

Lemma apply_ev_held p a e k r :
  auth_wf p a → held (apply_ev a e) k r →
  (held a k r ∧ ∀ now, ev_now e = Some now → now ≤ t_effectiveDeath r) ∨ authorised a e k r.
Proof.
  intros Hwf Hh. destruct e; simpl apply_ev in Hh.
  - apply onKill_held in Hh as [[? ?]|?]; [left|by right|apply Hwf]. split; naive_solver.
  - apply onBody_held in Hh as [[? ?]|?]; [left|by right|apply Hwf]. split; naive_solver.
  - left. by split.
  - pose proof (retry_start_wf p now a Hwf) as Hs.
    apply (retry_all_held p) in Hh as [Hh|(c & Hin & ? & ? & Hcs & Hck)]; [| | |exact Hs].
    + left. apply reclaimed_held in Hh as [? ?]; [|apply Hwf]. split; [done|naive_solver].
    + right. split_and!; [done|done|]. exists c. split_and!; [|done|done].
      apply (pending_elem _ _ _ (aw_cand _ _ Hs)) in Hin as [Hin _].
      by eapply (reclaim_cands_get now), Hin; apply Hwf.
    + intros k' c' Hin. apply (pending_elem _ _ _ (aw_cand _ _ Hs)) in Hin as [Hin _].
      by eapply cand_get_key_ok, Hin; apply Hs.
Qed.

Lemma retry_all_live p now l a k r :
  (∀ k c, (k, c) ∈ l → key_ok k) → auth_wf p a → held a k r → now ≤ t_effectiveDeath r →
  held (foldl (retry_one now) a l) k r.
Proof.
  revert a. induction l as [|[k0 c0] l IH]; intros a Hl Hwf Hh Hd; [done|]. cbn [foldl].
  apply IH; [intros ???; eapply Hl; by right| | |done].
  - apply retry_one_wf; [eapply Hl; by left|done].
  - unfold retry_one. destruct (bc_get _ _) as [b|]; [|done]. destruct (_ && _); [|done].
    destruct (split_key k0) as [t m].
    pose proof (suppress_live a t m (c_signer c0) (c_killBytes c0) (b_effectiveDeath b) now k r
                  (aw_tomb _ _ Hwf) Hh Hd) as Hs.
    destruct (suppress _ _ _ _ _ _ _) as [a' v]. by case_decide.
Qed.

Lemma apply_ev_live p a e k r :
  auth_wf p a → held a k r → (∀ now, ev_now e = Some now → now ≤ t_effectiveDeath r) →
  held (apply_ev a e) k r.
Proof.
  intros Hwf Hh Hd. pose proof (aw_tomb _ _ Hwf) as Ht. destruct e as [t m s kb now|t m pb d now|t m|now].
  - specialize (Hd now eq_refl). pose proof (proj2 (reclaimed_held now a k r Ht) (conj Hh Hd)) as Hr.
    simpl. unfold onKill. fold (reclaimed now a). destruct (tomb_get _ _); [done|].
    destruct (bc_get _ _) as [b|]; [|by destruct (cand_admit _ _ _ _ _ _ _)].
    case_decide; [|done].
    pose proof (suppress_live (reclaimed now a) t m s kb (b_effectiveDeath b) now k r
                  (tomb_reclaim_wf _ _ Ht) Hr Hd) as Hs.
    destruct (suppress _ _ _ _ _ _ _) as [a' v].
    destruct v; try done; by destruct (cand_admit _ _ _ _ _ _ _).
  - specialize (Hd now eq_refl). pose proof (proj2 (reclaimed_held now a k r Ht) (conj Hh Hd)) as Hr.
    simpl. unfold onBody. fold (reclaimed now a).
    destruct (isSuppressed _ _ _ _); [done|]. destruct (d <? now); [done|].
    pose proof (putBody_tomb (reclaimed now a) (authKey t m) (mk_body pb d now)) as Hpt.
    revert Hpt. generalize (putBody (reclaimed now a) (authKey t m) (mk_body pb d now)). intros a1 Hpt.
    assert (held a1 k r) as H1 by (unfold held; by rewrite Hpt).
    assert (tomb_wf (tomb a1)) as W1 by (rewrite Hpt; by apply tomb_reclaim_wf).
    destruct (cand_find _ _ _) as [c|]; [destruct pb as [s|]|].
    + pose proof (suppress_live a1 t m s (c_killBytes c) d now k r W1 H1 Hd) as Hs.
      destruct (suppress _ _ _ _ _ _ _) as [a' v]. by destruct v.
    + destruct (cand_get _ _); [done|]. by destruct (cand_purge _ _).
    + destruct (cand_get _ _); [done|]. by destruct (cand_purge _ _).
  - done.
  - specialize (Hd now eq_refl). pose proof (retry_start_wf p now a Hwf) as Hs.
    apply (retry_all_live p); [|exact Hs| |done].
    + intros k' c' Hin. apply (pending_elem _ _ _ (aw_cand _ _ Hs)) in Hin as [Hin _].
      by eapply cand_get_key_ok, Hin; apply Hs.
    + by apply (reclaimed_held now a k r Ht).
Qed.

Lemma jsum_one m : jsum (λ (_ : string) (_ : tombrec), 1) m = jsize m.
Proof. unfold jsize. induction m as [|[??] m IH]; simpl; [done|]. rewrite IH. lia. Qed.

(** * The properties *)

(** C35. The deletion stores stay within their caps and their counters are exact:
    after any sequence of kills, bodies, evictions and retries, with topic and message
    ids that hold no bar ([ev_ok]; a map's key is the two joined by one), the
    count, the bytes, and every per-signer and per-topic count of the tombstones, and those of
    the candidates, are what the two maps hold and within the profile's limits (for one signer
    or one topic a sixteenth of the store, and at least one). *)
Theorem stores_exact_and_bounded p bodyMax es :
  0 ≤ tombMaxCount p → 0 ≤ candMax p → 0 ≤ p_recordMax p → Forall ev_ok es →
  let a := foldl apply_ev (new_authority p bodyMax) es in
  t_bytesTotal (tomb a) = jsum (λ _ r, t_bytes r) (t_map (tomb a)) ∧
  jsize (t_map (tomb a)) ≤ tombMaxCount p ∧
  t_bytesTotal (tomb a) ≤ tombMaxCount p * p_recordMax p ∧
  (∀ s, cnt (t_perSigner (tomb a)) s = jsum (λ _ r, isz (signerPubkey r) s) (t_map (tomb a)) ∧
        cnt (t_perSigner (tomb a)) s ≤ sublimit (tombMaxCount p)) ∧
  (∀ t, cnt (t_perTopic (tomb a)) t = jsum (λ k _, isz (topicOf k) t) (t_map (tomb a)) ∧
        cnt (t_perTopic (tomb a)) t ≤ sublimit (tombMaxCount p)) ∧
  c_total (cand a) = jsum (λ _ l, Z.of_nat (length l)) (c_map (cand a)) ∧
  c_bytesTotal (cand a) = csum (λ _ c, c_bytes c) (c_map (cand a)) ∧
  c_total (cand a) ≤ candMax p ∧ c_bytesTotal (cand a) ≤ candMax p * p_recordMax p ∧
  (∀ s, cnt (c_perSigner (cand a)) s = csum (λ _ c, isz (c_signer c) s) (c_map (cand a)) ∧
        cnt (c_perSigner (cand a)) s ≤ sublimit (candMax p)) ∧
  (∀ t, cnt (c_perTopic (cand a)) t = csum (λ k _, isz (topicOf k) t) (c_map (cand a)) ∧
        cnt (c_perTopic (cand a)) t ≤ sublimit (candMax p)).
Proof.
  intros H1 H2 H3 Hes a.
  destruct (apply_evs_wf p (new_authority p bodyMax) es Hes (new_authority_wf p bodyMax H1 H2 H3))
    as [[(_ & Hb & Hs & Ht) _ (B1 & B2 & B3 & B4 & _)] Htc [_ (C1 & C2 & C3 & C4) _ (D1 & D2 & D3 & D4)] Hcc].
  fold a in Hb, Hs, Ht, B1, B2, B3, B4, Htc, C1, C2, C3, C4, D1, D2, D3, D4, Hcc.
  rewrite Htc in B1, B2, B3, B4. rewrite Hcc in D1, D2, D3, D4. split_and!; try done.
  - intros s. split; [apply (cnt_counts _ _ s Hs)|apply B3].
  - intros t. split; [apply (cnt_counts _ _ t Ht)|apply B4].
  - rewrite C1. unfold csum. apply jsum_ext. intros _ l _.
    induction l as [|c l IH]; [done|]. rewrite lsum_cons, IH. simpl. lia.
  - intros s. split; [apply (cnt_counts _ _ s C3)|apply D3].
  - intros t. split; [apply (cnt_counts _ _ t C4)|apply D4].
Qed.

Definition demo_profile : caps_profile := mk_profile 32 32 768 true.
Definition demo_events : list event :=
  [EvKill "t1" "m1" "alice" "kb" 10; EvBody "t1" "m1" (Some "alice") 500 20;
   EvBody "t1" "m2" (Some "bob") 500 30; EvKill "t1" "m2" "mallory" "kb" 40].

Lemma stores_exact_and_bounded_witness :
  let a := foldl apply_ev (new_authority demo_profile 4) demo_events in
  (jsize (t_map (tomb a)) = 1 ∧ c_total (cand a) = 0) ∧
  jsize (t_map (tomb a)) ≤ 32.
Proof.
  split; [by vm_compute|].
  destruct (stores_exact_and_bounded demo_profile 4 demo_events) as (_ & H & _); [done..| |exact H].
  by repeat constructor.
Defined.

(** [suppress] is fail-closed and all-or-nothing.  Past the committed
    deadline, at capacity, or against a recorded deletion it changes nothing but
    expired tombstones; when it reports SUPPRESSED the deadline was not passed,
    the tombstone carries the signer and the committed deadline, the body and
    every candidate of the key are gone, and one fanout is counted. *)
Theorem suppress_atomic a t m s kb d now a' v :
  tomb_wf (tomb a) → suppress a t m s kb d now = (a', v) →
  (v ≠ V_SUPPRESSED → a' = with_tomb a (tomb_reclaimExpired now (tomb a))) ∧
  (v = V_SUPPRESSED →
     now ≤ d ∧
     (∃ r, held a' (authKey t m) r ∧ signerPubkey r = s ∧ t_effectiveDeath r = d ∧ t_killBytes r = kb) ∧
     bc_has (bodies a') (authKey t m) = false ∧ cand_get (cand a') (authKey t m) = [] ∧
     fanouts (fx a') = fanouts (fx a) + 1 ∧ suppressions (fx a') = suppressions (fx a) + 1 ∧
     liveEvictions (fx a') = liveEvictions (fx a)) ∧
  ((∃ r, held a (authKey t m) r ∧ now ≤ t_effectiveDeath r) →
     v = V_CONFIRMED ∨ v = V_REFUSED_MISMATCH_TOMB) ∧
  ((¬ ∃ r, held a (authKey t m) r ∧ now ≤ t_effectiveDeath r) → d < now → v = V_REFUSED_EXPIRED).
Proof.
  intros Hwf Hs. pose proof (λ r, reclaimed_held now a (authKey t m) r Hwf) as Hr. unfold held at 1 in Hr.
  apply suppress_cases in Hs as [[-> Hv]|(-> & Hd & Hg & _ & Ht & Hb & Hc & _ & Hf)].
  - destruct (jget (t_map (tomb (reclaimed now a))) (authKey t m)) as [r|] eqn:E.
    + destruct (proj1 (Hr r) eq_refl) as [H1 H2]. subst v. split_and!; case_decide; try done; eauto;
        intros Hno; exfalso; eauto.
    + split_and!; [done| | |].
      * by destruct Hv as [[_ ->]|(_ & w & _ & _ & ->)].
      * intros (r & Hx%Hr). congruence.
      * intros _ ?. destruct Hv as [[_ ->]|(? & _)]; [done|lia].
  - rewrite Hg in Hr. split_and!; [done| | |].
    + intros _. split_and!; [done| | | |by rewrite Hf..].
      * eexists. unfold held. rewrite Ht. unfold tomb_insert. cbn [t_map]. by rewrite jget_jset_eq.
      * rewrite Hb. unfold bc_has, bc_evict, jhas. simpl. by rewrite jget_jdel_eq.
      * rewrite Hc. unfold cand_get. by rewrite cand_purge_get, decide_True.
    + intros (r & Hx%Hr). congruence.
    + intros _ ?. lia.
Qed.

Lemma suppress_atomic_witness :
  let a := foldl apply_ev (new_authority demo_profile 4) [EvBody "t1" "m2" (Some "bob") 500 30] in
  (suppress a "t1" "m2" "bob" "kb" 500 40).2 = V_SUPPRESSED ∧
  bc_has (bodies a) (authKey "t1" "m2") = true ∧
  bc_has (bodies (suppress a "t1" "m2" "bob" "kb" 500 40).1) (authKey "t1" "m2") = false.
Proof.
  set (a := foldl _ _ _). split_and!; [by vm_compute..|].
  assert (tomb_wf (tomb a)) as Hwf.
  { eapply aw_tomb, (apply_evs_wf demo_profile); [by repeat constructor|]. by apply new_authority_wf. }
  destruct (suppress a "t1" "m2" "bob" "kb" 500 40) as [a' v] eqn:E.
  assert (v = V_SUPPRESSED) as Hv by (vm_compute in E; congruence).
  apply (suppress_atomic _ _ _ _ _ _ _ _ _ Hwf E), Hv.
Defined.

(** Authority is co-located: a tombstone held after a step was held before
    and is not past its deadline at that step, or the step itself was entitled
    to install it - the message's body, published by the kill's own signer and
    with the same committed deadline, was in this node's cache (or just
    arrived), the kill had been received, and the deadline was not passed. *)
Theorem tombstone_is_colocated p bodyMax es e k r :
  0 ≤ tombMaxCount p → 0 ≤ candMax p → 0 ≤ p_recordMax p → Forall ev_ok es →
  let a := foldl apply_ev (new_authority p bodyMax) es in
  held (apply_ev a e) k r →
  (held a k r ∧ ∀ now, ev_now e = Some now → now ≤ t_effectiveDeath r) ∨ authorised a e k r.
Proof.
  intros H1 H2 H3 Hes a. apply (apply_ev_held p).
  by apply apply_evs_wf; [|apply new_authority_wf].
Qed.

Lemma tombstone_is_colocated_witness :
  let a := foldl apply_ev (new_authority demo_profile 4) [EvBody "t1" "m2" (Some "bob") 500 30] in
  let e := EvKill "t1" "m2" "bob" "kb" 40 in
  ∃ r, held (apply_ev a e) (authKey "t1" "m2") r ∧ signerPubkey r = "bob" ∧
    ((held a (authKey "t1" "m2") r ∧ ∀ now, ev_now e = Some now → now ≤ t_effectiveDeath r) ∨
     authorised a e (authKey "t1" "m2") r).
Proof.
  set (a := foldl _ _ _). set (e := EvKill _ _ _ _ _).
  eexists. split_and!; [vm_compute; reflexivity|reflexivity|].
  apply (tombstone_is_colocated demo_profile 4 [EvBody "t1" "m2" (Some "bob") 500 30] e);
    [done..|by repeat constructor|vm_compute; reflexivity].
Defined.

(** A live deletion dominates: while a tombstone's committed deadline is not
    passed no event removes or overwrites it, [isSuppressed] answers true, the
    message's body is dropped without being cached, and a repeated kill is
    confirmed or refused without effect. *)
Theorem live_tombstone_dominates p bodyMax es t m r now :
  0 ≤ tombMaxCount p → 0 ≤ candMax p → 0 ≤ p_recordMax p → Forall ev_ok es →
  let a := foldl apply_ev (new_authority p bodyMax) es in
  held a (authKey t m) r → now ≤ t_effectiveDeath r →
  (∀ e, (∀ n, ev_now e = Some n → n ≤ t_effectiveDeath r) → held (apply_ev a e) (authKey t m) r) ∧
  isSuppressed a t m now = true ∧
  (∀ pub d, (onBody a t m pub d now).2 = V_SUPPRESSED_TOMBSTONE ∧
            bodies (onBody a t m pub d now).1 = bodies a ∧ cand (onBody a t m pub d now).1 = cand a) ∧
  (∀ s kb, (onKill a t m s kb now).2 =
             (if decide (signerPubkey r = s) then V_CONFIRMED else V_DROP_MISMATCH_TOMB) ∧
           bodies (onKill a t m s kb now).1 = bodies a ∧ cand (onKill a t m s kb now).1 = cand a).
Proof.
  intros H1 H2 H3 Hes a Hh Hd.
  assert (auth_wf p a) as Hwf by (by apply apply_evs_wf; [|apply new_authority_wf]).
  pose proof (proj2 (reclaimed_held now a _ r (aw_tomb _ _ Hwf)) (conj Hh Hd)) as Hr.
  assert (∀ a, held a (authKey t m) r → isSuppressed a t m now = true) as Hsup.
  { intros a0 Hh0. unfold isSuppressed, tomb_get. unfold held in Hh0. rewrite Hh0.
    by rewrite (proj2 (Z.ltb_ge _ _)). }
  split_and!.
  - intros e He. by apply (apply_ev_live p).
  - by apply Hsup.
  - intros pub d. unfold onBody. fold (reclaimed now a). rewrite Hsup by done. done.
  - intros s kb. unfold onKill. fold (reclaimed now a). unfold tomb_get.
    unfold held in Hr. rewrite Hr. done.
Qed.

Lemma live_tombstone_dominates_witness :
  let a := foldl apply_ev (new_authority demo_profile 4) demo_events in
  ∃ r, held a (authKey "t1" "m1") r ∧ 100 ≤ t_effectiveDeath r ∧ isSuppressed a "t1" "m1" 100 = true.
Proof.
  eexists. split_and!; [vm_compute; reflexivity|vm_compute; done|].
  eapply (live_tombstone_dominates demo_profile 4 demo_events);
    [done|done|done|by repeat constructor|vm_compute; reflexivity|vm_compute; done].
Defined.
