(* ===== verification/ChannelLedger.v ===== *)
(** The channel and peer records of the WebRTC mesh:
    [src/src/transport/web/channel_ledger.js], with the two-pool profile of
    [pool_profile.js].

    A [ledger] is the class's state: the reservations, the channels (one per
    PeerConnection, by token), the token of each signalling id, the bound
    identities, and the counters.  Each method is one definition taking the
    clock reading it would make.  An armed escalation timer is the flag
    [h_timer]; its callback is [escalate_fire]. *)

From Stdlib Require Import Ascii.
From stdpp Require Import base tactics sets list numbers strings pretty.
From Stdlib Require Import ZArith Lia.
From S2P Require Import Prelude.

(** * Pool profiles *)

Inductive pool_field := F_profile | F_M | F_I | F_H | F_pPending | F_cInbound | F_serveFloor
  | F_promoteMs | F_doorSockets | F_hostBudget.

Record profile := mk_profile {
  pp_armed : bool; pp_M : Z; pp_I : Z; pp_H : Z; pp_pPending : Z; pp_cInbound : Z;
  pp_serveFloor : Z; pp_promoteMs : Z; pp_hostBudget : option Z; pp_doorSockets : Z
}.

(** What [Number(v)] makes of an option: absent, an integer, or not one. *)
Inductive num_opt := Absent | IntOpt (n : Z) | NotInt.

Definition DEFAULT_PROMOTE_MS : Z := 30000.

(** [throw new PoolProfileError(field, ..)] is [inl field]. *)
Definition int (field : pool_field) (v : num_opt) (min : Z) (required : bool) : pool_field + option Z :=
  match v with
  | Absent => if required then inl field else inr None
  | NotInt => inl field
  | IntOpt n => if n <? min then inl field else inr (Some n)
  end.

Record profile_opts := mk_profile_opts {
  o_M : num_opt; o_I : num_opt; o_H : num_opt; o_pPending : num_opt; o_cInbound : num_opt;
  o_serveFloor : num_opt; o_promoteMs : num_opt; o_doorSockets : num_opt; o_hostBudget : num_opt
}.

#[local] Instance sum_bind {E} : MBind (sum E) := λ A B f r, match r with inl e => inl e | inr a => f a end.

Definition makePoolProfile (opts : option profile_opts) : pool_field + profile :=
  match opts with
  | None => inl F_profile
  | Some o =>
      mM ← int F_M (o_M o) 1 true;
      mI ← int F_I (o_I o) 0 true;
      let M := default 0 mM in let I := default 0 mI in
      mH ← int F_H (o_H o) 1 false;
      let H := default (M + I) mH in
      mp ← int F_pPending (o_pPending o) 1 false;
      let pPending := default (Z.min 8 M) mp in
      mc ← int F_cInbound (o_cInbound o) 0 false;
      let cInbound := default (Z.min 4 I) mc in
      ms ← int F_serveFloor (o_serveFloor o) 0 false;
      let serveFloor := default (Z.min 3 M) ms in
      mpr ← int F_promoteMs (o_promoteMs o) 0 false;
      md ← int F_doorSockets (o_doorSockets o) 0 false;
      let doorSockets := default 0 md in
      hostBudget ← int F_hostBudget (o_hostBudget o) 1 false;
      if H <? M + I then inl F_H
      else if M <? pPending then inl F_pPending
      else if I <? cInbound then inl F_cInbound
      else if M <? serveFloor then inl F_serveFloor
      else if match hostBudget with Some b => b <? H + doorSockets | None => false end then inl F_hostBudget
      else inr (mk_profile true M I H pPending cInbound serveFloor
                  (default DEFAULT_PROMOTE_MS mpr) hostBudget doorSockets)
  end.

(** * Channels, reservations, peers *)

Inductive chan_state := ALLOCATED | NEGOTIATING | OPEN | CLOSING | GONE.
#[export] Instance chan_state_eq_dec : EqDecision chan_state.
Proof. solve_decision. Defined.

Definition LIVE (s : chan_state) : bool := match s with GONE => false | _ => true end.
Definition PRE_OPEN (s : chan_state) : bool := match s with ALLOCATED | NEGOTIATING => true | _ => false end.
Definition POINTABLE (s : chan_state) : bool :=
  match s with ALLOCATED | NEGOTIATING | OPEN => true | _ => false end.

Inductive dir := DirIn | DirOut.
#[export] Instance dir_eq_dec : EqDecision dir.
Proof. solve_decision. Defined.

Inductive cls := ClsM | ClsI.
#[export] Instance cls_eq_dec : EqDecision cls.
Proof. solve_decision. Defined.

Record chan := mk_chan {
  h_t : string; h_meshId : string; h_dir : dir; h_cls : option cls; h_state : chan_state;
  h_since : Z; h_negotiatingAt : Z; h_openedAt : Z; h_closingAt : Z;
  h_reason : option string; h_nodeId : option string; h_timer : bool; h_seq : Z
}.

Record reserv := mk_reserv { r_cls : option cls; r_dir : dir; r_at : Z; r_seq : N }.
Record peer := mk_peer { p_nodeId : string; p_t : option string; p_boundAt : Z }.
Record pending := mk_pending { pr_cls : cls; pr_after : string }.

(** The counters of [_stats]. *)
Inductive stat :=
| allocated | refusedOut | refusedIn | wouldRefuseOut | wouldRefuseIn
| closeEscalated | staleEvent | goneTotal
| reserved | reservationsConsumed | reservationsReleased | reservationsExpired
| refusedM | refusedI | wouldRefuseM | wouldRefuseI | reclassed | reclassRefused
| allocUnreserved | reclassDeferred | reclassApplied.
#[export] Instance stat_eq_dec : EqDecision stat.
Proof. solve_decision. Defined.

(** What the constructor parses: the bounds and the two flags. *)
Record config := mk_config {
  cPhys : Z; cInbound : Z; pPending : Z; closeEscalateMs : Z; enforce : bool;
  reserveTtlMs : Z; pools : option profile
}.

Record ledger := mk_ledger {
  cfg : config; res : jmap string reserv; resSeq : N;
  chans : jmap string chan; tByMeshId : jmap string string; peers : jmap string peer;
  seq : Z; stats : stat → Z; pendingReclass : jmap string pending
}.

(** [num(v, dflt, min)]: [None] is an option that is not a finite number. *)
Definition num (v : option Z) (dflt min : Z) : Z :=
  match v with Some n => Z.max min n | None => dflt end.

Record ledger_opts := mk_opts {
  lo_cPhys : option Z; lo_cInbound : option Z; lo_pPending : option Z;
  lo_closeEscalateMs : option Z; lo_enforce : bool; lo_reserveTtlMs : option Z;
  lo_pools : option profile
}.

Definition parse_config (o : ledger_opts) : config :=
  let cP := num (lo_cPhys o) 66 1 in
  let cI := num (lo_cInbound o) 4 1 in
  let pP := num (lo_pPending o) 8 1 in
  let ce := num (lo_closeEscalateMs o) 10000 0 in
  let rt := num (lo_reserveTtlMs o) 30000 0 in
  match lo_pools o with
  | Some p =>
      if pp_armed p then
        mk_config (num (Some (pp_H p)) cP 1) (Z.max 1 (num (Some (pp_cInbound p)) cI 0))
          (num (Some (pp_pPending p)) pP 1) ce (lo_enforce o) rt (Some p)
      else mk_config cP cI pP ce (lo_enforce o) rt None
  | None => mk_config cP cI pP ce (lo_enforce o) rt None
  end.

Definition new_ledger (o : ledger_opts) : ledger :=
  mk_ledger (parse_config o) [] 0 [] [] [] 0 (λ _, 0) [].

(** ** Field updates *)

Definition set_res (L : ledger) r := mk_ledger (cfg L) r (resSeq L) (chans L) (tByMeshId L) (peers L) (seq L) (stats L) (pendingReclass L).
Definition set_chans (L : ledger) c := mk_ledger (cfg L) (res L) (resSeq L) c (tByMeshId L) (peers L) (seq L) (stats L) (pendingReclass L).
Definition set_tBy (L : ledger) m := mk_ledger (cfg L) (res L) (resSeq L) (chans L) m (peers L) (seq L) (stats L) (pendingReclass L).
Definition set_peers (L : ledger) p := mk_ledger (cfg L) (res L) (resSeq L) (chans L) (tByMeshId L) p (seq L) (stats L) (pendingReclass L).
Definition set_pend (L : ledger) p := mk_ledger (cfg L) (res L) (resSeq L) (chans L) (tByMeshId L) (peers L) (seq L) (stats L) p.
Definition bump_by (s : stat) (n : Z) (L : ledger) :=
  mk_ledger (cfg L) (res L) (resSeq L) (chans L) (tByMeshId L) (peers L) (seq L)
    (λ x, if decide (x = s) then stats L x + n else stats L x) (pendingReclass L).
Definition bump (s : stat) (L : ledger) := bump_by s 1 L.

Definition put_chan (L : ledger) (c : chan) := set_chans L (jset (chans L) (h_t c) c).

Definition with_state (c : chan) (s : chan_state) : chan :=
  mk_chan (h_t c) (h_meshId c) (h_dir c) (h_cls c) s (h_since c) (h_negotiatingAt c) (h_openedAt c)
    (h_closingAt c) (h_reason c) (h_nodeId c) (h_timer c) (h_seq c).
Definition with_negotiatingAt (c : chan) (n : Z) : chan :=
  mk_chan (h_t c) (h_meshId c) (h_dir c) (h_cls c) (h_state c) (h_since c) n (h_openedAt c)
    (h_closingAt c) (h_reason c) (h_nodeId c) (h_timer c) (h_seq c).
Definition with_openedAt (c : chan) (n : Z) : chan :=
  mk_chan (h_t c) (h_meshId c) (h_dir c) (h_cls c) (h_state c) (h_since c) (h_negotiatingAt c) n
    (h_closingAt c) (h_reason c) (h_nodeId c) (h_timer c) (h_seq c).
Definition with_closing (c : chan) (n : Z) (r : string) : chan :=
  mk_chan (h_t c) (h_meshId c) (h_dir c) (h_cls c) (h_state c) (h_since c) (h_negotiatingAt c) (h_openedAt c)
    n (Some r) (h_nodeId c) (h_timer c) (h_seq c).
Definition with_nodeId (c : chan) (n : option string) : chan :=
  mk_chan (h_t c) (h_meshId c) (h_dir c) (h_cls c) (h_state c) (h_since c) (h_negotiatingAt c) (h_openedAt c)
    (h_closingAt c) (h_reason c) n (h_timer c) (h_seq c).
Definition with_cls (c : chan) (k : option cls) : chan :=
  mk_chan (h_t c) (h_meshId c) (h_dir c) k (h_state c) (h_since c) (h_negotiatingAt c) (h_openedAt c)
    (h_closingAt c) (h_reason c) (h_nodeId c) (h_timer c) (h_seq c).
Definition with_timer (c : chan) (b : bool) : chan :=
  mk_chan (h_t c) (h_meshId c) (h_dir c) (h_cls c) (h_state c) (h_since c) (h_negotiatingAt c) (h_openedAt c)
    (h_closingAt c) (h_reason c) (h_nodeId c) b (h_seq c).

(** * Counts *)

Definition count {V} (P : V → bool) (m : jmap string V) : Z := jsum (λ _ v, if P v then 1 else 0) m.

Definition armed (L : ledger) : bool := match pools (cfg L) with Some _ => true | None => false end.

Definition chargedOf (L : ledger) (k : option cls) : Z :=
  count (λ c, LIVE (h_state c) && bool_decide (h_cls c = k)) (chans L).
Definition reservedOf (L : ledger) (k : option cls) : Z := count (λ r, bool_decide (r_cls r = k)) (res L).
Definition reservedAll (L : ledger) : Z := jsize (res L).
Definition reservedDirOf (L : ledger) (d : dir) : Z := count (λ r, bool_decide (r_dir r = d)) (res L).
Definition chanAll (L : ledger) : Z := count (λ c, LIVE (h_state c)) (chans L).
Definition chanInboundUnbound (L : ledger) : Z :=
  count (λ c, bool_decide (h_dir c = DirIn) && PRE_OPEN (h_state c) && bool_decide (h_nodeId c = None)) (chans L).
Definition chanOutboundPending (L : ledger) : Z :=
  count (λ c, bool_decide (h_dir c = DirOut) && PRE_OPEN (h_state c)) (chans L).

(** [this.pools[k]] *)
Definition pool_bound (p : profile) (k : cls) : Z := match k with ClsM => pp_M p | ClsI => pp_I p end.

(** * Reservations *)

Inductive why := W_phys | W_pool (k : cls) | W_inbound | W_pending.
#[export] Instance why_eq_dec : EqDecision why.
Proof. solve_decision. Defined.

Definition res_expired (L : ledger) (now : Z) (r : reserv) : bool := reserveTtlMs (cfg L) <? now - r_at r.

Definition sweepReservations (L : ledger) (now : Z) : ledger :=
  if reserveTtlMs (cfg L) <=? 0 then L
  else
    foldl (λ L p, if res_expired L now p.2 then bump reservationsExpired (set_res L (jdel (res L) p.1)) else L)
      L (res L).

(** The class a reservation is charged in: the one asked for, else the one of
    its direction; none on an unarmed ledger. *)
Definition res_class (L : ledger) (c : option cls) (d : dir) : option cls :=
  if armed L then
    Some (match c with Some k => k | None => match d with DirIn => ClsI | DirOut => ClsM end end)
  else None.

Definition pool_full (L : ledger) (k : cls) : bool :=
  match pools (cfg L) with
  | Some p => pool_bound p k <=? chargedOf L (Some k) + reservedOf L (Some k)
  | None => false
  end.

Definition reserve_why (L : ledger) (k : option cls) (d : dir) : option why :=
  if cPhys (cfg L) <=? chanAll L + reservedAll L then Some W_phys
  else if match k with Some k => pool_full L k | None => false end then W_pool <$> k
  else if bool_decide (d = DirIn) && (cInbound (cfg L) <=? chanInboundUnbound L + reservedDirOf L DirIn)
  then Some W_inbound
  else if bool_decide (d = DirOut) && (pPending (cfg L) <=? chanOutboundPending L + reservedDirOf L DirOut)
  then Some W_pending
  else None.

Definition res_token (n : N) : string := "r" +:+ pretty n.

Definition count_refusal (L : ledger) (hard : bool) (k : option cls) (d : dir) : ledger :=
  let L := bump (match d, hard with
                 | DirIn, true => refusedIn | DirOut, true => refusedOut
                 | DirIn, false => wouldRefuseIn | DirOut, false => wouldRefuseOut end) L in
  match k, hard with
  | Some ClsM, true => bump refusedM L | Some ClsI, true => bump refusedI L
  | Some ClsM, false => bump wouldRefuseM L | Some ClsI, false => bump wouldRefuseI L
  | None, _ => L
  end.

(** Returns the token, or none when refused, and the row that refused or counted. *)
Definition reserve (L : ledger) (c : option cls) (d : dir) (now : Z) : ledger * (option string * option why) :=
  let L := sweepReservations L now in
  let k := res_class L c d in
  let w := reserve_why L k d in
  if bool_decide (w ≠ None) && enforce (cfg L) then (count_refusal L true k d, (None, w))
  else
    let L := if bool_decide (w ≠ None) then count_refusal L false k d else L in
    let n := (resSeq L + 1)%N in
    let L := mk_ledger (cfg L) (jset (res L) (res_token n) (mk_reserv k d now n)) n (chans L)
               (tByMeshId L) (peers L) (seq L) (stats L) (pendingReclass L) in
    (bump reserved L, (Some (res_token n), w)).

Definition release (L : ledger) (token : option string) : ledger * bool :=
  match token with
  | None => (L, false)
  | Some t =>
      if jhas (res L) t then (bump reservationsReleased (set_res L (jdel (res L) t)), true)
      else (bump staleEvent L, false)
  end.

(** * Reclassing a live channel *)

Record reclass_res := mk_reclass_res {
  rr_ok : bool; rr_why : option why; rr_prev : option cls; rr_deferred : bool; rr_found : bool
}.

(** [cls] is [None] for anything but 'M' and 'I'. *)
Definition reclass (L : ledger) (t : string) (k : option cls) (after : option string)
    : ledger * reclass_res :=
  match jget (chans L) t with
  | None => (bump staleEvent L, mk_reclass_res false None None false false)
  | Some c =>
      if negb (LIVE (h_state c)) then (bump staleEvent L, mk_reclass_res false None None false false)
      else
        match k with
        | None => (L, mk_reclass_res false None (h_cls c) false true)
        | Some k =>
            let prev := h_cls c in
            if decide (prev = Some k) then (L, mk_reclass_res true None prev false true)
            else
              let w := if armed L && pool_full L k then Some (W_pool k) else None in
              if bool_decide (w ≠ None) && enforce (cfg L) then
                let a := after ≫= jget (chans L) in
                if match a with
                   | Some a => LIVE (h_state a) && bool_decide (h_cls a = Some k) && bool_decide (h_t a ≠ t)
                   | None => false
                   end
                then (bump reclassDeferred
                        (set_pend L (jset (pendingReclass L) t (mk_pending k (default "" after)))),
                      mk_reclass_res false w prev true true)
                else (bump reclassRefused L, mk_reclass_res false w prev false true)
              else (bump reclassed (put_chan L (with_cls c (Some k))), mk_reclass_res true w prev false true)
        end
  end.

Definition apply_pending_one (goneT : string) (L : ledger) (p : string * pending) : ledger :=
  let '(t, q) := p in
  if decide (pr_after q ≠ goneT) then L
  else
    let L := set_pend L (jdel (pendingReclass L) t) in
    match jget (chans L) t with
    | None => bump staleEvent L
    | Some c =>
        if negb (LIVE (h_state c)) then bump staleEvent L
        else if armed L && pool_full L (pr_cls q) then bump reclassRefused L
        else bump reclassApplied (bump reclassed (put_chan L (with_cls c (Some (pr_cls q)))))
    end.

Definition applyPendingReclass (L : ledger) (goneT : string) : ledger :=
  foldl (apply_pending_one goneT) L (pendingReclass L).

(** A token is looked up through the signalling id; an empty one is falsy. *)
Definition chan_of_token (L : ledger) (t : option string) : option chan :=
  match t with
  | Some t => if decide (t = "") then None else jget (chans L) t
  | None => None
  end.

Definition classOf (L : ledger) (meshId : string) : option cls :=
  chan_of_token L (jget (tByMeshId L) meshId) ≫= h_cls.
Definition classOfNode (L : ledger) (nodeId : string) : option cls :=
  chan_of_token L (jget (peers L) nodeId ≫= p_t) ≫= h_cls.

(** * The predicate *)

Definition alloc_why (L : ledger) (d : dir) : option why :=
  if cPhys (cfg L) <=? chanAll L then Some W_phys
  else if bool_decide (d = DirIn) && (cInbound (cfg L) <=? chanInboundUnbound L) then Some W_inbound
  else if bool_decide (d = DirOut) && (pPending (cfg L) <=? chanOutboundPending L) then Some W_pending
  else None.

Definition canAllocate (L : ledger) (d : dir) : bool * option why :=
  let w := alloc_why L d in
  if bool_decide (w = None) || negb (enforce (cfg L)) then (true, w) else (false, w).

Definition mayAllocate (L : ledger) (d : dir) : ledger * (bool * option why) :=
  let w := alloc_why L d in
  if bool_decide (w = None) then (L, (true, None))
  else if enforce (cfg L) then
    (bump (match d with DirIn => refusedIn | DirOut => refusedOut end) L, (false, w))
  else (bump (match d with DirIn => wouldRefuseIn | DirOut => wouldRefuseOut end) L, (true, w)).

(** * Transitions *)

Definition allocate (L : ledger) (t meshId : string) (d : dir) (reservation : option string) (now : Z)
    : ledger * option chan :=
  match jget (chans L) t with
  | Some c => (bump staleEvent L, Some c)
  | None =>
      let '(L, k, consumed) :=
        match reservation with
        | None => (L, None, false)
        | Some tok =>
            match jget (res L) tok with
            | Some r => (bump reservationsConsumed (set_res L (jdel (res L) tok)), r_cls r, true)
            | None => (bump staleEvent L, None, false)
            end
        end in
      if armed L && negb consumed then (bump allocUnreserved L, None)
      else
        let rec := mk_chan t meshId d k ALLOCATED now 0 0 0 None None false (seq L + 1) in
        let L := mk_ledger (cfg L) (res L) (resSeq L) (jset (chans L) t rec) (jset (tByMeshId L) meshId t)
                   (peers L) (seq L + 1) (stats L) (pendingReclass L) in
        (bump allocated L, Some rec)
  end.

(** The channel of [t], when a transition found it in a state it does not leave. *)
Definition stale_if_gone (L : ledger) (c : option chan) : ledger * option chan :=
  (match c with
   | None => bump staleEvent L
   | Some c => if decide (h_state c = GONE) then bump staleEvent L else L
   end, c).

Definition negotiating (L : ledger) (t : string) (now : Z) : ledger * option chan :=
  match jget (chans L) t with
  | Some c =>
      if decide (h_state c = ALLOCATED) then
        let c := with_negotiatingAt (with_state c NEGOTIATING) now in (put_chan L c, Some c)
      else stale_if_gone L (Some c)
  | None => stale_if_gone L None
  end.

Definition open (L : ledger) (t : string) (now : Z) : ledger * option chan :=
  match jget (chans L) t with
  | Some c =>
      if PRE_OPEN (h_state c) then
        let c := with_openedAt (with_state c OPEN) now in (put_chan L c, Some c)
      else stale_if_gone L (Some c)
  | None => stale_if_gone L None
  end.

Definition bind (L : ledger) (meshId nodeId : string) (now : Z) : ledger * option peer :=
  match chan_of_token L (jget (tByMeshId L) meshId) with
  | Some c =>
      if POINTABLE (h_state c) then
        let p := mk_peer nodeId (jget (tByMeshId L) meshId) now in
        let L := put_chan L (with_nodeId c (Some nodeId)) in
        (set_peers L (jset (peers L) nodeId p), Some p)
      else (bump staleEvent L, jget (peers L) nodeId)
  | None => (bump staleEvent L, jget (peers L) nodeId)
  end.

(** The scan of [_otherPointableFor]: an OPEN channel at once, else the first. *)
Fixpoint other_scan (nodeId exceptT : string) (pre : option string) (l : jmap string chan) : option string :=
  match l with
  | [] => pre
  | (_, o) :: l' =>
      if bool_decide (h_t o = exceptT) || negb (bool_decide (h_nodeId o = Some nodeId)) || negb (POINTABLE (h_state o))
      then other_scan nodeId exceptT pre l'
      else if decide (h_state o = OPEN) then Some (h_t o)
      else other_scan nodeId exceptT (match pre with None => Some (h_t o) | _ => pre end) l'
  end.
Definition otherPointableFor (L : ledger) (nodeId exceptT : string) : option string :=
  other_scan nodeId exceptT None (chans L).

Definition settlePeer (L : ledger) (nodeId : option string) (t : string) : ledger :=
  match nodeId with
  | None => L
  | Some n =>
      match jget (peers L) n with
      | None => L
      | Some p =>
          match otherPointableFor L n t with
          | Some other =>
              if decide (other = "") then set_peers L (jdel (peers L) n)
              else if bool_decide (p_t p = Some t) || bool_decide (p_t p = None)
              then set_peers L (jset (peers L) n (mk_peer (p_nodeId p) (Some other) (p_boundAt p)))
              else L
          | None => set_peers L (jdel (peers L) n)
          end
      end
  end.

(** The newest live bound channel of a signalling id. *)
Definition newest_bound (meshId : string) (l : jmap string chan) : option chan :=
  foldl (λ acc p,
    let o := p.2 in
    if bool_decide (h_meshId o = meshId) && bool_decide (h_nodeId o ≠ None) && LIVE (h_state o)
       && match acc with None => true | Some n => h_seq n <? h_seq o end
    then Some o else acc) None l.

Definition unbind (L : ledger) (meshId : string) : ledger :=
  let c := chan_of_token L (jget (tByMeshId L) meshId) in
  let c := if match c with None => true | Some c => bool_decide (h_nodeId c = None) end
           then newest_bound meshId (chans L) else c in
  match c with
  | None => L
  | Some c => settlePeer (put_chan L (with_nodeId c None)) (h_nodeId c) (h_t c)
  end.

Definition retire_token (L : ledger) (meshId t : string) : ledger :=
  if decide (jget (tByMeshId L) meshId = Some t) then set_tBy L (jdel (tByMeshId L) meshId) else L.

Definition closing (L : ledger) (t reason : string) (now : Z) : ledger * option chan :=
  match jget (chans L) t with
  | None => stale_if_gone L None
  | Some c =>
      if bool_decide (h_state c = CLOSING) || bool_decide (h_state c = GONE) then stale_if_gone L (Some c)
      else
        let c := with_closing (with_state c CLOSING) now reason in
        let c := with_timer c (h_timer c || (0 <? closeEscalateMs (cfg L))) in
        let L := retire_token (put_chan L c) (h_meshId c) t in
        let L := match h_nodeId c with
                 | Some n => match jget (peers L) n with
                             | Some p => if decide (p_t p = Some t) then settlePeer L (Some n) t else L
                             | None => L
                             end
                 | None => L
                 end in
        (L, Some c)
  end.

(** The escalation timer's callback: nothing is released. *)
Definition escalate_fire (L : ledger) (t : string) : ledger :=
  match jget (chans L) t with
  | Some c =>
      if h_timer c then
        let L := put_chan L (with_timer c false) in
        if decide (h_state c = CLOSING) then bump closeEscalated L else L
      else L
  | None => L
  end.

(** Returns the record and whether the close was prompted. *)
Definition gone (L : ledger) (t : string) : ledger * option (chan * bool) :=
  match jget (chans L) t with
  | None => (bump staleEvent L, None)
  | Some c =>
      if decide (h_state c = GONE) then (bump staleEvent L, Some (c, false))
      else
        let prompted := bool_decide (h_state c = CLOSING) in
        let L := retire_token L (h_meshId c) t in
        let L := bump goneTotal L in
        let L := set_chans L (jdel (chans L) t) in
        let L := settlePeer L (h_nodeId c) t in
        let L := set_pend L (jdel (pendingReclass L) t) in
        let L := applyPendingReclass L t in
        (L, Some (with_nodeId (with_timer (with_state c GONE) false) None, prompted))
  end.

Definition dispose (L : ledger) : ledger :=
  set_chans L ((λ p, (p.1, with_timer p.2 false)) <$> chans L).

(** [stats()]: the fields that are computed from the records. *)
Record snapshot := mk_snapshot {
  s_allocated : Z; s_negotiating : Z; s_open : Z; s_closing : Z;
  unboundOpen : Z; oldestPreOpenMs : Z; oldestClosingMs : Z; peersPointing : Z;
  boundPeers : Z; reservations : Z; reclassPending : Z; all : Z; inboundUnbound : Z; outboundPending : Z;
  byClass : list (option cls * Z * Z); counters : stat → Z
}.

Definition oldest (P : chan → bool) (age : chan → Z) (m : jmap string chan) : Z :=
  foldl (λ acc p, if P p.2 then Z.max acc (age p.2) else acc) 0 m.

Definition stats_view (L : ledger) (now : Z) : snapshot :=
  let byState s := count (λ c, bool_decide (h_state c = s)) (chans L) in
  mk_snapshot (byState ALLOCATED) (byState NEGOTIATING) (byState OPEN) (byState CLOSING)
    (count (λ c, bool_decide (h_state c = OPEN) && bool_decide (h_nodeId c = None)) (chans L))
    (oldest (λ c, PRE_OPEN (h_state c)) (λ c, now - h_since c) (chans L))
    (oldest (λ c, bool_decide (h_state c = CLOSING)) (λ c, now - h_closingAt c) (chans L))
    (count (λ p, bool_decide (p_t p ≠ None)) (peers L))
    (jsize (peers L)) (jsize (res L)) (jsize (pendingReclass L)) (chanAll L)
    (chanInboundUnbound L) (chanOutboundPending L)
    [(Some ClsM, chargedOf L (Some ClsM), reservedOf L (Some ClsM));
     (Some ClsI, chargedOf L (Some ClsI), reservedOf L (Some ClsI));
     (None, chargedOf L None, 0)]
    (stats L).

(** * Operations as steps *)

Inductive op :=
| OReserve (c : option cls) (d : dir) (now : Z)
| ORelease (token : option string)
| OSweep (now : Z)
| OMayAllocate (d : dir)
| OAllocate (t meshId : string) (d : dir) (reservation : option string) (now : Z)
| ONegotiating (t : string) (now : Z)
| OOpen (t : string) (now : Z)
| OBind (meshId nodeId : string) (now : Z)
| OUnbind (meshId : string)
| OClosing (t reason : string) (now : Z)
| OEscalate (t : string)
| OReclass (t : string) (k : option cls) (after : option string)
| OGone (t : string).

Definition lstep (L : ledger) (o : op) : ledger :=
  match o with
  | OReserve c d now => (reserve L c d now).1
  | ORelease tok => (release L tok).1
  | OSweep now => sweepReservations L now
  | OMayAllocate d => (mayAllocate L d).1
  | OAllocate t m d r now => (allocate L t m d r now).1
  | ONegotiating t now => (negotiating L t now).1
  | OOpen t now => (open L t now).1
  | OBind m n now => (bind L m n now).1
  | OUnbind m => unbind L m
  | OClosing t r now => (closing L t r now).1
  | OEscalate t => escalate_fire L t
  | OReclass t k a => (reclass L t k a).1
  | OGone t => (gone L t).1
  end.

(** States reached from a new ledger by operations the caller's discipline
    [ok] admits. *)
Inductive reach (o : ledger_opts) (ok : ledger → op → Prop) : ledger → Prop :=
| reach_new : reach o ok (new_ledger o)
| reach_op L x : reach o ok L → ok L x → reach o ok (lstep L x).

(** * Counting lemmas *)

Abbreviation b2z b := (if b then 1 else 0).

Lemma count_nonneg {V} (P : V → bool) m : 0 ≤ count P m.
Proof. apply jsum_nonneg. intros _ v. by destruct (P v). Qed.

Lemma count_jset_new {V} (P : V → bool) m t v :
  jget m t = None → count P (jset m t v) = count P m + b2z (P v).
Proof. intros Hn. unfold count. rewrite jsum_jset, Hn. lia. Qed.

Lemma count_jset {V} (P : V → bool) m t v v' :
  jget m t = Some v → count P (jset m t v') = count P m - b2z (P v) + b2z (P v').
Proof. intros Hn. unfold count. rewrite jsum_jset, Hn. lia. Qed.

Lemma count_jdel {V} (P : V → bool) m t v :
  jwf m → jget m t = Some v → count P (jdel m t) = count P m - b2z (P v).
Proof. intros Hw Hn. unfold count. by rewrite jsum_jdel, Hn. Qed.

Lemma count_le {V} (P Q : V → bool) m : (∀ v, P v = true → Q v = true) → count P m ≤ count Q m.
Proof.
  intros H. induction m as [|[k v] m IH]; [done|]. unfold count in *. simpl. specialize (H v).
  destruct (P v), (Q v); try lia; by specialize (H eq_refl).
Qed.

Lemma count_true {V} (P : V → bool) m : jwf m → (∀ t v, jget m t = Some v → P v = true) → count P m = jsize m.
Proof.
  intros Hw H. unfold count.
  rewrite (jsum_ext _ (λ _ _, 1)).
  - unfold jsize. clear. induction m as [|[k v] m IH]; simpl; lia.
  - intros t v Hin. rewrite (H t v); [done|]. by apply elem_jget.
Qed.

(** * The structural invariant *)

Record lwf (L : ledger) : Prop := {
  lw_chans : jwf (chans L); lw_res : jwf (res L); lw_peers : jwf (peers L);
  lw_pend : jwf (pendingReclass L);
  lw_chan : ∀ t c, jget (chans L) t = Some c → h_t c = t ∧ LIVE (h_state c) = true;
  lw_token : ∀ tok r, jget (res L) tok = Some r → ∃ n, tok = res_token n ∧ (n ≤ resSeq L)%N
}.

Definition rank (s : chan_state) : nat :=
  match s with ALLOCATED => 0 | NEGOTIATING => 1 | OPEN => 2 | CLOSING => 3 | GONE => 4 end.

(** What an operation on one channel may change of it. *)
Definition chan_moves (c c' : chan) : Prop :=
  h_t c' = h_t c ∧ h_meshId c' = h_meshId c ∧ h_dir c' = h_dir c ∧
  (rank (h_state c) ≤ rank (h_state c'))%nat ∧ LIVE (h_state c') = true.

(** The counters the accounting speaks of. *)
Definition acct (s : stat) : bool :=
  match s with
  | allocated | goneTotal | reserved | reservationsConsumed | reservationsReleased | reservationsExpired => true
  | _ => false
  end.

(** [L'] differs from [L] in one channel record at most ([R] relates the two
    versions), and in peers, tokens of signalling ids, and other counters. *)
Record touches (R : chan → chan → Prop) (L L' : ledger) : Prop := {
  to_cfg : cfg L' = cfg L; to_res : res L' = res L; to_resSeq : resSeq L' = resSeq L;
  to_peers : jwf (peers L) → jwf (peers L');
  to_pend : jwf (pendingReclass L) → jwf (pendingReclass L');
  to_stats : ∀ s, acct s = true → stats L' s = stats L s;
  to_chans : chans L' = chans L ∨
    ∃ t c c', jget (chans L) t = Some c ∧ chans L' = jset (chans L) t c' ∧ chan_moves c c' ∧ R c c'
}.

Definition same_cls (c c' : chan) : Prop := h_cls c' = h_cls c.

(** ** What each helper leaves alone *)

Lemma settlePeer_chans L n t : chans (settlePeer L n t) = chans L.
Proof. unfold settlePeer. by repeat case_match. Qed.
Lemma settlePeer_res L n t : res (settlePeer L n t) = res L.
Proof. unfold settlePeer. by repeat case_match. Qed.
Lemma settlePeer_resSeq L n t : resSeq (settlePeer L n t) = resSeq L.
Proof. unfold settlePeer. by repeat case_match. Qed.
Lemma settlePeer_cfg L n t : cfg (settlePeer L n t) = cfg L.
Proof. unfold settlePeer. by repeat case_match. Qed.
Lemma settlePeer_stats L n t : stats (settlePeer L n t) = stats L.
Proof. unfold settlePeer. by repeat case_match. Qed.
Lemma settlePeer_pend L n t : pendingReclass (settlePeer L n t) = pendingReclass L.
Proof. unfold settlePeer. by repeat case_match. Qed.
Lemma settlePeer_jwf L n t : jwf (peers L) → jwf (peers (settlePeer L n t)).
Proof. unfold settlePeer. intros. repeat case_match; simpl; auto with axona. Qed.

Lemma retire_token_eq L m t :
  ∃ tb, retire_token L m t = set_tBy L tb.
Proof. unfold retire_token. case_decide; [by eexists|exists (tByMeshId L); by destruct L]. Qed.

Create Rewrite HintDb ledger.
#[local] Hint Rewrite settlePeer_chans settlePeer_res settlePeer_resSeq settlePeer_cfg settlePeer_stats
  settlePeer_pend : ledger.

Lemma touches_refl R L : touches R L L.
Proof. by split; auto. Qed.

Lemma touches_bump R L s : acct s = false → touches R L (bump s L).
Proof.
  intros Hs. split; simpl; auto. intros s' Hs'. case_decide; [|done]. subst. congruence.
Qed.

Lemma touches_stale R L c : touches R L (stale_if_gone L c).1.
Proof.
  destruct c as [c|]; simpl; [case_decide|]; auto using touches_refl, touches_bump.
Qed.

Lemma jget_key_t L t c : lwf L → jget (chans L) t = Some c → h_t c = t.
Proof. intros H Hg. by apply (lw_chan _ H) in Hg as [? _]. Qed.

(** One channel record replaced. *)
Lemma touches_put R L c c' :
  lwf L → jget (chans L) (h_t c) = Some c → chan_moves c c' → R c c' → touches R L (put_chan L c').
Proof.
  intros Hw Hg Hm HR. split; simpl; auto.
  right. exists (h_t c), c, c'. destruct Hm as (Ht & Hm). rewrite Ht. split_and!; try done; apply Hm.
Qed.

(** Peers, signalling ids and uncounted statistics may change besides. *)
Lemma touches_weaken R L L1 L2 :
  touches R L L1 → cfg L2 = cfg L1 → res L2 = res L1 → resSeq L2 = resSeq L1 → chans L2 = chans L1 →
  (jwf (peers L1) → jwf (peers L2)) → pendingReclass L2 = pendingReclass L1 →
  (∀ s, acct s = true → stats L2 s = stats L1 s) → touches R L L2.
Proof.
  intros [] E1 E2 E3 E4 E5 E6 E7. split; rewrite ?E1, ?E2, ?E3, ?E4, ?E6; auto.
  intros s Hs. rewrite E7 by done. auto.
Qed.

Lemma chan_of_token_get L t c :
  lwf L → chan_of_token L t = Some c → t = Some (h_t c) ∧ jget (chans L) (h_t c) = Some c.
Proof.
  intros Hw. unfold chan_of_token. destruct t as [t|]; [|done]. case_decide; [done|]. intros Hg.
  pose proof (jget_key_t _ _ _ Hw Hg). by subst.
Qed.

Lemma newest_bound_spec m l c :
  newest_bound m l = Some c → (∃ t, (t, c) ∈ l) ∧ h_nodeId c ≠ None ∧ h_meshId c = m.
Proof.
  unfold newest_bound.
  assert (∀ acc, foldl (λ acc p, let o := p.2 in
    if bool_decide (h_meshId o = m) && bool_decide (h_nodeId o ≠ None) && LIVE (h_state o)
       && match acc with None => true | Some n => h_seq n <? h_seq o end
    then Some o else acc) acc l = Some c →
    acc = Some c ∨ ((∃ t, (t, c) ∈ l) ∧ h_nodeId c ≠ None ∧ h_meshId c = m)) as H.
  { induction l as [|[t o] l IH]; intros acc; cbn [foldl]; [by left|]. intros Hf.
    apply IH in Hf as [Hf|((t' & ?) & ? & ?)].
    - cbn [snd] in Hf. destruct (_ && _ && _ && _) eqn:E; [|by left]. simplify_eq.
      apply andb_true_iff in E as [E _]. apply andb_true_iff in E as [E _].
      apply andb_true_iff in E as [E1%bool_decide_eq_true E2%bool_decide_eq_true].
      right. split_and!; [exists t; by left|done|done].
    - right. split_and!; [exists t'; by right|done|done]. }
  intros Hf. by apply H in Hf as [?|?].
Qed.

(** The channel [unbind] clears. *)
Definition unbind_target (L : ledger) (meshId : string) : option chan :=
  let c := chan_of_token L (jget (tByMeshId L) meshId) in
  if match c with None => true | Some c => bool_decide (h_nodeId c = None) end
  then newest_bound meshId (chans L) else c.

Lemma unbind_target_spec L m c :
  lwf L → unbind_target L m = Some c → jget (chans L) (h_t c) = Some c ∧ h_nodeId c ≠ None.
Proof.
  intros Hw. unfold unbind_target.
  assert (∀ c, newest_bound m (chans L) = Some c → jget (chans L) (h_t c) = Some c ∧ h_nodeId c ≠ None) as Hn.
  { intros c0 ((t & Hin) & Hni & _)%newest_bound_spec. apply elem_jget in Hin; [|apply Hw].
    by rewrite (jget_key_t _ _ _ Hw Hin). }
  destruct (chan_of_token _ _) as [c0|] eqn:E; [|by apply Hn].
  case_bool_decide; [by apply Hn|]. intros [= ->]. by apply chan_of_token_get in E as [_ ?].
Qed.

Lemma live_moves L t c : lwf L → jget (chans L) t = Some c → LIVE (h_state c) = true.
Proof. intros Hw Hg. by apply (lw_chan _ Hw) in Hg as [_ ?]. Qed.

(** A record whose state did not change. *)
Lemma moves_same L t c c' :
  lwf L → jget (chans L) t = Some c → h_t c' = h_t c → h_meshId c' = h_meshId c → h_dir c' = h_dir c →
  h_state c' = h_state c → chan_moves c c'.
Proof.
  intros Hw Hg E1 E2 E3 E4. unfold chan_moves. rewrite E4. split_and!; try done.
  by eapply (live_moves L t).
Qed.

Lemma touch_negotiating L t now : lwf L → touches same_cls L (lstep L (ONegotiating t now)).
Proof.
  intros Hw. cbn [lstep]. unfold negotiating. destruct (jget (chans L) t) as [c|] eqn:E; [|apply touches_stale].
  case_decide as Hs; [|apply touches_stale]. pose proof (jget_key_t _ _ _ Hw E) as Ht.
  apply (touches_put _ _ c); [done|by rewrite Ht| |done]. split_and!; try done. simpl. rewrite Hs. simpl. lia.
Qed.

Lemma touch_open L t now : lwf L → touches same_cls L (lstep L (OOpen t now)).
Proof.
  intros Hw. cbn [lstep]. unfold open. destruct (jget (chans L) t) as [c|] eqn:E; [|apply touches_stale].
  destruct (PRE_OPEN (h_state c)) eqn:Hs; [|apply touches_stale]. pose proof (jget_key_t _ _ _ Hw E) as Ht.
  apply (touches_put _ _ c); [done|by rewrite Ht| |done]. split_and!; try done. simpl.
  destruct (h_state c); simpl in *; try done; lia.
Qed.

Lemma touch_bind L m n now : lwf L → touches same_cls L (lstep L (OBind m n now)).
Proof.
  intros Hw. cbn [lstep]. unfold bind. destruct (chan_of_token _ _) as [c|] eqn:E; [|by apply touches_bump].
  apply chan_of_token_get in E as [Ht Hg]; [|done]. destruct (POINTABLE _); [|by apply touches_bump].
  eapply touches_weaken; [apply (touches_put same_cls _ c (with_nodeId c (Some n)))|..]; try done.
  - apply (moves_same L (h_t c)); done.
  - simpl. auto with axona.
Qed.

Lemma touch_unbind L m : lwf L → touches same_cls L (lstep L (OUnbind m)).
Proof.
  intros Hw. cbn [lstep]. unfold unbind. fold (unbind_target L m).
  destruct (unbind_target L m) as [c|] eqn:E; [|apply touches_refl].
  apply unbind_target_spec in E as [Hg _]; [|done].
  eapply touches_weaken; [apply (touches_put same_cls _ c (with_nodeId c None))|..];
    try (by autorewrite with ledger); try done.
  - apply (moves_same L (h_t c)); done.
  - apply settlePeer_jwf.
Qed.

Lemma touch_escalate L t : lwf L → touches same_cls L (lstep L (OEscalate t)).
Proof.
  intros Hw. cbn [lstep]. unfold escalate_fire. destruct (jget (chans L) t) as [c|] eqn:E; [|apply touches_refl].
  destruct (h_timer c); [|apply touches_refl]. pose proof (jget_key_t _ _ _ Hw E) as Ht.
  assert (touches same_cls L (put_chan L (with_timer c false))) as Hp.
  { apply (touches_put _ _ c); [done|by rewrite Ht| |done]. apply (moves_same L t); done. }
  case_decide; [|done]. eapply touches_weaken; [exact Hp|done..|].
  intros s Hs. simpl. case_decide; [|done]. by subst.
Qed.

Lemma touch_closing L t r now : lwf L → touches same_cls L (lstep L (OClosing t r now)).
Proof.
  intros Hw. cbn [lstep]. unfold closing. destruct (jget (chans L) t) as [c|] eqn:E; [|apply touches_stale].
  destruct (_ || _) eqn:Hs; [apply touches_stale|]. pose proof (jget_key_t _ _ _ Hw E) as Ht.
  apply orb_false_iff in Hs as [Hs _]. apply bool_decide_eq_false in Hs.
  set (c1 := with_timer _ _).
  destruct (retire_token_eq (put_chan L c1) (h_meshId c1) t) as [tb ->]. cbn [fst].
  assert (touches same_cls L (set_tBy (put_chan L c1) tb)) as H1.
  { eapply touches_weaken; [apply (touches_put same_cls _ c c1)|..]; try done.
    - by rewrite Ht.
    - split_and!; try done. pose proof (live_moves _ _ _ Hw E). simpl.
      destruct (h_state c); simpl; try done; lia. }
  destruct (h_nodeId c1) as [n|]; [|done]. destruct (jget (peers _) n) as [p|]; [|done].
  case_decide; [|done].
  eapply touches_weaken; [exact H1|..]; try (by autorewrite with ledger).
  apply settlePeer_jwf.
Qed.

(** A class change is one the class had room for, when bounds are enforced. *)
Definition ok_cls (L : ledger) (c c' : chan) : Prop :=
  h_cls c' = h_cls c ∨
  ∃ k, h_cls c' = Some k ∧ (enforce (cfg L) = true → pool_full L k = false).

Lemma touches_mono (R R' : chan → chan → Prop) L L' :
  (∀ c c', R c c' → R' c c') → touches R L L' → touches R' L L'.
Proof. intros HR []. split; auto. destruct to_chans0 as [?|(?&?&?&?&?&?&?)]; [by left|right; eauto 10]. Qed.

Lemma same_ok_cls L L' : touches same_cls L L' → touches (ok_cls L) L L'.
Proof. apply touches_mono. intros. by left. Qed.

Lemma touch_reclass L t k a : lwf L → touches (ok_cls L) L (lstep L (OReclass t k a)).
Proof.
  intros Hw. cbn [lstep]. unfold reclass.
  destruct (jget (chans L) t) as [c|] eqn:E; [|by apply touches_bump].
  destruct (negb _); [by apply touches_bump|]. destruct k as [k|]; [|apply touches_refl].
  case_decide; [apply touches_refl|].
  set (w := if armed L && pool_full L k then _ else _).
  destruct (bool_decide (w ≠ None) && enforce (cfg L)) eqn:Ew.
  - case_match; [|by apply touches_bump].
    split; simpl; auto with axona. intros s Hs. case_decide; [by subst|done].
  - pose proof (jget_key_t _ _ _ Hw E) as Ht.
    eapply touches_weaken; [apply (touches_put (ok_cls L) L c (with_cls c (Some k)))|..]; try done.
    + by rewrite Ht.
    + by apply (moves_same L t).
    + right. exists k. split; [done|]. intros He. rewrite He, andb_true_r in Ew.
      apply bool_decide_eq_false in Ew. unfold w in Ew. destruct (pool_full L k) eqn:Ep; [|done].
      unfold armed, pool_full in *. destruct (pools (cfg L)); [|done]. simpl in Ew. exfalso. by apply Ew.
    + intros s Hs. simpl. case_decide; [by subst|done].
Qed.

Lemma touch_apply_pending g L p : lwf L → touches (ok_cls L) L (apply_pending_one g L p).
Proof.
  intros Hw. destruct p as [t q]. unfold apply_pending_one. case_decide; [apply touches_refl|].
  assert (∀ s, acct s = false → touches (ok_cls L) L (bump s (set_pend L (jdel (pendingReclass L) t)))) as Hb.
  { intros s Hs. split; simpl; auto with axona. intros s' Hs'. case_decide; [congruence|done]. }
  cbn [chans set_pend]. destruct (jget (chans L) t) as [c|] eqn:E; [|by apply Hb].
  destruct (negb _); [by apply Hb|].
  change (pool_full (set_pend L _) (pr_cls q)) with (pool_full L (pr_cls q)).
  change (armed (set_pend L _)) with (armed L).
  destruct (armed L && pool_full L (pr_cls q)) eqn:Ep; [by apply Hb|].
  pose proof (jget_key_t _ _ _ Hw E) as Ht.
  split; simpl; auto with axona.
  - intros s Hs. repeat case_decide; subst; done.
  - right. exists t, c, (with_cls c (Some (pr_cls q))). rewrite Ht. split_and!; try done.
    + by eapply moves_same.
    + right. exists (pr_cls q). split; [done|]. intros _. destruct (pool_full L _) eqn:Ef; [|done].
      unfold armed, pool_full in *. by destruct (pools (cfg L)).
Qed.

Lemma touches_lwf R L L' : touches R L L' → lwf L → lwf L'.
Proof.
  intros [E1 E2 E3 H4 H5 _ H7] Hw. destruct Hw as [W1 W2 W3 W4 W5 W6].
  split; rewrite ?E2, ?E3; auto.
  - destruct H7 as [->|(t & c & c' & _ & -> & _)]; auto with axona.
  - destruct H7 as [->|(t & c & c' & Hg & -> & (Ht & _ & _ & _ & Hl) & _)]; [done|].
    intros t' c1. rewrite jget_jset. case_decide; [|by apply W5]. intros [= <-]. subst t'.
    split; [|done]. rewrite Ht. by apply (W5 t c).
Qed.

Lemma res_token_inj n m : res_token n = res_token m → n = m.
Proof. unfold res_token. intros H. injection H as H. by apply pretty_N_inj in H. Qed.

(** ** The sweep of reservations *)

Definition res_kept (L : ledger) (now : Z) (tok : string) : option reserv :=
  r ← jget (res L) tok; if (0 <? reserveTtlMs (cfg L)) && res_expired L now r then None else Some r.

Lemma sweep_fold now l L :
  NoDup l.*1 → (∀ t r, (t, r) ∈ l → jget (res L) t = Some r) → jwf (res L) →
  let f := λ L p, if res_expired L now p.2 then bump reservationsExpired (set_res L (jdel (res L) p.1)) else L in
  let L' := foldl f L l in
  cfg L' = cfg L ∧ resSeq L' = resSeq L ∧ chans L' = chans L ∧ peers L' = peers L ∧
  tByMeshId L' = tByMeshId L ∧ pendingReclass L' = pendingReclass L ∧ jwf (res L') ∧
  (∀ t r, jget (res L') t = Some r → jget (res L) t = Some r ∧ (t ∈ l.*1 → res_expired L now r = false)) ∧
  (∀ P, count P (res L') ≤ count P (res L)) ∧
  (∀ s, acct s = true → s ≠ reservationsExpired → stats L' s = stats L s) ∧
  stats L' reservationsExpired + jsize (res L') = stats L reservationsExpired + jsize (res L).
Proof.
  revert L. induction l as [|[t r] l IH]; intros L Hnd Hin Hw f L'.
  { subst L' f. simpl. split_and!; auto; [|done]. intros t r ?. split; [done|]. by intros ?%elem_of_nil. }
  cbn [fmap list_fmap fst] in Hnd |- *. apply NoDup_cons in Hnd as [Hni Hnd].
  assert (jget (res L) t = Some r) as Hg by (apply Hin; by left).
  subst L'. cbn [foldl]. destruct (res_expired L now r) eqn:Ex.
  - assert (f L (t, r) = bump reservationsExpired (set_res L (jdel (res L) t))) as Ef by (unfold f; simpl; by rewrite Ex).
    rewrite Ef. destruct (IH (bump reservationsExpired (set_res L (jdel (res L) t))))
      as (E1 & E2 & E3 & E4 & E5 & E6 & E7 & E8 & E9 & E10 & E11); [done| |simpl; auto with axona|].
    { intros t' r' Hin'. simpl. rewrite jget_jdel_ne; [apply Hin; by right|].
      intros ->. apply Hni, list_elem_of_fmap. by exists (t', r'). }
    fold f in E1, E2, E3, E4, E5, E6, E7, E8, E9, E10, E11.
    split_and!; try done.
    + intros t' r' Hg'. apply E8 in Hg' as [Hg' Hx]. simpl in Hg'. rewrite jget_jdel in Hg'.
      case_decide; [done|]. split; [done|]. intros [?|?]%elem_of_cons; [congruence|]. by apply Hx.
    + intros P. etrans; [apply E9|]. simpl. rewrite (count_jdel _ _ _ r) by done. destruct (P r); lia.
    + intros s Hs Hne. rewrite E10 by done. simpl. by rewrite decide_False.
    + rewrite E11. simpl. rewrite jsize_jdel by done. unfold jhas. rewrite Hg. lia.
  - assert (f L (t, r) = L) as Ef by (unfold f; simpl; by rewrite Ex). rewrite Ef.
    destruct (IH L) as (E1 & E2 & E3 & E4 & E5 & E6 & E7 & E8 & E9 & E10 & E11); [done| |done|].
    { intros t' r' Hin'. apply Hin. by right. }
    fold f in E1, E2, E3, E4, E5, E6, E7, E8, E9, E10, E11.
    split_and!; try done. intros t' r' Hg'. apply E8 in Hg' as [Hg' Hx]. split; [done|].
    intros [->|?]%elem_of_cons; [congruence|auto].
Qed.

(** What the sweep guarantees. *)
Record swept (L L' : ledger) : Prop := {
  sw_cfg : cfg L' = cfg L; sw_resSeq : resSeq L' = resSeq L; sw_chans : chans L' = chans L;
  sw_peers : peers L' = peers L; sw_tBy : tByMeshId L' = tByMeshId L;
  sw_pend : pendingReclass L' = pendingReclass L; sw_jwf : jwf (res L');
  sw_get : ∀ t r, jget (res L') t = Some r → jget (res L) t = Some r;
  sw_count : ∀ P, count P (res L') ≤ count P (res L);
  sw_stats : ∀ s, acct s = true → s ≠ reservationsExpired → stats L' s = stats L s;
  sw_acct : stats L' reservationsExpired + jsize (res L') = stats L reservationsExpired + jsize (res L)
}.

Lemma sweep_swept L now : lwf L → swept L (sweepReservations L now).
Proof.
  intros Hw. pose proof (lw_res _ Hw) as Hr. unfold sweepReservations. case_match; [by split|].
  destruct (sweep_fold now (res L) L) as (? & ? & ? & ? & ? & ? & ? & H8 & ? & ? & ?); [done| |done|].
  { intros. by apply elem_jget. }
  split; try done. intros t r Hg. by apply H8.
Qed.

Lemma swept_lwf L L' : swept L L' → lwf L → lwf L'.
Proof.
  intros Hs [W1 W2 W3 W4 W5 W6].
  split; rewrite ?(sw_chans _ _ Hs), ?(sw_peers _ _ Hs), ?(sw_pend _ _ Hs), ?(sw_resSeq _ _ Hs); auto.
  - apply Hs.
  - intros tok r Hg. by apply W6 with r, (sw_get _ _ Hs).
Qed.

Lemma jsize_count {V} (m : jmap string V) : jsize m = count (λ _, true) m.
Proof. unfold jsize, count. induction m as [|[k v] m IH]; simpl; lia. Qed.

(** ** Reservations issued *)

Definition add_res (L : ledger) (r : reserv) : ledger :=
  mk_ledger (cfg L) (jset (res L) (res_token (resSeq L + 1)) r) (resSeq L + 1) (chans L)
    (tByMeshId L) (peers L) (seq L) (stats L) (pendingReclass L).

Lemma token_fresh L : lwf L → jget (res L) (res_token (resSeq L + 1)) = None.
Proof.
  intros Hw. destruct (jget (res L) _) as [r|] eqn:E; [|done].
  apply (lw_token _ Hw) in E as (n & Heq%res_token_inj & ?). lia.
Qed.

Lemma count_refusal_eq L h k d :
  ∃ st, count_refusal L h k d =
    mk_ledger (cfg L) (res L) (resSeq L) (chans L) (tByMeshId L) (peers L) (seq L) st (pendingReclass L) ∧
    ∀ s, acct s = true → st s = stats L s.
Proof.
  unfold count_refusal. destruct k as [[]|], d, h; (eexists; split; [reflexivity|]);
    intros s Hs; simpl; repeat case_decide; by subst.
Qed.

(** [reserve] either refuses, having only swept and counted, or adds one
    reservation of the class and direction asked for. *)
Lemma reserve_cases L c d now :
  lwf L → let S0 := sweepReservations L now in let k := res_class L c d in
  ∃ L1, cfg L1 = cfg L ∧ res L1 = res S0 ∧ resSeq L1 = resSeq L ∧ chans L1 = chans L ∧
    peers L1 = peers L ∧ tByMeshId L1 = tByMeshId L ∧ pendingReclass L1 = pendingReclass L ∧
    seq L1 = seq S0 ∧
    (∀ s, acct s = true → stats L1 s = stats S0 s) ∧
    ((enforce (cfg L) = true ∧ reserve_why S0 k d ≠ None ∧
      reserve L c d now = (L1, (None, reserve_why S0 k d))) ∨
     ((enforce (cfg L) = true → reserve_why S0 k d = None) ∧
      reserve L c d now = (bump reserved (add_res L1 (mk_reserv k d now (resSeq L + 1)%N)),
                           (Some (res_token (resSeq L + 1)%N), reserve_why S0 k d)))).
Proof.
  intros Hw S0 k. pose proof (sweep_swept L now Hw) as Hs. fold S0 in Hs.
  unfold reserve. fold S0. assert (res_class S0 c d = k) as ->.
  { unfold k, res_class, armed. by rewrite (sw_cfg _ _ Hs). }
  rewrite (sw_cfg _ _ Hs). destruct (reserve_why S0 k d) as [w|] eqn:Ew; simpl.
  - destruct (enforce (cfg L)) eqn:Ee.
    + destruct (count_refusal_eq S0 true k d) as (st & -> & Hst).
      eexists. split_and!; [..|left; split_and!; done]; try apply Hs; try done. 
    + destruct (count_refusal_eq S0 false k d) as (st & -> & Hst).
      eexists (mk_ledger _ _ _ _ _ _ _ st _). split_and!; [..|right; split; [done|]]; try apply Hs; try done.
      unfold add_res. simpl. by rewrite (sw_resSeq _ _ Hs).
  - exists S0. split_and!; [..|right; split; [done|]]; try apply Hs; try done.
    unfold add_res. by rewrite (sw_resSeq _ _ Hs).
Qed.

(** ** Closing: the record leaves, then the waiting transfers apply *)

(** The ledger once the record of [t] is gone, before the waiting transfers. *)
Definition gone_mid (L : ledger) (t : string) (c : chan) : ledger :=
  let L := retire_token L (h_meshId c) t in
  let L := settlePeer (set_chans (bump goneTotal L) (jdel (chans L) t)) (h_nodeId c) t in
  set_pend L (jdel (pendingReclass L) t).

Lemma gone_eq L t c :
  jget (chans L) t = Some c → h_state c ≠ GONE →
  (gone L t).1 = foldl (apply_pending_one t) (gone_mid L t c) (pendingReclass (gone_mid L t c)).
Proof. intros Hg Hs. unfold gone. rewrite Hg, decide_False by done. done. Qed.

Lemma gone_mid_spec L t c :
  let M := gone_mid L t c in
  cfg M = cfg L ∧ res M = res L ∧ resSeq M = resSeq L ∧ chans M = jdel (chans L) t ∧
  (jwf (peers L) → jwf (peers M)) ∧ (jwf (pendingReclass L) → jwf (pendingReclass M)) ∧
  (∀ s, acct s = true → s ≠ goneTotal → stats M s = stats L s) ∧
  stats M goneTotal = stats L goneTotal + 1.
Proof.
  intros M. unfold M, gone_mid. destruct (retire_token_eq L (h_meshId c) t) as [tb ->].
  cbn [cfg res resSeq chans peers pendingReclass stats set_pend]. autorewrite with ledger.
  split_and!; try done.
  - intros. apply settlePeer_jwf. done.
  - simpl. auto with axona.
  - intros s Hs Hne. simpl. by rewrite decide_False.
Qed.

Lemma gone_mid_lwf L t c : lwf L → lwf (gone_mid L t c).
Proof.
  intros [W1 W2 W3 W4 W5 W6]. destruct (gone_mid_spec L t c) as (E1 & E2 & E3 & E4 & E5 & E6 & _).
  split; rewrite ?E2, ?E3, ?E4; auto with axona.
  intros t' c'. rewrite jget_jdel. case_decide; [done|]. apply W5.
Qed.

(** A property every single-record change keeps is kept by the transfers. *)
Lemma apply_all_ind (P : ledger → Prop) g l L :
  (∀ L L', lwf L → touches (ok_cls L) L L' → P L → P L') → lwf L → P L →
  P (foldl (apply_pending_one g) L l) ∧ lwf (foldl (apply_pending_one g) L l).
Proof.
  intros HP. revert L. induction l as [|p l IH]; intros L Hw H; [done|]. cbn [foldl].
  pose proof (touch_apply_pending g L p Hw) as Ht.
  apply IH; [by eapply touches_lwf|by eapply HP].
Qed.

(** ** Well-formedness *)

Lemma allocate_lwf L t m d r now : lwf L → lwf (lstep L (OAllocate t m d r now)).
Proof.
  intros Hw. cbn [lstep]. unfold allocate. destruct (jget (chans L) t) as [c|] eqn:E; [by destruct Hw|].
  assert (∀ L1 k b, lwf L1 → jget (chans L1) t = None →
    lwf (if armed L1 && negb b then (bump allocUnreserved L1, None)
         else let rec := mk_chan t m d k ALLOCATED now 0 0 0 None None false (seq L1 + 1) in
              (bump allocated (mk_ledger (cfg L1) (res L1) (resSeq L1) (jset (chans L1) t rec)
                 (jset (tByMeshId L1) m t) (peers L1) (seq L1 + 1) (stats L1) (pendingReclass L1)), Some rec)).1) as H.
  { intros L1 k b [W1 W2 W3 W4 W5 W6] Hg. case_match; [by split|]. split; simpl; auto with axona.
    intros t' c'. rewrite jget_jset. case_decide; [|by apply W5]. intros [= <-]. by subst. }
  destruct r as [tok|]; [|by apply H].
  destruct (jget (res L) tok) as [r|] eqn:Er.
  - apply H; [|done]. destruct Hw as [W1 W2 W3 W4 W5 W6]. split; simpl; auto with axona.
    intros tok' r'. rewrite jget_jdel. case_decide; [done|]. apply W6.
  - apply H; [|done]. by destruct Hw.
Qed.

Lemma add_res_lwf L L1 r :
  lwf L1 → resSeq L1 = resSeq L → lwf (bump reserved (add_res L1 r)).
Proof.
  intros [W1 W2 W3 W4 W5 W6] Hs. split; simpl; auto with axona.
  intros tok r'. rewrite jget_jset. case_decide; [intros _; subst; exists (resSeq L1 + 1)%N; split; [done|lia]|].
  intros (n & ? & ?)%W6. exists n. split; [done|lia].
Qed.

Lemma eq_lwf L L' :
  chans L' = chans L → res L' = res L → peers L' = peers L → pendingReclass L' = pendingReclass L →
  resSeq L' = resSeq L → lwf L → lwf L'.
Proof. intros E1 E2 E3 E4 E5 []. by split; rewrite ?E1, ?E2, ?E3, ?E4, ?E5. Qed.

Lemma lstep_lwf L o : lwf L → lwf (lstep L o).
Proof.
  intros Hw. destruct o.
  - pose proof (swept_lwf _ _ (sweep_swept L now Hw) Hw) as Hs. pose proof (sweep_swept L now Hw) as Hsw.
    destruct (reserve_cases L c d now Hw) as (L1 & E1 & E2 & E3 & E4 & E5 & E6 & E7 & _ & _ & Hr).
    assert (lwf L1) as H1.
    { apply (eq_lwf (sweepReservations L now)); try done;
        rewrite ?(sw_chans _ _ Hsw), ?(sw_peers _ _ Hsw), ?(sw_pend _ _ Hsw), ?(sw_resSeq _ _ Hsw); done. }
    cbn [lstep]. destruct Hr as [(_ & _ & ->)|(_ & ->)]; [done|]. by apply (add_res_lwf L).
  - cbn [lstep]. unfold release. destruct token as [tok|]; [|done]. case_match; [|by destruct Hw].
    destruct Hw as [W1 W2 W3 W4 W5 W6]. split; simpl; auto with axona.
    intros t r. rewrite jget_jdel. case_decide; [done|]. apply W6.
  - by eapply swept_lwf, Hw; apply sweep_swept.
  - cbn [lstep]. unfold mayAllocate. repeat case_match; by destruct Hw.
  - by apply allocate_lwf.
  - by eapply touches_lwf, Hw; apply touch_negotiating.
  - by eapply touches_lwf, Hw; apply touch_open.
  - by eapply touches_lwf, Hw; apply touch_bind.
  - by eapply touches_lwf, Hw; apply touch_unbind.
  - by eapply touches_lwf, Hw; apply touch_closing.
  - by eapply touches_lwf, Hw; apply touch_escalate.
  - by eapply touches_lwf, Hw; apply touch_reclass.
  - cbn [lstep]. destruct (jget (chans L) t) as [c|] eqn:E.
    + rewrite (gone_eq L t c E).
      * apply (apply_all_ind (λ _, True)); [done|by apply gone_mid_lwf|done].
      * intros Hg. apply (lw_chan _ Hw) in E as [_ E]. by rewrite Hg in E.
    + unfold gone. rewrite E. by destruct Hw.
Qed.

Lemma new_ledger_lwf o : lwf (new_ledger o).
Proof. split; simpl; auto with axona; done. Qed.

Lemma reach_lwf o ok L : reach o ok L → lwf L.
Proof. induction 1; auto using new_ledger_lwf, lstep_lwf. Qed.

Lemma lstep_cfg L x : lwf L → cfg (lstep L x) = cfg L.
Proof.
  intros Hw. destruct x.
  - destruct (reserve_cases L c d now Hw) as (L1 & E1 & _ & _ & _ & _ & _ & _ & _ & _ & Hc).
    cbn [lstep]. by destruct Hc as [(_ & _ & ->)|(_ & ->)].
  - cbn [lstep]. unfold release. by repeat case_match.
  - by apply sweep_swept.
  - cbn [lstep]. unfold mayAllocate. by repeat case_match.
  - cbn [lstep]. unfold allocate. destruct (jget (chans L) t); [done|].
    destruct reservation as [tok|]; [destruct (jget (res L) tok)|]; by destruct (_ && _).
  - by apply (to_cfg same_cls), touch_negotiating.
  - by apply (to_cfg same_cls), touch_open.
  - by apply (to_cfg same_cls), touch_bind.
  - by apply (to_cfg same_cls), touch_unbind.
  - by apply (to_cfg same_cls), touch_closing.
  - by apply (to_cfg same_cls), touch_escalate.
  - by apply (to_cfg (ok_cls L)), touch_reclass.
  - cbn [lstep]. destruct (jget (chans L) t) as [c|] eqn:E; [|unfold gone; by rewrite E].
    rewrite (gone_eq L t c E) by (intros Hg; apply (lw_chan _ Hw) in E as [_ E]; by rewrite Hg in E).
    apply (apply_all_ind (λ M, cfg M = cfg L)); [intros ? ? _ [] ?; congruence|by apply gone_mid_lwf|].
    apply gone_mid_spec.
Qed.

Lemma reach_cfg o ok L : reach o ok L → cfg L = parse_config o.
Proof.
  induction 1 as [|L x Hr IH _]; [done|]. rewrite <-IH. by eapply lstep_cfg, reach_lwf.
Qed.

(** ** The bounds *)

(** Physical and per-class capacity, charges and reservations together. *)
Definition bounded (p : profile) (L : ledger) : Prop :=
  chanAll L + reservedAll L ≤ cPhys (cfg L) ∧
  ∀ k, chargedOf L (Some k) + reservedOf L (Some k) ≤ pool_bound p k.

Definition charges (k : cls) (c : chan) : bool := LIVE (h_state c) && bool_decide (h_cls c = Some k).

Lemma touches_bounded p L L' :
  lwf L → pools (cfg L) = Some p → enforce (cfg L) = true →
  touches (ok_cls L) L L' → bounded p L → bounded p L'.
Proof.
  intros Hw Hp He [E1 E2 _ _ _ _ H7] [B1 B2]. unfold bounded, chanAll, chargedOf, reservedAll, reservedOf in *.
  rewrite E1, E2. destruct H7 as [->|(t & c & c' & Hg & -> & (_ & _ & _ & _ & Hl) & Hk)]; [done|].
  pose proof (live_moves _ _ _ Hw Hg) as Hl0. split.
  - rewrite (count_jset _ _ _ c) by done. rewrite Hl, Hl0. lia.
  - intros k. specialize (B2 k). rewrite (count_jset _ _ _ c) by done. rewrite Hl, Hl0. simpl.
    destruct Hk as [->|(k' & -> & Hf)]; [lia|]. specialize (Hf He). unfold pool_full in Hf.
    rewrite Hp in Hf. zb. unfold chargedOf, reservedOf in Hf.
    repeat case_bool_decide; simplify_eq; lia.
Qed.

Lemma reserved_le L k : reservedOf L k ≤ reservedAll L.
Proof. unfold reservedOf, reservedAll. rewrite jsize_count. by apply count_le. Qed.

Lemma lstep_bounded p L x :
  lwf L → pools (cfg L) = Some p → enforce (cfg L) = true → bounded p L → bounded p (lstep L x).
Proof.
  intros Hw Hp He Hb. pose proof (λ L', touches_bounded p L L' Hw Hp He) as Ht.
  destruct x; try (apply Ht; [|done]; try apply same_ok_cls;
    auto using touch_negotiating, touch_open, touch_bind, touch_unbind, touch_closing, touch_escalate, touch_reclass;
    fail).
  - destruct (reserve_cases L c d now Hw) as (L1 & E1 & E2 & E3 & E4 & _ & _ & _ & _ & _ & Hc).
    pose proof (sweep_swept L now Hw) as Hs. pose proof (sw_count _ _ Hs) as Hle.
    destruct Hb as [B1 B2]. cbn [lstep]. destruct Hc as [(_ & _ & ->)|(Hwhy & ->)]; cbn [fst].
    + unfold bounded, chanAll, chargedOf, reservedAll, reservedOf in *. rewrite E1, E2, E4.
      pose proof (Hle (λ _, true)) as H0. rewrite <-!jsize_count in H0. split; [lia|].
      intros k. specialize (B2 k). specialize (Hle (λ r, bool_decide (r_cls r = Some k))). lia.
    + specialize (Hwhy He). unfold reserve_why in Hwhy. rewrite (sw_cfg _ _ Hs) in Hwhy.
      destruct (cPhys _ <=? _) eqn:Eph; [done|]. zb.
      destruct (match res_class L c d with Some k => pool_full _ k | None => false end) eqn:Epool.
      { by destruct (res_class L c d). }
      assert (jget (res L1) (res_token (resSeq L1 + 1)) = None) as Hfr.
      { rewrite E2, E3. destruct (jget _ _) as [r|] eqn:E; [|done]. apply (sw_get _ _ Hs) in E.
        by rewrite token_fresh in E. }
      split.
      * unfold chanAll, reservedAll in *. cbn [chans cfg res bump bump_by add_res].
        rewrite jsize_jset. unfold jhas. rewrite Hfr, E1, E2, E4, <-(sw_chans _ _ Hs). lia.
      * intros k. specialize (B2 k). specialize (Hle (λ r, bool_decide (r_cls r = Some k))).
        unfold chargedOf, reservedOf in *. cbn [chans cfg res bump bump_by add_res].
        rewrite count_jset_new by done. rewrite E2, E4. cbn [r_cls].
        destruct (decide (res_class L c d = Some k)) as [Hk|Hk];
          [rewrite bool_decide_true by done|rewrite bool_decide_false by done; lia].
        rewrite Hk in Epool. unfold pool_full in Epool.
        rewrite (sw_cfg _ _ Hs), Hp in Epool. zb. unfold chargedOf, reservedOf in Epool.
        rewrite (sw_chans _ _ Hs) in Epool. lia.
  - cbn [lstep]. unfold release. destruct token as [tok|]; [|done]. case_match eqn:Ej; [|done].
    apply jhas_true in Ej as [r Hr]. destruct Hb as [B1 B2]. pose proof (lw_res _ Hw) as Hwr.
    unfold bounded, chanAll, chargedOf, reservedAll, reservedOf in *. simpl. split.
    + pose proof (jsize_jdel_le (res L) tok). lia.
    + intros k. specialize (B2 k). rewrite (count_jdel _ _ _ r) by done. case_match; lia.
  - pose proof (sweep_swept L now Hw) as Hs. pose proof (sw_count _ _ Hs) as Hle.
    destruct Hb as [B1 B2]. cbn [lstep].
    unfold bounded, chanAll, chargedOf, reservedAll, reservedOf in *. rewrite (sw_cfg _ _ Hs), (sw_chans _ _ Hs).
    pose proof (Hle (λ _, true)) as H0. rewrite <-!jsize_count in H0. split; [lia|].
    intros k. specialize (B2 k). specialize (Hle (λ r, bool_decide (r_cls r = Some k))). lia.
  - cbn [lstep]. unfold mayAllocate. by repeat case_match.
  - cbn [lstep]. unfold allocate. destruct (jget (chans L) t) eqn:Eg; [done|].
    assert (armed L = true) as Ha by (unfold armed; by rewrite Hp).
    destruct reservation as [tok|]; [destruct (jget (res L) tok) as [r|] eqn:Er|].
    + change (armed (bump reservationsConsumed (set_res L (jdel (res L) tok)))) with (armed L).
      rewrite Ha. destruct Hb as [B1 B2]. pose proof (lw_res _ Hw) as Hwr.
      unfold bounded, chanAll, chargedOf, reservedAll, reservedOf in *. simpl. split.
      * rewrite count_jset_new by done. rewrite jsize_jdel by done. unfold jhas. rewrite Er. simpl. lia.
      * intros k. specialize (B2 k). rewrite count_jset_new by done. rewrite (count_jdel _ _ _ r) by done.
        simpl. case_bool_decide; lia.
    + change (armed (bump staleEvent L)) with (armed L). rewrite Ha. done.
    + rewrite Ha. done.
  - apply Ht; [by apply touch_reclass|done].
  - cbn [lstep]. destruct (jget (chans L) t) as [c|] eqn:E; [|unfold gone; by rewrite E].
    rewrite (gone_eq L t c E) by (intros Hg; apply (lw_chan _ Hw) in E as [_ E]; by rewrite Hg in E).
    destruct (gone_mid_spec L t c) as (E1 & E2 & E3 & E4 & _).
    apply (apply_all_ind (λ M, cfg M = cfg L ∧ bounded p M)).
    + intros M M' HM HT [Hc HB]. pose proof (to_cfg _ _ _ HT). split; [congruence|].
      eapply touches_bounded; try done; by rewrite Hc.
    + by apply gone_mid_lwf.
    + split; [done|]. destruct Hb as [B1 B2]. pose proof (lw_chans _ Hw).
      unfold bounded, chanAll, chargedOf, reservedAll, reservedOf in *. rewrite E1, E2, E4. split.
      * rewrite (count_jdel _ _ _ c) by done. case_match; lia.
      * intros k. specialize (B2 k). rewrite (count_jdel _ _ _ c) by done. case_match; lia.
Qed.

(** ** The attempt bound *)

(** A reservation is consumed by a channel of its own direction. *)
Definition dir_ok (L : ledger) (x : op) : Prop :=
  match x with
  | OAllocate _ _ d (Some tok) _ => ∀ r, jget (res L) tok = Some r → r_dir r = d
  | _ => True
  end.

Definition attempts_bounded (L : ledger) : Prop :=
  chanOutboundPending L + reservedDirOf L DirOut ≤ pPending (cfg L).

Definition is_attempt (c : chan) : bool := bool_decide (h_dir c = DirOut) && PRE_OPEN (h_state c).

Lemma moves_attempt c c' : chan_moves c c' → is_attempt c' = true → is_attempt c = true.
Proof.
  intros (_ & _ & Hd & Hr & _). unfold is_attempt. rewrite Hd.
  destruct (bool_decide _); [|done]. destruct (h_state c), (h_state c'); simpl in *; done || lia.
Qed.

Lemma touches_attempts R L L' : touches R L L' → attempts_bounded L → attempts_bounded L'.
Proof.
  intros [E1 E2 _ _ _ _ H7] Hb. unfold attempts_bounded, chanOutboundPending, reservedDirOf in *.
  fold is_attempt in *. rewrite E1, E2. destruct H7 as [->|(t & c & c' & Hg & -> & Hm & _)]; [done|].
  rewrite (count_jset _ _ _ c) by done. pose proof (moves_attempt _ _ Hm).
  destruct (is_attempt c'); [|destruct (is_attempt c); lia].
  rewrite (H eq_refl). lia.
Qed.

Lemma lstep_attempts p L x :
  lwf L → pools (cfg L) = Some p → enforce (cfg L) = true → dir_ok L x →
  attempts_bounded L → attempts_bounded (lstep L x).
Proof.
  intros Hw Hp He Hok Hb. destruct x;
    try (eapply touches_attempts, Hb; auto using touch_negotiating, touch_open, touch_bind, touch_unbind,
      touch_closing, touch_escalate; fail).
  - destruct (reserve_cases L c d now Hw) as (L1 & E1 & E2 & E3 & E4 & _ & _ & _ & _ & _ & Hc).
    pose proof (sweep_swept L now Hw) as Hs.
    pose proof (sw_count _ _ Hs (λ r, bool_decide (r_dir r = DirOut))) as Hle.
    cbn [lstep]. unfold attempts_bounded, chanOutboundPending, reservedDirOf in *.
    destruct Hc as [(_ & _ & ->)|(Hwhy & ->)]; cbn [fst].
    + rewrite E1, E2, E4. lia.
    + specialize (Hwhy He). unfold reserve_why in Hwhy. rewrite (sw_cfg _ _ Hs) in Hwhy.
      destruct (cPhys _ <=? _); [done|].
      destruct (match res_class L c d with Some k => pool_full _ k | None => false end) eqn:Epool.
      { by destruct (res_class L c d). }
      assert (jget (res L1) (res_token (resSeq L1 + 1)) = None) as Hfr.
      { rewrite E2, E3. destruct (jget _ _) as [r|] eqn:E; [|done]. apply (sw_get _ _ Hs) in E.
        by rewrite token_fresh in E. }
      cbn [chans cfg res bump bump_by add_res]. rewrite count_jset_new by done. rewrite E1, E2, E4.
      cbn [r_dir]. destruct d; simpl in *; [lia|]. destruct (pPending _ <=? _) eqn:Epp; [done|]. zb.
      unfold chanOutboundPending, reservedDirOf in Epp. rewrite (sw_chans _ _ Hs) in Epp. lia.
  - cbn [lstep]. unfold release. destruct token as [tok|]; [|done]. case_match eqn:Ej; [|done].
    apply jhas_true in Ej as [r Hr]. pose proof (lw_res _ Hw) as Hwr.
    unfold attempts_bounded, chanOutboundPending, reservedDirOf in *. simpl.
    rewrite (count_jdel _ _ _ r) by done. case_match; lia.
  - pose proof (sweep_swept L now Hw) as Hs.
    pose proof (sw_count _ _ Hs (λ r, bool_decide (r_dir r = DirOut))) as Hle. cbn [lstep].
    unfold attempts_bounded, chanOutboundPending, reservedDirOf in *.
    rewrite (sw_cfg _ _ Hs), (sw_chans _ _ Hs). lia.
  - cbn [lstep]. unfold mayAllocate. by repeat case_match.
  - cbn [lstep]. unfold allocate. destruct (jget (chans L) t) eqn:Eg; [done|].
    assert (armed L = true) as Ha by (unfold armed; by rewrite Hp).
    destruct reservation as [tok|]; [destruct (jget (res L) tok) as [r|] eqn:Er|].
    + change (armed (bump reservationsConsumed (set_res L (jdel (res L) tok)))) with (armed L).
      rewrite Ha. pose proof (lw_res _ Hw) as Hwr. specialize (Hok r Er). subst d.
      unfold attempts_bounded, chanOutboundPending, reservedDirOf in *. simpl.
      rewrite count_jset_new by done. rewrite (count_jdel _ _ _ r) by done. simpl.
      destruct (r_dir r); simpl; lia.
    + change (armed (bump staleEvent L)) with (armed L). rewrite Ha. done.
    + rewrite Ha. done.
  - by eapply touches_attempts, Hb; apply touch_reclass.
  - cbn [lstep]. destruct (jget (chans L) t) as [c|] eqn:E; [|unfold gone; by rewrite E].
    rewrite (gone_eq L t c E) by (intros Hg; apply (lw_chan _ Hw) in E as [_ E]; by rewrite Hg in E).
    destruct (gone_mid_spec L t c) as (E1 & E2 & E3 & E4 & _).
    apply (apply_all_ind attempts_bounded).
    + intros M M' HM HT. by eapply touches_attempts.
    + by apply gone_mid_lwf.
    + pose proof (lw_chans _ Hw). unfold attempts_bounded, chanOutboundPending, reservedDirOf in *.
      rewrite E1, E2, E4, (count_jdel _ _ _ c) by done. case_match; lia.
Qed.

(** ** Accounting *)

Definition accounted (L : ledger) : Prop :=
  stats L reserved = stats L reservationsConsumed + stats L reservationsReleased
                     + stats L reservationsExpired + jsize (res L) ∧
  stats L allocated = stats L goneTotal + jsize (chans L).

Lemma touches_accounted R L L' : touches R L L' → accounted L → accounted L'.
Proof.
  intros [_ E2 _ _ _ Es H7] [A1 A2]. unfold accounted. rewrite E2, !Es by done. split; [done|].
  destruct H7 as [->|(t & c & c' & Hg & -> & _)]; [done|]. rewrite jsize_jset. unfold jhas. rewrite Hg. lia.
Qed.

Lemma lstep_accounted L x : lwf L → accounted L → accounted (lstep L x).
Proof.
  intros Hw Ha. destruct x;
    try (eapply touches_accounted, Ha; auto using touch_negotiating, touch_open, touch_bind, touch_unbind,
      touch_closing, touch_escalate; fail).
  - destruct (reserve_cases L c d now Hw) as (L1 & E1 & E2 & E3 & E4 & _ & _ & _ & _ & E9 & Hc).
    pose proof (sweep_swept L now Hw) as Hs. destruct Ha as [A1 A2].
    pose proof (sw_acct _ _ Hs). pose proof (sw_stats _ _ Hs) as Hst.
    assert (accounted L1) as [B1 B2].
    { unfold accounted. rewrite !E9, E2, E4 by done. rewrite (Hst reserved), (Hst reservationsConsumed), (Hst reservationsReleased), (Hst allocated),
        (Hst goneTotal) by done. lia. }
    cbn [lstep]. destruct Hc as [(_ & _ & ->)|(_ & ->)]; [done|].
    unfold accounted. simpl. rewrite jsize_jset. unfold jhas. assert (jget (res L1) (res_token (resSeq L1 + 1)) = None) as ->.
    { rewrite E2, E3. destruct (jget _ _) as [r|] eqn:E; [|done]. apply (sw_get _ _ Hs) in E.
      by rewrite token_fresh in E. }
    lia.
  - cbn [lstep]. unfold release. destruct token as [tok|]; [|done]. destruct Ha as [A1 A2].
    case_match eqn:Ej; [|by split]. pose proof (lw_res _ Hw).
    unfold accounted. simpl. rewrite jsize_jdel, Ej by done. lia.
  - pose proof (sweep_swept L now Hw) as Hs. destruct Ha as [A1 A2]. cbn [lstep].
    pose proof (sw_acct _ _ Hs). pose proof (sw_stats _ _ Hs) as Hst.
    unfold accounted. rewrite (Hst reserved), (Hst reservationsConsumed), (Hst reservationsReleased),
      (Hst allocated), (Hst goneTotal) by done. rewrite (sw_chans _ _ Hs). lia.
  - cbn [lstep]. unfold mayAllocate. destruct Ha. repeat case_match; by split.
  - cbn [lstep]. unfold allocate. destruct (jget (chans L) t) eqn:Eg; [by destruct Ha|].
    destruct Ha as [A1 A2]. pose proof (lw_res _ Hw).
    destruct reservation as [tok|]; [destruct (jget (res L) tok) as [r|] eqn:Er|];
      (destruct (_ && _); unfold accounted; simpl; rewrite ?jsize_jset, ?jsize_jdel by done;
       unfold jhas; rewrite ?Eg, ?Er; lia).
  - by eapply touches_accounted, Ha; apply touch_reclass.
  - cbn [lstep]. destruct (jget (chans L) t) as [c|] eqn:E; [|unfold gone; rewrite E; by destruct Ha].
    rewrite (gone_eq L t c E) by (intros Hg; apply (lw_chan _ Hw) in E as [_ E]; by rewrite Hg in E).
    destruct (gone_mid_spec L t c) as (E1 & E2 & E3 & E4 & _ & _ & E7 & E8).
    apply (apply_all_ind accounted).
    + intros M M' HM HT. by eapply touches_accounted.
    + by apply gone_mid_lwf.
    + destruct Ha as [A1 A2]. pose proof (lw_chans _ Hw). unfold accounted.
      rewrite E2, E4, E8, !E7, jsize_jdel by done. unfold jhas. rewrite E. lia.
Qed.

(** ** Lifecycle *)

(** Every operation but the confirmation of [t]'s own close leaves the record
    of [t] in place, and its state never goes back. *)
Lemma touches_lifecycle R L L' t c :
  lwf L → touches R L L' → jget (chans L) t = Some c → ∃ c', jget (chans L') t = Some c' ∧ chan_moves c c'.
Proof.
  intros Hw [_ _ _ _ _ _ H7] Hg. destruct H7 as [->|(t' & c0 & c' & Hg' & -> & Hm & _)].
  - exists c. split; [done|]. by eapply moves_same.
  - rewrite jget_jset. case_decide; [|exists c; split; [done|by eapply moves_same]].
    subst. simplify_eq. eauto.
Qed.

Lemma chan_moves_trans c1 c2 c3 : chan_moves c1 c2 → chan_moves c2 c3 → chan_moves c1 c3.
Proof. unfold chan_moves. intuition (congruence || lia). Qed.

Lemma lstep_lifecycle L x t c :
  lwf L → jget (chans L) t = Some c → x ≠ OGone t →
  ∃ c', jget (chans (lstep L x)) t = Some c' ∧ chan_moves c c'.
Proof.
  intros Hw Hg Hne.
  assert (∃ c', jget (chans L) t = Some c' ∧ chan_moves c c') as Hsame.
  { exists c. split; [done|]. by eapply moves_same. }
  destruct x;
    try (eapply touches_lifecycle; [done| |done]; auto using touch_negotiating, touch_open, touch_bind,
      touch_unbind, touch_closing, touch_escalate; fail).
  - destruct (reserve_cases L c0 d now Hw) as (L1 & _ & _ & _ & E4 & _ & _ & _ & _ & _ & Hc).
    cbn [lstep]. destruct Hc as [(_ & _ & ->)|(_ & ->)]; cbn [fst chans bump bump_by add_res]; by rewrite E4.
  - cbn [lstep]. unfold release. by repeat case_match.
  - cbn [lstep]. by rewrite (sw_chans _ _ (sweep_swept L now Hw)).
  - cbn [lstep]. unfold mayAllocate. by repeat case_match.
  - cbn [lstep]. unfold allocate. destruct (jget (chans L) t0) eqn:Eg; [done|].
    assert (t0 ≠ t) by congruence.
    destruct reservation as [tok|]; [destruct (jget (res L) tok)|]; destruct (_ && _); try done;
      cbn [fst chans bump bump_by set_res]; by rewrite jget_jset_ne.
  - eapply touches_lifecycle; [done|by apply touch_reclass|done].
  - cbn [lstep]. destruct (jget (chans L) t0) as [c0|] eqn:E; [|unfold gone; by rewrite E].
    rewrite (gone_eq L t0 c0 E) by (intros Hx; apply (lw_chan _ Hw) in E as [_ E]; by rewrite Hx in E).
    apply (apply_all_ind (λ M, ∃ c', jget (chans M) t = Some c' ∧ chan_moves c c')).
    + intros M M' HM HT (c1 & Hc1 & Hm1).
      destruct (touches_lifecycle _ _ _ _ _ HM HT Hc1) as (c2 & ? & ?). eauto using chan_moves_trans.
    + by apply gone_mid_lwf.
    + destruct (gone_mid_spec L t0 c0) as (_ & _ & _ & -> & _). by rewrite jget_jdel_ne by congruence.
Qed.

(** ** The bound set *)

(** The caller's discipline: tokens are not empty, and an identity is bound on
    a channel that binds no other. *)
Definition bind_ok (L : ledger) (x : op) : Prop :=
  match x with
  | OAllocate t _ _ _ _ => t ≠ ""
  | OBind m n _ => ∀ c, chan_of_token L (jget (tByMeshId L) m) = Some c →
                     h_nodeId c = None ∨ h_nodeId c = Some n
  | _ => True
  end.

(** [tk] is a channel before CLOSING that binds [n]. *)
Definition valid_ptr (L : ledger) (n tk : string) : Prop :=
  tk ≠ "" ∧ ∃ c, jget (chans L) tk = Some c ∧ POINTABLE (h_state c) = true ∧ h_nodeId c = Some n.

(** The peer records are exactly the bound identities, each pointing at a
    channel that binds it and is not closing. *)
Record peer_ok (L : ledger) : Prop := {
  po_ptr : ∀ n p, jget (peers L) n = Some p → ∃ tk, p_t p = Some tk ∧ valid_ptr L n tk;
  po_all : ∀ t c n, jget (chans L) t = Some c → POINTABLE (h_state c) = true → h_nodeId c = Some n →
             jget (peers L) n ≠ None;
  po_tok : ∀ t c, jget (chans L) t = Some c → t ≠ ""
}.

Lemma eq_peer_ok L L' : chans L' = chans L → peers L' = peers L → peer_ok L → peer_ok L'.
Proof. intros E1 E2 []. split; unfold valid_ptr in *; rewrite ?E1, ?E2; auto. Qed.

Lemma stale_peer_ok L c : peer_ok L → peer_ok (stale_if_gone L c).1.
Proof.
  intros Hp. destruct c as [c|]; cbn [stale_if_gone fst]; [case_decide; [|done]|]; by apply (eq_peer_ok L).
Qed.

Lemma put_peer_ok L c c' :
  jget (chans L) (h_t c) = Some c → h_t c' = h_t c → h_nodeId c' = h_nodeId c →
  POINTABLE (h_state c') = POINTABLE (h_state c) → peer_ok L → peer_ok (put_chan L c').
Proof.
  intros Hg E1 E2 E3 [P1 P2 P3]. split; unfold valid_ptr; simpl; rewrite ?E1.
  - intros n p Hp. destruct (P1 n p Hp) as (tk & Htk & Hne & c0 & H0 & H1 & H2).
    exists tk. split_and!; [done|done|]. rewrite jget_jset. case_decide; [|eauto].
    subst. simplify_eq. exists c'. by rewrite E2, E3.
  - intros t c0 n. rewrite jget_jset. case_decide; [|by apply P2]. intros [= <-].
    rewrite E2, E3. by apply (P2 (h_t c)).
  - intros t c0. rewrite jget_jset. case_decide; [|apply P3]. intros _. subst. by eapply P3.
Qed.

Lemma other_scan_some n t pre l x :
  other_scan n t pre l = Some x →
  pre = Some x ∨ ∃ k o, (k, o) ∈ l ∧ h_t o = x ∧ x ≠ t ∧ h_nodeId o = Some n ∧ POINTABLE (h_state o) = true.
Proof.
  revert pre. induction l as [|[k o] l IH]; intros pre; cbn [other_scan]; [by left|].
  destruct (bool_decide (h_t o = t)) eqn:E1; simpl; [|destruct (bool_decide (h_nodeId o = Some n)) eqn:E2; simpl;
    [destruct (POINTABLE (h_state o)) eqn:E3; simpl|]];
    try (intros Hs; apply IH in Hs as [?|(k' & o' & ? & ?)]; [by left|right; exists k', o'; split; [by right|done]]).
  apply bool_decide_eq_false in E1. apply bool_decide_eq_true in E2.
  assert (∃ k0 o0, (k0, o0) ∈ (k, o) :: l ∧ h_t o0 = h_t o ∧ h_t o ≠ t ∧ h_nodeId o0 = Some n ∧
    POINTABLE (h_state o0) = true) as Hw by (exists k, o; split_and!; try done; by left).
  case_decide; [intros [= <-]; by right|]. intros Hs. apply IH in Hs as [Hp|(k' & o' & ? & ?)].
  - destruct pre; [by left|]. simplify_eq. by right.
  - right; exists k', o'; split; [by right|done].
Qed.

Lemma other_scan_none n t pre l :
  other_scan n t pre l = None →
  pre = None ∧ ∀ k o, (k, o) ∈ l → h_t o ≠ t → h_nodeId o = Some n → POINTABLE (h_state o) = false.
Proof.
  revert pre. induction l as [|[k o] l IH]; intros pre; cbn [other_scan].
  { intros ->. split; [done|]. by intros ?? ?%elem_of_nil. }
  destruct (_ || _ || _) eqn:E.
  - intros Hs. apply IH in Hs as [? Hall]. split; [done|].
    intros k' o' [Heq|?]%elem_of_cons H1 H2; [|by eapply Hall]. injection Heq as -> ->.
    rewrite (bool_decide_false _ H1), (bool_decide_true _ H2) in E. simpl in E. by apply negb_true_iff.
  - destruct (decide (h_state o = OPEN)); [done|]. intros Hs. apply IH in Hs as [Hp _]. by destruct pre.
Qed.

Lemma settle_ok L n t :
  lwf L → (∀ t c, jget (chans L) t = Some c → t ≠ "") →
  (∀ c, jget (chans L) t = Some c → POINTABLE (h_state c) = true → h_nodeId c ≠ Some n) →
  (∀ n' p, jget (peers L) n' = Some p →
     (n' = n ∧ p_t p = Some t) ∨ ∃ tk, p_t p = Some tk ∧ valid_ptr L n' tk) →
  (∀ t c n, jget (chans L) t = Some c → POINTABLE (h_state c) = true → h_nodeId c = Some n →
     jget (peers L) n ≠ None) →
  peer_ok (settlePeer L (Some n) t).
Proof.
  intros Hw P3 Ht P1 P2. unfold settlePeer.
  destruct (jget (peers L) n) as [p|] eqn:Ep.
  2:{ split; auto. intros n' p' Hp'. destruct (P1 n' p' Hp') as [[-> _]|?]; [congruence|done]. }
  destruct (otherPointableFor L n t) as [x|] eqn:Ex; unfold otherPointableFor in Ex.
  - apply other_scan_some in Ex as [?|(k & o & Hin & <- & Hne & Hn & Hpo)]; [done|].
    apply elem_jget in Hin; [|apply Hw]. pose proof (jget_key_t _ _ _ Hw Hin) as Hk. rewrite Hk in *.
    pose proof (P3 _ _ Hin) as Hk0. rewrite decide_False by done.
    assert (valid_ptr L n k) as Hv by (split; [done|eauto]).
    destruct (_ || _) eqn:Eb.
    + split; simpl; auto.
      * intros n' p'. rewrite jget_jset. destruct (decide (n = n')) as [<-|Hnn].
        -- intros Hp'. injection Hp' as <-. exists k. split; [done|exact Hv].
        -- intros Hp'. destruct (P1 n' p' Hp') as [[-> _]|?]; [done|done].
      * intros t' c' n' H1 H2 H3. rewrite jget_jset. destruct (decide (n = n')); [done|]. by eapply P2.
    + apply orb_false_iff in Eb as [Eb _]. apply bool_decide_eq_false in Eb. split; auto.
      intros n' p' Hp'. destruct (P1 n' p' Hp') as [[-> ?]|?]; [congruence|done].
  - apply other_scan_none in Ex as [_ Hall]. split; simpl; auto.
    + intros n' p'. rewrite jget_jdel. case_decide; [done|]. intros Hp'.
      destruct (P1 n' p' Hp') as [[-> _]|?]; [done|done].
    + intros t' c' n' H1 H2 H3. rewrite jget_jdel. case_decide; [|by eapply P2]. subst n'.
      exfalso. destruct (decide (t' = t)) as [->|Hne]; [by eapply Ht|].
      pose proof (jget_key_t _ _ _ Hw H1). rewrite (Hall t' c') in H2; [done| |congruence|done].
      by apply jget_Some_elem.
Qed.

Lemma peer_ok_apply g L p : lwf L → peer_ok L → peer_ok (apply_pending_one g L p).
Proof.
  intros Hw Hp. destruct p as [t q]. unfold apply_pending_one. case_decide; [done|].
  cbn [chans set_pend]. destruct (jget (chans L) t) as [c|] eqn:E; [|by apply (eq_peer_ok L)].
  destruct (negb _); [by apply (eq_peer_ok L)|]. destruct (_ && _); [by apply (eq_peer_ok L)|].
  pose proof (jget_key_t _ _ _ Hw E) as Ht.
  apply (eq_peer_ok (put_chan L (with_cls c (Some (pr_cls q))))); [done|done|].
  apply (put_peer_ok L c); try done. by rewrite Ht.
Qed.

Lemma peer_ok_apply_all g l L : lwf L → peer_ok L → peer_ok (foldl (apply_pending_one g) L l).
Proof.
  revert L. induction l as [|p l IH]; intros L Hw Hp; [done|]. cbn [foldl].
  apply IH; [|by apply peer_ok_apply]. by eapply touches_lwf, Hw; apply touch_apply_pending.
Qed.

Lemma bind_peer_ok L m n now :
  lwf L → bind_ok L (OBind m n now) → peer_ok L → peer_ok (lstep L (OBind m n now)).
Proof.
  intros Hw Hok Hp. cbn [lstep]. unfold bind.
  destruct (chan_of_token _ _) as [c|] eqn:E; [|by apply (eq_peer_ok L)].
  specialize (Hok c E). apply chan_of_token_get in E as [Htm Hg]; [|done].
  destruct (POINTABLE (h_state c)) eqn:Epo; [|by apply (eq_peer_ok L)].
  destruct Hp as [P1 P2 P3]. rewrite Htm. split; unfold valid_ptr; simpl.
  - intros n' p. rewrite jget_jset. destruct (decide (n = n')) as [<-|Hne].
    + intros [= <-]. exists (h_t c). split_and!; [done|by eapply P3|].
      exists (with_nodeId c (Some n)). by rewrite jget_jset_eq.
    + intros Hpp. destruct (P1 n' p Hpp) as (tk & ? & ? & c0 & H1 & H2 & H3). exists tk. split_and!; try done.
      rewrite jget_jset. destruct (decide (h_t c = tk)); [|eauto]. subst. simplify_eq. destruct Hok; congruence.
  - intros t c0 n'. rewrite !jget_jset. destruct (decide (h_t c = t)) as [<-|Hne].
    + intros [= <-] _ [= <-]. by rewrite decide_True.
    + intros. case_decide; [done|]. by eapply P2.
  - intros t c0. rewrite jget_jset. destruct (decide (h_t c = t)) as [<-|]; [|apply P3].
    intros _. by eapply P3.
Qed.

Lemma unbind_peer_ok L m : lwf L → peer_ok L → peer_ok (lstep L (OUnbind m)).
Proof.
  intros Hw Hp. cbn [lstep]. unfold unbind. fold (unbind_target L m).
  destruct (unbind_target L m) as [c|] eqn:E; [|done].
  apply unbind_target_spec in E as [Hg Hn]; [|done].
  destruct (h_nodeId c) as [n|] eqn:En; [|done]. destruct Hp as [P1 P2 P3].
  apply settle_ok; simpl.
  - eapply touches_lwf; [|exact Hw]. eapply (touches_put same_cls _ c); try done. by eapply moves_same.
  - intros t c0. rewrite jget_jset. case_decide; [intros _; subst; by eapply P3|apply P3].
  - intros c0. rewrite jget_jset_eq. intros [= <-] _. by simpl.
  - intros n' p Hpp. destruct (P1 n' p Hpp) as (tk & Htk & Hne & c0 & H1 & H2 & H3).
    destruct (decide (tk = h_t c)) as [->|]; [left; split; [congruence|done]|].
    right. exists tk. do 2 (split; [done|]). exists c0. simpl.
    by rewrite jget_jset_ne by congruence.
  - intros t c0 n'. rewrite jget_jset. case_decide; [intros [= <-]; by simpl|]. apply P2.
Qed.

Lemma closing_peer_ok L t r now : lwf L → peer_ok L → peer_ok (lstep L (OClosing t r now)).
Proof.
  intros Hw Hp. pose proof (touches_lwf _ _ _ (touch_closing L t r now Hw) Hw) as _. cbn [lstep]. unfold closing.
  destruct (jget (chans L) t) as [c|] eqn:E; [|by apply (eq_peer_ok L)].
  destruct (_ || _) eqn:Hs; [by apply stale_peer_ok|]. pose proof (jget_key_t _ _ _ Hw E) as Ht.
  apply orb_false_iff in Hs as [Hs _]. apply bool_decide_eq_false in Hs.
  set (c1 := with_timer _ _). destruct Hp as [P1 P2 P3].
  destruct (retire_token_eq (put_chan L c1) (h_meshId c1) t) as [tb ->]. cbn [fst].
  set (L1 := set_tBy (put_chan L c1) tb).
  assert (chans L1 = jset (chans L) t c1) as Ec by (unfold L1; simpl; by rewrite Ht).
  assert (∀ tk n, tk ≠ t → valid_ptr L n tk → valid_ptr L1 n tk) as Hkeep.
  { intros tk n Hne [? (c0 & ? & ?)]. split; [done|]. exists c0. rewrite Ec. by rewrite jget_jset_ne by congruence. }
  assert (∀ t' c0, jget (chans L1) t' = Some c0 → t' ≠ "") as P3'.
  { intros t' c0. rewrite Ec, jget_jset. case_decide; [intros _; subst; by eapply P3|apply P3]. }
  assert (∀ t' c0 n, jget (chans L1) t' = Some c0 → POINTABLE (h_state c0) = true → h_nodeId c0 = Some n →
    jget (peers L1) n ≠ None) as P2'.
  { intros t' c0 n. rewrite Ec, jget_jset. case_decide; [intros [= <-]; by simpl|apply P2]. }
  assert ((∀ n p, jget (peers L1) n = Some p → p_t p ≠ Some t) → peer_ok L1) as Hok.
  { intros Hno. split; try done. intros n p Hpp. destruct (P1 n p Hpp) as (tk & Htk & Hv).
    exists tk. split; [done|]. apply Hkeep; [|done]. intros ->. by eapply Hno. }
  assert (∀ n p, jget (peers L1) n = Some p → p_t p = Some t → h_nodeId c = Some n) as Hown.
  { intros n p Hpp Hpt. destruct (P1 n p Hpp) as (tk & Htk & _ & c0 & H1 & _ & H3). congruence. }
  change (h_nodeId c1) with (h_nodeId c).
  destruct (h_nodeId c) as [n|] eqn:En.
  2:{ apply Hok. intros n p Hpp Hpt. by specialize (Hown n p Hpp Hpt). }
  destruct (jget (peers L1) n) as [p|] eqn:Epn.
  2:{ apply Hok. intros n' p' Hpp Hpt. specialize (Hown n' p' Hpp Hpt). congruence. }
  destruct (decide (p_t p = Some t)) as [Hpt|Hpt].
  - apply settle_ok; try done.
    + eapply touches_lwf; [|exact Hw]. eapply touches_weaken; [apply (touches_put same_cls _ c c1)|..]; try done.
      * by rewrite Ht.
      * split_and!; try done. pose proof (live_moves _ _ _ Hw E). simpl.
        destruct (h_state c); simpl; try done; lia.
    + intros c0. rewrite Ec, jget_jset_eq. intros [= <-]. by simpl.
    + intros n' p' Hpp. destruct (P1 n' p' Hpp) as (tk & Htk & Hv).
      destruct (decide (tk = t)) as [->|]; [|right; eauto].
      left. split; [|done]. specialize (Hown n' p' Hpp Htk). congruence.
  - apply Hok. intros n' p' Hpp Hpt'. specialize (Hown n' p' Hpp Hpt'). congruence.
Qed.

Lemma gone_peer_ok L t : lwf L → peer_ok L → peer_ok (lstep L (OGone t)).
Proof.
  intros Hw Hp. cbn [lstep]. destruct (jget (chans L) t) as [c|] eqn:E.
  2:{ unfold gone. rewrite E. by apply (eq_peer_ok L). }
  rewrite (gone_eq L t c E) by (intros Hg; apply (lw_chan _ Hw) in E as [_ E]; by rewrite Hg in E).
  apply peer_ok_apply_all; [by apply gone_mid_lwf|].
  unfold gone_mid. destruct (retire_token_eq L (h_meshId c) t) as [tb ->].
  set (L1 := set_chans (bump goneTotal (set_tBy L tb)) (jdel (chans (set_tBy L tb)) t)).
  apply (eq_peer_ok (settlePeer L1 (h_nodeId c) t)); [done|done|].
  destruct Hp as [P1 P2 P3].
  assert (chans L1 = jdel (chans L) t) as Ec by done.
  assert (∀ t' c0, jget (chans L1) t' = Some c0 → t' ≠ "") as P3'.
  { intros t' c0. rewrite Ec, jget_jdel. case_decide; [done|apply P3]. }
  assert (∀ t' c0 n, jget (chans L1) t' = Some c0 → POINTABLE (h_state c0) = true → h_nodeId c0 = Some n →
    jget (peers L1) n ≠ None) as P2'.
  { intros t' c0 n. rewrite Ec, jget_jdel. case_decide; [done|apply P2]. }
  assert (∀ n' p', jget (peers L1) n' = Some p' →
    (h_nodeId c = Some n' ∧ p_t p' = Some t) ∨ ∃ tk, p_t p' = Some tk ∧ valid_ptr L1 n' tk) as Hptr.
  { intros n' p' Hpp. destruct (P1 n' p' Hpp) as (tk & Htk & Hne & c0 & H1 & H2 & H3).
    destruct (decide (tk = t)) as [->|]; [left; split; [congruence|done]|].
    right. exists tk. do 2 (split; [done|]). exists c0. rewrite Ec. by rewrite jget_jdel_ne by congruence. }
  destruct (h_nodeId c) as [n|].
  - apply settle_ok; try done.
    + destruct Hw as [W1 W2 W3 W4 W5 W6]. split; simpl; auto with axona.
      intros t' c'. rewrite jget_jdel. case_decide; [done|]. apply W5.
    + intros c0. by rewrite Ec, jget_jdel_eq.
    + intros n' p' Hpp. destruct (Hptr n' p' Hpp) as [[Hx ?]|?]; [left; split; [congruence|done]|by right].
  - simpl. split; try done. intros n' p' Hpp. by destruct (Hptr n' p' Hpp) as [[? _]|?].
Qed.

Lemma lstep_peer_ok L x : lwf L → bind_ok L x → peer_ok L → peer_ok (lstep L x).
Proof.
  intros Hw Hok Hp. destruct x; auto using bind_peer_ok, unbind_peer_ok, closing_peer_ok, gone_peer_ok.
  - destruct (reserve_cases L c d now Hw) as (L1 & _ & _ & _ & E4 & E5 & _ & _ & _ & _ & Hc).
    cbn [lstep]. destruct Hc as [(_ & _ & ->)|(_ & ->)]; by apply (eq_peer_ok L).
  - cbn [lstep]. unfold release. repeat case_match; try done; by apply (eq_peer_ok L).
  - pose proof (sweep_swept L now Hw) as Hs.
    apply (eq_peer_ok L); [apply (sw_chans _ _ Hs)|apply (sw_peers _ _ Hs)|done].
  - cbn [lstep]. unfold mayAllocate. repeat case_match; by apply (eq_peer_ok L).
  - cbn [lstep]. unfold allocate. destruct (jget (chans L) t) eqn:Eg; [by apply (eq_peer_ok L)|].
    destruct reservation as [tok|]; [destruct (jget (res L) tok)|];
      (destruct (_ && _); [by apply (eq_peer_ok L)|]; destruct Hp as [P1 P2 P3];
       split; unfold valid_ptr; simpl;
       [intros n p Hpp; destruct (P1 n p Hpp) as (tk & ? & ? & c0 & ? & ?); exists tk; split_and!; try done;
        exists c0; rewrite jget_jset_ne by congruence; done
       |intros t' c0 n; rewrite jget_jset; case_decide; [intros [= <-]; by simpl|by apply P2]
       |intros t' c0; rewrite jget_jset; case_decide; [intros _; by subst|by apply P3]]).
  - cbn [lstep]. unfold negotiating. destruct (jget (chans L) t) as [c|] eqn:E; [|by apply (eq_peer_ok L)].
    case_decide as Hs; [|by apply stale_peer_ok].
    apply (put_peer_ok L c); try done; [by rewrite (jget_key_t _ _ _ Hw E)|by rewrite Hs].
  - cbn [lstep]. unfold open. destruct (jget (chans L) t) as [c|] eqn:E; [|by apply (eq_peer_ok L)].
    destruct (PRE_OPEN (h_state c)) eqn:Hs; [|by apply stale_peer_ok].
    apply (put_peer_ok L c); try done; [by rewrite (jget_key_t _ _ _ Hw E)|by destruct (h_state c)].
  - cbn [lstep]. unfold escalate_fire. destruct (jget (chans L) t) as [c|] eqn:E; [|done].
    destruct (h_timer c); [|done].
    assert (peer_ok (put_chan L (with_timer c false))) as Hp'.
    { apply (put_peer_ok L c); try done. by rewrite (jget_key_t _ _ _ Hw E). }
    case_decide; [by apply (eq_peer_ok (put_chan L (with_timer c false)))|done].
  - cbn [lstep]. unfold reclass. destruct (jget (chans L) t) as [c|] eqn:E; [|by apply (eq_peer_ok L)].
    destruct (negb _); [by apply (eq_peer_ok L)|]. destruct k as [k|]; [|done]. case_decide; [done|].
    destruct (_ && _); [case_match; by apply (eq_peer_ok L)|].
    apply (eq_peer_ok (put_chan L (with_cls c (Some k)))); [done|done|].
    apply (put_peer_ok L c); try done. by rewrite (jget_key_t _ _ _ Hw E).
Qed.

(** * The properties *)

Definition asked (v : num_opt) (n : Z) : Prop := match v with IntOpt m => n = m | Absent => True | NotInt => False end.

Lemma int_inr f v min req o :
  int f v min req = inr o →
  match v with Absent => req = false ∧ o = None | IntOpt n => min ≤ n ∧ o = Some n | NotInt => False end.
Proof. destruct v as [|n|], req; simpl; intros H; simplify_eq; try done; case_match; zb; by simplify_eq. Qed.

(** A pool profile that is built is feasible and is the one asked for: the two
    pools fit in the physical bound, the attempt, inbound and serving numbers fit
    in their pools, a declared host budget covers the sockets, and no number given
    was trimmed. *)
Theorem profile_feasible o p :
  makePoolProfile (Some o) = inr p →
  pp_armed p = true ∧ 1 ≤ pp_M p ∧ 0 ≤ pp_I p ∧ pp_M p + pp_I p ≤ pp_H p ∧
  1 ≤ pp_pPending p ≤ pp_M p ∧ 0 ≤ pp_cInbound p ≤ pp_I p ∧ 0 ≤ pp_serveFloor p ≤ pp_M p ∧
  (∀ b, pp_hostBudget p = Some b → pp_H p + pp_doorSockets p ≤ b) ∧
  asked (o_M o) (pp_M p) ∧ asked (o_I o) (pp_I p) ∧ asked (o_H o) (pp_H p) ∧
  asked (o_pPending o) (pp_pPending p) ∧ asked (o_cInbound o) (pp_cInbound p) ∧
  asked (o_serveFloor o) (pp_serveFloor p) ∧ asked (o_promoteMs o) (pp_promoteMs p) ∧
  asked (o_doorSockets o) (pp_doorSockets p).
Proof.
  unfold makePoolProfile. intros H. cbn [mbind sum_bind] in H.
  repeat match type of H with
  | context [int ?f ?v ?mn ?r] =>
      let E := fresh "E" in destruct (int f v mn r) eqn:E; [done|]; apply int_inr in E; cbn [mbind sum_bind] in H
  end.
  do 5 (match type of H with (if ?b then _ else _) = _ => destruct b eqn:?; [done|] end).
  injection H as <-. zb. cbn [pp_armed pp_M pp_I pp_H pp_pPending pp_cInbound pp_serveFloor pp_promoteMs
    pp_hostBudget pp_doorSockets].
  destruct (o_M o), (o_I o); try (by destruct_and?); destruct_and?; simplify_eq/=.
  repeat match goal with E : match ?v with _ => _ end |- _ => destruct v; [destruct E as [_ ->]|destruct E as [? ->]|done] end;
    simpl in *; split_and!; try done; try lia; intros b Hb; simplify_eq; zb; lia.
Qed.

Definition relay_opts : profile_opts :=
  mk_profile_opts (IntOpt 50) (IntOpt 50) (IntOpt 100) (IntOpt 8) (IntOpt 4) (IntOpt 3) Absent Absent Absent.
Definition relay_profile : profile := mk_profile true 50 50 100 8 4 3 30000 None 0.

Lemma profile_feasible_witness :
  makePoolProfile (Some relay_opts) = inr relay_profile ∧ pp_M relay_profile + pp_I relay_profile ≤ 100.
Proof. split; [reflexivity|]. by apply (profile_feasible relay_opts). Defined.

Lemma feasible_nonneg o p : makePoolProfile o = inr p → pp_armed p = true ∧ 1 ≤ pp_M p ∧ 0 ≤ pp_I p ∧
  pp_M p + pp_I p ≤ pp_H p ∧ 1 ≤ pp_pPending p.
Proof.
  destruct o as [o|]; [|done]. unfold makePoolProfile. intros H. cbn [mbind sum_bind] in H.
  repeat match type of H with
  | context [int ?f ?v ?mn ?r] =>
      let E := fresh "E" in destruct (int f v mn r) eqn:E; [done|]; apply int_inr in E; cbn [mbind sum_bind] in H
  end.
  do 5 (match type of H with (if ?b then _ else _) = _ => destruct b eqn:?; [done|] end).
  injection H as <-. zb. cbn [pp_armed pp_M pp_I pp_H pp_pPending].
  clear E3 E4 E5 E6 E7. split_and!; try done.
  - destruct (o_M o); [by destruct E as [? _]|destruct E as [? ->]; simpl; lia|done].
  - destruct (o_I o); [by destruct E0 as [? _]|destruct E0 as [? ->]; simpl; lia|done].
  - destruct (o_pPending o); [destruct E2 as [_ ->]|destruct E2 as [? ->]|done]; simpl; [|lia].
    destruct (o_M o); [by destruct E as [? _]|destruct E as [? ->]; simpl; lia|done].
Qed.

(** Options of an enforcing ledger armed with profile [p]. *)
Definition enforcing (p : profile) : ledger_opts := mk_opts None None None None true None (Some p).

(** C32. Capacity holds by construction: on an enforcing ledger armed with a built
    profile, after any sequence of reservations, allocations, transitions,
    reclassings, sweeps and closes, the channels charged plus the reservations
    held stay within the physical bound and within each pool; and if every
    reservation is consumed by a channel of its own direction, the outbound
    attempts stay within the attempt bound. *)
Theorem capacity_never_exceeded po p ok L :
  makePoolProfile po = inr p → reach (enforcing p) ok L →
  chanAll L + reservedAll L ≤ pp_H p ∧
  chargedOf L (Some ClsM) + reservedOf L (Some ClsM) ≤ pp_M p ∧
  chargedOf L (Some ClsI) + reservedOf L (Some ClsI) ≤ pp_I p ∧
  ((∀ L x, ok L x → dir_ok L x) →
     chanOutboundPending L + reservedDirOf L DirOut ≤ pp_pPending p).
Proof.
  intros Hp Hr. destruct (feasible_nonneg _ _ Hp) as (Ha & HM & HI & HH & HP).
  assert (cfg (new_ledger (enforcing p)) = mk_config (pp_H p) (Z.max 1 (Z.max 0 (pp_cInbound p)))
    (pp_pPending p) 10000 true 30000 (Some p)) as Hcfg.
  { simpl. unfold parse_config. simpl. rewrite Ha. simpl. f_equal; lia. }
  assert (bounded p L ∧ ((∀ L x, ok L x → dir_ok L x) → attempts_bounded L)) as [[B1 B2] B3].
  { induction Hr as [|L x Hr [IH1 IH2] Hok].
    - split.
      + split; [rewrite Hcfg; change (0 + 0 ≤ pp_H p); lia|].
        intros []; [change (0 + 0 ≤ pp_M p)|change (0 + 0 ≤ pp_I p)]; lia.
      + intros _. unfold attempts_bounded. rewrite Hcfg. change (0 + 0 ≤ pp_pPending p). lia.
    - pose proof (reach_lwf _ _ _ Hr) as Hw. pose proof (reach_cfg _ _ _ Hr) as Hc.
      change (parse_config (enforcing p)) with (cfg (new_ledger (enforcing p))) in Hc. rewrite Hcfg in Hc.
      split; [by apply lstep_bounded; rewrite ?Hc|].
      intros Hd. apply (lstep_attempts p); rewrite ?Hc; auto. }
  pose proof (reach_cfg _ _ _ Hr) as Hc.
  change (parse_config (enforcing p)) with (cfg (new_ledger (enforcing p))) in Hc. rewrite Hcfg in Hc.
  unfold attempts_bounded in B3. rewrite Hc in B1, B3. split_and!; [done|apply (B2 ClsM)|apply (B2 ClsI)|done].
Qed.

Definition tiny_opts : profile_opts :=
  mk_profile_opts (IntOpt 1) (IntOpt 1) Absent Absent Absent Absent Absent Absent Absent.
Definition tiny_profile : profile := mk_profile true 1 1 2 1 1 1 30000 None 0.

(** One managed channel is dialled; a second reservation is refused. *)
Definition tiny_run : ledger :=
  let L := lstep (new_ledger (enforcing tiny_profile)) (OReserve (Some ClsM) DirOut 5) in
  let L := lstep L (OAllocate "pc1" "m1" DirOut (Some "r1") 6) in
  lstep L (OReserve (Some ClsM) DirOut 7).

Lemma capacity_never_exceeded_witness :
  makePoolProfile (Some tiny_opts) = inr tiny_profile ∧
  (chargedOf tiny_run (Some ClsM) = 1 ∧ stats tiny_run refusedM = 1) ∧
  chanAll tiny_run + reservedAll tiny_run ≤ pp_H tiny_profile.
Proof.
  split_and!; [by vm_compute..|].
  refine (proj1 (capacity_never_exceeded (Some tiny_opts) tiny_profile (λ _ _, True) tiny_run eq_refl _)).
  repeat apply reach_op; try done. apply reach_new.
Defined.

(** Nothing is lost: every reservation issued is held, or was consumed,
    released or expired; every channel allocated is charged until its close was
    confirmed.  Whatever the options. *)
Theorem ledger_accounts o ok L :
  reach o ok L →
  stats L reserved = stats L reservationsConsumed + stats L reservationsReleased
                     + stats L reservationsExpired + reservedAll L ∧
  stats L allocated = stats L goneTotal + chanAll L.
Proof.
  intros Hr. assert (accounted L) as [A1 A2].
  { induction Hr as [|L x Hr IH _]; [by split|]. apply lstep_accounted; [by eapply reach_lwf|done]. }
  pose proof (reach_lwf _ _ _ Hr) as Hw. split; [done|].
  rewrite A2. f_equal. symmetry. apply count_true; [apply Hw|].
  intros t c Hg. by apply (lw_chan _ Hw) in Hg as [_ ?].
Qed.

Lemma ledger_accounts_witness :
  stats tiny_run reserved = 1 ∧
  stats tiny_run allocated = stats tiny_run goneTotal + chanAll tiny_run.
Proof.
  split; [by vm_compute|].
  apply (ledger_accounts (enforcing tiny_profile) (λ _ _, True)).
  repeat apply reach_op; try done. apply reach_new.
Defined.

(** Capacity is released by the transport's confirmation and by nothing else:
    every operation but [gone] of that token (the escalation timer and the local
    close included) keeps the channel's record, charged, with its signalling id
    and direction, and its state only moves forward; [gone] removes it. *)
Theorem released_only_when_gone o ok L t c x :
  reach o ok L → jget (chans L) t = Some c →
  (x ≠ OGone t → ∃ c', jget (chans (lstep L x)) t = Some c' ∧ LIVE (h_state c') = true ∧
     h_meshId c' = h_meshId c ∧ h_dir c' = h_dir c ∧ (rank (h_state c) ≤ rank (h_state c'))%nat) ∧
  (x = OGone t → jget (chans (lstep L x)) t = None ∧ stats (lstep L x) goneTotal = stats L goneTotal + 1).
Proof.
  intros Hr Hg. pose proof (reach_lwf _ _ _ Hr) as Hw. split.
  - intros Hne. destruct (lstep_lifecycle L x t c Hw Hg Hne) as (c' & ? & ? & ? & ? & ? & ?). eauto 10.
  - intros ->. cbn [lstep].
    rewrite (gone_eq L t c Hg) by (intros Hx; apply (lw_chan _ Hw) in Hg as [_ E]; by rewrite Hx in E).
    destruct (gone_mid_spec L t c) as (_ & _ & _ & E4 & _ & _ & _ & E8).
    destruct (apply_all_ind (λ M, jget (chans M) t = None ∧ stats M goneTotal = stats L goneTotal + 1)
      t (pendingReclass (gone_mid L t c)) (gone_mid L t c)) as [H _]; [|by apply gone_mid_lwf| |done].
    + intros M M' _ [_ _ _ _ _ Es H7] [H1 H2]. rewrite Es by done. split; [|done].
      destruct H7 as [->|(t' & c0 & c' & Hg' & -> & _)]; [done|].
      rewrite jget_jset_ne; [done|]. intros ->. congruence.
    + rewrite E4, jget_jdel_eq. done.
Qed.

Definition closing_run : ledger := lstep tiny_run (OClosing "pc1" "retired" 8).

Lemma released_only_when_gone_witness :
  chanAll closing_run = 1 ∧ chanAll (lstep closing_run (OEscalate "pc1")) = 1 ∧
  ∃ c, jget (chans closing_run) "pc1" = Some c ∧ h_state c = CLOSING ∧
       jget (chans (lstep closing_run (OGone "pc1"))) "pc1" = None.
Proof.
  split_and!; [by vm_compute..|]. eexists. split_and!; [vm_compute; reflexivity|reflexivity|].
  eapply (released_only_when_gone (enforcing tiny_profile) (λ _ _, True));
    [repeat apply reach_op; try done; apply reach_new|vm_compute; reflexivity|reflexivity].
Defined.

(** C37. The peer records are the current bound set: provided a channel is not
    rebound to a second identity, an identity has a record exactly while some
    channel before CLOSING binds it, and the record points at such a channel,
    never at a closing or a gone one. *)
Theorem bound_set_exact o ok L n :
  (∀ L x, ok L x → bind_ok L x) → reach o ok L →
  (jget (peers L) n ≠ None ↔ ∃ t, valid_ptr L n t) ∧
  (∀ p, jget (peers L) n = Some p → ∃ t, p_t p = Some t ∧ valid_ptr L n t).
Proof.
  intros Hd Hr. assert (peer_ok L) as [P1 P2 P3].
  { induction Hr as [|L x Hr IH Hok]; [by split|].
    apply lstep_peer_ok; [by eapply reach_lwf|by apply Hd|done]. }
  split; [|auto]. split.
  - destruct (jget (peers L) n) as [p|] eqn:E; [|done]. intros _. destruct (P1 n p E) as (t & _ & ?). eauto.
  - intros (t & _ & c & ? & ? & ?). by eapply P2.
Qed.

Definition bound_run : ledger :=
  lstep (lstep tiny_run (OOpen "pc1" 8)) (OBind "m1" "node1" 9).

Lemma bound_set_exact_witness :
  classOfNode bound_run "node1" = Some ClsM ∧
  (jget (peers bound_run) "node1" ≠ None ↔ ∃ t, valid_ptr bound_run "node1" t).
Proof.
  split; [by vm_compute|].
  apply (bound_set_exact (enforcing tiny_profile) bind_ok); [done|].
  repeat apply reach_op; try done; [apply reach_new|].
  intros c Hc. vm_compute in Hc. left. by simplify_eq.
Defined.

(** The measuring ledger refuses nothing: with [enforce] off every reservation
    is issued (with the row that would have refused it), [mayAllocate] and
    [canAllocate] answer yes, and on an unarmed ledger every allocation of a new
    token builds a channel.  With [enforce] on, [reserve] and [mayAllocate]
    refuse exactly when a row is over. *)
Theorem enforce_decides o ok L c d now :
  reach o ok L →
  (enforce (cfg L) = false →
     (∃ tok, (reserve L c d now).2.1 = Some tok ∧ jget (res L) tok = None ∧
             jhas (res (reserve L c d now).1) tok = true) ∧
     (mayAllocate L d).2.1 = true ∧ (canAllocate L d).1 = true ∧
     (pools (cfg L) = None → ∀ t m r, jget (chans L) t = None →
        ∃ h, (allocate L t m d r now).2 = Some h ∧ jget (chans (allocate L t m d r now).1) t = Some h)) ∧
  (enforce (cfg L) = true →
     ((reserve L c d now).2.1 = None ↔ (reserve L c d now).2.2 ≠ None) ∧
     ((mayAllocate L d).2.1 = false ↔ alloc_why L d ≠ None)).
Proof.
  intros Hr. pose proof (reach_lwf _ _ _ Hr) as Hw.
  destruct (reserve_cases L c d now Hw) as (L1 & E1 & E2 & E3 & E4 & _ & _ & _ & _ & E9 & Hc).
  split; intros He.
  - split_and!.
    + destruct Hc as [(? & _)|(_ & ->)]; [congruence|]. exists (res_token (resSeq L + 1)).
      split_and!; [done|by apply token_fresh|]. simpl. rewrite E3. unfold jhas. by rewrite jget_jset_eq.
    + unfold mayAllocate. case_bool_decide; [done|]. by rewrite He.
    + unfold canAllocate. rewrite He, orb_true_r. done.
    + intros Hp t m r Hg. unfold allocate. rewrite Hg.
      destruct r as [tok|]; [destruct (jget (res L) tok)|];
        (destruct (_ && _) eqn:Eb;
         [apply andb_true_iff in Eb as [Eb _]; unfold armed in Eb; simpl in Eb; by rewrite Hp in Eb|]);
        eexists; (split; [reflexivity|]); simpl; by rewrite jget_jset_eq.
  - split.
    + destruct Hc as [(_ & Hn & ->)|(Hn & ->)]; simpl; [done|]. rewrite Hn by done. naive_solver.
    + unfold mayAllocate. case_bool_decide as Hn; [by rewrite Hn|]. rewrite He. done.
Qed.

Lemma enforce_decides_witness :
  enforce (cfg tiny_run) = true ∧
  ((reserve tiny_run (Some ClsM) DirOut 9).2.1 = None ↔ (reserve tiny_run (Some ClsM) DirOut 9).2.2 ≠ None).
Proof.
  split; [reflexivity|].
  apply (enforce_decides (enforcing tiny_profile) (λ _ _, True)); [|reflexivity].
  repeat apply reach_op; try done. apply reach_new.
Defined.
