(* ===== verification/MeshDegree.v ===== *)
(** The bounded mesh degree: [src/src/transport/web/mesh_degree.js], which
    channel a node at its bound retires and which it must keep, and the peer
    sample of [graduated_sample.js]. *)

From Stdlib Require Import Ascii.
From stdpp Require Import base tactics sets list sorting numbers strings.
From Stdlib Require Import ZArith Lia.
From S2P Require Import Prelude HexId ChannelLedger.

(** * Choosing the channel to retire *)

Record candidate := mk_candidate {
  id : string; region : option string; openedAt : Z; rttMs : option Z;
  inCooldown : bool; isProtected : bool; m_cls : option cls
}.

Record retire := mk_retire {
  rt_id : string; rt_region : string; rt_ageMs : Z; rt_rttMs : option Z; rt_cls : option cls
}.

Section retire.
Context (candidates : list candidate) (now minUptimeMs : Z).

(** Occupancy over every candidate with a known region, eligible or not. *)
Definition regionCount (r : option string) : Z :=
  match r with
  | None => 0
  | Some _ => Z.of_nat (length (filter (λ c, region c = r) candidates))
  end.

Definition eligible (c : candidate) : bool :=
  (0 <? openedAt c) && bool_decide (region c ≠ None) && negb (inCooldown c) && negb (isProtected c)
  && (minUptimeMs <=? now - openedAt c).

Definition rttKey (c : candidate) : Z := default (-1) (rttMs c).
Definition clsRank (c : candidate) : Z :=
  match m_cls c with Some ClsI => 0 | Some ClsM => 2 | None => 1 end.

Definition anyCls : bool := existsb (λ c, bool_decide (m_cls c ≠ None)) (filter (λ c, eligible c = true) candidates).

(** The comparator of [sort]. *)
Definition cmp_retire (a b : candidate) : Z :=
  let cd := if anyCls then clsRank a - clsRank b else 0 in
  if negb (cd =? 0) then cd
  else
    let rd := regionCount (region b) - regionCount (region a) in
    if negb (rd =? 0) then rd
    else
      let ad := openedAt a - openedAt b in
      if negb (ad =? 0) then ad else rttKey b - rttKey a.

Definition selectMeshRetire : option retire :=
  let el := filter (λ c, eligible c = true) candidates in
  match el with
  | [] => None
  | _ =>
      c ← List.find (λ c, 1 <? regionCount (region c)) (sort_cmp cmp_retire el);
      Some (mk_retire (id c) (default "" (region c)) (now - openedAt c) (rttMs c) (m_cls c))
  end.

Lemma cmp_retire_key a b :
  cmp_retire a b ≤ 0 ↔
    let ca := if anyCls then clsRank a else 0 in let cb := if anyCls then clsRank b else 0 in
    ca < cb ∨ (ca = cb ∧
      (regionCount (region b) < regionCount (region a) ∨
       (regionCount (region b) = regionCount (region a) ∧
         (openedAt a < openedAt b ∨ (openedAt a = openedAt b ∧ rttKey b ≤ rttKey a))))).
Proof.
  unfold cmp_retire. destruct anyCls; cbn zeta;
    repeat match goal with |- context [negb (?x =? 0)] => destruct (Z.eqb_spec x 0); cbn [negb] end; lia.
Qed.

#[export] Instance cmp_retire_comparator : Comparator cmp_retire.
Proof.
  split; unfold cmp_le.
  - intros x y. rewrite !cmp_retire_key. cbn zeta. destruct anyCls; lia.
  - intros x y z. rewrite !cmp_retire_key. cbn zeta. destruct anyCls; lia.
Qed.
End retire.

(** * Which channels carry a duty *)

Section resolver.
(** [nodeIdFor] of the transport, the obligations read from the kernel and the
    hex form of an id, each of which may throw. *)
Context {set : Type} (has : set → string → bool) (hex : Z → string).

(** What [provider()] gives, and what the function it gives returns. *)
Inductive reader := R_throws | R_notFunction | R_function (run : option (option set)).
(** [None] of [run]: it throws; [Some None]: not a Set. *)

Inductive binding := B_throws | B_none | B_nodeId (n : Z).

Record cache := mk_cache { cachedPass : option Z; cachedSet : option set }.

Definition same_pass (passId : option Z) (k : cache) : bool :=
  match passId with Some p => bool_decide (cachedPass k = Some p) | None => false end.

(** One call of the closure: the cache it leaves and its answer. *)
Definition resolve (k : cache) (provider : reader) (nid : binding) (passId : option Z) : cache * bool :=
  match provider with
  | R_throws | R_notFunction => (k, true)
  | R_function run =>
      match nid with
      | B_throws | B_none => (k, true)
      | B_nodeId n =>
          let answer (s : option set) := match s with Some s => has s (hex n) | None => true end in
          if same_pass passId k then (k, answer (cachedSet k))
          else
            match run with
            | None => (k, true)
            | Some s =>
                (match passId with Some _ => mk_cache passId s | None => k end, answer s)
            end
      end
  end.
End resolver.
Arguments reader : clear implicits.
Arguments cache : clear implicits.
Arguments R_throws {set}.
Arguments R_notFunction {set}.
Arguments R_function {set} run.
Arguments mk_cache {set} cachedPass cachedSet.
Arguments cachedPass {set} c.
Arguments cachedSet {set} c.

(** * The graduated sample *)

Definition GRADUATED_SAMPLE_MAX : nat := 64.

(** [/^[0-9a-f]{66}$/] *)
Definition HEX66 (s : string) : bool := (strlen s =? 66) && all_lower_hex s.

Fixpoint sanitize_loop (l : list jsv) (seen : list string) : list string :=
  match l with
  | [] => []
  | JStr v :: l' =>
      if negb (HEX66 v) || bool_decide (v ∈ seen) then sanitize_loop l' seen
      else v :: sanitize_loop l' (v :: seen)
  | _ :: l' => sanitize_loop l' seen
  end.

(** [None]: the field is not an array. *)
Definition sanitizeGraduatedSample (field : option (list jsv)) : list string :=
  match field with
  | None => []
  | Some l => sanitize_loop (take GRADUATED_SAMPLE_MAX l) []
  end.

(** * The properties *)

(** The channel chosen for retirement is one that may go: it is open for the
    minimum time, authenticated, out of cooldown and carries no obligation, it is
    not its region's last representative, and no candidate that may go comes
    before it (an incoming before a managed one, then the most crowded region,
    then the longest held, then the worst round trip).  None is chosen exactly
    when no eligible channel's region has another. *)
Theorem retire_choice candidates now minUp :
  match selectMeshRetire candidates now minUp with
  | Some r =>
      ∃ c, c ∈ candidates ∧ rt_id r = id c ∧ region c = Some (rt_region r) ∧ rt_ageMs r = now - openedAt c ∧
        0 < openedAt c ∧ minUp ≤ now - openedAt c ∧ inCooldown c = false ∧ isProtected c = false ∧
        1 < regionCount candidates (region c) ∧
        (∀ c', c' ∈ candidates → eligible now minUp c' = true → 1 < regionCount candidates (region c') →
           c' = c ∨ cmp_retire candidates now minUp c c' ≤ 0)
  | None => ∀ c, c ∈ candidates → eligible now minUp c = true → regionCount candidates (region c) ≤ 1
  end.
Proof.
  unfold selectMeshRetire.
  set (el := filter (λ c, eligible now minUp c = true) candidates).
  assert (∀ c, c ∈ el ↔ eligible now minUp c = true ∧ c ∈ candidates) as Hel
    by (intros; unfold el; by rewrite list_elem_of_filter).
  destruct el as [|c0 el0] eqn:E.
  { intros c Hc He. exfalso. by apply (not_elem_of_nil c), Hel. }
  rewrite <-E in *. clear E c0 el0.
  destruct (List.find _ (sort_cmp _ el)) as [c|] eqn:Ef; simpl.
  - pose proof (List.find_some _ _ Ef) as [Hin Hc]. apply list_elem_of_In, elem_of_sort_cmp, Hel in Hin as [He Hin].
    zb. unfold eligible in He. zb.
    match goal with H : bool_decide _ = true |- _ => apply bool_decide_eq_true in H end. exists c. split_and!; try done; try lia.
    + by destruct (region c).
    + intros c' Hc' He' Hr'.
      destruct (find_sorted_least (cmp_retire candidates now minUp) _ _ _ c' Ef) as [?|?]; auto.
      * apply Hel. split; done.
      * by apply Z.ltb_lt.
  - intros c Hc He. pose proof (List.find_none _ _ Ef c) as Hn. simpl in Hn.
    rewrite <-list_elem_of_In, elem_of_sort_cmp, Hel in Hn. specialize (Hn (conj He Hc)). zb. lia.
Qed.

(** Protection fails closed and is read once per pass: the resolver says a
    channel is free to go only when the reader is a function, the binding of the
    channel is known, and the obligations in force (those read at the start of
    the pass, else those it reads now) are a set without the peer; a pass id
    already seen never reads again. *)
Theorem protection_fails_closed {set} (has : set → string → bool) hex k provider nid passId :
  (resolve has hex k provider nid passId).2 = false ↔
    ∃ run n s, provider = R_function run ∧ nid = B_nodeId n ∧ has s (hex n) = false ∧
      (if same_pass passId k then cachedSet k = Some s else run = Some (Some s)).
Proof.
  unfold resolve. split.
  - destruct provider as [| |run]; [done..|]. destruct nid as [| |n]; [done..|].
    destruct (same_pass passId k) eqn:E.
    + simpl. destruct (cachedSet k) as [s|] eqn:Es; [|done]. intros. eauto 10.
    + destruct run as [[s|]|]; [|done..]. simpl. intros. eauto 10.
  - intros (run & n & s & -> & -> & Hs & H). destruct (same_pass passId k).
    + simpl. by rewrite H.
    + by subst.
Qed.

Lemma sanitize_loop_spec l seen :
  NoDup (sanitize_loop l seen) ∧
  ∀ v, v ∈ sanitize_loop l seen ↔ JStr v ∈ l ∧ HEX66 v = true ∧ v ∉ seen.
Proof.
  revert seen. induction l as [|x l IH]; intros seen; cbn [sanitize_loop].
  { split; [constructor|]. intros v. rewrite !elem_of_nil. tauto. }
  destruct x as [| | | | | | |s|]; try (destruct (IH seen) as [H1 H2]; split; [done|]; intros v;
    rewrite H2, elem_of_cons; split; [tauto|]; intros ([?|?] & ?); [done|tauto]).
  destruct (negb (HEX66 s) || bool_decide (s ∈ seen)) eqn:E.
  - destruct (IH seen) as [H1 H2]. split; [done|]. intros v. rewrite H2, elem_of_cons.
    split; [tauto|]. intros ([[= ->]|?] & Hh & Hs); [|done]. exfalso.
    rewrite Hh, bool_decide_false in E by done. done.
  - apply orb_false_iff in E as [E1%negb_false_iff E2%bool_decide_eq_false].
    destruct (IH (s :: seen)) as [H1 H2]. split.
    + constructor; [|done]. rewrite H2. set_solver.
    + intros v. rewrite elem_of_cons, H2, !elem_of_cons.
      destruct (decide (v = s)) as [->|Hne]; [tauto|]. split.
      * intros [?|(? & ? & ?)]; [done|tauto].
      * intros ([Heq|?] & ? & ?); [congruence|tauto].
Qed.

Lemma length_sanitize_loop l seen : (length (sanitize_loop l seen) ≤ length l)%nat.
Proof.
  revert seen. induction l as [|x l IH]; intros seen; cbn [sanitize_loop length]; [lia|].
  pose proof (IH seen). destruct x; try lia. case_match; [lia|]. cbn [length]. specialize (IH (s :: seen)). lia.
Qed.

(** A graduated sample is bounded and clean: at most 64 ids, no duplicates,
    every one a 66-digit lower-case hex string that the first 64 entries of the
    field carry, and none of those is dropped. *)
Theorem graduated_sample_sane field :
  (length (sanitizeGraduatedSample field) ≤ GRADUATED_SAMPLE_MAX)%nat ∧
  NoDup (sanitizeGraduatedSample field) ∧
  ∀ v, v ∈ sanitizeGraduatedSample field ↔
    ∃ l, field = Some l ∧ JStr v ∈ take GRADUATED_SAMPLE_MAX l ∧ HEX66 v = true.
Proof.
  destruct field as [l|]; cbn [sanitizeGraduatedSample].
  - destruct (sanitize_loop_spec (take GRADUATED_SAMPLE_MAX l) []) as [H1 H2]. split_and!; [|done|].
    + etrans; [apply length_sanitize_loop|]. rewrite length_take. lia.
    + intros v. rewrite H2. split.
      * intros (? & ? & _). eauto.
      * intros (l' & [= <-] & ? & ?). split_and!; try done. apply not_elem_of_nil.
  - split_and!; [simpl; lia|constructor|]. intros v. rewrite elem_of_nil. naive_solver.
Qed.
