(* ===== verification/DeadPeers.v ===== *)
(** The dead-peer mark table and its automaton: [src/src/dht/DeadPeers.js].

    [dp] is the [Map] subclass with its latch, policy count and counters; each
    method is one definition taking the monotonic reading [now] and the wall
    reading [wall] it would make.  [Infinity] as a due time is [None]. *)

From stdpp Require Import base tactics sets list numbers strings.
From Stdlib Require Import ZArith Lia.
From S2P Require Import Prelude.

Inductive mark_kind := loss | policy.
#[export] Instance mark_kind_eq_dec : EqDecision mark_kind.
Proof. solve_decision. Defined.

Record mark := mk_mark {
  kind : mark_kind; cause : string; at_ : Z; attempts : Z; dueAt : option Z; token : bool; seq : Z
}.

(** [cfg]: the clamped options. *)
Record dconfig := mk_dconfig {
  B : Z; factor : Z; A_max : Z; R_refill : Z; M_marks : Z; M_hyst : Z; M_policy : Z
}.

Record dstats := mk_dstats {
  fails : Z; consumed : Z; refilled : Z; evicted : Z; refusedFull : Z; policyRefused : Z;
  ineligibleUnmarked : Z
}.

Record dp := mk_dp {
  cfg : dconfig; marks : jmap Z mark; fullLatched : bool; policyCount : Z; dseq : Z; dst : dstats
}.

Definition dnum (v : option Z) (d min : Z) : Z := match v with Some n => Z.max min n | None => d end.

(** The constructor; an option is what [Number] makes of it when finite. *)
Definition new_dp (oB ofactor oA oR oM oH oP : option Z) : dp :=
  mk_dp (mk_dconfig (dnum oB 30000 0) (dnum ofactor 2 1) (dnum oA 4 1) (dnum oR 60000 0)
           (dnum oM 256 1) (dnum oH 32 0) (dnum oP 1024 1))
    [] false 0 0 (mk_dstats 0 0 0 0 0 0 0).

Definition with_marks (D : dp) m := mk_dp (cfg D) m (fullLatched D) (policyCount D) (dseq D) (dst D).
Definition with_dst (D : dp) s := mk_dp (cfg D) (marks D) (fullLatched D) (policyCount D) (dseq D) s.
Definition bump_fails (D : dp) := with_dst D (mk_dstats (fails (dst D) + 1) (consumed (dst D)) (refilled (dst D)) (evicted (dst D)) (refusedFull (dst D)) (policyRefused (dst D)) (ineligibleUnmarked (dst D))).
Definition bump_consumed (D : dp) := with_dst D (mk_dstats (fails (dst D)) (consumed (dst D) + 1) (refilled (dst D)) (evicted (dst D)) (refusedFull (dst D)) (policyRefused (dst D)) (ineligibleUnmarked (dst D))).
Definition bump_refilled (D : dp) := with_dst D (mk_dstats (fails (dst D)) (consumed (dst D)) (refilled (dst D) + 1) (evicted (dst D)) (refusedFull (dst D)) (policyRefused (dst D)) (ineligibleUnmarked (dst D))).
Definition bump_evicted (D : dp) := with_dst D (mk_dstats (fails (dst D)) (consumed (dst D)) (refilled (dst D)) (evicted (dst D) + 1) (refusedFull (dst D)) (policyRefused (dst D)) (ineligibleUnmarked (dst D))).
Definition bump_refusedFull (D : dp) := with_dst D (mk_dstats (fails (dst D)) (consumed (dst D)) (refilled (dst D)) (evicted (dst D)) (refusedFull (dst D) + 1) (policyRefused (dst D)) (ineligibleUnmarked (dst D))).
Definition bump_policyRefused (D : dp) := with_dst D (mk_dstats (fails (dst D)) (consumed (dst D)) (refilled (dst D)) (evicted (dst D)) (refusedFull (dst D)) (policyRefused (dst D) + 1) (ineligibleUnmarked (dst D))).
Definition bump_ineligible (D : dp) := with_dst D (mk_dstats (fails (dst D)) (consumed (dst D)) (refilled (dst D)) (evicted (dst D)) (refusedFull (dst D)) (policyRefused (dst D)) (ineligibleUnmarked (dst D) + 1)).

(** * Internals *)

Definition schedule (D : dp) (now attempts : Z) : Z :=
  if A_max (cfg D) <=? attempts then now + R_refill (cfg D)
  else now + B (cfg D) * factor (cfg D) ^ (attempts - 1).

Definition lossCount (D : dp) : Z := jsize (marks D) - policyCount D.

Definition latch (D : dp) : dp :=
  let l := lossCount D in
  let f := if M_marks (cfg D) <=? l then true
           else if l <? M_marks (cfg D) - M_hyst (cfg D) then false else fullLatched D in
  mk_dp (cfg D) (marks D) f (policyCount D) (dseq D) (dst D).

Definition policyFull (D : dp) : bool := M_policy (cfg D) <=? policyCount D.
Definition marksFull (D : dp) : bool := fullLatched D.

(** A mark [_admitWrite] may evict. *)
Definition evictable (D : dp) (m : mark) : bool :=
  bool_decide (kind m = loss) && (A_max (cfg D) <=? attempts m) && negb (token m).

(** The victim: the evictable mark of least [seq]. *)
Definition victim (D : dp) : option (Z * mark) :=
  foldl (λ acc p,
    if negb (evictable D p.2) then acc
    else match acc with
         | None => Some p
         | Some v => if seq p.2 <? seq v.2 then Some p else acc
         end) None (marks D).

Definition admitWrite (D : dp) : dp * bool :=
  if lossCount D <? M_marks (cfg D) then (D, true)
  else
    match victim D with
    | None => (bump_refusedFull D, false)
    | Some (k, _) => (bump_evicted (with_marks D (jdel (marks D) k)), true)
    end.

(** [this.set(id, {.., seq: ++this._seq})] *)
Definition put_mark (D : dp) (i : Z) (m : mark) : dp :=
  mk_dp (cfg D) (jset (marks D) i m) (fullLatched D) (policyCount D) (dseq D + 1) (dst D).

(** * Operations *)

Definition add (D : dp) (i now wall : Z) : dp :=
  if jhas (marks D) i then D
  else
    let '(D, ok) := admitWrite D in
    if negb ok then D
    else latch (put_mark D i (mk_mark loss "unknown" wall 0 (Some (now + B (cfg D))) false (dseq D + 1))).

Definition delete (D : dp) (i : Z) : dp * bool :=
  match jget (marks D) i with
  | None => (latch D, false)
  | Some m =>
      let D := with_marks D (jdel (marks D) i) in
      let D := match kind m with
               | policy => mk_dp (cfg D) (marks D) (fullLatched D) (Z.max 0 (policyCount D - 1)) (dseq D) (dst D)
               | loss => D
               end in
      (latch D, true)
  end.

Definition clear (D : dp) : dp := mk_dp (cfg D) [] false 0 (dseq D) (dst D).

Definition eligible (D : dp) (i now : Z) : dp * bool :=
  match jget (marks D) i with
  | None =>
      let ok := negb (fullLatched D || policyFull D) in
      (if ok then D else bump_ineligible D, ok)
  | Some m =>
      match kind m with
      | policy => (D, false)
      | loss =>
          if match dueAt m with Some d => now <? d | None => true end then (D, false)
          else if attempts m <? A_max (cfg D) then (D, true)
          else if token m then (D, true)
          else
            (bump_refilled (with_marks D (jset (marks D) i
               (mk_mark (kind m) (cause m) (at_ m) (attempts m) (dueAt m) true (seq m)))), true)
      end
  end.

(** [cause || 'unknown'] *)
Definition cause_of (c : option string) : string :=
  match c with Some c => if decide (c = "") then "unknown" else c | None => "unknown" end.

Definition fail (D : dp) (i : Z) (c : option string) (at0 : option Z) (now wall : Z) : dp * option mark :=
  let w := default wall at0 in
  match jget (marks D) i with
  | Some m =>
      match kind m with
      | policy => (D, Some m)
      | loss =>
          let a := Z.min (attempts m + 1) (A_max (cfg D)) in
          let m := mk_mark (kind m) (cause_of c) w a (Some (schedule D now a)) false (seq m) in
          (bump_fails (with_marks D (jset (marks D) i m)), Some m)
      end
  | None =>
      let '(D, ok) := admitWrite D in
      if negb ok then (D, None)
      else
        let rec := mk_mark loss (cause_of c) w 1 (Some (schedule D now 1)) false (dseq D + 1) in
        (latch (bump_fails (put_mark D i rec)), Some rec)
  end.

Definition consume (D : dp) (i now : Z) : dp :=
  match jget (marks D) i with
  | None => D
  | Some m =>
      match kind m with
      | policy => D
      | loss =>
          let D := bump_consumed D in
          if A_max (cfg D) <=? attempts m then
            with_marks D (jset (marks D) i
              (mk_mark (kind m) (cause m) (at_ m) (attempts m) (Some (now + R_refill (cfg D))) false (seq m)))
          else D
      end
  end.

Definition bind (D : dp) (i : Z) : dp * bool := delete D i.

Definition markPolicy (D : dp) (i : Z) (c : string) (at0 : option Z) (wall : Z) : dp :=
  let w := default wall at0 in
  let write (D : dp) :=
    let D := put_mark D i (mk_mark policy c w 0 None false (dseq D + 1)) in
    latch (mk_dp (cfg D) (marks D) (fullLatched D) (policyCount D + 1) (dseq D) (dst D)) in
  match jget (marks D) i with
  | Some m =>
      match kind m with
      | policy =>
          with_marks D (jset (marks D) i (mk_mark policy c w (attempts m) (dueAt m) (token m) (seq m)))
      | loss =>
          if policyFull D then bump_policyRefused D else write (with_marks D (jdel (marks D) i))
      end
  | None => if policyFull D then bump_policyRefused D else write D
  end.

(** [mark(id, {kind, cause, at})] *)
Definition mark_ (D : dp) (i : Z) (k : option string) (c : option string) (at0 : option Z) (now wall : Z) : dp :=
  if decide (k = Some "policy") then markPolicy D i (cause_of c) at0 wall
  else (fail D i (Some (cause_of c)) at0 now wall).1.

Record dview := mk_dview { v_size : Z; v_loss : Z; v_policy : Z; v_exhausted : Z; v_waiting : Z; v_full : bool; v_pfull : bool }.
Definition exhausted (D : dp) (m : mark) : bool := bool_decide (kind m = loss) && (A_max (cfg D) <=? attempts m).
Definition stats (D : dp) : dview :=
  mk_dview (jsize (marks D)) (lossCount D) (policyCount D)
    (jsum (λ _ m, if exhausted D m then 1 else 0) (marks D))
    (jsum (λ _ m, if exhausted D m && negb (token m) then 1 else 0) (marks D))
    (fullLatched D) (policyFull D).

(** * Operations as steps *)

Inductive dop :=
| DAdd (i now wall : Z)
| DDelete (i : Z)
| DClear
| DEligible (i now : Z)
| DFail (i : Z) (c : option string) (at0 : option Z) (now wall : Z)
| DConsume (i now : Z)
| DMark (i : Z) (k c : option string) (at0 : option Z) (now wall : Z).

Definition dstep (D : dp) (o : dop) : dp :=
  match o with
  | DAdd i now wall => add D i now wall
  | DDelete i => (delete D i).1
  | DClear => clear D
  | DEligible i now => (eligible D i now).1
  | DFail i c a now wall => (fail D i c a now wall).1
  | DConsume i now => consume D i now
  | DMark i k c a now wall => mark_ D i k c a now wall
  end.

(** The monotonic reading an operation makes, where it makes one. *)
Definition dop_now (o : dop) : option Z :=
  match o with
  | DAdd _ now _ | DEligible _ now | DFail _ _ _ now _ | DConsume _ now | DMark _ _ _ _ now _ => Some now
  | DDelete _ | DClear => None
  end.

(** * The invariant *)

Definition is_policy (m : mark) : Z := if decide (kind m = policy) then 1 else 0.
Definition policies (m : jmap Z mark) : Z := jsum (λ _ x, is_policy x) m.

Lemma is_policy_nonneg m : 0 ≤ is_policy m.
Proof. unfold is_policy. case_decide; lia. Qed.

Lemma is_policy_loss m : kind m = loss → is_policy m = 0.
Proof. unfold is_policy. by intros ->. Qed.
Lemma is_policy_policy m : kind m = policy → is_policy m = 1.
Proof. unfold is_policy. by intros ->. Qed.

Lemma policies_jdel m i x : jwf m → jget m i = Some x → policies (jdel m i) = policies m - is_policy x.
Proof. intros Hw Hg. unfold policies. by rewrite jsum_jdel, Hg. Qed.
Lemma policies_jset m i x x' :
  jget m i = Some x → policies (jset m i x') = policies m - is_policy x + is_policy x'.
Proof. intros Hg. unfold policies. rewrite jsum_jset, Hg. lia. Qed.
Lemma policies_jset_new m i x : jget m i = None → policies (jset m i x) = policies m + is_policy x.
Proof. intros Hg. unfold policies. rewrite jsum_jset, Hg. lia. Qed.

Lemma policies_le m : 0 ≤ policies m ≤ jsize m.
Proof.
  unfold policies, jsize. induction m as [|[k x] m IH]; simpl; [lia|].
  unfold is_policy at 1 3. case_decide; lia.
Qed.

Record dwf (D : dp) : Prop := {
  dw_jwf : jwf (marks D);
  dw_policy : policyCount D = policies (marks D);
  dw_pbound : policyCount D ≤ M_policy (cfg D);
  dw_lbound : lossCount D ≤ M_marks (cfg D);
  dw_full : M_marks (cfg D) ≤ lossCount D → fullLatched D = true;
  dw_free : lossCount D < M_marks (cfg D) - M_hyst (cfg D) → fullLatched D = false;
  dw_attempts : ∀ i m, jget (marks D) i = Some m → 0 ≤ attempts m ≤ A_max (cfg D);
  dw_cfg : 1 ≤ A_max (cfg D) ∧ 1 ≤ M_marks (cfg D) ∧ 0 ≤ M_hyst (cfg D) ∧ 0 ≤ M_policy (cfg D) ∧ 0 ≤ R_refill (cfg D)
}.

(** The table after a write that changed its counts, once latched. *)
Lemma latch_wf D :
  jwf (marks D) → policyCount D = policies (marks D) → policyCount D ≤ M_policy (cfg D) →
  lossCount D ≤ M_marks (cfg D) →
  (∀ i m, jget (marks D) i = Some m → 0 ≤ attempts m ≤ A_max (cfg D)) →
  1 ≤ A_max (cfg D) ∧ 1 ≤ M_marks (cfg D) ∧ 0 ≤ M_hyst (cfg D) ∧ 0 ≤ M_policy (cfg D) ∧ 0 ≤ R_refill (cfg D) →
  dwf (latch D).
Proof.
  intros H1 H2 H3 H4 H5 H6. split; try done; unfold latch, lossCount in *; simpl.
  - intros. by rewrite (proj2 (Z.leb_le _ _)).
  - intros. rewrite (proj2 (Z.leb_gt _ _)) by lia. by rewrite (proj2 (Z.ltb_lt _ _)).
Qed.

(** A mark replaced by one of the same kind. *)
Lemma set_same_wf D D' i m m' :
  dwf D → jget (marks D) i = Some m → kind m' = kind m → 0 ≤ attempts m' ≤ A_max (cfg D) →
  cfg D' = cfg D → fullLatched D' = fullLatched D → policyCount D' = policyCount D →
  marks D' = jset (marks D) i m' → dwf D'.
Proof.
  intros [W1 W2 W3 W4 W5 W6 W7 W8] Hg Hk Ha E1 E2 E3 E4.
  assert (jsize (marks D') = jsize (marks D)) as Hs.
  { rewrite E4, jsize_jset. unfold jhas. rewrite Hg. lia. }
  unfold lossCount in *. split; unfold lossCount; rewrite ?E1, ?E2, ?E3, ?Hs; try done.
  - rewrite E4. auto with axona.
  - rewrite E4, W2, (policies_jset _ _ m) by done. unfold is_policy. rewrite Hk. lia.
  - intros j x. rewrite E4, jget_jset. case_decide; [intros [= <-]; done|apply W7].
Qed.

Lemma dst_wf D D' :
  dwf D → cfg D' = cfg D → fullLatched D' = fullLatched D → policyCount D' = policyCount D →
  marks D' = marks D → dwf D'.
Proof.
  intros [W1 W2 W3 W4 W5 W6 W7 W8] E1 E2 E3 E4. unfold lossCount in *.
  split; unfold lossCount; rewrite ?E1, ?E2, ?E3, ?E4; done.
Qed.

Lemma victim_spec D k m :
  victim D = Some (k, m) → (k, m) ∈ marks D ∧ evictable D m = true ∧
    ∀ k' m', (k', m') ∈ marks D → evictable D m' = true → seq m ≤ seq m'.
Proof.
  unfold victim.
  set (f := λ (acc : option (Z * mark)) (p : Z * mark), _).
  assert (∀ l acc, foldl f acc l = Some (k, m) →
    (acc = Some (k, m) ∨ ((k, m) ∈ l ∧ evictable D m = true)) ∧
    (∀ v, acc = Some v → seq m ≤ seq v.2) ∧
    ∀ k' m', (k', m') ∈ l → evictable D m' = true → seq m ≤ seq m') as H.
  { intros l. induction l as [|[k1 m1] l IH]; intros acc Hf; cbn [foldl] in Hf.
    - subst acc. split_and!; [by left|by intros v [= <-]|]. by intros ?? ?%elem_of_nil.
    - apply IH in Hf as (H1 & H2 & H3). unfold f in H1, H2. cbn [snd] in H1, H2.
      destruct (evictable D m1) eqn:E; cbn [negb] in H1, H2.
      + assert (seq m ≤ seq m1 ∧ ∀ v, acc = Some v → seq m ≤ seq v.2) as [Hm1 Hacc].
        { destruct acc as [v|]; [|by split; [apply (H2 (k1, m1))|]]. destruct (seq m1 <? seq v.2) eqn:Es; zb.
          - pose proof (H2 _ eq_refl). simpl in *. split; [done|]. intros ? [= <-]. lia.
          - pose proof (H2 _ eq_refl). simpl in *. split; [lia|]. intros ? [= <-]. lia. }
        split_and!.
        * destruct H1 as [H1|[? ?]]; [|right; split; [by right|done]].
          destruct acc as [v|]; [destruct (seq m1 <? seq v.2)|]; simplify_eq;
            [right; split; [by left|done]|by left|right; split; [by left|done]].
        * done.
        * intros k' m' [?|?]%elem_of_cons ?; [by simplify_eq|by eapply H3].
      + split_and!; [|done|].
        * destruct H1 as [?|[? ?]]; [by left|right; split; [by right|done]].
        * intros k' m' [?|?]%elem_of_cons ?; [simplify_eq; congruence|by eapply H3]. }
  intros Hf. destruct (H _ _ Hf) as ([?|[? ?]] & _ & ?); [done|]. split_and!; done.
Qed.

(** [_admitWrite] leaves room for one more loss mark, at the price of an
    exhausted, waiting one at most. *)
Lemma admitWrite_spec D D' :
  dwf D → admitWrite D = (D', true) →
  cfg D' = cfg D ∧ policyCount D' = policyCount D ∧ dseq D' = dseq D ∧ jwf (marks D') ∧
  policies (marks D') = policyCount D ∧ lossCount D' < M_marks (cfg D) ∧
  (∀ i m, jget (marks D') i = Some m → jget (marks D) i = Some m) ∧
  (∀ i m, jget (marks D) i = Some m → jget (marks D') i = None → evictable D m = true).
Proof.
  intros [W1 W2 W3 W4 W5 W6 W7 W8]. unfold admitWrite. case_match eqn:El; zb.
  - intros [= <-]. split_and!; try done. congruence.
  - destruct (victim D) as [[k m]|] eqn:Ev; [|done]. intros [= <-].
    apply victim_spec in Ev as (Hin & He & _). apply elem_jget in Hin; [|done].
    assert (kind m = loss) as Hk.
    { unfold evictable in He. zb. by match goal with H : bool_decide _ = true |- _ => apply bool_decide_eq_true in H end. }
    unfold lossCount in *. simpl. split_and!; try done.
    + auto with axona.
    + rewrite (policies_jdel _ _ m), is_policy_loss by done. lia.
    + rewrite jsize_jdel by done. unfold jhas. rewrite Hin. lia.
    + intros i m'. rewrite jget_jdel. by case_decide.
    + intros i m'. rewrite jget_jdel. case_decide; [|congruence]. subst. congruence.
Qed.

Lemma admitWrite_refused D D' :
  admitWrite D = (D', false) → D' = bump_refusedFull D ∧ M_marks (cfg D) ≤ lossCount D.
Proof.
  unfold admitWrite. case_match eqn:El; zb; [done|]. destruct (victim D) as [[k m]|]; [done|]. by intros [= <-].
Qed.

(** Writing a fresh loss mark in the room [_admitWrite] made. *)
Lemma write_loss_wf D0 D D1 i m :
  dwf D0 → admitWrite D0 = (D, true) → jget (marks D0) i = None → kind m = loss →
  0 ≤ attempts m ≤ A_max (cfg D0) → cfg D1 = cfg D → marks D1 = jset (marks D) i m →
  policyCount D1 = policyCount D → dwf (latch D1).
Proof.
  intros Hw Ha Hn Hk Hat E1 E2 E3.
  destruct (admitWrite_spec _ _ Hw Ha) as (A1 & A2 & A3 & A4 & A5 & A6 & A7 & _).
  destruct Hw as [W1 W2 W3 W4 W5 W6 W7 W8].
  assert (jget (marks D) i = None) as Hn'.
  { destruct (jget (marks D) i) eqn:E; [|done]. apply A7 in E. congruence. }
  apply latch_wf; rewrite ?E1, ?A1; try done.
  - rewrite E2. auto with axona.
  - rewrite E3, A2, E2, policies_jset_new, is_policy_loss by done. lia.
  - by rewrite E3, A2.
  - unfold lossCount in *. rewrite E2, E3, jsize_jset. unfold jhas. rewrite Hn'. lia.
  - intros j x. rewrite E2, jget_jset. case_decide; [intros [= <-]; done|]. intros Hx. by eapply W7, A7.
Qed.

Lemma delete_wf D i : dwf D → dwf (delete D i).1.
Proof.
  intros Hw. unfold delete. destruct (jget (marks D) i) as [m|] eqn:Hg.
  - destruct Hw as [W1 W2 W3 W4 W5 W6 W7 W8]. pose proof (policies_le (jdel (marks D) i)) as Hp.
    assert (policies (jdel (marks D) i) = policyCount D - is_policy m) as Hpd.
    { rewrite (policies_jdel _ _ m) by done. lia. }
    assert (jsize (jdel (marks D) i) = jsize (marks D) - 1) as Hs.
    { rewrite jsize_jdel by done. unfold jhas. by rewrite Hg. }
    assert (∀ j x, jget (jdel (marks D) i) j = Some x → 0 ≤ attempts x ≤ A_max (cfg D)) as Hat.
    { intros j x. rewrite jget_jdel. case_decide; [done|apply W7]. }
    assert (jwf (jdel (marks D) i)) by auto with axona. unfold lossCount in *.
    destruct (kind m) eqn:Ek;
      [rewrite is_policy_loss in Hpd by done|rewrite is_policy_policy in Hpd by done];
      apply latch_wf; unfold lossCount; simpl; try done; lia.
  - destruct Hw as [W1 W2 W3 W4 W5 W6 W7 W8]. by apply latch_wf.
Qed.

Lemma fail_wf D i c a now wall : dwf D → dwf (fail D i c a now wall).1.
Proof.
  intros Hw. unfold fail. destruct (jget (marks D) i) as [m|] eqn:Hg.
  - destruct (kind m) eqn:Ek; [|done]. pose proof (dw_attempts _ Hw i m Hg). pose proof (dw_cfg _ Hw).
    eapply (set_same_wf D _ i m); [done|done|..|reflexivity]; simpl; try done; lia.
  - destruct (admitWrite D) as [D1 []] eqn:Ea; cbn [negb].
    + pose proof (dw_cfg _ Hw).
      eapply (write_loss_wf D D1); [done|done|done|..|reflexivity|reflexivity]; simpl; try done; lia.
    + apply admitWrite_refused in Ea as [-> _]. by apply (dst_wf D).
Qed.

Lemma markPolicy_wf D i c a wall : dwf D → dwf (markPolicy D i c a wall).
Proof.
  intros Hw. unfold markPolicy.
  destruct (jget (marks D) i) as [m|] eqn:Hg; [destruct (kind m) eqn:Ek|].
  - destruct (policyFull D) eqn:Ef; [by apply (dst_wf D)|]. unfold policyFull in Ef. zb.
    destruct Hw as [W1 W2 W3 W4 W5 W6 W7 W8]. unfold lossCount in *.
    apply latch_wf; unfold lossCount; simpl; try done; try lia.
    + auto with axona.
    + rewrite policies_jset_new, (policies_jdel _ _ m), (is_policy_loss m) by (done || apply jget_jdel_eq).
      rewrite is_policy_policy by done. lia.
    + rewrite jsize_jset, jsize_jdel by done. unfold jhas. rewrite jget_jdel_eq, Hg. lia.
    + intros j x. rewrite jget_jset. case_decide; [intros [= <-]; simpl; lia|]. rewrite jget_jdel.
      case_decide; [done|apply W7].
  - pose proof (dw_attempts _ Hw i m Hg). eapply (set_same_wf D _ i m); [done|done|..|reflexivity]; simpl; done.
  - destruct (policyFull D) eqn:Ef; [by apply (dst_wf D)|]. unfold policyFull in Ef. zb.
    destruct Hw as [W1 W2 W3 W4 W5 W6 W7 W8]. unfold lossCount in *.
    apply latch_wf; unfold lossCount; simpl; try done; try lia.
    + auto with axona.
    + rewrite policies_jset_new, is_policy_policy by done. lia.
    + rewrite jsize_jset. unfold jhas. rewrite Hg. lia.
    + intros j x. rewrite jget_jset. case_decide; [intros [= <-]; simpl; lia|]. apply W7.
Qed.

Lemma dstep_wf D o : dwf D → dwf (dstep D o).
Proof.
  intros Hw. destruct o; cbn [dstep].
  - unfold add. case_match eqn:Hj; [done|]. apply jhas_false in Hj.
    destruct (admitWrite D) as [D1 []] eqn:Ea; cbn [negb].
    + pose proof (dw_cfg _ Hw).
      eapply (write_loss_wf D D1); [done|done|done|..|reflexivity|reflexivity]; simpl; try done; lia.
    + apply admitWrite_refused in Ea as [-> _]. by apply (dst_wf D).
  - by apply delete_wf.
  - destruct Hw as [W1 W2 W3 W4 W5 W6 W7 W8]. unfold clear.
    split; unfold lossCount, jsize; simpl; try done; try lia. apply jwf_nil.
  - unfold eligible. destruct (jget (marks D) i) as [m|] eqn:Hg.
    + destruct (kind m) eqn:Ek; [|done]. destruct (match dueAt m with Some d => now <? d | None => true end); [done|].
      destruct (attempts m <? A_max (cfg D)); [done|]. destruct (token m); [done|].
      pose proof (dw_attempts _ Hw i m Hg). eapply (set_same_wf D _ i m); [done|done|..|reflexivity]; simpl; done.
    + case_match; [done|]. by apply (dst_wf D).
  - by apply fail_wf.
  - unfold consume. destruct (jget (marks D) i) as [m|] eqn:Hg; [|done].
    destruct (kind m) eqn:Ek; [|done]. case_match; [|by apply (dst_wf D)].
    pose proof (dw_attempts _ Hw i m Hg). eapply (set_same_wf D _ i m); [done|done|..|reflexivity]; simpl; done.
  - unfold mark_. case_decide; [by apply markPolicy_wf|by apply fail_wf].
Qed.

Lemma new_dp_wf oB ofac oA oR oM oH oP : dwf (new_dp oB ofac oA oR oM oH oP).
Proof.
  assert (∀ v d mn, mn ≤ d → mn ≤ dnum v d mn) as Hn by (intros [|]; simpl; lia).
  pose proof (Hn oA 4 1). pose proof (Hn oM 256 1). pose proof (Hn oH 32 0). pose proof (Hn oP 1024 1).
  pose proof (Hn oR 60000 0).
  split; unfold new_dp, lossCount, jsize; cbn [cfg A_max M_marks M_hyst M_policy R_refill marks policyCount
    fullLatched length]; try done; try lia; [apply jwf_nil].
Qed.

(** States reached from a new table. *)
Inductive dreach : dp → Prop :=
| dreach_new oB ofac oA oR oM oH oP : dreach (new_dp oB ofac oA oR oM oH oP)
| dreach_op D o : dreach D → dreach (dstep D o).

Lemma dreach_wf D : dreach D → dwf D.
Proof. induction 1; auto using new_dp_wf, dstep_wf. Qed.

(** * What becomes of one mark *)

Lemma latch_marks D : marks (latch D) = marks D.
Proof. done. Qed.

Lemma admit_keeps D D' b i m :
  jwf (marks D) → admitWrite D = (D', b) → jget (marks D) i = Some m → evictable D m = false →
  jget (marks D') i = Some m.
Proof.
  unfold admitWrite. intros Hw. case_match; [by intros [= <- <-]|].
  destruct (victim D) as [[k x]|] eqn:Ev; [|by intros [= <- <-]]. intros [= <- <-] Hg He.
  apply victim_spec in Ev as (Hin & Hx & _). apply elem_jget in Hin; [|done].
  simpl. rewrite jget_jdel_ne; [done|]. intros ->. congruence.
Qed.

Lemma admit_keeps_or D D' b i m :
  jwf (marks D) → admitWrite D = (D', b) → jget (marks D) i = Some m →
  jget (marks D') i = Some m ∨ (jget (marks D') i = None ∧ evictable D m = true).
Proof.
  intros Hw Ha Hg. destruct (evictable D m) eqn:E; [|left; by eapply admit_keeps].
  unfold admitWrite in Ha. case_match; [simplify_eq; by left|].
  destruct (victim D) as [[k x]|]; simplify_eq; [|by left]. simpl. rewrite jget_jdel.
  case_decide; [by right|by left].
Qed.

Lemma admit_cfg D D' b : admitWrite D = (D', b) → cfg D' = cfg D ∧ (∀ i m, jget (marks D') i = Some m → jget (marks D) i = Some m).
Proof.
  unfold admitWrite. case_match; [by intros [= <- <-]|]. destruct (victim D) as [[k x]|]; intros [= <- <-]; [|done].
  split; [done|]. intros i m. simpl. rewrite jget_jdel. by case_decide.
Qed.

(** How an operation at [now] may have changed a mark that is still there. *)
Definition mark_evolves (c : dconfig) (now : option Z) (m m' : mark) : Prop :=
  kind m' = policy ∨
  (kind m = loss ∧ kind m' = loss ∧ attempts m ≤ attempts m' ∧
    (dueAt m' = dueAt m ∨
     (∃ n, now = Some n ∧ A_max c ≤ attempts m' ∧ dueAt m' = Some (n + R_refill c)) ∨
     (attempts m' < A_max c))).

Lemma mark_evolves_refl c n m : mark_evolves c n m m.
Proof. unfold mark_evolves. destruct (kind m); [right|by left]. split_and!; (done || lia || by left). Qed.

(** The mark looked at is untouched. *)
Ltac same_mark := simpl; intros; simplify_eq/=; apply mark_evolves_refl.

Lemma schedule_evolves D now a : A_max (cfg D) ≤ a → schedule D now a = now + R_refill (cfg D).
Proof. intros. unfold schedule. by rewrite (proj2 (Z.leb_le _ _)). Qed.

Lemma fail_evolves D i c a now wall j m m' :
  dwf D → jget (marks D) j = Some m → jget (marks (fail D i c a now wall).1) j = Some m' →
  mark_evolves (cfg D) (Some now) m m'.
Proof.
  intros Hw Hj. unfold fail. destruct (jget (marks D) i) as [x|] eqn:Hi.
  - destruct (kind x) eqn:Ek; simpl.
    + rewrite jget_jset. case_decide; subst.
      * simplify_eq. intros [= <-]. pose proof (dw_attempts _ Hw j m Hj). right. simpl.
        set (k := Z.min (attempts m + 1) (A_max (cfg D))).
        assert (attempts m ≤ k) by (unfold k; lia). split_and!; try done. right.
        destruct (decide (A_max (cfg D) ≤ k)); [left|right; lia].
        exists now. split_and!; [done|lia|]. by rewrite schedule_evolves.
      * intros. simplify_eq. apply mark_evolves_refl.
    + intros. simplify_eq. apply mark_evolves_refl.
  - assert (j ≠ i) by congruence. destruct (admitWrite D) as [D1 []] eqn:Ea; simpl.
    + rewrite jget_jset_ne by done. intros Hm'. apply (admit_cfg _ _ _ Ea) in Hm'. simplify_eq. apply mark_evolves_refl.
    + intros Hm'. apply (admit_cfg _ _ _ Ea) in Hm'. simplify_eq. apply mark_evolves_refl.
Qed.

Lemma delete_get D i j :
  jget (marks (delete D i).1) j = if decide (i = j) then None else jget (marks D) j.
Proof.
  unfold delete. destruct (jget (marks D) i) as [m|] eqn:Hi.
  - destruct (kind m); simpl; apply jget_jdel.
  - simpl. case_decide; [by subst|done].
Qed.

Lemma dstep_evolves D o j m m' :
  dwf D → jget (marks D) j = Some m → jget (marks (dstep D o)) j = Some m' →
  mark_evolves (cfg D) (dop_now o) m m'.
Proof.
  intros Hw Hj. destruct o; cbn [dstep dop_now].
  - unfold add. case_match eqn:Hh; [same_mark|]. apply jhas_false in Hh.
    assert (j ≠ i) by congruence. destruct (admitWrite D) as [D1 []] eqn:Ea; simpl;
      rewrite ?jget_jset_ne by done; intros Hm'; apply (admit_cfg _ _ _ Ea) in Hm'; simplify_eq; apply mark_evolves_refl.
  - rewrite delete_get. case_decide; [done|same_mark].
  - done.
  - unfold eligible. destruct (jget (marks D) i) as [x|] eqn:Hi.
    + destruct (kind x) eqn:Ek; [|same_mark].
      repeat (match goal with |- context [if ?b then (D, _) else _] => destruct b end;
        [same_mark|]). simpl. rewrite jget_jset. case_decide; subst.
      * simplify_eq. intros [= <-]. right. split_and!; try done. by left.
      * intros. simplify_eq. apply mark_evolves_refl.
    + destruct (negb _); same_mark.
  - by apply fail_evolves.
  - unfold consume. destruct (jget (marks D) i) as [x|] eqn:Hi; [|same_mark].
    destruct (kind x) eqn:Ek; [|same_mark].
    case_match eqn:Ea; [|same_mark]. zb.
    simpl. rewrite jget_jset. case_decide; subst; [|same_mark].
    simplify_eq. intros [= <-]. right. split_and!; try done. right. left. exists now. by split_and!.
  - unfold mark_. case_decide; [|by apply fail_evolves]. unfold markPolicy.
    destruct (jget (marks D) i) as [x|] eqn:Hi; [destruct (kind x) eqn:Ek|].
    + destruct (policyFull D); simpl; [same_mark|].
      rewrite jget_jset, jget_jdel. case_decide; [intros [= <-]; by left|].
      same_mark.
    + simpl. rewrite jget_jset. case_decide; [intros [= <-]; by left|]. same_mark.
    + destruct (policyFull D); simpl; [same_mark|].
      rewrite jget_jset. case_decide; [intros [= <-]; by left|]. same_mark.
Qed.

Lemma eligible_keeps D i now j m :
  jget (marks D) j = Some m → ∃ m', jget (marks (eligible D i now).1) j = Some m'.
Proof.
  intros Hg. unfold eligible. destruct (jget (marks D) i) as [x|].
  - destruct (kind x); [|eauto].
    repeat (match goal with |- context [if ?b then (D, _) else _] => destruct b end; [eauto|]).
    simpl. rewrite jget_jset. case_decide; eauto.
  - destruct (negb _); eauto.
Qed.

(** Once a policy mark, always one (until deleted). *)
Lemma dstep_policy D o j m :
  dwf D → o ≠ DDelete j → o ≠ DClear → jget (marks D) j = Some m → kind m = policy →
  ∃ m', jget (marks (dstep D o)) j = Some m' ∧ kind m' = policy.
Proof.
  intros Hw Hnd Hnc Hj Hk.
  assert (∃ m', jget (marks D) j = Some m' ∧ kind m' = policy) as Hsame by eauto.
  assert (evictable D m = false) as Hne by (unfold evictable; by rewrite Hk).
  assert (∀ i c a now wall, ∃ m', jget (marks (fail D i c a now wall).1) j = Some m' ∧ kind m' = policy) as Hfail.
  { intros i c a now wall. unfold fail. destruct (jget (marks D) i) as [x|] eqn:Hi.
    - destruct (kind x) eqn:Ek; [|done]. simpl. rewrite jget_jset_ne by congruence. eauto.
    - destruct (admitWrite D) as [D1 []] eqn:Ea; simpl;
        pose proof (admit_keeps _ _ _ _ _ (dw_jwf _ Hw) Ea Hj Hne); [|by eauto].
      rewrite jget_jset_ne by congruence. eauto. }
  destruct o; cbn [dstep]; try done; [| | | |].
  - unfold add. case_match eqn:Hh; [done|]. apply jhas_false in Hh.
    destruct (admitWrite D) as [D1 []] eqn:Ea; simpl;
      pose proof (admit_keeps _ _ _ _ _ (dw_jwf _ Hw) Ea Hj Hne); [|by eauto].
    rewrite jget_jset_ne by congruence. eauto.
  - rewrite delete_get, decide_False by congruence. done.
  - unfold eligible. destruct (jget (marks D) i) as [x|] eqn:Hi.
    + destruct (kind x) eqn:Ek; [|done].
      repeat (match goal with |- context [if ?b then (D, _) else _] => destruct b end; [done|]).
      simpl. rewrite jget_jset_ne by congruence. eauto.
    + by destruct (negb _).
  - unfold consume. destruct (jget (marks D) i) as [x|] eqn:Hi; [|done]. destruct (kind x) eqn:Ek; [|done].
    case_match; [|done]. simpl. rewrite jget_jset_ne by congruence. eauto.
  - unfold mark_. case_decide; [|by apply Hfail]. unfold markPolicy.
    destruct (jget (marks D) i) as [x|] eqn:Hi; [destruct (kind x) eqn:Ek|].
    + destruct (policyFull D); [done|]. simpl. rewrite jget_jset. case_decide; [eauto|].
      rewrite jget_jdel_ne by done. eauto.
    + simpl. rewrite jget_jset. case_decide; eauto.
    + destruct (policyFull D); [done|]. simpl. rewrite jget_jset. case_decide; eauto.
Qed.

(** * The properties *)

(** The mark table is bounded and its full states are exact: after any
    operations the loss marks are within [M_marks] and the policy marks, counted
    exactly, within [M_policy]; at the loss bound the table is latched full, and
    [M_hyst] below it it is not; and no mark counts more failures than [A_max]. *)
Theorem mark_table_bounded D :
  dreach D →
  lossCount D ≤ M_marks (cfg D) ∧ policyCount D ≤ M_policy (cfg D) ∧
  policyCount D = jsum (λ _ m, if decide (kind m = policy) then 1 else 0) (marks D) ∧
  (M_marks (cfg D) ≤ lossCount D → marksFull D = true) ∧
  (lossCount D < M_marks (cfg D) - M_hyst (cfg D) → marksFull D = false) ∧
  (∀ i m, jget (marks D) i = Some m → 0 ≤ attempts m ≤ A_max (cfg D)).
Proof. intros Hr. pose proof (dreach_wf D Hr) as []. by split_and!. Qed.

Definition tiny_dp : dp := new_dp None None None None (Some 1) (Some 0) None.

Lemma mark_table_bounded_witness :
  let D := dstep tiny_dp (DFail 7 None None 100 0) in
  marksFull D = true ∧ (M_marks (cfg D) ≤ lossCount D → marksFull D = true).
Proof.
  split; [by vm_compute|]. apply mark_table_bounded. unfold tiny_dp. apply dreach_op, dreach_new.
Defined.

(** Eligibility, one predicate for nominating and dialling: an unmarked
    identity is eligible unless the table is full of either kind, a policy mark
    never is, and a loss mark is from its due time on; asking changes nothing
    but the lazy refill of an exhausted mark's token. *)
Theorem eligible_spec D i now :
  ((eligible D i now).2 = true ↔
     (jget (marks D) i = None ∧ marksFull D = false ∧ policyFull D = false) ∨
     (∃ m d, jget (marks D) i = Some m ∧ kind m = loss ∧ dueAt m = Some d ∧ d ≤ now)) ∧
  (∀ j, match jget (marks D) j, jget (marks (eligible D i now).1) j with
        | None, None => True
        | Some m, Some m' =>
            m' = m ∨ (j = i ∧ kind m = loss ∧ A_max (cfg D) ≤ attempts m ∧ token m = false ∧
              m' = mk_mark loss (cause m) (at_ m) (attempts m) (dueAt m) true (seq m))
        | _, _ => False
        end).
Proof.
  assert (∀ j, match jget (marks D) j, jget (marks D) j with None, None => True | Some m, Some m' => m' = m ∨
    (j = i ∧ kind m = loss ∧ A_max (cfg D) ≤ attempts m ∧ token m = false ∧
              m' = mk_mark loss (cause m) (at_ m) (attempts m) (dueAt m) true (seq m)) | _, _ => False end) as Hsame.
  { intros j. destruct (jget (marks D) j); auto. }
  unfold eligible, marksFull. destruct (jget (marks D) i) as [m|] eqn:Hi.
  - destruct (kind m) eqn:Ek.
    + destruct (dueAt m) as [d|] eqn:Ed.
      2:{ split; [|done]. split; [done|]. intros [[? _]|(m' & d & ? & ? & ? & ?)]; congruence. }
      destruct (now <? d) eqn:En; zb.
      { split; [|done]. split; [done|]. intros [[? _]|(m' & d' & ? & ? & ? & ?)]; [done|]. simplify_eq. lia. }
      destruct (attempts m <? A_max (cfg D)) eqn:Ea; zb; [split; [|done]; split; [eauto 10|done]|].
      destruct (token m) eqn:Et; [split; [|done]; split; [eauto 10|done]|].
      split; [split; [eauto 10|done]|]. intros j. simpl. rewrite jget_jset.
      destruct (decide (i = j)) as [<-|]; [|apply Hsame]. rewrite Hi. right. by split_and!; rewrite ?Ed.
    + split; [|done]. split; [done|]. intros [[? _]|(m' & d & ? & ? & ? & ?)]; congruence.
  - destruct (fullLatched D) eqn:Ef, (policyFull D) eqn:Ep; simpl; (split; [|done]); (split; [try done; intros _; by left|]);
      intros [(_ & ? & ?)|(m' & d & ? & _)]; done.
Qed.

(** Failures at [times] of an identity that starts unmarked. *)
Fixpoint fail_times (D : dp) (i : Z) (times : list Z) : dp * option mark :=
  match times with
  | [] => (D, jget (marks D) i)
  | t :: ts => fail_times (fail D i None None t 0).1 i ts
  end.

Lemma fail_again D i m now :
  jget (marks D) i = Some m → kind m = loss →
  jget (marks (fail D i None None now 0).1) i =
    Some (mk_mark loss "unknown" 0 (Z.min (attempts m + 1) (A_max (cfg D)))
      (Some (schedule D now (Z.min (attempts m + 1) (A_max (cfg D))))) false (seq m)) ∧
  cfg (fail D i None None now 0).1 = cfg D.
Proof. intros Hg Hk. unfold fail. rewrite Hg, Hk. simpl. by rewrite jget_jset_eq. Qed.

Lemma fail_times_spec D i m ts t :
  jget (marks D) i = Some m → kind m = loss → 1 ≤ attempts m ≤ A_max (cfg D) →
  ∃ m', (fail_times D i (ts ++ [t])).2 = Some m' ∧ kind m' = loss ∧
    attempts m' = Z.min (attempts m + Z.of_nat (length ts) + 1) (A_max (cfg D)) ∧
    dueAt m' = Some (schedule D t (Z.min (attempts m + Z.of_nat (length ts) + 1) (A_max (cfg D)))).
Proof.
  revert D m. induction ts as [|t0 ts IH]; intros D m Hg Hk Ha; cbn [fail_times app length].
  - destruct (fail_again D i m t Hg Hk) as [Hf _]. cbn [fail_times]. rewrite Hf. eexists.
    split; [reflexivity|]. simpl. rewrite Z.add_0_r. done.
  - destruct (fail_again D i m t0 Hg Hk) as [Hf Hc].
    destruct (IH _ _ Hf) as (m' & H1 & H2 & H3 & H4); [done|rewrite Hc; simpl; lia|].
    exists m'. unfold schedule in H4. rewrite Hc in H3, H4. split_and!; [done|done| |].
    + rewrite H3. simpl. lia.
    + rewrite H4. unfold schedule. simpl attempts.
      replace (Z.min (Z.min (attempts m + 1) (A_max (cfg D)) + Z.of_nat (length ts) + 1) (A_max (cfg D)))
        with (Z.min (attempts m + Z.of_nat (S (length ts)) + 1) (A_max (cfg D))) by lia. done.
Qed.

(** The backoff: after [n] failures of an identity that was unmarked, the
    last at [t], its mark counts [min n A_max] failures and is due one doubling
    backoff later - [B * factor^(n-1)] below exhaustion, the refill window at
    it - and until then the identity is not eligible. *)
Theorem backoff_schedule D i ts t m :
  dwf D → jget (marks D) i = None → (fail D i None None (hd t ts) 0).2 ≠ None →
  (fail_times D i (ts ++ [t])).2 = Some m →
  let n := Z.min (Z.of_nat (length ts) + 1) (A_max (cfg D)) in
  let due := if A_max (cfg D) <=? n then t + R_refill (cfg D)
             else t + B (cfg D) * factor (cfg D) ^ (n - 1) in
  attempts m = n ∧ dueAt m = Some due ∧
  ∀ D' u, jget (marks D') i = Some m → u < due → (eligible D' i u).2 = false.
Proof.
  intros Hw Hn Hok Hm n due.
  assert (kind m = loss ∧ attempts m = n ∧ dueAt m = Some due) as (Hk & Ha & Hd).
  { pose proof (dw_cfg _ Hw) as Hcfg.
    assert (∀ now, (fail D i None None now 0).2 ≠ None →
      jget (marks (fail D i None None now 0).1) i =
        Some (mk_mark loss "unknown" 0 1 (Some (schedule D now 1)) false (dseq (admitWrite D).1 + 1)) ∧
      cfg (fail D i None None now 0).1 = cfg D) as Hfirst.
    { intros now. unfold fail. rewrite Hn. destruct (admitWrite D) as [D1 []] eqn:Ea; simpl; [|done].
      intros _. destruct (admit_cfg _ _ _ Ea) as [Hc _]. rewrite jget_jset_eq. unfold schedule. by rewrite Hc. }
    destruct ts as [|t0 ts]; cbn [hd] in Hok; destruct (Hfirst _ Hok) as [Hf Hc].
    - cbn [app fail_times] in Hm. rewrite Hf in Hm. simpl in Hm. injection Hm as <-. simpl.
      assert (n = 1) as Hn1 by (unfold n; simpl length; lia). unfold due, schedule. by rewrite Hn1.
    - cbn [app fail_times] in Hm.
      destruct (fail_times_spec _ _ _ ts t Hf) as (m' & H1 & H2 & H3 & H4); [done|rewrite Hc; simpl; lia|].
      assert (m' = m) as -> by congruence. unfold schedule in H4. rewrite Hc in H3, H4. simpl attempts in H3, H4.
      replace (Z.min (1 + Z.of_nat (length ts) + 1) (A_max (cfg D))) with n in H3, H4
        by (unfold n; simpl length; lia). by split_and!. }
  split_and!; [done|done|]. intros D' u Hg Hu. unfold eligible. rewrite Hg, Hk, Hd.
  by rewrite (proj2 (Z.ltb_lt _ _)).
Qed.

Lemma backoff_schedule_witness :
  let D := new_dp None None None None None None None in
  ∃ m, (fail_times D 7 [0; 40000; 110000; 300000]).2 = Some m ∧ attempts m = 4 ∧ dueAt m = Some 360000.
Proof.
  set (D := new_dp _ _ _ _ _ _ _). eexists. split; [vm_compute; reflexivity|].
  pose proof (backoff_schedule D 7 [0; 40000; 110000] 300000) as H.
  edestruct H as (H1 & H2 & _); [apply new_dp_wf|reflexivity|by vm_compute|vm_compute; reflexivity|].
  split; [exact H1|exact H2].
Defined.

(** Operations from [D] to [D'] that keep identity [j]'s mark in the table,
    none reading the clock before [t0]. *)
Inductive retained (j t0 : Z) : dp → dp → Prop :=
| retained_refl D : retained j t0 D D
| retained_step D D' o :
    retained j t0 D D' → jget (marks (dstep D' o)) j ≠ None →
    (∀ n, dop_now o = Some n → t0 ≤ n) → retained j t0 D (dstep D' o).

Lemma consume_exhausted D j m now :
  jget (marks D) j = Some m → kind m = loss → A_max (cfg D) ≤ attempts m →
  jget (marks (consume D j now)) j =
    Some (mk_mark loss (cause m) (at_ m) (attempts m) (Some (now + R_refill (cfg D))) false (seq m)) ∧
  cfg (consume D j now) = cfg D.
Proof.
  intros Hg Hk Ha. unfold consume. rewrite Hg, Hk. rewrite (proj2 (Z.leb_le _ _)) by done.
  simpl. by rewrite jget_jset_eq.
Qed.

Lemma admitWrite_cfg D : cfg (admitWrite D).1 = cfg D.
Proof. destruct (admitWrite D) as [D1 b] eqn:E. by apply admit_cfg in E as [? _]. Qed.

Lemma dstep_cfg D o : cfg (dstep D o) = cfg D.
Proof.
  assert (∀ i c a now wall, cfg (fail D i c a now wall).1 = cfg D) as Hf.
  { intros. unfold fail. pose proof (admitWrite_cfg D). destruct (jget _ _) as [m|]; [by destruct (kind m)|].
    by destruct (admitWrite D) as [D1 []]. }
  destruct o; cbn [dstep]; auto.
  - unfold add. case_match; [done|]. pose proof (admitWrite_cfg D). by destruct (admitWrite D) as [D1 []].
  - unfold delete. destruct (jget _ _) as [m|]; [by destruct (kind m)|done].
  - unfold eligible. destruct (jget _ _) as [m|]; [destruct (kind m); [|done]|by destruct (negb _)].
    by repeat (match goal with |- context [if ?b then (D, _) else _] => destruct b end; [done|]).
  - unfold consume. destruct (jget _ _) as [m|]; [destruct (kind m); [|done]|done]. by case_match.
  - unfold mark_. case_decide; [|auto]. unfold markPolicy.
    destruct (jget _ _) as [m|]; [destruct (kind m)|]; try destruct (policyFull D); done.
Qed.

Lemma retained_invariant j t0 D D' m r :
  retained j t0 D D' → dwf D → jget (marks D) j = Some m →
  kind m = loss → A_max (cfg D) ≤ attempts m → dueAt m = Some (t0 + R_refill (cfg D)) →
  r = R_refill (cfg D) →
  dwf D' ∧ cfg D' = cfg D ∧ ∃ m', jget (marks D') j = Some m' ∧
    (kind m' = policy ∨ (kind m' = loss ∧ A_max (cfg D) ≤ attempts m' ∧ ∃ d, dueAt m' = Some d ∧ t0 + r ≤ d)).
Proof.
  intros Hr Hw Hg Hk Ha Hd ->. induction Hr as [D|D D' o Hr IH Hret Hnow].
  - split_and!; [done|done|]. exists m. split; [done|]. right. split_and!; [done|done|]. eexists; split; [done|lia].
  - destruct (IH Hw Hg Ha Hd) as (Hw' & Hc & m1 & Hm1 & Hinv).
    split_and!; [by apply dstep_wf|by rewrite dstep_cfg|].
    destruct (jget (marks (dstep D' o)) j) as [m2|] eqn:Hm2; [|done]. exists m2. split; [done|].
    destruct (dstep_evolves D' o j m1 m2 Hw' Hm1 Hm2) as [?|(E1 & E2 & E3 & E4)]; [by left|right].
    destruct Hinv as [?|(_ & A1 & d & A2 & A3)]; [congruence|]. split_and!; [done|lia|].
    rewrite Hc in E4. destruct E4 as [->|[(n & Hn & _ & ->)|?]]; [eauto| |lia].
    eexists. split; [done|]. specialize (Hnow n Hn). lia.
Qed.

(** At most one attempt per refill window: once an exhausted identity's
    attempt is issued at [t1], as long as its mark stays in the table - whatever
    runs in between, on a clock that does not go back - it is next eligible no
    earlier than [t1 + R_refill]. *)
Theorem one_attempt_per_window D j m t1 D' t2 :
  dreach D → jget (marks D) j = Some m → kind m = loss → A_max (cfg D) ≤ attempts m →
  retained j t1 (consume D j t1) D' →
  (eligible D' j t2).2 = true → t1 + R_refill (cfg D) ≤ t2.
Proof.
  intros Hr%dreach_wf Hg Hk Ha Hret He.
  destruct (consume_exhausted D j m t1 Hg Hk Ha) as [Hg1 Hc1].
  destruct (retained_invariant j t1 _ D' _ (R_refill (cfg D)) Hret (dstep_wf D (DConsume j t1) Hr) Hg1)
    as (_ & _ & m' & Hm' & Hinv); [done|by rewrite Hc1|by rewrite Hc1|by rewrite Hc1|].
  unfold eligible in He. rewrite Hm' in He. destruct Hinv as [Hp|(Hl & _ & d & Hd & ?)].
  - by rewrite Hp in He.
  - rewrite Hl, Hd in He. destruct (t2 <? d) eqn:E; [done|]. zb. lia.
Qed.

(** Four failures exhaust; the attempt at 400000 is issued, fails at 400500. *)
Definition spent : dp :=
  dstep (dstep (dstep (dstep (new_dp None None None None None None None)
    (DFail 7 None None 0 0)) (DFail 7 None None 40000 0)) (DFail 7 None None 110000 0))
    (DFail 7 None None 300000 0).
Definition spent_mark : mark := mk_mark loss "unknown" 0 4 (Some 360000) false 1.
Definition spent_later : dp := dstep (consume spent 7 400000) (DFail 7 None None 400500 0).

Lemma one_attempt_per_window_witness :
  (eligible spent_later 7 460500).2 = true ∧ 400000 + R_refill (cfg spent) ≤ 460500.
Proof.
  assert (dreach spent) as Hr by (repeat apply dreach_op; apply dreach_new).
  assert (jget (marks spent) 7 = Some spent_mark) as Hg by (vm_compute; reflexivity).
  assert (A_max (cfg spent) ≤ attempts spent_mark) as Ha by (vm_compute; discriminate).
  assert ((eligible spent_later 7 460500).2 = true) as He by (vm_compute; reflexivity).
  assert (jget (marks (dstep (consume spent 7 400000) (DFail 7 None None 400500 0))) 7 ≠ None) as Hn
    by (vm_compute; discriminate).
  assert (retained 7 400000 (consume spent 7 400000) spent_later) as Hret.
  { unfold spent_later. refine (retained_step 7 400000 _ _ _ (retained_refl 7 400000 _) Hn _).
    intros n Hn'. cbn [dop_now] in Hn'. injection Hn' as <-. lia. }
  split; [exact He|].
  exact (one_attempt_per_window spent 7 spent_mark 400000 spent_later 460500 Hr Hg eq_refl Ha Hret He).
Defined.

(** Forgetting is bounded: only [delete], [clear] and the eviction of an
    exhausted mark waiting for its window lose a mark; a policy mark is never
    evicted, by any operation. *)
Theorem only_waiting_marks_evicted D o j m :
  dreach D → jget (marks D) j = Some m → o ≠ DDelete j → o ≠ DClear →
  (jget (marks (dstep D o)) j = None →
     kind m = loss ∧ A_max (cfg D) ≤ attempts m ∧ token m = false ∧ M_marks (cfg D) ≤ lossCount D) ∧
  (kind m = policy → ∃ m', jget (marks (dstep D o)) j = Some m' ∧ kind m' = policy).
Proof.
  intros Hr%dreach_wf Hg Hnd Hnc. split; [|by apply dstep_policy].
  pose proof (dw_jwf _ Hr) as Hjw.
  assert (∀ D1 b, admitWrite D = (D1, b) → jget (marks D1) j = None →
    kind m = loss ∧ A_max (cfg D) ≤ attempts m ∧ token m = false ∧ M_marks (cfg D) ≤ lossCount D) as Had.
  { intros D1 b Ha Hn. destruct (admit_keeps_or D D1 b j m Hjw Ha Hg) as [?|[_ He]]; [congruence|].
    unfold evictable in He. zb.
    match goal with H : bool_decide _ = true |- _ => apply bool_decide_eq_true in H end. split_and!; try done.
    unfold admitWrite in Ha. case_match eqn:El; zb; [|done]. by simplify_eq. }
  assert (∀ i c a now wall, jget (marks (fail D i c a now wall).1) j = None →
    kind m = loss ∧ A_max (cfg D) ≤ attempts m ∧ token m = false ∧ M_marks (cfg D) ≤ lossCount D) as Hfail.
  { intros i c a now wall. unfold fail. destruct (jget (marks D) i) as [x|] eqn:Hi.
    - destruct (kind x); simpl; [|congruence]. rewrite jget_jset. case_decide; [done|congruence].
    - destruct (admitWrite D) as [D1 []] eqn:Ea; simpl; [|by apply (Had D1 false)].
      rewrite jget_jset. case_decide; [done|]. by apply (Had D1 true). }
  destruct o; cbn [dstep]; try done.
  - unfold add. case_match; [congruence|]. destruct (admitWrite D) as [D1 []] eqn:Ea; simpl; [|by apply (Had D1 false)].
    rewrite jget_jset. case_decide; [done|]. by apply (Had D1 true).
  - rewrite delete_get, decide_False by congruence. congruence.
  - intros Hn. destruct (eligible_keeps D i now j m Hg) as [m' ?]. congruence.
  - apply Hfail.
  - unfold consume. destruct (jget (marks D) i) as [x|]; [|congruence]. destruct (kind x); [|congruence].
    case_match; [|simpl; congruence]. simpl. rewrite jget_jset. case_decide; [done|congruence].
  - unfold mark_. case_decide; [|apply Hfail]. unfold markPolicy.
    destruct (jget (marks D) i) as [x|] eqn:Hi; [destruct (kind x)|].
    + destruct (policyFull D); simpl; [congruence|]. rewrite jget_jset. case_decide; [done|].
      rewrite jget_jdel_ne by done. congruence.
    + simpl. rewrite jget_jset. case_decide; [done|congruence].
    + destruct (policyFull D); simpl; [congruence|]. rewrite jget_jset. case_decide; [done|congruence].
Qed.

Lemma only_waiting_marks_evicted_witness :
  let D := dstep tiny_dp (DMark 7 (Some "policy") None None 0 0) in
  ∃ m, jget (marks D) 7 = Some m ∧
    ∃ m', jget (marks (dstep D (DFail 8 None None 5 0))) 7 = Some m' ∧ kind m' = policy.
Proof.
  eexists. split; [vm_compute; reflexivity|].
  eapply (only_waiting_marks_evicted (dstep tiny_dp (DMark 7 (Some "policy") None None 0 0)));
    [unfold tiny_dp; apply dreach_op, dreach_new|vm_compute; reflexivity|done|done|reflexivity].
Defined.
