(* ===== verification/AttemptGuard.v ===== *)
(** The candidate attempt guard and the deficit backoff:
    [src/src/dht/attemptGuard.js].

    [guard] is the class's state.  An identity is the JavaScript value given
    (a bigint or a hex string); its key is [identitySuffix].  The random draw
    of [deferPath] is an argument: [u] stands for [Math.random() = u / 2^53]. *)

From Stdlib Require Import Ascii.
From stdpp Require Import base tactics sets list numbers strings.
From Stdlib Require Import ZArith Lia.
From S2P Require Import Prelude HexId.

Definition MASK_256 : Z := 2 ^ 256 - 1.

Fixpoint drop_str (n : nat) (s : string) : string :=
  match n, s with
  | O, _ => s
  | S n', String _ s' => drop_str n' s'
  | S _, EmptyString => EmptyString
  end.

Definition identitySuffix (id : jsv) : option string :=
  match id with
  | JBig z => Some (padStart0 (toString16 (Z.land z MASK_256)) 64)
  | JStr s =>
      if (strlen s =? 66) && all_lower_hex s then Some (drop_str 2 s)
      else if (strlen s =? 64) && all_lower_hex s then Some s
      else None
  | _ => None
  end.

Record slot := mk_slot {
  attempts : Z; inflight : bool; k_ : Z; beganAt : Z; nextAt : Z; expired : bool;
  pathUntil : Z; noPath : Z; inc_ : option string
}.
Definition slot0 : slot := mk_slot 0 false 0 0 0 false 0 0 None.

Record gconfig := mk_gconfig {
  maxAttempts : Z; baseMs : Z; factor : Z; refillWindowMs : Z; inflightMaxMs : Z
}.
Definition gconfig0 : gconfig := mk_gconfig 4 30000 2 60000 45000.

Record guard := mk_guard {
  gcfg : gconfig; expiryRefill : bool; slots : jmap string slot; lastRefillAt : jmap string Z; gseq : Z;
  expiryRefills : Z; pathDefers : Z; refills : Z; coalesced : Z; staleEnded : Z; ignoredEnds : Z;
  staleIncEnds : Z; released : Z
}.

Definition new_guard (c : gconfig) : guard := mk_guard c false [] [] 0 0 0 0 0 0 0 0 0.

Definition set_slots (G : guard) s := mk_guard (gcfg G) (expiryRefill G) s (lastRefillAt G) (gseq G) (expiryRefills G) (pathDefers G) (refills G) (coalesced G) (staleEnded G) (ignoredEnds G) (staleIncEnds G) (released G).
Definition set_last (G : guard) l := mk_guard (gcfg G) (expiryRefill G) (slots G) l (gseq G) (expiryRefills G) (pathDefers G) (refills G) (coalesced G) (staleEnded G) (ignoredEnds G) (staleIncEnds G) (released G).
Definition next_seq (G : guard) := mk_guard (gcfg G) (expiryRefill G) (slots G) (lastRefillAt G) (gseq G + 1) (expiryRefills G) (pathDefers G) (refills G) (coalesced G) (staleEnded G) (ignoredEnds G) (staleIncEnds G) (released G).
Definition inc_expiryRefills (G : guard) := mk_guard (gcfg G) (expiryRefill G) (slots G) (lastRefillAt G) (gseq G) (expiryRefills G + 1) (pathDefers G) (refills G) (coalesced G) (staleEnded G) (ignoredEnds G) (staleIncEnds G) (released G).
Definition inc_pathDefers (G : guard) := mk_guard (gcfg G) (expiryRefill G) (slots G) (lastRefillAt G) (gseq G) (expiryRefills G) (pathDefers G + 1) (refills G) (coalesced G) (staleEnded G) (ignoredEnds G) (staleIncEnds G) (released G).
Definition inc_refills (G : guard) := mk_guard (gcfg G) (expiryRefill G) (slots G) (lastRefillAt G) (gseq G) (expiryRefills G) (pathDefers G) (refills G + 1) (coalesced G) (staleEnded G) (ignoredEnds G) (staleIncEnds G) (released G).
Definition inc_coalesced (G : guard) := mk_guard (gcfg G) (expiryRefill G) (slots G) (lastRefillAt G) (gseq G) (expiryRefills G) (pathDefers G) (refills G) (coalesced G + 1) (staleEnded G) (ignoredEnds G) (staleIncEnds G) (released G).
Definition inc_staleEnded (G : guard) := mk_guard (gcfg G) (expiryRefill G) (slots G) (lastRefillAt G) (gseq G) (expiryRefills G) (pathDefers G) (refills G) (coalesced G) (staleEnded G + 1) (ignoredEnds G) (staleIncEnds G) (released G).
Definition inc_ignoredEnds (G : guard) := mk_guard (gcfg G) (expiryRefill G) (slots G) (lastRefillAt G) (gseq G) (expiryRefills G) (pathDefers G) (refills G) (coalesced G) (staleEnded G) (ignoredEnds G + 1) (staleIncEnds G) (released G).
Definition inc_staleIncEnds (G : guard) := mk_guard (gcfg G) (expiryRefill G) (slots G) (lastRefillAt G) (gseq G) (expiryRefills G) (pathDefers G) (refills G) (coalesced G) (staleEnded G) (ignoredEnds G) (staleIncEnds G + 1) (released G).
Definition inc_released (G : guard) := mk_guard (gcfg G) (expiryRefill G) (slots G) (lastRefillAt G) (gseq G) (expiryRefills G) (pathDefers G) (refills G) (coalesced G) (staleEnded G) (ignoredEnds G) (staleIncEnds G) (released G + 1).

(** [_s(key)] creates the entry. *)
Definition s_ (G : guard) (key : string) : guard * slot :=
  match jget (slots G) key with
  | Some s => (G, s)
  | None => (set_slots G (jset (slots G) key slot0), slot0)
  end.

Definition put_slot (G : guard) (key : string) (s : slot) : guard := set_slots G (jset (slots G) key s).

Definition allow (G : guard) (id : jsv) (t : Z) : guard * bool :=
  match identitySuffix id with
  | None => (G, true)
  | Some key =>
      let '(G, s) := s_ G key in
      (G, if t <? pathUntil s then false
          else if expired s then expiryRefill G && negb (inflight s) && (nextAt s <=? t)
          else negb (inflight s) && (nextAt s <=? t))
  end.

(** [Math.round(ms * (0.5 + u / 2^53))], in exact arithmetic. *)
Definition jittered (ms u : Z) : Z := (2 * ms * (2 ^ 52 + u) + 2 ^ 53) / 2 ^ 54.

Definition deferPath (G : guard) (id : jsv) (t base maxMs : Z) (jitter : option Z) : guard * Z :=
  match identitySuffix id with
  | None => (G, 0)
  | Some key =>
      let '(G, s) := s_ G key in
      let n := Z.min (noPath s + 1) 30 in
      let ms := Z.min maxMs (base * 2 ^ (n - 1)) in
      let ms := match jitter with Some u => jittered ms u | None => ms end in
      (inc_pathDefers (put_slot G key (mk_slot (attempts s) (inflight s) (k_ s) (beganAt s) (nextAt s)
         (expired s) (t + ms) n (inc_ s))), ms)
  end.

Definition pathDelivered (G : guard) (id : jsv) : guard * bool :=
  match identitySuffix id ≫= λ key, (λ s, (key, s)) <$> jget (slots G) key with
  | None => (G, false)
  | Some (key, s) =>
      (if (attempts s =? 0) && negb (expired s) && negb (inflight s) then set_slots G (jdel (slots G) key)
       else put_slot G key (mk_slot (attempts s) (inflight s) (k_ s) (beganAt s) (nextAt s) (expired s) 0 0 (inc_ s)),
       true)
  end.

Definition begin (G : guard) (id : jsv) (t : Z) : guard * Z :=
  match identitySuffix id with
  | None => (G, 0)
  | Some key =>
      let '(G, s) := s_ G key in
      let G := if expired s then inc_expiryRefills G else G in
      let nx := if expired s then t + refillWindowMs (gcfg G) else nextAt s in
      let G := next_seq G in
      (put_slot G key (mk_slot (attempts s) true (gseq G) t nx (expired s) (pathUntil s) (noPath s) (inc_ s)),
       gseq G)
  end.

(** A token given ([Some]) must be the live one. *)
Definition token_mismatch (k : option Z) (s : slot) : bool :=
  match k with Some k => negb (k =? k_ s) | None => false end.
Definition inc_mismatch (inc : option string) (s : slot) : bool :=
  match inc, inc_ s with Some a, Some b => negb (bool_decide (a = b)) | _, _ => false end.

Definition end_ (G : guard) (id : jsv) (bound : bool) (t : Z) (k : option Z) (inc : option string) : guard * bool :=
  match identitySuffix id with
  | None => (G, false)
  | Some key =>
      match jget (slots G) key with
      | None => (inc_ignoredEnds G, false)
      | Some s =>
          if negb (inflight s) || token_mismatch k s then (inc_ignoredEnds G, false)
          else if inc_mismatch inc s then (inc_staleIncEnds (inc_ignoredEnds G), false)
          else if bound then (set_slots G (jdel (slots G) key), true)
          else
            let a := attempts s + 1 in
            if maxAttempts (gcfg G) <=? a
            then (put_slot G key (mk_slot a false 0 (beganAt s) (t + refillWindowMs (gcfg G)) true
                    (pathUntil s) (noPath s) None), true)
            else (put_slot G key (mk_slot a false 0 (beganAt s)
                    (t + baseMs (gcfg G) * factor (gcfg G) ^ (a - 1)) (expired s)
                    (pathUntil s) (noPath s) None), true)
      end
  end.

Definition attach (G : guard) (id : jsv) (k : Z) (inc : option string) : guard * bool :=
  match identitySuffix id ≫= λ key, (λ s, (key, s)) <$> jget (slots G) key with
  | None => (G, false)
  | Some (key, s) =>
      if negb (inflight s) || negb (k_ s =? k) then (G, false)
      else
        let inc := match inc with Some i => if decide (i = "") then None else Some i | None => None end in
        (put_slot G key (mk_slot (attempts s) (inflight s) (k_ s) (beganAt s) (nextAt s) (expired s)
           (pathUntil s) (noPath s) inc), true)
  end.

Definition release (G : guard) (id : jsv) (k : option Z) : guard * bool :=
  match identitySuffix id with
  | None => (G, false)
  | Some key =>
      match jget (slots G) key with
      | None => (inc_ignoredEnds G, false)
      | Some s =>
          if negb (inflight s) || token_mismatch k s then (inc_ignoredEnds G, false)
          else
            let G := inc_released G in
            (if (attempts s =? 0) && negb (expired s) && (noPath s =? 0) then set_slots G (jdel (slots G) key)
             else put_slot G key (mk_slot (attempts s) false 0 (beganAt s) (nextAt s) (expired s)
                    (pathUntil s) (noPath s) (inc_ s)), true)
      end
  end.

Definition sweep_one (t maxMs : Z) (G : guard) (p : string * slot) : guard :=
  let '(key, s) := p in
  if inflight s && (maxMs <? t - beganAt s)
  then inc_staleEnded (end_ G (JStr key) false t (Some (k_ s)) None).1
  else G.
Definition sweep (G : guard) (t maxMs : Z) : guard := foldl (sweep_one t maxMs) G (slots G).

Definition slotOf (G : guard) (id : jsv) : option slot := identitySuffix id ≫= jget (slots G).
Definition inflightOf (G : guard) (id : jsv) : bool := default false (inflight <$> slotOf G id).
Definition noPathOf (G : guard) (id : jsv) : Z := default 0 (noPath <$> slotOf G id).
Definition pathUntilOf (G : guard) (id : jsv) : Z := default 0 (pathUntil <$> slotOf G id).
Definition attemptsOf (G : guard) (id : jsv) : Z := default 0 (attempts <$> slotOf G id).
Definition expiredOf (G : guard) (id : jsv) : bool := default false (expired <$> slotOf G id).
Definition inflightCount (G : guard) : Z := jsum (λ _ s, if inflight s then 1 else 0) (slots G).

Inductive refill_res := RF_false | RF_coalesced | RF_true.

Definition onFreshRecord (G : guard) (id : jsv) (t : Z) : guard * refill_res :=
  match identitySuffix id with
  | None => (G, RF_false)
  | Some key =>
      if match jget (lastRefillAt G) key with Some l => t - l <? refillWindowMs (gcfg G) | None => false end
      then (inc_coalesced G, RF_coalesced)
      else
        let G := set_last G (jset (lastRefillAt G) key t) in
        let G := match jget (slots G) key with
                 | Some s =>
                     if inflight s
                     then put_slot G key (mk_slot 0 (inflight s) (k_ s) (beganAt s) 0 false 0 0 (inc_ s))
                     else set_slots G (jdel (slots G) key)
                 | None => set_slots G (jdel (slots G) key)
                 end in
        (inc_refills G, RF_true)
  end.

(** * Deficit backoff *)

Record deficit := mk_deficit { d_baseMs : Z; d_factor : Z; empties : Z; d_nextAt : Z }.
Definition new_deficit (b f : Z) : deficit := mk_deficit b f 0 0.
Definition d_allow (D : deficit) (t : Z) : bool := d_nextAt D <=? t.
Definition onEmpty (D : deficit) (t : Z) : deficit :=
  mk_deficit (d_baseMs D) (d_factor D) (empties D + 1) (t + d_baseMs D * d_factor D ^ (empties D + 1 - 1)).
Definition reset (D : deficit) : deficit := mk_deficit (d_baseMs D) (d_factor D) 0 0.

(** * Operations as steps *)

Inductive gop :=
| GAllow (id : jsv) (t : Z)
| GDefer (id : jsv) (t base maxMs : Z) (jitter : option Z)
| GDelivered (id : jsv)
| GBegin (id : jsv) (t : Z)
| GEnd (id : jsv) (bound : bool) (t : Z) (k : option Z) (inc : option string)
| GAttach (id : jsv) (k : Z) (inc : option string)
| GRelease (id : jsv) (k : option Z)
| GSweep (t maxMs : Z)
| GFresh (id : jsv) (t : Z).

Definition gstep (G : guard) (o : gop) : guard :=
  match o with
  | GAllow id t => (allow G id t).1
  | GDefer id t b m j => (deferPath G id t b m j).1
  | GDelivered id => (pathDelivered G id).1
  | GBegin id t => (begin G id t).1
  | GEnd id b t k i => (end_ G id b t k i).1
  | GAttach id k i => (attach G id k i).1
  | GRelease id k => (release G id k).1
  | GSweep t m => sweep G t m
  | GFresh id t => (onFreshRecord G id t).1
  end.

(** * Keys *)

Definition key_valid (k : string) : Prop := strlen k = 64 ∧ all_lower_hex k = true.

Lemma key_valid_suffix k : key_valid k → identitySuffix (JStr k) = Some k.
Proof. intros [Hl Hh]. unfold identitySuffix. by rewrite Hl, Hh. Qed.

Lemma drop2_valid s : strlen s = 66 → all_lower_hex s = true → key_valid (drop_str 2 s).
Proof.
  destruct s as [|a [|b s]]; try done. rewrite !strlen_cons. simpl. intros Hl Hh.
  apply andb_true_iff in Hh as [_ Hh]. apply andb_true_iff in Hh as [_ Hh]. split; [lia|done].
Qed.

(** The key is a 64-digit suffix, and its own key. *)
Lemma identitySuffix_valid id k : identitySuffix id = Some k → key_valid k.
Proof.
  destruct id as [| | | | | |z|s|]; try done; cbn [identitySuffix].
  - intros [= <-]. destruct (padStart0_spec (Z.land z MASK_256) 64) as (H1 & H2 & _ & H4).
    + change (16 ^ 64) with (2 ^ 256). unfold MASK_256. change (2 ^ 256 - 1) with (Z.ones 256).
      rewrite Z.land_ones by lia. apply Z.mod_pos_bound. lia.
    + lia.
    + split; [done|by apply lower_hex_text].
  - destruct ((strlen s =? 66) && all_lower_hex s) eqn:E; zb.
    + intros [= <-]. by apply drop2_valid.
    + destruct ((strlen s =? 64) && all_lower_hex s) eqn:E2; zb; [|done]. by intros [= <-].
Qed.

(** * Invariants *)

Record gwf (G : guard) : Prop := {
  gw_jwf : jwf (slots G);
  gw_key : ∀ k s, jget (slots G) k = Some s → key_valid k;
  gw_token : ∀ k s, jget (slots G) k = Some s → k_ s ≤ gseq G;
  gw_unique : ∀ k1 k2 s1 s2, jget (slots G) k1 = Some s1 → jget (slots G) k2 = Some s2 →
    inflight s1 = true → inflight s2 = true → k_ s1 = k_ s2 → k1 = k2;
  gw_seq : 0 ≤ gseq G
}.

(** What an operation may make of the slot of a key: an attempt in flight is
    the one that was. *)
Definition calmer (o : option slot) (s' : slot) : Prop :=
  inflight s' = true → ∃ s, o = Some s ∧ inflight s = true ∧ k_ s' = k_ s.

(** An operation that opens no attempt. *)
Record quiet (G G' : guard) : Prop := {
  q_cfg : gcfg G' = gcfg G; q_refill : expiryRefill G' = expiryRefill G; q_seq : gseq G' = gseq G;
  q_jwf : jwf (slots G) → jwf (slots G');
  q_slot : ∀ k s', jget (slots G') k = Some s' → calmer (jget (slots G) k) s' ∧
    (key_valid k ∨ jget (slots G) k ≠ None) ∧
    (k_ s' = 0 ∨ ∃ s, jget (slots G) k = Some s ∧ k_ s' = k_ s)
}.

Lemma calmer_refl s : calmer (Some s) s.
Proof. intros H. by exists s. Qed.

Lemma quiet_refl G : quiet G G.
Proof.
  split; auto. intros k s' Hk. rewrite Hk. split_and!; [apply calmer_refl|by right|right; eauto].
Qed.

Lemma quiet_trans G1 G2 G3 : quiet G1 G2 → quiet G2 G3 → quiet G1 G3.
Proof.
  intros [A1 A2 A3 A4 A5] [B1 B2 B3 B4 B5]. split; try congruence; auto.
  intros k s3 H3. destruct (B5 k s3 H3) as (C & V & K). destruct (jget (slots G2) k) as [s2|] eqn:H2.
  - destruct (A5 k s2 H2) as (C' & V' & K'). split_and!; [|tauto|].
    + intros Hi. destruct (C Hi) as (? & [= <-] & Hi2 & E). destruct (C' Hi2) as (s1 & ? & ? & ?).
      exists s1. split_and!; [done|done|congruence].
    + destruct K as [?|(? & [= <-] & E)]; [by left|]. destruct K' as [?|(s1 & ? & ?)]; [left; congruence|].
      right. exists s1. split; [done|congruence].
  - split_and!.
    + intros Hi. by destruct (C Hi) as (? & ? & _).
    + destruct V as [?|?]; [by left|done].
    + destruct K as [?|(? & ? & _)]; [by left|done].
Qed.

Lemma quiet_gwf G G' : quiet G G' → gwf G → gwf G'.
Proof.
  intros [A1 A2 A3 A4 A5] [W1 W2 W3 W4 W5]. split; rewrite ?A3; auto.
  - intros k s Hk. destruct (A5 k s Hk) as (_ & [?|Hn] & _); [done|].
    destruct (jget (slots G) k) eqn:E; [by eapply W2|done].
  - intros k s Hk. destruct (A5 k s Hk) as (_ & _ & [->|(s0 & Hs0 & ->)]); [lia|by eapply W3].
  - intros k1 k2 s1 s2 H1 H2 I1 I2 E. destruct (A5 _ _ H1) as (C1 & _), (A5 _ _ H2) as (C2 & _).
    destruct (C1 I1) as (t1 & G1 & J1 & E1), (C2 I2) as (t2 & G2 & J2 & E2).
    eapply W4; [exact G1|exact G2|done|done|congruence].
Qed.

(** Replacing a slot by one whose attempt, if in flight, is the same. *)
Lemma quiet_put G key s s' :
  jget (slots G) key = Some s →
  (inflight s' = true → inflight s = true) → (k_ s' = k_ s ∨ (k_ s' = 0 ∧ inflight s' = false)) →
  quiet G (put_slot G key s').
Proof.
  intros Hg Hi Hk. split; auto; simpl; [auto with axona|].
  intros k s1. rewrite jget_jset. case_decide as Hd.
  - subst k. intros [= <-]. rewrite Hg. split_and!; [|by right|].
    + intros H1. exists s. split_and!; [done|auto|]. destruct Hk as [?|[_ ?]]; [done|congruence].
    + destruct Hk as [?|[? _]]; [right; eauto|by left].
  - intros H1. rewrite H1. split_and!; [apply calmer_refl|by right|right; eauto].
Qed.

Lemma quiet_del G key : quiet G (set_slots G (jdel (slots G) key)).
Proof.
  split; auto; simpl; [auto with axona|].
  intros k s. rewrite jget_jdel. case_decide; [done|]. intros H1. rewrite H1.
  split_and!; [apply calmer_refl|by right|right; eauto].
Qed.

Lemma quiet_eq G G' :
  gcfg G' = gcfg G → expiryRefill G' = expiryRefill G → gseq G' = gseq G → slots G' = slots G → quiet G G'.
Proof.
  intros E1 E2 E3 E4. split; rewrite ?E4; auto. intros k s Hk. rewrite Hk.
  split_and!; [apply calmer_refl|by right|right; eauto].
Qed.

Lemma quiet_s_ G key : key_valid key → quiet G (s_ G key).1.
Proof.
  intros Hv. unfold s_. destruct (jget (slots G) key) as [s|] eqn:E; [apply quiet_refl|].
  split; auto; simpl; [auto with axona|]. intros k s. rewrite jget_jset. case_decide.
  - intros [= <-]. subst. split_and!; [done|by left|by left].
  - intros H1. rewrite H1. split_and!; [apply calmer_refl|by right|right; eauto].
Qed.

Lemma s_get G key : jget (slots (s_ G key).1) key = Some (s_ G key).2 ∧
  (s_ G key).2 = default slot0 (jget (slots G) key).
Proof.
  unfold s_. destruct (jget (slots G) key) as [s|] eqn:E; [done|]. simpl. by rewrite jget_jset_eq.
Qed.

Lemma quiet_allow G id t : quiet G (gstep G (GAllow id t)).
Proof.
  cbn [gstep]. unfold allow. destruct (identitySuffix id) as [key|] eqn:E; [|apply quiet_refl].
  apply identitySuffix_valid in E. pose proof (quiet_s_ G key E). by destruct (s_ G key).
Qed.

Lemma quiet_defer G id t b m j : quiet G (gstep G (GDefer id t b m j)).
Proof.
  cbn [gstep]. unfold deferPath. destruct (identitySuffix id) as [key|] eqn:E; [|apply quiet_refl].
  apply identitySuffix_valid in E. pose proof (quiet_s_ G key E) as Hq. destruct (s_get G key) as [Hg _].
  destruct (s_ G key) as [G1 s]. simpl in *. eapply quiet_trans; [exact Hq|].
  eapply (quiet_trans _ (put_slot G1 key _)); [eapply quiet_put; [exact Hg|..]|by apply quiet_eq]; [done|by left].
Qed.

Lemma quiet_delivered G id : quiet G (gstep G (GDelivered id)).
Proof.
  cbn [gstep]. unfold pathDelivered. destruct (identitySuffix id) as [key|] eqn:E; [|apply quiet_refl].
  simpl. destruct (jget (slots G) key) as [s|] eqn:Es; simpl; [|apply quiet_refl].
  case_match; [apply quiet_del|]. eapply quiet_put; [exact Es|done|by left].
Qed.

Lemma quiet_end G id b t k i : quiet G (gstep G (GEnd id b t k i)).
Proof.
  cbn [gstep]. unfold end_. destruct (identitySuffix id) as [key|] eqn:E; [|apply quiet_refl].
  destruct (jget (slots G) key) as [s|] eqn:Es; [|by apply quiet_eq].
  destruct (_ || _); [by apply quiet_eq|]. destruct (inc_mismatch i s); [by apply quiet_eq|].
  destruct b; [apply quiet_del|]. case_match; (eapply quiet_put; [exact Es|done|by right]).
Qed.

Lemma quiet_attach G id k i : quiet G (gstep G (GAttach id k i)).
Proof.
  cbn [gstep]. unfold attach. destruct (identitySuffix id) as [key|] eqn:E; [|apply quiet_refl].
  simpl. destruct (jget (slots G) key) as [s|] eqn:Es; simpl; [|apply quiet_refl].
  destruct (_ || _); [apply quiet_refl|]. eapply quiet_put; [exact Es|done|by left].
Qed.

Lemma quiet_release G id k : quiet G (gstep G (GRelease id k)).
Proof.
  cbn [gstep]. unfold release. destruct (identitySuffix id) as [key|] eqn:E; [|apply quiet_refl].
  destruct (jget (slots G) key) as [s|] eqn:Es; [|by apply quiet_eq].
  destruct (_ || _); [by apply quiet_eq|].
  eapply quiet_trans; [by apply (quiet_eq _ (inc_released G))|].
  cbn [fst]. destruct (_ && _); [apply (quiet_del (inc_released G))|].
  apply (quiet_put (inc_released G) key s); [exact Es|done|by right].
Qed.

Lemma quiet_sweep_one t m G p : quiet G (sweep_one t m G p).
Proof.
  destruct p as [key s]. unfold sweep_one. case_match; [|apply quiet_refl].
  eapply quiet_trans; [apply (quiet_end G (JStr key) false t (Some (k_ s)) None)|by apply quiet_eq].
Qed.

Lemma quiet_sweep G t m : quiet G (gstep G (GSweep t m)).
Proof.
  cbn [gstep]. unfold sweep. generalize (slots G) as l. intros l. revert G.
  induction l as [|p l IH]; intros G; cbn [foldl]; [apply quiet_refl|].
  eapply quiet_trans; [apply quiet_sweep_one|apply IH].
Qed.

Lemma quiet_fresh G id t : quiet G (gstep G (GFresh id t)).
Proof.
  cbn [gstep]. unfold onFreshRecord. destruct (identitySuffix id) as [key|] eqn:E; [|apply quiet_refl].
  case_match; [by apply quiet_eq|]. cbn [fst].
  set (G1 := set_last G _).
  assert (quiet G G1) as H1 by (by apply quiet_eq).
  eapply quiet_trans; [exact H1|].
  match goal with |- quiet _ (inc_refills ?X) => apply (quiet_trans _ X); [|by apply quiet_eq] end.
  destruct (jget (slots G1) key) as [s|] eqn:Es; [|apply quiet_del].
  destruct (inflight s) eqn:Ei; [|apply quiet_del].
  eapply quiet_put; [exact Es|by rewrite Ei|by left].
Qed.

(** [begin] opens one attempt, under a token never used before. *)
Lemma begin_spec G id t key :
  gwf G → identitySuffix id = Some key →
  let G' := (begin G id t).1 in let s := default slot0 (jget (slots G) key) in
  (begin G id t).2 = gseq G + 1 ∧ gseq G' = gseq G + 1 ∧ gcfg G' = gcfg G ∧ expiryRefill G' = expiryRefill G ∧
  lastRefillAt G' = lastRefillAt G ∧ jwf (slots G') ∧
  ∀ k, jget (slots G') k =
    if decide (key = k)
    then Some (mk_slot (attempts s) true (gseq G + 1) t
                 (if expired s then t + refillWindowMs (gcfg G) else nextAt s) (expired s)
                 (pathUntil s) (noPath s) (inc_ s))
    else jget (slots G) k.
Proof.
  intros Hw E. pose proof (gw_jwf _ Hw) as Hj. unfold begin, s_. rewrite E.
  destruct (jget (slots G) key) as [s|] eqn:Es; cbn [default].
  - destruct (expired s) eqn:Ex; simpl; (split_and!; [done..|auto with axona|]); intros k;
      rewrite jget_jset; by case_decide; rewrite ?Ex.
  - simpl. split_and!; [done..|auto with axona|]. intros k. rewrite !jget_jset. by case_decide.
Qed.

Lemma begin_gwf G id t : gwf G → gwf (begin G id t).1.
Proof.
  intros Hw. destruct (identitySuffix id) as [key|] eqn:E; [|unfold begin; by rewrite E].
  destruct (begin_spec G id t key Hw E) as (_ & Es & _ & _ & _ & Ej & Eg).
  apply identitySuffix_valid in E. destruct Hw as [W1 W2 W3 W4 W5].
  split; rewrite ?Es; [done| | | |lia].
  - intros k s. rewrite Eg. case_decide; [intros _; by subst|apply W2].
  - intros k s. rewrite Eg. case_decide; [intros [= <-]; simpl; lia|]. intros H1. specialize (W3 k s H1). lia.
  - intros k1 k2 s1 s2. rewrite !Eg. repeat case_decide; subst; try done.
    + intros [= <-] H2 _ _. simpl. intros Hk. specialize (W3 _ _ H2). lia.
    + intros H1 [= <-] _ _. simpl. intros Hk. specialize (W3 _ _ H1). lia.
    + apply W4.
Qed.

Lemma gstep_gwf G o : gwf G → gwf (gstep G o).
Proof.
  intros Hw. destruct o; try (eapply quiet_gwf, Hw; auto using quiet_allow, quiet_defer, quiet_delivered,
    quiet_end, quiet_attach, quiet_release, quiet_sweep, quiet_fresh; fail).
  by apply begin_gwf.
Qed.

Lemma new_guard_gwf c : gwf (new_guard c).
Proof. split; try done. apply jwf_nil. Qed.

Definition with_expiryRefill (G : guard) (b : bool) : guard :=
  mk_guard (gcfg G) b (slots G) (lastRefillAt G) (gseq G) (expiryRefills G) (pathDefers G) (refills G)
    (coalesced G) (staleEnded G) (ignoredEnds G) (staleIncEnds G) (released G).

(** From [G] to [G'] by operations. *)
Inductive gruns : guard → guard → Prop :=
| gruns_refl G : gruns G G
| gruns_step G G' o : gruns G G' → gruns G (gstep G' o).

Lemma gruns_gwf G G' : gruns G G' → gwf G → gwf G'.
Proof. induction 1; auto using gstep_gwf. Qed.

(** Token [k] belongs to an attempt in flight. *)
Definition live_token (G : guard) (k : Z) : Prop :=
  ∃ key s, jget (slots G) key = Some s ∧ inflight s = true ∧ k_ s = k.

Lemma gstep_token G o k :
  gwf G → k ≤ gseq G → ¬ live_token G k → k ≤ gseq (gstep G o) ∧ ¬ live_token (gstep G o) k.
Proof.
  intros Hw Hk Hn.
  assert (∀ G', quiet G G' → k ≤ gseq G' ∧ ¬ live_token G' k) as Hq.
  { intros G' [_ _ E _ A]. split; [by rewrite E|]. intros (key & s & Hs & Hi & Hks).
    destruct (A _ _ Hs) as (C & _). destruct (C Hi) as (s0 & ? & ? & ?). apply Hn. exists key, s0.
    split_and!; [done|done|congruence]. }
  destruct o; try (apply Hq; auto using quiet_allow, quiet_defer, quiet_delivered,
    quiet_end, quiet_attach, quiet_release, quiet_sweep, quiet_fresh; fail).
  cbn [gstep]. destruct (identitySuffix id) as [key|] eqn:E; [|unfold begin; by rewrite E].
  destruct (begin_spec G id t key Hw E) as (_ & Es & _ & _ & _ & _ & Eg). rewrite Es. split; [lia|].
  intros (key' & s & Hs & Hi & Hks). rewrite Eg in Hs. case_decide; [simplify_eq; simpl in *; lia|].
  apply Hn. by exists key', s.
Qed.

Lemma gruns_token G G' k :
  gruns G G' → gwf G → k ≤ gseq G → ¬ live_token G k → ¬ live_token G' k.
Proof.
  intros Hr Hw Hk Hn. assert (k ≤ gseq G' ∧ ¬ live_token G' k) as [_ ?]; [|done].
  induction Hr as [G|G G' o Hr IH]; [done|]. destruct (IH Hw Hk Hn).
  apply gstep_token; [by eapply gruns_gwf|done|done].
Qed.

(** * The properties *)

Definition greach (c : gconfig) (x : bool) (G : guard) : Prop := gruns (with_expiryRefill (new_guard c) x) G.

Lemma greach_gwf c x G : greach c x G → gwf G.
Proof.
  intros Hr. eapply gruns_gwf; [exact Hr|]. split; try done. apply jwf_nil.
Qed.

Lemma end_acts G id b t k i :
  (end_ G id b t (Some k) i).2 = true →
  ∃ key s, identitySuffix id = Some key ∧ jget (slots G) key = Some s ∧ inflight s = true ∧ k_ s = k.
Proof.
  unfold end_. destruct (identitySuffix id) as [key|]; [|done].
  destruct (jget (slots G) key) as [s|] eqn:Es; [|done].
  destruct (negb (inflight s) || token_mismatch (Some k) s) eqn:E; [done|]. intros _. simpl in E. zb.
  exists key, s. by split_and!.
Qed.

Lemma release_acts G id k :
  (release G id (Some k)).2 = true → live_token G k.
Proof.
  unfold release. destruct (identitySuffix id) as [key|]; [|done].
  destruct (jget (slots G) key) as [s|] eqn:Es; [|done].
  destruct (negb (inflight s) || token_mismatch (Some k) s) eqn:E; [done|]. intros _. simpl in E. zb.
  exists key, s. by split_and!.
Qed.

Lemma end_clears G id b t k i :
  gwf G → (end_ G id b t (Some k) i).2 = true → ¬ live_token (end_ G id b t (Some k) i).1 k.
Proof.
  intros Hw Ha. destruct (end_acts _ _ _ _ _ _ Ha) as (key & s & E & Es & Hi & Hk).
  unfold end_ in *. rewrite E, Es in *.
  destruct (negb (inflight s) || token_mismatch (Some k) s); [done|].
  destruct (inc_mismatch i s); [done|].
  intros (key' & s' & Hs' & Hi' & Hk').
  assert (key' = key ∨ jget (slots G) key' = Some s') as [->|Hold].
  { revert Hs'. destruct b; [simpl; rewrite jget_jdel; by case_decide; auto|].
    case_match; simpl; rewrite jget_jset; case_decide; subst; auto. }
  - destruct b; [simpl in Hs'; by rewrite jget_jdel_eq in Hs'|].
    by case_match; simpl in Hs'; rewrite jget_jset_eq in Hs'; simplify_eq.
  - assert (key' = key) as -> by (eapply (gw_unique _ Hw); eauto; congruence).
    simplify_eq. destruct b; [simpl in Hs'; by rewrite jget_jdel_eq in Hs'|].
    by case_match; simpl in Hs'; rewrite jget_jset_eq in Hs'; apply (f_equal (fmap inflight)) in Hs';
      simpl in Hs'; congruence.
Qed.

(** An attempt is ended exactly once: [begin] hands out a token never used
    before, at most one attempt carries it, and once [end] has acted on it no
    later completion or release that names it acts, whatever runs in between -
    so no failure is counted twice and no stale completion clears a newer
    attempt. *)
Theorem token_ends_once c x G id b t k i :
  greach c x G → (end_ G id b t (Some k) i).2 = true →
  (∀ id' t', live_token G (begin G id' t').2 → False ∨ identitySuffix id' = None) ∧
  (∀ G', gruns (end_ G id b t (Some k) i).1 G' → ∀ id' b' t' i',
     (end_ G' id' b' t' (Some k) i').2 = false ∧ (release G' id' (Some k)).2 = false).
Proof.
  intros Hr%greach_gwf Ha. split.
  - intros id' t' Hl. destruct (identitySuffix id') as [key|] eqn:E; [left|by right].
    destruct (begin_spec G id' t' key Hr E) as (Hb & _). rewrite Hb in Hl.
    destruct Hl as (k1 & s1 & H1 & _ & H2). pose proof (gw_token _ Hr _ _ H1). lia.
  - intros G' Hg id' b' t' i'.
    assert (gwf (end_ G id b t (Some k) i).1) as Hw1 by (apply (gstep_gwf G (GEnd id b t (Some k) i)); done).
    assert (k ≤ gseq (end_ G id b t (Some k) i).1) as Hk.
    { pose proof (q_seq _ _ (quiet_end G id b t (Some k) i)) as Eq. cbn [gstep] in Eq. rewrite Eq.
      destruct (end_acts _ _ _ _ _ _ Ha) as (key & s & _ & Es & _ & <-). by eapply gw_token. }
    pose proof (gruns_token _ _ k Hg Hw1 Hk (end_clears _ _ _ _ _ _ Hr Ha)) as Hn.
    split.
    + destruct (end_ G' id' b' t' (Some k) i').2 eqn:E; [|done]. exfalso. apply Hn.
      destruct (end_acts _ _ _ _ _ _ E) as (key & s & _ & ? & ? & ?). by exists key, s.
    + destruct (release G' id' (Some k)).2 eqn:E; [|done]. exfalso. by apply Hn, (release_acts _ id').
Qed.

Definition demo_id : jsv := JBig 77.
Definition dialed : guard := (begin (new_guard gconfig0) demo_id 1000).1.

Lemma token_ends_once_witness :
  (end_ dialed demo_id false 2000 (Some 1) None).2 = true ∧
  (end_ (end_ dialed demo_id false 2000 (Some 1) None).1 demo_id false 2001 (Some 1) None).2 = false.
Proof.
  assert ((end_ dialed demo_id false 2000 (Some 1) None).2 = true) as He by (vm_compute; reflexivity).
  split; [exact He|].
  refine (proj1 (proj2 (token_ends_once gconfig0 false dialed demo_id false 2000 1 None _ He) _ _
    demo_id false 2001 None)).
  - unfold dialed. exact (gruns_step _ _ (GBegin demo_id 1000) (gruns_refl _)).
  - apply gruns_refl.
Defined.

(** The clock reading of an operation. *)
Definition gop_time (o : gop) : option Z :=
  match o with
  | GAllow _ t | GDefer _ t _ _ _ | GBegin _ t | GEnd _ _ t _ _ | GSweep t _ | GFresh _ t => Some t
  | GDelivered _ | GAttach _ _ _ | GRelease _ _ => None
  end.

(** Operations that do not give identity [key] a new budget: no fresh record
    and no bind of it; none reads the clock before [t0]. *)
Inductive no_budget (key : string) (t0 : Z) : guard → guard → Prop :=
| nb_refl G : no_budget key t0 G G
| nb_step G G' o :
    no_budget key t0 G G' →
    (∀ n, gop_time o = Some n → t0 ≤ n) →
    (∀ id t, o = GFresh id t → identitySuffix id ≠ Some key) →
    (∀ id t k i, o = GEnd id true t k i → identitySuffix id ≠ Some key) →
    no_budget key t0 G (gstep G' o).

(** The slot is exhausted and not eligible before [d]. *)
Definition spent_until (key : string) (d : Z) (G : guard) : Prop :=
  ∃ s, jget (slots G) key = Some s ∧ expired s = true ∧ d ≤ nextAt s.

Lemma spent_put key d G key' s' :
  spent_until key d G → (key' = key → expired s' = true ∧ d ≤ nextAt s') → spent_until key d (put_slot G key' s').
Proof.
  intros (s & Hs & He & Hn) Hk. unfold spent_until, put_slot. simpl. rewrite jget_jset.
  case_decide; [destruct (Hk H); eauto|eauto].
Qed.

(** Attempts of an exhausted slot do not go down without a new budget. *)
Record stays_spent (key : string) (d : Z) (G : guard) : Prop := {
  ss_slot : spent_until key d G;
  ss_att : ∀ s, jget (slots G) key = Some s → maxAttempts (gcfg G) ≤ attempts s
}.

Lemma ss_put key d G key' s s' :
  stays_spent key d G → jget (slots G) key' = Some s →
  attempts s ≤ attempts s' → (key' = key → expired s' = true ∧ d ≤ nextAt s') →
  stays_spent key d (put_slot G key' s').
Proof.
  intros [H1 H2] Hg Ha Hk. split; [by apply spent_put|]. simpl. intros s0. rewrite jget_jset.
  case_decide; [|apply H2]. subst. intros [= <-]. specialize (H2 _ Hg). lia.
Qed.

Lemma ss_eq key d G G' :
  slots G' = slots G → gcfg G' = gcfg G → stays_spent key d G → stays_spent key d G'.
Proof. intros E1 E2 [H1 H2]. split; unfold spent_until in *; rewrite ?E1, ?E2; done. Qed.

Lemma ss_del key d G key' :
  stays_spent key d G → key' ≠ key → stays_spent key d (set_slots G (jdel (slots G) key')).
Proof.
  intros [(s & Hs & ? & ?) H2] Hne. split.
  - exists s. simpl. by rewrite jget_jdel_ne.
  - simpl. intros s0. rewrite jget_jdel_ne by done. apply H2.
Qed.

Lemma ss_s_ key d G key' : stays_spent key d G → stays_spent key d (s_ G key').1.
Proof.
  intros Hs. unfold s_. destruct (jget (slots G) key') as [s|] eqn:E; [done|]. simpl.
  destruct Hs as [(s & Hg & ? & ?) H2]. split.
  - exists s. simpl. by rewrite jget_jset_ne by congruence.
  - simpl. intros s0. rewrite jget_jset_ne by congruence. apply H2.
Qed.

Lemma ss_end key d G id b t k i t0 :
  stays_spent key d G → d = t0 + refillWindowMs (gcfg G) → t0 ≤ t →
  (b = true → identitySuffix id ≠ Some key) → stays_spent key d (end_ G id b t k i).1.
Proof.
  intros Hs -> Ht Hb. unfold end_. destruct (identitySuffix id) as [key'|] eqn:E; [|done].
  destruct (jget (slots G) key') as [s'|] eqn:Es; [|by eapply (ss_eq _ _ G)].
  destruct (_ || _); [by apply (ss_eq _ _ G)|]. destruct (inc_mismatch i s'); [by apply (ss_eq _ _ G)|]. destruct b.
  - apply ss_del; [done|]. intros ->. by apply Hb.
  - pose proof (ss_att _ _ _ Hs) as H2. destruct (ss_slot _ _ _ Hs) as (s & Hg & He & Hn).
    destruct (maxAttempts (gcfg G) <=? attempts s' + 1) eqn:Ec; cbn [fst]; zb;
      (eapply ss_put; [exact Hs|exact Es|simpl; lia|]); intros ->; simpl; [split; [done|lia]|].
    specialize (H2 _ Es). lia.
Qed.

Lemma ss_gstep key d G o t0 :
  stays_spent key d G → d = t0 + refillWindowMs (gcfg G) → 
  (∀ n, gop_time o = Some n → t0 ≤ n) →
  (∀ id t, o = GFresh id t → identitySuffix id ≠ Some key) →
  (∀ id t k i, o = GEnd id true t k i → identitySuffix id ≠ Some key) →
  gwf G → stays_spent key d (gstep G o).
Proof.
  intros Hs Hd Ht Hf He Hw. destruct o; cbn [gstep].
  - unfold allow. destruct (identitySuffix id) as [key'|]; [|done].
    pose proof (ss_s_ key d G key' Hs). by destruct (s_ G key').
  - unfold deferPath. destruct (identitySuffix id) as [key'|]; [|done].
    pose proof (ss_s_ key d G key' Hs) as Hs'. destruct (s_get G key') as [Hg _]. destruct (s_ G key') as [G1 s].
    simpl in *. eapply ss_eq; [..|eapply (ss_put key d G1 key' s); [exact Hs'|exact Hg|..]]; try done.
    intros ->. destruct (ss_slot _ _ _ Hs') as (s1 & ? & ? & ?). by simplify_eq.
  - unfold pathDelivered. destruct (identitySuffix id) as [key'|]; [|done]. simpl.
    destruct (jget (slots G) key') as [s|] eqn:Es; [|done]. simpl.
    destruct ((attempts s =? 0) && negb (expired s) && negb (inflight s)) eqn:E.
    + apply ss_del; [done|]. intros ->. destruct (ss_slot _ _ _ Hs) as (s1 & ? & ? & ?). simplify_eq. zb. congruence.
    + eapply ss_put; [done|exact Es|simpl; lia|]. intros ->.
      destruct (ss_slot _ _ _ Hs) as (s1 & ? & ? & ?). by simplify_eq.
  - destruct (identitySuffix id) as [key'|] eqn:E; [|unfold begin; by rewrite E].
    destruct (begin_spec G id t key' Hw E) as (_ & _ & Ec & _ & _ & _ & Eg). specialize (Ht t eq_refl).
    destruct Hs as [(s & Hg & Hx & Hn) H2]. split; unfold spent_until; setoid_rewrite Eg; rewrite ?Ec.
    + case_decide; [|eauto]. subst. rewrite Hg. simpl. rewrite Hx. eexists; split_and!; [done|done|simpl; lia].
    + intros s0. case_decide; [|apply H2]. intros [= <-]. subst. rewrite Hg. simpl. by apply H2.
  - apply (ss_end key d G id bound t k inc t0); try done; [by apply Ht|]. intros ->. by eapply He.
  - unfold attach. destruct (identitySuffix id) as [key'|]; [|done]. simpl.
    destruct (jget (slots G) key') as [s|] eqn:Es; [|done]. simpl. destruct (_ || _); [done|].
    eapply ss_put; [done|exact Es|simpl; lia|]. intros ->.
    destruct (ss_slot _ _ _ Hs) as (s1 & ? & ? & ?). by simplify_eq.
  - unfold release. destruct (identitySuffix id) as [key'|]; [|done].
    destruct (jget (slots G) key') as [s|] eqn:Es; [|by eapply (ss_eq _ _ G)]. destruct (_ || _); [by apply (ss_eq _ _ G)|].
    cbn [fst]. assert (stays_spent key d (inc_released G)) as Hs1 by (by apply (ss_eq _ _ G)).
    destruct ((attempts s =? 0) && negb (expired s) && (noPath s =? 0)) eqn:E.
    + apply (ss_del key d (inc_released G)); [done|]. intros ->.
      destruct (ss_slot _ _ _ Hs) as (s1 & ? & ? & ?). simplify_eq. zb. congruence.
    + eapply (ss_put key d (inc_released G)); [done|exact Es|simpl; lia|]. intros ->.
      destruct (ss_slot _ _ _ Hs) as (s1 & ? & ? & ?). by simplify_eq.
  - specialize (Ht t eq_refl).
    assert (∀ l G1, stays_spent key d G1 → d = t0 + refillWindowMs (gcfg G1) →
      stays_spent key d (foldl (sweep_one t maxMs) G1 l)) as H; [|by apply H].
    intros l. induction l as [|[k' s'] l IH]; intros G1 H1 H2; [done|]. cbn [foldl].
    pose proof (q_cfg _ _ (quiet_sweep_one t maxMs G1 (k', s'))) as Hc.
    apply IH; [|by rewrite Hc]. unfold sweep_one. destruct (inflight s' && _); [|done].
    apply (ss_eq _ _ (end_ G1 (JStr k') false t (Some (k_ s')) None).1); [done..|].
    by apply (ss_end key d G1 (JStr k') false t _ None t0).
  - unfold onFreshRecord. destruct (identitySuffix id) as [key'|] eqn:E; [|done].
    assert (key' ≠ key) as Hne by (intros ->; by eapply Hf).
    destruct (match _ with Some _ => _ | None => _ end); [by apply (ss_eq _ _ G)|]. cbn [fst]. set (G1 := set_last G _).
    assert (stays_spent key d G1) as H1 by (by apply (ss_eq _ _ G)).
    match goal with |- stays_spent _ _ (inc_refills ?X) => apply (ss_eq _ _ X); try done end.
    destruct (jget (slots G1) key') as [s|] eqn:Es; [destruct (inflight s)|]; try (by apply ss_del).
    destruct H1 as [(s1 & ? & ? & ?) ?]. split; unfold spent_until, put_slot; simpl.
    + exists s1. by rewrite jget_jset_ne.
    + intros s0. rewrite jget_jset_ne by done. auto.
Qed.

Lemma gstep_cfg G o : gwf G → gcfg (gstep G o) = gcfg G ∧ expiryRefill (gstep G o) = expiryRefill G.
Proof.
  intros Hw. assert (∀ G1, quiet G G1 → gcfg G1 = gcfg G ∧ expiryRefill G1 = expiryRefill G) as Hq by (by intros ? []).
  destruct o; try (apply Hq; auto using quiet_allow, quiet_defer, quiet_delivered, quiet_end, quiet_attach,
    quiet_release, quiet_sweep, quiet_fresh; fail).
  cbn [gstep]. destruct (identitySuffix id) as [k|] eqn:E; [|unfold begin; by rewrite E].
  by destruct (begin_spec G id t k Hw E) as (_ & _ & ? & ? & _).
Qed.

Lemma no_budget_spent key t0 G G' d :
  no_budget key t0 G G' → gwf G → stays_spent key d G → d = t0 + refillWindowMs (gcfg G) →
  stays_spent key d G' ∧ gwf G' ∧ gcfg G' = gcfg G ∧ expiryRefill G' = expiryRefill G.
Proof.
  intros Hr Hw Hs Hd. induction Hr as [G|G G' o Hr IH Ht Hf He]; [done|].
  destruct (IH Hw Hs Hd) as (H1 & H2 & H3 & H4).
  destruct (gstep_cfg G' o H2) as [Ec Ex].
  split_and!; [|by apply gstep_gwf|congruence|congruence].
  eapply (ss_gstep _ _ _ _ t0); try done. by rewrite H3.
Qed.

(** An exhausted slot has used its budget. *)
Definition budget_used (G : guard) : Prop :=
  ∀ k s, jget (slots G) k = Some s → expired s = true → maxAttempts (gcfg G) ≤ attempts s.

Lemma bu_eq G G' : slots G' = slots G → gcfg G' = gcfg G → budget_used G → budget_used G'.
Proof. intros E1 E2 H. unfold budget_used. rewrite E1, E2. done. Qed.

Lemma bu_put G key s :
  budget_used G → (expired s = true → maxAttempts (gcfg G) ≤ attempts s) → budget_used (put_slot G key s).
Proof. intros H Hs k s'. simpl. rewrite jget_jset. case_decide; [by intros [= <-]|apply H]. Qed.

Lemma bu_del G key : budget_used G → budget_used (set_slots G (jdel (slots G) key)).
Proof. intros H k s. simpl. rewrite jget_jdel. case_decide; [done|apply H]. Qed.

Lemma bu_s_ G key : budget_used G → budget_used (s_ G key).1.
Proof.
  intros H. unfold s_. destruct (jget (slots G) key); [done|]. by apply (bu_put G key slot0).
Qed.

Lemma bu_end G id b t k i : budget_used G → budget_used (end_ G id b t k i).1.
Proof.
  intros H. unfold end_. destruct (identitySuffix id) as [key|]; [|done].
  destruct (jget (slots G) key) as [s|] eqn:Es; [|by apply (bu_eq G)].
  destruct (_ || _); [by apply (bu_eq G)|]. destruct (inc_mismatch i s); [by apply (bu_eq G)|].
  destruct b; [by apply bu_del|].
  destruct (maxAttempts (gcfg G) <=? attempts s + 1) eqn:Ec; cbn [fst]; apply bu_put; try done; simpl; zb; [lia|].
  intros He. specialize (H _ _ Es He). lia.
Qed.

Lemma bu_gstep G o : gwf G → budget_used G → budget_used (gstep G o).
Proof.
  intros Hw H. destruct o; cbn [gstep].
  - unfold allow. destruct (identitySuffix id) as [key|]; [|done].
    pose proof (bu_s_ G key H). by destruct (s_ G key).
  - unfold deferPath. destruct (identitySuffix id) as [key|]; [|done].
    pose proof (bu_s_ G key H) as H1. destruct (s_get G key) as [Hg _]. destruct (s_ G key) as [G1 s].
    simpl in *. eapply (bu_eq (put_slot G1 key _)); [reflexivity|done|]. apply bu_put; [done|]. by apply (H1 key s Hg).
  - unfold pathDelivered. destruct (identitySuffix id) as [key|]; [|done]. simpl.
    destruct (jget (slots G) key) as [s|] eqn:Es; [|done]. simpl.
    destruct (_ && _); [by apply bu_del|]. apply bu_put; [done|]. by apply (H key s Es).
  - destruct (identitySuffix id) as [key|] eqn:E; [|unfold begin; by rewrite E].
    destruct (begin_spec G id t key Hw E) as (_ & _ & Ec & _ & _ & _ & Eg).
    intros k s. rewrite Eg, Ec. case_decide; [|apply H]. intros [= <-]. subst. simpl.
    destruct (jget (slots G) k) as [s|] eqn:Es; [|done]. by apply (H k s Es).
  - by apply bu_end.
  - unfold attach. destruct (identitySuffix id) as [key|]; [|done]. simpl.
    destruct (jget (slots G) key) as [s|] eqn:Es; [|done]. simpl. destruct (_ || _); [done|].
    apply bu_put; [done|]. by apply (H key s Es).
  - unfold release. destruct (identitySuffix id) as [key|]; [|done].
    destruct (jget (slots G) key) as [s|] eqn:Es; [|done]. destruct (_ || _); [done|]. cbn [fst].
    destruct (_ && _); [by apply (bu_del (inc_released G))|]. apply (bu_put (inc_released G)); [done|].
    by apply (H key s Es).
  - assert (∀ l G1, budget_used G1 → budget_used (foldl (sweep_one t maxMs) G1 l)) as Hl; [|by apply Hl].
    intros l. induction l as [|[k s] l IH]; intros G1 H1; [done|]. cbn [foldl]. apply IH.
    unfold sweep_one. destruct (inflight s && _); [|done].
    apply (bu_eq (end_ G1 (JStr k) false t (Some (k_ s)) None).1); [done..|]. by apply bu_end.
  - unfold onFreshRecord. destruct (identitySuffix id) as [key|]; [|done].
    destruct (match _ with Some _ => _ | None => _ end); [done|]. cbn [fst].
    match goal with |- budget_used (inc_refills ?X) => apply (bu_eq X); [done..|] end.
    set (G1 := set_last G _). assert (budget_used G1) as H1 by done.
    destruct (jget (slots G1) key) as [s|]; [destruct (inflight s)|]; try (by apply bu_del).
    by apply bu_put.
Qed.

Lemma gruns_budget c x G : greach c x G → budget_used G ∧ gcfg G = c ∧ expiryRefill G = x.
Proof.
  intros Hr. assert (gwf (with_expiryRefill (new_guard c) x)) as Hw.
  { split; try done. apply jwf_nil. }
  unfold greach in Hr. remember (with_expiryRefill (new_guard c) x) as G0 eqn:E0.
  induction Hr as [G|G G' o Hr IH]; [by subst|]. destruct (IH E0 Hw) as (H1 & H2 & H3).
  pose proof (gruns_gwf _ _ Hr Hw) as Hw'. split; [by apply bu_gstep|].
  destruct (gstep_cfg G' o Hw'). split; congruence.
Qed.

(** Self-heal pacing: once an identity has spent its budget, a dial to it
    is allowed again only with [expiryRefill] on and only a whole
    [refillWindowMs] after the last one was issued, whatever was allowed,
    deferred, ended, released or swept in between and however that attempt
    ended. *)
Theorem exhausted_pacing c x G id t1 G' t2 key :
  greach c x G → identitySuffix id = Some key → expiredOf G id = true →
  no_budget key t1 (begin G id t1).1 G' →
  (allow G' id t2).2 = true → x = true ∧ t1 + refillWindowMs c ≤ t2.
Proof.
  intros Hr E He Hn Ha. pose proof (greach_gwf _ _ _ Hr) as Hw.
  destruct (gruns_budget _ _ _ Hr) as (Hb & Hc & Hx).
  destruct (begin_spec G id t1 key Hw E) as (_ & _ & Ec & Ex & _ & _ & Eg).
  assert (gwf (begin G id t1).1) as Hw1 by (apply (gstep_gwf G (GBegin id t1)); done).
  unfold expiredOf, slotOf in He. rewrite E in He. simpl in He.
  destruct (jget (slots G) key) as [s|] eqn:Es; [|done]. simpl in *.
  assert (stays_spent key (t1 + refillWindowMs c) (begin G id t1).1) as Hs.
  { split.
    - eexists. rewrite Eg, decide_True by done. split_and!; [done|done|]. simpl. rewrite He, Hc. lia.
    - intros s0. rewrite Eg, decide_True, Ec by done. intros [= <-]. simpl. by apply (Hb key s Es). }
  destruct (no_budget_spent _ _ _ _ _ Hn Hw1 Hs ltac:(by rewrite Ec, Hc)) as (Hs' & _ & _ & Ex').
  destruct (ss_slot _ _ _ Hs') as (s1 & Hg & Hx1 & Hn1). unfold allow, s_ in Ha. rewrite E, Hg in Ha. simpl in Ha.
  rewrite Hx1, Ex', Ex, Hx in Ha. destruct (t2 <? pathUntil s1); [done|]. zb. split; [done|lia].
Qed.

Definition spent_guard : guard :=
  foldl gstep (with_expiryRefill (new_guard (mk_gconfig 1 30000 2 60000 45000)) true)
    [GBegin demo_id 0; GEnd demo_id false 100 (Some 1) None].

Lemma exhausted_pacing_witness :
  (allow (gstep (begin spent_guard demo_id 60100).1 (GSweep 110000 45000)) demo_id 170000).2 = true ∧
  true = true ∧ 60100 + refillWindowMs (mk_gconfig 1 30000 2 60000 45000) ≤ 170000.
Proof.
  assert ((allow (gstep (begin spent_guard demo_id 60100).1 (GSweep 110000 45000)) demo_id 170000).2 = true) as Ha
    by (vm_compute; reflexivity).
  assert (identitySuffix demo_id = Some (default "" (identitySuffix demo_id))) as E by (vm_compute; reflexivity).
  assert (expiredOf spent_guard demo_id = true) as He by (vm_compute; reflexivity).
  split; [exact Ha|].
  refine (exhausted_pacing (mk_gconfig 1 30000 2 60000 45000) true spent_guard demo_id 60100 _ 170000 _ _ E He _ Ha).
  - exact (gruns_step _ _ _ (gruns_step _ _ _ (gruns_refl _))).
  - refine (nb_step _ _ _ _ (GSweep 110000 45000) (nb_refl _ _ _) _ _ _);
      [intros n [= <-]; lia|intros id t H; discriminate H|intros id t k i H; discriminate H].
Defined.

(** * Path backoff *)

Lemma jittered_bounds ms u : 0 ≤ ms → 0 ≤ u < 2 ^ 53 → ms ≤ 2 * jittered ms u ≤ 3 * ms.
Proof.
  intros Hm Hu. unfold jittered. replace (2 ^ 54) with (2 * 2 ^ 53) by reflexivity.
  replace (2 ^ 53) with (2 * 2 ^ 52) in * by reflexivity. set (p := 2 ^ 52) in *.
  assert (0 < p) as Hp by done. clearbody p.
  pose proof (Z.div_mod (2 * ms * (p + u) + 2 * p) (2 * (2 * p)) ltac:(lia)) as Hd.
  pose proof (Z.mod_pos_bound (2 * ms * (p + u) + 2 * p) (2 * (2 * p)) ltac:(lia)) as Hb.
  set (q := _ `div` _) in *. set (r := _ `mod` _) in *. clearbody q r. split; [nia|].
  assert (2 * ms * (p + u) + 2 * p < (3 * ms + 1) * (2 * p) ∨ ms = 0) as [H|H] by nia; nia.
Qed.

(** A confirmed non-delivery defers exactly that identity: the n-th one in
    a row (counted to 30) by the doubled base, capped at [maxMs], and with
    jitter by between half and one and a half times that capped value; until
    the cooldown has passed no dial site is allowed to the identity. *)
Theorem path_backoff G id key t base maxMs jitter :
  identitySuffix id = Some key → 0 ≤ base → 0 ≤ maxMs → (∀ u, jitter = Some u → 0 ≤ u < 2 ^ 53) →
  let n := Z.min (noPathOf G id + 1) 30 in
  let cap := Z.min maxMs (base * 2 ^ (n - 1)) in
  let G' := (deferPath G id t base maxMs jitter).1 in
  let ms := (deferPath G id t base maxMs jitter).2 in
  noPathOf G' id = n ∧ attemptsOf G' id = attemptsOf G id ∧
  (jitter = None → ms = cap) ∧ cap ≤ 2 * ms ≤ 3 * cap ∧
  (∀ t', (allow G' id t').2 = true → t + ms ≤ t') ∧
  (∀ key', key' ≠ key → jget (slots G') key' = jget (slots G) key').
Proof.
  intros E Hb Hm Hj. unfold deferPath, noPathOf, attemptsOf, slotOf. rewrite E. simpl.
  destruct (s_get G key) as [Hg Hs]. assert (∀ key', key' ≠ key →
    jget (slots (s_ G key).1) key' = jget (slots G) key') as Ho.
  { intros key' Hne. unfold s_. destruct (jget (slots G) key); [done|]. simpl. by rewrite jget_jset_ne by congruence. }
  destruct (s_ G key) as [G1 s]. simpl in *. rewrite jget_jset_eq. simpl.
  assert (default 0 (noPath <$> jget (slots G) key) = noPath s) as ->.
  { rewrite Hs. by destruct (jget (slots G) key). }
  assert (default 0 (attempts <$> jget (slots G) key) = attempts s) as ->.
  { rewrite Hs. by destruct (jget (slots G) key). }
  set (cap := Z.min maxMs _). assert (0 ≤ cap) as Hc.
  { subst cap. pose proof (Z.pow_nonneg 2 ((noPath s + 1) `min` 30 - 1) ltac:(lia)). nia. }
  split_and!; try done.
  - by intros ->.
  - destruct jitter as [u|]; [|lia]. by apply jittered_bounds, Hj.
  - destruct jitter as [u|]; [|lia]. by apply jittered_bounds, Hj.
  - intros t'. unfold allow, s_. rewrite E. simpl. rewrite jget_jset_eq. simpl.
    destruct (t' <? _) eqn:Et; [done|]. zb. lia.
  - intros key' Hne. rewrite jget_jset_ne by congruence. by apply Ho.
Qed.

Lemma path_backoff_witness :
  (deferPath (deferPath (new_guard gconfig0) demo_id 0 30000 600000 None).1 demo_id 40000 30000 600000 None).2 = 60000.
Proof.
  assert (identitySuffix demo_id = Some (default "" (identitySuffix demo_id))) as E by (vm_compute; reflexivity).
  assert (0 ≤ 30000) as H1 by lia. assert (0 ≤ 600000) as H2 by lia.
  pose proof (path_backoff (deferPath (new_guard gconfig0) demo_id 0 30000 600000 None).1 demo_id _ 40000 30000 600000
    None E H1 H2 ltac:(done)) as H. cbv zeta in H. rewrite (proj1 (proj2 (proj2 H)) eq_refl).
  vm_compute. reflexivity.
Defined.
