(* ===== verification/Role.v ===== *)
(** Role.v - the state the pub/sub mixins share (src/src/pubsub/rootClaim.js
    [makeRole], [makeMergeState]; the maps of src/src/pubsub/AxonaManager.js).

    A role object is created once and then shared by reference: [axonRoles]
    maps a topic to a reference into [heap], so that an asynchronous commit
    that still holds an old role object is a write to a reference the map no
    longer names.  Numbers are exact integers; a Set is a [gset], a Map keeps
    its insertion order ([jmap]).  A call that leaves the modelled mixins is an
    [eff] appended to [outbox], in order. *)
From stdpp Require Import base gmap sets list strings.
From Stdlib Require Import ZArith Lia.
From S2P Require Import Prelude HexId.
#[local] Open Scope Z_scope.
#[local] Open Scope js_scope.

(** * Data *)

Record entry := mk_entry { e_msgId : string; publishTs : Z; e_json : string; e_seq : option Z; e_bytes : Z }.

(** A signed deletion proof, as far as the mixins read it. *)
Record killproof := mk_kill { kp_msgId : string; kp_topicId : option jsv; kp_signer : string }.

Record tomb := mk_tomb {
  t_exp : Z; t_killTs : Z; t_signer : option string; t_seq : option Z; t_kill : option killproof;
  t_gen : option (string * Z); t_owners : list string
}.

Record gate := mk_gate { g_winner : string; g_winnerEpoch : Z; g_corr : string; g_at : Z; g_staged : bool }.
Record cand := mk_cand { c_id : string; c_epoch : Z; c_source : string; c_at : Z }.
Record accepted := mk_accepted { aw_id : string; aw_epoch : Z; aw_at : Z; aw_exp : Z }.
Record completing := mk_completing {
  cp_corr : string; cp_winner : string; cp_winnerEpoch : Z; cp_loserEpoch : Z; cp_hash : option string; cp_sinceAll : bool
}.

Record sub := mk_sub { s_since : Z; s_lastRenewed : Z }.
Record isub := mk_isub { is_since : Z; is_child : bool }.

(** A deletion as it travels. *)
Record delmark := mk_delmark {
  dm_msgId : string; dm_killTs : Z; dm_signer : option string; dm_seq : option Z; dm_kill : option killproof
}.

(** The timing of a merge round, and one entry of its export. *)
Record timing := mk_timing { tm_version : Z; tm_A : Z; tm_E : Z }.
#[export] Instance timing_eq_dec : EqDecision timing.
Proof. solve_decision. Defined.
Inductive item := IBody (e : entry) | IDel (d : delmark).
Inductive mstage := MOffered | MBound | MCompleted.
#[export] Instance mstage_eq_dec : EqDecision mstage.
Proof. solve_decision. Defined.

(** An open round at the loser ([sync.openMerges]) and at the winner ([sync.openPulls]). *)
Record mrec := mk_mrec {
  m_winner : string; m_winnerEpoch : Z; m_loserEpoch : Z;
  m_state : mstage; m_snapshot : list item; m_bodies : list string;
  m_dels : list string; m_lastCursorSent : option string; m_offeredAt : Z;
  m_boundAt : Z; m_tB : Z; m_tBWall : Z;
  m_timing : timing; m_hash : option string; m_reached : option bool;
  m_ephemeral : bool; m_winnerHost : option string; m_deferred : bool;
  m_deferPinned : bool
}.
Definition with_m_winner (v : string) (r : mrec) : mrec :=
  mk_mrec v (m_winnerEpoch r) (m_loserEpoch r) (m_state r) (m_snapshot r) (m_bodies r) (m_dels r) (m_lastCursorSent r)
    (m_offeredAt r) (m_boundAt r) (m_tB r) (m_tBWall r) (m_timing r) (m_hash r) (m_reached r) (m_ephemeral r)
    (m_winnerHost r) (m_deferred r) (m_deferPinned r).
Definition with_m_winnerEpoch (v : Z) (r : mrec) : mrec :=
  mk_mrec (m_winner r) v (m_loserEpoch r) (m_state r) (m_snapshot r) (m_bodies r) (m_dels r) (m_lastCursorSent r)
    (m_offeredAt r) (m_boundAt r) (m_tB r) (m_tBWall r) (m_timing r) (m_hash r) (m_reached r) (m_ephemeral r)
    (m_winnerHost r) (m_deferred r) (m_deferPinned r).
Definition with_m_loserEpoch (v : Z) (r : mrec) : mrec :=
  mk_mrec (m_winner r) (m_winnerEpoch r) v (m_state r) (m_snapshot r) (m_bodies r) (m_dels r) (m_lastCursorSent r)
    (m_offeredAt r) (m_boundAt r) (m_tB r) (m_tBWall r) (m_timing r) (m_hash r) (m_reached r) (m_ephemeral r)
    (m_winnerHost r) (m_deferred r) (m_deferPinned r).
Definition with_m_state (v : mstage) (r : mrec) : mrec :=
  mk_mrec (m_winner r) (m_winnerEpoch r) (m_loserEpoch r) v (m_snapshot r) (m_bodies r) (m_dels r) (m_lastCursorSent r)
    (m_offeredAt r) (m_boundAt r) (m_tB r) (m_tBWall r) (m_timing r) (m_hash r) (m_reached r) (m_ephemeral r)
    (m_winnerHost r) (m_deferred r) (m_deferPinned r).
Definition with_m_snapshot (v : list item) (r : mrec) : mrec :=
  mk_mrec (m_winner r) (m_winnerEpoch r) (m_loserEpoch r) (m_state r) v (m_bodies r) (m_dels r) (m_lastCursorSent r)
    (m_offeredAt r) (m_boundAt r) (m_tB r) (m_tBWall r) (m_timing r) (m_hash r) (m_reached r) (m_ephemeral r)
    (m_winnerHost r) (m_deferred r) (m_deferPinned r).
Definition with_m_bodies (v : list string) (r : mrec) : mrec :=
  mk_mrec (m_winner r) (m_winnerEpoch r) (m_loserEpoch r) (m_state r) (m_snapshot r) v (m_dels r) (m_lastCursorSent r)
    (m_offeredAt r) (m_boundAt r) (m_tB r) (m_tBWall r) (m_timing r) (m_hash r) (m_reached r) (m_ephemeral r)
    (m_winnerHost r) (m_deferred r) (m_deferPinned r).
Definition with_m_dels (v : list string) (r : mrec) : mrec :=
  mk_mrec (m_winner r) (m_winnerEpoch r) (m_loserEpoch r) (m_state r) (m_snapshot r) (m_bodies r) v (m_lastCursorSent r)
    (m_offeredAt r) (m_boundAt r) (m_tB r) (m_tBWall r) (m_timing r) (m_hash r) (m_reached r) (m_ephemeral r)
    (m_winnerHost r) (m_deferred r) (m_deferPinned r).
Definition with_m_lastCursorSent (v : option string) (r : mrec) : mrec :=
  mk_mrec (m_winner r) (m_winnerEpoch r) (m_loserEpoch r) (m_state r) (m_snapshot r) (m_bodies r) (m_dels r) v
    (m_offeredAt r) (m_boundAt r) (m_tB r) (m_tBWall r) (m_timing r) (m_hash r) (m_reached r) (m_ephemeral r)
    (m_winnerHost r) (m_deferred r) (m_deferPinned r).
Definition with_m_offeredAt (v : Z) (r : mrec) : mrec :=
  mk_mrec (m_winner r) (m_winnerEpoch r) (m_loserEpoch r) (m_state r) (m_snapshot r) (m_bodies r) (m_dels r)
    (m_lastCursorSent r) v (m_boundAt r) (m_tB r) (m_tBWall r) (m_timing r) (m_hash r) (m_reached r) (m_ephemeral r)
    (m_winnerHost r) (m_deferred r) (m_deferPinned r).
Definition with_m_boundAt (v : Z) (r : mrec) : mrec :=
  mk_mrec (m_winner r) (m_winnerEpoch r) (m_loserEpoch r) (m_state r) (m_snapshot r) (m_bodies r) (m_dels r)
    (m_lastCursorSent r) (m_offeredAt r) v (m_tB r) (m_tBWall r) (m_timing r) (m_hash r) (m_reached r)
    (m_ephemeral r) (m_winnerHost r) (m_deferred r) (m_deferPinned r).
Definition with_m_tB (v : Z) (r : mrec) : mrec :=
  mk_mrec (m_winner r) (m_winnerEpoch r) (m_loserEpoch r) (m_state r) (m_snapshot r) (m_bodies r) (m_dels r)
    (m_lastCursorSent r) (m_offeredAt r) (m_boundAt r) v (m_tBWall r) (m_timing r) (m_hash r) (m_reached r)
    (m_ephemeral r) (m_winnerHost r) (m_deferred r) (m_deferPinned r).
Definition with_m_tBWall (v : Z) (r : mrec) : mrec :=
  mk_mrec (m_winner r) (m_winnerEpoch r) (m_loserEpoch r) (m_state r) (m_snapshot r) (m_bodies r) (m_dels r)
    (m_lastCursorSent r) (m_offeredAt r) (m_boundAt r) (m_tB r) v (m_timing r) (m_hash r) (m_reached r)
    (m_ephemeral r) (m_winnerHost r) (m_deferred r) (m_deferPinned r).
Definition with_m_timing (v : timing) (r : mrec) : mrec :=
  mk_mrec (m_winner r) (m_winnerEpoch r) (m_loserEpoch r) (m_state r) (m_snapshot r) (m_bodies r) (m_dels r)
    (m_lastCursorSent r) (m_offeredAt r) (m_boundAt r) (m_tB r) (m_tBWall r) v (m_hash r) (m_reached r)
    (m_ephemeral r) (m_winnerHost r) (m_deferred r) (m_deferPinned r).
Definition with_m_hash (v : option string) (r : mrec) : mrec :=
  mk_mrec (m_winner r) (m_winnerEpoch r) (m_loserEpoch r) (m_state r) (m_snapshot r) (m_bodies r) (m_dels r)
    (m_lastCursorSent r) (m_offeredAt r) (m_boundAt r) (m_tB r) (m_tBWall r) (m_timing r) v (m_reached r)
    (m_ephemeral r) (m_winnerHost r) (m_deferred r) (m_deferPinned r).
Definition with_m_reached (v : option bool) (r : mrec) : mrec :=
  mk_mrec (m_winner r) (m_winnerEpoch r) (m_loserEpoch r) (m_state r) (m_snapshot r) (m_bodies r) (m_dels r)
    (m_lastCursorSent r) (m_offeredAt r) (m_boundAt r) (m_tB r) (m_tBWall r) (m_timing r) (m_hash r) v
    (m_ephemeral r) (m_winnerHost r) (m_deferred r) (m_deferPinned r).
Definition with_m_ephemeral (v : bool) (r : mrec) : mrec :=
  mk_mrec (m_winner r) (m_winnerEpoch r) (m_loserEpoch r) (m_state r) (m_snapshot r) (m_bodies r) (m_dels r)
    (m_lastCursorSent r) (m_offeredAt r) (m_boundAt r) (m_tB r) (m_tBWall r) (m_timing r) (m_hash r) (m_reached r) v
    (m_winnerHost r) (m_deferred r) (m_deferPinned r).
Definition with_m_winnerHost (v : option string) (r : mrec) : mrec :=
  mk_mrec (m_winner r) (m_winnerEpoch r) (m_loserEpoch r) (m_state r) (m_snapshot r) (m_bodies r) (m_dels r)
    (m_lastCursorSent r) (m_offeredAt r) (m_boundAt r) (m_tB r) (m_tBWall r) (m_timing r) (m_hash r) (m_reached r)
    (m_ephemeral r) v (m_deferred r) (m_deferPinned r).
Definition with_m_deferred (v : bool) (r : mrec) : mrec :=
  mk_mrec (m_winner r) (m_winnerEpoch r) (m_loserEpoch r) (m_state r) (m_snapshot r) (m_bodies r) (m_dels r)
    (m_lastCursorSent r) (m_offeredAt r) (m_boundAt r) (m_tB r) (m_tBWall r) (m_timing r) (m_hash r) (m_reached r)
    (m_ephemeral r) (m_winnerHost r) v (m_deferPinned r).
Definition with_m_deferPinned (v : bool) (r : mrec) : mrec :=
  mk_mrec (m_winner r) (m_winnerEpoch r) (m_loserEpoch r) (m_state r) (m_snapshot r) (m_bodies r) (m_dels r)
    (m_lastCursorSent r) (m_offeredAt r) (m_boundAt r) (m_tB r) (m_tBWall r) (m_timing r) (m_hash r) (m_reached r)
    (m_ephemeral r) (m_winnerHost r) (m_deferred r) v.
Record prec := mk_prec {
  p_loser : string; p_loserEpoch : Z; p_cursor : option string;
  p_framesIn : Z; p_held : Z; p_sent : Z;
  p_startedAt : Z; p_timing : timing; p_acked : bool;
  p_bodies : list string; p_dels : list string; p_tS : Z;
  p_hash : option string; p_full : bool
}.
Definition with_p_loser (v : string) (r : prec) : prec :=
  mk_prec v (p_loserEpoch r) (p_cursor r) (p_framesIn r) (p_held r) (p_sent r) (p_startedAt r) (p_timing r) (p_acked r)
    (p_bodies r) (p_dels r) (p_tS r) (p_hash r) (p_full r).
Definition with_p_loserEpoch (v : Z) (r : prec) : prec :=
  mk_prec (p_loser r) v (p_cursor r) (p_framesIn r) (p_held r) (p_sent r) (p_startedAt r) (p_timing r) (p_acked r)
    (p_bodies r) (p_dels r) (p_tS r) (p_hash r) (p_full r).
Definition with_p_cursor (v : option string) (r : prec) : prec :=
  mk_prec (p_loser r) (p_loserEpoch r) v (p_framesIn r) (p_held r) (p_sent r) (p_startedAt r) (p_timing r) (p_acked r)
    (p_bodies r) (p_dels r) (p_tS r) (p_hash r) (p_full r).
Definition with_p_framesIn (v : Z) (r : prec) : prec :=
  mk_prec (p_loser r) (p_loserEpoch r) (p_cursor r) v (p_held r) (p_sent r) (p_startedAt r) (p_timing r) (p_acked r)
    (p_bodies r) (p_dels r) (p_tS r) (p_hash r) (p_full r).
Definition with_p_held (v : Z) (r : prec) : prec :=
  mk_prec (p_loser r) (p_loserEpoch r) (p_cursor r) (p_framesIn r) v (p_sent r) (p_startedAt r) (p_timing r) (p_acked r)
    (p_bodies r) (p_dels r) (p_tS r) (p_hash r) (p_full r).
Definition with_p_sent (v : Z) (r : prec) : prec :=
  mk_prec (p_loser r) (p_loserEpoch r) (p_cursor r) (p_framesIn r) (p_held r) v (p_startedAt r) (p_timing r) (p_acked r)
    (p_bodies r) (p_dels r) (p_tS r) (p_hash r) (p_full r).
Definition with_p_startedAt (v : Z) (r : prec) : prec :=
  mk_prec (p_loser r) (p_loserEpoch r) (p_cursor r) (p_framesIn r) (p_held r) (p_sent r) v (p_timing r) (p_acked r)
    (p_bodies r) (p_dels r) (p_tS r) (p_hash r) (p_full r).
Definition with_p_timing (v : timing) (r : prec) : prec :=
  mk_prec (p_loser r) (p_loserEpoch r) (p_cursor r) (p_framesIn r) (p_held r) (p_sent r) (p_startedAt r) v (p_acked r)
    (p_bodies r) (p_dels r) (p_tS r) (p_hash r) (p_full r).
Definition with_p_acked (v : bool) (r : prec) : prec :=
  mk_prec (p_loser r) (p_loserEpoch r) (p_cursor r) (p_framesIn r) (p_held r) (p_sent r) (p_startedAt r) (p_timing r) v
    (p_bodies r) (p_dels r) (p_tS r) (p_hash r) (p_full r).
Definition with_p_bodies (v : list string) (r : prec) : prec :=
  mk_prec (p_loser r) (p_loserEpoch r) (p_cursor r) (p_framesIn r) (p_held r) (p_sent r) (p_startedAt r) (p_timing r)
    (p_acked r) v (p_dels r) (p_tS r) (p_hash r) (p_full r).
Definition with_p_dels (v : list string) (r : prec) : prec :=
  mk_prec (p_loser r) (p_loserEpoch r) (p_cursor r) (p_framesIn r) (p_held r) (p_sent r) (p_startedAt r) (p_timing r)
    (p_acked r) (p_bodies r) v (p_tS r) (p_hash r) (p_full r).
Definition with_p_tS (v : Z) (r : prec) : prec :=
  mk_prec (p_loser r) (p_loserEpoch r) (p_cursor r) (p_framesIn r) (p_held r) (p_sent r) (p_startedAt r) (p_timing r)
    (p_acked r) (p_bodies r) (p_dels r) v (p_hash r) (p_full r).
Definition with_p_hash (v : option string) (r : prec) : prec :=
  mk_prec (p_loser r) (p_loserEpoch r) (p_cursor r) (p_framesIn r) (p_held r) (p_sent r) (p_startedAt r) (p_timing r)
    (p_acked r) (p_bodies r) (p_dels r) (p_tS r) v (p_full r).
Definition with_p_full (v : bool) (r : prec) : prec :=
  mk_prec (p_loser r) (p_loserEpoch r) (p_cursor r) (p_framesIn r) (p_held r) (p_sent r) (p_startedAt r) (p_timing r)
    (p_acked r) (p_bodies r) (p_dels r) (p_tS r) (p_hash r) v.

Record staging_ := mk_staging { sg_corr : string; sg_loser : string; sg_loserEpoch : Z; sg_created : bool; sg_at : Z }.
Record successor := mk_successor { su_hw : Z; su_at : Z; su_host : option string }.

Inductive nature := NRoot | NBackup | NChild.
#[export] Instance nature_eq_dec : EqDecision nature.
Proof. solve_decision. Defined.

Record mstate := mk_mstate {
  releaseToken : option string; nextCandidate : option (string * Z); candidate_ : option cand;
  gate_ : option gate; gateFwd : jmap string (Z * string * string); mcorr : option string;
  pins : gset string; reserve_ : option (Z * Z); completing_ : option completing;
  acceptedWinner : option accepted; closedCorrs : list string
}.
Definition with_releaseToken (v : option string) (r : mstate) : mstate :=
  mk_mstate v (nextCandidate r) (candidate_ r) (gate_ r) (gateFwd r) (mcorr r) (pins r) (reserve_ r) (completing_ r)
    (acceptedWinner r) (closedCorrs r).
Definition with_nextCandidate (v : option (string * Z)) (r : mstate) : mstate :=
  mk_mstate (releaseToken r) v (candidate_ r) (gate_ r) (gateFwd r) (mcorr r) (pins r) (reserve_ r) (completing_ r)
    (acceptedWinner r) (closedCorrs r).
Definition with_candidate_ (v : option cand) (r : mstate) : mstate :=
  mk_mstate (releaseToken r) (nextCandidate r) v (gate_ r) (gateFwd r) (mcorr r) (pins r) (reserve_ r) (completing_ r)
    (acceptedWinner r) (closedCorrs r).
Definition with_gate_ (v : option gate) (r : mstate) : mstate :=
  mk_mstate (releaseToken r) (nextCandidate r) (candidate_ r) v (gateFwd r) (mcorr r) (pins r) (reserve_ r) (completing_ r)
    (acceptedWinner r) (closedCorrs r).
Definition with_gateFwd (v : jmap string (Z * string * string)) (r : mstate) : mstate :=
  mk_mstate (releaseToken r) (nextCandidate r) (candidate_ r) (gate_ r) v (mcorr r) (pins r) (reserve_ r) (completing_ r)
    (acceptedWinner r) (closedCorrs r).
Definition with_mcorr (v : option string) (r : mstate) : mstate :=
  mk_mstate (releaseToken r) (nextCandidate r) (candidate_ r) (gate_ r) (gateFwd r) v (pins r) (reserve_ r) (completing_ r)
    (acceptedWinner r) (closedCorrs r).
Definition with_pins (v : gset string) (r : mstate) : mstate :=
  mk_mstate (releaseToken r) (nextCandidate r) (candidate_ r) (gate_ r) (gateFwd r) (mcorr r) v (reserve_ r) (completing_ r)
    (acceptedWinner r) (closedCorrs r).
Definition with_reserve_ (v : option (Z * Z)) (r : mstate) : mstate :=
  mk_mstate (releaseToken r) (nextCandidate r) (candidate_ r) (gate_ r) (gateFwd r) (mcorr r) (pins r) v (completing_ r)
    (acceptedWinner r) (closedCorrs r).
Definition with_completing_ (v : option completing) (r : mstate) : mstate :=
  mk_mstate (releaseToken r) (nextCandidate r) (candidate_ r) (gate_ r) (gateFwd r) (mcorr r) (pins r) (reserve_ r) v
    (acceptedWinner r) (closedCorrs r).
Definition with_acceptedWinner (v : option accepted) (r : mstate) : mstate :=
  mk_mstate (releaseToken r) (nextCandidate r) (candidate_ r) (gate_ r) (gateFwd r) (mcorr r) (pins r) (reserve_ r)
    (completing_ r) v (closedCorrs r).
Definition with_closedCorrs (v : list string) (r : mstate) : mstate :=
  mk_mstate (releaseToken r) (nextCandidate r) (candidate_ r) (gate_ r) (gateFwd r) (mcorr r) (pins r) (reserve_ r)
    (completing_ r) (acceptedWinner r) v.

(** [makeMergeState()] *)
Definition makeMergeState : mstate :=
  mk_mstate None None None None [] None ∅ None None None [].

Record role := mk_role {
  topicId : Z; createdAt : Z; isRoot : bool;
  epoch : Z; subscribers : jmap string sub; children : gset string;
  cache : list entry; cacheIds : gset string; cacheBytes : Z;
  publishes : Z; dismantling : bool; retired : bool;
  lastTs : Z; seq : Z; tombstones : jmap string tomb;
  openMerges : jmap string mrec; openPulls : jmap string prec; merge : option mstate;
  gen : Z; backupOf : option string; lastReplicaAt : Z;
  standbyGen : option (string * Z); standbyIssuedAt : option Z; metricsOn : Z;
  latestOnly : option bool; formedAt : Z; lastVerify : Z;
  inheritedSubs : option (jmap string isub); inheritedMetricsOn : Z; inheritedStandingUntil : Z;
  standingUntil : Z; staging : option staging_; successors : jmap string successor;
  demandAt : Z; upstreamHeld : gset string; upstreamHeldFrom : option string
}.
Definition with_isRoot (v : bool) (r : role) : role :=
  mk_role (topicId r) (createdAt r) v (epoch r) (subscribers r) (children r) (cache r) (cacheIds r) (cacheBytes r)
    (publishes r) (dismantling r) (retired r) (lastTs r) (seq r) (tombstones r) (openMerges r) (openPulls r)
    (merge r) (gen r) (backupOf r) (lastReplicaAt r) (standbyGen r) (standbyIssuedAt r) (metricsOn r) (latestOnly r)
    (formedAt r) (lastVerify r) (inheritedSubs r) (inheritedMetricsOn r) (inheritedStandingUntil r)
    (standingUntil r) (staging r) (successors r)
    (demandAt r) (upstreamHeld r) (upstreamHeldFrom r).
Definition with_epoch (v : Z) (r : role) : role :=
  mk_role (topicId r) (createdAt r) (isRoot r) v (subscribers r) (children r) (cache r) (cacheIds r) (cacheBytes r)
    (publishes r) (dismantling r) (retired r) (lastTs r) (seq r) (tombstones r) (openMerges r) (openPulls r)
    (merge r) (gen r) (backupOf r) (lastReplicaAt r) (standbyGen r) (standbyIssuedAt r) (metricsOn r) (latestOnly r)
    (formedAt r) (lastVerify r) (inheritedSubs r) (inheritedMetricsOn r) (inheritedStandingUntil r)
    (standingUntil r) (staging r) (successors r)
    (demandAt r) (upstreamHeld r) (upstreamHeldFrom r).
Definition with_subscribers (v : jmap string sub) (r : role) : role :=
  mk_role (topicId r) (createdAt r) (isRoot r) (epoch r) v (children r) (cache r) (cacheIds r) (cacheBytes r)
    (publishes r) (dismantling r) (retired r) (lastTs r) (seq r) (tombstones r) (openMerges r) (openPulls r)
    (merge r) (gen r) (backupOf r) (lastReplicaAt r) (standbyGen r) (standbyIssuedAt r) (metricsOn r) (latestOnly r)
    (formedAt r) (lastVerify r) (inheritedSubs r) (inheritedMetricsOn r) (inheritedStandingUntil r)
    (standingUntil r) (staging r) (successors r)
    (demandAt r) (upstreamHeld r) (upstreamHeldFrom r).
Definition with_children (v : gset string) (r : role) : role :=
  mk_role (topicId r) (createdAt r) (isRoot r) (epoch r) (subscribers r) v (cache r) (cacheIds r) (cacheBytes r)
    (publishes r) (dismantling r) (retired r) (lastTs r) (seq r) (tombstones r) (openMerges r) (openPulls r)
    (merge r) (gen r) (backupOf r) (lastReplicaAt r) (standbyGen r) (standbyIssuedAt r) (metricsOn r) (latestOnly r)
    (formedAt r) (lastVerify r) (inheritedSubs r) (inheritedMetricsOn r) (inheritedStandingUntil r)
    (standingUntil r) (staging r) (successors r)
    (demandAt r) (upstreamHeld r) (upstreamHeldFrom r).
Definition with_cache (v : list entry) (r : role) : role :=
  mk_role (topicId r) (createdAt r) (isRoot r) (epoch r) (subscribers r) (children r) v (cacheIds r) (cacheBytes r)
    (publishes r) (dismantling r) (retired r) (lastTs r) (seq r) (tombstones r) (openMerges r) (openPulls r)
    (merge r) (gen r) (backupOf r) (lastReplicaAt r) (standbyGen r) (standbyIssuedAt r) (metricsOn r) (latestOnly r)
    (formedAt r) (lastVerify r) (inheritedSubs r) (inheritedMetricsOn r) (inheritedStandingUntil r)
    (standingUntil r) (staging r) (successors r)
    (demandAt r) (upstreamHeld r) (upstreamHeldFrom r).
Definition with_cacheIds (v : gset string) (r : role) : role :=
  mk_role (topicId r) (createdAt r) (isRoot r) (epoch r) (subscribers r) (children r) (cache r) v (cacheBytes r)
    (publishes r) (dismantling r) (retired r) (lastTs r) (seq r) (tombstones r) (openMerges r) (openPulls r)
    (merge r) (gen r) (backupOf r) (lastReplicaAt r) (standbyGen r) (standbyIssuedAt r) (metricsOn r) (latestOnly r)
    (formedAt r) (lastVerify r) (inheritedSubs r) (inheritedMetricsOn r) (inheritedStandingUntil r)
    (standingUntil r) (staging r) (successors r)
    (demandAt r) (upstreamHeld r) (upstreamHeldFrom r).
Definition with_cacheBytes (v : Z) (r : role) : role :=
  mk_role (topicId r) (createdAt r) (isRoot r) (epoch r) (subscribers r) (children r) (cache r) (cacheIds r) v
    (publishes r) (dismantling r) (retired r) (lastTs r) (seq r) (tombstones r) (openMerges r) (openPulls r)
    (merge r) (gen r) (backupOf r) (lastReplicaAt r) (standbyGen r) (standbyIssuedAt r) (metricsOn r) (latestOnly r)
    (formedAt r) (lastVerify r) (inheritedSubs r) (inheritedMetricsOn r) (inheritedStandingUntil r)
    (standingUntil r) (staging r) (successors r)
    (demandAt r) (upstreamHeld r) (upstreamHeldFrom r).
Definition with_publishes (v : Z) (r : role) : role :=
  mk_role (topicId r) (createdAt r) (isRoot r) (epoch r) (subscribers r) (children r) (cache r) (cacheIds r)
    (cacheBytes r) v (dismantling r) (retired r) (lastTs r) (seq r) (tombstones r) (openMerges r) (openPulls r)
    (merge r) (gen r) (backupOf r) (lastReplicaAt r) (standbyGen r) (standbyIssuedAt r) (metricsOn r) (latestOnly r)
    (formedAt r) (lastVerify r) (inheritedSubs r) (inheritedMetricsOn r) (inheritedStandingUntil r)
    (standingUntil r) (staging r) (successors r)
    (demandAt r) (upstreamHeld r) (upstreamHeldFrom r).
Definition with_dismantling (v : bool) (r : role) : role :=
  mk_role (topicId r) (createdAt r) (isRoot r) (epoch r) (subscribers r) (children r) (cache r) (cacheIds r)
    (cacheBytes r) (publishes r) v (retired r) (lastTs r) (seq r) (tombstones r) (openMerges r) (openPulls r)
    (merge r) (gen r) (backupOf r) (lastReplicaAt r) (standbyGen r) (standbyIssuedAt r) (metricsOn r) (latestOnly r)
    (formedAt r) (lastVerify r) (inheritedSubs r) (inheritedMetricsOn r) (inheritedStandingUntil r)
    (standingUntil r) (staging r) (successors r)
    (demandAt r) (upstreamHeld r) (upstreamHeldFrom r).
Definition with_retired (v : bool) (r : role) : role :=
  mk_role (topicId r) (createdAt r) (isRoot r) (epoch r) (subscribers r) (children r) (cache r) (cacheIds r)
    (cacheBytes r) (publishes r) (dismantling r) v (lastTs r) (seq r) (tombstones r) (openMerges r) (openPulls r)
    (merge r) (gen r) (backupOf r) (lastReplicaAt r) (standbyGen r) (standbyIssuedAt r) (metricsOn r) (latestOnly r)
    (formedAt r) (lastVerify r) (inheritedSubs r) (inheritedMetricsOn r) (inheritedStandingUntil r)
    (standingUntil r) (staging r) (successors r)
    (demandAt r) (upstreamHeld r) (upstreamHeldFrom r).
Definition with_lastTs (v : Z) (r : role) : role :=
  mk_role (topicId r) (createdAt r) (isRoot r) (epoch r) (subscribers r) (children r) (cache r) (cacheIds r)
    (cacheBytes r) (publishes r) (dismantling r) (retired r) v (seq r) (tombstones r) (openMerges r) (openPulls r)
    (merge r) (gen r) (backupOf r) (lastReplicaAt r) (standbyGen r) (standbyIssuedAt r) (metricsOn r) (latestOnly r)
    (formedAt r) (lastVerify r) (inheritedSubs r) (inheritedMetricsOn r) (inheritedStandingUntil r)
    (standingUntil r) (staging r) (successors r)
    (demandAt r) (upstreamHeld r) (upstreamHeldFrom r).
Definition with_seq (v : Z) (r : role) : role :=
  mk_role (topicId r) (createdAt r) (isRoot r) (epoch r) (subscribers r) (children r) (cache r) (cacheIds r)
    (cacheBytes r) (publishes r) (dismantling r) (retired r) (lastTs r) v (tombstones r) (openMerges r)
    (openPulls r) (merge r) (gen r) (backupOf r) (lastReplicaAt r) (standbyGen r) (standbyIssuedAt r) (metricsOn r)
    (latestOnly r) (formedAt r) (lastVerify r) (inheritedSubs r) (inheritedMetricsOn r) (inheritedStandingUntil r)
    (standingUntil r) (staging r) (successors r)
    (demandAt r) (upstreamHeld r) (upstreamHeldFrom r).
Definition with_tombstones (v : jmap string tomb) (r : role) : role :=
  mk_role (topicId r) (createdAt r) (isRoot r) (epoch r) (subscribers r) (children r) (cache r) (cacheIds r)
    (cacheBytes r) (publishes r) (dismantling r) (retired r) (lastTs r) (seq r) v (openMerges r) (openPulls r)
    (merge r) (gen r) (backupOf r) (lastReplicaAt r) (standbyGen r) (standbyIssuedAt r) (metricsOn r) (latestOnly r)
    (formedAt r) (lastVerify r) (inheritedSubs r) (inheritedMetricsOn r) (inheritedStandingUntil r)
    (standingUntil r) (staging r) (successors r)
    (demandAt r) (upstreamHeld r) (upstreamHeldFrom r).
Definition with_openMerges (v : jmap string mrec) (r : role) : role :=
  mk_role (topicId r) (createdAt r) (isRoot r) (epoch r) (subscribers r) (children r) (cache r) (cacheIds r)
    (cacheBytes r) (publishes r) (dismantling r) (retired r) (lastTs r) (seq r) (tombstones r) v (openPulls r)
    (merge r) (gen r) (backupOf r) (lastReplicaAt r) (standbyGen r) (standbyIssuedAt r) (metricsOn r) (latestOnly r)
    (formedAt r) (lastVerify r) (inheritedSubs r) (inheritedMetricsOn r) (inheritedStandingUntil r)
    (standingUntil r) (staging r) (successors r)
    (demandAt r) (upstreamHeld r) (upstreamHeldFrom r).
Definition with_openPulls (v : jmap string prec) (r : role) : role :=
  mk_role (topicId r) (createdAt r) (isRoot r) (epoch r) (subscribers r) (children r) (cache r) (cacheIds r)
    (cacheBytes r) (publishes r) (dismantling r) (retired r) (lastTs r) (seq r) (tombstones r) (openMerges r) v
    (merge r) (gen r) (backupOf r) (lastReplicaAt r) (standbyGen r) (standbyIssuedAt r) (metricsOn r) (latestOnly r)
    (formedAt r) (lastVerify r) (inheritedSubs r) (inheritedMetricsOn r) (inheritedStandingUntil r)
    (standingUntil r) (staging r) (successors r)
    (demandAt r) (upstreamHeld r) (upstreamHeldFrom r).
Definition with_merge (v : option mstate) (r : role) : role :=
  mk_role (topicId r) (createdAt r) (isRoot r) (epoch r) (subscribers r) (children r) (cache r) (cacheIds r)
    (cacheBytes r) (publishes r) (dismantling r) (retired r) (lastTs r) (seq r) (tombstones r) (openMerges r)
    (openPulls r) v (gen r) (backupOf r) (lastReplicaAt r) (standbyGen r) (standbyIssuedAt r) (metricsOn r)
    (latestOnly r) (formedAt r) (lastVerify r) (inheritedSubs r) (inheritedMetricsOn r) (inheritedStandingUntil r)
    (standingUntil r) (staging r) (successors r)
    (demandAt r) (upstreamHeld r) (upstreamHeldFrom r).
Definition with_gen (v : Z) (r : role) : role :=
  mk_role (topicId r) (createdAt r) (isRoot r) (epoch r) (subscribers r) (children r) (cache r) (cacheIds r)
    (cacheBytes r) (publishes r) (dismantling r) (retired r) (lastTs r) (seq r) (tombstones r) (openMerges r)
    (openPulls r) (merge r) v (backupOf r) (lastReplicaAt r) (standbyGen r) (standbyIssuedAt r) (metricsOn r)
    (latestOnly r) (formedAt r) (lastVerify r) (inheritedSubs r) (inheritedMetricsOn r) (inheritedStandingUntil r)
    (standingUntil r) (staging r) (successors r)
    (demandAt r) (upstreamHeld r) (upstreamHeldFrom r).
Definition with_backupOf (v : option string) (r : role) : role :=
  mk_role (topicId r) (createdAt r) (isRoot r) (epoch r) (subscribers r) (children r) (cache r) (cacheIds r)
    (cacheBytes r) (publishes r) (dismantling r) (retired r) (lastTs r) (seq r) (tombstones r) (openMerges r)
    (openPulls r) (merge r) (gen r) v (lastReplicaAt r) (standbyGen r) (standbyIssuedAt r) (metricsOn r)
    (latestOnly r) (formedAt r) (lastVerify r) (inheritedSubs r) (inheritedMetricsOn r) (inheritedStandingUntil r)
    (standingUntil r) (staging r) (successors r)
    (demandAt r) (upstreamHeld r) (upstreamHeldFrom r).
Definition with_lastReplicaAt (v : Z) (r : role) : role :=
  mk_role (topicId r) (createdAt r) (isRoot r) (epoch r) (subscribers r) (children r) (cache r) (cacheIds r)
    (cacheBytes r) (publishes r) (dismantling r) (retired r) (lastTs r) (seq r) (tombstones r) (openMerges r)
    (openPulls r) (merge r) (gen r) (backupOf r) v (standbyGen r) (standbyIssuedAt r) (metricsOn r) (latestOnly r)
    (formedAt r) (lastVerify r) (inheritedSubs r) (inheritedMetricsOn r) (inheritedStandingUntil r)
    (standingUntil r) (staging r) (successors r)
    (demandAt r) (upstreamHeld r) (upstreamHeldFrom r).
Definition with_standbyGen (v : option (string * Z)) (r : role) : role :=
  mk_role (topicId r) (createdAt r) (isRoot r) (epoch r) (subscribers r) (children r) (cache r) (cacheIds r)
    (cacheBytes r) (publishes r) (dismantling r) (retired r) (lastTs r) (seq r) (tombstones r) (openMerges r)
    (openPulls r) (merge r) (gen r) (backupOf r) (lastReplicaAt r) v (standbyIssuedAt r) (metricsOn r)
    (latestOnly r) (formedAt r) (lastVerify r) (inheritedSubs r) (inheritedMetricsOn r) (inheritedStandingUntil r)
    (standingUntil r) (staging r) (successors r)
    (demandAt r) (upstreamHeld r) (upstreamHeldFrom r).
Definition with_standbyIssuedAt (v : option Z) (r : role) : role :=
  mk_role (topicId r) (createdAt r) (isRoot r) (epoch r) (subscribers r) (children r) (cache r) (cacheIds r)
    (cacheBytes r) (publishes r) (dismantling r) (retired r) (lastTs r) (seq r) (tombstones r) (openMerges r)
    (openPulls r) (merge r) (gen r) (backupOf r) (lastReplicaAt r) (standbyGen r) v (metricsOn r) (latestOnly r)
    (formedAt r) (lastVerify r) (inheritedSubs r) (inheritedMetricsOn r) (inheritedStandingUntil r)
    (standingUntil r) (staging r) (successors r)
    (demandAt r) (upstreamHeld r) (upstreamHeldFrom r).
Definition with_metricsOn (v : Z) (r : role) : role :=
  mk_role (topicId r) (createdAt r) (isRoot r) (epoch r) (subscribers r) (children r) (cache r) (cacheIds r)
    (cacheBytes r) (publishes r) (dismantling r) (retired r) (lastTs r) (seq r) (tombstones r) (openMerges r)
    (openPulls r) (merge r) (gen r) (backupOf r) (lastReplicaAt r) (standbyGen r) (standbyIssuedAt r) v
    (latestOnly r) (formedAt r) (lastVerify r) (inheritedSubs r) (inheritedMetricsOn r) (inheritedStandingUntil r)
    (standingUntil r) (staging r) (successors r)
    (demandAt r) (upstreamHeld r) (upstreamHeldFrom r).
Definition with_latestOnly (v : option bool) (r : role) : role :=
  mk_role (topicId r) (createdAt r) (isRoot r) (epoch r) (subscribers r) (children r) (cache r) (cacheIds r)
    (cacheBytes r) (publishes r) (dismantling r) (retired r) (lastTs r) (seq r) (tombstones r) (openMerges r)
    (openPulls r) (merge r) (gen r) (backupOf r) (lastReplicaAt r) (standbyGen r) (standbyIssuedAt r) (metricsOn r)
    v (formedAt r) (lastVerify r) (inheritedSubs r) (inheritedMetricsOn r) (inheritedStandingUntil r)
    (standingUntil r) (staging r) (successors r)
    (demandAt r) (upstreamHeld r) (upstreamHeldFrom r).
Definition with_formedAt (v : Z) (r : role) : role :=
  mk_role (topicId r) (createdAt r) (isRoot r) (epoch r) (subscribers r) (children r) (cache r) (cacheIds r)
    (cacheBytes r) (publishes r) (dismantling r) (retired r) (lastTs r) (seq r) (tombstones r) (openMerges r)
    (openPulls r) (merge r) (gen r) (backupOf r) (lastReplicaAt r) (standbyGen r) (standbyIssuedAt r) (metricsOn r)
    (latestOnly r) v (lastVerify r) (inheritedSubs r) (inheritedMetricsOn r) (inheritedStandingUntil r)
    (standingUntil r) (staging r) (successors r)
    (demandAt r) (upstreamHeld r) (upstreamHeldFrom r).
Definition with_lastVerify (v : Z) (r : role) : role :=
  mk_role (topicId r) (createdAt r) (isRoot r) (epoch r) (subscribers r) (children r) (cache r) (cacheIds r)
    (cacheBytes r) (publishes r) (dismantling r) (retired r) (lastTs r) (seq r) (tombstones r) (openMerges r)
    (openPulls r) (merge r) (gen r) (backupOf r) (lastReplicaAt r) (standbyGen r) (standbyIssuedAt r) (metricsOn r)
    (latestOnly r) (formedAt r) v (inheritedSubs r) (inheritedMetricsOn r) (inheritedStandingUntil r)
    (standingUntil r) (staging r) (successors r)
    (demandAt r) (upstreamHeld r) (upstreamHeldFrom r).
Definition with_inheritedSubs (v : option (jmap string isub)) (r : role) : role :=
  mk_role (topicId r) (createdAt r) (isRoot r) (epoch r) (subscribers r) (children r) (cache r) (cacheIds r)
    (cacheBytes r) (publishes r) (dismantling r) (retired r) (lastTs r) (seq r) (tombstones r) (openMerges r)
    (openPulls r) (merge r) (gen r) (backupOf r) (lastReplicaAt r) (standbyGen r) (standbyIssuedAt r) (metricsOn r)
    (latestOnly r) (formedAt r) (lastVerify r) v (inheritedMetricsOn r) (inheritedStandingUntil r) (standingUntil r) (staging r) (successors r)
    (demandAt r) (upstreamHeld r) (upstreamHeldFrom r).
Definition with_inheritedMetricsOn (v : Z) (r : role) : role :=
  mk_role (topicId r) (createdAt r) (isRoot r) (epoch r) (subscribers r) (children r) (cache r) (cacheIds r)
    (cacheBytes r) (publishes r) (dismantling r) (retired r) (lastTs r) (seq r) (tombstones r) (openMerges r)
    (openPulls r) (merge r) (gen r) (backupOf r) (lastReplicaAt r) (standbyGen r) (standbyIssuedAt r) (metricsOn r)
    (latestOnly r) (formedAt r) (lastVerify r) (inheritedSubs r) v (inheritedStandingUntil r) (standingUntil r) (staging r) (successors r)
    (demandAt r) (upstreamHeld r) (upstreamHeldFrom r).
Definition with_inheritedStandingUntil (v : Z) (r : role) : role :=
  mk_role (topicId r) (createdAt r) (isRoot r) (epoch r) (subscribers r) (children r) (cache r) (cacheIds r)
    (cacheBytes r) (publishes r) (dismantling r) (retired r) (lastTs r) (seq r) (tombstones r) (openMerges r)
    (openPulls r) (merge r) (gen r) (backupOf r) (lastReplicaAt r) (standbyGen r) (standbyIssuedAt r) (metricsOn r)
    (latestOnly r) (formedAt r) (lastVerify r) (inheritedSubs r) (inheritedMetricsOn r) v (standingUntil r) (staging r) (successors r)
    (demandAt r) (upstreamHeld r) (upstreamHeldFrom r).
Definition with_standingUntil (v : Z) (r : role) : role :=
  mk_role (topicId r) (createdAt r) (isRoot r) (epoch r) (subscribers r) (children r) (cache r) (cacheIds r)
    (cacheBytes r) (publishes r) (dismantling r) (retired r) (lastTs r) (seq r) (tombstones r) (openMerges r)
    (openPulls r) (merge r) (gen r) (backupOf r) (lastReplicaAt r) (standbyGen r) (standbyIssuedAt r) (metricsOn r)
    (latestOnly r) (formedAt r) (lastVerify r) (inheritedSubs r) (inheritedMetricsOn r) (inheritedStandingUntil r) v (staging r) (successors r)
    (demandAt r) (upstreamHeld r) (upstreamHeldFrom r).
Definition with_staging (v : option staging_) (r : role) : role :=
  mk_role (topicId r) (createdAt r) (isRoot r) (epoch r) (subscribers r) (children r) (cache r) (cacheIds r)
    (cacheBytes r) (publishes r) (dismantling r) (retired r) (lastTs r) (seq r) (tombstones r) (openMerges r)
    (openPulls r) (merge r) (gen r) (backupOf r) (lastReplicaAt r) (standbyGen r) (standbyIssuedAt r) (metricsOn r)
    (latestOnly r) (formedAt r) (lastVerify r) (inheritedSubs r) (inheritedMetricsOn r) (inheritedStandingUntil r) (standingUntil r) v (successors r)
    (demandAt r) (upstreamHeld r) (upstreamHeldFrom r).
Definition with_successors (v : jmap string successor) (r : role) : role :=
  mk_role (topicId r) (createdAt r) (isRoot r) (epoch r) (subscribers r) (children r) (cache r) (cacheIds r)
    (cacheBytes r) (publishes r) (dismantling r) (retired r) (lastTs r) (seq r) (tombstones r) (openMerges r)
    (openPulls r) (merge r) (gen r) (backupOf r) (lastReplicaAt r) (standbyGen r) (standbyIssuedAt r) (metricsOn r)
    (latestOnly r) (formedAt r) (lastVerify r) (inheritedSubs r) (inheritedMetricsOn r) (inheritedStandingUntil r) (standingUntil r) (staging r) v
    (demandAt r) (upstreamHeld r) (upstreamHeldFrom r).
Definition with_demandAt (v : Z) (r : role) : role :=
  mk_role (topicId r) (createdAt r) (isRoot r) (epoch r) (subscribers r) (children r) (cache r) (cacheIds r)
    (cacheBytes r) (publishes r) (dismantling r) (retired r) (lastTs r) (seq r) (tombstones r) (openMerges r)
    (openPulls r) (merge r) (gen r) (backupOf r) (lastReplicaAt r) (standbyGen r) (standbyIssuedAt r)
    (metricsOn r) (latestOnly r) (formedAt r) (lastVerify r) (inheritedSubs r) (inheritedMetricsOn r)
    (inheritedStandingUntil r) (standingUntil r) (staging r) (successors r) v (upstreamHeld r)
    (upstreamHeldFrom r).
Definition with_upstreamHeld (v : gset string) (r : role) : role :=
  mk_role (topicId r) (createdAt r) (isRoot r) (epoch r) (subscribers r) (children r) (cache r) (cacheIds r)
    (cacheBytes r) (publishes r) (dismantling r) (retired r) (lastTs r) (seq r) (tombstones r) (openMerges r)
    (openPulls r) (merge r) (gen r) (backupOf r) (lastReplicaAt r) (standbyGen r) (standbyIssuedAt r)
    (metricsOn r) (latestOnly r) (formedAt r) (lastVerify r) (inheritedSubs r) (inheritedMetricsOn r)
    (inheritedStandingUntil r) (standingUntil r) (staging r) (successors r) (demandAt r) v (upstreamHeldFrom r).
Definition with_upstreamHeldFrom (v : option string) (r : role) : role :=
  mk_role (topicId r) (createdAt r) (isRoot r) (epoch r) (subscribers r) (children r) (cache r) (cacheIds r)
    (cacheBytes r) (publishes r) (dismantling r) (retired r) (lastTs r) (seq r) (tombstones r) (openMerges r)
    (openPulls r) (merge r) (gen r) (backupOf r) (lastReplicaAt r) (standbyGen r) (standbyIssuedAt r)
    (metricsOn r) (latestOnly r) (formedAt r) (lastVerify r) (inheritedSubs r) (inheritedMetricsOn r)
    (inheritedStandingUntil r) (standingUntil r) (staging r) (successors r) (demandAt r) (upstreamHeld r) v.

(** [makeRole(topicId, isRoot, createdAt)] *)
Definition makeRole (t : Z) (root : bool) (at_ : Z) : role :=
  mk_role t at_ root 0 [] ∅ [] ∅ 0 0 false false 0 0 [] [] [] None 0 None 0 None None 0 None 0 0 None 0 0 0 None [] at_ ∅ None.

(** [roleNature(role)]: derived from the ground facts. *)
Definition roleNature (r : role) : nature :=
  if isRoot r then NRoot else match backupOf r with Some _ => NBackup | None => NChild end.

(** * The manager *)

Record beacon := mk_beacon { b_root : string; b_at : Z; b_exp : Z; b_epoch : option Z; b_verified : bool }.
Record rtomb := mk_rtomb { rt_root : string; rt_epoch : Z; rt_exp : Z }.
Record hold := mk_hold { h_to : string; h_at : Z; h_lastLog : Z }.
Record mysub := mk_mysub { ms_since : option Z; ms_interval : Z }.

(** Construction options and the constants a deployment may override. *)
Record mcfg := mk_mcfg {
  nodeId : Z; mergeCapable : bool; cutover : bool; replicateSubs : bool; tombAuthority : bool;
  rootReplicas : bool; subTerminalVerify : bool; neverRoot : bool;
  joinedAt : Z; roleGraceMs : Z; refreshIntervalMs : Z; roleAdmitPerTick : Z;
  stepDownHoldMs : Z; cacheMax : Z; cacheBytesMax : Z; beaconMs : Z; renewFastMs : Z
}.

(** Admission counters: [_admitTickAt], [_admitTickCount], [_admitRefusals]. *)
Record admission := mk_admission { ad_tickAt : Z; ad_count : Z; ad_refusals : jmap string Z }.

(** The frames of the merge exchange. *)
Inductive mframe :=
| FOffer (corr loser : string) (loserEpoch hw lw count : Z) (tm : timing) (handoff : bool)
| FPull (corr parentId : string) (winnerEpoch : Z) (cursor : option string) (tm : timing) (staged ephemeral : bool)
    (fdHost : option string)
| FHeader (corr : string) (loserEpoch bodies dels bytes : Z) (hash : string)
| FData (corr : string) (loserEpoch : Z) (cursor lastCursor : option string) (more : bool)
    (msgs : list entry) (fdels : list delmark) (sliceBodies sliceDels : list string) (man : option (Z * Z * option string))
| FRefused (corr : string) (loserEpoch : Z)
| FAck (corr winner : string) (winnerEpoch : Z) (loser : string) (loserEpoch : Z) (disposition : string)
    (retained delsActive : Z) (hash : option string)
| FClosed (corr : string) (winnerEpoch : Z).

(** Calls that leave the modelled mixins. *)
Inductive eff :=
| Announce (t : Z)
| SendSubscribe (t : Z)
| ScheduleProbe (t : Z)
| ReplayTo (ref : nat) (subHex : string) (since : Z)
| Fanout (ref : nat) (d : delmark)
| ReplicateRole (t : Z)
| ReplicateConfirm (t : Z) (msgId : string)
| CancelDurability (ref : nat) (msgId : string)
| ConfirmPending (t : Z) (msgId : string)
| ObserveEvict (t : Z) (msgId : string)
| Reclaim
| AppDeliver (t : Z) (msgId : string) (ts : Z) (seq : option Z)
| AppDelete (t : Z) (msgId : string) (ts : Z) (seq : option Z)
| MergeSend (t : Z) (to : string) (f : mframe)
| MergeHash (ref : nat) (corr requester : string) (bodies dels : list string) (bytes : Z)
| ProbeNack (t : Z) (corr : string)
| FanoutBody (ref : nat) (msgId : string)
| RelayBody (ref : nat) (msgId exclude : string)
| ObserveBody (t : Z) (msgId : string)
| ForwardWinner (t : Z) (winner : string) (winnerEpoch : Z) (corr nonce : string)
| ForwardLoser (t : Z) (loser : string) (corr : string)
| BeaconForward (rootHex : string) (layer : Z)
| UndeliverableE (t : Z) (why : string)
| SendWire (ty : string) (target : Z) (via : list jsv) (holdFwd : option string)
| RootForward (ty : string) (t : Z) (root : string) (holdFwd : option string) (ack : option (string * string * string))
| AckUnsigned (dst : Z) (t : Z) (msgId : string) (epoch : Z) (op : string)
| AckSigned (t : Z) (msgId : string) (epoch : Z) (op ackTo : string)
| OpenDurability (ref : nat) (msgId : string)
| NoCohort (ref : nat) (msgId : string)
| RecordDurability (ref : nat) (msgId : string)
| ObserveKill (t : Z) (msgId signer : string)
| AnswerPull (dst : Z) (corrId : string) (found : option (string * Z)).

Record mgr := mk_mgr {
  mcf : mcfg; heap : list role; axonRoles : jmap Z nat;
  rootBeacons : jmap Z beacon; rootTombstones : jmap Z rtomb; stepDownHold : jmap Z hold;
  upstream : jmap Z (list string); genHighWater : jmap Z (Z * Z); backupTopics : gset Z;
  metricsWanted : jmap Z Z; rootHint : gset Z; unattachedSince : gset Z;
  mySubscriptions : jmap Z mysub; lastSeenTs : jmap Z Z; appDelivered : jmap string unit;
  beaconSeen : jmap string Z; adm : admission; outbox : list eff
}.
Definition put_heap (v : list role) (r : mgr) : mgr :=
  mk_mgr (mcf r) v (axonRoles r) (rootBeacons r) (rootTombstones r) (stepDownHold r) (upstream r) (genHighWater r)
    (backupTopics r) (metricsWanted r) (rootHint r) (unattachedSince r) (mySubscriptions r) (lastSeenTs r)
    (appDelivered r) (beaconSeen r) (adm r) (outbox r).
Definition put_axonRoles (v : jmap Z nat) (r : mgr) : mgr :=
  mk_mgr (mcf r) (heap r) v (rootBeacons r) (rootTombstones r) (stepDownHold r) (upstream r) (genHighWater r)
    (backupTopics r) (metricsWanted r) (rootHint r) (unattachedSince r) (mySubscriptions r) (lastSeenTs r)
    (appDelivered r) (beaconSeen r) (adm r) (outbox r).
Definition put_rootBeacons (v : jmap Z beacon) (r : mgr) : mgr :=
  mk_mgr (mcf r) (heap r) (axonRoles r) v (rootTombstones r) (stepDownHold r) (upstream r) (genHighWater r)
    (backupTopics r) (metricsWanted r) (rootHint r) (unattachedSince r) (mySubscriptions r) (lastSeenTs r)
    (appDelivered r) (beaconSeen r) (adm r) (outbox r).
Definition put_rootTombstones (v : jmap Z rtomb) (r : mgr) : mgr :=
  mk_mgr (mcf r) (heap r) (axonRoles r) (rootBeacons r) v (stepDownHold r) (upstream r) (genHighWater r) (backupTopics r)
    (metricsWanted r) (rootHint r) (unattachedSince r) (mySubscriptions r) (lastSeenTs r) (appDelivered r)
    (beaconSeen r) (adm r) (outbox r).
Definition put_stepDownHold (v : jmap Z hold) (r : mgr) : mgr :=
  mk_mgr (mcf r) (heap r) (axonRoles r) (rootBeacons r) (rootTombstones r) v (upstream r) (genHighWater r)
    (backupTopics r) (metricsWanted r) (rootHint r) (unattachedSince r) (mySubscriptions r) (lastSeenTs r)
    (appDelivered r) (beaconSeen r) (adm r) (outbox r).
Definition put_upstream (v : jmap Z (list string)) (r : mgr) : mgr :=
  mk_mgr (mcf r) (heap r) (axonRoles r) (rootBeacons r) (rootTombstones r) (stepDownHold r) v (genHighWater r)
    (backupTopics r) (metricsWanted r) (rootHint r) (unattachedSince r) (mySubscriptions r) (lastSeenTs r)
    (appDelivered r) (beaconSeen r) (adm r) (outbox r).
Definition put_genHighWater (v : jmap Z (Z * Z)) (r : mgr) : mgr :=
  mk_mgr (mcf r) (heap r) (axonRoles r) (rootBeacons r) (rootTombstones r) (stepDownHold r) (upstream r) v
    (backupTopics r) (metricsWanted r) (rootHint r) (unattachedSince r) (mySubscriptions r) (lastSeenTs r)
    (appDelivered r) (beaconSeen r) (adm r) (outbox r).
Definition put_backupTopics (v : gset Z) (r : mgr) : mgr :=
  mk_mgr (mcf r) (heap r) (axonRoles r) (rootBeacons r) (rootTombstones r) (stepDownHold r) (upstream r) (genHighWater r)
    v (metricsWanted r) (rootHint r) (unattachedSince r) (mySubscriptions r) (lastSeenTs r) (appDelivered r)
    (beaconSeen r) (adm r) (outbox r).
Definition put_metricsWanted (v : jmap Z Z) (r : mgr) : mgr :=
  mk_mgr (mcf r) (heap r) (axonRoles r) (rootBeacons r) (rootTombstones r) (stepDownHold r) (upstream r) (genHighWater r)
    (backupTopics r) v (rootHint r) (unattachedSince r) (mySubscriptions r) (lastSeenTs r) (appDelivered r)
    (beaconSeen r) (adm r) (outbox r).
Definition put_rootHint (v : gset Z) (r : mgr) : mgr :=
  mk_mgr (mcf r) (heap r) (axonRoles r) (rootBeacons r) (rootTombstones r) (stepDownHold r) (upstream r) (genHighWater r)
    (backupTopics r) (metricsWanted r) v (unattachedSince r) (mySubscriptions r) (lastSeenTs r) (appDelivered r)
    (beaconSeen r) (adm r) (outbox r).
Definition put_unattachedSince (v : gset Z) (r : mgr) : mgr :=
  mk_mgr (mcf r) (heap r) (axonRoles r) (rootBeacons r) (rootTombstones r) (stepDownHold r) (upstream r) (genHighWater r)
    (backupTopics r) (metricsWanted r) (rootHint r) v (mySubscriptions r) (lastSeenTs r) (appDelivered r)
    (beaconSeen r) (adm r) (outbox r).
Definition put_mySubscriptions (v : jmap Z mysub) (r : mgr) : mgr :=
  mk_mgr (mcf r) (heap r) (axonRoles r) (rootBeacons r) (rootTombstones r) (stepDownHold r) (upstream r) (genHighWater r)
    (backupTopics r) (metricsWanted r) (rootHint r) (unattachedSince r) v (lastSeenTs r) (appDelivered r)
    (beaconSeen r) (adm r) (outbox r).
Definition put_lastSeenTs (v : jmap Z Z) (r : mgr) : mgr :=
  mk_mgr (mcf r) (heap r) (axonRoles r) (rootBeacons r) (rootTombstones r) (stepDownHold r) (upstream r) (genHighWater r)
    (backupTopics r) (metricsWanted r) (rootHint r) (unattachedSince r) (mySubscriptions r) v (appDelivered r)
    (beaconSeen r) (adm r) (outbox r).
Definition put_appDelivered (v : jmap string unit) (r : mgr) : mgr :=
  mk_mgr (mcf r) (heap r) (axonRoles r) (rootBeacons r) (rootTombstones r) (stepDownHold r) (upstream r) (genHighWater r)
    (backupTopics r) (metricsWanted r) (rootHint r) (unattachedSince r) (mySubscriptions r) (lastSeenTs r) v
    (beaconSeen r) (adm r) (outbox r).
Definition put_beaconSeen (v : jmap string Z) (r : mgr) : mgr :=
  mk_mgr (mcf r) (heap r) (axonRoles r) (rootBeacons r) (rootTombstones r) (stepDownHold r) (upstream r) (genHighWater r)
    (backupTopics r) (metricsWanted r) (rootHint r) (unattachedSince r) (mySubscriptions r) (lastSeenTs r)
    (appDelivered r) v (adm r) (outbox r).
Definition put_adm (v : admission) (r : mgr) : mgr :=
  mk_mgr (mcf r) (heap r) (axonRoles r) (rootBeacons r) (rootTombstones r) (stepDownHold r) (upstream r) (genHighWater r)
    (backupTopics r) (metricsWanted r) (rootHint r) (unattachedSince r) (mySubscriptions r) (lastSeenTs r)
    (appDelivered r) (beaconSeen r) v (outbox r).
Definition put_outbox (v : list eff) (r : mgr) : mgr :=
  mk_mgr (mcf r) (heap r) (axonRoles r) (rootBeacons r) (rootTombstones r) (stepDownHold r) (upstream r) (genHighWater r)
    (backupTopics r) (metricsWanted r) (rootHint r) (unattachedSince r) (mySubscriptions r) (lastSeenTs r)
    (appDelivered r) (beaconSeen r) (adm r) v.

(** * Access *)

Definition role_at (G : mgr) (ref : nat) : option role := heap G !! ref.
(** [axonRoles.get(t)]: the object and its reference. *)
Definition live (G : mgr) (t : Z) : option (nat * role) :=
  ref ← jget (axonRoles G) t; r ← role_at G ref; Some (ref, r).
Definition upd (G : mgr) (ref : nat) (f : role → role) : mgr := put_heap (alter f ref (heap G)) G.
Definition emit (G : mgr) (e : eff) : mgr := put_outbox (outbox G ++ [e]) G.
#[global] Arguments role_at : simpl never.
#[global] Arguments live : simpl never.

(** [axonRoles.set(t, role)] of a role just made. *)
Definition alloc (G : mgr) (t : Z) (r : role) : mgr :=
  put_axonRoles (jset (axonRoles G) t (length (heap G))) (put_heap (heap G ++ [r]) G).

(** [role.merge ??= makeMergeState()] and a change of it. *)
Definition mstate_of (r : role) : mstate := default makeMergeState (merge r).
Definition upd_merge (f : mstate → mstate) (r : role) : role := with_merge (Some (f (mstate_of r))) r.
(** A change of the merge state only where there is one. *)
Definition map_merge (f : mstate → mstate) (r : role) : role := with_merge (f <$> merge r) r.

Definition pins_of (r : role) : gset string := default ∅ (pins <$> merge r).
Definition gate_of (r : role) : option gate := merge r ≫= gate_.
Definition accepted_of (r : role) : option accepted := merge r ≫= acceptedWinner.

(** [idBig] of a string, inside the [try] every use of it has. *)
Definition idBigS (s : string) : option Z := catch (asId production (JStr s)).
Definition selfHex (G : mgr) : string := idHex (nodeId (mcf G)).

(** * Lemmas *)

Lemma role_at_upd G ref f ref' :
  role_at (upd G ref f) ref' = if decide (ref = ref') then f <$> role_at G ref' else role_at G ref'.
Proof.
  unfold role_at, upd. simpl. case_decide; [subst; apply list_lookup_alter_eq|by apply list_lookup_alter_ne].
Qed.

Lemma role_at_upd_eq G ref f : role_at (upd G ref f) ref = f <$> role_at G ref.
Proof. rewrite role_at_upd. by rewrite decide_True. Qed.

Lemma live_Some G t ref r : live G t = Some (ref, r) ↔ jget (axonRoles G) t = Some ref ∧ role_at G ref = Some r.
Proof.
  unfold live. destruct (jget (axonRoles G) t) as [ref'|]; simpl; [|naive_solver].
  destruct (role_at G ref') as [r'|] eqn:E; simpl; split; naive_solver.
Qed.

Lemma live_upd G ref f t :
  live (upd G ref f) t = (λ '(r', r), (r', if decide (ref = r') then f r else r)) <$> live G t.
Proof.
  unfold live. change (axonRoles (upd G ref f)) with (axonRoles G).
  destruct (jget (axonRoles G) t) as [ref'|]; simpl; [|done]. rewrite role_at_upd.
  destruct (role_at G ref') as [r|]; simpl; case_decide; done.
Qed.

Lemma live_alloc_eq G t r : live (alloc G t r) t = Some (length (heap G), r).
Proof.
  apply live_Some. unfold alloc, role_at. simpl. rewrite jget_jset_eq. split; [done|].
  by rewrite lookup_app_r, Nat.sub_diag by lia.
Qed.

Lemma role_at_alloc G t r ref r' : role_at G ref = Some r' → role_at (alloc G t r) ref = Some r'.
Proof. intros H. unfold role_at, alloc in *. simpl. by apply lookup_app_l_Some. Qed.

(** The maps of a manager just constructed. *)
Definition new_mgr (cf : mcfg) : mgr :=
  mk_mgr cf [] [] [] [] [] [] [] ∅ [] ∅ ∅ [] [] [] [] (mk_admission 0 0 []) [].
(** Construction options with every default. *)
Definition default_cfg (self : Z) : mcfg :=
  mk_mcfg self true false false false true false false 0 90000 5000 4 300000 1024 (16 * 1024 * 1024) 20000 5000.
