(* ===== verification/TopicStore.v ===== *)
(** TopicStore.v - src/src/pubsub/topicStore.js: the bounded per-topic cache, the
    tombstone set, the migrated-deletion wire shape and exactly-once delivery to
    the application; [_applyKill] of wireHandlers.js; and the cut and the gate of
    mergeMachine.js that every commit re-checks.

    A role is named by its reference in the manager's heap ([Role.v]), so a commit
    that captured a role before an [await] and resumes after the role was replaced
    is expressible.  The envelope parser is a parameter ([signerOf]); what other
    tasks do while a commit is suspended, and the clock it then reads, are parameters too ([others], [clock]). *)
From stdpp Require Import base gmap sets list strings pretty.
From Stdlib Require Import ZArith Lia.
From S2P Require Import Prelude HexId Role.
#[local] Open Scope Z_scope.
#[local] Open Scope js_scope.

(** * Constants and small helpers *)

Definition TTL_MS : Z := 24 * 60 * 60 * 1000.
Definition APP_DEDUP_MAX : Z := 8192.
Definition METRIC_NAMESPACE : string := "axona:metric:".
Definition isMetricTopicName (name : option string) : bool :=
  match name with Some n => String.prefix METRIC_NAMESPACE n | None => false end.

(** [cache.splice(i, 1)] with the bookkeeping that goes with every removal. *)
Definition drop_at (i : nat) (r : role) : role :=
  match cache r !! i with
  | Some e =>
      with_cacheBytes (cacheBytes r - e_bytes e)
        (with_cacheIds (cacheIds r ∖ {[e_msgId e]}) (with_cache (delete i (cache r)) r))
  | None => r
  end.
Definition id_at (i : nat) (r : role) : list string := e_msgId <$> option_list (cache r !! i).

(** * The cut ([_cutCapture], [_cutHolds], [_mergeCut], [_mergeGateClear]) *)

Definition cut := (nat * Z)%type.
Definition cutCapture (G : mgr) (ref : nat) : option cut := (λ r, (ref, to_int32 (gen r))) <$> role_at G ref.

Definition gated (r : role) : bool := match gate_of r with Some g => negb (g_staged g) | None => false end.

Definition cutHolds (G : mgr) (ref : nat) (c : option cut) : bool :=
  match role_at G ref with
  | None => false
  | Some r =>
      if gated r then false
      else if dismantling r then false
      else if retired r then false
      else if match jget (axonRoles G) (topicId r) with Some ref' => negb (Nat.eqb ref' ref) | None => false end
      then false
      else match c with None => true | Some (ref0, gen0) => Nat.eqb ref ref0 && (to_int32 (gen r) =? gen0) end
  end.

Definition mergeCut (G : mgr) (now t : Z) (winner : string) (winnerEpoch : Z) (corr : string) : mgr * option gate :=
  match live G t with
  | None => (G, None)
  | Some (ref, r) =>
      if negb (isRoot r) then (G, None)
      else if match gate_of r with Some _ => true | None => false end
      then (G, None)
      else
        let g := mk_gate (lc winner) (to_int32 winnerEpoch) corr now false in
        (upd G ref (λ r, upd_merge (λ m, with_mcorr (Some corr) (with_gate_ (Some g) m))
                           (with_gen (to_int32 (gen r) + 1) r)),
         Some g)
  end.

Definition mergeGateClear (G : mgr) (ref : nat) : mgr * bool :=
  match role_at G ref ≫= gate_of with
  | None => (G, false)
  | Some _ => (upd G ref (map_merge (λ m, with_mcorr None (with_gate_ None m))), true)
  end.

(** [_custodyAlive]: what a reaper must not discard. *)
Definition tomb_active (now : Z) (t : tomb) : bool := now <? t_exp t.
Definition custodyAlive (now : Z) (r : role) : bool :=
  match merge r with
  | Some m =>
      match completing_ m with Some _ => true | None => false end ||
      match gate_ m with Some _ => true | None => false end ||
      match acceptedWinner m with Some a => now <? aw_exp a | None => false end ||
      bool_decide (pins m ≠ ∅)
  | None => false
  end || negb (jsize (openMerges r) =? 0) || negb (jsize (openPulls r) =? 0) ||
  existsb (λ p, tomb_active now p.2) (tombstones r).

(** * The cache *)

Definition newest_of (c : list entry) : option entry :=
  foldl (λ o e, match o with Some n => if publishTs n <? publishTs e then Some e else Some n | None => Some e end) None c.

(** The index the cap evicts: the oldest entry no pin exempts. *)
Fixpoint first_unpinned (p : gset string) (c : list entry) : nat :=
  match c with
  | [] => 0%nat
  | e :: c => if bool_decide (e_msgId e ∈ p) then S (first_unpinned p c) else 0%nat
  end.

Definition over (cf : mcfg) (r : role) : bool :=
  (cacheMax cf <? Z.of_nat (length (cache r))) || (cacheBytesMax cf <? cacheBytes r).

(** [while (over && guard-- > 0)]; [n] is the code's own guard. *)
Fixpoint evict_loop (cf : mcfg) (n : nat) (r : role) : role * list string :=
  match n with
  | O => (r, [])
  | S n =>
      if over cf r then
        let i := first_unpinned (pins_of r) (cache r) in
        match cache r !! i with
        | None => (r, [])
        | Some e => let '(r', ev) := evict_loop cf n (drop_at i r) in (r', e_msgId e :: ev)
        end
      else (r, [])
  end.

(** [for (let i = cache.length - 2; i >= 0; i--)]: [n] entries are below the newest. *)
Fixpoint trim_loop (n : nat) (r : role) : role * list string :=
  match n with
  | O => (r, [])
  | S i =>
      match cache r !! i with
      | Some e =>
          if bool_decide (e_msgId e ∈ pins_of r) then trim_loop i r
          else let '(r', ev) := trim_loop i (drop_at i r) in (r', e_msgId e :: ev)
      | None => (r, [])
      end
  end.

Definition observe (G : mgr) (t : Z) (ev : list string) : mgr :=
  if tombAuthority (mcf G) then foldl (λ G i, emit G (ObserveEvict t i)) G ev else G.

Definition push (e : entry) (r : role) : role :=
  let e := mk_entry (e_msgId e) (publishTs e) (e_json e) (e_seq e) (strlen (e_json e) + 80) in
  with_publishes (publishes r + 1)
    (with_cacheBytes (cacheBytes r + e_bytes e)
      (with_cacheIds ({[e_msgId e]} ∪ cacheIds r) (with_cache (cache r ++ [e]) r))).

Definition is_latestOnly (r : role) : bool := bool_decide (latestOnly r = Some true).

(** What [_cachePush] makes of the role, and the ids it drops, in order. *)
Definition push_role (cf : mcfg) (e : entry) (r : role) : role * list string :=
  let r := push e r in
  let '(r, ev) := evict_loop cf (S (length (cache r))) r in
  if is_latestOnly r && (1 <? Z.of_nat (length (cache r))) then
    let '(r, ev') := trim_loop (length (cache r) - 1) r in (r, ev ++ ev')
  else (r, ev).

Definition superseded (e : entry) (r : role) : bool :=
  is_latestOnly r && match newest_of (cache r) with Some n => publishTs e <=? publishTs n | None => false end.

Definition cachePush (G : mgr) (ref : nat) (e : entry) (c : option cut) : mgr * bool :=
  if negb (cutHolds G ref c) then (G, false)
  else match role_at G ref with
  | None => (G, false)
  | Some r =>
      if superseded e r then (G, true)
      else let '(r', ev) := push_role (mcf G) e r in (observe (upd G ref (λ _, r')) (topicId r) ev, true)
  end.

Definition noteMetricRole (name : option string) (r : role) : role :=
  match latestOnly r with Some _ => r | None => with_latestOnly (Some (isMetricTopicName name)) r end.

(** [_expireCache]; the loop visits each entry once, so the cache's length is fuel enough. *)
Fixpoint expire_loop (now : Z) (n i : nat) (r : role) : role * list string :=
  match n with
  | O => (r, [])
  | S n =>
      match cache r !! i with
      | Some e =>
          if TTL_MS <? now - publishTs e then
            if bool_decide (e_msgId e ∈ pins_of r) then expire_loop now n (S i) r
            else let '(r', ev) := expire_loop now n i (drop_at i r) in (r', e_msgId e :: ev)
          else (r, [])
      | None => (r, [])
      end
  end.

Definition expireCache (G : mgr) (ref : nat) (now : Z) : mgr :=
  match role_at G ref with
  | None => G
  | Some r =>
      let '(r', ev) := expire_loop now (length (cache r)) 0 r in
      let G := observe (upd G ref (λ _, r')) (topicId r) ev in
      if tombAuthority (mcf G) then emit G Reclaim else G
  end.

Definition expireTombstones (now : Z) (r : role) : role :=
  with_tombstones (foldl (λ m p, if negb (tomb_active now p.2) && negb (bool_decide (p.1 ∈ pins_of r))
                                 then jdel m p.1 else m) (tombstones r) (tombstones r)) r.

Definition highWater (r : role) : Z := Z.max (lastTs r) (default 0 (publishTs <$> last (cache r))).
Definition lowWater (r : role) : Z := default 0 (publishTs <$> head (cache r)).

(** * Tombstones *)

(** [_activeDels]. *)
Definition activeDels (cf : mcfg) (now : Z) (r : role) : list delmark :=
  (λ p, mk_delmark p.1 (t_killTs p.2) (t_signer p.2) (t_seq p.2) (if tombAuthority cf then t_kill p.2 else None))
    <$> base.filter (λ p, tomb_active now p.2) (tombstones r).

Section envelopes.
(** [JSON.parse(json)?.signerPubkey ?? null] as a text: none where the parse fails or the value is
    falsy, and an error where [lc] of it throws. *)
Context (signerOf : string → js_result (option string)).

(** [_tombstoned]: the role after it and whether the message is dropped. *)
Definition tombstoned (r : role) (msgId json : string) : role * js_result bool :=
  match jget (tombstones r) msgId with
  | None => (r, Ok false)
  | Some t =>
      match t_signer t with
      | None => (r, Ok true)
      | Some s =>
          if decide (s = "") then (r, Ok true)
          else match signerOf json with
          | Throw x => (r, Throw x)
          | Ok (Some a) => if decide (lc a = lc s) then (r, Ok true)
                           else (with_tombstones (jdel (tombstones r) msgId) r, Ok false)
          | Ok None => (with_tombstones (jdel (tombstones r) msgId) r, Ok false)
          end
      end
  end.
End envelopes.

(** * Delivery to the application *)

Definition app_key (t : Z) (msgId : string) : string := toString16 t +:+ ":" +:+ msgId.
Definition kill_key (t : Z) (msgId : string) : string := toString16 t +:+ ":kill:" +:+ msgId.

(** [_appDelivered.set(key, true)] and the LRU's eviction of its first key. *)
Definition lru_add (m : jmap string unit) (key : string) : jmap string unit :=
  let m := jset m key tt in
  if APP_DEDUP_MAX <? jsize m
  then match m with (k, _) :: _ => jdel m k | [] => m end
  else m.

Definition raise_seen (G : mgr) (t ts : Z) : mgr :=
  if default 0 (jget (lastSeenTs G) t) <? ts then put_lastSeenTs (jset (lastSeenTs G) t ts) G else G.

Definition deliverToApp (G : mgr) (t : Z) (msgId : string) (ts : Z) (sq : option Z) : mgr :=
  if negb (jhas (mySubscriptions G) t) then G
  else if jhas (appDelivered G) (app_key t msgId) then G
  else
    let G := put_appDelivered (lru_add (appDelivered G) (app_key t msgId)) G in
    let G := raise_seen G t ts in
    emit (emit G (ConfirmPending t msgId)) (AppDeliver t msgId ts sq).

Definition deliverKillToApp (G : mgr) (t : Z) (target : string) (killTs : Z) (sq : option Z) : mgr :=
  if negb (jhas (mySubscriptions G) t) then G
  else
    let G := raise_seen G t killTs in
    if jhas (appDelivered G) (kill_key t target) then G
    else
      let G := put_appDelivered (lru_add (appDelivered G) (kill_key t target)) G in
      if negb (jhas (appDelivered G) (app_key t target)) then G
      else emit G (AppDelete t target killTs sq).

Definition sinceFor (G : mgr) (t : Z) : Z :=
  let relay := match live G t with Some (_, r) => default 0 (publishTs <$> last (cache r)) | None => 0 end in
  let seen := default 0 (jget (lastSeenTs G) t) in
  let sub := default 0 (jget (mySubscriptions G) t ≫= ms_since) in
  Z.max (Z.max relay seen) sub.

(** * Applying a deletion *)

(** The deletion an [_applyKill] is given. *)
Record killmsg := mk_killmsg {
  km_target : string; km_killTs : option Z; km_signer : option string; km_seq : option Z; km_kill : option killproof
}.
Definition gentag := (string * Z)%type.

(** [`${root}:${epoch | 0}`] *)
Definition owner_key (g : gentag) : string := g.1 +:+ ":" +:+ pretty (to_int32 g.2).
Definition own (k : option string) (t : tomb) : tomb :=
  match k with
  | Some k => mk_tomb (t_exp t) (t_killTs t) (t_signer t) (t_seq t) (t_kill t) (t_gen t)
                (if bool_decide (k ∈ t_owners t) then t_owners t else t_owners t ++ [k])
  | None => t
  end.

(** The proof kept with the tombstone: only one bound to this target and topic. *)
Definition bound_proof (cf : mcfg) (t : Z) (m : killmsg) : option killproof :=
  if tombAuthority cf then
    p ← km_kill m;
    if decide (kp_msgId p = km_target m) then
      match kp_topicId p with
      | Some v => if bool_decide (catch (asId production v) = Some t) then Some p else None
      | None => None
      end
    else None
  else None.

Definition set_tomb (target : string) (t : tomb) (r : role) : role :=
  with_tombstones (jset (tombstones r) target t) r.

(** The target leaves the cache. *)
Definition drop_target (target : string) (r : role) : role :=
  let r := match list_find (λ e, e_msgId e = target) (cache r) with
           | Some (i, e) => with_cache (delete i (cache r)) (with_cacheBytes (cacheBytes r - e_bytes e) r)
           | None => r
           end in
  with_cacheIds (cacheIds r ∖ {[target]}) r.

Definition raise_seq (sq : option Z) (r : role) : role :=
  match sq with Some s => if seq r <? s then with_seq s r else r | None => r end.

Inductive kill_res := Refused | Applied.

Definition applyKill (G : mgr) (now : Z) (ref : option nat) (t : Z) (m : killmsg) (c : option cut)
    (genTag : option gentag) : mgr * kill_res :=
  let target := km_target m in
  let ownerKey := owner_key <$> genTag in
  let killTs := default now (km_killTs m) in
  let sq := km_seq m in
  let proof := bound_proof (mcf G) t m in
  let proofSigner := lc ∘ kp_signer <$> proof in
  match ref ≫= λ ref, (λ r, (ref, r)) <$> role_at G ref with
  | None =>
      (deliverKillToApp (emit G (ConfirmPending t target)) t target killTs sq, Applied)
  | Some (ref, _) =>
      if negb (cutHolds G ref c) then (G, Refused)
      else
        let G := emit G (CancelDurability ref target) in
        let G := upd G ref (raise_seq sq) in
        match role_at G ref ≫= λ r, (λ t, (r, t)) <$> jget (tombstones r) target with
        | Some (r, ex) =>
            let ex := own ownerKey ex in
            match proof, t_kill ex with
            | Some p, None =>
                let ex := mk_tomb (t_exp ex) (t_killTs ex) proofSigner (t_seq ex) (Some p) (t_gen ex) (t_owners ex) in
                let G := upd G ref (set_tomb target ex) in
                let G := emit G (Fanout ref (mk_delmark target (t_killTs ex) proofSigner (t_seq ex) (Some p))) in
                (if isRoot r && rootReplicas (mcf G) then emit G (ReplicateRole t) else G, Applied)
            | _, _ =>
                let G := upd G ref (set_tomb target ex) in
                (deliverKillToApp (emit G (ConfirmPending t target)) t target killTs sq, Applied)
            end
        | None =>
            let signer := match proof with Some _ => proofSigner | None => km_signer m end in
            let tb := mk_tomb (now + TTL_MS) killTs signer sq proof
                        ((λ g, (g.1, to_int32 g.2)) <$> genTag) (option_list ownerKey) in
            let G := upd G ref (λ r, drop_target target (set_tomb target tb r)) in
            let G := emit G (Fanout ref (mk_delmark target killTs signer sq proof)) in
            if match role_at G ref with Some r => isRoot r | None => false end && rootReplicas (mcf G)
            then (deliverKillToApp (emit G (ReplicateConfirm t target)) t target killTs sq, Applied)
            else (deliverKillToApp (emit G (ConfirmPending t target)) t target killTs sq, Applied)
        end
  end.

(** [_applyDels] over a batch.  When the proofs are being verified each entry with
    one is awaited: [others] is what ran meanwhile, [verified] the verdict. *)
Section migration.
Context (others : nat → mgr → mgr) (clock : nat → Z) (verified : Z → delmark → bool).

Definition strip (d : delmark) : delmark :=
  mk_delmark (dm_msgId d) (dm_killTs d) (dm_signer d) (dm_seq d) None.
Definition kill_of (d : delmark) : killmsg :=
  mk_killmsg (dm_msgId d) (Some (dm_killTs d)) (dm_signer d) (dm_seq d) (dm_kill d).

Fixpoint applyDels (k : nat) (G : mgr) (ref : nat) (t : Z) (dels : list delmark) (c : option cut)
    (genTag : option gentag) : mgr * bool :=
  match dels with
  | [] => (G, true)
  | d :: dels =>
      if decide (dm_msgId d = "") then applyDels (S k) G ref t dels c genTag
      else
        let '(G, d) :=
          if tombAuthority (mcf G) && match dm_kill d with Some _ => true | None => false end
          then (others k G, if verified t d then d else strip d) else (G, d) in
        match applyKill G (clock k) (Some ref) t (kill_of d) c genTag with
        | (G, Refused) => (G, false)
        | (G, Applied) => applyDels (S k) G ref t dels c genTag
        end
  end.
End migration.

(** * The store invariant *)

Definition bsum (c : list entry) : Z := foldr (λ e a, e_bytes e + a) 0 c.

Record store_ok (r : role) : Prop := {
  so_ids : ∀ id, id ∈ cacheIds r ↔ id ∈ e_msgId <$> cache r;
  so_nodup : NoDup (e_msgId <$> cache r);
  so_bytes : cacheBytes r = bsum (cache r);
  so_nonneg : ∀ e, e ∈ cache r → 0 ≤ e_bytes e;
  so_dead : ∀ id, jhas (tombstones r) id = true → id ∉ cacheIds r;
  so_tombs : jwf (tombstones r)
}.

Lemma bsum_app c1 c2 : bsum (c1 ++ c2) = bsum c1 + bsum c2.
Proof. induction c1 as [|e c1 IH]; simpl; lia. Qed.

Lemma bsum_nonneg c : (∀ e, e ∈ c → 0 ≤ e_bytes e) → 0 ≤ bsum c.
Proof.
  induction c as [|e c IH]; intros H; simpl; [lia|].
  pose proof (H e ltac:(left)). specialize (IH (λ x Hx, H x (list_elem_of_further _ _ _ Hx))). lia.
Qed.

(** The role differs in its cache at most. *)
Definition same_but_cache (r r' : role) : Prop :=
  r' = with_cacheBytes (cacheBytes r') (with_cacheIds (cacheIds r') (with_cache (cache r') r)).

(** A removal of unpinned entries. *)
Record shrinks (r r' : role) : Prop := {
  sh_same : same_but_cache r r';
  sh_sub : cache r' `sublist_of` cache r;
  sh_pin : ∀ e, e ∈ cache r → e_msgId e ∈ pins_of r → e ∈ cache r';
  sh_ok : store_ok r → store_ok r'
}.

Lemma same_merge r r' : same_but_cache r r' → merge r' = merge r ∧ tombstones r' = tombstones r ∧
  latestOnly r' = latestOnly r ∧ gen r' = gen r ∧ topicId r' = topicId r ∧ pins_of r' = pins_of r.
Proof. intros ->. done. Qed.

#[export] Instance shrinks_preorder : PreOrder shrinks.
Proof.
  split.
  - intros r. split; [by destruct r|done|done|done].
  - intros r1 r2 r3 [A1 A2 A3 A4] [B1 B2 B3 B4].
    destruct (same_merge _ _ A1) as (_ & _ & _ & _ & _ & Ep). split; auto.
    + unfold same_but_cache in *. rewrite B1. rewrite A1. done.
    + by etrans.
    + intros e He Hp. apply B3; [by apply A3|by rewrite Ep].
Qed.

Lemma drop_at_cache i r e : cache r !! i = Some e → cache (drop_at i r) = delete i (cache r).
Proof. intros H. unfold drop_at. by rewrite H. Qed.

Lemma drop_at_ok i r e : cache r !! i = Some e → store_ok r → store_ok (drop_at i r).
Proof.
  intros Hi [H1 H2 H3 H4 H5 H6]. pose proof (take_drop_middle (cache r) i e Hi) as Hm.
  unfold drop_at. rewrite Hi, delete_take_drop.
  set (c1 := take i (cache r)) in *. set (c2 := drop (S i) (cache r)) in *.
  rewrite <-Hm in H1, H2, H3, H4. rewrite fmap_app, fmap_cons in H1, H2.
  apply NoDup_app in H2 as (N1 & N2 & N3). apply NoDup_cons in N3 as [N3 N4].
  assert (e_msgId e ∉ e_msgId <$> c1) as Nc by (intros ?; by eapply N2; [|left]).
  split; simpl.
  - intros id. rewrite fmap_app, elem_of_difference, elem_of_singleton, H1, !elem_of_app, elem_of_cons. naive_solver.
  - rewrite fmap_app. apply NoDup_app. split_and!; [done| |done]. intros id Hid Hid'. eapply N2; [done|by right].
  - rewrite bsum_app in *. simpl in H3. lia.
  - intros x Hx. apply H4. rewrite elem_of_app, elem_of_cons. apply elem_of_app in Hx. naive_solver.
  - intros id Hid. rewrite elem_of_difference. specialize (H5 id Hid). naive_solver.
  - done.
Qed.

Lemma drop_at_shrinks i r e :
  cache r !! i = Some e → e_msgId e ∉ pins_of r → shrinks r (drop_at i r).
Proof.
  intros Hi Hp. split; [|rewrite (drop_at_cache _ _ _ Hi); apply sublist_delete| |by apply (drop_at_ok _ _ e)].
  - unfold drop_at. by rewrite Hi.
  - intros x Hx Hxp. rewrite (drop_at_cache _ _ _ Hi), delete_take_drop.
    rewrite <-(take_drop_middle (cache r) i e Hi) in Hx.
    apply elem_of_app in Hx as [?|[->|?]%elem_of_cons]; [set_solver|done|set_solver].
Qed.

Lemma first_unpinned_spec p c :
  match c !! first_unpinned p c with
  | Some e => e_msgId e ∉ p
  | None => ∀ e, e ∈ c → e_msgId e ∈ p
  end.
Proof.
  induction c as [|e c IH]; simpl; [by intros ? ?%elem_of_nil|].
  case_bool_decide; simpl; [|done]. destruct (c !! first_unpinned p c); [done|].
  intros x [->|?]%elem_of_cons; auto.
Qed.

Lemma evict_loop_spec cf n r :
  (length (cache r) < n)%nat →
  shrinks r (evict_loop cf n r).1 ∧
  (over cf (evict_loop cf n r).1 = true → ∀ e, e ∈ cache (evict_loop cf n r).1 → e_msgId e ∈ pins_of r).
Proof.
  revert r. induction n as [|n IH]; intros r Hn; [lia|]. cbn [evict_loop].
  destruct (over cf r) eqn:Eo; [|split; [done|simpl; congruence]].
  pose proof (first_unpinned_spec (pins_of r) (cache r)) as Hf.
  destruct (cache r !! first_unpinned _ _) as [e|] eqn:Ei; [|done].
  pose proof (drop_at_shrinks _ _ _ Ei Hf) as Hs. set (r1 := drop_at _ r) in *.
  assert (length (cache r1) < n)%nat as Hl.
  { subst r1. apply lookup_lt_Some in Ei as Hlt. rewrite (drop_at_cache _ _ _ Ei), length_delete by done. lia. }
  destruct (IH r1 Hl) as [H1 H2]. destruct (evict_loop cf n r1) as [r' ev]. simpl in *.
  destruct (same_merge _ _ (sh_same _ _ Hs)) as (_ & _ & _ & _ & _ & Ep). rewrite Ep in H2.
  split; [by etrans|done].
Qed.

Lemma trim_loop_spec n r :
  (n ≤ length (cache r))%nat →
  shrinks r (trim_loop n r).1 ∧
  cache (trim_loop n r).1 = base.filter (λ e, e_msgId e ∈ pins_of r) (take n (cache r)) ++ drop n (cache r).
Proof.
  revert r. induction n as [|n IH]; intros r Hn; [by split|]. cbn [trim_loop].
  destruct (cache r !! n) as [e|] eqn:Ei; [|apply lookup_ge_None in Ei; lia].
  rewrite (take_S_r _ _ _ Ei), filter_app, filter_cons, filter_nil.
  case_bool_decide as Hp.
  - destruct (IH r ltac:(lia)) as [H1 H2]. split; [done|]. rewrite H2, (drop_S _ _ _ Ei).
    rewrite decide_True by done. by rewrite <-app_assoc.
  - pose proof (drop_at_shrinks _ _ _ Ei Hp) as Hs. pose proof (drop_at_cache _ _ _ Ei) as Hc.
    destruct (IH (drop_at n r)) as [H1 H2]; [rewrite Hc, length_delete by done; lia|].
    destruct (same_merge _ _ (sh_same _ _ Hs)) as (_ & _ & _ & _ & _ & Ep).
    destruct (trim_loop n (drop_at n r)) as [r' ev]. simpl in *. split; [by etrans|].
    rewrite H2, Ep, Hc, delete_take_drop, decide_False by done.
    assert (length (take n (cache r)) = n) as Hl by (rewrite length_take; lia).
    rewrite app_nil_r, take_app_length', drop_app_length' by done. done.
Qed.

(** Without pins the cap drops a prefix, and no shorter one would do. *)
Definition over_list (cf : mcfg) (c : list entry) : bool :=
  (cacheMax cf <? Z.of_nat (length c)) || (cacheBytesMax cf <? bsum c).

Lemma over_ok cf r : store_ok r → over cf r = over_list cf (cache r).
Proof. intros [_ _ H _ _ _]. unfold over, over_list. by rewrite H. Qed.

Lemma evict_loop_prefix cf n r :
  store_ok r → pins_of r = ∅ →
  ∃ k, cache (evict_loop cf n r).1 = drop k (cache r) ∧
       ∀ j, (j < k)%nat → over_list cf (drop j (cache r)) = true.
Proof.
  revert r. induction n as [|n IH]; intros r Hok Hp; [exists 0%nat; split; [done|lia]|].
  cbn [evict_loop].
  destruct (over cf r) eqn:Eo; [|exists 0%nat; split; [done|lia]].
  assert (first_unpinned (pins_of r) (cache r) = 0%nat) as ->.
  { rewrite Hp. destruct (cache r); [done|]. cbn [first_unpinned]. by rewrite bool_decide_eq_false_2 by set_solver. }
  destruct (cache r !! 0%nat) as [e|] eqn:Ei; [|exists 0%nat; split; [done|lia]].
  assert (shrinks r (drop_at 0 r)) as Hs by (apply (drop_at_shrinks _ _ e); [done|rewrite Hp; set_solver]).
  pose proof (drop_at_cache _ _ _ Ei) as Hc. destruct (same_merge _ _ (sh_same _ _ Hs)) as (_ & _ & _ & _ & _ & Ep).
  destruct (IH (drop_at 0 r)) as (k & Hk & Hj); [by apply Hs|by rewrite Ep|].
  destruct (evict_loop cf n (drop_at 0 r)) as [r' ev]. simpl in *. rewrite Hc in Hk, Hj.
  rewrite delete_take_drop in Hk, Hj. simpl in Hk, Hj. exists (S k). split; [by rewrite Hk, drop_drop|].
  intros [|j] Hlt; [by rewrite <-(over_ok _ _ Hok)|]. specialize (Hj j ltac:(lia)).
  rewrite drop_drop in Hj. replace (1 + j)%nat with (S j) in Hj by lia. done.
Qed.

Definition sized (e : entry) : entry :=
  mk_entry (e_msgId e) (publishTs e) (e_json e) (e_seq e) (strlen (e_json e) + 80).

Lemma push_ok e r :
  store_ok r → e_msgId e ∉ cacheIds r → jhas (tombstones r) (e_msgId e) = false → store_ok (push e r).
Proof.
  intros [H1 H2 H3 H4 H5 H6] Hn Ht. split; simpl.
  - intros id. rewrite fmap_app, elem_of_union, elem_of_singleton, H1, elem_of_app. simpl.
    rewrite list_elem_of_singleton. naive_solver.
  - rewrite fmap_app. apply NoDup_app. split_and!; [done| |apply NoDup_singleton].
    intros id Hid Heq%list_elem_of_singleton. subst id. by apply Hn, H1.
  - rewrite bsum_app. simpl. lia.
  - intros x [?|Hx%list_elem_of_singleton]%elem_of_app; [by apply H4|]. subst x. simpl. pose proof (strlen_nonneg (e_json e)). lia.
  - intros id Hid. rewrite elem_of_union, elem_of_singleton. intros [->|?]; [congruence|by eapply H5].
  - done.
Qed.

Lemma bsum_sublist c1 c2 : c1 `sublist_of` c2 → (∀ e, e ∈ c2 → 0 ≤ e_bytes e) → bsum c1 ≤ bsum c2.
Proof.
  induction 1 as [|e c1 c2 _ IH|e c1 c2 _ IH]; intros H; simpl; [lia| |].
  - specialize (IH (λ x Hx, H x (list_elem_of_further _ _ _ Hx))). lia.
  - specialize (IH (λ x Hx, H x (list_elem_of_further _ _ _ Hx))). pose proof (H e ltac:(left)). lia.
Qed.

Lemma over_mono cf r r' : store_ok r → shrinks r r' → over cf r' = true → over cf r = true.
Proof.
  intros Hok Hs. rewrite !over_ok by first [done|by apply Hs]. unfold over_list.
  pose proof (bsum_sublist _ _ (sh_sub _ _ Hs) (so_nonneg _ Hok)).
  pose proof (sublist_length _ _ (sh_sub _ _ Hs)). rewrite !orb_true_iff, !Z.ltb_lt. lia.
Qed.

Lemma push_role_split cf e r :
  let r1 := (evict_loop cf (S (length (cache (push e r)))) (push e r)).1 in
  (push_role cf e r).1 =
    if is_latestOnly r && (1 <? Z.of_nat (length (cache r1))) then (trim_loop (length (cache r1) - 1) r1).1 else r1.
Proof.
  pose proof (evict_loop_spec cf (S (length (cache (push e r)))) (push e r) ltac:(lia)) as [Hs _].
  unfold push_role. destruct (evict_loop cf _ _) as [r1 ev]. cbn [fst] in *. cbv zeta.
  destruct (same_merge _ _ (sh_same _ _ Hs)) as (_ & _ & El & _). unfold is_latestOnly in *. rewrite El. simpl.
  destruct (_ && _); [|done]. by destruct (trim_loop _ r1).
Qed.

Lemma push_role_shrinks cf e r :
  shrinks (push e r) (push_role cf e r).1 ∧
  (store_ok (push e r) → over cf (push_role cf e r).1 = true →
    ∀ x, x ∈ cache (push_role cf e r).1 → e_msgId x ∈ pins_of r).
Proof.
  rewrite push_role_split. cbv zeta.
  destruct (evict_loop_spec cf (S (length (cache (push e r)))) (push e r) ltac:(lia)) as [Hs Ho].
  set (r1 := (evict_loop _ _ _).1) in *. clearbody r1. change (pins_of (push e r)) with (pins_of r) in Ho.
  destruct (_ && _); [|by split; [|intros _]].
  destruct (trim_loop_spec (length (cache r1) - 1) r1 ltac:(lia)) as [Ht _].
  split; [by etrans|]. intros Hok Hov x Hx. apply Ho.
  - eapply over_mono; [by apply Hs|exact Ht|done].
  - eapply elem_of_sublist; [exact Hx|apply Ht].
Qed.

(** Caching a message keeps the store consistent and bounded: the id set, the
    byte count and the tombstones agree with the cache; the caps are exceeded only
    by pinned entries; no pinned entry and no order is lost; without pins what
    goes is the shortest oldest prefix that must; and a metric topic keeps only
    its newest body besides the pinned ones. *)
Theorem push_bounded cf e r :
  store_ok r → e_msgId e ∉ cacheIds r → jhas (tombstones r) (e_msgId e) = false →
  let c := cache r ++ [sized e] in
  let r' := (push_role cf e r).1 in
  store_ok r' ∧
  (over cf r' = true → ∀ x, x ∈ cache r' → e_msgId x ∈ pins_of r) ∧
  (∀ x, x ∈ c → e_msgId x ∈ pins_of r → x ∈ cache r') ∧
  cache r' `sublist_of` c ∧
  (pins_of r = ∅ → latestOnly r ≠ Some true →
    ∃ k, cache r' = drop k c ∧ ∀ j, (j < k)%nat → over_list cf (drop j c) = true) ∧
  (latestOnly r = Some true → ∀ c1 x c2, cache r' = c1 ++ x :: c2 → c2 ≠ [] → e_msgId x ∈ pins_of r).
Proof.
  intros Hok Hn Ht c r'. pose proof (push_ok e r Hok Hn Ht) as Hp.
  destruct (push_role_shrinks cf e r) as [Hs Ho]. split_and!; [by apply Hs|by apply Ho|apply Hs|apply Hs| |].
  - intros Hpin Hl. subst r'. rewrite push_role_split. cbv zeta. unfold is_latestOnly.
    rewrite bool_decide_eq_false_2 by done. cbn [andb].
    apply (evict_loop_prefix cf _ (push e r)); [done|done].
  - intros Hl. subst r'. rewrite push_role_split. cbv zeta. unfold is_latestOnly.
    rewrite bool_decide_eq_true_2 by done. cbn [andb].
    destruct (evict_loop_spec cf (S (length (cache (push e r)))) (push e r) ltac:(lia)) as [He _].
    destruct (same_merge _ _ (sh_same _ _ He)) as (_ & _ & _ & _ & _ & Ep).
    set (r1 := (evict_loop _ _ _).1) in *. clearbody r1. change (pins_of (push e r)) with (pins_of r) in Ep.
    destruct (1 <? Z.of_nat (length (cache r1))) eqn:E1; zb.
    + destruct (trim_loop_spec (length (cache r1) - 1) r1 ltac:(lia)) as [_ ->]. rewrite Ep. intros c1 x c2 Hc Hne.
      assert (x ∈ base.filter (λ e, e_msgId e ∈ pins_of r) (take (length (cache r1) - 1) (cache r1))) as Hx;
        [|by apply list_elem_of_filter in Hx as [? _]].
      assert (length (drop (length (cache r1) - 1) (cache r1)) = 1%nat) as Hd by (rewrite length_drop; lia).
      destruct (drop _ (cache r1)) as [|y [|]]; try done.
      destruct c2 as [|z c2 _] using rev_ind; [done|].
      rewrite app_comm_cons, app_assoc in Hc. apply app_inj_tail in Hc as [-> _]. set_solver.
    + intros c1 x c2 Hc Hne. rewrite Hc, length_app in E1. simpl in E1. destruct c2; [done|]. simpl in E1. lia.
Qed.

(** * Deletions *)

Lemma deliverKill_frame G t i k sq :
  heap (deliverKillToApp G t i k sq) = heap G ∧ axonRoles (deliverKillToApp G t i k sq) = axonRoles G ∧
  mcf (deliverKillToApp G t i k sq) = mcf G.
Proof. unfold deliverKillToApp, raise_seen. by repeat (case_match; simpl). Qed.

Lemma cutHolds_ext G G' ref c r r' :
  role_at G ref = Some r → role_at G' ref = Some r' → axonRoles G' = axonRoles G →
  merge r' = merge r → gen r' = gen r → dismantling r' = dismantling r → retired r' = retired r →
  topicId r' = topicId r → cutHolds G' ref c = cutHolds G ref c.
Proof.
  intros H1 H2 Ha Em Eg Ed Er Et. unfold cutHolds, gated, gate_of. by rewrite H1, H2, Ha, Em, Eg, Ed, Er, Et.
Qed.

(** What a deletion makes of the role. *)
Record killed (now t : Z) (m : killmsg) (cf : mcfg) (r r' : role) : Prop := {
  kd_frame : merge r' = merge r ∧ gen r' = gen r ∧ dismantling r' = dismantling r ∧ retired r' = retired r ∧
             topicId r' = topicId r ∧ isRoot r' = isRoot r;
  kd_ok : store_ok r';
  kd_tomb : ∃ tb, jget (tombstones r') (km_target m) = Some tb ∧
    match jget (tombstones r) (km_target m) with
    | Some tb0 => t_killTs tb = t_killTs tb0 ∧ t_exp tb = t_exp tb0 ∧ t_seq tb = t_seq tb0 ∧
                  (bound_proof cf t m = None → t_signer tb = t_signer tb0)
    | None => t_killTs tb = default now (km_killTs m) ∧ t_exp tb = now + TTL_MS ∧ t_seq tb = km_seq m ∧
              (bound_proof cf t m = None → t_signer tb = km_signer m)
    end;
  kd_other : ∀ id, id ≠ km_target m → jget (tombstones r') id = jget (tombstones r) id;
  kd_cache : ∀ x, x ∈ cache r' ↔ x ∈ cache r ∧
    (e_msgId x = km_target m → jget (tombstones r) (km_target m) ≠ None)
}.

Lemma set_tomb_ok target tb r :
  store_ok r → target ∉ cacheIds r → store_ok (set_tomb target tb r).
Proof.
  intros [H1 H2 H3 H4 H5 H6] Hn. split; simpl; try done.
  - intros id. rewrite jhas_true, jget_jset. intros [v Hv]. case_decide; [by subst|]. apply H5, jhas_true. eauto.
  - by apply jwf_jset.
Qed.

Lemma raise_seq_ok sq r : store_ok r → store_ok (raise_seq sq r).
Proof. intros H. unfold raise_seq. repeat case_match; [|done..]. by destruct H. Qed.

Lemma drop_target_cache target tb r :
  NoDup (e_msgId <$> cache r) →
  ∀ x, x ∈ cache (drop_target target (set_tomb target tb r)) ↔ x ∈ cache r ∧ e_msgId x ≠ target.
Proof.
  intros Hnd x. unfold drop_target. simpl. destruct (list_find _ (cache r)) as [[i e]|] eqn:Ef; simpl.
  - apply list_find_Some in Ef as (Hi & He & _). rewrite delete_take_drop.
    pose proof (take_drop_middle (cache r) i e Hi) as Hm. rewrite <-Hm in Hnd. rewrite <-Hm at 3.
    rewrite fmap_app, fmap_cons in Hnd. apply NoDup_app in Hnd as (_ & N2 & N3). apply NoDup_cons in N3 as [N3 _].
    rewrite !elem_of_app, elem_of_cons. split.
    + intros [Hx|Hx]; (split; [by auto|]); intros Heq; rewrite <-He in Heq.
      * apply (N2 (e_msgId x)); [by apply list_elem_of_fmap_2|rewrite Heq; left].
      * apply N3. rewrite <-Heq. by apply list_elem_of_fmap_2.
    + intros [[?|[->|?]] ?]; [by left|congruence|by right].
  - apply list_find_None in Ef. rewrite Forall_forall in Ef. naive_solver.
Qed.

Lemma drop_target_ok target tb r : store_ok r → store_ok (drop_target target (set_tomb target tb r)).
Proof.
  intros Hok. assert (∀ r1, store_ok r1 → target ∉ cacheIds r1 → cacheIds r1 = cacheIds r ∖ {[target]} →
    store_ok (set_tomb target tb r1)) as Hst by (intros; by apply set_tomb_ok).
  unfold drop_target. simpl. destruct (list_find _ (cache r)) as [[i e]|] eqn:Ef; simpl.
  - apply list_find_Some in Ef as (Hi & He & _). pose proof (drop_at_ok _ _ _ Hi Hok) as Hd.
    unfold drop_at in Hd. rewrite Hi, He in Hd. refine (Hst _ Hd _ _); simpl; [set_solver|done].
  - apply list_find_None in Ef. rewrite Forall_forall in Ef.
    assert (target ∉ cacheIds r) as Hn.
    { intros (x & Hx & ?)%(so_ids _ Hok)%list_elem_of_fmap. by eapply Ef. }
    assert (cacheIds r ∖ {[target]} = cacheIds r) as E by set_solver. rewrite E.
    pose proof (Hst r Hok Hn (eq_sym E)) as H. by destruct r.
Qed.

(** The manager after a committed deletion, up to emissions and deliveries. *)
Lemma applyKill_cases G now ref r t m c g :
  role_at G ref = Some r → cutHolds G ref c = true →
  ∃ G1 f, applyKill G now (Some ref) t m c g = (G1, Applied) ∧ heap G1 = alter f ref (heap G) ∧
    axonRoles G1 = axonRoles G ∧ mcf G1 = mcf G ∧
    f r = let r := raise_seq (km_seq m) r in
          let proof := bound_proof (mcf G) t m in
          match jget (tombstones r) (km_target m) with
          | Some ex =>
              set_tomb (km_target m)
                match proof, t_kill (own (owner_key <$> g) ex) with
                | Some p, None => mk_tomb (t_exp ex) (t_killTs ex) (lc ∘ kp_signer <$> proof) (t_seq ex) (Some p)
                                    (t_gen ex) (t_owners (own (owner_key <$> g) ex))
                | _, _ => own (owner_key <$> g) ex
                end r
          | None =>
              drop_target (km_target m) (set_tomb (km_target m)
                (mk_tomb (now + TTL_MS) (default now (km_killTs m))
                  match proof with Some _ => lc ∘ kp_signer <$> proof | None => km_signer m end (km_seq m) proof
                  ((λ g, (g.1, to_int32 g.2)) <$> g) (option_list (owner_key <$> g))) r)
          end.
Proof.
  intros Hr Hc. unfold applyKill. cbn [mbind option_bind]. rewrite Hr. cbn [fmap option_fmap option_map].
  rewrite Hc. cbn [negb]. cbv zeta.
  set (G0 := upd (emit G _) ref _). assert (role_at G0 ref = Some (raise_seq (km_seq m) r)) as Hr0.
  { subst G0. rewrite role_at_upd_eq. change (role_at (emit G _) ref) with (role_at G ref). by rewrite Hr. }
  assert (heap G0 = alter (raise_seq (km_seq m)) ref (heap G) ∧ axonRoles G0 = axonRoles G ∧ mcf G0 = mcf G)
    as (Eh & Ea & Em) by done.
  clearbody G0. rewrite Hr0. cbn [mbind option_bind].
  set (pf := bound_proof _ _ _). set (r0 := raise_seq _ r) in *.
  assert (∀ h, alter h ref (heap G0) = alter (λ x, h (raise_seq (km_seq m) x)) ref (heap G)) as Ealt.
  { intros h. rewrite Eh. apply list_eq. intros i. destruct (decide (i = ref)) as [->|Hne].
    - rewrite !list_lookup_alter_eq. by destruct (heap G !! ref).
    - by rewrite !list_lookup_alter_ne by done. }
  destruct (jget (tombstones r0) (km_target m)) as [ex|] eqn:Et; cbn [fmap option_fmap option_map].
  - assert (t_exp (own (owner_key <$> g) ex) = t_exp ex ∧ t_killTs (own (owner_key <$> g) ex) = t_killTs ex ∧
      t_seq (own (owner_key <$> g) ex) = t_seq ex ∧ t_gen (own (owner_key <$> g) ex) = t_gen ex) as (E1 & E2 & E3 & E4)
      by (by destruct g).
    destruct pf as [p|] eqn:Ep; [destruct (t_kill (own (owner_key <$> g) ex)) eqn:Ek|].
    + eexists _, _. split; [reflexivity|]. rewrite !(proj1 (deliverKill_frame _ _ _ _ _)),
        !(proj1 (proj2 (deliverKill_frame _ _ _ _ _))), !(proj2 (proj2 (deliverKill_frame _ _ _ _ _))). simpl.
      split_and!; [apply Ealt|done|done|done].
    + eexists _, _. split; [reflexivity|]. rewrite E1, E2, E3, E4.
      destruct (isRoot r0 && rootReplicas _); simpl; (split_and!; [apply Ealt|done|done|done]).
    + eexists _, _. split; [reflexivity|]. rewrite !(proj1 (deliverKill_frame _ _ _ _ _)),
        !(proj1 (proj2 (deliverKill_frame _ _ _ _ _))), !(proj2 (proj2 (deliverKill_frame _ _ _ _ _))). simpl.
      split_and!; [apply Ealt|done|done|done].
  - destruct (_ && rootReplicas _); (eexists _, _; split; [reflexivity|];
      rewrite !(proj1 (deliverKill_frame _ _ _ _ _)), !(proj1 (proj2 (deliverKill_frame _ _ _ _ _))),
        !(proj2 (proj2 (deliverKill_frame _ _ _ _ _))); simpl; split_and!; [apply Ealt|done|done|done]).
Qed.

Lemma raise_seq_same sq r :
  merge (raise_seq sq r) = merge r ∧ gen (raise_seq sq r) = gen r ∧ dismantling (raise_seq sq r) = dismantling r ∧
  retired (raise_seq sq r) = retired r ∧ topicId (raise_seq sq r) = topicId r ∧
  isRoot (raise_seq sq r) = isRoot r ∧ tombstones (raise_seq sq r) = tombstones r ∧
  cache (raise_seq sq r) = cache r ∧ cacheIds (raise_seq sq r) = cacheIds r.
Proof. unfold raise_seq. by repeat case_match. Qed.

Lemma drop_target_same target r :
  merge (drop_target target r) = merge r ∧ gen (drop_target target r) = gen r ∧
  dismantling (drop_target target r) = dismantling r ∧ retired (drop_target target r) = retired r ∧
  topicId (drop_target target r) = topicId r ∧ isRoot (drop_target target r) = isRoot r ∧
  tombstones (drop_target target r) = tombstones r.
Proof. unfold drop_target. by destruct (list_find _ _) as [[]|]. Qed.

(** A committed deletion, as a relation on the role. *)
Lemma applyKill_killed G now ref r t m c g :
  role_at G ref = Some r → store_ok r → cutHolds G ref c = true →
  ∃ G1 r', applyKill G now (Some ref) t m c g = (G1, Applied) ∧ role_at G1 ref = Some r' ∧
    killed now t m (mcf G) r r' ∧ axonRoles G1 = axonRoles G ∧ mcf G1 = mcf G ∧
    (∀ ref', ref' ≠ ref → role_at G1 ref' = role_at G ref').
Proof.
  intros Hr Hok Hc. destruct (applyKill_cases G now ref r t m c g Hr Hc) as (G1 & f & E & Eh & Ea & Em & Ef).
  exists G1, (f r). split; [done|]. unfold role_at in *. rewrite Eh.
  split; [by rewrite list_lookup_alter_eq, Hr|].
  split; [|split_and!; [done|done|intros; by apply list_lookup_alter_ne]]. rewrite Ef. cbv zeta.
  destruct (raise_seq_same (km_seq m) r) as (R1 & R2 & R3 & R4 & R5 & R6 & R7 & R8 & R9).
  pose proof (raise_seq_ok (km_seq m) r Hok) as Hok1. set (r1 := raise_seq (km_seq m) r) in *. clearbody r1.
  rewrite R7. destruct (jget (tombstones r) (km_target m)) as [ex|] eqn:Et.
  - set (tb := match bound_proof _ _ _ with Some _ => _ | None => _ end).
    assert (t_killTs tb = t_killTs ex ∧ t_exp tb = t_exp ex ∧ t_seq tb = t_seq ex ∧
      (bound_proof (mcf G) t m = None → t_signer tb = t_signer ex)) as Htb.
    { subst tb. destruct (bound_proof _ _ _); [destruct (t_kill _)|]; by destruct g. }
    clearbody tb. split; simpl.
    + by rewrite R1, R2, R3, R4, R5, R6.
    + apply set_tomb_ok; [done|]. rewrite R9. apply (so_dead _ Hok). unfold jhas. by rewrite Et.
    + exists tb. rewrite jget_jset_eq. by rewrite Et.
    + intros id Hne. rewrite jget_jset_ne by done. by rewrite R7.
    + intros x. rewrite R8, Et. naive_solver.
  - set (tb := mk_tomb _ _ _ _ _ _ _).
    destruct (drop_target_same (km_target m) (set_tomb (km_target m) tb r1)) as (D1 & D2 & D3 & D4 & D5 & D6 & D7).
    split.
    + rewrite D1, D2, D3, D4, D5, D6. simpl. by rewrite R1, R2, R3, R4, R5, R6.
    + by apply drop_target_ok.
    + exists tb. rewrite D7, Et. simpl. rewrite jget_jset_eq. split; [done|]. split_and!; try done. by intros ->.
    + intros id Hne. rewrite D7. simpl. rewrite jget_jset_ne by done. by rewrite R7.
    + intros x. rewrite drop_target_cache by apply Hok1. rewrite R8, Et. naive_solver.
Qed.

(** One tombstone at the receiver carries what the mark says. *)
Definition carries (d : delmark) (tb : tomb) : Prop :=
  t_killTs tb = dm_killTs d ∧ t_seq tb = dm_seq d ∧ t_signer tb = dm_signer d.
Definition same_mark (tb tb' : tomb) : Prop :=
  t_killTs tb' = t_killTs tb ∧ t_exp tb' = t_exp tb ∧ t_seq tb' = t_seq tb ∧ t_signer tb' = t_signer tb.

Lemma bound_proof_off cf t m : tombAuthority cf = false → bound_proof cf t m = None.
Proof. unfold bound_proof. by intros ->. Qed.

Lemma killed_cutHolds G G1 ref c now t m cf r r' :
  role_at G ref = Some r → role_at G1 ref = Some r' → killed now t m cf r r' → axonRoles G1 = axonRoles G →
  cutHolds G1 ref c = cutHolds G ref c.
Proof.
  intros H1 H2 Hk Ha. destruct (kd_frame _ _ _ _ _ _ Hk) as (? & ? & ? & ? & ? & _). by eapply cutHolds_ext.
Qed.

Lemma applyDels_batch others clock verified c g t ref dels : ∀ k G r,
  role_at G ref = Some r → store_ok r → cutHolds G ref c = true → tombAuthority (mcf G) = false →
  NoDup (dm_msgId <$> dels) →
  ∃ G' r', applyDels others clock verified k G ref t dels c g = (G', true) ∧ role_at G' ref = Some r' ∧ store_ok r' ∧
    (∀ d, d ∈ dels → dm_msgId d ≠ "" → ∃ tb', jget (tombstones r') (dm_msgId d) = Some tb' ∧
       (jget (tombstones r) (dm_msgId d) = None → carries d tb')) ∧
    (∀ id tb, jget (tombstones r) id = Some tb → ∃ tb', jget (tombstones r') id = Some tb' ∧ same_mark tb tb') ∧
    (∀ x, x ∈ cache r → e_msgId x ∉ dm_msgId <$> dels → x ∈ cache r').
Proof.
  induction dels as [|d dels IH]; intros k G r Hr Hok Hc Hta Hnd.
  - exists G, r. split_and!; try done; [by intros ? ?%elem_of_nil|]. intros id tb Htb. by exists tb.
  - rewrite fmap_cons in Hnd. apply NoDup_cons in Hnd as [Hni Hnd]. cbn [applyDels].
    destruct (decide (dm_msgId d = "")) as [He|He].
    + destruct (IH (S k) G r Hr Hok Hc Hta Hnd) as (G' & r' & -> & ? & ? & H1 & H2 & H3).
      exists G', r'. split_and!; try done.
      * intros d' [->|?]%elem_of_cons ?; [done|by apply H1].
      * intros x Hx Hn. apply H3; [done|]. set_solver.
    + rewrite Hta. cbn [andb].
      destruct (applyKill_killed G (clock k) ref r t (kill_of d) c g Hr Hok Hc) as (G1 & r1 & -> & Hr1 & Hk & Ha & Em & _).
      assert (bound_proof (mcf G) t (kill_of d) = None) as Hb by (by apply bound_proof_off).
      destruct Hk as [F1 F2 (tb1 & Ht1 & F3) F4 F5] eqn:EHk. clear EHk. simpl in *.
      assert (cutHolds G1 ref c = true) as Hc1.
      { rewrite <-Hc. eapply (killed_cutHolds _ _ _ _ (clock k) t (kill_of d) (mcf G)); try done. }
      destruct (IH (S k) G1 r1 Hr1 F2 Hc1 ltac:(by rewrite Em) Hnd) as (G' & r' & E & Hr' & Hok' & H1 & H2 & H3).
      exists G', r'. split_and!; try done.
      * intros d' Hd' Hne. destruct (decide (dm_msgId d' = dm_msgId d)) as [Heq|Hd].
        -- apply elem_of_cons in Hd' as [->|Hd']; [|exfalso; apply Hni; rewrite <-Heq; by apply list_elem_of_fmap_2].
           destruct (H2 _ _ Ht1) as (tb' & Htb' & Hs1 & Hs2 & Hs3 & Hs4). exists tb'. split; [done|]. intros Hn.
           rewrite Hn in F3. destruct F3 as (K1 & K2 & K3 & K4). specialize (K4 Hb). split_and!; congruence.
        -- apply elem_of_cons in Hd' as [->|Hd']; [done|]. destruct (H1 d' Hd' Hne) as (tb' & ? & Hcar).
           exists tb'. split; [done|]. intros Hn. apply Hcar. by rewrite F4.
      * intros id tb Htb. destruct (decide (id = dm_msgId d)) as [->|Hd].
        -- destruct (H2 _ _ Ht1) as (tb' & Htb' & Hs1 & Hs2 & Hs3 & Hs4). exists tb'. split; [done|].
           rewrite Htb in F3. destruct F3 as (K1 & K2 & K3 & K4). specialize (K4 Hb). repeat split; congruence.
        -- apply H2. by rewrite F4.
      * intros x Hx Hn. apply H3; [|set_solver]. apply F5. split; [done|]. intros Heq. exfalso. apply Hn.
        rewrite Heq. left.
Qed.

Lemma activeDels_keys cf now r : jwf (tombstones r) → NoDup (dm_msgId <$> activeDels cf now r).
Proof.
  unfold jwf, activeDels. intros H. rewrite <-list_fmap_compose.
  eapply sublist_NoDup; [exact H|]. apply (fmap_sublist fst), sublist_filter.
Qed.

(** A cache never migrates without its deletions: the active tombstones of one
    holder, applied as a batch at another whose cut holds, commit entirely;
    afterwards every one of them is a tombstone there, with the kill stamp, the
    sequence number and the signer of the source unless the receiver already had
    one; no killed body is cached there, no tombstone was lost and no body whose
    deletion did not travel. *)
Theorem migrated_deletions others clock verified k G ref r t c g cf now0 rA :
  role_at G ref = Some r → store_ok r → cutHolds G ref c = true → tombAuthority (mcf G) = false →
  jwf (tombstones rA) →
  let dels := activeDels cf now0 rA in
  ∃ G' r', applyDels others clock verified k G ref t dels c g = (G', true) ∧ role_at G' ref = Some r' ∧ store_ok r' ∧
    (∀ id tb, jget (tombstones rA) id = Some tb → now0 < t_exp tb → id ≠ "" →
       id ∉ cacheIds r' ∧ ∃ tb', jget (tombstones r') id = Some tb' ∧
         (jget (tombstones r) id = None →
            t_killTs tb' = t_killTs tb ∧ t_seq tb' = t_seq tb ∧ t_signer tb' = t_signer tb)) ∧
    (∀ id tb, jget (tombstones r) id = Some tb → ∃ tb', jget (tombstones r') id = Some tb' ∧ same_mark tb tb') ∧
    (∀ x, x ∈ cache r → jget (tombstones rA) (e_msgId x) = None → x ∈ cache r').
Proof.
  intros Hr Hok Hc Hta Hwf dels.
  destruct (applyDels_batch others clock verified c g t ref dels k G r Hr Hok Hc Hta (activeDels_keys cf now0 rA Hwf))
    as (G' & r' & E & Hr' & Hok' & H1 & H2 & H3).
  exists G', r'. split_and!; try done.
  - intros id tb Htb Hexp Hne. set (d := mk_delmark id (t_killTs tb) (t_signer tb) (t_seq tb)
      (if tombAuthority cf then t_kill tb else None)).
    assert (d ∈ dels) as Hd.
    { apply list_elem_of_fmap. exists (id, tb). split; [done|]. apply list_elem_of_filter.
      split; [apply Is_true_eq_left, Z.ltb_lt; exact Hexp|by apply jget_Some_elem]. }
    destruct (H1 d Hd Hne) as (tb' & Htb' & Hcar). split; [|by exists tb'].
    apply (so_dead _ Hok'). apply jhas_true. by exists tb'.
  - intros x Hx Hn. apply H3; [done|]. intros (d & Hxd & Hd)%list_elem_of_fmap.
    apply list_elem_of_fmap in Hd as ([id tb] & -> & Hd). apply list_elem_of_filter in Hd as [_ Hd]. simpl in *.
    rewrite Hxd in Hn. apply (elem_jget _ _ _ Hwf) in Hd. congruence.
Qed.

(** * The cut *)

(** The operations of the store and of the merge's gate, as steps. *)
Inductive top :=
| TPush (ref : nat) (e : entry) (c : option cut)
| TKill (now : Z) (ref : option nat) (t : Z) (m : killmsg) (c : option cut) (g : option gentag)
| TExpire (ref : nat) (now : Z)
| TExpireTombs (ref : nat) (now : Z)
| TMetric (ref : nat) (name : option string)
| TCut (now t : Z) (winner : string) (winnerEpoch : Z) (corr : string)
| TClear (ref : nat)
| TDeliver (t : Z) (msgId : string) (ts : Z) (sq : option Z)
| TDeliverKill (t : Z) (msgId : string) (ts : Z) (sq : option Z).

Definition tstep (G : mgr) (o : top) : mgr :=
  match o with
  | TPush ref e c => (cachePush G ref e c).1
  | TKill now ref t m c g => (applyKill G now ref t m c g).1
  | TExpire ref now => expireCache G ref now
  | TExpireTombs ref now => upd G ref (expireTombstones now)
  | TMetric ref name => upd G ref (noteMetricRole name)
  | TCut now t w e corr => (mergeCut G now t w e corr).1
  | TClear ref => (mergeGateClear G ref).1
  | TDeliver t i ts sq => deliverToApp G t i ts sq
  | TDeliverKill t i ts sq => deliverKillToApp G t i ts sq
  end.


(** A step moves a role's generation only by cutting it. *)
Definition gen_step (G G' : mgr) : Prop :=
  ∀ ref r, role_at G ref = Some r → ∃ r', role_at G' ref = Some r' ∧ (gen r' = gen r ∨ gen r' = to_int32 (gen r) + 1).

Lemma gen_step_heap G G' : heap G' = heap G → gen_step G G'.
Proof. intros E ref r H. exists r. unfold role_at in *. rewrite E. auto. Qed.

Lemma gen_step_alter G G' ref0 f :
  heap G' = alter f ref0 (heap G) →
  (∀ r, role_at G ref0 = Some r → gen (f r) = gen r ∨ gen (f r) = to_int32 (gen r) + 1) → gen_step G G'.
Proof.
  intros E Hf ref r H. pose proof (role_at_upd G ref0 f ref) as Hu. unfold role_at, upd in *. rewrite E. simpl in Hu.
  rewrite Hu. case_decide; [subst; rewrite H; simpl; eexists; split; [done|by apply Hf]|exists r; auto].
Qed.

Lemma observe_heap G t ev : heap (observe G t ev) = heap G.
Proof.
  unfold observe. destruct (tombAuthority _); [|done].
  revert G. induction ev as [|i ev IH]; intros G; [done|]. simpl. by rewrite IH.
Qed.

Lemma expire_loop_spec now n i r : shrinks r (expire_loop now n i r).1.
Proof.
  revert i r. induction n as [|n IH]; intros i r; [done|]. cbn [expire_loop].
  destruct (cache r !! i) as [e|] eqn:Ei; [|done]. destruct (TTL_MS <? _); [|done].
  case_bool_decide as Hp; [apply IH|]. specialize (IH i (drop_at i r)).
  pose proof (drop_at_shrinks _ _ _ Ei Hp). destruct (expire_loop now n i (drop_at i r)). by etrans.
Qed.

Lemma mergeCut_gen G now t w e corr : gen_step G (mergeCut G now t w e corr).1.
Proof.
  unfold mergeCut. destruct (live G t) as [[ref r]|]; [|by apply gen_step_heap].
  destruct (negb _); [by apply gen_step_heap|]. destruct (gate_of r); [by apply gen_step_heap|]. simpl.
  eapply gen_step_alter; [reflexivity|]. intros. by right.
Qed.

Lemma tstep_gen G o : gen_step G (tstep G o).
Proof.
  destruct o as [ref e c|now ref t m c g|ref now|ref now|ref name|now t w e corr|ref|t i ts sq|t i ts sq]; cbn [tstep].
  - unfold cachePush. destruct (negb _); [by apply gen_step_heap|].
    destruct (role_at G ref) as [r|] eqn:Er; [|by apply gen_step_heap].
    destruct (superseded e r); [by apply gen_step_heap|].
    pose proof (push_role_shrinks (mcf G) e r) as [Hs _]. destruct (push_role (mcf G) e r) as [r' ev]. simpl in *.
    eapply gen_step_alter; [rewrite observe_heap; reflexivity|]. intros r0 H0.
    destruct (same_merge _ _ (sh_same _ _ Hs)) as (_ & _ & _ & Eg & _). left. rewrite Eg. simpl. congruence.
  - destruct ref as [ref|].
    + destruct (role_at G ref) as [r|] eqn:Er.
      * destruct (cutHolds G ref c) eqn:Ec.
        -- destruct (applyKill_cases G now ref r t m c g Er Ec) as (G1 & f & -> & Eh & _ & _ & Ef).
           eapply gen_step_alter; [exact Eh|]. intros r0 Hr0. simplify_eq. left. rewrite Ef. cbv zeta.
           destruct (raise_seq_same (km_seq m) r) as (_ & E2 & _). destruct (jget _ _); [exact E2|].
           match goal with |- context [drop_target ?a ?b] => destruct (drop_target_same a b) as (_ & E3 & _) end.
           rewrite E3. exact E2.
        -- unfold applyKill. simpl. rewrite Er. simpl. rewrite Ec. by apply gen_step_heap.
      * unfold applyKill. simpl. rewrite Er. simpl. apply gen_step_heap. by rewrite (proj1 (deliverKill_frame _ _ _ _ _)).
    + unfold applyKill. simpl. apply gen_step_heap. by rewrite (proj1 (deliverKill_frame _ _ _ _ _)).
  - unfold expireCache. destruct (role_at G ref) as [r|] eqn:Er; [|by apply gen_step_heap].
    pose proof (expire_loop_spec now (length (cache r)) 0 r) as Hs. destruct (expire_loop _ _ _ _) as [r' ev]. simpl in *.
    apply (gen_step_alter _ _ ref (λ _, r')).
    + destruct (tombAuthority _); simpl; by rewrite observe_heap.
    + intros r0 H0. destruct (same_merge _ _ (sh_same _ _ Hs)) as (_ & _ & _ & Eg & _). left. congruence.
  - eapply gen_step_alter; [reflexivity|]. by left.
  - eapply gen_step_alter; [reflexivity|]. intros r _. left. unfold noteMetricRole. by destruct (latestOnly r).
  - apply mergeCut_gen.
  - unfold mergeGateClear. destruct (_ ≫= _); [|by apply gen_step_heap]. simpl.
    eapply gen_step_alter; [reflexivity|]. by left.
  - apply gen_step_heap. unfold deliverToApp, raise_seen. by repeat (case_match; simpl).
  - apply gen_step_heap. by rewrite (proj1 (deliverKill_frame _ _ _ _ _)).
Qed.

Definition trun (G : mgr) (ops : list top) : mgr := foldl tstep G ops.

Lemma trun_gen ops G ref r :
  role_at G ref = Some r → 0 ≤ gen r → gen r + Z.of_nat (length ops) < 2 ^ 31 →
  ∃ r', role_at (trun G ops) ref = Some r' ∧ gen r ≤ gen r' ≤ gen r + Z.of_nat (length ops).
Proof.
  revert G r. induction ops as [|o ops IH]; intros G r Hr H0 Hb; [exists r; split; [done|simpl; lia]|].
  simpl in Hb. destruct (tstep_gen G o ref r Hr) as (r1 & Hr1 & Hg).
  rewrite to_int32_id in Hg by lia.
  destruct (IH (tstep G o) r1 Hr1 ltac:(lia) ltac:(lia)) as (r' & Hr' & Hb'). exists r'. split; [done|]. simpl. lia.
Qed.

(** C6. The cut is final: once a role has been cut, nothing that captured it
    before the cut commits to it - no body, no tombstone - whatever ran before
    the cut and after it, the gate being set, cleared or set again. *)
Theorem cut_is_final G0 ref r0 c ops1 now t w e corr ops2 :
  role_at G0 ref = Some r0 → 0 ≤ gen r0 → gen r0 + Z.of_nat (length ops1 + length ops2) + 1 < 2 ^ 31 →
  cutCapture G0 ref = Some c →
  let G1 := trun G0 ops1 in
  fst <$> live G1 t = Some ref → (mergeCut G1 now t w e corr).2 ≠ None →
  let G3 := trun (mergeCut G1 now t w e corr).1 ops2 in
  (∀ en, cachePush G3 ref en (Some c) = (G3, false)) ∧
  (∀ n t' m g, applyKill G3 n (Some ref) t' m (Some c) g = (G3, Refused)).
Proof.
  intros Hr0 Hg0 Hb Hc G1 Hl Hcut G3.
  destruct (trun_gen ops1 G0 ref r0 Hr0 Hg0 ltac:(lia)) as (r1 & Hr1 & Hb1). fold G1 in Hr1.
  destruct (live G1 t) as [[ref' r1']|] eqn:El; [|done]. simpl in Hl. injection Hl as ->.
  pose proof El as [_ Hr1']%live_Some. rewrite Hr1 in Hr1'. injection Hr1' as <-.
  assert (∃ r2, role_at (mergeCut G1 now t w e corr).1 ref = Some r2 ∧ gen r2 = gen r1 + 1) as (r2 & Hr2 & Hg2).
  { unfold mergeCut in *. rewrite El in *. destruct (negb _); [done|]. destruct (gate_of r1); [done|]. simpl.
    rewrite role_at_upd_eq, Hr1. simpl. eexists. split; [done|]. simpl. by rewrite to_int32_id by lia. }
  destruct (trun_gen ops2 _ ref r2 Hr2 ltac:(lia) ltac:(lia)) as (r3 & Hr3 & Hb3). fold G3 in Hr3.
  unfold cutCapture in Hc. rewrite Hr0 in Hc. injection Hc as Hc.
  assert (cutHolds G3 ref (Some c) = false) as Hh.
  { rewrite <-Hc. unfold cutHolds. rewrite Hr3. rewrite !to_int32_id by lia.
    replace (gen r3 =? gen r0) with false by (symmetry; apply Z.eqb_neq; lia). rewrite andb_false_r.
    by repeat match goal with |- context [if ?b then _ else _] => destruct b end. }
  split.
  - intros en. unfold cachePush. by rewrite Hh.
  - intros n t' m g. unfold applyKill. simpl. rewrite Hr3. simpl. by rewrite Hh.
Qed.

(** * Exactly-once delivery *)

Definition lru_ok (m : jmap string unit) : Prop := jwf m ∧ jsize m ≤ APP_DEDUP_MAX.
(** [key] is held with at most [n] younger keys after it. *)
Definition held (m : jmap string unit) (key : string) (n : nat) : Prop :=
  ∃ m1 m2, m = m1 ++ (key, tt) :: m2 ∧ (length m2 ≤ n)%nat.

Lemma jset_present (m : jmap string unit) (key : string) : jhas m key = true → jset m key tt = m.
Proof.
  unfold jhas. induction m as [|[k []] m IH]; [done|]. simpl. case_decide; [done|]. intros Hh. by rewrite IH.
Qed.

Lemma jset_absent (m : jmap string unit) (key : string) : jhas m key = false → jset m key tt = m ++ [(key, tt)].
Proof.
  unfold jhas. induction m as [|[k []] m IH]; [done|]. simpl. case_decide; [done|]. intros Hh. by rewrite IH.
Qed.

Lemma lru_add_ok (m : jmap string unit) (key : string) : lru_ok m → lru_ok (lru_add m key).
Proof.
  intros [Hw Hs]. pose proof (jwf_jset m key tt Hw) as Hw'. unfold lru_add. cbv zeta.
  pose proof (jsize_jset m key tt) as Hj. destruct (APP_DEDUP_MAX <? jsize (jset m key tt)) eqn:E; zb; [|by split].
  destruct (jset m key tt) as [|[k []] m'] eqn:Em; [by split; [|unfold jsize in *; simpl in *; lia]|].
  split; [by apply jwf_jdel|]. rewrite jsize_jdel by done.
  assert (jhas ((k, tt) :: m') k = true) as -> by (unfold jhas; simpl; by rewrite decide_True).
  destruct (jhas m key); lia.
Qed.

Lemma lru_add_held m key key' n :
  lru_ok m → held m key n → Z.of_nat n + 1 < APP_DEDUP_MAX → held (lru_add m key') key (S n).
Proof.
  intros [Hw Hs] (m1 & m2 & -> & Hl) Hn. unfold lru_add. cbv zeta.
  destruct (jhas (m1 ++ (key, tt) :: m2) key') eqn:Eh.
  - rewrite jset_present by done. replace (APP_DEDUP_MAX <? _) with false by (symmetry; zb; lia).
    exists m1, m2. split; [done|lia].
  - pose proof (jwf_jset _ key' tt Hw) as Hw'. rewrite jset_absent in * by done. rewrite <-app_assoc in *. simpl in *.
    destruct (APP_DEDUP_MAX <? _) eqn:E; zb; [|exists m1, (m2 ++ [(key', tt)]); rewrite length_app; simpl; split; [done|lia]].
    unfold jsize in *. destruct m1 as [|[k []] m1]; simpl in *.
    + rewrite length_app in *. simpl in *. lia.
    + apply NoDup_cons in Hw' as [Hni _]. rewrite jdel_cons, decide_True, jdel_notin by done.
      exists m1, (m2 ++ [(key', tt)]). rewrite length_app. simpl. split; [done|lia].
Qed.

Lemma lru_add_self (m : jmap string unit) (key : string) : lru_ok m → held (lru_add m key) key 0 ∨ jhas m key = true.
Proof.
  intros [Hw Hs]. destruct (jhas m key) eqn:Eh; [by right|left]. unfold lru_add. cbv zeta.
  pose proof (jwf_jset m key tt Hw) as Hw'. rewrite jset_absent in * by done.
  destruct (APP_DEDUP_MAX <? _) eqn:E; zb; [|by exists m, []].
  destruct m as [|[k []] m]; simpl in *.
  - unfold jsize in E. simpl in E. unfold APP_DEDUP_MAX in E. lia.
  - apply NoDup_cons in Hw' as [Hni _]. rewrite jdel_cons, decide_True, jdel_notin by done. by exists m, [].
Qed.

Lemma held_has m key n : held m key n → jhas m key = true.
Proof. intros (m1 & m2 & -> & _). apply jhas_true_key. rewrite fmap_app. set_solver. Qed.

(** A step adds at most one key. *)
Definition one_key (G G' : mgr) : Prop :=
  appDelivered G' = appDelivered G ∨ ∃ key, appDelivered G' = lru_add (appDelivered G) key.

Lemma one_key_deliver G t i ts sq : one_key G (deliverToApp G t i ts sq).
Proof. unfold one_key, deliverToApp, raise_seen. repeat (case_match; simpl); eauto. Qed.

Lemma one_key_kill G t i ts sq : one_key G (deliverKillToApp G t i ts sq).
Proof. unfold one_key, deliverKillToApp, raise_seen. repeat (case_match; simpl); eauto. Qed.

Lemma observe_delivered G t ev : appDelivered (observe G t ev) = appDelivered G.
Proof.
  unfold observe. destruct (tombAuthority _); [|done].
  revert G. induction ev as [|i ev IH]; intros G; [done|]. simpl. by rewrite IH.
Qed.

Lemma tstep_one_key G o : one_key G (tstep G o).
Proof.
  destruct o as [ref e c|now ref t m c g|ref now|ref now|ref name|now t w e corr|ref|t i ts sq|t i ts sq];
    cbn [tstep]; auto using one_key_deliver, one_key_kill; try (by left).
  - left. unfold cachePush. destruct (negb _); [done|]. destruct (role_at G ref); [|done].
    destruct (superseded _ _); [done|]. destruct (push_role _ _ _). simpl. by rewrite observe_delivered.
  - unfold applyKill. cbv zeta. destruct (ref ≫= _) as [[ref' r]|].
    + destruct (negb _); [by left|]. set (G1 := upd _ _ _). change (appDelivered G) with (appDelivered G1).
      destruct (role_at G1 ref' ≫= _) as [[r1 ex]|].
      * destruct (bound_proof _ _ _); [destruct (t_kill _)|]; cbn [fst];
          try (match goal with |- one_key _ (deliverKillToApp ?X _ _ _ _) => apply (one_key_kill X) end).
        left. by destruct (_ && _).
      * destruct (_ && _); cbn [fst]; match goal with |- one_key _ (deliverKillToApp ?X _ _ _ _) => apply (one_key_kill X) end.
    + cbn [fst]. match goal with |- one_key _ (deliverKillToApp ?X _ _ _ _) => apply (one_key_kill X) end.
  - left. unfold expireCache. destruct (role_at G ref); [|done]. destruct (expire_loop _ _ _ _).
    destruct (tombAuthority _); simpl; by rewrite observe_delivered.
  - left. unfold mergeCut. by repeat case_match.
  - left. unfold mergeGateClear. by destruct (_ ≫= _).
Qed.

Lemma trun_held ops G key n :
  lru_ok (appDelivered G) → held (appDelivered G) key n → Z.of_nat (n + length ops) < APP_DEDUP_MAX →
  jhas (appDelivered (trun G ops)) key = true.
Proof.
  revert G n. induction ops as [|o ops IH]; intros G n Hok Hh Hn; [by eapply held_has|]. simpl in *.
  destruct (tstep_one_key G o) as [E|[key' E]].
  - apply (IH _ n); rewrite ?E; [done|done|lia].
  - apply (IH _ (S n)); rewrite ?E; [by apply lru_add_ok|apply lru_add_held; [done|done|lia]|lia].
Qed.

(** Exactly-once delivery: once a message of a subscribed topic has been
    handed to the application it is not handed over again, through any run of
    fewer than [APP_DEDUP_MAX] further operations of the store. *)
Theorem delivered_once G t id ts sq ops ts' sq' :
  lru_ok (appDelivered G) → jhas (mySubscriptions G) t = true → jhas (appDelivered G) (app_key t id) = false →
  Z.of_nat (length ops) < APP_DEDUP_MAX →
  let G1 := deliverToApp G t id ts sq in
  outbox G1 = outbox G ++ [ConfirmPending t id; AppDeliver t id ts sq] ∧
  deliverToApp (trun G1 ops) t id ts' sq' = trun G1 ops.
Proof.
  intros Hok Hs Hn Hl G1.
  assert (outbox G1 = outbox G ++ [ConfirmPending t id; AppDeliver t id ts sq] ∧
    appDelivered G1 = lru_add (appDelivered G) (app_key t id)) as [Eo Ed].
  { subst G1. unfold deliverToApp, raise_seen. rewrite Hs, Hn. cbn [negb]. cbv zeta.
    destruct (_ <? _); simpl; rewrite <-app_assoc; done. }
  assert (jhas (appDelivered (trun G1 ops)) (app_key t id) = true) as Hh.
  { apply (trun_held ops G1 _ 0); rewrite ?Ed; [by apply lru_add_ok| |lia].
    destruct (lru_add_self _ (app_key t id) Hok); [done|congruence]. }
  split; [done|]. unfold deliverToApp at 1. rewrite Hh. by destruct (negb _).
Qed.

(** * Concrete instances *)

Lemma makeRole_ok t b now : store_ok (makeRole t b now).
Proof.
  split; simpl; try done; try (intros; set_solver).
  - constructor.
  - apply jwf_nil.
Qed.

Definition demo_cf : mcfg := default_cfg 5.
Definition demo_role : role := makeRole 9 true 0.
Definition demo_entry : entry := mk_entry "m1" 1000 "{}" None 0.
Definition demo_mgr : mgr := put_mySubscriptions [(9, mk_mysub None 5000)] (alloc (new_mgr demo_cf) 9 demo_role).

Lemma push_bounded_witness :
  store_ok (push_role demo_cf demo_entry demo_role).1 ∧ cacheBytes (push_role demo_cf demo_entry demo_role).1 = 82.
Proof.
  split; [|vm_compute; reflexivity].
  exact (proj1 (push_bounded demo_cf demo_entry demo_role (makeRole_ok 9 true 0) ltac:(set_solver) eq_refl)).
Defined.

Definition demo_killed : role := set_tomb "m1" (mk_tomb 99999 70 (Some "ab") (Some 4) None None []) (makeRole 9 false 0).

Lemma migrated_deletions_witness :
  (applyDels (λ _ G, G) (λ _, 500) (λ _ _, true) 0 demo_mgr 0 9 (activeDels demo_cf 500 demo_killed) None None).2 = true.
Proof.
  assert (jwf (tombstones demo_killed)) as Hw by (apply jwf_jset, jwf_nil).
  destruct (migrated_deletions (λ _ G, G) (λ _, 500) (λ _ _, true) 0 demo_mgr 0 demo_role 9 None None demo_cf 500
    demo_killed eq_refl (makeRole_ok 9 true 0) eq_refl eq_refl Hw) as (G' & r' & E & _).
  rewrite E. reflexivity.
Defined.

Lemma cut_is_final_witness :
  cachePush (trun (mergeCut demo_mgr 600 9 "ff" 2 "corr").1 [TClear 0]) 0 demo_entry (Some (0%nat, 0)) =
    (trun (mergeCut demo_mgr 600 9 "ff" 2 "corr").1 [TClear 0], false).
Proof.
  assert ((mergeCut (trun demo_mgr []) 600 9 "ff" 2 "corr").2 ≠ None) as Hc by (vm_compute; congruence).
  exact (proj1 (cut_is_final demo_mgr 0 demo_role (0%nat, 0) [] 600 9 "ff" 2 "corr" [TClear 0] eq_refl
    ltac:(vm_compute; congruence) ltac:(vm_compute; reflexivity) eq_refl eq_refl Hc) demo_entry).
Defined.

Lemma delivered_once_witness :
  outbox (deliverToApp demo_mgr 9 "m1" 1000 None) = [ConfirmPending 9 "m1"; AppDeliver 9 "m1" 1000 None] ∧
  deliverToApp (trun (deliverToApp demo_mgr 9 "m1" 1000 None) [TDeliver 9 "m2" 1001 None]) 9 "m1" 1000 None =
    trun (deliverToApp demo_mgr 9 "m1" 1000 None) [TDeliver 9 "m2" 1001 None].
Proof.
  assert (lru_ok (appDelivered demo_mgr)) as Hl.
  { split; [apply jwf_nil|vm_compute; congruence]. }
  exact (delivered_once demo_mgr 9 "m1" 1000 None [TDeliver 9 "m2" 1001 None] 1000 None Hl eq_refl eq_refl
    ltac:(vm_compute; reflexivity)).
Defined.
