(* ===== verification/Ingest.v ===== *)
(** Ingest.v - the time-sliced queue that history waits in before it is adopted
    ([_ingestEnqueue], [_ingestPump], [queuedDependencies] of src/src/pubsub/repairPlane.js), and
    what the duty gate reads of it.  A payload's work is a job number; its run is the interval
    between the step that starts it and the step that ends it, and any step of the other side may
    fall between. *)
From stdpp Require Import base gmap sets list strings.
From Stdlib Require Import ZArith Lia.
From S2P Require Import Prelude HexId Role TopicStore.
From S2P Require Canonical SignedRecords TopicId.
#[local] Open Scope Z_scope.
#[local] Open Scope js_scope.
#[local] Set Default Proof Using "Type".

(** * The queue *)

Definition INGEST_QUEUE_MAX : Z := 4096.
Definition INGEST_SLICE_MS : Z := 8.

(** A payload is a job; what it depends on is the peer its processing will name.  The pump is
    off, between two entries, or suspended in a job; [inlineJob] is the one job that may run
    outside the pump. *)
Inductive pump := Idle | Between | Working (job : nat) (dep : option string).
Record iq := mk_iq {
  queue : list (nat * option string); pumping : pump; inlineJob : option (nat * option string);
  inFlight : jmap string Z; dropped : Z; sliceStart : option Z
}.
Definition new_iq : iq := mk_iq [] Idle None [] 0 None.

Definition pinInFlight (dep : option string) (m : jmap string Z) : jmap string Z :=
  match dep with Some d => jset m d (default 0 (jget m d) + 1) | None => m end.
Definition unpinInFlight (dep : option string) (m : jmap string Z) : jmap string Z :=
  match dep with
  | Some d => let n := default 0 (jget m d) - 1 in if n <=? 0 then jdel m d else jset m d n
  | None => m
  end.

(** [(typeof dep === 'string' && dep) ? dep.toLowerCase() : null] *)
Definition dependency (dep : option string) : option string :=
  match dep with Some d => if decide (d = "") then None else Some (lc d) | None => None end.

Inductive admitted := RunInline | Queued | Overflow.

(** [_ingestEnqueue] up to the start of the job: [now] is [Date.now()]. *)
Definition ingestEnqueue (now : Z) (job : nat) (dep : option string) (s : iq) : iq * admitted :=
  let d := dependency dep in
  let enqueue s :=
    if INGEST_QUEUE_MAX <=? Z.of_nat (length (queue s)) then
      (mk_iq (queue s) (pumping s) (inlineJob s) (inFlight s) (dropped s + 1) (sliceStart s), Overflow)
    else
      (mk_iq (queue s ++ [(job, d)]) (match pumping s with Idle => Between | p => p end) (inlineJob s) (inFlight s)
         (dropped s) (sliceStart s), Queued) in
  match queue s, pumping s, inlineJob s with
  | [], Idle, None =>
      let start := default now (sliceStart s) in
      let s := mk_iq (queue s) (pumping s) (inlineJob s) (inFlight s) (dropped s) (Some start) in
      if now - start <? INGEST_SLICE_MS then
        (mk_iq (queue s) (pumping s) (Some (job, d)) (pinInFlight d (inFlight s)) (dropped s) (sliceStart s), RunInline)
      else enqueue s
  | _, _, _ => enqueue s
  end.

(** The [finally] of the inline job, and the macrotask that clears the slice. *)
Definition inlineDone (s : iq) : iq :=
  match inlineJob s with
  | Some (_, d) => mk_iq (queue s) (pumping s) None (unpinInFlight d (inFlight s)) (dropped s) (sliceStart s)
  | None => s
  end.
Definition clearSlice (s : iq) : iq :=
  mk_iq (queue s) (pumping s) (inlineJob s) (inFlight s) (dropped s) None.

(** One turn of the pump's loop: shift and pin, or stop. *)
Definition pumpTake (s : iq) : iq :=
  match pumping s with
  | Between =>
      match queue s with
      | (job, d) :: q => mk_iq q (Working job d) (inlineJob s) (pinInFlight d (inFlight s)) (dropped s) (sliceStart s)
      | [] => mk_iq [] Idle (inlineJob s) (inFlight s) (dropped s) (sliceStart s)
      end
  | _ => s
  end.
Definition pumpDone (s : iq) : iq :=
  match pumping s with
  | Working _ d => mk_iq (queue s) Between (inlineJob s) (unpinInFlight d (inFlight s)) (dropped s) (sliceStart s)
  | _ => s
  end.

Definition queuedDependencies (s : iq) : gset string :=
  list_to_set (fst <$> base.filter (λ p : string * Z, 0 < p.2) (inFlight s)) ∪ list_to_set (omap snd (queue s)).

Inductive qop := QEnqueue (now : Z) (job : nat) (dep : option string) | QInlineDone | QClear | QTake | QDone.
Definition qstep (s : iq) (o : qop) : iq :=
  match o with
  | QEnqueue now job dep => (ingestEnqueue now job dep s).1
  | QInlineDone => inlineDone s | QClear => clearSlice s | QTake => pumpTake s | QDone => pumpDone s
  end.
Definition qrun (s : iq) (ops : list qop) : iq := foldl qstep s ops.

(** ** What is accepted and not finished *)

Definition running (s : iq) : list (nat * option string) :=
  option_list (inlineJob s) ++ match pumping s with Working j d => [(j, d)] | _ => [] end.
Definition count_dep (d : string) (l : list (nat * option string)) : Z :=
  Z.of_nat (length (base.filter (λ p, p.2 = Some d) l)).

#[local] Arguments count_dep : simpl never.

Record iq_ok (s : iq) : Prop := {
  iq_wf : jwf (inFlight s);
  iq_count : ∀ d, default 0 (jget (inFlight s) d) = count_dep d (running s);
  iq_pos : ∀ d n, jget (inFlight s) d = Some n → 0 < n;
  iq_bound : Z.of_nat (length (queue s)) ≤ INGEST_QUEUE_MAX;
  iq_idle : pumping s = Idle → queue s = []
}.

Lemma pin_get dep m d : default 0 (jget (pinInFlight dep m) d) = default 0 (jget m d) + (if decide (dep = Some d) then 1 else 0).
Proof.
  destruct dep as [e|]; [cbn [pinInFlight unpinInFlight]|rewrite (decide_False (P := None = Some d)) by done; simpl; lia]. destruct (decide (e = d)) as [->|Hne].
  - rewrite jget_jset_eq, decide_True by done. done.
  - rewrite jget_jset_ne, decide_False by congruence. lia.
Qed.

Lemma unpin_get dep m d : (∀ e n, jget m e = Some n → 0 < n) →
  default 0 (jget (unpinInFlight dep m) d) = Z.max 0 (default 0 (jget m d) - (if decide (dep = Some d) then 1 else 0)).
Proof.
  intros Hpos. assert (0 ≤ default 0 (jget m d)) as Hd by (destruct (jget m d) eqn:E; simpl; [apply Hpos in E; lia|lia]).
  destruct dep as [e|]; [cbn [pinInFlight unpinInFlight]|rewrite (decide_False (P := None = Some d)) by done; simpl; lia]. destruct (decide (e = d)) as [->|Hne].
  - rewrite decide_True by done. destruct (default 0 (jget m d) - 1 <=? 0) eqn:E; zb.
    + rewrite jget_jdel_eq. simpl. lia.
    + rewrite jget_jset_eq. simpl. lia.
  - rewrite decide_False by congruence. destruct (_ <=? 0).
    + rewrite jget_jdel_ne by done. lia.
    + rewrite jget_jset_ne by done. lia.
Qed.

Lemma pin_pos dep m : (∀ e n, jget m e = Some n → 0 < n) → ∀ e n, jget (pinInFlight dep m) e = Some n → 0 < n.
Proof.
  intros Hpos e n. destruct dep as [d|]; simpl; [|apply Hpos]. destruct (decide (d = e)) as [->|Hne].
  - rewrite jget_jset_eq. intros [= <-]. destruct (jget m e) eqn:E; simpl; [apply Hpos in E; lia|lia].
  - rewrite jget_jset_ne by done. apply Hpos.
Qed.

Lemma unpin_pos dep m : (∀ e n, jget m e = Some n → 0 < n) → ∀ e n, jget (unpinInFlight dep m) e = Some n → 0 < n.
Proof.
  intros Hpos e n. destruct dep as [d|]; simpl; [|apply Hpos]. destruct (default 0 (jget m d) - 1 <=? 0) eqn:E; zb.
  - destruct (decide (d = e)) as [->|Hne]; [by rewrite jget_jdel_eq|]. rewrite jget_jdel_ne by done. apply Hpos.
  - destruct (decide (d = e)) as [->|Hne]; [rewrite jget_jset_eq; intros [= <-]; lia|].
    rewrite jget_jset_ne by done. apply Hpos.
Qed.

Lemma wf_pin dep m : jwf m → jwf (pinInFlight dep m).
Proof. destruct dep; simpl; auto with axona. Qed.
Lemma wf_unpin dep m : jwf m → jwf (unpinInFlight dep m).
Proof. destruct dep; simpl; [|done]. case_match; auto with axona. Qed.

Lemma count_cons d p l : count_dep d (p :: l) = (if decide (p.2 = Some d) then 1 else 0) + count_dep d l.
Proof. unfold count_dep. rewrite filter_cons. case_decide; simpl; lia. Qed.
Lemma count_app d l l' : count_dep d (l ++ l') = count_dep d l + count_dep d l'.
Proof. unfold count_dep. rewrite filter_app, length_app. lia. Qed.
Lemma count_dep_nonneg d l : 0 ≤ count_dep d l.
Proof. unfold count_dep. lia. Qed.

Lemma running_working s j d : pumping s = Working j d → running s = option_list (inlineJob s) ++ [(j, d)].
Proof. unfold running. by intros ->. Qed.

Lemma enqueue_ok s p : iq_ok s → Z.of_nat (length (queue s)) < INGEST_QUEUE_MAX →
  iq_ok (mk_iq (queue s ++ [p]) (match pumping s with Idle => Between | p => p end) (inlineJob s) (inFlight s)
           (dropped s) (sliceStart s)).
Proof.
  intros [H1 H2 H3 H4 H5] Hl. split; simpl; try done.
  - intros d. rewrite H2. unfold running. simpl. by destruct (pumping s).
  - rewrite length_app. simpl. lia.
  - by destruct (pumping s).
Qed.

Lemma qstep_ok s o : iq_ok s → iq_ok (qstep s o).
Proof.
  intros Hok. destruct o as [now job dep| | | |]; cbn [qstep].
  - unfold ingestEnqueue.
    assert (∀ s p, iq_ok s → iq_ok (if INGEST_QUEUE_MAX <=? Z.of_nat (length (queue s))
      then (mk_iq (queue s) (pumping s) (inlineJob s) (inFlight s) (dropped s + 1) (sliceStart s), Overflow)
      else (mk_iq (queue s ++ [p]) (match pumping s with Idle => Between | p => p end) (inlineJob s) (inFlight s)
              (dropped s) (sliceStart s), Queued)).1) as Henq.
    { clear. intros s p Hok. destruct (_ <=? _) eqn:E; zb; [by destruct Hok|by apply enqueue_ok]. }
    pose proof (Henq s (job, dependency dep) Hok) as Hs.
    destruct (queue s) as [|q0 q] eqn:Eq; [|exact Hs].
    destruct (pumping s) eqn:Ep; [|exact Hs|exact Hs]. destruct (inlineJob s) as [j|] eqn:Ej; [exact Hs|]. clear Hs. cbv zeta.
    destruct (_ <? INGEST_SLICE_MS).
    2: { apply (Henq (mk_iq [] Idle None (inFlight s) (dropped s) (Some (default now (sliceStart s))))).
         destruct Hok as [H1 H2 H3 H4 H5]. split; simpl; try done. intros d. rewrite H2. unfold running. by rewrite Ej, Ep. }
    destruct Hok as [H1 H2 H3 H4 H5]. split; simpl; [by apply wf_pin| |by apply pin_pos|done|done].
    intros d. rewrite pin_get, H2. unfold running. simpl. rewrite Ej, Ep, count_cons. simpl. lia.
  - unfold inlineDone. destruct (inlineJob s) as [[j dep]|] eqn:Ej; [|done].
    destruct Hok as [H1 H2 H3 H4 H5]. split; simpl; [by apply wf_unpin| |by apply unpin_pos|done|done].
    intros d. rewrite unpin_get, H2 by done. unfold running. simpl. rewrite Ej. cbn [option_list option_rect app]. rewrite count_cons. simpl.
    pose proof (count_dep_nonneg d match pumping s with Working j d => [(j, d)] | _ => [] end). lia.
  - by destruct Hok.
  - unfold pumpTake. destruct (pumping s) eqn:Ep; [done| |done]. destruct (queue s) as [|[j dep] q] eqn:Eq.
    + destruct Hok as [H1 H2 H3 H4 H5]. split; simpl; try done. intros d. rewrite H2. unfold running. simpl. by rewrite Ep.
    + destruct Hok as [H1 H2 H3 H4 H5]. split; simpl; [by apply wf_pin| |by apply pin_pos| |done].
      * intros d. rewrite pin_get, H2. unfold running. simpl. rewrite Ep, !count_app, count_cons. simpl.
        unfold count_dep. simpl. lia.
      * rewrite Eq in H4. simpl in H4. lia.
  - unfold pumpDone. destruct (pumping s) as [| |j dep] eqn:Ep; [done|done|].
    destruct Hok as [H1 H2 H3 H4 H5]. split; simpl; [by apply wf_unpin| |by apply unpin_pos|done|done].
    intros d. rewrite unpin_get, H2, (running_working s j dep Ep) by done. unfold running. simpl.
    rewrite !count_app, count_cons. simpl. unfold count_dep at 2 4. simpl. pose proof (count_dep_nonneg d (option_list (inlineJob s))). lia.
Qed.

Lemma qrun_ok ops s : iq_ok s → iq_ok (qrun s ops).
Proof. revert s. induction ops as [|o ops IH]; intros s H; [done|]. apply IH. by apply qstep_ok. Qed.

Lemma new_iq_ok : iq_ok new_iq.
Proof. split; try done. apply jwf_nil. Qed.

Lemma count_pos d l : 0 < count_dep d l ↔ ∃ j, (j, Some d) ∈ l.
Proof.
  unfold count_dep. split.
  - destruct (base.filter (λ p : nat * option string, p.2 = Some d) l) as [|[j o] r] eqn:E; simpl; [lia|]. intros _. exists j.
    assert ((j, o) ∈ base.filter (λ p : nat * option string, p.2 = Some d) l) as H by (rewrite E; left).
    apply list_elem_of_filter in H as [Ho H]. simpl in Ho. by subst.
  - intros [j Hj]. assert ((j, Some d) ∈ base.filter (λ p : nat * option string, p.2 = Some d) l) as H by (by apply list_elem_of_filter).
    destruct (base.filter _ l); [set_solver|]. simpl. lia.
Qed.

Lemma queuedDependencies_spec s d : iq_ok s →
  d ∈ queuedDependencies s ↔ ∃ j, (j, Some d) ∈ running s ++ queue s.
Proof.
  intros [H1 H2 H3 H4 H5]. unfold queuedDependencies. rewrite elem_of_union, !elem_of_list_to_set, list_elem_of_fmap, list_elem_of_omap.
  split.
  - intros [([k n] & -> & [Hn Hin]%list_elem_of_filter)|([j o] & Hin & Ho)].
    + simpl in *. apply elem_jget in Hin; [|done]. specialize (H2 k). rewrite Hin in H2. simpl in H2.
      destruct (proj1 (count_pos k (running s))) as [j Hj]; [lia|]. exists j. apply elem_of_app. by left.
    + simpl in Ho. subst. exists j. apply elem_of_app. by right.
  - intros (j & [Hr|Hq]%elem_of_app); [left|right; by exists (j, Some d)].
    assert (0 < count_dep d (running s)) as Hc by (apply count_pos; by exists j).
    rewrite <-H2 in Hc. destruct (jget (inFlight s) d) as [n|] eqn:E; simpl in Hc; [|lia].
    exists (d, n). split; [done|]. apply list_elem_of_filter. split; [done|]. by apply jget_Some_elem.
Qed.

(** The duty gate's view of the ingest queue is exact: after any sequence of arrivals,
    slices and completions, inline and queued, the peers [queuedDependencies] names are
    precisely those that a waiting or a running payload will name, so a payload's peer is
    pinned from its acceptance to the end of its processing and not a step longer; the queue
    never exceeds its bound, an arrival is taken, queued or counted as dropped, and the pump
    never stops while something waits. *)
Theorem dependency_pinned ops :
  let s := qrun new_iq ops in
  (∀ d, d ∈ queuedDependencies s ↔ ∃ j, (j, Some d) ∈ running s ++ queue s) ∧
  Z.of_nat (length (queue s)) ≤ INGEST_QUEUE_MAX ∧ (pumping s = Idle → queue s = []) ∧
  (∀ now j dep, match ingestEnqueue now j dep s with
    | (s', RunInline) => (j, dependency dep) ∈ running s' ∧ queue s' = queue s ∧ dropped s' = dropped s
    | (s', Queued) => queue s' = queue s ++ [(j, dependency dep)] ∧ running s' = running s ∧ pumping s' ≠ Idle ∧ dropped s' = dropped s
    | (s', Overflow) => queue s' = queue s ∧ running s' = running s ∧ dropped s' = dropped s + 1 ∧
        Z.of_nat (length (queue s)) = INGEST_QUEUE_MAX
    end).
Proof.
  intros s. assert (iq_ok s) as Hok by apply qrun_ok, new_iq_ok. split_and!.
  - intros d. by apply queuedDependencies_spec.
  - apply Hok.
  - apply Hok.
  - intros now j dep. pose proof (iq_bound s Hok) as Hb. clearbody s. unfold ingestEnqueue, running.
    destruct (queue s) as [|q0 q] eqn:Eq; destruct (pumping s) eqn:Ep; destruct (inlineJob s) as [i|] eqn:Ei; cbv zeta;
      rewrite ?Eq, ?Ep, ?Ei; cbn [queue pumping inlineJob inFlight dropped sliceStart];
      repeat match goal with
      | |- context [?a <? INGEST_SLICE_MS] => destruct (a <? INGEST_SLICE_MS)
      | |- context [INGEST_QUEUE_MAX <=? ?a] => destruct (INGEST_QUEUE_MAX <=? a) eqn:E
      end; cbn [queue pumping inlineJob inFlight dropped sliceStart option_list option_rect app]; zb;
      split_and!; try done; try (left; done); unfold INGEST_QUEUE_MAX in *; simpl in *; lia.
Qed.

Lemma dependency_pinned_witness :
  let s := qrun new_iq [QEnqueue 0 1 (Some "AB"); QEnqueue 1 2 (Some "cd"); QTake; QInlineDone] in
  "cd" ∈ queuedDependencies s ∧ "ab" ∉ queuedDependencies s.
Proof.
  destruct (dependency_pinned [QEnqueue 0 1 (Some "AB"); QEnqueue 1 2 (Some "cd"); QTake; QInlineDone]) as [H _]. cbv zeta in *.
  rewrite !H. split.
  - exists 2%nat. vm_compute. left.
  - intros [j Hj]. vm_compute in Hj. apply elem_of_cons in Hj as [Hj|Hj]; [discriminate Hj|by apply not_elem_of_nil in Hj].
Defined.
