(* ===== verification/RootClaim.v ===== *)
(** RootClaim.v - who is the root of a topic: the root-claim state machine
    (src/src/pubsub/rootClaim.js), the evidence it reads (rootElection.js:
    [_knownEpoch], [_isReachableId], [_bestKnownClosest], [_onRootBeacon]), the
    conviction record of writeFlight.js ([_rootTombstoned]), admission and the one
    entry every claim-shedding path takes (AxonaManager.js: [canAcceptRole],
    [admitRole], [_mergeCandidate]).

    Every operation is a function from the manager's state to the next; what the
    adapter and the clocks answer during the operation is an [env].  [saturated()]
    is a measurement of load and is part of the environment.  Logs are not modelled. *)
From stdpp Require Import base gmap sets list strings.
From Stdlib Require Import ZArith Lia.
From S2P Require Import Prelude HexId Role TopicStore.
#[local] Open Scope Z_scope.
#[local] Open Scope js_scope.

(** What the operation is told by the clocks and the DHT adapter. *)
Record env := mk_env {
  now : Z; mono : Z;
  neighbors : option (list jsv);   (** [None]: the adapter has no [neighbors] *)
  bridgeId : option jsv;
  servingCapable : bool;
  saturated : bool
}.

Definition ROOT_VERIFY_MS : Z := 45000.
Definition BEACON_TTL_MS : Z := 50000.
Definition BEACON_SEEN_MS : Z := 60000.
Definition MAX_SAFE_INTEGER : Z := 2 ^ 53 - 1.

Definition nbrs (E : env) : list jsv := default [] (neighbors E).
Definition idOf (v : jsv) : option Z := catch (asId production v).
Definition dist (a t : Z) : Z := Z.lxor a t.
(** [nb === bridge] where [bridge] is what the adapter answered, unconverted. *)
Definition is_bridge (E : env) (nb : Z) : bool := bool_decide (bridgeId E = Some (JBig nb)).

(** * Evidence *)

(** [_rootTombstoned]: an expired conviction is dropped by the first read. *)
Definition rootTombstoned (E : env) (G : mgr) (t : Z) (rootHex : string) (epoch : option Z) : mgr * bool :=
  match jget (rootTombstones G) t with
  | None => (G, false)
  | Some rt =>
      if rt_exp rt <=? now E then (put_rootTombstones (jdel (rootTombstones G) t) G, false)
      else (G, bool_decide (lc rootHex = rt_root rt) && (default 0 epoch <=? rt_epoch rt))
  end.

(** [_knownEpoch]: the highest incarnation this node has evidence of. *)
Definition knownEpoch (E : env) (G : mgr) (t : Z) : Z :=
  let e := 0 in
  let e := match live G t with Some (_, r) => Z.max e (epoch r) | None => e end in
  let e := match jget (rootBeacons G) t ≫= b_epoch with Some x => Z.max e x | None => e end in
  let e := match jget (rootTombstones G) t with Some rt => Z.max e (rt_epoch rt) | None => e end in
  match jget (genHighWater G) t with
  | Some (ge, until) => if (e <? ge) && (mono E <? until) then ge else e
  | None => e
  end.

(** [_isReachableId] *)
Definition isReachableId (E : env) (hex : string) : bool :=
  match neighbors E with
  | None => true
  | Some ns =>
      match idBigS hex with
      | None => true
      | Some want => existsb (λ n, bool_decide (idOf n = Some want)) ns
      end
  end.

(** [_bestKnownClosest]: neighbours, self and the cached beacon root. *)
Definition bestKnownClosest (E : env) (G : mgr) (t : Z) : Z :=
  let closer best x := if dist x t <? dist best t then x else best in
  let best := foldl (λ best n, match idOf n with
                               | Some nb => if is_bridge E nb then best else closer best nb
                               | None => best
                               end) (nodeId (mcf G)) (nbrs E) in
  match jget (rootBeacons G) t ≫= λ b, idBigS (b_root b) with Some rb => closer best rb | None => best end.

(** * The decision table *)

(** [(now - at) < beaconMs * 1.5], exactly. *)
Definition fresh (E : env) (G : mgr) (b : beacon) : bool := 2 * (now E - b_at b) <? 3 * beaconMs (mcf G).

Definition liveCloserRoot (E : env) (G : mgr) (t : Z) (requireReachable : bool) : mgr * option string :=
  match jget (rootBeacons G) t with
  | None => (G, None)
  | Some b =>
      if b_exp b <=? now E then (G, None)
      else if decide (b_root b = lc (selfHex G)) then (G, None)
      else match idBigS (b_root b) with
      | None => (G, None)
      | Some rb =>
          if dist (nodeId (mcf G)) t <=? dist rb t then (G, None)
          else
            let '(G, dead) := rootTombstoned E G t (b_root b) (b_epoch b) in
            (G, if dead then None
                else if b_verified b && fresh E G b then Some (b_root b)
                else if isReachableId E (b_root b) then Some (b_root b)
                else if negb requireReachable && fresh E G b then Some (b_root b)
                else None)
      end
  end.

(** [meshBare]: no routable neighbour besides the bridge. *)
Definition meshBare (E : env) : bool :=
  match neighbors E with
  | None => false
  | Some ns =>
      let bridge := bridgeId E ≫= idOf in
      negb (existsb (λ n, match idOf n with
                          | Some nb => match bridge with None => true | Some b => negb (nb =? b) end
                          | None => false
                          end) ns)
  end.

Definition selfClosestReachable (E : env) (G : mgr) (t : Z) : bool :=
  let me := nodeId (mcf G) in
  negb (existsb (λ n, match idOf n with
                      | Some nb => negb ((nb =? me) || is_bridge E nb) && (dist nb t <? dist me t)
                      | None => false
                      end) (nbrs E)).

(** [RootClaim.claimWins(topic, a, b)]; a claim is an id and an epoch. *)
Definition claimWins (t : Z) (a b : Z * Z) : bool :=
  if (0 <? a.2) && (0 <? b.2) && negb (a.2 =? b.2) then b.2 <? a.2
  else dist a.1 t <? dist b.1 t.

(** [wins(topic, claim)]: over this node's own claim. *)
Definition wins (G : mgr) (t : Z) (claim : Z * Z) : bool :=
  let mine := match live G t with Some (_, r) => if isRoot r then to_int32 (epoch r) else 0 | None => 0 end in
  claimWins t claim (nodeId (mcf G), mine).

Definition hasCustody (E : env) (G : mgr) (r : role) : bool :=
  negb (Nat.eqb (length (cache r)) 0) || negb (Nat.eqb (length (activeDels (mcf G) (now E) r)) 0).

(** * The transition function *)

Definition retireBackup (G : mgr) (t : Z) (ref : nat) : mgr :=
  match role_at G ref with
  | None => G
  | Some r =>
      if bool_decide (backupOf r = None) && negb (bool_decide (t ∈ backupTopics G)) then G
      else put_backupTopics (backupTopics G ∖ {[t]}) (upd G ref (with_backupOf None))
  end.

(** The principal's readers, replicated to a backup, are seated on promotion. *)
Definition seat_inherited (E : env) (ref : nat) (G : mgr) (p : string * isub) : mgr :=
  match role_at G ref with
  | None => G
  | Some r =>
      if jhas (subscribers r) p.1 then G
      else
        let G := upd G ref (λ r, with_subscribers (jset (subscribers r) p.1 (mk_sub (is_since p.2) (now E))) r) in
        let G := if is_child p.2 then upd G ref (λ r, with_children ({[p.1]} ∪ children r) r) else G in
        emit G (ReplayTo ref p.1 (is_since p.2))
  end.

Definition inherit (E : env) (G : mgr) (ref : nat) : mgr :=
  let G :=
    match role_at G ref ≫= inheritedSubs with
    | Some (p :: ps) =>
        if replicateSubs (mcf G)
        then upd (foldl (seat_inherited E ref) G (p :: ps)) ref (with_inheritedSubs None) else G
    | _ => G
    end in
  let G := if replicateSubs (mcf G) then upd G ref (λ r,
             if inheritedMetricsOn r =? 0 then r
             else with_inheritedMetricsOn 0
                    (if (now E <? inheritedMetricsOn r) && (metricsOn r <? inheritedMetricsOn r)
                     then with_metricsOn (inheritedMetricsOn r) r else r)) else G in
  upd G ref (λ r,
    if inheritedStandingUntil r =? 0 then r
    else with_inheritedStandingUntil 0
           (if (now E <? inheritedStandingUntil r) && (standingUntil r <? inheritedStandingUntil r)
            then with_standingUntil (inheritedStandingUntil r) r else r)).

Definition token_ok (r : role) (tok : option string) : bool :=
  match merge r ≫= releaseToken with
  | Some k => negb (bool_decide (k = "")) && bool_decide (tok = Some k)
  | None => false
  end.

(** [_set(role, isRoot, why, ctx)]: [tok] is [ctx.releaseToken]; the answer is [committed]. *)
Definition set_ (E : env) (G : mgr) (ref : nat) (b : bool) (why : string) (tok : option string) : mgr * bool :=
  match role_at G ref with
  | None => (G, true)
  | Some r =>
      if Bool.eqb (isRoot r) b then (G, true)
      else
        let guarded := negb b && mergeCapable (mcf G) && hasCustody E G r in
        if guarded && negb (token_ok r tok) then
          (upd G ref (upd_merge (with_nextCandidate (Some (why, now E)))), false)
        else
          let G := if guarded then upd G ref (map_merge (with_releaseToken None)) else G in
          let t := topicId r in
          let G := if b then upd G ref (with_epoch (knownEpoch E G t + 1)) else G in
          let G := if b then put_stepDownHold (jdel (stepDownHold G) t) G else G in
          let G := if b && negb (bool_decide (backupOf r = None)) then retireBackup G t ref else G in
          let G := upd G ref (with_isRoot b) in
          (if b then inherit E G ref else G, true)
  end.

(** * Backup nature *)

Definition becomeBackup (E : env) (G : mgr) (t : Z) (ref : nat) (principal : string)
    (g : option (string * option Z)) (issuedAt : option Z) : mgr :=
  let G := upd G ref (λ r,
    let r := with_lastReplicaAt (now E) (with_backupOf (Some principal) r) in
    let r := match g with Some (root, e) => with_standbyGen (Some (lc root, default 0 e)) r | None => r end in
    match issuedAt with Some _ => with_standbyIssuedAt issuedAt r | None => r end) in
  put_backupTopics ({[t]} ∪ backupTopics G) G.

(** * Admission *)

Inductive refusal := RBridge | RNotSeated | RSaturated | RPaced.
Definition refusal_name (w : refusal) : string :=
  match w with RBridge => "bridge" | RNotSeated => "not-seated" | RSaturated => "saturated" | RPaced => "paced" end.

Definition seated (E : env) (G : mgr) : bool :=
  negb (now E - joinedAt (mcf G) <? roleGraceMs (mcf G)) && negb (meshBare E).

(** [canAcceptRole]: the admission counters after it, and the refusal if any. *)
Definition canAcceptRole (E : env) (G : mgr) : mgr * option refusal :=
  if neverRoot (mcf G) then (G, Some RBridge)
  else if negb (seated E G) then (G, Some RNotSeated)
  else if saturated E then (G, Some RSaturated)
  else
    let a := adm G in
    let a := if refreshIntervalMs (mcf G) <=? now E - ad_tickAt a then mk_admission (now E) 0 (ad_refusals a) else a in
    (put_adm a G, if roleAdmitPerTick (mcf G) <=? ad_count a then Some RPaced else None).

Definition bump (w : string) (a : admission) : admission :=
  mk_admission (ad_tickAt a) (ad_count a) (jset (ad_refusals a) w (default 0 (jget (ad_refusals a) w) + 1)).
Definition count_one (a : admission) : admission := mk_admission (ad_tickAt a) (ad_count a + 1) (ad_refusals a).

Definition admitRole (E : env) (G : mgr) (hasAlternative : bool) : mgr * bool :=
  let '(G, v) := canAcceptRole E G in
  match v with
  | None => (put_adm (count_one (adm G)) G, true)
  | Some w =>
      let G := put_adm (bump (refusal_name w) (adm G)) G in
      match w with
      | RBridge => (G, false)
      | _ => if hasAlternative then (G, false)
             else (put_adm (count_one (bump "floored" (adm G))) G, true)
      end
  end.

(** * Claims *)

Definition become (E : env) (G : mgr) (t : Z) : mgr * option nat :=
  let '(G, ok) := admitRole E G false in
  if negb ok then (G, None)
  else
    let r := with_lastVerify 0 (with_formedAt (now E)
               (with_epoch (knownEpoch E G t + 1) (makeRole t true (now E)))) in
    let ref := length (heap G) in
    (emit (emit (alloc G t r) (Announce t)) (ScheduleProbe t), Some ref).

Definition holdFor (E : env) (G : mgr) (t : Z) : mgr * option hold :=
  match jget (stepDownHold G) t with
  | None => (G, None)
  | Some h =>
      if (stepDownHoldMs (mcf G) <=? 0) || (stepDownHoldMs (mcf G) <=? now E - h_at h) then
        let G := put_stepDownHold (jdel (stepDownHold G) t) G in
        (match live G t with
         | Some (ref, r) =>
             match accepted_of r with
             | Some a => if decide (aw_id a = h_to h) then upd G ref (map_merge (with_acceptedWinner None)) else G
             | None => G
             end
         | None => G
         end, None)
      else (G, Some h)
  end.

Definition holdBlocks (E : env) (G : mgr) (t : Z) : mgr * bool :=
  match holdFor E G t with
  | (G, None) => (G, false)
  | (G, Some h) =>
      (if 60000 <=? now E - h_lastLog h
       then put_stepDownHold (jset (stepDownHold G) t (mk_hold (h_to h) (h_at h) (now E))) G else G, true)
  end.

Definition holdTarget (E : env) (G : mgr) (t : Z) (requireReachable : bool) : mgr * option string :=
  match holdFor E G t with
  | (G, None) => (G, None)
  | (G, Some h) =>
      if match live G t ≫= λ p, accepted_of p.2 with
         | Some a => bool_decide (aw_id a = h_to h) && (now E <? aw_exp a)
         | None => false
         end
      then (G, Some (h_to h))
      else if isReachableId E (h_to h) then (G, Some (h_to h))
      else
        let '(G, c) := liveCloserRoot E G t requireReachable in
        (G, match c with
            | Some c => if decide (c ≠ "" ∧ lc c = h_to h) then Some (h_to h) else None
            | None => None
            end)
  end.

(** [promote(role, payload, meta)]: [viaEmpty] reads the payload, [terminal] is [meta.isTerminal]. *)
Definition promote (E : env) (G : mgr) (ref : nat) (viaEmpty terminal : bool) : mgr :=
  match role_at G ref with
  | None => G
  | Some r =>
      let t := topicId r in
      if negb (viaEmpty && terminal && negb (isRoot r)) then G
      else if negb (servingCapable E) then G
      else
        let '(G, closer) := liveCloserRoot E G t true in
        match closer with
        | Some _ => G
        | None =>
            let '(G, held) := holdBlocks E G t in
            if held then G
            else
              let G := (set_ E G ref true "terminal-promote" None).1 in
              let G := put_upstream (jdel (upstream G) t) G in
              let G := emit G (Announce t) in
              let w := default 0 (jget (metricsWanted G) t) in
              upd G ref (λ r,
                let r := with_lastVerify 0 (with_formedAt (now E) r) in
                if (now E <? w) && (metricsOn r <? w) then with_metricsOn w r else r)
        end
  end.

Definition demote (E : env) (G : mgr) (t : Z) (toHex why : string) (tok : option string) (holdAlways : bool)
    : mgr * bool :=
  match live G t with
  | None => (G, false)
  | Some (ref, r) =>
      if negb (isRoot r) then (G, false)
      else match idBigS toHex with
      | None => (G, false)
      | Some to =>
          if to =? nodeId (mcf G) then (G, false)
          else
            let '(G, committed) := set_ E G ref false why tok in
            if negb committed then (G, false)
            else
              let G := put_upstream (jset (upstream G) t [lc toHex]) G in
              let G := if holdAlways || (dist to t <? dist (nodeId (mcf G)) t)
                       then put_stepDownHold (jset (stepDownHold G) t (mk_hold (lc toHex) (now E) 0)) G else G in
              (emit G (SendSubscribe t), true)
      end
  end.

Definition claimReachable (E : env) (G : mgr) (t : Z) : mgr * option nat :=
  let '(G, held) := holdBlocks E G t in
  if held then (G, None)
  else
    let '(G, ref) := match live G t with Some (ref, _) => (G, Some ref) | None => become E G t end in
    match ref with
    | None => (G, None)
    | Some ref =>
        let G := (set_ E G ref true "reachable-fallback" None).1 in
        let G := put_upstream (jdel (upstream G) t) G in
        let G := put_rootHint (rootHint G ∖ {[t]}) G in
        (put_unattachedSince (unattachedSince G ∖ {[t]}) G, Some ref)
    end.

Definition adoptChild (E : env) (G : mgr) (t : Z) (parentHex : string) : mgr * option nat :=
  let '(G, ref) := match live G t with
                   | Some (ref, _) => (G, ref)
                   | None => (alloc G t (makeRole t false (now E)), length (heap G))
                   end in
  let '(G, committed) := set_ E G ref false "adopted-child" None in
  if negb committed then (G, None)
  else (put_upstream (jset (upstream G) t [lc parentHex]) G, Some ref).

(** [_mergeCloseCorr]: a closed round stays closed; 64 are remembered. *)
Definition closeCorr (corr : string) (r : role) : role :=
  let r := with_openMerges (jdel (openMerges r) corr) r in
  map_merge (λ m,
    let c := if bool_decide (corr ∈ closedCorrs m) then closedCorrs m else closedCorrs m ++ [corr] in
    with_closedCorrs (drop (length c - 64) c) m) r.

(** The loop over the open rounds: a standing offer to the same winner ends it
    ([true]), an older incarnation's offer is closed on the way. *)
Fixpoint supersede (c : cand) (ms : jmap string mrec) (r : role) : role * bool :=
  match ms with
  | [] => (r, false)
  | (corr, m) :: ms =>
      if decide (m_winner m = c_id c) then
        if to_int32 (epoch r) <=? m_loserEpoch m then (r, true) else supersede c ms (closeCorr corr r)
      else supersede c ms r
  end.

(** The timing of a round (constants.js). *)
Definition HANDOFF_ACK_MAX_MS : Z := 5000.
Definition FUTURE_TOLERANCE_MS : Z := 5 * 60 * 1000.
Definition REPLAY_CHUNK_BYTES : Z := 96 * 1024.
Definition CACHE_MAX : Z := 1024.
Definition CACHE_BYTES : Z := 16 * 1024 * 1024.
Definition MERGE_TOMB_PROOF_MAX_BYTES : Z := 512.
Definition EXPORT_BYTES_MAX : Z :=
  CACHE_BYTES + CACHE_MAX * MERGE_TOMB_PROOF_MAX_BYTES + CACHE_MAX * 2 * 80 + 1024 + REPLAY_CHUNK_BYTES.
(** [Math.ceil(EXPORT_BYTES_MAX / REPLAY_CHUNK_BYTES) + 1] *)
Definition MERGE_F_MAX : Z := (EXPORT_BYTES_MAX + REPLAY_CHUNK_BYTES - 1) / REPLAY_CHUNK_BYTES + 1.
Definition MERGE_S_MAX_MS : Z := 250.
Definition MERGE_TIMEOUT_MS : Z :=
  Z.max HANDOFF_ACK_MAX_MS (2 * ((2 + 2 * MERGE_F_MAX) * MERGE_S_MAX_MS + HANDOFF_ACK_MAX_MS)).
Definition MERGE_TIMING_VERSION : Z := 1.
Definition mergeTiming : timing := mk_timing MERGE_TIMING_VERSION MERGE_TIMEOUT_MS FUTURE_TOLERANCE_MS.

(** The record of a round that was just offered or opened. *)
Definition offered (winner : string) (winnerEpoch loserEpoch at_ : Z) (tm : timing) : mrec :=
  mk_mrec winner winnerEpoch loserEpoch MOffered [] [] [] None at_ 0 0 0 tm None None false None false false.

(** [_mergeOffer]: the record of the open round and the frame; [corr] is two random nonces.
    With a node identity under cutover the code signs the frame before it sends it. *)
Definition mergeOffer (E : env) (corr : string) (G : mgr) (t : Z) : mgr :=
  match live G t with
  | None => G
  | Some (ref, r) =>
      match merge r ≫= candidate_ with
      | None => G
      | Some c =>
          if negb (mergeCapable (mcf G)) || negb (isRoot r) ||
             match gate_of r with Some _ => true | None => false end ||
             match merge r ≫= completing_ with Some _ => true | None => false end then G
          else
            let '(r', standing) := supersede c (openMerges r) r in
            let G := upd G ref (λ _, r') in
            if standing then G
            else
              emit (upd G ref (λ r, with_openMerges (jset (openMerges r) corr
                      (offered (c_id c) (to_int32 (c_epoch c)) (to_int32 (epoch r)) (now E) mergeTiming)) r))
                (MergeSend t (c_id c)
                  (FOffer corr (selfHex G) (to_int32 (epoch r)) (highWater r) (lowWater r) (Z.of_nat (length (cache r)))
                     mergeTiming (cutover (mcf G))))
      end
  end.

(** [_mergeCandidate]: the one entry every claim-shedding path takes. Each passes an id it has
    read by [idBig] before (a beacon's root, an offer's loser, a neighbour, the root of a flight
    that was opened to it), and the recorded candidate came the same way: the comparison's own
    [idBig] does not throw, and the two branches for an unreadable id are there for totality. *)
Definition mergeCandidate (E : env) (corr : string) (G : mgr) (t : Z) (winnerHex : string) (winnerEpoch : option Z)
    (source : string) : mgr * bool :=
  match live G t with
  | Some (ref, r) =>
      if mergeCapable (mcf G) && isRoot r && hasCustody E G r then
        let w := lc winnerHex in
        if decide (w = lc (selfHex G)) then (G, false)
        else match idBigS w with
        | None => (G, false)
        | Some wb =>
            let claim := (wb, default 0 winnerEpoch) in
            if negb (wins G t claim) then (G, false)
            else if match merge r ≫= candidate_ with
                    | Some prev => match idBigS (c_id prev) with
                                   | Some pb => negb (claimWins t claim (pb, c_epoch prev))
                                   | None => true
                                   end
                    | None => false
                    end
            then (upd G ref (upd_merge id), false)
            else
              let G := upd G ref (upd_merge (with_candidate_ (Some (mk_cand w claim.2 source (now E))))) in
              (mergeOffer E corr G t, false)
        end
      else demote E G t winnerHex source None false
  | None => demote E G t winnerHex source None false
  end.

Definition handoffArrived (E : env) (corr : string) (G : mgr) (t : Z) (leaver : string) : mgr :=
  let G := match jget (rootBeacons G) t with
           | Some b => if decide (leaver ≠ "" ∧ b_root b = leaver) then put_rootBeacons (jdel (rootBeacons G) t) G else G
           | None => G
           end in
  let '(G, closer) := liveCloserRoot E G t true in
  match closer with
  | Some c => if decide (c ≠ "" ∧ c ≠ leaver) then (mergeCandidate E corr G t c None "handoff-better-heir").1 else G
  | None => G
  end.

(** * Root beacons ([_onRootBeacon]) *)

(** [rb_epochs]: what the frame carries at each index; [None] where it is no
    non-negative integer, or where the frame has no [epochs]. *)
Record rootbeacon := mk_rootbeacon {
  rb_root : string; rb_topics : list (string * option Z); rb_id : string; rb_layer : Z
}.

(** Evidence from the accepted winner extends its record and the hold. *)
Definition refresh_accepted (E : env) (G : mgr) (t : Z) (rootHex : string) (e : Z) : mgr :=
  match live G t with
  | Some (ref, r) =>
      match accepted_of r with
      | Some a =>
          if decide (aw_id a = rootHex) then
            if aw_epoch a <=? e then
              let G := upd G ref (map_merge (with_acceptedWinner
                         (Some (mk_accepted (aw_id a) e (now E) (now E + to_int32 (stepDownHoldMs (mcf G))))))) in
              match jget (stepDownHold G) t with
              | Some h => if decide (h_to h = aw_id a)
                          then put_stepDownHold (jset (stepDownHold G) t (mk_hold (h_to h) (now E) (h_lastLog h))) G else G
              | None => G
              end
            else G
          else G
      | None => G
      end
  | None => G
  end.

Definition reattach (E : env) (G : mgr) (t : Z) (rootHex : string) (e prevEpoch : Z) : mgr :=
  match jget (mySubscriptions G) t with
  | Some s =>
      if subTerminalVerify (mcf G) && negb (match live G t with Some (_, r) => isRoot r | None => false end) &&
         negb (bool_decide (rootHex = lc (selfHex G))) &&
         negb (bool_decide (Some rootHex = (jget (upstream G) t ≫= head))) && (prevEpoch <? e)
      then
        let G := put_upstream (jdel (upstream G) t) G in
        let G := put_mySubscriptions (jset (mySubscriptions G) t (mk_mysub (ms_since s) (renewFastMs (mcf G)))) G in
        emit G (SendSubscribe t)
      else G
  | None => G
  end.

Definition beacon_epoch (raw : option Z) : Z :=
  match raw with Some e => if 0 <=? e then Z.min e MAX_SAFE_INTEGER else 0 | None => 0 end.

(** The epoch of this node's own root claim, 0 without one. *)
Definition myEpoch (G : mgr) (t : Z) : Z :=
  match live G t with Some (_, r) => if isRoot r then epoch r else 0 | None => 0 end.

Definition beacon_topic (E : env) (nonce : Z → string) (rootHex : string) (rootBig : Z) (G : mgr)
    (p : string * option Z) : mgr :=
  if negb (ids_isHexId (lc p.1)) then G
  else match idBigS p.1 with
  | None => G
  | Some t =>
      let e := beacon_epoch p.2 in
      let supersedes := (0 <? myEpoch G t) && (myEpoch G t <? e) in
      let G := refresh_accepted E G t rootHex e in
      if negb supersedes && (dist (bestKnownClosest E G t) t <? dist rootBig t) then G
      else
        let prevEpoch := default 0 (jget (rootBeacons G) t ≫= b_epoch) in
        let G := put_rootBeacons (jset (rootBeacons G) t
                   (mk_beacon rootHex (now E) (now E + BEACON_TTL_MS) (Some (Z.max e prevEpoch)) false)) G in
        let '(G, stale) := rootTombstoned E G t rootHex (Some e) in
        let closer := dist rootBig t <? dist (nodeId (mcf G)) t in
        let G := if supersedes || (closer && negb stale)
                 then (mergeCandidate E (nonce t) G t rootHex (Some e)
                         (if supersedes && negb closer then "epoch-superseded" else "beacon-closer")).1
                 else G in
        reattach E G t rootHex e prevEpoch
  end.

Definition onRootBeacon (E : env) (nonce : Z → string) (G : mgr) (b : rootbeacon) : mgr :=
  if bool_decide (rb_id b = "") || jhas (beaconSeen G) (rb_id b) then G
  else
    let G := put_beaconSeen (jset (beaconSeen G) (rb_id b) (now E + BEACON_SEEN_MS)) G in
    if negb (ids_isHexId (lc (rb_root b))) then G
    else match idBigS (rb_root b) with
    | None => G
    | Some rootBig =>
        let G := foldl (beacon_topic E nonce (lc (rb_root b)) rootBig) G (take 256 (rb_topics b)) in
        if (1 <? rb_layer b) && match neighbors E with Some _ => true | None => false end
        then emit G (BeaconForward (rb_root b) (rb_layer b - 1)) else G
    end.

(** * The election relation *)

Lemma dist_inj a b t : dist a t = dist b t → a = b.
Proof.
  unfold dist. intros H. rewrite <-(Z.lxor_0_r a), <-(Z.lxor_0_r b), <-(Z.lxor_nilpotent t).
  by rewrite <-!Z.lxor_assoc, H.
Qed.

(** The election relation: between two claims of different nodes exactly one
    wins, whichever side evaluates it, and no claim wins over itself; among
    versioned claims the relation is transitive, so any set of them has one
    winner; with an unversioned claim in it a triple can be cyclic. *)
Theorem claim_order t :
  (∀ a b, a.1 ≠ b.1 → claimWins t a b = negb (claimWins t b a)) ∧
  (∀ a, claimWins t a a = false) ∧
  (∀ a b c, 0 < a.2 → 0 < b.2 → 0 < c.2 → claimWins t a b = true → claimWins t b c = true → claimWins t a c = true) ∧
  (∃ a b c, claimWins t a b = true ∧ claimWins t b c = true ∧ claimWins t c a = true).
Proof.
  split_and!.
  - intros [a ea] [b eb]. simpl. intros Hne. unfold claimWins. cbn [fst snd].
    assert (dist a t ≠ dist b t) as Hd by (by intros ?%dist_inj).
    destruct (0 <? ea) eqn:E1, (0 <? eb) eqn:E2, (ea =? eb) eqn:E3, (eb =? ea) eqn:E4; cbn [andb negb]; zb; try lia;
      apply eq_true_iff_eq; rewrite negb_true_iff, Z.ltb_lt, Z.ltb_ge; lia.
  - intros [a ea]. unfold claimWins. cbn [fst snd]. rewrite Z.eqb_refl, andb_false_r. apply Z.ltb_irrefl.
  - intros [a ea] [b eb] [c ec]. cbn [fst snd]. intros Ha Hb Hc. unfold claimWins. cbn [fst snd].
    replace (0 <? ea) with true by (symmetry; by apply Z.ltb_lt).
    replace (0 <? eb) with true by (symmetry; by apply Z.ltb_lt).
    replace (0 <? ec) with true by (symmetry; by apply Z.ltb_lt). cbn [andb].
    destruct (ea =? eb) eqn:E1, (eb =? ec) eqn:E2, (ea =? ec) eqn:E3; cbn [negb]; rewrite !Z.ltb_lt; zb; lia.
  - exists (Z.lxor 3 t, 5), (Z.lxor 1 t, 4), (Z.lxor 2 t, 0). unfold claimWins, dist. cbn [fst snd].
    rewrite !Z.lxor_assoc, !Z.lxor_nilpotent, !Z.lxor_0_r. done.
Qed.

(** * Frames *)

(** What a root with custody keeps through an operation that may not shed it. *)
Record keeps_root (ref : nat) (G G' : mgr) : Prop := {
  kr_cf : mcf G' = mcf G;
  kr_role : ∀ r, role_at G ref = Some r → isRoot r = true → merge r ≫= releaseToken = None →
    ∃ r', role_at G' ref = Some r' ∧ isRoot r' = true ∧ epoch r' = epoch r ∧ cache r' = cache r ∧
      tombstones r' = tombstones r ∧ merge r' ≫= releaseToken = None ∧
      ∀ t, jget (axonRoles G) t = Some ref → jget (axonRoles G') t = Some ref
}.

#[export] Instance keeps_root_preorder ref : PreOrder (keeps_root ref).
Proof.
  split.
  - intros G. split; [done|]. intros r ? ? ?. by exists r.
  - intros G1 G2 G3 [A1 A2] [B1 B2]. split; [congruence|]. intros r Hr Hi Ht.
    destruct (A2 r Hr Hi Ht) as (r2 & H2 & I2 & E2 & C2 & T2 & K2 & L2).
    destruct (B2 r2 H2 I2 K2) as (r3 & H3 & I3 & E3 & C3 & T3 & K3 & L3).
    exists r3. split_and!; try congruence. auto.
Qed.

Lemma keeps_heap ref G G' :
  mcf G' = mcf G → heap G' = heap G → axonRoles G' = axonRoles G → keeps_root ref G G'.
Proof. intros Ec Eh Ea. split; [done|]. intros r Hr ? ?. exists r. unfold role_at in *. by rewrite Eh, Ea. Qed.

(** A change of a role that a root keeps. *)
Definition root_safe (f : role → role) : Prop := ∀ r,
  isRoot r = true → merge r ≫= releaseToken = None →
  isRoot (f r) = true ∧ epoch (f r) = epoch r ∧ cache (f r) = cache r ∧ tombstones (f r) = tombstones r ∧
  merge (f r) ≫= releaseToken = None.

Lemma keeps_upd ref ref' G f : root_safe f → keeps_root ref G (upd G ref' f).
Proof.
  intros Hf. split; [done|]. intros r Hr Hi Ht. rewrite role_at_upd. case_decide; [|by exists r].
  rewrite Hr. simpl. exists (f r). destruct (Hf r Hi Ht) as (?&?&?&?&?). by split_and!.
Qed.

Lemma keeps_alloc ref G t r : live G t = None → keeps_root ref G (alloc G t r).
Proof.
  intros Hl. split; [done|]. intros r' Hr ? ?. exists r'. split_and!; try done; [by apply role_at_alloc|].
  intros t' Ht. unfold alloc. simpl. destruct (decide (t = t')) as [->|Hne]; [|by rewrite jget_jset_ne].
  assert (live G t' = Some (ref, r')) as Hl' by (by apply live_Some). congruence.
Qed.

Lemma root_safe_comp f g : root_safe f → root_safe g → root_safe (λ r, f (g r)).
Proof.
  intros Hf Hg r Hi Ht. destruct (Hg r Hi Ht) as (H1 & H2 & H3 & H4 & H5).
  destruct (Hf (g r) H1 H5) as (?&?&?&?&?). split_and!; congruence.
Qed.

Lemma root_safe_if (b : role → bool) f g : root_safe f → root_safe g → root_safe (λ r, if b r then f r else g r).
Proof. intros Hf Hg r Hi Ht. destruct (b r); auto. Qed.

Lemma root_safe_map_merge f :
  (∀ m, releaseToken m = None → releaseToken (f m) = None) → root_safe (map_merge f).
Proof. intros Hf r Hi Ht. unfold map_merge. simpl. split_and!; try done. destruct (merge r); simpl in *; auto. Qed.

Lemma root_safe_upd_merge f :
  (∀ m, releaseToken m = None → releaseToken (f m) = None) → root_safe (upd_merge f).
Proof.
  intros Hf r Hi Ht. unfold upd_merge, mstate_of. simpl. split_and!; try done.
  destruct (merge r); simpl in *; auto.
Qed.

Ltac keep := first
  [ reflexivity
  | apply keeps_heap; reflexivity
  | apply keeps_upd; intros ? ? ?; done
  | apply keeps_upd, root_safe_map_merge; done
  | apply keeps_upd, root_safe_upd_merge; done ].

Lemma keeps_tombstoned ref E G t h e : keeps_root ref G (rootTombstoned E G t h e).1.
Proof. unfold rootTombstoned. repeat (case_match; cbn [fst]); keep. Qed.

Lemma keeps_closer ref E G t b : keeps_root ref G (liveCloserRoot E G t b).1.
Proof.
  unfold liveCloserRoot. destruct (jget _ t) as [bc|]; [|keep]. destruct (_ <=? _); [keep|].
  destruct (decide _); [keep|]. destruct (idBigS _); [|keep]. destruct (_ <=? _); [keep|].
  pose proof (keeps_tombstoned ref E G t (b_root bc) (b_epoch bc)). by destruct (rootTombstoned _ _ _ _ _).
Qed.

Lemma keeps_hold ref E G t : keeps_root ref G (holdFor E G t).1.
Proof.
  unfold holdFor. destruct (jget _ t) as [h|]; [|keep]. destruct (_ || _); [|keep]. cbn [fst].
  set (G1 := put_stepDownHold _ G). assert (keeps_root ref G G1) as H1 by keep. etrans; [exact H1|].
  destruct (live G1 t) as [[ref' r]|]; [|keep]. destruct (accepted_of r); [|keep]. destruct (decide _); keep.
Qed.

Lemma keeps_blocks ref E G t : keeps_root ref G (holdBlocks E G t).1.
Proof.
  unfold holdBlocks. pose proof (keeps_hold ref E G t). destruct (holdFor E G t) as [G1 [h|]]; [|done].
  cbn [fst] in *. etrans; [done|]. destruct (_ <=? _); keep.
Qed.

(** A root that holds custody and no release token. *)
Definition guarded (E : env) (ref : nat) (G : mgr) : Prop :=
  mergeCapable (mcf G) = true ∧
  ∃ r, role_at G ref = Some r ∧ isRoot r = true ∧ merge r ≫= releaseToken = None ∧ hasCustody E G r = true.

Lemma custody_ext E G G' r r' :
  mcf G' = mcf G → cache r' = cache r → tombstones r' = tombstones r → hasCustody E G' r' = hasCustody E G r.
Proof. intros E1 E2 E3. unfold hasCustody, activeDels. by rewrite E1, E2, E3. Qed.

Lemma keeps_guarded E ref G G' : keeps_root ref G G' → guarded E ref G → guarded E ref G'.
Proof.
  intros [K1 K2] (Hm & r & Hr & Hi & Ht & Hc). split; [congruence|].
  destruct (K2 r Hr Hi Ht) as (r' & ? & ? & ? & ? & ? & ? & ?). exists r'. split_and!; try done.
  rewrite <-Hc. by apply custody_ext.
Qed.

(** Only the role at [ref] and the maps change. *)
Definition only_at (ref : nat) (G G' : mgr) : Prop :=
  mcf G' = mcf G ∧ axonRoles G' = axonRoles G ∧ ∀ ref', ref' ≠ ref → role_at G' ref' = role_at G ref'.

#[export] Instance only_at_preorder ref : PreOrder (only_at ref).
Proof.
  split; [by split|]. intros G1 G2 G3 (A1 & A2 & A3) (B1 & B2 & B3). split_and!; [congruence..|].
  intros ref' Hne. rewrite B3, A3 by done. done.
Qed.

Lemma only_upd ref G f : only_at ref G (upd G ref f).
Proof. do 2 (split; [done|]). intros ref' Hne. rewrite role_at_upd. by rewrite decide_False by done. Qed.

Lemma only_heap ref G G' : mcf G' = mcf G → axonRoles G' = axonRoles G → heap G' = heap G → only_at ref G G'.
Proof. intros Ec Ea Eh. do 2 (split; [done|]). intros. unfold role_at. by rewrite Eh. Qed.

Lemma only_retire ref G t : only_at ref G (retireBackup G t ref).
Proof.
  unfold retireBackup. destruct (role_at G ref); [|reflexivity]. destruct (_ && _); [reflexivity|].
  etrans; [apply only_upd|by apply only_heap].
Qed.

Lemma only_seat ref E G p : only_at ref G (seat_inherited E ref G p).
Proof.
  unfold seat_inherited. destruct (role_at G ref); [|reflexivity]. destruct (jhas _ _); [reflexivity|]. cbv zeta.
  etrans; [apply only_upd|]. destruct (is_child _); [etrans; [apply only_upd|]|]; by apply only_heap.
Qed.

Lemma only_inherit ref E G : only_at ref G (inherit E G ref).
Proof.
  unfold inherit. cbv zeta. etrans; [|apply only_upd].
  assert (∀ G, only_at ref G (if replicateSubs (mcf G) then upd G ref (λ r,
             if inheritedMetricsOn r =? 0 then r
             else with_inheritedMetricsOn 0
                    (if (now E <? inheritedMetricsOn r) && (metricsOn r <? inheritedMetricsOn r)
                     then with_metricsOn (inheritedMetricsOn r) r else r)) else G)) as Hm.
  { intros G0. destruct (replicateSubs _); [apply only_upd|reflexivity]. }
  etrans; [|apply Hm]. destruct (_ ≫= inheritedSubs) as [[|p ps]|]; try reflexivity.
  destruct (replicateSubs _); [|reflexivity]. etrans; [|apply only_upd].
  generalize (p :: ps). intros l. clear. revert G. induction l as [|q l IH]; intros G; [reflexivity|].
  cbn [foldl]. etrans; [apply only_seat|apply IH].
Qed.

Lemma only_set ref E G b why tok : only_at ref G (set_ E G ref b why tok).1.
Proof.
  unfold set_. destruct (role_at G ref) as [r|]; [|reflexivity]. destruct (Bool.eqb _ _); [reflexivity|]. cbv zeta.
  destruct (_ && negb _); [apply only_upd|]. cbn [fst].
  assert (∀ G, only_at ref G (if b then inherit E G ref else G)) as Hi
    by (intros G0; destruct b; [apply only_inherit|reflexivity]).
  etrans; [|apply Hi]. etrans; [|apply only_upd].
  match goal with |- context [if ?c then retireBackup ?X _ _ else _] =>
    assert (only_at ref X (if c then retireBackup X (topicId r) ref else X)) as Hr;
      [destruct c; [apply only_retire|reflexivity]|]; etrans; [|exact Hr] end.
  destruct b, (_ && hasCustody _ _ _); cbn [andb]; repeat first
    [ etrans; [|apply only_upd] | reflexivity
    | (etrans; [|by apply (only_heap ref (upd _ ref _))]) | by apply only_heap ].
Qed.

(** The transition function refuses to shed a guarded root, and leaves every
    other role alone. *)
Lemma keeps_set E ref G ref' b why tok :
  guarded E ref G → keeps_root ref G (set_ E G ref' b why tok).1 ∧
  (ref' = ref → b = false → (set_ E G ref' b why tok).2 = false).
Proof.
  intros (Hm & r & Hr & Hi & Ht & Hc). destruct (decide (ref' = ref)) as [->|Hne].
  - unfold set_. rewrite Hr. destruct (Bool.eqb (isRoot r) b) eqn:Eb.
    + apply Bool.eqb_prop in Eb. split; [keep|congruence].
    + destruct b; [by rewrite Hi in Eb|]. rewrite Hm, Hc. cbn [negb andb].
      assert (token_ok r tok = false) as -> by (unfold token_ok; by rewrite Ht). cbn [negb].
      split; [keep|done].
  - split; [|congruence]. destruct (only_set ref' E G b why tok) as (H1 & H2 & H3). split; [done|].
    intros r' Hr' ? ?. exists r'. rewrite H3, H2 by done. done.
Qed.

(** * Every operation of the plane *)

Inductive rop :=
| RBecome (t : Z)
| RPromote (ref : nat) (viaEmpty terminal : bool)
| RDemote (t : Z) (toHex why : string) (tok : option string) (holdAlways : bool)
| RHoldTarget (t : Z) (requireReachable : bool)
| RCloser (t : Z) (requireReachable : bool)
| RClaim (t : Z)
| RAdopt (t : Z) (parentHex : string)
| RBackup (t : Z) (ref : nat) (principal : string) (g : option (string * option Z)) (issuedAt : option Z)
| RRetire (t : Z) (ref : nat)
| RCandidate (t : Z) (winnerHex : string) (winnerEpoch : option Z) (source : string)
| RHandoff (t : Z) (leaver : string)
| RBeacon (b : rootbeacon).

Section steps.
Context (E : env) (nonce : Z → string).

(** One operation.  [become] is called where the topic has no role. *)
Definition rstep (G : mgr) (o : rop) : mgr :=
  match o with
  | RBecome t => match live G t with None => (become E G t).1 | Some _ => G end
  | RPromote ref v m => promote E G ref v m
  | RDemote t h w k a => (demote E G t h w k a).1
  | RHoldTarget t b => (holdTarget E G t b).1
  | RCloser t b => (liveCloserRoot E G t b).1
  | RClaim t => (claimReachable E G t).1
  | RAdopt t p => (adoptChild E G t p).1
  | RBackup t ref p g i => becomeBackup E G t ref p g i
  | RRetire t ref => retireBackup G t ref
  | RCandidate t h e s => (mergeCandidate E (nonce t) G t h e s).1
  | RHandoff t l => handoffArrived E (nonce t) G t l
  | RBeacon b => onRootBeacon E nonce G b
  end.

Lemma keeps_admit ref G b : keeps_root ref G (admitRole E G b).1.
Proof.
  unfold admitRole. assert (keeps_root ref G (canAcceptRole E G).1) as H.
  { unfold canAcceptRole. destruct (neverRoot _); [keep|]. destruct (negb _); [keep|].
    destruct (saturated E); keep. }
  destruct (canAcceptRole E G) as [G1 [w|]]; cbn [fst] in *; (etrans; [exact H|]); [|keep].
  destruct w; [keep|..]; destruct b; keep.
Qed.

Lemma keeps_become ref G t : live G t = None → keeps_root ref G (become E G t).1.
Proof.
  intros Hl. unfold become. pose proof (keeps_admit ref G false) as H.
  assert (live (admitRole E G false).1 t = live G t) as Hl'.
  { unfold admitRole, canAcceptRole. by repeat (case_match; simplify_eq/=). }
  destruct (admitRole E G false) as [G1 ok]. cbn [fst] in *. destruct ok; [|exact H]. cbn [negb fst].
  etrans; [exact H|]. etrans; [apply (keeps_alloc ref G1 t); by rewrite Hl'|keep].
Qed.

Lemma keeps_demote ref G t h w k a : guarded E ref G → keeps_root ref G (demote E G t h w k a).1.
Proof.
  intros Hg. unfold demote. destruct (live G t) as [[ref' r]|]; [|keep]. destruct (negb _); [keep|].
  destruct (idBigS h); [|keep]. destruct (_ =? _); [keep|].
  destruct (keeps_set E ref G ref' false w k Hg) as [H1 _].
  destruct (set_ E G ref' false w k) as [G1 ok]. cbn [fst] in *. destruct ok; [|exact H1]. cbn [negb fst].
  etrans; [exact H1|]. destruct (_ || _); keep.
Qed.

Lemma keeps_promote ref G ref' v m : guarded E ref G → keeps_root ref G (promote E G ref' v m).
Proof.
  intros Hg. unfold promote. destruct (role_at G ref') as [r|]; [|keep]. cbv zeta. destruct (negb _); [keep|].
  destruct (negb _); [keep|]. pose proof (keeps_closer ref E G (topicId r) true) as H1.
  destruct (liveCloserRoot E G (topicId r) true) as [G1 [c|]]; cbn [fst] in *; [exact H1|].
  pose proof (keeps_blocks ref E G1 (topicId r)) as H2. destruct (holdBlocks E G1 (topicId r)) as [G2 held].
  cbn [fst] in *. assert (keeps_root ref G G2) as H3 by (by etrans). destruct held; [exact H3|].
  pose proof (keeps_guarded E _ _ _ H3 Hg) as Hg2. destruct (keeps_set E ref G2 ref' true "terminal-promote" None Hg2) as [H4 _].
  etrans; [exact H3|]. etrans; [exact H4|].
  set (G3 := (set_ E G2 ref' true _ _).1). etrans; [|apply keeps_upd].
  - keep.
  - intros r0 ? ?. destruct (_ && _); done.
Qed.

Lemma keeps_claim ref G t : guarded E ref G → keeps_root ref G (claimReachable E G t).1.
Proof.
  intros Hg. unfold claimReachable. pose proof (keeps_blocks ref E G t) as H1.
  destruct (holdBlocks E G t) as [G1 held]. cbn [fst] in *. destruct held; [exact H1|].
  assert (keeps_root ref G1 (match live G1 t with Some (ref, _) => (G1, Some ref) | None => become E G1 t end).1) as H2.
  { destruct (live G1 t) as [[]|] eqn:El; [keep|by apply keeps_become]. }
  destruct (match live G1 t with Some _ => _ | None => _ end) as [G2 [ref'|]]; cbn [fst] in *; [|by etrans].
  assert (keeps_root ref G G2) as H3 by (by etrans).
  destruct (keeps_set E ref G2 ref' true "reachable-fallback" None (keeps_guarded E _ _ _ H3 Hg)) as [H4 _].
  etrans; [exact H3|]. etrans; [exact H4|]. keep.
Qed.

Lemma keeps_adopt ref G t p : guarded E ref G → keeps_root ref G (adoptChild E G t p).1.
Proof.
  intros Hg. unfold adoptChild.
  assert (keeps_root ref G (match live G t with Some (ref, _) => (G, ref)
    | None => (alloc G t (makeRole t false (now E)), length (heap G)) end).1) as H1.
  { destruct (live G t) as [[]|] eqn:El; [keep|by apply keeps_alloc]. }
  destruct (match live G t with Some _ => _ | None => _ end) as [G1 ref']. cbn [fst] in *.
  destruct (keeps_set E ref G1 ref' false "adopted-child" None (keeps_guarded E _ _ _ H1 Hg)) as [H2 _].
  destruct (set_ E G1 ref' false _ _) as [G2 ok]. cbn [fst] in *. destruct ok; cbn [negb fst]; [|by etrans].
  etrans; [exact H1|]. etrans; [exact H2|]. keep.
Qed.

Lemma closeCorr_safe corr : root_safe (closeCorr corr).
Proof.
  intros r Hi Ht. unfold closeCorr. cbv zeta.
  destruct (root_safe_map_merge (λ m, let c := if bool_decide (corr ∈ closedCorrs m) then closedCorrs m
    else closedCorrs m ++ [corr] in with_closedCorrs (drop (length c - 64) c) m) ltac:(done)
    (with_openMerges (jdel (openMerges r) corr) r) Hi Ht) as (?&?&?&?&?). by split_and!.
Qed.

Lemma supersede_safe c ms : root_safe (λ r, (supersede c ms r).1).
Proof.
  induction ms as [|[corr m] ms IH]; intros r Hi Ht; [done|]. cbn [supersede].
  destruct (decide _); [|by apply IH]. destruct (_ <=? _); [done|].
  destruct (closeCorr_safe corr r Hi Ht) as (A1&A2&A3&A4&A5).
  destruct (IH (closeCorr corr r) A1 A5) as (?&?&?&?&?). split_and!; congruence.
Qed.

Lemma keeps_const ref G ref' r r' :
  role_at G ref' = Some r → (isRoot r = true → merge r ≫= releaseToken = None →
    isRoot r' = true ∧ epoch r' = epoch r ∧ cache r' = cache r ∧ tombstones r' = tombstones r ∧
    merge r' ≫= releaseToken = None) → keeps_root ref G (upd G ref' (λ _, r')).
Proof.
  intros Hr Hs. split; [done|]. intros r0 Hr0 Hi Ht. rewrite role_at_upd. case_decide; [|by exists r0].
  subst. rewrite Hr0. simpl. simplify_eq. exists r'. destruct (Hs Hi Ht) as (?&?&?&?&?). by split_and!.
Qed.

Lemma keeps_offer ref corr G t : keeps_root ref G (mergeOffer E corr G t).
Proof.
  unfold mergeOffer. destruct (live G t) as [[ref' r]|] eqn:El; [|keep]. apply live_Some in El as [_ Hr].
  destruct (merge r ≫= candidate_) as [c|]; [|keep]. destruct (_ || _); [keep|].
  pose proof (supersede_safe c (openMerges r) r) as Hs. cbv beta in Hs.
  destruct (supersede c (openMerges r) r) as [r' standing]. cbn [fst] in Hs. cbv zeta.
  assert (keeps_root ref G (upd G ref' (λ _, r'))) as H1 by (by eapply keeps_const).
  destruct standing; [exact H1|]. etrans; [exact H1|]. etrans; [apply keeps_upd|by apply keeps_heap]. by intros ? ?.
Qed.

Lemma keeps_candidate ref corr G t h e s : guarded E ref G → keeps_root ref G (mergeCandidate E corr G t h e s).1.
Proof.
  intros Hg. unfold mergeCandidate. destruct (live G t) as [[ref' r]|]; [|by apply keeps_demote].
  destruct (_ && hasCustody _ _ _); [|by apply keeps_demote]. destruct (decide _); [keep|].
  destruct (idBigS _); [|keep]. destruct (negb _); [keep|].
  destruct (match merge r ≫= candidate_ with Some _ => _ | None => _ end); [keep|]. cbn [fst].
  etrans; [|apply keeps_offer]. keep.
Qed.

Lemma keeps_handoff ref corr G t l : guarded E ref G → keeps_root ref G (handoffArrived E corr G t l).
Proof.
  intros Hg. unfold handoffArrived. set (G1 := match jget (rootBeacons G) t with Some _ => _ | None => _ end).
  assert (keeps_root ref G G1) as H1 by (subst G1; destruct (jget _ t); [destruct (decide _)|]; keep).
  pose proof (keeps_closer ref E G1 t true) as H2. destruct (liveCloserRoot E G1 t true) as [G2 [c|]]; cbn [fst] in *;
    [|by etrans]. assert (keeps_root ref G G2) as H3 by (by etrans). destruct (decide _); [|exact H3].
  etrans; [exact H3|]. apply keeps_candidate. by eapply keeps_guarded.
Qed.

Lemma keeps_refresh ref G t h e : keeps_root ref G (refresh_accepted E G t h e).
Proof.
  unfold refresh_accepted. destruct (live G t) as [[ref' r]|]; [|keep]. destruct (accepted_of r) as [a|]; [|keep].
  destruct (decide _); [|keep]. destruct (_ <=? _); [|keep]. cbv zeta.
  destruct (jget _ t); [destruct (decide _)|]; try keep.
  match goal with |- keeps_root _ _ (put_stepDownHold _ ?X) =>
    etrans; [|apply (keeps_heap ref X); reflexivity] end; keep.
Qed.

Lemma keeps_reattach ref G t h e p : keeps_root ref G (reattach E G t h e p).
Proof. unfold reattach. destruct (jget _ t); [|keep]. destruct (_ && _); keep. Qed.

Lemma keeps_topic ref h hb G p : guarded E ref G → keeps_root ref G (beacon_topic E nonce h hb G p).
Proof.
  intros Hg. unfold beacon_topic. destruct (negb _); [keep|]. destruct (idBigS _) as [t|]; [|keep]. cbv zeta.
  set (sup := _ && _). pose proof (keeps_refresh ref G t h (beacon_epoch p.2)) as H1.
  set (G1 := refresh_accepted _ _ _ _ _) in *. destruct (_ && _); [exact H1|].
  set (G2 := put_rootBeacons _ G1). assert (keeps_root ref G G2) as H2 by (etrans; [exact H1|keep]).
  pose proof (keeps_tombstoned ref E G2 t h (Some (beacon_epoch p.2))) as H3.
  destruct (rootTombstoned E G2 t h _) as [G3 stale]. cbn [fst] in *.
  assert (keeps_root ref G G3) as H4 by (by etrans).
  etrans; [|apply keeps_reattach]. destruct (_ || _); [|exact H4]. etrans; [exact H4|].
  apply keeps_candidate. by eapply keeps_guarded.
Qed.

Lemma keeps_beacon ref G b : guarded E ref G → keeps_root ref G (onRootBeacon E nonce G b).
Proof.
  intros Hg. unfold onRootBeacon. destruct (_ || _); [keep|]. set (G1 := put_beaconSeen _ G).
  assert (keeps_root ref G G1) as H1 by keep. cbv zeta. destruct (negb _); [exact H1|].
  destruct (idBigS _) as [hb|]; [|exact H1].
  assert (∀ l G, guarded E ref G → keeps_root ref G (foldl (beacon_topic E nonce (lc (rb_root b)) hb) G l)) as Hl.
  { clear. intros l. induction l as [|p l IH]; intros G Hg; [keep|]. cbn [foldl].
    pose proof (keeps_topic ref (lc (rb_root b)) hb G p Hg) as H. etrans; [exact H|].
    apply IH. by eapply keeps_guarded. }
  specialize (Hl (take 256 (rb_topics b)) G1 (keeps_guarded _ _ _ _ H1 Hg)).
  set (G2 := foldl _ _ _) in *. destruct (_ && _); [|by etrans]. etrans; [exact H1|]. etrans; [exact Hl|]. keep.
Qed.

Lemma rstep_keeps ref G o : guarded E ref G → keeps_root ref G (rstep G o).
Proof.
  intros Hg. destruct o; cbn [rstep].
  - destruct (live G t) eqn:El; [keep|by apply keeps_become].
  - by apply keeps_promote.
  - by apply keeps_demote.
  - unfold holdTarget. pose proof (keeps_hold ref E G t) as H. destruct (holdFor E G t) as [G1 [h|]]; [|exact H].
    cbn [fst] in *. destruct (match live G1 t ≫= _ with Some _ => _ | None => _ end); [exact H|].
    destruct (isReachableId _ _); [exact H|]. pose proof (keeps_closer ref E G1 t requireReachable) as H1.
    destruct (liveCloserRoot _ _ _ _) as [G2 c]. cbn [fst] in *. by etrans.
  - apply keeps_closer.
  - by apply keeps_claim.
  - by apply keeps_adopt.
  - unfold becomeBackup. etrans; [apply keeps_upd|by apply keeps_heap].
    intros r0 ? ?. destruct g as [[]|], issuedAt; done.
  - unfold retireBackup. destruct (role_at G ref0); [|keep]. destruct (_ && _); [keep|].
    etrans; [apply keeps_upd|by apply keeps_heap]. by intros r0 ? ?.
  - by apply keeps_candidate.
  - by apply keeps_handoff.
  - by apply keeps_beacon.
Qed.
End steps.

(** A run: each operation with the environment and the nonces it sees. *)
Definition rrun (G : mgr) (ops : list (env * (Z → string) * rop)) : mgr :=
  foldl (λ G x, rstep x.1.1 x.1.2 G x.2) G ops.

(** C1. Custody is never shed in passing: on a merge-capable node a root that
    holds a body or an active tombstone, and for which the merge machine has minted
    no release token, is still this topic's root, at the same epoch and with the
    same bodies and tombstones, after any sequence of promotions, demotions, root
    beacons, adoptions, handoffs, holds, claims and nominations. *)
Theorem custody_gate ops G t ref r :
  mergeCapable (mcf G) = true → live G t = Some (ref, r) → isRoot r = true → merge r ≫= releaseToken = None →
  (∀ x, x ∈ ops → hasCustody x.1.1 G r = true) →
  ∃ r', live (rrun G ops) t = Some (ref, r') ∧ isRoot r' = true ∧ epoch r' = epoch r ∧
        cache r' = cache r ∧ tombstones r' = tombstones r.
Proof.
  revert G r. induction ops as [|[[E nonce] o] ops IH]; intros G r Hm Hl Hi Ht Hc; [by exists r|].
  apply live_Some in Hl as [Ha Hr].
  assert (guarded E ref G) as Hg.
  { split; [done|]. exists r. split_and!; try done. apply (Hc (E, nonce, o)). left. }
  destruct (rstep_keeps E nonce ref G o Hg) as [K1 K2].
  destruct (K2 r Hr Hi Ht) as (r1 & Hr1 & I1 & E1 & C1 & T1 & M1 & L1).
  destruct (IH (rstep E nonce G o) r1) as (r' & Hl' & I' & E' & C' & T'); try done.
  - by rewrite K1.
  - apply live_Some. auto.
  - intros x Hx. rewrite <-(Hc x) by (by right). by apply custody_ext.
  - exists r'. split_and!; try done; congruence.
Qed.

(** * The transition function, in full *)

Lemma knownEpoch_nonneg E G t : 0 ≤ knownEpoch E G t.
Proof.
  unfold knownEpoch. cbv zeta. repeat case_match; zb; try lia.
Qed.

Lemma knownEpoch_ge E G t :
  (∀ ref r, live G t = Some (ref, r) → epoch r ≤ knownEpoch E G t) ∧
  (∀ b e, jget (rootBeacons G) t = Some b → b_epoch b = Some e → e ≤ knownEpoch E G t) ∧
  (∀ rt, jget (rootTombstones G) t = Some rt → rt_epoch rt ≤ knownEpoch E G t) ∧
  (∀ e until, jget (genHighWater G) t = Some (e, until) → mono E < until → e ≤ knownEpoch E G t).
Proof.
  unfold knownEpoch. cbv zeta.
  remember (match live G t with Some _ => _ | None => _ end) as e1 eqn:D1.
  remember (match _ ≫= b_epoch with Some _ => _ | None => _ end) as e2 eqn:D2.
  remember (match jget (rootTombstones G) t with Some _ => _ | None => _ end) as e3 eqn:D3.
  remember (match jget (genHighWater G) t with Some _ => _ | None => _ end) as e4 eqn:D4.
  assert (e1 ≤ e2) as H2 by (rewrite D2; destruct (jget (rootBeacons G) t ≫= b_epoch); lia).
  assert (e2 ≤ e3) as H3 by (rewrite D3; destruct (jget (rootTombstones G) t); lia).
  assert (e3 ≤ e4) as H4.
  { rewrite D4. destruct (jget (genHighWater G) t) as [[ge u]|]; [|lia].
    destruct (_ && _) eqn:Eb; [|lia]. apply andb_true_iff in Eb as [Eb _]. apply Z.ltb_lt in Eb. lia. }
  split_and!.
  - intros ref r Hl. rewrite Hl in D1. lia.
  - intros b e Hb He. rewrite Hb in D2. simpl in D2. rewrite He in D2. lia.
  - intros rt Hrt. rewrite Hrt in D3. lia.
  - intros e u Hg Hu. rewrite Hg in D4. destruct ((e3 <? e) && (mono E <? u)) eqn:Eb; [lia|].
    apply andb_false_iff in Eb as [Eb|Eb]; apply Z.ltb_ge in Eb; lia.
Qed.

(** What promotion's inheritance leaves alone. *)
Definition claim_same (r r' : role) : Prop :=
  isRoot r' = isRoot r ∧ epoch r' = epoch r ∧ cache r' = cache r ∧ tombstones r' = tombstones r ∧
  backupOf r' = backupOf r ∧ merge r' = merge r ∧ topicId r' = topicId r ∧ staging r' = staging r.
Definition claim_frame (ref : nat) (G G' : mgr) : Prop :=
  stepDownHold G' = stepDownHold G ∧
  ∀ r, role_at G ref = Some r → ∃ r', role_at G' ref = Some r' ∧ claim_same r r'.

#[export] Instance claim_frame_preorder ref : PreOrder (claim_frame ref).
Proof.
  split; [intros G; split; [done|]; intros r Hr; exists r; by split|].
  intros G1 G2 G3 [A1 A2] [B1 B2]. split; [congruence|]. intros r Hr.
  destruct (A2 r Hr) as (r2 & H2 & S2). destruct (B2 r2 H2) as (r3 & H3 & S3). exists r3. split; [done|].
  destruct S2 as (?&?&?&?&?&?&?&?), S3 as (?&?&?&?&?&?&?&?). split_and!; congruence.
Qed.

Lemma claim_frame_upd ref G f : (∀ r, claim_same r (f r)) → claim_frame ref G (upd G ref f).
Proof. intros Hf. split; [done|]. intros r Hr. rewrite role_at_upd_eq, Hr. simpl. eauto. Qed.

Lemma claim_frame_heap ref G G' : stepDownHold G' = stepDownHold G → heap G' = heap G → claim_frame ref G G'.
Proof. intros E1 E2. split; [done|]. intros r Hr. exists r. unfold role_at in *. rewrite E2. by split. Qed.

Lemma claim_frame_seat ref E G p : claim_frame ref G (seat_inherited E ref G p).
Proof.
  unfold seat_inherited. destruct (role_at G ref); [|reflexivity]. destruct (jhas _ _); [reflexivity|]. cbv zeta.
  match goal with |- claim_frame _ _ (emit ?X _) => etrans; [|apply (claim_frame_heap ref X); reflexivity] end.
  destruct (is_child _); [etrans; [|apply claim_frame_upd; done]|]; by apply claim_frame_upd.
Qed.

Lemma claim_frame_inherit ref E G : claim_frame ref G (inherit E G ref).
Proof.
  unfold inherit. cbv zeta. etrans; [|apply claim_frame_upd].
  2: { intros r. destruct (_ =? 0); [done|]. by destruct (_ && _). }
  match goal with |- claim_frame _ _ (if _ then upd ?X _ _ else _) => assert (claim_frame ref G X) as H end.
  { destruct (_ ≫= inheritedSubs) as [[|p ps]|]; try reflexivity. destruct (replicateSubs _); [|reflexivity].
    etrans; [|by apply claim_frame_upd]. generalize (p :: ps). intros l. clear. revert G.
    induction l as [|q l IH]; intros G; [reflexivity|]. cbn [foldl]. etrans; [apply claim_frame_seat|apply IH]. }
  etrans; [exact H|]. match goal with |- claim_frame _ _ (if ?c then _ else _) => destruct c end; [|reflexivity].
  apply claim_frame_upd. intros r.
  destruct (_ =? 0); [done|]. by destruct (_ && _).
Qed.

(** A change of root-ness is a transaction. Refused, it changes nothing but the
    note of what was refused, and it is refused exactly for a merge-capable root with
    custody without its release token. Committed, a promotion takes an incarnation
    above every epoch this node has evidence of, sheds the backup nature and the
    step-down hold; a demotion keeps the epoch and consumes the token; either way the
    store is untouched. *)
Theorem claim_transition E G ref r b why tok :
  role_at G ref = Some r → isRoot r ≠ b →
  let t := topicId r in
  let needs := negb b && mergeCapable (mcf G) && hasCustody E G r in
  let G' := (set_ E G ref b why tok).1 in
  ((set_ E G ref b why tok).2 = negb (needs && negb (token_ok r tok))) ∧
  ((set_ E G ref b why tok).2 = false → G' = upd G ref (upd_merge (with_nextCandidate (Some (why, now E))))) ∧
  ((set_ E G ref b why tok).2 = true → ∃ r', role_at G' ref = Some r' ∧ isRoot r' = b ∧
     cache r' = cache r ∧ tombstones r' = tombstones r ∧ staging r' = staging r ∧
     (b = true → epoch r' = knownEpoch E G t + 1 ∧ backupOf r' = None ∧ jget (stepDownHold G') t = None ∧
        (∀ rt, jget (rootTombstones G) t = Some rt → rt_epoch rt < epoch r') ∧
        (∀ bc e, jget (rootBeacons G) t = Some bc → b_epoch bc = Some e → e < epoch r')) ∧
     (b = false → epoch r' = epoch r ∧ (needs = true → merge r' ≫= releaseToken = None))).
Proof.
  intros Hr Hne t needs G'. subst G'. unfold set_. rewrite Hr.
  assert (Bool.eqb (isRoot r) b = false) as -> by (by apply Bool.eqb_false_iff). fold needs. fold t. cbv zeta.
  destruct (needs && negb (token_ok r tok)) eqn:En; cbn [fst snd]; [done|].
  split; [done|]. split; [done|]. intros _.
  set (G0 := if needs then _ else G). assert (∃ r0, role_at G0 ref = Some r0 ∧ isRoot r0 = isRoot r ∧ epoch r0 = epoch r ∧
    cache r0 = cache r ∧ tombstones r0 = tombstones r ∧ backupOf r0 = backupOf r ∧ topicId r0 = t ∧ staging r0 = staging r ∧
    (needs = true → merge r0 ≫= releaseToken = None) ∧ knownEpoch E G0 t = knownEpoch E G t)
    as (r0 & Hr0 & I0 & E0 & C0 & T0 & B0 & P0 & G0' & M0 & K0).
  { subst G0. destruct needs; [|exists r; by split_and!]. exists (map_merge (with_releaseToken None) r).
    rewrite role_at_upd_eq, Hr. split_and!; try done.
    - intros _. unfold map_merge. simpl. by destruct (merge r).
    - unfold knownEpoch. rewrite live_upd. destruct (live G t) as [[x y]|]; [|done]. simpl. by destruct (decide _). }
  clearbody G0. destruct b.
  - set (k := knownEpoch E G0 t + 1). assert (k = knownEpoch E G t + 1) as Hk by (subst k; by rewrite K0). clearbody k.
    set (G1 := put_stepDownHold _ _).
    assert (role_at G1 ref = Some (with_epoch k r0)) as Hr1.
    { subst G1. change (role_at (upd G0 ref (with_epoch k)) ref = Some (with_epoch k r0)).
      by rewrite role_at_upd_eq, Hr0. }
    assert (jget (stepDownHold G1) t = None) as Hh1 by (subst G1; simpl; apply jget_jdel_eq).
    clearbody G1. set (G2 := if _ : bool then retireBackup G1 t ref else G1).
    assert (∃ r2, role_at G2 ref = Some r2 ∧ epoch r2 = k ∧ cache r2 = cache r ∧ tombstones r2 = tombstones r ∧
      backupOf r2 = None ∧ staging r2 = staging r ∧ jget (stepDownHold G2) t = None) as (r2 & Hr2 & E2 & C2 & T2 & B2 & P2 & H2).
    { subst G2. destruct (backupOf r) as [p|] eqn:Eb.
      - rewrite bool_decide_eq_false_2 by done. cbn [negb andb]. unfold retireBackup. rewrite Hr1.
        change (backupOf (with_epoch k r0)) with (backupOf r0). rewrite B0.
        rewrite bool_decide_eq_false_2 by done. cbn [andb].
        exists (with_backupOf None (with_epoch k r0)).
        set (X := upd G1 ref (with_backupOf None)).
        assert (role_at X ref = Some (with_backupOf None (with_epoch k r0))) as HX
          by (subst X; by rewrite role_at_upd_eq, Hr1).
        assert (stepDownHold X = stepDownHold G1) as HhX by done. clearbody X.
        split_and!; try done. simpl. by rewrite HhX.
      - rewrite bool_decide_eq_true_2 by done. cbn [negb andb]. exists (with_epoch k r0). by split_and!. }
    clearbody G2. destruct (claim_frame_inherit ref E (upd G2 ref (with_isRoot true))) as [F1 F2].
    change (stepDownHold (upd G2 ref (with_isRoot true))) with (stepDownHold G2) in F1.
    set (G3 := inherit E (upd G2 ref (with_isRoot true)) ref) in *. clearbody G3.
    destruct (F2 (with_isRoot true r2)) as (r3 & Hr3 & S1 & S2 & S3 & S4 & S5 & S6 & S7 & S8); [by rewrite role_at_upd_eq, Hr2|].
    simpl in S1, S2, S3, S4, S5, S6, S7, S8. destruct (knownEpoch_ge E G t) as (_ & N2 & N3 & _).
    exists r3. split_and!; try congruence; try done. intros _. split_and!; try congruence.
    + intros rt Hrt. specialize (N3 rt Hrt). lia.
    + intros bc e Hb He. specialize (N2 bc e Hb He). lia.
  - cbn [andb]. rewrite role_at_upd_eq, Hr0. simpl. eexists. split; [done|]. simpl. split_and!; try done.
Qed.

(** * Root beacons *)

Lemma rootTombstoned_frame E G t h e :
  rootBeacons (rootTombstoned E G t h e).1 = rootBeacons G ∧ heap (rootTombstoned E G t h e).1 = heap G ∧
  axonRoles (rootTombstoned E G t h e).1 = axonRoles G ∧ mcf (rootTombstoned E G t h e).1 = mcf G.
Proof. unfold rootTombstoned. by repeat (case_match; cbn [fst]). Qed.

Lemma retire_beacons G t ref : rootBeacons (retireBackup G t ref) = rootBeacons G.
Proof. unfold retireBackup. by repeat case_match. Qed.

Lemma seat_beacons E ref G p : rootBeacons (seat_inherited E ref G p) = rootBeacons G.
Proof. unfold seat_inherited. by repeat (case_match; simpl). Qed.

Lemma inherit_beacons E G ref : rootBeacons (inherit E G ref) = rootBeacons G.
Proof.
  unfold inherit. cbv zeta.
  assert (∀ l G, rootBeacons (foldl (seat_inherited E ref) G l) = rootBeacons G) as Hl.
  { clear. intros l. induction l as [|p l IH]; intros G; [done|]. cbn [foldl]. by rewrite IH, seat_beacons. }
  match goal with |- context [upd (if ?c then upd ?X _ _ else ?X) _ _] =>
    assert (rootBeacons X = rootBeacons G) as H end.
  { destruct (_ ≫= inheritedSubs) as [[|p ps]|]; try done. destruct (replicateSubs _); [|done].
    rewrite <-(Hl (p :: ps) G). done. }
  match goal with |- context [upd (if ?c then _ else _) _ _] => destruct c end; exact H.
Qed.

Lemma set_beacons E G ref b why tok : rootBeacons (set_ E G ref b why tok).1 = rootBeacons G.
Proof.
  unfold set_. destruct (role_at G ref) as [r|]; [|done]. destruct (Bool.eqb _ _); [done|]. cbv zeta.
  destruct (_ && negb _); [done|]. cbn [fst].
  destruct b; [rewrite inherit_beacons|]; change (rootBeacons (upd ?X _ _)) with (rootBeacons X).
  - match goal with |- context [if ?c then retireBackup _ _ _ else _] => destruct c end;
      [rewrite retire_beacons|]; done.
  - cbn [andb]. by destruct (_ && hasCustody _ _ _).
Qed.

Lemma demote_beacons E G t h w k a : rootBeacons (demote E G t h w k a).1 = rootBeacons G.
Proof.
  unfold demote. destruct (live G t) as [[ref r]|]; [|done]. destruct (negb _); [done|].
  destruct (idBigS h); [|done]. destruct (_ =? _); [done|].
  pose proof (set_beacons E G ref false w k) as H. destruct (set_ E G ref false w k) as [G1 ok]. cbn [fst] in *.
  destruct ok; [|exact H]. cbn [negb fst]. destruct (_ || _); exact H.
Qed.

Lemma candidate_beacons E corr G t h e s : rootBeacons (mergeCandidate E corr G t h e s).1 = rootBeacons G.
Proof.
  unfold mergeCandidate. destruct (live G t) as [[ref r]|]; [|apply demote_beacons].
  destruct (_ && hasCustody _ _ _); [|apply demote_beacons]. destruct (decide _); [done|].
  destruct (idBigS _); [|done]. destruct (negb _); [done|].
  destruct (match merge r ≫= candidate_ with Some _ => _ | None => _ end); [done|]. cbn [fst].
  unfold mergeOffer. destruct (live _ t) as [[ref' r']|]; [|done]. destruct (merge r' ≫= candidate_); [|done].
  destruct (_ || _); [done|]. by destruct (supersede _ _ _) as [? []].
Qed.

Lemma refresh_beacons E G t h e :
  rootBeacons (refresh_accepted E G t h e) = rootBeacons G ∧ mcf (refresh_accepted E G t h e) = mcf G.
Proof. unfold refresh_accepted. by repeat (case_match; simpl). Qed.

Lemma reattach_beacons E G t h e p : rootBeacons (reattach E G t h e p) = rootBeacons G.
Proof. unfold reattach. by repeat (case_match; simpl). Qed.

Definition recorded (G : mgr) (t : Z) : Z := default 0 (jget (rootBeacons G) t ≫= b_epoch).

(** The rules of a root beacon, for each topic it names. The record's epoch is a
    high-water mark. A beacon naming a node farther from the topic than the best this
    node knows, and not superseding its own claim, changes no record. A root yields
    only to a claim of a higher epoch than its own, or to a strictly closer node whose
    incarnation is not convicted: nothing else a beacon says moves the claim. *)
Theorem beacon_rules E nonce rootHex rootBig G p t :
  ids_isHexId (lc p.1) = true → idBigS p.1 = Some t →
  let e := beacon_epoch p.2 in
  let G' := beacon_topic E nonce rootHex rootBig G p in
  let supersedes := 0 < myEpoch G t ∧ myEpoch G t < e in
  recorded G t ≤ recorded G' t ∧
  (¬ supersedes → dist (bestKnownClosest E G t) t < dist rootBig t → rootBeacons G' = rootBeacons G) ∧
  (∀ ref r, live G t = Some (ref, r) → isRoot r = true → merge r ≫= releaseToken = None →
     isRoot <$> role_at G' ref ≠ Some true →
     supersedes ∨
     (dist rootBig t < dist (nodeId (mcf G)) t ∧
      ∀ rt, jget (rootTombstones G) t = Some rt → now E < rt_exp rt → lc rootHex = rt_root rt → rt_epoch rt < e)).
Proof.
  intros Hhex Hid e G' supersedes. subst G'. unfold beacon_topic. rewrite Hhex, Hid. cbn [negb]. cbv zeta. fold e.
  set (sup := (0 <? myEpoch G t) && (myEpoch G t <? e)).
  assert (sup = true ↔ supersedes) as Hsup by (unfold sup, supersedes; rewrite andb_true_iff, !Z.ltb_lt; done).
  clearbody sup. destruct (refresh_beacons E G t rootHex e) as [Rb Rc].
  set (G1 := refresh_accepted E G t rootHex e) in *.
  assert (bestKnownClosest E G1 t = bestKnownClosest E G t) as Hbk by (unfold bestKnownClosest; by rewrite Rb, Rc).
  rewrite Hbk. destruct (negb sup && _) eqn:Eskip.
  - split_and!; [unfold recorded; rewrite Rb; lia|done|].
    intros ref r Hl Hi Ht Hn. exfalso. apply Hn. apply live_Some in Hl as [_ Hr].
    destruct (keeps_refresh E ref G t rootHex e) as [_ K].
    destruct (K r Hr Hi Ht) as (r' & Hr' & Hi' & _). fold G1 in Hr'. rewrite Hr'. simpl. by rewrite Hi'.
  - set (bc := mk_beacon _ _ _ _ _). set (G2 := put_rootBeacons _ G1).
    destruct (rootTombstoned_frame E G2 t rootHex (Some e)) as (F1 & F2 & F3 & F4).
    assert (∀ ref, keeps_root ref G2 (rootTombstoned E G2 t rootHex (Some e)).1) as Kt by (intros; apply keeps_tombstoned).
    assert ((rootTombstoned E G2 t rootHex (Some e)).2 = false → ∀ rt, jget (rootTombstones G) t = Some rt →
      now E < rt_exp rt → lc rootHex = rt_root rt → rt_epoch rt < e) as Hst.
    { assert (rootTombstones G2 = rootTombstones G) as Ert.
      { subst G2 G1. unfold refresh_accepted. by repeat (case_match; simpl). }
      unfold rootTombstoned. rewrite Ert. intros Hf rt Hrt Hx Hh. rewrite Hrt in Hf.
      replace (rt_exp rt <=? now E) with false in Hf by (symmetry; apply Z.leb_gt; lia). cbn [snd] in Hf.
      rewrite bool_decide_eq_true_2 in Hf by done. cbn [andb default] in Hf. apply Z.leb_gt in Hf. exact Hf. }
    destruct (rootTombstoned E G2 t rootHex (Some e)) as [G3 stale]. cbn [fst snd] in *.
    set (G4 := if _ : bool then _ else G3).
    assert (rootBeacons G4 = jset (rootBeacons G) t bc) as Hb4.
    { subst G4. destruct (_ || _); [rewrite candidate_beacons|]; rewrite F1; simpl; by rewrite Rb. }
    split_and!.
    + unfold recorded. rewrite reattach_beacons, Hb4, jget_jset_eq. simpl. rewrite Rb. lia.
    + intros Hns Hd. exfalso. destruct sup; [by apply Hns, Hsup|]. simpl in Eskip. apply Z.ltb_ge in Eskip. lia.
    + intros ref r Hl Hi Ht Hn. destruct sup eqn:Es; [left; by apply Hsup|]. right.
      destruct (decide (dist rootBig t < dist (nodeId (mcf G)) t ∧ stale = false)) as [[Hd Hs]|Hno];
        [split; [done|by apply Hst]|]. exfalso. apply Hn.
      assert (G4 = G3) as E4.
      { assert (mcf G3 = mcf G) as Emc by (rewrite F4; exact Rc). subst G4. rewrite Emc. cbn [orb].
        assert ((dist rootBig t <? dist (nodeId (mcf G)) t) && negb stale = false) as ->; [|done].
        apply andb_false_iff. destruct stale; [by right|]. left. apply Z.ltb_ge.
        destruct (Z_le_gt_dec (dist (nodeId (mcf G)) t) (dist rootBig t)); [done|].
        exfalso. apply Hno. split; [lia|done]. }
      rewrite E4. apply live_Some in Hl as [_ Hr].
      assert (keeps_root ref G (reattach E G3 t rootHex e (default 0 (jget (rootBeacons G1) t ≫= b_epoch)))) as K.
      { etrans; [apply keeps_refresh|]. fold G1. etrans; [|apply keeps_reattach]. etrans; [|apply Kt]. keep. }
      destruct K as [_ K]. destruct (K r Hr Hi Ht) as (r' & Hr' & Hi' & _).
      rewrite Hr'. simpl. by rewrite Hi'.
Qed.

(** * The step-down hold *)

Lemma holdFor_stands E G t h :
  jget (stepDownHold G) t = Some h → now E - h_at h < stepDownHoldMs (mcf G) → 0 < stepDownHoldMs (mcf G) →
  holdFor E G t = (G, Some h).
Proof.
  intros Hh Hn Hp. unfold holdFor. rewrite Hh.
  replace (stepDownHoldMs (mcf G) <=? 0) with false by (symmetry; apply Z.leb_gt; lia).
  by replace (stepDownHoldMs (mcf G) <=? now E - h_at h) with false by (symmetry; apply Z.leb_gt; lia).
Qed.

Lemma holdBlocks_stands E G t h :
  jget (stepDownHold G) t = Some h → now E - h_at h < stepDownHoldMs (mcf G) → 0 < stepDownHoldMs (mcf G) →
  (holdBlocks E G t).2 = true ∧ heap (holdBlocks E G t).1 = heap G.
Proof.
  intros Hh Hn Hp. unfold holdBlocks. rewrite (holdFor_stands _ _ _ _ Hh Hn Hp). cbn [fst snd].
  split; [done|]. by destruct (_ <=? _).
Qed.

Lemma closer_frame E G t b :
  stepDownHold (liveCloserRoot E G t b).1 = stepDownHold G ∧ heap (liveCloserRoot E G t b).1 = heap G ∧
  mcf (liveCloserRoot E G t b).1 = mcf G.
Proof.
  unfold liveCloserRoot. destruct (jget _ t) as [bc|]; [|done]. destruct (_ <=? _); [done|].
  destruct (decide _); [done|]. destruct (idBigS _); [|done]. destruct (_ <=? _); [done|].
  assert (∀ h e, stepDownHold (rootTombstoned E G t h e).1 = stepDownHold G ∧ heap (rootTombstoned E G t h e).1 = heap G ∧
    mcf (rootTombstoned E G t h e).1 = mcf G) as H.
  { intros h e. unfold rootTombstoned. by repeat (case_match; cbn [fst]). }
  specialize (H (b_root bc) (b_epoch bc)). by destruct (rootTombstoned _ _ _ _ _).
Qed.

(** C33. Yielding to a strictly closer root arms the step-down hold: the node is pinned
    under the root it named, and until [stepDownHoldMs] have passed neither routing
    terminality nor the reachable-root fallback makes it root of that topic again;
    after that the hold is gone at the first read. *)
Theorem stepdown_hold E G t toHex why tok to G1 :
  demote E G t toHex why tok false = (G1, true) → idBigS toHex = Some to →
  dist to t < dist (nodeId (mcf G)) t → 0 < stepDownHoldMs (mcf G) →
  jget (upstream G1) t = Some [lc toHex] ∧
  (∀ E2, now E2 - now E < stepDownHoldMs (mcf G) →
     (claimReachable E2 G1 t).2 = None ∧ heap (claimReachable E2 G1 t).1 = heap G1 ∧
     (∀ ref r v m, role_at G1 ref = Some r → topicId r = t → heap (promote E2 G1 ref v m) = heap G1)) ∧
  (∀ E2, stepDownHoldMs (mcf G) ≤ now E2 - now E → (holdFor E2 G1 t).2 = None).
Proof.
  unfold demote. intros Hd Hto Hclose Hp. destruct (live G t) as [[ref0 r0]|]; [|done]. destruct (negb _); [done|].
  rewrite Hto in Hd. destruct (_ =? _); [done|].
  destruct (only_set ref0 E G false why tok) as (Em & _ & _).
  destruct (set_ E G ref0 false why tok) as [G0 ok]. cbn [fst] in *. destruct ok; [|done]. cbn [negb] in Hd.
  replace (dist to t <? dist (nodeId (mcf _)) t) with true in Hd
    by (symmetry; apply Z.ltb_lt; simpl; by rewrite Em). cbn [orb] in Hd. injection Hd as <-.
  set (G1 := emit _ _). set (h := mk_hold (lc toHex) (now E) 0).
  assert (jget (stepDownHold G1) t = Some h) as Hh by (subst G1; simpl; by rewrite jget_jset_eq).
  assert (stepDownHoldMs (mcf G1) = stepDownHoldMs (mcf G)) as Ems by (subst G1; simpl; by rewrite Em).
  assert (jget (upstream G1) t = Some [lc toHex]) as Hu by (subst G1; simpl; by rewrite jget_jset_eq).
  clearbody G1. split; [exact Hu|]. split.
  - intros E2 Ht. destruct (holdBlocks_stands E2 G1 t h Hh) as [B1 B2]; [rewrite Ems; simpl; lia|lia|].
    split; [|split].
    + unfold claimReachable. destruct (holdBlocks E2 G1 t) as [G2 held]. cbn [fst snd] in *. by subst held.
    + unfold claimReachable. destruct (holdBlocks E2 G1 t) as [G2 held]. cbn [fst snd] in *. by subst held.
    + intros ref r v m Hr Htop. unfold promote. rewrite Hr. cbv zeta. rewrite Htop. destruct (negb _); [done|].
      destruct (negb _); [done|]. destruct (closer_frame E2 G1 t true) as (C1 & C2 & C3).
      destruct (liveCloserRoot E2 G1 t true) as [G2 [c|]]; cbn [fst] in *; [done|].
      destruct (holdBlocks_stands E2 G2 t h) as [D1 D2]; [by rewrite C1|rewrite C3, Ems; simpl; lia|rewrite C3; lia|].
      destruct (holdBlocks E2 G2 t) as [G3 held]. cbn [fst snd] in *. subst held. congruence.
  - intros E2 Ht. unfold holdFor. rewrite Hh, Ems.
    replace (stepDownHoldMs (mcf G) <=? now E2 - h_at h) with true by (symmetry; apply Z.leb_le; simpl; lia).
    by rewrite orb_true_r.
Qed.

(** * Concrete instances *)

Definition demo_env (n : Z) : env := mk_env n n (Some [JBig 7]) None true false.
Definition demo_root : mgr :=
  let G := alloc (new_mgr (default_cfg 5)) 9 (with_epoch 3 (makeRole 9 true 0)) in
  (cachePush G 0 (mk_entry "m1" 1000 "{}" None 0) None).1.
Definition demo_rival : string := idHex 9.

Lemma custody_gate_witness :
  match live (rrun demo_root [(demo_env 2000, λ _, "n", RDemote 9 demo_rival "verify-closer" None false);
                              (demo_env 2001, λ _, "n", RAdopt 9 demo_rival);
                              (demo_env 2002, λ _, "n", RBeacon (mk_rootbeacon demo_rival [(idHex 9, Some 8)] "b1" 1))]) 9
  with Some (_, r) => isRoot r = true ∧ epoch r = 3 | None => False end.
Proof.
  assert (∃ r, live demo_root 9 = Some (0%nat, r) ∧ isRoot r = true ∧ merge r ≫= releaseToken = None ∧
    (∀ E, hasCustody E demo_root r = true) ∧ epoch r = 3) as (r & Hl & Hi & Ht & Hc & He).
  { eexists. split; [vm_compute; reflexivity|]. split_and!; reflexivity. }
  destruct (custody_gate [(demo_env 2000, λ _, "n", RDemote 9 demo_rival "verify-closer" None false);
    (demo_env 2001, λ _, "n", RAdopt 9 demo_rival);
    (demo_env 2002, λ _, "n", RBeacon (mk_rootbeacon demo_rival [(idHex 9, Some 8)] "b1" 1))]
    demo_root 9 0 r eq_refl Hl Hi Ht (λ x _, Hc _)) as (r' & Hl' & Hi' & He' & _).
  rewrite Hl'. split; [exact Hi'|]. rewrite He'. exact He.
Defined.

Definition demo_child : mgr := alloc (new_mgr (default_cfg 5)) 9 (makeRole 9 false 0).

Lemma claim_transition_witness :
  (set_ (demo_env 2000) demo_child 0 true "terminal-promote" None).2 = true ∧
  epoch <$> role_at (set_ (demo_env 2000) demo_child 0 true "terminal-promote" None).1 0 = Some 1.
Proof.
  assert (role_at demo_child 0 = Some (makeRole 9 false 0)) as Hr by reflexivity.
  assert (isRoot (makeRole 9 false 0) ≠ true) as Hne by (intros H; discriminate H).
  destruct (claim_transition (demo_env 2000) demo_child 0 (makeRole 9 false 0) true "terminal-promote" None Hr Hne)
    as (H1 & _ & H3). rewrite H1 in H3 |- *. split; [reflexivity|].
  destruct (H3 eq_refl) as (r' & Hr' & _ & _ & _ & _ & H & _). rewrite Hr'. destruct (H eq_refl) as (He & _).
  simpl. rewrite He. reflexivity.
Defined.

Lemma beacon_rules_witness :
  recorded demo_root 9 ≤ recorded (beacon_topic (demo_env 2000) (λ _, "n") demo_rival 9 demo_root (idHex 9, Some 2)) 9.
Proof.
  assert (ids_isHexId (lc (idHex 9)) = true) as H1 by (vm_compute; reflexivity).
  assert (idBigS (idHex 9) = Some 9) as H2 by (vm_compute; reflexivity).
  exact (proj1 (beacon_rules (demo_env 2000) (λ _, "n") demo_rival 9 demo_root (idHex 9, Some 2) 9 H1 H2)).
Defined.

Definition demo_bare : mgr := alloc (new_mgr (default_cfg 5)) 9 (with_epoch 1 (makeRole 9 true 0)).

Lemma stepdown_hold_witness :
  (claimReachable (demo_env 300000) (demote (demo_env 2000) demo_bare 9 demo_rival "beacon-closer" None false).1 9).2 = None.
Proof.
  assert (demote (demo_env 2000) demo_bare 9 demo_rival "beacon-closer" None false =
    ((demote (demo_env 2000) demo_bare 9 demo_rival "beacon-closer" None false).1, true)) as Hd by (vm_compute; reflexivity).
  assert (idBigS demo_rival = Some 9) as Hi by (vm_compute; reflexivity).
  destruct (stepdown_hold (demo_env 2000) demo_bare 9 demo_rival "beacon-closer" None 9 _ Hd Hi
    ltac:(vm_compute; reflexivity) ltac:(vm_compute; reflexivity)) as (_ & H & _).
  exact (proj1 (H (demo_env 300000) ltac:(vm_compute; reflexivity))).
Defined.
