(* ===== verification/Stamped.v ===== *)
(** Stamped.v - history that arrives already stamped: [_ingestStamped] and
    [_ingestStampedBatch] of src/src/pubsub/wireHandlers.js, through which hand-overs, replicas,
    replays and merge frames enter a role.

    [JSON.parse], the hash, the signature primitive and the region table are parameters; the
    envelope is verified by [SignedRecords.verifyEnvelope] and bound to its topic by
    [TopicId.deriveTopicIdBig].  At each [await] another task may run ([others]); the clock read
    after it is [clock].  A rejection of the verifier leaves the loop, with what was applied so
    far. *)
From stdpp Require Import base gmap sets list strings.
From Stdlib Require Import ZArith Lia.
From S2P Require Import Prelude HexId Role TopicStore RootClaim.
From S2P Require Import Canonical SignedRecords Transcripts TopicId.
#[local] Open Scope Z_scope.
#[local] Open Scope js_scope.
#[local] Set Default Proof Using "Type".

(** A message of a batch after the shape guard: a text, and a stamp that is a finite number. *)
Record stamped := mk_stamped { st_json : string; st_publishTs : Z; st_msgId : option string; st_seq : option Z }.
Definition as_number (v : json) : option Z := match v with JNumber z => Some z | _ => None end.
Definition shape (m : json) : option stamped :=
  s ← as_text (field m "json"); ts ← as_number (field m "publishTs");
  Some (mk_stamped s ts (as_text (field m "msgId")) (as_number (field m "seq"))).

Inductive outcome := Held | Rejected | RefusedAtCut.
Record tally := mk_tally { ta_n : Z; ta_held : Z; ta_rejected : Z; ta_refused : bool }.
Definition count_outcome (o : outcome) (t : tally) : tally :=
  match o with
  | Held => mk_tally (ta_n t) (ta_held t + 1) (ta_rejected t) (ta_refused t)
  | Rejected => mk_tally (ta_n t) (ta_held t) (ta_rejected t + 1) (ta_refused t)
  | RefusedAtCut => mk_tally (ta_n t) (ta_held t) (ta_rejected t + 1) true
  end.

(** [!!v] *)
Definition truthy_value (v : json) : bool :=
  match v with
  | JUndefined | JNullV | JBoolV false => false
  | JNumber z => negb (z =? 0)
  | JText s => negb (bool_decide (s = ""))
  | _ => true
  end.
(** A value that is not falsy, as the text [String] makes of it. *)
Definition truthy_text (v : json) : js_result (option string) :=
  if truthy_value v then s ← js_String v; Ok (Some s) else Ok None.

Definition raise_lastTs (ts : Z) (r : role) : role := if lastTs r <? ts then with_lastTs ts r else r.
Definition holds_id (G : mgr) (ref : nat) (id : string) : bool :=
  match role_at G ref with Some r => bool_decide (id ∈ cacheIds r) | None => false end.

Section ingest.
Context (JSON_parse : string → option json) (sha256 : bytes → bytes)
  (ed_verify : bytes → bytes → bytes → js_result bool) (resolveRegion : json → option Z) (ks : keyspace).
Context (others : nat → mgr → mgr) (clock : nat → Z).

Definition signerOf (s : string) : js_result (option string) :=
  match JSON_parse s with Some v => truthy_text (field v "signerPubkey") | None => Ok None end.

(** [deriveTopicIdBig({ region: env.topic?.region, .. })] *)
Definition bound_topic (env : json) : js_result Z :=
  let d := field env "topic" in
  deriveTopicIdBig sha256 resolveRegion ks (field d "region") (field d "owner") (field d "name") (field d "write") JNullV.

(** The body of [_ingestStamped] behind its checks: the write, and what follows a write. *)
Definition adopt (k : nat) (G : mgr) (ref : nat) (c : option cut) (json : string) (ts : Z) (id : string) (sq : option Z)
    : mgr * js_result outcome :=
  match role_at G ref with
  | None => (G, Ok Rejected)
  | Some r =>
      let t := topicId r in
      if clock k + FUTURE_TOLERANCE_MS <? ts then (G, Ok Rejected)
      else if bool_decide (id ∈ cacheIds r) then (G, Ok Held)
      else match tombstoned signerOf r id json with
      | (_, Throw x) => (G, Throw x)
      | (r', Ok dead) =>
        let G := upd G ref (λ _, r') in
        if dead then (G, Ok Held)
        else match cachePush G ref (mk_entry id ts json sq 0) c with
        | (G, false) => (G, Ok RefusedAtCut)
        | (G, true) =>
            let G := if tombAuthority (mcf G) && holds_id G ref id then others k (emit G (ObserveBody t id)) else G in
            let G := emit G (ConfirmPending t id) in
            let G := upd G ref (λ r, raise_seq sq (raise_lastTs ts r)) in
            let G := emit G (FanoutBody ref id) in
            (deliverToApp G t id ts sq, Ok Held)
        end
      end
  end.

(** [_ingestStamped]; [k] numbers the awaits. *)
Definition ingestStamped (k : nat) (G : mgr) (ref : nat) (c : option cut) (m : stamped) : mgr * js_result outcome :=
  match JSON_parse (st_json m) with
  | None => (G, Ok Rejected)
  | Some env =>
      let v := verifyEnvelope sha256 ed_verify ks env in
      let G := others k G in
      match v, st_msgId m with
      | Throw x, _ => (G, Throw x)
      | Ok (EOk _), Some id =>
          if negb (text_is (field env "msgId") id) then (G, Ok Rejected)
          else
            let G := others (S k) G in
            match bound_topic env, role_at G ref with
            | Ok stid, Some r =>
                if negb (stid =? topicId r) then (G, Ok Rejected)
                else
                  let G := upd G ref (noteMetricRole (as_text (field (field env "topic") "name"))) in
                  adopt (S (S k)) G ref c (st_json m) (st_publishTs m) id (st_seq m)
            | _, _ => (G, Ok Rejected)
            end
      | _, _ => (G, Ok Rejected)
      end
  end.

(** [_ingestStampedBatch]: a macrotask passes after every sixteenth message. *)
Fixpoint batch_loop (k : nat) (G : mgr) (ref : nat) (c : option cut) (msgs : list json) (t : tally)
    : mgr * js_result tally :=
  match msgs with
  | [] => (G, Ok t)
  | m :: msgs =>
      if ta_refused t then batch_loop k G ref c msgs (count_outcome Rejected t)
      else
        let '(G, o) := match shape m with Some s => ingestStamped k G ref c s | None => (G, Ok Rejected) end in
        match o with
        | Throw x => (G, Throw x)
        | Ok o =>
            let t := count_outcome o t in
            let t := mk_tally (ta_n t + 1) (ta_held t) (ta_rejected t) (ta_refused t) in
            let G := if Z.land (ta_n t) 15 =? 0 then others (k + 3)%nat G else G in
            batch_loop (k + 4)%nat G ref c msgs t
        end
  end.
Definition ingestStampedBatch (k : nat) (G : mgr) (ref : nat) (msgs : list json) (c : option cut) : mgr * js_result tally :=
  batch_loop k G ref c msgs (mk_tally 0 0 0 false).

(** * What a role may hold *)

(** The body is the message it says it is: its text parses to an envelope that verifies, under
    the id it is kept by, and that was written for this topic. *)
Definition authentic (t : Z) (e : entry) : Prop := ∃ env s,
  JSON_parse (e_json e) = Some env ∧ verifyEnvelope sha256 ed_verify ks env = Ok (EOk s) ∧
  field env "msgId" = JText (e_msgId e) ∧ bound_topic env = Ok t.

(** Every body the role holds is authentic, and every body passed on from it was. *)
Record genuine (ref : nat) (t : Z) (G : mgr) : Prop := {
  ge_role : ∃ r, role_at G ref = Some r ∧ topicId r = t ∧ ∀ e, e ∈ cache r → authentic t e;
  ge_sent : ∀ id, (FanoutBody ref id ∈ outbox G ∨ ∃ ts sq, AppDeliver t id ts sq ∈ outbox G) →
    ∃ e, authentic t e ∧ e_msgId e = id
}.

Lemma genuine_upd ref t G f : (∀ r, topicId (f r) = topicId r ∧ ∀ e, e ∈ cache (f r) → e ∈ cache r) →
  genuine ref t G → genuine ref t (upd G ref f).
Proof.
  intros Hf [(r & Hr & Ht & Hc) Hs]. split; [|done]. exists (f r). rewrite role_at_upd_eq, Hr.
  destruct (Hf r) as [E1 E2]. split_and!; [done|congruence|]. intros e He. by apply Hc, E2.
Qed.

Lemma genuine_emit ref t G x : (∀ id, x = FanoutBody ref id ∨ (∃ ts sq, x = AppDeliver t id ts sq) →
    ∃ e, authentic t e ∧ e_msgId e = id) →
  genuine ref t G → genuine ref t (emit G x).
Proof.
  intros Hx [Hr Hs]. split; [exact Hr|]. intros id. unfold emit. simpl.
  rewrite elem_of_app, list_elem_of_singleton. intros [[H|H]|(ts & sq & H)].
  - apply Hs. by left.
  - apply Hx. by left.
  - rewrite elem_of_app, list_elem_of_singleton in H. destruct H as [H|H]; [apply Hs|apply Hx]; right; eauto.
Qed.

Lemma genuine_ext ref t G G' : heap G' = heap G → outbox G' = outbox G → genuine ref t G → genuine ref t G'.
Proof. intros Hh Ho [Hr Hs]. split; unfold role_at in *; rewrite ?Hh, ?Ho; done. Qed.

Lemma genuine_observe ref t G ev : genuine ref t G → genuine ref t (observe G t ev).
Proof.
  unfold observe. destruct (tombAuthority _); [|done]. revert G. induction ev as [|i ev IH]; intros G H; [done|].
  apply IH, genuine_emit; [|done]. intros id [?|(ts & sq & ?)]; done.
Qed.

Lemma tombstoned_cache sig r id json : topicId (tombstoned sig r id json).1 = topicId r ∧ cache (tombstoned sig r id json).1 = cache r.
Proof. unfold tombstoned. repeat case_match; done. Qed.

Lemma genuine_push ref t G e c G' b : cachePush G ref e c = (G', b) → authentic t e →
  genuine ref t G → genuine ref t G'.
Proof.
  unfold cachePush. intros H Ha HG. destruct (negb _); [by injection H as <- _|].
  pose proof (ge_role _ _ _ HG) as (r & Hr & Ht & Hc). rewrite Hr in H.
  destruct (superseded e r); [by injection H as <- _|].
  destruct (push_role (mcf G) e r) as [r' ev] eqn:Ep. injection H as <- _. rewrite Ht. apply genuine_observe.
  pose proof (proj1 (push_role_shrinks (mcf G) e r)) as Hsh. rewrite Ep in Hsh. cbn [fst] in Hsh.
  destruct (same_merge _ _ (sh_same _ _ Hsh)) as (_ & _ & _ & _ & Et & _).
  split; [|apply HG]. exists r'. rewrite role_at_upd_eq, Hr. split_and!; [done|by rewrite Et|].
  intros x Hx. eapply elem_of_sublist in Hx; [|apply Hsh]. simpl in Hx. apply elem_of_app in Hx as [Hx|Hx%list_elem_of_singleton]; [by apply Hc|].
  subst x. destruct Ha as (env & s & H1 & H2 & H3 & H4). exists env, s. done.
Qed.

Lemma genuine_deliver ref t G id ts sq : (∃ e, authentic t e ∧ e_msgId e = id) →
  genuine ref t G → genuine ref t (deliverToApp G t id ts sq).
Proof.
  intros Ha HG. unfold deliverToApp. destruct (negb _); [done|]. destruct (jhas (appDelivered G) _); [done|].
  apply genuine_emit; [|apply genuine_emit; [by intros ? [?|(? & ? & ?)]|]].
  - intros i [?|(ts' & sq' & [= <- <- <-])]; done.
  - unfold raise_seen. case_match; apply (genuine_ext ref t G); done.
Qed.

Lemma raise_seq_cache sq r : topicId (raise_seq sq r) = topicId r ∧ cache (raise_seq sq r) = cache r.
Proof. unfold raise_seq. repeat case_match; done. Qed.
Lemma raise_lastTs_cache ts r : topicId (raise_lastTs ts r) = topicId r ∧ cache (raise_lastTs ts r) = cache r.
Proof. unfold raise_lastTs. repeat case_match; done. Qed.
Lemma noteMetric_cache n r : topicId (noteMetricRole n r) = topicId r ∧ cache (noteMetricRole n r) = cache r.
Proof. unfold noteMetricRole. repeat case_match; done. Qed.

(** The two ways an entry can throw: the verifier does, or the envelope verifies and its signer, which
    a tombstone compares, is an object that has no text. *)
Definition throws_on (env : json) (x : js_error) : Prop :=
  verifyEnvelope sha256 ed_verify ks env = Throw x ∨
  (∃ s, verifyEnvelope sha256 ed_verify ks env = Ok (EOk s)) ∧ truthy_text (field env "signerPubkey") = Throw x.

Section run.
Context (ref : nat) (t : Z) (Hothers : ∀ k G, genuine ref t G → genuine ref t (others k G)).

Lemma genuine_adopt k G c json ts id sq : authentic t (mk_entry id ts json sq 0) → genuine ref t G →
  genuine ref t (adopt k G ref c json ts id sq).1.
Proof using Hothers.
  intros Ha HG. unfold adopt. pose proof (ge_role _ _ _ HG) as (r & Hr & Ht & _). rewrite Hr.
  destruct (_ <? ts); [done|]. destruct (bool_decide _); [done|].
  pose proof (tombstoned_cache signerOf r id json) as [E1 E2]. destruct (tombstoned signerOf r id json) as [r' [dead|x]]; [|done]. cbn [fst] in *.
  assert (genuine ref t (upd G ref (λ _, r'))) as H1.
  { split; [|apply HG]. exists r'. rewrite role_at_upd_eq, Hr. split_and!; [done|congruence|].
    rewrite E2. intros e He. pose proof (ge_role _ _ _ HG) as (r2 & Hr2 & _ & Hc). rewrite Hr in Hr2. injection Hr2 as <-. by apply Hc. }
  destruct dead; [done|]. destruct (cachePush _ _ _ _) as [G1 b] eqn:Ep.
  pose proof (genuine_push _ _ _ _ _ _ _ Ep Ha H1) as H2. destruct b; [|done]. cbn [fst]. rewrite Ht.
  apply genuine_deliver; [by exists (mk_entry id ts json sq 0)|].
  apply genuine_emit; [intros i [[= <-]|(? & ? & ?)]; [by exists (mk_entry id ts json sq 0)|done]|].
  apply genuine_upd.
  { intros r0. destruct (raise_seq_cache sq (raise_lastTs ts r0)) as [-> ->]. destruct (raise_lastTs_cache ts r0) as [-> ->]. done. }
  apply genuine_emit; [by intros ? [?|(? & ? & ?)]|]. destruct (_ && _); [|done].
  apply Hothers, genuine_emit; [by intros ? [?|(? & ? & ?)]|done].
Qed.

Lemma tombstoned_throws r id json x : (tombstoned signerOf r id json).2 = Throw x → signerOf json = Throw x.
Proof using Type. unfold tombstoned. repeat case_match; simpl; congruence. Qed.
Lemma adopt_throws k G c json ts id sq x : (adopt k G ref c json ts id sq).2 = Throw x → signerOf json = Throw x.
Proof using Type.
  unfold adopt. destruct (role_at G ref) as [r|]; [|done]. destruct (_ <? ts); [done|]. destruct (bool_decide _); [done|].
  pose proof (tombstoned_throws r id json x) as Ht. destruct (tombstoned signerOf r id json) as [r' [dead|y]]; [|intros [= ->]; by apply Ht].
  destruct dead; [done|]. by destruct (cachePush _ _ _ _) as [G1 []].
Qed.

Lemma genuine_ingest k G c m : genuine ref t G → genuine ref t (ingestStamped k G ref c m).1.
Proof using Hothers.
  intros HG. unfold ingestStamped. destruct (JSON_parse (st_json m)) as [env|] eqn:Ej; [|done]. cbv zeta.
  pose proof (Hothers k G HG) as H1. pose proof (Hothers (S k) _ H1) as H2.
  destruct (verifyEnvelope _ _ _ env) as [[s|]|] eqn:Ev; [|done|done].
  destruct (st_msgId m) as [id|]; [|done]. destruct (text_is (field env "msgId") id) eqn:Ei; [|done]. cbn [negb].
  pose proof (ge_role _ _ _ H2) as (r & Hr & Ht & _). rewrite Hr.
  destruct (bound_topic env) as [stid|] eqn:Eb; [|done]. destruct (stid =? topicId r) eqn:Et; [|done]. zb. cbn [negb].
  apply genuine_adopt.
  - exists env, s. split_and!; [done|done| |congruence]. unfold text_is in Ei. destruct (field env "msgId"); try done.
    apply bool_decide_eq_true in Ei. by subst.
  - apply genuine_upd; [|done]. intros r0. destruct (noteMetric_cache (as_text (field (field env "topic") "name")) r0) as [-> ->]. done.
Qed.

Definition counted (msgs : list json) (t t' : tally) : Prop :=
  ta_held t' + ta_rejected t' = ta_held t + ta_rejected t + Z.of_nat (length msgs) ∧
  ta_held t ≤ ta_held t' ∧ ta_rejected t ≤ ta_rejected t' ∧
  (ta_refused t = true → ta_refused t' = true ∧ ta_held t' = ta_held t).

Lemma count_counted o m msgs t0 t' b n : ta_refused t0 = false →
  counted msgs (mk_tally n (ta_held (count_outcome o t0)) (ta_rejected (count_outcome o t0)) b) t' →
  counted (m :: msgs) t0 t'.
Proof. intros Hr (H1 & H2 & H3 & H4). unfold counted. rewrite Hr. destruct o; simpl in *; split_and!; (lia || done). Qed.

Lemma batch_spec msgs : ∀ k G c t0, genuine ref t G →
  genuine ref t (batch_loop k G ref c msgs t0).1 ∧
  match (batch_loop k G ref c msgs t0).2 with
  | Ok t' => counted msgs t0 t'
  | Throw x => ∃ m s env, m ∈ msgs ∧ shape m = Some s ∧ JSON_parse (st_json s) = Some env ∧ throws_on env x
  end.
Proof using Hothers.
  induction msgs as [|m msgs IH]; intros k G c t0 HG; cbn [batch_loop].
  { split; [done|]. cbn [snd]. unfold counted. simpl. split_and!; (lia || done). }
  destruct (ta_refused t0) eqn:Er.
  - destruct (IH k G c (count_outcome Rejected t0) HG) as [H1 H2]. split; [done|].
    destruct (batch_loop _ _ _ _ msgs _) as [G' [t'|x]]; cbn [snd] in *; [|destruct H2 as (m' & s & env & ? & ? & ? & ?); exists m', s, env; split_and!; [by right|done..]].
    destruct H2 as (A1 & A2 & A3 & A4). unfold counted in *. simpl in *. rewrite Er in *.
    destruct (A4 eq_refl) as [-> ->]. split_and!; (lia || done).
  - destruct (match shape m with Some s => ingestStamped k G ref c s | None => (G, Ok Rejected) end) as [G1 o] eqn:E1.
    assert (genuine ref t G1) as H1.
    { destruct (shape m) as [s|]; [|by injection E1 as <- _].
      pose proof (genuine_ingest k G c s HG) as H. by rewrite E1 in H. }
    destruct o as [o|x].
    + cbv zeta. cbn [ta_n ta_held ta_rejected ta_refused].
      set (G2 := if _ =? 0 then _ else _). assert (genuine ref t G2) as H2 by (unfold G2; destruct (_ =? 0); [by apply Hothers|done]).
      set (t1 := mk_tally _ _ _ _). destruct (IH (k + 4)%nat G2 c t1 H2) as [H3 H4]. split; [done|].
      destruct (batch_loop _ G2 _ _ msgs t1) as [G' [t'|x]]; cbn [snd] in *; [|destruct H4 as (m' & s & env & ? & ? & ? & ?); exists m', s, env; split_and!; [by right|done..]].
      eapply count_counted; [done|exact H4].
    + split; [done|]. cbn [snd]. destruct (shape m) as [s|] eqn:Es; [|discriminate E1]. exists m, s.
      unfold ingestStamped in E1. destruct (JSON_parse (st_json s)) as [env|] eqn:Ej; [|discriminate E1]. exists env.
      split_and!; [left|done|done|].
      unfold throws_on. destruct (verifyEnvelope _ _ _ env) as [[sg|? ?]|?]; [|congruence|left; congruence].
      right. split; [by eexists|]. destruct (st_msgId s) as [id|]; [|congruence]. destruct (negb _); [congruence|].
      destruct (bound_topic env); [|congruence]. destruct (role_at _ ref); [|congruence]. destruct (negb _); [congruence|].
      pose proof (adopt_throws (S (S k)) (upd (others (S k) (others k G)) ref (noteMetricRole (as_text (field (field env "topic") "name")))) c (st_json s) (st_publishTs s) id (st_seq s) x) as Ha.
      rewrite E1 in Ha. specialize (Ha eq_refl). unfold signerOf in Ha. by rewrite Ej in Ha.
Qed.
End run.

(** A batch behind a refusal changes nothing and holds nothing. *)
Lemma refused_is_inert k G ref c msgs t0 : ta_refused t0 = true →
  ∃ t', batch_loop k G ref c msgs t0 = (G, Ok t') ∧ ta_held t' = ta_held t0.
Proof.
  revert t0. induction msgs as [|m msgs IH]; intros t0 Hr; cbn [batch_loop]; [by exists t0|]. rewrite Hr.
  destruct (IH (count_outcome Rejected t0) Hr) as (t' & E & Eh). by exists t'.
Qed.

End ingest.

(** * Witness *)

Definition demo_topic : json := JObject [("region", JNumber 9); ("owner", JNullV); ("name", JText "cats"); ("write", JText "open")].
Definition demo_id : string := computeMsgId toy_sha JNullV (JText "hi").
Definition demo_env_of (sig : list (string * json)) : json :=
  JObject ([("msgId", JText demo_id); ("seq", JNumber 1); ("ts", JNumber 500); ("topic", demo_topic); ("message", JText "hi")] ++ sig).
(** Texts stand for their parses: [good] is an open post, [odd] carries a signature of odd length. *)
Definition demo_parse (s : string) : option json :=
  if decide (s = "good") then Some (demo_env_of [])
  else if decide (s = "odd") then
    Some (demo_env_of [("signature", JText "ed25519:abc"); ("signerPubkey", JText "abcd")])
  else None.
Definition demo_stamped (s : string) : json :=
  JObject [("json", JText s); ("publishTs", JNumber 500); ("msgId", JText demo_id); ("seq", JNumber 1)].
Definition demo_verify (pk m sig : bytes) : js_result bool := Ok true.
Definition demo_t : Z := default 0 (catch (bound_topic toy_sha toy_region production (demo_env_of []))).
Definition demo_seat : mgr := alloc (new_mgr (default_cfg 5)) demo_t (makeRole demo_t true 0).
Definition demo_batch (l : list string) : mgr * js_result tally :=
  ingestStampedBatch demo_parse toy_sha demo_verify toy_region production (λ _ G, G) (λ _, 500) 0 demo_seat 0
    (demo_stamped <$> l) (cutCapture demo_seat 0).


(** One entry whose signature is a hex text of odd length ends the batch: the valid message
    behind it is not adopted and not counted. *)
Example odd_entry_ends_the_batch :
  (demo_batch ["odd"; "good"]).2 = Throw plainError ∧
  cache <$> role_at (demo_batch ["odd"; "good"]).1 0 = Some [].
Proof. split; vm_compute; reflexivity. Qed.
