(* ===== verification/MergeFrames.v ===== *)
(** MergeFrames.v - what a merge round exports and how it is cut into frames: the sorted
    snapshot and the data branch of [_mergeAnswerPull] in src/src/pubsub/mergeMachine.js.

    A frame begins behind the last cursor sent; it holds at most [REPLAY_CHUNK_BYTES] and does
    not end inside a group of equal stamps unless the group alone exceeds a frame. *)
From Stdlib Require Import Ascii.
From stdpp Require Import base gmap sets list strings sorting.
From Stdlib Require Import ZArith Lia.
From S2P Require Import Prelude HexId Canonical Role TopicStore RootClaim.
#[local] Open Scope Z_scope.
#[local] Open Scope js_scope.
#[local] Set Default Proof Using "Type".

(** * The export *)

(** [a.publishTs - b.publishTs || (a.msgId < b.msgId ? -1 : ..)] *)
Definition stamp_le (a b : Z * string) : bool :=
  (a.1 <? b.1) || ((a.1 =? b.1) && String.leb a.2 b.2).
Definition body_le (a b : entry) : Prop := stamp_le (publishTs a, e_msgId a) (publishTs b, e_msgId b) = true.
Definition del_le (a b : delmark) : Prop := stamp_le (dm_killTs a, dm_msgId a) (dm_killTs b, dm_msgId b) = true.
#[export] Instance body_le_dec : RelDecision body_le := λ a b, decide (_ = true).
#[export] Instance del_le_dec : RelDecision del_le := λ a b, decide (_ = true).
Definition export_bodies (r : role) : list entry := merge_sort body_le (cache r).
Definition export_dels (cf : mcfg) (now : Z) (r : role) : list delmark := merge_sort del_le (activeDels cf now r).
Definition items_of (bodies : list entry) (dels : list delmark) : list item := (IBody <$> bodies) ++ (IDel <$> dels).

Definition it_ts (i : item) : Z := match i with IBody e => publishTs e | IDel d => dm_killTs d end.
Definition it_id (i : item) : string := match i with IBody e => e_msgId e | IDel d => dm_msgId d end.
(** [(it.e.json ? it.e.json.length : 0) + 160] *)
Definition sizeOf (i : item) : Z := match i with IBody e => strlen (e_json e) | IDel _ => 0 end + 160.
(** [`${e.publishTs}:${e.msgId}`] *)
Definition cursorOf (i : item) : string := js_int (it_ts i) +:+ ":" +:+ it_id i.

Definition sum_sizes (l : list item) : Z := foldr (λ i a, sizeOf i + a) 0 l.
Definition slice_of (items : list item) (s e : nat) : list item := take (e - s) (drop s items).

(** * One frame *)

Section frames.
Context (items : list item).

(** Where the next frame begins: behind the cursor, or at the start for the header's ['h']. *)
Definition frame_start (want : option string) : nat :=
  if decide (want = Some "h") then 0%nat
  else match list_find (λ i, Some (cursorOf i) = want) items with
       | Some (n, _) => S n
       | None => S (length items)
       end.

Definition has_ts (ts : Z) (k : nat) : bool := match items !! k with Some i => it_ts i =? ts | None => false end.

(** [while (k > start && items[k - 1].publishTs === ts) k--] *)
Fixpoint group_start (start : nat) (ts : Z) (k : nat) : nat :=
  match k with
  | S k' => if Nat.leb start k' && has_ts ts k' then group_start start ts k' else k
  | O => O
  end.
Fixpoint run_bytes (ts : Z) (l : list item) : Z :=
  match l with i :: l => if it_ts i =? ts then sizeOf i + run_bytes ts l else 0 | [] => 0 end.
Definition groupBytes (start : nat) (ts : Z) (j : nat) : Z :=
  run_bytes ts (drop (group_start start ts (S j)) items).

(** The packing loop from [start]; [l] is what is left. *)
Fixpoint pack (start i : nat) (bytes : Z) (l : list item) : nat :=
  match l with
  | [] => i
  | it :: l =>
      if (REPLAY_CHUNK_BYTES <? bytes + sizeOf it) && Nat.ltb start i then
        if has_ts (it_ts it) (i - 1) && (groupBytes start (it_ts it) i <=? REPLAY_CHUNK_BYTES)
        then group_start start (it_ts it) i else i
      else pack start (S i) (bytes + sizeOf it) l
  end.

Definition frame_end (start : nat) : nat :=
  let i := pack start start 0 (drop start items) in
  if Nat.eqb i start && Nat.ltb start (length items) then S start else i.

(** The frame after [want]: its slice, the cursor it ends at, and whether more follows. *)
Definition next_frame (want : option string) : list item * option string * bool :=
  let s := frame_start want in
  let e := frame_end s in
  (slice_of items s e,
   if Nat.ltb s e then match items !! (e - 1)%nat with Some i => Some (cursorOf i) | None => want end else want,
   Nat.ltb e (length items)).

(** The frames a winner receives that pulls with every cursor it is given. *)
Fixpoint frames (fuel : nat) (want : option string) : option (list (list item)) :=
  match fuel with
  | O => None
  | S fuel =>
      match next_frame want with
      | (sl, last, true) => (λ fs, sl :: fs) <$> frames fuel last
      | (sl, _, false) => Some [sl]
      end
  end.

(** * Properties *)

Lemma sizeOf_pos i : 0 < sizeOf i.
Proof. unfold sizeOf. destruct i; [pose proof (strlen_nonneg (e_json e))|]; lia. Qed.
Lemma sum_sizes_app l l' : sum_sizes (l ++ l') = sum_sizes l + sum_sizes l'.
Proof. induction l; simpl; lia. Qed.
Lemma sum_sizes_nonneg l : 0 ≤ sum_sizes l.
Proof. induction l as [|i l IH]; simpl; [lia|]. pose proof (sizeOf_pos i). lia. Qed.

Lemma slice_snoc s e it : (s ≤ e)%nat → items !! e = Some it → slice_of items s (S e) = slice_of items s e ++ [it].
Proof.
  intros Hs He. unfold slice_of. replace (S e - s)%nat with (S (e - s)) by lia.
  apply take_S_r. rewrite lookup_drop. by replace (s + (e - s))%nat with e by lia.
Qed.
Lemma slice_empty s : slice_of items s s = [].
Proof. unfold slice_of. by rewrite Nat.sub_diag, take_0. Qed.
Lemma slice_sum_le s e e' : (e ≤ e')%nat → sum_sizes (slice_of items s e) ≤ sum_sizes (slice_of items s e').
Proof.
  intros H. unfold slice_of. rewrite <-(take_drop (e - s) (take (e' - s) (drop s items))), sum_sizes_app, take_take.
  replace (Nat.min (e - s) (e' - s)) with (e - s)%nat by lia.
  pose proof (sum_sizes_nonneg (drop (e - s) (take (e' - s) (drop s items)))). lia.
Qed.

Lemma has_ts_true ts k : has_ts ts k = true ↔ ∃ i, items !! k = Some i ∧ it_ts i = ts.
Proof. unfold has_ts. destruct (items !! k); rewrite ?Z.eqb_eq; naive_solver. Qed.

Lemma group_start_spec start ts k : (start ≤ k)%nat →
  (start ≤ group_start start ts k ≤ k)%nat ∧
  (∀ j, (group_start start ts k ≤ j < k)%nat → has_ts ts j = true) ∧
  ((start < group_start start ts k)%nat → has_ts ts (group_start start ts k - 1) = false).
Proof.
  induction k as [|k IH]; intros Hk; cbn [group_start].
  { split_and!; [lia..|]. intros; lia. }
  destruct (Nat.leb start k && has_ts ts k) eqn:E.
  - apply andb_true_iff in E as [E1 E2]. apply Nat.leb_le in E1. destruct (IH E1) as (H1 & H2 & H3).
    split_and!; [lia|lia| |done]. intros j Hj. destruct (decide (j = k)) as [->|]; [done|]. apply H2. lia.
  - split_and!; [lia|lia|intros; lia|]. intros Hl. replace (S k - 1)%nat with k by lia.
    apply andb_false_iff in E as [E|E]; [apply Nat.leb_gt in E; lia|done].
Qed.

(** A run of one stamp counts at least any stretch of it. *)
Lemma run_bytes_ge ts l n : (∀ i, i ∈ take n l → it_ts i = ts) → sum_sizes (take n l) ≤ run_bytes ts l.
Proof.
  revert n. induction l as [|i l IH]; intros [|n] H; simpl; try lia.
  - case_match; [|lia]. pose proof (sizeOf_pos i). specialize (IH 0%nat). rewrite take_0 in IH. simpl in IH.
    assert (0 ≤ run_bytes ts l) by (apply IH; intros ? ?%not_elem_of_nil; done). lia.
  - rewrite (H i) by (left). rewrite Z.eqb_refl. assert (sum_sizes (take n l) ≤ run_bytes ts l); [|lia].
    apply IH. intros j Hj. apply H. by right.
Qed.

(** What the packing loop knows where it stops. *)
Definition fits (s e : nat) : Prop := sum_sizes (slice_of items s e) ≤ REPLAY_CHUNK_BYTES ∨ e = S s.
Definition whole_groups (s e : nat) : Prop := ∀ ts, (s < e < length items)%nat →
  has_ts ts (e - 1) = true → has_ts ts e = true → REPLAY_CHUNK_BYTES < groupBytes s ts e.

Lemma pack_spec start i bytes l : drop i items = l → (start ≤ i ≤ length items)%nat →
  bytes = sum_sizes (slice_of items start i) → fits start i →
  (start < pack start i bytes l ≤ length items ∨ pack start i bytes l = start ∧ l = [])%nat ∧
  fits start (pack start i bytes l) ∧ whole_groups start (pack start i bytes l).
Proof.
  revert i bytes. induction l as [|it l IH]; intros i bytes Hl Hi Hb Hf; cbn [pack].
  { assert (i = length items) as Hlen by (apply (f_equal length) in Hl; rewrite length_drop in Hl; simpl in Hl; lia).
    split_and!; [|done|intros ts Hlt; lia]. destruct (decide (start = i)); [right; split; [lia|done]|left; lia]. }
  assert (items !! i = Some it) as Hit by (rewrite <-(Nat.add_0_r i), <-lookup_drop, Hl; done).
  pose proof (lookup_lt_Some _ _ _ Hit) as Hlt.
  destruct ((REPLAY_CHUNK_BYTES <? bytes + sizeOf it) && Nat.ltb start i) eqn:Eo.
  - apply andb_true_iff in Eo as [Eo Hsi]. apply Nat.ltb_lt in Hsi. zb.
    destruct (group_start_spec start (it_ts it) i ltac:(lia)) as (G1 & G2 & G3).
    assert (has_ts (it_ts it) i = true) as Hts by (apply has_ts_true; eauto).
    assert (group_start start (it_ts it) (S i) = group_start start (it_ts it) i) as Egs.
    { cbn [group_start]. rewrite Hts. by replace (Nat.leb start i) with true by (symmetry; apply Nat.leb_le; lia). }
    destruct (has_ts (it_ts it) (i - 1) && (groupBytes start (it_ts it) i <=? REPLAY_CHUNK_BYTES)) eqn:Eg.
    + apply andb_true_iff in Eg as [Eg1 Eg2]. zb. remember (group_start start (it_ts it) i) as g eqn:Hgd.
      assert (start < g)%nat as Hg.
      { destruct (decide (start < g)%nat); [done|]. exfalso. assert (g = start) as Hgs by lia.
        unfold groupBytes in Eg2. rewrite Egs, Hgs in Eg2.
        pose proof (run_bytes_ge (it_ts it) (drop start items) (S i - start)) as Hr.
        change (take (S i - start) (drop start items)) with (slice_of items start (S i)) in Hr.
        rewrite (slice_snoc start i it), sum_sizes_app in Hr by (done || lia). simpl in Hr.
        assert (sum_sizes (slice_of items start i) + (sizeOf it + 0) ≤ run_bytes (it_ts it) (drop start items)); [|lia].
        apply Hr. intros x Hx. apply elem_of_app in Hx as [Hx|Hx%list_elem_of_singleton]; [|by subst].
        apply list_elem_of_lookup in Hx as [j Hj]. unfold slice_of in Hj. apply lookup_take_Some in Hj as [Hj Hj2].
        rewrite lookup_drop in Hj. assert (has_ts (it_ts it) (start + j) = true) as Ht by (apply G2; lia).
        apply has_ts_true in Ht as (y & Hy & Hyt). congruence. }
      split_and!; [left; lia| |].
      * destruct Hf as [Hf|Hf]; [left|right; lia]. etrans; [by apply (slice_sum_le _ _ i); lia|done].
      * intros ts [_ Hgl] Ha Hb'. exfalso. specialize (G3 Hg).
        assert (has_ts (it_ts it) g = true) as Hg2.
        { destruct (decide (g = i)) as [->|]; [done|apply G2; lia]. }
        apply has_ts_true in Hb' as (y & Hy & Hyt). apply has_ts_true in Hg2 as (y' & Hy' & Hyt'). congruence.
    + split_and!; [left; lia|done|]. intros ts _ Ha Hb'.
      assert (ts = it_ts it) as -> by (apply has_ts_true in Hb' as (y & Hy & Hyt); congruence).
      rewrite Ha in Eg. cbn [andb] in Eg. zb. lia.
  - assert (slice_of items start (S i) = slice_of items start i ++ [it]) as Es by (apply slice_snoc; [lia|done]).
    destruct (IH (S i) (bytes + sizeOf it)) as (H1 & H2 & H3).
    + replace (S i) with (i + 1)%nat by lia. by rewrite <-drop_drop, Hl.
    + lia.
    + rewrite Es, sum_sizes_app, Hb. simpl. lia.
    + apply andb_false_iff in Eo as [Eo|Eo]; zb.
      * left. rewrite Es, sum_sizes_app, <-Hb. simpl. lia.
      * apply Nat.ltb_ge in Eo. right. lia.
    + split_and!; [|done|done]. destruct H1 as [H1|[H1 ->]]; [by left|simpl in H1; lia].
Qed.

Lemma frame_end_spec s : (s < length items)%nat →
  (s < frame_end s ≤ length items)%nat ∧ fits s (frame_end s) ∧ whole_groups s (frame_end s).
Proof.
  intros Hs. destruct (pack_spec s s 0 (drop s items) eq_refl) as (H1 & H2 & H3); [lia|by rewrite slice_empty| |].
  { left. rewrite slice_empty. unfold REPLAY_CHUNK_BYTES. simpl. lia. }
  assert (drop s items ≠ []) as Hne by (intros E; apply (f_equal length) in E; rewrite length_drop in E; simpl in E; lia).
  assert (s < pack s s 0 (drop s items))%nat as Hlt by (destruct H1 as [[? ?]|[_ ?]]; done).
  unfold frame_end. destruct (Nat.eqb_spec (pack s s 0 (drop s items)) s); [lia|]. cbn [andb].
  split_and!; [lia|destruct H1 as [?|[? ?]]; [lia|done]|done|done].
Qed.

Lemma cursorOf_h i : cursorOf i ≠ "h".
Proof. unfold cursorOf. destruct (js_int (it_ts i)) as [|c s]; [done|]. intros [= _ H]. by destruct s. Qed.

Lemma find_cursor n it l : NoDup (cursorOf <$> l) → l !! n = Some it →
  list_find (λ i, Some (cursorOf i) = Some (cursorOf it)) l = Some (n, it).
Proof.
  intros Hn Hl. apply list_find_Some. split_and!; [done|done|]. intros j y Hj Hlt [= E].
  assert (j = n); [|lia]. eapply NoDup_lookup; [exact Hn|rewrite list_lookup_fmap, Hj; simpl; done|].
  rewrite list_lookup_fmap, Hl. simpl. by rewrite E.
Qed.

(** Frames that cut the items from [s] on: each goes on behind the one before, none is empty but
    an only one, each fits or is a single entry, and none ends inside a group that would fit. *)
Inductive cut_from : nat → list (list item) → Prop :=
| cut_last s : fits s (length items) ∨ s = length items → cut_from s [slice_of items s (length items)]
| cut_more s e fs : (s < e < length items)%nat → fits s e → whole_groups s e → cut_from e fs →
    cut_from s (slice_of items s e :: fs).

Lemma cut_concat s fs : (s ≤ length items)%nat → cut_from s fs → concat fs = drop s items.
Proof.
  intros Hs H. induction H as [s H|s e fs He _ _ _ IH]; simpl.
  - rewrite app_nil_r. unfold slice_of. apply take_ge. by rewrite length_drop.
  - rewrite IH by lia. unfold slice_of. rewrite <-(take_drop (e - s) (drop s items)) at 2.
    rewrite drop_drop. by replace (s + (e - s))%nat with e by lia.
Qed.

Lemma frames_cut fuel want s : NoDup (cursorOf <$> items) → frame_start want = s → (s ≤ length items < s + fuel)%nat →
  ∃ fs, frames fuel want = Some fs ∧ cut_from s fs.
Proof.
  intros Hn. revert want s. induction fuel as [|fuel IH]; intros want s Hw Hs; [lia|]. cbn [frames]. unfold next_frame.
  rewrite Hw. destruct (decide (s = length items)) as [->|Hne].
  - assert (frame_end (length items) = length items) as ->.
    { unfold frame_end. rewrite drop_ge by lia. cbn [pack]. rewrite Nat.eqb_refl, Nat.ltb_irrefl. done. }
    rewrite Nat.ltb_irrefl. eexists. split; [done|]. constructor. by right.
  - destruct (frame_end_spec s ltac:(lia)) as (He & Hf & Hg). set (e := frame_end s) in *.
    replace (Nat.ltb s e) with true by (symmetry; apply Nat.ltb_lt; lia).
    destruct (lookup_lt_is_Some_2 items (e - 1)%nat ltac:(lia)) as [it Hit]. rewrite Hit.
    destruct (Nat.ltb_spec e (length items)) as [Hlt|Hge].
    + destruct (IH (Some (cursorOf it)) e) as (fs & -> & Hc); [|lia|].
      * unfold frame_start. rewrite decide_False by (intros [= E]; by apply (cursorOf_h it)).
        rewrite (find_cursor (e - 1) it) by done. lia.
      * eexists. split; [done|]. by constructor; [lia|..].
    + replace e with (length items) in * by lia. eexists. split; [done|]. constructor. by left.
Qed.

(** The export arrives whole and in order: pulled from the header's cursor on, the frames end,
    after at most one per entry, and together they are exactly the snapshot; each frame holds at
    most [REPLAY_CHUNK_BYTES] or is a single entry, and a frame ends between two entries of one
    stamp only where that stamp's entries alone exceed a frame. *)
Lemma frames_exact : NoDup (cursorOf <$> items) →
  ∃ fs, frames (S (length items)) (Some "h") = Some fs ∧ cut_from 0 fs ∧ concat fs = items.
Proof.
  intros Hn. destruct (frames_cut (S (length items)) (Some "h") 0 Hn) as (fs & E & Hc); [done|lia|].
  exists fs. split_and!; [done|done|]. rewrite (cut_concat 0) by (lia || done). done.
Qed.
End frames.

(** * The cursors of an export are distinct *)

Lemma cursorOf_inj i j : cursorOf i = cursorOf j → it_ts i = it_ts j ∧ it_id i = it_id j.
Proof.
  unfold cursorOf. intros H. apply num_run_unique in H as [H1 H2]; [|apply js_int_all_num..|done|done].
  split; [by apply js_int_inj|]. simpl in H2. by injection H2.
Qed.

Lemma activeDels_dead cf now r d : d ∈ activeDels cf now r → ∃ tb, (dm_msgId d, tb) ∈ tombstones r ∧ tomb_active now tb = true.
Proof.
  unfold activeDels. intros ([k tb] & -> & [Ha Hin]%list_elem_of_filter)%list_elem_of_fmap. simpl in *. exists tb.
  split; [done|]. by destruct (tomb_active now tb).
Qed.

Lemma export_cursors cf now r : store_ok r → NoDup (cursorOf <$> items_of (export_bodies r) (export_dels cf now r)).
Proof.
  intros Hok. assert (NoDup (it_id <$> items_of (export_bodies r) (export_dels cf now r))) as Hn.
  { unfold items_of. rewrite fmap_app, <-!list_fmap_compose. apply NoDup_app. split_and!.
    - unfold export_bodies. rewrite (merge_sort_Permutation body_le (cache r)). exact (so_nodup _ Hok).
    - intros id (e & -> & He)%list_elem_of_fmap (d & Hd & Hin)%list_elem_of_fmap. simpl in Hd.
      unfold export_bodies in He. rewrite merge_sort_Permutation in He.
      unfold export_dels in Hin. rewrite merge_sort_Permutation in Hin. apply activeDels_dead in Hin as (tb & Hin & _).
      apply (so_dead _ Hok (e_msgId e)).
      + rewrite Hd. apply elem_jget in Hin; [|apply Hok]. unfold jhas. by rewrite Hin.
      + apply (so_ids _ Hok), list_elem_of_fmap. by exists e.
    - unfold export_dels. rewrite (merge_sort_Permutation del_le (activeDels cf now r)). apply activeDels_keys, Hok. }
  revert Hn. induction (items_of _ _) as [|i l IH]; [done|]. cbn [fmap list_fmap]. intros [Hi Hn]%NoDup_cons.
  apply NoDup_cons. split; [|by apply IH]. intros (j & Hj & Hin)%list_elem_of_fmap. apply Hi, list_elem_of_fmap.
  exists j. split; [|done]. by apply cursorOf_inj in Hj as [_ ->].
Qed.

(** C11. A merge round hands over exactly what the loser held: a winner that pulls with every
    cursor it is given gets, after finitely many frames, every body of the cache and every active
    deletion of the loser's snapshot, once and in the snapshot's order; each frame holds at most
    [REPLAY_CHUNK_BYTES] or is a single entry, and a frame ends between two entries of one stamp
    only where that stamp's entries alone exceed a frame. *)
Theorem export_delivered cf now r : store_ok r →
  let items := items_of (export_bodies r) (export_dels cf now r) in
  ∃ fs, frames items (S (length items)) (Some "h") = Some fs ∧ cut_from items 0 fs ∧ concat fs = items ∧
    (∀ e, e ∈ cache r ↔ IBody e ∈ concat fs) ∧ (∀ d, d ∈ activeDels cf now r ↔ IDel d ∈ concat fs).
Proof.
  intros Hok items. destruct (frames_exact items) as (fs & H1 & H2 & H3); [by apply export_cursors|].
  exists fs. rewrite H3. split_and!; [done|done|done| |].
  - intros e. unfold items, items_of, export_bodies. rewrite elem_of_app, !list_elem_of_fmap.
    setoid_rewrite merge_sort_Permutation. naive_solver.
  - intros d. unfold items, items_of, export_dels. rewrite elem_of_app, !list_elem_of_fmap.
    setoid_rewrite merge_sort_Permutation. naive_solver.
Qed.

(** * Witness: the group of stamp 7 fits a frame, so the first frame ends before it *)

Fixpoint blank (n : nat) : string := match n with O => EmptyString | S n => String " "%char (blank n) end.
Definition stock (x a b : string) : role :=
  set_tomb "gone" (mk_tomb 90000 8 None None None None [])
    (push (mk_entry "x" 1 x None 0) (push (mk_entry "b" 7 b None 0) (push (mk_entry "a" 7 a None 0) (makeRole 9 true 0)))).
Definition demo_full : role := stock (blank 60000) (blank 30000) (blank 30000).
Definition demo_items : list item := items_of (export_bodies demo_full) (export_dels demo_cf 500 demo_full).
Definition frame_ids (fs : option (list (list item))) : list (list string) := map (map it_id) (default [] fs).

Lemma stock_ok x a b : store_ok (stock x a b).
Proof.
  split.
  - intros id. cbn. set_solver.
  - apply (bool_decide_unpack _). vm_compute. exact I.
  - cbn. lia.
  - intros e He. cbn in He. rewrite !elem_of_cons in He.
    destruct He as [->|[->|[->|He%not_elem_of_nil]]]; cbn; [..|done]; pose proof (strlen_nonneg x); pose proof (strlen_nonneg a);
      pose proof (strlen_nonneg b); lia.
  - intros id H Hin. assert (id = "gone") as ->; [|cbn in Hin; set_solver].
    revert H. unfold jhas, stock. cbn. destruct (decide ("gone" = id)); done.
  - apply (jwf_jset []), jwf_nil.
Qed.

Lemma export_delivered_witness :
  frame_ids (frames demo_items 5 (Some "h")) = [["x"]; ["a"; "b"; "gone"]] ∧
  ∃ fs, frames demo_items 5 (Some "h") = Some fs ∧ concat fs = demo_items.
Proof.
  split; [vm_compute; reflexivity|].
  destruct (export_delivered demo_cf 500 demo_full (stock_ok _ _ _)) as (fs & E & _ & H & _).
  exists fs. exact (conj E H).
Defined.
