(* ===== verification/MergeMachine.v ===== *)
(** MergeMachine.v - the hand-over of a topic from a losing root to a winning one:
    src/src/pubsub/mergeMachine.js, and the successor gate that can defer its last step
    (src/src/pubsub/successorGate.js).

    [mergeCut], [mergeGateClear] and [custodyAlive] are in TopicStore, [mergeOffer] and [closeCorr]
    in RootClaim; what a frame carries is in MergeFrames.  A frame as received is a record whose
    fields have the types the code tests for ([None]: the field is absent or of another type); a
    numeric text in place of a number is not modelled.  Random tokens are arguments.  A step that
    awaits takes what the other tasks did ([others]).  Where the code keeps an object across an
    await and looks its map entry up again, both are taken to be one object. *)
From stdpp Require Import base gmap sets list strings.
From Stdlib Require Import ZArith Lia.
From S2P Require Import Prelude HexId Role TopicStore RootClaim.
From S2P Require Import Canonical SignedRecords Transcripts TopicId Stamped MergeFrames.
#[local] Open Scope Z_scope.
#[local] Open Scope js_scope.
#[local] Set Default Proof Using "Type".

(** * Constants (constants.js) *)

Definition MERGE_GATE_FWD_MAX : Z := 256.
Definition MERGE_GATE_REENTRY_MS : Z := 10000.
Definition MERGE_A_MIN_MS : Z := HANDOFF_ACK_MAX_MS.
Definition MERGE_A_MAX_MS : Z := 4 * MERGE_TIMEOUT_MS.
Definition MERGE_E_MAX_MS : Z := FUTURE_TOLERANCE_MS.
Definition MERGE_TICK_MS : Z := 5000.
Definition MERGE_RETENTION_MS : Z := MERGE_TIMEOUT_MS + 2 * FUTURE_TOLERANCE_MS + MERGE_TICK_MS.
Definition MERGE_OFFER_TIMEOUT_MS : Z := 2 * HANDOFF_ACK_MAX_MS.
Definition MERGE_WRITE_RESERVE_ENTRIES : Z := 64.
Definition MERGE_WRITE_RESERVE_BYTES : Z := 1024 * 1024.
Definition RENEW_MS : Z := 60000.
Definition SUCCESSORS_MAX : Z := 32.

(** Further construction options: the binding of a hand-over to the loser's identity, the
    successor gate, [processKind === 'app'] and the host tag. *)
Record mopts := mk_mopts { handoffBinding : bool; successorGate : bool; appProcess : bool; hostTag : option string }.

(** * Small helpers *)

(** [role.merge.pins] *)
Definition pin_ids (ids : list string) (m : mstate) : mstate := with_pins (list_to_set ids ∪ pins m) m.
Definition unpin_ids (ids : list string) (m : mstate) : mstate := with_pins (pins m ∖ list_to_set ids) m.
Definition put_merge (corr : string) (m : mrec) (r : role) : role := with_openMerges (jset (openMerges r) corr m) r.
(** A change of a record that is still open. *)
Definition map_round (corr : string) (f : mrec → mrec) (r : role) : role :=
  match jget (openMerges r) corr with Some m => put_merge corr (f m) r | None => r end.
Definition put_pull (corr : string) (p : prec) (r : role) : role := with_openPulls (jset (openPulls r) corr p) r.
Definition map_pull (corr : string) (f : prec → prec) (r : role) : role :=
  match jget (openPulls r) corr with Some p => put_pull corr (f p) r | None => r end.
Definition drop_pull (corr : string) (r : role) : role := with_openPulls (jdel (openPulls r) corr) r.
(** [if (role.merge?.candidate?.id === id) role.merge.candidate = null] *)
Definition drop_candidate (id : string) : role → role :=
  map_merge (λ m, match candidate_ m with Some c => if decide (c_id c = id) then with_candidate_ None m else m | None => m end).
Definition clear_gate : role → role := map_merge (λ m, with_mcorr None (with_gate_ None m)).
Definition gate_corr (r : role) : option string := g_corr <$> gate_of r.

Definition hex_id (h : string) : option Z := if ids_isHexId h then idBigS h else None.

(** * Ending a round *)

(** [_mergeUnpinDeferred] *)
Definition mergeUnpinDeferred (m : option mrec) (r : role) : role :=
  match m with
  | Some m =>
      if negb (m_deferPinned m) || match merge r ≫= completing_ with Some _ => true | None => false end then r
      else map_merge (unpin_ids (m_bodies m ++ m_dels m)) r
  | None => r
  end.

(** [_mergeAbort]: [None] where no gate is set. *)
Definition abort_role (r : role) : role :=
  match gate_of r with
  | None => r
  | Some g =>
      let r := mergeUnpinDeferred (jget (openMerges r) (g_corr g)) r in
      let r := closeCorr (g_corr g) r in
      clear_gate (map_merge (with_candidate_ None) r)
  end.
Definition mergeAbort (G : mgr) (ref : nat) : mgr := upd G ref abort_role.

(** [_mergeReleasePins]: every pin of the role. *)
Definition mergeReleasePins : role → role := map_merge (λ m, with_reserve_ None (with_pins ∅ m)).

(** [_stageEnd] *)
Definition stageEnd (G : mgr) (ref : nat) (corr : string) : mgr :=
  match role_at G ref with
  | Some r =>
      match staging r with
      | Some st =>
          if negb (bool_decide (sg_corr st = corr)) then G
          else
            let G := upd G ref (with_staging None) in
            if sg_created st && negb (isRoot r) then put_axonRoles (jdel (axonRoles G) (topicId r)) G else G
      | None => G
      end
  | None => G
  end.

(** The end of a pull without completion. *)
Definition pullEnd (G : mgr) (ref : nat) (corr : string) (release : bool) : mgr :=
  let G := upd G ref (λ r, drop_pull corr (if release then mergeReleasePins r else r)) in
  stageEnd G ref corr.

(** * The sweep ([_mergeSweep]) *)

Section sweep.
Context (E : env) (tok : string → string).   (** the token minted for a round's fallback *)

(** One open round of the role. *)
Definition sweep_merge (ref : nat) (G : mgr) (p : string * mrec) : mgr :=
  let (corr, m) := p in
  match role_at G ref with
  | None => G
  | Some r =>
      if bool_decide (m_state m = MOffered) && (MERGE_OFFER_TIMEOUT_MS <=? now E - m_offeredAt m) then
        let G := upd G ref (closeCorr corr) in
        if cutover (mcf G) then upd G ref (drop_candidate (m_winner m))
        else if negb (bool_decide (m_reached m = Some true)) || negb (isRoot r) ||
                match gate_of r with Some _ => true | None => false end then
          if negb (bool_decide (m_reached m = Some true)) && match gate_of r with Some _ => false | None => true end
          then upd G ref (drop_candidate (m_winner m)) else G
        else
          let G := upd G ref (upd_merge (with_releaseToken (Some (tok corr)))) in
          (demote E G (topicId r) (m_winner m) "merge-legacy-fallback" (Some (tok corr)) false).1
      else G
  end.

(** One open pull of the role. *)
Definition sweep_pull (ref : nat) (G : mgr) (q : string * prec) : mgr :=
  let (corr, p) := q in
  if p_acked p then if MERGE_RETENTION_MS <=? now E - p_tS p then pullEnd G ref corr true else G
  else if MERGE_TIMEOUT_MS <=? now E - p_startedAt p then pullEnd G ref corr true else G.

Definition sweep_role (G : mgr) (q : Z * nat) : mgr :=
  let ref := q.2 in
  let G := match role_at G ref ≫= gate_of with
           | Some g => if MERGE_TIMEOUT_MS <=? now E - g_at g then mergeAbort G ref else G
           | None => G
           end in
  let G := foldl (sweep_merge ref) G (default [] (openMerges <$> role_at G ref)) in
  foldl (sweep_pull ref) G (default [] (openPulls <$> role_at G ref)).
Definition mergeSweep (G : mgr) : mgr := foldl sweep_role G (axonRoles G).
End sweep.

(** * The gate's forward *)

(** A bare write at a gated root: its type, whether it carries a [via], its [gateFwd]. *)
Record write := mk_write { w_type : string; w_via : bool; w_gateFwd : option string }.

(** [_forwardToWinner]: the flight it opens under the bound epoch is [WriteFlight]'s. *)
Definition forwardToWinner (G : mgr) (t : Z) (g : gate) (nonce : string) : mgr :=
  emit G (ForwardWinner t (g_winner g) (g_winnerEpoch g) (g_corr g) nonce).

Definition live_fwd (now : Z) (l : jmap string (Z * string * string)) : jmap string (Z * string * string) :=
  foldl (λ m p, if MERGE_GATE_REENTRY_MS <=? now - p.2.1.1 then jdel m p.1 else m) l l.

(** [_mergeGateForward] *)
Definition mergeGateForward (E : env) (nonce : string) (G : mgr) (t : Z) (ref : nat) (ty : string) (g : gate) : mgr :=
  let G := upd G ref (upd_merge (λ m, with_gateFwd (live_fwd (now E) (gateFwd m)) m)) in
  let size := match role_at G ref with Some r => jsize (gateFwd (mstate_of r)) | None => 0 end in
  if MERGE_GATE_FWD_MAX <=? size then emit G (UndeliverableE t "merge-gate-saturated")
  else
    let G := upd G ref (upd_merge (λ m, with_gateFwd (jset (gateFwd m) nonce (now E, ty, g_corr g)) m)) in
    forwardToWinner G t g nonce.

(** [_mergeGateIntercept]: whether the write was handled here. *)
Definition mergeGateIntercept (E : env) (nonce : string) (G : mgr) (t : Z) (w : write) : mgr * bool :=
  if w_via w then (G, false)
  else
    let g := match live G t with Some (_, r) => gate_of r | None => None end in
    match w_gateFwd w with
    | Some k =>
        let ours := match live G t with
                    | Some (_, r) => match merge r ≫= λ m, jget (gateFwd m) k with
                                     | Some (_, ty, _) => bool_decide (ty = w_type w)
                                     | None => false
                                     end
                    | None => false
                    end in
        let G := match live G t with
                 | Some (ref, _) => if ours then upd G ref (map_merge (λ m, with_gateFwd (jdel (gateFwd m) k) m)) else G
                 | None => G
                 end in
        if ours || match g with Some _ => true | None => false end
        then (emit G (UndeliverableE t (if ours then "merge-gate-return" else "merge-gate-return-unknown")), true)
        else (G, false)
    | None =>
        match g, live G t with
        | Some g, Some (ref, _) =>
            if g_staged g then (G, false) else (mergeGateForward E nonce G t ref (w_type w) g, true)
        | _, _ => (G, false)
        end
    end.

(** What the forward's dispatch answered, and what its flight learns. *)
Inductive verdict := VConsumed | VFailed | VUnsupported | VViolation.
Definition abort_round (G : mgr) (t : Z) (corr : string) : mgr :=
  match live G t with
  | Some (ref, r) => if bool_decide (gate_corr r = Some corr) then mergeAbort G ref else G
  | None => G
  end.
Definition forwardVerdict (G : mgr) (t : Z) (corr : string) (v : verdict) : mgr :=
  match v with VFailed => abort_round G t corr | _ => G end.
Definition mergeFlightLive (G : mgr) (t : Z) (corr : string) : bool :=
  match live G t with Some (_, r) => bool_decide (gate_corr r = Some corr) | None => false end.
Definition mergeWinnerReminted (E : env) (corr2 : string) (G : mgr) (t : Z) (rootHex corr : string) (gotEpoch : Z) : mgr :=
  if mergeFlightLive G t corr then
    (mergeCandidate E corr2 (abort_round G t corr) t rootHex (Some (to_int32 gotEpoch)) "reminted").1
  else G.
Definition mergeFlightSilent (G : mgr) (t : Z) (corr : string) : mgr := abort_round G t corr.

(** [Promise.resolve(sent).then(..)] of [_mergeOffer]: whether the offer reached anyone. *)
Definition offerVerdict (G : mgr) (ref : nat) (corr : string) (v : verdict) : mgr :=
  upd G ref (map_round corr (with_m_reached (Some (match v with VConsumed | VUnsupported => true | _ => false end)))).

(** * Timing *)

Record wtiming := mk_wtiming { wt_version : jsv; wt_A : jsv; wt_E : jsv }.
(** [_mergeTimingAccepted], with the numbers. *)
Definition mergeTimingAccepted (w : option wtiming) : option timing :=
  match w with
  | Some (mk_wtiming (JInt v) (JInt a) (JInt e)) =>
      if (v =? MERGE_TIMING_VERSION) && (MERGE_A_MIN_MS <=? a) && (a <=? MERGE_A_MAX_MS) && (0 <=? e) && (e <=? MERGE_E_MAX_MS)
      then Some (mk_timing v a e) else None
  | _ => None
  end.
Definition sameTiming (w : option wtiming) (t : timing) : bool :=
  match w with
  | Some (mk_wtiming (JInt v) (JInt a) (JInt e)) => (v =? tm_version t) && (a =? tm_A t) && (e =? tm_E t)
  | _ => false
  end.
Definition send_timing (t : timing) : option wtiming := Some (mk_wtiming (JInt (tm_version t)) (JInt (tm_A t)) (JInt (tm_E t))).

(** * The offer, at the winner *)

Record offer_msg := mk_offer {
  of_topic : option Z;            (** [idBig(payload.topicId)], [None] where it throws *)
  of_corr : option string; of_loser : string; of_loserEpoch : option Z;
  of_count : Z; of_hw : bool;     (** [payload.count | 0], [Number.isFinite(payload.hw)] *)
  of_timing : option wtiming; of_handoff : bool
}.

Section machine.
Context (O : mopts).

(** [_mergePull] *)
Definition mergePull (G : mgr) (t : Z) (ref : nat) (corr : string) (cursor : option string) : mgr :=
  match role_at G ref with
  | Some r =>
      match jget (openPulls r) corr with
      | Some p =>
          let staged := match staging r with Some st => bool_decide (sg_corr st = corr) | None => false end in
          let app := staged && successorGate O && appProcess O in
          emit G (MergeSend t (p_loser p)
            (FPull corr (selfHex G) (to_int32 (epoch r)) cursor (p_timing p) staged app
               (if app then hostTag O else None)))
      | None => G
      end
  | None => G
  end.

Definition new_pull (loser : string) (loserEpoch at_ : Z) (tm : timing) : prec :=
  mk_prec loser loserEpoch None 0 0 0 at_ tm false [] [] 0 None false.

Definition answer (G : mgr) (t : Z) (corr : string) (myEpoch : Z) (loser : string) (loserEpoch : Z) (disposition : string) : mgr :=
  emit G (MergeSend t loser (FAck corr (selfHex G) (to_int32 myEpoch) loser loserEpoch disposition 0 0 None)).

Definition open_pull (E : env) (G : mgr) (t : Z) (ref : nat) (corr loser : string) (loserEpoch : Z) (tm : timing) : mgr :=
  let G := upd G ref (λ r, put_pull corr (new_pull loser loserEpoch (now E) tm) (upd_merge id r)) in
  mergePull G t ref corr None.

(** [_stageOffer]: [None] where it answers false. *)
Definition stageOffer (E : env) (G : mgr) (t : Z) (loser corr : string) (o : offer_msg) : option mgr :=
  if neverRoot (mcf G) || saturated E then None
  else if negb (of_handoff o) then None
  else if negb ((0 <? of_count o) || of_hw o) then None
  else match hex_id loser with
  | None => None
  | Some lb =>
      if dist lb t <=? dist (nodeId (mcf G)) t then None
      else
        let le := default 0 (of_loserEpoch o) in
        let mine := match live G t with Some (_, r) => epoch r | None => 0 end in
        match mergeTimingAccepted (of_timing o) with
        | None => Some (answer G t corr mine loser le "refused-timing")
        | Some tm =>
            match live G t with
            | Some (ref, r) =>
                match staging r with
                | Some st =>
                    if negb (bool_decide (sg_corr st = corr)) then Some (answer G t corr mine loser le "busy")
                    else if jhas (openPulls r) corr then Some G
                    else Some (open_pull E (upd G ref (with_staging (Some (mk_staging corr loser le false (now E)))))
                                 t ref corr loser le tm)
                | None =>
                    if jhas (openPulls r) corr then Some G
                    else Some (open_pull E (upd G ref (with_staging (Some (mk_staging corr loser le false (now E)))))
                                 t ref corr loser le tm)
                end
            | None =>
                let ref := length (heap G) in
                let G := alloc G t (with_staging (Some (mk_staging corr loser le true (now E))) (makeRole t false (now E))) in
                Some (open_pull E G t ref corr loser le tm)
            end
        end
  end.

(** The root-to-root part of [_onMergeOffer]. *)
Definition offer_root (E : env) (corr2 : string) (G : mgr) (t : Z) (ref : nat) (r : role) (loser : string) (lb : Z)
    (corr : string) (o : offer_msg) : mgr :=
  let le := default 0 (of_loserEpoch o) in
  if wins G t (lb, le) then
    (mergeCandidate E corr2 (answer G t corr (epoch r) loser le "outranked") t loser (Some le) "offer").1
  else match mergeTimingAccepted (of_timing o) with
  | None => answer G t corr (epoch r) loser le "refused-timing"
  | Some tm => if jhas (openPulls r) corr then G else open_pull E G t ref corr loser le tm
  end.

Definition not_root (G : mgr) (t : Z) (corr loser : string) (o : offer_msg) : mgr :=
  answer G t corr (match live G t with Some (_, r) => epoch r | None => 0 end) loser (default 0 (of_loserEpoch o)) "not-root".

Definition serves (G : mgr) (t : Z) : bool := match live G t with Some (_, r) => isRoot r | None => false end.

(** [_onMergeOffer]: [mine] is [meta.targetId === nodeId]; [bound] is what [_verifyHandoff]
    answered ([None]: it rejected), [others] what ran until then, [E'] the clocks at that time. *)
Definition onMergeOffer (E E' : env) (others : mgr → mgr) (bound : option bool) (corr2 : string) (mine : bool)
    (G : mgr) (o : offer_msg) : mgr :=
  if negb mine || negb (mergeCapable (mcf G)) then G
  else match of_topic o, of_corr o, hex_id (lc (of_loser o)) with
  | Some t, Some corr, Some lb =>
      let loser := lc (of_loser o) in
      let refused G := not_root G t corr loser o in
      if lb =? nodeId (mcf G) then G
      else if negb (serves G t) && cutover (mcf G) then
        if handoffBinding O && of_handoff o then
          let G := others G in
          match bound, live G t with
          | None, _ => refused G
          | Some b, Some (ref, r) =>
              if isRoot r then offer_root E' corr2 G t ref r loser lb corr o
              else if b then default (refused G) (stageOffer E' G t loser corr o) else refused G
          | Some b, None => if b then default (refused G) (stageOffer E' G t loser corr o) else refused G
          end
        else default (refused G) (stageOffer E G t loser corr o)
      else match live G t with
      | Some (ref, r) => if isRoot r then offer_root E corr2 G t ref r loser lb corr o else refused G
      | None => refused G
      end
  | _, _, _ => G
  end.

(** [_stagingIntercept]: a staged role passes a write or a subscription on to the loser.
    [subscriber] is given where the payload bears a merge block. *)
Definition stagingIntercept (G : mgr) (t : Z) (isSub : bool) (subscriber : option string) (stageFwd : bool) : mgr * bool :=
  match live G t with
  | Some (_, r) =>
      match staging r with
      | Some st =>
          if isRoot r then (G, false)
          else if isSub && negb (sg_created st) then (G, false)
          else if isSub && match subscriber with Some s => bool_decide (lc s = sg_loser st) | None => false end then (G, false)
          else if stageFwd then (emit G (UndeliverableE t "merge-stage-return"), true)
          else (emit G (ForwardLoser t (sg_loser st) (slice_to 16 (sg_corr st))), true)
      | None => (G, false)
      end
  | None => (G, false)
  end.

(** * The pull, at the loser *)

Record pull_msg := mk_pull {
  pu_topic : option Z; pu_corr : string; pu_parent : string; pu_winnerEpoch : option Z;
  pu_cursor : option string; pu_timing : option wtiming; pu_staged : bool; pu_handoff : bool;
  pu_ephemeral : bool; pu_fdHost : option string
}.

(** The length of [JSON.stringify({ bodies, dels, manifest })]; the order of members does not
    change it.  [kill_json] is a signed deletion as it travels. *)
Section measure.
Context (kill_json : killproof → json).
Definition opt_num (o : option Z) : json := match o with Some z => JNumber z | None => JUndefined end.
Definition body_json (e : entry) : json :=
  JObject [("json", JText (e_json e)); ("publishTs", JNumber (publishTs e)); ("msgId", JText (e_msgId e));
           ("seq", opt_num (e_seq e)); ("bytes", JNumber (e_bytes e))].
Definition del_json (d : delmark) : json :=
  JObject [("del", JBoolV true); ("msgId", JText (dm_msgId d)); ("killTs", JNumber (dm_killTs d));
           ("signer", match dm_signer d with Some s => JText s | None => JNullV end); ("seq", opt_num (dm_seq d));
           ("publishTs", JNumber (dm_killTs d)); ("kill", match dm_kill d with Some k => kill_json k | None => JUndefined end)].
Definition exportBytes (bodies : list entry) (dels : list delmark) : Z :=
  strlen (canonical (JObject
    [("bodies", JArray (body_json <$> bodies)); ("dels", JArray (del_json <$> dels));
     ("manifest", JObject [("bodies", JArray (JText ∘ e_msgId <$> bodies)); ("dels", JArray (JText ∘ dm_msgId <$> dels))])])).
End measure.

Definition item_bodies (l : list item) : list entry := omap (λ i, match i with IBody e => Some e | IDel _ => None end) l.
Definition item_dels (l : list item) : list delmark := omap (λ i, match i with IDel d => Some d | IBody _ => None end) l.

(** The data branch: a frame behind the cursor last sent. *)
Definition answer_data (G : mgr) (t : Z) (ref : nat) (r : role) (requester corr : string) (m : mrec) (cursor : option string) : mgr :=
  if negb (bool_decide (cursor = m_lastCursorSent m)) then G
  else
    let '(sl, last, more) := next_frame (m_snapshot m) (m_lastCursorSent m) in
    let G := upd G ref (map_round corr (with_m_lastCursorSent last)) in
    emit G (MergeSend t requester
      (FData corr (to_int32 (epoch r)) (m_lastCursorSent m) last more (item_bodies sl) (item_dels sl)
         (e_msgId <$> item_bodies sl) (dm_msgId <$> item_dels sl)
         (if more then None
          else Some (Z.of_nat (length (m_bodies m)), Z.of_nat (length (m_dels m)), m_hash m)))).

Section bind.
Context (E : env) (kill_json : killproof → json).

(** The bind: timing, cut and gate, the export, and the header once its hash is there. *)
Definition answer_bind (G : mgr) (t : Z) (ref : nat) (r : role) (requester : string) (we : Z) (p : pull_msg) (m : mrec)
    : mgr * js_result unit :=
  let corr := pu_corr p in
  if negb (sameTiming (pu_timing p) (m_timing m)) then
    let G := upd G ref (closeCorr corr) in
    (if cutover (mcf G) then upd G ref (drop_candidate (m_winner m)) else G, Ok tt)
  else if negb (isRoot r) || match gate_of r with Some _ => true | None => false end ||
          match merge r ≫= completing_ with Some _ => true | None => false end then (G, Ok tt)
  else if cutover (mcf G) && pu_staged p && negb (pu_handoff p) then
    let G := upd G ref (closeCorr corr) in
    match merge r with
    | None => (G, Throw typeError)     (** [role.merge.closedCorrs] of a role with no merge state *)
    | Some _ => (upd G ref (drop_candidate (m_winner m)), Ok tt)
    end
  else
    let G := upd G ref (map_round corr (with_m_winnerEpoch we)) in
    match mergeCut G (now E) t requester we corr with
    | (G, None) => (G, Ok tt)
    | (G, Some g) =>
        let G := if cutover (mcf G) && pu_staged p
                 then upd G ref (map_merge (with_gate_ (Some (mk_gate (g_winner g) (g_winnerEpoch g) (g_corr g) (g_at g) true))))
                 else G in
        let G := upd G ref (map_round corr (λ m, with_m_winnerHost (slice_to 32 <$> pu_fdHost p) (with_m_ephemeral (pu_ephemeral p) m))) in
        let bodies := export_bodies r in
        let dels := export_dels (mcf G) (now E) r in
        let bytes := exportBytes kill_json bodies dels in
        if EXPORT_BYTES_MAX <? bytes then
          let G := upd G ref (λ r, map_merge (with_candidate_ None) (clear_gate (closeCorr corr r))) in
          (emit G (MergeSend t requester (FRefused corr (to_int32 (epoch r)))), Ok tt)
        else
          let G := upd G ref (map_round corr (λ m,
            with_m_lastCursorSent (Some "h") (with_m_tBWall (now E) (with_m_tB (mono E) (with_m_boundAt (now E)
              (with_m_state MBound (with_m_dels (dm_msgId <$> dels) (with_m_bodies (e_msgId <$> bodies)
                (with_m_snapshot (items_of bodies dels) m))))))))) in
          (emit G (MergeHash ref corr requester (e_msgId <$> bodies) (dm_msgId <$> dels) bytes), Ok tt)
    end.

(** [_mergeAnswerPull] *)
Definition mergeAnswerPull (G : mgr) (p : pull_msg) : mgr * js_result unit :=
  let corr := pu_corr p in
  let requester := lc (pu_parent p) in
  match pu_topic p with
  | None => (G, Ok tt)
  | Some t =>
      match live G t, hex_id requester with
      | Some (ref, r), Some rb =>
          let we := default 0 (pu_winnerEpoch p) in
          match jget (openMerges r) corr with
          | Some m =>
              if negb (bool_decide (m_winner m = requester)) then (G, Ok tt)
              else match m_state m with
              | MOffered => answer_bind G t ref r requester we p m
              | MBound => (answer_data G t ref r requester corr m (pu_cursor p), Ok tt)
              | MCompleted => (G, Ok tt)
              end
          | None =>
              if match merge r with Some s => bool_decide (corr ∈ closedCorrs s) | None => false end then (G, Ok tt)
              else if negb (mergeCapable (mcf G)) || negb (isRoot r) || negb (wins G t (rb, we)) then (G, Ok tt)
              else match mergeTimingAccepted (pu_timing p) with
              | None => (G, Ok tt)
              | Some tm =>
                  let m := offered requester we (to_int32 (epoch r)) (now E) tm in
                  let G := upd G ref (put_merge corr m) in
                  answer_bind G t ref (put_merge corr m r) requester we p m
              end
          end
      | _, _ => (G, Ok tt)
      end
  end.
End bind.

(** [_mergeManifestHash]: what is hashed; and the header, sent when the hash is there. *)
Definition manifestText (bodies dels : list string) : string := join_comma bodies +:+ "|" +:+ join_comma dels.
Definition hashDone (sha256 : bytes → bytes) (G : mgr) (t : Z) (ref : nat) (corr requester : string)
    (bodies dels : list string) (bytes : Z) : mgr :=
  let hash := sha256Hex sha256 (manifestText bodies dels) in
  let G := upd G ref (map_round corr (with_m_hash (Some hash))) in
  match role_at G ref with
  | Some r => emit G (MergeSend t requester
      (FHeader corr (to_int32 (epoch r)) (Z.of_nat (length bodies)) (Z.of_nat (length dels)) bytes hash))
  | None => G
  end.

(** * The frames, at the winner *)

Record frame_msg := mk_frame {
  fr_topic : option Z; fr_corr : string; fr_loserEpoch : option Z; fr_refused : bool;
  fr_header : option (Z * Z);                   (** [header.bodies], [header.bytes] *)
  fr_cursor : option string; fr_lastCursor : option string; fr_more : bool;
  fr_msgs : list json; fr_dels : list delmark; fr_slice : list string * list string;
  fr_man : Z * Z * option string
}.

(** The header: admission against the caps, and the baseline's pins. *)
Definition admit_header (G : mgr) (t : Z) (ref : nat) (r : role) (corr : string) (p : prec) (h : Z * Z) : mgr :=
  let needN := Z.of_nat (length (cache r)) + to_int32 h.1 + MERGE_WRITE_RESERVE_ENTRIES in
  let needB := cacheBytes r + to_int32 h.2 + MERGE_WRITE_RESERVE_BYTES in
  if (cacheMax (mcf G) <? needN) || (cacheBytesMax (mcf G) <? needB) then
    pullEnd (answer G t corr (epoch r) (p_loser p) (p_loserEpoch p) "refused-capacity") ref corr false
  else
    let G := upd G ref (λ r, map_pull corr (with_p_cursor (Some "h"))
               (upd_merge (λ m, with_reserve_ (Some (MERGE_WRITE_RESERVE_ENTRIES, MERGE_WRITE_RESERVE_BYTES))
                                  (pin_ids (e_msgId <$> cache r) m)) r)) in
    mergePull G t ref corr (Some "h").

Section winner.
Context (JSON_parse : string → option json) (sha256 : bytes → bytes)
  (ed_verify : bytes → bytes → bytes → js_result bool) (resolveRegion : json → option Z) (ks : keyspace).
Context (others : nat → mgr → mgr) (clock : nat → Z) (verified : Z → delmark → bool).

(** [(role.tombstones.get(id)?.exp ?? 0) > now] *)
Definition dead_at (now : Z) (r : role) (id : string) : bool :=
  match jget (tombstones r) id with Some tb => tomb_active now tb | None => false end.
Definition retained (now : Z) (r : role) (ids : list string) : Z :=
  Z.of_nat (length (base.filter (λ id, id ∈ cacheIds r ∨ dead_at now r id = true) ids)).
Definition dels_active (now : Z) (r : role) (ids : list string) : Z :=
  Z.of_nat (length (base.filter (λ id, dead_at now r id = true) ids)).

(** The terminal frame: the check of what is retained, and the acknowledgement. *)
Definition terminal (now : Z) (G : mgr) (t : Z) (ref : nat) (corr : string) (p : prec) (man : Z * Z * option string) : mgr :=
  match role_at G ref with
  | None => G
  | Some r =>
      let hash := sha256Hex sha256 (manifestText (p_bodies p) (p_dels p)) in
      let ret := retained now r (p_bodies p) in
      let act := dels_active now r (p_dels p) in
      let full := (ret =? man.1.1) && (act =? man.1.2) && (Z.of_nat (length (p_bodies p)) =? man.1.1) &&
                  (Z.of_nat (length (p_dels p)) =? man.1.2) && bool_decide (man.2 = Some hash) in
      let G := upd G ref (map_pull corr (λ p, with_p_full full (with_p_hash (Some hash) (with_p_tS now (with_p_acked true p))))) in
      emit G (MergeSend t (p_loser p)
        (FAck corr (selfHex G) (to_int32 (epoch r)) (p_loser p) (p_loserEpoch p)
           (if full then "full" else "short") ret act (Some hash)))
  end.

(** A data frame: pins before ingest; deletions, then bodies; the next pull or the end.
    [cur] is the record as it stands after the awaits. *)
Definition ingest_data (k : nat) (G : mgr) (t : Z) (ref : nat) (p : prec) (f : frame_msg) : mgr * js_result unit :=
  let corr := fr_corr f in
  let p := with_p_dels (p_dels p ++ (fr_slice f).2) (with_p_bodies (p_bodies p ++ (fr_slice f).1) p) in
  let G := upd G ref (λ r, map_pull corr (λ _, p) (upd_merge (pin_ids ((fr_slice f).1 ++ (fr_slice f).2)) r)) in
  let c := cutCapture G ref in
  let '(G, delsOk) := applyDels others clock verified k G ref t (fr_dels f) c None in
  let k := (k + length (fr_dels f))%nat in
  let n := Z.of_nat (length (fr_msgs f)) in
  let '(G, res) := if delsOk
                   then ingestStampedBatch JSON_parse sha256 ed_verify resolveRegion ks others clock k G ref (fr_msgs f) c
                   else (G, Ok (mk_tally n 0 n true)) in
  match res with
  | Throw x => (G, Throw x)
  | Ok ta =>
      let k := (k + 4 * length (fr_msgs f))%nat in
      let cur := match role_at G ref with Some r => default p (jget (openPulls r) corr) | None => p end in
      let cur := with_p_cursor (match fr_lastCursor f with Some l => Some l | None => p_cursor cur end)
                   (with_p_sent (p_sent cur + n) (with_p_held (p_held cur + ta_held ta) (with_p_framesIn (p_framesIn cur + 1) cur))) in
      let G := upd G ref (map_pull corr (λ _, cur)) in
      if fr_more f then (mergePull G t ref corr (p_cursor cur), Ok tt)
      else
        let G := others k G in
        let cur := match role_at G ref with Some r => default cur (jget (openPulls r) corr) | None => cur end in
        (terminal (clock k) G t ref corr cur (fr_man f), Ok tt)
  end.

(** [_mergeIngestFrame] *)
Definition mergeIngestFrame (k : nat) (G : mgr) (f : frame_msg) : mgr * js_result unit :=
  match fr_topic f with
  | None => (G, Ok tt)
  | Some t =>
      match live G t with
      | None => (G, Ok tt)
      | Some (ref, r) =>
          match jget (openPulls r) (fr_corr f) with
          | None => (G, Ok tt)
          | Some p =>
              if p_acked p then (G, Ok tt)
              else if match fr_loserEpoch f with Some e => negb (e =? p_loserEpoch p) | None => false end then (G, Ok tt)
              else if fr_refused f then (pullEnd G ref (fr_corr f) false, Ok tt)
              else match fr_header f with
              | Some h => (admit_header G t ref r (fr_corr f) p h, Ok tt)
              | None =>
                  if negb (bool_decide (fr_cursor f = p_cursor p)) then (G, Ok tt)
                  else ingest_data k G t ref p f
              end
          end
      end
  end.
End winner.

(** * The acknowledgement and the flip, at the loser *)

(** [_highWater(role)] now, against each successor's. *)
Definition secondHolderCurrent (E : env) (r : role) (m : mrec) : bool :=
  existsb (λ p : string * successor,
    negb (bool_decide (p.1 = lc (m_winner m))) && (now E - su_at p.2 <=? RENEW_MS) && (highWater r <=? su_hw p.2) &&
    negb match m_winnerHost m, su_host p.2 with
         | Some h, Some h' => negb (bool_decide (h = "")) && bool_decide (h' = h)
         | _, _ => false
         end) (successors r).

(** The lease: [now <= tB + A] on the monotonic clock, and no jump of the wall clock past [E]. *)
Definition leaseOk (E : env) (m : mrec) : bool :=
  let dm := mono E - m_tB m in
  let dw := now E - m_tBWall m in
  (dm <=? tm_A (m_timing m)) && (Z.abs (dw - dm) <=? tm_E (m_timing m)).

Definition pin_export (m : mrec) : role → role := upd_merge (pin_ids (m_bodies m ++ m_dels m)).

(** [_mergeStep5]: [mono2] is the monotonic clock after the flip. *)
Definition mergeStep5 (E : env) (mono2 : Z) (tok : string) (G : mgr) (t : Z) (ref : nat) (corr : string) (m : mrec) : mgr :=
  if negb (leaseOk E m) then mergeAbort G ref
  else
    let gateCorr := match role_at G ref with Some r => gate_corr r | None => None end in
    let G := upd G ref (pin_export m) in
    let G := upd G ref (upd_merge (λ s,
      with_acceptedWinner (Some (mk_accepted (m_winner m) (to_int32 (m_winnerEpoch m)) (now E) (now E + to_int32 (stepDownHoldMs (mcf G)))))
        (with_releaseToken (Some tok) s))) in
    let '(G, ok) := demote E G t (m_winner m) "merge-step5" (Some tok) true in
    if negb ok then mergeAbort (upd G ref (map_merge (λ s, with_acceptedWinner None (with_releaseToken None s)))) ref
    else
      let G := if bool_decide (gateCorr = Some corr) then upd G ref clear_gate else G in
      let G := upd G ref (map_round corr (with_m_state MCompleted)) in
      if tm_A (m_timing m) <? mono2 - m_tB m then G
      else
        let G := upd G ref (upd_merge (with_completing_
                   (Some (mk_completing corr (m_winner m) (to_int32 (m_winnerEpoch m)) (to_int32 (m_loserEpoch m)) (m_hash m) true)))) in
        emit G (SendSubscribe t).

Record ack_msg := mk_ack {
  ak_topic : option Z; ak_topicText : string; ak_corr : string; ak_winner : string; ak_winnerEpoch : Z; ak_loser : string;
  ak_loserEpoch : Z; ak_disposition : string; ak_retained : Z; ak_delsActive : Z; ak_hash : option string
}.

Definition is_refusal (cf : mcfg) (d : string) : bool :=
  bool_decide (d = "refused-timing" ∨ d = "refused-capacity" ∨ d = "not-root" ∨ d = "outranked") ||
  cutover cf && bool_decide (d = "busy").

(** A refusal closes the round; a winner that is no candidate any more is dropped. *)
Definition ack_refused (G : mgr) (t : Z) (ref : nat) (corr : string) (m : mrec) (d : string) : mgr :=
  let G := upd G ref (closeCorr corr) in
  let G := upd G ref (λ r, if bool_decide (gate_corr r = Some corr) then clear_gate r else r) in
  let transient := cutover (mcf G) && bool_decide (d = "refused-capacity" ∨ d = "refused-timing" ∨ d = "busy") in
  let G := if cutover (mcf G)
           then match jget (rootBeacons G) t with
                | Some b => if bool_decide (b_root b = m_winner m) then put_rootBeacons (jdel (rootBeacons G) t) G else G
                | None => G
                end
           else G in
  if bool_decide (d = "not-root" ∨ d = "outranked") || transient then upd G ref (drop_candidate (m_winner m)) else G.

(** The retention check. *)
Definition ack_full (a : ack_msg) (m : mrec) : bool :=
  bool_decide (ak_disposition a = "full") && (to_int32 (ak_retained a) =? Z.of_nat (length (m_bodies m))) &&
  (to_int32 (ak_delsActive a) =? Z.of_nat (length (m_dels m))) && bool_decide (ak_hash a = m_hash m).

(** [_onReplayAck] *)
Definition onReplayAck (E : env) (mono2 : Z) (tok : string) (mine : bool) (G : mgr) (a : ack_msg) : mgr :=
  if negb mine then G
  else if bool_decide (ak_disposition a = "no-role") then
    match ak_topic a with Some t => emit G (ProbeNack t (ak_corr a)) | None => G end
  else match ak_topic a with
  | None => G
  | Some t =>
      match live G t with
      | None => G
      | Some (ref, r) =>
          let corr := ak_corr a in
          match jget (openMerges r) corr with
          | None => G
          | Some m =>
              let three := bool_decide (lc (ak_winner a) = m_winner m) && bool_decide (lc (ak_loser a) = lc (selfHex G)) &&
                           bool_decide (lc (ak_topicText a) = idHex t) in
              if is_refusal (mcf G) (ak_disposition a) then
                if three then ack_refused G t ref corr m (ak_disposition a) else G
              else if negb (three && (to_int32 (ak_winnerEpoch a) =? to_int32 (m_winnerEpoch m)) &&
                            (to_int32 (ak_loserEpoch a) =? to_int32 (m_loserEpoch m))) then G
              else if negb (bool_decide (m_state m = MBound)) then G
              else if negb (leaseOk E m) then mergeAbort G ref
              else if negb (ack_full a m) then mergeAbort G ref
              else if successorGate O && m_ephemeral m && negb (secondHolderCurrent E r m) then
                upd G ref (λ r, map_round corr (with_m_deferred true)
                                 (if m_deferPinned m then r else map_round corr (with_m_deferPinned true) (pin_export m r)))
              else mergeStep5 E mono2 tok G t ref corr m
          end
      end
  end.

(** [_step5Tick]: a deferred round is run, aborted or waits. *)
Definition step5_round (E : env) (mono2 : Z) (tok : string → string) (t : Z) (ref : nat) (G : mgr) (corr : string) : mgr :=
  match role_at G ref with
  | None => G
  | Some r =>
      match jget (openMerges r) corr with
      | None => G
      | Some m =>
          if negb (m_deferred m) then G
          else
            let gated := bool_decide (gate_corr r = Some corr) in
            if negb (isRoot r) || negb (to_int32 (epoch r) =? to_int32 (m_loserEpoch m)) ||
               negb (bool_decide (m_state m = MBound)) || negb gated then
              let G := upd G ref (map_round corr (with_m_deferred false)) in
              if gated then mergeAbort G ref
              else upd G ref (λ r, closeCorr corr (mergeUnpinDeferred (Some m) r))
            else if leaseOk E m && negb (secondHolderCurrent E r m) then G
            else mergeStep5 E mono2 (tok corr) (upd G ref (map_round corr (with_m_deferred false))) t ref corr m
      end
  end.
Definition step5Tick (E : env) (mono2 : Z) (tok : string → string) (G : mgr) : mgr :=
  if negb (successorGate O) then G
  else foldl (λ G q, foldl (step5_round E mono2 tok q.1 q.2) G
                       (fst <$> default [] (openMerges <$> role_at G q.2))) G (axonRoles G).

(** * Completion *)

(** [_noteLoserSuccessor] *)
Definition noteLoserSuccessor (E : env) (loser : string) (r : role) : role :=
  if negb (successorGate O) || negb (ids_isHexId (lc loser)) then r
  else with_successors (jset (successors r) (lc loser) (mk_successor (highWater r) (now E) None)) r.

(** [_stagePromote] *)
Definition stagePromote (E : env) (G : mgr) (ref : nat) (p : prec) (corr : string) : mgr :=
  match role_at G ref with
  | Some r =>
      match staging r with
      | Some st =>
          if negb (bool_decide (sg_corr st = corr)) then G
          else
            let G := upd G ref (with_staging None) in
            let '(G, committed) := set_ E G ref true "staging-complete" None in
            if negb committed then G
            else
              let G := upd G ref (λ r, with_epoch (Z.max (to_int32 (epoch r)) (to_int32 (p_loserEpoch p) + 1)) r) in
              let G := put_upstream (jdel (upstream G) (topicId r)) G in
              let G := upd G ref (λ r, with_lastVerify 0 (with_formedAt (now E) r)) in
              let G := emit G (Announce (topicId r)) in
              upd G ref (noteLoserSuccessor E (p_loser p))
      | None => G
      end
  | None => G
  end.

(** The merge block of a subscription, and its first [via]. *)
Record merge_block := mk_block {
  mb_corr : option string; mb_winner : string; mb_winnerEpoch : Z; mb_loserEpoch : Z; mb_hash : option string
}.

(** [_mergeCompleteOnSub] *)
Definition mergeCompleteOnSub (E : env) (G : mgr) (ref : nat) (subHex : string) (b : merge_block) (via : option string)
    : mgr * bool :=
  match role_at G ref, mb_corr b with
  | Some r, Some corr =>
      match jget (openPulls r) corr with
      | Some p =>
          if negb (p_acked p) then (G, false)
          else if bool_decide (lc (mb_winner b) = selfHex G) && (to_int32 (mb_winnerEpoch b) =? to_int32 (epoch r)) &&
                  (to_int32 (mb_loserEpoch b) =? to_int32 (p_loserEpoch p)) && bool_decide (mb_hash b = p_hash p) &&
                  bool_decide (subHex = p_loser p) &&
                  match via with Some v => bool_decide (lc v = selfHex G) | None => true end && p_full p
          then
            let G := upd G ref (λ r, drop_pull corr (mergeReleasePins r)) in
            let G := emit G (MergeSend (topicId r) subHex (FClosed corr (to_int32 (epoch r)))) in
            (stagePromote E G ref p corr, true)
          else (G, false)
      | None => (G, false)
      end
  | _, _ => (G, false)
  end.

(** [_onMergeClosed] *)
Definition onMergeClosed (mine : bool) (G : mgr) (topic : option Z) (corr : string) (winnerEpoch : Z) : mgr :=
  if negb mine then G
  else match topic ≫= live G with
  | Some (ref, r) =>
      match merge r ≫= completing_ with
      | Some c =>
          if bool_decide (cp_corr c = corr) && (to_int32 winnerEpoch =? cp_winnerEpoch c)
          then upd G ref (λ r, closeCorr corr (map_merge (λ m, with_pins ∅ (with_completing_ None m)) r))
          else G
      | None => G
      end
  | None => G
  end.
End machine.
