(* ===== verification/MergeRound.v ===== *)
(** MergeRound.v - what the hand-over of MergeMachine guarantees: which acknowledgement makes a
    loser step down, what the winner then holds, what the bind exports, how long a gate stands and
    what happens to the writes behind it. *)
From Stdlib Require Import Ascii.
From stdpp Require Import base gmap sets list strings sorting.
From Stdlib Require Import ZArith Lia.
From S2P Require Import Prelude HexId Role TopicStore RootClaim.
From S2P Require Import Canonical SignedRecords Transcripts TopicId Stamped MergeFrames MergeMachine.
#[local] Open Scope Z_scope.
#[local] Open Scope js_scope.
#[local] Set Default Proof Using "Type".

(** * What the bookkeeping of a round leaves alone *)

Record kept (r r' : role) : Prop := {
  k_cache : cache r' = cache r; k_ids : cacheIds r' = cacheIds r; k_tombs : tombstones r' = tombstones r;
  k_epoch : epoch r' = epoch r; k_root : isRoot r' = isRoot r; k_topic : topicId r' = topicId r
}.
#[export] Instance kept_preorder : PreOrder kept.
Proof. split; [by split|]. intros r1 r2 r3 [] []. split; congruence. Qed.

Lemma kept_map_merge f r : kept r (map_merge f r).
Proof. by split. Qed.
Lemma kept_upd_merge f r : kept r (upd_merge f r).
Proof. by split. Qed.
Lemma kept_closeCorr corr r : kept r (closeCorr corr r).
Proof. by split. Qed.
Lemma kept_map_round corr f r : kept r (map_round corr f r).
Proof. unfold map_round. destruct (jget _ _); by split. Qed.
Lemma map_round_merge corr f r : merge (map_round corr f r) = merge r.
Proof. unfold map_round. by case_match. Qed.
Lemma pins_clear_gate r : pins_of (clear_gate r) = pins_of r.
Proof. unfold pins_of, clear_gate, map_merge. simpl. by destruct (merge r). Qed.
Lemma role_at_emit G e ref : role_at (emit G e) ref = role_at G ref.
Proof. done. Qed.
Lemma kept_map_pull corr f r : kept r (map_pull corr f r).
Proof. unfold map_pull. destruct (jget _ _); by split. Qed.
Lemma kept_unpin m r : kept r (mergeUnpinDeferred m r).
Proof. unfold mergeUnpinDeferred. destruct m as [m|]; [|done]. destruct (_ || _); by split. Qed.
Lemma kept_abort r : kept r (abort_role r).
Proof.
  unfold abort_role. destruct (gate_of r) as [g|]; [|done]. etrans; [apply kept_unpin|]. by split.
Qed.
#[export] Hint Resolve kept_map_merge kept_upd_merge kept_closeCorr kept_map_round kept_map_pull kept_unpin kept_abort : axona.

(** The role at [ref] afterwards, with what it kept. *)
Definition keeps_at (ref : nat) (G G' : mgr) : Prop :=
  ∀ r, role_at G ref = Some r → ∃ r', role_at G' ref = Some r' ∧ kept r r'.
#[export] Instance keeps_at_preorder ref : PreOrder (keeps_at ref).
Proof.
  split; [intros G r Hr; by exists r|]. intros G1 G2 G3 H1 H2 r Hr. destruct (H1 r Hr) as (r1 & Hr1 & K1).
  destruct (H2 r1 Hr1) as (r2 & Hr2 & K2). exists r2. split; [done|by etrans].
Qed.
Lemma keeps_at_upd ref ref' G f : (∀ r, kept r (f r)) → keeps_at ref G (upd G ref' f).
Proof.
  intros Hf r Hr. rewrite role_at_upd, Hr. case_decide; [by exists (f r)|by exists r].
Qed.
Lemma keeps_at_heap ref G G' : heap G' = heap G → keeps_at ref G G'.
Proof. intros H r Hr. exists r. unfold role_at in *. by rewrite H. Qed.
#[export] Hint Resolve keeps_at_upd : axona.

(** * Stepping down *)

Definition guarded_flip (E : env) (G : mgr) (r : role) : bool := mergeCapable (mcf G) && hasCustody E G r.
Definition down (E : env) (G : mgr) (r : role) : role :=
  with_isRoot false (if guarded_flip E G r then map_merge (with_releaseToken None) r else r).

Lemma set_down E G ref r why tok : role_at G ref = Some r → isRoot r = true →
  ((set_ E G ref false why tok).2 = negb (guarded_flip E G r && negb (token_ok r tok))) ∧
  role_at (set_ E G ref false why tok).1 ref =
    Some (if guarded_flip E G r && negb (token_ok r tok) then upd_merge (with_nextCandidate (Some (why, now E))) r
          else down E G r) ∧
  axonRoles (set_ E G ref false why tok).1 = axonRoles G ∧
  stepDownHold (set_ E G ref false why tok).1 = stepDownHold G.
Proof.
  intros Hr Hroot. unfold set_. rewrite Hr, Hroot. cbn [Bool.eqb negb]. rewrite andb_true_l. fold (guarded_flip E G r).
  destruct (guarded_flip E G r && negb (token_ok r tok)) eqn:Eg; cbn [fst snd andb].
  - split_and!; [done|by rewrite role_at_upd_eq, Hr|done|done].
  - split_and!; [done| |by destruct (guarded_flip E G r)..].
    rewrite role_at_upd_eq. unfold down. destruct (guarded_flip E G r); [rewrite role_at_upd_eq|]; by rewrite Hr.
Qed.

(** [demote] by the name of another node, on a live root. *)
Definition other_node (G : mgr) (hex : string) : bool :=
  match idBigS hex with Some w => negb (w =? nodeId (mcf G)) | None => false end.

Lemma demote_down E G t ref r hex why tok : live G t = Some (ref, r) → isRoot r = true →
  let ok := other_node G hex && negb (guarded_flip E G r && negb (token_ok r tok)) in
  let G' := (demote E G t hex why tok true).1 in
  (demote E G t hex why tok true).2 = ok ∧
  (ok = true → role_at G' ref = Some (down E G r) ∧ axonRoles G' = axonRoles G ∧
    jget (stepDownHold G') t = Some (mk_hold (lc hex) (now E) 0) ∧ jget (upstream G') t = Some [lc hex]) ∧
  (ok = false → keeps_at ref G G').
Proof.
  intros Hl Hroot. cbv zeta. unfold demote, other_node. rewrite Hl, Hroot. cbn [negb].
  apply live_Some in Hl as [Ha Hr]. destruct (idBigS hex) as [w|]; [|split_and!; [done|done|intros _; by apply keeps_at_heap]].
  destruct (w =? nodeId (mcf G)) eqn:Ew; cbn [negb andb]; [split_and!; [done|done|intros _; by apply keeps_at_heap]|].
  destruct (set_down E G ref r why tok Hr Hroot) as (S1 & S2 & S3 & S4).
  destruct (set_ E G ref false why tok) as [G1 c]. cbn [fst snd] in *. subst c.
  destruct (guarded_flip E G r && negb (token_ok r tok)); cbn [negb fst snd].
  - split_and!; [done|done|]. intros _ r0 Hr0. rewrite Hr in Hr0. injection Hr0 as <-. eexists. split; [exact S2|]. apply kept_upd_merge.
  - rewrite orb_true_l. split_and!; [done| |done]. intros _. split_and!; [exact S2|exact S3|apply jget_jset_eq|apply jget_jset_eq].
Qed.

Lemma pins_upd_merge f r : pins_of (upd_merge f r) = pins (f (mstate_of r)).
Proof. done. Qed.

(** * The acknowledgement *)

Section ack.
Context (O : mopts) (E : env) (mono2 : Z) (tok : string).

(** When an acknowledgement moves the claim. *)
Definition steps_down (G : mgr) (t : Z) (r : role) (a : ack_msg) : bool :=
  match jget (openMerges r) (ak_corr a) with
  | Some m =>
      bool_decide (ak_disposition a = "full") && bool_decide (lc (ak_winner a) = m_winner m) &&
      bool_decide (lc (ak_loser a) = lc (selfHex G)) && bool_decide (lc (ak_topicText a) = idHex t) &&
      (to_int32 (ak_winnerEpoch a) =? to_int32 (m_winnerEpoch m)) && (to_int32 (ak_loserEpoch a) =? to_int32 (m_loserEpoch m)) &&
      bool_decide (m_state m = MBound) && leaseOk E m && ack_full a m &&
      negb (successorGate O && m_ephemeral m && negb (secondHolderCurrent E r m)) && other_node G (m_winner m)
  | None => false
  end.

(** The flip itself, on a bound round within its lease. *)
Lemma step5_outcome G t ref r corr m : tok ≠ "" → live G t = Some (ref, r) → isRoot r = true →
  let G' := mergeStep5 E mono2 tok G t ref corr m in
  ∃ r', role_at G' ref = Some r' ∧ cache r' = cache r ∧ cacheIds r' = cacheIds r ∧ tombstones r' = tombstones r ∧
    epoch r' = epoch r ∧ isRoot r' = negb (leaseOk E m && other_node G (m_winner m)) ∧
    (isRoot r' = false →
      jget (stepDownHold G') t = Some (mk_hold (lc (m_winner m)) (now E) 0) ∧
      jget (upstream G') t = Some [lc (m_winner m)] ∧
      (∀ id, id ∈ m_bodies m ++ m_dels m → id ∈ pins_of r') ∧
      (mono2 - m_tB m ≤ tm_A (m_timing m) → merge r' ≫= completing_ =
         Some (mk_completing corr (m_winner m) (to_int32 (m_winnerEpoch m)) (to_int32 (m_loserEpoch m)) (m_hash m) true))).
Proof.
  intros Htok Hl Hroot. cbv zeta. unfold mergeStep5. pose proof Hl as [Ha Hr]%live_Some. rewrite Hr.
  destruct (leaseOk E m); cbn [negb andb].
  2: { exists (abort_role r). unfold mergeAbort. rewrite role_at_upd_eq, Hr. destruct (kept_abort r) as [? ? ? ? K ?].
       split_and!; try done; [congruence|rewrite K; congruence]. }
  set (f := upd_merge (λ s, with_acceptedWinner _ _)).
  assert (live (upd (upd G ref (pin_export m)) ref f) t = Some (ref, f (pin_export m r))) as Hl2.
  { rewrite !live_upd, Hl. simpl. by rewrite !decide_True. }
  destruct (demote_down E _ t ref _ (m_winner m) "merge-step5" (Some tok) Hl2) as (D1 & D2 & D3); [done|].
  assert (token_ok (f (pin_export m r)) (Some tok) = true) as Htk.
  { unfold token_ok, f. simpl. rewrite bool_decide_eq_false_2 by done. by rewrite bool_decide_eq_true_2. }
  rewrite Htk in D1, D2, D3. cbn [negb] in D1, D2, D3. rewrite andb_false_r in D1, D2, D3. cbn [negb] in D1, D2, D3.
  rewrite andb_true_r in D1, D2, D3. change (other_node (upd (upd G ref (pin_export m)) ref f)) with (other_node G) in *.
  destruct (demote E (upd (upd G ref (pin_export m)) ref f) t (m_winner m) "merge-step5" (Some tok) true) as [G1 ok]. cbn [fst snd] in *. subst ok.
  assert (role_at (upd (upd G ref (pin_export m)) ref f) ref = Some (f (pin_export m r))) as Hr2.
  { by rewrite !role_at_upd_eq, Hr. }
  destruct (other_node G (m_winner m)); cbn [negb].
  - destruct (D2 eq_refl) as (R1 & R2 & R3 & R4). clear D2 D3.
    set (d := down E (upd (upd G ref (pin_export m)) ref f) (f (pin_export m r))) in *.
    assert (cache d = cache r ∧ cacheIds d = cacheIds r ∧ tombstones d = tombstones r ∧ epoch d = epoch r ∧ isRoot d = false ∧
      pins_of d = list_to_set (m_bodies m ++ m_dels m) ∪ pins (mstate_of r)) as (C1 & C2 & C3 & C4 & C5 & C6).
    { unfold d, down. destruct (guarded_flip _ _ _); split_and!; done. }
    clearbody d. clear Htk Hr2 Hl2. clearbody f.
    assert (∀ id, id ∈ m_bodies m ++ m_dels m → id ∈ pins_of d) as Cp.
    { intros id Hid. rewrite C6. apply elem_of_union_l, elem_of_list_to_set. done. }
    set (G2 := if bool_decide _ then upd G1 ref clear_gate else G1).
    assert (∃ d2, role_at G2 ref = Some d2 ∧ kept d d2 ∧ pins_of d2 = pins_of d) as (d2 & Hd2 & K & Ep).
    { unfold G2. case_bool_decide; [|by exists d]. exists (clear_gate d). rewrite role_at_upd_eq, R1.
      split_and!; [done|apply kept_map_merge|apply pins_clear_gate]. }
    assert (stepDownHold G2 = stepDownHold G1 ∧ upstream G2 = upstream G1) as [F1 F2] by (unfold G2; by case_bool_decide).
    clearbody G2. rewrite <-F1 in R3. rewrite <-F2 in R4. destruct K as [K1 K2 K3 K4 K5 K6].
    set (d3 := map_round corr (with_m_state MCompleted) d2).
    assert (role_at (upd G2 ref (map_round corr (with_m_state MCompleted))) ref = Some d3) as Hd3 by (by rewrite role_at_upd_eq, Hd2).
    destruct (kept_map_round corr (with_m_state MCompleted) d2) as [L1 L2 L3 L4 L5 L6]. fold d3 in L1, L2, L3, L4, L5, L6.
    assert (pins_of d3 = pins_of d) as Ep3 by (unfold pins_of, d3 in *; by rewrite map_round_merge).
    destruct (_ <? _) eqn:El; zb.
    + exists d3. split_and!; [done|congruence..|]. intros _. split_and!; [done|done|by rewrite Ep3|lia].
    + eexists. rewrite role_at_emit, role_at_upd_eq, Hd3. split; [done|]. split_and!; [simpl; congruence..|].
      intros _. split_and!; [done|done| |done]. intros id Hid. rewrite pins_upd_merge. simpl.
      specialize (Cp id Hid). rewrite <-Ep3 in Cp. unfold pins_of in Cp. unfold mstate_of. by destruct (merge d3).
  - specialize (D3 eq_refl). destruct (D3 _ Hr2) as (d & Hd & K). clear D2 D3.
    eexists. unfold mergeAbort. rewrite !role_at_upd_eq, Hd. split; [done|].
    set (d2 := map_merge _ d). destruct (kept_abort d2) as [K1 K2 K3 K4 K5 K6]. destruct K as [L1 L2 L3 L4 L5 L6].
    assert (isRoot (abort_role d2) = true) as Hroot2 by (rewrite K5; unfold d2; simpl; rewrite L5; done).
    split_and!; [rewrite K1; exact L1|rewrite K2; exact L2|rewrite K3; exact L3|rewrite K4; exact L4|done|congruence].
Qed.

Lemma refusal_not_full cf d : is_refusal cf d = true → d ≠ "full".
Proof.
  unfold is_refusal. intros H ->. revert H. rewrite !bool_decide_eq_false_2; [by rewrite andb_false_r|done|].
  intros [?|[?|[?|?]]]; done.
Qed.

Lemma ack_refused_keeps G t ref corr m d : keeps_at ref G (ack_refused G t ref corr m d).
Proof.
  unfold ack_refused.
  assert (∀ G, keeps_at ref G (upd G ref (drop_candidate (m_winner m)))) as H1 by (intros; apply keeps_at_upd; intros; apply kept_map_merge).
  assert (∀ G, keeps_at ref G (upd (upd G ref (closeCorr corr)) ref (λ r, if bool_decide (gate_corr r = Some corr) then clear_gate r else r))) as H2.
  { intros G1. etrans; apply keeps_at_upd; intros r; [apply kept_closeCorr|]. case_bool_decide; [apply kept_map_merge|done]. }
  set (G1 := upd _ ref _) in *.
  set (G2 := if cutover (mcf G1) then _ else G1).
  assert (keeps_at ref G G2) as H3.
  { etrans; [apply H2|]. subst G2. fold G1. destruct (cutover _); [|done]. case_match; [|done]. case_bool_decide; [|done].
    by apply keeps_at_heap. }
  clearbody G2. destruct (_ || _); [|done]. etrans; [exact H3|apply H1].
Qed.

Lemma keeps_root_at ref G G' r : keeps_at ref G G' → role_at G ref = Some r →
  ∃ r', role_at G' ref = Some r' ∧ cache r' = cache r ∧ cacheIds r' = cacheIds r ∧ tombstones r' = tombstones r ∧
    epoch r' = epoch r ∧ isRoot r' = isRoot r.
Proof. intros H Hr. destruct (H r Hr) as (r' & Hr' & []). by exists r'. Qed.

(** What an acknowledgement does to a root. *)
Lemma ack_outcome G t ref r a : tok ≠ "" → ak_topic a = Some t → live G t = Some (ref, r) → isRoot r = true →
  let G' := onReplayAck O E mono2 tok true G a in
  ∃ r', role_at G' ref = Some r' ∧ cache r' = cache r ∧ cacheIds r' = cacheIds r ∧ tombstones r' = tombstones r ∧
    epoch r' = epoch r ∧ isRoot r' = negb (steps_down G t r a) ∧
    (steps_down G t r a = true → ∃ m, jget (openMerges r) (ak_corr a) = Some m ∧
      jget (stepDownHold G') t = Some (mk_hold (lc (m_winner m)) (now E) 0) ∧
      jget (upstream G') t = Some [lc (m_winner m)] ∧
      (∀ id, id ∈ m_bodies m ++ m_dels m → id ∈ pins_of r') ∧
      (mono2 - m_tB m ≤ tm_A (m_timing m) → merge r' ≫= completing_ =
         Some (mk_completing (ak_corr a) (m_winner m) (to_int32 (m_winnerEpoch m)) (to_int32 (m_loserEpoch m)) (m_hash m) true))).
Proof.
  intros Htok Ht Hl Hroot. cbv zeta. pose proof Hl as [Ha Hr]%live_Some.
  assert (∀ G', steps_down G t r a = false → keeps_at ref G G' → ∃ r', role_at G' ref = Some r' ∧ cache r' = cache r ∧
    cacheIds r' = cacheIds r ∧ tombstones r' = tombstones r ∧ epoch r' = epoch r ∧ isRoot r' = negb (steps_down G t r a) ∧
    (steps_down G t r a = true → ∃ m, jget (openMerges r) (ak_corr a) = Some m ∧
      jget (stepDownHold G') t = Some (mk_hold (lc (m_winner m)) (now E) 0) ∧ jget (upstream G') t = Some [lc (m_winner m)] ∧
      (∀ id, id ∈ m_bodies m ++ m_dels m → id ∈ pins_of r') ∧
      (mono2 - m_tB m ≤ tm_A (m_timing m) → merge r' ≫= completing_ =
         Some (mk_completing (ak_corr a) (m_winner m) (to_int32 (m_winnerEpoch m)) (to_int32 (m_loserEpoch m)) (m_hash m) true)))) as Hstay.
  { intros G' Hs Hk. destruct (keeps_root_at _ _ _ _ Hk Hr) as (r' & ? & ? & ? & ? & ? & ?). exists r'. rewrite Hs.
    split_and!; try done. by rewrite Hroot in *. }
  unfold onReplayAck. cbn [negb]. rewrite Ht, Hl. unfold steps_down in *.
  destruct (bool_decide (ak_disposition a = "no-role")) eqn:Hn; [apply bool_decide_eq_true in Hn; apply Hstay; [|by apply keeps_at_heap]|].
  { destruct (jget (openMerges r) (ak_corr a)); [|done]. by rewrite Hn. }
  destruct (jget (openMerges r) (ak_corr a)) as [m|] eqn:Em; [|by apply Hstay].
  destruct (is_refusal (mcf G) (ak_disposition a)) eqn:Er.
  { apply Hstay; [|by case_match; [apply ack_refused_keeps|]]. apply refusal_not_full in Er. by rewrite bool_decide_eq_false_2. }
  destruct (bool_decide (lc (ak_winner a) = m_winner m)) eqn:E1; [|cbn [andb negb]; apply Hstay; [by rewrite andb_false_r|done]].
  destruct (bool_decide (lc (ak_loser a) = lc (selfHex G))) eqn:E2; [|cbn [andb negb]; apply Hstay; [by rewrite andb_false_r|done]].
  destruct (bool_decide (lc (ak_topicText a) = idHex t)) eqn:E3; [|cbn [andb negb]; apply Hstay; [by rewrite andb_false_r|done]].
  destruct (to_int32 (ak_winnerEpoch a) =? to_int32 (m_winnerEpoch m)) eqn:E4; [|cbn [andb negb]; apply Hstay; [by rewrite andb_false_r|done]].
  destruct (to_int32 (ak_loserEpoch a) =? to_int32 (m_loserEpoch m)) eqn:E5; [|cbn [andb negb]; apply Hstay; [by rewrite andb_false_r|done]].
  cbn [andb negb]. rewrite !andb_true_r in Hstay |- *.
  assert (keeps_at ref G (mergeAbort G ref)) as Hab by (apply keeps_at_upd; intros; apply kept_abort).
  destruct (bool_decide (m_state m = MBound)) eqn:Hb; cbn [negb]; [|apply Hstay; [by rewrite andb_false_r|done]].
  destruct (leaseOk E m) eqn:El; cbn [negb]; [|apply Hstay; [by rewrite andb_false_r|done]].
  destruct (ack_full a m) eqn:Ef; cbn [negb]; [|apply Hstay; [by rewrite andb_false_r|done]].
  assert (ak_disposition a = "full") as Hfull.
  { unfold ack_full in Ef. rewrite !andb_true_iff in Ef. destruct Ef as [[[Hd _] _] _]. by apply bool_decide_eq_true in Hd. }
  rewrite Hfull in *. rewrite bool_decide_eq_true_2 in Hstay |- * by done. cbn [andb] in Hstay |- *.
  destruct (successorGate O && m_ephemeral m && negb (secondHolderCurrent E r m)) eqn:Es; cbn [negb andb] in Hstay |- *.
  { apply Hstay; [done|]. apply keeps_at_upd. intros r0. destruct (m_deferPinned m); [apply kept_map_round|].
    etrans; [|apply kept_map_round]. etrans; [|apply kept_map_round]. apply kept_upd_merge. }
  destruct (step5_outcome G t ref r (ak_corr a) m Htok Hl Hroot) as (r' & R1 & R2 & R3 & R4 & R5 & R6 & R7).
  rewrite El in R6. cbn [andb] in R6. exists r'. split_and!; try done.
  intros Ho. exists m. split; [done|]. apply R7. by rewrite R6, Ho.
Qed.
(** C3. Of all acknowledgements a root may get, it steps down on exactly one kind: the full one of a
    bound round, from the winner it bound to and at the epochs it bound at, within the lease (and
    for an ephemeral winner only with a second holder current).  (What steps a root down without
    an acknowledgement - the sweep's fallback towards a winner that answers no offer, a beacon
    where nothing is held - is not this handler's.)  Every other acknowledgement -
    refused, short, expired, stale or forged - leaves it the root; in every case it keeps its
    cache, its deletions and its epoch.  Stepping down arms the hold toward the winner, attaches
    to it and pins the whole export, and completion is claimed where the flip was not late. *)
Theorem step_down_exact G t ref r a : tok ≠ "" → ak_topic a = Some t → live G t = Some (ref, r) → isRoot r = true →
  let G' := onReplayAck O E mono2 tok true G a in
  ∃ r', role_at G' ref = Some r' ∧ cache r' = cache r ∧ cacheIds r' = cacheIds r ∧ tombstones r' = tombstones r ∧
    epoch r' = epoch r ∧ isRoot r' = negb (steps_down G t r a) ∧
    (steps_down G t r a = true → ∃ m, jget (openMerges r) (ak_corr a) = Some m ∧
      jget (stepDownHold G') t = Some (mk_hold (lc (m_winner m)) (now E) 0) ∧
      jget (upstream G') t = Some [lc (m_winner m)] ∧
      (∀ id, id ∈ m_bodies m ++ m_dels m → id ∈ pins_of r') ∧
      (mono2 - m_tB m ≤ tm_A (m_timing m) → merge r' ≫= completing_ =
         Some (mk_completing (ak_corr a) (m_winner m) (to_int32 (m_winnerEpoch m)) (to_int32 (m_loserEpoch m)) (m_hash m) true))).
Proof. apply ack_outcome. Qed.
End ack.

(** * The manifest *)

Definition hex_ids (l : list string) : Prop := Forall (λ id, ids_isHexId id = true) l.
Lemma hex_ids_bool l : forallb ids_isHexId l = true → hex_ids l.
Proof. induction l as [|x l IH]; simpl; [by constructor|]. intros [? ?]%andb_true_iff. constructor; [done|by apply IH]. Qed.
(** A text that begins with neither a digit of an id nor a separator. *)
Definition ends_ids (r : string) : Prop :=
  match r with EmptyString => True | String c _ => is_lower_hex c = false ∧ c ≠ ","%char end.
Definition ends_hex (r : string) : Prop := match r with EmptyString => True | String c _ => is_lower_hex c = false end.

Lemma hex_run_unique s t r1 r2 : all_lower_hex s = true → all_lower_hex t = true → ends_hex r1 → ends_hex r2 →
  s +:+ r1 = t +:+ r2 → s = t ∧ r1 = r2.
Proof.
  revert t. induction s as [|c s IH]; intros [|d t] Hs Ht H1 H2; rewrite ?append_cons, ?append_nil_l; simpl in *.
  - done.
  - intros ->. simpl in H1. by rewrite H1 in Ht.
  - intros <-. simpl in H2. by rewrite H2 in Hs.
  - intros H. injection H as -> H. apply andb_true_iff in Hs as [_ Hs], Ht as [_ Ht].
    by destruct (IH t Hs Ht H1 H2 H) as [-> ->].
Qed.

Lemma hex_id_shape id : ids_isHexId id = true → all_lower_hex id = true ∧ id ≠ "".
Proof. unfold ids_isHexId. intros [[H1 H2]%andb_true_iff H3]%andb_true_iff. split; [done|by intros ->]. Qed.

Lemma join_comma_cons x y l : join_comma (x :: y :: l) = x +:+ String "," (join_comma (y :: l)).
Proof. done. Qed.

Lemma ends_ids_hex r : ends_ids r → ends_hex r.
Proof. destruct r; simpl; tauto. Qed.

(** An id never is where a list of ids has ended. *)
Lemma ends_not_id x l r r' : ids_isHexId x = true → ends_ids r → r = join_comma (x :: l) +:+ r' → False.
Proof.
  intros [Hx Hne]%hex_id_shape Hr ->. destruct x as [|c x]; [done|]. simpl in Hx. apply andb_true_iff in Hx as [Hc _].
  destruct l; simpl in Hr; destruct Hr as [Hr _]; congruence.
Qed.

(** What follows the first id of a list. *)
Lemma join_after x l r : ends_ids r → ∃ s, join_comma (x :: l) +:+ r = x +:+ s ∧ ends_hex s ∧
  s = match l with [] => r | _ => String "," (join_comma l +:+ r) end.
Proof.
  destruct l as [|y k]; intros Hr; [exists r; split_and!; [done|by apply ends_ids_hex|done]|].
  exists (String "," (join_comma (y :: k) +:+ r)). by rewrite join_comma_cons, append_assoc.
Qed.

Lemma join_comma_unique l l' r r' : hex_ids l → hex_ids l' → ends_ids r → ends_ids r' →
  join_comma l +:+ r = join_comma l' +:+ r' → l = l' ∧ r = r'.
Proof.
  revert l'. induction l as [|x l IH]; intros [|x' l'] Hl Hl' Hr Hr' H.
  - done.
  - exfalso. inversion_clear Hl'. by eapply (ends_not_id x' l' r r').
  - exfalso. inversion_clear Hl. by eapply (ends_not_id x l r' r).
  - inversion_clear Hl as [|? ? Hx Hl2]. inversion_clear Hl' as [|? ? Hx' Hl2'].
    destruct (hex_id_shape _ Hx) as [Hx1 _]. destruct (hex_id_shape _ Hx') as [Hx1' _].
    destruct (join_after x l r Hr) as (s & E & Es & Ds). destruct (join_after x' l' r' Hr') as (s' & E' & Es' & Ds'). rewrite E, E' in H.
    apply hex_run_unique in H as [-> Hss]; [|done..]. rewrite Ds, Ds' in Hss. clear - Hss IH Hl2 Hl2' Hr Hr'.
    destruct l as [|y l], l' as [|y' l'].
    + by subst.
    + exfalso. rewrite Hss in Hr. by destruct Hr.
    + exfalso. rewrite <-Hss in Hr'. by destruct Hr'.
    + injection Hss as Hss. destruct (IH (y' :: l')) as [-> ->]; done.
Qed.

Lemma manifest_inj b d b' d' : hex_ids b → hex_ids d → hex_ids b' → hex_ids d' →
  manifestText b d = manifestText b' d' → b = b' ∧ d = d'.
Proof.
  intros Hb Hd Hb' Hd' H. unfold manifestText in H. apply join_comma_unique in H as [-> H]; [|done..].
  split; [done|]. simpl in H. injection H as H. apply (join_comma_unique d d' "" ""); [done..|].
  by rewrite !append_empty_r.
Qed.

(** * Conservation across the hand-over *)

Lemma filter_full {A} (P : A → Prop) `{!∀ x, Decision (P x)} (l : list A) :
  length (base.filter P l) = length l → ∀ x, x ∈ l → P x.
Proof.
  induction l as [|y l IH]; intros Hf x Hx; [by apply not_elem_of_nil in Hx|]. rewrite filter_cons in Hf.
  pose proof (length_filter P l) as Hle. destruct (decide (P y)); simpl in Hf; [|lia].
  apply elem_of_cons in Hx as [->|Hx]; [done|]. apply IH; [lia|done].
Qed.

(** The acknowledgement a terminal frame is answered with. *)
Definition ack_of (t : Z) (topicText : string) (f : mframe) : option ack_msg :=
  match f with
  | FAck corr winner we loser le d ret act h => Some (mk_ack (Some t) topicText corr winner we loser le d ret act h)
  | _ => None
  end.

Lemma terminal_sends sha256 now_ G t ref corr p man r : role_at G ref = Some r →
  ∃ d, outbox (terminal sha256 now_ G t ref corr p man) = outbox G ++ [MergeSend t (p_loser p)
    (FAck corr (selfHex G) (to_int32 (epoch r)) (p_loser p) (p_loserEpoch p) d (retained now_ r (p_bodies p))
       (dels_active now_ r (p_dels p)) (Some (sha256Hex sha256 (manifestText (p_bodies p) (p_dels p)))))].
Proof. intros Hr. unfold terminal. rewrite Hr. by eexists. Qed.

Lemma int32_count n k : 0 ≤ n ≤ k → to_int32 n = k → n = k.
Proof.
  intros Hn H. assert (to_int32 n < 2 ^ 31) by (unfold to_int32; pose proof (Z.mod_pos_bound (n + 2 ^ 31) (2 ^ 32) ltac:(lia)); lia).
  rewrite to_int32_id in H; lia.
Qed.

(** C2. A hand-over conserves the topic.  When a root steps down on an acknowledgement that the
    winner sent for its terminal frame, then at the instant of that acknowledgement the winner
    held every body of the export the round was bound with, or holds it deleted, and held every
    deletion of it; and the loser still has its cache, with the whole export pinned.  (The two
    manifests are assumed to be no collision of the hash, and ids to be hex.) *)
Theorem handover_conserves O E mono2 tok sha256 now_ GW t refW rW corr p man GL refL rL m topicText f a rL' :
  tok ≠ "" →
  role_at GW refW = Some rW →
  outbox (terminal sha256 now_ GW t refW corr p man) = outbox GW ++ [MergeSend t (p_loser p) f] →
  ack_of t topicText f = Some a →
  live GL t = Some (refL, rL) → isRoot rL = true → jget (openMerges rL) corr = Some m →
  m_hash m = Some (sha256Hex sha256 (manifestText (m_bodies m) (m_dels m))) →
  hex_ids (m_bodies m) → hex_ids (m_dels m) → hex_ids (p_bodies p) → hex_ids (p_dels p) →
  (sha256Hex sha256 (manifestText (p_bodies p) (p_dels p)) = sha256Hex sha256 (manifestText (m_bodies m) (m_dels m)) →
   manifestText (p_bodies p) (p_dels p) = manifestText (m_bodies m) (m_dels m)) →
  role_at (onReplayAck O E mono2 tok true GL a) refL = Some rL' → isRoot rL' = false →
  (∀ id, id ∈ m_bodies m → id ∈ cacheIds rW ∨ dead_at now_ rW id = true) ∧
  (∀ id, id ∈ m_dels m → dead_at now_ rW id = true) ∧
  cache rL' = cache rL ∧ (∀ id, id ∈ m_bodies m ++ m_dels m → id ∈ pins_of rL').
Proof.
  intros Htok HrW Hout Ha Hl Hroot Hm Hh Hb Hd Hpb Hpd Hcol HrL' Hdown.
  destruct (terminal_sends sha256 now_ GW t refW corr p man rW HrW) as [d Hs]. rewrite Hs in Hout.
  apply app_inv_head in Hout. injection Hout as <-. simpl in Ha. injection Ha as <-.
  set (a := mk_ack _ _ _ _ _ _ _ _ _ _ _) in *.
  destruct (ack_outcome O E mono2 tok GL t refL rL a Htok eq_refl Hl Hroot) as (r' & Hr' & C1 & _ & _ & _ & C5 & C6).
  rewrite Hr' in HrL'. injection HrL' as ->. rewrite Hdown in C5. symmetry in C5. apply negb_false_iff in C5.
  destruct (C6 C5) as (m' & Hm' & _ & _ & Hp & _). change (ak_corr a) with corr in Hm'. rewrite Hm in Hm'. injection Hm' as <-.
  unfold steps_down in C5. change (ak_corr a) with corr in C5. rewrite Hm in C5. rewrite !andb_true_iff in C5.
  destruct C5 as [[[_ Hf] _] _]. unfold ack_full in Hf. rewrite !andb_true_iff in Hf. destruct Hf as [[[_ F1] F2] F3].
  apply bool_decide_eq_true in F3. simpl in F1, F2, F3. rewrite Hh in F3. injection F3 as F3.
  apply Hcol, manifest_inj in F3 as [E1 E2]; [|done..]. apply Z.eqb_eq in F1, F2.
  rewrite E1 in F1. rewrite E2 in F2.
  apply int32_count in F1; [|unfold retained; pose proof (length_filter (λ id, id ∈ cacheIds rW ∨ dead_at now_ rW id = true) (m_bodies m)); lia].
  apply int32_count in F2; [|unfold dels_active; pose proof (length_filter (λ id, dead_at now_ rW id = true) (m_dels m)); lia].
  split_and!; [|intros id Hid|done|done].
  - apply (filter_full (λ id, id ∈ cacheIds rW ∨ dead_at now_ rW id = true)). unfold retained in F1. lia.
  - apply (filter_full (λ id, dead_at now_ rW id = true) (m_dels m)); [unfold dels_active in F2; lia|done].
Qed.

(** * A whole round, between two nodes *)

Definition wire_msg (e : entry) : json :=
  JObject [("json", JText (e_json e)); ("publishTs", JNumber (publishTs e)); ("msgId", JText (e_msgId e)); ("seq", opt_num (e_seq e))].
Definition offer_of (t : Z) (f : mframe) : option offer_msg :=
  match f with
  | FOffer corr loser le hw lw count tm handoff =>
      Some (mk_offer (Some t) (Some corr) loser (Some le) count true (send_timing tm) handoff)
  | _ => None
  end.
Definition pull_of (t : Z) (f : mframe) : option pull_msg :=
  match f with
  | FPull corr parent we cursor tm staged app host =>
      Some (mk_pull (Some t) corr parent (Some we) cursor (send_timing tm) staged staged app host)
  | _ => None
  end.
Definition frame_of (t : Z) (f : mframe) : option frame_msg :=
  match f with
  | FHeader corr le bodies dels bytes hash =>
      Some (mk_frame (Some t) corr (Some le) false (Some (bodies, bytes)) None None true [] [] ([], []) (0, 0, None))
  | FData corr le cursor last more msgs ds sb sd man =>
      Some (mk_frame (Some t) corr (Some le) false None cursor last more (wire_msg <$> msgs) ds (sb, sd) (default (0, 0, None) man))
  | FRefused corr le => Some (mk_frame (Some t) corr (Some le) true None None None false [] [] ([], []) (0, 0, None))
  | _ => None
  end.

(** The last merge frame a node sent. *)
Definition sent (G : mgr) : option mframe := last (omap (λ e, match e with MergeSend _ _ f => Some f | _ => None end) (outbox G)).

Definition demo_O : mopts := mk_mopts false false false None.
Definition demo_E (n : Z) : env := mk_env n n (Some []) None true false.
Definition demo_L : mgr :=
  alloc (new_mgr (default_cfg 7)) demo_t
    (with_epoch 1 (push (mk_entry demo_id 500 "good" (Some 1) 0) (makeRole demo_t true 0))).
Definition demo_W : mgr := alloc (new_mgr (default_cfg 5)) demo_t (with_epoch 2 (makeRole demo_t true 0)).
Definition demo_kill (k : killproof) : json := JNullV.
Definition receive (G : mgr) (f : frame_msg) : mgr :=
  (mergeIngestFrame demo_O demo_parse toy_sha demo_verify toy_region production (λ _ G, G) (λ _, 600) (λ _ _, true) 0 G f).1.

Definition step_offer : mgr := (mergeCandidate (demo_E 510) "c0" demo_L demo_t (selfHex demo_W) (Some 2) "beacon").1.
Definition step_pull : option mgr :=
  o ← sent step_offer ≫= offer_of demo_t; Some (onMergeOffer demo_O (demo_E 520) (demo_E 520) id None "c1" true demo_W o).
Definition step_bind : option mgr :=
  W ← step_pull; p ← sent W ≫= pull_of demo_t;
  let L := (mergeAnswerPull (demo_E 530) demo_kill step_offer p).1 in
  match last (outbox L) with
  | Some (MergeHash ref corr requester b d bytes) => Some (hashDone toy_sha L demo_t ref corr requester b d bytes)
  | _ => None
  end.
Definition step_admit : option mgr := W ← step_pull; L ← step_bind; f ← sent L ≫= frame_of demo_t; Some (receive W f).
Definition step_data : option mgr :=
  W ← step_admit; L ← step_bind; p ← sent W ≫= pull_of demo_t; Some (mergeAnswerPull (demo_E 540) demo_kill L p).1.
Definition step_ack : option mgr := W ← step_admit; L ← step_data; f ← sent L ≫= frame_of demo_t; Some (receive W f).
Definition step_down : option mgr :=
  W ← step_ack; L ← step_data; a ← sent W ≫= ack_of demo_t (idHex demo_t);
  Some (onReplayAck demo_O (demo_E 610) 611 "t" true L a).
Definition step_close : option mgr :=
  W ← step_ack; L ← step_down; r ← role_at L 0; c ← merge r ≫= completing_;
  Some (mergeCompleteOnSub demo_O (demo_E 620) W 0 (selfHex L)
    (mk_block (Some (cp_corr c)) (cp_winner c) (cp_winnerEpoch c) (cp_loserEpoch c) (cp_hash c)) None).1.
Definition step_end : option mgr :=
  W ← step_close; L ← step_down;
  match sent W with Some (FClosed corr we) => Some (onMergeClosed true L (Some demo_t) corr we) | _ => None end.

Definition held_ids (G : option mgr) : list string :=
  match G ≫= λ G, role_at G 0 with Some r => e_msgId <$> cache r | None => [] end.
Definition is_root (G : option mgr) : option bool := G ≫= λ G, isRoot <$> role_at G 0.

(** The round runs to its end: the loser steps down, the winner holds the message, nothing stays
    pinned and no gate stands. *)
Example round_runs :
  is_root step_down = Some false ∧ held_ids step_ack = [demo_id] ∧ is_root step_close = Some true ∧
  match step_end ≫= λ G, role_at G 0 with
  | Some r => gate_of r = None ∧ pins_of r = ∅ ∧ openMerges r = [] ∧ cache r ≠ []
  | None => False
  end.
Proof. split_and!; [vm_compute; reflexivity..|]. vm_compute. split_and!; try reflexivity. discriminate. Qed.

Definition the_L : mgr := default demo_L step_data.
Definition the_W : mgr := default demo_W step_ack.
Definition the_corr : string := "c0".
Definition role0 (G : mgr) : role := default (makeRole 0 false 0) (role_at G 0).
Definition the_m : mrec := default (offered "" 0 0 0 mergeTiming) (jget (openMerges (role0 the_L)) the_corr).
Definition the_p : prec := default (new_pull "" 0 0 mergeTiming) (jget (openPulls (role0 the_W)) the_corr).
Definition the_f : mframe :=
  default (FClosed "" 0) (sent (terminal toy_sha 600 the_W demo_t 0 the_corr the_p (1, 0, p_hash the_p))).
Definition the_a : ack_msg := default (mk_ack None "" "" "" 0 "" 0 "" 0 0 None) (ack_of demo_t (idHex demo_t) the_f).
Definition the_end : mgr := onReplayAck demo_O (demo_E 610) 611 "t" true the_L the_a.

Lemma step_down_exact_witness :
  steps_down demo_O (demo_E 610) the_L demo_t (role0 the_L) the_a = true ∧ isRoot (role0 the_end) = false.
Proof.
  split; [vm_compute; reflexivity|].
  destruct (step_down_exact demo_O (demo_E 610) 611 "t" the_L demo_t 0 (role0 the_L) the_a) as (r' & H & _ & _ & _ & _ & E & _).
  - discriminate.
  - vm_compute. reflexivity.
  - vm_compute. reflexivity.
  - vm_compute. reflexivity.
  - unfold role0, the_end. rewrite H. cbn [default from_option id]. rewrite E. vm_compute. reflexivity.
Defined.

Lemma handover_conserves_witness :
  m_bodies the_m = [demo_id] ∧ (demo_id ∈ cacheIds (role0 the_W) ∨ dead_at 600 (role0 the_W) demo_id = true).
Proof.
  split; [vm_compute; reflexivity|].
  refine (proj1 (handover_conserves demo_O (demo_E 610) 611 "t" toy_sha 600 the_W demo_t 0 (role0 the_W) the_corr the_p
    (1, 0, p_hash the_p) the_L 0 (role0 the_L) the_m (idHex demo_t) the_f the_a (role0 the_end) _ _ _ _ _ _ _ _ _ _ _ _ _ _ _) demo_id _).
  - discriminate.
  - vm_compute. reflexivity.
  - vm_compute. reflexivity.
  - vm_compute. reflexivity.
  - vm_compute. reflexivity.
  - vm_compute. reflexivity.
  - vm_compute. reflexivity.
  - vm_compute. reflexivity.
  - apply hex_ids_bool. vm_compute. reflexivity.
  - apply hex_ids_bool. vm_compute. reflexivity.
  - apply hex_ids_bool. vm_compute. reflexivity.
  - apply hex_ids_bool. vm_compute. reflexivity.
  - intros _. vm_compute. reflexivity.
  - vm_compute. reflexivity.
  - vm_compute. reflexivity.
  - vm_compute. left.
Defined.
