(* ===== verification/MergeGate.v ===== *)
(** MergeGate.v - the loser's side of an open round: what the bind cuts and exports, how long a
    gate, an offer and a pull may stand, and what happens to the writes that meet a gate. *)
From stdpp Require Import base gmap sets list strings sorting.
From Stdlib Require Import ZArith Lia.
From S2P Require Import Prelude HexId Role TopicStore RootClaim.
From S2P Require Import Canonical SignedRecords Transcripts TopicId Stamped MergeFrames MergeMachine MergeRound.
#[local] Open Scope Z_scope.
#[local] Open Scope js_scope.
#[local] Set Default Proof Using "Type".

(** * The bind *)

Lemma closeCorr_gone corr r : jget (openMerges (closeCorr corr r)) corr = None.
Proof. apply jget_jdel_eq. Qed.

Lemma map_round_with corr f r : map_round corr f r = with_openMerges (openMerges (map_round corr f r)) r.
Proof. unfold map_round. case_match; [done|by destruct r]. Qed.

Lemma map_round_get corr f r : jget (openMerges (map_round corr f r)) corr = f <$> jget (openMerges r) corr.
Proof.
  unfold map_round. destruct (jget (openMerges r) corr) as [m|] eqn:E; [|by rewrite E]. simpl. apply jget_jset_eq.
Qed.

(** The record that a bind leaves: the export of the role as it was, under a fresh generation. *)
Record bound_to (E : env) (cf : mcfg) (r : role) (corr requester : string) (r' : role) (m : mrec) : Prop := {
  bt_root : isRoot r = true; bt_free : gate_of r = None;
  bt_items : m_snapshot m = items_of (export_bodies r) (export_dels cf (now E) r);
  bt_bodies : m_bodies m ≡ₚ e_msgId <$> cache r;
  bt_dels : m_dels m ≡ₚ dm_msgId <$> activeDels cf (now E) r;
  bt_cursor : m_lastCursorSent m = Some "h"; bt_tB : m_tB m = mono E; bt_wall : m_tBWall m = now E;
  bt_cache : cache r' = cache r; bt_stays : isRoot r' = true;
  bt_gate : ∃ g, gate_of r' = Some g ∧ g_corr g = corr ∧ g_winner g = requester ∧ g_at g = now E;
  bt_gen : gen r' = to_int32 (gen r) + 1
}.

Section bind.
Context (E : env) (kill_json : killproof → json).

Definition not_bound (r : role) (corr : string) : Prop :=
  ∀ m, jget (openMerges r) corr = Some m → m_state m ≠ MBound.

Lemma answer_bind_spec G t ref r requester we p m0 : live G t = Some (ref, r) → lc requester = requester →
  jget (openMerges r) (pu_corr p) = Some m0 → m_state m0 = MOffered →
  ∃ r', role_at (answer_bind E kill_json G t ref r requester we p m0).1 ref = Some r' ∧
    (not_bound r' (pu_corr p) ∨
     ∃ m, jget (openMerges r') (pu_corr p) = Some m ∧ bound_to E (mcf G) r (pu_corr p) requester r' m ∧
       m_winner m = m_winner m0 ∧ m_timing m = m_timing m0 ∧ sameTiming (pu_timing p) (m_timing m0) = true).
Proof.
  intros Hl Hlc Hm Hs. pose proof Hl as [Ha Hr]%live_Some. unfold answer_bind.
  destruct (sameTiming (pu_timing p) (m_timing m0)) eqn:Htm; cbn [negb].
  2: { cbn [fst]. destruct (cutover _); eexists; (split; [rewrite ?role_at_upd_eq, Hr; done|left]); intros mm Hm';
      [change (jget (openMerges (closeCorr (pu_corr p) r)) (pu_corr p) = Some mm) in Hm'|]; by rewrite closeCorr_gone in Hm'. }
  destruct (isRoot r) eqn:Hroot; cbn [negb orb].
  2: { exists r. split; [done|left]. intros mm Hm'. rewrite Hm in Hm'. injection Hm' as <-. by rewrite Hs. }
  destruct (gate_of r) as [g|] eqn:Hg; cbn [orb].
  { exists r. split; [done|left]. intros mm Hm'. rewrite Hm in Hm'. injection Hm' as <-. by rewrite Hs. }
  destruct (merge r ≫= completing_) as [cp|] eqn:Hc.
  { exists r. split; [done|left]. intros mm Hm'. rewrite Hm in Hm'. injection Hm' as <-. by rewrite Hs. }
  destruct (cutover (mcf G) && pu_staged p && negb (pu_handoff p)).
  { destruct (merge r); cbn [fst]; eexists; (split; [rewrite ?role_at_upd_eq, Hr; done|left]); intros mm Hm';
      [change (jget (openMerges (closeCorr (pu_corr p) r)) (pu_corr p) = Some mm) in Hm'|]; by rewrite closeCorr_gone in Hm'. }
  set (r1 := map_round (pu_corr p) (with_m_winnerEpoch we) r).
  assert (merge r1 = merge r) as Em by apply map_round_merge.
  assert (kept r r1) as K1 by apply kept_map_round.
  assert (gen r1 = gen r) as Eg by (unfold r1, map_round; by case_match).
  assert (jget (openMerges r1) (pu_corr p) = Some (with_m_winnerEpoch we m0)) as Hm1 by (unfold r1; by rewrite map_round_get, Hm).
  unfold mergeCut. rewrite live_upd, Hl. cbn [fmap option_fmap option_map]. rewrite decide_True by done.
  fold r1. destruct K1 as [C1 C2 C3 C4 C5 C6]. rewrite C5, Hroot. cbn [negb].
  assert (gate_of r1 = None) as Hg1 by (unfold gate_of in *; by rewrite Em). rewrite Hg1. cbv zeta. cbn [fst snd].
  set (g := mk_gate _ _ _ _ _).
  set (r2 := upd_merge (λ m, with_mcorr (Some (pu_corr p)) (with_gate_ (Some g) m)) (with_gen (to_int32 (gen r1) + 1) r1)).
  set (G2 := upd (upd G ref _) ref _).
  assert (role_at G2 ref = Some r2) as H2 by (unfold G2; by rewrite !role_at_upd_eq, Hr).
  assert (mcf G2 = mcf G) as Hcf by done. clearbody G2. rewrite Hcf.
  set (st := cutover (mcf G) && pu_staged p).
  set (G3 := if st then upd G2 ref _ else G2).
  set (r3 := if st then map_merge (with_gate_ (Some (mk_gate (g_winner g) (g_winnerEpoch g) (g_corr g) (g_at g) true))) r2 else r2).
  assert (role_at G3 ref = Some r3) as H3 by (unfold G3, r3; destruct st; [by rewrite role_at_upd_eq, H2|done]).
  assert (openMerges r3 = openMerges r1 ∧ cache r3 = cache r ∧ isRoot r3 = true ∧ gen r3 = to_int32 (gen r) + 1 ∧
    ∃ g', gate_of r3 = Some g' ∧ g_corr g' = pu_corr p ∧ g_winner g' = requester ∧ g_at g' = now E) as (O3 & X3 & I3 & N3 & Q3).
  { unfold r3. rewrite <-Eg, <-C1. destruct st; (split_and!; [done|done|simpl; congruence|done|]); eexists; by rewrite <-Hlc. }
  assert (mcf G3 = mcf G) as Hcf3 by (unfold G3; by destruct st).
  clearbody G3 r3. set (f4 := map_round (pu_corr p) (λ m, with_m_winnerHost _ _)).
  change (mcf (upd G3 ref f4)) with (mcf G3). rewrite Hcf3.
  destruct (EXPORT_BYTES_MAX <? _); cbn [fst].
  { eexists. rewrite role_at_emit, role_at_upd_eq, role_at_upd_eq, H3. split; [done|left]. intros mm Hm'.
    change (jget (openMerges (closeCorr (pu_corr p) (f4 r3))) (pu_corr p) = Some mm) in Hm'. by rewrite closeCorr_gone in Hm'. }
  eexists. rewrite role_at_emit, role_at_upd_eq, role_at_upd_eq, H3. split; [done|right].
  eexists. rewrite map_round_get. unfold f4. rewrite map_round_get, O3, Hm1. split; [done|].
  unfold f4. rewrite (map_round_with _ _ r3), map_round_with. split; [|by split_and!]. split; simpl; try done.
  - unfold export_bodies. by rewrite merge_sort_Permutation.
  - unfold export_dels. by rewrite merge_sort_Permutation.
Qed.
End bind.

(** The bind is one cut: the only pull that binds a round is the winner's first under its
    correlation, at an ungated root, with the timing that was offered.  It gates the root, moves
    its generation (so no write admitted before commits after), fixes the lease's start on both
    clocks, and the round's export is the root's whole cache and every deletion active then.  The
    root keeps its claim and its cache; any other pull binds nothing. *)
Theorem bind_is_exact E kill_json G p t ref r :
  pu_topic p = Some t → live G t = Some (ref, r) → not_bound r (pu_corr p) →
  ∃ r', role_at (mergeAnswerPull E kill_json G p).1 ref = Some r' ∧
    (not_bound r' (pu_corr p) ∨
     ∃ m, jget (openMerges r') (pu_corr p) = Some m ∧ m_winner m = lc (pu_parent p) ∧
          bound_to E (mcf G) r (pu_corr p) (lc (pu_parent p)) r' m ∧ sameTiming (pu_timing p) (m_timing m) = true).
Proof.
  intros Ht Hl Hnb. pose proof Hl as [Ha Hr]%live_Some. unfold mergeAnswerPull. rewrite Ht, Hl.
  assert (∃ r', role_at G ref = Some r' ∧ (not_bound r' (pu_corr p) ∨
    ∃ m, jget (openMerges r') (pu_corr p) = Some m ∧ m_winner m = lc (pu_parent p) ∧
      bound_to E (mcf G) r (pu_corr p) (lc (pu_parent p)) r' m ∧ sameTiming (pu_timing p) (m_timing m) = true)) as Hsame
    by (exists r; split; [done|by left]).
  destruct (hex_id (lc (pu_parent p))) as [rb|]; [|exact Hsame].
  destruct (jget (openMerges r) (pu_corr p)) as [m0|] eqn:Hm.
  - case_bool_decide as Hw; cbn [negb]; [|exact Hsame].
    destruct (m_state m0) eqn:Es; [|by destruct (Hnb m0 Hm)|exact Hsame].
    destruct (answer_bind_spec E kill_json G t ref r (lc (pu_parent p)) (default 0 (pu_winnerEpoch p)) p m0) as
      (r' & H1 & H2); [done|apply lc_idemp|done|done|]. exists r'. split; [exact H1|]. destruct H2 as [H2|(m & A & B & C & D & F)]; [by left|].
    right. exists m. split_and!; [done|congruence|done|congruence].
  - destruct (match merge r with Some s => _ | None => false end); [exact Hsame|].
    destruct (_ || _ || _); [exact Hsame|]. destruct (mergeTimingAccepted (pu_timing p)) as [tm|]; [|exact Hsame].
    set (m0 := offered _ _ _ _ _).
    destruct (answer_bind_spec E kill_json (upd G ref (put_merge (pu_corr p) m0)) t ref (put_merge (pu_corr p) m0 r) (lc (pu_parent p))
      (default 0 (pu_winnerEpoch p)) p m0) as (r' & H1 & H2); [|apply lc_idemp|apply jget_jset_eq|done|].
    { rewrite live_upd, Hl. cbn [fmap option_fmap option_map]. by rewrite decide_True. }
    exists r'. split; [exact H1|]. destruct H2 as [H2|(m & A & B & C & D & F)]; [by left|]. right. exists m.
    split_and!; [done|by rewrite C|by destruct B|congruence].
Qed.

(** * The sweep *)

(** Rounds end and are not opened. *)
Record rounds_le (r r' : role) : Prop := {
  rl_gate : ∀ g, gate_of r' = Some g → gate_of r = Some g;
  rl_merges : ∀ c m, jget (openMerges r') c = Some m → jget (openMerges r) c = Some m;
  rl_pulls : ∀ c p, jget (openPulls r') c = Some p → jget (openPulls r) c = Some p
}.
#[export] Instance rounds_le_preorder : PreOrder rounds_le.
Proof. split; [by split|]. intros r1 r2 r3 [] []. split; auto. Qed.

(** Of every role object: it was there, with at least these rounds. *)
Definition all_le (G G' : mgr) : Prop := ∀ ref r', role_at G' ref = Some r' → ∃ r, role_at G ref = Some r ∧ rounds_le r r'.
#[export] Instance all_le_preorder : PreOrder all_le.
Proof.
  split; [intros G ref r' Hr; by exists r'|]. intros G1 G2 G3 H1 H2 ref r3 Hr. destruct (H2 _ _ Hr) as (r2 & Hr2 & L2).
  destruct (H1 _ _ Hr2) as (r1 & Hr1 & L1). exists r1. split; [done|by etrans].
Qed.

Lemma all_le_upd G ref f : (∀ r, rounds_le r (f r)) → all_le G (upd G ref f).
Proof.
  intros Hf ref' r' Hr. rewrite role_at_upd in Hr. case_decide; [|by exists r'].
  destruct (role_at G ref') as [r|]; [|done]. injection Hr as <-. by exists r.
Qed.
Lemma all_le_heap G G' : heap G' = heap G → all_le G G'.
Proof. intros H ref r' Hr. exists r'. unfold role_at in *. by rewrite <-H. Qed.

Lemma jget_jdel_Some {A} (l : jmap string A) k k' v : jget (jdel l k) k' = Some v → jget l k' = Some v.
Proof. rewrite jget_jdel. by case_decide. Qed.

Lemma le_map_merge f r : (∀ m g, gate_ (f m) = Some g → gate_ m = Some g) → rounds_le r (map_merge f r).
Proof.
  intros Hf. split; try done. intros g. unfold gate_of, map_merge. simpl. destruct (merge r); simpl; [apply Hf|done].
Qed.
Lemma le_upd_merge f r : (∀ m g, gate_ (f m) = Some g → gate_ m = Some g) → rounds_le r (upd_merge f r).
Proof.
  intros Hf. split; try done. intros g. unfold gate_of, upd_merge, mstate_of. simpl. destruct (merge r); simpl; [apply Hf|].
  intros H%Hf. done.
Qed.
Lemma le_closeCorr corr r : rounds_le r (closeCorr corr r).
Proof.
  unfold closeCorr. etrans; [|apply le_map_merge; done]. split; try done. simpl. intros c m. apply jget_jdel_Some.
Qed.
Lemma le_drop_candidate id r : rounds_le r (drop_candidate id r).
Proof. apply le_map_merge. intros m g. destruct (candidate_ m); [by case_decide|done]. Qed.
Lemma le_clear_gate r : rounds_le r (clear_gate r).
Proof. by apply le_map_merge. Qed.
Lemma le_abort r : rounds_le r (abort_role r).
Proof.
  unfold abort_role. destruct (gate_of r) as [g|]; [|done].
  etrans; [|apply le_clear_gate]. etrans; [|by apply le_map_merge]. etrans; [|apply le_closeCorr].
  unfold mergeUnpinDeferred. destruct (jget _ _); [|done]. destruct (_ || _); [done|by apply le_map_merge].
Qed.
Lemma le_drop_pull corr r : rounds_le r (drop_pull corr r).
Proof. split; try done. simpl. intros c p. apply jget_jdel_Some. Qed.

Lemma all_le_set_down E G ref why tok : all_le G (set_ E G ref false why tok).1.
Proof.
  unfold set_. destruct (role_at G ref) as [r|]; [|done]. destruct (Bool.eqb (isRoot r) false); [done|]. cbn [negb andb].
  destruct (_ && negb (token_ok r tok)); cbn [fst]; [apply all_le_upd; intros; by apply le_upd_merge|].
  etrans; [|apply all_le_upd; by split]. destruct (_ && hasCustody E G r); [|done]. apply all_le_upd. intros. by apply le_map_merge.
Qed.
Lemma all_le_demote E G t h w k b : all_le G (demote E G t h w k b).1.
Proof.
  unfold demote. destruct (live G t) as [[ref r]|]; [|done]. destruct (negb (isRoot r)); [done|].
  destruct (idBigS h) as [w'|]; [|done]. destruct (w' =? _); [done|].
  pose proof (all_le_set_down E G ref w k) as H. destruct (set_ E G ref false w k) as [G1 c]. cbn [fst] in H.
  destruct (negb c); [done|]. etrans; [exact H|]. cbn [fst]. by destruct (b || _); apply all_le_heap.
Qed.

Section sweep.
Context (E : env) (tok : string → string).

Lemma all_le_stageEnd G ref corr : all_le G (stageEnd G ref corr).
Proof.
  unfold stageEnd. destruct (role_at G ref) as [r|]; [|done]. destruct (staging r) as [st|]; [|done].
  case_bool_decide; [|done]. cbn [negb]. etrans; [apply (all_le_upd _ ref (with_staging None)); by split|].
  destruct (_ && _); [by apply all_le_heap|done].
Qed.
Lemma all_le_pullEnd G ref corr b : all_le G (pullEnd G ref corr b).
Proof.
  unfold pullEnd. etrans; [|apply all_le_stageEnd]. apply all_le_upd. intros r.
  etrans; [|apply le_drop_pull]. destruct b; [|done]. by apply le_map_merge.
Qed.
Lemma all_le_sweep_merge ref G p : all_le G (sweep_merge E tok ref G p).
Proof.
  unfold sweep_merge. destruct p as [corr m]. destruct (role_at G ref) as [r|]; [|done].
  destruct (_ && _); [|done].
  assert (all_le G (upd G ref (closeCorr corr))) as H1 by (apply all_le_upd; intros; apply le_closeCorr).
  assert (∀ G0, all_le G0 (upd G0 ref (drop_candidate (m_winner m)))) as H2 by (intros; apply all_le_upd; intros; apply le_drop_candidate).
  destruct (cutover _); [by etrans|].
  destruct (_ || _ || _); [destruct (_ && _); [by etrans|done]|].
  etrans; [exact H1|]. etrans; [|apply all_le_demote]. apply all_le_upd. intros. by apply le_upd_merge.
Qed.
Lemma all_le_sweep_pull ref G q : all_le G (sweep_pull E ref G q).
Proof. unfold sweep_pull. destruct q as [corr p]. repeat case_match; try done; apply all_le_pullEnd. Qed.

Lemma all_le_foldl {A} (f : mgr → A → mgr) l G : (∀ G a, all_le G (f G a)) → all_le G (foldl f G l).
Proof. intros Hf. revert G. induction l as [|a l IH]; intros G; [done|]. simpl. etrans; [apply Hf|apply IH]. Qed.

Lemma all_le_sweep_role G q : all_le G (sweep_role E tok G q).
Proof.
  unfold sweep_role. etrans; [|apply all_le_foldl; intros; apply all_le_sweep_pull].
  etrans; [|apply all_le_foldl; intros; apply all_le_sweep_merge].
  destruct (role_at G q.2 ≫= gate_of); [|done]. destruct (_ <=? _); [|done]. apply all_le_upd. intros. apply le_abort.
Qed.

(** What no role has after its sweep. *)
Definition stale_merge (m : mrec) : Prop := m_state m = MOffered ∧ MERGE_OFFER_TIMEOUT_MS ≤ now E - m_offeredAt m.
Definition stale_pull (p : prec) : Prop :=
  if p_acked p then MERGE_RETENTION_MS ≤ now E - p_tS p else MERGE_TIMEOUT_MS ≤ now E - p_startedAt p.
Record swept (r : role) : Prop := {
  sw_gate : ∀ g, gate_of r = Some g → now E - g_at g < MERGE_TIMEOUT_MS;
  sw_merges : ∀ c m, jget (openMerges r) c = Some m → ¬ stale_merge m;
  sw_pulls : ∀ c p, jget (openPulls r) c = Some p → ¬ stale_pull p
}.
Definition swept_at (G : mgr) (ref : nat) : Prop := ∀ r, role_at G ref = Some r → swept r.

Lemma swept_le G G' ref : all_le G G' → swept_at G ref → swept_at G' ref.
Proof.
  intros H Hs r' Hr'. destruct (H _ _ Hr') as (r & Hr & [L1 L2 L3]). destruct (Hs r Hr) as [S1 S2 S3]. split; eauto.
Qed.

(** One entry's turn: it is gone if it was stale. *)
Lemma sweep_merge_turn ref G c m : stale_merge m → ∀ r', role_at (sweep_merge E tok ref G (c, m)) ref = Some r' →
  jget (openMerges r') c = None.
Proof.
  intros [H1 H2] r' Hr'. unfold sweep_merge in Hr'. destruct (role_at G ref) as [r|] eqn:Hr; [|congruence].
  rewrite H1, bool_decide_eq_true_2 in Hr' by done. replace (MERGE_OFFER_TIMEOUT_MS <=? now E - m_offeredAt m) with true in Hr'
    by (symmetry; by apply Z.leb_le). cbn [andb] in Hr'.
  match type of Hr' with role_at ?X ref = _ => assert (all_le (upd G ref (closeCorr c)) X) as Hle end.
  { assert (∀ G0, all_le G0 (upd G0 ref (drop_candidate (m_winner m)))) as Hd by (intros; apply all_le_upd; intros; apply le_drop_candidate).
    destruct (cutover _); [done|]. destruct (_ || _ || _); [by destruct (_ && _)|].
    etrans; [|apply all_le_demote]. apply all_le_upd. intros. by apply le_upd_merge. }
  destruct (Hle _ _ Hr') as (r0 & Hr0 & [_ L _]). rewrite role_at_upd_eq, Hr in Hr0. injection Hr0 as <-.
  destruct (jget (openMerges r') c) as [m'|] eqn:Hm; [|done]. apply L in Hm. by rewrite closeCorr_gone in Hm.
Qed.
Lemma sweep_pull_turn ref G c p : stale_pull p → ∀ r', role_at (sweep_pull E ref G (c, p)) ref = Some r' →
  jget (openPulls r') c = None.
Proof.
  intros Hp r' Hr'. assert (sweep_pull E ref G (c, p) = pullEnd G ref c true) as Es.
  { unfold sweep_pull, stale_pull in *. destruct (p_acked p); by rewrite (proj2 (Z.leb_le _ _) Hp). }
  rewrite Es in Hr'. unfold pullEnd in Hr'. destruct (all_le_stageEnd _ _ _ _ _ Hr') as (r0 & Hr0 & [_ _ L]).
  rewrite role_at_upd_eq in Hr0. destruct (role_at G ref) as [r|]; [|done]. injection Hr0 as <-.
  destruct (jget (openPulls r') c) as [p'|] eqn:Hm; [|done]. apply L in Hm. simpl in Hm. by rewrite jget_jdel_eq in Hm.
Qed.

(** A pass over the entries a role has leaves none that the entry's turn removes. *)
Lemma pass_clears {A} (turn : mgr → string * A → mgr) (get : role → jmap string A) (bad : A → Prop) ref l G :
  (∀ G q, all_le G (turn G q)) →
  (∀ r r' c a, rounds_le r r' → jget (get r') c = Some a → jget (get r) c = Some a) →
  (∀ G c a, bad a → ∀ r', role_at (turn G (c, a)) ref = Some r' → jget (get r') c = None) →
  (∀ r, role_at G ref = Some r → ∀ c a, jget (get r) c = Some a → bad a → (c, a) ∈ l) →
  ∀ r, role_at (foldl turn G l) ref = Some r → ∀ c a, jget (get r) c = Some a → ¬ bad a.
Proof.
  intros Hle Hget Hturn. revert G. induction l as [|[c0 a0] l IH]; intros G Hin r Hr c a Ha Hb.
  - specialize (Hin r Hr c a Ha Hb). by apply not_elem_of_nil in Hin.
  - eapply (IH (turn G (c0, a0))); [|exact Hr|exact Ha|exact Hb]. intros r1 Hr1 c1 a1 Ha1 Hb1.
    destruct (Hle G (c0, a0) _ _ Hr1) as (r0 & Hr0 & L). pose proof (Hget _ _ _ _ L Ha1) as Ha0.
    specialize (Hin r0 Hr0 c1 a1 Ha0 Hb1). apply elem_of_cons in Hin as [[= -> ->]|Hin]; [|done].
    by rewrite (Hturn G c0 a0 Hb1 r1 Hr1) in Ha1.
Qed.

Lemma sweep_role_swept G q : swept_at (sweep_role E tok G q) q.2.
Proof.
  unfold sweep_role. set (ref := q.2). set (G1 := match _ with Some g => _ | None => G end).
  set (G2 := foldl (sweep_merge E tok ref) _ _).
  assert (∀ r g, role_at G1 ref = Some r → gate_of r = Some g → now E - g_at g < MERGE_TIMEOUT_MS) as Hg.
  { intros r g Hr Hgr. unfold G1 in Hr. destruct (role_at G ref) as [r0|] eqn:Hr0; simpl in Hr; [|congruence].
    destruct (gate_of r0) as [g0|] eqn:Hg0; [|congruence]. destruct (_ <=? _) eqn:E1; zb; [|congruence].
    unfold mergeAbort in Hr. rewrite role_at_upd_eq, Hr0 in Hr. injection Hr as <-. unfold abort_role in Hgr. rewrite Hg0 in Hgr.
    revert Hgr. unfold clear_gate, gate_of, map_merge. simpl. by destruct (merge _). }
  assert (all_le G1 G2) as L2 by (apply all_le_foldl; intros; apply all_le_sweep_merge).
  assert (all_le G2 (foldl (sweep_pull E ref) G2 (default [] (openPulls <$> role_at G2 ref)))) as L3
    by (apply all_le_foldl; intros; apply all_le_sweep_pull).
  assert (∀ r, role_at G2 ref = Some r → ∀ c m, jget (openMerges r) c = Some m → ¬ stale_merge m) as Hm.
  { apply (pass_clears (sweep_merge E tok ref) openMerges stale_merge ref).
    - intros; apply all_le_sweep_merge.
    - intros r r' c a [] ?; eauto.
    - intros G0 c a. apply sweep_merge_turn.
    - intros r Hr c a Ha _. rewrite Hr. by apply jget_Some_elem. }
  intros r Hr. destruct (L3 _ _ Hr) as (r2 & Hr2 & R2). destruct (L2 _ _ Hr2) as (r1 & Hr1 & R1). split.
  - intros g Hgr. apply (Hg r1); [done|]. by apply R1, R2.
  - intros c m Hc. apply R2 in Hc. by eapply Hm.
  - clear - Hr. revert r Hr. apply (pass_clears (sweep_pull E ref) openPulls stale_pull ref).
    + intros; apply all_le_sweep_pull.
    + intros r r' c a [] ?; eauto.
    + intros G0 c a. apply sweep_pull_turn.
    + intros r Hr c a Ha _. rewrite Hr. by apply jget_Some_elem.
Qed.

Lemma foldl_swept l G ref : (∃ q, q ∈ l ∧ q.2 = ref) → swept_at (foldl (sweep_role E tok) G l) ref.
Proof.
  revert G. induction l as [|q0 l IH]; intros G (q & Hq & He); [by apply not_elem_of_nil in Hq|]. simpl.
  apply elem_of_cons in Hq as [->|Hq]; [|apply IH; by exists q].
  eapply swept_le; [apply all_le_foldl; intros; apply all_le_sweep_role|]. rewrite <-He. apply sweep_role_swept.
Qed.

(** The sweep maps no topic to another role. *)
Definition roles_sub (G G' : mgr) : Prop := ∀ q, q ∈ axonRoles G' → q ∈ axonRoles G.
Lemma roles_sub_foldl {A} (f : mgr → A → mgr) l G : (∀ G a, roles_sub G (f G a)) → roles_sub G (foldl f G l).
Proof. intros Hf. revert G. induction l as [|a l IH]; intros G q Hq; [done|]. by apply (Hf G a), IH. Qed.
Lemma demote_roles G t h w k b : axonRoles (demote E G t h w k b).1 = axonRoles G.
Proof.
  unfold demote, set_. destruct (live G t) as [[ref r]|]; [|done]. destruct (negb (isRoot r)); [done|].
  destruct (idBigS h); [|done]. destruct (_ =? _); [done|].
  destruct (role_at G ref); repeat (case_match || simplify_eq/=); done.
Qed.
Lemma roles_sub_sweep_role G q : roles_sub G (sweep_role E tok G q).
Proof.
  assert (∀ G ref c b, roles_sub G (pullEnd G ref c b)) as Hp.
  { intros G0 ref c b x. unfold pullEnd, stageEnd. destruct (role_at _ ref) as [r|]; [|done]. destruct (staging r); [|done].
    destruct (negb _); [done|]. destruct (_ && _); [|done]. simpl. unfold jdel. intros Hx%list_elem_of_filter. by destruct Hx. }
  intros x Hx. unfold sweep_role in Hx. apply roles_sub_foldl in Hx.
  2: { intros G0 [c p]. unfold sweep_pull. destruct (p_acked p), (_ <=? _); [apply Hp|by intros ? ?|apply Hp|by intros ? ?]. }
  apply roles_sub_foldl in Hx.
  2: { intros G0 [c m] y. unfold sweep_merge. destruct (role_at G0 q.2); [|done]. destruct (_ && _); [|done].
       destruct (cutover _); [done|]. destruct (_ || _ || _); [by destruct (_ && _)|]. by rewrite demote_roles. }
  by repeat case_match.
Qed.

(** C12. No round holds a role up for longer than its bound: whatever the other side does, a sweep
    leaves no live role with a gate older than [MERGE_TIMEOUT_MS], an offer unanswered for
    [MERGE_OFFER_TIMEOUT_MS], a pull older than [MERGE_TIMEOUT_MS] or an acknowledged one past its
    retention; it opens no round and sets no gate.  This is the sweep's bound and not the end of a
    round that has flipped: the loser's completed record and the pins of its export wait for
    [MERGE_CLOSED], and no sweep ends them ([flipped_record_waits]). *)
Theorem rounds_end G t ref r : live (mergeSweep E tok G) t = Some (ref, r) →
  swept r ∧ ∃ r0, role_at G ref = Some r0 ∧ rounds_le r0 r.
Proof.
  unfold mergeSweep. intros [Ha Hr]%live_Some. split.
  - eapply foldl_swept; [|exact Hr]. apply jget_Some_elem, roles_sub_foldl in Ha; [|intros; apply roles_sub_sweep_role].
    by exists (t, ref).
  - apply (all_le_foldl (sweep_role E tok) (axonRoles G) G) in Hr; [done|]. intros; apply all_le_sweep_role.
Qed.
End sweep.

(** * The writes behind a gate *)

Lemma live_fwd_size now_ l : jsize (live_fwd now_ l) ≤ jsize l.
Proof.
  unfold live_fwd. generalize l at 1 3 as m. induction l as [|p l IH]; intros m; [done|]. simpl. etrans; [apply IH|].
  destruct (_ <=? _); [apply jsize_jdel_le|done].
Qed.

(** The role is as it was but for the ledger of its forwards. *)
Definition only_ledger (r r' : role) : Prop := ∃ l, r' = upd_merge (with_gateFwd l) r.

(** A gated root stamps nothing and loses nothing silently: a bare write that meets the gate
    is handled there, the role is untouched but for the ledger of forwards, and the write either
    goes to the bound winner under the bound epoch with a nonce that is recorded, or - with 256
    forwards outstanding - is reported undeliverable; the ledger never exceeds 256.  When a
    forward comes back, it is reported and its nonce consumed, never forwarded a second time,
    whatever the state of the gate by then. *)
Theorem gated_write_forwarded E nonce G t ref r g w :
  live G t = Some (ref, r) → gate_of r = Some g → g_staged g = false → w_via w = false → w_gateFwd w = None →
  jsize (gateFwd (mstate_of r)) ≤ MERGE_GATE_FWD_MAX →
  ∃ G' r', mergeGateIntercept E nonce G t w = (G', true) ∧ live G' t = Some (ref, r') ∧ only_ledger r r' ∧
    jsize (gateFwd (mstate_of r')) ≤ MERGE_GATE_FWD_MAX ∧
    (outbox G' = outbox G ++ [UndeliverableE t "merge-gate-saturated"] ∧ jsize (gateFwd (mstate_of r')) = MERGE_GATE_FWD_MAX ∨
     outbox G' = outbox G ++ [ForwardWinner t (g_winner g) (g_winnerEpoch g) (g_corr g) nonce] ∧
     ∀ E2 n2 G2 r2, live G2 t = Some (ref, r2) → jget (gateFwd (mstate_of r2)) nonce = jget (gateFwd (mstate_of r')) nonce →
       is_Some (merge r2) →
       ∃ G3 r3, mergeGateIntercept E2 n2 G2 t (mk_write (w_type w) false (Some nonce)) = (G3, true) ∧
         outbox G3 = outbox G2 ++ [UndeliverableE t "merge-gate-return"] ∧ live G3 t = Some (ref, r3) ∧
         jget (gateFwd (mstate_of r3)) nonce = None ∧ only_ledger r2 r3).
Proof.
  intros Hl Hg Hst Hv Hf Hsz. unfold mergeGateIntercept. rewrite Hv, Hl, Hf, Hg, Hst. cbv zeta. unfold mergeGateForward.
  set (l := live_fwd (now E) (gateFwd (mstate_of r))).
  pose proof Hl as [Ha Hr]%live_Some. rewrite role_at_upd_eq, Hr. cbn [fmap option_fmap option_map].
  change (gateFwd (mstate_of (upd_merge (λ m, with_gateFwd (live_fwd (now E) (gateFwd m)) m) r))) with l.
  assert (jsize l ≤ jsize (gateFwd (mstate_of r))) as Hle by apply live_fwd_size.
  set (r1 := upd_merge (λ m, with_gateFwd (live_fwd (now E) (gateFwd m)) m) r).
  destruct (MERGE_GATE_FWD_MAX <=? jsize l) eqn:Esz; zb.
  - eexists _, r1. split; [done|]. split.
    { change (live (upd G ref (λ r, upd_merge (λ m, with_gateFwd (live_fwd (now E) (gateFwd m)) m) r)) t = Some (ref, r1)).
      rewrite live_upd, Hl. simpl. by rewrite decide_True. }
    split; [by exists l|]. change (gateFwd (mstate_of r1)) with l. split; [lia|]. left. split; [done|lia].
  - set (l2 := jset l nonce (now E, w_type w, g_corr g)).
    set (r2 := upd_merge (λ m, with_gateFwd (jset (gateFwd m) nonce (now E, w_type w, g_corr g)) m) r1).
    eexists _, r2. split; [done|]. split.
    { unfold forwardToWinner. match goal with |- live (emit ?X _) t = _ => change (live X t = Some (ref, r2)) end.
      rewrite !live_upd, Hl. simpl. by rewrite !decide_True. }
    split; [by exists l2|]. change (gateFwd (mstate_of r2)) with l2.
    assert (jsize l2 ≤ MERGE_GATE_FWD_MAX) as Hs2 by (unfold l2; rewrite jsize_jset; destruct (jhas l nonce); lia).
    split; [done|]. right. split; [done|]. intros E2 n2 G2 q Hq Hn [m Hm]. unfold l2 in Hn. rewrite jget_jset_eq in Hn.
    cbn [w_via w_gateFwd w_type]. rewrite Hq. unfold mstate_of in Hn. rewrite Hm in Hn. cbn [default from_option id] in Hn.
    rewrite Hm. cbn [mbind option_bind]. change (id m) with m in Hn. rewrite Hn. rewrite bool_decide_eq_true_2 by done. cbn [orb].
    eexists _, (map_merge (λ m0, with_gateFwd (jdel (gateFwd m0) nonce) m0) q). split; [done|]. split; [done|]. split.
    { match goal with |- live (emit ?X _) t = _ => change (live X t = Some (ref, map_merge (λ m0, with_gateFwd (jdel (gateFwd m0) nonce) m0) q)) end.
      rewrite live_upd, Hq. simpl. by rewrite decide_True. }
    unfold map_merge, mstate_of, only_ledger, upd_merge, mstate_of. simpl. rewrite Hm. simpl. split; [apply jget_jdel_eq|]. by eexists.
Qed.

(** * Completion at the winner *)

(** The subscription completes the round: an acknowledged pull, in full, on all five fields. *)
Definition completes (G : mgr) (r : role) (subHex : string) (b : merge_block) (via : option string) : option (string * prec) :=
  corr ← mb_corr b; p ← jget (openPulls r) corr;
  if p_acked p && p_full p && bool_decide (lc (mb_winner b) = selfHex G) && (to_int32 (mb_winnerEpoch b) =? to_int32 (epoch r)) &&
     (to_int32 (mb_loserEpoch b) =? to_int32 (p_loserEpoch p)) && bool_decide (mb_hash b = p_hash p) &&
     bool_decide (subHex = p_loser p) && match via with Some v => bool_decide (lc v = selfHex G) | None => true end
  then Some (corr, p) else None.

Lemma knownEpoch_upd E G ref f t : (∀ r, epoch (f r) = epoch r) → knownEpoch E (upd G ref f) t = knownEpoch E G t.
Proof.
  intros Hf. unfold knownEpoch. rewrite live_upd. destruct (live G t) as [[x y]|]; [|done]. simpl. case_decide; by rewrite ?Hf.
Qed.

Lemma completes_run O E G ref r subHex b via : role_at G ref = Some r →
  mergeCompleteOnSub O E G ref subHex b via =
    match completes G r subHex b via with
    | Some (corr, p) =>
        (stagePromote O E (emit (upd G ref (λ r, drop_pull corr (mergeReleasePins r)))
           (MergeSend (topicId r) subHex (FClosed corr (to_int32 (epoch r))))) ref p corr, true)
    | None => (G, false)
    end.
Proof.
  intros Hr. unfold mergeCompleteOnSub, completes. rewrite Hr. destruct (mb_corr b) as [corr|]; [|done]. simpl.
  destruct (jget (openPulls r) corr) as [p|]; [|done]. simpl. destruct (p_acked p); [|done]. cbn [negb andb].
  destruct (p_full p); cbn [andb]; rewrite ?andb_true_r, ?andb_false_r; [|done].
  by destruct (bool_decide (lc (mb_winner b) = selfHex G) && _ && _ && _ && _ && _).
Qed.

Lemma noteLoser_same O E h r : let r' := noteLoserSuccessor O E h r in
  cache r' = cache r ∧ tombstones r' = tombstones r ∧ isRoot r' = isRoot r ∧ staging r' = staging r ∧ epoch r' = epoch r.
Proof. cbv zeta. unfold noteLoserSuccessor. by destruct (_ || _). Qed.

(** A winner takes what it pulled exactly on the loser's own completion: a subscription that
    does not carry the acknowledged round's block on every field changes nothing; the one that
    does ends the round, releases its pins and is answered with the closure; and where the
    winner only staged, it becomes the root there and then, with its cache, above the loser's
    epoch and above every epoch it has evidence of. *)
Theorem completion_exact O E G ref r subHex b via : role_at G ref = Some r →
  match completes G r subHex b via with
  | None => mergeCompleteOnSub O E G ref subHex b via = (G, false)
  | Some (corr, p) => ∃ G' r', mergeCompleteOnSub O E G ref subHex b via = (G', true) ∧ role_at G' ref = Some r' ∧
      cache r' = cache r ∧ tombstones r' = tombstones r ∧
      match staging r with
      | Some st =>
          sg_corr st = corr → isRoot r = false → isRoot r' = true ∧ staging r' = None ∧
          epoch r' = Z.max (to_int32 (knownEpoch E G (topicId r) + 1)) (to_int32 (p_loserEpoch p) + 1)
      | None => openPulls r' = jdel (openPulls r) corr ∧ pins_of r' = ∅ ∧ isRoot r' = isRoot r ∧ epoch r' = epoch r ∧
          outbox G' = outbox G ++ [MergeSend (topicId r) subHex (FClosed corr (to_int32 (epoch r)))]
      end
  end.
Proof.
  intros Hr. rewrite (completes_run O E G ref r) by done. destruct (completes G r subHex b via) as [[corr p]|]; [|done].
  set (r1 := drop_pull corr (mergeReleasePins r)). set (G1 := emit _ _).
  assert (role_at G1 ref = Some r1) as Hr1 by (unfold G1; by rewrite role_at_emit, role_at_upd_eq, Hr).
  assert (knownEpoch E G1 (topicId r) = knownEpoch E G (topicId r)) as Hk.
  { change (knownEpoch E (upd G ref (λ r, drop_pull corr (mergeReleasePins r))) (topicId r) = knownEpoch E G (topicId r)).
    by apply knownEpoch_upd. }
  unfold stagePromote. rewrite Hr1. change (staging r1) with (staging r).
  destruct (staging r) as [st|] eqn:Est.
  2: { exists G1, r1. split_and!; try done. unfold r1, pins_of. simpl. by destruct (merge r). }
  case_bool_decide as Hc; cbn [negb]; [|exists G1, r1; by split_and!].
  set (G2 := upd G1 ref (with_staging None)). set (r2 := with_staging None r1).
  assert (role_at G2 ref = Some r2) as Hr2 by (unfold G2; by rewrite role_at_upd_eq, Hr1).
  assert (knownEpoch E G2 (topicId r) = knownEpoch E G (topicId r)) as Hk2 by (unfold G2; rewrite knownEpoch_upd; done).
  clearbody G1 G2.
  destruct (isRoot r) eqn:Hroot.
  { unfold set_. rewrite Hr2. change (isRoot r2) with (isRoot r). rewrite Hroot. cbn [Bool.eqb negb fst].
    eexists _, _. split; [reflexivity|]. rewrite role_at_upd_eq, role_at_emit, role_at_upd_eq.
    change (role_at (put_upstream ?u ?X) ref) with (role_at X ref). rewrite role_at_upd_eq, Hr2. split; [done|].
    match goal with |- context [noteLoserSuccessor O E (p_loser p) ?x] => destruct (noteLoser_same O E (p_loser p) x) as (N1 & N2 & _) end.
    rewrite N1, N2. split_and!; [done|done|congruence]. }
  destruct (claim_transition E G2 ref r2 true "staging-complete" None Hr2) as (S1 & _ & S3); [simpl; congruence|].
  cbn [negb andb] in S1. destruct (set_ E G2 ref true "staging-complete" None) as [G3 c]. cbn [fst snd] in *. subst c.
  destruct (S3 eq_refl) as (r3 & Hr3 & I3 & C3 & T3 & P3 & F3 & _). destruct (F3 eq_refl) as (E3 & _ & _). cbn [negb].
  eexists _, _. split; [reflexivity|]. rewrite role_at_upd_eq, role_at_emit, role_at_upd_eq.
  change (role_at (put_upstream ?u ?X) ref) with (role_at X ref). rewrite role_at_upd_eq, Hr3. split; [done|].
  match goal with |- context [noteLoserSuccessor O E (p_loser p) ?x] => destruct (noteLoser_same O E (p_loser p) x) as (N1 & N2 & N3 & N4 & N5) end.
  rewrite N1, N2, N3, N4, N5. simpl. split; [exact C3|]. split; [exact T3|]. intros _ _. split; [exact I3|]. split; [exact P3|].
  change (topicId r2) with (topicId r) in E3. by rewrite E3, Hk2.
Qed.

(** * Witnesses, on the round of MergeRound *)

Definition the_pull : pull_msg :=
  default (mk_pull None "" "" None None None false false false None) (W ← step_pull; f ← sent W; pull_of demo_t f).
Definition the_bound : role := role0 (mergeAnswerPull (demo_E 530) demo_kill step_offer the_pull).1.

Lemma bind_is_exact_witness : ∃ m,
  jget (openMerges the_bound) the_corr = Some m ∧ m_bodies m ≡ₚ [demo_id] ∧ gate_corr the_bound = Some the_corr.
Proof.
  destruct (bind_is_exact (demo_E 530) demo_kill step_offer the_pull demo_t 0 (role0 step_offer)) as (r' & Hr & H).
  - vm_compute. reflexivity.
  - vm_compute. reflexivity.
  - intros m Hm Es. assert (m_state <$> jget (openMerges (role0 step_offer)) (pu_corr the_pull) = Some MOffered) as Ho
      by (vm_compute; reflexivity).
    rewrite Hm in Ho. simpl in Ho. congruence.
  - assert (the_bound = r') as -> by (unfold the_bound, role0; by rewrite Hr).
    replace (pu_corr the_pull) with the_corr in H by (vm_compute; reflexivity).
    destruct H as [H|(m & Hm & _ & [_ _ _ Hb _ _ _ _ _ _ (g & Hg & Hc & _) _] & _)].
    + exfalso. assert (m_state <$> jget (openMerges the_bound) the_corr = Some MBound) as Hb by (vm_compute; reflexivity).
      assert (the_bound = r') as E by (unfold the_bound, role0; by rewrite Hr). rewrite E in Hb.
      destruct (jget (openMerges r') the_corr) as [m|] eqn:Hm; [|discriminate Hb]. injection Hb as Hb. by apply (H m Hm).
    + exists m. split_and!; [done| |unfold gate_corr; rewrite Hg; simpl; by rewrite Hc].
      rewrite Hb. vm_compute. reflexivity.
Defined.

Definition swept_L : mgr := mergeSweep (demo_E 9000000) id the_L.
Lemma rounds_end_witness :
  gate_corr (role0 the_L) = Some the_corr ∧ isRoot (role0 swept_L) = true ∧
  ∀ g, gate_of (role0 swept_L) = Some g → 9000000 - g_at g < MERGE_TIMEOUT_MS.
Proof.
  split; [vm_compute; reflexivity|]. split; [vm_compute; reflexivity|].
  destruct (rounds_end (demo_E 9000000) id the_L demo_t 0 (role0 swept_L)) as [[H _ _] _]; [vm_compute; reflexivity|exact H].
Defined.

(** A loser that flipped and never hears [MERGE_CLOSED] keeps its record and its pins. *)
Example flipped_record_waits :
  let r := role0 (mergeSweep (demo_E 90000000) id the_end) in
  isRoot r = false ∧ m_state <$> jget (openMerges r) the_corr = Some MCompleted ∧ elements (pins_of r) = [demo_id].
Proof. vm_compute. by split_and!. Qed.

Definition the_gate : gate := default (mk_gate "" 0 "" 0 false) (gate_of (role0 the_L)).
Definition the_write : mgr * bool := mergeGateIntercept (demo_E 545) "n1" the_L demo_t (mk_write "pubsub:pub" false None).
Lemma gated_write_forwarded_witness :
  the_write.2 = true ∧ last (outbox the_write.1) = Some (ForwardWinner demo_t (selfHex demo_W) 2 the_corr "n1").
Proof.
  split; [|vm_compute; reflexivity].
  destruct (gated_write_forwarded (demo_E 545) "n1" the_L demo_t 0 (role0 the_L) the_gate (mk_write "pubsub:pub" false None))
    as (G' & r' & E & _); [vm_compute; reflexivity..|vm_compute; discriminate|].
  unfold the_write. by rewrite E.
Defined.

Definition the_block : merge_block := mk_block (Some the_corr) (selfHex demo_W) 2 1 (p_hash the_p).
Lemma completion_exact_witness :
  completes the_W (role0 the_W) (selfHex demo_L) the_block None = Some (the_corr, the_p) ∧
  ∃ G' r', mergeCompleteOnSub demo_O (demo_E 620) the_W 0 (selfHex demo_L) the_block None = (G', true) ∧
    role_at G' 0 = Some r' ∧ pins_of r' = ∅.
Proof.
  assert (completes the_W (role0 the_W) (selfHex demo_L) the_block None = Some (the_corr, the_p)) as Hc by (vm_compute; reflexivity).
  split; [exact Hc|].
  pose proof (completion_exact demo_O (demo_E 620) the_W 0 (role0 the_W) (selfHex demo_L) the_block None) as H.
  rewrite Hc in H. destruct H as (G' & r' & E & Hr & _ & _ & H); [vm_compute; reflexivity|].
  replace (staging (role0 the_W)) with (@None staging_) in H by (vm_compute; reflexivity).
  exists G', r'. split_and!; [done|done|]. apply H.
Defined.

(** Two losers hand over to one winner: completing the first round drops the pins of the second,
    although its acknowledgement was sent and its record still stands. *)
Definition two_pulls : mgr :=
  upd the_W 0 (λ r, put_pull "c9" (with_p_full true (with_p_acked true (with_p_bodies ["m9"] (new_pull (idHex 8) 1 540 mergeTiming))))
                      (upd_merge (pin_ids ["m9"]) r)).
Example closing_one_round_unpins_the_other :
  bool_decide ("m9" ∈ pins_of (role0 two_pulls)) = true ∧
  let r := role0 (mergeCompleteOnSub demo_O (demo_E 620) two_pulls 0 (selfHex demo_L) the_block None).1 in
  p_acked <$> jget (openPulls r) "c9" = Some true ∧ pins_of r = ∅.
Proof. split; [vm_compute; reflexivity|]. split; vm_compute; reflexivity. Qed.

(** Under cutover, a staged pull that lacks the capability, under a correlation the root never
    offered, makes a root with no merge state throw. *)
Definition bare_cf : mcfg :=
  mk_mcfg 7 true true false false true false false 0 90000 5000 4 300000 1024 (16 * 1024 * 1024) 20000 5000.
Definition bare_root : mgr := alloc (new_mgr bare_cf) 9 (with_epoch 1 (makeRole 9 true 0)).
Example unsolicited_staged_pull_throws :
  (mergeAnswerPull (demo_E 500) demo_kill bare_root
    (mk_pull (Some 9) "x" (idHex 9) (Some 5) None (send_timing mergeTiming) true false false None)).2 = Throw typeError.
Proof. vm_compute. reflexivity. Qed.
