(* ===== verification/Publish.v ===== *)
(** Publish.v - how a root takes a write: [_ingestPublish], the commit of [_onKill], the
    acknowledgement and [_checkFreshness]'s gate (src/src/pubsub/wireHandlers.js).

    A write is held by reference across its awaits: at each one another task may run ([others]),
    and the clock read after it is [clock].  What happens between two awaits is one definition:
    [admitWrite] from the duplicate check to the stamp, [settle] from the stamp to the answer,
    [kill_commit] for a deletion.  What the cohort answers to an eager replication is [replicate]. *)
From stdpp Require Import base gmap sets list strings sorting.
From Stdlib Require Import ZArith Lia.
From S2P Require Import Prelude HexId Durability Role TopicStore RootClaim.
From S2P Require Import Canonical SignedRecords Transcripts TopicId Stamped MergeMachine.
#[local] Open Scope Z_scope.
#[local] Open Scope js_scope.
#[local] Set Default Proof Using "Type".

(** * Data *)

(** What [_ingestPublish] answers. *)
Inductive how := Duplicate | Suppressed | Confirmed | PendingDurability.
Inductive ingest := IOk (msgId : string) (h : how) | IBad (reason : string) (msgId : option string).

(** [lc(v)] of a JSON value: an object with a member [toString] has no text. *)
Definition lc_json (v : json) : js_result string := if nullish v then Ok "" else s ← js_String v; Ok (lc s).

(** [desc.write === 'owner' && (!env.signerPubkey || lc(env.signerPubkey) !== lc(desc.owner))], negated. *)
Definition owner_ok (env : json) : js_result bool :=
  let d := field env "topic" in
  if text_is (field d "write") "owner" then
    if truthy_value (field env "signerPubkey") then
      s ← lc_json (field env "signerPubkey"); o ← lc_json (field d "owner"); Ok (bool_decide (s = o))
    else Ok false
  else Ok true.

(** The write reserve of a round: whether it covers the write, and what is left of it. *)
Definition reserve_ok (json : string) (r : role) : bool :=
  match merge r ≫= reserve_ with
  | Some (n, b) => negb ((n <=? 0) || (b <? strlen json + 80))
  | None => true
  end.
Definition spend_reserve (json : string) : role → role :=
  map_merge (λ m, match reserve_ m with Some (n, b) => with_reserve_ (Some (n - 1, b - (strlen json + 80))) m | None => m end).

(** The stamp: strictly above every stamp the role gave, floored at now; the next dense number. *)
Definition stamp_ts (now : Z) (r : role) : Z := Z.max (lastTs r + 1) now.
Definition stamp_role (now : Z) (r : role) : role :=
  with_seq (seq r + 1) (with_demandAt now (with_lastTs (stamp_ts now r) r)).

(** * The write *)

Section publish.
Context (JSON_parse : string → option json) (sha256 : bytes → bytes)
  (ed_verify : bytes → bytes → bytes → js_result bool) (resolveRegion : json → option Z) (ks : keyspace).
Context (others : nat → mgr → mgr) (clock : nat → Z) (replicate : nat → rep).

Notation signerOf := (signerOf JSON_parse).
Notation bound_topic := (bound_topic sha256 resolveRegion ks).

(** From the duplicate check to the stamp and the cache write: one synchronous run. *)
Definition admitWrite (now : Z) (G : mgr) (ref : nat) (c : option cut) (id json : string) : mgr * js_result (ingest + Z * Z) :=
  match role_at G ref with
  | None => (G, Ok (inl (IBad "bad-descriptor" None)))
  | Some r =>
      if bool_decide (id ∈ cacheIds r) then (G, Ok (inl (IOk id Duplicate)))
      else match tombstoned signerOf r id json with
      | (_, Throw x) => (G, Throw x)
      | (r, Ok dead) =>
        let G := upd G ref (λ _, r) in
        if dead then (G, Ok (inl (IOk id Suppressed)))
        else if negb (reserve_ok json r) then (G, Ok (inl (IBad "merge-reserve" (Some id))))
        else if negb (cutHolds G ref c) then (G, Ok (inl (IBad "cut" (Some id))))
        else
          let ts := stamp_ts now r in
          let sq := seq r + 1 in
          let G := upd G ref (stamp_role now) in
          let G := (cachePush G ref (mk_entry id ts json (Some sq) 0) c).1 in
          (upd G ref (spend_reserve json), Ok (inr (ts, sq)))
      end
  end.

(** What follows a stamp: the ledger, the fan-out, the local app, the cohort, the answer. *)
Definition settle (k : nat) (G : mgr) (ref : nat) (t : Z) (id : string) (ts sq : Z) : mgr * ingest :=
  let G := if tombAuthority (mcf G) && holds_id G ref id then others k (emit G (ObserveBody t id)) else G in
  let G := emit G (OpenDurability ref id) in
  let G := if rootReplicas (mcf G) then G else emit G (NoCohort ref id) in
  let G := emit G (FanoutBody ref id) in
  let G := deliverToApp G t id ts (Some sq) in
  if match role_at G ref with Some r => isRoot r | None => false end && rootReplicas (mcf G) then
    let G := others (S k) (emit G (ReplicateRole t)) in
    let rep := replicate k in
    let G := emit G (RecordDurability ref id) in
    if (0 <? default 0 (r_attempted rep)) && (default 0 (r_verified rep) =? 0) then (G, IOk id PendingDurability)
    else (emit G (ConfirmPending t id), IOk id Confirmed)
  else (emit G (ConfirmPending t id), IOk id Confirmed).

(** [_ingestPublish] *)
Definition ingestPublish (k : nat) (G : mgr) (ref : nat) (c : option cut) (json : string) : mgr * js_result ingest :=
  match JSON_parse json with
  | None => (G, Ok (IBad "unparseable" None))
  | Some env =>
      let v := verifyEnvelope sha256 ed_verify ks env in
      let G := others k G in
      match v with
      | Throw x => (G, Throw x)
      | Ok (EBad _ _) => (G, Ok (IBad "bad-envelope" None))
      | Ok (EOk _) =>
          match checkFreshness env (clock k) SignedRecords.MAX_PUBLISH_SKEW_MS with
          | Fresh =>
              let G := others (S k) G in
              match bound_topic env, role_at G ref with
              | Ok tid, Some r =>
                  if negb (tid =? topicId r) then (G, Ok (IBad "topic-mismatch" None))
                  else match owner_ok env with
                  | Throw x => (G, Throw x)
                  | Ok false => (G, Ok (IBad "write-policy" None))
                  | Ok true =>
                    let G := upd G ref (noteMetricRole (as_text (field (field env "topic") "name"))) in
                    let id := default "" (as_text (field env "msgId")) in
                    match admitWrite (clock (S k)) G ref c id json with
                    | (G, Throw x) => (G, Throw x)
                    | (G, Ok (inl o)) => (G, Ok o)
                    | (G, Ok (inr (ts, sq))) =>
                        let '(G, o) := settle (S (S k)) G ref tid id ts sq in (G, Ok o)
                    end
                  end
              | _, _ => (G, Ok (IBad "bad-descriptor" None))
              end
          | _ => (G, Ok (IBad "stale" None))
          end
      end
  end.

(** * The deletion *)

(** The proof as the stores keep it, of a kill [verifyKill] accepted. *)
Definition proof_of (kill : json) : killproof :=
  mk_kill (default "" (as_text (field kill "msgId"))) (JStr <$> as_text (field kill "topicId"))
    (default "" (as_text (field kill "signerPubkey"))).

Inductive kill_out := KAcked (target : string) | KCut (target : string) | KUnauthorized | KBadKill (reason : string) | KNoTarget.

(** Only the author of a body that is held may delete it. *)
Definition author_ok (r : role) (target signer : string) : js_result bool :=
  match list_find (λ e, e_msgId e = target) (cache r) with
  | Some (_, e) => o ← signerOf (e_json e); Ok (match o with Some a => bool_decide (lc a = lc signer) | None => false end)
  | None => Ok true
  end.

(** From the author check to the tombstone: one synchronous run. *)
Definition kill_commit (now : Z) (G : mgr) (ref : nat) (t : Z) (c : option cut) (p : killproof) (target : string) : mgr * js_result kill_out :=
  match role_at G ref with
  | None => (G, Ok KNoTarget)
  | Some r =>
      match author_ok r target (kp_signer p) with
      | Throw x => (G, Throw x)
      | Ok false => (G, Ok KUnauthorized)
      | Ok true =>
        let msg ts sq := mk_killmsg target (Some ts) (Some (lc (kp_signer p))) sq (Some p) in
        match jget (tombstones r) target with
        | Some tb =>
            match applyKill G now (Some ref) t (msg (t_killTs tb) (t_seq tb)) c None with
            | (G, Refused) => (G, Ok (KCut target))
            | (G, Applied) => (G, Ok (KAcked target))
            end
        | None =>
            let G := upd G ref (stamp_role now) in
            match applyKill G now (Some ref) t (msg (stamp_ts now r) (Some (seq r + 1))) c None with
            | (G, Refused) =>
                (upd G ref (λ r', with_demandAt (demandAt r) (with_lastTs (lastTs r) (with_seq (seq r) r'))), Ok (KCut target))
            | (G, Applied) => (G, Ok (KAcked target))
            end
        end
      end
  end.

(** [_onKill] from the capture of the cut on; [kill] is [payload.kill]. *)
Definition ingestKill (k : nat) (G : mgr) (ref : nat) (t : Z) (c : option cut) (kill : json) : mgr * js_result kill_out :=
  if negb (truthy_value (field kill "msgId")) then (G, Ok KNoTarget)
  else
    let v := verifyKill ed_verify kill in
    let G := others k G in
    match v with
    | Throw x => (G, Throw x)
    | Ok (KBad reason) => (G, Ok (KBadKill reason))
    | Ok (KOk pk) =>
        let target := default "" (as_text (field kill "msgId")) in
        let G := if tombAuthority (mcf G) then emit G (ObserveKill t target pk) else G in
        kill_commit (clock k) G ref t c (proof_of kill) target
    end.

(** * The acknowledgement ([_sendIngestAck]) *)

(** The hop that handed the write over, and the return address it carries. *)
Record hints := mk_hints { hi_fromId : jsv; hi_ackTo : option string; hi_attemptId : json; hi_flightNonce : json }.

Definition sendUnsignedIngestAck (G : mgr) (from : jsv) (r : role) (msgId op : string) : mgr :=
  match from with
  | JUndef | JNull => G
  | _ =>
      match idOf from with
      | Some b => if b =? nodeId (mcf G) then G else emit G (AckUnsigned b (topicId r) msgId (epoch r) op)
      | None => G
      end
  end.

Definition ack_fields (r : role) (msgId op ackTo : string) (h : hints) (pub : bytes) : fields :=
  mk_fields (JNumber 1) (Op (if bool_decide (op = "kill") then 2 else 1)) (Val (JText (idHex (topicId r)))) (Val (JText msgId))
    (JNumber (epoch r)) (Val (hi_attemptId h)) (Val (JText ackTo)) (Val (hi_flightNonce h)) (Raw pub).

(** The frame a signed acknowledgement is sent as; [None] where the fields are malformed. *)
Definition signedIngestAck (sign : bytes → bytes) (pub : bytes) (r : role) (msgId op : string) (h : hints) : option (Z * json) :=
  ackTo ← hi_ackTo h; b ← idBigS ackTo;
  frame ← catch (signAckProof sign (ack_fields r msgId op ackTo h pub)); Some (b, frame).

Definition sendIngestAck (identity_ : option ((bytes → bytes) * bytes)) (G : mgr) (h : hints) (r : role) (msgId op : string) : mgr :=
  match hi_ackTo h, identity_ with
  | Some ackTo, Some (sign, pub) =>
      match signedIngestAck sign pub r msgId op h with
      | Some _ => emit G (AckSigned (topicId r) msgId (epoch r) op ackTo)
      | None => G
      end
  | _, _ => sendUnsignedIngestAck G (hi_fromId h) r msgId op
  end.
End publish.

(** * Properties *)

(** ** Frames of the small steps *)

Lemma tombstoned_spec sig r id json : store_ok r →
  let '(r', dead) := tombstoned sig r id json in
  store_ok r' ∧ cache r' = cache r ∧ cacheIds r' = cacheIds r ∧ lastTs r' = lastTs r ∧ seq r' = seq r ∧ merge r' = merge r ∧
  gen r' = gen r ∧ dismantling r' = dismantling r ∧ retired r' = retired r ∧ topicId r' = topicId r ∧ isRoot r' = isRoot r ∧
  latestOnly r' = latestOnly r ∧
  match dead with
  | Ok true => r' = r ∧ jhas (tombstones r) id = true
  | Ok false => jhas (tombstones r') id = false
  | Throw x => r' = r ∧ jhas (tombstones r) id = true ∧ sig json = Throw x
  end.
Proof.
  intros Hok. unfold tombstoned.
  assert (store_ok (with_tombstones (jdel (tombstones r) id) r)) as Hd.
  { destruct Hok as [H1 H2 H3 H4 H5 H6]. split; simpl; try done.
    - intros i Hi. apply H5. revert Hi. unfold jhas. destruct (decide (i = id)) as [->|Hne].
      + by rewrite jget_jdel_eq.
      + by rewrite jget_jdel_ne.
    - by apply jwf_jdel. }
  unfold jhas. destruct (jget (tombstones r) id) as [t|] eqn:Et; [|by rewrite Et].
  pose proof (jget_jdel_eq (tombstones r) id) as Hg.
  destruct (t_signer t) as [sg|]; [destruct (decide (sg = "")); [|destruct (sig json) as [[a|]|]; [destruct (decide _)| |]]|];
    simpl; rewrite ?Et, ?Hg; done.
Qed.

Lemma observe_frame G t ev : axonRoles (observe G t ev) = axonRoles G ∧ mcf (observe G t ev) = mcf G.
Proof.
  unfold observe. destruct (tombAuthority _); [|done].
  revert G. induction ev as [|i ev IH]; intros G; [done|]. exact (IH (emit G (ObserveEvict t i))).
Qed.

(** A committed cache write, on the role. *)
Lemma cachePush_spec G ref e c r : role_at G ref = Some r → cutHolds G ref c = true →
  let r' := if superseded e r then r else (push_role (mcf G) e r).1 in
  role_at (cachePush G ref e c).1 ref = Some r' ∧ axonRoles (cachePush G ref e c).1 = axonRoles G ∧
  mcf (cachePush G ref e c).1 = mcf G.
Proof.
  intros Hr Hc. unfold cachePush. rewrite Hc, Hr. cbn [negb]. cbv zeta. destruct (superseded e r); [done|].
  destruct (push_role (mcf G) e r) as [r' ev]. cbn [fst]. destruct (observe_frame (upd G ref (λ _, r')) (topicId r) ev) as [-> ->].
  split_and!; [|done..]. unfold role_at. rewrite observe_heap. change (heap (upd G ref (λ _, r')) !! ref) with (role_at (upd G ref (λ _, r')) ref).
  by rewrite role_at_upd_eq, Hr.
Qed.

Lemma spend_frame json r : let r' := spend_reserve json r in
  cache r' = cache r ∧ cacheIds r' = cacheIds r ∧ lastTs r' = lastTs r ∧ seq r' = seq r ∧ tombstones r' = tombstones r ∧
  topicId r' = topicId r ∧ isRoot r' = isRoot r ∧ gen r' = gen r ∧ (store_ok r → store_ok r').
Proof. unfold spend_reserve, map_merge. destruct (merge r); (split_and!; [done..|]; intros [? ? ? ? ? ?]; by split). Qed.

(** The role a stamp leaves: its stamp, its number, and its cache as it was with the message behind it. *)
Record stamped_as (cf : mcfg) (now : Z) (id json : string) (r r' : role) : Prop := {
  sa_ts : lastTs r' = stamp_ts now r; sa_seq : seq r' = seq r + 1; sa_ok : store_ok r';
  sa_cache : cache r' `sublist_of` cache r ++ [sized (mk_entry id (stamp_ts now r) json (Some (seq r + 1)) 0)];
  sa_pinned : ∀ e, e ∈ cache r → e_msgId e ∈ pins_of r → e ∈ cache r';
  sa_kept : pins_of r = ∅ → latestOnly r ≠ Some true → ∃ n,
    cache r' = drop n (cache r ++ [sized (mk_entry id (stamp_ts now r) json (Some (seq r + 1)) 0)]) ∧
    ∀ j, (j < n)%nat → over_list cf (drop j (cache r ++ [sized (mk_entry id (stamp_ts now r) json (Some (seq r + 1)) 0)])) = true
}.

Section stamp.
Context (JSON_parse : string → option json).

(** What the synchronous run from the duplicate check to the stamp does. *)
Definition admit_post (now : Z) (G : mgr) (ref : nat) (c : option cut) (id json : string) (r : role) (o : mgr * js_result (ingest + Z * Z)) : Prop :=
  match o with
  | (G', Throw x) => G' = G ∧ jhas (tombstones r) id = true ∧ Stamped.signerOf JSON_parse json = Throw x
  | (G', Ok (inl (IOk i Duplicate))) => i = id ∧ G' = G ∧ id ∈ cacheIds r
  | (G', Ok (inl (IOk i Suppressed))) => i = id ∧ role_at G' ref = Some r ∧ jhas (tombstones r) id = true ∧ id ∉ cacheIds r
  | (_, Ok (inl (IOk _ _))) => False
  | (G', Ok (inl (IBad why i))) => i = Some id ∧ (why = "merge-reserve" ∧ reserve_ok json r = false ∨ why = "cut" ∧ cutHolds G ref c = false) ∧
      ∃ r', role_at G' ref = Some r' ∧ cache r' = cache r ∧ lastTs r' = lastTs r ∧ seq r' = seq r ∧ store_ok r'
  | (G', Ok (inr (ts, sq))) => ts = stamp_ts now r ∧ sq = seq r + 1 ∧ id ∉ cacheIds r ∧ reserve_ok json r = true ∧
      cutHolds G ref c = true ∧ ∃ r', role_at G' ref = Some r' ∧ stamped_as (mcf G) now id json r r'
  end.

Lemma stamp_role_ok now r : store_ok r → store_ok (stamp_role now r).
Proof. intros [? ? ? ? ? ?]. by split. Qed.

Lemma push_role_stamps cf e r : lastTs (push_role cf e r).1 = lastTs r ∧ seq (push_role cf e r).1 = seq r ∧
  pins_of (push_role cf e r).1 = pins_of r.
Proof.
  pose proof (sh_same _ _ (proj1 (push_role_shrinks cf e r))) as Hs. unfold same_but_cache in Hs.
  set (r' := (push_role cf e r).1) in *. clearbody r'. rewrite Hs. done.
Qed.

Lemma admit_spec now G ref c id json r : role_at G ref = Some r → store_ok r →
  admit_post now G ref c id json r (admitWrite JSON_parse now G ref c id json).
Proof.
  intros Hr Hok. unfold admitWrite. rewrite Hr. case_bool_decide as Hid; [done|].
  pose proof (tombstoned_spec (signerOf JSON_parse) r id json Hok) as Ht.
  destruct (tombstoned _ r id json) as [r1 [dead|x]]; [|by destruct Ht as (_&_&_&_&_&_&_&_&_&_&_&_&_&?&?)].
  destruct Ht as (Hok1 & Ec & Ei & El & Es & Em & Eg & Ed & Ere & Eto & Ero & Ela & Hd).
  set (G1 := upd G ref (λ _, r1)). assert (role_at G1 ref = Some r1) as Hr1 by (unfold G1; by rewrite role_at_upd_eq, Hr).
  destruct dead; [destruct Hd as [-> Hd]; by split_and!|].
  assert (∀ r2 G2, role_at G2 ref = Some r2 → axonRoles G2 = axonRoles G → merge r2 = merge r → gen r2 = gen r →
    dismantling r2 = dismantling r → retired r2 = retired r → topicId r2 = topicId r → cutHolds G2 ref c = cutHolds G ref c) as Hcut.
  { intros r2 G2 H2. intros. by eapply cutHolds_ext. }
  assert (reserve_ok json r1 = reserve_ok json r) as -> by (unfold reserve_ok; by rewrite Em).
  destruct (reserve_ok json r) eqn:Eres; cbn [negb]; [|split; [done|]; split; [by left|]; exists r1; done].
  rewrite (Hcut r1 G1 Hr1 eq_refl Em Eg Ed Ere Eto).
  destruct (cutHolds G ref c) eqn:Ecut; cbn [negb]; [|split; [done|]; split; [by right|]; exists r1; done].
  assert (stamp_ts now r1 = stamp_ts now r) as Ets by (unfold stamp_ts; by rewrite El). rewrite Ets, Es.
  set (G2 := upd G1 ref (stamp_role now)). set (e := mk_entry id (stamp_ts now r) json (Some (seq r + 1)) 0).
  assert (role_at G2 ref = Some (stamp_role now r1)) as Hr2 by (unfold G2; by rewrite role_at_upd_eq, Hr1).
  destruct (cachePush_spec G2 ref e c (stamp_role now r1) Hr2) as (Hr3 & Ha3 & _).
  { rewrite (Hcut _ G2 Hr2); done. }
  set (G3 := (cachePush G2 ref e c).1) in *. clearbody G3. cbn [admit_post]. split_and!; [done|done|done|done|done|].
  eexists. split; [rewrite role_at_upd_eq, Hr3; reflexivity|].
  destruct (spend_frame json (if superseded e (stamp_role now r1) then stamp_role now r1 else (push_role (mcf G2) e (stamp_role now r1)).1))
    as (F1 & _ & F3 & F4 & _ & _ & _ & _ & F9). cbv zeta in *.
  change (mcf G2) with (mcf G) in *. assert (pins_of (stamp_role now r1) = pins_of r) as Epin by (unfold pins_of; simpl; by rewrite Em).
  destruct (superseded e (stamp_role now r1)) eqn:Esup.
  - split.
    + rewrite F3. exact Ets.
    + rewrite F4. simpl. by rewrite Es.
    + by apply F9, stamp_role_ok.
    + rewrite F1. change (cache (stamp_role now r1)) with (cache r1). rewrite Ec. apply sublist_inserts_r. done.
    + intros x Hx _. rewrite F1. change (cache (stamp_role now r1)) with (cache r1). by rewrite Ec.
    + intros _ Hlo. exfalso. unfold superseded, is_latestOnly in Esup. change (latestOnly (stamp_role now r1)) with (latestOnly r1) in Esup.
      rewrite Ela in Esup. by rewrite (bool_decide_eq_false_2 _ Hlo) in Esup.
  - pose proof (push_role_stamps (mcf G) e (stamp_role now r1)) as (P1 & P2 & P3).
    assert (e_msgId e ∉ cacheIds (stamp_role now r1)) as Hni by (change (id ∉ cacheIds r1); by rewrite Ei).
    destruct (push_bounded (mcf G) e (stamp_role now r1) (stamp_role_ok now r1 Hok1) Hni Hd) as (B1 & _ & B3 & B4 & B5 & _).
    cbv zeta in *. change (cache (stamp_role now r1)) with (cache r1) in B3, B4, B5. rewrite Ec in B3, B4, B5. rewrite Epin in B3, B5.
    split.
    + rewrite F3, P1. exact Ets.
    + rewrite F4, P2. simpl. by rewrite Es.
    + by apply F9.
    + by rewrite F1.
    + intros x Hx Hp. rewrite F1. apply B3; [apply elem_of_app; by left|done].
    + intros Hp Hl. rewrite F1. apply B5; [done|]. change (latestOnly (stamp_role now r1)) with (latestOnly r1). by rewrite Ela.
Qed.
End stamp.

(** ** The stamp *)

(** C13. A publish is stamped once and in order.  In one synchronous run the root either finds the
    message held (and changes nothing), deleted, over the write reserve of a round, or the cut it
    was admitted under gone - and then gives no stamp and loses nothing of its cache - or it stamps
    it: strictly above the last stamp the role has on record ([lastTs], to which a body received as a
    relay does not count) and not before now, with the next number of
    the topic's dense count, under an id it did not hold; the store stays consistent, no pinned and
    (without pins) no entry but the oldest over the caps leaves the cache, and the order is kept. *)
Theorem stamp_exact JSON_parse now G ref c id json r : role_at G ref = Some r → store_ok r →
  admit_post JSON_parse now G ref c id json r (admitWrite JSON_parse now G ref c id json).
Proof. apply admit_spec. Qed.

(** ** Deletions *)

Section kill.
Context (JSON_parse : string → option json).

Lemma raise_seq_stamp now r : raise_seq (Some (seq r + 1)) (stamp_role now r) = stamp_role now r.
Proof. unfold raise_seq. simpl. destruct (_ <? _) eqn:E; [zb; lia|done]. Qed.

(** Every held body of that id is [signer]'s, whatever the spelling of the key. *)
Definition authored (r : role) (target signer : string) : Prop :=
  ∀ e, e ∈ cache r → e_msgId e = target → ∃ a, Stamped.signerOf JSON_parse (e_json e) = Ok (Some a) ∧ lc a = lc signer.
(** A held body of that id whose signer has no text. *)
Definition unreadable (r : role) (target : string) (x : js_error) : Prop :=
  ∃ e, e ∈ cache r ∧ e_msgId e = target ∧ Stamped.signerOf JSON_parse (e_json e) = Throw x.

Lemma author_ok_spec r target signer : NoDup (e_msgId <$> cache r) →
  match author_ok JSON_parse r target signer with
  | Ok b => b = true ↔ authored r target signer
  | Throw x => unreadable r target x
  end.
Proof.
  intros Hn. unfold author_ok, authored. destruct (list_find _ _) as [[i e]|] eqn:E.
  - apply list_find_Some in E as (Hi & He & _).
    destruct (Stamped.signerOf JSON_parse (e_json e)) as [o|x] eqn:Es; [cbn; split|exists e; split_and!; [by eapply list_elem_of_lookup_2|done..]].
    + intros H e' He' Ht. assert (e' = e) as ->.
      { apply list_elem_of_lookup in He' as [j Hj]. assert (i = j) as <-; [|congruence].
        eapply (NoDup_lookup _ i j target Hn); rewrite list_lookup_fmap; [by rewrite Hi, <-He|by rewrite Hj, <-Ht]. }
      rewrite Es. destruct o as [a|]; [|done]. exists a. split; [done|]. by apply bool_decide_eq_true in H.
    + intros H. destruct (H e) as (a & Ha1 & Ha); [by eapply list_elem_of_lookup_2|done|]. rewrite Es in Ha1. injection Ha1 as ->. by apply bool_decide_eq_true.
  - split; [|done]. intros _ e He Ht. apply list_find_None in E. rewrite Forall_forall in E. by destruct (E e He).
Qed.

(** What [kill_commit] answers, and what it leaves. *)
Definition kill_post (now : Z) (G : mgr) (ref : nat) (c : option cut) (p : killproof) (target : string) (r : role) (o : mgr * js_result kill_out) : Prop :=
  match o with
  | (G', Throw x) => G' = G ∧ unreadable r target x
  | (G', Ok KUnauthorized) => G' = G ∧ ¬ authored r target (kp_signer p)
  | (G', Ok (KCut i)) => i = target ∧ role_at G' ref = Some r ∧ cutHolds G ref c = false
  | (G', Ok (KAcked i)) => i = target ∧ authored r target (kp_signer p) ∧ cutHolds G ref c = true ∧
      ∃ r' tb, role_at G' ref = Some r' ∧ store_ok r' ∧ jget (tombstones r') target = Some tb ∧
        (∀ e, e ∈ cache r' ↔ e ∈ cache r ∧ e_msgId e ≠ target) ∧
        match jget (tombstones r) target with
        | Some tb0 => lastTs r' = lastTs r ∧ seq r ≤ seq r' ∧ (∀ n, t_seq tb0 = Some n → n ≤ seq r → seq r' = seq r) ∧
            t_killTs tb = t_killTs tb0 ∧ t_exp tb = t_exp tb0
        | None => lastTs r' = stamp_ts now r ∧ seq r' = seq r + 1 ∧ t_killTs tb = stamp_ts now r ∧ t_seq tb = Some (seq r + 1) ∧
            t_exp tb = now + TTL_MS ∧ t_signer tb = Some (lc (kp_signer p))
        end
  | (_, _) => False
  end.

Lemma bound_proof_self cf t m p : bound_proof cf t m = Some p → km_kill m = Some p.
Proof.
  unfold bound_proof. destruct (tombAuthority cf); [|done]. destruct (km_kill m) as [q|]; [|done]. cbn [mbind option_bind].
  destruct (decide _); [|done]. destruct (kp_topicId q); [|done]. case_bool_decide; congruence.
Qed.

(** A committed deletion moves the counters by its own number only. *)
Lemma applyKill_stamps G now ref r t m c : role_at G ref = Some r → store_ok r → cutHolds G ref c = true →
  ∃ G1 r' tb, applyKill G now (Some ref) t m c None = (G1, Applied) ∧ role_at G1 ref = Some r' ∧ store_ok r' ∧
    lastTs r' = lastTs r ∧ seq r' = seq (raise_seq (km_seq m) r) ∧ jget (tombstones r') (km_target m) = Some tb ∧
    (∀ e, e ∈ cache r' ↔ e ∈ cache r ∧ e_msgId e ≠ km_target m) ∧
    match jget (tombstones r) (km_target m) with
    | Some tb0 => t_killTs tb = t_killTs tb0 ∧ t_exp tb = t_exp tb0
    | None => t_killTs tb = default now (km_killTs m) ∧ t_exp tb = now + TTL_MS ∧ t_seq tb = km_seq m ∧
        t_signer tb = match bound_proof (mcf G) t m with Some p => Some (lc (kp_signer p)) | None => km_signer m end
    end.
Proof.
  intros Hr Hok Hc. destruct (applyKill_killed G now ref r t m c None Hr Hok Hc) as (G1 & r' & E & Hr' & [_ Hok' Htb _ Hca] & _).
  destruct (applyKill_cases G now ref r t m c None Hr Hc) as (G1' & f & E' & Eh & _ & _ & Ef). rewrite E in E'. injection E' as <-.
  assert (r' = f r) as -> by (unfold role_at in *; rewrite Eh, list_lookup_alter_eq, Hr in Hr'; by injection Hr' as <-).
  destruct Htb as (tb & Htb & Hold). exists G1, (f r), tb. split_and!; try done.
  - rewrite Ef. cbv zeta. assert (lastTs (raise_seq (km_seq m) r) = lastTs r) as <- by (unfold raise_seq; by repeat case_match).
    set (r1 := raise_seq _ r). destruct (jget (tombstones r1) _); [done|]. unfold drop_target. by destruct (list_find _ _) as [[? ?]|].
  - rewrite Ef. cbv zeta. set (r1 := raise_seq _ r). destruct (jget (tombstones r1) _); [done|]. unfold drop_target.
    by destruct (list_find _ _) as [[? ?]|].
  - intros e. rewrite Hca. split; intros [H1 H2]; (split; [done|]); [|by intros ?].
    intros He. destruct (jget (tombstones r) (km_target m)) eqn:Et; [|by apply H2].
    apply (so_dead _ Hok (km_target m)); [unfold jhas; by rewrite Et|]. apply (so_ids _ Hok). rewrite <-He. by apply list_elem_of_fmap_2.
  - destruct (jget (tombstones r) (km_target m)) eqn:Et; [naive_solver|]. destruct Hold as (? & ? & ? & Hs). split_and!; try done.
    destruct (bound_proof (mcf G) t m) as [p|] eqn:Ep; [|by apply Hs]. revert Htb. rewrite Ef. cbv zeta.
    destruct (raise_seq_same (km_seq m) r) as (_ & _ & _ & _ & _ & _ & -> & _). rewrite Et.
    rewrite (proj2 (proj2 (proj2 (proj2 (proj2 (proj2 (drop_target_same _ _))))))). simpl. rewrite jget_jset_eq. by intros [= <-].
Qed.

Lemma kill_spec now G ref t c p target r : role_at G ref = Some r → store_ok r →
  kill_post now G ref c p target r (kill_commit JSON_parse now G ref t c p target).
Proof.
  intros Hr Hok. unfold kill_commit. rewrite Hr. pose proof (author_ok_spec r target (kp_signer p) (so_nodup _ Hok)) as Ha.
  destruct (author_ok JSON_parse r target (kp_signer p)) as [[]|x]; [|split; [done|by intros ?%Ha]|done].
  assert (authored r target (kp_signer p)) as Hau by by apply Ha. cbv zeta.
  assert (∀ m, (∃ q, bound_proof (mcf G) t m = Some q ∧ km_kill m = Some p) → match bound_proof (mcf G) t m with Some q => q = p | None => True end) as Hbp.
  { intros m (q & Hq & Hk). rewrite Hq. apply bound_proof_self in Hq. congruence. }
  destruct (cutHolds G ref c) eqn:Ec.
  - destruct (jget (tombstones r) target) as [tb0|] eqn:Et.
    + set (m := mk_killmsg _ _ _ _ _). destruct (applyKill_stamps G now ref r t m c Hr Hok Ec) as (G1 & r' & tb & -> & Hr' & Hok' & El & Es & Htb & Hca & Hold).
      change (km_target m) with target in *. rewrite Et in Hold. cbn [kill_post]. split_and!; [done|done|done|]. exists r', tb. rewrite Et.
      split_and!; try done; [|  |naive_solver..]; [rewrite Es; unfold raise_seq; repeat case_match; simpl; zb; lia|]. intros n Hn Hle. rewrite Es. unfold raise_seq. change (km_seq m) with (t_seq tb0). rewrite Hn.
      destruct (_ <? _) eqn:E; [zb; lia|done].
    + set (G1 := upd G ref (stamp_role now)). assert (role_at G1 ref = Some (stamp_role now r)) as Hr1 by (unfold G1; by rewrite role_at_upd_eq, Hr).
      assert (cutHolds G1 ref c = true) as Ec1 by (rewrite <-Ec; by eapply cutHolds_ext).
      set (m := mk_killmsg _ _ _ _ _).
      destruct (applyKill_stamps G1 now ref _ t m c Hr1 (stamp_role_ok now r Hok) Ec1) as (G2 & r' & tb & -> & Hr' & Hok' & El & Es & Htb & Hca & Hold).
      change (km_target m) with target in *. change (tombstones (stamp_role now r)) with (tombstones r) in Hold. rewrite Et in Hold.
      destruct Hold as (H1 & H2 & H3 & H4). cbn [kill_post]. split_and!; [done|done|done|]. exists r', tb. rewrite Et.
      change (km_seq m) with (Some (seq r + 1)) in *. rewrite raise_seq_stamp in Es.
      split_and!; try done. rewrite H4. pose proof (bound_proof_self (mcf G1) t m) as Hb.
      destruct (bound_proof (mcf G1) t m) as [q|]; [|done]. specialize (Hb q eq_refl). by injection Hb as <-.
  - assert (∀ G m, role_at G ref = Some r ∨ role_at G ref = Some (stamp_role now r) → cutHolds G ref c = false →
      applyKill G now (Some ref) t m c None = (G, Refused)) as Href.
    { intros G' m H' Hf. unfold applyKill. cbn [mbind option_bind]. by destruct H' as [->| ->]; cbn [fmap option_fmap option_map]; rewrite Hf. }
    destruct (jget (tombstones r) target) as [tb0|] eqn:Et.
    + rewrite Href; [|by left|done]. by split_and!.
    + set (G1 := upd G ref (stamp_role now)). assert (role_at G1 ref = Some (stamp_role now r)) as Hr1 by (unfold G1; by rewrite role_at_upd_eq, Hr).
      rewrite Href; [|by right|rewrite <-Ec; by eapply cutHolds_ext]. split_and!; [done| |done].
      rewrite role_at_upd_eq, Hr1. simpl. f_equal. by destruct r.
Qed.
End kill.

(** C14. A deletion is the author's, once, or it leaves no trace.  Where the body is held, a deletion
    not signed by its author changes nothing; one refused at the cut leaves the role as it was,
    counters included; a repeated one is acknowledged without a fresh stamp; and a new one takes the
    next stamp and number, removes exactly its target from the cache and leaves a tombstone with that
    stamp and the signer. *)
Theorem kill_exact JSON_parse now G ref t c p target r : role_at G ref = Some r → store_ok r →
  kill_post JSON_parse now G ref c p target r (kill_commit JSON_parse now G ref t c p target).
Proof. apply kill_spec. Qed.

(** ** The history of stamps *)

Section history.
Context (JSON_parse : string → option json).

(** The steps of a role between two awaits: a publish, a deletion, anything else. *)
Inductive sop :=
| SPub (now : Z) (c : option cut) (id json : string)
| SKill (now t : Z) (c : option cut) (p : killproof) (target : string)
| SOther (f : mgr → mgr).

(** The state, and the stamps given so far. *)
Definition sstep (ref : nat) (s : mgr * list (Z * Z)) (o : sop) : mgr * list (Z * Z) :=
  let (G, l) := s in
  match o with
  | SPub now c id json =>
      match admitWrite JSON_parse now G ref c id json with (G, Ok (inr st)) => (G, l ++ [st]) | (G, _) => (G, l) end
  | SKill now t c p target =>
      match kill_commit JSON_parse now G ref t c p target with
      | (G', Ok (KAcked _)) =>
          (G', match role_at G ref with
               | Some r => if jhas (tombstones r) target then l else l ++ [(stamp_ts now r, seq r + 1)]
               | None => l
               end)
      | (G', _) => (G', l)
      end
  | SOther f => (f G, l)
  end.
Definition srun (ref : nat) (G : mgr) (ops : list sop) : mgr * list (Z * Z) := foldl (sstep ref) (G, []) ops.

(** A step keeps the role's store and never takes a counter back. *)
Definition advances (ref : nat) (G G' : mgr) : Prop := ∀ r, role_at G ref = Some r → store_ok r →
  ∃ r', role_at G' ref = Some r' ∧ store_ok r' ∧ lastTs r ≤ lastTs r' ∧ seq r ≤ seq r'.
Definition later (a b : Z * Z) : Prop := a.1 < b.1 ∧ a.2 < b.2.

Record history (r0 r : role) (l : list (Z * Z)) : Prop := {
  hi_sorted : StronglySorted later l;
  hi_from : Forall (λ s, lastTs r0 < s.1 ∧ seq r0 < s.2) l;
  hi_to : Forall (λ s, s.1 ≤ lastTs r ∧ s.2 ≤ seq r) l;
  hi_mono : lastTs r0 ≤ lastTs r ∧ seq r0 ≤ seq r
}.

Lemma history_advance r0 r r' l : history r0 r l → lastTs r ≤ lastTs r' → seq r ≤ seq r' → history r0 r' l.
Proof.
  intros [H1 H2 H3 H4] Ht Hs. split; [done|done| |lia]. eapply Forall_impl; [exact H3|]. simpl. lia.
Qed.
Lemma history_stamp r0 r r' l ts sq : history r0 r l → lastTs r < ts → sq = seq r + 1 → lastTs r' = ts → seq r' = sq →
  history r0 r' (l ++ [(ts, sq)]).
Proof.
  intros [H1 H2 H3 [H4 H5]] Ht -> El Es. split.
  - apply StronglySorted_app; split_and!; [|done|repeat constructor].
    intros a b Ha Hb%list_elem_of_singleton. subst b. rewrite Forall_forall in H3. specialize (H3 a Ha). split; simpl; lia.
  - apply Forall_app. split; [done|]. repeat constructor; simpl; lia.
  - apply Forall_app. split; [eapply Forall_impl; [exact H3|]; simpl; lia|]. repeat constructor; simpl; lia.
  - lia.
Qed.

Lemma sstep_history ref r0 G l o r : (∀ f, o = SOther f → ∀ G, advances ref G (f G)) →
  role_at G ref = Some r → store_ok r → history r0 r l →
  ∃ r', role_at (sstep ref (G, l) o).1 ref = Some r' ∧ store_ok r' ∧ history r0 r' (sstep ref (G, l) o).2.
Proof.
  intros Ho Hr Hok Hh. destruct o as [now c id json|now t c p target|f]; cbn [sstep].
  - pose proof (admit_spec JSON_parse now G ref c id json r Hr Hok) as Ha.
    destruct (admitWrite _ _ _ _ _ _ _) as [G' [[[i []|why i]|[ts sq]]|x]]; cbn [admit_post fst snd] in *; try done.
    + destruct Ha as (_ & -> & _). eauto.
    + destruct Ha as (_ & Ha & _). eauto.
    + destruct Ha as (_ & _ & r' & Hr' & _ & El & Es & Hok'). exists r'. split_and!; [done..|]. eapply history_advance; [done|lia..].
    + destruct Ha as (-> & -> & _ & _ & _ & r' & Hr' & [El Es Hok' _ _ _]). exists r'. split_and!; [done..|].
      eapply history_stamp; [done| |done|by rewrite El|done]. unfold stamp_ts. lia.
    + destruct Ha as (-> & _). eauto.
  - pose proof (kill_spec JSON_parse now G ref t c p target r Hr Hok) as Hk.
    destruct (kill_commit _ _ _ _ _ _ _ _) as [G' [[]|x]]; cbn [kill_post fst snd] in *; try done.
    + destruct Hk as (_ & _ & _ & r' & tb & Hr' & Hok' & _ & _ & Hold). rewrite Hr. exists r'. split_and!; [done..|].
      unfold jhas. destruct (jget (tombstones r) target) as [tb0|] eqn:Et.
      * destruct Hold as (El & Es & _). eapply history_advance; [done|lia|done].
      * destruct Hold as (El & Es & _). eapply history_stamp; [done| |done|by rewrite El|done]. unfold stamp_ts. lia.
    + destruct Hk as (_ & Hr' & _). eauto.
    + destruct Hk as [-> _]. eauto.
    + destruct Hk as [-> _]. eauto.
  - destruct (Ho f eq_refl G r Hr Hok) as (r' & Hr' & Hok' & El & Es). exists r'. split_and!; [done..|]. by eapply history_advance.
Qed.

Lemma srun_history ref r0 ops : (∀ f, SOther f ∈ ops → ∀ G, advances ref G (f G)) →
  ∀ G l r, role_at G ref = Some r → store_ok r → history r0 r l →
  ∃ r', role_at (foldl (sstep ref) (G, l) ops).1 ref = Some r' ∧ store_ok r' ∧ history r0 r' (foldl (sstep ref) (G, l) ops).2.
Proof.
  intros Ho. induction ops as [|o ops IH]; intros G l r Hr Hok Hh; [by exists r|]. cbn [foldl].
  destruct (sstep_history ref r0 G l o r) as (r2 & Hr2 & Hok2 & Hh2); [intros f ->; apply Ho; left|done..|].
  destruct (sstep ref (G, l) o) as [G2 l2]. by apply (IH ltac:(intros f Hf; apply Ho; by right) G2 l2 r2).
Qed.
End history.

(** C5. The stamps of a topic at its root are a strictly increasing history: over any sequence of
    publishes, deletions and other steps, however they interleave at the awaits and whatever the
    clock reads, each stamp is above every earlier one and above the last stamp on record at the
    beginning, each number above every earlier number and above the number on record - provided only
    that the other steps take neither record back.  (A body a relay is sent raises the number and not
    the stamp on record.) *)
Theorem stamps_strictly_increase JSON_parse ref G ops r : (∀ f, SOther f ∈ ops → ∀ G, advances ref G (f G)) →
  role_at G ref = Some r → store_ok r →
  ∃ r', role_at (srun JSON_parse ref G ops).1 ref = Some r' ∧ store_ok r' ∧ history r r' (srun JSON_parse ref G ops).2.
Proof. intros Ho Hr Hok. apply (srun_history JSON_parse ref r ops Ho G [] r Hr Hok). split; repeat constructor; lia. Qed.

(** ** What a publish may carry *)

Section genuine.
Context (JSON_parse : string → option json) (sha256 : bytes → bytes)
  (ed_verify : bytes → bytes → bytes → js_result bool) (resolveRegion : json → option Z) (ks : keyspace).
Context (others : nat → mgr → mgr) (clock : nat → Z) (replicate : nat → rep) (ref : nat) (t : Z).

Notation good := (genuine JSON_parse sha256 ed_verify resolveRegion ks ref t).
Notation authentic := (authentic JSON_parse sha256 ed_verify resolveRegion ks t).

Lemma good_emit G x : (∀ id, x ≠ FanoutBody ref id) → (∀ id ts sq, x ≠ AppDeliver t id ts sq) → good G → good (emit G x).
Proof. intros H1 H2. apply genuine_emit. intros id [->|(ts & sq & ->)]; [by destruct (H1 id)|by destruct (H2 id ts sq)]. Qed.

Lemma good_admit now G c id json : authentic (mk_entry id 0 json None 0) → good G → good (admitWrite JSON_parse now G ref c id json).1.
Proof.
  intros (env & s & A1 & A2 & A3 & A4) HG. unfold admitWrite. pose proof (ge_role _ _ _ _ _ _ _ _ HG) as (r & Hr & Ht & Hc). rewrite Hr.
  destruct (bool_decide _); [done|].
  pose proof (tombstoned_cache (signerOf JSON_parse) r id json) as [E1 E2].
  destruct (tombstoned _ r id json) as [r1 [dead|x]]; [|done]. cbn [fst] in *.
  assert (good (upd G ref (λ _, r1))) as H1.
  { split; [|apply HG]. exists r1. rewrite role_at_upd_eq, Hr. split_and!; [done|congruence|]. intros e He. apply Hc. by rewrite <-E2. }
  destruct dead; [done|]. destruct (reserve_ok json r1); [|done]. cbn [negb]. destruct (cutHolds _ _ _); [|done]. cbn [negb fst].
  apply genuine_upd; [intros r0; destruct (spend_frame json r0) as (-> & _ & _ & _ & _ & -> & _); done|].
  destruct (cachePush _ _ _ _) as [G3 b] eqn:Ep. cbn [fst]. eapply genuine_push; [exact Ep| |].
  - exists env, s. done.
  - apply genuine_upd; [|done]. intros r0. done.
Qed.

Context (Hothers : ∀ k G, good G → good (others k G)).

Lemma good_settle k G id ts sq : (∃ e, authentic e ∧ e_msgId e = id) → good G →
  good (settle others replicate k G ref t id ts sq).1 ∧ ∃ h, (settle others replicate k G ref t id ts sq).2 = IOk id h.
Proof using Hothers.
  intros Ha HG. unfold settle.
  set (G1 := if tombAuthority _ && _ then _ else G). assert (good G1) as H1.
  { unfold G1. destruct (_ && _); [|done]. apply Hothers, good_emit; done. }
  set (G2 := emit G1 _). assert (good G2) as H2 by (apply good_emit; done).
  set (G3 := if rootReplicas _ then G2 else _). assert (good G3) as H3 by (unfold G3; destruct (rootReplicas _); [done|by apply good_emit]).
  assert (good (deliverToApp (emit G3 (FanoutBody ref id)) t id ts (Some sq))) as H4.
  { apply genuine_deliver; [done|]. apply genuine_emit; [|done]. intros i [[= <-]|(? & ? & ?)]; [done|done]. }
  set (G4 := deliverToApp _ _ _ _ _) in *. destruct (_ && rootReplicas _).
  - set (G5 := others (S k) _). assert (good G5) as H5 by (apply Hothers; by apply good_emit).
    assert (good (emit G5 (RecordDurability ref id))) as H6 by (by apply good_emit).
    destruct ((0 <? _) && _); cbn [fst snd]; (split; [|eexists; reflexivity]); [done|by apply good_emit].
  - cbn [fst snd]. split; [by apply good_emit|eexists; reflexivity].
Qed.

(** What a publish has passed when the root answers for it. *)
Definition passed (k : nat) (json id : string) : Prop := ∃ env s, JSON_parse json = Some env ∧
  verifyEnvelope sha256 ed_verify ks env = Ok (EOk s) ∧ field env "msgId" = JText id ∧
  checkFreshness env (clock k) SignedRecords.MAX_PUBLISH_SKEW_MS = Fresh ∧
  bound_topic sha256 resolveRegion ks env = Ok t ∧ owner_ok env = Ok true.
(** Where the handler throws: in the verifier, or on a verified envelope whose signer or owner has no
    text, in the write policy or under a tombstone. *)
Definition write_throws (env : json) (x : js_error) : Prop :=
  verifyEnvelope sha256 ed_verify ks env = Throw x ∨
  (∃ s, verifyEnvelope sha256 ed_verify ks env = Ok (EOk s)) ∧
    (owner_ok env = Throw x ∨ truthy_text (field env "signerPubkey") = Throw x).
Definition BAD_WRITE : list string :=
  ["unparseable"; "bad-envelope"; "stale"; "bad-descriptor"; "topic-mismatch"; "write-policy"].

Lemma verified_msgId env s : verifyEnvelope sha256 ed_verify ks env = Ok (EOk s) → ∃ id, field env "msgId" = JText id.
Proof.
  unfold verifyEnvelope. destruct (negb (is_object env)); [done|]. destruct (is_text (field env "msgId")) eqn:E; [|done].
  intros _. destruct (field env "msgId"); try done. by eexists.
Qed.

Lemma ingest_spec k G c json : good G →
  good (ingestPublish JSON_parse sha256 ed_verify resolveRegion ks others clock replicate k G ref c json).1 ∧
  match (ingestPublish JSON_parse sha256 ed_verify resolveRegion ks others clock replicate k G ref c json).2 with
  | Ok (IOk id _) => passed k json id
  | Ok (IBad why (Some id)) => passed k json id ∧ (why = "merge-reserve" ∨ why = "cut")
  | Ok (IBad why None) => why ∈ BAD_WRITE ∧ ∀ id, ¬ passed k json id
  | Throw x => ∃ env, JSON_parse json = Some env ∧ write_throws env x
  end.
Proof using Hothers.
  intros HG. unfold ingestPublish. destruct (JSON_parse json) as [env|] eqn:Ej; [|split; [done|split; [by repeat constructor|]]].
  2: { intros id (env & s & E & _). congruence. }
  cbv zeta. pose proof (Hothers k G HG) as H1. pose proof (Hothers (S k) _ H1) as H2.
  destruct (verifyEnvelope _ _ _ env) as [[s|why s]|x] eqn:Ev.
  2: { split; [done|]. split; [by repeat constructor|]. intros id (env' & s' & E & E' & _). congruence. }
  2: { split; [done|]. exists env. split; [done|by left]. }
  destruct (checkFreshness env (clock k) _) eqn:Ef.
  2,3: split; [done|]; (split; [by repeat constructor|]); intros id (env' & s' & E & E' & _ & E2 & _); congruence.
  pose proof (ge_role _ _ _ _ _ _ _ _ H2) as (r & Hr & Ht & _). rewrite Hr.
  destruct (bound_topic sha256 resolveRegion ks env) as [tid|x] eqn:Eb.
  2: { split; [done|]. split; [by repeat constructor|]. intros id (env' & s' & E & E' & _ & _ & E2 & _). congruence. }
  rewrite Ht. destruct (tid =? t) eqn:Et; cbn [negb]; zb.
  2: { split; [done|]. split; [by repeat constructor|]. intros id (env' & s' & E & E' & _ & _ & E2 & _). congruence. }
  subst tid. destruct (owner_ok env) as [[]|x] eqn:Eo.
  3: { split; [done|]. exists env. split; [done|]. right. split; [by eexists|by left]. }
  2: { split; [done|]. split; [by repeat constructor|]. intros id (env' & s' & E & E' & _ & _ & _ & E2). congruence. }
  pose proof (verified_msgId env s Ev) as [id Eid]. rewrite Eid. change (default "" (as_text (JText id))) with id.
  assert (passed k json id) as Hp by (by exists env, s).
  assert (∀ ts sq, authentic (mk_entry id ts json sq 0)) as Ha by (intros; by exists env, s).
  set (G2 := upd _ ref (noteMetricRole _)). assert (good G2) as H3.
  { apply genuine_upd; [|done]. intros r0. by destruct (noteMetric_cache (as_text (field (field env "topic") "name")) r0) as [-> ->]. }
  pose proof (good_admit (clock (S k)) G2 c id json (Ha 0 None) H3) as H4.
  pose proof (ge_role _ _ _ _ _ _ _ _ H3) as (r2 & Hr2 & _).
  destruct (admitWrite _ _ G2 ref c id json) as [G3 [[o|[ts sq]]|x]] eqn:Ead; cbn [fst snd] in *.
  - split; [done|]. unfold admitWrite in Ead. rewrite Hr2 in Ead. revert Ead.
    destruct (bool_decide _); [by intros [= _ <-]|]. destruct (tombstoned _ _ _ _) as [r3 [[]|]]; [by intros [= _ <-]| |done].
    destruct (negb _); [intros [= _ <-]; split; [done|by left]|]. destruct (negb _); [intros [= _ <-]; split; [done|by right]|done].
  - destruct (good_settle (S (S k)) G3 id ts sq) as [H5 [h Eh]]; [by exists (mk_entry id 0 json None 0)|done|].
    destruct (settle _ _ _ G3 ref t id ts sq) as [G4 o]. cbn [fst snd] in *. by subst o.
  - split; [done|]. exists env. split; [done|]. right. split; [by eexists|right]. unfold admitWrite in Ead. rewrite Hr2 in Ead. revert Ead.
    destruct (bool_decide _); [done|]. pose proof (tombstoned_throws JSON_parse r2 id json x) as Ht2.
    destruct (tombstoned _ r2 id json) as [r3 [dead|y]].
    + destruct dead; [done|]. destruct (negb _); [done|]. by destruct (negb _).
    + intros [= _ ->]. specialize (Ht2 eq_refl). unfold Stamped.signerOf in Ht2. by rewrite Ej in Ht2.
Qed.
End genuine.

(** C4. What a publish must pass, and what each answer means.  Whatever runs at the awaits, if it
    keeps the topic's bodies genuine the publish does too.  An answer that names the message (held,
    suppressed, stamped, over the reserve, or cut) is given only for an envelope that verified, is
    fresh by this node's clock, derives to this very topic and passed the write policy; a refusal
    without a name only for one that did not.  The handler fails only where the verifier throws, or
    where the write verified and its signer (or, in the write policy, its owner) is a value that has
    no text, an object with a member [toString].  (The numbers of an envelope are integers, as in
    every [json] here.) *)
Theorem publish_admits_exactly JSON_parse sha256 ed_verify resolveRegion ks others clock replicate ref t k G c json :
  (∀ k G, genuine JSON_parse sha256 ed_verify resolveRegion ks ref t G → genuine JSON_parse sha256 ed_verify resolveRegion ks ref t (others k G)) →
  genuine JSON_parse sha256 ed_verify resolveRegion ks ref t G →
  genuine JSON_parse sha256 ed_verify resolveRegion ks ref t
    (ingestPublish JSON_parse sha256 ed_verify resolveRegion ks others clock replicate k G ref c json).1 ∧
  match (ingestPublish JSON_parse sha256 ed_verify resolveRegion ks others clock replicate k G ref c json).2 with
  | Ok (IOk id _) => passed JSON_parse sha256 ed_verify resolveRegion ks clock t k json id
  | Ok (IBad why (Some id)) =>
      passed JSON_parse sha256 ed_verify resolveRegion ks clock t k json id ∧ (why = "merge-reserve" ∨ why = "cut")
  | Ok (IBad why None) => why ∈ BAD_WRITE ∧ ∀ id, ¬ passed JSON_parse sha256 ed_verify resolveRegion ks clock t k json id
  | Throw x => ∃ env, JSON_parse json = Some env ∧ write_throws sha256 ed_verify ks env x
  end.
Proof. intros Ho HG. by apply ingest_spec. Qed.

(** * Witnesses and observed behaviour *)

Definition demo_pub (G : mgr) (l : list (string * Z)) : mgr * list ingest :=
  foldl (λ s x, match ingestPublish demo_parse toy_sha demo_verify toy_region production (λ _ G, G) (λ _, x.2) (λ _, mk_rep None None None None None)
                        0 s.1 0 (cutCapture s.1 0) x.1 with
                | (G, Ok o) => (G, s.2 ++ [o]) | (G, Throw _) => (G, s.2)
                end) (G, []) l.

Example publish_twice : (demo_pub demo_seat [("good", 600); ("good", 700); ("junk", 800)]).2 =
  [IOk demo_id Confirmed; IOk demo_id Duplicate; IBad "unparseable" None].
Proof. vm_compute. reflexivity. Qed.

Lemma demo_seat_genuine : genuine demo_parse toy_sha demo_verify toy_region production 0 demo_t demo_seat.
Proof.
  split; [exists (makeRole demo_t true 0); split_and!; [done|done|intros e He; by apply not_elem_of_nil in He]|].
  intros id [H|(? & ? & H)]; by apply not_elem_of_nil in H.
Qed.

Definition demo_ingest : mgr * js_result ingest :=
  ingestPublish demo_parse toy_sha demo_verify toy_region production (λ _ G, G) (λ _, 600)
    (λ _, mk_rep None None None None None) 0 demo_seat 0 (cutCapture demo_seat 0) "good".

Lemma publish_admits_exactly_witness :
  demo_ingest.2 = Ok (IOk demo_id Confirmed) ∧ genuine demo_parse toy_sha demo_verify toy_region production 0 demo_t demo_ingest.1.
Proof.
  split; [vm_compute; reflexivity|]. unfold demo_ingest.
  apply (publish_admits_exactly demo_parse toy_sha demo_verify toy_region production (λ _ G, G) (λ _, 600)
    (λ _, mk_rep None None None None None) 0 demo_t); [by intros|exact demo_seat_genuine].
Defined.

Lemma stamp_exact_witness :
  admit_post demo_parse 600 demo_seat 0 (cutCapture demo_seat 0) "m" "{}" (makeRole demo_t true 0)
    (admitWrite demo_parse 600 demo_seat 0 (cutCapture demo_seat 0) "m" "{}") ∧
  (admitWrite demo_parse 600 demo_seat 0 (cutCapture demo_seat 0) "m" "{}").2 = Ok (inr (600, 1)).
Proof.
  split; [|vm_compute; reflexivity].
  apply (stamp_exact demo_parse 600 demo_seat 0 _ "m" "{}"); [reflexivity|apply makeRole_ok].
Defined.

Definition demo_killer : killproof := mk_kill "m" None "AB".
Lemma kill_exact_witness :
  kill_post demo_parse 700 demo_seat 0 (cutCapture demo_seat 0) demo_killer "m" (makeRole demo_t true 0)
    (kill_commit demo_parse 700 demo_seat 0 demo_t (cutCapture demo_seat 0) demo_killer "m") ∧
  (kill_commit demo_parse 700 demo_seat 0 demo_t (cutCapture demo_seat 0) demo_killer "m").2 = Ok (KAcked "m").
Proof.
  split; [|vm_compute; reflexivity].
  apply (kill_exact demo_parse 700 demo_seat 0 demo_t _ demo_killer "m"); [reflexivity|apply makeRole_ok].
Defined.

(** The reaper of the cache is a step that takes no counter back. *)
Lemma expire_advances ref now G : advances ref G (expireCache G ref now).
Proof.
  intros r Hr Hok. unfold expireCache. rewrite Hr.
  pose proof (expire_loop_spec now (length (cache r)) 0 r) as Hs. destruct (expire_loop _ _ _ r) as [r' ev]. cbn [fst] in Hs.
  pose proof (sh_same _ _ Hs) as He. unfold same_but_cache in He. exists r'. split_and!.
  - assert (∀ G', role_at (observe G' (topicId r) ev) ref = role_at G' ref) as Ho by (intros; unfold role_at; by rewrite observe_heap).
    destruct (tombAuthority _); [change (role_at (emit ?g Reclaim) ref) with (role_at g ref)|]; rewrite Ho, role_at_upd_eq, Hr; done.
  - by apply Hs.
  - rewrite He. simpl. lia.
  - rewrite He. simpl. lia.
Qed.

Definition demo_steps : list sop :=
  [SPub 600 (cutCapture demo_seat 0) "a" "x"; SPub 500 (cutCapture demo_seat 0) "b" "y"; SOther (λ G, expireCache G 0 650);
   SKill 640 demo_t (cutCapture demo_seat 0) demo_killer "a"; SPub 900 (cutCapture demo_seat 0) "a" "x"].
Lemma stamps_strictly_increase_witness :
  (srun demo_parse 0 demo_seat demo_steps).2 = [(600, 1); (601, 2)] ∧
  ∃ r', role_at (srun demo_parse 0 demo_seat demo_steps).1 0 = Some r' ∧ store_ok r' ∧
    history (makeRole demo_t true 0) r' (srun demo_parse 0 demo_seat demo_steps).2.
Proof.
  split; [vm_compute; reflexivity|].
  apply (stamps_strictly_increase demo_parse 0 demo_seat demo_steps); [|reflexivity|apply makeRole_ok].
  intros f Hf G. unfold demo_steps in Hf. rewrite !elem_of_cons in Hf.
  assert (f = λ G, expireCache G 0 650) as ->; [|apply expire_advances].
  destruct Hf as [Hf|[Hf|[Hf|[Hf|[Hf|Hf]]]]]; [discriminate Hf|discriminate Hf|by injection Hf|discriminate Hf|discriminate Hf|].
  by apply not_elem_of_nil in Hf.
Defined.

(** ** What the write policy lets through

    The policy reads the descriptor as it was signed: the signer it compares is a field, which an
    unsigned envelope carries unproved, and the word it looks for is one the topic id does not need. *)
Definition hex32 (c : string) : string := padStart0 c 1 +:+ foldr String.append "" (repeat c 63).
Definition demo_owner : string := hex32 "a".
Definition owned (write : list (string * json)) : json :=
  JObject ([("region", JNumber 9); ("owner", JText demo_owner); ("name", JText "cats")] ++ write).
Definition owned_id (who : json) : string := computeMsgId toy_sha who (JText "hi").
Definition owned_env (who : json) (topic : json) (tail : list (string * json)) : json :=
  JObject ([("msgId", JText (owned_id who)); ("seq", JNumber 1); ("ts", JNumber 500); ("topic", topic); ("message", JText "hi")] ++ tail).
Definition stranger : string := hex32 "b".
Definition forge_parse (s : string) : option json :=
  if decide (s = "unsigned") then Some (owned_env JNullV (owned [("write", JText "owner")]) [("signerPubkey", JText demo_owner)])
  else if decide (s = "omitted") then
    Some (owned_env (JText stranger) (owned []) [("signature", JText (ED25519 +:+ stranger +:+ stranger)); ("signerPubkey", JText stranger)])
  else if decide (s = "stated") then
    Some (owned_env (JText stranger) (owned [("write", JText "owner")])
      [("signature", JText (ED25519 +:+ stranger +:+ stranger)); ("signerPubkey", JText stranger)])
  else None.
Definition owned_t : Z := default 0 (catch (bound_topic toy_sha toy_region production (default JNullV (forge_parse "stated")))).
Definition owned_seat : mgr := alloc (new_mgr (default_cfg 5)) owned_t (makeRole owned_t true 0).
Definition forge (verify : bytes → bytes → bytes → js_result bool) (s : string) : js_result ingest * option (list string) :=
  let o := ingestPublish forge_parse toy_sha verify toy_region production (λ _ G, G) (λ _, 600) (λ _, mk_rep None None None None None)
             0 owned_seat 0 (cutCapture owned_seat 0) s in
  (o.2, (λ r, e_json <$> cache r) <$> role_at o.1 0).

(** No signature at all, and the owner's key in the field the policy reads: the write is stamped,
    under a verifier that accepts no signature whatever. *)
Example unsigned_owner_passes : forge (λ _ _ _, Ok false) "unsigned" = (Ok (IOk (owned_id JNullV) Confirmed), Some ["unsigned"]).
Proof. vm_compute. reflexivity. Qed.

(** A stranger's signed write is refused where the descriptor states the policy of the topic, and
    stamped at the same topic where it leaves the policy out. *)
Example omitted_write_passes :
  forge (λ _ _ _, Ok true) "stated" = (Ok (IBad "write-policy" None), Some []) ∧
  forge (λ _ _ _, Ok true) "omitted" = (Ok (IOk (owned_id (JText stranger)) Confirmed), Some ["omitted"]).
Proof. split; vm_compute; reflexivity. Qed.

(** ** What a demotion at the await does

    A root whose cache is empty steps down while the signature is verified: a demotion is no cut,
    and nothing after the await asks whether the role is still a root. *)
Definition demo_step_down (k : nat) (G : mgr) : mgr := match k with O => (demote (demo_env 600) G demo_t (idHex 9) "closer-root" None true).1 | _ => G end.
Example demoted_root_stamps :
  let o := ingestPublish demo_parse toy_sha demo_verify toy_region production demo_step_down (λ _, 600) (λ _, mk_rep None None None None None)
             0 demo_seat 0 (cutCapture demo_seat 0) "good" in
  o.2 = Ok (IOk demo_id Confirmed) ∧ (λ r, (isRoot r, lastTs r, cacheIds r)) <$> role_at o.1 0 = Some (false, 600, {[demo_id]}).
Proof. split; vm_compute; reflexivity. Qed.
