(* ===== verification/WriteFlight.v ===== *)
(** WriteFlight.v - the recovery flight of a forwarded write
    (src/src/pubsub/writeFlight.js): one flight per (topic, root, epoch), closed by a
    correlated ingest receipt, otherwise probed, evicted and promoted past the root
    that gave no receipt, within a bounded chain.

    JSON parsing is a parameter ([envMsgId], [envTs]); random nonces are arguments.
    [_flightCompleteSigned] is not modelled: it holds a flight object across an
    [await].  The calls into the merge machine and the local ingest are emissions. *)
From stdpp Require Import base gmap sets list strings pretty.
From Stdlib Require Import ZArith Lia.
From S2P Require Import Prelude HexId Role TopicStore RootClaim.
#[local] Open Scope Z_scope.
#[local] Open Scope js_scope.

Definition INGEST_ACK_MS : Z := 4000.
Definition FLIGHT_PROBE_MS : Z := 3000.
Definition FLIGHT_MAX_ROUNDS : Z := 2.
Definition ROOT_TOMBSTONE_TTL_MS : Z := Z.max 600000 (BEACON_TTL_MS * 12).
Definition FLIGHT_MAX_PROMOTIONS : Z := 4.
Definition FLIGHT_CHAIN_MAX : Z := 1024.
Definition FLIGHT_CHAIN_TTL_MS : Z := ROOT_TOMBSTONE_TTL_MS.
(** [envelope.js]: the publish skew of [checkFreshness]. *)
Definition MAX_PUBLISH_SKEW_MS : Z := 5 * 60 * 1000.

(** * Data *)

Inductive wtype := PUB | KILL.
#[export] Instance wtype_eq_dec : EqDecision wtype.
Proof. solve_decision. Defined.

(** What a write carries: the envelope's text, the deletion's target, and the
    hop-local nonce of a held node. *)
Record payload := mk_payload { pl_json : string; pl_killId : option string; pl_holdFwd : option string }.

Record fentry := mk_fentry {
  fe_type : wtype; fe_payload : payload; fe_msgId : string; fe_op : string;
  fe_attemptId : string; fe_promotions : Z; fe_tried : list string
}.

Inductive stage := AwaitAck | Probing | Retrying.
#[export] Instance stage_eq_dec : EqDecision stage.
Proof. solve_decision. Defined.

Record flight := mk_flight {
  f_topic : Z; f_root : string; f_epoch : Z; f_entries : jmap string fentry;
  f_stage : stage; f_rounds : Z; f_deadline : Z; f_ackTo : string; f_nonce : string; f_merge : option string
}.

(** The history a promoted write carries. *)
Record chain := mk_chain { ch_promotions : Z; ch_tried : list string; ch_exp : Z }.

Inductive wout :=
| Probe (t : Z) (root : string) (msgId op : string)
| Resend (e : fentry) (via ackTo nonce attempt : string)
| SelfIngest (e : fentry)
| Undeliverable (ty : wtype) (t : Z) (why : string)
| IngestAck (dst : Z) (topicId msgId : string) (epoch : Z) (op : string)
| ReceiptNack (dst : Z) (topicId msgId : string) (op : string)
| MergeReminted (corr : string) (ackEpoch : option Z)
| MergeSilent (corr : string).

Record wf := mk_wf { wm : mgr; flights : jmap string flight; chains : jmap string chain; sent : list wout }.
Definition with_wm (v : mgr) (W : wf) : wf := mk_wf v (flights W) (chains W) (sent W).
Definition with_flights (v : jmap string flight) (W : wf) : wf := mk_wf (wm W) v (chains W) (sent W).
Definition with_chains (v : jmap string chain) (W : wf) : wf := mk_wf (wm W) (flights W) v (sent W).
Definition send (o : wout) (W : wf) : wf := mk_wf (wm W) (flights W) (chains W) (sent W ++ [o]).

Definition with_entries (v : jmap string fentry) (f : flight) : flight :=
  mk_flight (f_topic f) (f_root f) (f_epoch f) v (f_stage f) (f_rounds f) (f_deadline f) (f_ackTo f) (f_nonce f) (f_merge f).
Definition with_stage (s : stage) (rounds deadline : Z) (f : flight) : flight :=
  mk_flight (f_topic f) (f_root f) (f_epoch f) (f_entries f) s rounds deadline (f_ackTo f) (f_nonce f) (f_merge f).

Definition corrKey (topicHex msgId op : string) : string := lc topicHex +:+ "|" +:+ msgId +:+ "|" +:+ op.
Definition flightKey (t : Z) (rootHex : string) (epoch : Z) : string :=
  toString16 t +:+ "|" +:+ lc rootHex +:+ "|" +:+ pretty epoch.
Definition op_of (ty : wtype) : string := match ty with KILL => "kill" | PUB => "pub" end.

(** * The chain ledger *)

(** [Map.delete] then [set]: newest last; the oldest go past [FLIGHT_CHAIN_MAX]. *)
Definition chainNote (now : Z) (ck : string) (promotions : Z) (tried : list string) (W : wf) : wf :=
  let m := jset (jdel (chains W) ck) ck (mk_chain promotions tried (now + FLIGHT_CHAIN_TTL_MS)) in
  with_chains (drop (length m - Z.to_nat FLIGHT_CHAIN_MAX) m) W.

Definition chainGet (now : Z) (ck : string) (W : wf) : wf * option chain :=
  match jget (chains W) ck with
  | None => (W, None)
  | Some c => if ch_exp c <=? now then (with_chains (jdel (chains W) ck) W, None) else (W, Some c)
  end.

(** The history of [c] merged into an entry. *)
Definition add_tried (l : list string) (r : string) : list string := if bool_decide (lc r ∈ l) then l else l ++ [lc r].
Definition absorb (e : fentry) (c : option (Z * list string)) : fentry :=
  match c with
  | None => e
  | Some (p, tr) =>
      mk_fentry (fe_type e) (fe_payload e) (fe_msgId e) (fe_op e) (fe_attemptId e)
        (Z.max (fe_promotions e) p) (foldl add_tried (fe_tried e) tr)
  end.

Section writeFlight.
(** [JSON.parse(json)?.msgId], and the [ts] of a parsed envelope where it is a number;
    [None] where the text is no JSON value or null. *)
Context (envMsgId : string → option string) (envTs : string → option (option Z)).

Definition writeMsgId (ty : wtype) (p : payload) : option string :=
  match ty with KILL => pl_killId p | PUB => envMsgId (pl_json p) end.

(** ** Open *)

Definition flight_epoch (G : mgr) (t : Z) (expected : option Z) : Z :=
  match expected with
  | Some e => if 1 <=? e then e else default 0 (jget (rootBeacons G) t ≫= b_epoch)
  | None => default 0 (jget (rootBeacons G) t ≫= b_epoch)
  end.

(** [nonce] and [attempt] are the random values minted where one is needed. *)
Definition flightOpen (now : Z) (nonce attempt : string) (W : wf) (t : Z) (rootHex : string) (ty : wtype)
    (p : payload) (attemptId : option string) (expected : option Z) (c : option (Z * list string))
    : wf * option (string * string * string) :=
  let p := mk_payload (pl_json p) (pl_killId p) None in
  match writeMsgId ty p with
  | None => (W, None)
  | Some msgId =>
      if decide (msgId = "") then (W, None)
      else
        let epoch := flight_epoch (wm W) t expected in
        let key := flightKey t rootHex epoch in
        let f := match jget (flights W) key with
                 | Some f => f
                 | None => mk_flight t (lc rootHex) epoch [] AwaitAck 0 (now + INGEST_ACK_MS)
                             (lc (selfHex (wm W))) nonce None
                 end in
        let op := op_of ty in
        let ck := corrKey (idHex t) msgId op in
        let e := match jget (f_entries f) ck with
                 | Some e => e
                 | None =>
                     let a := match attemptId with
                              | Some a => if decide (a = "") then attempt else lc a
                              | None => attempt
                              end in
                     mk_fentry ty p msgId op a 0 []
                 end in
        let '(W, c') := chainGet now ck W in
        let e := absorb (absorb e c) ((λ x, (ch_promotions x, ch_tried x)) <$> c') in
        (with_flights (jset (flights W) key (with_entries (jset (f_entries f) ck e) f)) W,
         Some (f_ackTo f, f_nonce f, fe_attemptId e))
  end.

(** ** Complete *)

Definition close_entry (key ck : string) (f : flight) (W : wf) : wf :=
  let es := jdel (f_entries f) ck in
  match es with
  | [] => with_flights (jdel (flights W) key) W
  | _ => with_flights (jset (flights W) key (with_entries es f)) W
  end.

(** Does the receipt bind to this flight? *)
Definition ack_binds (fromHex : option string) (ackEpoch : option Z) (f : flight) : bool :=
  bool_decide (fromHex = Some (f_root f)) && ((f_epoch f =? 0) || bool_decide (ackEpoch = Some (f_epoch f))).

Definition complete_one (ck : string) (fromHex : option string) (ackEpoch : option Z) (W : wf)
    (p : string * flight) : wf :=
  let '(key, f) := p in
  if negb (jhas (f_entries f) ck) then W
  else if negb (bool_decide (fromHex = Some (f_root f))) then W
  else if negb (f_epoch f =? 0) && negb (bool_decide (ackEpoch = Some (f_epoch f))) then
    match f_merge f with Some c => send (MergeReminted c ackEpoch) W | None => W end
  else close_entry key ck f W.

Definition flightComplete (W : wf) (topicHex msgId op : string) (fromId : jsv) (ackEpoch : option Z) : wf :=
  let ck := corrKey topicHex msgId op in
  let fromHex := lc ∘ idHex <$> idOf fromId in
  foldl (complete_one ck fromHex ackEpoch) W (flights W).

(** ** Receipt probes *)

Definition onReceiptProbe (W : wf) (topicId msgId : string) (isKill : bool) (fromId : jsv) : wf :=
  match idBigS topicId with
  | None => W
  | Some t =>
      let op := op_of (if isKill then KILL else PUB) in
      match idOf fromId with
      | None => W
      | Some dst =>
          match live (wm W) t with
          | Some (_, r) =>
              if bool_decide (msgId ∈ cacheIds r) || jhas (tombstones r) msgId
              then send (IngestAck dst topicId msgId (epoch r) op) W
              else send (ReceiptNack dst topicId msgId op) W
          | None => send (ReceiptNack dst topicId msgId op) W
          end
      end
  end.

Definition nack_one (now t : Z) (W : wf) (p : string * flight) : wf :=
  let '(key, f) := p in
  if bool_decide (f_topic f = t) && bool_decide (f_stage f = Probing) then
    let W := with_flights (jset (flights W) key (with_stage Retrying (f_rounds f) (now + INGEST_ACK_MS) f)) W in
    foldl (λ W x, send (Resend x.2 (f_root f) (f_ackTo f) (f_nonce f) (fe_attemptId x.2)) W) W (f_entries f)
  else W.

Definition onReceiptNack (now : Z) (W : wf) (topicId : string) : wf :=
  match idBigS topicId with
  | None => W
  | Some t => foldl (nack_one now t) W (flights W)
  end.

(** ** Eviction and promotion *)

(** Why an entry's chain ends at an eviction, if it does. *)
Definition end_why (now : Z) (e : fentry) : option string :=
  if FLIGHT_MAX_PROMOTIONS <=? fe_promotions e then Some "write-flight-promotion-cap"
  else match fe_type e with
  | PUB => match envTs (pl_json (fe_payload e)) with
           | Some (Some ts) => if MAX_PUBLISH_SKEW_MS <? Z.abs (ts - now) then Some "write-flight-stale" else None
           | _ => None
           end
  | KILL => None
  end.

Definition end_one (now : Z) (t : Z) (acc : wf * jmap string fentry) (p : string * fentry) : wf * jmap string fentry :=
  match end_why now p.2 with
  | None => acc
  | Some why => (send (Undeliverable (fe_type p.2) t why) acc.1, jdel acc.2 p.1)
  end.

(** The conviction, the corpse's beacon and the accepted-winner record. *)
Definition convict (now : Z) (f : flight) (G : mgr) : mgr :=
  let t := f_topic f in
  let G := if match jget (rootTombstones G) t with Some prev => rt_epoch prev <=? f_epoch f | None => true end
           then put_rootTombstones (jset (rootTombstones G) t
                  (mk_rtomb (f_root f) (f_epoch f) (now + ROOT_TOMBSTONE_TTL_MS))) G else G in
  let G := match jget (rootBeacons G) t with
           | Some b => if bool_decide (lc (b_root b) = f_root f) &&
                          match b_epoch b with Some e => e <=? f_epoch f | None => true end
                       then put_rootBeacons (jdel (rootBeacons G) t) G else G
           | None => G
           end in
  match live G t with
  | Some (ref, r) =>
      match accepted_of r with
      | Some a =>
          if bool_decide (aw_id a = f_root f) && (aw_epoch a <=? f_epoch f) then
            let G := upd G ref (map_merge (with_acceptedWinner None)) in
            match jget (stepDownHold G) t with
            | Some h => if decide (h_to h = f_root f) then put_stepDownHold (jdel (stepDownHold G) t) G else G
            | None => G
            end
          else G
      | None => G
      end
  | None => G
  end.

(** The closest live neighbour not excluded, or this node. *)
Definition pick_step (E : env) (self t : Z) (excluded : list string) (best : option Z) (n : jsv) : option Z :=
  match idOf n with
  | None => best
  | Some nb =>
      if (nb =? self) || is_bridge E nb || bool_decide (lc (idHex nb) ∈ excluded) then best
      else match best with
      | None => Some nb
      | Some b => if dist nb t <? dist b t then Some nb else best
      end
  end.
Definition pick (E : env) (self t : Z) (excluded : list string) : Z :=
  match foldl (pick_step E self t excluded) None (nbrs E) with
  | None => self
  | Some b => if dist self t <? dist b t then self else b
  end.

Definition promote_self (now : Z) (root : string) (W : wf) (p : string * fentry) : wf :=
  send (SelfIngest p.2) (chainNote now p.1 (fe_promotions p.2 + 1) (fe_tried p.2 ++ [root]) W).

Definition promote_to (now : Z) (nonce : string) (t : Z) (root bestHex : string) (W : wf) (p : string * fentry) : wf :=
  let e := p.2 in
  let c := (fe_promotions e + 1, fe_tried e ++ [root]) in
  let W := chainNote now p.1 c.1 c.2 W in
  match flightOpen now nonce nonce W t bestHex (fe_type e) (fe_payload e) (Some (fe_attemptId e)) None (Some c) with
  | (W, None) => send (Resend e bestHex "" "" "") W
  | (W, Some (ackTo, fnonce, att)) => send (Resend e bestHex ackTo fnonce att) W
  end.

Definition flightEvict (E : env) (nonce : string) (W : wf) (key : string) (f : flight) : wf :=
  let now := now E in
  let t := f_topic f in
  let W := with_flights (jdel (flights W) key) W in
  let W := with_wm (convict now f (wm W)) W in
  let '(W, es) := foldl (end_one now t) (W, f_entries f) (f_entries f) in
  match es with
  | [] => W
  | _ =>
      let excluded := f_root f :: concat (fe_tried ∘ snd <$> es) in
      let self := nodeId (mcf (wm W)) in
      let best := pick E self t excluded in
      if best =? self then foldl (promote_self now (f_root f)) W es
      else foldl (promote_to now nonce t (f_root f) (lc (idHex best))) W es
  end.

(** ** The sweep *)

Definition sweep_one (E : env) (nonce : string → string) (W : wf) (key : string) : wf :=
  match jget (flights W) key with
  | None => W
  | Some f =>
      if now E <? f_deadline f then W
      else match f_stage f with
      | Probing => flightEvict E (nonce key) W key f
      | s =>
          let W := match f_merge f with
                   | Some c => if bool_decide (s = AwaitAck) && (f_rounds f =? 0) then send (MergeSilent c) W else W
                   | None => W
                   end in
          if FLIGHT_MAX_ROUNDS <=? f_rounds f then flightEvict E (nonce key) W key f
          else
            let f' := with_stage Probing (f_rounds f + 1) (now E + FLIGHT_PROBE_MS) f in
            let W := with_flights (jset (flights W) key f') W in
            match f_entries f with
            | [] => with_flights (jdel (flights W) key) W
            | (_, first) :: _ =>
                match idBigS (f_root f) with
                | None => with_flights (jdel (flights W) key) W
                | Some _ => send (Probe (f_topic f) (f_root f) (fe_msgId first) (fe_op first)) W
                end
            end
      end
  end.

Definition flightSweep (E : env) (nonce : string → string) (W : wf) : wf :=
  foldl (sweep_one E nonce) W (flights W).*1.

End writeFlight.

(** * Receipts *)

Definition after_ack (ck : string) (fromHex : option string) (ackEpoch : option Z) (f : flight) : option flight :=
  if jhas (f_entries f) ck && ack_binds fromHex ackEpoch f then
    match jdel (f_entries f) ck with [] => None | es => Some (with_entries es f) end
  else Some f.

Lemma complete_one_get ck fh ae W key f key' :
  jget (flights W) key = Some f →
  jget (flights (complete_one ck fh ae W (key, f))) key' =
    if decide (key = key') then after_ack ck fh ae f else jget (flights W) key'.
Proof.
  intros Hf. unfold complete_one, after_ack, ack_binds.
  assert (∀ W', flights W' = flights W → jget (flights W') key' =
    if decide (key = key') then Some f else jget (flights W) key') as Hsame.
  { intros W' E. rewrite E. case_decide; [by subst|done]. }
  destruct (jhas (f_entries f) ck); cbn [negb andb]; [|by apply Hsame].
  destruct (bool_decide (fh = _)); cbn [negb andb]; [|by apply Hsame].
  destruct (f_epoch f =? 0); cbn [negb andb orb].
  2: destruct (bool_decide (ae = _)); cbn [negb andb orb]; [|destruct (f_merge f); by apply Hsame].
  all: unfold close_entry; destruct (jdel (f_entries f) ck) as [|x es]; simpl; rewrite ?jget_jdel, ?jget_jset; done.
Qed.

(** A loop over the table that treats each flight on its own. *)
Lemma table_fold (F : wf → string * flight → wf) (g : flight → option flight) W key :
  (∀ W key f key', jget (flights W) key = Some f →
     jget (flights (F W (key, f))) key' = if decide (key = key') then g f else jget (flights W) key') →
  jwf (flights W) → jget (flights (foldl F W (flights W))) key = jget (flights W) key ≫= g.
Proof.
  intros HF Hw.
  assert (∀ l W0, NoDup l.*1 → (∀ k f, (k, f) ∈ l → jget (flights W0) k = Some f) →
    jget (flights (foldl F W0 l)) key =
      if decide (key ∈ l.*1) then jget (flights W0) key ≫= g else jget (flights W0) key) as Hl.
  { intros l. induction l as [|[k f] l IH]; intros W0 Hnd Hin; [done|].
    rewrite fmap_cons in Hnd. apply NoDup_cons in Hnd as [Hni Hnd]. cbn [foldl].
    assert (jget (flights W0) k = Some f) as Hk by (apply Hin; left).
    rewrite IH; [|done|].
    - rewrite (HF _ _ _ _ Hk). destruct (decide (k = key)) as [->|Hne].
      + rewrite decide_False by done. rewrite decide_True by (left). by rewrite Hk.
      + destruct (decide (key ∈ l.*1)); [rewrite decide_True by (by right)|rewrite decide_False]; try done.
        rewrite fmap_cons, elem_of_cons. naive_solver.
    - intros k' f' Hk'. rewrite (HF _ _ _ _ Hk). rewrite decide_False; [apply Hin; by right|].
      intros ->. apply Hni. apply list_elem_of_fmap. by exists (k', f'). }
  rewrite (Hl (flights W) W Hw); [|intros k f; by apply elem_jget].
  case_decide as Hd; [done|]. apply jget_None in Hd. by rewrite Hd.
Qed.

(** A receipt closes exactly what it proves: an entry leaves a flight only on a
    receipt for that write and operation, from the flight's own root, at the flight's
    epoch unless the flight is unversioned; an emptied flight closes; every other
    entry and flight is untouched. *)
Theorem receipt_binds W topicHex msgId op fromId ackEpoch key :
  jwf (flights W) →
  jget (flights (flightComplete W topicHex msgId op fromId ackEpoch)) key =
    jget (flights W) key ≫= after_ack (corrKey topicHex msgId op) (lc ∘ idHex <$> idOf fromId) ackEpoch.
Proof. intros Hw. apply table_fold; [|done]. intros. by apply complete_one_get. Qed.

(** * Where a promoted write goes *)

(** A neighbour a write may be promoted to. *)
Definition candidate (E : env) (self : Z) (excluded : list string) (n : jsv) (nb : Z) : Prop :=
  idOf n = Some nb ∧ nb ≠ self ∧ is_bridge E nb = false ∧ lc (idHex nb) ∉ excluded.

Lemma pick_step_fold E self t ex : ∀ ns best,
  (∀ b, best = Some b → ∃ n, candidate E self ex n b) →
  match foldl (pick_step E self t ex) best ns with
  | None => best = None ∧ ∀ n nb, n ∈ ns → ¬ candidate E self ex n nb
  | Some b => (best = Some b ∨ ∃ n, n ∈ ns ∧ candidate E self ex n b) ∧
      (∀ b0, best = Some b0 → dist b t ≤ dist b0 t) ∧
      ∀ n nb, n ∈ ns → candidate E self ex n nb → dist b t ≤ dist nb t
  end.
Proof.
  induction ns as [|n ns IH]; intros best Hb; cbn [foldl].
  { destruct best as [b|]; [|split; [done|intros n nb Hn; by apply elem_of_nil in Hn]].
    split; [by left|]. split; [intros ? [= ->]; lia|]. intros n nb Hn. by apply elem_of_nil in Hn. }
  assert (∃ best', pick_step E self t ex best n = best' ∧
    (best' = best ∧ (∀ nb, candidate E self ex n nb → ∃ b, best = Some b ∧ dist b t ≤ dist nb t) ∨
     ∃ nb, best' = Some nb ∧ candidate E self ex n nb ∧ ∀ b, best = Some b → dist nb t < dist b t)) as (best' & -> & Hs).
  { eexists; split; [done|]. unfold pick_step. destruct (idOf n) as [nb|] eqn:En.
    2: { left. split; [done|]. intros nb (? & _). congruence. }
    destruct ((nb =? self) || is_bridge E nb || bool_decide (lc (idHex nb) ∈ ex)) eqn:Eb.
    - left. split; [done|]. intros nb' (E' & H1 & H2 & H3). assert (nb' = nb) as -> by congruence.
      apply orb_true_iff in Eb as [Eb|Eb]; [apply orb_true_iff in Eb as [Eb|Eb]|]; [lia|congruence|].
      by apply bool_decide_eq_true in Eb.
    - apply orb_false_iff in Eb as [Eb E3]. apply orb_false_iff in Eb as [E1 E2].
      assert (candidate E self ex n nb) as Hc.
      { split_and!; [done|lia|done|]. by apply bool_decide_eq_false in E3. }
      destruct best as [b|]; [destruct (dist nb t <? dist b t) eqn:El|].
      + right. exists nb. split_and!; [done..|]. intros ? [= ->]. lia.
      + left. split; [done|]. intros nb' (E' & _). exists b. split; [done|]. assert (nb' = nb) as -> by congruence. lia.
      + right. exists nb. by split_and!. }
  destruct Hs as [(-> & Hs)|(nb & -> & Hc & Hs)].
  - specialize (IH best Hb). destruct (foldl _ best ns) as [b|].
    + destruct IH as (H1 & H2 & H3). split_and!; [destruct H1 as [|(n' & ? & ?)]; [by left|right; exists n'; split; [by right|done]]|done|].
      intros n' nb' [->|Hn]%elem_of_cons Hc; [|by eauto]. destruct (Hs _ Hc) as (b0 & -> & ?). specialize (H2 b0 eq_refl). lia.
    + destruct IH as [-> IH]. split; [done|]. intros n' nb' [->|Hn]%elem_of_cons Hc; [|by eapply IH].
      by destruct (Hs _ Hc) as (? & ? & _).
  - specialize (IH (Some nb)). destruct (foldl _ (Some nb) ns) as [b|].
    + destruct IH as (H1 & H2 & H3); [intros ? [= ->]; by exists n|]. specialize (H2 nb eq_refl). split_and!.
      * right. destruct H1 as [[= ->]|(n' & ? & ?)]; [exists n; split; [by left|done]|exists n'; split; [by right|done]].
      * intros b0 E0. specialize (Hs b0 E0). lia.
      * intros n' nb' [->|Hn]%elem_of_cons Hc'; [|by eauto]. destruct Hc as (E1 & _), Hc' as (E2 & _). assert (nb' = nb) as -> by congruence. done.
    + destruct IH as [? _]; [intros ? [= ->]; by exists n|done].
Qed.

Lemma pick_spec E self t ex :
  let b := pick E self t ex in
  (b = self ∨ ∃ n, n ∈ nbrs E ∧ candidate E self ex n b) ∧
  dist b t ≤ dist self t ∧
  ∀ n nb, n ∈ nbrs E → candidate E self ex n nb → dist b t ≤ dist nb t.
Proof.
  cbv zeta. unfold pick. pose proof (pick_step_fold E self t ex (nbrs E) None) as H.
  destruct (foldl _ None (nbrs E)) as [b|].
  - destruct H as ([|Hc] & _ & Hmin); [done..|]. destruct (dist self t <? dist b t) eqn:El.
    + split_and!; [by left|lia|]. intros n nb Hn Hnc. specialize (Hmin n nb Hn Hnc). lia.
    + split_and!; [by right|lia|done].
  - destruct H as [_ H]; [done|]. split_and!; [by left|lia|]. intros n nb Hn Hc. exfalso. by eapply H.
Qed.

(** * The chain ledger keeps what was just noted *)

Lemma chainNote_frame now ck n tr W :
  wm (chainNote now ck n tr W) = wm W ∧ flights (chainNote now ck n tr W) = flights W ∧
  sent (chainNote now ck n tr W) = sent W.
Proof. done. Qed.

Lemma chainGet_frame now ck W :
  wm (chainGet now ck W).1 = wm W ∧ flights (chainGet now ck W).1 = flights W ∧ sent (chainGet now ck W).1 = sent W.
Proof. unfold chainGet. destruct (jget _ ck) as [c|]; [|done]. by destruct (ch_exp c <=? now). Qed.

Lemma chainGet_chains now ck W :
  chains (chainGet now ck W).1 = chains W ∨
  (chains (chainGet now ck W).1 = jdel (chains W) ck ∧ ∃ c, jget (chains W) ck = Some c ∧ ch_exp c ≤ now).
Proof.
  unfold chainGet. destruct (jget _ ck) as [c|] eqn:E; [|by left].
  destruct (ch_exp c <=? now) eqn:El; [right|by left]. split; [done|]. exists c. split; [done|lia].
Qed.

Lemma chainGet_Some now ck W c : (chainGet now ck W).2 = Some c → jget (chains W) ck = Some c.
Proof. unfold chainGet. destruct (jget _ ck) as [c'|]; [|done]. by destruct (ch_exp c' <=? now). Qed.

Lemma chainNote_get now ck n tr W ck' c :
  jwf (chains W) → jget (chains (chainNote now ck n tr W)) ck' = Some c →
  (ck' = ck ∧ c = mk_chain n tr (now + FLIGHT_CHAIN_TTL_MS)) ∨ jget (chains W) ck' = Some c.
Proof.
  intros Hw Hg. unfold chainNote in Hg. cbn [chains with_chains] in Hg.
  set (m := jset _ _ _) in Hg. assert (jwf m) as Hm by (apply jwf_jset; by apply jwf_jdel).
  apply jget_Some_elem in Hg. apply (elem_of_sublist _ m) in Hg; [|apply sublist_drop].
  apply elem_jget in Hg; [|done]. unfold m in Hg. rewrite jget_jset in Hg. case_decide as Hd; [left; split; congruence|].
  rewrite jget_jdel_ne in Hg by done. by right.
Qed.

Lemma chainNote_jwf now ck n tr W : jwf (chains W) → jwf (chains (chainNote now ck n tr W)).
Proof.
  intros Hw. unfold chainNote. cbn [chains with_chains]. set (m := jset _ _ _).
  assert (jwf m) as Hm by (apply jwf_jset; by apply jwf_jdel).
  unfold jwf in *. eapply sublist_NoDup; [exact Hm|]. apply fmap_sublist, sublist_drop.
Qed.

Lemma chainGet_jwf now ck W : jwf (chains W) → jwf (chains (chainGet now ck W).1).
Proof. intros Hw. destruct (chainGet_chains now ck W) as [->|[-> _]]; [done|by apply jwf_jdel]. Qed.

(** The ledger ends with what the eviction noted, as long as that fits. *)
Record noted (now : Z) (l : list (string * fentry)) (root : string) (W : wf) : Prop := {
  nt_wf : jwf (chains W);
  nt_end : ∃ pre, chains W = pre ++ ((λ p, (p.1, mk_chain (fe_promotions p.2 + 1) (fe_tried p.2 ++ [root])
                                         (now + FLIGHT_CHAIN_TTL_MS))) <$> l)
}.

Lemma jdel_app {V} (m1 m2 : jmap string V) k : jdel (m1 ++ m2) k = jdel m1 k ++ jdel m2 k.
Proof. unfold jdel. by rewrite filter_app. Qed.

Lemma noted_note now l root W ck e :
  noted now l root W → NoDup (l.*1 ++ [ck]) → Z.of_nat (length l) < FLIGHT_CHAIN_MAX →
  noted now (l ++ [(ck, e)]) root (chainNote now ck (fe_promotions e + 1) (fe_tried e ++ [root]) W).
Proof.
  intros [Hw [pre Hp]] Hnd Hlen. split; [by apply chainNote_jwf|].
  apply NoDup_app in Hnd as (_ & Hni & _). specialize (λ x Hx, Hni x Hx).
  set (post := (λ p : string * fentry, _) <$> l) in Hp.
  assert (jdel (chains W) ck = jdel pre ck ++ post) as E1.
  { rewrite Hp, jdel_app. f_equal. apply jdel_notin. unfold post. rewrite <- list_fmap_compose. intros Hin.
    apply list_elem_of_fmap in Hin as (x & -> & Hx). apply (Hni x.1); [by apply list_elem_of_fmap_2|by left]. }
  assert (∀ v, jset (jdel (chains W) ck) ck v = (jdel pre ck ++ post) ++ [(ck, v)]) as E2.
  { intros v. assert (ck ∉ (jdel (chains W) ck).*1) as Hd by (apply jget_None; by rewrite jget_jdel_eq).
    rewrite <- E1. generalize dependent (jdel (chains W) ck). intros m _ Hd. clear -Hd. induction m as [|[k x] m IH]; [done|].
    cbn. rewrite decide_False; [by rewrite IH by (intros ?; apply Hd; by right)|].
    intros ->. apply Hd. by left. }
  unfold chainNote. cbn [chains with_chains]. rewrite E2, <- app_assoc.
  exists (drop (length ((jdel pre ck) ++ post ++ [(ck, mk_chain (fe_promotions e + 1) (fe_tried e ++ [root])
            (now + FLIGHT_CHAIN_TTL_MS))]) - Z.to_nat FLIGHT_CHAIN_MAX) (jdel pre ck)).
  rewrite fmap_app. cbn [fmap list_fmap fst snd]. fold post.
  rewrite drop_app_le; [done|]. rewrite !length_app. cbn [length]. unfold post. rewrite length_fmap.
  unfold FLIGHT_CHAIN_MAX in *. lia.
Qed.

Lemma noted_ck now l root W p :
  noted now l root W → p ∈ l →
  jget (chains W) p.1 = Some (mk_chain (fe_promotions p.2 + 1) (fe_tried p.2 ++ [root]) (now + FLIGHT_CHAIN_TTL_MS)).
Proof.
  intros [Hw [pre Hp]] Hin. apply elem_jget; [done|]. rewrite Hp. apply elem_of_app; right.
  by apply (list_elem_of_fmap_2 (λ p, (p.1, mk_chain (fe_promotions p.2 + 1) (fe_tried p.2 ++ [root])
                                         (now + FLIGHT_CHAIN_TTL_MS)))).
Qed.

Lemma noted_ext now l root W W' : chains W' = chains W → noted now l root W → noted now l root W'.
Proof. intros E [H1 H2]. split; by rewrite E. Qed.

Lemma noted_get now l root W ck : noted now l root W → noted now l root (chainGet now ck W).1.
Proof.
  intros H. pose proof H as [Hw [pre Hp]].
  destruct (chainGet_chains now ck W) as [E|[E (c & Hc & Hexp)]]; [split; [by rewrite E|rewrite E; by exists pre]|].
  split; [rewrite E; by apply jwf_jdel|]. exists (jdel pre ck). rewrite E, Hp, jdel_app. f_equal.
  apply jdel_notin. rewrite <- list_fmap_compose. intros Hin.
  apply list_elem_of_fmap in Hin as (x & -> & Hx). pose proof (noted_ck _ _ _ _ _ H Hx) as Hg. cbn [compose fst] in *.
  rewrite Hg in Hc. injection Hc as <-. cbn [ch_exp] in Hexp.
  assert (0 < FLIGHT_CHAIN_TTL_MS) by (vm_compute; reflexivity). lia.
Qed.

(** * An eviction reports or promotes every write *)

Section ending.
Context (envTs : string → option (option Z)).

Definition ends (now : Z) (p : string * fentry) : bool :=
  match end_why envTs now p.2 with Some _ => true | None => false end.
Definition survivors (now : Z) (l : list (string * fentry)) : list (string * fentry) := filter (λ p, ends now p = false) l.
Definition reported (now t : Z) (l : list (string * fentry)) : list wout :=
  omap (λ p, Undeliverable (fe_type p.2) t <$> end_why envTs now p.2) l.

Lemma end_fold now t l : ∀ W m,
  let r := foldl (end_one envTs now t) (W, m) l in
  wm r.1 = wm W ∧ flights r.1 = flights W ∧ chains r.1 = chains W ∧ sent r.1 = sent W ++ reported now t l ∧
  r.2 = filter (λ q, Forall (λ p, ends now p = true → q.1 ≠ p.1) l) m.
Proof.
  induction l as [|p l IH]; intros W m; cbv zeta; cbn [foldl].
  { cbn. rewrite app_nil_r. split_and!; [done..|]. symmetry. apply filter_all. intros q _. constructor. }
  unfold end_one at 2 4 6 8 10. unfold reported. cbn [omap list_omap]. fold (reported now t l). unfold ends.
  destruct (end_why envTs now p.2) as [why|] eqn:E; cbn [fst snd fmap option_fmap option_map].
  - destruct (IH (send (Undeliverable (fe_type p.2) t why) W) (jdel m p.1)) as (H1 & H2 & H3 & H4 & H5).
    rewrite H1, H2, H3, H4, H5. split_and!; [done..| |].
    + cbn [sent send]. rewrite <- app_assoc. done.
    + unfold jdel. rewrite list_filter_filter. apply list_filter_iff. intros q. rewrite Forall_cons, E. unfold ends. naive_solver.
  - destruct (IH W m) as (H1 & H2 & H3 & H4 & H5). rewrite H1, H2, H3, H4, H5. split_and!; [done..|].
    apply list_filter_iff. intros q. rewrite Forall_cons, E. unfold ends. naive_solver.
Qed.

Lemma survivors_eq now l :
  jwf l → filter (λ q, Forall (λ p, ends now p = true → q.1 ≠ p.1) l) l = survivors now l.
Proof.
  intros Hw. unfold survivors. apply filter_ext_in. intros q Hq. rewrite Forall_forall. split.
  - intros H. destruct (ends now q) eqn:E; [|done]. exfalso. by apply (H q Hq E).
  - intros Hq' p Hp Hep Heq. destruct q as [k e], p as [k' e']. cbn in Heq. subst k'.
    apply elem_jget in Hq, Hp; [|done..]. congruence.
Qed.

Lemma end_why_capped now e : end_why envTs now e = None → fe_promotions e < FLIGHT_MAX_PROMOTIONS.
Proof. unfold end_why. destruct (_ <=? _) eqn:E; [done|]. lia. Qed.
End ending.

(** What promotes one entry to [best]. *)
Definition promotes (self best : Z) (p : string * fentry) (o : wout) : Prop :=
  if best =? self then o = SelfIngest p.2
  else ∃ ackTo fnonce attempt, o = Resend p.2 (lc (idHex best)) ackTo fnonce attempt.

(** What a conviction of [f]'s root, an incarnation of epoch [f_epoch f] or older, leaves of it. *)
Record convicted (now : Z) (f : flight) (G G' : mgr) : Prop := {
  (** the topic's tombstone is the incarnation's, unless one of a later epoch is there *)
  cv_tomb : ∃ rt, jget (rootTombstones G') (f_topic f) = Some rt ∧
    (rt = mk_rtomb (f_root f) (f_epoch f) (now + ROOT_TOMBSTONE_TTL_MS) ∨
     jget (rootTombstones G) (f_topic f) = Some rt ∧ f_epoch f < rt_epoch rt);
  (** a beacon is kept exactly where it is another root's, or of a later epoch *)
  cv_beacon : jget (rootBeacons G') (f_topic f) =
    (b ← jget (rootBeacons G) (f_topic f);
     if bool_decide (lc (b_root b) = f_root f) && match b_epoch b with Some e => e <=? f_epoch f | None => true end
     then None else Some b);
  (** so is the accepted winner of the topic's role, and with the winner goes its hold *)
  cv_winner : ∀ ref r, live G (f_topic f) = Some (ref, r) → ∃ r', live G' (f_topic f) = Some (ref, r') ∧
    match accepted_of r with
    | Some a =>
        if bool_decide (aw_id a = f_root f) && (aw_epoch a <=? f_epoch f)
        then accepted_of r' = None ∧
          ∀ h, jget (stepDownHold G') (f_topic f) = Some h → jget (stepDownHold G) (f_topic f) = Some h ∧ h_to h ≠ f_root f
        else r' = r ∧ stepDownHold G' = stepDownHold G
    | None => r' = r ∧ stepDownHold G' = stepDownHold G
    end;
  (** nothing of another topic changes *)
  cv_others : ∀ t, t ≠ f_topic f → jget (rootTombstones G') t = jget (rootTombstones G) t ∧
    jget (rootBeacons G') t = jget (rootBeacons G) t ∧ jget (stepDownHold G') t = jget (stepDownHold G) t
}.

Lemma convict_spec now f G : convicted now f G (convict now f G).
Proof.
  unfold convict. set (G1 := if match _ with Some _ => _ | None => true end then _ else G). cbv zeta.
  assert (live G1 (f_topic f) = live G (f_topic f) ∧ rootBeacons G1 = rootBeacons G ∧ stepDownHold G1 = stepDownHold G ∧
    (∃ rt, jget (rootTombstones G1) (f_topic f) = Some rt ∧
      (rt = mk_rtomb (f_root f) (f_epoch f) (now + ROOT_TOMBSTONE_TTL_MS) ∨
       jget (rootTombstones G) (f_topic f) = Some rt ∧ f_epoch f < rt_epoch rt)) ∧
    ∀ t, t ≠ f_topic f → jget (rootTombstones G1) t = jget (rootTombstones G) t) as (A1 & A2 & A3 & A4 & A5).
  { unfold G1. destruct (jget (rootTombstones G) (f_topic f)) as [p|] eqn:Ep; [destruct (rt_epoch p <=? f_epoch f) eqn:El|].
    2: { apply Z.leb_gt in El. split_and!; try done. exists p. auto. }
    all: split_and!; try done; [eexists; cbn; rewrite jget_jset_eq; auto|intros t Ht; cbn; by rewrite jget_jset_ne]. }
  clearbody G1.
  set (G2 := match jget (rootBeacons G1) (f_topic f) with Some _ => _ | None => G1 end).
  assert (live G2 (f_topic f) = live G1 (f_topic f) ∧ rootTombstones G2 = rootTombstones G1 ∧ stepDownHold G2 = stepDownHold G1 ∧
    (jget (rootBeacons G2) (f_topic f) = b ← jget (rootBeacons G1) (f_topic f);
      if bool_decide (lc (b_root b) = f_root f) && match b_epoch b with Some e => e <=? f_epoch f | None => true end
      then None else Some b) ∧
    ∀ t, t ≠ f_topic f → jget (rootBeacons G2) t = jget (rootBeacons G1) t) as (B1 & B2 & B3 & B4 & B5).
  { unfold G2. destruct (jget (rootBeacons G1) (f_topic f)) as [b|] eqn:Eb; cbn [mbind option_bind]; [destruct (_ && _)|].
    - split_and!; [done..|apply jget_jdel_eq|]. intros t Ht. by apply jget_jdel_ne.
    - by split_and!.
    - by split_and!. }
  clearbody G2.
  set (G3 := match live G2 (f_topic f) with Some _ => _ | None => G2 end).
  assert (rootTombstones G3 = rootTombstones G2 ∧ rootBeacons G3 = rootBeacons G2 ∧
    (∀ t, t ≠ f_topic f → jget (stepDownHold G3) t = jget (stepDownHold G2) t) ∧
    ∀ ref r, live G2 (f_topic f) = Some (ref, r) → ∃ r', live G3 (f_topic f) = Some (ref, r') ∧
      match accepted_of r with
      | Some a =>
          if bool_decide (aw_id a = f_root f) && (aw_epoch a <=? f_epoch f)
          then accepted_of r' = None ∧
            ∀ h, jget (stepDownHold G3) (f_topic f) = Some h → jget (stepDownHold G2) (f_topic f) = Some h ∧ h_to h ≠ f_root f
          else r' = r ∧ stepDownHold G3 = stepDownHold G2
      | None => r' = r ∧ stepDownHold G3 = stepDownHold G2
      end) as (C1 & C2 & C3 & C4).
  { unfold G3. destruct (live G2 (f_topic f)) as [[ref r]|] eqn:El; [|by split_and!].
    destruct (accepted_of r) as [a|] eqn:Ea.
    2: { split_and!; try done. intros ref' r0 [= <- <-]. rewrite El, Ea. by exists r. }
    destruct (_ && _) eqn:Eb.
    2: { split_and!; try done. intros ref' r0 [= <- <-]. rewrite El, Ea, Eb. by exists r. }
    assert (live (upd G2 ref (map_merge (with_acceptedWinner None))) (f_topic f) = Some (ref, map_merge (with_acceptedWinner None) r)) as Hl.
    { rewrite live_upd, El. cbn. by rewrite decide_True. }
    assert (accepted_of (map_merge (with_acceptedWinner None) r) = None) as Hn.
    { unfold accepted_of, map_merge. destruct (merge r) eqn:Em; cbn; by rewrite ?Em. }
    change (stepDownHold (upd G2 ref _)) with (stepDownHold G2).
    destruct (jget (stepDownHold G2) (f_topic f)) as [h|] eqn:Eh; [destruct (decide (h_to h = f_root f)) as [Hh|Hh]|].
    - split; [reflexivity|]. split; [reflexivity|]. split; [intros t Ht; by apply jget_jdel_ne|]. intros ref' r0 [= <- <-]. eexists. split; [exact Hl|].
      rewrite Ea, Eb. split; [done|]. intros h'. cbn [put_stepDownHold stepDownHold].
      rewrite jget_jdel_eq. done.
    - split_and!; try done. intros ref' r0 [= <- <-]. eexists. split; [exact Hl|]. rewrite Ea, Eb. split; [done|].
      change (stepDownHold (upd G2 ref _)) with (stepDownHold G2). rewrite Eh. by intros h' [= <-].
    - split_and!; try done. intros ref' r0 [= <- <-]. eexists. split; [exact Hl|]. rewrite Ea, Eb. split; [done|].
      change (stepDownHold (upd G2 ref _)) with (stepDownHold G2). by rewrite Eh. }
  clearbody G3. split.
  - rewrite C1, B2. exact A4.
  - rewrite C2, B4. by rewrite A2.
  - rewrite <- A1, <- B1, <- A3, <- B3. exact C4.
  - intros t Ht. rewrite C1, B2, C2, <- A2, <- A3, <- B3. split_and!; [by apply A5|by apply B5|by apply C3].
Qed.

Lemma convict_mcf now f G : mcf (convict now f G) = mcf G.
Proof.
  unfold convict. cbv zeta. repeat match goal with
    | |- context [match ?x with _ => _ end] => destruct x; try done
    end.
Qed.

Section eviction.
Context (envMsgId : string → option string) (envTs : string → option (option Z)).

Lemma flightOpen_frame now nonce attempt W t root ty p a ex c :
  wm (flightOpen envMsgId now nonce attempt W t root ty p a ex c).1 = wm W ∧
  sent (flightOpen envMsgId now nonce attempt W t root ty p a ex c).1 = sent W ∧
  (chains (flightOpen envMsgId now nonce attempt W t root ty p a ex c).1 = chains W ∨
   ∃ ck, chains (flightOpen envMsgId now nonce attempt W t root ty p a ex c).1 = chains (chainGet now ck W).1).
Proof.
  unfold flightOpen. destruct (writeMsgId _ _ _) as [m|]; [|by auto].
  destruct (decide (m = "")); [by auto|].
  set (ck := corrKey _ _ _). pose proof (chainGet_frame now ck W) as (H1 & _ & H3).
  destruct (chainGet now ck W) as [W1 c'] eqn:E. cbn in *. rewrite H1, H3. split_and!; [done..|]. right. exists ck. by rewrite E.
Qed.

(** One promotion: it sends one frame, touches no manager state and notes its chain. *)
Definition promoter (now : Z) (root : string) (self best : Z) (F : wf → string * fentry → wf) : Prop :=
  ∀ W p, wm (F W p) = wm W ∧ (∃ o, sent (F W p) = sent W ++ [o] ∧ promotes self best p o) ∧
    ∀ l, noted now l root W → NoDup ((l ++ [p]).*1) → Z.of_nat (length l) < FLIGHT_CHAIN_MAX → noted now (l ++ [p]) root (F W p).

Lemma promote_self_promoter now root self : promoter now root self self (promote_self now root).
Proof.
  intros W [ck e]. split_and!; [done| |].
  - exists (SelfIngest e). split; [done|]. unfold promotes. by rewrite Z.eqb_refl.
  - intros l Hn Hnd Hlen. rewrite fmap_app in Hnd. eapply noted_ext; [|exact (noted_note now l root W ck e Hn Hnd Hlen)]. done.
Qed.

Lemma promote_to_promoter now nonce t root self best :
  best ≠ self → promoter now root self best (promote_to envMsgId now nonce t root (lc (idHex best))).
Proof.
  intros Hne W [ck e]. unfold promote_to. cbn [fst snd].
  set (W1 := chainNote now ck (fe_promotions e + 1) (fe_tried e ++ [root]) W).
  pose proof (flightOpen_frame now nonce nonce W1 t (lc (idHex best)) (fe_type e) (fe_payload e) (Some (fe_attemptId e))
                None (Some (fe_promotions e + 1, fe_tried e ++ [root]))) as (H1 & H2 & H3).
  destruct (flightOpen _ _ _ _ _ _ _ _ _ _ _ _) as [W2 r]. cbn [fst] in *.
  assert (∀ o, promotes self best (ck, e) o →
    wm (send o W2) = wm W ∧ (∃ o', sent (send o W2) = sent W ++ [o'] ∧ promotes self best (ck, e) o') ∧
    ∀ l, noted now l root W → NoDup ((l ++ [(ck, e)]).*1) → Z.of_nat (length l) < FLIGHT_CHAIN_MAX →
      noted now (l ++ [(ck, e)]) root (send o W2)) as H.
  { intros o Ho. split_and!; [done| |].
    - exists o. split; [|done]. cbn [sent send]. by rewrite H2.
    - intros l Hn Hnd Hlen. rewrite fmap_app in Hnd. pose proof (noted_note now l root W ck e Hn Hnd Hlen) as Hn'.
      fold W1 in Hn'. destruct H3 as [E|[ck' E]]; [|apply (noted_get _ _ _ _ ck') in Hn']; by eapply noted_ext; [exact E|]. }
  destruct r as [[[a n] at_]|]; apply H; unfold promotes; (destruct (best =? self) eqn:Eb; [lia|eauto]).
Qed.

Lemma promote_fold now root self best F l2 : promoter now root self best F → ∀ l W,
  wm (foldl F W l2) = wm W ∧
  (∃ out, sent (foldl F W l2) = sent W ++ out ∧ Forall2 (promotes self best) l2 out) ∧
  (noted now l root W → NoDup ((l ++ l2).*1) → Z.of_nat (length (l ++ l2)) ≤ FLIGHT_CHAIN_MAX →
     noted now (l ++ l2) root (foldl F W l2)).
Proof.
  intros HF. induction l2 as [|p l2 IH]; intros l W; cbn [foldl].
  { split_and!; [done|exists []; rewrite app_nil_r; by split; [|constructor]|by rewrite app_nil_r]. }
  destruct (HF W p) as (H1 & (o & H2 & Ho) & H3). destruct (IH (l ++ [p]) (F W p)) as (I1 & (out & I2 & Hout) & I3).
  split_and!; [congruence| |].
  - exists (o :: out). rewrite I2, H2, <- app_assoc. split; [done|by constructor].
  - intros Hn Hnd Hlen. rewrite (cons_middle p l l2), app_assoc in Hnd, Hlen |- *.
    apply I3; [|done..]. apply H3; [done| |].
    + rewrite fmap_app in Hnd. by apply NoDup_app in Hnd as (? & _).
    + rewrite !length_app in Hlen. cbn [length] in Hlen. lia.
Qed.

(** The eviction in one piece: the conviction, the reports and one promotion each. *)
Lemma evict_spec E nonce W key f :
  jwf (f_entries f) → jwf (chains W) →
  let W' := flightEvict envMsgId envTs E nonce W key f in
  let l := survivors envTs (now E) (f_entries f) in
  let self := nodeId (mcf (wm W)) in
  let best := pick E self (f_topic f) (f_root f :: concat (fe_tried ∘ snd <$> l)) in
  wm W' = convict (now E) f (wm W) ∧
  (∃ out, sent W' = sent W ++ reported envTs (now E) (f_topic f) (f_entries f) ++ out ∧ Forall2 (promotes self best) l out) ∧
  (Z.of_nat (length l) ≤ FLIGHT_CHAIN_MAX → noted (now E) l (f_root f) W').
Proof.
  intros Hw Hc W' l self best. unfold W', flightEvict. set (W0 := with_wm _ _).
  destruct (end_fold envTs (now E) (f_topic f) (f_entries f) W0 (f_entries f)) as (E1 & _ & E3 & E4 & E5).
  destruct (foldl _ (W0, _) _) as [W1 es]. cbn [fst snd] in *. rewrite survivors_eq in E5 by done. fold l in E5. subst es.
  assert (nodeId (mcf (wm W1)) = self) as Es.
  { rewrite E1. unfold W0. cbn [wm with_wm]. by rewrite convict_mcf. }
  assert (noted (now E) [] (f_root f) W1) as Hn0 by (split; [by rewrite E3|exists (chains W1); by rewrite app_nil_r]).
  assert (NoDup l.*1) as Hnd by (eapply sublist_NoDup; [exact Hw|apply fmap_sublist, sublist_filter]).
  assert (∀ F, promoter (now E) (f_root f) self best F →
    wm (foldl F W1 l) = convict (now E) f (wm W) ∧
    (∃ out, sent (foldl F W1 l) = sent W ++ reported envTs (now E) (f_topic f) (f_entries f) ++ out ∧
            Forall2 (promotes self best) l out) ∧
    (Z.of_nat (length l) ≤ FLIGHT_CHAIN_MAX → noted (now E) l (f_root f) (foldl F W1 l))) as Hfold.
  { intros F HF. destruct (promote_fold _ _ _ _ _ l HF [] W1) as (F1 & (out & F2 & F2') & F3).
    rewrite F1, F2, E1, E4. split_and!; [done| |by intros; apply F3].
    exists out. by rewrite app_assoc. }
  rewrite Es. fold best. destruct l as [|p l'] eqn:El.
  { split_and!; [by rewrite E1| |].
    - exists []. rewrite E4, app_nil_r. by split; [|constructor].
    - done. }
  rewrite <- El in *. destruct (best =? self) eqn:Eb.
  - apply Hfold. apply Z.eqb_eq in Eb. rewrite Eb. apply promote_self_promoter.
  - apply Hfold. apply promote_to_promoter. lia.
Qed.

Lemma evict_sends E nonce W key f :
  jwf (f_entries f) → jwf (chains W) → ∃ out,
  sent (flightEvict envMsgId envTs E nonce W key f) =
    sent W ++ reported envTs (now E) (f_topic f) (f_entries f) ++ out ∧
  length out = length (survivors envTs (now E) (f_entries f)).
Proof.
  intros Hw Hc. destruct (evict_spec E nonce W key f Hw Hc) as (_ & (out & H & H2) & _). exists out.
  split; [done|]. symmetry. by eapply Forall2_length.
Qed.

(** C34. An eviction loses no write. Every entry of the evicted flight is either reported
    undeliverable, exactly when its chain ends (the promotion cap, a stale publish),
    or sent on once: ingested here or forwarded to the closest candidate, which is
    this node, or a neighbour that is not the bridge, not the root just convicted and
    none a surviving write was evicted from before; none of these is closer to the
    topic. The conviction is on record ([convicted]): the incarnation has the topic's
    root tombstone, unless a later epoch has; its beacon is gone; it is no longer the
    accepted winner of the topic's role, and its hold goes with that; another root's
    or a later incarnation's records, and other topics', stay. Where no more than
    [FLIGHT_CHAIN_MAX] writes survive, each one's chain is on record one promotion
    longer. *)
Theorem evict_conserves E nonce W key f :
  jwf (f_entries f) → jwf (chains W) →
  let W' := flightEvict envMsgId envTs E nonce W key f in
  let l := survivors envTs (now E) (f_entries f) in
  let self := nodeId (mcf (wm W)) in
  let excluded := f_root f :: concat (fe_tried ∘ snd <$> l) in
  let best := pick E self (f_topic f) excluded in
  convicted (now E) f (wm W) (wm W') ∧
  (∃ out, sent W' = sent W ++ reported envTs (now E) (f_topic f) (f_entries f) ++ out ∧ Forall2 (promotes self best) l out) ∧
  (best = self ∨ ∃ n, n ∈ nbrs E ∧ candidate E self excluded n best) ∧
  dist best (f_topic f) ≤ dist self (f_topic f) ∧
  (∀ n nb, n ∈ nbrs E → candidate E self excluded n nb → dist best (f_topic f) ≤ dist nb (f_topic f)) ∧
  (Z.of_nat (length l) ≤ FLIGHT_CHAIN_MAX → ∀ p, p ∈ l →
     jget (chains W') p.1 = Some (mk_chain (fe_promotions p.2 + 1) (fe_tried p.2 ++ [f_root f]) (now E + FLIGHT_CHAIN_TTL_MS))).
Proof.
  intros Hw Hc W' l self excluded best.
  destruct (pick_spec E self (f_topic f) excluded) as (P1 & P2 & P3). fold best in P1, P2, P3.
  destruct (evict_spec E nonce W key f Hw Hc) as (H1 & H2 & H3).
  split_and!; try done; [unfold W'; rewrite H1; apply convict_spec|].
  intros Hlen p Hp. by apply (noted_ck _ l); [apply H3|].
Qed.

End eviction.

(** * The promotion cap *)

Section runs.
Context (envMsgId : string → option string) (envTs : string → option (option Z)).

(** What reaches the flight table: a forward, a receipt, a nack, a sweep; and whatever
    the rest of the node does to the manager in between. *)
Inductive wop :=
| OOpen (now : Z) (nonce attempt : string) (t : Z) (root : string) (ty : wtype) (p : payload)
    (attemptId : option string) (expected : option Z)
| OComplete (topicHex msgId op : string) (fromId : jsv) (ackEpoch : option Z)
| ONack (now : Z) (topicId : string)
| OSweep (E : env) (nonce : string → string)
| OMgr (G : mgr).

Definition wstep (W : wf) (o : wop) : wf :=
  match o with
  | OOpen n nonce att t root ty p a ex => (flightOpen envMsgId n nonce att W t root ty p a ex None).1
  | OComplete th m op from ae => flightComplete W th m op from ae
  | ONack n t => onReceiptNack n W t
  | OSweep E nonce => flightSweep envMsgId envTs E nonce W
  | OMgr G => with_wm G W
  end.
Definition wrun (W : wf) (ops : list wop) : wf := foldl wstep W ops.
Definition new_wf (G : mgr) : wf := mk_wf G [] [] [].

Definition capped (n : Z) : Prop := 0 ≤ n ≤ FLIGHT_MAX_PROMOTIONS.
Definition flight_ok (f : flight) : Prop :=
  jwf (f_entries f) ∧ 0 ≤ f_rounds f ≤ FLIGHT_MAX_ROUNDS ∧ (f_stage f = AwaitAck → f_rounds f = 0) ∧
  (f_stage f ≠ AwaitAck → 1 ≤ f_rounds f) ∧
  ∀ ck e, (ck, e) ∈ f_entries f → capped (fe_promotions e).
Record wf_ok (W : wf) : Prop := {
  wo_flights : jwf (flights W);
  wo_flight : ∀ key f, jget (flights W) key = Some f → flight_ok f;
  wo_chains : jwf (chains W);
  wo_chain : ∀ ck c, jget (chains W) ck = Some c → capped (ch_promotions c);
  wo_len : jsize (chains W) ≤ FLIGHT_CHAIN_MAX
}.

Lemma jset_elem {V} (m : jmap string V) k v p : jwf m → p ∈ jset m k v → p = (k, v) ∨ p ∈ m.
Proof.
  intros Hw Hp. destruct p as [k' v']. apply elem_jget in Hp; [|by apply jwf_jset].
  rewrite jget_jset in Hp. case_decide; [left; congruence|right; by apply jget_Some_elem].
Qed.

Lemma ok_frame W W' : flights W' = flights W → chains W' = chains W → wf_ok W → wf_ok W'.
Proof. intros E1 E2 [? ? ? ? ?]. split; rewrite ?E1, ?E2; done. Qed.

(** The step touched neither the flights nor the chains. *)
Ltac ok_same := match goal with H : wf_ok ?W |- wf_ok _ => solve [apply (ok_frame W); [done|done|exact H]] end.

Lemma ok_set W key f : wf_ok W → flight_ok f → wf_ok (with_flights (jset (flights W) key f) W).
Proof.
  intros [H1 H2 H3 H4 H5] Hf. split; cbn [flights chains with_flights]; [by apply jwf_jset| |done..].
  intros k f'. rewrite jget_jset. case_decide; [by intros [= <-]|apply H2].
Qed.

Lemma ok_del W key : wf_ok W → wf_ok (with_flights (jdel (flights W) key) W).
Proof.
  intros [H1 H2 H3 H4 H5]. split; cbn [flights chains with_flights]; [by apply jwf_jdel| |done..].
  intros k f'. rewrite jget_jdel. case_decide; [done|apply H2].
Qed.

Lemma ok_note W now ck n tr : wf_ok W → capped n → wf_ok (chainNote now ck n tr W).
Proof.
  intros [H1 H2 H3 H4 H5] Hn. split; [exact H1|exact H2|by apply chainNote_jwf| |].
  2: { unfold chainNote, jsize. cbn [chains with_chains]. rewrite length_drop. unfold FLIGHT_CHAIN_MAX. lia. }
  intros k c Hg. apply chainNote_get in Hg as [[_ ->]|Hg]; [done|by eapply H4|done].
Qed.

Lemma ok_get W now ck : wf_ok W → wf_ok (chainGet now ck W).1.
Proof.
  intros [H1 H2 H3 H4 H5]. pose proof (chainGet_frame now ck W) as (_ & E & _).
  split; [by rewrite E|by rewrite E|by apply chainGet_jwf| |].
  2: { destruct (chainGet_chains now ck W) as [->|[-> _]]; [done|]. pose proof (jsize_jdel_le (chains W) ck). lia. }
  intros k c Hg. eapply (H4 k). destruct (chainGet_chains now ck W) as [Ec|[Ec _]]; rewrite Ec in Hg; [done|].
  rewrite jget_jdel in Hg. by case_decide.
Qed.

Lemma absorb_capped e c :
  capped (fe_promotions e) → (∀ x, c = Some x → capped x.1) → capped (fe_promotions (absorb e c)).
Proof.
  destruct c as [[n tr]|]; intros He Hc; [|done]. specialize (Hc _ eq_refl). cbn in Hc |- *. unfold capped in *. lia.
Qed.

Lemma entries_ok f es :
  flight_ok f → jwf es → (∀ ck e, (ck, e) ∈ es → capped (fe_promotions e)) → flight_ok (with_entries es f).
Proof. intros (H1 & H2 & H3 & H4 & H5) Hw He. exact (conj Hw (conj H2 (conj H3 (conj H4 He)))). Qed.

Lemma ok_open W now nonce att t root ty p a ex c :
  wf_ok W → (∀ x, c = Some x → capped x.1) → wf_ok (flightOpen envMsgId now nonce att W t root ty p a ex c).1.
Proof.
  intros HW Hc. unfold flightOpen. destruct (writeMsgId _ _ _) as [m|]; [|done].
  destruct (decide (m = "")); [done|]. cbv zeta.
  set (ck := corrKey _ _ _). set (key := flightKey _ _ _). set (f := match jget (flights W) key with Some _ => _ | None => _ end).
  assert (flight_ok f) as Hf.
  { unfold f. destruct (jget (flights W) key) as [f0|] eqn:E; [by apply (wo_flight _ HW key)|].
    unfold flight_ok. split_and!; cbn; try done; [constructor|]. intros ? ? H. by apply elem_of_nil in H. }
  clearbody f. pose proof (ok_get W now ck HW) as HW1. pose proof (chainGet_Some now ck W) as Hg.
  destruct (chainGet now ck W) as [W1 c'] eqn:E. cbn [fst snd] in *. apply ok_set; [done|].
  destruct Hf as (F1 & F2 & F3 & F4 & F5). apply entries_ok; [done|by apply jwf_jset|].
  intros ck0 e0 [Heq|Hin]%jset_elem; [|by eapply F5|done]. injection Heq as -> ->.
  apply absorb_capped; [apply absorb_capped; [|done]|].
  - destruct (jget (f_entries f) ck) as [e|] eqn:Ee; [apply (F5 ck), jget_Some_elem, Ee|done].
  - intros x Hx. destruct c' as [c0|]; [|done]. cbn in Hx. injection Hx as <-. cbn. eapply (wo_chain _ HW), Hg, eq_refl.
Qed.

Lemma ok_close W key ck f : wf_ok W → flight_ok f → wf_ok (close_entry key ck f W).
Proof.
  intros HW (F1 & F2 & F3 & F4 & F5). unfold close_entry. destruct (jdel (f_entries f) ck) as [|x es] eqn:E; [by apply ok_del|].
  apply ok_set; [done|]. apply entries_ok; [done|rewrite <- E; by apply jwf_jdel|].
  intros ck' e Hin. rewrite <- E in Hin. apply elem_of_jdel in Hin as [Hin _]. by eapply F5.
Qed.

Lemma ok_foldl {A} (F : wf → A → wf) (P : A → Prop) l :
  (∀ W x, P x → wf_ok W → wf_ok (F W x)) → ∀ W, (∀ x, x ∈ l → P x) → wf_ok W → wf_ok (foldl F W l).
Proof.
  intros HF. induction l as [|x l IH]; intros W Hl HW; [done|]. cbn. apply IH; [intros y Hy; apply Hl; by right|].
  apply HF; [apply Hl; by left|done].
Qed.

Lemma ok_complete W th m op from ae : wf_ok W → wf_ok (flightComplete W th m op from ae).
Proof.
  intros HW. unfold flightComplete. apply (ok_foldl _ (λ p, flight_ok p.2)); [|intros [k f] Hp; eapply (wo_flight _ HW k); by apply elem_jget, Hp; apply HW|done].
  intros W' [key f] Hf HW'. unfold complete_one.
  destruct (negb _); [done|]. destruct (negb _); [done|].
  destruct (negb _ && _); [destruct (f_merge f); [ok_same|done]|]. by apply ok_close.
Qed.

Lemma stage_ok s r d f :
  flight_ok f → 0 ≤ r ≤ FLIGHT_MAX_ROUNDS → (s = AwaitAck → r = 0) → (s ≠ AwaitAck → 1 ≤ r) → flight_ok (with_stage s r d f).
Proof. intros (H1 & H2 & H3 & H4 & H5) Hr Ha Hb. exact (conj H1 (conj Hr (conj Ha (conj Hb H5)))). Qed.

Lemma ok_sends {A} (F : A → wout) l W : wf_ok W → wf_ok (foldl (λ W x, send (F x) W) W l).
Proof. revert W. induction l as [|x l IH]; intros W HW; [done|]. cbn. apply IH. ok_same. Qed.

Lemma ok_nack W now t : wf_ok W → wf_ok (onReceiptNack now W t).
Proof.
  intros HW. unfold onReceiptNack. destruct (idBigS t) as [tb|]; [|done].
  apply (ok_foldl _ (λ p, flight_ok p.2)); [|intros [k f] Hp; eapply (wo_flight _ HW k); by apply elem_jget, Hp; apply HW|done].
  intros W' [key f] Hf HW'. unfold nack_one. destruct (bool_decide (f_topic f = tb)); [|done].
  destruct (bool_decide (f_stage f = Probing)) eqn:Es; [|done]. apply bool_decide_eq_true in Es. cbn [andb].
  apply (ok_sends (λ x : string * fentry, Resend x.2 (f_root f) (f_ackTo f) (f_nonce f) (fe_attemptId x.2))).
  apply ok_set; [done|]. cbn in Hf. pose proof Hf as (F1 & F2 & F3 & F4 & F5). apply stage_ok; [done..|]. intros _. apply F4. congruence.
Qed.

Lemma ok_evict E nonce W key f : wf_ok W → flight_ok f → wf_ok (flightEvict envMsgId envTs E nonce W key f).
Proof.
  intros HW Hf. pose proof Hf as (F1 & F2 & F3 & F4 & F5). unfold flightEvict. set (W0 := with_wm _ _).
  assert (wf_ok W0) as HW0 by (by apply (ok_frame (with_flights (jdel (flights W) key) W)); [..|apply ok_del]).
  destruct (end_fold envTs (now E) (f_topic f) (f_entries f) W0 (f_entries f)) as (_ & E2 & E3 & _ & E5).
  destruct (foldl _ (W0, _) _) as [W1 es]. cbn [fst snd] in *. rewrite survivors_eq in E5 by done.
  assert (wf_ok W1) as HW1 by (by apply (ok_frame W0)).
  assert (∀ p, p ∈ es → 0 ≤ fe_promotions p.2 < FLIGHT_MAX_PROMOTIONS) as Hes.
  { intros [ck e] Hp. subst es. apply list_elem_of_filter in Hp as [Hn Hp]. cbn. split; [by eapply F5|].
    apply (end_why_capped envTs (now E)). unfold ends in Hn. cbn in Hn. by destruct (end_why envTs (now E) e). }
  destruct es as [|p es']; [done|]. destruct (pick _ _ _ _ =? _).
  all: apply (ok_foldl _ (λ p, 0 ≤ fe_promotions p.2 < FLIGHT_MAX_PROMOTIONS)); [|done..].
  all: intros W2 [ck e] He HW2; cbn [snd] in He.
  - unfold promote_self. cbn [fst snd].
    pose proof (ok_note W2 (now E) ck (fe_promotions e + 1) (fe_tried e ++ [f_root f]) HW2 ltac:(unfold capped; lia)) as HW3. ok_same.
  - unfold promote_to. cbn [snd fst].
    pose proof (ok_open (chainNote (now E) ck (fe_promotions e + 1) (fe_tried e ++ [f_root f]) W2)
      (now E) nonce nonce (f_topic f) (lc (idHex (pick E (nodeId (mcf (wm W1))) (f_topic f)
        (f_root f :: concat (fe_tried ∘ snd <$> p :: es'))))) (fe_type e) (fe_payload e) (Some (fe_attemptId e)) None
      (Some (fe_promotions e + 1, fe_tried e ++ [f_root f]))) as H.
    destruct (flightOpen _ _ _ _ _ _ _ _ _ _ _ _) as [W3 r]; cbn [fst] in H.
    assert (wf_ok W3) as HW3.
    { apply H; [apply ok_note; [done|unfold capped; lia]|]. intros ? [= <-]. cbn. unfold capped. lia. }
    clear H HW2. destruct r as [[[x y] z]|]; ok_same.
Qed.

Lemma ok_sweep_one E nonce W key : wf_ok W → wf_ok (sweep_one envMsgId envTs E nonce W key).
Proof.
  intros HW. unfold sweep_one. destruct (jget (flights W) key) as [f|] eqn:Ef; [|done].
  pose proof (wo_flight _ HW _ _ Ef) as Hf. pose proof Hf as (F1 & F2 & F3 & F4 & F5).
  destruct (now E <? f_deadline f); [done|].
  assert (∀ W', wf_ok W' → (f_rounds f < FLIGHT_MAX_ROUNDS →
    wf_ok (with_flights (jset (flights W') key (with_stage Probing (f_rounds f + 1) (now E + FLIGHT_PROBE_MS) f)) W')) ∧
    wf_ok (flightEvict envMsgId envTs E (nonce key) W' key f)) as Hk.
  { intros W' HW'. split; [|by apply ok_evict]. intros Hr. apply ok_set; [done|]. apply stage_ok; [done|lia|done|intros; lia]. }
  destruct (f_stage f); [|by apply Hk|].
  all: match goal with |- wf_ok (if _ <=? _ then flightEvict _ _ _ _ ?W' _ _ else _) => assert (wf_ok W') as HW' by
         (destruct (f_merge f); [destruct (_ && _); [ok_same|done]|done]); revert HW'; generalize W'; intros W1 HW1 end.
  all: destruct (Hk W1 HW1) as [K1 K2]; destruct (FLIGHT_MAX_ROUNDS <=? f_rounds f) eqn:Er; [done|].
  all: specialize (K1 ltac:(lia)); destruct (f_entries f) as [|[ck e] es]; [by apply ok_del|].
  all: destruct (idBigS (f_root f)); [ok_same|by apply ok_del].
Qed.

Lemma ok_step W o : wf_ok W → wf_ok (wstep W o).
Proof.
  intros HW. destruct o; cbn [wstep].
  - by apply ok_open.
  - by apply ok_complete.
  - by apply ok_nack.
  - unfold flightSweep. apply (ok_foldl _ (λ _, True)); [|done..]. intros. by apply ok_sweep_one.
  - ok_same.
Qed.

Lemma ok_run ops : ∀ W, wf_ok W → wf_ok (wrun W ops).
Proof. induction ops as [|o ops IH]; intros W HW; [done|]. cbn. by apply IH, ok_step. Qed.

Lemma new_wf_ok G : wf_ok (new_wf G).
Proof. split; try done; constructor. Qed.

(** The promotion cap bites on every path: in every reachable state each pending
    write and each chain on record counts at most [FLIGHT_MAX_PROMOTIONS] promotions,
    a chain it inherits from the ledger included, and the ledger holds at most
    [FLIGHT_CHAIN_MAX] chains; a write that has used the promotions up is reported
    undeliverable by the next eviction and is promoted no further. *)
Theorem promotion_cap G ops :
  let W := wrun (new_wf G) ops in
  jsize (chains W) ≤ FLIGHT_CHAIN_MAX ∧
  (∀ ck c, jget (chains W) ck = Some c → 0 ≤ ch_promotions c ≤ FLIGHT_MAX_PROMOTIONS) ∧
  (∀ key f ck e, jget (flights W) key = Some f → jget (f_entries f) ck = Some e →
     0 ≤ fe_promotions e ≤ FLIGHT_MAX_PROMOTIONS ∧
     (fe_promotions e = FLIGHT_MAX_PROMOTIONS → ∀ E nonce,
        (ck, e) ∉ survivors envTs (now E) (f_entries f) ∧
        Undeliverable (fe_type e) (f_topic f) "write-flight-promotion-cap" ∈
          sent (flightEvict envMsgId envTs E nonce W key f))).
Proof.
  intros W. assert (wf_ok W) as HW by apply ok_run, new_wf_ok. split_and!; [apply HW|apply HW|].
  intros key f ck e Hf He. pose proof (wo_flight _ HW _ _ Hf) as (F1 & _ & _ & _ & F5).
  split; [by apply (F5 ck), jget_Some_elem|]. intros Hmax E nonce.
  assert (end_why envTs (now E) e = Some "write-flight-promotion-cap") as Hend.
  { unfold end_why. by rewrite Hmax. }
  split.
  - intros Hin. apply list_elem_of_filter in Hin as [Hin _]. unfold ends in Hin. cbn in Hin. by rewrite Hend in Hin.
  - destruct (evict_sends envMsgId envTs E nonce W key f F1 (wo_chains _ HW)) as (out & -> & _). apply elem_of_app; right.
    apply elem_of_app; left. unfold reported. apply list_elem_of_omap. exists (ck, e).
    split; [by apply jget_Some_elem|]. cbn. by rewrite Hend.
Qed.

(** ** Every flight ends *)

(** One flight as an automaton: a sweep past its deadline and a nack move it; [None]
    is its eviction. *)
Inductive fev := FSweep (n : Z) | FNack (n : Z).
Definition fstep (f : flight) (x : fev) : option flight :=
  match x with
  | FSweep n =>
      if n <? f_deadline f then Some f
      else match f_stage f with
      | Probing => None
      | _ => if FLIGHT_MAX_ROUNDS <=? f_rounds f then None
             else Some (with_stage Probing (f_rounds f + 1) (n + FLIGHT_PROBE_MS) f)
      end
  | FNack n =>
      if bool_decide (f_stage f = Probing) then Some (with_stage Retrying (f_rounds f) (n + INGEST_ACK_MS) f) else Some f
  end.
Definition due (f : flight) (x : fev) : nat :=
  match x with FSweep n => if n <? f_deadline f then 0%nat else 1%nat | FNack _ => 0%nat end.

(** The flight after a run of events, and the due sweeps it lived through. *)
Fixpoint frun (f : flight) (xs : list fev) : option flight :=
  match xs with
  | [] => Some f
  | x :: xs => match fstep f x with Some f' => frun f' xs | None => None end
  end.
Fixpoint dues (f : flight) (xs : list fev) : nat :=
  match xs with
  | [] => 0%nat
  | x :: xs => (due f x + match fstep f x with Some f' => dues f' xs | None => 0%nat end)%nat
  end.

(** Sweeps and retries left: each round is a probe and, after a nack, a retry. *)
Definition budget (f : flight) : Z :=
  match f_stage f with
  | Probing => 2 * (FLIGHT_MAX_ROUNDS - f_rounds f) + 2
  | _ => 2 * (FLIGHT_MAX_ROUNDS - f_rounds f) + 1
  end.

Lemma budget_bounds f : flight_ok f → 1 ≤ budget f ≤ 5.
Proof.
  intros (_ & H2 & H3 & H4 & _). unfold budget, FLIGHT_MAX_ROUNDS in *. destruct (f_stage f).
  - lia.
  - assert (1 ≤ f_rounds f) by (by apply H4). lia.
  - assert (1 ≤ f_rounds f) by (by apply H4). lia.
Qed.

Lemma fstep_budget f x f' :
  flight_ok f → fstep f x = Some f' → flight_ok f' ∧ budget f' + Z.of_nat (due f x) ≤ budget f.
Proof.
  intros Hf H. pose proof Hf as (F1 & F2 & F3 & F4 & F5). destruct x as [n|n]; unfold fstep in H; unfold due.
  - destruct (n <? f_deadline f); [injection H as <-; split; [done|lia]|].
    assert (f_stage f ≠ Probing ∧ f_rounds f < FLIGHT_MAX_ROUNDS ∧
      f' = with_stage Probing (f_rounds f + 1) (n + FLIGHT_PROBE_MS) f) as (Hs & Hr & ->).
    { destruct (f_stage f); [|done|]; destruct (FLIGHT_MAX_ROUNDS <=? f_rounds f) eqn:E; try done;
        injection H as <-; (split_and!; [done|lia|done]). }
    split; [apply stage_ok; [done|lia|done|intros; lia]|]. unfold budget. cbn [f_stage f_rounds with_stage].
    destruct (f_stage f); [lia|done|lia].
  - destruct (bool_decide _) eqn:E; [|injection H as <-; split; [done|lia]]. apply bool_decide_eq_true in E.
    injection H as <-. split; [apply stage_ok; [done..|]; intros _; apply F4; congruence|].
    unfold budget. rewrite E. cbn [f_stage f_rounds with_stage]. lia.
Qed.

Lemma frun_budget xs : ∀ f f', flight_ok f → frun f xs = Some f' → Z.of_nat (dues f xs) < budget f.
Proof.
  induction xs as [|x xs IH]; intros f f' Hf H; [pose proof (budget_bounds f Hf); cbn; lia|].
  cbn [frun dues] in *. destruct (fstep f x) as [f1|] eqn:E; [|done].
  destruct (fstep_budget f x f1 Hf E) as [H1 H2]. specialize (IH f1 f' H1 H). lia.
Qed.

Lemma foldl_send_flights {A} (F : A → wout) l W : flights (foldl (λ W x, send (F x) W) W l) = flights W.
Proof. revert W. induction l as [|x l IH]; intros W; [done|]. cbn. by rewrite IH. Qed.

Lemma nack_one_get now t W key f key' :
  jget (flights W) key = Some f →
  jget (flights (nack_one now t W (key, f))) key' =
    if decide (key = key') then (if bool_decide (f_topic f = t) then fstep f (FNack now) else Some f)
    else jget (flights W) key'.
Proof.
  intros Hf. unfold nack_one, fstep. destruct (bool_decide (f_topic f = t)); cbn [andb].
  2: { case_decide; [by subst|done]. }
  destruct (bool_decide (f_stage f = Probing)); [|case_decide; [by subst|done]].
  rewrite (foldl_send_flights (λ x : string * fentry, Resend x.2 (f_root f) (f_ackTo f) (f_nonce f) (fe_attemptId x.2))).
  cbn [flights with_flights]. by rewrite jget_jset.
Qed.

Lemma sweep_one_sim E nonce W key f :
  jget (flights W) key = Some f → f_entries f ≠ [] → idBigS (f_root f) ≠ None →
  match fstep f (FSweep (now E)) with
  | Some f' => ∀ k, jget (flights (sweep_one envMsgId envTs E nonce W key)) k =
                      if decide (key = k) then Some f' else jget (flights W) k
  | None => ∃ W0, sweep_one envMsgId envTs E nonce W key = flightEvict envMsgId envTs E (nonce key) W0 key f ∧
              flights W0 = flights W ∧ chains W0 = chains W ∧ wm W0 = wm W
  end.
Proof.
  intros Hf He Hr. unfold sweep_one, fstep. rewrite Hf.
  destruct (now E <? f_deadline f). { intros k. case_decide; [by subst|done]. }
  destruct (f_stage f); [|by exists W|].
  all: match goal with |- context [flightEvict _ _ _ _ ?X _ _] => assert (flights X = flights W ∧ chains X = chains W ∧ wm X = wm W) as (H1 & H2 & H3)
         by (destruct (f_merge f); [by destruct (_ && _)|done]); revert H1 H2 H3; generalize X end; intros W1 H1 H2 H3.
  all: destruct (FLIGHT_MAX_ROUNDS <=? f_rounds f); [by exists W1|].
  all: destruct (f_entries f) as [|[ck e] es]; [done|]; destruct (idBigS (f_root f)); [|done].
  all: intros k; cbn [flights send with_flights]; by rewrite H1, jget_jset.
Qed.

(** Every flight ends. A flight is a small automaton, the table runs one for each
    flight - a sweep moves the flight it examines, a nack every probing flight of its
    topic, and no other - and no run of sweeps and nacks keeps a flight open through
    more than five sweeps past its deadline: by then it is evicted, its root convicted
    and its writes reported or promoted. *)
Theorem flight_ends :
  (∀ f xs, flight_ok f → (5 ≤ dues f xs)%nat → frun f xs = None) ∧
  (∀ E nonce W key f, jget (flights W) key = Some f → f_entries f ≠ [] → idBigS (f_root f) ≠ None →
     match fstep f (FSweep (now E)) with
     | Some f' => ∀ k, jget (flights (sweep_one envMsgId envTs E nonce W key)) k =
                         if decide (key = k) then Some f' else jget (flights W) k
     | None => ∃ W0, sweep_one envMsgId envTs E nonce W key = flightEvict envMsgId envTs E (nonce key) W0 key f ∧
                 flights W0 = flights W ∧ chains W0 = chains W ∧ wm W0 = wm W
     end) ∧
  (∀ n topicId t W key, idBigS topicId = Some t → jwf (flights W) →
     jget (flights (onReceiptNack n W topicId)) key =
       jget (flights W) key ≫= λ f, if bool_decide (f_topic f = t) then fstep f (FNack n) else Some f).
Proof.
  split_and!.
  - intros f xs Hf Hn. destruct (frun f xs) as [f'|] eqn:E; [|done]. exfalso.
    pose proof (frun_budget xs f f' Hf E). pose proof (budget_bounds f Hf). lia.
  - apply sweep_one_sim.
  - intros n topicId t W key Ht Hw. unfold onReceiptNack. rewrite Ht. apply table_fold; [|done].
    intros. by apply nack_one_get.
Qed.

End runs.

(** * Concrete runs *)

Definition demo_entry : fentry := mk_fentry PUB (mk_payload "{}" None None) "m1" "pub" "aa" 0 [].
Definition demo_flight : flight :=
  mk_flight 9 (lc (idHex 11)) 3 [(corrKey (idHex 9) "m1" "pub", demo_entry)] AwaitAck 0 4000 (lc (idHex 5)) "ff" None.
Definition demo_wf : wf := mk_wf (new_mgr (default_cfg 5)) [(flightKey 9 (idHex 11) 3, demo_flight)] [] [].

Lemma receipt_binds_witness :
  jget (flights (flightComplete demo_wf (idHex 9) "m1" "pub" (JBig 11) (Some 3))) (flightKey 9 (idHex 11) 3) = None ∧
  jget (flights (flightComplete demo_wf (idHex 9) "m1" "pub" (JBig 12) (Some 3))) (flightKey 9 (idHex 11) 3) = Some demo_flight.
Proof.
  assert (jwf (flights demo_wf)) as Hw by (vm_compute; apply NoDup_singleton).
  split.
  - rewrite (receipt_binds demo_wf (idHex 9) "m1" "pub" (JBig 11) (Some 3) _ Hw). vm_compute. reflexivity.
  - rewrite (receipt_binds demo_wf (idHex 9) "m1" "pub" (JBig 12) (Some 3) _ Hw). vm_compute. reflexivity.
Defined.

(** Node 5 forwarded a write for topic 9 to node 11; node 8 is its neighbour. *)
Definition demo_env : env := mk_env 9000 9000 (Some [JBig 8; JBig 11]) None true false.

Lemma evict_conserves_witness :
  ∃ a n at_, sent (flightEvict (λ _, Some "m1") (λ _, None) demo_env "ee" demo_wf (flightKey 9 (idHex 11) 3) demo_flight) =
    [Resend demo_entry (lc (idHex 8)) a n at_].
Proof.
  assert (jwf (f_entries demo_flight)) as H1 by (vm_compute; apply NoDup_singleton).
  assert (jwf (chains demo_wf)) as H2 by constructor.
  destruct (evict_conserves (λ _, Some "m1") (λ _, None) demo_env "ee" demo_wf (flightKey 9 (idHex 11) 3) demo_flight H1 H2)
    as (_ & (out & Hs & Ho) & _).
  vm_compute. do 3 eexists. reflexivity.
Defined.
