(* ===== verification/PeerTable.v ===== *)
(** PeerTable.v - the peers a node routes through: the synapse record
    (src/src/dht/Synapse.js), the node's tables and activation-potential choice
    (src/src/dht/NeuronNode.js), and the one iterator over usable peers
    (src/src/dht/AxonaPeer.js: [_usablePeers], [_classOf], [_isStalePeer], [_clz]).

    A JS number that is computed with (latency, weight, activation potential) is an
    IEEE double, [spec_float] at precision 53 and exponent bound 1024; an id or a
    count is a [Z].  What the transport answers during an operation is a [tenv]. *)
From stdpp Require Import base gmap sets list strings.
From Stdlib Require Import ZArith Lia SpecFloat.
From S2P Require Import Prelude HexId.
From S2P Require ChannelLedger DeadPeers.
#[local] Open Scope Z_scope.
#[local] Open Scope js_scope.

(** * Doubles *)

Definition num := spec_float.
(** [Number(z)], rounded to nearest even. *)
Definition num_of (z : Z) : num := binary_normalize 53 1024 z 0 false.
Definition num_add : num → num → num := SFadd 53 1024.
Definition num_mul : num → num → num := SFmul 53 1024.
Definition num_div : num → num → num := SFdiv 53 1024.
Definition num_lt : num → num → bool := SFltb.
Definition num_infinity : num := S754_infinity false.
Definition num_neg_infinity : num := S754_infinity true.
(** [0.5], [0.2], [0.1] and [0.15] as the nearest doubles. *)
Definition num_half : num := S754_finite false 4503599627370496 (-53).
Definition num_0_2 : num := S754_finite false 7205759403792794 (-55).
Definition num_0_1 : num := S754_finite false 7205759403792794 (-56).
Definition num_0_15 : num := S754_finite false 5404319552844596 (-55).
Definition num_one : num := num_of 1.

(** * Synapses *)

Record synapse := mk_synapse {
  s_peerId : Z; s_weight : num; s_latency : num; s_inertia : Z; s_stratum : Z; s_addedBy : string
}.

(** The constructor's record, for an id that passed [asId]. *)
Definition new_synapse (ks : keyspace) (peerId : jsv) (latencyMs : num) (stratum : Z) : js_result synapse :=
  id ← asId ks peerId; Ok (mk_synapse id num_half latencyMs 0 stratum "").

(** [Math.min(1.0, weight + 0.2)] *)
Definition reinforce (s : synapse) (currentEpoch inertiaDuration : Z) : synapse :=
  let w := num_add (s_weight s) num_0_2 in
  mk_synapse (s_peerId s) (if num_lt num_one w then num_one else w) (s_latency s)
    (currentEpoch + inertiaDuration) (s_stratum s) (s_addedBy s).
Definition decay (s : synapse) (gamma : num) : synapse :=
  mk_synapse (s_peerId s) (num_mul (s_weight s) gamma) (s_latency s) (s_inertia s) (s_stratum s) (s_addedBy s).
(** [latency += alpha * (sampleMs - latency)] *)
Definition updateLatency (s : synapse) (sampleMs alpha : num) : synapse :=
  mk_synapse (s_peerId s) (s_weight s)
    (num_add (s_latency s) (num_mul alpha (SFsub 53 1024 sampleMs (s_latency s))))
    (s_inertia s) (s_stratum s) (s_addedBy s).

(** * The node *)

(** A key of the synaptome: a bigint, or the hex text of an older session. *)
Inductive skey := KBig (z : Z) | KHex (s : string).
#[export] Instance skey_eq_dec : EqDecision skey.
Proof. solve_decision. Defined.

Record node := mk_node {
  n_id : Z; n_alive : bool;
  synaptome : jmap skey synapse;
  incoming : jmap Z synapse;      (** the reverse index *)
  n_marks : DeadPeers.dp;         (** [_deadPeers] *)
  maxSynaptome : option Z         (** [_maxSynaptome] *)
}.
Definition with_synaptome (m : jmap skey synapse) (N : node) : node :=
  mk_node (n_id N) (n_alive N) m (incoming N) (n_marks N) (maxSynaptome N).
Definition with_incoming (m : jmap Z synapse) (N : node) : node :=
  mk_node (n_id N) (n_alive N) (synaptome N) m (n_marks N) (maxSynaptome N).

Definition synapses (N : node) : list synapse := (synaptome N).*2.
Definition hasSynapse (N : node) (peerId : Z) : bool := jhas (synaptome N) (KBig peerId).
Definition dead (N : node) (id : Z) : bool := jhas (DeadPeers.marks (n_marks N)) id.

Definition addSynapse (N : node) (s : synapse) : node :=
  with_synaptome (jset (synaptome N) (KBig (s_peerId s)) s) N.

(** The reverse index shares the node's budget. *)
Definition addIncomingSynapse (N : node) (peerId : Z) (latency : num) (stratum : Z) : node :=
  if hasSynapse N peerId || jhas (incoming N) peerId then N
  else if match maxSynaptome N with
          | Some cap => cap <=? jsize (synaptome N) + jsize (incoming N)
          | None => false
          end
  then N
  else with_incoming (jset (incoming N) peerId (mk_synapse peerId num_0_1 latency 0 stratum "")) N.

(** The structural survival rule; [k] is the key the synapse is held under. *)
Definition canPrune (N : node) (k : skey) (s : synapse) : bool :=
  existsb (λ p, negb (bool_decide (p.1 = k)) && (s_stratum p.2 =? s_stratum s)) (synaptome N).

Definition progressCandidates (N : node) (target : Z) : list synapse :=
  let closer s := Z.lxor (s_peerId s) target <? Z.lxor (n_id N) target in
  filter closer (synapses N) ++ filter closer (incoming N).*2.

(** [(delta / latency) * (1 + weightScale * weight)] *)
Definition activation (N : node) (target : Z) (weightScale : num) (s : synapse) : num :=
  let delta := num_of (Z.lxor (n_id N) target - Z.lxor (s_peerId s) target) in
  num_mul (num_div delta (s_latency s)) (num_add num_one (num_mul weightScale (s_weight s))).
Definition ap_step (N : node) (target : Z) (weightScale : num) (acc : option synapse * num) (s : synapse)
    : option synapse * num :=
  let ap := activation N target weightScale s in
  if num_lt acc.2 ap then (Some s, ap) else acc.
Definition bestByAP (N : node) (candidates : list synapse) (target : Z) (weightScale : num) : option synapse :=
  (foldl (ap_step N target weightScale) (None, num_neg_infinity) candidates).1.

(** [_clz]: of the low 64 bits, whatever the width of the keyspace. *)
Definition clz64 (x : Z) : Z :=
  if x =? 0 then 64
  else
    let hi := Z.land (Z.shiftr x 32) (2 ^ 32 - 1) in
    if negb (hi =? 0) then clz32 hi else 32 + clz32 (Z.land x (2 ^ 32 - 1)).

(** Nothing above bit 63 counts. *)
Lemma clz64_low x : clz64 x = clz64 (Z.land x (2 ^ 64 - 1)).
Proof.
  assert (Z.land (Z.land x (2 ^ 64 - 1)) (2 ^ 32 - 1) = Z.land x (2 ^ 32 - 1)) as H1
    by (rewrite <- Z.land_assoc; f_equal).
  assert (Z.land (Z.shiftr (Z.land x (2 ^ 64 - 1)) 32) (2 ^ 32 - 1) = Z.land (Z.shiftr x 32) (2 ^ 32 - 1)) as H2
    by (rewrite Z.shiftr_land, <- Z.land_assoc; f_equal).
  unfold clz64. rewrite H1, H2. destruct (x =? 0) eqn:E; zb; [by subst|].
  destruct (Z.land x (2 ^ 64 - 1) =? 0) eqn:E2; zb; [|done].
  rewrite E2 in H1, H2. cbn in H1, H2. by rewrite <- H1, <- H2.
Qed.

(** * What the transport answers *)

Record tenv := mk_tenv {
  t_isConnected : option (Z → bool);        (** [None]: the transport has no such method *)
  t_boundPeers : option (option (list jsv));  (** [Some None]: it throws *)
  t_classOf : option (Z → option ChannelLedger.cls);
  t_isStale : option (Z → bool);
  t_pool : option ChannelLedger.profile;    (** the armed two-pool profile *)
  t_servingCapable : option (option bool);
  t_bridgeNode : option jsv
}.

Definition connOk (T : tenv) (id : Z) : bool := match t_isConnected T with Some f => f id | None => true end.
Definition poolArmed (T : tenv) : bool := match t_pool T with Some _ => true | None => false end.
Definition classOf (T : tenv) (id : Z) : option ChannelLedger.cls := t_classOf T ≫= λ f, f id.
Definition is_incoming (T : tenv) (id : Z) : bool :=
  match classOf T id with Some ChannelLedger.ClsI => true | _ => false end.
Definition isStalePeer (T : tenv) (id : Z) : bool := match t_isStale T with Some f => f id | None => false end.
Definition boundIds (T : tenv) : list Z :=
  match t_boundPeers T with
  | Some (Some l) => omap (λ v, match v with JBig z => Some z | _ => None end) l
  | _ => []
  end.

(** * The usable set *)

Inductive pclass := PM | PI.
#[export] Instance pclass_eq_dec : EqDecision pclass.
Proof. solve_decision. Defined.
Record upeer := mk_upeer { u_id : Z; u_cls : pclass }.

Section usable.
Context (T : tenv) (N : node) (exclude : list Z).

(** The one filter, less the duplicate check. *)
Definition eligible_hop (filterStale : bool) (id : Z) : bool :=
  negb (id =? n_id N) && negb (bool_decide (id ∈ exclude)) && negb (dead N id) && connOk T id &&
  negb (filterStale && isStalePeer T id).

Definition scanM (acc : list Z * list upeer) (s : synapse) : list Z * list upeer :=
  let id := s_peerId s in
  let '(seen, out) := acc in
  (id :: seen, if negb (bool_decide (id ∈ seen)) && eligible_hop (poolArmed T) id then out ++ [mk_upeer id PM] else out).

Definition scanI (acc : list Z * list upeer) (id : Z) : list Z * list upeer :=
  let '(seen, out) := acc in
  if bool_decide (id ∈ seen) || hasSynapse N id then acc
  else if negb (is_incoming T id) then acc
  else (id :: seen, if eligible_hop true id then out ++ [mk_upeer id PI] else out).

Definition usablePeers : list upeer :=
  let acc := foldl scanM ([], []) (synapses N) in
  match t_classOf T, t_boundPeers T with
  | Some _, Some _ => (foldl scanI acc (boundIds T)).2
  | _, _ => acc.2
  end.
End usable.

(** What the iterator promises to every selector: no id twice, each one usable, and
    every usable peer of the table or of the incoming class. *)
Section usable_facts.
Context (T : tenv) (N : node) (exclude : list Z).

Definition stale_filter (c : pclass) : bool := match c with PM => poolArmed T | PI => true end.
Definition usable_entry (u : upeer) : Prop := eligible_hop T N exclude (stale_filter (u_cls u)) (u_id u) = true.

Record scanned (acc : list Z * list upeer) : Prop := {
  sc_nodup : NoDup (u_id <$> acc.2);
  sc_seen : ∀ u, u ∈ acc.2 → u_id u ∈ acc.1;
  sc_ok : ∀ u, u ∈ acc.2 → usable_entry u
}.

Lemma scanned_add acc u :
  scanned acc → u_id u ∉ acc.1 → usable_entry u → scanned (u_id u :: acc.1, acc.2 ++ [u]).
Proof.
  intros [H1 H2 H3] Hn Hu. split; cbn [fst snd].
  - rewrite fmap_app. apply NoDup_app. split_and!; [done| |apply NoDup_singleton].
    intros i Hi Hin. apply list_elem_of_singleton in Hin. subst i. apply list_elem_of_fmap in Hi as (v & Hv & Hin).
    apply Hn. rewrite Hv. by apply H2.
  - intros v [Hv|Hv]%elem_of_app; [right; by apply H2|]. apply list_elem_of_singleton in Hv as ->. left.
  - intros v [Hv|Hv]%elem_of_app; [by apply H3|]. by apply list_elem_of_singleton in Hv as ->.
Qed.

Lemma scanned_seen acc i : scanned acc → scanned (i :: acc.1, acc.2).
Proof. intros [H1 H2 H3]. split; [done| |done]. intros u Hu. right. by apply H2. Qed.

Lemma scanM_scanned acc s : scanned acc → scanned (scanM T N exclude acc s).
Proof.
  intros H. unfold scanM. destruct acc as [seen out]. cbn.
  destruct (bool_decide (s_peerId s ∈ seen)) eqn:E; cbn [negb andb]; [by apply (scanned_seen (seen, out))|].
  destruct (eligible_hop _ _ _ _ _) eqn:Eh; [|by apply (scanned_seen (seen, out))].
  apply bool_decide_eq_false in E. by apply (scanned_add (seen, out) (mk_upeer (s_peerId s) PM)).
Qed.

Lemma scanI_scanned acc i : scanned acc → scanned (scanI T N exclude acc i).
Proof.
  intros H. unfold scanI. destruct acc as [seen out].
  destruct (bool_decide (i ∈ seen)) eqn:E; cbn [orb]; [done|]. destruct (hasSynapse N i); [done|].
  destruct (negb _); [done|]. destruct (eligible_hop _ _ _ true i) eqn:Eh; [|by apply (scanned_seen (seen, out))].
  apply bool_decide_eq_false in E. by apply (scanned_add (seen, out) (mk_upeer i PI)).
Qed.

Lemma foldl_scanned {A} (F : list Z * list upeer → A → list Z * list upeer) l acc :
  (∀ acc x, scanned acc → scanned (F acc x)) → scanned acc → scanned (foldl F acc l).
Proof. intros HF. revert acc. induction l as [|x l IH]; intros acc H; [done|]. by apply IH, HF. Qed.

Lemma usable_scanned : ∃ seen, scanned (seen, usablePeers T N exclude).
Proof.
  assert (scanned (foldl (scanM T N exclude) ([], []) (synapses N))) as HM.
  { apply foldl_scanned; [apply scanM_scanned|]. split; cbn; [constructor|..]; intros u Hu; by apply elem_of_nil in Hu. }
  unfold usablePeers. destruct (t_classOf T), (t_boundPeers T).
  2-4: eexists; rewrite <- surjective_pairing; exact HM.
  eexists. rewrite <- surjective_pairing. apply foldl_scanned; [apply scanI_scanned|done].
Qed.

(** Folds that only append keep what is there. *)
Lemma foldl_grows {A} (F : list Z * list upeer → A → list Z * list upeer) l :
  (∀ acc x, (∀ i, i ∈ acc.1 → i ∈ (F acc x).1) ∧ (∀ u, u ∈ acc.2 → u ∈ (F acc x).2)) →
  ∀ acc, (∀ i, i ∈ acc.1 → i ∈ (foldl F acc l).1) ∧ (∀ u, u ∈ acc.2 → u ∈ (foldl F acc l).2).
Proof.
  intros HF. induction l as [|x l IH]; intros acc; [done|]. cbn.
  destruct (HF acc x) as [H1 H2], (IH (F acc x)) as [H3 H4]. split; auto.
Qed.

Lemma scanM_grows acc s : (∀ i, i ∈ acc.1 → i ∈ (scanM T N exclude acc s).1) ∧
  (∀ u, u ∈ acc.2 → u ∈ (scanM T N exclude acc s).2).
Proof.
  destruct acc as [seen out]. cbn. split; [intros; by right|]. intros u Hu. destruct (_ && _); [|done].
  apply elem_of_app; by left.
Qed.

Lemma scanI_grows acc i : (∀ j, j ∈ acc.1 → j ∈ (scanI T N exclude acc i).1) ∧
  (∀ u, u ∈ acc.2 → u ∈ (scanI T N exclude acc i).2).
Proof.
  destruct acc as [seen out]. cbn. destruct (_ || _); [done|]. destruct (negb _); [done|]. cbn.
  split; [intros; by right|]. intros u Hu. destruct (eligible_hop _ _ _ _ _); [|done]. apply elem_of_app; by left.
Qed.

(** Every id of the scan that passes the filter is listed, unless it was seen and
    refused before under the same filter. *)
Lemma scanM_complete l : ∀ seen out s,
  (∀ i, i ∈ seen → i ∈ u_id <$> out ∨ eligible_hop T N exclude (poolArmed T) i = false) →
  s ∈ l → eligible_hop T N exclude (poolArmed T) (s_peerId s) = true →
  s_peerId s ∈ u_id <$> (foldl (scanM T N exclude) (seen, out) l).2.
Proof.
  induction l as [|x l IH]; intros seen out s Hseen Hin Hs; [by apply elem_of_nil in Hin|]. cbn [foldl].
  destruct (scanM T N exclude (seen, out) x) as [seen' out'] eqn:E.
  assert (∀ i, i ∈ seen' → i ∈ u_id <$> out' ∨ eligible_hop T N exclude (poolArmed T) i = false) as Hseen'.
  { cbn in E. injection E as <- <-. intros i Hi.
    destruct (bool_decide (s_peerId x ∈ seen)) eqn:Eb; cbn [negb andb].
    - apply bool_decide_eq_true in Eb. apply elem_of_cons in Hi as [->|Hi]; by apply Hseen.
    - destruct (eligible_hop T N exclude (poolArmed T) (s_peerId x)) eqn:Eh.
      + rewrite fmap_app, elem_of_app. apply elem_of_cons in Hi as [->|Hi]; [left; right; by left|].
        destruct (Hseen i Hi); [left; by left|by right].
      + apply elem_of_cons in Hi as [->|Hi]; [by right|by apply Hseen]. }
  apply elem_of_cons in Hin as [->|Hin]; [|by apply IH].
  assert (s_peerId x ∈ seen') as Hx by (cbn in E; injection E as <- <-; by left).
  destruct (Hseen' _ Hx) as [Hl|Hl]; [|congruence].
  apply list_elem_of_fmap in Hl as (u & Hu & Hl). apply list_elem_of_fmap. exists u. split; [done|].
  by apply (foldl_grows (scanM T N exclude) l scanM_grows).
Qed.

Lemma usable_M s : s ∈ synapses N → eligible_hop T N exclude (poolArmed T) (s_peerId s) = true →
  s_peerId s ∈ u_id <$> usablePeers T N exclude.
Proof.
  intros Hin Hs.
  assert (s_peerId s ∈ u_id <$> (foldl (scanM T N exclude) ([], []) (synapses N)).2) as H.
  { apply scanM_complete; [|done..]. intros i Hi. by apply elem_of_nil in Hi. }
  unfold usablePeers. destruct (t_classOf T), (t_boundPeers T); try done.
  apply list_elem_of_fmap in H as (u & Hu & Hl). apply list_elem_of_fmap. exists u. split; [done|].
  by apply (foldl_grows (scanI T N exclude) (boundIds T) scanI_grows).
Qed.

Lemma usable_nodup : NoDup (u_id <$> usablePeers T N exclude).
Proof. destruct usable_scanned as [seen H]. apply H. Qed.

Lemma usable_ok u : u ∈ usablePeers T N exclude →
  u_id u ≠ n_id N ∧ u_id u ∉ exclude ∧ dead N (u_id u) = false ∧ connOk T (u_id u) = true ∧
  (u_cls u = PI ∨ poolArmed T = true → isStalePeer T (u_id u) = false).
Proof.
  intros Hu. destruct usable_scanned as [seen H]. pose proof (sc_ok _ H u Hu) as He. unfold usable_entry, eligible_hop in He.
  rewrite !andb_true_iff, !negb_true_iff, andb_false_iff in He. destruct He as ((((H1 & H2) & H3) & H4) & H5).
  split_and!; [lia|by apply bool_decide_eq_false in H2|done|done|].
  intros Hc. destruct H5 as [H5|]; [|done]. unfold stale_filter in H5.
  destruct (u_cls u); destruct Hc; congruence.
Qed.
End usable_facts.
