(* ===== verification/Routing.v ===== *)
(** Routing.v - routed messages (src/src/dht/AxonaPeer.js): the greedy choice
    ([_greedyNextHopToward]), the fallback of a node that cannot serve
    ([_capableFallbackHop]), the two-hop lookahead ([_findCloserInTwoHops]), the
    probe handlers ([lookahead_probe], [find_closest_set], [local_probe]) and the
    [route_msg] forwarder with its path memory.

    A handler that awaits is split at its awaits: what the transport answers before
    and after is a separate [tenv], what a probe or a send answers is an argument.
    Counters, traces and logs are not modelled; nor is the [sim] path without ids. *)
From stdpp Require Import base gmap sets list strings sorting.
From Stdlib Require Import ZArith Lia Sorting.Sorted.
From S2P Require Import Prelude HexId PeerTable.
From S2P Require DeadPeers.
#[local] Open Scope Z_scope.
#[local] Open Scope js_scope.

Definition dist (a t : Z) : Z := Z.lxor a t.
Definition idOf (v : jsv) : option Z := catch (asId production v).

(** * Selection *)

(** [d < bestDist] over a list, the first of the closest kept. *)
Definition closer_step (target : Z) (acc : option Z * Z) (id : Z) : option Z * Z :=
  let d := dist id target in if d <? acc.2 then (Some id, d) else acc.
Definition closest_below (target bound : Z) (ids : list Z) : option Z :=
  (foldl (closer_step target) (None, bound) ids).1.

Definition greedyNextHopToward (T : tenv) (N : node) (target : Z) : option Z :=
  if n_alive N then closest_below target (dist (n_id N) target) (u_id <$> usablePeers T N []) else None.

(** [bestDist === null || d < bestDist] *)
Definition nearest_step (target : Z) (acc : option Z) (id : Z) : option Z :=
  match acc with
  | None => Some id
  | Some b => if dist id target <? dist b target then Some id else acc
  end.
Definition nearest (target : Z) (ids : list Z) : option Z := foldl (nearest_step target) None ids.

Definition hop_ok (T : tenv) (N : node) (exclude : list Z) (id : Z) : bool := eligible_hop T N exclude false id.

Definition capableFallbackHop (T : tenv) (N : node) (target : Z) (exclude : list Z) : option Z :=
  match t_bridgeNode T ≫= idOf with
  | Some b => if hop_ok T N exclude b then Some b else nearest target (u_id <$> usablePeers T N exclude)
  | None => nearest target (u_id <$> usablePeers T N exclude)
  end.

Definition servingCapable (T : tenv) : bool :=
  match t_servingCapable T with None => true | Some None => false | Some (Some b) => b end.

(** * The two-hop lookahead *)

(** What a probe answered, and the order in which the answers came in. *)
Inductive probe_reply := PR_rejected | PR_terminal | PR_named (peerId : jsv).

(** The free pass: usable incoming peers, then the reverse index. *)
Definition freePass (T : tenv) (N : node) (exclude : list Z) (target : Z) : option Z :=
  let my := dist (n_id N) target in
  let I := u_id <$> filter (λ u, u_cls u = PI) (usablePeers T N exclude) in
  let rev := filter (λ id, hop_ok T N exclude id = true) (s_peerId <$> (incoming N).*2) in
  closest_below target my (I ++ rev).

Definition probeTargets (T : tenv) (N : node) (exclude : list Z) : list Z :=
  let usable := usablePeers T N exclude in
  let usableM := u_id <$> filter (λ u, u_cls u = PM) usable in
  filter (λ id, negb (dead N id) && connOk T id && negb (bool_decide (id ∈ exclude)) && bool_decide (id ∈ usableM) = true)
    (s_peerId <$> synapses N) ++
  (u_id <$> filter (λ u, u_cls u = PI) usable).

(** The round locks on the first reply that names a node closer than self. *)
Fixpoint lookaheadRound (target my : Z) (arrivals : list (Z * probe_reply)) : option (Z * Z) :=
  match arrivals with
  | [] => None
  | (first, PR_named v) :: rest =>
      match idOf v with
      | Some via => if dist via target <? my then Some (first, via) else lookaheadRound target my rest
      | None => lookaheadRound target my rest
      end
  | _ :: rest => lookaheadRound target my rest
  end.

(** [arrivals]: the replies of the probes sent, in the order they settled, up to
    [LOOKAHEAD_MS]. *)
Definition findCloserInTwoHops (T : tenv) (N : node) (exclude : list Z) (target : Z)
    (arrivals : list (Z * probe_reply)) : option (Z * option Z) :=
  let my := dist (n_id N) target in
  if my =? 0 then None
  else match freePass T N exclude target with
  | Some first => Some (first, None)
  | None =>
      let targets := probeTargets T N exclude in
      match lookaheadRound target my (filter (λ a, a.1 ∈ targets) arrivals) with
      | Some (first, via) => Some (first, Some via)
      | None => None
      end
  end.

(** * Probe handlers *)

Record ahead := mk_ahead { la_peerId : Z; la_latency : num; la_terminal : bool }.

Definition on_lookahead_probe (N : node) (target fromDist : Z) : js_result ahead :=
  let fwd := filter (λ s, dist (s_peerId s) target < fromDist) (synapses N) in
  match fwd with
  | [] => Ok (mk_ahead (n_id N) (num_of 0) true)
  | _ => match bestByAP N fwd target (num_of 0) with
         | Some s => Ok (mk_ahead (s_peerId s) (s_latency s) false)
         | None => Throw typeError
         end
  end.

(** Insertion before the first entry that is not strictly nearer. *)
Fixpoint insert_near (target : Z) (p : Z) (top : list Z) : list Z :=
  match top with
  | [] => [p]
  | q :: top' => if dist q target <? dist p target then q :: insert_near target p top' else p :: top
  end.
(** [top[K - 1].d] throws when there is no such entry. *)
Definition closest_set_step (target K : Z) (top : list Z) (p : Z) : js_result (list Z) :=
  if Z.of_nat (length top) <? K then Ok (insert_near target p top)
  else match (if K <=? 0 then None else top !! Z.to_nat (K - 1)) with
  | Some q => Ok (if dist p target <? dist q target then removelast (insert_near target p top) else top)
  | None => Throw typeError
  end.
Fixpoint closest_set (target K : Z) (top ids : list Z) : js_result (list Z) :=
  match ids with
  | [] => Ok top
  | p :: ids => top ← closest_set_step target K top p; closest_set target K top ids
  end.
Definition on_find_closest_set (N : node) (target : jsv) (K : Z) : js_result (list Z) :=
  t ← asId production target; closest_set t K [] (s_peerId <$> synapses N).

Definition LOCAL_PROBE_MAX : nat := 8.
Definition on_local_probe (N : node) (fromId : jsv) : js_result (list Z) :=
  from ← asId production fromId;
  let ids := filter (λ i, i ≠ from) (s_peerId <$> synapses N) in
  Ok (if (LOCAL_PROBE_MAX <? length ids)%nat then take LOCAL_PROBE_MAX (sort_by (λ i, dist i from) ids) else ids).

(** * The forwarder *)

Record rconfig := mk_rconfig { MAX_HOPS : Z; PATH_MEMORY : Z; LOOKUP_RESELECT : bool; RETURN_ROUTE : bool }.
Definition rconfig0 : rconfig := mk_rconfig 40 8 false false.
Definition SIGNAL_RPATH_MAX : Z := 16.
Definition RETURN_ROUTE_REQUESTS : list string :=
  ["pubsub:sub"; "pubsub:mergeoffer"; "pubsub:pullup"; "pubsub:replayup"; "pubsub:pull"].

Record frame := mk_frame {
  fr_type : string;
  fr_target : Z;                 (** [asId(targetId)] *)
  fr_hops : Z; fr_origin : option string;
  fr_path : list string;         (** the string entries of [path] *)
  fr_via : option jsv; fr_rpath : list jsv
}.

(** [l.slice(-n)]: the whole list at 0. *)
Definition slice_last {A} (n : Z) (l : list A) : list A :=
  if n <=? 0 then l else drop (length l - Z.to_nat n) l.

Definition pathMem (c : rconfig) (ty : string) : Z :=
  let m := if 0 <? PATH_MEMORY c then PATH_MEMORY c else 8 in
  if bool_decide (ty = "mesh:signal") || (RETURN_ROUTE c && bool_decide (ty ∈ RETURN_ROUTE_REQUESTS))
  then Z.max m SIGNAL_RPATH_MAX else m.

(** The nodes no hop of this frame may be forwarded to. *)
Definition pathExclude (N : node) (fromId : option jsv) (f : frame) : list Z :=
  omap (λ h, idOf (JStr h)) (fr_path f) ++
  (match fr_path f, fromId with [], Some v => option_list (idOf v) | _, _ => [] end) ++ [n_id N].

Definition held_or_connected (T : tenv) (N : node) (id : Z) : bool :=
  match t_isConnected T with Some c => c id | None => hasSynapse N id end.
(** The test of a committed hop ([via], a return route). *)
Definition commit_ok (T : tenv) (N : node) (exclude : list Z) (id : Z) : bool :=
  negb (id =? n_id N) && negb (bool_decide (id ∈ exclude)) && negb (dead N id) && held_or_connected T N id.

Record choice := mk_choice { ch_next : Z; ch_via : option Z; ch_rest : list jsv }.

Definition return_hop (T : tenv) (N : node) (exclude : list Z) (f : frame) : option choice :=
  match fr_rpath f with
  | v :: rest =>
      match idOf v with
      | Some rp => if commit_ok T N exclude rp then Some (mk_choice rp None (take (Z.to_nat SIGNAL_RPATH_MAX - 1) rest)) else None
      | None => None
      end
  | [] => None
  end.
Definition via_hop (T : tenv) (N : node) (exclude : list Z) (f : frame) : option choice :=
  match fr_via f ≫= idOf with
  | Some v => if commit_ok T N exclude v then Some (mk_choice v None []) else None
  | None => None
  end.
Definition greedy_hop (T : tenv) (N : node) (exclude : list Z) (target : Z) : option choice :=
  (λ h, mk_choice h None []) <$> closest_below target (dist (n_id N) target) (u_id <$> usablePeers T N exclude).
Definition ahead_hop (T : tenv) (N : node) (exclude : list Z) (target : Z) (arrivals : list (Z * probe_reply)) : option choice :=
  match findCloserInTwoHops T N exclude target arrivals with
  | Some (first, via) => if first =? n_id N then None else Some (mk_choice first via [])
  | None => None
  end.

(** The hop this node would forward to; [None]: the walk would end here. *)
Definition select (T : tenv) (N : node) (fromId : option jsv) (f : frame) (arrivals : list (Z * probe_reply)) : option choice :=
  let exclude := pathExclude N fromId f in
  let c := match return_hop T N exclude f with
           | Some c => Some c
           | None => match via_hop T N exclude f with
                     | Some c => Some c
                     | None => match greedy_hop T N exclude (fr_target f) with
                               | Some c => Some c
                               | None => ahead_hop T N exclude (fr_target f) arrivals
                               end
                     end
           end in
  match c with
  | Some c => if bool_decide (ch_next c ∈ exclude) then None else Some c
  | None => None
  end.

Inductive outcome :=
| O_consumed
| O_terminal
| O_exhausted (stopped : option string)
| O_forward (next : Z) (f : frame).

(** The meta handed to the local handler. *)
Definition meta_terminal (T : tenv) (c : option choice) : bool :=
  match c with None => servingCapable T | Some _ => false end.

Definition next_frame (cf : rconfig) (N : node) (f : frame) (c : choice) : frame :=
  mk_frame (fr_type f) (fr_target f) (fr_hops f + 1) (fr_origin f)
    (slice_last (pathMem cf (fr_type f) - 1) (fr_path f) ++ [idHex (n_id N)])
    (JBig <$> ch_via c) (ch_rest c).

(** What the handler's first attempt does, the local handler having answered
    [consumed]; [T1] and [N1] are the transport and the tables by then. *)
Definition decide_hop (cf : rconfig) (T1 : tenv) (N1 N : node) (fromId : option jsv) (f : frame)
    (c : option choice) (capable consumed : bool) : outcome + choice :=
  if consumed then inl O_consumed
  else match c with
  | Some c => if MAX_HOPS cf <=? fr_hops f + 1 then inl (O_exhausted None) else inr c
  | None =>
      if capable then inl O_terminal
      else match capableFallbackHop T1 N1 (fr_target f) (pathExclude N fromId f) with
      | None => inl (O_exhausted (Some "no-capable-terminal"))
      | Some fb => if MAX_HOPS cf <=? fr_hops f + 1 then inl (O_exhausted None) else inr (mk_choice fb None [])
      end
  end.

(** One attempt at the send: the transport and the tables after the open, and how the
    send ended. *)
Inductive sent := Answered | Threw (edgeLoss : bool).
Record attempt := mk_attempt { at_T : tenv; at_N : node; at_send : sent }.

Definition reselect (T : tenv) (N : node) (me : Z) (exclude tried : list Z) (target : Z) : option Z :=
  closest_below target (dist me target) (filter (λ i, i ∉ tried) (u_id <$> usablePeers T N exclude)).

(** The send loop, over the attempts the transport answers; [None]: still sending. *)
Fixpoint send_loop (cf : rconfig) (N : node) (exclude tried : list Z) (f : frame) (c : choice) (ats : list attempt)
    : option outcome :=
  match ats with
  | [] => None
  | a :: ats =>
      let retry := λ why,
        match reselect (at_T a) (at_N a) (n_id N) exclude (ch_next c :: tried) (fr_target f) with
        | Some n => send_loop cf N exclude (ch_next c :: tried) f (mk_choice n None []) ats
        | None => Some (O_exhausted why)
        end in
      if LOOKUP_RESELECT cf && negb (connOk (at_T a) (ch_next c)) then retry (Some "no-live-hop")
      else match at_send a with
      | Answered => Some (O_forward (ch_next c) (next_frame cf N f c))
      | Threw loss => if LOOKUP_RESELECT cf && loss then retry None else Some (O_exhausted None)
      end
  end.

(** The handler, its awaits answered. *)
Definition on_route_msg (cf : rconfig) (T T1 : tenv) (N N1 : node) (fromId : option jsv) (f : frame)
    (arrivals : list (Z * probe_reply)) (consumed : bool) (ats : list attempt) : option outcome :=
  let c := select T N fromId f arrivals in
  match decide_hop cf T1 N1 N fromId f c (meta_terminal T c) consumed with
  | inl o => Some o
  | inr c => send_loop cf N (pathExclude N fromId f) [] f c ats
  end.

(** [routeMessage]: the originator. Its return route needs a transport that reports
    connections, its path is itself, and it does not count hops against [MAX_HOPS]. *)
Definition origin_frame (type : string) (target : Z) (origin : string) : frame :=
  mk_frame type target 0 (Some origin) [] None [].
Definition origin_return (T : tenv) (N : node) (rpath : list jsv) : option choice :=
  match rpath, t_isConnected T with
  | v :: rest, Some conn =>
      match idOf v with
      | Some f => if negb (f =? n_id N) && conn f then Some (mk_choice f None (take (Z.to_nat SIGNAL_RPATH_MAX - 1) rest)) else None
      | None => None
      end
  | _, _ => None
  end.
Definition origin_select (T : tenv) (N : node) (target : Z) (rpath : list jsv) (arrivals : list (Z * probe_reply)) : option choice :=
  match origin_return T N rpath with
  | Some c => Some c
  | None => match greedyNextHopToward T N target with
            | Some h => Some (mk_choice h None [])
            | None => ahead_hop T N [n_id N] target arrivals
            end
  end.
Definition routeMessage (cf : rconfig) (T T1 : tenv) (N N1 : node) (targetId : jsv) (type : string) (fromId : option string)
    (rpath : list jsv) (arrivals : list (Z * probe_reply)) (consumed : bool) (ats : list attempt) : js_result (option outcome) :=
  match targetId with
  | JBig target =>
      let f := origin_frame type target (default (idHex (n_id N)) fromId) in
      let c := origin_select T N target rpath arrivals in
      let go := λ c, send_loop cf N [n_id N] [] f c ats in
      Ok (if consumed then Some O_consumed
          else match c with
          | Some c => go c
          | None =>
              if servingCapable T then Some O_terminal
              else match capableFallbackHop T1 N1 target [n_id N] with
              | None => Some (O_exhausted (Some "no-capable-terminal"))
              | Some fb => go (mk_choice fb None [])
              end
          end)
  | _ => Throw typeError
  end.

(** * Facts about the selectors *)

Lemma closer_fold target bound l : ∀ b d,
  (∀ x, b = Some x → d = dist x target ∧ d < bound) → (b = None → d = bound) → d ≤ bound →
  let r := foldl (closer_step target) (b, d) l in
  (∀ x, r.1 = Some x → r.2 = dist x target ∧ r.2 < bound ∧ (x ∈ l ∨ b = Some x)) ∧
  (r.1 = None → r.2 = bound) ∧ r.2 ≤ d ∧ (∀ y, y ∈ l → r.2 ≤ dist y target).
Proof.
  induction l as [|z l IH]; intros b d H1 H2 Hd; cbn [foldl].
  { cbn. split_and!; [|done|lia|intros y Hy; by apply elem_of_nil in Hy]. intros x ->. destruct (H1 x eq_refl). split_and!; [done|lia|by right]. }
  destruct (dist z target <? d) eqn:E;
    [replace (closer_step target (b, d) z) with (Some z, dist z target) by (unfold closer_step; cbn; by rewrite E)
    |replace (closer_step target (b, d) z) with (b, d) by (unfold closer_step; cbn; by rewrite E)]; zb.
  - destruct (IH (Some z) (dist z target)) as (I1 & I2 & I3 & I4); [|done|lia|].
    { intros x [= ->]. split; [done|lia]. }
    split_and!; [|done|lia|].
    + intros x Hx. destruct (I1 x Hx) as (J1 & J2 & [J3|[= ->]]); split_and!; try done; left; [by right|by left].
    + intros y [->|Hy]%elem_of_cons; [lia|by apply I4].
  - destruct (IH b d H1 H2 Hd) as (I1 & I2 & I3 & I4). split_and!; [|done|done|].
    + intros x Hx. destruct (I1 x Hx) as (J1 & J2 & [J3|J3]); split_and!; try done; [left; by right|by right].
    + intros y [->|Hy]%elem_of_cons; [lia|by apply I4].
Qed.

Lemma closest_below_Some target bound ids x : closest_below target bound ids = Some x →
  x ∈ ids ∧ dist x target < bound ∧ ∀ y, y ∈ ids → dist x target ≤ dist y target.
Proof.
  intros H. destruct (closer_fold target bound ids None bound) as (I1 & _ & _ & I4); [done..|].
  destruct (I1 x H) as (J1 & J2 & [J3|J3]); [|done]. rewrite J1 in J2. split_and!; [done..|].
  intros y Hy. rewrite <- J1. by apply I4.
Qed.

Lemma closest_below_None target bound ids : closest_below target bound ids = None →
  ∀ y, y ∈ ids → bound ≤ dist y target.
Proof.
  intros H y Hy. destruct (closer_fold target bound ids None bound) as (_ & I2 & _ & I4); [done..|].
  rewrite <- (I2 H). by apply I4.
Qed.

Lemma nearest_fold target l : ∀ b,
  match foldl (nearest_step target) b l with
  | Some x => (x ∈ l ∨ b = Some x) ∧ (∀ y, y ∈ l ∨ b = Some y → dist x target ≤ dist y target)
  | None => b = None ∧ l = []
  end.
Proof.
  induction l as [|z l IH]; intros b; cbn [foldl].
  { destruct b as [x|]; [|done]. split; [by right|]. intros y [Hy|[= ->]]; [by apply elem_of_nil in Hy|lia]. }
  specialize (IH (nearest_step target b z)). destruct (foldl _ _ l) as [x|]; cbn in *.
  - destruct IH as [I1 I2]. destruct b as [w|]; cbn in *.
    + destruct (dist z target <? dist w target) eqn:E; zb; split.
      * destruct I1 as [I1|[= ->]]; left; [by right|by left].
      * intros y [[->|Hy]%elem_of_cons|[= ->]]; [by apply I2; right|by apply I2; left|].
        specialize (I2 z (or_intror eq_refl)). lia.
      * destruct I1 as [I1|I1]; [left; by right|by right].
      * intros y [[->|Hy]%elem_of_cons|Hy]; [|by apply I2; left|by apply I2; right].
        specialize (I2 w (or_intror eq_refl)). lia.
    + split; [destruct I1 as [I1|[= ->]]; left; [by right|by left]|].
      intros y [[->|Hy]%elem_of_cons|]; [by apply I2; right|by apply I2; left|done].
  - destruct IH as [IH _]. destruct b as [w|]; cbn in IH; [by destruct (_ <? _)|done].
Qed.

Lemma nearest_Some target ids x : nearest target ids = Some x →
  x ∈ ids ∧ ∀ y, y ∈ ids → dist x target ≤ dist y target.
Proof.
  intros H. pose proof (nearest_fold target ids None) as I. unfold nearest in H. rewrite H in I.
  destruct I as [[I1|] I2]; [|done]. split; [done|]. intros y Hy. apply I2. by left.
Qed.

Lemma eligible_hop_facts T N exclude b id : eligible_hop T N exclude b id = true →
  id ≠ n_id N ∧ id ∉ exclude ∧ dead N id = false ∧ connOk T id = true.
Proof.
  unfold eligible_hop. rewrite !andb_true_iff, !negb_true_iff. intros [[[[H1 H2] H3] H4] _].
  split_and!; [lia|by apply bool_decide_eq_false in H2|done..].
Qed.

(** What every hop of a forward satisfies. *)
Definition hop_fresh (T : tenv) (N : node) (exclude : list Z) (id : Z) : Prop :=
  id ≠ n_id N ∧ id ∉ exclude ∧ dead N id = false ∧ connOk T id = true.

Lemma usable_fresh T N exclude id : id ∈ u_id <$> usablePeers T N exclude → hop_fresh T N exclude id.
Proof.
  intros (u & -> & Hu)%list_elem_of_fmap. destruct (usable_ok T N exclude u Hu) as (H1 & H2 & H3 & H4 & _). done.
Qed.

Lemma usable_I_fresh T N exclude id :
  id ∈ u_id <$> filter (λ u, u_cls u = PI) (usablePeers T N exclude) → hop_fresh T N exclude id.
Proof.
  intros (u & -> & Hu)%list_elem_of_fmap. apply list_elem_of_filter in Hu as [_ Hu].
  apply usable_fresh. apply list_elem_of_fmap. by exists u.
Qed.

Lemma commit_fresh T N exclude id : commit_ok T N exclude id = true →
  hop_fresh T N exclude id ∧ (t_isConnected T = None → hasSynapse N id = true).
Proof.
  unfold commit_ok, held_or_connected, hop_fresh, connOk. rewrite !andb_true_iff, !negb_true_iff.
  intros [[[H1 H2] H3] H4]. apply bool_decide_eq_false in H2. destruct (t_isConnected T); split_and!; try done; lia.
Qed.

Lemma freePass_fresh T N exclude target id : freePass T N exclude target = Some id →
  hop_fresh T N exclude id ∧ dist id target < dist (n_id N) target.
Proof.
  intros (H1 & H2 & _)%closest_below_Some. split; [|done].
  apply elem_of_app in H1 as [H1|H1]; [by apply usable_I_fresh in H1|].
  apply list_elem_of_filter in H1 as [H1 _]. by apply eligible_hop_facts in H1.
Qed.

Lemma probeTargets_fresh T N exclude id : id ∈ probeTargets T N exclude → hop_fresh T N exclude id.
Proof.
  unfold probeTargets. rewrite elem_of_app. intros [H|H]; [|by apply usable_I_fresh in H].
  apply list_elem_of_filter in H as [H _]. rewrite !andb_true_iff in H. destruct H as [_ H].
  apply bool_decide_eq_true in H. apply list_elem_of_fmap in H as (u & -> & Hu).
  apply list_elem_of_filter in Hu as [_ Hu]. apply usable_fresh. apply list_elem_of_fmap. by exists u.
Qed.

Lemma lookaheadRound_Some target my l first via : lookaheadRound target my l = Some (first, via) →
  ∃ v, (first, PR_named v) ∈ l ∧ idOf v = Some via ∧ dist via target < my.
Proof.
  induction l as [|[p r] l IH]; [done|]. cbn.
  assert (lookaheadRound target my l = Some (first, via) →
    ∃ v, (first, PR_named v) ∈ (p, r) :: l ∧ idOf v = Some via ∧ dist via target < my) as IH'.
  { intros H. destruct (IH H) as (v & Hv & H'). exists v. split; [by right|done]. }
  destruct r as [| |v]; try exact IH'. destruct (idOf v) as [z|] eqn:Ev; [|exact IH'].
  destruct (dist z target <? my) eqn:E; [|exact IH']. intros [= <- <-]. zb.
  exists v. split_and!; [left|done|done].
Qed.

Lemma lookaheadRound_None target my l p v z : lookaheadRound target my l = None →
  (p, PR_named v) ∈ l → idOf v = Some z → my ≤ dist z target.
Proof.
  induction l as [|[q r] l IH]; [intros _ H; by apply elem_of_nil in H|]. cbn. intros H [[= <- <-]|Hin]%elem_of_cons Hz.
  - rewrite Hz in H. destruct (dist z target <? my) eqn:E; [done|]. zb. lia.
  - apply IH; try done. destruct r as [| |w]; try done. destruct (idOf w); [|done]. by destruct (_ <? my).
Qed.

Lemma findCloser_fresh T N exclude target arrivals first via :
  findCloserInTwoHops T N exclude target arrivals = Some (first, via) → hop_fresh T N exclude first.
Proof.
  unfold findCloserInTwoHops. destruct (_ =? 0); [done|]. destruct (freePass _ _ _ _) as [q|] eqn:Ef.
  { intros [= <- <-]. by apply freePass_fresh in Ef as [? _]. }
  destruct (lookaheadRound _ _ _) as [[p z]|] eqn:El; [|done]. intros [= <- <-].
  apply lookaheadRound_Some in El as (v & Hv & _). apply list_elem_of_filter in Hv as [Hv _].
  by apply probeTargets_fresh in Hv.
Qed.

Lemma select_fresh T N fromId f arrivals c : select T N fromId f arrivals = Some c →
  hop_fresh T N (pathExclude N fromId f) (ch_next c).
Proof.
  unfold select. set (ex := pathExclude N fromId f).
  destruct (return_hop T N ex f) as [c1|] eqn:E1; [|destruct (via_hop T N ex f) as [c2|] eqn:E2;
    [|destruct (greedy_hop T N ex (fr_target f)) as [c3|] eqn:E3; [|destruct (ahead_hop _ _ _ _ _) as [c4|] eqn:E4; [|done]]]];
  (destruct (bool_decide _); [done|]); intros [= <-].
  - unfold return_hop in E1. destruct (fr_rpath f) as [|v rest]; [done|]. destruct (idOf v); [|done].
    destruct (commit_ok _ _ _ _) eqn:Ec; [|done]. injection E1 as <-. by apply commit_fresh in Ec as [? _].
  - unfold via_hop in E2. destruct (fr_via f ≫= idOf); [|done].
    destruct (commit_ok _ _ _ _) eqn:Ec; [|done]. injection E2 as <-. by apply commit_fresh in Ec as [? _].
  - apply fmap_Some in E3 as (h & Hh & ->). apply closest_below_Some in Hh as (Hh & _). by apply usable_fresh.
  - unfold ahead_hop in E4. destruct (findCloserInTwoHops _ _ _ _ _) as [[p z]|] eqn:Ef; [|done].
    destruct (p =? n_id N); [done|]. injection E4 as <-. by apply findCloser_fresh in Ef.
Qed.

Lemma fallback_fresh T N target exclude id : capableFallbackHop T N target exclude = Some id →
  hop_fresh T N exclude id.
Proof.
  unfold capableFallbackHop, hop_ok.
  assert (nearest target (u_id <$> usablePeers T N exclude) = Some id → hop_fresh T N exclude id) as Hn.
  { intros [H _]%nearest_Some. by apply usable_fresh. }
  destruct (t_bridgeNode T ≫= idOf) as [b|]; [|done]. destruct (eligible_hop _ _ _ _ b) eqn:E; [|done].
  intros [= <-]. by apply eligible_hop_facts in E.
Qed.

Lemma send_loop_forward cf N exclude f ats : ∀ tried c n f',
  send_loop cf N exclude tried f c ats = Some (O_forward n f') →
  (n = ch_next c ∧ f' = next_frame cf N f c) ∨
  (∃ a, a ∈ ats ∧ hop_fresh (at_T a) (at_N a) exclude n ∧ n ∉ tried ∧
    dist n (fr_target f) < dist (n_id N) (fr_target f) ∧ f' = next_frame cf N f (mk_choice n None [])).
Proof.
  induction ats as [|a ats IH]; intros tried c n f'; [done|]. cbn [send_loop].
  assert (∀ why, match reselect (at_T a) (at_N a) (n_id N) exclude (ch_next c :: tried) (fr_target f) with
    | Some m => send_loop cf N exclude (ch_next c :: tried) f (mk_choice m None []) ats
    | None => Some (O_exhausted why) end = Some (O_forward n f') → ∃ a', a' ∈ a :: ats ∧ hop_fresh (at_T a') (at_N a') exclude n ∧
    n ∉ tried ∧ dist n (fr_target f) < dist (n_id N) (fr_target f) ∧ f' = next_frame cf N f (mk_choice n None [])) as Hr.
  { intros why. destruct (reselect _ _ _ _ _ _) as [m|] eqn:Em; [|done].
    intros [[-> ->]|(a' & H1 & H2 & H3 & H4)]%IH.
    - cbn. apply closest_below_Some in Em as (Hm & Hlt & _). apply list_elem_of_filter in Hm as [Hm Hu].
      exists a. split_and!; [left|by apply usable_fresh|set_solver|done|done].
    - exists a'. split_and!; [by right|done|set_solver|apply H4..]. }
  destruct (_ && _); [intros H; right; by apply (Hr (Some "no-live-hop"))|].
  destruct (at_send a) as [|loss]; [intros [= <- <-]; by left|].
  destruct (_ && _); [intros H; right; by apply (Hr None)|done].
Qed.

(** A [route_msg] frame is forwarded only to a node that is not the forwarder, is
    not on the frame's path, and that carried no dead mark and was connected at one of the
    points where a hop was chosen; the frame that leaves
    counts one more hop, stays under [MAX_HOPS], keeps type, target and origin, and its
    path ends with the forwarder. *)
Theorem forward_is_fresh (cf : rconfig) (T T1 : tenv) (N N1 : node) (fromId : option jsv) (f f' : frame)
    (arrivals : list (Z * probe_reply)) (consumed : bool) (ats : list attempt) (n : Z) :
  on_route_msg cf T T1 N N1 fromId f arrivals consumed ats = Some (O_forward n f') →
  (n ≠ n_id N ∧ n ∉ pathExclude N fromId f) ∧
  (∃ T' N', (T', N') ∈ (T, N) :: (T1, N1) :: ((λ a, (at_T a, at_N a)) <$> ats) ∧
     connOk T' n = true ∧ dead N' n = false) ∧
  fr_hops f' = fr_hops f + 1 ∧ fr_hops f' < MAX_HOPS cf ∧
  (fr_type f', fr_target f', fr_origin f') = (fr_type f, fr_target f, fr_origin f) ∧
  last (fr_path f') = Some (idHex (n_id N)).
Proof.
  unfold on_route_msg. set (ex := pathExclude N fromId f).
  destruct (decide_hop _ _ _ _ _ _ _ _ _) as [o|c1] eqn:Ed.
  { intros [= ->]. unfold decide_hop in Ed. destruct consumed; [done|].
    destruct (select _ _ _ _ _) as [c|]; [by destruct (_ <=? _)|]. destruct (meta_terminal _ _); [done|].
    destruct (capableFallbackHop _ _ _ _); [|done]. by destruct (_ <=? _). }
  assert (∀ T' N' m, hop_fresh T' N' ex m → m ∉ ex ∧ m ≠ n_id N ∧ connOk T' m = true ∧ dead N' m = false) as Hx.
  { intros T' N' m (_ & H2 & H3 & H4). split_and!; try done. intros ->. apply H2.
    unfold ex, pathExclude. rewrite !elem_of_app. do 2 right. left. }
  assert ((∃ T' N', (T', N') ∈ [(T, N); (T1, N1)] ∧ hop_fresh T' N' ex (ch_next c1)) ∧ fr_hops f + 1 < MAX_HOPS cf) as [Hc Hm].
  { unfold decide_hop in Ed. destruct consumed; [done|].
    destruct (select T N fromId f arrivals) as [c|] eqn:Ec.
    - destruct (_ <=? _) eqn:E; [done|]. injection Ed as <-. zb. split; [|done]. exists T, N.
      split; [left|]. by apply (select_fresh T N fromId f arrivals).
    - destruct (meta_terminal _ _); [done|]. destruct (capableFallbackHop _ _ _ _) as [fb|] eqn:Ef; [|done].
      destruct (_ <=? _) eqn:E; [done|]. injection Ed as <-. zb. split; [|done]. exists T1, N1.
      split; [right; left|]. by apply fallback_fresh in Ef. }
  intros [[-> ->]|(a & Ha & Hf & _ & _ & ->)]%send_loop_forward.
  - destruct Hc as (T' & N' & HT & Hf). destruct (Hx _ _ _ Hf) as (H1 & H2 & H3 & H4).
    split_and!; [done..| |done|done|done|by apply last_snoc]. exists T', N'. split; [|done].
    apply elem_of_cons in HT as [->|HT]; [left|]. apply list_elem_of_singleton in HT as ->. right. left.
  - destruct (Hx _ _ _ Hf) as (H1 & H2 & H3 & H4). split_and!; [done..| |done|done|done|by apply last_snoc].
    exists (at_T a), (at_N a). split; [|done]. right. right. by apply (list_elem_of_fmap_2 (λ a, (at_T a, at_N a))).
Qed.

(** A walk ends here as a terminal only when the node can serve, no usable peer off
    the path is closer to the target, no lookahead reply of a probed peer named a node that is
    closer, and neither the return route nor the upstream commitment could be honoured. *)
Theorem terminal_is_local_minimum (cf : rconfig) (T T1 : tenv) (N N1 : node) (fromId : option jsv) (f : frame)
    (arrivals : list (Z * probe_reply)) (consumed : bool) (ats : list attempt) :
  let ex := pathExclude N fromId f in
  let my := dist (n_id N) (fr_target f) in
  on_route_msg cf T T1 N N1 fromId f arrivals consumed ats = Some O_terminal →
  servingCapable T = true ∧ consumed = false ∧
  (∀ id, id ∈ u_id <$> usablePeers T N ex → my ≤ dist id (fr_target f)) ∧
  (∀ id, id ∈ s_peerId <$> (incoming N).*2 → hop_ok T N ex id = true → my = 0 ∨ my ≤ dist id (fr_target f)) ∧
  (∀ first v via, first ∈ probeTargets T N ex → (first, PR_named v) ∈ arrivals → idOf v = Some via →
     my = 0 ∨ my ≤ dist via (fr_target f)) ∧
  return_hop T N ex f = None ∧ via_hop T N ex f = None.
Proof.
  cbn zeta. unfold on_route_msg. set (ex := pathExclude N fromId f). set (my := dist _ _).
  destruct (decide_hop _ _ _ _ _ _ _ _ _) as [o|c1] eqn:Ed.
  2: { intros H. exfalso. revert H. generalize (@nil Z) as tried. revert c1 Ed.
       assert (∀ ats tried c1, send_loop cf N ex tried f c1 ats ≠ Some O_terminal) as Hn.
       { clear. induction ats as [|a ats IH]; intros tried c1; [done|]. cbn [send_loop].
         destruct (_ && _); [destruct (reselect _ _ _ _ _ _); [apply IH|done]|].
         destruct (at_send a); [done|]. destruct (_ && _); [|done]. destruct (reselect _ _ _ _ _ _); [apply IH|done]. }
       intros c1 _ tried. apply Hn. }
  intros [= ->]. unfold decide_hop in Ed. destruct consumed; [done|].
  destruct (select T N fromId f arrivals) as [c|] eqn:Es; [by destruct (_ <=? _)|]. cbn [meta_terminal] in Ed.
  destruct (servingCapable T) eqn:Ecap; [|destruct (capableFallbackHop _ _ _ _); [by destruct (_ <=? _)|done]].
  assert (∀ c, hop_fresh T N ex (ch_next c) → (if bool_decide (ch_next c ∈ ex) then None else Some c) = Some c) as Hk.
  { intros c (_ & H & _). case_bool_decide; done. }
  unfold select in Es. fold ex in Es.
  destruct (return_hop T N ex f) as [c|] eqn:E1.
  { exfalso. rewrite Hk in Es; [done|]. unfold return_hop in E1. destruct (fr_rpath f); [done|]. destruct (idOf _); [|done].
    destruct (commit_ok _ _ _ _) eqn:Ec; [|done]. injection E1 as <-. by apply commit_fresh in Ec as [? _]. }
  destruct (via_hop T N ex f) as [c|] eqn:E2.
  { exfalso. rewrite Hk in Es; [done|]. unfold via_hop in E2. destruct (fr_via f ≫= idOf); [|done].
    destruct (commit_ok _ _ _ _) eqn:Ec; [|done]. injection E2 as <-. by apply commit_fresh in Ec as [? _]. }
  destruct (greedy_hop T N ex (fr_target f)) as [c|] eqn:E3.
  { exfalso. rewrite Hk in Es; [done|]. apply fmap_Some in E3 as (h & Hh & ->).
    apply closest_below_Some in Hh as (Hh & _). by apply usable_fresh. }
  destruct (ahead_hop T N ex (fr_target f) arrivals) as [c|] eqn:E4.
  { exfalso. rewrite Hk in Es; [done|]. unfold ahead_hop in E4.
    destruct (findCloserInTwoHops _ _ _ _ _) as [[p z]|] eqn:Ef; [|done]. destruct (p =? n_id N); [done|].
    injection E4 as <-. by apply findCloser_fresh in Ef. }
  unfold greedy_hop in E3. rewrite fmap_None in E3.
  assert (my ≠ 0 → freePass T N ex (fr_target f) = None ∧
    lookaheadRound (fr_target f) my (filter (λ a, a.1 ∈ probeTargets T N ex) arrivals) = None) as Ha.
  { intros Hmy. unfold ahead_hop, findCloserInTwoHops in E4. fold my in E4. rewrite (proj2 (Z.eqb_neq my 0) Hmy) in E4.
    destruct (freePass _ _ _ _) as [p|] eqn:Ef.
    { apply freePass_fresh in Ef as [(Hn & _) _]. by rewrite (proj2 (Z.eqb_neq _ _) Hn) in E4. }
    split; [done|]. destruct (lookaheadRound _ _ _) as [[p z]|] eqn:El; [|done].
    apply lookaheadRound_Some in El as (v & Hv & _). apply list_elem_of_filter in Hv as [Hv _].
    apply probeTargets_fresh in Hv as (Hn & _). cbn in Hn. by rewrite (proj2 (Z.eqb_neq p _) Hn) in E4. }
  split_and!; [done|done|by apply closest_below_None| | |done|done].
  - intros id Hid Hok. destruct (decide (my = 0)) as [|Hmy]; [by left|right]. destruct (Ha Hmy) as [Hf _].
    refine (closest_below_None _ _ _ Hf id _). apply elem_of_app. right. by apply list_elem_of_filter.
  - intros p v z Hp Hv Hz. destruct (decide (my = 0)) as [|Hmy]; [by left|right]. destruct (Ha Hmy) as [_ Hl].
    refine (lookaheadRound_None _ _ _ p v z Hl _ Hz). by apply list_elem_of_filter.
Qed.

(** * A walk over the network *)

Lemma idOf_idHex id : 0 ≤ id < 2 ^ 264 → idOf (JStr (idHex id)) = Some id.
Proof. intros H. by destruct (idHex_spec id H) as (? & _). Qed.

Lemma slice_last_suffix {A} n (pre l : list A) : Z.of_nat (length l) ≤ n ∨ n ≤ 0 →
  ∃ pre', slice_last n (pre ++ l) = pre' ++ l.
Proof.
  intros H. unfold slice_last. destruct (n <=? 0) eqn:E; zb; [by exists pre|].
  exists (drop (length (pre ++ l) - Z.to_nat n) pre). rewrite drop_app_le; [done|]. rewrite length_app. lia.
Qed.

Lemma pathMem_pos cf ty : 1 ≤ pathMem cf ty.
Proof.
  unfold pathMem, SIGNAL_RPATH_MAX. destruct (0 <? PATH_MEMORY cf) eqn:E; zb; destruct (_ || _); lia.
Qed.

Lemma NoDup_take_le {A} (a b : nat) (l : list A) : (a ≤ b)%nat → NoDup (take b l) → NoDup (take a l).
Proof.
  intros Hab H. rewrite <- (take_drop a (take b l)), take_take, Nat.min_l in H by done. by apply NoDup_app in H as (? & _).
Qed.

(** The nodes a frame of type [ty] went through, the last first, and where it was sent: from
    its originator on, or from a node that received it with [h0] hops. *)
Inductive walked (cf : rconfig) (h0 : Z) (ty : string) : list Z → frame → option Z → Prop :=
| walked_received f0 : fr_hops f0 = h0 → fr_type f0 = ty → walked cf h0 ty [] f0 None
| walked_origin N N1 T T1 targetId fromId rpath arrivals consumed ats n f' :
    h0 = 0 → 0 ≤ n_id N < 2 ^ 264 →
    routeMessage cf T T1 N N1 targetId ty fromId rpath arrivals consumed ats = Ok (Some (O_forward n f')) →
    walked cf h0 ty [n_id N] f' (Some n)
| walked_hop visited f at_ N N1 T T1 fromId arrivals consumed ats n f' :
    walked cf h0 ty visited f at_ → (∀ i, at_ = Some i → n_id N = i) → 0 ≤ n_id N < 2 ^ 264 →
    on_route_msg cf T T1 N N1 fromId f arrivals consumed ats = Some (O_forward n f') →
    walked cf h0 ty (n_id N :: visited) f' (Some n).

(** What the originator sends. *)
Lemma origin_forward cf T T1 N N1 targetId ty fromId rpath arrivals consumed ats n f' :
  routeMessage cf T T1 N N1 targetId ty fromId rpath arrivals consumed ats = Ok (Some (O_forward n f')) →
  n ≠ n_id N ∧ fr_hops f' = 1 ∧ fr_type f' = ty ∧ fr_path f' = [idHex (n_id N)].
Proof.
  unfold routeMessage. destruct targetId as [| |?|?| | |target|?|]; try done. intros [= H]. destruct consumed; [done|].
  assert (∀ c, ch_next c ≠ n_id N → send_loop cf N [n_id N] [] (origin_frame ty target (default (idHex (n_id N)) fromId)) c ats =
    Some (O_forward n f') → n ≠ n_id N ∧ fr_hops f' = 1 ∧ fr_type f' = ty ∧ fr_path f' = [idHex (n_id N)]) as Hgo.
  { intros c Hc [[-> ->]|(a & _ & (_ & Hn & _) & _ & _ & ->)]%send_loop_forward; (split; [|unfold next_frame, slice_last; cbn;
      by destruct (_ <=? 0)]); [done|]. intros ->. apply Hn. left. }
  destruct (origin_select T N target rpath arrivals) as [c|] eqn:Ec.
  - apply (Hgo c); [|done]. unfold origin_select in Ec. destruct (origin_return T N rpath) as [c1|] eqn:E1.
    + injection Ec as <-. unfold origin_return in E1. destruct rpath as [|v rest]; [done|]. destruct (t_isConnected T) as [conn|]; [|done].
      destruct (idOf v) as [x|]; [|done]. destruct (x =? n_id N) eqn:Ex; [done|]. cbn [negb andb] in E1.
      destruct (conn x); [|done]. injection E1 as <-. cbn. zb. done.
    + destruct (greedyNextHopToward T N target) as [h|] eqn:E2.
      * injection Ec as <-. cbn. unfold greedyNextHopToward in E2. destruct (n_alive N); [|done].
        apply closest_below_Some in E2 as (E2 & _). by apply usable_fresh in E2 as (? & _).
      * unfold ahead_hop in Ec. destruct (findCloserInTwoHops _ _ _ _ _) as [[p z]|]; [|done].
        destruct (p =? n_id N) eqn:Ep; [done|]. injection Ec as <-. cbn. zb. done.
  - destruct (servingCapable T); [done|]. destruct (capableFallbackHop _ _ _ _) as [fb|] eqn:Ef; [|done].
    apply (Hgo (mk_choice fb None [])); [|done]. apply fallback_fresh in Ef as (_ & Hx & _). cbn. intros ->. apply Hx. left.
Qed.

(** What the handler appends to the path. *)
Lemma forward_path cf T T1 N N1 fromId f f' arrivals consumed ats n :
  on_route_msg cf T T1 N N1 fromId f arrivals consumed ats = Some (O_forward n f') →
  n ∉ pathExclude N fromId f ∧ fr_hops f' = fr_hops f + 1 ∧ fr_hops f' < MAX_HOPS cf ∧ fr_type f' = fr_type f ∧
  fr_path f' = slice_last (pathMem cf (fr_type f) - 1) (fr_path f) ++ [idHex (n_id N)].
Proof.
  unfold on_route_msg. destruct (decide_hop _ _ _ _ _ _ _ _ _) as [o|c1] eqn:Ed.
  { intros [= ->]. unfold decide_hop in Ed. destruct consumed; [done|].
    destruct (select _ _ _ _ _) as [c|]; [by destruct (_ <=? _)|]. destruct (meta_terminal _ _); [done|].
    destruct (capableFallbackHop _ _ _ _); [|done]. by destruct (_ <=? _). }
  assert (ch_next c1 ∉ pathExclude N fromId f ∧ fr_hops f + 1 < MAX_HOPS cf) as [Hc Hm].
  { unfold decide_hop in Ed. destruct consumed; [done|]. destruct (select T N fromId f arrivals) as [c|] eqn:Ec.
    - destruct (_ <=? _) eqn:E; [done|]. injection Ed as <-. zb. split; [|done].
      by apply select_fresh in Ec as (_ & H & _).
    - destruct (meta_terminal _ _); [done|]. destruct (capableFallbackHop _ _ _ _) as [fb|] eqn:Ef; [|done].
      destruct (_ <=? _) eqn:E; [done|]. injection Ed as <-. zb. split; [|done]. by apply fallback_fresh in Ef as (_ & H & _). }
  intros [[-> ->]|(a & _ & (_ & Hn & _) & _ & _ & ->)]%send_loop_forward; by split_and!.
Qed.

Lemma walked_path cf h0 ty visited f at_ : walked cf h0 ty visited f at_ →
  fr_type f = ty ∧ fr_hops f = h0 + Z.of_nat (length visited) ∧
  (visited ≠ [] → fr_hops f < Z.max 2 (MAX_HOPS cf)) ∧ (∀ i, i ∈ visited → 0 ≤ i < 2 ^ 264) ∧
  ∃ pre, fr_path f = pre ++ reverse (idHex <$> take (Z.to_nat (pathMem cf ty)) visited).
Proof.
  induction 1 as [f0 Hh Ht|N N1 T T1 targetId fromId rpath arrivals consumed ats n f' -> Hr Hf
    |visited f at_ N N1 T T1 fromId arrivals consumed ats n f' Hw IH Hat Hr Hf]; pose proof (pathMem_pos cf ty) as Hp.
  { split_and!; [done|cbn; lia|done|intros i Hi; by apply elem_of_nil in Hi|]. exists (fr_path f0).
    rewrite take_nil. cbn. by rewrite app_nil_r. }
  { apply origin_forward in Hf as (_ & H2 & H3 & H4). split_and!; [done|cbn; lia|lia| |].
    - by intros i ->%list_elem_of_singleton.
    - exists []. destruct (Z.to_nat (pathMem cf ty)) as [|k] eqn:Ek; [lia|]. cbn. rewrite take_nil. exact H4. }
  destruct IH as (I1 & I2 & _ & I4 & pre & I5). apply forward_path in Hf as (_ & H2 & H3 & H4 & H5).
  split_and!; [congruence|cbn; lia|lia| |].
  { intros i [->|Hi]%elem_of_cons; [done|by apply I4]. }
  rewrite I1, I5 in H5. set (pm := pathMem cf ty) in *.
  destruct (Z.to_nat pm) as [|k] eqn:Ek; [lia|].
  assert (take (S k) visited = take k visited ++ drop k (take (S k) visited)) as Hs.
  { rewrite <- (take_drop k (take (S k) visited)) at 1. by rewrite take_take, Nat.min_l by lia. }
  rewrite Hs, fmap_app, reverse_app, app_assoc in H5.
  destruct (slice_last_suffix (pm - 1) (pre ++ reverse (idHex <$> drop k (take (S k) visited)))
    (reverse (idHex <$> take k visited))) as [pre' Hpre].
  { left. rewrite length_reverse, length_fmap, length_take. lia. }
  rewrite Hpre in H5. exists pre'. rewrite H5. cbn [take fmap list_fmap]. by rewrite reverse_cons, app_assoc.
Qed.

(** C20. Whatever the nodes on the way answer, a routed walk is short and does not circle: from its
    originator on, the hop count of the frame is the number of nodes it went through, it never
    reaches [MAX_HOPS] (of at least two), and any [PATH_MEMORY + 2] consecutive nodes of the walk,
    the originator and the next one included, are distinct. *)
Theorem walk_never_circles (cf : rconfig) (h0 : Z) (ty : string) (f : frame) (visited : list Z) (n : Z) :
  walked cf h0 ty visited f (Some n) →
  fr_hops f = h0 + Z.of_nat (length visited) ∧ fr_hops f < Z.max 2 (MAX_HOPS cf) ∧
  ∀ k, NoDup (take (Z.to_nat (pathMem cf ty) + 2) (drop k (n :: visited))).
Proof.
  intros Hw. assert (visited ≠ []) as Hv by (intros ->; inversion Hw).
  pose proof (walked_path _ _ _ _ _ _ Hw) as (_ & H2 & H3 & _ & _). split_and!; [done|by apply H3|]. clear H2 H3 Hv.
  assert (∀ visited f at_, walked cf h0 ty visited f at_ → ∀ l, l = (match at_ with Some n => [n] | None => [] end) ++ visited →
    (match at_ with Some i => True | None => visited = [] end) ∧
    ∀ k, NoDup (take (Z.to_nat (pathMem cf ty) + 2) (drop k l))) as Hall; [|by apply (Hall _ _ _ Hw _ eq_refl)].
  clear. induction 1 as [f0 Hh Ht|N N1 T T1 targetId fromId rpath arrivals consumed ats n f' -> Hr Hf
    |visited f at_ N N1 T T1 fromId arrivals consumed ats n f' Hw IH Hat Hr Hf]; intros l ->.
  { split; [done|]. intros k. cbn. rewrite drop_nil, take_nil. constructor. }
  { split; [done|]. intros k. apply origin_forward in Hf as (Hn & _).
    assert (NoDup ([n] ++ [n_id N])) as Hd.
    { constructor; [|apply NoDup_singleton]. by intros ->%list_elem_of_singleton. }
    rewrite <- (take_drop k) in Hd. apply NoDup_app in Hd as (_ & _ & Hd).
    rewrite <- (take_drop (Z.to_nat (pathMem cf ty) + 2) (drop k _)) in Hd. by apply NoDup_app in Hd as (? & _). }
  split; [done|]. pose proof (walked_path _ _ _ _ _ _ Hw) as (_ & _ & _ & I4 & pre & I5).
  apply forward_path in Hf as (Hn & _). set (pm := Z.to_nat (pathMem cf ty)) in *.
  assert (∀ k, NoDup (take (pm + 2) (drop k (n_id N :: visited)))) as Hprev.
  { destruct at_ as [i|]; [rewrite (Hat i eq_refl); by apply (IH _ eq_refl)|].
    destruct (IH _ eq_refl) as [-> _]. intros k. destruct k; cbn; [|by rewrite drop_nil, take_nil; constructor].
    destruct pm; cbn; rewrite ?take_nil; apply NoDup_singleton. }
  intros k. destruct k as [|k]; [|cbn [drop app]; apply Hprev]. cbn [drop app].
  replace (pm + 2)%nat with (S (S pm)) by lia. rewrite firstn_cons. constructor.
  - intros [->|Hin]%elem_of_cons; apply Hn; unfold pathExclude.
    + rewrite !elem_of_app. do 2 right. left.
    + rewrite !elem_of_app. left. apply list_elem_of_omap. exists (idHex n).
      assert (n ∈ visited) as Hvis by (rewrite <- (take_drop pm visited); apply elem_of_app; by left).
      split; [|by apply idOf_idHex, I4]. rewrite I5, elem_of_app, elem_of_reverse. right. by apply list_elem_of_fmap_2.
  - specialize (Hprev 0%nat). rewrite drop_0 in Hprev. apply (NoDup_take_le (S pm) (pm + 2)); [lia|done].
Qed.

(** * The K closest *)

Lemma dist_cancel a b t : dist a t = dist b t → a = b.
Proof. apply lxor_cancel. Qed.

Lemma insert_near_perm t p l : insert_near t p l ≡ₚ p :: l.
Proof.
  induction l as [|q l IH]; cbn; [done|]. destruct (_ <? _); [|done]. rewrite IH. apply Permutation_swap.
Qed.

Lemma insert_near_sorted t p l : StronglySorted (key_le (λ i, dist i t)) l →
  StronglySorted (key_le (λ i, dist i t)) (insert_near t p l).
Proof.
  induction 1 as [|q l Hs IH Hf]; cbn; [repeat constructor|]. destruct (dist q t <? dist p t) eqn:E; zb.
  - constructor; [done|]. rewrite insert_near_perm. constructor; [unfold key_le; lia|done].
  - constructor; [by constructor|]. constructor; [unfold key_le; lia|].
    eapply Forall_impl; [exact Hf|]. unfold key_le. cbn. lia.
Qed.

Lemma take_insert_near t p k l : take k (insert_near t p (take k l)) = take k (insert_near t p l).
Proof.
  revert k. induction l as [|q l IH]; intros k; [by rewrite take_nil|]. destruct k as [|k]; [done|].
  cbn. destruct (_ <? _); cbn; [by rewrite IH|]. f_equal. destruct k; [done|]. cbn. by rewrite take_take, Nat.min_l by lia.
Qed.

Lemma length_insert_near t p l : length (insert_near t p l) = S (length l).
Proof. by rewrite insert_near_perm. Qed.

Lemma near_sorted_unique t l1 l2 : StronglySorted (key_le (λ i, dist i t)) l1 →
  StronglySorted (key_le (λ i, dist i t)) l2 → l1 ≡ₚ l2 → l1 = l2.
Proof.
  apply StronglySorted_unique_strong. intros x y _ _ H1 H2. apply (dist_cancel _ _ t). unfold key_le in *. lia.
Qed.

(** Insertion into a list none of whose entries is farther is an append. *)
Lemma insert_near_far t p l : StronglySorted (key_le (λ i, dist i t)) l →
  (∀ x, x ∈ l → dist x t ≤ dist p t) → insert_near t p l = l ++ [p].
Proof.
  intros Hs Hall. apply (near_sorted_unique t); [by apply insert_near_sorted| |].
  - clear -Hs Hall. induction Hs as [|x l Hs IH Hf]; cbn; [repeat constructor|]. constructor.
    + apply IH. intros y Hy. apply Hall. by right.
    + apply Forall_app. split; [done|]. constructor; [|constructor]. apply Hall. left.
  - rewrite insert_near_perm. by rewrite Permutation_cons_append.
Qed.

Lemma sorted_last_max t l q : StronglySorted (key_le (λ i, dist i t)) l → last l = Some q →
  ∀ x, x ∈ l → dist x t ≤ dist q t.
Proof.
  induction 1 as [|y l Hs IH Hf]; [done|]. intros Hl x Hx. destruct l as [|z l].
  - injection Hl as ->. apply list_elem_of_singleton in Hx as ->. lia.
  - rewrite last_cons_cons in Hl. apply elem_of_cons in Hx as [->|Hx]; [|by apply IH].
    rewrite Forall_forall in Hf. apply (Hf q). by apply last_Some_elem_of.
Qed.

Lemma sorted_take t k l : StronglySorted (key_le (λ i, dist i t)) l → StronglySorted (key_le (λ i, dist i t)) (take k l).
Proof. intros H. rewrite <- (take_drop k l) in H. by apply StronglySorted_app_1_l in H. Qed.

(** One step of the scan keeps the prefix of the sorted list of what was seen. *)
Lemma closest_set_step_take t K L p : 1 ≤ K → StronglySorted (key_le (λ i, dist i t)) L →
  closest_set_step t K (take (Z.to_nat K) L) p = Ok (take (Z.to_nat K) (insert_near t p L)).
Proof.
  intros HK Hs. set (k := Z.to_nat K). rewrite <- take_insert_near. set (top := take k L).
  assert (StronglySorted (key_le (λ i, dist i t)) top) as Ht by (by apply sorted_take).
  assert (length top ≤ k)%nat as Hlen by (unfold top; rewrite length_take; lia).
  unfold closest_set_step. destruct (Z.of_nat (length top) <? K) eqn:E; zb.
  - rewrite (take_ge (insert_near _ _ _)); [done|]. rewrite length_insert_near. lia.
  - assert (length top = k) as Hk by lia. rewrite (proj2 (Z.leb_gt K 0)) by lia.
    destruct (last top) as [q|] eqn:El; [|apply last_None in El; rewrite El in Hk; cbn in Hk; lia].
    assert (top !! Z.to_nat (K - 1) = Some q) as ->.
    { rewrite last_lookup in El. rewrite <- El. f_equal. lia. }
    f_equal. destruct (dist p t <? dist q t) eqn:Ed; zb.
    + rewrite removelast_firstn_len, length_insert_near, Hk. done.
    + rewrite insert_near_far; [by rewrite take_app_length'|done|]. intros x Hx.
      pose proof (sorted_last_max t top q Ht El x Hx). lia.
Qed.

Lemma closest_set_sorted t K ids : 1 ≤ K → ∀ L, StronglySorted (key_le (λ i, dist i t)) L →
  closest_set t K (take (Z.to_nat K) L) ids = Ok (take (Z.to_nat K) (sort_by (λ i, dist i t) (ids ++ L))).
Proof.
  intros HK. induction ids as [|p ids IH]; intros L Hs; cbn [closest_set].
  - do 2 f_equal. apply (near_sorted_unique t); [done|apply sort_by_sorted|]. by rewrite sort_by_perm.
  - rewrite closest_set_step_take by done. unfold mbind, js_result_bind. rewrite IH by (by apply insert_near_sorted). do 2 f_equal.
    apply (near_sorted_unique t); [apply sort_by_sorted..|]. rewrite !sort_by_perm, insert_near_perm.
    by rewrite <- Permutation_middle.
Qed.

(** The one-pass insertion scan that answers [find_closest_set] is the K-prefix of the
    whole table sorted by XOR distance to the target; a K below 1 throws as soon as there is
    an entry. *)
Theorem find_closest_set_reference (N : node) (target : jsv) (t K : Z) :
  asId production target = Ok t →
  (1 ≤ K → on_find_closest_set N target K =
     Ok (take (Z.to_nat K) (sort_by (λ i, dist i t) (s_peerId <$> synapses N)))) ∧
  (K ≤ 0 → synapses N ≠ [] → on_find_closest_set N target K = Throw typeError).
Proof.
  intros Ht. unfold on_find_closest_set. rewrite Ht. cbn. split.
  - intros HK. pose proof (closest_set_sorted t K (s_peerId <$> synapses N) HK [] ltac:(constructor)) as H.
    by rewrite take_nil, app_nil_r in H.
  - intros HK Hne. destruct (synapses N) as [|s l]; [done|]. cbn. unfold closest_set_step. change (Z.of_nat (length [])) with 0.
    rewrite (proj2 (Z.ltb_ge 0 K)) by lia. by rewrite (proj2 (Z.leb_le K 0)) by lia.
Qed.

(** * The send loop ends *)

Lemma filter_tried_lt x tried (pool : list Z) : x ∈ pool → x ∉ tried →
  (length (filter (λ i, i ∉ x :: tried) pool) < length (filter (λ i, i ∉ tried) pool))%nat.
Proof.
  intros Hx Ht.
  assert (∀ l : list Z, length (filter (λ i, i ∉ x :: tried) l) ≤ length (filter (λ i, i ∉ tried) l))%nat as Hle.
  { induction l as [|y l IH]; [done|]. rewrite !filter_cons. repeat case_decide; cbn; try lia. set_solver. }
  induction pool as [|y pool IH]; [by apply elem_of_nil in Hx|]. rewrite !filter_cons.
  apply elem_of_cons in Hx as [->|Hx].
  - rewrite decide_False, decide_True by set_solver. cbn. specialize (Hle pool). lia.
  - specialize (IH Hx). repeat case_decide; cbn; try lia. set_solver.
Qed.

Lemma send_loop_ends cf N exclude f (pool : list Z) ats : ∀ tried c,
  (∀ a id, a ∈ ats → id ∈ u_id <$> usablePeers (at_T a) (at_N a) exclude → id ∈ pool) →
  (length (filter (λ i, i ∉ tried) pool) < length ats)%nat → ch_next c ∉ tried → ch_next c ∈ pool →
  is_Some (send_loop cf N exclude tried f c ats).
Proof.
  induction ats as [|a ats IH]; intros tried c Hp Hlen Hc Hcp; [cbn in Hlen; lia|]. cbn [send_loop].
  assert (∀ why, is_Some (match reselect (at_T a) (at_N a) (n_id N) exclude (ch_next c :: tried) (fr_target f) with
    | Some m => send_loop cf N exclude (ch_next c :: tried) f (mk_choice m None []) ats
    | None => Some (O_exhausted why) end)) as Hr.
  { intros why. destruct (reselect _ _ _ _ _ _) as [m|] eqn:Em; [|by eexists].
    apply closest_below_Some in Em as (Hm & _). apply list_elem_of_filter in Hm as [Hu Hm].
    apply IH; [intros a' id Ha'; apply Hp; by right| |done|apply (Hp a); [left|done]].
    pose proof (filter_tried_lt (ch_next c) tried pool Hcp Hc). cbn in Hlen. lia. }
  destruct (_ && _); [apply Hr|]. destruct (at_send a) as [|loss]; [by eexists|]. destruct (_ && _); [apply Hr|by eexists].
Qed.

(** The forwarder always finishes: with [pool] the peers usable at any of its attempts,
    it is done after at most [length pool + 2] attempts, whatever the transport answers. *)
Theorem route_msg_ends (cf : rconfig) (T T1 : tenv) (N N1 : node) (fromId : option jsv) (f : frame)
    (arrivals : list (Z * probe_reply)) (consumed : bool) (ats : list attempt) (pool : list Z) :
  (∀ a id, a ∈ ats → id ∈ u_id <$> usablePeers (at_T a) (at_N a) (pathExclude N fromId f) → id ∈ pool) →
  (length pool + 2 ≤ length ats)%nat →
  is_Some (on_route_msg cf T T1 N N1 fromId f arrivals consumed ats).
Proof.
  intros Hp Hlen. unfold on_route_msg. destruct (decide_hop _ _ _ _ _ _ _ _ _) as [o|c]; [by eexists|].
  apply (send_loop_ends _ _ _ _ (ch_next c :: pool)).
  - intros a id Ha Hid. right. by apply (Hp a).
  - pose proof (length_filter (λ i, i ∉ @nil Z) (ch_next c :: pool)). cbn [length] in *. lia.
  - apply not_elem_of_nil.
  - left.
Qed.

(** The greedy selector takes the closest usable peer when one is closer than the node,
    and answers nothing exactly when none is; so does the forwarder when no return route and
    no commitment applies. *)
Theorem greedy_is_closest (T : tenv) (N : node) (target : Z) :
  match greedyNextHopToward T N target with
  | Some id => n_alive N = true ∧ hop_fresh T N [] id ∧ dist id target < dist (n_id N) target ∧
      ∀ j, j ∈ u_id <$> usablePeers T N [] → dist id target ≤ dist j target
  | None => n_alive N = false ∨ ∀ j, j ∈ u_id <$> usablePeers T N [] → dist (n_id N) target ≤ dist j target
  end ∧
  (∀ fromId f arrivals c, return_hop T N (pathExclude N fromId f) f = None →
     via_hop T N (pathExclude N fromId f) f = None →
     greedy_hop T N (pathExclude N fromId f) (fr_target f) = Some c → select T N fromId f arrivals = Some c).
Proof.
  split.
  - unfold greedyNextHopToward. destruct (n_alive N); [|by left]. destruct (closest_below _ _ _) as [id|] eqn:E.
    + apply closest_below_Some in E as (H1 & H2 & H3). split_and!; [done| |done|done]. by apply usable_fresh.
    + right. by apply closest_below_None.
  - intros fromId f arrivals c H1 H2 H3. unfold select. rewrite H1, H2, H3.
    apply fmap_Some in H3 as (h & Hh & ->). apply closest_below_Some in Hh as (Hh & _).
    apply usable_fresh in Hh as (_ & Hh & _). by rewrite bool_decide_eq_false_2.
Qed.

(** * Witnesses *)

Definition demo_syn (id : Z) : synapse := mk_synapse id num_half num_one 0 0 "".
Definition demo_T : tenv := mk_tenv None None None None None None None.
Definition demo_node (id : Z) (peers : list Z) : node :=
  mk_node id true ((λ p, (KBig p, demo_syn p)) <$> peers) [] (DeadPeers.new_dp None None None None None None None) None.
Definition demo_frame : frame := mk_frame "pubsub:pub" 4 0 None [idHex 9] None [].

Lemma forward_is_fresh_witness :
  let N := demo_node 100 [7; 200] in
  connOk demo_T 7 = true ∧ 7 ∉ pathExclude N None demo_frame ∧
  on_route_msg rconfig0 demo_T demo_T N N None demo_frame [] false [mk_attempt demo_T (demo_node 100 [7; 20]) Answered]
    = Some (O_forward 7 (next_frame rconfig0 N demo_frame (mk_choice 7 None []))).
Proof.
  cbn zeta.
  assert (on_route_msg rconfig0 demo_T demo_T (demo_node 100 [7; 200]) (demo_node 100 [7; 200]) None demo_frame [] false [mk_attempt demo_T (demo_node 100 [7; 20]) Answered]
    = Some (O_forward 7 (next_frame rconfig0 (demo_node 100 [7; 200]) demo_frame (mk_choice 7 None [])))) as H
    by (vm_compute; reflexivity).
  pose proof (forward_is_fresh _ _ _ _ _ _ _ _ _ _ _ _ H) as ((_ & H2) & _). done.
Defined.

Lemma terminal_is_local_minimum_witness :
  let N := demo_node 5 [200] in
  servingCapable demo_T = true ∧
  on_route_msg rconfig0 demo_T demo_T N N None demo_frame [] false [] = Some O_terminal ∧
  (200 ∈ u_id <$> usablePeers demo_T N (pathExclude N None demo_frame) → dist 5 4 ≤ dist 200 4).
Proof.
  cbn zeta.
  assert (on_route_msg rconfig0 demo_T demo_T (demo_node 5 [200]) (demo_node 5 [200]) None demo_frame [] false [] = Some O_terminal) as H
    by (vm_compute; reflexivity).
  pose proof (terminal_is_local_minimum _ _ _ _ _ _ _ _ _ _ H) as (H1 & _ & H2 & _).
  split; [exact H1|]. split; [exact H|]. exact (H2 200).
Defined.

Lemma walk_never_circles_witness :
  let N0 := demo_node 100 [20] in let N1 := demo_node 20 [7; 100] in
  ∃ f, walked rconfig0 0 "pubsub:pub" [20; 100] f (Some 7) ∧ fr_hops f = 2 ∧ NoDup [7; 20; 100].
Proof.
  cbn zeta.
  assert (∃ f, walked rconfig0 0 "pubsub:pub" [20; 100] f (Some 7)) as [f Hw].
  { eexists. refine (walked_hop _ _ _ [100] _ (Some 20) (demo_node 20 [7; 100]) (demo_node 20 [7; 100]) demo_T demo_T None [] false
      [mk_attempt demo_T (demo_node 20 [7; 100]) Answered] 7 _ _ _ _ _).
    - refine (walked_origin _ _ _ (demo_node 100 [20]) (demo_node 100 [20]) demo_T demo_T (JBig 4) None [] [] false
        [mk_attempt demo_T (demo_node 100 [20]) Answered] 20 _ _ _ _); [done|cbn; lia|vm_compute; reflexivity].
    - by intros i [= <-].
    - cbn. lia.
    - vm_compute. reflexivity. }
  destruct (walk_never_circles _ _ _ _ _ _ Hw) as (H1 & _ & H2).
  exists f. split; [exact Hw|]. split; [exact H1|]. exact (H2 0%nat).
Defined.

Lemma find_closest_set_reference_witness :
  asId production (JBig 4) = Ok 4 ∧
  on_find_closest_set (demo_node 100 [9; 7; 200]) (JBig 4) 2 = Ok [7; 9].
Proof.
  assert (asId production (JBig 4) = Ok 4) as H by (vm_compute; reflexivity). split; [exact H|].
  destruct (find_closest_set_reference (demo_node 100 [9; 7; 200]) (JBig 4) 4 2 H) as [H1 _].
  rewrite (H1 ltac:(lia)). vm_compute. reflexivity.
Defined.

Lemma route_msg_ends_witness :
  is_Some (on_route_msg (mk_rconfig 40 8 true false) demo_T demo_T (demo_node 100 [7; 20]) (demo_node 100 [7; 20]) None demo_frame [] false
    (replicate 4 (mk_attempt demo_T (demo_node 100 [7; 20]) (Threw true)))).
Proof.
  apply (route_msg_ends _ _ _ _ _ _ _ _ _ _ [7; 20]); [|cbn; lia].
  intros a id Ha Hid. apply elem_of_replicate in Ha as [-> _]. vm_compute in Hid. exact Hid.
Defined.
