(* ===== verification/AdmissionGate.v ===== *)
(** AdmissionGate.v - which peers the routing table holds (src/src/dht/AxonaPeer.js): the
    retention policy ([_retentionMap]), the hold-or-improve decision ([_gateDecision])
    and its commit ([_gateCommit]), the join lane, the promotion of an incoming peer
    ([_promote]), the seed path ([_seedSynaptomeWithSponsor]) with its deferred closes,
    and the duty gate ([mayRetire]).

    The transport's answers are a [tenv]; the obligations reader of the pub/sub manager, the
    clock, the recency factor of [_vitality] ([Math.exp]), what [reclass] answers and the
    engine's insert are fields of [genv]. [closed] lists the peers [closeConnection] was
    called for. Counters and logs are not modelled. *)
From stdpp Require Import base gmap sets list strings sorting.
From Stdlib Require Import ZArith Lia Sorting.Sorted.
From S2P Require Import Prelude HexId PeerTable.
From S2P Require ChannelLedger AttemptGuard Routing.
#[local] Open Scope Z_scope.
#[local] Open Scope js_scope.

(** * Configuration *)

Record gcfg := mk_gcfg {
  kNear : Z; sparseFloor : Z; kJoin : Z; laneCooldownMs : Z; laneWindowMs : Z;
  closeGraceMs : Z; graceMaxPending : Z
}.

(** The constructor's defaults, and the normalisation of the grace fields; integers. *)
Definition gate_cfg (okNear osparse okJoin ocool owin ograce omax : option Z) : gcfg :=
  let g := default 0 ograce in
  let m := default 64 omax in
  let g := if 0 <? g then g else 0 in
  let m := if 0 <? m then m else 0 in
  mk_gcfg (default 5 okNear) (default 2 osparse) (default 0 okJoin) (default 1000 ocool) (default 60000 owin)
    (if m =? 0 then 0 else g) m.

(** What [reclass] answers; a throw is [ok: false]. *)
Record rclass := mk_rclass { rc_ok : option bool; rc_deferred : option bool }.

Record genv := mk_genv {
  e_T : tenv;
  e_duty : option (string → option (list string));   (** the manager's [obligationsOf]; [f hex = None]: it throws *)
  e_axonFor : option (string → option (list string)); (** that of [engine.axonFor], which [_retentionMap] falls back to *)
  e_now : Z;
  e_groups : Z;                                      (** [STRATA_GROUPS] *)
  e_maxSynaptome : Z;                                (** [MAX_SYNAPTOME] *)
  e_maxConnections : option Z;                       (** [None]: [Infinity] *)
  e_simEpoch : Z;
  e_recency : Z → num;                               (** [Math.max(0.1, Math.exp(-elapsed / ..))] *)
  e_reclass : option (Z → option Z → option rclass); (** [None]: no such method; it may answer nothing *)
  e_engine : option (node → Z → option node)         (** [engine.addSynapse]; [None] where it throws *)
}.

Record gate := mk_gate {
  g_cfg : option gcfg;
  g_node : node;
  g_conns : list Z;                  (** [node.connections] *)
  laneSeen : jmap string Z; laneLastAt : Z;
  gracePending : jmap Z Z;           (** sponsor, and when its timer fires *)
  closed : list skey;
  asked : list (Z * option Z)        (** the calls of [reclass] *)
}.
Definition with_node (N : node) (G : gate) : gate :=
  mk_gate (g_cfg G) N (g_conns G) (laneSeen G) (laneLastAt G) (gracePending G) (closed G) (asked G).
Definition with_conns (c : list Z) (G : gate) : gate :=
  mk_gate (g_cfg G) (g_node G) c (laneSeen G) (laneLastAt G) (gracePending G) (closed G) (asked G).
Definition with_laneSeen (m : jmap string Z) (G : gate) : gate :=
  mk_gate (g_cfg G) (g_node G) (g_conns G) m (laneLastAt G) (gracePending G) (closed G) (asked G).
Definition with_laneLastAt (t : Z) (G : gate) : gate :=
  mk_gate (g_cfg G) (g_node G) (g_conns G) (laneSeen G) t (gracePending G) (closed G) (asked G).
Definition with_pending (m : jmap Z Z) (G : gate) : gate :=
  mk_gate (g_cfg G) (g_node G) (g_conns G) (laneSeen G) (laneLastAt G) m (closed G) (asked G).
Definition close (k : skey) (G : gate) : gate :=
  mk_gate (g_cfg G) (g_node G) (g_conns G) (laneSeen G) (laneLastAt G) (gracePending G) (closed G ++ [k]) (asked G).
Definition asks (sponsor : Z) (after : option Z) (G : gate) : gate :=
  mk_gate (g_cfg G) (g_node G) (g_conns G) (laneSeen G) (laneLastAt G) (gracePending G) (closed G)
    (asked G ++ [(sponsor, after)]).

Definition g_table (G : gate) : jmap skey synapse := synaptome (g_node G).
Definition self (G : gate) : Z := n_id (g_node G).

(** * The table, read structurally *)

Record tentry := mk_tentry { te_key : skey; te_big : Z; te_syn : synapse }.
Definition key_big (k : skey) : option Z :=
  match k with
  | KBig z => Some z
  | KHex s => if isHexId production (JStr s) then catch (fromHex production (JStr s)) else None
  end.
Definition tableEntries (N : node) : list tentry :=
  omap (λ p, (λ b, mk_tentry p.1 b p.2) <$> key_big p.1) (synaptome N).

(** [Math.min(groups - 1, clz264(selfId ^ big) >>> 2)] *)
Definition groupOf (E : genv) (me big : Z) : Z :=
  match clz264 production (JBig (Z.lxor me big)) with
  | Ok c => Z.min (e_groups E - 1) (Z.shiftr c 2)
  | Throw _ => 0   (* a bigint is never refused *)
  end.
Definition counts (E : genv) (N : node) (g : Z) : Z :=
  Z.of_nat (length (filter (λ e, groupOf E (n_id N) (te_big e) = g) (tableEntries N))).

(** [node._maxSynaptome ?? p?.M ?? MAX_SYNAPTOME], one cap or none. *)
Definition capM (E : genv) (N : node) : js_result Z :=
  match t_pool (e_T E), maxSynaptome N with
  | Some p, Some c => if c =? ChannelLedger.pp_M p then Ok c else Throw typeError
  | None, Some c => Ok c
  | Some p, None => Ok (ChannelLedger.pp_M p)
  | None, None => Ok (e_maxSynaptome E)
  end.

Definition vitality (E : genv) (s : synapse) : num :=
  num_mul (s_weight s)
    (if e_simEpoch E <? s_inertia s then num_one else e_recency E (e_simEpoch E - s_inertia s)).

(** * The duty gate *)

Definition hexOf (k : skey) : option string :=
  match k with KBig z => catch (toHex production (JBig z)) | KHex s => Some s end.
(** The key as [toHex] is given it. *)
Definition key_jsv (k : skey) : jsv := match k with KBig z => JBig z | KHex s => JStr s end.
Definition lower_hexOf (k : skey) : option string := lc <$> hexOf k.

Inductive duty_verdict := MayRetire | Duty (why : string).
Definition ok_ (v : duty_verdict) : bool := match v with MayRetire => true | Duty _ => false end.

Definition mayRetire (E : genv) (id : skey) : duty_verdict :=
  match lower_hexOf id with
  | None => Duty "unresolvable-id"
  | Some hex =>
      match e_duty E with
      | None => MayRetire
      | Some f =>
          match f hex with
          | Some [] => MayRetire
          | Some kinds => Duty (String.concat "," kinds)
          | None => Duty "reader-threw"
          end
      end
  end.

(** * The retention policy *)

Record reasons := mk_reasons { r_near : bool; r_band : bool; r_service : bool; r_duty : bool }.
Definition any_ (r : reasons) : bool := r_near r || r_band r || r_service r || r_duty r.

(** [{ key, d }]; a candidate has no key. *)
Definition held (E : genv) (N : node) : list (option skey * Z) :=
  sort_by snd ((λ e, (Some (te_key e), Z.lxor (n_id N) (te_big e))) <$>
    filter (λ e, isStalePeer (e_T E) (te_big e) = false) (tableEntries N)).
Definition ranked (E : genv) (N : node) (extra : option Z) : list (option skey * Z) :=
  match extra with
  | None => held E N
  | Some x => sort_by snd (held E N ++ [(None, Z.lxor (n_id N) x)])
  end.
Definition nearCeil (E : genv) (N : node) (k : Z) : js_result (option Z) :=
  if k <=? Z.of_nat (length (held E N)) then
    if k <=? 0 then Throw typeError   (* [held[kNear - 1]] is undefined *)
    else Ok (snd <$> held E N !! Z.to_nat (k - 1))
  else Ok None.
Definition nearKeys (E : genv) (N : node) (k : Z) (extra : option Z) : list skey :=
  omap fst (take (Z.to_nat k) (ranked E N extra)).

Definition dutyReader (E : genv) : option (string → option (list string)) :=
  match e_duty E with Some f => Some f | None => e_axonFor E end.
Definition reasons_of (E : genv) (N : node) (k floor : Z) (near : list skey) (e : tentry) : reasons :=
  mk_reasons (bool_decide (te_key e ∈ near))
    (counts E N (groupOf E (n_id N) (te_big e)) <=? floor)
    (bool_decide (t_bridgeNode (e_T E) ≫= Routing.idOf = Some (te_big e)))
    (match dutyReader E with
     | None => false
     | Some f => match lower_hexOf (KBig (te_big e)) with
                 | Some hex => match f hex with Some [] => false | _ => true end
                 | None => true
                 end
     end).

Record retention := mk_retention { rt_map : jmap skey reasons; rt_ceil : option Z }.

(** [k] and [floor] are those of [_retentionCfg]. *)
Definition retentionMap (E : genv) (N : node) (k floor : Z) (extra : option Z) : js_result retention :=
  c ← nearCeil E N k;
  let near := nearKeys E N k extra in
  Ok (mk_retention ((λ e, (te_key e, reasons_of E N k floor near e)) <$> tableEntries N) c).

(** * The decision *)

Inductive how := Admit | Lane (key : string) (t : Z) | Swap (victim : skey) (near : bool).
Inductive decision := Yes (h : how) | No (why : string).

(** The join lane: the last [kJoin] slots, one admission per identity and window, paced. *)
Definition lane_sweep (c : gcfg) (t : Z) (G : gate) : gate :=
  with_laneSeen (filter (λ p, negb (laneWindowMs c <=? t - p.2) = true) (laneSeen G)) G.
Definition lane (E : genv) (c : gcfg) (G : gate) (sponsor : Z) : gate * decision :=
  match AttemptGuard.identitySuffix (JBig sponsor) with
  | None => (G, No "lane-no-key")
  | Some key =>
      let t := e_now E in
      let G := lane_sweep c t G in
      if match jget (laneSeen G) key with Some at_ => t - at_ <? laneWindowMs c | None => false end
      then (G, No "lane-seen")
      else if t - laneLastAt G <? laneCooldownMs c then (G, No "lane-cooldown")
      else (G, Yes (Lane key t))
  end.

(** The victim: an unprotected entry of the densest band, the weakest of them. *)
Record victim := mk_victim { v_key : option skey; v_vit : num; v_count : Z }.
Definition victim0 : victim := mk_victim None num_infinity (-1).
Definition victim_step (E : genv) (N : node) (R : retention) (nearImprove : bool) (candCount : Z)
    (v : victim) (e : tentry) : victim :=
  let protected := match jget (rt_map R) (te_key e) with
                   | Some r => r_near r || r_band r || r_service r
                   | None => false
                   end in
  let c := counts E N (groupOf E (n_id N) (te_big e)) in
  if protected then v
  else if negb nearImprove && (c <? candCount + 2) then v
  else
    let vit := vitality E (te_syn e) in
    if (v_count v <? c) || ((c =? v_count v) && num_lt vit (v_vit v)) then mk_victim (Some (te_key e)) vit c else v.

Definition swap_decision (E : genv) (c : gcfg) (N : node) (sponsor : Z) : js_result decision :=
  R ← retentionMap E N (kNear c) (sparseFloor c) (Some sponsor);
  let nearImprove := match rt_ceil R with Some d => Z.lxor (n_id N) sponsor <? d | None => false end in
  let candCount := counts E N (groupOf E (n_id N) sponsor) in
  match v_key (foldl (victim_step E N R nearImprove candCount) victim0 (tableEntries N)) with
  | None => Ok (No (if nearImprove then "no-swap-near" else "no-swap"))
  | Some k => match mayRetire E k with
              | Duty _ => _ ← toHex production (key_jsv k); Ok (No "duty")   (* the log line *)
              | MayRetire => Ok (Yes (Swap k nearImprove))
              end
  end.

Definition gateDecision (E : genv) (c : gcfg) (G : gate) (sponsor : Z) : js_result (gate * decision) :=
  cap ← capM E (g_node G);
  if jsize (g_table G) <? cap then
    if (0 <? kJoin c) && (cap - kJoin c <=? jsize (g_table G)) then Ok (lane E c G sponsor)
    else Ok (G, Yes Admit)
  else d ← swap_decision E c (g_node G) sponsor; Ok (G, d).

(** * The commit *)

(** What a decision changes, for a sponsor that passed [toHex]. *)
Definition seedInsert (sponsor : Z) (addedBy : string) (G : gate) : gate :=
  with_node (with_synaptome (jset (g_table G) (KBig sponsor)
    (mk_synapse sponsor num_half (num_of 50) 0 (clz64 (Z.lxor (self G) sponsor)) addedBy)) (g_node G)) G.

Definition committed (sponsor : Z) (d : decision) (G : gate) : gate * bool :=
  match d with
  | No _ => (G, false)
  | Yes (Lane key t) =>
      (seedInsert sponsor "gate-lane" (with_laneLastAt t (with_laneSeen (jset (laneSeen G) key t) G)), true)
  | Yes (Swap k _) =>
      let G := with_node (with_synaptome (jdel (g_table G) k) (g_node G)) G in
      let G := with_conns (filter (λ c, KBig c ≠ k) (g_conns G)) G in
      (seedInsert sponsor "gate-swap" (close k G), true)
  | Yes Admit => (seedInsert sponsor "gate-admit" G, true)
  end.
(** The log line of a near swap names its victim by [toHex], which takes a bigint only: for a
    victim under a legacy hex key it throws, before anything has changed. *)
Definition gateCommit (sponsor : Z) (d : decision) (G : gate) : js_result (gate * bool) :=
  match d with
  | Yes (Swap k true) => _ ← toHex production (key_jsv k); Ok (committed sponsor d G)
  | _ => Ok (committed sponsor d G)
  end.

Definition admitOrImprove (E : genv) (c : gcfg) (G : gate) (sponsor : Z) : js_result (gate * bool) :=
  p ← gateDecision E c G sponsor; gateCommit sponsor p.2 p.1.

Definition in_table (N : node) (sponsor : Z) : bool :=
  jhas (synaptome N) (KBig sponsor) ||
  match catch (toHex production (JBig sponsor)) with Some hex => jhas (synaptome N) (KHex hex) | None => false end.

Inductive preflight := Ungated | Already | Decided (d : decision).
Definition gatePreflight (E : genv) (G : gate) (sponsor : Z) : js_result (gate * preflight) :=
  match g_cfg G with
  | None => Ok (G, Ungated)
  | Some c =>
      if jhas (g_table G) (KBig sponsor) then Ok (G, Already)
      else hex ← toHex production (JBig sponsor);
           if jhas (g_table G) (KHex hex) then Ok (G, Already)
           else p ← gateDecision E c G sponsor; Ok (p.1, Decided p.2)
  end.

(** * Promotion of an incoming peer *)

(** [t.reclass(sponsor, 'M', ..) ?? dflt], where the transport has it. *)
Definition reclass (E : genv) (sponsor : Z) (after : option Z) (dflt : rclass) (G : gate) : gate * rclass :=
  match e_reclass E with
  | None => (G, dflt)
  | Some f => (asks sponsor after G, default dflt (f sponsor after))
  end.
Definition refused_reclass (r : rclass) : bool := bool_decide (rc_ok r = Some false).

(** [_promote]: the pending mark is set and dropped within the call. With room the
    reclass is asked before the table commits; a replacement commits first and asks
    for the victim's place. *)
Definition promote (E : genv) (c : gcfg) (G : gate) (sponsor : Z) : js_result (gate * bool) :=
  p ← gateDecision E c G sponsor;
  let G := p.1 in
  let dflt := mk_rclass (Some true) (Some false) in
  match p.2 with
  | No _ => Ok (G, false)
  | Yes (Swap k _) => q ← gateCommit sponsor p.2 G; Ok ((reclass E sponsor (key_big k) dflt q.1).1, true)
  | d => let '(G, rc) := reclass E sponsor None dflt G in
         if refused_reclass rc then Ok (G, false) else gateCommit sponsor d G
  end.

Definition legacyInsertAllowed (E : genv) (id : Z) (G : gate) : gate * bool :=
  if negb (poolArmed (e_T E)) || negb (is_incoming (e_T E) id) then (G, true)
  else let '(G, rc) := reclass E id None (mk_rclass (Some false) None) G in (G, negb (refused_reclass rc)).

(** * The refused channel *)

Definition doClose (E : genv) (sponsor : Z) (G : gate) : gate :=
  if ok_ (mayRetire E (KBig sponsor)) then close (KBig sponsor) G else G.

Definition headroom (E : genv) (G : gate) : bool :=
  match e_maxConnections E with
  | None => true
  | Some cap => jsize (g_table G) + jsize (incoming (g_node G)) + jsize (gracePending G) + 1 <=? cap
  end.

(** While the map is full, the oldest pending close the duty gate permits is issued now. *)
Fixpoint overflow (E : genv) (maxPending : Z) (fuel : nat) (G : gate) : gate :=
  match fuel with
  | O => G
  | S fuel =>
      if maxPending <=? jsize (gracePending G) then
        match List.find (λ p, ok_ (mayRetire E (KBig p.1))) (gracePending G) with
        | None => G
        | Some p => overflow E maxPending fuel (close (KBig p.1) (with_pending (jdel (gracePending G) p.1) G))
        end
      else G
  end.

Definition arm (E : genv) (graceMs sponsor : Z) (G : gate) : gate :=
  with_pending (jset (gracePending G) sponsor (e_now E + graceMs)) G.

Definition refused (E : genv) (c : gcfg) (sponsor : Z) (G : gate) : gate :=
  let graceOn := 0 <? closeGraceMs c in
  if graceOn && jhas (gracePending G) sponsor then G
  else if graceOn && headroom E G then
    arm E (closeGraceMs c) sponsor (overflow E (graceMaxPending c) (length (gracePending G)) G)
  else doClose E sponsor G.

(** A timer of [gracePending] fires. *)
Definition graceFire (E : genv) (c : gcfg) (sponsor : Z) (G : gate) : gate :=
  if negb (jhas (gracePending G) sponsor) then G
  else
    let G := with_pending (jdel (gracePending G) sponsor) G in
    if jhas (g_table G) (KBig sponsor) then G
    else if ok_ (mayRetire E (KBig sponsor)) then doClose E sponsor G
    else arm E (closeGraceMs c) sponsor G.

Definition clearGracePending (G : gate) : gate :=
  with_pending [] (foldl (λ G p, close (KBig p.1) G) G (gracePending G)).

(** * The seed path *)

Definition seedSynaptomeWithSponsor (E : genv) (G : gate) (sponsor : Z) : js_result gate :=
  if jhas (g_table G) (KBig sponsor) then Ok G
  else
    hex ← toHex production (JBig sponsor);
    if jhas (g_table G) (KHex hex) then Ok G
    else match g_cfg G with
    | Some c =>
        if poolArmed (e_T E) && is_incoming (e_T E) sponsor then
          p ← promote E c G sponsor; Ok p.1
        else
          p ← admitOrImprove E c G sponsor;
          Ok (if p.2 : bool then p.1 else refused E c sponsor p.1)
    | None =>
        let '(G, ok) := legacyInsertAllowed E sponsor G in
        if negb ok then Ok G
        else match e_engine E ≫= λ f, f (g_node G) sponsor with
        | Some N => Ok (with_node N G)
        | None => Ok (seedInsert sponsor "bootstrap" G)
        end
    end.

Definition protectedPeers (E : genv) (N : node) (k floor : Z) : option (list string) :=
  match retentionMap E N k floor None with
  | Ok R => mapM (λ p, lower_hexOf p.1) (filter (λ p, any_ p.2 = true) (rt_map R))
  | Throw _ => None
  end.
Definition retentionOf (E : genv) (N : node) (k floor : Z) (id : jsv) : js_result reasons :=
  big ← asId production id;
  R ← retentionMap E N k floor None;
  Ok match List.find (λ p, bool_decide (key_big p.1 = Some big)) (rt_map R) with
     | Some p => p.2
     | None => mk_reasons false false false false
     end.
(** At cap, a dial is worth making when the gate predicts a near displacement. *)
Definition improveAdmits (E : genv) (G : gate) (peerId : Z) : gate * bool :=
  match g_cfg G, gatePreflight E G peerId with
  | Some _, Ok (G, Decided (Yes (Swap _ true))) => (G, true)
  | Some _, Ok (G, _) => (G, false)
  | _, _ => (G, false)
  end.

(** * Runs *)

Inductive gop :=
| GSeed (sponsor : Z) | GFire (sponsor : Z) | GPreflight (sponsor : Z)
| GDrop (k : skey)    (** the peer died or left: its entry goes *)
| GStop.

Definition gstep (E : genv) (G : gate) (o : gop) : gate :=
  match o with
  | GSeed s => match seedSynaptomeWithSponsor E G s with Ok G => G | Throw _ => G end
  | GFire s => match g_cfg G with Some c => graceFire E c s G | None => G end
  | GPreflight s => match gatePreflight E G s with Ok (G, _) => G | Throw _ => G end
  | GDrop k => with_node (with_synaptome (jdel (g_table G) k) (g_node G)) G
  | GStop => clearGracePending G
  end.
Definition grun (G : gate) (ops : list (genv * gop)) : gate := foldl (λ G x, gstep x.1 G x.2) G ops.
Definition new_gate (c : option gcfg) (N : node) : gate := mk_gate c N [] [] 0 [] [] [].

(** * Lemmas: the table's entries *)

Lemma entries_of m N : synaptome N = m → tableEntries N = omap (λ p, (λ b, mk_tentry p.1 b p.2) <$> key_big p.1) m.
Proof. intros <-. done. Qed.

Lemma elem_entry N e : e ∈ tableEntries N ↔ (te_key e, te_syn e) ∈ synaptome N ∧ key_big (te_key e) = Some (te_big e).
Proof.
  unfold tableEntries. rewrite list_elem_of_omap. split.
  - intros ([k s] & Hin & He). cbn in He. apply fmap_Some in He as (b & Hb & ->). done.
  - intros [Hin Hb]. exists (te_key e, te_syn e). split; [done|]. cbn. rewrite Hb. by destruct e.
Qed.

Lemma entries_keys_sublist (m : jmap skey synapse) :
  (te_key <$> omap (λ p, (λ b, mk_tentry p.1 b p.2) <$> key_big p.1) m) `sublist_of` m.*1.
Proof.
  induction m as [|[k s] m IH]; cbn; [done|]. destruct (key_big k); cbn; [by constructor|by constructor].
Qed.

Lemma entries_nodup N : jwf (synaptome N) → NoDup (te_key <$> tableEntries N).
Proof. intros H. exact (sublist_NoDup _ _ H (entries_keys_sublist _)). Qed.

(** The tables a node can be brought to hold one entry for an id. *)
Definition ids_distinct (N : node) : Prop := jwf (synaptome N) ∧ NoDup (te_big <$> tableEntries N).

Lemma entry_key_eq N e e' : jwf (synaptome N) → e ∈ tableEntries N → e' ∈ tableEntries N →
  te_key e = te_key e' → e = e'.
Proof.
  intros Hw [H1 H2]%elem_entry [H1' H2']%elem_entry Hk. rewrite <- Hk in H1', H2'.
  apply (elem_jget _ _ _ Hw) in H1. apply (elem_jget _ _ _ Hw) in H1'. destruct e, e'. cbn in *. congruence.
Qed.

Lemma counts_nonneg E N g : 0 ≤ counts E N g.
Proof. unfold counts. lia. Qed.

(** * Lemmas: the victim *)

Definition protected (R : retention) (e : tentry) : bool :=
  match jget (rt_map R) (te_key e) with Some r => r_near r || r_band r || r_service r | None => false end.
Definition evictable (E : genv) (N : node) (R : retention) (near : bool) (candCount : Z) (e : tentry) : bool :=
  negb (protected R e) && (near || (candCount + 2 <=? counts E N (groupOf E (n_id N) (te_big e)))).
Definition band_count (E : genv) (N : node) (e : tentry) : Z := counts E N (groupOf E (n_id N) (te_big e)).

Lemma victim_fold E N R near cc l : ∀ v,
  (v_key v = None → v_count v = -1) →
  let r := foldl (victim_step E N R near cc) v l in
  v_count v ≤ v_count r ∧
  (∀ e, e ∈ l → evictable E N R near cc e = true → band_count E N e ≤ v_count r ∧ v_key r ≠ None) ∧
  (v_key v ≠ None → v_key r ≠ None) ∧
  ((v_key r = v_key v ∧ v_count r = v_count v) ∨
   ∃ e, e ∈ l ∧ evictable E N R near cc e = true ∧ v_key r = Some (te_key e) ∧ v_count r = band_count E N e).
Proof.
  induction l as [|e l IH]; intros v Hv; cbn [foldl].
  { split_and!; [lia|intros e He; by apply elem_of_nil in He|done|by left]. }
  set (w := victim_step E N R near cc v e).
  assert (w = v ∧ (evictable E N R near cc e = true → band_count E N e ≤ v_count v ∧ v_key v ≠ None) ∨
    (evictable E N R near cc e = true ∧ v_key w = Some (te_key e) ∧ v_count w = band_count E N e ∧
     v_count v ≤ v_count w)) as Hw.
  { unfold w, victim_step. fold (protected R e). fold (band_count E N e). unfold evictable. fold (band_count E N e).
    destruct (protected R e); cbn [negb andb]; [by left|]. rewrite Z.leb_antisym.
    destruct near; cbn [negb andb orb].
    - destruct (_ || _) eqn:Eb; [right|left; split; [done|intros _]].
      + cbn. apply orb_true_iff in Eb as [Eb|Eb]; zb; split_and!; try done; lia.
      + zb. split; [lia|]. intros Hk. specialize (Hv Hk). pose proof (counts_nonneg E N (groupOf E (n_id N) (te_big e))).
        unfold band_count in *. lia.
    - destruct (_ <? cc + 2) eqn:Ec; cbn [negb]; [by left|]. destruct (_ || _) eqn:Eb; [right|left; split; [done|intros _]].
      + cbn. apply orb_true_iff in Eb as [Eb|Eb]; zb; split_and!; try done; lia.
      + zb. split; [lia|]. intros Hk. specialize (Hv Hk). pose proof (counts_nonneg E N (groupOf E (n_id N) (te_big e))).
        unfold band_count in *. lia. }
  assert (v_key w = None → v_count w = -1) as Hw'.
  { destruct Hw as [[-> _]|(_ & Hk & _)]; [done|]. by rewrite Hk. }
  destruct (IH w Hw') as (I1 & I2 & I3 & I4). destruct Hw as [[Heq Hc]|(Hc & Hk & Hcc & Hle)].
  - rewrite Heq in *. split_and!; [done| |done|].
    + intros e' [->|He']%elem_of_cons Hok; [|by apply I2]. destruct (Hc Hok). split; [lia|by apply I3].
    + destruct I4 as [I4|(e' & He' & I4)]; [by left|right]. exists e'. split; [by right|done].
  - split_and!; [lia| |intros _; apply I3; by rewrite Hk|].
    + intros e' [->|He']%elem_of_cons Hok; [|by apply I2]. split; [lia|apply I3; by rewrite Hk].
    + right. destruct I4 as [[I4 I5]|(e' & He' & I4)]; [exists e|exists e'].
      * split_and!; [left|done|congruence|congruence].
      * split; [by right|done].
Qed.

Definition chosen (E : genv) (N : node) (R : retention) (near : bool) (cc : Z) : victim :=
  foldl (victim_step E N R near cc) victim0 (tableEntries N).

Lemma victim_Some E N R near cc k : v_key (chosen E N R near cc) = Some k →
  ∃ e, e ∈ tableEntries N ∧ te_key e = k ∧ evictable E N R near cc e = true ∧
    ∀ e', e' ∈ tableEntries N → evictable E N R near cc e' = true → band_count E N e' ≤ band_count E N e.
Proof.
  intros Hk. destruct (victim_fold E N R near cc (tableEntries N) victim0 (λ _, eq_refl)) as (_ & H2 & _ & H4).
  fold (chosen E N R near cc) in H2, H4. destruct H4 as [[H4 _]|(e & He & Hok & Hke & Hce)]; [rewrite H4 in Hk; done|].
  exists e. split_and!; [done|congruence|done|]. intros e' He' Hok'. rewrite <- Hce. by apply H2.
Qed.

Lemma victim_None E N R near cc : v_key (chosen E N R near cc) = None ↔
  ∀ e, e ∈ tableEntries N → evictable E N R near cc e = false.
Proof.
  destruct (victim_fold E N R near cc (tableEntries N) victim0 (λ _, eq_refl)) as (_ & H2 & _ & H4).
  fold (chosen E N R near cc) in H2, H4. split.
  - intros Hk e He. destruct (evictable E N R near cc e) eqn:Hok; [|done]. by destruct (H2 e He Hok).
  - intros Hall. destruct H4 as [[H4 _]|(e & He & Hok & _)]; [by rewrite H4|]. by rewrite (Hall e He) in Hok.
Qed.

Lemma rt_map_get E N k floor near e : jwf (synaptome N) → e ∈ tableEntries N →
  jget ((λ e, (te_key e, reasons_of E N k floor near e)) <$> tableEntries N) (te_key e) =
    Some (reasons_of E N k floor near e).
Proof.
  intros Hw He. apply elem_jget.
  - unfold jwf. rewrite <- list_fmap_compose. by apply entries_nodup.
  - by apply (list_elem_of_fmap_2 (λ e, (te_key e, reasons_of E N k floor near e))).
Qed.

(** The protection of an entry, read off the rank, the band and the bridge. *)
Lemma protected_spec E N k floor extra R e : jwf (synaptome N) → e ∈ tableEntries N →
  retentionMap E N k floor extra = Ok R →
  protected R e = bool_decide (te_key e ∈ nearKeys E N k extra) || (band_count E N e <=? floor) ||
    bool_decide (t_bridgeNode (e_T E) ≫= Routing.idOf = Some (te_big e)).
Proof.
  intros Hw He HR. unfold retentionMap in HR. destruct (nearCeil E N k) as [c|]; [|done]. injection HR as <-.
  unfold protected. cbn [rt_map]. by rewrite rt_map_get.
Qed.

(** * Lemmas: the near set as a rank *)

Section near.
Context (E : genv) (N : node).

Definition fresh_entry (e : tentry) : bool := negb (isStalePeer (e_T E) (te_big e)).
Definition edist (e : tentry) : Z := Z.lxor (n_id N) (te_big e).
(** The distances of the entries that count for the near set. *)
Definition dists : list Z := edist <$> filter (λ e, isStalePeer (e_T E) (te_big e) = false) (tableEntries N).
Definition dists_with (extra : option Z) : list Z := dists ++ option_list (Z.lxor (n_id N) <$> extra).

Lemma held_perm : held E N ≡ₚ (λ e, (Some (te_key e), edist e)) <$> filter (λ e, isStalePeer (e_T E) (te_big e) = false) (tableEntries N).
Proof. unfold held. by rewrite sort_by_perm. Qed.

Lemma held_snd : snd <$> held E N ≡ₚ dists.
Proof. rewrite held_perm, <- list_fmap_compose. done. Qed.

Lemma ranked_sorted extra : ∃ l, ranked E N extra = sort_by snd l ∧
  l ≡ₚ held E N ++ ((λ x, (None, Z.lxor (n_id N) x)) <$> option_list extra).
Proof.
  destruct extra as [x|]; cbn [ranked option_list fmap list_fmap]; [by eexists|]. rewrite app_nil_r.
  eexists. split; [reflexivity|]. unfold held. by rewrite sort_by_perm.
Qed.

Lemma ranked_snd extra l : l ≡ₚ held E N ++ ((λ x, (None, Z.lxor (n_id N) x)) <$> option_list extra) →
  snd <$> l ≡ₚ dists_with extra.
Proof.
  intros ->. rewrite fmap_app. unfold dists_with. apply Permutation_app; [apply held_snd|]. by destruct extra.
Qed.

Lemma below_snd d (l : list (option skey * Z)) : below snd d l = below id d (snd <$> l).
Proof.
  unfold below. induction l as [|x l IH]; [done|]. cbn [fmap list_fmap]. rewrite !filter_cons. unfold id in *.
  case_decide; cbn; by rewrite IH.
Qed.

Definition extra_fresh (extra : option Z) : Prop := ∀ x, extra = Some x → x ∉ te_big <$> tableEntries N.

Lemma edist_inj x y : Z.lxor (n_id N) x = Z.lxor (n_id N) y → x = y.
Proof. intros H. apply (lxor_cancel x y (n_id N)). by rewrite !(Z.lxor_comm _ (n_id N)). Qed.

Lemma dists_nodup extra : ids_distinct N → extra_fresh extra → NoDup (dists_with extra).
Proof.
  intros [_ Hd] Hx. unfold dists_with, dists.
  assert (NoDup ((te_big <$> filter (λ e, isStalePeer (e_T E) (te_big e) = false) (tableEntries N)) ++ option_list extra)) as H.
  { apply NoDup_app. split_and!.
    - refine (sublist_NoDup _ _ Hd _). apply fmap_sublist, sublist_filter.
    - intros z Hz Hin. destruct extra as [x|]; [|by apply elem_of_nil in Hin]. apply list_elem_of_singleton in Hin as ->.
      apply (Hx x eq_refl). apply list_elem_of_fmap in Hz as (e & -> & He). apply list_elem_of_filter in He as [_ He].
      by apply list_elem_of_fmap_2.
    - destruct extra; [apply NoDup_singleton|constructor]. }
  apply (NoDup_fmap_2_strong (Z.lxor (n_id N))) in H; [|intros x y _ _; apply edist_inj].
  rewrite fmap_app, <- list_fmap_compose in H. by destruct extra.
Qed.

Lemma near_spec k extra e : ids_distinct N → extra_fresh extra → e ∈ tableEntries N →
  te_key e ∈ nearKeys E N k extra ↔
    isStalePeer (e_T E) (te_big e) = false ∧ (below id (edist e) (dists_with extra) < Z.to_nat k)%nat.
Proof.
  intros Hd Hx He. unfold nearKeys. destruct (ranked_sorted extra) as (l & -> & Hl).
  pose proof (ranked_snd extra l Hl) as Hs.
  assert (NoDup (snd <$> l)) as Hn by (rewrite Hs; by apply dists_nodup).
  assert (∀ d, (Some (te_key e), d) ∈ l ↔ isStalePeer (e_T E) (te_big e) = false ∧ d = edist e) as Hin.
  { intros d. rewrite Hl, elem_of_app, held_perm, list_elem_of_fmap. split.
    - intros [(e' & [= Hk ->] & He')|Hn'].
      + apply list_elem_of_filter in He' as [Hst He'].
        assert (e = e') as <- by (apply (entry_key_eq N); [apply Hd|done..]). done.
      + apply list_elem_of_fmap in Hn' as (x & [=] & _).
    - intros [Hst ->]. left. exists e. split; [done|]. by apply list_elem_of_filter. }
  rewrite list_elem_of_omap. split.
  - intros ([o d] & Hd' & Ho). cbn in Ho. subst o. apply (take_sort_rank snd) in Hd' as [Hd' Hlt]; [|done].
    apply Hin in Hd' as [Hst ->]. split; [done|]. by rewrite below_snd, Hs in Hlt.
  - intros [Hst Hlt]. exists (Some (te_key e), edist e). split; [|done]. apply (take_sort_rank snd); [done|].
    split; [by apply Hin|]. by rewrite below_snd, Hs.
Qed.

Lemma nearCeil_pos k c : nearCeil E N k = Ok c → Z.of_nat (length dists) < k ∨ 0 < k.
Proof.
  unfold nearCeil. assert (length (held E N) = length dists) as -> by (rewrite <- held_snd; by rewrite length_fmap).
  destruct (k <=? _) eqn:E1; zb; [|by left]. destruct (k <=? 0) eqn:E2; zb; [done|by right].
Qed.

Lemma nearCeil_below k c x : nearCeil E N k = Ok c → 0 < k → (Z.to_nat k ≤ below id x dists)%nat →
  ∃ d, c = Some d ∧ d < x.
Proof.
  unfold nearCeil. intros Hc Hk Hb. rewrite <- held_snd, <- below_snd in Hb.
  pose proof (below_le_length snd x (held E N)) as Hl.
  destruct (k <=? Z.of_nat (length (held E N))) eqn:E1; zb; [|lia]. destruct (k <=? 0) eqn:E2; zb; [lia|].
  destruct (sorted_nth_below snd (Z.to_nat (k - 1)) x (held E N)) as (y & Hy & Hlt); [apply sort_by_sorted|lia|].
  rewrite Hy in Hc. injection Hc as <-. by exists y.2.
Qed.
End near.

(** * Lemmas: the table after a commit *)

Lemma jset_append {K V} `{EqDecision K} (m : jmap K V) k v : jhas m k = false → jset m k v = m ++ [(k, v)].
Proof.
  rewrite jhas_false. induction m as [|[k' v'] m IH]; [done|]. cbn. case_decide; [done|]. intros Hn. by rewrite IH.
Qed.

Lemma omap_jdel (m : jmap skey synapse) k :
  omap (λ p, (λ b, mk_tentry p.1 b p.2) <$> key_big p.1) (jdel m k) =
  filter (λ e, te_key e ≠ k) (omap (λ p, (λ b, mk_tentry p.1 b p.2) <$> key_big p.1) m).
Proof.
  induction m as [|[k' s] m IH]; [done|]. unfold jdel in *. rewrite filter_cons. cbn [fst].
  cbn [omap list_omap fst snd]. destruct (key_big k') as [b|] eqn:Eb; cbn [fmap option_fmap option_map].
  - rewrite filter_cons. cbn [te_key]. case_decide; [|exact IH]. cbn [omap list_omap fst snd].
    rewrite Eb. cbn [fmap option_fmap option_map]. by rewrite IH.
  - case_decide; [|exact IH]. cbn [omap list_omap fst snd]. rewrite Eb. exact IH.
Qed.

(** What a committed swap leaves: everything but the victim, and the newcomer. *)
Lemma swap_entries s k near G : in_table (g_node G) s = false → KBig s ≠ k →
  let G' := (committed s (Yes (Swap k near)) G).1 in
  ∃ e, te_key e = KBig s ∧ te_big e = s ∧
    tableEntries (g_node G') = filter (λ e, te_key e ≠ k) (tableEntries (g_node G)) ++ [e] ∧
    n_id (g_node G') = n_id (g_node G) ∧ maxSynaptome (g_node G') = maxSynaptome (g_node G) ∧
    g_table G' = jdel (g_table G) k ++ [(KBig s, te_syn e)].
Proof.
  intros Hin Hk. cbn zeta. unfold in_table in Hin. apply orb_false_iff in Hin as [Hin _].
  unfold committed, seedInsert, close, with_conns, with_node, with_synaptome, g_table, self. cbn.
  set (syn := mk_synapse _ _ _ _ _ _). exists (mk_tentry (KBig s) s syn). cbn [te_key te_big te_syn].
  assert (jset (jdel (synaptome (g_node G)) k) (KBig s) syn = jdel (synaptome (g_node G)) k ++ [(KBig s, syn)]) as Hj.
  { apply jset_append, jhas_false. rewrite jget_jdel_ne by congruence. by apply jhas_false. }
  split_and!; try done. unfold tableEntries. cbn [synaptome]. rewrite Hj, omap_app, omap_jdel. done.
Qed.

(** * What a swap is *)

(** Both directions of the decision at cap. *)
Lemma decision_at_cap E c G s cap : capM E (g_node G) = Ok cap → cap ≤ jsize (g_table G) →
  gateDecision E c G s = (d ← swap_decision E c (g_node G) s; Ok (G, d)).
Proof. intros Hc Hle. unfold gateDecision. rewrite Hc. cbn. by rewrite (proj2 (Z.ltb_ge _ _) Hle). Qed.

Lemma gateCommit_cases s d G : gateCommit s d G = Ok (committed s d G) ∨ ∃ x, gateCommit s d G = Throw x.
Proof.
  destruct d as [[|key t|k []]|why]; cbn [gateCommit]; auto. destruct (toHex _ _); cbn [mbind js_result_bind]; [by left|right; eauto].
Qed.

Definition near_improve (R : retention) (N : node) (s : Z) : bool :=
  match rt_ceil R with Some d => Z.lxor (n_id N) s <? d | None => false end.

Lemma swap_inv E c G s G' k near : gateDecision E c G s = Ok (G', Yes (Swap k near)) →
  let N := g_node G in
  ∃ cap R, G' = G ∧ capM E N = Ok cap ∧ cap ≤ jsize (g_table G) ∧
    retentionMap E N (kNear c) (sparseFloor c) (Some s) = Ok R ∧ near = near_improve R N s ∧
    v_key (chosen E N R near (counts E N (groupOf E (n_id N) s))) = Some k ∧ mayRetire E k = MayRetire.
Proof.
  cbn zeta. unfold gateDecision. destruct (capM E (g_node G)) as [cap|]; [|done]. cbn.
  destruct (_ <? cap) eqn:Ec; zb.
  { intros Hl. unfold lane in Hl. repeat case_match; simplify_eq. }
  unfold swap_decision. destruct (retentionMap _ _ _ _ _) as [R|] eqn:ER; [|done]. cbn.
  fold (near_improve R (g_node G) s). fold (chosen E (g_node G) R (near_improve R (g_node G) s) (counts E (g_node G) (groupOf E (n_id (g_node G)) s))).
  destruct (v_key _) as [k'|] eqn:Ek; [|done]. destruct (mayRetire E k') eqn:Em; [|by destruct (toHex _ _)]. intros [= <- <- <-].
  exists cap, R. done.
Qed.

(** A swap at cap evicts an entry no reason holds - not among the [kNear] nearest once the
    newcomer is ranked in, in a band above the sparse floor, not the bridge, owed no duty - of
    the densest band such entries are in; and the newcomer is either strictly closer than the
    [kNear]-th nearest held peer or its band is at least two below the victim's. *)
Theorem swap_spec (E : genv) (c : gcfg) (G G' : gate) (s : Z) (k : skey) (near : bool) :
  jwf (g_table G) → gateDecision E c G s = Ok (G', Yes (Swap k near)) →
  let N := g_node G in
  let free e := te_key e ∉ nearKeys E N (kNear c) (Some s) ∧ sparseFloor c < band_count E N e ∧
    t_bridgeNode (e_T E) ≫= Routing.idOf ≠ Some (te_big e) ∧
    (near = false → counts E N (groupOf E (n_id N) s) + 2 ≤ band_count E N e) in
  (∃ cap, capM E N = Ok cap ∧ cap ≤ jsize (g_table G)) ∧
  (∃ e, e ∈ tableEntries N ∧ te_key e = k ∧ free e ∧
     ∀ e', e' ∈ tableEntries N → free e' → band_count E N e' ≤ band_count E N e) ∧
  mayRetire E k = MayRetire ∧
  (near = true ↔ ∃ d, nearCeil E N (kNear c) = Ok (Some d) ∧ Z.lxor (n_id N) s < d).
Proof.
  intros Hw Hd. cbn zeta. destruct (swap_inv E c G s G' k near Hd) as (cap & R & _ & Hcap & Hle & HR & Hn & Hk & Hm).
  assert (∀ e, e ∈ tableEntries (g_node G) →
    evictable E (g_node G) R near (counts E (g_node G) (groupOf E (n_id (g_node G)) s)) e = true ↔
    (te_key e ∉ nearKeys E (g_node G) (kNear c) (Some s) ∧ sparseFloor c < band_count E (g_node G) e ∧
     t_bridgeNode (e_T E) ≫= Routing.idOf ≠ Some (te_big e) ∧
     (near = false → counts E (g_node G) (groupOf E (n_id (g_node G)) s) + 2 ≤ band_count E (g_node G) e))) as Hev.
  { intros e He. unfold evictable. rewrite (protected_spec _ _ _ _ _ _ _ Hw He HR). fold (band_count E (g_node G) e).
    rewrite andb_true_iff, negb_true_iff, !orb_false_iff, !bool_decide_eq_false, Z.leb_gt, orb_true_iff, Z.leb_le.
    destruct near; naive_solver. }
  split; [by exists cap|]. split; [|split; [done|]].
  - destruct (victim_Some _ _ _ _ _ _ Hk) as (e & He & Hke & Hok & Hmax). exists e.
    split; [done|]. split; [done|]. split; [by apply Hev|].
    intros e' He' Hf. apply Hmax; [done|]. by apply Hev.
  - subst near. unfold retentionMap in HR. destruct (nearCeil _ _ _) as [o|]; [|done]. injection HR as <-.
    unfold near_improve. cbn [rt_ceil]. destruct o as [d|]; [rewrite Z.ltb_lt|]; naive_solver.
Qed.

(** * No bouncing *)

Section bounce.
Context (E : genv) (c : gcfg) (G : gate) (s : Z) (k : skey) (near : bool) (ev : tentry) (R : retention) (cap : Z).
Let N := g_node G.
Let G2 := (committed s (Yes (Swap k near)) G).1.
Let N2 := g_node G2.
Context (Hids : ids_distinct N) (Hin : in_table N s = false) (Hs : s ∉ te_big <$> tableEntries N).
Context (Hev : ev ∈ tableEntries N) (Hkev : te_key ev = k).
Context (Hst_s : isStalePeer (e_T E) s = false) (Hst_v : isStalePeer (e_T E) (te_big ev) = false).
Context (HR : retentionMap E N (kNear c) (sparseFloor c) (Some s) = Ok R).
Context (Hfree : protected R ev = false).

Lemma bounce_entries : ∃ en, te_key en = KBig s ∧ te_big en = s ∧
  tableEntries N2 = filter (λ e, te_key e ≠ k) (tableEntries N) ++ [en] ∧
  n_id N2 = n_id N ∧ maxSynaptome N2 = maxSynaptome N ∧ synaptome N2 = jdel (synaptome N) k ++ [(KBig s, te_syn en)].
Proof.
  apply swap_entries; [done|]. intros Hk. rewrite <- Hkev in Hk. pose proof (proj1 (elem_entry N ev) Hev) as [H1 H2].
  rewrite <- Hk in H2. injection H2 as H2. apply Hs. rewrite H2. by apply list_elem_of_fmap_2.
Qed.

Context (en : tentry) (Hen : te_big en = s) (Henk : te_key en = KBig s).
Context (Het : tableEntries N2 = filter (λ e, te_key e ≠ k) (tableEntries N) ++ [en]) (Hid : n_id N2 = n_id N).

Lemma bounce_perm : ev :: tableEntries N2 ≡ₚ tableEntries N ++ [en].
Proof.
  rewrite Het. assert (ev :: filter (λ e, te_key e ≠ k) (tableEntries N) ≡ₚ tableEntries N) as Hp;
    [|exact (Permutation_app_tail [en] Hp)].
  pose proof (entries_nodup N (proj1 Hids)) as Hn. revert Hev Hn. clear -Hkev. induction (tableEntries N) as [|e l IH]; intros Hin Hn.
  { by apply elem_of_nil in Hin. }
  cbn [fmap list_fmap] in Hn. apply NoDup_cons in Hn as [Hn1 Hn2]. rewrite filter_cons. apply elem_of_cons in Hin as [->|Hin].
  - rewrite decide_False by (rewrite Hkev; naive_solver). f_equiv. rewrite filter_all; [done|].
    intros x Hx Hk. apply Hn1. rewrite Hkev, <- Hk. by apply list_elem_of_fmap_2.
  - rewrite decide_True; [rewrite Permutation_swap; f_equiv; by apply IH|].
    intros Hk. apply Hn1. rewrite Hk, <- Hkev. by apply list_elem_of_fmap_2.
Qed.

Lemma bounce_elem e : e ∈ tableEntries N2 ↔ (e ∈ tableEntries N ∧ te_key e ≠ k) ∨ e = en.
Proof.
  rewrite Het, elem_of_app, list_elem_of_filter, list_elem_of_singleton.
  split; (intros [[H1 H2]|H]; [left; by split|by right]).
Qed.

Lemma bounce_dists : edist N ev :: dists E N2 ≡ₚ dists E N ++ [edist N en].
Proof.
  unfold dists.
  assert (filter (λ e, isStalePeer (e_T E) (te_big e) = false) (ev :: tableEntries N2) ≡ₚ
    filter (λ e, isStalePeer (e_T E) (te_big e) = false) (tableEntries N ++ [en])) as H by (by rewrite bounce_perm).
  rewrite filter_cons, decide_True, filter_app, filter_cons, decide_True in H; [|by rewrite Hen|done].
  apply (fmap_Permutation (edist N)) in H. rewrite fmap_app in H. unfold edist in *. rewrite Hid. exact H.
Qed.

Lemma bounce_dists_with : dists_with E N2 (Some (te_big ev)) ≡ₚ dists_with E N (Some s).
Proof.
  unfold dists_with. cbn [option_list fmap option_fmap option_map]. rewrite Hid. pose proof bounce_dists as H. unfold edist in H. rewrite Hen in H.
  rewrite <- H. apply Permutation_sym, Permutation_cons_append.
Qed.

Lemma bounce_ids : ids_distinct N2 ∧ te_big ev ∉ te_big <$> tableEntries N2.
Proof.
  destruct Hids as [Hw Hd].
  assert (NoDup (te_big <$> (ev :: tableEntries N2))) as Hn.
  { rewrite bounce_perm, fmap_app. apply NoDup_app. split_and!; [done| |apply NoDup_singleton].
    intros x Hx Hx'. apply list_elem_of_singleton in Hx' as ->. apply Hs. by rewrite <- Hen. }
  cbn [fmap list_fmap] in Hn. apply NoDup_cons in Hn as [Hn1 Hn2]. split; [|done]. split; [|done].
  destruct bounce_entries as (en' & _ & _ & _ & _ & _ & Hsyn). rewrite Hsyn. unfold jwf. rewrite fmap_app. apply NoDup_app.
  split_and!; [by apply jwf_jdel| |apply NoDup_singleton]. intros x Hx Hx'. apply list_elem_of_singleton in Hx' as ->.
  unfold in_table in Hin. apply orb_false_iff in Hin as [Hin' _]. apply jhas_false, jget_None in Hin'. apply Hin'.
  eapply elem_of_sublist; [exact Hx|apply jkeys_jdel_sublist].
Qed.

Lemma bounce_counts g : counts E N2 g =
  counts E N g - (if decide (groupOf E (n_id N) (te_big ev) = g) then 1 else 0) +
    (if decide (groupOf E (n_id N) s = g) then 1 else 0).
Proof.
  unfold counts. rewrite Hid.
  assert (length (filter (λ e, groupOf E (n_id N) (te_big e) = g) (ev :: tableEntries N2)) =
    length (filter (λ e, groupOf E (n_id N) (te_big e) = g) (tableEntries N ++ [en]))) as H by (by rewrite bounce_perm).
  rewrite filter_app, length_app, !filter_cons, filter_nil, Hen in H. repeat case_decide; cbn [length] in H; lia.
Qed.

Lemma bounce_near e extra : e ∈ tableEntries N → extra = Some s → e ∈ tableEntries N2 →
  (te_key e ∈ nearKeys E N2 (kNear c) (Some (te_big ev)) ↔ te_key e ∈ nearKeys E N (kNear c) extra).
Proof.
  intros He -> He2. destruct bounce_ids as [Hids2 Hv]. rewrite (near_spec E N2), (near_spec E N); try done.
  - unfold edist. by rewrite Hid, bounce_dists_with.
  - by intros x [= <-].
  - by intros x [= <-].
Qed.

Lemma bounce_retention : ∃ R2, retentionMap E N2 (kNear c) (sparseFloor c) (Some (te_big ev)) = Ok R2 ∧
  near_improve R2 N2 (te_big ev) = false.
Proof.
  destruct bounce_ids as [Hids2 Hv].
  assert (length (held E N2) = length (held E N)) as Hlen.
  { assert (length (dists E N2) = length (dists E N)) as H.
    { pose proof (Permutation_length bounce_dists) as H. rewrite length_app in H. cbn [length] in H. lia. }
    rewrite <- (length_fmap snd), held_snd. rewrite H. by rewrite <- (held_snd E N), length_fmap. }
  assert (∃ o, nearCeil E N2 (kNear c) = Ok o) as [o Ho].
  { unfold retentionMap in HR. destruct (nearCeil E N (kNear c)) as [o|] eqn:Eo; [|done].
    unfold nearCeil in *. rewrite Hlen. destruct (_ <=? _); [|by eexists]. destruct (_ <=? 0); [done|by eexists]. }
  unfold retentionMap. rewrite Ho. unfold mbind, js_result_bind. eexists. split; [reflexivity|]. unfold near_improve. cbn [rt_ceil].
  destruct o as [d|]; [|done]. apply Z.ltb_ge.
  assert (0 < kNear c) as Hk.
  { unfold nearCeil in Ho. destruct (_ <=? Z.of_nat _); [|done]. destruct (_ <=? 0) eqn:E0; zb; [done|lia]. }
  assert (¬ (below id (edist N ev) (dists_with E N (Some s)) < Z.to_nat (kNear c))%nat) as Hb.
  { intros Hlt. rewrite (protected_spec _ _ _ _ _ _ _ (proj1 Hids) Hev HR) in Hfree.
    rewrite !orb_false_iff, bool_decide_eq_false in Hfree. destruct Hfree as [[Hf _] _]. apply Hf.
    apply near_spec; try done. by intros x [= <-]. }
  rewrite <- bounce_dists_with in Hb. unfold dists_with in Hb. rewrite below_app in Hb.
  rewrite (below_0 id (edist N ev) (option_list _)) in Hb.
  2: { intros y Hy. apply list_elem_of_singleton in Hy as ->. unfold edist, id. rewrite Hid. lia. }
  destruct (nearCeil_below E N2 (kNear c) (Some d) (edist N ev) Ho Hk) as (d' & [= <-] & Hlt); [lia|].
  unfold edist in Hlt. rewrite Hid. lia.
Qed.

(** Protection carries over: what a reason held before the swap it holds after. *)
Lemma bounce_protected R2 e : retentionMap E N2 (kNear c) (sparseFloor c) (Some (te_big ev)) = Ok R2 →
  e ∈ tableEntries N → e ∈ tableEntries N2 → band_count E N2 e = band_count E N e →
  protected R2 e = protected R e.
Proof.
  intros HR2 He He2 Hb. rewrite (protected_spec _ _ _ _ _ _ _ (proj1 (proj1 bounce_ids)) He2 HR2).
  rewrite (protected_spec _ _ _ _ _ _ _ (proj1 Hids) He HR), Hb.
  do 2 f_equal. apply bool_decide_ext. by apply bounce_near.
Qed.

(** A newcomer that came in by distance is near. *)
Lemma bounce_newcomer R2 : retentionMap E N2 (kNear c) (sparseFloor c) (Some (te_big ev)) = Ok R2 →
  near_improve R N s = true → protected R2 en = true.
Proof.
  intros HR2 Hni. destruct bounce_ids as [Hids2 Hv].
  assert (en ∈ tableEntries N2) as He by (apply bounce_elem; by right).
  rewrite (protected_spec _ _ _ _ _ _ _ (proj1 Hids2) He HR2), bool_decide_eq_true_2; [done|].
  apply near_spec; [done|by intros x [= <-]|done|]. rewrite Hen. split; [done|].
  rewrite bounce_dists_with. unfold dists_with. rewrite below_app.
  assert (edist N2 en = Z.lxor (n_id N) s) as -> by (unfold edist; by rewrite Hid, Hen).
  rewrite (below_0 id _ (option_list _)); [|intros y Hy; apply list_elem_of_singleton in Hy as ->; unfold id; lia].
  unfold retentionMap in HR. destruct (nearCeil E N (kNear c)) as [o|] eqn:Eo; [|done]. injection HR as <-.
  unfold near_improve in Hni. cbn [rt_ceil] in Hni. destruct o as [d|]; [|done]. zb.
  unfold nearCeil in Eo. destruct (_ <=? Z.of_nat _) eqn:E1; [|done]. destruct (_ <=? 0) eqn:E2; [done|]. zb. injection Eo as Eo.
  apply fmap_Some in Eo as (y & Hy & ->). rewrite <- held_snd, <- below_snd.
  pose proof (sorted_nth_above snd _ (Z.lxor (n_id N) s) y (held E N) (sort_by_sorted _ _) Hy ltac:(lia)). lia.
Qed.
End bounce.

(** A swap does not bounce. Offer the evicted peer again at once: after a band swap it is
    refused outright, and after a near displacement it neither displaces anyone by distance nor
    takes the newcomer's place - or the question throws, where the log is to name, by [toHex], a
    legacy hex key that the duty gate protects. For peers the transport does not call stale, in a
    table that holds no id twice. *)
Theorem swap_does_not_bounce (E : genv) (c : gcfg) (G G1 : gate) (s : Z) (k : skey) (near : bool) (ev : tentry) :
  ids_distinct (g_node G) → in_table (g_node G) s = false → s ∉ te_big <$> tableEntries (g_node G) →
  ev ∈ tableEntries (g_node G) → te_key ev = k →
  isStalePeer (e_T E) s = false → isStalePeer (e_T E) (te_big ev) = false →
  gateDecision E c G s = Ok (G1, Yes (Swap k near)) →
  let G2 := (committed s (Yes (Swap k near)) G1).1 in
  (∃ d, gateDecision E c G2 (te_big ev) = Ok (G2, d) ∧ (near = false → d = No "no-swap") ∧
        d ≠ Yes Admit ∧ ∀ k' near', d = Yes (Swap k' near') → near' = false ∧ k' ≠ KBig s) ∨
  (near = true ∧ ∃ x, gateDecision E c G2 (te_big ev) = Throw x).
Proof.
  intros Hids Hin Hs Hev Hkev Hss Hsv Hd.
  destruct (swap_inv E c G s G1 k near Hd) as (cap & R & -> & Hcap & Hle & HR & Hn & Hk & Hm).
  destruct (victim_Some _ _ _ _ _ _ Hk) as (e0 & He0 & Hke0 & Hok & Hmax).
  assert (e0 = ev) as -> by (apply (entry_key_eq (g_node G)); [apply Hids|done|done|congruence]).
  unfold evictable in Hok. apply andb_true_iff in Hok as [Hfree Hmar]. apply negb_true_iff in Hfree.
  destruct (bounce_entries G s k near ev Hin Hs Hev Hkev) as (en & Henk & Hen & Het & Hid & Hmaxs & Hsyn).
  cbn zeta. set (G2 := (committed s (Yes (Swap k near)) G).1) in *.
  destruct (bounce_retention E c G s k near ev R Hids Hin Hs Hev Hkev Hss Hsv HR Hfree en Hen Het Hid) as (R2 & HR2 & Hni2).
  assert (cap ≤ jsize (g_table G2)) as Hle2.
  { unfold g_table in *. rewrite Hsyn. unfold jsize. rewrite length_app. cbn [length].
    assert (jhas (synaptome (g_node G)) k = true) as Hh.
    { apply jhas_true. exists (te_syn ev). apply elem_jget; [apply Hids|]. rewrite <- Hkev. by apply elem_entry. }
    pose proof (jsize_jdel (synaptome (g_node G)) k (proj1 Hids)) as Hj. rewrite Hh in Hj. unfold jsize in *. lia. }
  assert (capM E (g_node G2) = Ok cap) as Hcap2 by (rewrite <- Hcap; unfold capM; by rewrite Hmaxs).
  pose proof (bounce_counts E G s k near ev Hids Hev Hkev en Hen Het Hid) as Hcnt.
  pose proof (bounce_elem G s k near en Het) as Helem.
  pose proof (bounce_protected E c G s k near ev R Hids Hin Hs Hev Hkev Hss Hsv HR en Hen Het Hid R2) as Hprot.
  pose proof (bounce_newcomer E c G s k near ev R Hids Hin Hs Hev Hkev Hss Hsv HR Hfree en Hen Het Hid R2) as Hnew.
  fold G2 in HR2, Hni2, Hcnt, Helem, Hprot, Hnew. specialize (Hnew HR2).
  rewrite (decision_at_cap E c G2 _ cap Hcap2 Hle2). unfold swap_decision.
  rewrite HR2. unfold mbind, js_result_bind. fold (near_improve R2 (g_node G2) (te_big ev)). rewrite Hni2.
  set (cc2 := counts E (g_node G2) _). fold (chosen E (g_node G2) R2 false cc2).
  destruct (v_key (chosen E (g_node G2) R2 false cc2)) as [k'|] eqn:Ek.
  2: { left. by exists (No "no-swap"). }
  destruct (victim_Some _ _ _ _ _ _ Ek) as (e & He & Hke & Hoke & _).
  unfold evictable in Hoke. apply andb_true_iff in Hoke as [Hf2 Hm2]. cbn [orb] in Hm2. apply Z.leb_le in Hm2.
  apply negb_true_iff in Hf2. unfold cc2 in Hm2. rewrite !Hcnt, Hid in Hm2.
  assert (near = true) as Hnt.
  { destruct near; [done|]. exfalso. cbn [orb] in Hmar. apply Z.leb_le in Hmar. unfold band_count in Hmax, Hprot.
    destruct (proj1 (Helem e) He) as [[HeN _]|Heq].
    - assert (groupOf E (n_id (g_node G)) (te_big e) ≠ groupOf E (n_id (g_node G)) (te_big ev) ∧
              groupOf E (n_id (g_node G)) (te_big e) ≠ groupOf E (n_id (g_node G)) s ∧
              counts E (g_node G) (groupOf E (n_id (g_node G)) (te_big ev)) <
              counts E (g_node G) (groupOf E (n_id (g_node G)) (te_big e))) as (Hne1 & Hne2 & Hlt).
      { revert Hmar Hm2. generalize (groupOf E (n_id (g_node G)) (te_big e)) (groupOf E (n_id (g_node G)) (te_big ev))
          (groupOf E (n_id (g_node G)) s). clear. intros ge gv gs Hmar Hm2. repeat case_decide; subst; lia. }
      specialize (Hprot e HR2 HeN He). rewrite Hcnt, Hid, !decide_False, Z.sub_0_r, Z.add_0_r in Hprot by congruence.
      specialize (Hprot eq_refl). rewrite Hf2 in Hprot.
      assert (evictable E (g_node G) R false (counts E (g_node G) (groupOf E (n_id (g_node G)) s)) e = true) as Hee.
      { unfold evictable. rewrite <- Hprot. cbn [negb andb orb]. apply Z.leb_le. lia. }
      specialize (Hmax e HeN Hee). lia.
    - rewrite Heq, Hen in Hm2. revert Hmar Hm2. generalize (groupOf E (n_id (g_node G)) (te_big ev)) (groupOf E (n_id (g_node G)) s).
      clear. intros gv gs Hmar Hm2. repeat case_decide; subst; try done; lia. }
  destruct (mayRetire E k') eqn:Emr; [|destruct (toHex production (key_jsv k')); [left|right; eauto]].
  2: { exists (No "duty"). split_and!; [done|congruence|done|done]. }
  left. exists (Yes (Swap k' false)). split; [done|]. split; [congruence|]. split; [done|].
  intros k1 n1 Heq. injection Heq as <- <-. split; [done|]. intros Hks.
  assert (e = en) as ->; [|rewrite Hnew in Hf2; congruence].
  pose proof (bounce_ids G s k near ev Hids Hin Hs Hev Hkev en Hen Het) as [[Hw2 _] _].
  apply (entry_key_eq (g_node G2)); [done|done|apply Helem; by right|congruence].
Qed.

(** * Runs: the size of the table *)

Definition same_gate (G G' : gate) : Prop :=
  g_node G' = g_node G ∧ g_cfg G' = g_cfg G ∧ gracePending G' = gracePending G ∧ closed G' = closed G.

Lemma decision_frame E c G s G' d : gateDecision E c G s = Ok (G', d) → same_gate G G'.
Proof.
  unfold gateDecision. destruct (capM _ _) as [cap|]; [|done]. cbn. destruct (_ <? cap).
  - destruct (_ && _); [|by intros [= <- <-]]. intros [= Hl]. unfold lane in Hl. repeat case_match; simplify_eq; done.
  - destruct (swap_decision _ _ _ _); [|done]. by intros [= <- <-].
Qed.

Definition fits (cap : Z) (G : gate) : Prop := jwf (g_table G) ∧ jsize (g_table G) ≤ cap.

Lemma seedInsert_fits cap s why G : jwf (g_table G) → jsize (g_table G) + 1 ≤ cap → fits cap (seedInsert s why G).
Proof.
  intros Hw Hs. unfold fits, seedInsert, g_table in *. cbn. split; [by apply jwf_jset|].
  rewrite jsize_jset. destruct (jhas _ _); lia.
Qed.

Lemma commit_fits E c G s G' d cap : gateDecision E c G s = Ok (G', d) → fits cap G →
  (∀ m, capM E (g_node G) = Ok m → m ≤ cap) → fits cap (committed s d G').1.
Proof.
  intros Hd Hf Hm. destruct (decision_frame _ _ _ _ _ _ Hd) as (Hn & _).
  assert (g_table G' = g_table G) as Ht by (unfold g_table; by rewrite Hn).
  destruct d as [[| key t|k near]|why]; cbn [committed fst].
  4: { unfold fits. by rewrite Ht. }
  3: { destruct (swap_inv _ _ _ _ _ _ _ Hd) as (cap0 & R & -> & _ & _ & _ & _ & Hk & _).
       destruct (victim_Some _ _ _ _ _ _ Hk) as (e & He & Hke & _). apply elem_entry in He as [He _]. rewrite Hke in He.
       destruct Hf as [Hw Hs]. apply seedInsert_fits; unfold g_table in *; cbn; [by apply jwf_jdel|].
       assert (jhas (synaptome (g_node G)) k = true) as Hh by (apply jhas_true; exists (te_syn e); by apply elem_jget).
       pose proof (jsize_jdel _ k Hw) as Hj. rewrite Hh in Hj. lia. }
  all: assert (jsize (g_table G) + 1 ≤ cap) as Hroom
    by (unfold gateDecision in Hd; destruct (capM E (g_node G)) as [cap0|] eqn:Ec; [|done]; cbn in Hd;
        destruct (jsize (g_table G) <? cap0) eqn:El; zb; [specialize (Hm _ eq_refl); lia|];
        exfalso; unfold swap_decision in Hd; destruct (retentionMap _ _ _ _ _); [|done]; cbn in Hd;
        destruct (v_key _); [|done]; destruct (mayRetire _ _); [done|by destruct (toHex _ _)]).
  all: destruct Hf as [Hw Hs]; apply seedInsert_fits; unfold g_table in *; cbn [g_node with_laneLastAt with_laneSeen];
    by rewrite Hn.
Qed.

Lemma commit_cfg s d G : g_cfg (committed s d G).1 = g_cfg G ∧ maxSynaptome (g_node (committed s d G).1) = maxSynaptome (g_node G).
Proof. by destruct d as [[| |]|]. Qed.

Lemma reclass_frame E s a dflt G : same_gate G (reclass E s a dflt G).1.
Proof. unfold reclass. by destruct (e_reclass E). Qed.

Lemma overflow_frame E m fuel : ∀ G, g_node (overflow E m fuel G) = g_node G ∧ g_cfg (overflow E m fuel G) = g_cfg G.
Proof.
  induction fuel as [|n IH]; intros G; [done|]. cbn [overflow]. destruct (_ <=? _); [|done].
  destruct (List.find _ _) as [p|]; [|done]. by destruct (IH (close (KBig p.1) (with_pending (jdel (gracePending G) p.1) G))) as [-> ->].
Qed.

Lemma refused_frame E c s G : g_node (refused E c s G) = g_node G ∧ g_cfg (refused E c s G) = g_cfg G.
Proof.
  unfold refused, doClose, arm. destruct (_ && _); [done|]. destruct (_ && _); [|by destruct (ok_ _)].
  cbn. apply overflow_frame.
Qed.

(** What every step of an armed gate keeps. *)
Definition kept (cap : Z) (c : gcfg) (ms : option Z) (G : gate) : Prop :=
  g_cfg G = Some c ∧ maxSynaptome (g_node G) = ms ∧ fits cap G.

Lemma kept_node cap c ms G G' : g_node G' = g_node G → g_cfg G' = g_cfg G → kept cap c ms G → kept cap c ms G'.
Proof. unfold kept, fits, g_table. by intros -> ->. Qed.

Lemma kept_commit E c cap ms G s G' d : gateDecision E c G s = Ok (G', d) → kept cap c ms G →
  (∀ m, capM E (g_node G) = Ok m → m ≤ cap) → kept cap c ms (committed s d G').1.
Proof.
  intros Hd (H1 & H2 & H3) Hm. destruct (decision_frame _ _ _ _ _ _ Hd) as (Hn & Hc & _).
  destruct (commit_cfg s d G') as [C1 C2]. split; [congruence|]. split; [congruence|]. by apply (commit_fits E c G).
Qed.

Lemma kept_promote E c cap ms G s G' b : promote E c G s = Ok (G', b) → kept cap c ms G →
  (∀ m, capM E (g_node G) = Ok m → m ≤ cap) → kept cap c ms G'.
Proof.
  unfold promote. intros Hp Hk Hm. destruct (gateDecision E c G s) as [[G1 d]|] eqn:Ed; [|done]. cbn [fst snd mbind js_result_bind] in Hp.
  pose proof (kept_commit _ _ _ _ _ _ _ _ Ed Hk Hm) as Hkc.
  destruct (decision_frame _ _ _ _ _ _ Ed) as (Hn & Hc & _).
  assert (∀ a dflt, kept cap c ms (committed s d (reclass E s a dflt G1).1).1) as Hr.
  { intros a dflt. unfold reclass. destruct (e_reclass E); [|done]. cbn [fst]. revert Hkc. by destruct d as [[| |]|]. }
  assert (kept cap c ms G1) as Hk1 by (by apply (kept_node cap c ms G)).
  destruct d as [[|key t|k near]|why].
  - destruct (reclass _ _ _ _ _) as [G2 rc] eqn:Er. specialize (Hr None (mk_rclass (Some true) (Some false))). rewrite Er in Hr.
    destruct (refused_reclass rc); injection Hp as <- <-; [|exact Hr].
    pose proof (reclass_frame E s None (mk_rclass (Some true) (Some false)) G1) as (F1 & F2 & _). rewrite Er in F1, F2.
    by apply (kept_node cap c ms G1).
  - destruct (reclass _ _ _ _ _) as [G2 rc] eqn:Er. specialize (Hr None (mk_rclass (Some true) (Some false))). rewrite Er in Hr.
    destruct (refused_reclass rc); injection Hp as <- <-; [|exact Hr].
    pose proof (reclass_frame E s None (mk_rclass (Some true) (Some false)) G1) as (F1 & F2 & _). rewrite Er in F1, F2.
    by apply (kept_node cap c ms G1).
  - destruct (gateCommit_cases s (Yes (Swap k near)) G1) as [Eg|[x Eg]]; rewrite Eg in Hp; [|done].
    injection Hp as <- <-. destruct (reclass_frame E s (key_big k) (mk_rclass (Some true) (Some false))
      (committed s (Yes (Swap k near)) G1).1) as (F1 & F2 & _). exact (kept_node cap c ms _ _ F1 F2 Hkc).
  - by injection Hp as <- <-.
Qed.

Lemma kept_step E c cap ms G o : kept cap c ms G → (∀ m, capM E (g_node G) = Ok m → m ≤ cap) → kept cap c ms (gstep E G o).
Proof.
  intros Hk Hm. destruct o as [s|s|s|k|]; cbn [gstep].
  - unfold seedSynaptomeWithSponsor. destruct (jhas _ _); [done|]. destruct (toHex _ _) as [hex|]; [|done].
    cbn [mbind js_result_bind]. destruct (jhas _ _); [done|]. rewrite (proj1 Hk). destruct (_ && _).
    + destruct (promote E c G s) as [[G' b]|] eqn:Ep; [|done]. by apply (kept_promote _ _ _ _ _ _ _ _ Ep).
    + unfold admitOrImprove. destruct (gateDecision E c G s) as [[G1 d]|] eqn:Ed; [|done]. cbn [mbind js_result_bind fst snd].
      pose proof (kept_commit _ _ _ _ _ _ _ _ Ed Hk Hm) as Hkc.
      destruct (gateCommit_cases s d G1) as [-> |[x ->]]; [|done]. cbn [mbind js_result_bind].
      destruct (committed s d G1) as [G2 b]. cbn [fst snd] in *.
      destruct b; [done|]. destruct (refused_frame E c s G2). by apply (kept_node cap c ms G2).
  - rewrite (proj1 Hk). apply (kept_node cap c ms G); [..|done];
      unfold graceFire, doClose, arm; destruct (negb _); try done; destruct (jhas _ _); try done; by destruct (ok_ _).
  - unfold gatePreflight. rewrite (proj1 Hk). destruct (jhas _ _); [done|]. destruct (toHex _ _); [|done].
    cbn [mbind js_result_bind]. destruct (jhas _ _); [done|]. destruct (gateDecision E c G s) as [[G1 d]|] eqn:Ed; [|done].
    cbn [mbind js_result_bind fst snd]. destruct (decision_frame _ _ _ _ _ _ Ed) as (F1 & F2 & _). by apply (kept_node cap c ms G).
  - destruct Hk as (H1 & H2 & Hw & Hs). split; [done|]. split; [done|]. unfold fits, g_table in *. cbn.
    split; [by apply jwf_jdel|]. pose proof (jsize_jdel_le (synaptome (g_node G)) k). lia.
  - apply (kept_node cap c ms G); [..|done]; unfold clearGracePending;
      generalize (gracePending G) as l; intros l; cbn [with_pending g_node g_cfg]; revert G Hk Hm; induction l as [|p l IH]; intros G Hk Hm;
      try done; cbn [foldl]; by apply (IH (close (KBig p.1) G)).
Qed.

(** C31. An armed gate holds its cap: whatever is offered, refused, promoted, dropped, timed out
    or asked in advance, in any order, the table never exceeds the cap it is configured with
    (the join lane included), and its keys stay distinct. *)
Theorem table_never_exceeds_cap (c : gcfg) (N : node) (cap : Z) (ops : list (genv * gop)) :
  jwf (synaptome N) → jsize (synaptome N) ≤ cap →
  (∀ x m, x ∈ ops → capM x.1 N = Ok m → m ≤ cap) →
  let G := grun (new_gate (Some c) N) ops in
  jwf (g_table G) ∧ jsize (g_table G) ≤ cap.
Proof.
  intros Hw Hs Hm. cbn zeta.
  assert (∀ ops G, kept cap c (maxSynaptome N) G → (∀ x m, x ∈ ops → capM x.1 N = Ok m → m ≤ cap) →
    kept cap c (maxSynaptome N) (grun G ops)) as Hall; [|by apply (Hall ops (new_gate (Some c) N))].
  clear. induction ops as [|x ops IH]; intros G Hk Hm; [done|]. cbn. apply IH; [|intros y m Hy; apply Hm; by right].
  apply kept_step; [done|]. intros m Hc. apply (Hm x m); [left|]. rewrite <- Hc. unfold capM. destruct Hk as (_ & -> & _). done.
Qed.

(** * Runs: what is closed *)

(** A step that closes only peers the duty gate lets go. *)
Definition lawful (E : genv) (G G' : gate) : Prop :=
  ∃ l, closed G' = closed G ++ l ∧ ∀ k, k ∈ l → mayRetire E k = MayRetire.

Lemma lawful_refl E G G' : closed G' = closed G → lawful E G G'.
Proof. intros H. exists []. rewrite app_nil_r. split; [done|]. intros k Hk. by apply elem_of_nil in Hk. Qed.

Lemma lawful_trans E G1 G2 G3 : lawful E G1 G2 → lawful E G2 G3 → lawful E G1 G3.
Proof.
  intros (l1 & H1 & L1) (l2 & H2 & L2). exists (l1 ++ l2). rewrite H2, H1, app_assoc. split; [done|].
  intros k [Hk|Hk]%elem_of_app; auto.
Qed.

Lemma lawful_close E k G G' : closed G' = closed G ++ [k] → mayRetire E k = MayRetire → lawful E G G'.
Proof. intros H Hk. exists [k]. split; [done|]. by intros j ->%list_elem_of_singleton. Qed.

Lemma ok_MayRetire v : ok_ v = true → v = MayRetire.
Proof. by destruct v. Qed.

Lemma lawful_commit E c G s G' d : gateDecision E c G s = Ok (G', d) → lawful E G (committed s d G').1.
Proof.
  intros Hd. destruct (decision_frame _ _ _ _ _ _ Hd) as (_ & _ & _ & Hc).
  destruct d as [[|key t|k near]|why]; [by apply lawful_refl..| |by apply lawful_refl].
  destruct (swap_inv _ _ _ _ _ _ _ Hd) as (cap & R & -> & _ & _ & _ & _ & _ & Hm). by apply (lawful_close E k).
Qed.

Lemma lawful_doClose E s G : lawful E G (doClose E s G).
Proof.
  unfold doClose. destruct (ok_ _) eqn:Eo; [|by apply lawful_refl]. apply ok_MayRetire in Eo. by apply (lawful_close E (KBig s)).
Qed.

Lemma find_pending E (m : jmap Z Z) p : List.find (λ p, ok_ (mayRetire E (KBig p.1))) m = Some p →
  p ∈ m ∧ mayRetire E (KBig p.1) = MayRetire.
Proof.
  intros H. apply List.find_some in H as [Hin Hok]. split; [by apply list_elem_of_In|by apply ok_MayRetire].
Qed.

Lemma lawful_overflow E m fuel : ∀ G, lawful E G (overflow E m fuel G).
Proof.
  induction fuel as [|n IH]; intros G; [by apply lawful_refl|]. cbn [overflow]. destruct (_ <=? _); [|by apply lawful_refl].
  destruct (List.find _ _) as [p|] eqn:Ef; [|by apply lawful_refl]. apply find_pending in Ef as [_ Hm].
  eapply lawful_trans; [|apply IH]. by apply (lawful_close E (KBig p.1)).
Qed.

Lemma lawful_promote E c G s G' b : promote E c G s = Ok (G', b) → lawful E G G'.
Proof.
  unfold promote. destruct (gateDecision E c G s) as [[G1 d]|] eqn:Ed; [|done]. cbn [mbind js_result_bind fst snd].
  pose proof (lawful_commit _ _ _ _ _ _ Ed) as Hc. destruct (decision_frame _ _ _ _ _ _ Ed) as (_ & _ & _ & Hcl).
  assert (∀ a dflt, closed (reclass E s a dflt G1).1 = closed G1) as Hr by (intros a dflt; apply reclass_frame).
  destruct d as [[|key t|k near]|why]; intros Hp.
  - specialize (Hr None (mk_rclass (Some true) (Some false))). destruct (reclass _ _ _ _ _) as [G2 rc]. cbn [fst] in Hr.
    destruct (refused_reclass rc); injection Hp as <- <-; apply lawful_refl; cbn; congruence.
  - specialize (Hr None (mk_rclass (Some true) (Some false))). destruct (reclass _ _ _ _ _) as [G2 rc]. cbn [fst] in Hr.
    destruct (refused_reclass rc); injection Hp as <- <-; apply lawful_refl; cbn; congruence.
  - destruct (gateCommit_cases s (Yes (Swap k near)) G1) as [Eg|[x Eg]]; rewrite Eg in Hp; [|done].
    injection Hp as <- <-. eapply lawful_trans; [exact Hc|]. apply lawful_refl. apply reclass_frame.
  - injection Hp as <- <-. by apply lawful_refl.
Qed.

(** No voluntary close of a peer this node owes something to: of every step but the node's own
    stop - an offer with the swap or the refusal it ends in, a promotion, a grace timer, an
    overflow of the pending closes - each peer it closes was let go by the duty gate at that
    step; where the obligations reader throws, none is. *)
Theorem closes_respect_duty (E : genv) (G : gate) (o : gop) :
  o ≠ GStop →
  ∃ l, closed (gstep E G o) = closed G ++ l ∧ (∀ k, k ∈ l → mayRetire E k = MayRetire) ∧
    (∀ f, e_duty E = Some f → (∀ hex, f hex = None) → l = []).
Proof.
  intros Ho. assert (lawful E G (gstep E G o)) as (l & Hl & Hk).
  2: { exists l. split_and!; [done|done|]. intros f Hf Hthrow. destruct l as [|k l]; [done|]. exfalso.
       specialize (Hk k ltac:(left)). unfold mayRetire in Hk. rewrite Hf in Hk. destruct (lower_hexOf k); [|done].
       by rewrite Hthrow in Hk. }
  destruct o as [s|s|s|k|]; cbn [gstep]; [| | |by apply lawful_refl|done].
  - unfold seedSynaptomeWithSponsor. destruct (jhas _ _); [by apply lawful_refl|]. destruct (toHex _ _) as [hex|]; [|by apply lawful_refl].
    cbn [mbind js_result_bind]. destruct (jhas _ _); [by apply lawful_refl|]. destruct (g_cfg G) as [c|].
    + destruct (_ && _).
      * destruct (promote E c G s) as [[G' b]|] eqn:Ep; [|by apply lawful_refl]. by apply lawful_promote in Ep.
      * unfold admitOrImprove. destruct (gateDecision E c G s) as [[G1 d]|] eqn:Ed; [|by apply lawful_refl].
        cbn [mbind js_result_bind fst snd]. pose proof (lawful_commit _ _ _ _ _ _ Ed) as Hc.
        destruct (gateCommit_cases s d G1) as [-> |[x ->]]; [|by apply lawful_refl]. cbn [mbind js_result_bind].
        destruct (committed s d G1) as [G2 b]. cbn [fst snd] in *. destruct b; [done|]. eapply lawful_trans; [exact Hc|].
        unfold refused. destruct (_ && _); [by apply lawful_refl|]. destruct (_ && _); [|apply lawful_doClose].
        eapply lawful_trans; [apply lawful_overflow|]. by apply lawful_refl.
    + unfold legacyInsertAllowed. destruct (_ || _).
      * cbn [negb]. destruct (e_engine E ≫= _); by apply lawful_refl.
      * pose proof (reclass_frame E s None (mk_rclass (Some false) None) G) as (_ & _ & _ & Hc).
        destruct (reclass _ _ _ _ _) as [G2 rc]. cbn [fst] in Hc. destruct (negb _); [by apply lawful_refl|].
        destruct (e_engine E ≫= _); by apply lawful_refl.
  - destruct (g_cfg G) as [c|]; [|by apply lawful_refl]. unfold graceFire. destruct (negb _); [by apply lawful_refl|].
    destruct (jhas _ _); [by apply lawful_refl|]. destruct (ok_ _); [|by apply lawful_refl].
    eapply lawful_trans; [|apply lawful_doClose]. by apply lawful_refl.
  - destruct (gatePreflight E G s) as [[G' p]|] eqn:Ep; [|by apply lawful_refl]. apply lawful_refl. revert Ep.
    unfold gatePreflight. destruct (g_cfg G) as [c|]; [|by intros [= <- _]]. destruct (jhas _ _); [by intros [= <- _]|].
    destruct (toHex _ _); [|done]. cbn [mbind js_result_bind]. destruct (jhas _ _); [by intros [= <- _]|].
    destruct (gateDecision E c G s) as [[G1 d]|] eqn:Ed; [|done]. cbn. intros [= <- _]. by destruct (decision_frame _ _ _ _ _ _ Ed) as (_ & _ & _ & ?).
Qed.

(** * The deferred closes *)

Lemma overflow_spec E m fuel : ∀ G, 0 < m → (length (gracePending G) ≤ fuel)%nat →
  let G' := overflow E m fuel G in
  (jsize (gracePending G') < m ∨ ∀ p, p ∈ gracePending G' → mayRetire E (KBig p.1) ≠ MayRetire) ∧
  jsize (gracePending G') ≤ jsize (gracePending G) ∧ (∀ p, p ∈ gracePending G' → p ∈ gracePending G).
Proof.
  induction fuel as [|n IH]; intros G Hm Hlen; cbn [overflow].
  { destruct (gracePending G) as [|? ?] eqn:Ep; [|cbn in Hlen; lia]. split_and!; [by left|done|done]. }
  destruct (m <=? jsize (gracePending G)) eqn:El; zb; [|split_and!; [by left|lia|done]].
  destruct (List.find _ _) as [p|] eqn:Ef.
  - apply find_pending in Ef as [Hin _]. set (G1 := close (KBig p.1) (with_pending (jdel (gracePending G) p.1) G)).
    assert (S (length (gracePending G1)) ≤ length (gracePending G))%nat as Hd.
    { cbn. unfold jdel. apply (length_filter_lt _ _ p); [done|naive_solver]. }
    destruct (IH G1 Hm ltac:(lia)) as (H1 & H2 & H3). split_and!; [done| |].
    + unfold jsize in *. lia.
    + intros q Hq. specialize (H3 q Hq). cbn in H3. by apply elem_of_jdel in H3 as [? _].
  - split_and!; [right|lia|done]. intros p Hp Hok. apply list_elem_of_In in Hp.
    apply (List.find_none _ _ Ef) in Hp. by rewrite Hok in Hp.
Qed.

Lemma elem_jset_key {K V} `{EqDecision K} (m : jmap K V) k v j : j ∈ (jset m k v).*1 → j ∈ m.*1 ∨ j = k.
Proof. rewrite jkeys_jset. case_decide; [by left|]. rewrite elem_of_app, list_elem_of_singleton. tauto. Qed.

(** The pending closes are bounded twice. A step that defers one leaves at most
    [graceMaxPending] of them, unless every older one is a duty and may not be closed; and
    while the node bounds its channels, those it keeps, its reverse index and the pending
    closes together stay within [maxConnections]. Any other step adds none. *)
Theorem deferred_closes_bounded (E : genv) (c : gcfg) (G : gate) (o : gop) :
  g_cfg G = Some c → 0 < graceMaxPending c →
  let G' := gstep E G o in
  (∀ p, p ∈ (gracePending G').*1 → p ∈ (gracePending G).*1) ∨
  ((jsize (gracePending G') ≤ graceMaxPending c ∨
    ∃ s, ∀ p, p ∈ (gracePending G').*1 → p ≠ s → mayRetire E (KBig p) ≠ MayRetire) ∧
   (∀ cap, e_maxConnections E = Some cap →
      jsize (g_table G') + jsize (incoming (g_node G')) + jsize (gracePending G') ≤ cap)).
Proof.
  intros Hc Hmax. cbn zeta.
  assert (∀ G', gracePending G' = gracePending G → ∀ p, p ∈ (gracePending G').*1 → p ∈ (gracePending G).*1) as Hsame
    by (intros G' ->; done).
  destruct o as [s|s|s|k|]; cbn [gstep]; [| | |by left; apply Hsame|left; intros p Hp; by apply elem_of_nil in Hp].
  - unfold seedSynaptomeWithSponsor. destruct (jhas _ _); [by left; apply Hsame|]. destruct (toHex _ _) as [hex|]; [|by left; apply Hsame].
    cbn [mbind js_result_bind]. destruct (jhas _ _); [by left; apply Hsame|]. rewrite Hc. destruct (_ && _).
    { destruct (promote E c G s) as [[G' b]|] eqn:Ep; [|by left; apply Hsame]. left. apply Hsame. cbn [fst mbind js_result_bind].
      revert Ep. unfold promote. destruct (gateDecision E c G s) as [[G1 d]|] eqn:Ed; [|done]. cbn [mbind js_result_bind fst snd].
      destruct (decision_frame _ _ _ _ _ _ Ed) as (_ & _ & Hp & _). rewrite <- Hp. unfold reclass.
      destruct (gateCommit_cases s d G1) as [Eg|[x Eg]]; (destruct d as [[|key t|k near]|why]; [| |rewrite Eg|]); try done;
        destruct (e_reclass E); cbn [fst snd mbind js_result_bind gateCommit];
        repeat destruct (refused_reclass _); intros [= <- _]; done. }
    unfold admitOrImprove. destruct (gateDecision E c G s) as [[G1 d]|] eqn:Ed; [|by left; apply Hsame].
    cbn [mbind js_result_bind fst snd]. destruct (decision_frame _ _ _ _ _ _ Ed) as (_ & _ & Hp & _).
    assert (gracePending (committed s d G1).1 = gracePending G) as Hp2 by (rewrite <- Hp; by destruct d as [[| |]|]).
    destruct (gateCommit_cases s d G1) as [-> |[x ->]]; [|by left; apply Hsame]. cbn [mbind js_result_bind].
    destruct (committed s d G1) as [G2 b]. cbn [fst snd] in *. destruct b; [by left; apply Hsame|].
    unfold refused. destruct (_ && _); [by left; apply Hsame|]. destruct (_ && headroom E G2) eqn:Eh.
    2: { left. apply Hsame. unfold doClose. by destruct (ok_ _). }
    right. apply andb_true_iff in Eh as [_ Eh].
    destruct (overflow_spec E (graceMaxPending c) (length (gracePending G2)) G2 Hmax ltac:(done)) as (O1 & O2 & _).
    destruct (overflow_frame E (graceMaxPending c) (length (gracePending G2)) G2) as [O3 _].
    set (G3 := overflow E (graceMaxPending c) (length (gracePending G2)) G2) in *. unfold arm.
    assert (jsize (jset (gracePending G3) s (e_now E + closeGraceMs c)) ≤ jsize (gracePending G3) + 1) as Hj
      by (rewrite jsize_jset; destruct (jhas _ _); lia). split.
    + cbn [gracePending with_pending]. destruct O1 as [O1|O1]; [left; lia|right]. exists s. intros p Hp' Hne.
      apply elem_jset_key in Hp' as [Hp'|Hp']; [|done].
      apply list_elem_of_fmap in Hp' as (q & -> & Hq). by apply O1.
    + intros cap Hcap. unfold headroom in Eh. rewrite Hcap in Eh. zb. cbn [g_table g_node gracePending with_pending].
      unfold g_table in *. cbn [with_pending g_node]. rewrite O3. lia.
  - left. rewrite Hc. unfold graceFire. destruct (jhas (gracePending G) s) eqn:Es; cbn [negb]; [|by apply Hsame].
    assert (∀ p, p ∈ (jdel (gracePending G) s).*1 → p ∈ (gracePending G).*1) as Hdel.
    { intros p Hp. eapply elem_of_sublist; [exact Hp|apply jkeys_jdel_sublist]. }
    destruct (jhas (g_table (with_pending (jdel (gracePending G) s) G)) (KBig s)); [exact Hdel|]. unfold doClose, arm.
    destruct (ok_ (mayRetire E (KBig s))); [exact Hdel|].
    cbn [gracePending with_pending]. intros p Hp. apply elem_jset_key in Hp as [Hp| ->]; [by apply Hdel|by apply jhas_true_key].
  - left. destruct (gatePreflight E G s) as [[G' p]|] eqn:Ep; [|by apply Hsame]. apply Hsame. revert Ep.
    unfold gatePreflight. rewrite Hc. destruct (jhas _ _); [by intros [= <- _]|].
    destruct (toHex _ _); [|done]. cbn [mbind js_result_bind]. destruct (jhas _ _); [by intros [= <- _]|].
    destruct (gateDecision E c G s) as [[G1 d]|] eqn:Ed; [|done]. cbn. intros [= <- _]. by destruct (decision_frame _ _ _ _ _ _ Ed) as (_ & _ & ? & _).
Qed.

(** * The join lane *)

Definition lane_gap (c : gcfg) (p q : string * Z) : Prop := p.2 + laneCooldownMs c ≤ q.2.
Definition lane_inv (c : gcfg) (G : gate) : Prop :=
  jwf (laneSeen G) ∧ StronglySorted (lane_gap c) (laneSeen G) ∧
  ∀ p, p ∈ laneSeen G → laneLastAt G - laneWindowMs c < p.2 ≤ laneLastAt G.

Lemma lane_count (cd w lo hi : Z) (l : list (string * Z)) : 0 < cd → 0 < w →
  StronglySorted (λ p q, p.2 + cd ≤ q.2) l → (∀ p, p ∈ l → lo < p.2 ≤ hi) → hi - lo ≤ w →
  Z.of_nat (length l) ≤ (w - 1) / cd + 1.
Proof.
  intros Hcd Hw Hs Hall Hlo.
  assert (∀ l lo, StronglySorted (λ p q : string * Z, p.2 + cd ≤ q.2) l → (∀ p, p ∈ l → lo < p.2 ≤ hi) →
    l ≠ [] → (Z.of_nat (length l) - 1) * cd ≤ hi - lo - 1) as Hgen.
  { clear -Hcd. induction l as [|p l IH]; intros lo Hs Hall Hne; [done|]. inversion Hs as [|? ? Hs' Hf]; subst.
    destruct l as [|q l]; [specialize (Hall p ltac:(left)); cbn; lia|].
    rewrite Forall_forall in Hf. pose proof (Hf q ltac:(left)) as Hq.
    assert ((Z.of_nat (length (q :: l)) - 1) * cd ≤ hi - (p.2 + cd - 1) - 1) as Hi.
    { apply IH; [done| |done]. intros r Hr. specialize (Hf r Hr). cbn in Hf. specialize (Hall r ltac:(by right)). lia. }
    pose proof (Hall p ltac:(left)). cbn [length] in *. lia. }
  destruct l as [|p l]; [cbn; pose proof (Z.div_pos (w - 1) cd); lia|].
  specialize (Hgen (p :: l) lo Hs Hall ltac:(done)).
  assert (Z.of_nat (length (p :: l)) - 1 ≤ (w - 1) / cd); [|lia]. apply Z.div_le_lower_bound; nia.
Qed.

Lemma jwf_filter {K V} (P : K * V → Prop) `{!∀ p, Decision (P p)} (m : jmap K V) : jwf m → jwf (filter P m).
Proof. intros Hw. exact (sublist_NoDup _ _ Hw (fmap_sublist fst _ _ (sublist_filter _ _))). Qed.

Lemma step_cfg E G o : g_cfg (gstep E G o) = g_cfg G.
Proof.
  destruct o as [s|s|s|k|]; cbn [gstep]; [| | |done|].
  - unfold seedSynaptomeWithSponsor. destruct (jhas _ _); [done|]. destruct (toHex _ _) as [hex|]; [|done].
    cbn [mbind js_result_bind]. destruct (jhas _ _); [done|]. destruct (g_cfg G) as [c|] eqn:Hc.
    + unfold promote, admitOrImprove. destruct (gateDecision E c G s) as [[G1 d]|] eqn:Ed; [|by destruct (_ && _)].
      destruct (decision_frame _ _ _ _ _ _ Ed) as (_ & F & _). cbn [mbind js_result_bind fst snd]. destruct (_ && _).
      * pose proof (λ a, proj1 (proj2 (reclass_frame E s a (mk_rclass (Some true) (Some false)) G1))) as F2.
        pose proof (λ d G, proj1 (commit_cfg s d G)) as F3.
        destruct d as [[|key t|k near]|why]; cbn [fst snd];
          [| |destruct (gateCommit_cases s (Yes (Swap k near)) G1) as [-> |[x ->]]; cbn [mbind js_result_bind fst]; [|congruence]|cbn; congruence].
        1-2: specialize (F2 None); destruct (reclass _ _ _ _ _) as [G2 rc]; cbn [fst] in F2;
          destruct (refused_reclass rc); cbn [mbind js_result_bind fst gateCommit]; rewrite ?F3; congruence.
        unfold reclass. destruct (e_reclass E); cbn; congruence.
      * pose proof (proj1 (commit_cfg s d G1)) as F3. destruct (gateCommit_cases s d G1) as [-> |[x ->]]; [|done].
        cbn [mbind js_result_bind]. destruct (committed s d G1) as [G2 b]. cbn [fst snd] in *.
        destruct b; [congruence|]. destruct (refused_frame E c s G2) as [_ F4]. congruence.
    + unfold legacyInsertAllowed. destruct (_ || _); [cbn [negb]; by destruct (e_engine E ≫= _)|].
      pose proof (proj1 (proj2 (reclass_frame E s None (mk_rclass (Some false) None) G))) as F2.
      destruct (reclass _ _ _ _ _) as [G2 rc]. cbn [fst] in F2. destruct (negb _); [congruence|].
      destruct (e_engine E ≫= _); cbn; congruence.
  - destruct (g_cfg G) as [c|] eqn:Hc; [|done]. unfold graceFire, doClose, arm. destruct (negb _); [done|].
    destruct (jhas (g_table _) _); [done|]. by destruct (ok_ (mayRetire E (KBig s))).
  - unfold gatePreflight. destruct (g_cfg G) as [c|] eqn:Hc; [|done]. destruct (jhas _ _); [done|]. destruct (toHex _ _) as [hex|]; [|done].
    cbn [mbind js_result_bind]. destruct (jhas _ _); [done|]. destruct (gateDecision E c G s) as [[G1 d]|] eqn:Ed; [|done].
    cbn [mbind js_result_bind fst snd]. destruct (decision_frame _ _ _ _ _ _ Ed) as (_ & F & _). congruence.
  - unfold clearGracePending. cbn [with_pending g_cfg]. generalize (gracePending G) as l. intros l. revert G.
    induction l as [|p l IH]; intros G; [done|]. cbn [foldl]. by rewrite IH.
Qed.

Lemma lane_inv_sweep c t G : lane_inv c G → lane_inv c (lane_sweep c t G).
Proof.
  intros (H0 & H1 & H2). unfold lane_inv, lane_sweep. cbn. split; [by apply jwf_filter|]. split.
  - clear H2. revert H1. generalize (laneSeen G). intros l Hl. induction Hl as [|p l Hs IH Hf]; [constructor|].
    rewrite filter_cons. case_decide; [|done]. constructor; [done|]. rewrite Forall_forall in *.
    intros q Hq. apply Hf. by apply list_elem_of_filter in Hq as [_ ?].
  - intros p Hp. apply H2. by apply list_elem_of_filter in Hp as [_ ?].
Qed.

Lemma StronglySorted_snoc {A} (R : A → A → Prop) l x : StronglySorted R l → (∀ y, y ∈ l → R y x) → StronglySorted R (l ++ [x]).
Proof.
  induction 1 as [|y l Hs IH Hf]; intros Hall; [repeat constructor|]. cbn. constructor.
  - apply IH. intros z Hz. apply Hall. by right.
  - apply Forall_app. split; [done|]. constructor; [|constructor]. apply Hall. left.
Qed.

(** A lane admission: who, and when. *)
Lemma lane_decision E c G s G' key t : gateDecision E c G s = Ok (G', Yes (Lane key t)) →
  G' = lane_sweep c t G ∧ t = e_now E ∧ laneLastAt G + laneCooldownMs c ≤ t ∧
  (∀ a, jget (laneSeen G') key = Some a → laneWindowMs c ≤ t - a) ∧
  ∃ cap, capM E (g_node G) = Ok cap ∧ cap - kJoin c ≤ jsize (g_table G) < cap.
Proof.
  unfold gateDecision. destruct (capM _ _) as [cap|]; [|done]. cbn [mbind js_result_bind]. destruct (_ <? cap) eqn:Ec; zb.
  2: { unfold swap_decision. destruct (retentionMap _ _ _ _ _); [|done]. cbn. destruct (v_key _); [|done].
       destruct (mayRetire _ _); [done|by destruct (toHex _ _)]. }
  destruct (0 <? kJoin c) eqn:Ej; [|done]. destruct (cap - kJoin c <=? _) eqn:El; [|done]. cbn [andb]. zb. unfold lane.
  destruct (AttemptGuard.identitySuffix (JBig s)) as [key'|]; [|done].
  destruct (jget (laneSeen (lane_sweep c (e_now E) G)) key') as [a|] eqn:Ea.
  - destruct (e_now E - a <? laneWindowMs c) eqn:Ew; [done|]. zb. destruct (_ <? laneCooldownMs c) eqn:Ecd; [done|]. zb. intros [= <- <- <-].
    split_and!; [done|done|unfold lane_sweep in *; cbn [laneLastAt with_laneSeen] in *; lia| |by exists cap]. intros a'. rewrite Ea. intros [= <-]. lia.
  - destruct (_ <? laneCooldownMs c) eqn:Ecd; [done|]. zb. intros [= <- <- <-].
    split_and!; [done|done|unfold lane_sweep in *; cbn [laneLastAt with_laneSeen] in *; lia| |by exists cap]. intros a'. by rewrite Ea.
Qed.

Lemma lane_absent c t G key : (∀ a, jget (laneSeen (lane_sweep c t G)) key = Some a → laneWindowMs c ≤ t - a) →
  jhas (laneSeen (lane_sweep c t G)) key = false.
Proof.
  intros H. apply jhas_false. destruct (jget _ _) as [a|] eqn:Ea; [|done]. specialize (H a eq_refl).
  apply jget_Some_elem in Ea. unfold lane_sweep in Ea. cbn in Ea. apply list_elem_of_filter in Ea as [Ea _]. cbn in Ea. zb. lia.
Qed.

Lemma lane_inv_decision E c G s G' d : 0 < laneCooldownMs c → 0 < laneWindowMs c → gateDecision E c G s = Ok (G', d) → lane_inv c G →
  lane_inv c G' ∧ lane_inv c (committed s d G').1.
Proof.
  intros Hcd Hwin Hd Hi.
  assert (lane_inv c G') as Hi'.
  { revert Hd. unfold gateDecision. destruct (capM _ _) as [cap|]; [|done]. cbn. destruct (_ <? cap).
    - destruct (_ && _); [|by intros [= <- _]]. intros [= Hl]. unfold lane in Hl. pose proof (lane_inv_sweep c (e_now E) G Hi).
      repeat case_match; simplify_eq; done.
    - destruct (swap_decision _ _ _ _); [|done]. by intros [= <- _]. }
  split; [done|]. destruct d as [[|key t|k near]|why]; [exact Hi'| |exact Hi'|exact Hi'].
  destruct (lane_decision _ _ _ _ _ _ _ Hd) as (-> & Ht & Hgap & Hkey & _). pose proof (lane_absent _ _ _ _ Hkey) as Habs.
  destruct Hi' as (H0 & H1 & H2). unfold lane_inv. cbn [committed fst seedInsert with_node laneSeen laneLastAt with_laneLastAt with_laneSeen].
  split; [by apply jwf_jset|]. rewrite (jset_append _ _ _ Habs). split.
  - apply StronglySorted_snoc; [done|]. intros p Hp. specialize (H2 p Hp). cbn in H2. unfold lane_gap. cbn. lia.
  - intros p [Hp|Hp]%elem_of_app; [|apply list_elem_of_singleton in Hp as ->; cbn].
    + specialize (H2 p Hp). cbn in H2. unfold lane_sweep in Hp. cbn in Hp. apply list_elem_of_filter in Hp as [Hp _].
      apply negb_true_iff in Hp. zb. lia.
    + lia.
Qed.

Lemma lane_inv_frame c G G' : laneSeen G' = laneSeen G → laneLastAt G' = laneLastAt G → lane_inv c G → lane_inv c G'.
Proof. unfold lane_inv. by intros -> ->. Qed.

Lemma overflow_lane E m fuel : ∀ G, laneSeen (overflow E m fuel G) = laneSeen G ∧ laneLastAt (overflow E m fuel G) = laneLastAt G.
Proof.
  induction fuel as [|n IH]; intros G; [done|]. cbn [overflow]. destruct (_ <=? _); [|done].
  destruct (List.find _ _) as [p|]; [|done]. by destruct (IH (close (KBig p.1) (with_pending (jdel (gracePending G) p.1) G))) as [-> ->].
Qed.

Lemma reclass_lane c E s a dflt G : lane_inv c G → lane_inv c (reclass E s a dflt G).1.
Proof. unfold reclass. by destruct (e_reclass E). Qed.

Lemma commit_lane c E s a dflt d G : lane_inv c (committed s d G).1 → lane_inv c (committed s d (reclass E s a dflt G).1).1.
Proof. unfold reclass. destruct (e_reclass E); [|done]. by destruct d as [[| |]|]. Qed.

Lemma lane_inv_step E c G o : 0 < laneCooldownMs c → 0 < laneWindowMs c → g_cfg G = Some c → lane_inv c G →
  lane_inv c (gstep E G o).
Proof.
  intros Hcd Hwin Hc Hi. destruct o as [s|s|s|k|]; cbn [gstep]; rewrite ?Hc; [| | |done|].
  - unfold seedSynaptomeWithSponsor. destruct (jhas _ _); [done|]. destruct (toHex _ _) as [hex|]; [|done].
    cbn [mbind js_result_bind]. destruct (jhas _ _); [done|]. rewrite Hc. destruct (_ && _).
    + unfold promote. destruct (gateDecision E c G s) as [[G1 d]|] eqn:Ed; [|done]. cbn [mbind js_result_bind fst snd].
      destruct (lane_inv_decision _ _ _ _ _ _ Hcd Hwin Ed Hi) as [I1 I2].
      pose proof (commit_lane c E s None (mk_rclass (Some true) (Some false)) d G1 I2) as I3.
      pose proof (reclass_lane c E s None (mk_rclass (Some true) (Some false)) G1 I1) as I4.
      destruct d as [[|key t|k near]|why];
        [| |destruct (gateCommit_cases s (Yes (Swap k near)) G1) as [-> |[x ->]]; [by apply reclass_lane|done]|done];
        destruct (reclass _ _ _ _ _) as [G2 rc]; cbn [fst] in I3, I4; by destruct (refused_reclass rc).
    + unfold admitOrImprove. destruct (gateDecision E c G s) as [[G1 d]|] eqn:Ed; [|done]. cbn [mbind js_result_bind fst snd].
      destruct (lane_inv_decision _ _ _ _ _ _ Hcd Hwin Ed Hi) as [I1 I2].
      destruct (gateCommit_cases s d G1) as [-> |[x ->]]; [|done]. cbn [mbind js_result_bind].
      destruct (committed s d G1) as [G2 b]. cbn [fst snd] in *. destruct b; [done|].
      unfold refused, arm, doClose. destruct (_ && _); [done|]. destruct (_ && _); [|by destruct (ok_ _)].
      destruct (overflow_lane E (graceMaxPending c) (length (gracePending G2)) G2) as [F1 F2]. by apply (lane_inv_frame c G2).
  - unfold graceFire, doClose, arm. destruct (negb _); [done|].
    destruct (jhas (g_table _) _); [done|]. by destruct (ok_ (mayRetire E (KBig s))).
  - unfold gatePreflight. rewrite Hc. destruct (jhas _ _); [done|]. destruct (toHex _ _) as [hex|]; [|done].
    cbn [mbind js_result_bind]. destruct (jhas _ _); [done|]. destruct (gateDecision E c G s) as [[G1 d]|] eqn:Ed; [|done].
    cbn [mbind js_result_bind fst snd]. apply (lane_inv_decision _ _ _ _ _ _ Hcd Hwin Ed Hi).
  - apply (lane_inv_frame c G); [..|done]; unfold clearGracePending; cbn [with_pending laneSeen laneLastAt]; clear Hc Hi;
      generalize (gracePending G) as l; intros l; revert G; induction l as [|p l IH]; intros G; try done; cbn [foldl];
      by rewrite IH.
Qed.

(** The join lane is paced, whatever is offered and whatever the clock does. In every
    reachable state the lane's memory holds admissions at least [laneCooldownMs] apart and at
    most [(laneWindowMs - 1) / laneCooldownMs + 1] of them; and a lane admission is of an
    identity without one inside its window, a cooldown after the last, into one of the last
    [kJoin] free slots. *)
Theorem lane_paced (c : gcfg) (N : node) (ops : list (genv * gop)) :
  0 < laneCooldownMs c → 0 < laneWindowMs c →
  let G := grun (new_gate (Some c) N) ops in
  StronglySorted (λ p q, p.2 + laneCooldownMs c ≤ q.2) (laneSeen G) ∧
  jsize (laneSeen G) ≤ (laneWindowMs c - 1) / laneCooldownMs c + 1 ∧
  (∀ E s G' key t, gateDecision E c G s = Ok (G', Yes (Lane key t)) →
     t = e_now E ∧ laneLastAt G + laneCooldownMs c ≤ t ∧
     (∀ a, jget (laneSeen G) key = Some a → laneWindowMs c ≤ t - a) ∧
     laneLastAt (committed s (Yes (Lane key t)) G').1 = t ∧
     ∃ cap, capM E (g_node G) = Ok cap ∧ cap - kJoin c ≤ jsize (g_table G) < cap).
Proof.
  intros Hcd Hwin. cbn zeta.
  assert (∀ ops G, g_cfg G = Some c → lane_inv c G → lane_inv c (grun G ops)) as Hall.
  { clear ops. induction ops as [|x ops IH]; intros G Hc Hi; [done|]. cbn. apply IH; [|by apply lane_inv_step].
    by rewrite step_cfg. }
  assert (lane_inv c (grun (new_gate (Some c) N) ops)) as (H0 & H1 & H2).
  { apply Hall; [done|]. split; [constructor|]. split; [constructor|]. intros p Hp. by apply elem_of_nil in Hp. }
  split_and!; [done| |].
  - apply (lane_count _ _ (laneLastAt (grun (new_gate (Some c) N) ops) - laneWindowMs c) (laneLastAt (grun (new_gate (Some c) N) ops)));
      try done; lia.
  - intros E s G' key t Hd. destruct (lane_decision _ _ _ _ _ _ _ Hd) as (-> & Ht & Hgap & Hkey & Hcap). split_and!; try done.
    intros a Ha. destruct (decide (laneWindowMs c ≤ t - a)) as [|Hlt]; [done|]. apply Hkey.
    unfold lane_sweep. cbn. apply elem_jget; [by apply jwf_filter|]. apply list_elem_of_filter.
    split; [|by apply jget_Some_elem]. cbn. apply negb_true_iff, Z.leb_gt. subst t. lia.
Qed.

(** A gate configured with no near peer to keep throws at every decision at cap. *)
Lemma kNear_zero_throws E c G s cap : capM E (g_node G) = Ok cap → cap ≤ jsize (g_table G) → kNear c ≤ 0 →
  gateDecision E c G s = Throw typeError.
Proof.
  intros Hc Hle Hk. rewrite (decision_at_cap E c G s cap Hc Hle). unfold swap_decision, retentionMap, nearCeil.
  rewrite (proj2 (Z.leb_le _ _)) by lia. by rewrite (proj2 (Z.leb_le _ 0)).
Qed.

(** * Witnesses *)

Definition demo_env : genv := mk_genv Routing.demo_T None None 100000 4 4 (Some 10) 0 (λ _, num_one) None None.
Definition demo_cfg : gcfg := gate_cfg (Some 1) None (Some 1) None None (Some 5000) (Some 2).
Definition far (i : Z) : Z := 2 ^ 263 + i.
Definition demo_gate : gate := new_gate (Some demo_cfg) (Routing.demo_node 0 [far 0; far 1; far 2; 1]).

Lemma demo_swap : gateDecision demo_env demo_cfg demo_gate (2 ^ 258) = Ok (demo_gate, Yes (Swap (KBig (far 0)) false)).
Proof. vm_compute. reflexivity. Qed.

Lemma demo_ids : ids_distinct (g_node demo_gate).
Proof. split; unfold jwf; eapply bool_decide_eq_true_1; vm_compute; reflexivity. Qed.

Lemma swap_spec_witness :
  gateDecision demo_env demo_cfg demo_gate (2 ^ 258) = Ok (demo_gate, Yes (Swap (KBig (far 0)) false)) ∧
  mayRetire demo_env (KBig (far 0)) = MayRetire.
Proof.
  split; [exact demo_swap|].
  exact (proj1 (proj2 (proj2 (swap_spec demo_env demo_cfg demo_gate demo_gate (2 ^ 258) (KBig (far 0)) false
    (proj1 demo_ids) demo_swap)))).
Defined.

Lemma swap_does_not_bounce_witness :
  let G2 := (committed (2 ^ 258) (Yes (Swap (KBig (far 0)) false)) demo_gate).1 in
  gateDecision demo_env demo_cfg demo_gate (2 ^ 258) = Ok (demo_gate, Yes (Swap (KBig (far 0)) false)) ∧
  ∃ d, gateDecision demo_env demo_cfg G2 (far 0) = Ok (G2, d) ∧ d = No "no-swap".
Proof.
  cbn zeta. split; [exact demo_swap|].
  assert (in_table (g_node demo_gate) (2 ^ 258) = false) as H1 by (vm_compute; reflexivity).
  assert (2 ^ 258 ∉ te_big <$> tableEntries (g_node demo_gate)) as H2
    by (eapply bool_decide_eq_false_1; vm_compute; reflexivity).
  assert (mk_tentry (KBig (far 0)) (far 0) (Routing.demo_syn (far 0)) ∈ tableEntries (g_node demo_gate)) as H3
    by (apply elem_entry; split; [left|reflexivity]).
  destruct (swap_does_not_bounce demo_env demo_cfg demo_gate demo_gate (2 ^ 258) (KBig (far 0)) false
    (mk_tentry (KBig (far 0)) (far 0) (Routing.demo_syn (far 0))) demo_ids H1 H2 H3 eq_refl eq_refl eq_refl demo_swap)
    as [(d & Hd & Hno & _)|[[=] _]].
  exists d. split; [exact Hd|]. exact (Hno eq_refl).
Defined.

Lemma table_never_exceeds_cap_witness :
  let G := grun demo_gate [(demo_env, GSeed (2 ^ 258)); (demo_env, GSeed (far 9)); (demo_env, GFire (far 9))] in
  jsize (g_table G) = 4 ∧ jsize (g_table G) ≤ 4.
Proof.
  cbn zeta. split; [vm_compute; reflexivity|].
  refine (proj2 (table_never_exceeds_cap demo_cfg (Routing.demo_node 0 [far 0; far 1; far 2; 1]) 4
    [(demo_env, GSeed (2 ^ 258)); (demo_env, GSeed (far 9)); (demo_env, GFire (far 9))] (proj1 demo_ids) _ _)).
  - vm_compute. discriminate.
  - intros x m Hx. rewrite !elem_of_cons in Hx. destruct Hx as [->|[->|[->|Hx]]]; [..|by apply elem_of_nil in Hx];
      (intros [= <-]; vm_compute; discriminate).
Defined.

Lemma closes_respect_duty_witness :
  let E := demo_env in
  GSeed (2 ^ 258) ≠ GStop ∧ closed (gstep E demo_gate (GSeed (2 ^ 258))) = [KBig (far 0)] ∧
  ∃ l, closed (gstep E demo_gate (GSeed (2 ^ 258))) = [] ++ l ∧ ∀ k, k ∈ l → mayRetire E k = MayRetire.
Proof.
  cbn zeta. assert (GSeed (2 ^ 258) ≠ GStop) as H by discriminate. split; [exact H|]. split; [vm_compute; reflexivity|].
  destruct (closes_respect_duty demo_env demo_gate (GSeed (2 ^ 258)) H) as (l & H1 & H2 & _). exists l. split; [exact H1|exact H2].
Defined.

Lemma deferred_closes_bounded_witness :
  let G' := gstep demo_env demo_gate (GSeed (far 9)) in
  g_cfg demo_gate = Some demo_cfg ∧ 0 < graceMaxPending demo_cfg ∧ (gracePending G').*1 = [far 9] ∧
  ((∀ p, p ∈ (gracePending G').*1 → p ∈ (gracePending demo_gate).*1) ∨
   (jsize (gracePending G') ≤ graceMaxPending demo_cfg ∨
     ∃ s, ∀ p, p ∈ (gracePending G').*1 → p ≠ s → mayRetire demo_env (KBig p) ≠ MayRetire)).
Proof.
  cbn zeta. assert (g_cfg demo_gate = Some demo_cfg) as H1 by reflexivity.
  assert (0 < graceMaxPending demo_cfg) as H2 by (vm_compute; reflexivity).
  split; [exact H1|]. split; [exact H2|]. split; [vm_compute; reflexivity|].
  destruct (deferred_closes_bounded demo_env demo_cfg demo_gate (GSeed (far 9)) H1 H2) as [H|[H _]]; [left|right]; exact H.
Defined.

Lemma lane_paced_witness :
  let G := grun (new_gate (Some demo_cfg) (Routing.demo_node 0 [far 0; far 1; far 2])) [(demo_env, GSeed (far 9))] in
  (laneSeen G).*2 = [100000] ∧ 0 < laneCooldownMs demo_cfg ∧ 0 < laneWindowMs demo_cfg ∧ jsize (laneSeen G) ≤ 60.
Proof.
  cbn zeta. assert (0 < laneCooldownMs demo_cfg) as H1 by (vm_compute; reflexivity).
  assert (0 < laneWindowMs demo_cfg) as H2 by (vm_compute; reflexivity).
  split; [vm_compute; reflexivity|]. split; [exact H1|]. split; [exact H2|].
  exact (proj1 (proj2 (lane_paced demo_cfg (Routing.demo_node 0 [far 0; far 1; far 2]) [(demo_env, GSeed (far 9))] H1 H2))).
Defined.
