(* ===== verification/FindClosest.v ===== *)
(** FindClosest.v - the iterative K-closest search ([findKClosest] of
    src/src/dht/AxonaPeer.js). One round is one [renv]: the transport and the marks when the
    round picks its probes, and how each probe settled; [maxRounds] is how many there are.
    The trace is not modelled; what the round hands to [_nominateCandidate] is [heard]. *)
From stdpp Require Import base gmap sets list strings sorting.
From Stdlib Require Import ZArith Lia Sorting.Sorted.
From S2P Require Import Prelude HexId PeerTable Routing.
#[local] Open Scope Z_scope.
#[local] Open Scope js_scope.

Record renv := mk_renv {
  r_T : tenv; r_N : node;
  r_answer : Z → option (list jsv)   (** [None]: rejected, or not an array *)
}.
Record fk := mk_fk {
  known : list Z;                    (** the keys of [distances], in order *)
  visited : list Z; lastPoolSize : nat; stableRounds : nat;
  probed : list Z; heard : list jsv
}.

Definition addCandidate (ks : list Z) (v : jsv) : list Z :=
  match v with JBig z => if bool_decide (z ∈ ks) then ks else ks ++ [z] | _ => ks end.

Section search.
Context (me target : Z) (K alpha : nat) (skipDead : bool).

Definition by_dist (ks : list Z) : list Z := sort_by (λ p, dist p target) ks.
Definition topK (ks : list Z) : list Z := take K (by_dist ks).

Definition toQuery (ks vs : list Z) : list Z :=
  let top := topK ks in
  let q := take alpha (filter (λ p, p ∉ vs) top) in
  if (length q <? alpha)%nat
  then q ++ take (alpha - length q) (filter (λ p, p ∉ vs ∧ p ∉ top) (by_dist ks))
  else q.

Definition probe_ok (e : renv) (p : Z) : bool :=
  negb (p =? me) && negb (skipDead && (dead (r_N e) p || negb (connOk (r_T e) p))).

(** One round; [true]: the search stops after it. *)
Definition round_ (e : renv) (st : fk) : fk * bool :=
  let q := toQuery (known st) (visited st) in
  match q with
  | [] => (st, true)
  | _ =>
      let allVisited := forallb (λ p, bool_decide (p ∈ visited st)) (topK (known st)) in
      let probes := filter (λ p, probe_ok e p = true) q in
      let replies := concat ((λ p, default [] (r_answer e p)) <$> probes) in
      let ks := foldl addCandidate (known st) replies in
      let grew := (lastPoolSize st <? length ks)%nat in
      let stable := if grew then 0%nat else S (stableRounds st) in
      (mk_fk ks (visited st ++ q) (length ks) stable (probed st ++ probes) (heard st ++ replies),
       allVisited && (1 <=? stable)%nat)
  end.

Fixpoint rounds (es : list renv) (st : fk) : fk :=
  match es with
  | [] => st
  | e :: es => let '(st, stop) := round_ e st in if stop then st else rounds es st
  end.
End search.

Definition seeds (N : node) : list Z := n_id N :: (s_peerId <$> synapses N) ++ (s_peerId <$> (incoming N).*2).
Definition start (N : node) : fk := mk_fk (foldl addCandidate [] (JBig <$> seeds N)) [] 0 0 [] [].

Definition findKClosest (N : node) (targetId : jsv) (K alpha : nat) (skipDead : bool) (es : list renv)
    : js_result (fk * list Z) :=
  match targetId with
  | JBig target => let st := rounds (n_id N) target K alpha skipDead es (start N) in Ok (st, topK target K (known st))
  | _ => Throw typeError
  end.

(** * Lemmas *)

Lemma add_spec ks vs : ∀ z, z ∈ foldl addCandidate ks vs ↔ z ∈ ks ∨ JBig z ∈ vs.
Proof.
  revert ks. induction vs as [|v vs IH]; intros ks z; cbn.
  { split; [by left|]. intros [H|H]; [done|by apply elem_of_nil in H]. }
  rewrite IH, elem_of_cons. unfold addCandidate. destruct v; try naive_solver.
  case_bool_decide; [naive_solver|]. rewrite elem_of_app, list_elem_of_singleton. naive_solver.
Qed.

Lemma add_nodup ks vs : NoDup ks → NoDup (foldl addCandidate ks vs).
Proof.
  revert ks. induction vs as [|v vs IH]; intros ks Hn; [done|]. cbn. apply IH. unfold addCandidate. destruct v; try done.
  case_bool_decide; [done|]. apply NoDup_app. split_and!; [done| |apply NoDup_singleton].
  by intros x Hx ->%list_elem_of_singleton.
Qed.

Lemma add_prefix ks vs : ∃ l, foldl addCandidate ks vs = ks ++ l.
Proof.
  revert ks. induction vs as [|v vs IH]; intros ks; [exists []; by rewrite app_nil_r|]. cbn.
  destruct (IH (addCandidate ks v)) as [l ->]. unfold addCandidate. destruct v; try by exists l.
  case_bool_decide; [by exists l|]. eexists. by rewrite <- app_assoc.
Qed.

Section facts.
Context (me target : Z) (K alpha : nat) (skipDead : bool).

Lemma elem_by_dist ks p : p ∈ by_dist target ks ↔ p ∈ ks.
Proof. apply elem_of_sort_by. Qed.

Lemma topK_in ks p : p ∈ topK target K ks → p ∈ ks.
Proof. intros Hp. apply elem_by_dist. rewrite <- (take_drop K (by_dist target ks)). apply elem_of_app. by left. Qed.

Lemma toQuery_spec ks vs : NoDup ks →
  let q := toQuery target K alpha ks vs in
  NoDup q ∧ (∀ p, p ∈ q → p ∈ ks ∧ p ∉ vs) ∧ (length q ≤ alpha)%nat.
Proof.
  intros Hn. cbn zeta. unfold toQuery. set (top := topK target K ks).
  assert (NoDup (by_dist target ks)) as Hd by (unfold by_dist; by rewrite sort_by_perm).
  assert (NoDup top) as Ht by (unfold top, topK; rewrite <- (take_drop K) in Hd; by apply NoDup_app in Hd as (? & _)).
  assert (∀ p, p ∈ top → p ∈ ks) as Hin by apply topK_in.
  set (q := take alpha (filter (λ p, p ∉ vs) top)).
  assert (NoDup q) as Hq.
  { pose proof (NoDup_filter (λ p, p ∉ vs) top Ht) as H. rewrite <- (take_drop alpha) in H. by apply NoDup_app in H as (? & _). }
  assert (∀ p, p ∈ q → p ∈ top ∧ p ∉ vs) as Hqin.
  { intros p Hp. assert (p ∈ filter (λ p, p ∉ vs) top) as H by (rewrite <- (take_drop alpha (filter _ top)); apply elem_of_app; by left).
    apply list_elem_of_filter in H. tauto. }
  assert (length q ≤ alpha)%nat as Hlen by (unfold q; rewrite length_take; lia).
  destruct (_ <? _)%nat eqn:El.
  2: { split_and!; [done| |done]. intros p Hp. destruct (Hqin p Hp). auto. }
  set (r := filter (λ p, p ∉ vs ∧ p ∉ top) (by_dist target ks)).
  assert (∀ n p, p ∈ take n r → p ∈ ks ∧ p ∉ vs ∧ p ∉ top) as Hr.
  { intros n p Hp. assert (p ∈ r) as H by (rewrite <- (take_drop n r); apply elem_of_app; by left).
    apply list_elem_of_filter in H as [[H1 H2] H3]. pose proof (proj1 (elem_by_dist _ _) H3). auto. }
  split_and!.
  - apply NoDup_app. split_and!; [done| |].
    + intros p Hp Hp'. destruct (Hqin p Hp), (Hr _ p Hp') as (_ & _ & ?). done.
    + pose proof (NoDup_filter (λ p, p ∉ vs ∧ p ∉ top) _ Hd) as H. rewrite <- (take_drop (alpha - length q)) in H.
      by apply NoDup_app in H as (? & _).
  - intros p [Hp|Hp]%elem_of_app; [destruct (Hqin p Hp)|destruct (Hr _ p Hp) as (? & ? & _)]; auto.
  - rewrite length_app, length_take. lia.
Qed.

(** Nothing left to query: everything known is visited (for a positive [alpha]). *)
Lemma toQuery_nil ks vs : (0 < alpha)%nat → toQuery target K alpha ks vs = [] → ∀ p, p ∈ ks → p ∈ vs.
Proof.
  intros Ha. unfold toQuery. set (top := topK target K ks). set (q := take alpha (filter (λ p, p ∉ vs) top)).
  destruct (length q <? alpha)%nat eqn:El.
  2: { intros Hq. rewrite Hq in El. apply Nat.ltb_ge in El. cbn in El. lia. }
  intros Hnil. apply app_eq_nil in Hnil as [Hq Hr]. intros p Hp. destruct (decide (p ∈ vs)) as [|Hv]; [done|]. exfalso.
  rewrite Hq in Hr. cbn [length] in Hr. rewrite Nat.sub_0_r in Hr.
  assert (∀ l : list Z, take alpha l = [] → l = []) as Ht.
  { intros [|x l]; [done|]. destruct alpha; [lia|done]. }
  apply Ht in Hr. unfold q in Hq. apply Ht in Hq.
  destruct (decide (p ∈ top)) as [Hin|Hin].
  - assert (p ∈ filter (λ p, p ∉ vs) top) as H by (by apply list_elem_of_filter). rewrite Hq in H. by apply elem_of_nil in H.
  - assert (p ∈ filter (λ p, p ∉ vs ∧ p ∉ top) (by_dist target ks)) as H by (apply list_elem_of_filter; rewrite elem_by_dist; auto).
    rewrite Hr in H. by apply elem_of_nil in H.
Qed.

Record fk_inv (st : fk) : Prop := {
  fi_known : NoDup (known st);
  fi_visited : NoDup (visited st) ∧ ∀ p, p ∈ visited st → p ∈ known st;
  fi_probed : NoDup (probed st) ∧ (∀ p, p ∈ probed st → p ∈ visited st ∧ p ≠ me);
  fi_all : skipDead = false → ∀ p, p ∈ visited st → p ≠ me → p ∈ probed st;
  fi_pool : lastPoolSize st = length (known st) ∨ stableRounds st = 0%nat ∧ lastPoolSize st = 0%nat
}.

(** What one round does, the stop rule read as what it guarantees. *)
Lemma round_spec e st : fk_inv st → (0 < alpha)%nat →
  let r := round_ me target K alpha skipDead e st in
  fk_inv r.1 ∧ (length (probed r.1) ≤ length (probed st) + alpha)%nat ∧
  (∃ new, heard r.1 = heard st ++ new ∧ ∀ z, z ∈ known r.1 ↔ z ∈ known st ∨ JBig z ∈ new) ∧
  (r.2 = true → ∀ p, p ∈ topK target K (known r.1) → p ∈ visited r.1).
Proof.
  intros [H1 [H2 H2'] [H3 H3'] H4 H5] Ha. cbn zeta. unfold round_.
  pose proof (toQuery_spec (known st) (visited st) H1) as (Q1 & Q2 & Q3).
  destruct (toQuery target K alpha (known st) (visited st)) as [|q0 q'] eqn:Eq.
  { cbn. split; [by split|]. split; [lia|]. split; [exists []; rewrite app_nil_r; split; [done|]; intros z; split; [by left|]|].
    - intros [H|H]; [done|by apply elem_of_nil in H].
    - intros _ p Hp. apply (toQuery_nil _ _ Ha Eq). by apply topK_in. }
  set (q := q0 :: q') in *. set (probes := filter (λ p, probe_ok me skipDead e p = true) q).
  set (replies := concat ((λ p, default [] (r_answer e p)) <$> probes)). cbn [fst snd known visited probed heard].
  assert (∀ p, p ∈ probes → p ∈ q ∧ p ≠ me) as Hpr.
  { intros p Hp. apply list_elem_of_filter in Hp as [Hp Hq]. split; [done|]. unfold probe_ok in Hp.
    apply andb_true_iff in Hp as [Hp _]. zb. done. }
  split; [split|split; [|split]]; cbn [known visited probed heard lastPoolSize stableRounds].
  - by apply add_nodup.
  - split; [apply NoDup_app; split_and!; [done| |done]|].
    + intros p Hp Hq. by destruct (Q2 p Hq).
    + intros p [Hp|Hp]%elem_of_app; apply add_spec; left; [by apply H2'|by apply Q2].
  - split; [apply NoDup_app; split_and!; [done| |by apply NoDup_filter]|].
    + intros p Hp Hq. destruct (H3' p Hp), (Hpr p Hq) as [Hq' _]. by destruct (Q2 p Hq').
    + intros p [Hp|Hp]%elem_of_app; [destruct (H3' p Hp)|destruct (Hpr p Hp)]; (split; [|done]); apply elem_of_app; auto.
  - intros Hs p [Hp|Hp]%elem_of_app Hne; apply elem_of_app; [left; by apply H4|right].
    apply list_elem_of_filter. split; [|done]. unfold probe_ok. rewrite Hs. cbn. by rewrite (proj2 (Z.eqb_neq p me) Hne).
  - by left.
  - pose proof (length_filter (λ p, probe_ok me skipDead e p = true) q). rewrite length_app. unfold probes. lia.
  - exists replies. split; [done|]. intros z. apply add_spec.
  - intros Hstop p Hp. apply andb_true_iff in Hstop as [Hall Hst]. destruct (_ <? _)%nat eqn:Eg; [done|].
    apply Nat.ltb_ge in Eg. destruct (add_prefix (known st) replies) as [l Hl]. rewrite Hl, length_app in Eg.
    assert (l = [] ∨ known st = []) as Hcase.
    { destruct H5 as [H5|[H5 H6]]; [left; apply length_zero_iff_nil; lia|right; apply length_zero_iff_nil; lia]. }
    assert (l = []) as ->.
    { destruct Hcase as [|Hk]; [done|]. exfalso. destruct (Q2 q0 ltac:(left)) as [Hq _]. rewrite Hk in Hq. by apply elem_of_nil in Hq. }
    rewrite Hl, app_nil_r in Hp. apply elem_of_app. left. rewrite forallb_forall in Hall.
    apply list_elem_of_In in Hp. apply Hall in Hp. by apply bool_decide_eq_true in Hp.
Qed.

Lemma rounds_spec es : ∀ st, fk_inv st → (0 < alpha)%nat →
  let r := rounds me target K alpha skipDead es st in
  fk_inv r ∧ (length (probed r) ≤ length (probed st) + alpha * length es)%nat ∧
  (∃ new, heard r = heard st ++ new ∧ ∀ z, z ∈ known r ↔ z ∈ known st ∨ JBig z ∈ new) ∧
  ((∀ p, p ∈ topK target K (known r) → p ∈ visited r) ∨ length (visited r) + 0 ≥ length (visited st) + length es)%nat.
Proof.
  induction es as [|e es IH]; intros st Hi Ha; cbn [rounds].
  { split; [done|]. split; [cbn; lia|]. split; [exists []; rewrite app_nil_r; split; [done|]; intros z; split; [by left|]|right; cbn; lia].
    intros [H|H]; [done|by apply elem_of_nil in H]. }
  destruct (round_spec e st Hi Ha) as (R1 & R2 & (new & R3 & R4) & R5).
  destruct (round_ me target K alpha skipDead e st) as [st1 stop] eqn:Er. cbn [fst snd] in *. destruct stop.
  { split; [done|]. split; [cbn [length]; lia|]. split; [by exists new|]. left. by apply R5. }
  destruct (IH st1 R1 Ha) as (I1 & I2 & (new' & I3 & I4) & I5). split; [done|]. split; [cbn [length]; lia|]. split.
  - exists (new ++ new'). rewrite I3, R3, app_assoc. split; [done|]. intros z. rewrite I4, R4, elem_of_app. tauto.
  - destruct I5 as [I5|I5]; [by left|right]. cbn [length].
    assert (length (visited st) < length (visited st1))%nat; [|lia].
    unfold round_ in Er. destruct (toQuery _ _ _ _ _) as [|q0 q']; [done|]. injection Er as <- _. cbn [visited].
    rewrite length_app. cbn [length]. lia.
Qed.
End facts.

(** What was heard is what the probed peers answered. *)
Lemma heard_from N target K alpha skipDead es st :
  let r := rounds N target K alpha skipDead es st in
  ∀ v, v ∈ heard r → v ∈ heard st ∨
    ∃ e p l, e ∈ es ∧ p ∈ probed r ∧ probe_ok N skipDead e p = true ∧ r_answer e p = Some l ∧ v ∈ l.
Proof.
  cbn zeta. revert st.
  assert (∀ es st p, p ∈ probed st → p ∈ probed (rounds N target K alpha skipDead es st)) as Hmono.
  { clear. induction es as [|e es IH]; intros st p Hp; [done|]. cbn [rounds]. unfold round_.
    destruct (toQuery _ _ _ _ _); [done|]. destruct (_ && _); [|apply IH]; cbn [probed]; apply elem_of_app; by left. }
  induction es as [|e es IH]; intros st v; [by left|]. cbn [rounds]. unfold round_.
  destruct (toQuery _ _ _ _ _) as [|q0 q']; [by left|].
  set (probes := filter (λ p, probe_ok N skipDead e p = true) (q0 :: q')).
  set (replies := concat ((λ p, default [] (r_answer e p)) <$> probes)).
  assert (∀ w (R : list Z), w ∈ replies → (∀ p, p ∈ probes → p ∈ R) →
    ∃ p l, p ∈ R ∧ probe_ok N skipDead e p = true ∧ r_answer e p = Some l ∧ w ∈ l) as Hrep.
  { intros w R Hw HR. unfold replies in Hw. apply list_elem_of_In, in_concat in Hw as (l & Hl & Hw).
    apply list_elem_of_In, list_elem_of_fmap in Hl as (p & -> & Hp). apply list_elem_of_In in Hw.
    exists p. destruct (r_answer e p) as [l|] eqn:Ea; [|by apply elem_of_nil in Hw]. exists l.
    split; [by apply HR|]. split; [|done]. by apply list_elem_of_filter in Hp as [? _]. }
  destruct (_ && _); cbn [heard probed].
  - intros [Hv|Hv]%elem_of_app; [by left|right].
    destruct (Hrep v (probed st ++ probes) Hv) as (p & l & H1 & H2 & H3 & H4); [intros p Hp; apply elem_of_app; by right|].
    exists e, p, l. split; [left|done].
  - intros Hv. destruct (IH _ _ Hv) as [H1|(e' & p & l & H1 & H2)].
    + cbn [heard] in H1. apply elem_of_app in H1 as [H1|H1]; [by left|right].
      destruct (Hrep v (probed st ++ probes) H1) as (p & l & J1 & J2 & J3 & J4); [intros p Hp; apply elem_of_app; by right|].
      exists e, p, l. split_and!; [left|by apply Hmono|done|done|done].
    + right. exists e', p, l. split; [by right|done].
Qed.

Lemma start_inv N skipDead : fk_inv (n_id N) skipDead (start N).
Proof.
  split; cbn [start known visited probed lastPoolSize stableRounds].
  - apply add_nodup, NoDup_nil_2.
  - split; [apply NoDup_nil_2|by intros p Hp%elem_of_nil].
  - split; [apply NoDup_nil_2|by intros p Hp%elem_of_nil].
  - by intros _ p Hp%elem_of_nil.
  - by right.
Qed.

Lemma start_known N z : z ∈ known (start N) ↔ z ∈ seeds N.
Proof.
  cbn [start known]. rewrite add_spec, list_elem_of_fmap. split.
  - intros [H|(y & [= ->] & H)]; [by apply elem_of_nil in H|done].
  - intros H. right. by exists z.
Qed.

(** * Theorems *)

(** The search returns exactly the [K] peers nearest to the target, nearest first and
    without repetition, of all it knows: itself, its table, its reverse index and every id in
    the answers of the peers it probed - all of the known peers where there are fewer than
    [K]. A target that is not a bigint is an error. *)
Theorem findk_result (N : node) (targetId : jsv) (K alpha : nat) (skipDead : bool) (es : list renv) :
  (0 < alpha)%nat →
  match targetId with
  | JBig target => ∃ st out rest,
      findKClosest N targetId K alpha skipDead es = Ok (st, out) ∧
      (∀ z, z ∈ out ++ rest ↔ z ∈ seeds N ∨ JBig z ∈ heard st) ∧
      (∀ v, v ∈ heard st → ∃ e p l, e ∈ es ∧ p ∈ probed st ∧ r_answer e p = Some l ∧ v ∈ l) ∧
      NoDup (out ++ rest) ∧ StronglySorted (λ p q, dist p target ≤ dist q target) (out ++ rest) ∧
      length out = (K `min` length (out ++ rest))%nat
  | _ => findKClosest N targetId K alpha skipDead es = Throw typeError
  end.
Proof.
  intros Ha. destruct targetId as [| |b|z| | |target|s|]; try done. cbn [findKClosest].
  destruct (rounds_spec (n_id N) target K alpha skipDead es (start N) (start_inv N skipDead) Ha) as ([Hn _ _ _ _] & _ & (new & H1 & H2) & _).
  pose proof (heard_from (n_id N) target K alpha skipDead es (start N)) as Hh. cbn zeta in Hh.
  set (st := rounds (n_id N) target K alpha skipDead es (start N)) in *.
  exists st, (topK target K (known st)), (drop K (by_dist target (known st))).
  unfold topK. rewrite take_drop. split_and!.
  - done.
  - intros z. rewrite elem_by_dist, H2, start_known. by rewrite H1.
  - intros v Hv. destruct (Hh v Hv) as [H|(e & p & l & J1 & J2 & _ & J3 & J4)].
    + by apply elem_of_nil in H.
    + by exists e, p, l.
  - unfold by_dist. by rewrite sort_by_perm.
  - apply sort_by_sorted.
  - by rewrite length_take.
Qed.

(** The search is bounded and closed. No peer is probed twice, the node never probes
    itself, and there are at most [alpha] probes a round; every peer that answered was live and
    connected when it was probed, where dead peers are skipped. When it stops, either every
    peer of the result was considered in a round - and was asked, where dead peers are
    not skipped - or the round budget is spent, a new peer having been considered in each. *)
Theorem findk_closed (N : node) (target : Z) (K alpha : nat) (skipDead : bool) (es : list renv) st out :
  (0 < alpha)%nat → findKClosest N (JBig target) K alpha skipDead es = Ok (st, out) →
  NoDup (probed st) ∧ n_id N ∉ probed st ∧ (length (probed st) ≤ alpha * length es)%nat ∧
  (∀ v, v ∈ heard st → ∃ e p l, e ∈ es ∧ p ∈ probed st ∧ r_answer e p = Some l ∧ v ∈ l ∧
    (skipDead = true → dead (r_N e) p = false ∧ connOk (r_T e) p = true)) ∧
  ((∀ p, p ∈ out → p ∈ visited st ∧ (skipDead = false → p ≠ n_id N → p ∈ probed st)) ∨
   NoDup (visited st) ∧ (length es ≤ length (visited st))%nat).
Proof.
  intros Ha H. cbn [findKClosest] in H. injection H as <- <-.
  destruct (rounds_spec (n_id N) target K alpha skipDead es (start N) (start_inv N skipDead) Ha) as ([H1 [H2 _] [H3 H4] H5 _] & Hp & _ & Hc).
  split_and!.
  - done.
  - intros Hin. by destruct (H4 _ Hin).
  - cbn [start probed length] in Hp. lia.
  - intros v Hv. destruct (heard_from (n_id N) target K alpha skipDead es (start N) v Hv) as [H|(e & p & l & J1 & J2 & J & J3 & J4)].
    { by apply elem_of_nil in H. }
    exists e, p, l. split_and!; [done..|]. intros ->. unfold probe_ok in J.
    by destruct (p =? _), (dead _ p), (connOk _ p).
  - destruct Hc as [Hc|Hc]; [left|right].
    + intros p Hin. split; [by apply Hc|]. intros Hs Hne. apply H5; [done|by apply Hc|done].
    + split; [done|]. cbn [start visited length] in Hc. lia.
Qed.

(** * Witnesses *)

(** A node [100] that knows [20]; [20] names [7] and itself, [7] names [5], [5] nobody new. *)
Definition demo_env (id : Z) (peers : list Z) : renv :=
  mk_renv demo_T (demo_node id peers)
    (λ p, if p =? 20 then Some [JBig 7; JBig 20] else if p =? 7 then Some [JBig 5; JNull] else Some []).
Definition demo_rounds : list renv := replicate 5 (demo_env 100 [20]).

Lemma findk_result_witness :
  (0 < 3)%nat ∧ ∃ st out, findKClosest (demo_node 100 [20]) (JBig 4) 2 3 true demo_rounds = Ok (st, out) ∧
  out = [5; 7] ∧ 20 ∈ seeds (demo_node 100 [20]) ∧ NoDup out.
Proof.
  split; [lia|].
  pose proof (findk_result (demo_node 100 [20]) (JBig 4) 2 3 true demo_rounds ltac:(lia)) as (st & out & rest & H1 & _ & _ & H2 & _).
  exists st, out. split; [exact H1|]. split; [vm_compute in H1; by injection H1 as _ <-|].
  split; [right; left|]. by apply NoDup_app in H2 as (? & _).
Defined.

Lemma findk_closed_witness :
  (0 < 3)%nat ∧ ∃ st, findKClosest (demo_node 100 [20]) (JBig 4) 2 3 false demo_rounds = Ok (st, [5; 7]) ∧
  5 ∈ probed st ∧ 7 ∈ probed st ∧ NoDup (probed st) ∧ probed st = [20; 7; 5].
Proof.
  split; [lia|].
  assert (∃ st, findKClosest (demo_node 100 [20]) (JBig 4) 2 3 false demo_rounds = Ok (st, [5; 7]) ∧ probed st = [20; 7; 5]) as (st & H & Hp).
  { eexists. split; vm_compute; reflexivity. }
  exists st. split; [exact H|].
  destruct (findk_closed (demo_node 100 [20]) 4 2 3 false demo_rounds st [5; 7] ltac:(lia) H) as (H1 & _).
  rewrite Hp in *. split_and!; [right; right; left|right; left|done|done].
Defined.
