(* ===== verification/SubTree.v ===== *)
(** SubTree.v - the subscription tree of one topic (src/src/pubsub/wireHandlers.js [_accept],
    [_pickChild], [_promoteChild], [_settleDelegation], [_onAdopt], [_onAdoptAck], [_onUnsub],
    [_replayTo], [_fanout]; the demand of topicLifetime.js; the seat sweep of repairPlane.js).

    A [tree] is what these methods read and write of a role object. A key of
    [role.subscribers] or [role.children] is the lower-case text the frame carried, which passed
    [isHexId]; on such a text [idBig] does not throw ([HexId.isHexId_asId]). A [since] is an integer, or not
    a number.
    [adoptChild] of rootClaim.js (modelled in RootClaim.v) decides whether a node adopts: its
    result is an argument of [onAdopt]. *)
From stdpp Require Import base gmap sets list strings.
From Stdlib Require Import ZArith Lia.
From S2P Require Import Prelude HexId Role.
#[local] Open Scope Z_scope.
#[local] Open Scope js_scope.

(** * Data *)

Inductive skind := SReader | SChild | SStandby.
#[export] Instance skind_eq_dec : EqDecision skind.
Proof. solve_decision. Defined.

Record seat := mk_seat { st_since : Z; st_lastRenewed : Z; st_kind : skind; st_demand : Z }.
Record pend := mk_pend { pd_child : string; pd_subs : list string; pd_at : Z }.
(** [idBig] of a key. *)
Definition idz (s : string) : Z := default 0 (idBigS s).

Record tree := mk_tree {
  tr_topic : Z; tr_isRoot : bool; tr_epoch : Z;
  seats : jmap string seat;               (** [role.subscribers] *)
  kids : list string;                     (** [role.children], in insertion order *)
  pending : jmap string pend;        (** [role.merge.pendingDelegation], by nonce *)
  lastDemandAt : Z;
  tr_cache : list entry; tr_tombs : jmap string tomb
}.
Definition with_seats (v : jmap string seat) (r : tree) : tree :=
  mk_tree (tr_topic r) (tr_isRoot r) (tr_epoch r) v (kids r) (pending r) (lastDemandAt r) (tr_cache r) (tr_tombs r).
Definition with_kids (v : list string) (r : tree) : tree :=
  mk_tree (tr_topic r) (tr_isRoot r) (tr_epoch r) (seats r) v (pending r) (lastDemandAt r) (tr_cache r) (tr_tombs r).
Definition with_pending (v : jmap string pend) (r : tree) : tree :=
  mk_tree (tr_topic r) (tr_isRoot r) (tr_epoch r) (seats r) (kids r) v (lastDemandAt r) (tr_cache r) (tr_tombs r).
Definition with_demand (v : Z) (r : tree) : tree :=
  mk_tree (tr_topic r) (tr_isRoot r) (tr_epoch r) (seats r) (kids r) (pending r) v (tr_cache r) (tr_tombs r).

(** What the manager supplies. *)
Record senv := mk_senv {
  e_now : Z; e_self : Z; maxDirect : Z; topicLifetime : bool; attachEcho : bool; e_tombAuth : bool;
  childCooldown : jmap string Z; childCooldownMs : Z; dropMs : Z;
  e_attachGen : option (string * Z)      (** the generation [_attach] holds for the topic *)
}.

(** The entries of a DELIVER, and the calls that leave the methods. *)
Inductive dmsg := DBody (c : entry) | DDel (d : delmark).
Inductive out :=
| ODeliver (to_ : Z) (msgs : list dmsg) (g : option (string * Z)) (attach : option string) (delegate : option string)
| OApp (m : dmsg)
| OAdopt (to_ parent : Z) (subs : list (string * option Z)) (nonce : string)
| OAck (to_ : Z) (nonce : string) (accepted_ : list string) (refused : bool)
| OSendSubscribe.

Definition REPLAY_CHUNK_BYTES : Z := 96 * 1024.
Definition DELEGATE_BATCH : nat := 8.
Definition ADOPT_ACK_MS : Z := 5000.

Definition seatKindOf (standby : bool) (demand : option Z) : skind * Z :=
  if standby then (SStandby, 0)
  else match demand with Some d => (SChild, Z.max 0 (to_int32 d)) | None => (SReader, 1) end.

Definition roleDemand (tr : tree) : Z :=
  foldl (λ n p, match st_kind p.2 with
                | SStandby => n
                | SChild => n + to_int32 (st_demand p.2)
                | SReader => n + 1
                end) 0 (seats tr).

(** [_genCarried] where topicLifetime is armed, else nothing. *)
Definition genOf (E : senv) (tr : tree) : string * Z := (lc (idHex (e_self E)), to_int32 (tr_epoch tr)).
Definition genCarried (E : senv) (tr : tree) : option (string * Z) :=
  if topicLifetime E then if tr_isRoot tr then Some (genOf E tr) else e_attachGen E else None.

(** * Replay *)

Record rp := mk_rp { rp_batch : list entry; rp_bytes : Z; rp_out : list (list entry) }.
Definition flush (s : rp) : rp :=
  match rp_batch s with [] => s | b => mk_rp [] 0 (rp_out s ++ [b]) end.
Definition push (s : rp) (c : entry) : rp :=
  let s := if REPLAY_CHUNK_BYTES <? rp_bytes s + e_bytes c then flush s else s in
  mk_rp (rp_batch s ++ [c]) (rp_bytes s + e_bytes c) (rp_out s).
Definition not_after (since : option Z) (c : entry) : bool :=
  match since with Some z => publishTs c <=? z | None => false end.
Definition replay_bodies (tr : tree) (since : option Z) (latest : bool) : list (list entry) :=
  let sel := filter (λ c, not_after since c = false) (tr_cache tr) in
  let s := foldl push (mk_rp [] 0 []) sel in
  let s := if latest then
             match last (tr_cache tr) with
             | Some newest =>
                 if bool_decide (e_msgId newest ∈ e_msgId <$> sel) then s
                 else let s := if REPLAY_CHUNK_BYTES <? rp_bytes s + e_bytes newest then flush s else s in
                      mk_rp (rp_batch s ++ [newest]) (rp_bytes s) (rp_out s)
             | None => s
             end
           else s in
  rp_out (flush s).
Definition replay_dels (E : senv) (tr : tree) : list delmark :=
  omap (λ p, if e_now E <? t_exp p.2
             then Some (mk_delmark p.1 (t_killTs p.2) (t_signer p.2) (t_seq p.2) (if e_tombAuth E then t_kill p.2 else None))
             else None) (tr_tombs tr).

Definition replayTo (E : senv) (tr : tree) (sub : string) (since : option Z) (ping latest : bool) (attach : option string) : list out :=
  let a := if topicLifetime E then truthy attach else None in
  let send := λ ms, ODeliver (idz sub) ms (genCarried E tr) a None in
  let chunks := replay_bodies tr since latest in
  let dels := replay_dels E tr in
  if idz sub =? e_self E then (OApp ∘ DBody <$> concat chunks) ++ (OApp ∘ DDel <$> dels)
  else
    let o := ((λ b, send (DBody <$> b)) <$> chunks) ++ (match dels with [] => [] | _ => [send (DDel <$> dels)] end) in
    match o with [] => if ping then [send []] else [] | _ => o end.

Definition fanout (E : senv) (tr : tree) (m : dmsg) (exclude : option string) : list out :=
  (λ sub, ODeliver (idz sub) [m] (genCarried E tr) None None) <$> filter (λ sub, exclude ≠ Some sub) (seats tr).*1.

(** * Seating *)

Definition pick_step (tr : tree) (target : Z) (best : option string) (c : string) : option string :=
  if jhas (seats tr) c
  then match best with
       | Some b => if xorDistance (idz c) target <? xorDistance (idz b) target then Some c else best
       | None => Some c
       end
  else best.
(** The stale children met are dropped: all of them, the scan is a full one. *)
Definition pickChild (tr : tree) (subHex : string) : tree * option string :=
  (with_kids (filter (λ c, jhas (seats tr) c = true) (kids tr)) tr, foldl (pick_step tr (idz subHex)) None (kids tr)).

Definition pendingSubs (tr : tree) : list string := concat (pd_subs ∘ snd <$> pending tr).
Definition leaf_step (E : senv) (tr : tree) (acc : list string) (p : string * seat) : list string :=
  if bool_decide (p.1 ∈ kids tr) || bool_decide (p.1 ∈ pendingSubs tr) then acc
  else if bool_decide (st_kind p.2 = SStandby) then acc
  else if topicLifetime E && bool_decide (acc = []) && (e_now E <? default 0 (jget (childCooldown E) p.1)) then acc
  else acc ++ [p.1].
Definition leaves (E : senv) (tr : tree) : list string := foldl (leaf_step E tr) [] (seats tr).

Definition add_kid (c : string) (l : list string) : list string := if bool_decide (c ∈ l) then l else l ++ [c].
Definition sinceOf (tr : tree) (s : string) : option Z := st_since <$> jget (seats tr) s.
Definition delegateTo (E : senv) (c : string) (subs : list (string * option Z)) (nonce : string) : out :=
  OAdopt (idz c) (e_self E) subs nonce.

Definition promoteChild (E : senv) (nonce : string) (tr : tree) : option (tree * list out) :=
  match leaves E tr with
  | leaf :: (_ :: _) as rest =>
      let batch := take DELEGATE_BATCH (tail (leaves E tr)) in
      let tr1 := with_kids (add_kid leaf (kids tr)) tr in
      let tr2 := with_pending (jset (pending tr1) nonce (mk_pend leaf batch (e_now E))) tr1 in
      Some (tr2, delegateTo E leaf ((λ s, (s, sinceOf tr s)) <$> batch) nonce ::
                 (if topicLifetime E then (λ s, ODeliver (idz s) [] (genCarried E tr) None (Some leaf)) <$> batch else []))
  | _ => None
  end.

Definition seat_ (E : senv) (tr : tree) (sub : string) (since : option Z) (kind : skind) (demand : Z) : tree :=
  with_seats (jset (seats tr) sub (mk_seat (default 0 since) (e_now E) kind demand)) tr.
Definition stamp (E : senv) (kind : skind) (demand : Z) (tr : tree) : tree :=
  if bool_decide (kind = SReader) || (bool_decide (kind = SChild) && (0 <? demand)) then with_demand (e_now E) tr else tr.

Definition accept (E : senv) (nonce : string) (tr : tree) (sub : string) (since : option Z) (latest : bool)
    (seat_in : option (skind * Z)) (attach : option string) (unpinned : bool) : tree * list out :=
  let kind := match seat_in with Some s => s.1 | None => SReader end in
  let demand := match seat_in with Some s => to_int32 s.2 | None => 1 end in
  match jget (seats tr) sub with
  | Some s =>
      let tr := stamp E kind demand (with_seats (jset (seats tr) sub (mk_seat (st_since s) (e_now E) kind demand)) tr) in
      let echo := attachEcho E && (bool_decide (is_Some (truthy attach)) || unpinned) in
      (tr, replayTo E tr sub since echo latest attach)
  | None =>
      let seat_it := λ tr o,
        let tr := stamp E kind demand (seat_ E tr sub since kind demand) in
        (tr, o ++ replayTo E tr sub since true latest attach) in
      if (maxDirect E <=? jsize (seats tr)) && bool_decide (kind ≠ SStandby) then
        match promoteChild E nonce tr with
        | Some (tr, o) => seat_it tr o
        | None =>
            match pickChild tr sub with
            | (tr, Some c) =>
                (tr, (if latest then replayTo E tr sub since false true attach else []) ++
                     delegateTo E c [(sub, since)] nonce ::
                     (if topicLifetime E then [ODeliver (idz sub) [] (genCarried E tr) (truthy attach) (Some c)] else []))
            | (tr, None) => seat_it tr []
            end
        end
      else seat_it tr []
  end.

(** * The other operations *)

Definition unseat (s : string) (tr : tree) : tree := with_seats (jdel (seats tr) s) tr.
Definition drop_kid (s : string) (tr : tree) : tree := with_kids (filter (λ c, c ≠ s) (kids tr)) tr.

Definition settle_step (acc : list string) (st : tree * nat * nat) (s : string) : tree * nat * nat :=
  let '(tr, released, kept) := st in
  if bool_decide (s ∈ acc) && jhas (seats tr) s && negb (bool_decide (s ∈ kids tr)) then (unseat s tr, S released, kept)
  else if jhas (seats tr) s then (tr, released, S kept)
  else st.
Definition settleDelegation (tr : tree) (nonce : string) (acc : list string) : tree * option (nat * nat) :=
  match jget (pending tr) nonce with
  | None => (tr, None)
  | Some p =>
      let tr := with_pending (jdel (pending tr) nonce) tr in
      let '(tr, released, kept) := foldl (settle_step acc) (tr, 0%nat, 0%nat) (pd_subs p) in
      (if Nat.eqb released 0 then drop_kid (pd_child p) tr else tr, Some (released, kept))
  end.

Definition sweep_step (now : Z) (tr : tree) (p : string * pend) : tree :=
  if ADOPT_ACK_MS <=? now - pd_at p.2 then (settleDelegation tr p.1 []).1 else tr.
Definition delegationSweep (now : Z) (tr : tree) : tree := foldl (sweep_step now) tr (pending tr).

(** The seat sweep of [refreshTick]. *)
Definition seat_stale (E : senv) (p : string * seat) : bool := dropMs E <? e_now E - st_lastRenewed p.2.
Definition seatSweep (E : senv) (tr : tree) : tree :=
  foldl (λ tr p, if seat_stale E p then drop_kid p.1 (unseat p.1 tr) else tr) tr (seats tr).

(** The tree's part of [_onUnsub], and the cooldown a step-down arms. *)
Definition onUnsub (E : senv) (tr : option tree) (subscriberId : string) (steppedDown : bool) : option tree * jmap string Z :=
  let s := lc subscriberId in
  ((λ tr, drop_kid s (unseat s tr)) <$> tr,
   if topicLifetime E && steppedDown && ids_isHexId s then jset (childCooldown E) s (e_now E + childCooldownMs E)
   else childCooldown E).

Record ad := mk_ad { ad_tree : tree; ad_out : list out; ad_acc : list string; ad_k : nat }.
Definition adopt_step (E : senv) (nonces : nat → string) (st : ad) (s : string * option Z) : ad :=
  let sh := lc s.1 in
  if ids_isHexId sh && negb (idz sh =? e_self E) then
    let '(tr, o) := accept E (nonces (ad_k st)) (ad_tree st) sh s.2 false None None false in
    mk_ad tr (ad_out st ++ o) (if jhas (seats tr) sh then ad_acc st ++ [sh] else ad_acc st) (S (ad_k st))
  else st.
(** [role_]: what [adoptChild] returned. *)
Definition onAdopt (E : senv) (nonces : nat → string) (role_ : option tree) (parent : string) (nonce : option string)
    (subs : list (string * option Z)) : option tree * list out :=
  let parentHex := lc parent in
  let reply := λ acc refused,
    match truthy nonce with
    | Some n => if ids_isHexId parentHex then [OAck (idz parentHex) n acc refused] else []
    | None => []
    end in
  match role_ with
  | None => (None, reply [] true)
  | Some tr =>
      let st := foldl (adopt_step E nonces) (mk_ad tr [] [] 0) subs in
      (Some (ad_tree st), ad_out st ++ reply (ad_acc st) false ++ [OSendSubscribe])
  end.

Definition onAdoptAck (tr : option tree) (nonce : option string) (acc : list string) (refused : bool) : option tree :=
  match tr, nonce with
  | Some tr, Some n => Some (settleDelegation tr n (if refused then [] else lc <$> acc)).1
  | _, _ => tr
  end.

(** * Replay: lemmas *)

Definition bytes_of (b : list entry) : Z := foldr (λ c n, e_bytes c + n) 0 b.
(** A frame is within the budget, or holds the one entry that is not. *)
Definition chunk_ok (b : list entry) : Prop := b ≠ [] ∧ (bytes_of b ≤ REPLAY_CHUNK_BYTES ∨ length b = 1%nat).
Definition batch_ok (s : rp) : Prop :=
  rp_bytes s = bytes_of (rp_batch s) ∧ (rp_batch s = [] ∨ chunk_ok (rp_batch s)) ∧ Forall chunk_ok (rp_out s).
Definition rp_all (s : rp) : list entry := concat (rp_out s) ++ rp_batch s.

Lemma bytes_of_app a b : bytes_of (a ++ b) = bytes_of a + bytes_of b.
Proof. induction a as [|c a IH]; cbn; [done|]. unfold bytes_of in *. cbn. rewrite IH. lia. Qed.

Lemma flush_spec s : batch_ok s → batch_ok (flush s) ∧ rp_batch (flush s) = [] ∧ rp_all (flush s) = rp_all s.
Proof.
  intros (H1 & H2 & H3). unfold flush, rp_all. destruct (rp_batch s) as [|c b] eqn:E.
  { rewrite E. split; [|done]. unfold batch_ok. rewrite E. auto. }
  cbn [rp_batch rp_bytes rp_out]. rewrite concat_app. cbn [concat]. rewrite !app_nil_r. split_and!; [|done|done].
  split_and!; [done|by left|]. apply Forall_app. split; [done|]. apply Forall_singleton. by destruct H2.
Qed.

(** Adding an entry after the flush the budget asks for, whatever byte count is kept. *)
Lemma push_spec s c : batch_ok s → batch_ok (push s c) ∧ rp_all (push s c) = rp_all s ++ [c].
Proof.
  intros H. unfold push. set (s1 := if _ <? _ then flush s else s).
  assert (batch_ok s1 ∧ rp_all s1 = rp_all s ∧ (rp_batch s1 = [] ∨ rp_bytes s1 + e_bytes c ≤ REPLAY_CHUNK_BYTES)) as ((H1 & H2 & H3) & Ha & Hb).
  { unfold s1. destruct (_ <? _) eqn:E.
    - destruct (flush_spec s H) as (? & ? & ?). auto.
    - apply Z.ltb_ge in E. auto. }
  unfold batch_ok, rp_all in *. cbn [rp_batch rp_bytes rp_out]. rewrite bytes_of_app, app_assoc, Ha. cbn [bytes_of foldr].
  split; [|done]. split_and!; [lia| |done]. right. split; [by destruct (rp_batch s1)|].
  destruct Hb as [->|Hb]; [right; done|left]. rewrite bytes_of_app. cbn [bytes_of foldr]. lia.
Qed.

Lemma push_fold l : ∀ s, batch_ok s → batch_ok (foldl push s l) ∧ rp_all (foldl push s l) = rp_all s ++ l.
Proof.
  induction l as [|c l IH]; intros s H; cbn [foldl]; [by rewrite app_nil_r|].
  destruct (push_spec s c H) as [H1 H2]. destruct (IH _ H1) as [H3 H4]. split; [done|]. by rewrite H4, H2, <- app_assoc.
Qed.

(** What a replay carries: the entries after [since], and the newest where it is asked for. *)
Definition replay_set (tr : tree) (since : option Z) (latest : bool) : list entry :=
  let sel := filter (λ c, not_after since c = false) (tr_cache tr) in
  sel ++ (if latest then
            match last (tr_cache tr) with
            | Some newest => if bool_decide (e_msgId newest ∈ e_msgId <$> sel) then [] else [newest]
            | None => []
            end
          else []).

Lemma replay_bodies_spec tr since latest :
  concat (replay_bodies tr since latest) = replay_set tr since latest ∧ Forall chunk_ok (replay_bodies tr since latest).
Proof.
  unfold replay_bodies, replay_set. set (sel := filter _ (tr_cache tr)).
  assert (batch_ok (mk_rp [] 0 [])) as H0 by (split_and!; [done|by left|done]).
  destruct (push_fold sel _ H0) as [H1 H2]. change (rp_all (mk_rp [] 0 [])) with (@nil entry) in H2. cbn [app] in H2.
  set (s := foldl push (mk_rp [] 0 []) sel) in *.
  assert (∀ s' l, batch_ok s' → rp_all s' = l → concat (rp_out (flush s')) = l ∧ Forall chunk_ok (rp_out (flush s'))) as Hf.
  { intros s' l Hs <-. destruct (flush_spec s' Hs) as ((_ & _ & Hc) & Hb & Ha). split; [|done].
    rewrite <- Ha. unfold rp_all. by rewrite Hb, app_nil_r. }
  destruct latest; [|rewrite app_nil_r; by apply Hf].
  destruct (last (tr_cache tr)) as [n|]; [|rewrite app_nil_r; by apply Hf].
  case_bool_decide; [rewrite app_nil_r; by apply Hf|].
  destruct (push_spec s n H1) as [(P1 & P2 & P3) P4]. rewrite <- H2, <- P4.
  destruct (flush_spec (push s n) (conj P1 (conj P2 P3))) as ((_ & _ & Hc) & Hb & Ha).
  assert (∀ x b o, rp_out (flush (mk_rp b x o)) = rp_out (flush (mk_rp b (rp_bytes (push s n)) o))) as Hx by (intros x [|] o; done).
  rewrite Hx. change (mk_rp _ (rp_bytes (push s n)) _) with (push s n).
  split; [|done]. rewrite <- Ha. unfold rp_all. by rewrite Hb, app_nil_r.
Qed.

(** * Seating: lemmas *)

Definition seated (tr : tree) (s : string) : Prop := jhas (seats tr) s = true.

Lemma jhas_jset {V} (m : jmap string V) k v k' : jhas (jset m k v) k' = true ↔ k' = k ∨ jhas m k' = true.
Proof.
  rewrite !jhas_true. destruct (decide (k = k')) as [->|Hne].
  - rewrite jget_jset_eq. naive_solver.
  - rewrite jget_jset_ne by done. naive_solver.
Qed.

Lemma jhas_jdel {V} (m : jmap string V) k k' : jhas (jdel m k) k' = true ↔ k' ≠ k ∧ jhas m k' = true.
Proof.
  rewrite !jhas_true. destruct (decide (k = k')) as [->|Hne].
  - rewrite jget_jdel_eq. naive_solver.
  - rewrite jget_jdel_ne by done. naive_solver.
Qed.

Lemma seated_key tr s : seated tr s → s ∈ (seats tr).*1.
Proof. unfold seated. rewrite jhas_true. intros [v Hv%jget_Some_elem]. apply list_elem_of_fmap. by exists (s, v). Qed.

Lemma stamp_same E k d tr :
  seats (stamp E k d tr) = seats tr ∧ kids (stamp E k d tr) = kids tr ∧ pending (stamp E k d tr) = pending tr.
Proof. unfold stamp. by destruct (_ || _). Qed.

(** The nearest of the seated children. *)
Lemma pick_fold tr target l : ∀ best,
  let r := foldl (pick_step tr target) best l in
  (∀ b, r = Some b → best = Some b ∨ b ∈ l ∧ seated tr b) ∧
  (∀ b, best = Some b → ∃ c, r = Some c ∧ xorDistance (idz c) target ≤ xorDistance (idz b) target) ∧
  (∀ b, b ∈ l → seated tr b → ∃ c, r = Some c ∧ xorDistance (idz c) target ≤ xorDistance (idz b) target).
Proof.
  induction l as [|x l IH]; intros best; cbn [foldl]; cbn zeta in *.
  { split_and!; [auto|intros b ->; exists b; split; [done|lia]|]. by intros b Hb%elem_of_nil. }
  destruct (IH (pick_step tr target best x)) as (H1 & H2 & H3). clear IH.
  assert (∀ b, pick_step tr target best x = Some b → best = Some b ∨ b = x ∧ seated tr x) as P1.
  { intros b. unfold pick_step, seated. destruct (jhas _ x); [|auto]. destruct best; [destruct (_ <? _)|]; naive_solver. }
  assert (∀ b, best = Some b → ∃ c, pick_step tr target best x = Some c ∧ xorDistance (idz c) target ≤ xorDistance (idz b) target) as P2.
  { intros b ->. unfold pick_step. destruct (jhas _ x); [|exists b; split; [done|lia]].
    destruct (_ <? _) eqn:El; [|exists b; split; [done|lia]]. apply Z.ltb_lt in El. exists x. split; [done|lia]. }
  assert (seated tr x → ∃ c, pick_step tr target best x = Some c ∧ xorDistance (idz c) target ≤ xorDistance (idz x) target) as P3.
  { intros Hx. unfold pick_step. unfold seated in Hx. rewrite Hx. destruct best as [b|]; [|exists x; split; [done|lia]].
    destruct (_ <? _) eqn:El; [exists x; split; [done|lia]|]. apply Z.ltb_ge in El. exists b. split; [done|lia]. }
  split_and!.
  - intros b Hb. destruct (H1 b Hb) as [Hb'|[? ?]]; [|right; split; [by right|done]].
    destruct (P1 b Hb') as [|[-> ?]]; [by left|]. right. split; [left|done].
  - intros b Hb. destruct (P2 b Hb) as (c & Hc & Hle). destruct (H2 c Hc) as (d & ? & ?). exists d. split; [done|lia].
  - intros b [->|Hb]%elem_of_cons Hs; [|by apply H3]. destruct (P3 Hs) as (c & Hc & Hle).
    destruct (H2 c Hc) as (d & ? & ?). exists d. split; [done|lia].
Qed.

Lemma leaves_fold E tr l : ∀ acc,
  let r := foldl (leaf_step E tr) acc l in
  ∃ m, r = acc ++ m ∧ m `sublist_of` l.*1 ∧
    ∀ s, s ∈ m → s ∉ kids tr ∧ s ∉ pendingSubs tr ∧ ∃ st, (s, st) ∈ l ∧ st_kind st ≠ SStandby.
Proof.
  induction l as [|[k v] l IH]; intros acc; cbn zeta.
  { exists []. rewrite app_nil_r. split_and!; [done|done|by intros s Hs%elem_of_nil]. }
  cbn [foldl]. destruct (IH (leaf_step E tr acc (k, v))) as (m & Hm & Hsub & Hall).
  assert (leaf_step E tr acc (k, v) = acc ∨
    leaf_step E tr acc (k, v) = acc ++ [k] ∧ k ∉ kids tr ∧ k ∉ pendingSubs tr ∧ st_kind v ≠ SStandby) as [Hs|(Hs & G1 & G2 & G3)].
  { unfold leaf_step. cbn [fst snd]. do 3 (case_bool_decide; cbn [orb andb]; auto); (destruct (_ && _); auto). }
  - exists m. rewrite Hm, Hs. split_and!; [done|by apply sublist_cons|].
    intros s Hin. destruct (Hall s Hin) as (? & ? & st & ? & ?). split_and!; [done|done|]. exists st. split; [by right|done].
  - exists (k :: m). rewrite Hm, Hs, <- app_assoc. split_and!; [done|by apply sublist_skip|].
    intros s [->|Hin]%elem_of_cons; [split_and!; [done|done|exists v; split; [left|done]]|].
    destruct (Hall s Hin) as (? & ? & st & ? & ?). split_and!; [done|done|]. exists st. split; [by right|done].
Qed.

Lemma leaves_spec E tr : jwf (seats tr) →
  NoDup (leaves E tr) ∧ ∀ s, s ∈ leaves E tr →
    seated tr s ∧ s ∉ kids tr ∧ s ∉ pendingSubs tr ∧ ∃ st, jget (seats tr) s = Some st ∧ st_kind st ≠ SStandby.
Proof.
  intros Hw. destruct (leaves_fold E tr (seats tr) []) as (m & Hm & Hsub & Hall).
  change (leaves E tr = m) in Hm. rewrite Hm. split; [by eapply sublist_NoDup|].
  intros s Hs. destruct (Hall s Hs) as (? & ? & st & Hin & ?). apply elem_jget in Hin; [|done].
  split_and!; [apply jhas_true; by exists st|done|done|by exists st].
Qed.

(** The seats a widening may pick, in seat order: no child, no standby, in no open delegation;
    under topicLifetime the first of them is the first that is not cooling down. *)
Fixpoint skip_while {A} (f : A → bool) (l : list A) : list A :=
  match l with x :: l' => if f x then skip_while f l' else l | [] => [] end.
Definition free_leaf (tr : tree) (p : string * seat) : Prop :=
  p.1 ∉ kids tr ∧ p.1 ∉ pendingSubs tr ∧ st_kind p.2 ≠ SStandby.
#[export] Instance free_leaf_dec tr p : Decision (free_leaf tr p).
Proof. unfold free_leaf. apply _. Defined.
Definition cooling (E : senv) (s : string) : bool :=
  topicLifetime E && (e_now E <? default 0 (jget (childCooldown E) s)).
Definition promotable (E : senv) (tr : tree) : list string :=
  skip_while (cooling E) (filter (free_leaf tr) (seats tr)).*1.

Lemma leaves_fold_eq E tr l : ∀ acc, foldl (leaf_step E tr) acc l =
  match acc with
  | [] => skip_while (cooling E) (filter (free_leaf tr) l).*1
  | _ => acc ++ (filter (free_leaf tr) l).*1
  end.
Proof.
  induction l as [|p l IH]; intros acc; [destruct acc; by rewrite ?app_nil_r|]. cbn [foldl]. rewrite IH, filter_cons.
  unfold leaf_step. destruct (decide (free_leaf tr p)) as [(H1 & H2 & H3)|Hn].
  - rewrite !bool_decide_eq_false_2 by done. cbn [orb]. destruct acc as [|x acc].
    + rewrite (bool_decide_eq_true_2 ([] = [])) by done. cbn [fmap list_fmap skip_while]. unfold cooling.
      destruct (topicLifetime E); cbn [andb]; [|done]. by destruct (_ <? _).
    + rewrite bool_decide_eq_false_2, andb_false_r by done. cbn [andb app fmap list_fmap].
      by rewrite <- app_assoc.
  - assert (∀ b, (if bool_decide (p.1 ∈ kids tr) || bool_decide (p.1 ∈ pendingSubs tr) then acc
      else if bool_decide (st_kind p.2 = SStandby) then acc else b) = acc) as Hb.
    { intros b. destruct (bool_decide (p.1 ∈ kids tr)) eqn:E1; [done|]. destruct (bool_decide (p.1 ∈ pendingSubs tr)) eqn:E2; [done|].
      destruct (bool_decide (st_kind p.2 = SStandby)) eqn:E3; [done|]. apply bool_decide_eq_false_1 in E1, E2, E3.
      exfalso. by apply Hn. }
    by rewrite Hb.
Qed.

Lemma leaves_promotable E tr : leaves E tr = promotable E tr.
Proof. apply (leaves_fold_eq E tr (seats tr) []). Qed.

Lemma promote_spec E n tr tr' o : promoteChild E n tr = Some (tr', o) →
  ∃ leaf rest, leaves E tr = leaf :: rest ∧ rest ≠ [] ∧
    seats tr' = seats tr ∧ kids tr' = add_kid leaf (kids tr) ∧
    pending tr' = jset (pending tr) n (mk_pend leaf (take DELEGATE_BATCH rest) (e_now E)) ∧
    o = delegateTo E leaf ((λ s, (s, sinceOf tr s)) <$> take DELEGATE_BATCH rest) n ::
        (if topicLifetime E then (λ s, ODeliver (idz s) [] (genCarried E tr) None (Some leaf)) <$> take DELEGATE_BATCH rest else []).
Proof.
  unfold promoteChild. destruct (leaves E tr) as [|leaf [|x rest]] eqn:El; [done|done|]. intros [= <- <-].
  exists leaf, (x :: rest). by split_and!.
Qed.

Lemma promote_None E n tr : promoteChild E n tr = None → (length (leaves E tr) < 2)%nat.
Proof. unfold promoteChild. destruct (leaves E tr) as [|leaf [|x rest]]; cbn; [lia|lia|done]. Qed.

Definition delivers (o : out) : Prop := match o with ODeliver _ _ _ _ _ | OApp _ => True | _ => False end.

Lemma replay_delivers E tr sub since ping latest attach : ∀ o, o ∈ replayTo E tr sub since ping latest attach → delivers o.
Proof.
  unfold replayTo. intros o. destruct (idz sub =? e_self E).
  { intros [Hin|Hin]%elem_of_app; by apply list_elem_of_fmap in Hin as (? & -> & _). }
  match goal with |- _ ∈ match ?x with _ => _ end → _ => assert (o ∈ x → delivers o) as Hx end.
  { intros [Hin|Hin]%elem_of_app; [by apply list_elem_of_fmap in Hin as (? & -> & _)|].
    destruct (replay_dels E tr); [by apply elem_of_nil in Hin|]. by apply list_elem_of_singleton in Hin as ->. }
  intros Hin. match type of Hin with _ ∈ match ?x with _ => _ end => destruct x eqn:Ex end; [|by apply Hx].
  destruct ping; [by apply list_elem_of_singleton in Hin as ->|by apply elem_of_nil in Hin].
Qed.

Lemma replay_no_adopt E tr sub since ping latest attach c p l m :
  OAdopt c p l m ∉ replayTo E tr sub since ping latest attach.
Proof. intros H. by apply replay_delivers in H. Qed.

Section accept.
Context (E : senv) (n : string) (tr : tree) (sub : string) (since : option Z) (latest : bool)
        (seat_in : option (skind * Z)) (attach : option string) (unpinned : bool).
Let kind := match seat_in with Some s => s.1 | None => SReader end.
Let demand := match seat_in with Some s => to_int32 s.2 | None => 1 end.
Let r := accept E n tr sub since latest seat_in attach unpinned.
Let full := maxDirect E ≤ jsize (seats tr) ∧ kind ≠ SStandby.
Let place := jset (seats tr) sub (mk_seat (default 0 since) (e_now E) kind demand).

Lemma accept_renew s : jget (seats tr) sub = Some s →
  seats r.1 = jset (seats tr) sub (mk_seat (st_since s) (e_now E) kind demand) ∧ kids r.1 = kids tr ∧
  pending r.1 = pending tr ∧ (∀ c p l m, OAdopt c p l m ∉ r.2).
Proof.
  intros Hs. unfold r, accept. rewrite Hs. cbn [fst snd]. fold kind demand.
  destruct (stamp_same E kind demand (with_seats (jset (seats tr) sub (mk_seat (st_since s) (e_now E) kind demand)) tr)) as (H1 & H2 & H3).
  split_and!; [done..|]. intros c p l m. apply replay_no_adopt.
Qed.

Lemma accept_new : jget (seats tr) sub = None →
  (¬ full ∧ seats r.1 = place ∧ kids r.1 = kids tr ∧ pending r.1 = pending tr ∧ (∀ c p l m, OAdopt c p l m ∉ r.2)) ∨
  (full ∧ ∃ leaf rest, leaves E tr = leaf :: rest ∧ rest ≠ [] ∧ seats r.1 = place ∧ kids r.1 = add_kid leaf (kids tr) ∧
     pending r.1 = jset (pending tr) n (mk_pend leaf (take DELEGATE_BATCH rest) (e_now E)) ∧
     ∀ c p l m, OAdopt c p l m ∈ r.2 ↔
       OAdopt c p l m = delegateTo E leaf ((λ s, (s, sinceOf tr s)) <$> take DELEGATE_BATCH rest) n) ∨
  (full ∧ (length (leaves E tr) < 2)%nat ∧ kids r.1 = filter (λ c, jhas (seats tr) c = true) (kids tr) ∧
     pending r.1 = pending tr ∧
     match foldl (pick_step tr (idz sub)) None (kids tr) with
     | Some c => seats r.1 = seats tr ∧
         ∀ c' p l m, OAdopt c' p l m ∈ r.2 ↔ OAdopt c' p l m = delegateTo E c [(sub, since)] n
     | None => seats r.1 = place ∧ ∀ c p l m, OAdopt c p l m ∉ r.2
     end).
Proof.
  intros Hs. unfold r, accept. rewrite Hs. fold kind demand.
  assert (∀ t, seats t = seats tr →
    seats (stamp E kind demand (seat_ E t sub since kind demand)) = place ∧
    kids (stamp E kind demand (seat_ E t sub since kind demand)) = kids t ∧
    pending (stamp E kind demand (seat_ E t sub since kind demand)) = pending t) as Hst.
  { intros t Ht. destruct (stamp_same E kind demand (seat_ E t sub since kind demand)) as (-> & -> & ->).
    cbn [seat_ with_seats seats kids pending]. by rewrite Ht. }
  destruct ((maxDirect E <=? jsize (seats tr)) && bool_decide (kind ≠ SStandby)) eqn:Ef.
  2: { left. cbn [fst snd app]. destruct (Hst tr eq_refl) as (? & ? & ?). split_and!; [|done..|].
    - intros [Hf Hk]. apply andb_false_iff in Ef as [Ef|Ef]; zb; [lia|]. by apply bool_decide_eq_false_1 in Ef.
    - intros c p l m. apply replay_no_adopt. }
  right. apply andb_true_iff in Ef as [Ef1 Ef2]. zb. apply bool_decide_eq_true_1 in Ef2.
  destruct (promoteChild E n tr) as [[t o]|] eqn:Ep.
  - left. split; [done|]. destruct (promote_spec _ _ _ _ _ Ep) as (leaf & rest & H1 & H2 & H3 & H4 & H5 & ->).
    exists leaf, rest. cbn [fst snd]. destruct (Hst t H3) as (-> & -> & ->). split_and!; [done..|].
    intros c p l m. rewrite elem_of_app, elem_of_cons. split; [|by auto].
    intros [[?|Hin]|Hin]; [done| |by apply replay_no_adopt in Hin]. exfalso.
    destruct (topicLifetime E); [|by apply elem_of_nil in Hin]. by apply list_elem_of_fmap in Hin as (? & ? & _).
  - right. split; [done|]. split; [by eapply promote_None|]. unfold pickChild.
    set (t := with_kids _ tr). destruct (foldl (pick_step tr (idz sub)) None (kids tr)) as [c|] eqn:Ec; cbn [fst snd].
    + split_and!; [done..|]. intros c' p l m. rewrite elem_of_app, elem_of_cons. split; [|by auto].
      intros [Hin|[?|Hin]]; [|done|]; exfalso.
      * destruct latest; [by apply replay_no_adopt in Hin|by apply elem_of_nil in Hin].
      * destruct (topicLifetime E); [by apply list_elem_of_singleton in Hin|by apply elem_of_nil in Hin].
    + destruct (Hst t eq_refl) as (-> & -> & ->). split_and!; [done..|]. intros c p l m. apply replay_no_adopt.
Qed.
End accept.

(** Seating sends no acknowledgement, and unseats nobody. *)
Lemma accept_no_ack E n tr sub since latest st attach unpinned p m acc b :
  OAck p m acc b ∉ (accept E n tr sub since latest st attach unpinned).2.
Proof.
  assert (∀ o' l, OAck p m acc b ∈ o' ++ l → OAck p m acc b ∈ o' ∨ OAck p m acc b ∈ l) as Ha by (intros o' l; apply elem_of_app).
  assert (∀ t s f g h a, OAck p m acc b ∉ replayTo E t s f g h a) as Hr by (intros t s f g h a H; by apply replay_delivers in H).
  unfold accept. destruct (jget (seats tr) sub) as [s|]; cbn [snd]; [apply Hr|].
  destruct (_ && _); [|cbn [snd app]; apply Hr].
  destruct (promoteChild E n tr) as [[t o]|] eqn:Ep; cbn [snd].
  - destruct (promote_spec _ _ _ _ _ Ep) as (leaf & rest & _ & _ & _ & _ & _ & ->).
    intros [Hin|Hin]%Ha; [|by apply Hr in Hin]. apply elem_of_cons in Hin as [Hin|Hin]; [done|].
    destruct (topicLifetime E); [by apply list_elem_of_fmap in Hin as (? & ? & _)|by apply elem_of_nil in Hin].
  - unfold pickChild. destruct (foldl _ None _); cbn [snd app]; [|apply Hr]. intros [Hin|Hin]%Ha.
    + destruct latest; [by apply Hr in Hin|by apply elem_of_nil in Hin].
    + apply elem_of_cons in Hin as [Hin|Hin]; [done|].
      destruct (topicLifetime E); [by apply list_elem_of_singleton in Hin|by apply elem_of_nil in Hin].
Qed.

Lemma accept_keeps E n tr sub since latest st attach unpinned z :
  seated tr z → seated (accept E n tr sub since latest st attach unpinned).1 z.
Proof.
  intros Hz. unfold seated in *. destruct (jget (seats tr) sub) as [s|] eqn:Es.
  { destruct (accept_renew E n tr sub since latest st attach unpinned s Es) as (-> & _). apply jhas_jset. by right. }
  destruct (accept_new E n tr sub since latest st attach unpinned Es)
    as [(_ & -> & _)|[(_ & leaf & rest & _ & _ & -> & _)|(_ & _ & _ & _ & G)]]; [apply jhas_jset; by right..|].
  destruct (foldl _ None _); destruct G as [-> _]; [done|apply jhas_jset; by right].
Qed.

(** * Settling and sweeping: lemmas *)

Definition released (tr : tree) (acc subs : list string) (z : string) : Prop := z ∈ subs ∧ z ∈ acc ∧ seated tr z ∧ z ∉ kids tr.
#[export] Instance released_dec tr acc subs z : Decision (released tr acc subs z).
Proof. unfold released, seated. apply _. Defined.

Lemma settle_fold acc l : ∀ tr rel kept,
  let r := foldl (settle_step acc) (tr, rel, kept) l in
  kids r.1.1 = kids tr ∧ pending r.1.1 = pending tr ∧ seats r.1.1 `sublist_of` seats tr ∧
  (∀ z, released tr acc l z → jget (seats r.1.1) z = None) ∧
  (∀ z, ¬ released tr acc l z → jget (seats r.1.1) z = jget (seats tr) z) ∧
  (rel ≤ r.1.2)%nat ∧ (r.1.2 = rel ↔ ∀ z, ¬ released tr acc l z).
Proof.
  induction l as [|x l IH]; intros tr rel kept; cbn zeta.
  { cbn. split_and!; [done|done|done| |done|lia|]; [by intros z [Hz%elem_of_nil _]|].
    split; [|done]. by intros _ z [Hz%elem_of_nil _]. }
  cbn [foldl]. destruct (bool_decide (x ∈ acc) && jhas (seats tr) x && negb (bool_decide (x ∈ kids tr))) eqn:Ex.
  - assert (released tr acc (x :: l) x) as Hrel.
    { apply andb_true_iff in Ex as [[E1 E2]%andb_true_iff E3]. apply bool_decide_eq_true_1 in E1. apply negb_true_iff in E3.
      apply bool_decide_eq_false_1 in E3. split_and!; [left|done|done|done]. }
    replace (settle_step acc (tr, rel, kept) x) with (unseat x tr, S rel, kept) by (unfold settle_step; by rewrite Ex).
    destruct (IH (unseat x tr) (S rel) kept) as (H1 & H2 & H3 & H4 & H5 & H6 & H7). cbn zeta in *.
    set (r := foldl _ _ l) in *. change (kids (unseat x tr)) with (kids tr) in *.
    assert (∀ z, z ≠ x → released (unseat x tr) acc l z ↔ released tr acc (x :: l) z) as Hiff.
    { intros z Hz. unfold released, seated. cbn [unseat with_seats seats kids]. rewrite jhas_jdel, elem_of_cons. tauto. }
    split_and!; [done|done| | | |lia|].
    + etrans; [exact H3|]. cbn. unfold jdel. apply sublist_filter.
    + intros z Hz. destruct (decide (z = x)) as [->|Hne]; [|by apply H4, Hiff].
      rewrite H5 by (unfold released, seated; cbn [unseat with_seats seats]; rewrite jhas_jdel; tauto).
      apply jget_jdel_eq.
    + intros z Hz. assert (z ≠ x) by (by intros ->). rewrite H5 by (by rewrite Hiff). cbn. by apply jget_jdel_ne.
    + split; [lia|]. intros Hall. by apply Hall in Hrel.
  - assert (∃ k', settle_step acc (tr, rel, kept) x = (tr, rel, k')) as [k' ->].
    { unfold settle_step. rewrite Ex. destruct (jhas _ x); by eexists. }
    destruct (IH tr rel k') as (H1 & H2 & H3 & H4 & H5 & H6 & H7). cbn zeta in *. set (r := foldl _ _ l) in *.
    assert (∀ z, released tr acc (x :: l) z ↔ released tr acc l z) as Hiff.
    { intros z. unfold released, seated. rewrite elem_of_cons. split; [|tauto]. intros ([->|?] & G1 & G2 & G3); [|tauto].
      exfalso. rewrite bool_decide_eq_true_2, G2, bool_decide_eq_false_2 in Ex by done. done. }
    split_and!; [done..| | |lia|].
    + intros z Hz. by apply H4, Hiff.
    + intros z Hz. apply H5. by rewrite <- Hiff.
    + rewrite H7. split; intros Hn z; [rewrite Hiff|rewrite <- Hiff]; apply Hn.
Qed.

Lemma settle_cases tr n acc p : jget (pending tr) n = Some p →
  let r := settleDelegation tr n acc in
  pending r.1 = jdel (pending tr) n ∧ seats r.1 `sublist_of` seats tr ∧
  (∀ z, released tr acc (pd_subs p) z → jget (seats r.1) z = None) ∧
  (∀ z, ¬ released tr acc (pd_subs p) z → jget (seats r.1) z = jget (seats tr) z) ∧
  ((∃ z, released tr acc (pd_subs p) z) ∧ kids r.1 = kids tr ∨
   (∀ z, ¬ released tr acc (pd_subs p) z) ∧ kids r.1 = filter (λ c, c ≠ pd_child p) (kids tr)).
Proof.
  intros Hp. cbn zeta. unfold settleDelegation. rewrite Hp.
  pose proof (settle_fold acc (pd_subs p) (with_pending (jdel (pending tr) n) tr) 0 0) as (H1 & H2 & H3 & H4 & H5 & _ & H7).
  destruct (foldl _ _ _) as [[t rel] kept]. cbn [fst snd] in *.
  destruct (Nat.eqb_spec rel 0) as [He|He]; cbn [fst].
  - split_and!; [done|done|exact H4|exact H5|]. right. split; [by apply H7|]. cbn. by rewrite H1.
  - split_and!; [done|done|exact H4|exact H5|]. left. split; [|done]. 
    destruct (decide (Exists (λ z, released tr acc (pd_subs p) z) (pd_subs p))) as [Hex|Hex].
    + apply Exists_exists in Hex as (z & _ & Hz). by exists z.
    + exfalso. apply He, H7. intros z Hz. apply Hex, Exists_exists. exists z. split; [by destruct Hz|exact Hz].
Qed.

Lemma settle_unknown tr n acc : jget (pending tr) n = None → settleDelegation tr n acc = (tr, None).
Proof. intros H. unfold settleDelegation. by rewrite H. Qed.

(** A settlement unseats only what the acknowledgement names. *)
Lemma settle_seated tr n acc z : seated tr z → z ∉ acc → seated (settleDelegation tr n acc).1 z.
Proof.
  intros Hz Ha. destruct (jget (pending tr) n) as [p|] eqn:Hp; [|by rewrite settle_unknown].
  destruct (settle_cases tr n acc p Hp) as (_ & _ & _ & H & _). unfold seated, jhas in *. cbn zeta in H.
  rewrite H; [done|]. by intros (_ & ? & _).
Qed.

Lemma delegation_sweep_fold now l z : ∀ tr, seated tr z → seated (foldl (sweep_step now) tr l) z.
Proof.
  induction l as [|p l IH]; intros tr Hz; [done|]. cbn [foldl]. apply IH. unfold sweep_step.
  destruct (_ <=? _); [|done]. apply settle_seated; [done|]. by intros ?%elem_of_nil.
Qed.

Lemma seatSweep_fold E l z : ∀ tr, seated tr z → (∀ s, (z, s) ∈ l → seat_stale E (z, s) = false) →
  seated (foldl (λ tr p, if seat_stale E p then drop_kid p.1 (unseat p.1 tr) else tr) tr l) z.
Proof.
  induction l as [|[k v] l IH]; intros tr Hz Hl; [done|]. cbn [foldl]. apply IH; [|intros s Hs; apply Hl; by right].
  destruct (seat_stale E (k, v)) eqn:Es; [|done]. unfold seated. cbn. apply jhas_jdel. split; [|done].
  intros ->. by rewrite (Hl v ltac:(left)) in Es.
Qed.

(** * Runs of one node *)

Inductive top :=
| TSub (E : senv) (n : string) (sub : string) (since : option Z) (latest : bool) (seat_in : option (skind * Z))
    (attach : option string) (unpinned : bool)
| TUnsub (E : senv) (subscriberId : string) (steppedDown : bool)
| TAdopt (E : senv) (nonces : nat → string) (parent : string) (n : option string) (subs : list (string * option Z))
| TAck (n : option string) (acc : list string) (refused : bool)
| TDelegations (now : Z)
| TSeats (E : senv).
Definition tstep (tr : tree) (o : top) : tree :=
  match o with
  | TSub E n sub since latest st attach unpinned => (accept E n tr sub since latest st attach unpinned).1
  | TUnsub E s d => default tr (onUnsub E (Some tr) s d).1
  | TAdopt E ns parent n subs => default tr (onAdopt E ns (Some tr) parent n subs).1
  | TAck n acc refused => default tr (onAdoptAck (Some tr) n acc refused)
  | TDelegations now => delegationSweep now tr
  | TSeats E => seatSweep E tr
  end.

Record tree_inv (tr : tree) : Prop := {
  ti_seats : jwf (seats tr);
  ti_kids : NoDup (kids tr);
  ti_pending : jwf (pending tr);
  ti_disjoint : NoDup (pendingSubs tr)
}.

Definition subs_of (m : jmap string pend) : list string := concat (pd_subs ∘ snd <$> m).

Lemma elem_subs_of m z : z ∈ subs_of m ↔ ∃ n p, (n, p) ∈ m ∧ z ∈ pd_subs p.
Proof.
  unfold subs_of. rewrite list_elem_of_In, in_concat. split.
  - intros (l & Hl & Hz). apply list_elem_of_In, list_elem_of_fmap in Hl as ([n p] & -> & Hp).
    exists n, p. split; [done|by apply list_elem_of_In].
  - intros (n & p & Hp & Hz). exists (pd_subs p). split; [|by apply list_elem_of_In].
    apply list_elem_of_In, list_elem_of_fmap. by exists (n, p).
Qed.

Lemma elem_jset_weak {V} (m : jmap string V) k v k' v' : (k', v') ∈ jset m k v → (k', v') ∈ m ∨ v' = v.
Proof.
  induction m as [|[k1 v1] m IH]; cbn; intros Hin; [apply list_elem_of_singleton in Hin; naive_solver|].
  case_decide; apply elem_of_cons in Hin as [Heq|Hin].
  - right. by injection Heq.
  - left. by right.
  - left. rewrite Heq. left.
  - destruct (IH Hin); [left; by right|by right].
Qed.

Lemma subs_of_jset m n p : NoDup (subs_of m) → NoDup (pd_subs p) → (∀ z, z ∈ pd_subs p → z ∉ subs_of m) →
  NoDup (subs_of (jset m n p)).
Proof.
  intros H1 H2 H3. induction m as [|[k v] m IH]; cbn [jset].
  { change (NoDup (pd_subs p ++ [])). by rewrite app_nil_r. }
  change (subs_of ((k, v) :: m)) with (pd_subs v ++ subs_of m) in *.
  apply NoDup_app in H1 as (N1 & N2 & N3).
  assert (∀ z, z ∈ pd_subs p → z ∉ subs_of m) as H3' by (intros z Hz Hz'; apply (H3 z Hz), elem_of_app; by right).
  case_decide.
  - change (NoDup (pd_subs p ++ subs_of m)). by apply NoDup_app.
  - change (NoDup (pd_subs v ++ subs_of (jset m n p))). apply NoDup_app. split_and!; [done| |by apply IH].
    intros z Hz (n' & q & [Hm| ->]%elem_jset_weak & Hq)%elem_subs_of.
    + apply (N2 z Hz). apply elem_subs_of. eauto.
    + apply (H3 z Hq), elem_of_app. by left.
Qed.

Lemma subs_of_unique m n1 n2 p1 p2 z : NoDup (subs_of m) →
  jget m n1 = Some p1 → jget m n2 = Some p2 → z ∈ pd_subs p1 → z ∈ pd_subs p2 → n1 = n2.
Proof.
  intros Hn H1%jget_Some_elem H2%jget_Some_elem Hz1 Hz2. induction m as [|[k v] m IH]; [by apply elem_of_nil in H1|].
  change (subs_of ((k, v) :: m)) with (pd_subs v ++ subs_of m) in Hn. apply NoDup_app in Hn as (_ & Hd & Hn).
  assert (∀ n p, (n, p) ∈ m → z ∈ pd_subs p → z ∈ subs_of m) as Hs by (intros n p ? ?; apply elem_subs_of; eauto).
  apply elem_of_cons in H1 as [[= -> ->]|H1], H2 as [[= -> ->]|H2]; [done|exfalso..|by apply IH].
  - by apply (Hd z Hz1), (Hs n2 p2).
  - by apply (Hd z Hz2), (Hs n1 p1).
Qed.

Lemma subs_of_jdel m n : NoDup (subs_of m) → NoDup (subs_of (jdel m n)).
Proof.
  assert (∀ m, subs_of (jdel m n) `sublist_of` subs_of m) as Hs.
  { clear m. induction m as [|[k v] m IH]; [done|].
    change (subs_of ((k, v) :: m)) with (pd_subs v ++ subs_of m). rewrite jdel_cons. case_decide.
    - etrans; [exact IH|]. by apply sublist_inserts_l.
    - change (subs_of ((k, v) :: jdel m n)) with (pd_subs v ++ subs_of (jdel m n)). by apply sublist_app. }
  intros H. by eapply sublist_NoDup.
Qed.

Lemma add_kid_nodup c l : NoDup l → NoDup (add_kid c l).
Proof.
  intros H. unfold add_kid. case_bool_decide; [done|]. apply NoDup_app. split_and!; [done| |apply NoDup_singleton].
  by intros x Hx ->%list_elem_of_singleton.
Qed.

Lemma take_elem {A} n (l : list A) x : x ∈ take n l → x ∈ l.
Proof. intros H. rewrite <- (take_drop n l). apply elem_of_app. by left. Qed.

Lemma accept_inv E n tr sub since latest st attach unpinned :
  tree_inv tr → tree_inv (accept E n tr sub since latest st attach unpinned).1.
Proof.
  intros [H1 H2 H3 H4]. destruct (jget (seats tr) sub) as [s|] eqn:Es.
  { destruct (accept_renew E n tr sub since latest st attach unpinned s Es) as (G1 & G2 & G3 & _).
    split; [rewrite G1; by apply jwf_jset|by rewrite G2|by rewrite G3|unfold pendingSubs; by rewrite G3]. }
  destruct (accept_new E n tr sub since latest st attach unpinned Es)
    as [(_ & G1 & G2 & G3 & _)|[(_ & leaf & rest & L1 & _ & G1 & G2 & G3 & _)|(_ & _ & G2 & G3 & G4)]].
  - split; [rewrite G1; by apply jwf_jset|by rewrite G2|by rewrite G3|unfold pendingSubs; by rewrite G3].
  - destruct (leaves_spec E tr H1) as [L2 L3]. rewrite L1 in *. apply NoDup_cons in L2 as [_ L2].
    split; [rewrite G1; by apply jwf_jset|rewrite G2; by apply add_kid_nodup|rewrite G3; by apply jwf_jset|].
    unfold pendingSubs. rewrite G3. apply subs_of_jset; cbn [pd_subs]; [done| |].
    + eapply sublist_NoDup; [exact L2|apply sublist_take].
    + intros z Hz%take_elem. destruct (L3 z ltac:(by right)) as (_ & _ & ? & _). done.
  - split; [|rewrite G2; by apply NoDup_filter|by rewrite G3|unfold pendingSubs; by rewrite G3].
    destruct (foldl _ None _); destruct G4 as [-> _]; [done|by apply jwf_jset].
Qed.

Lemma settle_inv tr n acc : tree_inv tr → tree_inv (settleDelegation tr n acc).1.
Proof.
  intros [H1 H2 H3 H4]. destruct (jget (pending tr) n) as [p|] eqn:Hp; [|by rewrite settle_unknown].
  destruct (settle_cases tr n acc p Hp) as (G1 & G2 & _ & _ & G5). cbn zeta in *.
  split.
  - unfold jwf. eapply sublist_NoDup; [exact H1|]. by apply fmap_sublist.
  - destruct G5 as [[_ ->]|[_ ->]]; [done|by apply NoDup_filter].
  - rewrite G1. by apply jwf_jdel.
  - unfold pendingSubs. rewrite G1. by apply subs_of_jdel.
Qed.

Lemma unseat_inv s tr : tree_inv tr → tree_inv (drop_kid s (unseat s tr)).
Proof. intros [H1 H2 H3 H4]. split; cbn; [by apply jwf_jdel|by apply NoDup_filter|done|done]. Qed.

Lemma adopt_fold_inv E ns l : ∀ st, tree_inv (ad_tree st) → tree_inv (ad_tree (foldl (adopt_step E ns) st l)).
Proof.
  induction l as [|x l IH]; intros st H; [done|]. cbn [foldl]. apply IH. unfold adopt_step.
  destruct (_ && _); [|done]. pose proof (accept_inv E (ns (ad_k st)) (ad_tree st) (lc x.1) x.2 false None None false H) as Ha.
  by destruct (accept _ _ _ _ _ _ _ _ _).
Qed.

Lemma onAdopt_tree E ns tr parent n subs :
  (onAdopt E ns (Some tr) parent n subs).1 = Some (ad_tree (foldl (adopt_step E ns) (mk_ad tr [] [] 0) subs)).
Proof. done. Qed.

(** What an ADOPT does: nobody loses a seat, and the acknowledged are seated. *)
Lemma adopt_fold E ns l : ∀ st, let r := foldl (adopt_step E ns) st l in
  (∀ z, seated (ad_tree st) z → seated (ad_tree r) z) ∧
  ((∀ x, x ∈ ad_acc st → seated (ad_tree st) x ∧ lc x = x) → ∀ x, x ∈ ad_acc r → seated (ad_tree r) x ∧ lc x = x) ∧
  ((∀ p m acc b, OAck p m acc b ∉ ad_out st) → ∀ p m acc b, OAck p m acc b ∉ ad_out r).
Proof.
  induction l as [|x l IH]; intros st; cbn zeta; [done|]. cbn [foldl].
  destruct (IH (adopt_step E ns st x)) as (H1 & H2 & H3). clear IH.
  assert ((∀ z, seated (ad_tree st) z → seated (ad_tree (adopt_step E ns st x)) z) ∧
    ((∀ y, y ∈ ad_acc st → seated (ad_tree st) y ∧ lc y = y) →
      ∀ y, y ∈ ad_acc (adopt_step E ns st x) → seated (ad_tree (adopt_step E ns st x)) y ∧ lc y = y) ∧
    ((∀ p m acc b, OAck p m acc b ∉ ad_out st) → ∀ p m acc b, OAck p m acc b ∉ ad_out (adopt_step E ns st x))) as (G1 & G2 & G3).
  2: { split_and!; [intros z Hz; by apply H1, G1|intros Ha; by apply H2, G2|intros Ha; by apply H3, G3]. }
  unfold adopt_step. destruct (_ && _); [|done].
  pose proof (accept_keeps E (ns (ad_k st)) (ad_tree st) (lc x.1) x.2 false None None false) as Hk.
  pose proof (accept_no_ack E (ns (ad_k st)) (ad_tree st) (lc x.1) x.2 false None None false) as Hn.
  destruct (accept _ _ _ _ _ _ _ _ _) as [t o]. cbn [fst snd ad_tree ad_acc ad_out] in *. split_and!.
  - exact Hk.
  - intros Ha y Hy. destruct (jhas (seats t) (lc x.1)) eqn:Ej.
    + apply elem_of_app in Hy as [Hy|Hy]; [destruct (Ha y Hy); auto|].
      apply list_elem_of_singleton in Hy as ->. split; [done|apply lc_idemp].
    + destruct (Ha y Hy); auto.
  - intros Ha p m acc b [Hin|Hin]%elem_of_app; [by apply Ha in Hin|by apply Hn in Hin].
Qed.

Lemma tstep_inv tr o : tree_inv tr → tree_inv (tstep tr o).
Proof.
  intros H. destruct o as [| | | |now|E]; cbn [tstep].
  - by apply accept_inv.
  - by apply unseat_inv.
  - rewrite onAdopt_tree. by apply adopt_fold_inv.
  - destruct n; [|done]. by apply settle_inv.
  - unfold delegationSweep. generalize (pending tr). intros l. revert tr H. induction l as [|p l IH]; intros tr H; [done|].
    cbn [foldl]. apply IH. unfold sweep_step. destruct (_ <=? _); [by apply settle_inv|done].
  - unfold seatSweep. generalize (seats tr). intros l. revert tr H. induction l as [|p l IH]; intros tr H; [done|].
    cbn [foldl]. apply IH. destruct (seat_stale E p); [by apply unseat_inv|done].
Qed.

(** * The tree over a network

    Nodes exchange ADOPT and ADOPTACK through a soup that keeps every message ever sent: a
    message may be lost, repeated and reordered. A step is labelled by the subscriber [s] the
    run is about: it does not unsubscribe, and no seat of it goes stale. *)

(** [dropped] remembers, for each time a node gave its whole role or seat table up, who was
    seated there. *)
Record net := mk_net { nodes : Z → option tree; soup : list out; dropped : list (Z * string) }.
Definition put_ (N : net) (n : Z) (tr : option tree) (o : list out) (d : list string) : net :=
  mk_net (λ m, if m =? n then tr else nodes N m) (soup N ++ o) (dropped N ++ (pair n <$> d)).
Definition put (N : net) (n : Z) (tr : option tree) (o : list out) : net := put_ N n tr o [].

(** A role that goes with whatever it seats: [_retireRole] (repairPlane.js), which the reapers,
    the step-down of a thin branch and the end of a dismantling call; [stop]; the roll-back of a
    role a merge had made ([ns_retire]). A TOPIC_TERMINATED leaves the role and clears its seats
    ([_onTopicTerminated]). *)
Definition terminated (tr : tree) : tree := with_kids [] (with_seats [] tr).
(** [pubsubUnhost]: the node's own seat. *)
Definition unhost (self : Z) (tr : tree) : tree := drop_kid (lc (idHex self)) (unseat (lc (idHex self)) tr).
Definition seated_at (N : net) (n : Z) (s : string) : Prop := ∃ tr, nodes N n = Some tr ∧ seated tr s.

(** What [adoptChild] may return: a refusal, or the role of the topic - made where there is
    none - with its seats as they were. *)
Definition adopts (cur : option tree) (r : option tree) : Prop :=
  match r with
  | None => True
  | Some t => seats t = match cur with Some c => seats c | None => [] end
  end.

Inductive nstep (s : string) (N : net) : net → Prop :=
| ns_form n tr : nodes N n = None → seats tr = [] → nstep s N (put N n (Some tr) [])
| ns_sub E nonce tr sub since latest st attach unpinned :
    nodes N (e_self E) = Some tr →
    nstep s N (put N (e_self E) (Some (accept E nonce tr sub since latest st attach unpinned).1)
                 (accept E nonce tr sub since latest st attach unpinned).2)
| ns_unsub E tr subscriberId steppedDown :
    nodes N (e_self E) = Some tr → lc subscriberId ≠ s →
    nstep s N (put N (e_self E) (onUnsub E (Some tr) subscriberId steppedDown).1 [])
| ns_adopt E nonces r parent subs nonce :
    OAdopt (e_self E) parent subs nonce ∈ soup N → adopts (nodes N (e_self E)) r →
    let a := onAdopt E nonces r (idHex parent) (Some nonce) subs in
    nstep s N (put N (e_self E) (match r with Some _ => a.1 | None => nodes N (e_self E) end) a.2)
| ns_ack n nonce acc refused :
    OAck n nonce acc refused ∈ soup N →
    nstep s N (put N n (onAdoptAck (nodes N n) (Some nonce) acc refused) [])
| ns_delegations n tr now :
    nodes N n = Some tr → nstep s N (put N n (Some (delegationSweep now tr)) [])
| ns_seats E tr :
    nodes N (e_self E) = Some tr → (∀ st, (s, st) ∈ seats tr → seat_stale E (s, st) = false) →
    nstep s N (put N (e_self E) (Some (seatSweep E tr)) [])
| ns_unhost n tr :
    nodes N n = Some tr → lc (idHex n) ≠ s → nstep s N (put N n (Some (unhost n tr)) [])
| ns_retire n tr :      (* also a node that leaves or stops *)
    nodes N n = Some tr → nstep s N (put_ N n None [] (seats tr).*1)
| ns_terminated n tr :
    nodes N n = Some tr → nstep s N (put_ N n (Some (terminated tr)) [] (seats tr).*1)
| ns_local n tr tr' :   (* the methods that read the seats and do not write them *)
    nodes N n = Some tr → seats tr' = seats tr → nstep s N (put N n (Some tr') []).

Section served.
Context (rank : Z → nat) (s : string).

(** Delegations descend: from an id to a node of a lower rank. *)
Definition descends (l : list out) : Prop :=
  ∀ c p subs nonce, OAdopt c p subs nonce ∈ l → 0 ≤ p < 2 ^ 264 ∧ (rank c < rank p)%nat.

(** [s] is seated at [n], or was when [n] gave its seats up. *)
Definition held (N : net) (n : Z) : Prop := seated_at N n s ∨ (n, s) ∈ dropped N.
Definition below_acks (N : net) : Prop :=
  ∀ p nonce acc, OAck p nonce acc false ∈ soup N → s ∈ lc <$> acc →
    ∃ n, (rank n < rank p)%nat ∧ held N n.

Lemma seated_at_put N n tr o d m : seated_at (put_ N n tr o d) m s ↔ if m =? n then (∃ t, tr = Some t ∧ seated t s) else seated_at N m s.
Proof. unfold seated_at, put_. cbn [nodes]. by destruct (m =? n). Qed.

Lemma dropped_put N n tr o d m z : (m, z) ∈ dropped (put_ N n tr o d) ↔ (m, z) ∈ dropped N ∨ m = n ∧ z ∈ d.
Proof.
  unfold put_. cbn [dropped]. rewrite elem_of_app, list_elem_of_fmap. split.
  - intros [?|(y & [= -> ->] & ?)]; auto.
  - intros [?|[-> ?]]; [auto|right; eauto].
Qed.

(** A step of node [n] that keeps the seat of [s] or records its loss, and sends no
    acknowledgement for [s] but its own. *)
Lemma keeps_put N n tr o d : below_acks N →
  (seated_at N n s → (∃ t, tr = Some t ∧ seated t s) ∨ s ∈ d) →
  (∀ p nonce acc, OAck p nonce acc false ∈ o → s ∈ lc <$> acc →
     (rank n < rank p)%nat ∧ ∃ t, tr = Some t ∧ seated t s) →
  below_acks (put_ N n tr o d) ∧ ∀ m, held N m → held (put_ N n tr o d) m.
Proof.
  intros Hb Hk Ho.
  assert (∀ m, held N m → held (put_ N n tr o d) m) as Hm.
  { intros m [Hs|Hs]; [|right; apply dropped_put; by left]. unfold held. rewrite seated_at_put, dropped_put.
    destruct (Z.eqb_spec m n) as [->|]; [|by left]. destruct (Hk Hs); auto. }
  split; [|done]. intros p nonce acc [Hin|Hin]%elem_of_app Hs.
  - destruct (Hb p nonce acc Hin Hs) as (m & Hr & Hsm). exists m. split; [done|by apply Hm].
  - destruct (Ho p nonce acc Hin Hs) as [Hr Ht]. exists n. split; [done|]. left. apply seated_at_put. by rewrite Z.eqb_refl.
Qed.

(** What an ADOPT from [q] does at a node. *)
Lemma adopt_effect E ns tr q nonce subs : 0 ≤ q < 2 ^ 264 →
  let a := onAdopt E ns (Some tr) (idHex q) (Some nonce) subs in
  ∃ t, a.1 = Some t ∧ (∀ z, seated tr z → seated t z) ∧
    ∀ p m acc b, OAck p m acc b ∈ a.2 → p = q ∧ b = false ∧ ∀ x, x ∈ acc → seated t x ∧ lc x = x.
Proof.
  intros Hq. cbn zeta. unfold onAdopt. destruct (idHex_spec q Hq) as (I1 & I2 & I3). rewrite I2, I3.
  destruct (adopt_fold E ns subs (mk_ad tr [] [] 0)) as (F1 & F2 & F3). cbn zeta in *.
  set (st := foldl _ _ subs) in *. exists (ad_tree st). cbn [fst snd]. split_and!; [done|exact F1|].
  intros p m acc b [Hin|[Hin|Hin]%elem_of_app]%elem_of_app.
  - exfalso. eapply F3; [|exact Hin]. intros ? ? ? ?. apply not_elem_of_nil.
  - destruct (truthy _); [|by apply elem_of_nil in Hin]. apply list_elem_of_singleton in Hin as [= -> -> -> ->].
    split_and!; [|done|].
    + unfold idz, idBigS. by rewrite I1.
    + apply F2. intros x Hx. by apply elem_of_nil in Hx.
  - by apply list_elem_of_singleton in Hin.
Qed.

Lemma refusal_effect E ns parent nonce subs p m acc b :
  OAck p m acc b ∈ (onAdopt E ns None parent nonce subs).2 → b = true.
Proof.
  unfold onAdopt. cbn [snd]. destruct (truthy nonce); [|by intros ?%elem_of_nil]. destruct (ids_isHexId _); [|by intros ?%elem_of_nil].
  by intros [= _ _ _ ->]%list_elem_of_singleton.
Qed.

Lemma served_step N N' : nstep s N N' → descends (soup N') → below_acks N →
  below_acks N' ∧ ∀ n, held N n → ∃ m, (rank m ≤ rank n)%nat ∧ held N' m.
Proof.
  intros Hs Hd Hb.
  assert (∀ n tr o d, (seated_at N n s → (∃ t, tr = Some t ∧ seated t s) ∨ s ∈ d) →
    (∀ p nonce acc, OAck p nonce acc false ∈ o → s ∈ lc <$> acc → (rank n < rank p)%nat ∧ ∃ t, tr = Some t ∧ seated t s) →
    below_acks (put_ N n tr o d) ∧ ∀ m, held N m → ∃ m', (rank m' ≤ rank m)%nat ∧ held (put_ N n tr o d) m') as Hkeep'.
  { intros n tr o d H1 H2. destruct (keeps_put N n tr o d Hb H1 H2) as [H3 H4]. split; [done|]. intros m Hm. exists m.
    split; [lia|by apply H4]. }
  assert (∀ n tr o, (seated_at N n s → ∃ t, tr = Some t ∧ seated t s) →
    (∀ p nonce acc, OAck p nonce acc false ∈ o → s ∈ lc <$> acc → (rank n < rank p)%nat ∧ ∃ t, tr = Some t ∧ seated t s) →
    below_acks (put N n tr o) ∧ ∀ m, held N m → ∃ m', (rank m' ≤ rank m)%nat ∧ held (put N n tr o) m') as Hkeep
    by (intros n tr o H1 H2; apply Hkeep'; [intros Hm; left; by apply H1|done]).
  assert (∀ p nonce acc, OAck p nonce acc false ∈ ([] : list out) → s ∈ lc <$> acc → ∀ P : Prop, P) as Hnil
    by (intros p nonce acc Hin; by apply elem_of_nil in Hin).
  destruct Hs as [n tr Hn Ht|E nonce tr sub since latest st attach unpinned Hn|E tr x sd Hn Hx|E ns r parent subs nonce Hin Hr a
    |n nonce acc refused Hin|n tr now Hn|E tr Hn Hfresh|n tr Hn Hx|n tr Hn|n tr Hn|n tr tr' Hn Hsame].
  - apply Hkeep; [|intros ? ? ? ? ?; by eapply Hnil]. intros (t & Ht' & _). by rewrite Hn in Ht'.
  - apply Hkeep.
    + intros (t & Ht & Hseat). rewrite Hn in Ht. injection Ht as <-. eexists. split; [done|]. by apply accept_keeps.
    + intros p m acc Hin. by apply accept_no_ack in Hin.
  - apply Hkeep; [|intros ? ? ? ? ?; by eapply Hnil].
    intros (t & Ht & Hseat). rewrite Hn in Ht. injection Ht as <-. eexists. split; [done|].
    unfold seated. cbn. apply jhas_jdel. split; [by intros Heq; apply Hx; rewrite <- Heq|done].
  - destruct (Hd (e_self E) parent subs nonce) as [Hrange Hrank]; [cbn [put soup]; apply elem_of_app; by left|].
    destruct r as [tr|].
    + destruct (adopt_effect E ns tr parent nonce subs Hrange) as (t & A1 & A2 & A3). cbn zeta in A1, A2, A3. fold a in A1, A3.
      rewrite A1. apply Hkeep.
      * intros (t0 & Ht0 & Hseat). exists t. split; [done|]. apply A2. cbn in Hr. rewrite Ht0 in Hr. unfold seated. by rewrite Hr.
      * intros p m acc Hi Hsa. destruct (A3 p m acc false Hi) as (-> & _ & Hacc). split; [done|]. exists t. split; [done|].
        apply list_elem_of_fmap in Hsa as (x & -> & Hx). destruct (Hacc x Hx) as [? ->]. done.
    + apply Hkeep; [by intros (t & ? & ?); exists t|].
      intros p m acc Hi. by apply refusal_effect in Hi.
  - destruct (decide (refused = false ∧ s ∈ lc <$> acc)) as [[-> Hsa]|Hsa].
    + destruct (Hb n nonce acc Hin Hsa) as (m & Hm & Hseat).
      assert (∀ w, w ≠ n → held N w → held (put N n (onAdoptAck (nodes N n) (Some nonce) acc false) []) w) as Hw.
      { intros w Hne [Hws|Hws]; [left|right; apply dropped_put; by left]. apply seated_at_put.
        by rewrite (proj2 (Z.eqb_neq w n) Hne). }
      assert (m ≠ n) as Hmn by (intros ->; lia).
      assert (∀ w, held N w → ∃ m', (rank m' ≤ rank w)%nat ∧ held (put N n (onAdoptAck (nodes N n) (Some nonce) acc false) []) m') as Hall.
      { intros w Hws. destruct (decide (w = n)) as [->|Hne]; [exists m|exists w]; (split; [lia|by apply Hw]). }
      split; [|exact Hall].
      intros p k ac [Hi|Hi]%elem_of_app Hs2; [|by apply elem_of_nil in Hi].
      destruct (Hb p k ac Hi Hs2) as (w & Hrw & Hws). destruct (Hall w Hws) as (m' & ? & ?). exists m'. split; [lia|done].
    + apply Hkeep; [|intros ? ? ? ? ?; by eapply Hnil]. intros (t & Ht & Hseat). rewrite Ht. cbn [onAdoptAck].
      eexists. split; [done|]. apply settle_seated; [done|].
      destruct refused; [by intros ?%elem_of_nil|]. intros Hi. by apply Hsa.
  - apply Hkeep; [|intros ? ? ? ? ?; by eapply Hnil].
    intros (t & Ht & Hseat). rewrite Hn in Ht. injection Ht as <-. eexists. split; [done|]. by apply delegation_sweep_fold.
  - apply Hkeep; [|intros ? ? ? ? ?; by eapply Hnil].
    intros (t & Ht & Hseat). rewrite Hn in Ht. injection Ht as <-. eexists. split; [done|]. by apply seatSweep_fold.
  - apply Hkeep; [|intros ? ? ? ? ?; by eapply Hnil].
    intros (t & Ht & Hseat). rewrite Hn in Ht. injection Ht as <-. eexists. split; [done|].
    unfold seated. cbn. apply jhas_jdel. split; [by intros Heq; apply Hx; rewrite <- Heq|done].
  - apply Hkeep'; [|intros ? ? ? ? ?; by eapply Hnil].
    intros (t & Ht & Hseat). rewrite Hn in Ht. injection Ht as <-. right. by apply seated_key.
  - apply Hkeep'; [|intros ? ? ? ? ?; by eapply Hnil].
    intros (t & Ht & Hseat). rewrite Hn in Ht. injection Ht as <-. right. by apply seated_key.
  - apply Hkeep; [|intros ? ? ? ? ?; by eapply Hnil].
    intros (t & Ht & Hseat). rewrite Hn in Ht. injection Ht as <-. eexists. split; [done|]. unfold seated. by rewrite Hsame.
Qed.

Lemma nstep_soup N N' : nstep s N N' → ∃ l, soup N' = soup N ++ l.
Proof. intros Hs. destruct Hs; by eexists. Qed.

Lemma served_run N N' : rtc (nstep s) N N' → descends (soup N') → below_acks N →
  below_acks N' ∧ ∀ n, held N n → ∃ m, (rank m ≤ rank n)%nat ∧ held N' m.
Proof.
  intros Hr. induction Hr as [N|N N1 N' Hs Hr IH]; intros Hd Hb; [split; [done|]; intros n Hn; exists n; split; [lia|done]|].
  assert (descends (soup N1)) as Hd1.
  { intros c p l m Hin. apply (Hd c p l m). clear -Hin Hr.
    induction Hr as [|N1 N2 N3 Hs _ IH]; [done|]. apply IH. destruct (nstep_soup _ _ Hs) as [l' ->]. apply elem_of_app. by left. }
  destruct (served_step N N1 Hs Hd1 Hb) as [Hb1 H1]. destruct (IH Hd Hb1) as [Hb2 H2]. split; [done|].
  intros n Hn. destruct (H1 n Hn) as (m & ? & Hm). destruct (H2 m Hm) as (m' & ? & ?). exists m'. split; [lia|done].
Qed.
End served.

(** * Theorems *)

(** C23. Delegation loses nobody. Over any run in which messages are lost, repeated or
    reordered, in which the other subscribers do as they like, and in which nodes retire their
    roles (reapers, step-down of a thin branch, end of a dismantling, departure) or have their
    seats cleared by a TOPIC_TERMINATED: if [s] is seated at [n], then as long as [s] does not
    unsubscribe and its seats do not go stale, it is seated at [n] or at a node below it in the
    order of the delegations, or such a node gave its role or its seats up while [s] was seated
    there - a parent lets a seat go only on the word of a child that had it seated. Where
    nobody gives a role up, it is seated. The delegations are to be ordered: each goes from a
    node to one of a lower rank. *)
Theorem seated_stays_served (rank : Z → nat) (s : string) (N0 N N' : net) :
  soup N0 = [] → rtc (nstep s) N0 N → rtc (nstep s) N N' → descends rank (soup N') →
  ∀ n, seated_at N n s →
  ∃ m, (rank m ≤ rank n)%nat ∧ (seated_at N' m s ∨ (m, s) ∈ dropped N').
Proof.
  intros H0 H1 H2 Hd n Hs.
  assert (below_acks rank s N0) as Hb by (intros p k acc Hin; rewrite H0 in Hin; by apply elem_of_nil in Hin).
  assert (descends rank (soup N)) as Hd1.
  { intros c p l m Hin. apply (Hd c p l m). clear -Hin H2.
    induction H2 as [|N1 N2 N3 Hs _ IH]; [done|]. apply IH. destruct (nstep_soup s _ _ Hs) as [l' ->]. apply elem_of_app. by left. }
  destruct (served_run rank s N0 N H1 Hd1 Hb) as [Hb1 _].
  destruct (served_run rank s N N' H2 Hd Hb1) as [_ H]. apply H. by left.
Qed.

(** C25. Seating. A renewal refreshes its seat, touches nothing else and sends no ADOPT. A
    newcomer is seated where there is room, or as a standby. At capacity, where two or more
    seats are [promotable] - in seat order the ones that are no child, no standby and in no open
    delegation, less, under topicLifetime, the leading ones that cool down - the first becomes
    a child, exactly the next [DELEGATE_BATCH] of them, or all where they are fewer, are offered
    to it in one ADOPT and stay seated, and the newcomer is seated; with fewer than two it is
    handed, unseated, to the XOR-nearest seated child, and is seated over capacity where there
    is none. Children that have lost their seat are forgotten in that case, and in no other.
    Nobody loses a seat, and no other ADOPT is sent. *)
Theorem accept_spec (E : senv) (n : string) (tr : tree) (sub : string) (since : option Z) (latest : bool)
    (st : option (skind * Z)) (attach : option string) (unpinned : bool) :
  jwf (seats tr) →
  let r := accept E n tr sub since latest st attach unpinned in
  let kind := match st with Some s => s.1 | None => SReader end in
  let demand := match st with Some s => to_int32 s.2 | None => 1 end in
  let full := maxDirect E ≤ jsize (seats tr) ∧ kind ≠ SStandby in
  let child := λ c, c ∈ kids tr ∧ seated tr c in
  (∀ z, seated tr z → seated r.1 z) ∧
  match jget (seats tr) sub with
  | Some s0 =>
      jget (seats r.1) sub = Some (mk_seat (st_since s0) (e_now E) kind demand) ∧
      (∀ z, z ≠ sub → jget (seats r.1) z = jget (seats tr) z) ∧ kids r.1 = kids tr ∧ pending r.1 = pending tr ∧
      ∀ c p l m, OAdopt c p l m ∉ r.2
  | None =>
      (∀ z, z ≠ sub → jget (seats r.1) z = jget (seats tr) z) ∧
      ((jget (seats r.1) sub = Some (mk_seat (default 0 since) (e_now E) kind demand) ∧ pending r.1 = pending tr ∧
        (¬ full ∧ kids r.1 = kids tr ∨
         full ∧ (length (promotable E tr) < 2)%nat ∧ (∀ c, ¬ child c) ∧ kids r.1 = []) ∧ ∀ c p l m, OAdopt c p l m ∉ r.2) ∨
       (full ∧ jget (seats r.1) sub = Some (mk_seat (default 0 since) (e_now E) kind demand) ∧
        ∃ leaf rest, promotable E tr = leaf :: rest ∧ rest ≠ [] ∧ kids r.1 = kids tr ++ [leaf] ∧
          let batch := take DELEGATE_BATCH rest in
          NoDup (leaf :: batch) ∧
          (∀ z, z ∈ leaf :: batch → z ∉ kids tr ∧ z ∉ pendingSubs tr ∧ ∃ s, jget (seats tr) z = Some s ∧ st_kind s ≠ SStandby) ∧
          pending r.1 = jset (pending tr) n (mk_pend leaf batch (e_now E)) ∧
          ∀ c p l m, OAdopt c p l m ∈ r.2 ↔
            OAdopt c p l m = OAdopt (idz leaf) (e_self E) ((λ z, (z, sinceOf tr z)) <$> batch) n) ∨
       (full ∧ (length (promotable E tr) < 2)%nat ∧ seats r.1 = seats tr ∧ pending r.1 = pending tr ∧
        kids r.1 = filter (λ c, jhas (seats tr) c = true) (kids tr) ∧
        ∃ c, child c ∧ (∀ c', child c' → xorDistance (idz c) (idz sub) ≤ xorDistance (idz c') (idz sub)) ∧
          ∀ c' p l m, OAdopt c' p l m ∈ r.2 ↔ OAdopt c' p l m = OAdopt (idz c) (e_self E) [(sub, since)] n))
  end.
Proof.
  intros Hw. cbn zeta. split; [intros z; apply accept_keeps|].
  destruct (jget (seats tr) sub) as [s0|] eqn:Es.
  { destruct (accept_renew E n tr sub since latest st attach unpinned s0 Es) as (-> & -> & -> & Hno).
    split_and!; [apply jget_jset_eq|intros z Hz; by apply jget_jset_ne|done|done|exact Hno]. }
  rewrite <- leaves_promotable.
  assert (∀ x z, z ≠ sub → jget (jset (seats tr) sub x) z = jget (seats tr) z) as Hne by (intros x z Hz; by apply jget_jset_ne).
  destruct (accept_new E n tr sub since latest st attach unpinned Es)
    as [(Hf & G1 & G2 & G3 & G4)|[(Hf & leaf & rest & L1 & L2 & G1 & G2 & G3 & G4)|(Hf & Hl & G2 & G3 & G4)]].
  - rewrite G1. split; [by apply Hne|]. left. split_and!; [apply jget_jset_eq|done|by left|done].
  - rewrite G1. split; [by apply Hne|]. right. left. split; [done|]. split; [apply jget_jset_eq|].
    destruct (leaves_spec E tr Hw) as [N1 N2]. rewrite L1 in *.
    exists leaf, rest. cbn zeta. split_and!.
    + done.
    + done.
    + destruct (N2 leaf ltac:(left)) as (_ & Hk & _). rewrite G2. unfold add_kid. by rewrite bool_decide_eq_false_2.
    + apply NoDup_cons in N1 as [N0 N1]. apply NoDup_cons. split; [by intros ?%take_elem|].
      eapply sublist_NoDup; [exact N1|apply sublist_take].
    + intros z Hz. destruct (N2 z) as (_ & ? & ? & ?); [|by split_and!].
      apply elem_of_cons in Hz as [->|Hz%take_elem]; [left|by right].
    + exact G3.
    + exact G4.
  - destruct (pick_fold tr (idz sub) (kids tr) None) as (P1 & _ & P3). cbn zeta in *.
    destruct (foldl (pick_step tr (idz sub)) None (kids tr)) as [c|]; destruct G4 as [G1 G4]; rewrite G1.
    + split; [done|]. right. right. split_and!; [apply Hf..|done|done|done|done|]. exists c.
      destruct (P1 c eq_refl) as [|[Hc1 Hc2]]; [done|]. split_and!; [done|done| |exact G4].
      intros c' [H1 H2]. by destruct (P3 c' H1 H2) as (d & [= <-] & ?).
    + split; [by apply Hne|]. left. split_and!; [apply jget_jset_eq|done| |exact G4].
      assert (∀ c, ¬ (c ∈ kids tr ∧ seated tr c)) as Hnone by (intros c [H1 H2]; by destruct (P3 c H1 H2) as (d & ? & _)).
      right. split_and!; [apply Hf..|done|exact Hnone|]. rewrite G2.
      destruct (filter _ (kids tr)) as [|c l] eqn:Ef; [done|]. exfalso.
      assert (c ∈ filter (λ c, jhas (seats tr) c = true) (kids tr)) as Hc by (rewrite Ef; left).
      apply list_elem_of_filter in Hc as [? ?]. by apply (Hnone c).
Qed.

(** A replay to another node carries, in cache order, exactly the cached entries stamped
    after [since], and the newest entry as well where the latest is asked for, in frames that
    each stay within [REPLAY_CHUNK_BYTES] or hold a single entry; then one frame with every
    deletion that has not expired, whatever [since] is. Where there is nothing to send, a frame
    is sent all the same if a ping is asked for. Every frame goes to the subscriber and names
    the generation. *)
Theorem replay_complete (E : senv) (tr : tree) (sub : string) (since : option Z) (ping latest : bool) (attach : option string) :
  idz sub ≠ e_self E →
  ∃ chunks dels extra,
    replayTo E tr sub since ping latest attach =
      (λ ms, ODeliver (idz sub) ms (genCarried E tr) (if topicLifetime E then truthy attach else None) None) <$>
        (fmap DBody <$> chunks) ++ (fmap DDel <$> dels) ++
        (if ping && bool_decide (chunks = []) && bool_decide (dels = []) then [[]] else []) ∧
    Forall chunk_ok chunks ∧
    concat chunks = filter (λ c, not_after since c = false) (tr_cache tr) ++ extra ∧
    (extra = [] ∨ latest = true ∧ ∃ c, last (tr_cache tr) = Some c ∧ extra = [c]) ∧
    (latest = true → ∀ c, last (tr_cache tr) = Some c → e_msgId c ∈ e_msgId <$> concat chunks) ∧
    (length dels ≤ 1)%nat ∧
    ∀ d, d ∈ concat dels ↔ ∃ t, (dm_msgId d, t) ∈ tr_tombs tr ∧ e_now E < t_exp t ∧
      d = mk_delmark (dm_msgId d) (t_killTs t) (t_signer t) (t_seq t) (if e_tombAuth E then t_kill t else None).
Proof.
  intros Hne. destruct (replay_bodies_spec tr since latest) as [Hc Hok].
  exists (replay_bodies tr since latest), (match replay_dels E tr with [] => [] | l => [l] end).
  unfold replay_set in Hc. eexists. split; [|split; [exact Hok|split; [exact Hc|]]].
  - unfold replayTo. rewrite (proj2 (Z.eqb_neq _ _) Hne).
    destruct (replay_bodies tr since latest) as [|b bs], (replay_dels E tr) as [|d ds], ping; cbn;
      rewrite ?fmap_app, ?app_nil_r, <- ?list_fmap_compose; done.
  - rewrite Hc. split_and!.
    + destruct latest; [|by left]. destruct (last (tr_cache tr)) as [c|]; [|by left].
      case_bool_decide; [by left|]. right. split; [done|]. by exists c.
    + intros -> c Hl. rewrite Hl. rewrite fmap_app, elem_of_app. case_bool_decide; [by left|]. right. left.
    + destruct (replay_dels E tr); cbn; lia.
    + intros d. replace (concat (match replay_dels E tr with [] => [] | l => [l] end)) with (replay_dels E tr)
        by (destruct (replay_dels E tr); cbn; by rewrite ?app_nil_r).
      unfold replay_dels. rewrite list_elem_of_omap. split.
      * intros ([i t] & Hin & Hd). cbn [fst snd] in Hd. destruct (_ <? _) eqn:El; [|done]. apply Z.ltb_lt in El.
        injection Hd as <-. by exists t.
      * intros (t & Hin & Hlt & Hd). exists (dm_msgId d, t). split; [done|]. cbn [fst snd].
        rewrite (proj2 (Z.ltb_lt _ _) Hlt). by rewrite Hd at 2.
Qed.

(** Delegations do not overlap. From a fresh role, whatever sequence of subscriptions,
    unsubscriptions, adoptions, acknowledgements and sweeps a node goes through: a subscriber
    is in at most one open delegation, so that one acknowledgement at most releases it; the
    tables hold no key twice; and the seats a widening may pick are in no open delegation. *)
Theorem delegations_disjoint (tr0 : tree) (ops : list top) :
  seats tr0 = [] → kids tr0 = [] → pending tr0 = [] →
  let tr := foldl tstep tr0 ops in
  tree_inv tr ∧
  (∀ n1 n2 p1 p2 z, jget (pending tr) n1 = Some p1 → jget (pending tr) n2 = Some p2 →
     z ∈ pd_subs p1 → z ∈ pd_subs p2 → n1 = n2) ∧
  ∀ E z n p, z ∈ leaves E tr → jget (pending tr) n = Some p → z ∉ pd_subs p.
Proof.
  intros H1 H2 H3. cbn zeta.
  assert (tree_inv tr0) as H0.
  { split; [rewrite H1|rewrite H2|rewrite H3|unfold pendingSubs; rewrite H3]; apply NoDup_nil_2. }
  clear H1 H2 H3. revert tr0 H0. induction ops as [|o ops IH]; intros tr H; [|cbn [foldl]; by apply IH, tstep_inv].
  cbn [foldl]. split_and!; [done| |].
  - intros n1 n2 p1 p2 z Hp1 Hp2 Hz1 Hz2. apply (subs_of_unique (pending tr) n1 n2 p1 p2 z); [apply H|done..].
  - intros E z n p Hz Hp Hin. destruct (leaves_spec E tr (ti_seats tr H)) as [_ Hl]. destruct (Hl z Hz) as (_ & _ & Hn & _).
    apply Hn, elem_subs_of. exists n, p. split; [by apply jget_Some_elem|done].
Qed.

(** * Witnesses *)

Definition demo_tree : tree := mk_tree 4 true 1 [] [] [] 0 [] [].
Definition demo_E (self : Z) : senv := mk_senv 1000 self 2 true false false [] 300000 180000 None.
Definition demo_sub (self : Z) (n : string) (tr : tree) (z : Z) : tree * list out :=
  accept (demo_E self) n tr (idHex z) (Some 0) false None None false.
(** Node 100 seats 7 and 9; when 11 comes it makes 7 a child and offers it 9. *)
Definition demo_two : tree := (demo_sub 100 "a" (demo_sub 100 "a" demo_tree 7).1 9).1.
Definition demo_wide : tree * list out := demo_sub 100 "n" demo_two 11.
Definition demo_N0 : net := mk_net (λ n, if n =? 100 then Some demo_two else None) [] [].
Definition demo_N1 : net := put demo_N0 100 (Some demo_wide.1) demo_wide.2.
Definition demo_child : option tree * list out :=
  onAdopt (demo_E 7) (λ _, "m") (Some demo_tree) (idHex 100) (Some "n") [(idHex 9, Some 0)].
Definition demo_N2 : net := put demo_N1 7 demo_child.1 demo_child.2.
Definition demo_N3 : net := put demo_N2 100 (onAdoptAck (nodes demo_N2 100) (Some "n") [idHex 9] false) [].

Lemma seated_stays_served_witness :
  rtc (nstep (idHex 9)) demo_N0 demo_N3 ∧
  jhas (default [] (seats <$> nodes demo_N3 100)) (idHex 9) = false ∧
  ∃ n, (n ≤ 100)%nat ∧ seated_at demo_N3 (Z.of_nat n) (idHex 9).
Proof.
  assert (rtc (nstep (idHex 9)) demo_N0 demo_N3) as Hr.
  { apply (rtc_l _ _ demo_N1).
    { apply (ns_sub (idHex 9) demo_N0 (demo_E 100) "n" demo_two (idHex 11) (Some 0) false None None false); done. }
    apply (rtc_l _ _ demo_N2).
    { apply (ns_adopt (idHex 9) demo_N1 (demo_E 7) (λ _, "m") (Some demo_tree) 100 [(idHex 9, Some 0)] "n"); [|done].
      vm_compute. left. }
    apply (rtc_l _ _ demo_N3); [|apply rtc_refl].
    apply (ns_ack (idHex 9) demo_N2 100 "n" [idHex 9] false).
    vm_compute. do 4 right. left. }
  split; [exact Hr|]. split; [vm_compute; reflexivity|].
  destruct (seated_stays_served Z.to_nat (idHex 9) demo_N0 demo_N0 demo_N3 eq_refl (rtc_refl _ _) Hr) with (n := 100)
    as (m & Hm & [Hs|Hs]).
  - intros c p l m Hin. vm_compute in Hin.
    repeat (apply elem_of_cons in Hin as [Hin|Hin]; [try discriminate Hin; injection Hin as -> -> _ _; split; lia|]).
    by apply elem_of_nil in Hin.
  - exists demo_two. by split.
  - exists (Z.to_nat m). split; [lia|]. destruct (decide (0 ≤ m)) as [H0|H0]; [by rewrite Z2Nat.id by lia|].
    exfalso. destruct Hs as (t & Ht & _). unfold demo_N3, demo_N2, demo_N1, put, put_, demo_N0 in Ht. cbn [nodes] in Ht.
    rewrite !(proj2 (Z.eqb_neq m _)) in Ht by lia. done.
  - exfalso. by apply elem_of_nil in Hs.
Defined.

Lemma accept_spec_witness :
  jwf (seats demo_two) ∧ seated demo_wide.1 (idHex 9) ∧
  demo_wide.2 = [OAdopt 7 100 [(idHex 9, Some 0)] "n";
                 ODeliver 9 [] (Some (idHex 100, 1)) None (Some (idHex 7));
                 ODeliver 11 [] (Some (idHex 100, 1)) None None].
Proof.
  assert (jwf (seats demo_two)) as Hw by (apply (bool_decide_eq_true_1 (NoDup _)); vm_compute; reflexivity).
  split; [exact Hw|]. split; [|vm_compute; reflexivity].
  destruct (accept_spec (demo_E 100) "n" demo_two (idHex 11) (Some 0) false None None false Hw) as [H _].
  apply H. vm_compute. reflexivity.
Defined.

Lemma replay_complete_witness :
  let c i ts b := mk_entry i ts "" None b in
  let tr := mk_tree 4 true 1 [] [] [] 0 [c "a" 1 90000; c "b" 2 90000; c "x" 3 5] [("k", mk_tomb 2000 5 None None None None [])] in
  idz (idHex 9) ≠ e_self (demo_E 100) ∧
  ∃ chunks, Forall chunk_ok chunks ∧ length (replayTo (demo_E 100) tr (idHex 9) (Some 0) true false None) = 3%nat.
Proof.
  cbn zeta. split; [vm_compute; discriminate|].
  destruct (replay_complete (demo_E 100)
    (mk_tree 4 true 1 [] [] [] 0 [mk_entry "a" 1 "" None 90000; mk_entry "b" 2 "" None 90000; mk_entry "x" 3 "" None 5]
       [("k", mk_tomb 2000 5 None None None None [])])
    (idHex 9) (Some 0) true false None) as (chunks & dels & extra & H1 & H2 & _); [vm_compute; discriminate|].
  exists chunks. split; [exact H2|]. vm_compute. reflexivity.
Defined.

Lemma delegations_disjoint_witness :
  seats demo_tree = [] ∧ kids demo_tree = [] ∧ pending demo_tree = [] ∧
  tree_inv (foldl tstep demo_tree
    [TSub (demo_E 100) "a" (idHex 7) (Some 0) false None None false;
     TSub (demo_E 100) "b" (idHex 9) (Some 0) false None None false;
     TSub (demo_E 100) "n" (idHex 11) (Some 0) false None None false]).
Proof.
  split; [done|]. split; [done|]. split; [done|].
  by destruct (delegations_disjoint demo_tree
    [TSub (demo_E 100) "a" (idHex 7) (Some 0) false None None false;
     TSub (demo_E 100) "b" (idHex 9) (Some 0) false None None false;
     TSub (demo_E 100) "n" (idHex 11) (Some 0) false None None false] eq_refl eq_refl eq_refl) as [H _].
Defined.
