(* ===== verification/Lifetime.v ===== *)
(** Lifetime.v - the life of a topic at a node (src/src/pubsub/topicLifetime.js): LEFT records,
    the grant rule of a REPLICATE (src/src/pubsub/syncEngine.js), termination and its notice.
    The machine is armed ([topicLifetime]), as it is by default.

    The state is the manager of [Role] with what it keeps for this: the LEFT records, the
    generation each topic is attached to ([_attach]), and, by the reference of a role object, its
    seat table ([SubTree.tree]) and its [dismantling] record. Of a topic's attachment only the
    generation is kept. The thin-branch step-down and REHOME are not modelled. *)
From stdpp Require Import base gmap sets list strings pretty.
From Stdlib Require Import ZArith Lia.
From S2P Require Import Prelude HexId Role TopicStore RootClaim.
From S2P Require SubTree.
#[local] Existing Instance SubTree.skind_eq_dec.
#[local] Open Scope Z_scope.
#[local] Open Scope js_scope.

(** * Data *)

Definition DROP_MS : Z := 180000.
Definition STANDBY_LEASE_MS : Z := DROP_MS.
Definition APPOINTMENT_DELAY_MS : Z := 60000.
Definition APPOINTMENT_SKEW_MS : Z := 15000.
Definition LEFT_RECORD_MAX : Z := 4096.
Definition TOPIC_TERMINATE_TRIES : Z := 3.
Definition LEFT_MS : Z := STANDBY_LEASE_MS + APPOINTMENT_SKEW_MS + APPOINTMENT_DELAY_MS.

Record leftrec := mk_left { lr_rootId : option string; lr_epoch : Z; lr_upstream : option string; lr_until : Z }.

Record life := mk_life {
  l_mgr : mgr; l_left : jmap Z leftrec; l_attach : jmap Z gentag;
  l_trees : nat → SubTree.tree;
  l_dism : jmap nat (Z * Z);         (** [role.dismantling]: [at], [sends] *)
  grantHoldUntil : Z; lifeLast : option (Z * Z)   (** the wall and monotonic clocks of the last tick *)
}.
Definition lput_mgr (G : mgr) (L : life) : life :=
  mk_life G (l_left L) (l_attach L) (l_trees L) (l_dism L) (grantHoldUntil L) (lifeLast L).
Definition lput_left (v : jmap Z leftrec) (L : life) : life :=
  mk_life (l_mgr L) v (l_attach L) (l_trees L) (l_dism L) (grantHoldUntil L) (lifeLast L).
Definition lput_attach (v : jmap Z gentag) (L : life) : life :=
  mk_life (l_mgr L) (l_left L) v (l_trees L) (l_dism L) (grantHoldUntil L) (lifeLast L).
Definition lput_tree (ref : nat) (t : SubTree.tree) (L : life) : life :=
  mk_life (l_mgr L) (l_left L) (l_attach L) (λ r, if decide (r = ref) then t else l_trees L r) (l_dism L)
    (grantHoldUntil L) (lifeLast L).
Definition lput_dism (v : jmap nat (Z * Z)) (L : life) : life :=
  mk_life (l_mgr L) (l_left L) (l_attach L) (l_trees L) v (grantHoldUntil L) (lifeLast L).

(** Clocks, and what other modules answer. *)
Record lenv := mk_lenv {
  e_rc : RootClaim.env; e_dropMs : Z;
  e_hosted : Z → bool;               (** [_hostedTopics] *)
  e_standingLease : bool;            (** the standing lease is armed *)
  e_replicas : nat → list string     (** the keys of [role.replicas] *)
}.
Definition e_wall (E : lenv) : Z := RootClaim.now (e_rc E).
Definition e_mono (E : lenv) : Z := RootClaim.mono (e_rc E).

Inductive lout :=
| LTerminated (to_ : string) (t : Z) (g : gentag)
| LAppTerminated (t : Z) (g : gentag).

(** * Generations *)

Definition genOf (G : mgr) (r : role) : gentag := (lc (selfHex G), to_int32 (epoch r)).
Definition sameGen (a b : gentag) : bool := bool_decide (a.1 = b.1) && (to_int32 a.2 =? to_int32 b.2).
(** [_genValid] and [_genNorm] of a frame's [gen]; [epoch]: an integer or not one. *)
Definition genNorm (root : option string) (epoch : option Z) : option gentag :=
  match root with
  | Some r => if ids_isHexId (lc r)
              then Some (lc r, match epoch with Some e => if 0 <=? e then e else 0 | None => 0 end)
              else None
  | None => None
  end.

(** * LEFT records *)

Definition lowered (s : option string) : option string :=
  match s with Some x => if bool_decide (x = "") then None else Some (lc x) | None => None end.
Definition leftWrite (mono : Z) (M : jmap Z leftrec) (t : Z) (rootId : option string) (epoch : Z) (upstream : option string)
    : jmap Z leftrec * bool :=
  let set_ := λ M, (jset M t (mk_left (lowered rootId) (to_int32 epoch) (lowered upstream) (mono + LEFT_MS)), true) in
  if (LEFT_RECORD_MAX <=? jsize M) && negb (jhas M t) then
    match List.find (λ p, lr_until p.2 <=? mono) M with
    | Some (k, _) => set_ (jdel M k)
    | None => (M, false)
    end
  else set_ M.
Definition leftGet (mono : Z) (M : jmap Z leftrec) (t : Z) : jmap Z leftrec * option leftrec :=
  match jget M t with
  | Some r => if lr_until r <=? mono then (jdel M t, None) else (M, Some r)
  | None => (M, None)
  end.
Definition leftPrune (mono : Z) (M : jmap Z leftrec) : jmap Z leftrec :=
  filter (λ p, negb (lr_until p.2 <=? mono) = true) M.
Definition leftRefuses (mono : Z) (M : jmap Z leftrec) (t : Z) (g : option gentag) : jmap Z leftrec * bool :=
  match leftGet mono M t with
  | (M, None) => (M, false)
  | (M, Some r) =>
      (M, match g, lr_rootId r with
          | None, _ => true
          | Some _, None => false
          | Some g, Some root => bool_decide (root = g.1) && (lr_epoch r =? to_int32 g.2)
          end)
  end.

(** * The grant rule *)

Definition wallJumpCheck (E : lenv) (L : life) : life :=
  let hold := match lifeLast L with
              | Some (w, m) => if APPOINTMENT_SKEW_MS <? Z.abs ((e_wall E - w) - (e_mono E - m))
                               then e_wall E + APPOINTMENT_DELAY_MS else grantHoldUntil L
              | None => grantHoldUntil L
              end in
  mk_life (l_mgr L) (l_left L) (l_attach L) (l_trees L) (l_dism L) hold (Some (e_wall E, e_mono E)).

(** Of a frame that carries an issue stamp. *)
Definition grantFresh (L : life) (issuedAt now : Z) : bool :=
  if negb (grantHoldUntil L =? 0) && (now <? grantHoldUntil L) then false
  else now - issuedAt <=? APPOINTMENT_DELAY_MS + APPOINTMENT_SKEW_MS.

(** A REPLICATE: its sender (payload or transport), its normalised generation, its stamp. *)
Record grant := mk_grant { gr_from : string; gr_gen : option gentag; gr_issuedAt : option Z }.
Inductive verdict :=
| VRoot | VNoDuty | VLegacyNotPrincipal | VLeft | VEpoch | VNoStamp | VStale | VObsoleteGen | VObsoleteGrant | VOutranked
| VGrant.

Definition claim_of (g : gentag) : Z * Z := (SubTree.idz g.1, g.2).
Definition grantRule (E : lenv) (L : life) (t : Z) (f : grant) : life * verdict :=
  let now := e_wall E in
  let ro := snd <$> live (l_mgr L) t in
  match gr_gen f with
  | None =>
      (L, match ro with
          | Some r => if bool_decide (backupOf r = Some (gr_from f)) then VGrant else VLegacyNotPrincipal
          | None => VLegacyNotPrincipal
          end)
  | Some g =>
      let '(M, isLeft) := leftRefuses (e_mono E) (l_left L) t (Some g) in
      let L := lput_left M L in
      (L, if isLeft then VLeft
          else if negb (1 <=? g.2) then VEpoch
          else match gr_issuedAt f with
          | None => VNoStamp
          | Some at_ =>
              if negb (grantFresh L at_ now) then VStale
              else match ro with
              | None => VGrant
              | Some r =>
                  match standbyGen r with
                  | None => VGrant
                  | Some s =>
                      if bool_decide (s.1 = g.1) then if g.2 <? to_int32 s.2 then VObsoleteGen else VGrant
                      else if match standbyIssuedAt r with Some i => at_ + APPOINTMENT_SKEW_MS <? i | None => false end
                      then VObsoleteGrant
                      else if bool_decide (is_Some (backupOf r)) && (now - lastReplicaAt r <? STANDBY_LEASE_MS)
                              && negb (claimWins t (claim_of g) (claim_of s))
                      then VOutranked
                      else VGrant
                  end
              end
          end)
  end.

(** A REPLICATE up to its first await: the appointment. *)
Definition onReplicate (E : lenv) (L : life) (t : Z) (f : grant) : life * verdict :=
  let G := l_mgr L in
  if match live G t with Some (_, r) => isRoot r | None => false end then (L, VRoot)
  else if negb (rootReplicas (mcf G)) || neverRoot (mcf G) then (L, VNoDuty)
  else match grantRule E L t f with
  | (L, VGrant) =>
      let '(G, ref) := match live G t with
                       | Some (ref, _) => (G, ref)
                       | None => (alloc G t (makeRole t false (e_wall E)), length (heap G))
                       end in
      (lput_mgr (becomeBackup (e_rc E) G t ref (gr_from f) ((λ g, (g.1, Some g.2)) <$> gr_gen f) (gr_issuedAt f)) L, VGrant)
  | r => r
  end.

(** * Termination *)

(** [_retireRole]: the one detach site. The tombstone authority is apart. *)
Definition retireRole (t : Z) (ref : nat) (L : life) : life :=
  let G := upd (l_mgr L) ref (λ r, with_retired true (with_gen (to_int32 (gen r) + 1) r)) in
  let G := put_upstream (jdel (upstream G) t) (put_axonRoles (jdel (axonRoles G) t) G) in
  let L := lput_mgr G L in
  if jhas (mySubscriptions G) t then L else lput_attach (jdel (l_attach L) t) L.

Definition custodyOpen (r : role) (tr : SubTree.tree) (now : Z) : bool :=
  match merge r with
  | Some m =>
      match completing_ m with Some _ => true | None => false end ||
      match gate_ m with Some _ => true | None => false end ||
      match acceptedWinner m with Some a => now <? aw_exp a | None => false end ||
      bool_decide (pins m ≠ ∅)
  | None => false
  end || negb (jsize (SubTree.pending tr) =? 0) || negb (jsize (openMerges r) =? 0) || negb (jsize (openPulls r) =? 0).

Definition targets (E : lenv) (L : life) (ref : nat) : list string :=
  let me := lc (selfHex (l_mgr L)) in
  let seats := (SubTree.seats (l_trees L ref)).*1 in
  filter (λ h, h ≠ me) (seats ++ filter (λ h, h ∉ seats) (e_replicas E ref)).

Definition terminateStep (E : lenv) (t : Z) (ref : nat) (r : role) (d : Z * Z) (L : life) : life * list lout :=
  let ts := targets E L ref in
  if bool_decide (ts = []) || (TOPIC_TERMINATE_TRIES <=? d.2) then
    let G := put_genHighWater (jset (genHighWater (l_mgr L)) t (to_int32 (epoch r), e_mono E + LEFT_MS)) (l_mgr L) in
    (retireRole t ref (lput_mgr (retireBackup G t ref) L), [])
  else (lput_dism (jset (l_dism L) ref (d.1, d.2 + 1)) L, (λ h, LTerminated h t (genOf (l_mgr L) r)) <$> ts).

(** The sweep at one topic. *)
Definition terminationAt (E : lenv) (t : Z) (L : life) : life * list lout :=
  let now := e_wall E in
  match live (l_mgr L) t with
  | None => (L, [])
  | Some (ref, r) =>
      if negb (isRoot r) then (L, [])
      else match jget (l_dism L) ref with
      | Some d => terminateStep E t ref r d L
      | None =>
          if negb (Nat.eqb (length (cache r)) 0) || custodyOpen r (l_trees L ref) now
             || jhas (mySubscriptions (l_mgr L)) t || e_hosted E t || (now <? metricsOn r)
             || (e_standingLease E && (now <? standingUntil r))
             || (0 <? SubTree.roleDemand (l_trees L ref))
             || (now - SubTree.lastDemandAt (l_trees L ref) <=? e_dropMs E)
          then (L, [])
          else
            let G := upd (l_mgr L) ref (λ r, with_dismantling true (with_gen (to_int32 (gen r) + 1) r)) in
            let L := lput_dism (jset (l_dism L) ref (now, 0)) (lput_mgr G L) in
            terminateStep E t ref r (now, 0) L
      end
  end.
Definition terminationSweep (E : lenv) (L : life) : life * list lout :=
  foldl (λ st t, let '(L, o) := terminationAt E t st.1 in (L, st.2 ++ o)) (L, []) (axonRoles (l_mgr L)).*1.

(** * The standby lease *)

Definition standbyLeaseAt (E : lenv) (t : Z) (L : life) : life :=
  match live (l_mgr L) t with
  | Some (ref, r) =>
      match isRoot r, backupOf r with
      | false, Some principal =>
          if (e_wall E - lastReplicaAt r <=? STANDBY_LEASE_MS) || negb (Nat.eqb (length (cache r)) 0) || custodyAlive (e_wall E) r then L
          else
            let M := (leftWrite (e_mono E) (l_left L) t (Some (match standbyGen r with Some g => g.1 | None => principal end))
                        (match standbyGen r with Some g => g.2 | None => 0 end) (Some principal)).1 in
            lput_left M (lput_mgr (upd (retireBackup (l_mgr L) t ref) ref (with_standbyGen None)) L)
      | _, _ => L
      end
  | None => L
  end.
Definition standbyLeaseSweep (E : lenv) (L : life) : life :=
  foldl (λ L t, standbyLeaseAt E t L) L (elements (backupTopics (l_mgr L))).

(** * The notice *)

(** What an obligation's end removes from the tombstones: itself as an owner, and the record
    where none is left; an untagged record belongs to the legacy appointment. *)
Definition drop_owner (key : option string) (p : string * tomb) : option (string * tomb) :=
  let tb := p.2 in
  match t_owners tb, key with
  | [], None => None
  | [], Some _ => Some p
  | os, Some k =>
      if bool_decide (k ∈ os) then
        match filter (λ o, o ≠ k) os with
        | [] => None
        | os' => Some (p.1, mk_tomb (t_exp tb) (t_killTs tb) (t_signer tb) (t_seq tb) (t_kill tb) (t_gen tb) os')
        end
      else Some p
  | _, None => Some p
  end.
Definition dropOwned (owner : option gentag) (r : role) : role :=
  with_tombstones (omap (drop_owner (owner_key <$> owner)) (tombstones r)) r.

Definition endKey (t : Z) (g : gentag) : string :=
  toString16 t +:+ ":terminated:" +:+ g.1 +:+ ":" +:+ pretty g.2.
Definition endSubscriptionTerminated (t : Z) (g : gentag) (L : life) : life * list lout :=
  let G := l_mgr L in
  let seen := jhas (appDelivered G) (endKey t g) in
  let G := if seen then G else put_appDelivered (lru_add (appDelivered G) (endKey t g)) G in
  let G := put_unattachedSince (unattachedSince G ∖ {[t]})
             (put_upstream (jdel (upstream G) t) (put_mySubscriptions (jdel (mySubscriptions G) t) G)) in
  (lput_attach (jdel (l_attach L) t) (lput_mgr G L), if seen then [] else [LAppTerminated t g]).

Definition upOf (G : mgr) (t : Z) : option string :=
  match jget (upstream G) t with Some (u :: _) => if bool_decide (u = "") then None else Some u | _ => None end.
Definition appointmentMatch (r : option role) (g : gentag) : bool :=
  match r ≫= λ r, p ← backupOf r; Some (standbyGen r, p) with
  | Some (Some s, _) => sameGen s g
  | Some (None, p) => bool_decide (p = g.1)
  | None => false
  end.
Definition attachmentMatch (L : life) (t : Z) (r : option role) (g : gentag) (from : option string) : bool :=
  match jget (l_attach L) t with
  | Some a => sameGen a g
  | None =>
      let up := upOf (l_mgr L) t in
      match up with
      | Some u => bool_decide (u = g.1) || bool_decide (from = Some u)
      | None => match r with None => true | Some _ => false end
      end
  end.

Definition endAppointment (t : Z) (ref : nat) (L : life) : life :=
  let owner := role_at (l_mgr L) ref ≫= standbyGen in
  lput_mgr (upd (retireBackup (l_mgr L) t ref) ref (λ r, dropOwned owner (with_standbyGen None r))) L.
(** A child's part: it forwards the notice to its seats and drops its list. *)
Definition endRelay (t : Z) (ref : nat) (g : gentag) (L : life) : life * list lout :=
  let tr := l_trees L ref in
  let me := lc (selfHex (l_mgr L)) in
  let to_ := fst <$> filter (λ p : string * SubTree.seat, p.1 ≠ me ∧ SubTree.st_kind p.2 ≠ SubTree.SStandby) (SubTree.seats tr) in
  let G := upd (l_mgr L) ref (λ r, dropOwned (jget (l_attach L) t) (with_children ∅ (with_subscribers [] r))) in
  (lput_tree ref (SubTree.with_kids [] (SubTree.with_seats [] tr)) (lput_mgr G L), (λ h, LTerminated h t g) <$> to_).
Definition endAttachment (t : Z) (ref : option nat) (g : gentag) (L : life) : life * list lout :=
  let '(L, o) := match ref with Some ref => endRelay t ref g L | None => (L, []) end in
  let G := l_mgr L in
  let G := put_upstream (jdel (upstream G) t) G in
  let G := match jget (rootBeacons G) t with
           | Some b => if bool_decide (lc (b_root b) = g.1) then put_rootBeacons (jdel (rootBeacons G) t) G else G
           | None => G
           end in
  let G := put_rootHint (rootHint G ∖ {[t]}) G in
  let L := lput_attach (jdel (l_attach L) t) (lput_mgr G L) in
  if jhas (mySubscriptions G) t then let '(L, o') := endSubscriptionTerminated t g L in (L, o ++ o') else (L, o).

Definition onTopicTerminated (L : life) (t : Z) (gen_ : option gentag) (from : option string) : life * list lout :=
  match gen_ with
  | None => (L, [])
  | Some g =>
      let ro := live (l_mgr L) t in
      let r := snd <$> ro in
      if match r with Some r => isRoot r | None => false end then (L, [])
      else
        let appt := appointmentMatch r g in
        let attm := attachmentMatch L t r g from in
        if negb appt && negb attm then (L, [])
        else if appt && match r with Some r => negb (Nat.eqb (length (cache r)) 0) | None => false end then (L, [])
        else
          let L := match ro with Some (ref, _) => if appt then endAppointment t ref L else L | None => L end in
          let '(L, o) := if attm then endAttachment t (fst <$> ro) g L else (L, []) in
          match ro with
          | None => (L, o)
          | Some (ref, _) =>
              let still := match role_at (l_mgr L) ref with Some r => bool_decide (is_Some (backupOf r)) | None => false end in
              if negb still && negb (jhas (mySubscriptions (l_mgr L)) t) && bool_decide (SubTree.seats (l_trees L ref) = [])
              then (retireRole t ref L, o)
              else (L, o)
          end
  end.

(** * LEFT records: lemmas *)

Inductive lop :=
| LWrite (mono : Z) (t : Z) (rootId : option string) (epoch : Z) (upstream : option string)
| LGet (mono t : Z)
| LPrune (mono : Z).
Definition lop_mono (o : lop) : Z := match o with LWrite m _ _ _ _ | LGet m _ | LPrune m => m end.
Definition lop_writes (o : lop) (t : Z) : Prop := match o with LWrite _ t' _ _ _ => t' = t | _ => False end.
Definition lstep (M : jmap Z leftrec) (o : lop) : jmap Z leftrec :=
  match o with
  | LWrite m t r e u => (leftWrite m M t r e u).1
  | LGet m t => (leftGet m M t).1
  | LPrune m => leftPrune m M
  end.

Lemma leftWrite_cases mono M t r e u :
  let n := mk_left (lowered r) (to_int32 e) (lowered u) (mono + LEFT_MS) in
  leftWrite mono M t r e u = (jset M t n, true) ∧ (jsize M < LEFT_RECORD_MAX ∨ jhas M t = true) ∨
  (∃ k v, k ≠ t ∧ (k, v) ∈ M ∧ lr_until v ≤ mono ∧ leftWrite mono M t r e u = (jset (jdel M k) t n, true)) ∨
  leftWrite mono M t r e u = (M, false) ∧ LEFT_RECORD_MAX ≤ jsize M ∧ ∀ k v, (k, v) ∈ M → mono < lr_until v.
Proof.
  cbn zeta. unfold leftWrite. destruct ((LEFT_RECORD_MAX <=? jsize M) && negb (jhas M t)) eqn:Ef.
  - apply andb_true_iff in Ef as [E1 E2]. apply negb_true_iff in E2. zb.
    destruct (List.find _ M) as [[k v]|] eqn:Efi.
    + right. left. apply find_some in Efi as [Hin Hle]. apply list_elem_of_In in Hin. zb. exists k, v.
      split_and!; [|done|done|done]. intros ->. apply jhas_false, jget_None in E2. apply E2, list_elem_of_fmap. by exists (t, v).
    + right. right. split_and!; [done|done|]. intros k v Hin. apply list_elem_of_In in Hin.
      pose proof (find_none _ _ Efi _ Hin) as Hn. cbn in Hn. zb. lia.
  - left. split; [done|]. apply andb_false_iff in Ef as [E1|E1]; [left; zb; lia|right]. by apply negb_false_iff in E1.
Qed.

(** A record that is live through every step is neither evicted nor changed by the others. *)
Lemma lstep_keeps M o t r : jwf M → jget M t = Some r → lop_mono o < lr_until r → ¬ lop_writes o t →
  jget (lstep M o) t = Some r.
Proof.
  intros Hw Hg Hm Hn. destruct o as [m t' r' e u|m t'|m]; cbn [lstep lop_mono lop_writes] in *.
  - destruct (leftWrite_cases m M t' r' e u) as [[-> _]|[(k & v & _ & Hin & Hle & ->)|[-> _]]]; cbn [fst].
    + by rewrite jget_jset_ne.
    + rewrite jget_jset_ne, jget_jdel_ne; [done| |done]. intros ->. apply elem_jget in Hin; [|done]. rewrite Hg in Hin.
      injection Hin as ->. lia.
    + done.
  - unfold leftGet. destruct (jget M t') as [r1|] eqn:E1; [|done]. destruct (_ <=? _) eqn:El; [|done]. cbn [fst]. zb.
    rewrite jget_jdel_ne; [done|]. intros ->. rewrite Hg in E1. injection E1 as ->. lia.
  - unfold leftPrune. clear Hw. induction M as [|[k v] M IH]; [done|]. cbn [jget] in Hg. rewrite filter_cons.
    destruct (decide (k = t)) as [->|Hne].
    + injection Hg as ->. rewrite decide_True; [cbn [jget]; by rewrite decide_True|]. cbn. apply negb_true_iff, Z.leb_gt. lia.
    + destruct (decide _); [cbn [jget]; rewrite decide_False by done|]; by apply IH.
Qed.

Lemma leftstep_wf M o : jwf M → jwf (lstep M o).
Proof.
  intros H. destruct o as [m t' r' e u|m t'|m]; cbn [lstep].
  - destruct (leftWrite_cases m M t' r' e u) as [[-> _]|[(k & v & _ & _ & _ & ->)|[-> _]]]; cbn [fst];
      [by apply jwf_jset|by apply jwf_jset, jwf_jdel|done].
  - unfold leftGet. destruct (jget M t'); [|done]. destruct (_ <=? _); [by apply jwf_jdel|done].
  - unfold jwf, leftPrune. eapply sublist_NoDup; [exact H|]. apply fmap_sublist, sublist_filter.
Qed.

Lemma lstep_size M o : jwf M → jsize M ≤ LEFT_RECORD_MAX → jsize (lstep M o) ≤ LEFT_RECORD_MAX.
Proof.
  intros Hw H. destruct o as [m t' r' e u|m t'|m]; cbn [lstep].
  - destruct (leftWrite_cases m M t' r' e u) as [[-> Hc]|[(k & v & Hne & Hin & _ & ->)|[-> _]]]; cbn [fst]; [| |done].
    + rewrite jsize_jset. destruct (jhas M t') eqn:Eh; [lia|]. destruct Hc as [?|?]; [lia|done].
    + rewrite jsize_jset, jsize_jdel by done. apply elem_jget in Hin; [|done].
      replace (jhas M k) with true by (symmetry; apply jhas_true; by exists v). destruct (jhas _ t'); lia.
  - unfold leftGet. destruct (jget M t'); [|done]. destruct (_ <=? _); [|done]. cbn [fst].
    pose proof (jsize_jdel_le M t'). lia.
  - unfold leftPrune, jsize in *. pose proof (length_filter (λ p : Z * leftrec, negb (lr_until p.2 <=? m) = true) M). lia.
Qed.

Lemma left_run ops : ∀ M, jwf M → jsize M ≤ LEFT_RECORD_MAX →
  jwf (foldl lstep M ops) ∧ jsize (foldl lstep M ops) ≤ LEFT_RECORD_MAX ∧
  ∀ t r, jget M t = Some r → (∀ o, o ∈ ops → lop_mono o < lr_until r ∧ ¬ lop_writes o t) → jget (foldl lstep M ops) t = Some r.
Proof.
  induction ops as [|o ops IH]; intros M Hw Hs; cbn [foldl]; [done|].
  destruct (IH (lstep M o)) as (H1 & H2 & H3); [by apply leftstep_wf|by apply lstep_size|]. split_and!; [done|done|].
  intros t r Hg Ho. apply H3; [|intros o' Ho'; apply Ho; by right].
  destruct (Ho o) as [? ?]; [left|]. by apply lstep_keeps.
Qed.

(** * The grant: lemmas *)

(** The order of claims: the higher epoch, then the nearer root. *)
Definition above (t : Z) (a b : Z * Z) : Prop := b.2 < a.2 ∨ a.2 = b.2 ∧ dist a.1 t < dist b.1 t.

Lemma above_trans t a b c : above t a b → above t b c → above t a c.
Proof. unfold above. lia. Qed.
Lemma above_irrefl t a : ¬ above t a a.
Proof. unfold above. lia. Qed.
Lemma claimWins_above t a b : 0 < a.2 → 0 < b.2 → claimWins t a b = true → above t a b.
Proof.
  intros Ha Hb. unfold claimWins, above. rewrite (proj2 (Z.ltb_lt 0 a.2) Ha), (proj2 (Z.ltb_lt 0 b.2) Hb). cbn [andb].
  destruct (a.2 =? b.2) eqn:E; cbn [negb]; rewrite Z.ltb_lt; zb; lia.
Qed.

Lemma genNorm_lc root e g : genNorm root e = Some g → lc g.1 = g.1 ∧ 0 ≤ g.2.
Proof.
  unfold genNorm. destruct root as [r|]; [|done]. destruct (ids_isHexId (lc r)); [|done]. intros [= <-]. cbn [fst snd].
  split; [apply lc_idemp|]. destruct e as [e|]; [|done]. destruct (0 <=? e) eqn:E; zb; lia.
Qed.

(** Node [G] is a backup of the generation [s] for [t]. *)
Definition appointed (G : mgr) (t : Z) (s : gentag) : Prop :=
  ∃ ref r, live G t = Some (ref, r) ∧ is_Some (backupOf r) ∧ standbyGen r = Some s ∧ 1 ≤ s.2 < 2 ^ 31.
(** A frame as it arrives, its epoch within 31 bits. *)
Definition frame_ok (f : grant) : Prop := (∃ root e, gr_gen f = genNorm root e) ∧ ∀ g, gr_gen f = Some g → g.2 < 2 ^ 31.
Definition within_lease (E : lenv) (G : mgr) (t : Z) : Prop :=
  ∀ ref r, live G t = Some (ref, r) → e_wall E - lastReplicaAt r < STANDBY_LEASE_MS.

Lemma live_becomeBackup E G t ref r p g i : live G t = Some (ref, r) →
  live (becomeBackup E G t ref p g i) t = Some (ref,
    let r := with_lastReplicaAt (now E) (with_backupOf (Some p) r) in
    let r := match g with Some (root, e) => with_standbyGen (Some (lc root, default 0 e)) r | None => r end in
    match i with Some _ => with_standbyIssuedAt i r | None => r end).
Proof.
  intros H. unfold becomeBackup.
  match goal with |- live (put_backupTopics _ ?G') t = _ => change (live G' t = Some (ref,
    let r := with_lastReplicaAt (now E) (with_backupOf (Some p) r) in
    let r := match g with Some (root, e) => with_standbyGen (Some (lc root, default 0 e)) r | None => r end in
    match i with Some _ => with_standbyIssuedAt i r | None => r end)) end.
  rewrite live_upd, H. cbn [fmap option_fmap option_map]. by rewrite decide_True.
Qed.

Lemma replicate_mono E L t f s : appointed (l_mgr L) t s → within_lease E (l_mgr L) t → frame_ok f →
  ∃ s', appointed (l_mgr (onReplicate E L t f).1) t s' ∧ (s' = s ∨ above t (claim_of s') (claim_of s)).
Proof.
  intros (ref & r & Hl & [p Hb] & Hs & Hr) Hlease [(root & e & Hn) He].
  assert (appointed (l_mgr L) t s) as Happ by (exists ref, r; split_and!; [done|by exists p|done|lia|lia]).
  unfold onReplicate. rewrite Hl. destruct (isRoot r); [exists s; split; [exact Happ|by left]|].
  destruct (_ || _); [exists s; split; [exact Happ|by left]|].
  specialize (Hlease ref r Hl). unfold grantRule. rewrite Hl. cbn [fmap option_fmap option_map snd].
  destruct (gr_gen f) as [g|].
  2: { case_bool_decide; [|exists s; split; [exact Happ|by left]]. cbn [fst l_mgr lput_mgr fmap option_fmap option_map].
    exists s. split; [|by left]. eexists ref, _. rewrite (live_becomeBackup _ _ _ _ r) by done. cbn zeta.
    split; [done|]. destruct (gr_issuedAt f); (split; [by eexists|split; [done|lia]]). }
  symmetry in Hn. destruct (genNorm_lc _ _ _ Hn) as [Hlc _]. specialize (He g eq_refl).
  destruct (leftRefuses (e_mono E) (l_left L) t (Some g)) as [M isLeft].
  destruct isLeft; [exists s; split; [exact Happ|by left]|]. destruct (1 <=? g.2) eqn:E1; cbn [negb]; [|exists s; split; [exact Happ|by left]].
  destruct (gr_issuedAt f) as [at_|]; [|exists s; split; [exact Happ|by left]].
  destruct (grantFresh _ _ _); cbn [negb]; [|exists s; split; [exact Happ|by left]]. rewrite Hs, Hb. zb.
  rewrite to_int32_id by lia.
  set (r' := with_standbyIssuedAt (Some at_) (with_standbyGen (Some (lc g.1, default 0 (Some g.2)))
    (with_lastReplicaAt (now (e_rc E)) (with_backupOf (Some (gr_from f)) r)))).
  assert (∀ x y, x = VGrant → (g = s ∨ above t (claim_of g) (claim_of s)) →
    ∃ s', appointed (l_mgr (match (lput_left M L, x) with
      | (L0, VGrant) => (lput_mgr (becomeBackup (e_rc E) (l_mgr L) t ref (gr_from f) (Some (g.1, Some g.2)) (Some at_)) L0, VGrant)
      | q => q end).1) t s' ∧ (s' = s ∨ above t (claim_of s') (claim_of s)) ∧ y = tt) as Hgrant.
  { intros x [] -> Hor. exists g. split; [|done]. exists ref, r'. cbn [fst l_mgr lput_mgr].
    rewrite (live_becomeBackup _ _ _ _ r) by done. split; [done|]. split; [by eexists|]. split; [|lia].
    cbn. rewrite Hlc. by destruct g. }
  cbn [fmap option_fmap option_map] in *.
  assert (∀ v, (v = VGrant → g = s ∨ above t (claim_of g) (claim_of s)) →
    ∃ s', appointed (l_mgr (match (lput_left M L, v) with
      | (L0, VGrant) => (lput_mgr (becomeBackup (e_rc E) (l_mgr L) t ref (gr_from f) (Some (g.1, Some g.2)) (Some at_)) L0, VGrant)
      | q => q end).1) t s' ∧ (s' = s ∨ above t (claim_of s') (claim_of s))) as Hv.
  { intros v Hv. destruct v; try (exists s; split; [exact Happ|by left]).
    destruct (Hgrant VGrant tt eq_refl (Hv eq_refl)) as (s' & ? & ? & _). by exists s'. }
  apply Hv. clear Hv Hgrant. case_bool_decide as Hroot.
  - destruct (g.2 <? s.2) eqn:E2; [done|]. intros _. zb. destruct (decide (g.2 = s.2)) as [Heq|Hne].
    + left. destruct g, s. cbn in *. by subst.
    + right. left. unfold claim_of. cbn. lia.
  - destruct (match standbyIssuedAt r with Some _ => _ | None => false end); [done|].
    replace (e_wall E - lastReplicaAt r <? STANDBY_LEASE_MS) with true by (symmetry; by apply Z.ltb_lt).
    rewrite bool_decide_eq_true_2 by (by eexists). cbn [andb].
    destruct (claimWins t (claim_of g) (claim_of s)) eqn:Ew; cbn [negb]; [|done]. intros _. right.
    apply claimWins_above; unfold claim_of; cbn; [lia|lia|done].
Qed.

(** * The notice: lemmas *)

Lemma drop_owner_keeps key i tb k : k ∈ t_owners tb → key ≠ Some k →
  ∃ tb', drop_owner key (i, tb) = Some (i, tb') ∧ k ∈ t_owners tb' ∧ t_exp tb' = t_exp tb ∧ t_killTs tb' = t_killTs tb ∧
    ∀ o, o ∈ t_owners tb' → o ∈ t_owners tb.
Proof.
  intros Hk Hne. unfold drop_owner. cbn [fst snd]. destruct (t_owners tb) as [|o os] eqn:Eo; [by apply elem_of_nil in Hk|].
  destruct key as [x|]; [|exists tb; rewrite Eo; by split_and!]. assert (x ≠ k) as Hx by (by intros ->).
  case_bool_decide as Hin; [|exists tb; rewrite Eo; by split_and!].
  assert (k ∈ filter (λ o, o ≠ x) (o :: os)) as Hf by (apply list_elem_of_filter; by split).
  assert (∀ y, y ∈ filter (λ o, o ≠ x) (o :: os) → y ∈ o :: os) as Hs by (intros y Hy; by apply list_elem_of_filter in Hy as [_ ?]).
  destruct (filter (λ o, o ≠ x) (o :: os)) as [|o' os'] eqn:Ef; [by apply elem_of_nil in Hf|].
  eexists. split; [done|]. by cbn [t_owners t_exp t_killTs].
Qed.

Lemma dropOwned_keeps owner r i tb k : (i, tb) ∈ tombstones r → k ∈ t_owners tb → owner_key <$> owner ≠ Some k →
  ∃ tb', (i, tb') ∈ tombstones (dropOwned owner r) ∧ k ∈ t_owners tb' ∧ t_exp tb' = t_exp tb ∧ t_killTs tb' = t_killTs tb.
Proof.
  intros Hin Hk Hne. destruct (drop_owner_keeps _ i tb k Hk Hne) as (tb' & H1 & H2 & H3 & H4 & _).
  exists tb'. split_and!; [|done..]. unfold dropOwned. cbn [with_tombstones tombstones].
  apply list_elem_of_omap. by exists (i, tb).
Qed.

Section notice.
Context (L : life) (t : Z) (g : gentag) (from : option string) (ref : nat) (r : role).
Context (Hl : live (l_mgr L) t = Some (ref, r)).
Let appt := appointmentMatch (Some r) g.
Let attm := attachmentMatch L t (Some r) g from.

(** The role object after the ends of the obligations that match. *)
Definition ended (appt attm : bool) (L : life) (t : Z) (r : role) : role :=
  let r1 := if appt then dropOwned (standbyGen r) (with_standbyGen None (with_backupOf None r)) else r in
  if attm then dropOwned (jget (l_attach L) t) (with_children ∅ (with_subscribers [] r1)) else r1.

Lemma appointment_backup : appt = true → is_Some (backupOf r).
Proof. unfold appt, appointmentMatch. cbn. destruct (backupOf r); [by eexists|done]. Qed.

Lemma endAppointment_at : appt = true →
  role_at (l_mgr (endAppointment t ref L)) ref = Some (dropOwned (standbyGen r) (with_standbyGen None (with_backupOf None r))) ∧
  l_attach (endAppointment t ref L) = l_attach L ∧ l_trees (endAppointment t ref L) = l_trees L ∧
  axonRoles (l_mgr (endAppointment t ref L)) = axonRoles (l_mgr L) ∧ upstream (l_mgr (endAppointment t ref L)) = upstream (l_mgr L) ∧
  mySubscriptions (l_mgr (endAppointment t ref L)) = mySubscriptions (l_mgr L) ∧ mcf (l_mgr (endAppointment t ref L)) = mcf (l_mgr L).
Proof.
  intros Ha. destruct (appointment_backup Ha) as [p Hp]. apply live_Some in Hl as [Hl1 Hl2].
  unfold endAppointment. cbn [lput_mgr l_mgr l_attach l_trees]. rewrite role_at_upd_eq. unfold retireBackup. rewrite Hl2.
  rewrite Hp. rewrite bool_decide_eq_false_2 by done. cbn [andb].
  split_and!; try done. change (role_at (put_backupTopics ?x ?G) ref) with (role_at G ref). rewrite role_at_upd_eq, Hl2. done.
Qed.
End notice.

(** An attachment's end: the seats are told and dropped, the maps forget the topic. *)
Lemma endAttachment_at L t ref g r : role_at (l_mgr L) ref = Some r →
  let X := endAttachment t (Some ref) g L in
  role_at (l_mgr X.1) ref = Some (dropOwned (jget (l_attach L) t) (with_children ∅ (with_subscribers [] r))) ∧
  l_attach X.1 = jdel (l_attach L) t ∧ SubTree.seats (l_trees X.1 ref) = [] ∧ axonRoles (l_mgr X.1) = axonRoles (l_mgr L) ∧
  mySubscriptions (l_mgr X.1) = (if jhas (mySubscriptions (l_mgr L)) t then jdel (mySubscriptions (l_mgr L)) t else mySubscriptions (l_mgr L)) ∧
  ∀ h g', LTerminated h t g' ∈ X.2 ↔ g' = g ∧ h ≠ lc (selfHex (l_mgr L)) ∧
    ∃ s, (h, s) ∈ SubTree.seats (l_trees L ref) ∧ SubTree.st_kind s ≠ SubTree.SStandby.
Proof.
  intros Hr. cbn zeta. unfold endAttachment. destruct (endRelay t ref g L) as [L1 o] eqn:E1.
  assert (role_at (l_mgr L1) ref = Some (dropOwned (jget (l_attach L) t) (with_children ∅ (with_subscribers [] r))) ∧
    l_attach L1 = l_attach L ∧ SubTree.seats (l_trees L1 ref) = [] ∧ axonRoles (l_mgr L1) = axonRoles (l_mgr L) ∧
    mySubscriptions (l_mgr L1) = mySubscriptions (l_mgr L) ∧
    ∀ h g', LTerminated h t g' ∈ o ↔ g' = g ∧ h ≠ lc (selfHex (l_mgr L)) ∧
      ∃ s, (h, s) ∈ SubTree.seats (l_trees L ref) ∧ SubTree.st_kind s ≠ SubTree.SStandby) as (A1 & A2 & A3 & A4 & A5 & A6).
  { unfold endRelay in E1. injection E1 as <- <-. cbn [lput_tree lput_mgr l_mgr l_attach l_trees]. split_and!; try done.
    - by rewrite role_at_upd_eq, Hr.
    - by rewrite decide_True.
    - intros h g'. rewrite list_elem_of_fmap. split.
      + intros (h' & [= -> ->] & Hin). apply list_elem_of_fmap in Hin as ([h2 s] & -> & Hin). apply list_elem_of_filter in Hin as [[H1 H2] H3].
        split_and!; [done|done|by exists s].
      + intros (-> & Hne & s & Hin & Hk). exists h. split; [done|]. apply list_elem_of_fmap. exists (h, s). split; [done|].
        by apply list_elem_of_filter. }
  set (G1 := match jget (rootBeacons (put_upstream _ _)) t with Some _ => _ | None => _ end).
  assert (role_at G1 ref = role_at (l_mgr L1) ref ∧ axonRoles G1 = axonRoles (l_mgr L1) ∧ mySubscriptions G1 = mySubscriptions (l_mgr L1)) as (B1 & B2 & B3).
  { unfold G1. destruct (jget (rootBeacons _) t) as [b|]; [destruct (bool_decide (lc (b_root b) = g.1))|]; split_and!; reflexivity. }
  change (mySubscriptions (put_rootHint ?x G1)) with (mySubscriptions G1). rewrite B3, A5.
  destruct (jhas (mySubscriptions (l_mgr L)) t) eqn:Es.
  - destruct (endSubscriptionTerminated t g _) as [L2 o2] eqn:E2. cbn [fst snd].
    assert (role_at (l_mgr L2) ref = role_at G1 ref ∧ l_attach L2 = jdel (jdel (l_attach L1) t) t ∧ l_trees L2 = l_trees L1 ∧
      axonRoles (l_mgr L2) = axonRoles G1 ∧ mySubscriptions (l_mgr L2) = jdel (mySubscriptions G1) t ∧ ∀ h g', LTerminated h t g' ∉ o2) as (C1 & C2 & C3 & C4 & C5 & C6).
    { unfold endSubscriptionTerminated in E2. injection E2 as <- <-. split_and!; try done; try (by destruct (jhas _ (endKey t g))).
      intros h g'. destruct (jhas _ (endKey t g)); [by intros ?%elem_of_nil|by intros ?%list_elem_of_singleton]. }
    rewrite C1, C2, C3, C4, C5, B1, B2, B3, A1, A2, A3, A4, A5. split_and!; try done.
    + rewrite (jdel_notin (jdel (l_attach L) t) t); [done|]. apply jget_None, jget_jdel_eq.
    + intros h g'. rewrite elem_of_app, A6. split; [|by auto]. intros [?|Hin]; [done|by apply C6 in Hin].
  - cbn [fst snd lput_attach lput_mgr l_mgr l_attach l_trees]. change (role_at (put_rootHint ?x G1) ref) with (role_at G1 ref).
    change (axonRoles (put_rootHint ?x G1)) with (axonRoles G1). change (mySubscriptions (put_rootHint ?x G1)) with (mySubscriptions G1).
    rewrite B1, B2, B3, A1, A2, A3, A4, A5. by split_and!.
Qed.

(** * Termination: lemmas *)

Definition dismantling_at (t : Z) (ref : nat) (d : Z * Z) (L : life) : Prop :=
  ∃ r, live (l_mgr L) t = Some (ref, r) ∧ isRoot r = true ∧ jget (l_dism L) ref = Some d.
Definition gone (t : Z) (ref : nat) (L : life) : Prop := jget (axonRoles (l_mgr L)) t ≠ Some ref.

(** The role is in place, root or not, with its termination installed. *)
Definition installed (t : Z) (ref : nat) (d : Z * Z) (L : life) : Prop :=
  ∃ r, live (l_mgr L) t = Some (ref, r) ∧ jget (l_dism L) ref = Some d.
(** In place, and no root: a root without custody may be demoted while it is dismantled. *)
Definition demoted (t : Z) (ref : nat) (L : life) : bool :=
  match live (l_mgr L) t with Some (ref', r) => Nat.eqb ref' ref && negb (isRoot r) | None => false end.
(** What the rest of the node may do between two ticks: demote and promote the role, change
    whatever else it holds, detach it. [role.dismantling] is written by the sweep alone, and a role
    object that has been detached is not attached again. *)
Definition quiet (t : Z) (ref : nat) (L L' : life) : Prop :=
  (∀ d, installed t ref d L → installed t ref d L' ∨ gone t ref L') ∧ (gone t ref L → gone t ref L').

(** [n] ticks, [m] of which find the role demoted. *)
Inductive ticks (t : Z) (ref : nat) : nat → nat → life → life → Prop :=
| ticks_0 L : ticks t ref 0 0 L L
| ticks_S n m L L1 L' E : quiet t ref L L1 → ticks t ref n m (terminationAt E t L1).1 L' →
    ticks t ref (S n) (if demoted t ref L1 then S m else m) L L'.

Lemma retireRole_gone t ref L : gone t ref (retireRole t ref L).
Proof.
  unfold gone, retireRole. destruct (jhas _ t); cbn [lput_attach lput_mgr l_mgr]; change (axonRoles (put_upstream ?x ?G)) with (axonRoles G);
    cbn [put_axonRoles axonRoles]; by rewrite jget_jdel_eq.
Qed.

Lemma retireRole_axon t ref ref' L : gone t ref' L → gone t ref' (retireRole t ref L).
Proof.
  intros H. unfold gone, retireRole in *. destruct (jhas _ t); cbn [lput_attach lput_mgr l_mgr];
    change (axonRoles (put_upstream ?x ?G)) with (axonRoles G); cbn [put_axonRoles axonRoles]; by rewrite jget_jdel_eq.
Qed.

Lemma retireBackup_axon G t ref : axonRoles (retireBackup G t ref) = axonRoles G.
Proof. unfold retireBackup. destruct (role_at G ref); [|done]. by destruct (_ && _). Qed.

Lemma terminateStep_gone E t ref ref' r d L : gone t ref' L → gone t ref' (terminateStep E t ref r d L).1.
Proof.
  intros H. unfold terminateStep. destruct (_ || _); [|done]. cbn [fst]. apply retireRole_axon.
  unfold gone in *. cbn [lput_mgr l_mgr]. by rewrite retireBackup_axon.
Qed.

Lemma terminationAt_gone E t ref L : gone t ref L → gone t ref (terminationAt E t L).1.
Proof.
  intros H. unfold terminationAt. destruct (live (l_mgr L) t) as [[ref' r]|]; [|done].
  destruct (negb (isRoot r)); [done|]. destruct (jget (l_dism L) ref'); [by apply terminateStep_gone|].
  destruct (_ || _); [done|]. by apply terminateStep_gone.
Qed.

(** One tick of a role that is being dismantled: it goes, or a round of notices is spent. *)
Lemma terminationAt_step E t ref a s L : dismantling_at t ref (a, s) L →
  let X := terminationAt E t L in
  (gone t ref X.1 ∧ X.2 = [] ∧ (targets E L ref = [] ∨ TOPIC_TERMINATE_TRIES ≤ s)) ∨
  (dismantling_at t ref (a, s + 1) X.1 ∧ s < TOPIC_TERMINATE_TRIES ∧
   ∃ r, live (l_mgr L) t = Some (ref, r) ∧ X.2 = (λ h, LTerminated h t (genOf (l_mgr L) r)) <$> targets E L ref).
Proof.
  intros (r & Hl & Hr & Hd). cbn zeta. unfold terminationAt. rewrite Hl, Hr, Hd. cbn [negb].
  unfold terminateStep. destruct (bool_decide (targets E L ref = []) || (TOPIC_TERMINATE_TRIES <=? snd (a, s))) eqn:Eb; cbn [fst snd].
  - left. split_and!; [apply retireRole_gone|done|]. apply orb_true_iff in Eb as [Eb|Eb]; [left|right].
    + by apply bool_decide_eq_true_1 in Eb.
    + zb. cbn in Eb. lia.
  - right. apply orb_false_iff in Eb as [_ Eb]. zb. cbn in Eb. split; [|split; [lia|by exists r]].
    exists r. cbn [lput_dism l_mgr l_dism]. split_and!; [done|done|apply jget_jset_eq].
Qed.

Lemma demoted_spec t ref L : demoted t ref L = true ↔ ∃ r, live (l_mgr L) t = Some (ref, r) ∧ isRoot r = false.
Proof.
  unfold demoted. destruct (live (l_mgr L) t) as [[ref' r]|]; [|split; [done|by intros (r & [=] & _)]].
  rewrite andb_true_iff, Nat.eqb_eq, negb_true_iff. split; [intros [-> ?]; by exists r|by intros (r' & [= -> ->] & ?)].
Qed.

(** The sweep passes over a role that is no root. *)
Lemma demoted_skipped E t ref L : demoted t ref L = true → terminationAt E t L = (L, []).
Proof. intros (r & Hl & Hr)%demoted_spec. unfold terminationAt. by rewrite Hl, Hr. Qed.

Lemma ticks_gone t ref n m L L' : ticks t ref n m L L' → gone t ref L → gone t ref L'.
Proof. intros H. induction H as [|n m L L1 L' E [_ Hq] _ IH]; [done|]. intros Hg. by apply IH, terminationAt_gone, Hq. Qed.

(** * Theorems *)

Inductive gstep (t : Z) : life → life → Prop :=
| gs_replicate E L f : within_lease E (l_mgr L) t → frame_ok f → gstep t L (onReplicate E L t f).1
| gs_other L L' : (∀ s, appointed (l_mgr L) t s → appointed (l_mgr L') t s) → gstep t L L'.

(** C29. A backup does not flip between roots. However many roots send it REPLICATEs, in
    whatever order, delayed or repeated: as long as each arrives within the lease of the last
    it accepted, nothing else ends the appointment, and every epoch, that of its appointment included, is positive and below 2^31
    ([frame_ok], [appointed]; beyond that [epoch | 0] wraps and an older one is accepted,
    [forward_only_wraps]), the generation a backup is appointed to only moves up the order of
    claims (higher epoch, then nearer root), so one it has left is never the appointment again. *)
Theorem backup_does_not_flip (t : Z) (L1 L2 L3 : life) (s : gentag) :
  rtc (gstep t) L1 L2 → rtc (gstep t) L2 L3 → appointed (l_mgr L1) t s →
  (∃ s2, appointed (l_mgr L2) t s2 ∧ (s2 = s ∨ above t (claim_of s2) (claim_of s))) ∧
  (appointed (l_mgr L3) t s → appointed (l_mgr L2) t s).
Proof.
  assert (∀ L L' s, rtc (gstep t) L L' → appointed (l_mgr L) t s →
    ∃ s', appointed (l_mgr L') t s' ∧ (s' = s ∨ above t (claim_of s') (claim_of s))) as Hrun.
  { intros L L' s0 Hr. revert s0. induction Hr as [L|L La L' Hs _ IH]; intros s0 Ha; [exists s0; auto|].
    assert (∃ s', appointed (l_mgr La) t s' ∧ (s' = s0 ∨ above t (claim_of s') (claim_of s0))) as (s1 & Ha1 & H1).
    { destruct Hs as [E L f Hw Hf|L La Ho]; [by apply replicate_mono|exists s0; auto]. }
    destruct (IH s1 Ha1) as (s2 & Ha2 & H2). exists s2. split; [done|].
    destruct H2 as [->|H2]; [done|]. destruct H1 as [->|H1]; [by right|right; by eapply above_trans]. }
  assert (∀ G s s', appointed G t s → appointed G t s' → s = s') as Huniq.
  { intros G s1 s2 (ref & r & Hl & _ & Hs & _) (ref' & r' & Hl' & _ & Hs' & _). congruence. }
  intros H12 H23 Ha. destruct (Hrun _ _ _ H12 Ha) as (s2 & Ha2 & H2). split; [by exists s2|].
  intros Ha3. destruct (Hrun _ _ _ H23 Ha2) as (s3 & Ha3' & H3).
  pose proof (Huniq _ _ _ Ha3 Ha3') as <-. destruct H2 as [->|H2]; [done|]. exfalso.
  destruct H3 as [->|H3]; [by apply above_irrefl in H2|]. by apply (above_irrefl t (claim_of s)), (above_trans _ _ (claim_of s2)).
Qed.

(** A holder that left a generation is not appointed to it again. Once the LEFT record is
    written, for lease, skew and delay of the monotonic clock, and whatever other records are
    written, read, pruned or evicted meanwhile - the table never exceeds [LEFT_RECORD_MAX] -
    a REPLICATE of that generation is refused and changes no role. *)
Theorem left_generation_stays_left (m0 t e up_e : Z) (root : string) (up : option string) (M M1 : jmap Z leftrec)
    (ops : list lop) (E : lenv) (L : life) (f : grant) :
  jwf M → jsize M ≤ LEFT_RECORD_MAX → root ≠ "" →
  leftWrite m0 M t (Some root) e up = (M1, true) →
  (∀ o, o ∈ ops → lop_mono o < m0 + LEFT_MS ∧ ¬ lop_writes o t) →
  l_left L = foldl lstep M1 ops → e_mono E < m0 + LEFT_MS →
  gr_gen f = Some (lc root, up_e) → to_int32 up_e = to_int32 e →
  jsize (l_left L) ≤ LEFT_RECORD_MAX ∧
  l_mgr (onReplicate E L t f).1 = l_mgr L ∧ (onReplicate E L t f).2 ≠ VGrant.
Proof.
  intros Hw Hsz Hroot Hwr Hops HL Hm Hg He.
  assert (jwf M1 ∧ jsize M1 ≤ LEFT_RECORD_MAX) as [Hw1 Hsz1].
  { replace M1 with (lstep M (LWrite m0 t (Some root) e up)) by (cbn [lstep]; by rewrite Hwr). split; [by apply leftstep_wf|by apply lstep_size]. }
  set (n := mk_left (lowered (Some root)) (to_int32 e) (lowered up) (m0 + LEFT_MS)).
  assert (jget M1 t = Some n) as Hn.
  { destruct (leftWrite_cases m0 M t (Some root) e up) as [[Hc _]|[(k & v & _ & _ & _ & Hc)|[Hc _]]]; cbn zeta in Hc;
      rewrite Hwr in Hc; [injection Hc as ->|injection Hc as ->|done]; apply jget_jset_eq. }
  destruct (left_run ops M1 Hw1 Hsz1) as (_ & R2 & R3). rewrite <- HL in *.
  specialize (R3 t n Hn Hops). split; [done|]. unfold onReplicate.
  destruct (match live _ _ with Some _ => _ | None => false end); [done|]. destruct (_ || _); [done|].
  unfold grantRule. rewrite Hg. unfold leftRefuses, leftGet. rewrite R3.
  replace (lr_until n <=? e_mono E) with false by (symmetry; apply Z.leb_gt; cbn; lia).
  replace (lr_rootId n) with (Some (lc root)) by (cbn; by rewrite bool_decide_eq_false_2).
  cbn [fst snd]. rewrite bool_decide_eq_true_2 by done. cbn [lr_epoch n andb].
  replace (to_int32 e =? to_int32 up_e) with true by (symmetry; apply Z.eqb_eq; by rewrite He). done.
Qed.

(** C30. A topic that is being terminated ends. Every tick of a root whose termination is
    installed either sends the notice to each of its seats and replicas, and spends one of
    [TOPIC_TERMINATE_TRIES] rounds, or detaches the role - because nobody is left to tell, or
    the rounds are spent. A tick that finds the role demoted does nothing. So, whatever happens
    between the ticks, demotions and promotions included, the role is gone after one tick more
    than the rounds that are left, the ticks that find it demoted not counted; where none does,
    after that many. *)
Theorem dismantled_role_goes (t : Z) (ref : nat) (a s : Z) (n m : nat) (L L' : life) :
  0 ≤ s ≤ TOPIC_TERMINATE_TRIES → dismantling_at t ref (a, s) L →
  (∀ E, let X := terminationAt E t L in
     (gone t ref X.1 ∧ X.2 = [] ∧ (targets E L ref = [] ∨ s = TOPIC_TERMINATE_TRIES)) ∨
     (dismantling_at t ref (a, s + 1) X.1 ∧ ∃ g, ∀ h, h ∈ targets E L ref → LTerminated h t g ∈ X.2)) ∧
  (∀ E L1, demoted t ref L1 = true → terminationAt E t L1 = (L1, [])) ∧
  (ticks t ref n m L L' → TOPIC_TERMINATE_TRIES - s + 1 + Z.of_nat m ≤ Z.of_nat n → gone t ref L').
Proof.
  intros Hs Hd. split; [|split; [intros E L1; apply demoted_skipped|]].
  { intros E. destruct (terminationAt_step E t ref a s L Hd) as [(H1 & H2 & H3)|(H1 & H2 & r & _ & H3)]; cbn zeta in *; [left|right].
    - split_and!; [done|done|]. destruct H3; [by left|right; lia].
    - split; [done|]. exists (genOf (l_mgr L) r). intros h Hh. rewrite H3. apply list_elem_of_fmap. by exists h. }
  intros Ht. assert (installed t ref (a, s) L) as Hi by (destruct Hd as (r & ? & _ & ?); by exists r). clear Hd.
  revert s Hs Hi. induction Ht as [L|n m L L1 L' E [Hq1 Hq2] Ht IH]; intros s Hs Hi Hn; [lia|].
  destruct (Hq1 _ Hi) as [Hi1|Hg1]; [|by apply (ticks_gone _ _ _ _ _ _ Ht), terminationAt_gone].
  destruct (demoted t ref L1) eqn:Ed.
  { rewrite (demoted_skipped E t ref L1 Ed) in *. apply (IH s); [done|done|lia]. }
  assert (dismantling_at t ref (a, s) L1) as Hd1.
  { destruct Hi1 as (r & Hl & ?). exists r. split_and!; [done| |done]. destruct (isRoot r) eqn:Er; [done|].
    assert (demoted t ref L1 = true) by (apply demoted_spec; eauto). congruence. }
  destruct (terminationAt_step E t ref a s L1 Hd1) as [(Hgone & _)|((r & ? & _ & ?) & Hlt & _)]; [by apply (ticks_gone _ _ _ _ _ _ Ht)|].
  apply (IH (s + 1)); [lia|by exists r|lia].
Qed.

Definition demo_env (now : Z) : lenv := mk_lenv (RootClaim.mk_env now now None None true false) 180000 (λ _, false) false (λ _, []).

(** A dismantling root that is demoted stays: whatever the number of ticks, each passes over
    it, and its termination stays installed, which keeps both reapers from it. *)
Lemma demoted_dismantling_stays t ref d L n : installed t ref d L → demoted t ref L = true →
  ticks t ref n n L L ∧ ¬ gone t ref L.
Proof.
  intros Hi Hd. split.
  - induction n as [|n IH]; [apply ticks_0|]. pose proof (ticks_S t ref n n L L L (demo_env 0)) as H.
    rewrite Hd, (demoted_skipped _ t ref L Hd) in H. refine (H _ IH). split; [|done]. intros d' ?. by left.
  - destruct Hi as (r & [Hl _]%live_Some & _). intros Hg. by apply Hg.
Qed.

(** A notice ends what it names and nothing else. A root ignores it, so does a node none
    of whose obligations is of that generation, and a backup that holds a body the root lacks.
    Otherwise: the appointment ends if and only if it matches; the attachment ends if and only
    if it matches - each seat but this node and the standbys is told, and the seats are
    dropped; a deletion that another duty also delivered stays; and the role goes exactly when it
    is no backup, has no seat and no reader of this node is left. *)
Theorem notice_binds (L : life) (t : Z) (g : gentag) (from : option string) (ref : nat) (r : role) :
  live (l_mgr L) t = Some (ref, r) →
  let X := onTopicTerminated L t (Some g) from in
  let appt := appointmentMatch (Some r) g in
  let attm := attachmentMatch L t (Some r) g from in
  if isRoot r || (negb appt && negb attm) || (appt && negb (Nat.eqb (length (cache r)) 0)) then X = (L, [])
  else ∃ r', role_at (l_mgr X.1) ref = Some r' ∧
    backupOf r' = (if appt then None else backupOf r) ∧ standbyGen r' = (if appt then None else standbyGen r) ∧
    cache r' = cache r ∧
    SubTree.seats (l_trees X.1 ref) = (if attm then [] else SubTree.seats (l_trees L ref)) ∧
    (∀ h g', LTerminated h t g' ∈ X.2 ↔ attm = true ∧ g' = g ∧ h ≠ lc (selfHex (l_mgr L)) ∧
       ∃ s, (h, s) ∈ SubTree.seats (l_trees L ref) ∧ SubTree.st_kind s ≠ SubTree.SStandby) ∧
    (∀ i tb k, (i, tb) ∈ tombstones r → k ∈ t_owners tb →
       (appt = true → owner_key <$> standbyGen r ≠ Some k) → (attm = true → owner_key <$> jget (l_attach L) t ≠ Some k) →
       ∃ tb', (i, tb') ∈ tombstones r' ∧ k ∈ t_owners tb' ∧ t_exp tb' = t_exp tb ∧ t_killTs tb' = t_killTs tb) ∧
    (jget (axonRoles (l_mgr X.1)) t = None ↔
       backupOf r' = None ∧ SubTree.seats (l_trees X.1 ref) = [] ∧ (attm = true ∨ jhas (mySubscriptions (l_mgr L)) t = false)).
Proof.
  intros Hl. cbn zeta. unfold onTopicTerminated. rewrite Hl. cbn [fmap option_fmap option_map fst snd].
  set (appt := appointmentMatch (Some r) g). set (attm := attachmentMatch L t (Some r) g from).
  destruct (isRoot r); [done|]. destruct (negb appt && negb attm) eqn:Ematch; [done|].
  destruct (appt && negb (Nat.eqb (length (cache r)) 0)) eqn:Ebody; [done|]. cbn [orb].
  pose proof (proj1 (live_Some _ _ _ _) Hl) as [Hax Hr].
  (* the appointment *)
  set (r1 := if appt then dropOwned (standbyGen r) (with_standbyGen None (with_backupOf None r)) else r).
  set (L1 := if appt then endAppointment t ref L else L).
  assert (role_at (l_mgr L1) ref = Some r1 ∧ l_attach L1 = l_attach L ∧ l_trees L1 = l_trees L ∧
    axonRoles (l_mgr L1) = axonRoles (l_mgr L) ∧ mySubscriptions (l_mgr L1) = mySubscriptions (l_mgr L) ∧ mcf (l_mgr L1) = mcf (l_mgr L)) as (A1 & A2 & A3 & A4 & A5 & A6).
  { unfold L1, r1. destruct appt eqn:Ea; [|done].
    destruct (endAppointment_at L t g ref r Hl Ea) as (H1 & H2 & H3 & H4 & _ & H5 & H6). by split_and!. }
  (* the attachment *)
  set (r2 := if attm then dropOwned (jget (l_attach L) t) (with_children ∅ (with_subscribers [] r1)) else r1).
  destruct (if attm then endAttachment t (Some ref) g L1 else (L1, [])) as [L2 o] eqn:E2.
  assert (role_at (l_mgr L2) ref = Some r2 ∧ SubTree.seats (l_trees L2 ref) = (if attm then [] else SubTree.seats (l_trees L ref)) ∧
    axonRoles (l_mgr L2) = axonRoles (l_mgr L) ∧
    (jhas (mySubscriptions (l_mgr L2)) t = false ↔ attm = true ∨ jhas (mySubscriptions (l_mgr L)) t = false) ∧
    ∀ h g', LTerminated h t g' ∈ o ↔ attm = true ∧ g' = g ∧ h ≠ lc (selfHex (l_mgr L)) ∧
      ∃ s, (h, s) ∈ SubTree.seats (l_trees L ref) ∧ SubTree.st_kind s ≠ SubTree.SStandby) as (B1 & B2 & B3 & B4 & B5).
  { unfold r2. destruct attm.
    - destruct (endAttachment_at L1 t ref g r1 A1) as (H1 & H2 & H3 & H4 & H5 & H6). cbn zeta in *. rewrite E2 in *. cbn [fst snd] in *.
      rewrite A2 in H1. rewrite A5 in H5. unfold selfHex in *. rewrite A3, A6 in H6. split_and!; [done|done|by rewrite H4| |].
      + rewrite H5. split; [by left|]. intros _. destruct (jhas (mySubscriptions (l_mgr L)) t) eqn:Es; [|done].
        apply jhas_false, jget_jdel_eq.
      + intros h g'. rewrite H6. tauto.
    - injection E2 as <- <-. rewrite A3, A4, A5. split_and!; [done|done|done| |].
      + split; [by right|by intros [?|?]].
      + intros h g'. split; [by intros ?%elem_of_nil|by intros [? _]]. }
  assert (backupOf r2 = (if appt then None else backupOf r) ∧ standbyGen r2 = (if appt then None else standbyGen r) ∧ cache r2 = cache r)
    as (C1 & C2 & C3) by (unfold r2, r1; by destruct appt, attm).
  assert (∀ i tb k, (i, tb) ∈ tombstones r → k ∈ t_owners tb →
       (appt = true → owner_key <$> standbyGen r ≠ Some k) → (attm = true → owner_key <$> jget (l_attach L) t ≠ Some k) →
       ∃ tb', (i, tb') ∈ tombstones r2 ∧ k ∈ t_owners tb' ∧ t_exp tb' = t_exp tb ∧ t_killTs tb' = t_killTs tb) as Ht.
  { intros i tb k Hin Hk Hn1 Hn2.
    assert (∃ tb', (i, tb') ∈ tombstones r1 ∧ k ∈ t_owners tb' ∧ t_exp tb' = t_exp tb ∧ t_killTs tb' = t_killTs tb) as (t1 & D1 & D2 & D3 & D4).
    { unfold r1. destruct appt; [|by exists tb]. apply dropOwned_keeps; [done|done|by apply Hn1]. }
    unfold r2. destruct attm; [|by exists t1].
    destruct (dropOwned_keeps (jget (l_attach L) t) (with_children ∅ (with_subscribers [] r1)) i t1 k D1 D2 (Hn2 eq_refl))
      as (t2 & F1 & F2 & F3 & F4). exists t2. by rewrite F3, F4. }
  rewrite B1. destruct (negb _ && negb _ && _) eqn:Eret; cbn [fst snd].
  - apply andb_true_iff in Eret as [[E3 E4]%andb_true_iff E5]. apply negb_true_iff in E3, E4.
    apply bool_decide_eq_true_1 in E5. apply bool_decide_eq_false_1 in E3.
    exists (with_retired true (with_gen (to_int32 (gen r2) + 1) r2)).
    assert (role_at (l_mgr (retireRole t ref L2)) ref = Some (with_retired true (with_gen (to_int32 (gen r2) + 1) r2)) ∧
      l_trees (retireRole t ref L2) = l_trees L2 ∧ jget (axonRoles (l_mgr (retireRole t ref L2))) t = None) as (R1 & R2 & R3).
    { unfold retireRole. destruct (jhas _ t); cbn [lput_attach lput_mgr l_mgr l_trees];
        change (role_at (put_upstream ?x (put_axonRoles ?y ?G)) ref) with (role_at G ref); rewrite role_at_upd_eq, B1;
        (split_and!; [done|done|]); change (axonRoles (put_upstream ?x ?G)) with (axonRoles G); cbn [put_axonRoles axonRoles]; apply jget_jdel_eq. }
    rewrite R2, R3. split_and!; [done|done|done|done|done|done|done|].
    split; [|done]. intros _. split_and!; [|done|by apply B4].
    cbn. destruct (backupOf r2) eqn:Eb; [|done]. exfalso. apply E3. by eexists.
  - exists r2. split_and!; [done..|]. rewrite B3, Hax. split; [done|]. intros (H1 & H2 & H3). exfalso.
    rewrite bool_decide_eq_false_2 in Eret by (rewrite H1; by intros [? ?]). rewrite (proj2 B4 H3), H2 in Eret. done.
Qed.

(** The forward-only guard reads the appointment's epoch as [epoch | 0]: from 2^31 on it is
    negative, and a grant of an older epoch of the same root is accepted. *)
Lemma forward_only_wraps :
  ∃ E L t f r s g, snd <$> live (l_mgr L) t = Some r ∧ standbyGen r = Some s ∧ gr_gen f = Some g ∧
    s.1 = g.1 ∧ 1 ≤ g.2 < s.2 ∧ (grantRule E L t f).2 = VGrant.
Proof.
  set (r := with_standbyGen (Some ("0a", 2 ^ 31)) (with_backupOf (Some "0a") (makeRole 4 false 0))).
  exists (mk_lenv (RootClaim.mk_env 1000 0 None None true false) 180000 (λ _, false) false (λ _, [])),
    (mk_life (alloc (new_mgr (default_cfg 100)) 4 r) [] [] (λ _, SubTree.demo_tree) [] 0 None), 4,
    (mk_grant "0a" (Some ("0a", 5)) (Some 1000)), r, ("0a", 2 ^ 31), ("0a", 5).
  split_and!; [by vm_compute|done|done|done|cbn; lia|cbn; lia|by vm_compute].
Qed.

(** * Witnesses *)

Definition demo_life (r : role) : life :=
  mk_life (alloc (new_mgr (default_cfg 100)) 4 r) [] [] (λ _, SubTree.demo_two) [] 0 None.
(** A backup of root [0a] at epoch 1; root [0b] claims epoch 2, then [0a] repeats its grant. *)
Definition demo_backup : role := with_standbyGen (Some ("0a", 1)) (with_backupOf (Some "0a") (makeRole 4 false 0)).
Definition demo_b : grant := mk_grant "0b" (genNorm (Some "0b") (Some 2)) (Some 1000).
Definition demo_a : grant := mk_grant "0a" (genNorm (Some "0a") (Some 1)) (Some 1500).
Definition demo_L2 : life := (onReplicate (demo_env 1000) (demo_life demo_backup) 4 demo_b).1.
Definition demo_L3 : life := (onReplicate (demo_env 1500) demo_L2 4 demo_a).1.

Lemma backup_does_not_flip_witness :
  appointed (l_mgr (demo_life demo_backup)) 4 ("0a", 1) ∧ appointed (l_mgr demo_L2) 4 ("0b", 2) ∧
  (onReplicate (demo_env 1500) demo_L2 4 demo_a).2 = VOutranked ∧ ¬ appointed (l_mgr demo_L3) 4 ("0a", 1).
Proof.
  assert (appointed (l_mgr (demo_life demo_backup)) 4 ("0a", 1)) as H1.
  { exists 0%nat, demo_backup. split; [done|]. split; [by eexists|]. split; [done|cbn; lia]. }
  assert (appointed (l_mgr demo_L2) 4 ("0b", 2)) as H2.
  { eexists 0%nat, _. split; [vm_compute; reflexivity|]. split; [by eexists|]. split; [done|cbn; lia]. }
  split; [exact H1|]. split; [exact H2|]. split; [vm_compute; reflexivity|].
  intros H3. destruct (backup_does_not_flip 4 (demo_life demo_backup) demo_L2 demo_L3 ("0a", 1)) as [_ H].
  - eapply rtc_l; [|apply rtc_refl]. apply (gs_replicate 4 (demo_env 1000) (demo_life demo_backup) demo_b).
    + intros ref r Hl. vm_compute in Hl. injection Hl as <- <-. vm_compute. done.
    + split; [by exists (Some "0b"), (Some 2)|]. intros g Hg. vm_compute in Hg. injection Hg as <-. cbn. lia.
  - eapply rtc_l; [|apply rtc_refl]. apply (gs_replicate 4 (demo_env 1500) demo_L2 demo_a).
    + intros ref r Hl. vm_compute in Hl. injection Hl as <- <-. vm_compute. done.
    + split; [by exists (Some "0a"), (Some 1)|]. intros g Hg. vm_compute in Hg. injection Hg as <-. cbn. lia.
  - exact H1.
  - specialize (H H3). destruct H as (ref & r & Hl & _ & Hs & _). destruct H2 as (ref' & r' & Hl' & _ & Hs' & _). congruence.
Defined.

Lemma left_generation_stays_left_witness :
  let M1 := (leftWrite 0 [] 4 (Some "0a") 1 None).1 in
  let L := lput_left (leftPrune 1000 M1) (demo_life (makeRole 4 false 0)) in
  l_mgr (onReplicate (demo_env 1500) L 4 demo_a).1 = l_mgr L ∧ (onReplicate (demo_env 1500) L 4 demo_a).2 ≠ VGrant.
Proof.
  cbn zeta.
  destruct (left_generation_stays_left 0 4 1 1 "0a" None [] (leftWrite 0 [] 4 (Some "0a") 1 None).1 [LPrune 1000] (demo_env 1500)
    (lput_left (leftPrune 1000 (leftWrite 0 [] 4 (Some "0a") 1 None).1) (demo_life (makeRole 4 false 0))) demo_a) as (_ & H1 & H2).
  - apply jwf_nil.
  - vm_compute. discriminate.
  - done.
  - vm_compute. reflexivity.
  - intros o ->%list_elem_of_singleton. split; [vm_compute; reflexivity|]. intros [].
  - reflexivity.
  - vm_compute. reflexivity.
  - vm_compute. reflexivity.
  - reflexivity.
  - split; [exact H1|exact H2].
Defined.

Lemma dismantled_role_goes_witness :
  let L := lput_dism [(0%nat, (0, 2))] (demo_life (makeRole 4 true 0)) in
  dismantling_at 4 0 (0, 2) L ∧ length (terminationAt (demo_env 1000) 4 L).2 = 2%nat ∧
  gone 4 0 (terminationAt (demo_env 1500) 4 (terminationAt (demo_env 1000) 4 L).1).1.
Proof.
  cbn zeta. set (L := lput_dism [(0%nat, (0, 2))] (demo_life (makeRole 4 true 0))).
  assert (dismantling_at 4 0 (0, 2) L) as Hd by (eexists; split_and!; vm_compute; reflexivity).
  split; [exact Hd|]. split; [vm_compute; reflexivity|].
  destruct (dismantled_role_goes 4 0 0 2 2 0 L (terminationAt (demo_env 1500) 4 (terminationAt (demo_env 1000) 4 L).1).1) as (_ & _ & H);
    [vm_compute; split; discriminate|exact Hd|]. apply H; [|vm_compute; discriminate].
  assert (∀ X, quiet 4 0 X X) as Hq by (intros X; split; [intros d Hx; by left|done]).
  apply (ticks_S 4 0 1 0 L L _ (demo_env 1000)); [apply Hq|].
  apply (ticks_S 4 0 0 0 _ (terminationAt (demo_env 1000) 4 L).1 _ (demo_env 1500)); [apply Hq|]. apply ticks_0.
Defined.

Lemma notice_binds_witness :
  let L := lput_attach [(4, ("0a", 1))] (demo_life (makeRole 4 false 0)) in
  live (l_mgr L) 4 = Some (0%nat, makeRole 4 false 0) ∧
  length (onTopicTerminated L 4 (Some ("0a", 1)) None).2 = 2%nat ∧
  jget (axonRoles (l_mgr (onTopicTerminated L 4 (Some ("0a", 1)) None).1)) 4 = None ∧
  onTopicTerminated L 4 (Some ("0b", 1)) None = (L, []).
Proof.
  cbn zeta. set (L := lput_attach [(4, ("0a", 1))] (demo_life (makeRole 4 false 0))).
  assert (live (l_mgr L) 4 = Some (0%nat, makeRole 4 false 0)) as Hl by (vm_compute; reflexivity).
  split; [exact Hl|]. split; [vm_compute; reflexivity|]. split; [vm_compute; reflexivity|].
  exact (notice_binds L 4 ("0b", 1) None 0%nat (makeRole 4 false 0) Hl).
Defined.
