(* ===== verification/Deliver.v ===== *)
(** Deliver.v - the subscriber's side: [_onDeliver] (src/src/pubsub/wireHandlers.js) and the
    renewal it answers, [_sendSubscribe], [_emitSubscribe] and [_unpinIfWaypointDead]
    (src/src/pubsub/AxonaManager.js).

    A node renews toward the parent its last accepted DELIVER named ([upstream]) and records, per
    topic, which generation it is attached to ([attach]): the window of the nonces its own SUBs
    carried, each with its attempt number, and the newest attempt a reply has committed. *)
From stdpp Require Import base gmap sets list strings.
From Stdlib Require Import ZArith Lia.
From S2P Require Import Prelude HexId Durability Role TopicStore RootClaim.
From S2P Require Import Canonical SignedRecords TopicId Stamped SubTree.
From S2P Require Import MergeMachine Publish.
#[local] Open Scope Z_scope.
#[local] Open Scope js_scope.
#[local] Set Default Proof Using "Type".

(** * Data *)

Definition ATTACH_WINDOW : Z := 16.
Definition MAX_VIA : nat := 8.

(** The record of [_attach]; its [nonce] is never read. *)
Record attach := mk_attach {
  at_gen : option gentag; at_from : option string; at_seq : Z; at_attempts : jmap string Z; at_committed : Z
}.
Definition new_attach : attach := mk_attach None None 0 [] 0.

(** The SUB as it goes out; the failure domain of the successor gate is left out. *)
Record sub_frame := mk_sub_frame {
  sf_topic : Z; sf_via : list string; sf_attach : option string; sf_demand : option Z;
  sf_standby : option (option gentag); sf_since : Z; sf_hw : Z; sf_lw : Z; sf_latest : bool; sf_unpinned : bool;
  sf_standing : Z; sf_merge : option completing
}.

(** A node as a subscriber: the shared state, [_attach], [_hostedTopics], the subscriptions with
    [replayLatest], [lastRenewSent] by topic, [sync.lastRenewAt] by role, and what it sent. *)
Record sn := mk_sn {
  s_mgr : mgr; s_attach : jmap Z attach; s_hosted : gset Z; s_latest : gset Z;
  s_renew : jmap Z (option Z); s_sync : jmap nat (option Z); s_sent : list sub_frame; s_steer : list Z
}.
Definition put_mgr (v : mgr) (N : sn) : sn :=
  mk_sn v (s_attach N) (s_hosted N) (s_latest N) (s_renew N) (s_sync N) (s_sent N) (s_steer N).
Definition put_attach (v : jmap Z attach) (N : sn) : sn :=
  mk_sn (s_mgr N) v (s_hosted N) (s_latest N) (s_renew N) (s_sync N) (s_sent N) (s_steer N).
Definition put_latest (v : gset Z) (N : sn) : sn :=
  mk_sn (s_mgr N) (s_attach N) (s_hosted N) v (s_renew N) (s_sync N) (s_sent N) (s_steer N).
Definition put_renew (v : jmap Z (option Z)) (N : sn) : sn :=
  mk_sn (s_mgr N) (s_attach N) (s_hosted N) (s_latest N) v (s_sync N) (s_sent N) (s_steer N).
Definition put_sync (v : jmap nat (option Z)) (N : sn) : sn :=
  mk_sn (s_mgr N) (s_attach N) (s_hosted N) (s_latest N) (s_renew N) v (s_sent N) (s_steer N).
Definition put_sent (v : list sub_frame) (N : sn) : sn :=
  mk_sn (s_mgr N) (s_attach N) (s_hosted N) (s_latest N) (s_renew N) (s_sync N) v (s_steer N).
Definition put_steer (v : list Z) (N : sn) : sn :=
  mk_sn (s_mgr N) (s_attach N) (s_hosted N) (s_latest N) (s_renew N) (s_sync N) (s_sent N) v.
Definition map_mgr (f : mgr → mgr) (N : sn) : sn := put_mgr (f (s_mgr N)) N.

(** The DELIVER frame: [from] as its text where it is not falsy, [gen] as [_genNorm] reads it
    where [_genValid], and the nonce and the delegate where they are texts. *)
Inductive dbody := DMsg (e : entry) | DKill (m : killmsg).
Record dframe := mk_dframe {
  df_topic : Z; df_from : option string; df_gen : option gentag; df_attach : option string;
  df_delegate : option string; df_msgs : list dbody
}.

(** What an arriving frame may do to the attachment. *)
Inductive dverdict := Data | Forward | Commit (k : Z).
#[export] Instance dverdict_eq_dec : EqDecision dverdict.
Proof. solve_decision. Defined.

Definition pin_of (G : mgr) (t : Z) : option string := truthy (jget (upstream G) t ≫= head).

(** [s.interval = this.renewFastMs] where there is a subscription. *)
Definition snap_fast (t : Z) (G : mgr) : mgr :=
  match jget (mySubscriptions G) t with
  | Some s => put_mySubscriptions (jset (mySubscriptions G) t (mk_mysub (ms_since s) (renewFastMs (mcf G)))) G
  | None => G
  end.

(** A new set of custody evidence, bound to [from]. *)
Definition hold_from (from : string) (r : role) : role := with_upstreamHeldFrom (Some from) (with_upstreamHeld ∅ r).
Definition credit (id : string) (r : role) : role := with_upstreamHeld ({[id]} ∪ upstreamHeld r) r.

(** * The attachment decision *)

Definition decide_frame (N : sn) (t : Z) (g : gentag) (fromHex : string) (nonce : option string) : dverdict :=
  let a := jget (s_attach N) t in
  if match live (s_mgr N) t with Some (_, r) => isRoot r | None => false end then Data
  else match truthy nonce with
  | Some n =>
      let k := to_int32 (default 0 (a ≫= λ a, jget (at_attempts a) n)) in
      if (0 <? k) && (to_int32 (default 0 (at_committed <$> a)) <? k) then Commit k else Data
  | None =>
      match a, pin_of (s_mgr N) t with
      | Some a, Some pin =>
          match at_gen a with
          | Some g0 => if bool_decide (fromHex = pin) && bool_decide (g0.1 = g.1) && (to_int32 (g0.2) <=? to_int32 (g.2))
                       then Forward else Data
          | None => Data
          end
      | _, _ => Data
      end
  end.

Definition attach_moved (a : attach) (g : gentag) (from : string) : bool :=
  match at_gen a with
  | Some g0 => negb (bool_decide (g0.1 = g.1)) || negb (to_int32 (g0.2) =? to_int32 (g.2)) || negb (bool_decide (at_from a = Some from))
  | None => true
  end.
Definition commit_attach (v : dverdict) (g : gentag) (from : string) (a : attach) : attach :=
  mk_attach (Some g) (Some from) (at_seq a) (at_attempts a) (match v with Commit k => k | _ => at_committed a end).

(** The parent hands its seat to [child]. *)
Definition handover (N : sn) (t : Z) (v : dverdict) (g : gentag) (child : string) : sn :=
  let a := default new_attach (jget (s_attach N) t) in
  let N := put_attach (jset (s_attach N) t (commit_attach v g child a)) N in
  let N := map_mgr (λ G, snap_fast t (put_upstream (jset (upstream G) t [child]) G)) N in
  map_mgr (λ G, match live G t with
                | Some (ref, r) => if isRoot r then G else upd G ref (hold_from child)
                | None => G
                end) N.

(** The pin follows an accepted frame. *)
Definition repin (N : sn) (t : Z) (from : string) : sn :=
  map_mgr (λ G,
    let G := if bool_decide (jget (upstream G) t ≫= head = Some from) then G else snap_fast t G in
    put_upstream (jset (upstream G) t [from]) G) N.

(** What an accepted frame commits; whether its bodies credit custody. *)
Definition attach_commit (N : sn) (t : Z) (v : dverdict) (g : gentag) (from : string) : sn * bool :=
  match v with
  | Data => (N, false)
  | _ =>
      let a := default new_attach (jget (s_attach N) t) in
      let N := put_attach (jset (s_attach N) t (commit_attach v g from a)) N in
      match live (s_mgr N) t with
      | Some (ref, r) =>
          if isRoot r then (N, false)
          else
            (if attach_moved a g from || negb (bool_decide (upstreamHeldFrom r = Some from))
             then map_mgr (λ G, upd G ref (hold_from from)) N else N, true)
      | None => (N, false)
      end
  end.

(** What the head of the handler leaves for the bodies: the role, and the generation credited. *)
Inductive dhead := Handed | Bodies (ref : option nat) (credited : option gentag).

(** [_onDeliver] up to its loop; [armed] is [topicLifetime]. *)
Definition deliver_head (armed : bool) (N : sn) (f : dframe) : sn * dhead :=
  let t := df_topic f in
  let from := truthy (lc <$> df_from f) in
  let gated := if armed then match from, df_gen f with Some x, Some g => Some (x, g) | _, _ => None end else None in
  let v := match gated with Some (x, g) => decide_frame N t g x (df_attach f) | None => Data end in
  match gated, lc <$> df_delegate f with
  | Some (x, g), Some child =>
      if ids_isHexId child && negb (bool_decide (child = lc (selfHex (s_mgr N)))) then
        ((if bool_decide (v = Data) then N else handover N t v g child), Handed)
      else
        let N := if bool_decide (v = Data) then N else repin N t x in
        let '(N, acc) := attach_commit N t v g x in
        (N, Bodies (fst <$> live (s_mgr N) t) (if acc then Some g else None))
  | Some (x, g), None =>
      let N := if bool_decide (v = Data) then N else repin N t x in
      let '(N, acc) := attach_commit N t v g x in
      (N, Bodies (fst <$> live (s_mgr N) t) (if acc then Some g else None))
  | None, _ =>
      let N := match from with Some x => repin N t x | None => N end in
      (N, Bodies (fst <$> live (s_mgr N) t) None)
  end.

(** * The bodies *)

Section bodies.
Context (JSON_parse : string → option json) (sha256 : bytes → bytes) (resolveRegion : json → option Z) (ks : keyspace).
Context (others : nat → sn → sn) (clock : nat → Z) (verified : nat → killmsg → bool).

Notation signerOf := (Stamped.signerOf JSON_parse).

(** The descriptor of a body that a relay whose kind of topic is undecided reads: [None] where it
    does not parse or names no topic, and then there is no await. *)
Definition body_desc (js : string) : option json :=
  env ← JSON_parse js;
  match field env "topic" with
  | JUndefined | JNullV | JBoolV false => None
  | JNumber z => if z =? 0 then None else Some env
  | JText s => if bool_decide (s = "") then None else Some env
  | _ => Some env
  end.

Definition relay_body (k : nat) (N : sn) (ref : nat) (t : Z) (from : string) (e : entry) : sn :=
  let N := match role_at (s_mgr N) ref with
           | Some r =>
               match latestOnly r, body_desc (e_json e) with
               | None, Some env =>
                   let N := others k N in
                   match bound_topic sha256 resolveRegion ks env with
                   | Ok tid => if tid =? t then map_mgr (λ G, upd G ref (noteMetricRole (as_text (field (field env "topic") "name")))) N else N
                   | Throw _ => N
                   end
               | _, _ => N
               end
           | None => N
           end in
  map_mgr (λ G,
    let G := (cachePush G ref (mk_entry (e_msgId e) (publishTs e) (e_json e) (e_seq e) 0) None).1 in
    let G := upd G ref (raise_seq (e_seq e)) in
    emit G (RelayBody ref (e_msgId e) from)) N.

Definition body_step (k : nat) (N : sn) (ref : option nat) (t : Z) (from : string) (g : option gentag) (b : dbody) : sn * js_result unit :=
  match b with
  | DKill m =>
      let '(N, m) :=
        match km_kill m with
        | Some _ =>
            if tombAuthority (mcf (s_mgr N)) then
              let N := others k N in
              (N, if verified k m then m else mk_killmsg (km_target m) (km_killTs m) (km_signer m) (km_seq m) None)
            else (N, m)
        | None => (N, m)
        end in
      (map_mgr (λ G, (applyKill G (clock k) ref t m None g).1) N, Ok tt)
  | DMsg e =>
      match ref ≫= λ ref, (λ r, (ref, r)) <$> role_at (s_mgr N) ref with
      | None => (map_mgr (λ G, deliverToApp G t (e_msgId e) (publishTs e) (e_seq e)) N, Ok tt)
      | Some (ref, r) =>
          match tombstoned signerOf r (e_msgId e) (e_json e) with
          | (_, Throw x) => (N, Throw x)
          | (r, Ok dead) =>
          let N := map_mgr (λ G, upd G ref (λ _, r)) N in
          if dead then (N, Ok tt)
          else
            let N := match g with
                     | Some _ => if bool_decide (upstreamHeldFrom r = Some from) then map_mgr (λ G, upd G ref (credit (e_msgId e))) N else N
                     | None => N
                     end in
            let N := if bool_decide (e_msgId e ∈ cacheIds r) then N else relay_body k N ref t from e in
            (map_mgr (λ G, deliverToApp G t (e_msgId e) (publishTs e) (e_seq e)) N, Ok tt)
          end
      end
  end.

Fixpoint body_loop (k : nat) (N : sn) (ref : option nat) (t : Z) (from : string) (g : option gentag) (l : list dbody) : sn * js_result unit :=
  match l with
  | [] => (N, Ok tt)
  | b :: l =>
      match body_step k N ref t from g b with
      | (N, Ok _) => body_loop (S k) N ref t from g l
      | (N, Throw x) => (N, Throw x)
      end
  end.

(** [_onDeliver]: a body whose signer has no text, under a tombstone that names one, ends the frame. *)
Definition onDeliver (armed : bool) (N : sn) (f : dframe) : sn * js_result unit :=
  match deliver_head armed N f with
  | (N, Handed) => (N, Ok tt)
  | (N, Bodies ref g) => body_loop 0 N ref (df_topic f) (default "" (lc <$> df_from f)) g (df_msgs f)
  end.
End bodies.

(** * The renewal *)

Definition STANDING_LEASE_MS : Z := 6 * 3600000.
Definition STANDING_LEASE_MAX_MS : Z := 24 * 3600000.

(** The clock, the construction options, what the root hint's cache holds, the seats of a role,
    the random nonce, and whether the adapter can look a topic up. *)
Record nenv := mk_nenv {
  n_now : Z; n_armed : bool; n_echo : bool; n_lease : bool; n_standing : Z → bool;
  n_tree : nat → tree; n_hint : Z → option string; n_lookup : bool; n_nonce : string
}.

(** The value [_rootHint_] answers; the lookup it may start in the background is not its answer. *)
Definition rootHint_ (E : nenv) (G : mgr) (t : Z) : option string :=
  match jget (rootBeacons G) t with
  | Some b => if n_now E <? b_exp b then Some (b_root b) else if n_lookup E then n_hint E t else None
  | None => if n_lookup E then n_hint E t else None
  end.

Definition standingForSub (E : nenv) (r : option role) (t : Z) (subscribed : bool) : Z :=
  if n_lease E then
    let own := if subscribed && n_standing E t then STANDING_LEASE_MS else 0 in
    let held := match r with Some r => if n_now E <? standingUntil r then standingUntil r - n_now E else 0 | None => 0 end in
    Z.min (Z.max own held) STANDING_LEASE_MAX_MS
  else 0.

(** A fresh nonce enters the window under the next attempt number; the oldest ones fall off. *)
Definition note_attempt (nonce : string) (a : attach) : attach :=
  let sq := to_int32 (at_seq a) + 1 in
  let m := jset (at_attempts a) nonce sq in
  mk_attach (at_gen a) (at_from a) sq (drop (length m - Z.to_nat ATTACH_WINDOW) m) (at_committed a).

(** Where [_send] routes: [idBig] of the first waypoint, or of the topic. *)
Definition send_target (via : list string) (t : Z) : js_result Z :=
  match via with v :: _ => asId production (JStr v) | [] => asId production (JStr (idHex t)) end.

(** The seat the SUB declares: a relay its demand, a standby its appointment, a reader nothing. *)
Definition declares (E : nenv) (N : sn) (t : Z) (p : option (nat * role)) : option Z * option (option gentag) :=
  match p with
  | Some (ref, r) =>
      if n_armed E && negb (isRoot r) && negb (jhas (mySubscriptions (s_mgr N)) t) && negb (bool_decide (t ∈ s_hosted N)) then
        match seats (n_tree E ref) with
        | [] => if match backupOf r with Some _ => true | None => bool_decide (t ∈ backupTopics (s_mgr N)) end
                then (None, Some (standbyGen r)) else (None, None)
        | _ => (Some (roleDemand (n_tree E ref)), None)
        end
      else (None, None)
  | None => (None, None)
  end.

Definition sub_of (E : nenv) (N : sn) (t : Z) (via : list string) (nonce : option string) (p : option (nat * role)) : sub_frame :=
  let r := snd <$> p in
  let cp := r ≫= λ r, merge r ≫= completing_ in
  mk_sub_frame t via nonce (declares E N t p).1 (declares E N t p).2
    (if match cp with Some c => cp_sinceAll c | None => false end then 0 else sinceFor (s_mgr N) t)
    (match r with Some r => highWater r | None => 0 end) (match r with Some r => lowWater r | None => 0 end)
    (jhas (mySubscriptions (s_mgr N)) t && bool_decide (t ∈ s_latest N))
    (n_echo E && match jget (upstream (s_mgr N)) t with Some (_ :: _) => false | _ => true end)
    (standingForSub E r t (jhas (mySubscriptions (s_mgr N)) t)) cp.

Definition clear_sinceAll : role → role :=
  map_merge (λ m, match completing_ m with
                  | Some c => with_completing_ (Some (mk_completing (cp_corr c) (cp_winner c) (cp_winnerEpoch c) (cp_loserEpoch c) (cp_hash c) false)) m
                  | None => m
                  end).

(** [_emitSubscribe]: what has changed stays changed where the send throws. *)
Definition emitSubscribe (E : nenv) (N : sn) (t : Z) (via : list string) : sn * js_result unit :=
  let p := live (s_mgr N) t in
  let subscribed := jhas (mySubscriptions (s_mgr N)) t in
  let ask := n_armed E && negb match p with Some (_, r) => isRoot r | None => false end in
  let N := if ask then put_attach (jset (s_attach N) t (note_attempt (n_nonce E) (default new_attach (jget (s_attach N) t)))) N else N in
  let f := sub_of E N t via (if ask then Some (n_nonce E) else None) p in
  match send_target via t with
  | Throw x => (N, Throw x)
  | Ok _ =>
      let N := put_sent (s_sent N ++ [f]) N in
      let N := match p with
               | Some (ref, _) => put_sync (jset (s_sync N) ref (Some (n_now E))) (map_mgr (λ G, upd G ref clear_sinceAll) N)
               | None => N
               end in
      let N := if subscribed then put_renew (jset (s_renew N) t (Some (n_now E))) N else N in
      (if sf_latest f then put_latest (s_latest N ∖ {[t]}) N else N, Ok tt)
  end.

(** The waypoints of a renewal: the pin, else the hint, else none. *)
Definition renewal_via (E : nenv) (G : mgr) (t : Z) : list string :=
  match default [] (jget (upstream G) t) with
  | [] => option_list (truthy (rootHint_ E G t))
  | pinned => pinned
  end.

(** [_sendSubscribe], up to the verdict of the send: one that goes nowhere by name is steered. *)
Definition sendSubscribe (E : nenv) (N : sn) (t : Z) : sn * js_result unit :=
  let via := renewal_via E (s_mgr N) t in
  match emitSubscribe E N t (take MAX_VIA via) with
  | (N, Throw x) => (N, Throw x)
  | (N, Ok _) => (match via with [] => if n_lookup E then put_steer (s_steer N ++ [t]) N else N | _ => N end, Ok tt)
  end.

(** [_unpinIfWaypointDead] once the verdict of the send to [dead] is known. *)
Definition unpinVerdict (N : sn) (t : Z) (dead : string) (v : verdict) : sn :=
  match v with
  | VFailed =>
      if bool_decide (jget (upstream (s_mgr N)) t ≫= head = Some dead) then
        let subscribed := jhas (mySubscriptions (s_mgr N)) t in
        let N := map_mgr (λ G, snap_fast t (put_upstream (jdel (upstream G) t) G)) N in
        let N := if subscribed then put_renew (jset (s_renew N) t None) N else N in
        match live (s_mgr N) t with Some (ref, _) => put_sync (jset (s_sync N) ref None) N | None => N end
      else N
  | _ => N
  end.

(** * Properties *)

(** ** One frame *)

(** What is recorded of a topic's attachment. *)
Definition selected (N : sn) (t : Z) : option gentag * option string * Z :=
  match jget (s_attach N) t with Some a => (at_gen a, at_from a, at_committed a) | None => (None, None, 0) end.

Lemma pin_upd G ref f t : upstream (upd G ref f) = upstream G ∧ pin_of (upd G ref f) t = pin_of G t.
Proof. done. Qed.
Lemma snap_fast_frame t G : upstream (snap_fast t G) = upstream G ∧ axonRoles (snap_fast t G) = axonRoles G ∧ heap (snap_fast t G) = heap G ∧ mcf (snap_fast t G) = mcf G.
Proof. unfold snap_fast. by destruct (jget _ t). Qed.

Lemma attach_commit_frame N t v g from :
  let N' := (attach_commit N t v g from).1 in
  upstream (s_mgr N') = upstream (s_mgr N) ∧
  s_attach N' = if bool_decide (v = Data) then s_attach N
                else jset (s_attach N) t (commit_attach v g from (default new_attach (jget (s_attach N) t))).
Proof.
  unfold attach_commit. destruct v; [done|..]; cbn zeta;
    (destruct (live _ t) as [[ref r]|]; [|done]; destruct (isRoot r); [done|]; by destruct (_ || _)).
Qed.

Lemma repin_frame N t from : s_attach (repin N t from) = s_attach N ∧
  upstream (s_mgr (repin N t from)) = jset (upstream (s_mgr N)) t [from].
Proof.
  split; [done|]. unfold repin, map_mgr. cbn. destruct (bool_decide _); [done|]. by destruct (snap_fast_frame t (s_mgr N)) as [-> _].
Qed.

Lemma handover_frame N t v g child : 
  s_attach (handover N t v g child) = jset (s_attach N) t (commit_attach v g child (default new_attach (jget (s_attach N) t))) ∧
  upstream (s_mgr (handover N t v g child)) = jset (upstream (s_mgr N)) t [child].
Proof.
  unfold handover, map_mgr. cbn. set (G := snap_fast t _).
  assert (upstream G = jset (upstream (s_mgr N)) t [child]) as HG by (unfold G; by destruct (snap_fast_frame t (put_upstream (jset (upstream (s_mgr N)) t [child]) (s_mgr N))) as [-> _]).
  split; [done|]. destruct (live G t) as [[ref r]|]; [|done]. by destruct (isRoot r).
Qed.

(** The frame, as the decision reads it: its sender and generation where both are given. *)
Definition named (f : dframe) : option (string * gentag) :=
  match truthy (lc <$> df_from f), df_gen f with Some x, Some g => Some (x, g) | _, _ => None end.
Definition child_of (N : sn) (f : dframe) : option string :=
  match lc <$> df_delegate f with
  | Some c => if ids_isHexId c && negb (bool_decide (c = lc (selfHex (s_mgr N)))) then Some c else None
  | None => None
  end.
Definition parent_of (N : sn) (f : dframe) (x : string) : string := default x (child_of N f).

(** What the head of the handler does to the attachment and the pin of every topic. *)
Lemma deliver_head_spec armed N f :
  let N' := (deliver_head armed N f).1 in
  let t := df_topic f in
  (∀ t', t' ≠ t → jget (s_attach N') t' = jget (s_attach N) t' ∧ jget (upstream (s_mgr N')) t' = jget (upstream (s_mgr N)) t') ∧
  match (if armed then named f else None) with
  | Some (x, g) =>
      let v := decide_frame N t g x (df_attach f) in
      if bool_decide (v = Data) then s_attach N' = s_attach N ∧ upstream (s_mgr N') = upstream (s_mgr N)
      else jget (s_attach N') t = Some (commit_attach v g (parent_of N f x) (default new_attach (jget (s_attach N) t))) ∧
           jget (upstream (s_mgr N')) t = Some [parent_of N f x]
  | None => s_attach N' = s_attach N ∧
      jget (upstream (s_mgr N')) t = match truthy (lc <$> df_from f) with Some x => Some [x] | None => jget (upstream (s_mgr N)) t end
  end.
Proof.
  intros N' t. unfold N', deliver_head, named, parent_of, child_of. fold t.
  assert (∀ (m : jmap Z attach) (u : jmap Z (list string)) a p, (∀ t', t' ≠ t → jget (jset m t a) t' = jget m t' ∧ jget (jset u t p) t' = jget u t')) as Hs.
  { intros. by rewrite !jget_jset_ne. }
  destruct (truthy (lc <$> df_from f)) as [x|] eqn:Ex.
  2: { destruct armed; split; try done; (by destruct (lc <$> df_delegate f)). }
  destruct armed, (df_gen f) as [g|].
  2-4: cbn [fst]; destruct (repin_frame N t x) as [-> ->]; (split; [intros t' Ht; by rewrite jget_jset_ne|by rewrite jget_jset_eq]).
  set (v := decide_frame N t g x (df_attach f)).
  set (D := if bool_decide (v = Data) then N else repin N t x).
  assert (s_attach D = s_attach N ∧ upstream (s_mgr D) = if bool_decide (v = Data) then upstream (s_mgr N) else jset (upstream (s_mgr N)) t [x]) as [HD1 HD2].
  { unfold D. destruct (bool_decide _); [done|]. apply repin_frame. }
  pose proof (attach_commit_frame D t v g x) as [HC1 HC2]. rewrite HD1 in HC2. rewrite HD2 in HC1.
  assert (let X := attach_commit D t v g x in
    (∀ t', t' ≠ t → jget (s_attach X.1) t' = jget (s_attach N) t' ∧ jget (upstream (s_mgr X.1)) t' = jget (upstream (s_mgr N)) t') ∧
    (if bool_decide (v = Data) then s_attach X.1 = s_attach N ∧ upstream (s_mgr X.1) = upstream (s_mgr N)
     else jget (s_attach X.1) t = Some (commit_attach v g x (default new_attach (jget (s_attach N) t))) ∧ jget (upstream (s_mgr X.1)) t = Some [x])) as HX.
  { cbv zeta. rewrite HC1, HC2. destruct (bool_decide (v = Data)); [done|]. split; [apply Hs|]. by rewrite !jget_jset_eq. }
  destruct (lc <$> df_delegate f) as [c|]; [destruct (ids_isHexId c && _)|].
  - cbn [fst]. destruct (bool_decide (v = Data)) eqn:E; [done|]. destruct (handover_frame N t v g c) as [-> ->]. split; [apply Hs|].
    by rewrite !jget_jset_eq.
  - destruct (attach_commit D t v g x) as [N1 acc]. exact HX.
  - destruct (attach_commit D t v g x) as [N1 acc]. exact HX.
Qed.

(** C18. The attachment moves only on evidence.  Where a DELIVER changes what a topic is attached to,
    it is that frame's own topic, this node is not its root, and the frame either answers an attempt
    of this node's own that is still in the window and newer than every one committed before - which
    is then the committed one - or it comes from the parent the node renews toward, names the root
    the node is attached to, and an epoch that is not lower.  The new parent is the frame's sender,
    or the child it hands the seat to; the attempts themselves do not change. *)
Theorem attachment_moves_on_evidence armed N f t :
  let N' := (deliver_head armed N f).1 in
  let a := default new_attach (jget (s_attach N) t) in
  jget (s_attach N') t ≠ jget (s_attach N) t →
  armed = true ∧ t = df_topic f ∧ (∀ ref r, live (s_mgr N) t = Some (ref, r) → isRoot r = false) ∧
  ∃ x g a', named f = Some (x, g) ∧ jget (s_attach N') t = Some a' ∧ at_gen a' = Some g ∧
    at_from a' = Some (parent_of N f x) ∧ jget (upstream (s_mgr N')) t = Some [parent_of N f x] ∧
    at_seq a' = at_seq a ∧ at_attempts a' = at_attempts a ∧
    ((∃ n k, truthy (df_attach f) = Some n ∧ jget (at_attempts a) n = Some k ∧
        to_int32 (at_committed a) < to_int32 k ∧ at_committed a' = to_int32 k) ∨
     (truthy (df_attach f) = None ∧ pin_of (s_mgr N) t = Some x ∧ at_committed a' = at_committed a ∧
        ∃ g0, at_gen a = Some g0 ∧ g0.1 = g.1 ∧ to_int32 g0.2 ≤ to_int32 g.2)).
Proof.
  intros N' a Hne. destruct (deliver_head_spec armed N f) as [Hother Ht]. fold N' in Hother, Ht.
  destruct (decide (t = df_topic f)) as [->|Hd]; [|by destruct (Hother t Hd)].
  destruct armed; [|destruct Ht as [E _]; by rewrite E in Hne]. destruct (named f) as [[x g]|]; [|destruct Ht as [E _]; by rewrite E in Hne]. cbv zeta in Ht.
  destruct (bool_decide (decide_frame _ _ _ _ _ = Data)) eqn:Ed; [destruct Ht as [E _]; by rewrite E in Hne|]. apply bool_decide_eq_false in Ed.
  destruct Ht as [Ha Hu]. split; [done|]. split; [done|].
  revert Ed Ha. unfold decide_frame, a.
  destruct (live _ _) as [[ref r]|] eqn:El; [destruct (isRoot r) eqn:Er; [done|]|]; intros Ed Ha;
    (split; [intros ? ? Hx; first [injection Hx as <- <-; exact Er|discriminate Hx]|]; eexists x, g, _; split_and!; [done|exact Ha|done..|]).
  all: destruct (truthy (df_attach f)) as [n|]; [left|right].
  all: destruct (jget (s_attach N) (df_topic f)) as [a0|] eqn:Ea; cbn [mbind option_bind] in *; try done.
  1,3: destruct (jget (at_attempts a0) n) as [k|] eqn:Ek; [|by destruct Ed];
    change (default 0 (Some k)) with k in *; change (default 0 (at_committed <$> Some a0)) with (at_committed a0) in *;
    destruct ((0 <? to_int32 k) && (to_int32 (at_committed a0) <? to_int32 k)) eqn:E; [|done];
    apply andb_true_iff in E as [E1 E2]; zb; exists n, k; done.
  all: destruct (pin_of _ _) as [pin|]; [|done]; destruct (at_gen a0) as [g0|] eqn:Eg; [|done];
    destruct (bool_decide (x = pin) && _ && _) eqn:E; [|done]; apply andb_true_iff in E as [[E1 E2]%andb_true_iff E3]; zb;
    apply bool_decide_eq_true in E1 as ->; apply bool_decide_eq_true in E2; split_and!; [done..|]; exists g0; done.
Qed.

(** ** The window over a run *)

(** The nonce a frame commits. *)
Definition commits (armed : bool) (N : sn) (f : dframe) : option string :=
  match (if armed then named f else None) with
  | Some (x, g) => match decide_frame N (df_topic f) g x (df_attach f) with Commit _ => truthy (df_attach f) | _ => None end
  | None => None
  end.

Inductive dstep := DFrame (f : dframe) | DEmit (E : nenv) (t : Z) (via : list string) | DOther (h : sn → sn).
Definition dstep_node (armed : bool) (N : sn) (o : dstep) : sn * list string :=
  match o with
  | DFrame f => ((deliver_head armed N f).1, option_list (commits armed N f))
  | DEmit E t via => ((emitSubscribe E N t via).1, [])
  | DOther h => (h N, [])
  end.
Definition drun (armed : bool) (N : sn) (l : list dstep) : sn * list string :=
  foldl (λ s o, let X := dstep_node armed s.1 o in (X.1, s.2 ++ X.2)) (N, []) l.
Definition minted (l : list dstep) : list string := omap (λ o, match o with DEmit E _ _ => Some (n_nonce E) | _ => None end) l.

(** A step of the rest of the node: what it does not keep of an attachment it forgets. *)
Definition forgets (h : sn → sn) : Prop :=
  ∀ N t, jget (s_attach (h N)) t = jget (s_attach N) t ∨ jget (s_attach (h N)) t = None.

Definition attempt_of (N : sn) (t : Z) (n : string) : option Z := jget (s_attach N) t ≫= λ a, jget (at_attempts a) n.

(** [minted_]: every nonce a SUB carried; [done_]: those a reply committed. *)
Record window_ok (N : sn) (minted_ done_ : list string) : Prop := {
  wo_minted : ∀ t n k, attempt_of N t n = Some k → n ∈ minted_;
  wo_one : ∀ t t' n k k', attempt_of N t n = Some k → attempt_of N t' n = Some k' → t = t';
  wo_done : ∀ n, n ∈ done_ → n ∈ minted_;
  wo_spent : ∀ t a n k, n ∈ done_ → jget (s_attach N) t = Some a → jget (at_attempts a) n = Some k →
    to_int32 k ≤ to_int32 (at_committed a);
  wo_nodup : NoDup done_;
  wo_wf : ∀ t a, jget (s_attach N) t = Some a → jwf (at_attempts a)
}.

Lemma attempt_of_Some N t n k : attempt_of N t n = Some k ↔ ∃ a, jget (s_attach N) t = Some a ∧ jget (at_attempts a) n = Some k.
Proof. unfold attempt_of. destruct (jget _ t); simpl; naive_solver. Qed.

(** Attachments that keep their windows or lose them. *)
Lemma window_ok_sub N N' M C :
  (∀ t a', jget (s_attach N') t = Some a' → ∃ a, jget (s_attach N) t = Some a ∧ at_attempts a' = at_attempts a ∧
     (at_committed a' = at_committed a)) →
  window_ok N M C → window_ok N' M C.
Proof.
  intros H [H1 H2 H3 H4 H5 H6]. assert (∀ t n k, attempt_of N' t n = Some k → attempt_of N t n = Some k) as Ha.
  { intros t n k (a' & Ha & Hk)%attempt_of_Some. destruct (H t a' Ha) as (a & ? & E & _). apply attempt_of_Some. exists a. by rewrite <-E. }
  split; try done; [naive_solver|naive_solver|..].
  - intros t a' n k Hn Ha' Hk. destruct (H t a' Ha') as (a & Hg & E & ->). rewrite E in Hk. eauto.
  - intros t a' Ha'. destruct (H t a' Ha') as (a & Hg & -> & _). eauto.
Qed.

Lemma jget_drop {A} (m : jmap string A) n k x : jwf m → jget (drop n m) k = Some x → jget m k = Some x.
Proof. intros Hw Hg%jget_Some_elem. apply elem_jget; [done|]. eapply elem_of_sublist; [exact Hg|apply sublist_drop]. Qed.
Lemma jwf_drop {A} (m : jmap string A) n : jwf m → jwf (drop n m).
Proof. unfold jwf. intros Hw. eapply sublist_NoDup; [exact Hw|]. apply fmap_sublist, sublist_drop. Qed.

Lemma emit_attach E N t via :
  s_attach (emitSubscribe E N t via).1 =
    if n_armed E && negb match live (s_mgr N) t with Some (_, r) => isRoot r | None => false end
    then jset (s_attach N) t (note_attempt (n_nonce E) (default new_attach (jget (s_attach N) t))) else s_attach N.
Proof.
  unfold emitSubscribe. destruct (_ && negb _); cbn zeta iota; destruct (send_target via t); try done;
    destruct (live _ _) as [[ref r]|]; destruct (jhas _ t); cbn; destruct (_ && _); done.
Qed.

Lemma note_attempt_get nonce a n k : jwf (at_attempts a) →
  jget (at_attempts (note_attempt nonce a)) n = Some k → n = nonce ∨ jget (at_attempts a) n = Some k.
Proof.
  intros Hw H. cbn in H. apply jget_drop in H; [|by apply jwf_jset].
  destruct (decide (n = nonce)) as [->|Hn]; [by left|right]. by rewrite jget_jset_ne in H.
Qed.

Lemma window_emit E N t via M C : n_nonce E ∉ M → window_ok N M C →
  window_ok (emitSubscribe E N t via).1 (n_nonce E :: M) C.
Proof.
  intros Hf [H1 H2 H3 H4 H5 H6]. pose proof (emit_attach E N t via) as Ea. set (N' := (emitSubscribe E N t via).1) in *. clearbody N'.
  destruct (n_armed E && _).
  2: { split; unfold attempt_of in *; rewrite ?Ea; try done; intros; apply elem_of_cons; right; eauto. }
  set (a0 := default new_attach (jget (s_attach N) t)) in *.
  assert (jwf (at_attempts a0)) as Hw0.
  { unfold a0. destruct (jget (s_attach N) t) eqn:Eg; [eauto|apply jwf_nil]. }
  assert (∀ t' n k, attempt_of N' t' n = Some k → (n = n_nonce E ∧ t' = t) ∨ (n ≠ n_nonce E ∧ attempt_of N t' n = Some k)) as Ha.
  { intros t' n k (a & Hg & Hk)%attempt_of_Some. rewrite Ea in Hg. destruct (decide (t' = t)) as [->|Ht].
    - rewrite jget_jset_eq in Hg. injection Hg as <-. destruct (note_attempt_get _ a0 n k Hw0 Hk) as [->|H]; [by left|].
      destruct (decide (n = n_nonce E)); [by left|]. right. split; [done|]. unfold a0 in H.
      apply attempt_of_Some. destruct (jget (s_attach N) t) as [a1|]; [by exists a1|done].
    - rewrite jget_jset_ne in Hg by done. assert (attempt_of N t' n = Some k) as Hat by (apply attempt_of_Some; eauto).
      right. split; [|done]. intros ->. apply Hf. eauto. }
  split; try done.
  - intros t' n k [[-> _]|[_ H]]%Ha; [left|right; eauto].
  - intros t1 t2 n k k' [[-> ->]|[Hn X1]]%Ha [[Hn' ->]|[Hn' X2]]%Ha; [done|done|done|eauto].
  - intros n Hn. right. auto.
  - intros t' a n k Hn Hg Hk. rewrite Ea in Hg. destruct (decide (t' = t)) as [->|Ht].
    + rewrite jget_jset_eq in Hg. injection Hg as <-. change (at_committed (note_attempt (n_nonce E) a0)) with (at_committed a0).
      destruct (note_attempt_get _ a0 n k Hw0 Hk) as [->|H]; [by destruct Hf; auto|]. unfold a0 in *.
      destruct (jget (s_attach N) t) as [a1|] eqn:Eg; [by eapply (H4 t)|done].
    + rewrite jget_jset_ne in Hg by done. eauto.
  - intros t' a Hg. rewrite Ea in Hg. destruct (decide (t' = t)) as [->|Ht].
    + rewrite jget_jset_eq in Hg. injection Hg as <-. cbn. by apply jwf_drop, jwf_jset.
    + rewrite jget_jset_ne in Hg by done. eauto.
Qed.

Lemma to_int32_idem z : to_int32 (to_int32 z) = to_int32 z.
Proof.
  apply to_int32_id. unfold to_int32. pose proof (Z.mod_pos_bound (z + 2 ^ 31) (2 ^ 32) ltac:(lia)). lia.
Qed.

Lemma window_frame armed N f M C : window_ok N M C → window_ok (deliver_head armed N f).1 M (C ++ option_list (commits armed N f)).
Proof.
  intros HW. destruct (deliver_head_spec armed N f) as [Ho Ht]. set (N' := (deliver_head armed N f).1) in *. clearbody N'.
  unfold commits. destruct (if armed then named f else None) as [[x g]|].
  2: { rewrite app_nil_r. destruct Ht as [E _]. eapply window_ok_sub; [|exact HW]. intros t a'. rewrite E. eauto. }
  cbv zeta in Ht. destruct (decide_frame N (df_topic f) g x (df_attach f)) as [| |k] eqn:Ed.
  - rewrite app_nil_r. destruct Ht as [E _]. eapply window_ok_sub; [|exact HW]. intros t a'. rewrite E. eauto.
  - rewrite app_nil_r. destruct Ht as [E _]. eapply window_ok_sub; [|exact HW]. intros t a' Hg.
    destruct (decide (t = df_topic f)) as [->|Hn]; [|destruct (Ho t Hn) as [E' _]; rewrite E' in Hg; eauto].
    rewrite E in Hg. injection Hg as <-. unfold decide_frame in Ed.
    destruct (live _ _) as [[? r]|]; [destruct (isRoot r); [done|]|]; (destruct (truthy _) as [m|]; [by destruct (_ && _)|]);
      (destruct (jget (s_attach N) (df_topic f)) as [a|]; [|done]); by exists a.
  - destruct Ht as [E _].
    assert (∃ n a kk, truthy (df_attach f) = Some n ∧ jget (s_attach N) (df_topic f) = Some a ∧ jget (at_attempts a) n = Some kk ∧
      k = to_int32 kk ∧ to_int32 (at_committed a) < k) as (n & a & kk & -> & Ha & Hk & -> & Hlt).
    { revert Ed. unfold decide_frame. destruct (live _ _) as [[? r]|]; [destruct (isRoot r); [done|]|];
        (destruct (truthy _) as [m|]; [|repeat case_match; done]);
        (destruct (jget (s_attach N) (df_topic f)) as [a|]; cbn [mbind option_bind]; [|done]);
        (destruct (jget (at_attempts a) m) as [kk|] eqn:Ek; [|done]);
        change (default 0 (Some kk)) with kk; change (default 0 (at_committed <$> Some a)) with (at_committed a);
        (destruct ((0 <? to_int32 kk) && (to_int32 (at_committed a) <? to_int32 kk)) eqn:Eb; [|done]);
        intros [= <-]; apply andb_true_iff in Eb as [_ Eb]; zb; exists m, a, kk; done. }
    rewrite Ha in E. change (default new_attach (Some a)) with a in E.
    destruct HW as [H1 H2 H3 H4 H5 H6].
    assert (∀ t a', jget (s_attach N') t = Some a' → ∃ a0, jget (s_attach N) t = Some a0 ∧ at_attempts a' = at_attempts a0 ∧
       at_committed a' = (if bool_decide (t = df_topic f) then to_int32 kk else at_committed a0)) as Hs.
    { intros t a' Hg. destruct (decide (t = df_topic f)) as [->|Hn].
      - rewrite bool_decide_true by done. rewrite E in Hg. injection Hg as <-. by exists a.
      - rewrite bool_decide_false by done. destruct (Ho t Hn) as [E' _]. rewrite E' in Hg. eauto. }
    assert (∀ t m j, attempt_of N' t m = Some j → attempt_of N t m = Some j) as Hat.
    { intros t m j (a' & Hg & Hj)%attempt_of_Some. destruct (Hs t a' Hg) as (a0 & ? & Eq & _). apply attempt_of_Some. exists a0. by rewrite <-Eq. }
    assert (attempt_of N (df_topic f) n = Some kk) as Hn by (apply attempt_of_Some; eauto).
    assert (n ∉ C) as HnC. { intros Hin. specialize (H4 _ _ _ _ Hin Ha Hk). lia. }
    assert (to_int32 (to_int32 kk) = to_int32 kk) as Ei by apply to_int32_idem.
    split; try (by eauto).
    + intros m [Hm|Hm%list_elem_of_singleton]%elem_of_app; [|subst m]; eauto.
    + intros t a' m j Hm Hg Hj. destruct (Hs t a' Hg) as (a0 & Hg0 & Eq & ->). rewrite Eq in Hj.
      apply elem_of_app in Hm as [Hm|Hm%list_elem_of_singleton]; [|subst m].
      * specialize (H4 _ _ _ _ Hm Hg0 Hj). destruct (bool_decide_reflect (t = df_topic f)) as [->|]; [|done].
        rewrite Ha in Hg0. injection Hg0 as <-. lia.
      * assert (t = df_topic f) as -> by (eapply H2; [apply attempt_of_Some; eauto|exact Hn]).
        rewrite bool_decide_true by done. rewrite Ha in Hg0. injection Hg0 as <-. rewrite Hk in Hj. injection Hj as <-. lia.
    + apply NoDup_app. split_and!; [done|intros m Hm Hm'%list_elem_of_singleton; by subst m|apply NoDup_singleton].
    + intros t a' Hg. destruct (Hs t a' Hg) as (a0 & Hg0 & -> & _). eauto.
Qed.

Lemma drun_window armed l N M C out :
  (∀ h, DOther h ∈ l → forgets h) → NoDup (minted l) → (∀ n, n ∈ minted l → n ∉ M) → window_ok N M C →
  let R := foldl (λ s o, let X := dstep_node armed s.1 o in (X.1, s.2 ++ X.2)) (N, out) l in
  ∃ C', R.2 = out ++ C' ∧ window_ok R.1 (reverse (minted l) ++ M) (C ++ C').
Proof.
  revert N M C out. induction l as [|o l IH]; intros N M C out Hh Hn Hm HW; cbn [foldl].
  - exists []. by rewrite !app_nil_r.
  - assert (∀ h, DOther h ∈ l → forgets h) as Hh' by (intros h Hin; apply Hh; by right).
    destruct o as [f|E t via|h]; cbn [dstep_node fst snd].
    + change (minted (DFrame f :: l)) with (minted l) in *.
      destruct (IH _ M (C ++ option_list (commits armed N f)) (out ++ option_list (commits armed N f)) Hh' Hn Hm (window_frame armed N f M C HW))
        as (C' & E1 & E2). exists (option_list (commits armed N f) ++ C'). by rewrite !app_assoc.
    + change (minted (DEmit E t via :: l)) with (n_nonce E :: minted l) in *. apply NoDup_cons in Hn as [Hn1 Hn2].
      rewrite app_nil_r, reverse_cons, <-app_assoc. apply (IH _ (n_nonce E :: M) C out Hh' Hn2).
      * intros n Hin [->|Hin']%elem_of_cons; [done|]. eapply Hm; [|exact Hin']. by right.
      * apply window_emit; [|done]. apply Hm. by left.
    + change (minted (DOther h :: l)) with (minted l) in *. rewrite app_nil_r. apply (IH _ M C out Hh' Hn Hm).
      eapply window_ok_sub; [|exact HW]. intros t a' Hg. destruct (Hh h ltac:(by left) N t) as [E|E]; rewrite E in Hg; [eauto|done].
Qed.

(** C24. A reply selects a parent at most once.  Over any sequence of DELIVERs, of SUBs this node
    sends and of other steps that keep a topic's attachment or forget it, where the nonces drawn are
    distinct, no nonce is committed twice, and none that this node did not send: a replayed or a
    delayed copy of an old reply never moves the attachment again, over any number of topics and of
    attachments begun anew. *)
Theorem replies_commit_once armed N l :
  s_attach N = [] → NoDup (minted l) → (∀ h, DOther h ∈ l → forgets h) →
  NoDup (drun armed N l).2 ∧ ∀ n, n ∈ (drun armed N l).2 → n ∈ minted l.
Proof.
  intros Hs Hn Hh. assert (window_ok N [] []) as HW.
  { split; unfold attempt_of; rewrite ?Hs; try done;
      first [by intros ? ?%not_elem_of_nil|by intros ? ? ? ? ?%not_elem_of_nil|apply NoDup_nil_2]. }
  destruct (drun_window armed l N [] [] [] Hh Hn ltac:(by intros ? ? ?%not_elem_of_nil) HW) as (C' & E & [_ _ H3 _ H5 _]).
  change ((drun armed N l).2 = C') in E. rewrite E. split; [exact H5|]. intros n Hin. apply elem_of_reverse. specialize (H3 n Hin). by rewrite app_nil_r in H3.
Qed.

(** ** Custody evidence *)

(** What each role counts as held by its upstream was sent by the upstream it counts for. *)
Definition held_ok (L : string → string → Prop) (G : mgr) : Prop := ∀ ref r, role_at G ref = Some r →
  ∀ id, id ∈ upstreamHeld r → ∃ x, upstreamHeldFrom r = Some x ∧ L x id.
Definition same_held (r r' : role) : Prop := upstreamHeld r' = upstreamHeld r ∧ upstreamHeldFrom r' = upstreamHeldFrom r.

Lemma held_upd L G ref f : (∀ r, same_held r (f r)) → held_ok L G → held_ok L (upd G ref f).
Proof.
  intros Hf HG ref' r' Hr id. rewrite role_at_upd in Hr. destruct (decide (ref = ref')) as [->|]; [|by eapply HG].
  destruct (role_at G ref') as [r|] eqn:Er; [|done]. injection Hr as <-. destruct (Hf r) as [-> ->]. by eapply HG.
Qed.
Lemma held_heap L G G' : heap G' = heap G → held_ok L G → held_ok L G'.
Proof. intros E HG ref r. unfold role_at. rewrite E. apply HG. Qed.
Lemma deliver_heap G t id ts sq : heap (deliverToApp G t id ts sq) = heap G.
Proof. unfold deliverToApp, raise_seen. repeat case_match; done. Qed.
Lemma held_hold L G ref x : held_ok L G → held_ok L (upd G ref (hold_from x)).
Proof.
  intros HG ref' r' Hr id Hid. rewrite role_at_upd in Hr. destruct (decide (ref = ref')) as [->|]; [|by eapply HG].
  destruct (role_at G ref') as [r|] eqn:Er; [|done]. injection Hr as <-. by apply not_elem_of_empty in Hid.
Qed.

Lemma held_cachePush L G ref e c : held_ok L G → held_ok L (cachePush G ref e c).1.
Proof.
  intros HG. unfold cachePush. destruct (negb _); [done|]. destruct (role_at G ref) as [r|] eqn:Er; [|done].
  destruct (superseded e r); [done|]. pose proof (sh_same _ _ (proj1 (push_role_shrinks (mcf G) e r))) as Hs.
  destruct (push_role (mcf G) e r) as [r' ev]. cbn [fst] in *. eapply held_heap; [apply observe_heap|].
  intros ref' r'' Hr id. rewrite role_at_upd in Hr. destruct (decide (ref = ref')) as [->|]; [|by eapply HG].
  rewrite Er in Hr. injection Hr as <-. unfold same_but_cache in Hs. rewrite Hs. cbn. by eapply HG.
Qed.

Lemma held_applyKill L G now ref t m c g : held_ok L G → held_ok L (applyKill G now ref t m c g).1.
Proof.
  intros HG. destruct ref as [ref|].
  2: { cbn. eapply held_heap; [|exact HG]. unfold deliverKillToApp, raise_seen. repeat case_match; done. }
  destruct (role_at G ref) as [r|] eqn:Er.
  2: { unfold applyKill. cbn [mbind option_bind]. rewrite Er. cbn. eapply held_heap; [|exact HG].
       unfold deliverKillToApp, raise_seen. repeat case_match; done. }
  destruct (cutHolds G ref c) eqn:Ec.
  2: { unfold applyKill. cbn [mbind option_bind]. rewrite Er. cbn [fmap option_fmap option_map]. by rewrite Ec. }
  destruct (applyKill_cases G now ref r t m c g Er Ec) as (G1 & f & -> & Eh & _ & _ & Ef). cbn [fst].
  intros ref' r' Hr id. unfold role_at in *. rewrite Eh in Hr.
  destruct (decide (ref = ref')) as [->|Hn]; [|rewrite list_lookup_alter_ne in Hr by done; by eapply HG].
  rewrite list_lookup_alter_eq, Er in Hr. injection Hr as <-. assert (same_held r (f r)) as [-> ->]; [|by eapply HG].
  rewrite Ef. cbv zeta. assert (same_held r (raise_seq (km_seq m) r)) as [H1 H2] by (unfold raise_seq; by repeat case_match).
  split; (destruct (jget _ _); [done|]; unfold drop_target; by destruct (list_find _ _) as [[? ?]|]).
Qed.

Lemma held_snap L t G : held_ok L G → held_ok L (snap_fast t G).
Proof. apply held_heap. apply snap_fast_frame. Qed.

Lemma held_head L armed N f : held_ok L (s_mgr N) → held_ok L (s_mgr (deliver_head armed N f).1).
Proof.
  intros HN. assert (∀ x, held_ok L (s_mgr (repin N (df_topic f) x))) as Hre.
  { intros x. unfold repin, map_mgr. cbn. destruct (bool_decide _); [exact HN|]. by apply held_snap. }
  assert (∀ v g c, held_ok L (s_mgr (handover N (df_topic f) v g c))) as Hh.
  { intros v g c. unfold handover, map_mgr. cbn. set (G := snap_fast _ _). assert (held_ok L G) as HG by by apply held_snap.
    destruct (live G _) as [[ref r]|]; [|done]. destruct (isRoot r); [done|by apply held_hold]. }
  assert (∀ N v g x, held_ok L (s_mgr N) → held_ok L (s_mgr (attach_commit N (df_topic f) v g x).1)) as Hc.
  { intros N' v g x H'. unfold attach_commit. destruct v; [done|..]; cbn zeta;
      (destruct (live _ _) as [[ref r]|]; [|done]; destruct (isRoot r); [done|]; destruct (_ || _); [by apply held_hold|done]). }
  unfold deliver_head. destruct (truthy _) as [x|].
  2: { by destruct armed; destruct (lc <$> df_delegate f). }
  destruct armed, (df_gen f) as [g|]; [|apply Hre..].
  assert (∀ v, held_ok L (s_mgr (if bool_decide (v = Data) then N else repin N (df_topic f) x))) as H1 by (intros v; by destruct (bool_decide _)).
  set (v := decide_frame _ _ _ _ _). specialize (H1 v). specialize (Hc _ v g x H1).
  destruct (lc <$> df_delegate f) as [c|]; [destruct (_ && _); [cbn; by destruct (bool_decide _)|]|].
  all: by destruct (attach_commit _ _ _ _ _) as [N1 acc].
Qed.

Section custody.
Context (JSON_parse : string → option json) (sha256 : bytes → bytes) (resolveRegion : json → option Z) (ks : keyspace).
Context (others : nat → sn → sn) (clock : nat → Z) (verified : nat → killmsg → bool).
Context (L : string → string → Prop) (Hothers : ∀ k N, held_ok L (s_mgr N) → held_ok L (s_mgr (others k N))).

Lemma tombstoned_held sig r id js : same_held r (tombstoned sig r id js).1 ∧ 
  ∀ d, (tombstoned sig r id js).2 = d → True.
Proof. split; [|done]. unfold tombstoned. repeat case_match; done. Qed.

Lemma held_relay k N ref t from e : held_ok L (s_mgr N) →
  held_ok L (s_mgr (relay_body JSON_parse sha256 resolveRegion ks others k N ref t from e)).
Proof using Hothers.
  intros HN. unfold relay_body. set (D := match role_at _ _ with Some _ => _ | None => _ end).
  assert (held_ok L (s_mgr D)) as HD.
  { unfold D. destruct (role_at _ _) as [r|]; [|done]. destruct (latestOnly r); [done|]. destruct (body_desc _ _) as [env|]; [|done].
    specialize (Hothers k N HN). destruct (bound_topic _ _ _ _) as [tid|]; [|done]. destruct (tid =? t); [|done].
    cbn. apply held_upd; [|done]. intros r0. unfold noteMetricRole. repeat case_match; done. }
  clearbody D. cbn. apply (held_upd L); [|by apply held_cachePush]. intros r. unfold raise_seq. repeat case_match; done.
Qed.

Lemma held_body k N ref t from g b :
  (∀ e, b = DMsg e → L from (e_msgId e)) → held_ok L (s_mgr N) →
  held_ok L (s_mgr (body_step JSON_parse sha256 resolveRegion ks others clock verified k N ref t from g b).1).
Proof using Hothers.
  intros Hb HN. unfold body_step. destruct b as [e|m].
  - destruct (ref ≫= _) as [[ref' r]|] eqn:Er; [|cbn; by eapply held_heap; [apply deliver_heap|]].
    destruct ref as [ref0|]; [|done]. cbn in Er. destruct (role_at (s_mgr N) ref0) as [r0|] eqn:Hr; [|done]. injection Er as -> ->.
    pose proof (proj1 (tombstoned_held (Stamped.signerOf JSON_parse) r (e_msgId e) (e_json e))) as Hsame.
    destruct (tombstoned _ r _ _) as [r1 [dead|x]]; [|done]. cbn [fst] in Hsame.
    set (D := map_mgr _ N). assert (role_at (s_mgr D) ref' = Some r1) as Hr1 by (unfold D; cbn; by rewrite role_at_upd_eq, Hr).
    assert (held_ok L (s_mgr D)) as HD.
    { intros rf r2 H2 id. unfold D in H2. cbn in H2. rewrite role_at_upd in H2. destruct (decide (ref' = rf)) as [->|]; [|by eapply HN].
      rewrite Hr in H2. injection H2 as <-. destruct Hsame as [-> ->]. by eapply HN. }
    clearbody D. destruct dead; [done|].
    set (D2 := match g with Some _ => _ | None => _ end). assert (held_ok L (s_mgr D2)) as HD2.
    { unfold D2. destruct g; [|done]. destruct (bool_decide_reflect (upstreamHeldFrom r1 = Some from)) as [Hf|]; [|done]. cbn.
      intros rf r2 H2 id. rewrite role_at_upd in H2. destruct (decide (ref' = rf)) as [->|]; [|by eapply HD].
      rewrite Hr1 in H2. injection H2 as <-. cbn. intros [->%elem_of_singleton|Hin]%elem_of_union; [exists from; eauto|by eapply HD]. }
    clearbody D2. cbn. eapply held_heap; [apply deliver_heap|]. destruct (bool_decide _); [done|by apply held_relay].
  - destruct (km_kill m) as [p|]; [|by apply held_applyKill]. destruct (tombAuthority _); [|by apply held_applyKill].
    apply held_applyKill. by apply Hothers.
Qed.

Lemma held_loop k N ref t from g l :
  (∀ e, DMsg e ∈ l → L from (e_msgId e)) → held_ok L (s_mgr N) →
  held_ok L (s_mgr (body_loop JSON_parse sha256 resolveRegion ks others clock verified k N ref t from g l).1).
Proof using Hothers.
  revert k N. induction l as [|b l IH]; intros k N Hl HN; [done|]. cbn [body_loop].
  assert (∀ e, b = DMsg e → L from (e_msgId e)) as Hb by (intros e ->; apply Hl; by left). pose proof (held_body k N ref t from g b Hb HN) as H1.
  destruct (body_step _ _ _ _ _ _ _ _ _ _ _ _ _) as [N1 [u|x]]; [|done]. apply IH; [intros e He; apply Hl; by right|done].
Qed.
End custody.

(** A relay credits a parent with nothing it did not send.  Let [L x id] say that [x] sent this
    node the body [id].  A DELIVER, whatever runs at its awaits as long as that keeps the claim too,
    keeps it: every message a role counts as held by its upstream was sent by the very node it
    counts as its upstream. *)
Theorem custody_names_its_sender JSON_parse sha256 resolveRegion ks others clock verified L armed N f :
  (∀ k N, held_ok L (s_mgr N) → held_ok L (s_mgr (others k N))) →
  (∀ e, DMsg e ∈ df_msgs f → L (default "" (lc <$> df_from f)) (e_msgId e)) →
  held_ok L (s_mgr N) →
  held_ok L (s_mgr (onDeliver JSON_parse sha256 resolveRegion ks others clock verified armed N f).1).
Proof.
  intros Ho Hf HN. unfold onDeliver. pose proof (held_head L armed N f HN) as H1.
  destruct (deliver_head armed N f) as [N1 [|ref g]]; [done|]. by apply held_loop.
Qed.

(** ** The renewal *)

(** One SUB, or what a throw of its send leaves. *)
Lemma emit_spec E N t via :
  let '(N', o) := emitSubscribe E N t via in
  upstream (s_mgr N') = upstream (s_mgr N) ∧ s_steer N' = s_steer N ∧
  match o with
  | Throw x => send_target via t = Throw x ∧ s_sent N' = s_sent N ∧ s_renew N' = s_renew N ∧ s_sync N' = s_sync N
  | Ok _ => (∃ n, send_target via t = Ok n) ∧ ∃ f, s_sent N' = s_sent N ++ [f] ∧ sf_topic f = t ∧ sf_via f = via ∧
      (jhas (mySubscriptions (s_mgr N)) t = true → jget (s_renew N') t = Some (Some (n_now E)))
  end.
Proof.
  unfold emitSubscribe. set (D := if _ && negb _ then put_attach _ N else N).
  assert (upstream (s_mgr D) = upstream (s_mgr N) ∧ s_steer D = s_steer N ∧ s_sent D = s_sent N ∧ s_renew D = s_renew N ∧
    s_sync D = s_sync N) as (E1 & E2 & E3 & E4 & E5) by (unfold D; by destruct (_ && _)).
  clearbody D. destruct (send_target via t) as [n|x]; [|done].
  set (f := sub_of _ _ _ _ _ _). assert (sf_topic f = t ∧ sf_via f = via) as [Hf1 Hf2] by done. clearbody f.
  destruct (live _ _) as [[ref r]|], (jhas (mySubscriptions (s_mgr N)) t), (sf_latest f); cbn -[jset jget]; rewrite ?E1, ?E2, ?E3;
    (split; [done|]); (split; [done|]); (split; [by eexists|]); exists f; split_and!; try done; intros _; by rewrite jget_jset_eq.
Qed.

Lemma renewal_spec E N t : 0 ≤ t < 2 ^ 264 →
  let '(N', o) := sendSubscribe E N t in
  let via := take MAX_VIA (renewal_via E (s_mgr N) t) in
  upstream (s_mgr N') = upstream (s_mgr N) ∧
  match o with
  | Throw _ => (∃ v, head via = Some v ∧ idBigS v = None) ∧ s_sent N' = s_sent N ∧ s_steer N' = s_steer N ∧
      s_renew N' = s_renew N ∧ s_sync N' = s_sync N
  | Ok _ => (∀ v, head via = Some v → idBigS v ≠ None) ∧ ∃ f, s_sent N' = s_sent N ++ [f] ∧ sf_topic f = t ∧ sf_via f = via ∧
      (jhas (mySubscriptions (s_mgr N)) t = true → jget (s_renew N') t = Some (Some (n_now E)))
  end.
Proof.
  intros Ht. unfold sendSubscribe. set (l := renewal_via _ _ _). cbv zeta. set (via := take MAX_VIA l).
  pose proof (emit_spec E N t via) as He. destruct (emitSubscribe E N t via) as [N1 [u|x]].
  - destruct He as (H1 & _ & [n Hn] & f & Hf). set (N2 := match l with [] => _ | _ => _ end).
    assert (s_mgr N2 = s_mgr N1 ∧ s_sent N2 = s_sent N1 ∧ s_renew N2 = s_renew N1) as (E1 & E2 & E3).
    { unfold N2. destruct l; [|done]. by destruct (n_lookup E). }
    rewrite E1, E2, E3. split; [done|]. split; [|by exists f]. intros v Hv. unfold send_target in Hn. destruct via as [|v' l']; [done|].
    injection Hv as ->. unfold idBigS. by rewrite Hn.
  - destruct He as (H1 & H2 & Hx & H3 & H4 & H5). split; [done|]. split_and!; try done. unfold send_target in Hx. destruct via as [|v l'].
    + destruct (idHex_spec t Ht) as [Hc _]. by rewrite Hx in Hc.
    + exists v. unfold idBigS. by rewrite Hx.
Qed.

(** When a renewal throws.  [_sendSubscribe] fails exactly where the first waypoint it would
    take - the pin, else the hint - is a text that is no id: it then sends nothing, starts no steered
    lookup, and leaves the pin where it was for the next tick.  Otherwise it sends one SUB, whose
    waypoints are at most [MAX_VIA] and begin with the pin where there is one. *)
Theorem renewal_exact E N t : 0 ≤ t < 2 ^ 264 →
  let '(N', o) := sendSubscribe E N t in
  let via := take MAX_VIA (renewal_via E (s_mgr N) t) in
  upstream (s_mgr N') = upstream (s_mgr N) ∧
  match o with
  | Throw _ => (∃ v, head via = Some v ∧ idBigS v = None) ∧ s_sent N' = s_sent N ∧ s_steer N' = s_steer N ∧
      s_renew N' = s_renew N ∧ s_sync N' = s_sync N
  | Ok _ => (∀ v, head via = Some v → idBigS v ≠ None) ∧ ∃ f, s_sent N' = s_sent N ++ [f] ∧ sf_topic f = t ∧ sf_via f = via ∧
      (jhas (mySubscriptions (s_mgr N)) t = true → jget (s_renew N') t = Some (Some (n_now E)))
  end.
Proof. apply renewal_spec. Qed.

(** * Witnesses and observed behaviour *)

Definition demo_G : mgr := put_mySubscriptions [(9, mk_mysub None 5000)] (alloc (new_mgr (default_cfg 5)) 9 (makeRole 9 false 0)).
Definition demo_N : sn := mk_sn demo_G [] ∅ ∅ [] [] [] [].
Definition demo_E (nonce : string) : nenv := mk_nenv 1000 true false false (λ _, false) (λ _, SubTree.demo_tree) (λ _, None) true nonce.
Definition demo_body (id : string) (ts : Z) : dbody := DMsg (mk_entry id ts "{}" (Some ts) 0).
Definition demo_frame (from : string) (g : gentag) (attach : option string) (l : list dbody) : dframe :=
  mk_dframe 9 (Some from) (Some g) attach None l.
Definition demo_asked : sn := (sendSubscribe (demo_E "n1") demo_N 9).1.
Definition demo_reply : dframe := demo_frame "0b" ("0b", 1) (Some "n1") [demo_body "a" 500].

Lemma attachment_moves_on_evidence_witness :
  ∃ x g a', named demo_reply = Some (x, g) ∧ jget (s_attach (deliver_head true demo_asked demo_reply).1) 9 = Some a' ∧
    at_from a' = Some "0b" ∧ at_committed a' = 1.
Proof.
  destruct (attachment_moves_on_evidence true demo_asked demo_reply 9) as (_ & _ & _ & x & g & a' & H1 & H2 & _ & H3 & _ & _ & _ & _).
  { vm_compute. discriminate. }
  exists x, g, a'. split; [exact H1|]. split; [exact H2|]. vm_compute in H2. injection H2 as <-. split; reflexivity.
Defined.

(** A late copy of the first reply, once a second attempt is answered by another parent. *)
Definition demo_run : list dstep :=
  [DEmit (demo_E "n1") 9 []; DFrame demo_reply; DEmit (demo_E "n2") 9 []; DFrame (demo_frame "0c" ("0c", 4) (Some "n2") []);
   DFrame demo_reply; DFrame (demo_frame "0c" ("0c", 3) None []); DOther (λ N, put_attach (jdel (s_attach N) 9) N); DFrame demo_reply].
Lemma replies_commit_once_witness :
  (drun true demo_N demo_run).2 = ["n1"; "n2"] ∧
  NoDup (drun true demo_N demo_run).2 ∧ ∀ n, n ∈ (drun true demo_N demo_run).2 → n ∈ minted demo_run.
Proof.
  split; [vm_compute; reflexivity|]. apply (replies_commit_once true demo_N demo_run); [reflexivity|apply (bool_decide_unpack _); vm_compute; exact I|].
  intros h Hin N t. unfold demo_run in Hin. rewrite !elem_of_cons in Hin.
  assert (h = λ N, put_attach (jdel (s_attach N) 9) N) as ->.
  { destruct Hin as [H|[H|[H|[H|[H|[H|[H|[H|H]]]]]]]]; try discriminate H; [by injection H|by apply not_elem_of_nil in H]. }
  cbn. destruct (decide (t = 9)) as [->|Ht]; [right; apply jget_jdel_eq|left; by apply jget_jdel_ne].
Defined.

Definition demo_sha (m : bytes) : bytes := toy_sha m.
Definition demo_del (k : nat → sn → sn) (N : sn) (f : dframe) : sn :=
  (onDeliver demo_parse demo_sha toy_region production k (λ _, 1000) (λ _ _, true) true N f).1.
Definition held_at (N : sn) : list string * option string :=
  match role_at (s_mgr N) 0 with Some r => (elements (upstreamHeld r), upstreamHeldFrom r) | None => ([], None) end.

Lemma custody_names_its_sender_witness :
  held_at (demo_del (λ _ N, N) demo_asked demo_reply) = (["a"], Some "0b") ∧
  held_ok (λ x id, x = "0b" ∧ id = "a") (s_mgr (demo_del (λ _ N, N) demo_asked demo_reply)).
Proof.
  split; [vm_compute; reflexivity|].
  apply (custody_names_its_sender demo_parse demo_sha toy_region production (λ _ N, N) (λ _, 1000) (λ _ _, true)).
  - intros _ N H. exact H.
  - intros e [He|He]%elem_of_cons; [|by apply not_elem_of_nil in He]. injection He as ->. split; reflexivity.
  - intros ref r Hr id Hid. destruct ref as [|[|ref]]; [|discriminate Hr|discriminate Hr]. injection Hr as <-.
    change (id ∈ (∅ : gset string)) in Hid. by apply not_elem_of_empty in Hid.
Defined.

Lemma renewal_exact_witness :
  upstream (s_mgr (sendSubscribe (demo_E "n1") demo_N 9).1) = upstream (s_mgr demo_N) ∧ (sendSubscribe (demo_E "n1") demo_N 9).2 = Ok tt.
Proof.
  pose proof (renewal_exact (demo_E "n1") demo_N 9 ltac:(lia)) as H.
  destruct (sendSubscribe (demo_E "n1") demo_N 9) as [N' o] eqn:E. destruct H as [H _]. split; [exact H|].
  apply (f_equal snd) in E. vm_compute in E. exact (eq_sym E).
Defined.

(** One frame whose [from] is no id and that names no generation pins it; from then on every
    renewal of that topic throws, in a call whose caller neither awaits nor catches it. *)
Example one_frame_stops_the_renewals :
  let N := demo_del (λ _ N, N) demo_asked (mk_dframe 9 (Some "zz") None None None []) in
  jget (upstream (s_mgr N)) 9 = Some ["zz"] ∧ (sendSubscribe (demo_E "n2") N 9).2 = Throw (mk_error TypeErrorK (Some "AXONA_BAD_ID")).
Proof. split; vm_compute; reflexivity. Qed.

(** A frame of epoch 1 is suspended at its first body; meanwhile the same parent's epoch 2 is
    accepted and clears the evidence; the rest of the old frame is credited to the new generation. *)
Definition demo_late (k : nat) (N : sn) : sn :=
  match k with O => demo_del (λ _ N, N) N (demo_frame "0b" ("0b", 2) None []) | _ => N end.
Example old_frame_credits_new_generation :
  let N := demo_del demo_late demo_asked (demo_frame "0b" ("0b", 1) (Some "n1") [DMsg (mk_entry "a" 500 "good" (Some 1) 0); demo_body "b" 600]) in
  (at_gen <$> jget (s_attach N) 9) = Some (Some ("0b", 2)) ∧ held_at N = (["b"], Some "0b").
Proof. split; vm_compute; reflexivity. Qed.

(** A relay caches what it is delivered without raising [lastTs]: promoted, it stamps below it. *)
Example promoted_relay_stamps_below :
  let N := demo_del (λ _ N, N) demo_asked (demo_frame "0b" ("0b", 1) (Some "n1") [demo_body "a" 5000]) in
  let G := (set_ (RootClaim.demo_env 1000) (s_mgr N) 0 true "terminal-promote" None).1 in
  (publishTs <$> match role_at G 0 with Some r => cache r | None => [] end) = [5000] ∧
  (admitWrite demo_parse 1000 G 0 (cutCapture G 0) "b" "{}").2 = Ok (inr (1000, 5001)).
Proof. split; vm_compute; reflexivity. Qed.
