(* ===== verification/Ingress.v ===== *)
(** Ingress.v - what a node does with a write that reaches it: [_topicDecision], [_holdIntercept],
    [_onPub], [_cutDisposition] and [_onKill] (src/src/pubsub/wireHandlers.js), with [_reroute],
    [_rerouteDeclined], [_maybePromoteRoot], [_forwardToRoot] and [_becomeRoot]
    (src/src/pubsub/AxonaManager.js) and the verdicts of src/src/pubsub/dispatch.js.

    A handler is cut at its awaits: [onPub_enter] runs to the first one and says where the write is
    ingested, [Publish.ingestPublish] has the rest, [onPub_exit] what follows its answer.  Where a
    send cannot read its target it throws, and what was done before stays done. *)
From stdpp Require Import base gmap sets list strings.
From Stdlib Require Import ZArith Lia.
From S2P Require Import Prelude HexId Durability Role TopicStore RootClaim.
From S2P Require Import SubTree.
From S2P Require Import Canonical SignedRecords TopicId Stamped MergeMachine Publish WriteFlight.
#[local] Open Scope Z_scope.
#[local] Open Scope js_scope.
#[local] Set Default Proof Using "Type".

(** * Data *)

Definition HOLD_REENTRY_MS : Z := 10000.
Definition HOLD_FWD_MAX : Z := 256.
Definition T_SUB : string := "pubsub:sub".
Definition T_of (ty : wtype) : string := match ty with PUB => "pubsub:pub" | KILL => "pubsub:kill" end.

(** A forward of a held node that may come back: what it relied on. *)
Record hfwd := mk_hfwd { hf_at : Z; hf_topic : Z; hf_type : string; hf_holdAt : Z; hf_root : string; hf_beaconAt : option Z }.

(** The node: its write flights over the shared state, and the ledger of held forwards. *)
Record inode := mk_inode { i_wf : wf; i_fwd : jmap string hfwd }.
Definition img (X : inode) : mgr := wm (i_wf X).
Definition put_img (G : mgr) (X : inode) : inode := mk_inode (with_wm G (i_wf X)) (i_fwd X).
Definition put_fwd (v : jmap string hfwd) (X : inode) : inode := mk_inode (i_wf X) v.
Definition on_img (f : mgr → mgr) (X : inode) : inode := put_img (f (img X)) X.
Definition undeliverable (t : Z) (why : string) : inode → inode := on_img (λ G, emit G (UndeliverableE t why)).

(** A write as it arrives. *)
Record imsg := mk_imsg {
  im_topicId : jsv; im_via : list jsv; im_holdFwd : option string; im_gateFwd : option string; im_stageFwd : bool;
  im_json : string; im_kill : json; im_attemptId : option string; im_hints : hints
}.
Definition with_via (v : list jsv) (m : imsg) : imsg :=
  mk_imsg (im_topicId m) v (im_holdFwd m) (im_gateFwd m) (im_stageFwd m) (im_json m) (im_kill m) (im_attemptId m) (im_hints m).
Definition with_hold (v : string) (m : imsg) : imsg :=
  mk_imsg (im_topicId m) (im_via m) (Some v) (im_gateFwd m) (im_stageFwd m) (im_json m) (im_kill m) (im_attemptId m) (im_hints m).
Definition viaEmpty (m : imsg) : bool := match im_via m with [] => true | _ => false end.
Definition asBig : jsv → js_result Z := asId production.

(** The random values a handler may draw. *)
Record draws := mk_draws { d_hold : string; d_gate : string; d_flight : string; d_attempt : string }.

(** [_topicDecision] *)
Inductive decision := Handle | Reroute | Pass.
#[export] Instance decision_eq_dec : EqDecision decision.
Proof. solve_decision. Defined.
Definition topicDecision (G : mgr) (m : imsg) (isTerminal : bool) : js_result decision :=
  match im_via m with
  | v :: _ =>
      w ← asBig v;
      if w =? nodeId (mcf G) then
        t ← asBig (im_topicId m); Ok (if jhas (axonRoles G) t then Handle else Reroute)
      else Ok (if isTerminal then Reroute else Pass)
  | [] => Ok (if isTerminal then Handle else Pass)
  end.

(** * Sending on *)

(** [_send] *)
Definition wire_send (ty : string) (m : imsg) (X : inode) : inode * js_result unit :=
  match asBig (default (im_topicId m) (head (im_via m))) with
  | Ok n => (on_img (λ G, emit G (SendWire ty n (im_via m) (im_holdFwd m))) X, Ok tt)
  | Throw x => (X, Throw x)
  end.

Definition reroute (ty : string) (m : imsg) (X : inode) : inode * js_result unit := wire_send ty (with_via (tail (im_via m)) m) X.

(** [_rerouteDeclined]: whether the message was handed to a different node. *)
Definition rerouteDeclined (ty : string) (m : imsg) (X : inode) : inode * js_result bool :=
  match tail (im_via m) with
  | [] => (X, Ok false)
  | v :: l =>
      match asBig v with
      | Throw x => (X, Throw x)
      | Ok n =>
          if n =? nodeId (mcf (img X)) then (X, Ok false)
          else match wire_send ty (with_via (v :: l) m) X with
               | (X, Ok _) => (X, Ok true)
               | (X, Throw x) => (X, Throw x)
               end
      end
  end.

(** [_maybePromoteRoot] *)
Definition maybePromoteRoot (E : env) (G : mgr) (ref : nat) (m : imsg) (isTerminal : bool) : mgr :=
  match role_at G ref with
  | Some r => match staging r with Some _ => G | None => promote E G ref (viaEmpty m) isTerminal end
  | None => G
  end.

(** [_becomeRoot] *)
Definition becomeRoot (E : env) (G : mgr) (t : Z) : mgr * option nat :=
  if negb (servingCapable E) then (G, None) else become E G t.

(** ** dispatch.js *)

(** What the transport answered for a send. *)
Inductive dresult := DVerdict (consumed : bool) (atNode : jsv) | DConsumed | DOther (atNode : jsv).
Definition dispatchVerdict (r : dresult) (supported : option bool) : verdict :=
  match r with
  | DVerdict true _ | DConsumed => VConsumed
  | DVerdict false _ => VFailed
  | DOther _ => if bool_decide (supported = Some false) then VUnsupported else VViolation
  end.
(** Did the named node take it? *)
Definition dispatchAttributedTo (r : dresult) (rootHex : string) : bool :=
  match r with
  | DVerdict _ a | DOther a =>
      match parseHex rootHex, a with
      | Some want, JBig n => n =? want
      | Some want, JStr s => bool_decide (parseHex s = Some want)
      | _, _ => false
      end
  | DConsumed => false
  end.

Section ingress.
Context (JSON_parse : string → option json) (sha256 : bytes → bytes)
  (ed_verify : bytes → bytes → bytes → js_result bool) (resolveRegion : json → option Z) (ks : keyspace).
Context (E : env) (R : draws).

(** The id of a write where it is not falsy; an id that is an object may have no text. *)
Definition env_id (s : string) : js_result (option string) :=
  match JSON_parse s with Some v => truthy_text (field v "msgId") | None => Ok None end.
Definition env_msgId (s : string) : option string := mjoin (catch (env_id s)).
Definition payload_of (m : imsg) : payload :=
  mk_payload (im_json m) (mjoin (catch (truthy_text (field (im_kill m) "msgId")))) (im_holdFwd m).
Definition write_id (ty : wtype) (m : imsg) : js_result (option string) :=
  match ty with KILL => truthy_text (field (im_kill m) "msgId") | PUB => env_id (im_json m) end.
(** Where the id has no text, the flight is on record before its key is made. *)
Definition open_empty (W : wf) (t : Z) (rootHex : string) : wf :=
  let epoch := flight_epoch (wm W) t None in
  let key := flightKey t rootHex epoch in
  match jget (flights W) key with
  | Some _ => W
  | None => with_flights (jset (flights W) key
              (mk_flight t (lc rootHex) epoch [] AwaitAck 0 (now E + INGEST_ACK_MS) (lc (selfHex (wm W))) (d_flight R) None)) W
  end.

(** [_forwardToRoot] up to the verdict: the flight opens, then the write leaves toward [rootHex]. *)
Definition forwardToRoot (ty : wtype) (t : Z) (m : imsg) (rootHex : string) (X : inode) : inode * js_result unit :=
  match write_id ty m with
  | Throw x => (mk_inode (open_empty (i_wf X) t rootHex) (i_fwd X), Throw x)
  | Ok _ =>
      let '(W, ack) := flightOpen env_msgId (now E) (d_flight R) (d_attempt R) (i_wf X) t rootHex ty (payload_of m) (im_attemptId m) None None in
      let X := mk_inode W (i_fwd X) in
      match asBig (JStr rootHex) with
      | Ok _ => (on_img (λ G, emit G (RootForward (T_of ty) t rootHex (im_holdFwd m) ack)) X, Ok tt)
      | Throw x => (X, Throw x)
      end
  end.

(** What its verdict moves; [rec] is the beacon record captured before the send. *)
Definition forwardRootVerdict (corr : string) (G : mgr) (t : Z) (rootHex : string) (rec : option beacon) (r : dresult)
    (supported : option bool) : mgr :=
  match dispatchVerdict r supported with
  | VConsumed => if dispatchAttributedTo r rootHex then (mergeCandidate E corr G t rootHex None "defer-confirmed").1 else G
  | VFailed =>
      match rec, jget (rootBeacons G) t with
      | Some b, Some cur => if bool_decide (b_root cur = b_root b) && (b_at cur =? b_at b) then put_rootBeacons (jdel (rootBeacons G) t) G else G
      | _, _ => G
      end
  | _ => G
  end.

(** * The step-down hold *)

Definition live_holds (l : jmap string hfwd) : jmap string hfwd :=
  foldl (λ m p, if HOLD_REENTRY_MS <=? now E - hf_at p.2 then jdel m p.1 else m) l l.
(** The beacon record a forward to [to] relies on. *)
Definition beacon_for (G : mgr) (t : Z) (to : string) : option beacon :=
  b ← jget (rootBeacons G) t; if bool_decide (lc (b_root b) = to) then Some b else None.

(** [_holdIntercept]; [send] is what the verb does with a forward. *)
Definition holdIntercept (send : imsg → string → inode → inode * js_result unit) (ty : string) (isSub : bool) (t : Z) (m : imsg)
    (X : inode) : inode * js_result bool :=
  if negb (viaEmpty m) then (X, Ok false)
  else
    let '(G, h) := holdFor E (img X) t in
    let X := put_img G X in
    match h with
    | None => (X, Ok false)
    | Some h =>
        let role_ := live G t in
        if match role_ with Some (_, r) => isRoot r || isSub | None => false end then (X, Ok false)
        else
          match im_holdFwd m with
          | Some tok =>
              let back := f ← jget (i_fwd X) tok; if bool_decide (hf_topic f = t) && bool_decide (hf_type f = ty) then Some f else None in
              match back with
              | Some f =>
                  let X := put_fwd (jdel (i_fwd X) tok) X in
                  let dropped := bool_decide (h_at h = hf_holdAt f) && bool_decide (h_to h = hf_root f) &&
                                 match beacon_for G t (hf_root f) with Some b => bool_decide (Some (b_at b) = hf_beaconAt f) | None => false end in
                  let X := if dropped then on_img (λ G, put_rootBeacons (jdel (rootBeacons G) t) G) X else X in
                  (undeliverable t "step-down-hold" X, Ok true)
              | None => (undeliverable t "step-down-hold-return-unknown" X, Ok true)
              end
          | None =>
              let '(G, to) := holdTarget E G t isSub in
              let X := put_img G X in
              match to with
              | None => (undeliverable t "step-down-hold" X, Ok true)
              | Some to =>
                  if decide (to = "") then (undeliverable t "step-down-hold" X, Ok true)
                  else
                    let X := put_fwd (live_holds (i_fwd X)) X in
                    if HOLD_FWD_MAX <=? jsize (i_fwd X) then (undeliverable t "step-down-hold-saturated" X, Ok true)
                    else
                      let X := put_fwd (jset (i_fwd X) (d_hold R)
                                 (mk_hfwd (now E) t ty (h_at h) (h_to h) (b_at <$> beacon_for (img X) t (h_to h)))) X in
                      match send (with_hold (d_hold R) m) to X with
                      | (X, Ok _) => (X, Ok true)
                      | (X, Throw x) => (X, Throw x)
                      end
              end
          end
    end.

(** The forward of each verb. *)
Definition hold_write (ty : wtype) (t : Z) (m : imsg) (to : string) : inode → inode * js_result unit := forwardToRoot ty t m to.
Definition hold_sub (m : imsg) (to : string) : inode → inode * js_result unit := wire_send T_SUB (with_via [JStr to] m).

(** * The writes *)

(** How far a handler comes before its first await. *)
Inductive entered := Passed | Disposed | Enter (ref : nat) (t : Z) (c : option cut).

(** The three interceptions in front of a write; the topic is read before. *)
Definition intercept (ty : wtype) (t : Z) (m : imsg) (X : inode) : inode * js_result bool :=
  match holdIntercept (hold_write ty t) (T_of ty) false t m X with
  | (X, Ok false) =>
      let '(G, b) := mergeGateIntercept E (d_gate R) (img X) t (mk_write (T_of ty) (negb (viaEmpty m)) (im_gateFwd m)) in
      if b then (put_img G X, Ok true)
      else
        let '(G, b) := stagingIntercept G t false None (im_stageFwd m) in
        (put_img G X, Ok b)
  | o => o
  end.

(** The role that takes the write, a new root if there is none, else the declined write's end. *)
Definition seat_write (ty : wtype) (t : Z) (m : imsg) (X : inode) : inode * js_result (option nat) :=
  match jget (axonRoles (img X)) t with
  | Some ref => (X, Ok (Some ref))
  | None =>
      match becomeRoot E (img X) t with
      | (G, Some ref) => (put_img G X, Ok (Some ref))
      | (G, None) =>
          match rerouteDeclined (T_of ty) m (put_img G X) with
          | (X, Ok true) => (X, Ok None)
          | (X, Ok false) => (undeliverable t "refused-no-forward" X, Ok None)
          | (X, Throw x) => (X, Throw x)
          end
      end
  end.

Definition lift (o : inode * js_result unit) : inode * js_result entered :=
  match o with (X, Ok _) => (X, Ok Disposed) | (X, Throw x) => (X, Throw x) end.
Definition throws {A B} (o : inode * js_result A) (k : inode → A → inode * js_result B) : inode * js_result B :=
  match o with (X, Ok a) => k X a | (X, Throw x) => (X, Throw x) end.

(** The common head of both handlers: the decision and the interceptions. *)
Definition front (ty : wtype) (isTerminal : bool) (m : imsg) (X : inode) (k : Z → inode → inode * js_result entered)
    : inode * js_result entered :=
  match topicDecision (img X) m isTerminal with
  | Throw x => (X, Throw x)
  | Ok Pass => (X, Ok Passed)
  | Ok Reroute => lift (reroute (T_of ty) m X)
  | Ok Handle =>
      match asBig (im_topicId m) with
      | Throw x => (X, Throw x)
      | Ok t => throws (intercept ty t m X) (λ X b, if (b : bool) then (X, Ok Disposed) else k t X)
      end
  end.

(** [_onPub] up to its first await. *)
Definition onPub_enter (isTerminal : bool) (m : imsg) (X : inode) : inode * js_result entered :=
  front PUB isTerminal m X (λ t X,
    let '(G, closer) := liveCloserRoot E (img X) t false in
    let X := put_img G X in
    match closer with
    | Some root => lift (forwardToRoot PUB t m root X)
    | None =>
        throws (seat_write PUB t m X) (λ X o,
          match o with
          | None => (X, Ok Disposed)
          | Some ref =>
              let X := on_img (λ G, maybePromoteRoot E G ref m isTerminal) X in
              if match role_at (img X) ref with Some r => isRoot r | None => false end
              then (X, Ok (Enter ref t (cutCapture (img X) ref)))
              else lift (reroute (T_of PUB) m X)
          end)
    end).

(** [_onKill] up to its first await. *)
Definition onKill_enter (isTerminal : bool) (m : imsg) (X : inode) : inode * js_result entered :=
  front KILL isTerminal m X (λ t X,
    let '(G, closer) := if jhas (axonRoles (img X)) t then (img X, None) else liveCloserRoot E (img X) t false in
    let X := put_img G X in
    match closer with
    | Some root => lift (forwardToRoot KILL t m root X)
    | None =>
        throws (seat_write KILL t m X) (λ X o,
          match o with
          | None => (X, Ok Disposed)
          | Some ref => (X, Ok (Enter ref t (cutCapture (img X) ref)))
          end)
    end).

(** [_cutDisposition] *)
Definition cutDisposition (ty : wtype) (t : Z) (m : imsg) (X : inode) : inode * js_result unit :=
  match live (img X) t with
  | Some (ref, r) =>
      match gate_of r with
      | Some g =>
          if g_staged g && isRoot r then wire_send (T_of ty) (with_via [JStr (selfHex (img X))] m) X
          else (on_img (λ G, mergeGateForward E (d_gate R) G t ref (T_of ty) g) X, Ok tt)
      | None =>
          match truthy (jget (upstream (img X)) t ≫= head) with
          | Some up => forwardToRoot ty t m (lc up) X
          | None => (undeliverable t "cut-no-forward" X, Ok tt)
          end
      end
  | None =>
      match truthy (jget (upstream (img X)) t ≫= head) with
      | Some up => forwardToRoot ty t m (lc up) X
      | None => (undeliverable t "cut-no-forward" X, Ok tt)
      end
  end.

(** [_onPub] from the answer of the ingestion on. *)
Definition onPub_exit (identity_ : option ((bytes → bytes) * bytes)) (ref : nat) (t : Z) (m : imsg) (o : ingest) (X : inode)
    : inode * js_result unit :=
  match o, role_at (img X) ref with
  | IOk id _, Some r => (on_img (λ G, sendIngestAck identity_ G (im_hints m) r id "pub") X, Ok tt)
  | IBad why _, _ => if bool_decide (why = "cut") then cutDisposition PUB t m X else (X, Ok tt)
  | _, _ => (X, Ok tt)
  end.
(** [_onKill] from the outcome of the commit on. *)
Definition onKill_exit (identity_ : option ((bytes → bytes) * bytes)) (ref : nat) (t : Z) (m : imsg) (o : kill_out) (X : inode)
    : inode * js_result unit :=
  match o, role_at (img X) ref with
  | KAcked target, Some r => (on_img (λ G, sendIngestAck identity_ G (im_hints m) r target "kill") X, Ok tt)
  | KCut _, _ => cutDisposition KILL t m X
  | _, _ => (X, Ok tt)
  end.

(** The whole handlers.  [others] and [clock] are what runs, and when, at the awaits of the ingestion;
    [aside] what they did meanwhile to the flights and to the ledger of held forwards. *)
Context (others : nat → mgr → mgr) (clock : nat → Z) (replicate : nat → rep) (aside : inode → inode).
Context (identity_ : option ((bytes → bytes) * bytes)).

Definition onPub (isTerminal : bool) (m : imsg) (X : inode) : inode * js_result bool :=
  match onPub_enter isTerminal m X with
  | (X, Throw x) => (X, Throw x)
  | (X, Ok Passed) => (X, Ok false)
  | (X, Ok Disposed) => (X, Ok true)
  | (X, Ok (Enter ref t c)) =>
      match ingestPublish JSON_parse sha256 ed_verify resolveRegion ks others clock replicate 0 (img X) ref c (im_json m) with
      | (G, Throw x) => (put_img G (aside X), Throw x)
      | (G, Ok o) => throws (onPub_exit identity_ ref t m o (put_img G (aside X))) (λ X _, (X, Ok true))
      end
  end.

Definition onKill (isTerminal : bool) (m : imsg) (X : inode) : inode * js_result bool :=
  match onKill_enter isTerminal m X with
  | (X, Throw x) => (X, Throw x)
  | (X, Ok Passed) => (X, Ok false)
  | (X, Ok Disposed) => (X, Ok true)
  | (X, Ok (Enter ref t c)) =>
      match ingestKill JSON_parse ed_verify others clock 0 (img X) ref t c (im_kill m) with
      | (G, Throw x) => (put_img G (aside X), Throw x)
      | (G, Ok o) => throws (onKill_exit identity_ ref t m o (put_img G (aside X))) (λ X _, (X, Ok true))
      end
  end.
End ingress.

(** * Properties *)

(** ** What leaves a node *)

(** The effects that end a write's stay at this node: it is sent on, or reported lost. *)
Definition disposes (e : eff) : bool :=
  match e with
  | SendWire _ _ _ _ | RootForward _ _ _ _ _ | UndeliverableE _ _ | ForwardWinner _ _ _ _ _ | ForwardLoser _ _ _ => true
  | _ => false
  end.
Definition gone_out (G : mgr) : list eff := filter (λ e, disposes e = true) (outbox G).
Notation quiet G G' := (gone_out G' = gone_out G).

Lemma out_emit G e : gone_out (emit G e) = gone_out G ++ (if disposes e then [e] else []).
Proof. unfold gone_out, emit. cbn [outbox put_outbox]. rewrite filter_app. f_equal. rewrite filter_cons. by destruct (decide _) as [->|H%not_true_is_false]; [|rewrite H]. Qed.
Lemma quiet_emit G e : disposes e = false → quiet G (emit G e).
Proof. intros H. by rewrite out_emit, H, app_nil_r. Qed.
Lemma quiet_foldl {A} (f : mgr → A → mgr) l G : (∀ G x, quiet G (f G x)) → quiet G (foldl f G l).
Proof. intros H. revert G. induction l as [|x l IH]; intros G; [done|]. simpl. rewrite IH. apply H. Qed.

Lemma quiet_rootTombstoned E G t h e : quiet G (rootTombstoned E G t h e).1.
Proof. unfold rootTombstoned. by repeat case_match. Qed.
Lemma quiet_liveCloserRoot E G t b : quiet G (liveCloserRoot E G t b).1.
Proof.
  unfold liveCloserRoot. destruct (jget _ t) as [bc|]; [|done]. destruct (_ <=? _); [done|]. destruct (decide _); [done|].
  destruct (idBigS _); [|done]. destruct (_ <=? _); [done|]. pose proof (quiet_rootTombstoned E G t (b_root bc) (b_epoch bc)) as H.
  by destruct (rootTombstoned _ _ _ _ _) as [G' dead].
Qed.
Lemma quiet_holdFor E G t : quiet G (holdFor E G t).1.
Proof. unfold holdFor. by repeat case_match. Qed.
Lemma quiet_holdBlocks E G t : quiet G (holdBlocks E G t).1.
Proof.
  unfold holdBlocks. pose proof (quiet_holdFor E G t) as H. destruct (holdFor E G t) as [G' [h|]]; [|done]. by destruct (_ <=? _).
Qed.
Lemma quiet_holdTarget E G t b : quiet G (holdTarget E G t b).1.
Proof.
  unfold holdTarget. pose proof (quiet_holdFor E G t) as H. destruct (holdFor E G t) as [G' [h|]]; [|done]. cbn [fst] in *.
  destruct (match _ with Some _ => _ | None => _ end); [done|]. destruct (isReachableId _ _); [done|].
  pose proof (quiet_liveCloserRoot E G' t b) as H2. destruct (liveCloserRoot E G' t b) as [G2 c]. cbn [fst] in *. congruence.
Qed.
Lemma quiet_seat E ref G p : quiet G (seat_inherited E ref G p).
Proof.
  unfold seat_inherited. destruct (role_at G ref); [|done]. destruct (jhas _ _); [done|]. cbv zeta. rewrite quiet_emit by done.
  by destruct (is_child _).
Qed.
Lemma quiet_inherit E G ref : quiet G (inherit E G ref).
Proof.
  unfold inherit. set (G1 := match _ with Some _ => _ | None => _ end). trans (gone_out G1); [by destruct (replicateSubs (mcf G1))|].
  unfold G1. destruct (role_at G ref ≫= inheritedSubs) as [[|p ps]|]; [done| |done]. destruct (replicateSubs _); [|done].
  change (quiet G (foldl (seat_inherited E ref) G (p :: ps))). apply quiet_foldl. intros. apply quiet_seat.
Qed.
Lemma quiet_set E G ref b why tok : quiet G (set_ E G ref b why tok).1.
Proof.
  unfold set_. destruct (role_at G ref) as [r|]; [|done]. destruct (Bool.eqb _ _); [done|]. cbv zeta.
  destruct b; cbn [negb andb].
  - cbn [fst]. rewrite quiet_inherit. unfold retireBackup. by repeat case_match.
  - by destruct (_ && negb (token_ok r tok)); [|destruct (mergeCapable (mcf G) && _)].
Qed.
Lemma quiet_promote E G ref v b : quiet G (promote E G ref v b).
Proof.
  unfold promote. destruct (role_at G ref) as [r|]; [|done]. cbv zeta. destruct (negb _); [done|]. destruct (negb _); [done|].
  pose proof (quiet_liveCloserRoot E G (topicId r) true) as H1. destruct (liveCloserRoot _ _ _ _) as [G1 c]. cbn [fst] in H1.
  destruct c; [done|].
  pose proof (quiet_holdBlocks E G1 (topicId r)) as H2. destruct (holdBlocks _ _ _) as [G2 b2]. cbn [fst] in H2.
  destruct b2; [congruence|].
  pose proof (quiet_set E G2 ref true "terminal-promote" None) as H3. destruct (set_ _ _ _ _ _ _) as [G3 b3]. cbn [fst] in *.
  change (gone_out (emit (put_upstream (jdel (upstream G3) (topicId r)) G3) (Announce (topicId r))) = gone_out G).
  rewrite quiet_emit by done. change (gone_out G3 = gone_out G). congruence.
Qed.
Lemma quiet_becomeRoot E G t : quiet G (becomeRoot E G t).1.
Proof.
  unfold becomeRoot, become, admitRole, canAcceptRole. destruct (negb _); [done|].
  repeat (case_match || simplify_eq/=); cbn [fst]; rewrite ?quiet_emit by done; done.
Qed.

(** ** One disposition *)

Definition kept (X X' : inode) : Prop := gone_out (img X') = gone_out (img X).
Definition disposed (X X' : inode) : Prop := ∃ e, gone_out (img X') = gone_out (img X) ++ [e].
(** An operation whose answer says whether it disposed of the write; one that throws did not. *)
Definition ends {A} (fin : A → bool) (X : inode) (o : inode * js_result A) : Prop :=
  match o.2 with Ok a => if fin a then disposed X o.1 else kept X o.1 | Throw _ => kept X o.1 end.

Lemma kept_trans X Y Z : kept X Y → kept Y Z → kept X Z.
Proof. unfold kept. congruence. Qed.
Lemma kept_disposed X Y Z : kept X Y → disposed Y Z → disposed X Z.
Proof. intros H [e He]. exists e. by rewrite He, H. Qed.
Lemma ends_kept {A} (fin : A → bool) X Y o : kept X Y → ends fin Y o → ends fin X o.
Proof.
  intros H. unfold ends. destruct o as [Z [a|x]]; cbn [fst snd]; [|by apply kept_trans]. destruct (fin a); [by apply kept_disposed|by apply kept_trans].
Qed.
Lemma disposed_emit X e : disposes e = true → disposed X (on_img (λ G, emit G e) X).
Proof. intros H. exists e. change (gone_out (emit (img X) e) = gone_out (img X) ++ [e]). by rewrite out_emit, H. Qed.
Lemma disposed_und t why X : disposed X (undeliverable t why X).
Proof. by apply disposed_emit. Qed.

Lemma wire_send_ends ty m X : ends (λ _, true) X (wire_send ty m X).
Proof. unfold wire_send. destruct (asBig _); [by apply disposed_emit|done]. Qed.
Lemma rerouteDeclined_ends ty m X : ends id X (rerouteDeclined ty m X).
Proof.
  unfold rerouteDeclined. destruct (tail _) as [|v l]; [done|]. destruct (asBig v); [|done]. destruct (_ =? _); [done|].
  pose proof (wire_send_ends ty (with_via (v :: l) m) X) as H. by destruct (wire_send _ _ _) as [Y [u|x]].
Qed.

Lemma flightOpen_wm f n a b W t root ty p at_ e c : wm (flightOpen f n a b W t root ty p at_ e c).1 = wm W.
Proof.
  unfold flightOpen. destruct (writeMsgId _ _ _); [|done]. destruct (decide _); [done|]. cbv zeta.
  match goal with |- context [chainGet n ?k W] => destruct (chainGet_frame n k W) as [H _]; by destruct (chainGet n k W) end.
Qed.

Section ends.
Context (JSON_parse : string → option json) (E : env) (R : draws).

Lemma forwardToRoot_ends ty t m root X : ends (λ _, true) X (forwardToRoot JSON_parse E R ty t m root X).
Proof.
  unfold forwardToRoot. destruct (write_id _ _ _); [|unfold open_empty; cbv zeta; by destruct (jget _ _)].
  match goal with |- context [flightOpen ?f ?n ?a ?b ?W ?t ?r ?ty ?p ?at_ ?e ?c] =>
    pose proof (flightOpen_wm f n a b W t r ty p at_ e c) as H; destruct (flightOpen f n a b W t r ty p at_ e c) as [W' ack] end.
  cbn [fst] in H. set (Y := mk_inode W' (i_fwd X)). assert (kept X Y) as HY by (unfold kept, img, Y; cbn; by rewrite H).
  apply (ends_kept _ X Y); [done|]. destruct (asBig _); [by apply disposed_emit|done].
Qed.

Lemma put_img_kept G X : gone_out G = gone_out (img X) → kept X (put_img G X).
Proof. done. Qed.

Lemma holdIntercept_ends send ty isSub t m X : (∀ m to X, ends (λ _, true) X (send m to X)) →
  ends id X (holdIntercept E R send ty isSub t m X).
Proof.
  intros Hs. unfold holdIntercept. destruct (negb _); [done|]. pose proof (quiet_holdFor E (img X) t) as H1.
  destruct (holdFor E (img X) t) as [G1 [h|]]; [|by apply put_img_kept]. cbn [fst] in H1.
  apply (ends_kept _ X (put_img G1 X)); [by apply put_img_kept|]. set (X1 := put_img G1 X) in *. cbv zeta.
  destruct (match live G1 t with Some _ => _ | None => false end); [done|].
  assert (∀ Y why, kept X1 Y → ends id X1 (undeliverable t why Y, Ok true)) as Hu.
  { intros Y why HY. apply (ends_kept _ X1 Y); [done|]. apply disposed_und. }
  destruct (im_holdFwd m) as [tok|].
  - destruct (jget (i_fwd X1) tok ≫= _) as [f|]; apply Hu; [|done]. by destruct (_ && _ && _).
  - pose proof (quiet_holdTarget E G1 t isSub) as H2. destruct (holdTarget E G1 t isSub) as [G2 to]. cbn [fst] in H2.
    assert (kept X1 (put_img G2 X1)) as HX2 by (by apply put_img_kept). destruct to as [to|]; [|by apply Hu].
    destruct (decide _); [by apply Hu|]. destruct (_ <=? _); [by apply Hu|].
    set (Y := put_fwd (jset _ _ _) _). assert (kept X1 Y) as HY by done. clearbody Y.
    apply (ends_kept _ X1 Y); [done|]. specialize (Hs (with_hold (d_hold R) m) to Y). by destruct (send _ _ Y) as [Y' [u|x]].
Qed.

Lemma forwardWinner_out G t g n : ∃ e, gone_out (forwardToWinner G t g n) = gone_out G ++ [e].
Proof. unfold forwardToWinner. rewrite out_emit. by eexists. Qed.
Lemma gateForward_out n G t ref ty g : ∃ e, gone_out (mergeGateForward E n G t ref ty g) = gone_out G ++ [e].
Proof.
  unfold mergeGateForward. cbv zeta. destruct (_ <=? _); [rewrite out_emit; by eexists|].
  match goal with |- context [forwardToWinner ?G' t g n] => destruct (forwardWinner_out G' t g n) as [e ->] end. by exists e.
Qed.
Lemma gateIntercept_out n G t w : let '(G', b) := mergeGateIntercept E n G t w in
  if b then ∃ e, gone_out G' = gone_out G ++ [e] else gone_out G' = gone_out G.
Proof.
  unfold mergeGateIntercept. destruct (w_via w); [done|]. cbv zeta. destruct (w_gateFwd w) as [k|].
  - set (ours := match live G t with Some _ => _ | None => false end). clearbody ours.
    set (G1 := match live G t with Some _ => _ | None => G end). assert (gone_out G1 = gone_out G) as H1.
    { unfold G1. destruct (live G t) as [[ref r]|]; [|done]. by destruct ours. }
    clearbody G1. destruct (ours || _); [|done]. rewrite out_emit, H1. by eexists.
  - destruct (live G t) as [[ref r]|]; [|done]. destruct (gate_of r) as [g|]; [|done]. destruct (g_staged g); [done|]. apply gateForward_out.
Qed.
Lemma stagingIntercept_out G t b s f : let '(G', c) := stagingIntercept G t b s f in
  if c then ∃ e, gone_out G' = gone_out G ++ [e] else gone_out G' = gone_out G.
Proof.
  unfold stagingIntercept. destruct (live G t) as [[ref r]|]; [|done]. destruct (staging r); [|done].
  destruct (isRoot r); [done|]. destruct (b && _); [done|]. destruct (b && _); [done|]. destruct f; rewrite out_emit; by eexists.
Qed.

Lemma intercept_ends ty t m X : ends id X (intercept JSON_parse E R ty t m X).
Proof.
  unfold intercept. pose proof (holdIntercept_ends (hold_write JSON_parse E R ty t) (T_of ty) false t m X
    (λ m to X, forwardToRoot_ends ty t m to X)) as H. destruct (holdIntercept _ _ _ _ _ _ _ _) as [X1 [[|]|x]]; [done| |done].
  apply (ends_kept _ X X1); [exact H|]. clear H.
  pose proof (gateIntercept_out (d_gate R) (img X1) t (mk_write (T_of ty) (negb (viaEmpty m)) (im_gateFwd m))) as H.
  destruct (mergeGateIntercept _ _ _ _ _) as [G [|]]; [done|].
  apply (ends_kept _ X1 (put_img G X1)); [done|]. clear H. pose proof (stagingIntercept_out G t false None (im_stageFwd m)) as H.
  by destruct (stagingIntercept _ _ _ _ _) as [G' [|]].
Qed.

Lemma seat_write_ends ty t m X : ends (λ o, match o with None => true | Some _ => false end) X (seat_write E ty t m X).
Proof.
  unfold seat_write. destruct (jget _ t); [done|]. pose proof (quiet_becomeRoot E (img X) t) as H.
  destruct (becomeRoot E (img X) t) as [G [ref|]]; [by apply put_img_kept|]. cbn [fst] in H.
  apply (ends_kept _ X (put_img G X)); [by apply put_img_kept|]. pose proof (rerouteDeclined_ends (T_of ty) m (put_img G X)) as H2.
  destruct (rerouteDeclined _ _ _) as [Y [[|]|x]]; [done| |done]. apply (ends_kept _ _ Y); [done|]. apply disposed_und.
Qed.

Definition is_disposed (o : entered) : bool := match o with Disposed => true | _ => false end.
Lemma lift_ends X o : ends (λ _, true) X o → ends is_disposed X (lift o).
Proof. by destruct o as [Y [u|x]]. Qed.
Lemma throws_ends {A B} (fa : A → bool) (fb : B → bool) X (o : inode * js_result A) k :
  ends fa X o → (∀ Y a, o = (Y, Ok a) → fa a = false → ends fb Y (k Y a)) →
  (∀ Y a, o = (Y, Ok a) → fa a = true → ∃ b, k Y a = (Y, Ok b) ∧ fb b = true) → ends fb X (throws o k).
Proof.
  destruct o as [Y [a|x]]; cbn [throws]; [|done]. intros H H1 H2. destruct (fa a) eqn:Ef.
  - destruct (H2 Y a eq_refl Ef) as (b & -> & Hb). unfold ends in *. cbn [fst snd] in *. by rewrite Hb; rewrite Ef in H.
  - apply (ends_kept _ X Y); [unfold ends in H; cbn in H; by rewrite Ef in H|]. by apply H1.
Qed.

Lemma front_ends ty b m X k : (∀ t Y, ends is_disposed Y (k t Y)) → ends is_disposed X (front JSON_parse E R ty b m X k).
Proof.
  intros Hk. unfold front. destruct (topicDecision _ _ _) as [[| |]|x]; [|apply lift_ends, wire_send_ends|done|done].
  destruct (asBig _) as [t|x]; [|done]. apply (throws_ends id); [apply intercept_ends| |].
  - by intros Y [|] _ ?.
  - intros Y [|] _ Hb; [|done]. by exists Disposed.
Qed.

Lemma onPub_enter_ends b m X : ends is_disposed X (onPub_enter JSON_parse E R b m X).
Proof.
  apply front_ends. intros t Y. pose proof (quiet_liveCloserRoot E (img Y) t false) as H. destruct (liveCloserRoot _ _ _ _) as [G c].
  cbn [fst] in H. apply (ends_kept _ Y (put_img G Y)); [by apply put_img_kept|]. destruct c as [root|]; [apply lift_ends, forwardToRoot_ends|].
  eapply throws_ends; [apply seat_write_ends| |].
  - intros Z [ref|] _ ?; [|done]. set (Z2 := on_img _ Z). assert (kept Z Z2) as HZ.
    { unfold kept, Z2. change (img (on_img ?f Z)) with (f (img Z)). cbv beta. unfold maybePromoteRoot.
      destruct (role_at _ ref); [|done]. destruct (staging _); [done|]. apply quiet_promote. }
    apply (ends_kept _ Z Z2); [done|]. cbv zeta. fold Z2. destruct (role_at (img Z2) ref) as [r|]; [destruct (isRoot r); [done|]|]; apply lift_ends, wire_send_ends.
  - intros Z [ref|] _ ?; [done|]. by exists Disposed.
Qed.

Lemma onKill_enter_ends b m X : ends is_disposed X (onKill_enter JSON_parse E R b m X).
Proof.
  apply front_ends. intros t Y. set (lc_ := if jhas _ _ then _ else _). assert (gone_out lc_.1 = gone_out (img Y)) as H.
  { unfold lc_. destruct (jhas _ _); [done|apply quiet_liveCloserRoot]. }
  destruct lc_ as [G c]. cbn [fst] in H. apply (ends_kept _ Y (put_img G Y)); [by apply put_img_kept|].
  destruct c as [root|]; [apply lift_ends, forwardToRoot_ends|]. eapply throws_ends; [apply seat_write_ends| |].
  - by intros Z [ref|] _ ?.
  - intros Z [ref|] _ ?; [done|]. by exists Disposed.
Qed.
End ends.

Section cut.
Context (JSON_parse : string → option json) (E : env) (R : draws).

Lemma cutDisposition_ends ty t m X : ends (λ _, true) X (cutDisposition JSON_parse E R ty t m X).
Proof.
  unfold cutDisposition.
  assert (ends (λ _, true) X match truthy (jget (upstream (img X)) t ≫= head) with
    | Some up => forwardToRoot JSON_parse E R ty t m (lc up) X | None => (undeliverable t "cut-no-forward" X, Ok tt) end) as Hup.
  { destruct (truthy _); [apply forwardToRoot_ends|apply disposed_und]. }
  destruct (live (img X) t) as [[ref r]|]; [|exact Hup]. destruct (gate_of r) as [g|]; [|exact Hup].
  destruct (g_staged g && isRoot r); [apply wire_send_ends|]. exact (gateForward_out E (d_gate R) (img X) t ref (T_of ty) g).
Qed.

(** Only a frame that is not for this node is passed on, and nothing of the node changes. *)
Lemma front_passed ty b m X k X' : (∀ t Y Z, k t Y ≠ (Z, Ok Passed)) →
  front JSON_parse E R ty b m X k = (X', Ok Passed) → X' = X ∧ topicDecision (img X) m b = Ok Pass.
Proof.
  intros Hk. unfold front. destruct (topicDecision _ _ _) as [[| |]|x]; [| |by intros [= <-]|done].
  - destruct (asBig _) as [t|]; [|done]. destruct (intercept _ _ _ _ _ _ _) as [Y [[|]|x]]; [done| |done]. cbn [throws]. intros H. by destruct (Hk t Y X').
  - by destruct (reroute _ _ _) as [Y [u|x]].
Qed.
Lemma lift_not_passed o X : lift o ≠ (X, Ok Passed).
Proof. by destruct o as [Y [u|x]]. Qed.
Lemma lift_not_enter o X ref t c : lift o ≠ (X, Ok (Enter ref t c)).
Proof. by destruct o as [Y [u|x]]. Qed.

Lemma front_enter ty b m X k X' ref t c : front JSON_parse E R ty b m X k = (X', Ok (Enter ref t c)) →
  topicDecision (img X) m b = Ok Handle ∧ ∃ t' Y, asBig (im_topicId m) = Ok t' ∧ k t' Y = (X', Ok (Enter ref t c)).
Proof.
  unfold front. destruct (topicDecision _ _ _) as [[| |]|x]; [| |done|done].
  - destruct (asBig _) as [t'|] eqn:Et; [|done]. destruct (intercept _ _ _ _ _ _ _) as [Y [[|]|x]]; [done| |done]. cbn [throws]. intros H. eauto.
  - intros H. by destruct (lift_not_enter _ _ _ _ _ H).
Qed.

Lemma seat_write_role ty t m X X' ref : seat_write E ty t m X = (X', Ok (Some ref)) → jget (axonRoles (img X')) t = Some ref.
Proof.
  unfold seat_write. destruct (jget _ t) as [ref'|] eqn:Er; [by intros [= <- <-]|].
  unfold becomeRoot. destruct (negb (servingCapable E)).
  { destruct (rerouteDeclined _ _ _) as [Y [[|]|x]]; done. }
  unfold become. destruct (admitRole E (img X) false) as [G [|]]; cbn [negb].
  2: { destruct (rerouteDeclined _ _ _) as [Y [[|]|x]]; done. }
  intros [= <- <-]. apply jget_jset_eq.
Qed.

Lemma onPub_enter_root b m X X' ref t c : onPub_enter JSON_parse E R b m X = (X', Ok (Enter ref t c)) →
  asBig (im_topicId m) = Ok t ∧ c = cutCapture (img X') ref ∧ ∃ r, role_at (img X') ref = Some r ∧ isRoot r = true.
Proof.
  intros H. destruct (front_enter _ _ _ _ _ _ _ _ _ H) as (_ & t' & Y & Et & Hk). revert Hk.
  destruct (liveCloserRoot _ _ _ _) as [G [root|]]; [intros Hk; by destruct (lift_not_enter _ _ _ _ _ Hk)|].
  cbv zeta. destruct (seat_write _ _ _ _ _) as [Z [[ref'|]|x]]; [|done|done]. cbn [throws]. cbv zeta.
  set (Z2 := on_img (λ G, maybePromoteRoot E G ref' m b) Z).
  destruct (role_at (img Z2) ref') as [r|] eqn:Er; [destruct (isRoot r) eqn:Eroot|];
    [|intros Hk; by destruct (lift_not_enter _ _ _ _ _ Hk)..].
  intros [= <- <- <- <-]. split; [done|]. split; [done|]. by exists r.
Qed.

Lemma onKill_enter_role b m X X' ref t c : onKill_enter JSON_parse E R b m X = (X', Ok (Enter ref t c)) →
  asBig (im_topicId m) = Ok t ∧ c = cutCapture (img X') ref ∧ jget (axonRoles (img X')) t = Some ref.
Proof.
  intros H. destruct (front_enter _ _ _ _ _ _ _ _ _ H) as (_ & t' & Y & Et & Hk). revert Hk.
  destruct (if jhas _ _ then _ else _) as [G [root|]]; [intros Hk; by destruct (lift_not_enter _ _ _ _ _ Hk)|].
  cbv zeta. destruct (seat_write _ _ _ _ _) as [Z [[ref'|]|x]] eqn:Es; [|done|done]. cbn [throws].
  intros [= <- <- <- <-]. split; [done|]. split; [done|]. by eapply seat_write_role.
Qed.
End cut.

(** What the head of a write handler did, by its answer. *)
Definition entered_ok (ty : wtype) (b : bool) (m : imsg) (X : inode) (o : inode * js_result entered) : Prop :=
  match o with
  | (X', Ok Passed) => X' = X ∧ topicDecision (img X) m b = Ok Pass
  | (X', Ok Disposed) => disposed X X'
  | (X', Ok (Enter ref t c)) => kept X X' ∧ asBig (im_topicId m) = Ok t ∧ c = cutCapture (img X') ref ∧
      (ty = PUB → ∃ r, role_at (img X') ref = Some r ∧ isRoot r = true) ∧ (ty = KILL → jget (axonRoles (img X')) t = Some ref)
  | (X', Throw _) => kept X X'
  end.

(** C15. No write is swallowed, and none leaves twice.  A publish or a deletion that reaches a node is
    passed to the kernel with nothing changed, or disposed of by exactly one frame or one report of
    its loss, or taken in by a role - a publish by a root only - with nothing sent; where the handler
    fails, nothing was sent either.  And a write refused at the cut is disposed of by exactly one. *)
Theorem write_disposed JSON_parse E R b m X :
  entered_ok PUB b m X (onPub_enter JSON_parse E R b m X) ∧ entered_ok KILL b m X (onKill_enter JSON_parse E R b m X) ∧
  ∀ ty t, match cutDisposition JSON_parse E R ty t m X with
          | (X', Ok _) => disposed X X'
          | (X', Throw _) => kept X X'
          end.
Proof.
  split_and!.
  - pose proof (onPub_enter_ends JSON_parse E R b m X) as H. destruct (onPub_enter _ _ _ _ _ _) as [X' [[| |ref t c]|x]] eqn:Eo; [|done| |done].
    + eapply front_passed; [|exact Eo]. intros t Y Z. cbv beta zeta. destruct (liveCloserRoot _ _ _ _) as [G [root|]]; [apply lift_not_passed|].
      cbv zeta. destruct (seat_write _ _ _ _ _) as [Z' [[ref|]|x]]; cbn [throws]; [|done|done]. cbv zeta.
      destruct (role_at _ _) as [r|]; [destruct (isRoot r); [done|]|]; apply lift_not_passed.
    + destruct (onPub_enter_root _ _ _ _ _ _ _ _ _ _ Eo) as (H1 & H2 & H3). by split_and!.
  - pose proof (onKill_enter_ends JSON_parse E R b m X) as H. destruct (onKill_enter _ _ _ _ _ _) as [X' [[| |ref t c]|x]] eqn:Eo; [|done| |done].
    + eapply front_passed; [|exact Eo]. intros t Y Z. cbv beta zeta. destruct (if jhas _ _ then _ else _) as [G [root|]]; [apply lift_not_passed|].
      cbv zeta. destruct (seat_write _ _ _ _ _) as [Z' [[ref|]|x]]; cbn [throws]; done.
    + destruct (onKill_enter_role _ _ _ _ _ _ _ _ _ _ Eo) as (H1 & H2 & H3). by split_and!.
  - intros ty t. pose proof (cutDisposition_ends JSON_parse E R ty t m X) as H. by destruct (cutDisposition _ _ _ _ _ _ _) as [X' [u|x]].
Qed.

(** ** A held node's forwards *)

Definition fwd_ok (X : inode) : Prop := jwf (i_fwd X) ∧ jsize (i_fwd X) ≤ HOLD_FWD_MAX.

Lemma live_holds_sub E l : jwf l → jwf (live_holds E l) ∧ jsize (live_holds E l) ≤ jsize l ∧
  ∀ k f, jget (live_holds E l) k = Some f → jget l k = Some f.
Proof.
  intros Hw. unfold live_holds. assert (∀ xs m, jwf m → jsize m ≤ jsize l → (∀ k f, jget m k = Some f → jget l k = Some f) →
    let m' := foldl (λ m p, if HOLD_REENTRY_MS <=? now E - hf_at p.2 then jdel m p.1 else m) m xs in
    jwf m' ∧ jsize m' ≤ jsize l ∧ ∀ k f, jget m' k = Some f → jget l k = Some f) as H; [|by apply H].
  induction xs as [|[k0 f0] xs IH]; intros m H1 H2 H3; [done|]. cbn [foldl]. apply IH; destruct (_ <=? _); try done.
  - by apply jwf_jdel.
  - etrans; [apply jsize_jdel_le|exact H2].
  - intros k f. destruct (decide (k = k0)) as [->|Hk]; [by rewrite jget_jdel_eq|]. rewrite jget_jdel_ne by done. apply H3.
Qed.

(** The tuple a return must match before it drops the beacon it relied on. *)
Definition same_generation (X : inode) (G : mgr) (h : hold) (ty : string) (t : Z) (tok : string) : Prop :=
  ∃ f b, jget (i_fwd X) tok = Some f ∧ hf_topic f = t ∧ hf_type f = ty ∧ hf_holdAt f = h_at h ∧ hf_root f = h_to h ∧
    jget (rootBeacons G) t = Some b ∧ lc (b_root b) = h_to h ∧ hf_beaconAt f = Some (b_at b).

Section hold.
Context (E : env) (R : draws) (send : imsg → string → inode → inode * js_result unit) (ty : string) (isSub : bool) (t : Z).
Context (Hsend : ∀ m to X, i_fwd (send m to X).1 = i_fwd X).

Lemma holdIntercept_ledger m X : fwd_ok X → fwd_ok (holdIntercept E R send ty isSub t m X).1.
Proof using Hsend.
  intros [Hw Hs]. unfold holdIntercept. destruct (negb _); [done|]. destruct (holdFor E (img X) t) as [G1 [h|]]; [|done]. cbv zeta.
  destruct (match live G1 t with Some _ => _ | None => false end); [done|]. change (i_fwd (put_img G1 X)) with (i_fwd X).
  destruct (im_holdFwd m) as [tok|].
  - destruct (jget (i_fwd X) tok ≫= _) as [f|]; [|done].
    split; cbn [fst]; (destruct (_ && _ && _)); cbn; try by apply jwf_jdel.
    all: pose proof (jsize_jdel_le (i_fwd X) tok); lia.
  - destruct (holdTarget E G1 t isSub) as [G2 [to|]]; [|done]. destruct (decide _); [done|].
    destruct (live_holds_sub E (i_fwd X) Hw) as (H1 & H2 & _). change (i_fwd (put_img G2 (put_img G1 X))) with (i_fwd X).
    cbn [i_fwd put_fwd]. destruct (HOLD_FWD_MAX <=? jsize (live_holds E (i_fwd X))) eqn:El; [split; [done|cbn; lia]|].
    set (Y := put_fwd (jset _ _ _) _). assert (fwd_ok Y) as HY.
    { split; [by apply jwf_jset|]. unfold Y. cbn [i_fwd put_fwd]. rewrite jsize_jset. zb. destruct (jhas _ _); lia. }
    pose proof (Hsend (with_hold (d_hold R) m) to Y) as Hf. destruct (send _ _ Y) as [Y' [u|x]]; cbn [fst] in *; unfold fwd_ok; by rewrite Hf.
Qed.

Lemma held_copy_final m X tok G h : viaEmpty m = true → im_holdFwd m = Some tok → holdFor E (img X) t = (G, Some h) →
  (∀ ref r, live G t = Some (ref, r) → isRoot r = false ∧ isSub = false) →
  let '(X', o) := holdIntercept E R send ty isSub t m X in
  o = Ok true ∧ (∃ why, gone_out (img X') = gone_out (img X) ++ [UndeliverableE t why]) ∧ flights (i_wf X') = flights (i_wf X) ∧
  (∀ k f, k ≠ tok → jget (i_fwd X') k = Some f ↔ jget (i_fwd X) k = Some f) ∧
  (rootBeacons (img X') ≠ rootBeacons G →
    same_generation X G h ty t tok ∧ rootBeacons (img X') = jdel (rootBeacons G) t ∧ jget (i_fwd X') tok = None).
Proof.
  intros Hv Ht Hh Hr. unfold holdIntercept. rewrite Hv, Hh, Ht. cbn [negb]. cbv zeta.
  pose proof (quiet_holdFor E (img X) t) as Hq. rewrite Hh in Hq. cbn [fst] in Hq.
  assert (match live G t with Some (_, r) => isRoot r || isSub | None => false end = false) as ->.
  { destruct (live G t) as [[ref r]|]; [|done]. by destruct (Hr ref r eq_refl) as [-> ->]. }
  change (i_fwd (put_img G X)) with (i_fwd X).
  assert (∀ Y why, gone_out (img Y) = gone_out G → gone_out (img (undeliverable t why Y)) = gone_out (img X) ++ [UndeliverableE t why]) as Hu.
  { intros Y why HY. change (gone_out (emit (img Y) (UndeliverableE t why)) = gone_out (img X) ++ [UndeliverableE t why]).
    rewrite out_emit, HY, Hq. done. }
  destruct (jget (i_fwd X) tok) as [f|] eqn:Ef; cbn [mbind option_bind].
  2: { split; [done|]. split; [eexists; by apply Hu|]. split; [done|]. split; [done|]. by intros []. }
  destruct (bool_decide (hf_topic f = t)) eqn:E1; [destruct (bool_decide (hf_type f = ty)) eqn:E2|]; cbn [andb].
  2-3: split; [done|]; (split; [eexists; by apply Hu|]); (split; [done|]); (split; [done|]); by intros [].
  set (dropped := bool_decide (h_at h = _) && _ && _). split; [done|].
  split; [eexists; apply Hu; by destruct dropped|]. split; [by destruct dropped|]. split.
  { intros k f' Hk. destruct dropped; cbn; by rewrite jget_jdel_ne. }
  destruct dropped eqn:Ed; [|by intros []]. intros _. unfold dropped in Ed. apply andb_true_iff in Ed as [[D1 D2]%andb_true_iff D3].
  apply bool_decide_eq_true in E1, E2, D1, D2. split; [|split; [done|cbn; apply jget_jdel_eq]].
  unfold beacon_for in D3. destruct (jget (rootBeacons G) t) as [b|] eqn:Eb; [|done]. cbn [mbind option_bind] in D3.
  destruct (bool_decide (lc (b_root b) = hf_root f)) eqn:D4; [|done]. apply bool_decide_eq_true in D3, D4.
  exists f, b. split_and!; congruence.
Qed.
End hold.

(** A held forward that comes back ends there.  The ledger of the forwards of a held node never
    exceeds its bound.  And while the hold lasts, at a node that is not the root, a bare copy that
    carries any hold token is consumed, reported lost once and forwarded to nobody, whatever the state
    of the token; no flight opens; and the beacon it relied on is dropped only where the token is this
    node's own for this topic and verb, and hold and beacon are still the ones it was sent under. *)
Theorem held_forward_is_final E R send ty isSub t m X : fwd_ok X → (∀ m to X, i_fwd (send m to X).1 = i_fwd X) →
  let '(X', o) := holdIntercept E R send ty isSub t m X in
  fwd_ok X' ∧
  ∀ tok G h, viaEmpty m = true → im_holdFwd m = Some tok → holdFor E (img X) t = (G, Some h) →
    (∀ ref r, live G t = Some (ref, r) → isRoot r = false ∧ isSub = false) →
    o = Ok true ∧ (∃ why, gone_out (img X') = gone_out (img X) ++ [UndeliverableE t why]) ∧ flights (i_wf X') = flights (i_wf X) ∧
    (∀ k f, k ≠ tok → jget (i_fwd X') k = Some f ↔ jget (i_fwd X) k = Some f) ∧
    (rootBeacons (img X') ≠ rootBeacons G →
      same_generation X G h ty t tok ∧ rootBeacons (img X') = jdel (rootBeacons G) t ∧ jget (i_fwd X') tok = None).
Proof.
  intros HX Hs. pose proof (holdIntercept_ledger E R send ty isSub t Hs m X HX) as H1.
  pose proof (held_copy_final E R send ty isSub t m X) as H2. destruct (holdIntercept _ _ _ _ _ _ _ _) as [X' o]. split; [exact H1|exact H2].
Qed.

(** ** Verdicts *)

(** A forward's verdict moves state only on evidence.  A send the transport does not report on,
    or consumed somewhere it does not name as the addressed root, changes nothing; a reported failure
    changes nothing but the beacon of the topic, which it drops only if it is still the record that
    was captured before the send; and a send the addressed root is reported to have taken is a
    candidate for yielding to it, and nothing else. *)
Theorem forward_moves_on_evidence E corr G t rootHex rec r supported :
  let G' := forwardRootVerdict E corr G t rootHex rec r supported in
  G' = G ∨
  (dispatchVerdict r supported = VFailed ∧ ∃ b cur, rec = Some b ∧ jget (rootBeacons G) t = Some cur ∧ b_root cur = b_root b ∧
     b_at cur = b_at b ∧ G' = put_rootBeacons (jdel (rootBeacons G) t) G) ∨
  (∃ n at_, r = DVerdict true at_ ∧ parseHex rootHex = Some n ∧ (at_ = JBig n ∨ ∃ s, at_ = JStr s ∧ parseHex s = Some n) ∧
     G' = (mergeCandidate E corr G t rootHex None "defer-confirmed").1).
Proof.
  cbv zeta. unfold forwardRootVerdict. destruct (dispatchVerdict r supported) eqn:Ev; [| |by left|by left].
  - destruct (dispatchAttributedTo r rootHex) eqn:Ea; [|by left]. right. right. unfold dispatchAttributedTo in Ea.
    destruct r as [[|] a| |a]; cbn in Ev; [|done|done|by destruct (bool_decide _)].
    destruct (parseHex rootHex) as [n|]; [|done]. exists n, a. split_and!; [done|done| |done].
    destruct a as [| | | | | |z|s|]; try done; [left|right]; [zb; by subst|]. apply bool_decide_eq_true in Ea. by exists s.
  - destruct rec as [b|]; [|by left]. destruct (jget (rootBeacons G) t) as [cur|]; [|by left].
    destruct (bool_decide (b_root cur = b_root b)) eqn:E1; cbn [andb]; [|by left]. destruct (b_at cur =? b_at b) eqn:E2; [|by left].
    right. left. apply bool_decide_eq_true in E1. zb. split; [done|]. by exists b, cur.
Qed.

(** * Witnesses and observed behaviour *)

Definition demo_draws : draws := mk_draws "h1" "g1" "f1" "a1".
Definition demo_ienv : env := mk_env 1000 1000 (Some [JBig 8; JBig 7]) None true false.
Definition demo_hints : hints := mk_hints (JBig 7) None JUndefined JUndefined.
Definition demo_killjson : json :=
  JObject [("topicId", JText (idHex 9)); ("msgId", JText "m1"); ("ts", JNumber 900); ("seq", JNumber 1);
           ("signerPubkey", JText stranger); ("signature", JText (ED25519 +:+ stranger +:+ stranger))].
Definition demo_write (via : list jsv) (hold : option string) : imsg :=
  mk_imsg (JStr (idHex 9)) via hold None false "good" demo_killjson None demo_hints.
(** A relay of topic 9 that knows a closer root by a fresh, verified beacon. *)
Definition demo_relay : inode :=
  mk_inode (new_wf (put_rootBeacons [(9, mk_beacon (idHex 8) 900 60000 (Some 3) true)]
                      (alloc (new_mgr (default_cfg 5)) 9 (makeRole 9 false 0)))) [].
Definition demo_heldnode : inode :=
  mk_inode (new_wf (put_stepDownHold [(9, mk_hold (idHex 8) 900 0)] (img demo_relay))) [("h0", mk_hfwd 950 9 "pubsub:pub" 900 (idHex 8) (Some 900))].

Lemma held_forward_is_final_witness :
  let send := hold_write demo_parse demo_ienv demo_draws PUB 9 in
  let X := holdIntercept demo_ienv demo_draws send "pubsub:pub" false 9 (demo_write [] (Some "h0")) demo_heldnode in
  X.2 = Ok true ∧ fwd_ok X.1 ∧ i_fwd X.1 = [] ∧ rootBeacons (img X.1) = [].
Proof.
  split; [vm_compute; reflexivity|]. split; [|split; vm_compute; reflexivity].
  assert (fwd_ok demo_heldnode) as Hok by (split; [apply (bool_decide_unpack _); vm_compute; exact I|vm_compute; discriminate]).
  pose proof (held_forward_is_final demo_ienv demo_draws (hold_write demo_parse demo_ienv demo_draws PUB 9) "pubsub:pub" false 9
    (demo_write [] (Some "h0")) demo_heldnode Hok) as H.
  destruct (holdIntercept _ _ _ _ _ _ _ _) as [X' o]. apply H. intros m to X. unfold hold_write, forwardToRoot.
  destruct (write_id _ _ _); [|reflexivity]. destruct (flightOpen _ _ _ _ _ _ _ _ _ _ _ _) as [W ack]. destruct (asBig _); reflexivity.
Defined.

Definition in_pub (X : inode) (m : imsg) : inode * js_result bool :=
  onPub demo_parse toy_sha demo_verify toy_region production demo_ienv demo_draws (λ _ G, G) (λ _, 1000)
    (λ _, mk_rep None None None None None) id None true m X.
Definition in_kill (X : inode) (m : imsg) : inode * js_result bool :=
  onKill demo_parse demo_verify demo_ienv demo_draws (λ _ G, G) (λ _, 1000) id None true m X.

(** The same relay forwards a publish to the root it knows, and keeps a deletion for itself: it is
    stamped with the relay's own counter and acknowledged, and no frame goes toward the root. *)
Example deletion_stops_at_a_relay :
  gone_out (img (in_pub demo_relay (demo_write [] None)).1) =
    [RootForward "pubsub:pub" 9 (idHex 8) None (Some (idHex 5, "f1", "a1"))] ∧
  gone_out (img (in_kill demo_relay (demo_write [] None)).1) = [] ∧
  AckUnsigned 7 9 "m1" 0 "kill" ∈ outbox (img (in_kill demo_relay (demo_write [] None)).1) ∧
  (λ r, (isRoot r, seq r, jhas (tombstones r) "m1")) <$> role_at (img (in_kill demo_relay (demo_write [] None)).1) 0 = Some (false, 1, true).
Proof.
  split; [vm_compute; reflexivity|]. split; [vm_compute; reflexivity|]. split; [|vm_compute; reflexivity].
  set (l := outbox _). vm_compute in l. unfold l. rewrite !elem_of_cons. naive_solver.
Qed.

(** A held node forwards a bare publish under its token; the copy that comes back ends there. *)
Example held_forward_returns :
  let X := (in_pub (mk_inode (i_wf demo_heldnode) []) (demo_write [] None)).1 in
  let Y := (in_pub X (demo_write [] (Some "h1"))).1 in
  gone_out (img X) = [RootForward "pubsub:pub" 9 (idHex 8) (Some "h1") (Some (idHex 5, "f1", "a1"))] ∧
  gone_out (img Y) = gone_out (img X) ++ [UndeliverableE 9 "step-down-hold"] ∧ rootBeacons (img Y) = [].
Proof. split_and!; vm_compute; reflexivity. Qed.
