(* ===== verification/Replicate.v ===== *)
(** Replicate.v - how a root's history reaches other nodes and what that proves
    (src/src/pubsub/repairPlane.js: [_replicateRole], [_inheritCohort], [_nearestReachable],
    [_replicateRoots]).

    A call of [_replicateRole] has two awaits: the search for the cohort, and the verdicts of its
    sends.  A call in between is a job that waits ([rtask]); it holds the role object, not the topic.
    What it returns is evidence for the durability ledger of the role ([Durability]).  A run is any
    sequence of ticks, eager calls, resumptions and changes of the roles by the other mixins. *)
From stdpp Require Import base gmap sets list strings.
From Stdlib Require Import ZArith Lia.
From S2P Require Import Prelude HexId Role TopicStore.
From S2P Require Durability MergeMachine Ingress.
#[local] Existing Instance Durability.evidence_kind_eq_dec.
#[local] Open Scope Z_scope.
#[local] Open Scope js_scope.
#[local] Set Default Proof Using "Type".

(** * Data *)

Definition ROOT_REPLICATE_FULL_MS : Z := 60000.
Definition REPLICATE_FULL_BUDGET : Z := 32.
Definition RENEW_MS : Z := 60000.
Definition ROOT_VERIFY_MS : Z := 45000.

(** The verdict on one push. *)
Definition pverdict := MergeMachine.verdict.
#[export] Instance pverdict_eq_dec : EqDecision pverdict.
Proof. solve_decision. Defined.

(** [`${cache.length}:${highWater}:${tombstones.size}`] *)
Definition signature : Type := Z * Z * Z.
Definition sig_of (r : role) : signature := (Z.of_nat (length (cache r)), highWater r, jsize (tombstones r)).

(** What a role object keeps of its replication: [replicas], [attempted], [sync.sig],
    [sync.lastFullAt], [inheritRefused], [verifySeen]. *)
Record repl := mk_repl {
  rp_replicas : jmap string Z; rp_attempted : jmap string (Z * pverdict); rp_sig : option signature;
  rp_lastFullAt : option Z; rp_refused : jmap string Z; rp_verifySeen : option (Z * list string)
}.
Definition new_repl : repl := mk_repl [] [] None None [] None.
Definition with_replicas (v : jmap string Z) (P : repl) : repl :=
  mk_repl v (rp_attempted P) (rp_sig P) (rp_lastFullAt P) (rp_refused P) (rp_verifySeen P).
Definition with_attempted (v : jmap string (Z * pverdict)) (P : repl) : repl :=
  mk_repl (rp_replicas P) v (rp_sig P) (rp_lastFullAt P) (rp_refused P) (rp_verifySeen P).
Definition with_pushed (s : signature) (at_ : Z) (P : repl) : repl :=
  mk_repl (rp_replicas P) (rp_attempted P) (Some s) (Some at_) (rp_refused P) (rp_verifySeen P).
Definition without_sig (P : repl) : repl :=
  mk_repl (rp_replicas P) (rp_attempted P) None (rp_lastFullAt P) (rp_refused P) (rp_verifySeen P).
Definition with_refused (v : jmap string Z) (P : repl) : repl :=
  mk_repl (rp_replicas P) (rp_attempted P) (rp_sig P) (rp_lastFullAt P) v (rp_verifySeen P).

(** Options and the adapter: [rootReplicas], [replicaInherit], whether it has [findKClosest]. *)
Record rcfg := mk_rcfg { rc_K : Z; rc_inherit : bool; rc_find : bool }.

(** Why nothing was sent. *)
Inductive nowhy := NotReplicating | Dismantling | NothingToPreserve | LookupFailed | NoCohort | Deferred.

(** What [_replicateRole] returns. *)
Record outcome := mk_oc {
  oc_attempted : Z; oc_verified : Z; oc_failed : Z; oc_unsupported : Z; oc_violation : Z;
  oc_why : option nowhy; oc_dispatched : bool; oc_snapshot : bool; oc_noCohort : bool
}.
Definition nil_ (why : nowhy) : outcome :=
  mk_oc 0 0 0 0 0 (Some why) false false (match why with NoCohort => true | _ => false end).
(** The ledger's view of it. *)
Definition rep_of (o : outcome) : Durability.rep :=
  Durability.mk_rep (Some (oc_noCohort o)) (Some (oc_dispatched o)) (Some (oc_snapshot o)) (Some (oc_verified o)) (Some (oc_attempted o)).

(** * The cohort *)

(** What the search answered: [findKClosest] resolved to a list or rejected; without it, the
    neighbours, or a throw. *)
Inductive disc := ByFind (l : option (list jsv)) | ByNeighbors (l : option (list jsv)).

(** The readable ids that are neither this node nor the bridge. *)
Definition eligible (self : Z) (bridge : option Z) (l : list jsv) : list Z :=
  filter (λ b, b ≠ self ∧ bridge ≠ Some b) (omap (λ v, catch (asId production v)) l).

(** [if (!seen.has(hex)) { seen.add(hex); out.push(hex) }] *)
Definition add_once (acc : list string) (hex : string) : list string := if bool_decide (hex ∈ acc) then acc else acc ++ [hex].
Definition candidates (self : Z) (bridge : option Z) (l : list jsv) : list string :=
  foldl add_once [] (lc ∘ idHex <$> eligible self bridge l).

Definition dist (t : Z) (hex : string) : Z := match idBigS hex with Some b => Z.lxor b t | None => 0 end.

Definition nearestReachable (self t K : Z) (bridge : option Z) (neighbors : list jsv) : list string :=
  if K <=? 0 then []
  else lc ∘ idHex <$> take (Z.to_nat K) (sort_by (λ b, Z.lxor b t) (eligible self bridge neighbors)).

(** [_inheritCohort]; the second bridge is [_closerBornBridge]. *)
Definition refusals (now : Z) (P : repl) : jmap string Z := filter (λ p, negb (RENEW_MS <=? now - p.2) = true) (rp_refused P).
Definition readable (s : string) : option string := lc ∘ idHex <$> idBigS s.
Definition inheritPool (cf : rcfg) (self now : Z) (bridges : list Z) (r : role) (P : repl) (discovered : list string) : list string :=
  let refused := refusals now P in
  let fresh := λ h, negb (jhas refused h) in
  let skip := lc ∘ idHex <$> bridges in
  let ids := discovered ++ filter (λ h, fresh (lc h) = true) (subscribers r).*1
             ++ (match rp_verifySeen P with
                 | Some (at_, seen) => if now - at_ <=? 2 * ROOT_VERIFY_MS then filter (λ h, fresh h = true) seen else []
                 | None => []
                 end) in
  foldl add_once [] (filter (λ h, h ≠ lc (idHex self) ∧ h ∉ skip) (omap readable ids)).
Definition inheritCohort (cf : rcfg) (self t now : Z) (bridges : list Z) (r : role) (P : repl) (discovered : list string) : repl * list string :=
  if rc_K cf <=? 0 then (P, [])
  else (with_refused (refusals now P) P,
        take (Z.to_nat (rc_K cf)) (sort_by (dist t) (inheritPool cf self now bridges r P discovered))).

(** The cohort and whether the search for it failed. *)
Definition cohort (cf : rcfg) (self t now : Z) (bridge cbBridge : option Z) (r : role) (P : repl) (d : disc) : repl * list string * bool :=
  let inherited := λ l, inheritCohort cf self t now (option_list bridge ++ option_list cbBridge) r P l in
  match d with
  | ByFind l =>
      let cand := candidates self bridge (default [] l) in
      ((if rc_inherit cf then inherited cand else (P, take (Z.to_nat (rc_K cf)) cand)), bool_decide (l = None))
  | ByNeighbors l =>
      let want := match l with Some l => nearestReachable self t (rc_K cf) bridge l | None => [] end in
      ((if rc_inherit cf then inherited want else (P, want)), bool_decide (l = None))
  end.

(** * One call *)

(** The returns before the first await. *)
Definition replicate_enter (cf : rcfg) (r : role) : option nowhy :=
  if (rc_K cf =? 0) || negb (isRoot r) then Some NotReplicating
  else if dismantling r then Some Dismantling
  else if Nat.eqb (length (cache r)) 0 && (jsize (tombstones r) =? 0) then Some NothingToPreserve
  else None.

(** Push everything: the state changed, a member holds nothing, or a minute has passed. *)
Definition needs_full (now : Z) (r : role) (P : repl) (want : list string) : bool :=
  negb (bool_decide (Some (sig_of r) = rp_sig P)) || existsb (λ h, negb (jhas (rp_replicas P) h)) want
  || (ROOT_REPLICATE_FULL_MS <=? now - default 0 (rp_lastFullAt P)).

Definition prune_to {V} (want : list string) (m : jmap string V) : jmap string V := filter (λ p, p.1 ∈ want) m.

(** Between the two awaits, with the tick's budget ([left], [deferredAt]) where there is one. *)
Record plan := mk_plan {
  pl_repl : repl; pl_budget : option (Z * Z); pl_cursor : option Z; pl_out : nowhy + (list string * bool * signature)
}.
Definition replicate_plan (now idx : Z) (r : role) (P : repl) (want : list string) (failed : bool) (budget : option (Z * Z)) : plan :=
  let P := with_attempted (prune_to want (rp_attempted P)) (with_replicas (prune_to want (rp_replicas P)) P) in
  if bool_decide (want = []) then
    mk_plan (with_attempted [] P) budget None (inl (if failed then LookupFailed else NoCohort))
  else
    let full := needs_full now r P want in
    match budget with
    | Some (left_, deferredAt) =>
        if full then
          if left_ <=? 0 then
            if deferredAt <? 0 then mk_plan P (Some (left_, idx)) (Some idx) (inl Deferred) else mk_plan P budget None (inl Deferred)
          else mk_plan P (Some (left_ - 1, deferredAt)) None (inr (want, full, sig_of r))
        else mk_plan P budget None (inr (want, full, sig_of r))
    | None => mk_plan P None None (inr (want, full, sig_of r))
    end.

(** The verdicts, in the order of the cohort. *)
Definition settle_one (cf : rcfg) (now : Z) (st : repl * outcome) (x : string * pverdict) : repl * outcome :=
  let '(P, o) := st in
  let '(hex, v) := x in
  match v with
  | MergeMachine.VConsumed =>
      (with_replicas (jset (rp_replicas P) hex now) (with_refused (jdel (rp_refused P) hex) P),
       mk_oc (oc_attempted o) (oc_verified o + 1) (oc_failed o) (oc_unsupported o) (oc_violation o) (oc_why o) (oc_dispatched o) (oc_snapshot o) (oc_noCohort o))
  | _ =>
      let P := if rc_inherit cf then with_refused (jset (rp_refused P) hex now) P else P in
      (with_attempted (jset (rp_attempted P) hex (now, v)) P,
       let f := if bool_decide (v = MergeMachine.VFailed) then 1 else 0 in
       let u := if bool_decide (v = MergeMachine.VUnsupported) then 1 else 0 in
       let x := if bool_decide (v = MergeMachine.VViolation) then 1 else 0 in
       mk_oc (oc_attempted o) (oc_verified o) (oc_failed o + f) (oc_unsupported o + u) (oc_violation o + x) (oc_why o) (oc_dispatched o) (oc_snapshot o) (oc_noCohort o))
  end.
Definition replicate_settle (cf : rcfg) (now : Z) (want : list string) (full : bool) (s : signature) (vs : list pverdict) (P : repl) : repl * outcome :=
  let '(P, o) := foldl (settle_one cf now) (P, mk_oc (Z.of_nat (length want)) 0 0 0 0 None true full false) (zip want vs) in
  (if full then with_pushed s now P else P, o).

(** * Runs *)

(** Who asked: the tick, the ingress of the write [msgId], or the ingress of a kill. *)
Inductive origin := Periodic | Eager (msgId : string) | Quiet.
Record job := mk_job { j_t : Z; j_ref : nat; j_now : Z; j_bridge : option Z; j_budget : option nat; j_idx : Z; j_origin : origin }.
Inductive rtask :=
| RDisc (j : job)
| RSettle (j : job) (want : list string) (full : bool) (s : signature)
| RRecord (j : job) (o : outcome).

(** What happened: a round of pushes with what a full one carried, its verdicts, an empty network, a
    write stamped where no replication is configured. *)
Inductive revent :=
| Pushed (ref : nat) (budget : option nat) (want : list string) (full : bool) (carried : list string)
| Settled (ref : nat) (full : bool) (vs : list (string * pverdict))
| Nobody (ref : nat)
| Unconfigured (ref : nat).

Record rnode := mk_rnode {
  rn_mgr : mgr; rn_repl : nat → repl; rn_led : nat → Durability.ledger; rn_cursor : Z;
  rn_budgets : list (Z * Z); rn_tasks : list rtask; rn_log : list revent
}.
Definition set_mgr (v : mgr) (N : rnode) : rnode := mk_rnode v (rn_repl N) (rn_led N) (rn_cursor N) (rn_budgets N) (rn_tasks N) (rn_log N).
Definition set_repl (ref : nat) (P : repl) (N : rnode) : rnode :=
  mk_rnode (rn_mgr N) (λ r, if decide (r = ref) then P else rn_repl N r) (rn_led N) (rn_cursor N) (rn_budgets N) (rn_tasks N) (rn_log N).
Definition set_led (ref : nat) (L : Durability.ledger) (N : rnode) : rnode :=
  mk_rnode (rn_mgr N) (rn_repl N) (λ r, if decide (r = ref) then L else rn_led N r) (rn_cursor N) (rn_budgets N) (rn_tasks N) (rn_log N).
Definition set_cursor (v : Z) (N : rnode) : rnode := mk_rnode (rn_mgr N) (rn_repl N) (rn_led N) v (rn_budgets N) (rn_tasks N) (rn_log N).
Definition set_budgets (v : list (Z * Z)) (N : rnode) : rnode := mk_rnode (rn_mgr N) (rn_repl N) (rn_led N) (rn_cursor N) v (rn_tasks N) (rn_log N).
Definition set_tasks (v : list rtask) (N : rnode) : rnode := mk_rnode (rn_mgr N) (rn_repl N) (rn_led N) (rn_cursor N) (rn_budgets N) v (rn_log N).
Definition await (x : rtask) (N : rnode) : rnode := set_tasks (rn_tasks N ++ [x]) N.
Definition note (e : revent) (N : rnode) : rnode := mk_rnode (rn_mgr N) (rn_repl N) (rn_led N) (rn_cursor N) (rn_budgets N) (rn_tasks N) (rn_log N ++ [e]).
Definition new_rnode (G : mgr) (max maxAttempts : Z) : rnode :=
  mk_rnode G (λ _, new_repl) (λ _, Durability.new_ledger max maxAttempts) 0 [] [] [].

(** The outside at an event: the clock, the bridges, the neighbours, and what the adapter declares. *)
Record renv := mk_renv { e_now : Z; e_bridge : option Z; e_cbBridge : option Z; e_neighbors : option (list jsv); e_declares : option bool }.

(** The answer of a push: the routing verdict, or a throw or rejection. *)
Definition push_verdict (declares : option bool) (a : option Ingress.dresult) : pverdict :=
  match a with Some r => Ingress.dispatchVerdict r declares | None => MergeMachine.VFailed end.

Inductive rop :=
| Tick
| Start (ref : nat) (o : origin)                       (** an eager call of the ingress *)
| Found (i : nat) (l : option (list jsv))              (** the search of task [i] *)
| Answered (i : nat) (vs : list (option Ingress.dresult))
| Recorded (i : nat)                                   (** the outcome reaches the ledger *)
| Opened (ref : nat) (msgId : string)                  (** a write is stamped *)
| Cancelled (ref : nat) (msgId : string)
| Reseat (ref : nat)                                   (** the successor gate asks for a full push *)
| World (G : mgr) (verify : nat → option (Z * list string)).   (** whatever the other mixins do *)

Section run.
Context (cf : rcfg) (self : Z).

(** The cohort is there: prune, decide, send. *)
Definition proceed (E : renv) (j : job) (r : role) (d : disc) (N : rnode) : rnode :=
  let '(P, want, failed) := cohort cf self (j_t j) (e_now E) (j_bridge j) (e_cbBridge E) r (rn_repl N (j_ref j)) d in
  let p := replicate_plan (j_now j) (j_idx j) r P want failed (j_budget j ≫= λ b, rn_budgets N !! b) in
  let '(x, es) := match pl_out p with
                  | inl why => (RRecord j (nil_ why), match why with NoCohort => [Nobody (j_ref j)] | _ => [] end)
                  | inr (want, full, s) =>
                      (RSettle j want full s, [Pushed (j_ref j) (j_budget j) want full (if full then e_msgId <$> cache r else [])])
                  end in
  mk_rnode (rn_mgr N) (λ r, if decide (r = j_ref j) then pl_repl p else rn_repl N r) (rn_led N) (default (rn_cursor N) (pl_cursor p))
    (match j_budget j, pl_budget p with Some b, Some v => <[b := v]> (rn_budgets N) | _, _ => rn_budgets N end)
    (rn_tasks N ++ [x]) (rn_log N ++ es).

Definition start (E : renv) (j : job) (r : role) (N : rnode) : rnode :=
  match replicate_enter cf r with
  | Some why => await (RRecord j (nil_ why)) N
  | None => if rc_find cf then await (RDisc j) N else proceed E j r (ByNeighbors (e_neighbors E)) N
  end.

(** [_replicateRoots] *)
Definition tick_at (E : renv) (b : nat) (keys : list Z) (N : rnode) (idx : nat) : rnode :=
  match keys !! idx with
  | Some t =>
      match live (rn_mgr N) t with
      | Some (ref, r) =>
          if negb (isRoot r) || dismantling r then N
          else start E (mk_job t ref (e_now E) (e_bridge E) (Some b) (Z.of_nat idx) Periodic) r N
      | None => N
      end
  | None => N
  end.
Definition rotation (start n : nat) : list nat := (λ i, ((start + i) mod n)%nat) <$> List.seq 0 n.
Definition replicateRoots (E : renv) (N : rnode) : rnode :=
  if rc_K cf =? 0 then N
  else
    let keys := (axonRoles (rn_mgr N)).*1 in
    match keys with
    | [] => N
    | _ =>
        let n := length keys in
        let b := length (rn_budgets N) in
        foldl (tick_at E b keys) (set_budgets (rn_budgets N ++ [(REPLICATE_FULL_BUDGET, -1)]) N)
          (rotation (Z.to_nat (rn_cursor N mod Z.of_nat n)) n)
    end.

(** What the ledger is told. *)
Definition recorded (E : renv) (j : job) (o : outcome) (N : rnode) : rnode :=
  let L := rn_led N (j_ref j) in
  match j_origin j with
  | Periodic =>
      match role_at (rn_mgr N) (j_ref j) with
      | Some r => set_led (j_ref j) (Durability.recordTopic (e_now E) L (topicId r) (rep_of o)).1 N
      | None => N
      end
  | Eager msgId => set_led (j_ref j) (Durability.recordOne (e_now E) L msgId (rep_of o)).1 N
  | Quiet => N
  end.
(** Whether the ingress reports the write as durable. *)
Definition confirmed (o : outcome) : bool := negb ((0 <? oc_attempted o) && (oc_verified o =? 0)).

Definition drop_task (i : nat) (N : rnode) : rnode := set_tasks (delete i (rn_tasks N)) N.

Definition rstep (N : rnode) (x : renv * rop) : rnode :=
  let E := x.1 in
  match x.2 with
  | Tick => replicateRoots E N
  | Start ref o =>
      match role_at (rn_mgr N) ref with
      | Some r => start E (mk_job (topicId r) ref (e_now E) (e_bridge E) None (-1) o) r N
      | None => N
      end
  | Found i l =>
      match rn_tasks N !! i with
      | Some (RDisc j) =>
          match role_at (rn_mgr N) (j_ref j) with
          | Some r => proceed E j r (ByFind l) (drop_task i N)
          | None => N
          end
      | _ => N
      end
  | Answered i vs =>
      match rn_tasks N !! i with
      | Some (RSettle j want full s) =>
          let vs := push_verdict (e_declares E) <$> vs in
          if Nat.eqb (length vs) (length want) then
            let '(P, o) := replicate_settle cf (j_now j) want full s vs (rn_repl N (j_ref j)) in
            await (RRecord j o) (note (Settled (j_ref j) full (zip want vs)) (set_repl (j_ref j) P (drop_task i N)))
          else N
      | _ => N
      end
  | Recorded i =>
      match rn_tasks N !! i with
      | Some (RRecord j o) => recorded E j o (drop_task i N)
      | _ => N
      end
  | Opened ref msgId =>
      match role_at (rn_mgr N) ref with
      | Some r =>
          let L := Durability.open (e_now E) (rn_led N ref) msgId (topicId r) in
          if rc_K cf =? 0 then set_led ref (Durability.noCohortConfigured (e_now E) L msgId) (note (Unconfigured ref) N)
          else set_led ref L N
      | None => N
      end
  | Cancelled ref msgId => set_led ref (Durability.cancel (e_now E) (rn_led N ref) msgId) N
  | Reseat ref => set_repl ref (without_sig (rn_repl N ref)) N
  | World G verify =>
      mk_rnode G (λ r, let P := rn_repl N r in mk_repl (rp_replicas P) (rp_attempted P) (rp_sig P) (rp_lastFullAt P) (rp_refused P) (verify r))
        (rn_led N) (rn_cursor N) (rn_budgets N) (rn_tasks N) (rn_log N)
  end.
Definition rrun (N : rnode) (l : list (renv * rop)) : rnode := foldl rstep N l.
End run.

(** * Evidence *)

Definition took (vs : list (string * pverdict)) : bool := existsb (λ x, bool_decide (x.2 = MergeMachine.VConsumed)) vs.
(** The full pushes of a role that nobody took. *)
Definition is_missed (ref : nat) (e : revent) : bool :=
  match e with Settled r true vs => Nat.eqb r ref && negb (took vs) | _ => false end.
Definition missed (l : list revent) (ref : nat) : Z := Z.of_nat (length (filter (λ e, is_missed ref e = true) l)).
Definition is_taken (ref : nat) (e : revent) : bool :=
  match e with Settled r true vs => Nat.eqb r ref && took vs | _ => false end.
Definition taken (l : list revent) (ref : nat) : Prop := ∃ e, e ∈ l ∧ is_taken ref e = true.

(** An outcome on its way to the ledger that counts as a failed attempt. *)
Definition is_zero (ref : nat) (x : rtask) : bool :=
  match x with
  | RRecord j o => Nat.eqb (j_ref j) ref && bool_decide (Durability.classify (rep_of o) = Durability.KEvidence) && (oc_verified o <=? 0)
  | _ => false
  end.
Definition zeros (l : list rtask) (ref : nat) : Z := Z.of_nat (length (filter (λ x, is_zero ref x = true) l)).

(** What the ledger may say of a message. *)
Definition entry_ok (maxA : Z) (l : list revent) (ref : nat) (z : Z) (e : Durability.entry) : Prop :=
  match Durability.e_state e with
  | Durability.verified => taken l ref
  | Durability.expired => (Nobody ref ∈ l ∨ Unconfigured ref ∈ l) ∨ maxA ≤ missed l ref
  | Durability.cancelled => True
  | Durability.pending => Durability.e_attempts e + z ≤ missed l ref
  end.
Definition led_ok (maxA : Z) (l : list revent) (ref : nat) (z : Z) (L : Durability.ledger) : Prop :=
  jwf (Durability.l_m L) ∧ Durability.l_maxAttempts L = maxA ∧ z ≤ missed l ref ∧
  ∀ k e, jget (Durability.l_m L) k = Some e → entry_ok maxA l ref z e.
Definition task_ok (l : list revent) (x : rtask) : Prop :=
  match x with
  | RDisc _ => True
  | RSettle _ want _ _ => want ≠ []
  | RRecord j o =>
      match Durability.classify (rep_of o) with
      | Durability.KNoCohort => Nobody (j_ref j) ∈ l
      | Durability.KEvidence => 0 < oc_attempted o ∧ (0 < oc_verified o → taken l (j_ref j))
      | _ => True
      end
  end.
Record honest (maxA : Z) (N : rnode) : Prop := {
  ho_led : ∀ ref, led_ok maxA (rn_log N) ref (zeros (rn_tasks N) ref) (rn_led N ref);
  ho_task : ∀ x, x ∈ rn_tasks N → task_ok (rn_log N) x
}.

Lemma missed_snoc l e ref : missed (l ++ [e]) ref = missed l ref + (if is_missed ref e then 1 else 0).
Proof. unfold missed. rewrite filter_app, length_app, filter_cons, filter_nil. case_decide as H; [rewrite H|destruct (is_missed ref e); [done|]]; simpl; lia. Qed.
Lemma zeros_snoc l x ref : zeros (l ++ [x]) ref = zeros l ref + (if is_zero ref x then 1 else 0).
Proof. unfold zeros. rewrite filter_app, length_app, filter_cons, filter_nil. case_decide as H; [rewrite H|destruct (is_zero ref x); [done|]]; simpl; lia. Qed.
Lemma zeros_delete l i x ref : l !! i = Some x → zeros (delete i l) ref = zeros l ref - (if is_zero ref x then 1 else 0).
Proof.
  intros H. unfold zeros. rewrite <-(take_drop_middle _ _ _ H) at 2. rewrite delete_take_drop, !filter_app, filter_cons, !length_app.
  case_decide as Hd; [rewrite Hd; simpl; lia|]. destruct (is_zero ref x); [done|]. simpl. lia.
Qed.
Lemma taken_mono l l' ref : l ⊆ l' → taken l ref → taken l' ref.
Proof. intros Hl (e & He & ?). exists e. auto. Qed.

Lemma entry_ok_mono maxA l e' ref z z' e : z' ≤ z + (if is_missed ref e' then 1 else 0) →
  entry_ok maxA l ref z e → entry_ok maxA (l ++ [e']) ref z' e.
Proof.
  assert (l ⊆ l ++ [e']) as Hl by (intros x Hx; apply elem_of_app; by left).
  intros Hz. unfold entry_ok. rewrite missed_snoc. destruct (Durability.e_state e); [|by apply taken_mono| |done].
  - destruct (is_missed ref e'); lia.
  - intros [[H|H]|H]; [left; auto..|right; destruct (is_missed ref e'); lia].
Qed.
Lemma led_ok_mono maxA l e' ref z z' L : z' ≤ z + (if is_missed ref e' then 1 else 0) →
  led_ok maxA l ref z L → led_ok maxA (l ++ [e']) ref z' L.
Proof.
  intros Hz (H1 & H2 & H3 & H4). split_and!; [done..| |].
  - rewrite missed_snoc. destruct (is_missed ref e'); lia.
  - intros k e He. eapply entry_ok_mono; [exact Hz|]. by eapply H4.
Qed.
Lemma task_ok_mono l e' x : task_ok l x → task_ok (l ++ [e']) x.
Proof.
  assert (l ⊆ l ++ [e']) as Hl by (intros y Hy; apply elem_of_app; by left).
  destruct x as [j|j w f s|j o]; [done|done|]. cbn [task_ok]. destruct (Durability.classify _); [auto|done|done|].
  intros [? Ht]. split; [done|]. intros Hv. by eapply taken_mono, Ht.
Qed.
Lemma led_ok_less maxA l ref z z' L : z' ≤ z → led_ok maxA l ref z L → led_ok maxA l ref z' L.
Proof.
  intros Hz (H1 & H2 & H3 & H4). split_and!; [done|done|lia|]. intros k e He. specialize (H4 _ _ He).
  unfold entry_ok in *. destruct (Durability.e_state e); try done. lia.
Qed.

(** Ways a run keeps it. *)
Lemma honest_same maxA N N' : rn_led N' = rn_led N → rn_tasks N' = rn_tasks N → rn_log N' = rn_log N → honest maxA N → honest maxA N'.
Proof. intros E1 E2 E3 [H1 H2]. split; rewrite ?E1, ?E2, ?E3; done. Qed.
Lemma honest_note maxA N e : honest maxA N → honest maxA (note e N).
Proof.
  intros [H1 H2]. split; cbn [note rn_led rn_tasks rn_log].
  - intros ref. eapply led_ok_mono; [|apply H1]. destruct (is_missed ref e); lia.
  - intros x Hx. by apply task_ok_mono, H2.
Qed.
Lemma honest_await maxA N x : honest maxA N → task_ok (rn_log N) x → (∀ ref, is_zero ref x = false) → honest maxA (await x N).
Proof.
  intros [H1 H2] Hx Hz. split; cbn [await set_tasks rn_led rn_tasks rn_log].
  - intros ref. rewrite zeros_snoc, Hz, Z.add_0_r. apply H1.
  - intros y [Hy|Hy%list_elem_of_singleton]%elem_of_app; [by apply H2|by subst y].
Qed.
Lemma honest_drop maxA N i : honest maxA N → honest maxA (drop_task i N).
Proof.
  intros [H1 H2]. split; cbn [drop_task set_tasks rn_led rn_tasks rn_log].
  - intros ref. eapply led_ok_less; [|apply H1]. destruct (rn_tasks N !! i) as [x|] eqn:E.
    + rewrite (zeros_delete _ _ _ _ E). destruct (is_zero ref x); lia.
    + apply lookup_ge_None in E. rewrite delete_take_drop, take_ge, drop_ge, app_nil_r by lia. lia.
  - intros x Hx. apply H2. by eapply list_elem_of_delete_inv.
Qed.
Lemma honest_led maxA N ref L : honest maxA N → led_ok maxA (rn_log N) ref (zeros (rn_tasks N) ref) L → honest maxA (set_led ref L N).
Proof. intros [H1 H2] HL. split; [|done]. intros r. cbn [set_led rn_led rn_tasks rn_log]. by destruct (decide (r = ref)) as [->|]. Qed.

Lemma rec_entry_ok maxA l ref z e now v a : 0 < a → (0 < v → taken l ref) → z ≤ missed l ref → (v ≤ 0 → 1 ≤ z) →
  let z' := if v <=? 0 then z - 1 else z in
  entry_ok maxA l ref z e → entry_ok maxA l ref z' (Durability.rec_entry maxA now v a e).
Proof.
  intros Ha Hv Hz H1 z' He. unfold Durability.rec_entry. destruct (Durability.is_terminal e) eqn:Et.
  { unfold entry_ok, Durability.is_terminal in *. by destruct (Durability.e_state e). }
  assert (Durability.e_state e = Durability.pending) as Ep.
  { unfold Durability.is_terminal in Et. apply negb_false_iff, bool_decide_eq_true in Et. done. }
  unfold entry_ok in He. rewrite Ep in He. subst z'. destruct (0 <? v) eqn:E0; zb; [by apply Hv|].
  rewrite (proj2 (Z.leb_le v 0)) by done. destruct (_ || _) eqn:E1.
  - right. apply orb_true_iff in E1 as [E1|E1]; zb; lia.
  - unfold entry_ok. simpl. rewrite Ep. lia.
Qed.

Lemma led_ok_map maxA l ref z z' L L' f : z' ≤ z → led_ok maxA l ref z L → (∀ e, entry_ok maxA l ref z e → entry_ok maxA l ref z' (f e)) →
  (∀ k, jget (Durability.l_m L') k = f <$> jget (Durability.l_m L) k) → (Durability.l_m L').*1 = (Durability.l_m L).*1 →
  Durability.l_maxAttempts L' = Durability.l_maxAttempts L → led_ok maxA l ref z' L'.
Proof.
  intros Hz (H1 & H2 & H3 & H4) Hf Hg Hk Hm. split_and!; [unfold jwf in *; congruence|congruence|lia|].
  intros k e. rewrite Hg. destruct (jget (Durability.l_m L) k) as [e0|] eqn:E; [|done]. intros [= <-]. by eapply Hf, H4.
Qed.
Lemma led_ok_map_at maxA l ref z z' L L' m f : z' ≤ z → led_ok maxA l ref z L → (∀ e, entry_ok maxA l ref z e → entry_ok maxA l ref z' (f e)) →
  Durability.maps_entry L L' m f → led_ok maxA l ref z' L'.
Proof.
  intros Hz (H1 & H2 & H3 & H4) Hf (Hg & Hk & _ & Hm). split_and!; [unfold jwf in *; congruence|congruence|lia|].
  intros k e. rewrite Hg. destruct (decide (m = k)) as [->|].
  - destruct (jget (Durability.l_m L) k) as [e0|] eqn:E; [|done]. intros [= <-]. by eapply Hf, H4.
  - intros He. specialize (H4 _ _ He). unfold entry_ok in *. destruct (Durability.e_state e); try done. lia.
Qed.

Lemma led_ok_open maxA l ref z L now m t : led_ok maxA l ref z L → led_ok maxA l ref z (Durability.open now L m t).
Proof.
  intros H. pose proof H as (H1 & H2 & H3 & H4). destruct (Durability.open_get now L m t H1) as [->|(_ & _ & ->)]; [done|].
  set (L1 := Durability.with_m _ _). assert (jwf (Durability.l_m L1)) as Hw by by apply jwf_jset.
  destruct (Durability.prune_get L1 Hw) as (Hp & Hg & _), (Durability.prune_params L1) as [_ Hm].
  split_and!; [done|by rewrite Hm|done|]. intros k e He%Hg. cbn [L1 Durability.with_m Durability.l_m] in He. rewrite jget_jset in He.
  destruct (decide _); [injection He as <-; unfold entry_ok; simpl; lia|by eapply H4].
Qed.
Lemma exp_entry_ok maxA l ref z z' now why e : z' ≤ z → Nobody ref ∈ l ∨ Unconfigured ref ∈ l → entry_ok maxA l ref z e →
  entry_ok maxA l ref z' (Durability.exp_entry now why e).
Proof.
  intros Hz Hn He. unfold Durability.exp_entry. destruct (Durability.is_terminal e) eqn:Et; [|left; exact Hn].
  unfold entry_ok, Durability.is_terminal in *. by destruct (Durability.e_state e).
Qed.
Lemma led_ok_cancel maxA l ref z L now m : led_ok maxA l ref z L → led_ok maxA l ref z (Durability.cancel now L m).
Proof.
  intros H. eapply led_ok_map_at; [done|exact H| |apply Durability.cancel_maps]. intros e He. unfold Durability.can_entry.
  by destruct (Durability.is_terminal e).
Qed.

(** The outcome of a job at the ledger of its role. *)
Lemma honest_recorded maxA E j o i N : honest maxA N → rn_tasks N !! i = Some (RRecord j o) → honest maxA (recorded E j o (drop_task i N)).
Proof.
  intros H Hi. pose proof (honest_drop maxA N i H) as Hd. pose proof (ho_task _ _ H _ (list_elem_of_lookup_2 _ _ _ Hi)) as Ht.
  unfold recorded. set (ref := j_ref j) in *. cbn [drop_task set_tasks rn_led rn_mgr]. destruct H as [HL _]. specialize (HL ref).
  assert (zeros (delete i (rn_tasks N)) ref = zeros (rn_tasks N) ref - (if is_zero ref (RRecord j o) then 1 else 0)) as Ez
    by (by apply zeros_delete).
  unfold is_zero in Ez. fold ref in Ez. rewrite Nat.eqb_refl in Ez. cbn [andb] in Ez. cbn [task_ok] in Ht. fold ref in Ht.
  pose proof HL as (Hw & Hm & Hz & _).
  assert (∀ f, (Durability.classify (rep_of o) = Durability.KEvidence → 0 < oc_attempted o → (0 < oc_verified o → taken (rn_log N) ref) →
      ∀ e, entry_ok maxA (rn_log N) ref (zeros (rn_tasks N) ref) e → entry_ok maxA (rn_log N) ref (zeros (delete i (rn_tasks N)) ref) (f e)) →
    (Durability.classify (rep_of o) = Durability.KNoCohort → Nobody ref ∈ rn_log N →
      ∀ e, entry_ok maxA (rn_log N) ref (zeros (rn_tasks N) ref) e → entry_ok maxA (rn_log N) ref (zeros (delete i (rn_tasks N)) ref) (f e)) →
    (∀ e, Durability.classify (rep_of o) ≠ Durability.KEvidence → Durability.classify (rep_of o) ≠ Durability.KNoCohort → f e = e) →
    ∀ e, entry_ok maxA (rn_log N) ref (zeros (rn_tasks N) ref) e → entry_ok maxA (rn_log N) ref (zeros (delete i (rn_tasks N)) ref) (f e)) as Hf.
  { intros f F1 F2 F3 e He. destruct (Durability.classify (rep_of o)) eqn:Ek; [by apply F2| | |by destruct Ht; apply F1].
    all: rewrite F3 by done; unfold entry_ok in *; destruct (Durability.e_state e); try done; simpl in Ez; lia. }
  assert (zeros (delete i (rn_tasks N)) ref ≤ zeros (rn_tasks N) ref) as Hle by (rewrite Ez; destruct (_ && _); lia).
  assert (∀ now v a e, v = oc_verified o → a = oc_attempted o → Durability.classify (rep_of o) = Durability.KEvidence → 0 < oc_attempted o → (0 < oc_verified o → taken (rn_log N) ref) →
    entry_ok maxA (rn_log N) ref (zeros (rn_tasks N) ref) e →
    entry_ok maxA (rn_log N) ref (zeros (delete i (rn_tasks N)) ref) (Durability.rec_entry maxA now v a e)) as Hrec.
  { intros now v a e -> -> Ek Ha Hv He. rewrite Ez, Ek, bool_decide_eq_true_2 by done. cbn [andb].
    pose proof (rec_entry_ok maxA (rn_log N) ref _ e now (oc_verified o) (oc_attempted o) Ha Hv Hz) as Hr. cbv zeta in Hr.
    rewrite Ek, bool_decide_eq_true_2 in Ez by done. cbn [andb] in Ez. assert (0 ≤ zeros (delete i (rn_tasks N)) ref) as H0 by apply Nat2Z.is_nonneg.
    destruct (oc_verified o <=? 0) eqn:Ev; zb; [apply Hr; [lia|done]|]. rewrite Z.sub_0_r. apply Hr; [lia|done]. }
  assert (∀ z e, zeros (delete i (rn_tasks N)) ref ≤ z → entry_ok maxA (rn_log N) ref z e → entry_ok maxA (rn_log N) ref (zeros (delete i (rn_tasks N)) ref) e) as Hsame.
  { intros z e Hze He. unfold entry_ok in *. destruct (Durability.e_state e); try done. lia. }
  destruct (j_origin j) as [|msgId|]; [|apply honest_led; [done|]|done].
  - destruct (role_at (rn_mgr N) ref) as [r|]; [|done]. apply honest_led; [done|]. cbn [drop_task set_tasks rn_log rn_tasks].
    destruct (Durability.recordTopic_get (e_now E) (rn_led N ref) (topicId r) (rep_of o) Hw) as (Hg & Hk & _ & Hm').
    eapply led_ok_map; [exact Hle|exact HL| |exact Hg|exact Hk|exact Hm'].
    apply Hf; unfold Durability.topic_entry; [intros Ek ? ? e He|intros Ek Hn e He|intros e Hne1 Hne2].
    + rewrite Ek, Hm. destruct (Durability.is_open_for _ _); [by apply Hrec|by eapply Hsame].
    + rewrite Ek. destruct (Durability.is_open_for _ _); [eapply exp_entry_ok; [done|by left|done]|by eapply Hsame].
    + destruct (Durability.is_open_for _ _); [|done]. by destruct (Durability.classify _).
  - cbn [drop_task set_tasks rn_log rn_tasks]. unfold Durability.recordOne. destruct (Durability.classify (rep_of o)) eqn:Ek.
    + cbn [fst]. eapply led_ok_map_at; [exact Hle|exact HL| |apply Durability.expire_maps]. intros e He. eapply exp_entry_ok; [done|by left|done].
    + by eapply led_ok_less.
    + by eapply led_ok_less.
    + eapply led_ok_map_at; [exact Hle|exact HL| |apply Durability.record_maps]. intros e He. rewrite Hm. destruct Ht. by apply Hrec.
Qed.

(** The outcome of a round counts what was taken. *)
Lemma verdicts_fold cf now l P o :
  let '(P', o') := foldl (settle_one cf now) (P, o) l in
  oc_attempted o' = oc_attempted o ∧ oc_why o' = oc_why o ∧ oc_dispatched o' = oc_dispatched o ∧ oc_snapshot o' = oc_snapshot o ∧
  oc_noCohort o' = oc_noCohort o ∧ oc_verified o ≤ oc_verified o' ∧ (oc_verified o < oc_verified o' ↔ took l = true).
Proof.
  revert P o. induction l as [|[h v] l IH]; intros P o; cbn [foldl].
  - split_and!; try done. split; [lia|done].
  - destruct (settle_one cf now (P, o) (h, v)) as [P1 o1] eqn:E1. specialize (IH P1 o1). destruct (foldl _ _ _) as [P' o'].
    destruct IH as (H1 & H2 & H3 & H4 & H5 & H6 & H7). unfold settle_one in E1. destruct v; injection E1 as <- <-; cbn in *; split_and!; try done; try lia;
      (split; [|]); intros Hx; try done; try lia; try (by apply H7); by apply H7 in Hx.
Qed.
Lemma settle_outcome cf now want full s vs P : let o := (replicate_settle cf now want full s vs P).2 in
  oc_attempted o = Z.of_nat (length want) ∧ oc_dispatched o = true ∧ oc_snapshot o = full ∧ oc_noCohort o = false ∧ 0 ≤ oc_verified o ∧
  (0 < oc_verified o ↔ took (zip want vs) = true).
Proof.
  unfold replicate_settle. pose proof (verdicts_fold cf now (zip want vs) P (mk_oc (Z.of_nat (length want)) 0 0 0 0 None true full false)) as H.
  destruct (foldl _ _ _) as [P' o']. cbn in *. destruct H as (H1 & H2 & H3 & H4 & H5 & H6 & H7). split_and!; done.
Qed.

Lemma honest_settled cf maxA N j want full s vs P : honest maxA N → want ≠ [] →
  let o := (replicate_settle cf (j_now j) want full s vs P).2 in
  honest maxA (await (RRecord j o) (note (Settled (j_ref j) full (zip want vs)) N)).
Proof.
  intros [H1 H2] Hw o. destruct (settle_outcome cf (j_now j) want full s vs P) as (O1 & O2 & O3 & O4 & O5 & O6). fold o in O1, O2, O3, O4, O5, O6.
  assert (Durability.classify (rep_of o) = if full then Durability.KEvidence else Durability.KNoSnapshot) as Ek.
  { unfold Durability.classify, rep_of. cbn. rewrite O2, O3, O4. by destruct full. }
  set (e := Settled _ _ _). split; cbn [await note set_tasks rn_led rn_tasks rn_log].
  - intros ref. rewrite zeros_snoc. apply (led_ok_mono _ _ _ _ (zeros (rn_tasks N) ref)); [|apply H1]. unfold is_zero, is_missed, e. rewrite Ek.
    destruct full; [|rewrite bool_decide_eq_false_2, andb_false_r by done; cbn; lia].
    rewrite bool_decide_eq_true_2, andb_true_r by done. destruct (Nat.eqb_spec (j_ref j) ref); cbn [andb]; [|lia].
    destruct (oc_verified o <=? 0) eqn:Ev; [|destruct (negb _); lia]. zb. destruct (took (zip want vs)) eqn:Et; [pose proof (proj2 O6 eq_refl); lia|]. simpl. lia.
  - intros x [Hx|Hx%list_elem_of_singleton]%elem_of_app; [by apply task_ok_mono, H2|]. subst x. cbn [task_ok]. rewrite Ek. destruct full; [|done].
    split; [rewrite O1; destruct want; [done|simpl; lia]|]. intros Hv. exists e. split; [apply elem_of_app; right; by apply list_elem_of_singleton|].
    cbn. rewrite Nat.eqb_refl. by apply O6.
Qed.

Lemma is_zero_nil j why ref : is_zero ref (RRecord j (nil_ why)) = false.
Proof. unfold is_zero. rewrite bool_decide_eq_false_2; [by rewrite andb_false_r|by destruct why]. Qed.

Section steps.
Context (cf : rcfg) (self : Z).

Lemma plan_want now idx r P want failed b w f s : pl_out (replicate_plan now idx r P want failed b) = inr (w, f, s) →
  w = want ∧ want ≠ [] ∧ s = sig_of r ∧ f = needs_full now r (with_attempted (prune_to want (rp_attempted P)) (with_replicas (prune_to want (rp_replicas P)) P)) want.
Proof.
  unfold replicate_plan. cbv zeta. case_bool_decide as Hw; [done|]. set (P1 := with_attempted _ _). destruct b as [[lf df]|]; [|by intros [= <- <- <-]].
  destruct (needs_full now r P1 want) eqn:Ef; [|by intros [= <- <- <-]].
  destruct (lf <=? 0); [by destruct (df <? 0)|]. by intros [= <- <- <-].
Qed.

Lemma honest_proceed maxA E j r d N : honest maxA N → honest maxA (proceed cf self E j r d N).
Proof.
  intros H. unfold proceed. destruct (cohort _ _ _ _ _ _ _ _) as [[P want] failed]. set (p := replicate_plan _ _ _ _ _ _ _).
  destruct (pl_out p) as [why|[[w f] s]] eqn:Eo.
  - assert (honest maxA (await (RRecord j (nil_ why)) (match why with NoCohort => note (Nobody (j_ref j)) N | _ => N end))) as H1.
    { destruct why; (apply honest_await; [try apply honest_note; done| |intros ref; apply is_zero_nil]); cbn [task_ok]; try done.
      cbn. apply elem_of_app. right. by apply list_elem_of_singleton. }
    eapply honest_same; [| | |exact H1]; [by destruct why..|]. destruct why; cbn; by rewrite ?app_nil_r.
  - apply plan_want in Eo as (-> & Hw & _). eapply honest_same; [| | |apply (honest_await _ (note (Pushed (j_ref j) (j_budget j) want f (if f then e_msgId <$> cache r else [])) N) (RSettle j want f s)); [apply honest_note, H|done|done]]; done.
Qed.
Lemma honest_start maxA E j r N : honest maxA N → honest maxA (start cf self E j r N).
Proof.
  intros H. unfold start. destruct (replicate_enter cf r) as [why|] eqn:Ee.
  - apply honest_await; [done| |intros ref; apply is_zero_nil]. unfold replicate_enter in Ee.
    by destruct why; repeat case_match.
  - destruct (rc_find cf); [|by apply honest_proceed]. by apply honest_await.
Qed.
Lemma honest_replicateRoots maxA E N : honest maxA N → honest maxA (replicateRoots cf self E N).
Proof.
  intros H. unfold replicateRoots. destruct (_ =? 0); [done|]. destruct (axonRoles _).*1 as [|k ks]; [done|]. set (keys := k :: ks). clearbody keys.
  set (N1 := set_budgets _ _). assert (honest maxA N1) as H1 by (by apply (honest_same _ N)). clearbody N1. revert N1 H1.
  induction (rotation _ _) as [|i0 l0 IH]; intros N1 H1; [done|]. cbn [foldl]. apply IH. unfold tick_at. destruct (keys !! i0); [|done].
  destruct (live _ _) as [[ref r]|]; [|done]. destruct (_ || _); [done|]. by apply honest_start.
Qed.

Lemma honest_step maxA N x : honest maxA N → honest maxA (rstep cf self N x).
Proof.
  intros H. destruct x as [E [|ref o|i l|i vs|i|ref m|ref m|ref|G verify]]; cbn [rstep fst snd].
  - by apply honest_replicateRoots.
  - destruct (role_at _ _); [|done]. by apply honest_start.
  - destruct (rn_tasks N !! i) as [[j| |]|] eqn:Ei; try done. destruct (role_at _ _); [|done]. by apply honest_proceed, honest_drop.
  - destruct (rn_tasks N !! i) as [[|j want full s|]|] eqn:Ei; try done. cbv zeta. destruct (Nat.eqb _ _); [|done].
    pose proof (ho_task _ _ H _ (list_elem_of_lookup_2 _ _ _ Ei)) as Hw. cbn [task_ok] in Hw.
    pose proof (honest_settled cf maxA (set_repl (j_ref j) (replicate_settle cf (j_now j) want full s (push_verdict (e_declares E) <$> vs) (rn_repl N (j_ref j))).1
      (drop_task i N)) j want full s (push_verdict (e_declares E) <$> vs) (rn_repl N (j_ref j))) as Hs. cbv zeta in Hs.
    destruct (replicate_settle _ _ _ _ _ _ _) as [P o]. apply Hs; [|done]. apply (honest_same _ (drop_task i N)); [done..|]. by apply honest_drop.
  - destruct (rn_tasks N !! i) as [[| |j o]|] eqn:Ei; try done. by apply honest_recorded.
  - destruct (role_at _ _); [|done]. cbv zeta. destruct (rc_K cf =? 0).
    + pose proof (honest_note maxA N (Unconfigured ref) H) as H1. apply honest_led; [done|].
      eapply led_ok_map_at; [done|apply led_ok_open; apply H1| |apply Durability.expire_maps].
      intros e He. eapply exp_entry_ok; [done| |exact He]. right. apply elem_of_app. right. by apply list_elem_of_singleton.
    + apply honest_led; [done|]. apply led_ok_open. apply H.
  - apply honest_led; [done|]. apply led_ok_cancel. apply H.
  - by apply (honest_same _ N).
  - by apply (honest_same _ N).
Qed.
Lemma honest_run maxA N l : honest maxA N → honest maxA (rrun cf self N l).
Proof. revert N. induction l as [|x l IH]; intros N H; [done|]. apply IH. by apply honest_step. Qed.
Lemma honest_new G mx maxA : honest maxA (new_rnode G mx maxA).
Proof. split; [|by intros x ?%not_elem_of_nil]. intros ref. split_and!; [apply NoDup_nil_2|done|done|done]. Qed.
End steps.

(** Nothing is given up for want of a configuration where there is one. *)
Section configured.
Context (cf : rcfg) (self : Z).

Definition unconfigured (l : list revent) : list revent := filter (λ e, match e with Unconfigured _ => true | _ => false end = true) l.
Notation quiet N N' := (unconfigured (rn_log N') = unconfigured (rn_log N)).
Lemma quiet_start E j r N : quiet N (start cf self E j r N).
Proof.
  assert (∀ d, quiet N (proceed cf self E j r d N)) as Hp.
  { intros d. unfold proceed. destruct (cohort _ _ _ _ _ _ _ _) as [[P want] failed]. set (p := replicate_plan _ _ _ _ _ _ _).
    unfold unconfigured. destruct (pl_out p) as [why|[[w f] s]]; cbn [rn_log]; rewrite filter_app; [destruct why|]; apply app_nil_r. }
  unfold start. destruct (replicate_enter cf r); [done|]. destruct (rc_find cf); [done|apply Hp].
Qed.
Lemma unconfigured_step N x : rc_K cf ≠ 0 → quiet N (rstep cf self N x).
Proof.
  intros HK. destruct x as [E [|ref o|i l|i vs|i|ref m|ref m|ref|G verify]]; cbn [rstep fst snd]; try done.
  - unfold replicateRoots. destruct (_ =? 0); [done|]. destruct (axonRoles _).*1 as [|k ks]; [done|]. set (keys := k :: ks). clearbody keys.
    set (N1 := set_budgets _ _). change (rn_log N) with (rn_log N1). generalize N1.
    induction (rotation _ _) as [|i0 l0 IH]; intros M; [done|]. cbn [foldl]. rewrite IH. unfold tick_at. destruct (keys !! i0); [|done].
    destruct (live _ _) as [[ref r]|]; [|done]. destruct (_ || _); [done|apply quiet_start].
  - destruct (role_at _ _); [apply quiet_start|done].
  - destruct (rn_tasks N !! i) as [[j| |]|]; try done. destruct (role_at _ _) as [r|]; [|done].
    unfold proceed. destruct (cohort _ _ _ _ _ _ _ _) as [[P want] failed]. set (p := replicate_plan _ _ _ _ _ _ _).
    unfold unconfigured. destruct (pl_out p) as [why|[[w f] s]]; cbn [rn_log drop_task set_tasks]; rewrite filter_app; [destruct why|]; apply app_nil_r.
  - destruct (rn_tasks N !! i) as [[|j want full s|]|]; try done. cbv zeta. destruct (Nat.eqb _ _); [|done].
    destruct (replicate_settle _ _ _ _ _ _ _) as [P o]. unfold unconfigured. cbn [await set_tasks note set_repl drop_task rn_log]. rewrite filter_app. apply app_nil_r.
  - destruct (rn_tasks N !! i) as [[| |j o]|]; try done. unfold recorded. destruct (j_origin j); [|done|done]. by destruct (role_at _ _).
  - destruct (role_at _ _); [|done]. cbv zeta. destruct (rc_K cf =? 0) eqn:E0; [zb; lia|done].
Qed.
Lemma unconfigured_run l : ∀ N, rc_K cf ≠ 0 → unconfigured (rn_log N) = [] → unconfigured (rn_log (rrun cf self N l)) = [].
Proof. induction l as [|x l IH]; intros N HK HN; [done|]. apply IH; [done|]. by rewrite unconfigured_step. Qed.
Lemma unconfigured_only G mx maxA l ref : Unconfigured ref ∈ rn_log (rrun cf self (new_rnode G mx maxA) l) → rc_K cf = 0.
Proof.
  intros Hin. destruct (decide (rc_K cf = 0)) as [|HK]; [done|]. exfalso.
  pose proof (unconfigured_run l (new_rnode G mx maxA) HK eq_refl) as Hn. unfold unconfigured in Hn.
  assert (Unconfigured ref ∈ ([] : list revent)) as H by (rewrite <-Hn; by apply list_elem_of_filter). by apply not_elem_of_nil in H.
Qed.
End configured.

(** * Credits and budgets *)

Definition credited (l : list revent) (ref : nat) (hex : string) : Prop :=
  ∃ full vs, Settled ref full vs ∈ l ∧ (hex, MergeMachine.VConsumed) ∈ vs.
Definition is_charged (b : nat) (e : revent) : bool := match e with Pushed _ (Some b') _ true _ => Nat.eqb b' b | _ => false end.
Definition charged (l : list revent) (b : nat) : Z := Z.of_nat (length (filter (λ e, is_charged b e = true) l)).
Definition job_of (x : rtask) : job := match x with RDisc j | RSettle j _ _ _ | RRecord j _ => j end.

Record accounted (N : rnode) : Prop := {
  ac_credit : ∀ ref hex at_, jget (rp_replicas (rn_repl N ref)) hex = Some at_ → credited (rn_log N) ref hex;
  ac_budget : ∀ b v, rn_budgets N !! b = Some v → 0 ≤ v.1 ∧ v.1 + charged (rn_log N) b = REPLICATE_FULL_BUDGET;
  ac_fresh : ∀ b, (length (rn_budgets N) ≤ b)%nat → charged (rn_log N) b = 0;
  ac_jobs : ∀ x b, x ∈ rn_tasks N → j_budget (job_of x) = Some b → (b < length (rn_budgets N))%nat
}.

Lemma charged_snoc l e b : charged (l ++ [e]) b = charged l b + (if is_charged b e then 1 else 0).
Proof. unfold charged. rewrite filter_app, length_app, filter_cons, filter_nil. case_decide as H; [rewrite H|destruct (is_charged b e); [done|]]; simpl; lia. Qed.
Lemma credited_mono l e ref hex : credited l ref hex → credited (l ++ [e]) ref hex.
Proof. intros (f & vs & H & ?). exists f, vs. split; [|done]. apply elem_of_app. by left. Qed.

Lemma accounted_same N N' : rn_repl N' = rn_repl N → rn_budgets N' = rn_budgets N → rn_tasks N' = rn_tasks N → rn_log N' = rn_log N →
  accounted N → accounted N'.
Proof. intros E1 E2 E3 E4 [H1 H2 H3 H4]. split; rewrite ?E1, ?E2, ?E3, ?E4; done. Qed.
Lemma accounted_note N e : (∀ b, is_charged b e = false) → accounted N → accounted (note e N).
Proof.
  intros He [H1 H2 H3 H4]. split; cbn [note rn_repl rn_budgets rn_tasks rn_log]; try done.
  - intros. by eapply credited_mono, H1.
  - intros b v Hb. rewrite charged_snoc, He, Z.add_0_r. by apply H2.
  - intros b Hb. rewrite charged_snoc, He, Z.add_0_r. by apply H3.
Qed.
Lemma accounted_await N x : (∀ b, j_budget (job_of x) = Some b → (b < length (rn_budgets N))%nat) → accounted N → accounted (await x N).
Proof.
  intros Hx [H1 H2 H3 H4]. split; try done. intros y b [Hy|Hy%list_elem_of_singleton]%elem_of_app; [by apply H4|]. subst y. by apply Hx.
Qed.
Lemma accounted_drop N i : accounted N → accounted (drop_task i N).
Proof. intros [H1 H2 H3 H4]. split; try done. intros x b Hx. apply H4. exact (list_elem_of_delete_inv _ _ _ Hx). Qed.
Lemma accounted_repl N ref P : (∀ hex at_, jget (rp_replicas P) hex = Some at_ → credited (rn_log N) ref hex) → accounted N → accounted (set_repl ref P N).
Proof.
  intros HP [H1 H2 H3 H4]. split; try done. intros r hex at_. cbn [set_repl rn_repl rn_log]. destruct (decide (r = ref)) as [->|]; [apply HP|apply H1].
Qed.

Lemma jget_filter_Some {V} (P : string * V → Prop) `{∀ x, Decision (P x)} (m : jmap string V) k v : jget (filter P m) k = Some v → jget m k ≠ None.
Proof.
  intros Hk%jget_Some_key Hn. apply jget_None in Hn. apply Hn. apply list_elem_of_fmap in Hk as (x & -> & Hx).
  apply list_elem_of_fmap. exists x. split; [done|]. by apply list_elem_of_filter in Hx as [_ ?].
Qed.

Lemma settle_credits cf now l P o : let P' := (foldl (settle_one cf now) (P, o) l).1 in
  ∀ hex at_, jget (rp_replicas P') hex = Some at_ → jget (rp_replicas P) hex = Some at_ ∨ (hex, MergeMachine.VConsumed) ∈ l.
Proof.
  cbv zeta. revert P o. induction l as [|[h v] l IH]; intros P o hex at_; cbn [foldl]; [by left|].
  destruct (settle_one cf now (P, o) (h, v)) as [P1 o1] eqn:E1. intros [Hg|Hin]%IH; [|right; by right].
  unfold settle_one in E1. destruct v; [injection E1 as <- _|injection E1 as <- _; left; by destruct (rc_inherit cf)..].
  cbn [with_replicas rp_replicas] in Hg. rewrite jget_jset in Hg. destruct (decide _) as [->|]; [right; by left|by left].
Qed.

Section accounts.
Context (cf : rcfg) (self : Z).

Lemma cohort_replicas t now bridge cb r P d : rp_replicas (cohort cf self t now bridge cb r P d).1.1 = rp_replicas P.
Proof. unfold cohort, inheritCohort. by repeat case_match. Qed.
Lemma plan_replicas now idx r P want failed b hex at_ : jget (rp_replicas (pl_repl (replicate_plan now idx r P want failed b))) hex = Some at_ →
  jget (rp_replicas P) hex ≠ None.
Proof.
  unfold replicate_plan. cbv zeta. destruct (bool_decide (want = [])); [apply jget_filter_Some|].
  destruct b as [[lf df]|]; [|apply jget_filter_Some]. destruct (needs_full _ _ _ _); [|apply jget_filter_Some].
  destruct (lf <=? 0); [destruct (df <? 0)|]; apply jget_filter_Some.
Qed.
(** A round is charged to the budget exactly when it pushes everything under one. *)
Lemma plan_charge now idx r P want failed lf df : let p := replicate_plan now idx r P want failed (Some (lf, df)) in
  match pl_out p with
  | inr (_, true, _) => 0 < lf ∧ ∃ df', pl_budget p = Some (lf - 1, df')
  | _ => ∃ df', pl_budget p = Some (lf, df')
  end.
Proof.
  unfold replicate_plan. cbv zeta. destruct (bool_decide (want = [])); [by eexists|]. destruct (needs_full _ _ _ _) eqn:Ef; [|by eexists].
  destruct (lf <=? 0) eqn:El; [destruct (df <? 0); by eexists|]. cbn. zb. split; [done|by eexists].
Qed.

Lemma accounted_proceed E j r d N : accounted N → (∀ b, j_budget j = Some b → (b < length (rn_budgets N))%nat) → accounted (proceed cf self E j r d N).
Proof.
  intros HA Hj. unfold proceed. pose proof (cohort_replicas (j_t j) (e_now E) (j_bridge j) (e_cbBridge E) r (rn_repl N (j_ref j)) d) as Hc.
  destruct (cohort _ _ _ _ _ _ _ _) as [[P want] failed]. cbn [fst] in Hc. set (bo := _ ≫= _).
  set (p := replicate_plan _ _ _ _ _ _ bo). pose proof (plan_replicas (j_now j) (j_idx j) r P want failed bo) as Hp. fold p in Hp.
  set (xs := match pl_out p with inl _ => _ | inr _ => _ end).
  assert (job_of xs.1 = j ∧ ∀ b, charged (rn_log N ++ xs.2) b = charged (rn_log N) b +
    (match pl_out p with inr (_, true, _) => if bool_decide (j_budget j = Some b) then 1 else 0 | _ => 0 end)) as [Hx Hes].
  { unfold xs. destruct (pl_out p) as [why|[[w f] s]]; (split; [done|]); intros b; cbn [snd].
    - destruct why; rewrite ?app_nil_r, ?charged_snoc; cbn; lia.
    - rewrite charged_snoc. cbn [is_charged]. destruct f; [|by destruct (j_budget j)]. destruct (j_budget j) as [b'|].
      + destruct (Nat.eqb_spec b' b) as [->|Hn]; [by rewrite bool_decide_eq_true_2|by rewrite bool_decide_eq_false_2 by congruence].
      + by rewrite bool_decide_eq_false_2. }
  destruct xs as [x es]. cbn [fst snd] in *. destruct HA as [A1 A2 A3 A4].
  set (bs := match j_budget j, pl_budget p with Some b, Some v => <[b := v]> (rn_budgets N) | _, _ => rn_budgets N end).
  assert (length bs = length (rn_budgets N)) as Hlen.
  { unfold bs. destruct (j_budget j), (pl_budget p); rewrite ?length_insert; done. }
  split; cbn [rn_repl rn_budgets rn_tasks rn_log].
  - intros ref hex at_. destruct (decide (ref = j_ref j)) as [->|]; intros Hg.
    + apply Hp in Hg. rewrite Hc in Hg. destruct (jget (rp_replicas (rn_repl N (j_ref j))) hex) as [at2|] eqn:Eg; [|done].
      destruct (A1 _ _ _ Eg) as (f & vs & ? & ?). exists f, vs. split; [|done]. apply elem_of_app. by left.
    + destruct (A1 _ _ _ Hg) as (f & vs & ? & ?). exists f, vs. split; [|done]. apply elem_of_app. by left.
  - intros b v Hb. rewrite Hes. destruct (j_budget j) as [b'|] eqn:Ejb.
    2: { destruct (pl_out p) as [|[[? []] ?]]; rewrite ?bool_decide_eq_false_2, ?Z.add_0_r by done; by apply A2. }
    destruct (lookup_lt_is_Some_2 _ _ (Hj b' eq_refl)) as [[lf df] Hl]. assert (bo = Some (lf, df)) as Ebo by done.
    pose proof (plan_charge (j_now j) (j_idx j) r P want failed lf df) as Hch. cbv zeta in Hch. rewrite <-Ebo in Hch. fold p in Hch.
    destruct (A2 _ _ Hl) as [Hl0 Hl1]. cbn [fst] in *. destruct (decide (b' = b)) as [->|Hne].
    + destruct (pl_out p) as [|[[? []] ?]]; rewrite ?bool_decide_eq_true_2 by done;
        [destruct Hch as [df' Ep]|destruct Hch as [Hlf [df' Ep]]|destruct Hch as [df' Ep]];
        unfold bs in Hb; rewrite Ep, list_lookup_insert_eq in Hb by (by eapply lookup_lt_Some); injection Hb as <-; cbn [fst]; lia.
    + assert (rn_budgets N !! b = Some v) as Hb0.
      { unfold bs in Hb. destruct (pl_budget p); [by rewrite list_lookup_insert_ne in Hb|done]. }
      destruct (pl_out p) as [|[[? []] ?]]; rewrite ?bool_decide_eq_false_2, ?Z.add_0_r by congruence; by apply A2.
  - intros b. rewrite Hlen. intros Hb. rewrite Hes, A3 by done. destruct (pl_out p) as [|[[? []] ?]]; try done.
    rewrite bool_decide_eq_false_2; [done|]. intros Hjb. apply Hj in Hjb. lia.
  - intros y b [Hy|Hy%list_elem_of_singleton]%elem_of_app Hjb; rewrite Hlen; [by eapply A4|]. subst y. apply Hj. by rewrite <-Hx.
Qed.

Lemma proceed_budgets E j r d N : length (rn_budgets (proceed cf self E j r d N)) = length (rn_budgets N).
Proof.
  unfold proceed. destruct (cohort _ _ _ _ _ _ _ _) as [[P want] failed]. destruct (match pl_out _ with inl _ => _ | inr _ => _ end).
  cbn [rn_budgets]. repeat case_match; by rewrite ?length_insert.
Qed.
Lemma accounted_start E j r N : accounted N → (∀ b, j_budget j = Some b → (b < length (rn_budgets N))%nat) →
  accounted (start cf self E j r N) ∧ length (rn_budgets (start cf self E j r N)) = length (rn_budgets N).
Proof.
  intros H Hj. unfold start. destruct (replicate_enter cf r); [split; [by apply accounted_await|done]|].
  destruct (rc_find cf); [split; [by apply accounted_await|done]|]. split; [by apply accounted_proceed|apply proceed_budgets].
Qed.
Lemma accounted_replicateRoots E N : accounted N → accounted (replicateRoots cf self E N).
Proof.
  intros H. unfold replicateRoots. destruct (_ =? 0); [done|]. destruct (axonRoles _).*1 as [|k ks]; [done|]. set (keys := k :: ks). clearbody keys.
  set (N1 := set_budgets _ _). assert (accounted N1) as H1.
  { destruct H as [A1 A2 A3 A4]. split; cbn [N1 set_budgets rn_repl rn_budgets rn_tasks rn_log]; [done| | |].
    - intros b v [Hb|[Hb Hv]]%lookup_app_Some; [by apply A2|]. destruct (b - length (rn_budgets N))%nat eqn:Eb; [|done]. injection Hv as <-.
      rewrite A3 by lia. done.
    - intros b. rewrite length_app. simpl. intros Hb. apply A3. lia.
    - intros x b Hx Hb. rewrite length_app. simpl. pose proof (A4 _ _ Hx Hb). lia. }
  assert (length (rn_budgets N1) = S (length (rn_budgets N))) as Hl by (cbn; rewrite length_app; simpl; lia). clearbody N1. revert N1 H1 Hl.
  induction (rotation _ _) as [|i0 l0 IH]; intros N1 H1 Hl; [done|]. cbn [foldl]. unfold tick_at at 2. destruct (keys !! i0); [|by apply IH].
  destruct (live _ _) as [[ref r]|]; [|by apply IH]. destruct (_ || _); [by apply IH|].
  set (j := mk_job _ _ _ _ _ _ _). destruct (accounted_start E j r N1 H1) as [Ha Hl1]; [intros b [= <-]; lia|]. apply IH; [done|by rewrite Hl1].
Qed.

Lemma accounted_step N x : accounted N → accounted (rstep cf self N x).
Proof.
  intros H. destruct x as [E [|ref o|i l|i vs|i|ref m|ref m|ref|G verify]]; cbn [rstep fst snd].
  - by apply accounted_replicateRoots.
  - destruct (role_at _ _); [|done]. by apply accounted_start.
  - destruct (rn_tasks N !! i) as [[j| |]|] eqn:Ei; try done. destruct (role_at _ _); [|done]. apply accounted_proceed; [by apply accounted_drop|].
    intros b. apply (ac_jobs _ H (RDisc j)). by eapply list_elem_of_lookup_2.
  - destruct (rn_tasks N !! i) as [[|j want full s|]|] eqn:Ei; try done. cbv zeta. destruct (Nat.eqb _ _); [|done].
    set (vs' := push_verdict _ <$> vs). set (P0 := rn_repl N (j_ref j)).
    pose proof (settle_credits cf (j_now j) (zip want vs') P0 (mk_oc (Z.of_nat (length want)) 0 0 0 0 None true full false)) as Hcr.
    unfold replicate_settle. destruct (foldl _ _ _) as [P o]. cbn [fst] in Hcr. set (P2 := if full then _ else P).
    assert (rp_replicas P2 = rp_replicas P) as E2 by (unfold P2; by destruct full).
    assert (∀ b, j_budget j = Some b → (b < length (rn_budgets N))%nat) as Hj
      by (intros b; apply (ac_jobs _ H (RSettle j want full s)); by eapply list_elem_of_lookup_2).
    apply accounted_await; [done|]. destruct H as [A1 A2 A3 A4]. set (e := Settled _ _ _).
    assert (accounted (note e (drop_task i N))) as [B1 B2 B3 B4] by (apply accounted_note; [done|]; apply accounted_drop; by split).
    split; try done. intros ref hex at_. cbn [note set_repl rn_repl rn_log drop_task set_tasks]. destruct (decide (ref = j_ref j)) as [->|]; [|intros Hg; by apply B1 in Hg].
    rewrite E2. intros [Hg|Hin]%Hcr; [by apply B1 in Hg|]. exists full, (zip want vs'). split; [|done]. apply elem_of_app. right. by apply list_elem_of_singleton.
  - destruct (rn_tasks N !! i) as [[| |j o]|] eqn:Ei; try done. unfold recorded. destruct (j_origin j); [destruct (role_at _ _)| |];
      (eapply accounted_same; [| | | |by apply (accounted_drop N i)]; done).
  - destruct (role_at _ _); [|done]. cbv zeta. destruct (rc_K cf =? 0); [|by apply (accounted_same N)].
    apply (accounted_same (note (Unconfigured ref) N)); [done..|]. by apply accounted_note.
  - by apply (accounted_same N).
  - apply accounted_repl; [|done]. apply H.
  - destruct H as [A1 A2 A3 A4]. split; [exact A1|exact A2|exact A3|exact A4].
Qed.
Lemma accounted_run N l : accounted N → accounted (rrun cf self N l).
Proof. revert N. induction l as [|x l IH]; intros N H; [done|]. apply IH. by apply accounted_step. Qed.
Lemma accounted_new G mx maxA : accounted (new_rnode G mx maxA).
Proof. split; [done|done|done|by intros x b ?%not_elem_of_nil]. Qed.
End accounts.

(** * One round *)

Lemma add_once_elem acc x y : y ∈ add_once acc x ↔ y ∈ acc ∨ y = x.
Proof. unfold add_once. case_bool_decide; [naive_solver|]. rewrite elem_of_app, list_elem_of_singleton. done. Qed.
Lemma add_once_NoDup acc x : NoDup acc → NoDup (add_once acc x).
Proof. intros H. unfold add_once. case_bool_decide; [done|]. apply NoDup_app. split_and!; [done|set_solver|apply NoDup_singleton]. Qed.
Lemma foldl_once l acc : NoDup acc → NoDup (foldl add_once acc l) ∧ ∀ y, y ∈ foldl add_once acc l ↔ y ∈ acc ∨ y ∈ l.
Proof.
  revert acc. induction l as [|x l IH]; intros acc H; cbn [foldl]; [split; [done|set_solver]|].
  destruct (IH _ (add_once_NoDup _ x H)) as [H1 H2]. split; [done|]. intros y. rewrite H2, add_once_elem. set_solver.
Qed.
Lemma candidates_spec self bridge l : NoDup (candidates self bridge l) ∧
  ∀ h, h ∈ candidates self bridge l ↔ ∃ b, b ∈ eligible self bridge l ∧ h = lc (idHex b).
Proof.
  unfold candidates. destruct (foldl_once (lc ∘ idHex <$> eligible self bridge l) [] NoDup_nil_2) as [H1 H2]. split; [done|].
  intros h. rewrite H2, list_elem_of_fmap. split; [intros [?%not_elem_of_nil|(b & -> & ?)]; [done|by exists b]|intros (b & ? & ->); right; by exists b].
Qed.
Lemma eligible_elem self bridge l b : b ∈ eligible self bridge l ↔ b ≠ self ∧ bridge ≠ Some b ∧ ∃ v, v ∈ l ∧ asId production v = Ok b.
Proof.
  unfold eligible. rewrite list_elem_of_filter, list_elem_of_omap. setoid_rewrite catch_Some. naive_solver.
Qed.

Lemma asId_bounded v b : asId production v = Ok b → 0 ≤ b < 2 ^ 264.
Proof.
  unfold asId. change (MAX_ID production) with (2 ^ 264 - 1). destruct v; try done.
  - destruct (_ || _) eqn:E; [done|]. intros [= <-]. apply orb_false_iff in E as [E1 E2]. rewrite Z.gtb_ltb in E2. zb. lia.
  - destruct (parseHex (strip0x s)) as [n|] eqn:Ep; [|done]. rewrite Z.gtb_ltb. destruct (_ <? n) eqn:E; [done|]. intros [= <-]. zb.
    apply parseHex_Some in Ep as (_ & Hh & <-). pose proof (hval_bound _ Hh). lia.
Qed.
Lemma idHex_inj a b : 0 ≤ a < 2 ^ 264 → 0 ≤ b < 2 ^ 264 → lc (idHex a) = lc (idHex b) → a = b.
Proof.
  intros Ha Hb. destruct (idHex_spec a Ha) as (A1 & -> & _), (idHex_spec b Hb) as (B1 & -> & _). intros E. rewrite E in A1. congruence.
Qed.

Section round.
Context (cf : rcfg) (self t now : Z) (bridge cbBridge : option Z) (r : role) (P : repl).

Lemma inheritPool_ne bridges l h : h ∈ inheritPool cf self now bridges r P l → h ≠ lc (idHex self) ∧ h ∉ (lc ∘ idHex <$> bridges).
Proof.
  unfold inheritPool. set (L := filter _ (omap readable _)). destruct (foldl_once L [] NoDup_nil_2) as [_ ->].
  intros [?%not_elem_of_nil|H]; [done|]. by apply list_elem_of_filter in H as [? _].
Qed.

(** Who is asked: at most [K] nodes, never this one or the bridge; with inheritance, the nearest of
    all that are known. *)
Lemma cohort_exact d : 0 ≤ rc_K cf → 0 ≤ self < 2 ^ 264 → (∀ b, bridge = Some b → 0 ≤ b < 2 ^ 264) →
  let '(P', want, failed) := cohort cf self t now bridge cbBridge r P d in
  Z.of_nat (length want) ≤ rc_K cf ∧
  (∀ h, h ∈ want → h ≠ lc (idHex self) ∧ ∀ b, bridge = Some b → h ≠ lc (idHex b)) ∧
  (failed = true ↔ d = ByFind None ∨ d = ByNeighbors None) ∧
  (rc_inherit cf = true → ∀ h h', h ∈ want → h' ∉ want →
    h' ∈ inheritPool cf self now (option_list bridge ++ option_list cbBridge) r P
      (match d with ByFind l => candidates self bridge (default [] l)
                  | ByNeighbors l => match l with Some l => nearestReachable self t (rc_K cf) bridge l | None => [] end end) →
    dist t h ≤ dist t h').
Proof.
  intros HK Hself Hbr.
  assert (∀ l, let '(P', want) := inheritCohort cf self t now (option_list bridge ++ option_list cbBridge) r P l in
    Z.of_nat (length want) ≤ rc_K cf ∧ (∀ h, h ∈ want → h ≠ lc (idHex self) ∧ ∀ b, bridge = Some b → h ≠ lc (idHex b)) ∧
    (∀ h h', h ∈ want → h' ∉ want → h' ∈ inheritPool cf self now (option_list bridge ++ option_list cbBridge) r P l → dist t h ≤ dist t h')) as Hi.
  { intros l. unfold inheritCohort. destruct (rc_K cf <=? 0) eqn:EK; [split_and!; [done|by intros h ?%not_elem_of_nil|by intros h h' ?%not_elem_of_nil]|].
    set (pool := inheritPool _ _ _ _ _ _ _). split_and!.
    - rewrite length_take. lia.
    - intros h Hh. assert (h ∈ pool) as Hp by (apply (elem_of_sort_by (dist t)); rewrite <-(take_drop (Z.to_nat (rc_K cf)) (sort_by _ pool)); apply elem_of_app; by left).
      apply inheritPool_ne in Hp as [? Hb]. split; [done|]. intros b -> ->. apply Hb. apply list_elem_of_fmap. exists b. split; [done|]. by left.
    - intros h h' Hh Hn Hp. by eapply sort_by_take_le. }
  assert (∀ (l : list Z) b h, h ∈ lc ∘ idHex <$> l → (∀ x, x ∈ l → x ∈ eligible self bridge b) → h ≠ lc (idHex self) ∧ ∀ b, bridge = Some b → h ≠ lc (idHex b)) as Hel.
  { intros l b h Hh Hl. apply list_elem_of_fmap in Hh as (x & -> & Hx). apply Hl, eligible_elem in Hx as (Hs & Hb & v & _ & Hv%asId_bounded).
    split; [intros E%idHex_inj; done|]. intros b' -> E%idHex_inj; [by subst|done|by apply Hbr]. }
  unfold cohort. destruct d as [l|l].
  - set (cand := candidates self bridge (default [] l)). pose proof (Hi cand) as H. destruct (rc_inherit cf).
    + destruct (inheritCohort _ _ _ _ _ _ _ _) as [P' want]. destruct H as (H1 & H2 & H3). split_and!; [done|done| |done].
      rewrite bool_decide_eq_true. naive_solver.
    + split_and!; [rewrite length_take; lia| |rewrite bool_decide_eq_true; naive_solver|done]. intros h Hh.
      assert (h ∈ cand) as Hc by (rewrite <-(take_drop (Z.to_nat (rc_K cf)) cand); apply elem_of_app; by left).
      apply candidates_spec in Hc as (b & Hb & ->). apply (Hel [b] (default [] l)); [by left|]. by intros x ->%list_elem_of_singleton.
  - set (want := match l with Some l => _ | None => _ end). pose proof (Hi want) as H. destruct (rc_inherit cf).
    + destruct (inheritCohort _ _ _ _ _ _ _ _) as [P' want']. destruct H as (H1 & H2 & H3). split_and!; [done|done| |done].
      rewrite bool_decide_eq_true. naive_solver.
    + split_and!; [|  |rewrite bool_decide_eq_true; naive_solver|done].
      * unfold want, nearestReachable. destruct l; [|done]. destruct (_ <=? 0); [done|]. rewrite length_fmap, length_take. lia.
      * intros h Hh. unfold want, nearestReachable in Hh. destruct l as [l|]; [|by apply not_elem_of_nil in Hh].
        destruct (_ <=? 0); [by apply not_elem_of_nil in Hh|]. eapply (Hel _ l); [exact Hh|]. intros x Hx.
        apply (elem_of_sort_by (λ b, Z.lxor b t)). rewrite <-(take_drop (Z.to_nat (rc_K cf)) (sort_by _ _)). apply elem_of_app. by left.
Qed.

(** What one round sends, and why it sends nothing. *)
Lemma plan_exact at_ idx want failed budget : let p := replicate_plan at_ idx r P want failed budget in
  match pl_out p with
  | inl NoCohort => want = [] ∧ failed = false
  | inl LookupFailed => want = [] ∧ failed = true
  | inl Deferred => want ≠ [] ∧ ∃ left_ d, budget = Some (left_, d) ∧ left_ ≤ 0 ∧ pl_budget p = Some (left_, if d <? 0 then idx else d)
  | inl _ => False
  | inr (w, full, s) => w = want ∧ want ≠ [] ∧ s = sig_of r ∧
      (full = false → rp_sig P = Some (sig_of r) ∧ (∀ h, h ∈ want → jhas (rp_replicas P) h = true) ∧
         at_ - default 0 (rp_lastFullAt P) < ROOT_REPLICATE_FULL_MS)
  end ∧
  (∀ h, jhas (rp_replicas (pl_repl p)) h = true → h ∈ want) ∧ (∀ h, jhas (rp_attempted (pl_repl p)) h = true → h ∈ want).
Proof.
  assert (∀ V (m : jmap string V) h, jhas (prune_to want m) h = true → h ∈ want) as Hpr.
  { intros V m h (v & Hv%jget_Some_elem)%jhas_true. by apply list_elem_of_filter in Hv as [? _]. }
  assert (∀ V (m : jmap string V) h, jhas (prune_to want m) h = true → jhas m h = true) as Hpm.
  { intros V m h (v & Hv%jget_filter_Some)%jhas_true. destruct (jhas m h) eqn:E; [done|]. by apply jhas_false in E. }
  unfold replicate_plan. cbv zeta. set (P1 := with_attempted (prune_to want (rp_attempted P)) _).
  assert (∀ b, needs_full at_ r P1 want = b → b = false → rp_sig P = Some (sig_of r) ∧ (∀ h, h ∈ want → jhas (rp_replicas P) h = true) ∧
    at_ - default 0 (rp_lastFullAt P) < ROOT_REPLICATE_FULL_MS) as Hf.
  { intros b <- H. unfold needs_full in H. apply orb_false_iff in H as [[H1%negb_false_iff%bool_decide_eq_true H2]%orb_false_iff H3]. zb.
    split_and!; [done| |done]. intros h Hh.
    destruct (jhas (rp_replicas P) h) eqn:Eh; [done|]. exfalso. assert (existsb (λ h, negb (jhas (rp_replicas P1) h)) want = true); [|congruence].
    apply existsb_exists. exists h. split; [by apply list_elem_of_In|]. destruct (jhas (rp_replicas P1) h) eqn:E1; [|done].
    apply Hpm in E1. congruence. }
  case_bool_decide as Hw.
  - cbn. split; [by destruct failed|]. split; [intros h Hh; by apply Hpr in Hh|done].
  - assert (∀ x : plan, pl_repl x = P1 → (∀ h, jhas (rp_replicas (pl_repl x)) h = true → h ∈ want) ∧ (∀ h, jhas (rp_attempted (pl_repl x)) h = true → h ∈ want)) as Hk.
    { intros x ->. split; intros h Hh; [exact (Hpr _ (rp_replicas P) _ Hh)|exact (Hpr _ (rp_attempted P) _ Hh)]. }
    destruct budget as [[lf df]|]; [destruct (needs_full at_ r P1 want) eqn:Ef; [destruct (lf <=? 0) eqn:El; [destruct (df <? 0) eqn:Ed|]|]|].
    + split; [|by apply Hk]. cbn. zb. split; [done|]. exists lf, df. split_and!; [done|done|]. rewrite (proj2 (Z.ltb_lt _ _)) by lia. done.
    + split; [|by apply Hk]. cbn. zb. split; [done|]. exists lf, df. split_and!; [done|done|]. rewrite (proj2 (Z.ltb_ge _ _)) by lia. done.
    + split; [|by apply Hk]. cbn. split_and!; [done|done|done|]. intros H. by apply (Hf _ eq_refl).
    + split; [|by apply Hk]. cbn. split_and!; [done|done|done|]. intros H. by apply (Hf _ eq_refl).
    + split; [|by apply Hk]. cbn. split_and!; [done|done|done|]. intros H. by apply (Hf _ eq_refl).
Qed.
End round.

(** * Theorems *)

Lemma taken_spec l ref : taken l ref → ∃ vs hex, Settled ref true vs ∈ l ∧ (hex, MergeMachine.VConsumed) ∈ vs.
Proof.
  intros (e & He & Ht). destruct e as [|r [] vs| |]; try done. apply andb_true_iff in Ht as [->%Nat.eqb_eq Ht]. apply existsb_exists in Ht as ([hex v] & Hin & Hv).
  apply bool_decide_eq_true in Hv. cbn in Hv. subst v. exists vs, hex. split; [done|]. by apply list_elem_of_In.
Qed.

(** C7. Durability and credit rest on evidence.  In every run - ticks, eager pushes, searches, verdicts
    and changes of the roles in any order - a message is recorded as verified only where some full
    push of its role was taken by a node, and as expired only where a search that answered found
    nobody, or as many full pushes as the budget of attempts were taken by no one, or the node is
    configured without replicas (then a write expires as it is stamped): keepalives, deferred rounds
    and failed searches move nothing.  A node is credited as a replica only if it took a push. *)
Theorem replication_is_evidence cf self G mx maxA l :
  let N := rrun cf self (new_rnode G mx maxA) l in
  (∀ ref msgId e, jget (Durability.l_m (rn_led N ref)) msgId = Some e →
    match Durability.e_state e with
    | Durability.verified => ∃ vs hex, Settled ref true vs ∈ rn_log N ∧ (hex, MergeMachine.VConsumed) ∈ vs
    | Durability.expired => rc_K cf = 0 ∨ Nobody ref ∈ rn_log N ∨ maxA ≤ missed (rn_log N) ref
    | Durability.pending => Durability.e_attempts e ≤ missed (rn_log N) ref
    | Durability.cancelled => True
    end) ∧
  (∀ ref hex at_, jget (rp_replicas (rn_repl N ref)) hex = Some at_ → credited (rn_log N) ref hex).
Proof.
  cbv zeta. split.
  - intros ref msgId e He. pose proof (honest_run cf self maxA _ l (honest_new G mx maxA)) as [HL _].
    destruct (HL ref) as (_ & _ & _ & H). specialize (H _ _ He). unfold entry_ok in H. destruct (Durability.e_state e); [|by apply taken_spec|destruct H as [[H|H]|H]; [right; by left|left; by eapply unconfigured_only|right; by right]|done].
    assert (0 ≤ zeros (rn_tasks (rrun cf self (new_rnode G mx maxA) l)) ref) by apply Nat2Z.is_nonneg. lia.
  - intros ref hex at_ Hg. by eapply ac_credit; [apply (accounted_run cf self _ l (accounted_new G mx maxA))|].
Qed.

(** C21. A tick sends a bounded number of full pushes.  However many roles want one and however the
    searches of one tick overlap with those of the next: of the rounds a tick starts, at most
    [REPLICATE_FULL_BUDGET] push everything. *)
Theorem full_pushes_bounded cf self G mx maxA l b :
  0 ≤ charged (rn_log (rrun cf self (new_rnode G mx maxA) l)) b ≤ REPLICATE_FULL_BUDGET.
Proof.
  pose proof (accounted_run cf self _ l (accounted_new G mx maxA)) as [_ H2 H3 _]. set (N := rrun _ _ _ _) in *.
  split; [apply Nat2Z.is_nonneg|]. destruct (rn_budgets N !! b) as [v|] eqn:E.
  - destruct (H2 _ _ E). lia.
  - apply lookup_ge_None in E. rewrite (H3 _ E). done.
Qed.

(** C22. One round of replication, branch by branch.  At most [K] nodes are asked, never this one or
    the bridge, and with inheritance the nearest of all that are known.  Nothing is sent because
    nobody was found, because the search failed, or because the tick's budget is spent, and the three
    are told apart; otherwise the round goes to the whole cohort, and it is a keepalive only where the
    last full push had the same signature and is younger than a minute and all of the cohort are
    credited.  No credit and no failure outlives its node's place in the cohort. *)
Theorem round_exact cf self t now bridge cbBridge r P d at_ idx budget :
  0 ≤ rc_K cf → 0 ≤ self < 2 ^ 264 → (∀ b, bridge = Some b → 0 ≤ b < 2 ^ 264) →
  let '(P', want, failed) := cohort cf self t now bridge cbBridge r P d in
  Z.of_nat (length want) ≤ rc_K cf ∧
  (∀ h, h ∈ want → h ≠ lc (idHex self) ∧ ∀ b, bridge = Some b → h ≠ lc (idHex b)) ∧
  (failed = true ↔ d = ByFind None ∨ d = ByNeighbors None) ∧
  (rc_inherit cf = true → ∀ h h', h ∈ want → h' ∉ want →
    h' ∈ inheritPool cf self now (option_list bridge ++ option_list cbBridge) r P
      (match d with ByFind l => candidates self bridge (default [] l)
                  | ByNeighbors l => match l with Some l => nearestReachable self t (rc_K cf) bridge l | None => [] end end) →
    dist t h ≤ dist t h') ∧
  let p := replicate_plan at_ idx r P' want failed budget in
  match pl_out p with
  | inl NoCohort => want = [] ∧ failed = false
  | inl LookupFailed => want = [] ∧ failed = true
  | inl Deferred => want ≠ [] ∧ ∃ left_ d, budget = Some (left_, d) ∧ left_ ≤ 0 ∧ pl_budget p = Some (left_, if d <? 0 then idx else d)
  | inl _ => False
  | inr (w, full, s) => w = want ∧ want ≠ [] ∧ s = sig_of r ∧
      (full = false → rp_sig P' = Some (sig_of r) ∧ (∀ h, h ∈ want → jhas (rp_replicas P') h = true) ∧
         at_ - default 0 (rp_lastFullAt P') < ROOT_REPLICATE_FULL_MS)
  end ∧
  (∀ h, jhas (rp_replicas (pl_repl p)) h = true → h ∈ want) ∧ (∀ h, jhas (rp_attempted (pl_repl p)) h = true → h ∈ want).
Proof.
  intros HK Hs Hb. pose proof (cohort_exact cf self t now bridge cbBridge r P d HK Hs Hb) as H.
  destruct (cohort cf self t now bridge cbBridge r P d) as [[P' want] failed]. destruct H as (H1 & H2 & H3 & H4).
  split_and!; [done|done|done|done|..]; apply plan_exact.
Qed.

(** * Runs *)

Definition body (m : string) (ts : Z) : entry := mk_entry m ts "{}" None 1.
Definition root_with (es : list entry) : role := with_lastTs (default 0 (publishTs <$> last es)) (with_cache es (makeRole 5 true 0)).
Definition world (r : role) : mgr := put_axonRoles [(5, 0%nat)] (put_heap [r] (new_mgr (default_cfg 1))).
Definition toy_cfg : rcfg := mk_rcfg 1 false true.
Definition at_time (now : Z) (o : rop) : renv * rop := (mk_renv now None None None (Some true), o).
Definition yes : option Ingress.dresult := Some (Ingress.DVerdict true JUndef).
Definition no : option Ingress.dresult := Some (Ingress.DVerdict false JUndef).
Definition led_state (N : rnode) (m : string) : option Durability.dstate := Durability.state (rn_led N 0) m.

Lemma round_exact_witness : let p := replicate_plan 70000 0 (root_with [body "m" 3]) new_repl [lc (idHex 7)] false (Some (32, -1)) in
  pl_out p = inr ([lc (idHex 7)], true, (1, 3, 0)) ∧ Z.of_nat (length [lc (idHex 7)]) ≤ 1.
Proof.
  cbv zeta. split; [vm_compute; reflexivity|].
  assert (cohort toy_cfg 1 5 0 (Some 9) None (root_with [body "m" 3]) new_repl (ByFind (Some [JBig 9; JBig 1; JBig 7; JBig 6])) =
    (new_repl, [lc (idHex 7)], false)) as E by (vm_compute; reflexivity).
  pose proof (round_exact toy_cfg 1 5 0 (Some 9) None (root_with [body "m" 3]) new_repl (ByFind (Some [JBig 9; JBig 1; JBig 7; JBig 6])) 70000 0 (Some (32, -1))) as H.
  rewrite E in H. apply H; [done|done|by intros b [= <-]].
Defined.

(** Two writes: the second is stamped while the full push that carries the first waits for its
    verdicts, and is recorded as verified by them, though nothing that was sent contains it. *)
Example verified_without_its_body :
  let l := [at_time 0 (Opened 0 "m1"); at_time 0 Tick; at_time 0 (Found 0 (Some [JBig 7]));
            at_time 1 (World (world (root_with [body "m1" 3; body "m2" 4])) (λ _, None)); at_time 1 (Opened 0 "m2");
            at_time 2 (Answered 0 [yes]); at_time 2 (Recorded 0)] in
  let N := rrun toy_cfg 1 (new_rnode (world (root_with [body "m1" 3])) 100 6) l in
  led_state N "m2" = Some Durability.verified ∧
  rn_log N = [Pushed 0 (Some 0%nat) [lc (idHex 7)] true ["m1"]; Settled 0 true [(lc (idHex 7), MergeMachine.VConsumed)]].
Proof. vm_compute. done. Qed.

(** A full push that nobody takes settles the signature all the same: with a cohort credited before,
    the next rounds are keepalives until a minute has passed, and the write stays where it is. *)
Example failed_push_not_repeated :
  let l := [at_time 0 Tick; at_time 0 (Found 0 (Some [JBig 7])); at_time 0 (Answered 0 [yes]); at_time 0 (Recorded 0);
            at_time 1 (World (world (root_with [body "m1" 3; body "m2" 4])) (λ _, None)); at_time 1 (Opened 0 "m2");
            at_time 5000 Tick; at_time 5000 (Found 0 (Some [JBig 7])); at_time 5000 (Answered 0 [no]); at_time 5000 (Recorded 0);
            at_time 10000 Tick; at_time 10000 (Found 0 (Some [JBig 7])); at_time 10000 (Answered 0 [yes]); at_time 10000 (Recorded 0);
            at_time 64000 Tick; at_time 64000 (Found 0 (Some [JBig 7]))] in
  let N := rrun toy_cfg 1 (new_rnode (world (root_with [body "m1" 3])) 100 6) l in
  led_state N "m2" = Some Durability.pending ∧
  filter (λ e, match e with Pushed _ _ _ _ _ => true | _ => false end = true) (rn_log N) =
    [Pushed 0 (Some 0%nat) [lc (idHex 7)] true ["m1"]; Pushed 0 (Some 1%nat) [lc (idHex 7)] true ["m1"; "m2"];
     Pushed 0 (Some 2%nat) [lc (idHex 7)] false []; Pushed 0 (Some 3%nat) [lc (idHex 7)] false []].
Proof. vm_compute. done. Qed.

(** The write that asked for the keepalive is then confirmed to its publisher. *)
Example keepalive_confirms :
  let l := [at_time 0 Tick; at_time 0 (Found 0 (Some [JBig 7])); at_time 0 (Answered 0 [yes]); at_time 0 (Recorded 0);
            at_time 1 (World (world (root_with [body "m1" 3; body "m2" 4])) (λ _, None)); at_time 1 (Opened 0 "m2"); at_time 1 (Start 0 (Eager "m2"));
            at_time 1 Tick; at_time 1 (Found 1 (Some [JBig 7])); at_time 1 (Answered 1 [no]);
            at_time 1 (Found 0 (Some [JBig 7])); at_time 2 (Answered 1 [yes])] in
  let N := rrun toy_cfg 1 (new_rnode (world (root_with [body "m1" 3])) 100 6) l in
  (∃ j o, last (rn_tasks N) = Some (RRecord j o) ∧ j_origin j = Eager "m2" ∧ confirmed o = true ∧ oc_snapshot o = false) ∧
  filter (λ e, match e with Settled _ _ _ => true | _ => false end = true) (rn_log N) =
    [Settled 0 true [(lc (idHex 7), MergeMachine.VConsumed)]; Settled 0 true [(lc (idHex 7), MergeMachine.VFailed)];
     Settled 0 false [(lc (idHex 7), MergeMachine.VConsumed)]].
Proof. cbv zeta. split; [|vm_compute; done]. eexists _, _. split; [vm_compute; reflexivity|]. vm_compute. done. Qed.

(** The signature does not see every change: a full cache that takes in a message older than its
    newest gives up its first entry, and keeps count, high water and tombstones. *)
Example same_signature_other_cache :
  let cf := mk_mcfg 1 true false false false true false false 0 90000 5000 4 300000 2 (16 * 1024 * 1024) 20000 5000 in
  let r := root_with [body "m1" 3; body "m3" 9] in
  let r' := (push_role cf (body "m2" 4) r).1 in
  e_msgId <$> cache r' = ["m3"; "m2"] ∧ sig_of r' = sig_of r.
Proof. vm_compute. done. Qed.

(** A role that stops being root during the search is replicated all the same. *)
Example demoted_root_replicates :
  let l := [at_time 0 Tick; at_time 0 (World (world (with_isRoot false (root_with [body "m1" 3]))) (λ _, None)); at_time 0 (Found 0 (Some [JBig 7]))] in
  rn_log (rrun toy_cfg 1 (new_rnode (world (root_with [body "m1" 3])) 100 6) l) = [Pushed 0 (Some 0%nat) [lc (idHex 7)] true ["m1"]].
Proof. vm_compute. done. Qed.
