(* ===== verification/Leave.v ===== *)
(** Leave.v - a node that leaves hands its topics over (src/src/pubsub/repairPlane.js:
    [pubsubLeaveHandoff], [_pickHeirs], [_rootAliveForLeave]; the acknowledgement of an heir,
    [_onHandoffAck] of wireHandlers.js).

    The hand-off awaits lookups, the verdicts of its sends and the clock; between two of its steps
    anything may happen to the roles.  A run is a sequence of answers, wake-ups, acknowledgements
    and changes of the world; a job holds its role object by reference. *)
From stdpp Require Import base gmap sets list strings sorting.
From Stdlib Require Import ZArith Lia.
From S2P Require Import Prelude HexId Role TopicStore RootClaim.
From S2P Require MergeMachine Ingress Replicate.
#[local] Open Scope Z_scope.
#[local] Open Scope js_scope.
#[local] Set Default Proof Using "Type".

(** * Data *)

Definition HANDOFF_ACK_MS : Z := 700.
Definition HANDOFF_TRIES : nat := 2.
Definition HANDOFF_ACK_PER_TOPIC_MS : Z := 25.
(** The lookups in flight at a time. *)
Definition RESOLVERS : nat := 8.

Record job := mk_job { jb_t : Z; jb_ref : nat; jb_heir : option Z; jb_alt : option Z }.
Definition jb_key (j : job) : string := lc (idHex (jb_t j)).
Definition with_picks (p : option Z * option Z) (j : job) : job := mk_job (jb_t j) (jb_ref j) p.1 p.2.

(** * Choosing *)

(** The readable ids of a candidate list other than this node's. *)
Definition others_of (self : Z) (ids : list jsv) : list Z := filter (λ b, b ≠ self) (omap idOf ids).
Definition pickHeirs (self : Z) (ids : list jsv) : option Z * option Z :=
  let ordered := others_of self ids in
  (head ordered, List.find (λ b, bool_decide (head ordered ≠ Some b)) ordered).

Definition readId (o : option string) : option Z := s ← o; if bool_decide (s = "") then None else idBigS s.
Definition rootCandidates (self now : Z) (G : mgr) (t : Z) (r : role) : list Z :=
  filter (λ b, b ≠ self)
    (option_list (readId (backupOf r)) ++
     option_list (readId (b ← jget (rootBeacons G) t; if now <? b_exp b then Some (b_root b) else None))).
(** [neighbors] is [None] where the adapter has none or its reader throws. *)
Definition rootAliveForLeave (self now : Z) (neighbors : option (list jsv)) (G : mgr) (t : Z) (r : role) : bool :=
  match neighbors with
  | None => false
  | Some ns => existsb (λ n, match idOf n with Some b => bool_decide (b ∈ rootCandidates self now G t r) | None => false end) ns
  end.

(** What is handed over, and in what order: sole copies, replicated roots, other holders; the larger
    cache first.  [P] is the replication record of a role object. *)
Definition tier (P : nat → Replicate.repl) (x : job * role) : Z :=
  if isRoot x.2 then (if jsize (Replicate.rp_replicas (P (jb_ref x.1))) =? 0 then 0 else 1) else 2.
Definition cmp_jobs (P : nat → Replicate.repl) (a b : job * role) : Z :=
  let d := tier P a - tier P b in
  if d =? 0 then Z.of_nat (length (cache b.2)) - Z.of_nat (length (cache a.2)) else d.
Definition holder (self now : Z) (neighbors : option (list jsv)) (G : mgr) (p : Z * nat) : option (job * role) :=
  r ← role_at G p.2;
  if Nat.eqb (length (cache r)) 0 then None
  else if negb (isRoot r) && rootAliveForLeave self now neighbors G p.1 r then None
  else Some (mk_job p.1 p.2 None None, r).
Definition collect (self now : Z) (neighbors : option (list jsv)) (P : nat → Replicate.repl) (G : mgr) : list job :=
  fst <$> sort_cmp (cmp_jobs P) (omap (holder self now neighbors G) (axonRoles G)).

(** A retry prefers a candidate that is connected, and remembers the previous choice. *)
Definition retry_pick (E : env) (self : Z) (ids : list jsv) (j : job) : job :=
  let near := λ b, isReachableId E (lc (idHex b)) in
  let l := others_of self ids in
  let ordered := filter (λ b, near b = true) l ++ filter (λ b, near b = false) l in
  match head ordered with
  | Some b => if bool_decide (jb_heir j = Some b) then j else with_picks (Some b, jb_heir j) j
  | None => j
  end.

(** * The hand-off *)

Inductive stage := FindK | Lookup.
Inductive phase :=
| Resolving (next : nat) (ws : list (nat * stage))             (** the resolvers, each with its job *)
| Retrying (round : nat) (todo : list nat)                     (** the lookup of the first is awaited *)
| Waiting (round : nat) (deadline : Z) (count : nat) (progress : Z)
| Gone.

Inductive verb := Handoff | Replicated.
(** What a leave does: a push, in a round or at the end, with the ids it carries; what was heard of a
    topic's neighbourhood; an acknowledgement; a verified dispatch; nobody to push to. *)
Inductive levent :=
| Push (round : option nat) (v : verb) (t target : Z) (carried : list string)
| Heard (t : Z) (ids : list jsv)
| FullAck (key : string)
| Verified (key : string)
| NoTarget (t : Z).

(** [ln_acked] is [_handoffAcked]; a task is the sends of a job whose verdicts are awaited. *)
Record lnode := mk_lnode {
  ln_mgr : mgr; ln_jobs : list job; ln_phase : phase; ln_acked : list string;
  ln_tasks : list (string * nat); ln_log : list levent
}.
Definition set_mgr (v : mgr) (N : lnode) : lnode := mk_lnode v (ln_jobs N) (ln_phase N) (ln_acked N) (ln_tasks N) (ln_log N).
Definition set_jobs (v : list job) (N : lnode) : lnode := mk_lnode (ln_mgr N) v (ln_phase N) (ln_acked N) (ln_tasks N) (ln_log N).
Definition set_phase (v : phase) (N : lnode) : lnode := mk_lnode (ln_mgr N) (ln_jobs N) v (ln_acked N) (ln_tasks N) (ln_log N).
Definition set_tasks (v : list (string * nat)) (N : lnode) : lnode := mk_lnode (ln_mgr N) (ln_jobs N) (ln_phase N) (ln_acked N) v (ln_log N).
Definition note (l : list levent) (N : lnode) : lnode := mk_lnode (ln_mgr N) (ln_jobs N) (ln_phase N) (ln_acked N) (ln_tasks N) (ln_log N ++ l).
Definition ack_key (k : string) (N : lnode) : lnode :=
  mk_lnode (ln_mgr N) (ln_jobs N) (ln_phase N) (if bool_decide (k ∈ ln_acked N) then ln_acked N else ln_acked N ++ [k])
    (ln_tasks N) (ln_log N).

Definition open_job (ak : list string) (j : job) : bool := bool_decide (jb_heir j ≠ None) && bool_decide (jb_key j ∉ ak).
(** The indices of the jobs that have an heir and no acknowledgement. *)
Definition unacked (N : lnode) : list nat :=
  filter (λ i, match ln_jobs N !! i with Some j => open_job (ln_acked N) j | None => false end = true) (List.seq 0 (length (ln_jobs N))).

(** The role object a job holds, and a push of its whole state. *)
Definition job_role (N : lnode) (j : job) : role := default (makeRole (jb_t j) false 0) (role_at (ln_mgr N) (jb_ref j)).
Definition push_of (N : lnode) (round : option nat) (v : verb) (j : job) (target : Z) : levent :=
  Push round v (jb_t j) target (e_msgId <$> cache (job_role N j)).

Section leave.
Context (self : Z) (hasLookup : bool).   (** this node; whether the adapter has [lookup] *)

Definition finish_one (N : lnode) (j : job) : levent :=
  let target := if bool_decide (jb_alt j ≠ None) && negb (bool_decide (jb_alt j = jb_heir j)) then jb_alt j else jb_heir j in
  match target with
  | None => NoTarget (jb_t j)
  | Some b => push_of N None (if isRoot (job_role N j) then Handoff else Replicated) j b
  end.
Definition finish (N : lnode) : lnode :=
  set_phase Gone (note (finish_one N <$> filter (λ j, jb_key j ∉ ln_acked N) (ln_jobs N)) N).

(** One round's sends of one job. *)
Definition send_one (round : nat) (N : lnode) (i : nat) : lnode :=
  match ln_jobs N !! i with
  | Some j =>
      match jb_heir j with
      | Some h =>
          if isRoot (job_role N j) then note [push_of N (Some round) Handoff j h] N
          else
            let to := h :: match jb_alt j with Some a => if bool_decide (a = h) then [] else [a] | None => [] end in
            set_tasks (ln_tasks N ++ [(jb_key j, length to)]) (note (push_of N (Some round) Replicated j <$> to) N)
      | None => N
      end
  | None => N
  end.
Definition window (n : nat) : Z := Z.min HANDOFF_ACK_MAX_MS (HANDOFF_ACK_MS + HANDOFF_ACK_PER_TOPIC_MS * Z.of_nat n).
Definition send_round (now : Z) (round : nat) (N : lnode) : lnode :=
  let N := foldl (send_one round) N (unacked N) in
  match unacked N with
  | [] => finish N
  | l => set_phase (Waiting round (now + window (length l)) (length (ln_acked N)) now) N
  end.
Definition enter_round (now : Z) (round : nat) (N : lnode) : lnode :=
  if Nat.ltb round HANDOFF_TRIES && negb (bool_decide (unacked N = [])) then
    match round with O => send_round now round N | _ => set_phase (Retrying round (unacked N)) N end
  else finish N.

(** A resolver takes the next job, or ends; after the last the rounds begin. *)
Definition settle_worker (now : Z) (w next : nat) (ws : list (nat * stage)) (N : lnode) : lnode :=
  if Nat.ltb next (length (ln_jobs N)) then set_phase (Resolving (S next) (<[w := (next, FindK)]> ws)) N
  else match delete w ws with
       | [] => enter_round now 0 N
       | ws => set_phase (Resolving next ws) N
       end.
Definition answer_pick (st : stage) (ids : list jsv) (j : job) : job :=
  match st, pickHeirs self ids with
  | FindK, p => with_picks p j
  | Lookup, (Some h, alt) => with_picks (Some h, alt) j
  | Lookup, (None, _) => j
  end.
Definition answered (now : Z) (w : nat) (l : option (list jsv)) (N : lnode) : lnode :=
  match ln_phase N with
  | Resolving next ws =>
      match ws !! w with
      | Some (i, st) =>
          match ln_jobs N !! i with
          | Some j =>
              let ids := default [] l in
              let j := answer_pick st ids j in
              let N := note [Heard (jb_t j) ids] (set_jobs (<[i := j]> (ln_jobs N)) N) in
              match st with
              | FindK => if bool_decide (jb_heir j = None) && hasLookup
                         then set_phase (Resolving next (<[w := (i, Lookup)]> ws)) N
                         else settle_worker now w next ws N
              | Lookup => settle_worker now w next ws N
              end
          | None => N
          end
      | None => N
      end
  | _ => N
  end.

Definition reanswered (E : env) (l : option (list jsv)) (N : lnode) : lnode :=
  match ln_phase N with
  | Retrying round (i :: todo) =>
      let N := match l with
               | Some ids => set_jobs (alter (retry_pick E self ids) i (ln_jobs N)) N
               | None => N
               end in
      match todo with [] => send_round (now E) round N | _ => set_phase (Retrying round todo) N end
  | _ => N
  end.

(** A look at the clock: acknowledgements move the stall clock, and either bound ends the wait. *)
Definition woken (now : Z) (N : lnode) : lnode :=
  match ln_phase N with
  | Waiting round deadline count progress =>
      let more := Nat.ltb count (length (ln_acked N)) in
      if negb more && (HANDOFF_ACK_MS <=? now - progress) then enter_round now (S round) N
      else
        let '(count, progress) := if more then (length (ln_acked N), now) else (count, progress) in
        if (now <? deadline) && negb (bool_decide (unacked N = [])) then set_phase (Waiting round deadline count progress) N
        else enter_round now (S round) N
  | _ => N
  end.

(** [_onHandoffAck]; [held] and [sent] where they are finite numbers. *)
Definition onHandoffAck (mine : bool) (topic : option string) (held sent : option Z) (N : lnode) : lnode :=
  if negb mine then N
  else match topic with
       | None => N
       | Some tid =>
           if match held, sent with Some h, Some s => h <? s | _, _ => false end then N
           else note [FullAck (lc tid)] (ack_key (lc tid) N)
       end.

(** The verdicts of a holder's pushes are in. *)
Definition dispatched (declares : option bool) (i : nat) (vs : list (option Ingress.dresult)) (N : lnode) : lnode :=
  match ln_tasks N !! i with
  | Some (key, n) =>
      if Nat.eqb (length vs) n then
        let N := set_tasks (delete i (ln_tasks N)) N in
        if existsb (λ a, match Replicate.push_verdict declares a with MergeMachine.VConsumed => true | _ => false end) vs
        then note [Verified key] (ack_key key N) else N
      else N
  | None => N
  end.

(** [pubsubLeaveHandoff] to its first await; [hasFind] says whether the adapter has [findKClosest],
    without which nothing is done. *)
Definition resolve_heirs (now : Z) (neighbors : option (list jsv)) (P : nat → Replicate.repl) (G : mgr) : lnode :=
  let jobs := collect self now neighbors P G in
  let n := Nat.min RESOLVERS (length jobs) in
  let N := mk_lnode G jobs (Resolving n ((λ i, (i, FindK)) <$> List.seq 0 n)) [] [] [] in
  if Nat.eqb n 0 then enter_round now 0 N else N.
Definition begin_leave (hasFind : bool) (now : Z) (neighbors : option (list jsv)) (P : nat → Replicate.repl) (G : mgr) : lnode :=
  if hasFind then resolve_heirs now neighbors P G else mk_lnode G [] Gone [] [] [].

Inductive lop :=
| Answer (w : nat) (l : option (list jsv))       (** the lookup of resolver [w] *)
| Reanswer (l : option (list jsv))               (** the lookup of a retry *)
| Wake
| Ack (mine : bool) (topic : option string) (held sent : option Z)
| Dispatched (declares : option bool) (i : nat) (vs : list (option Ingress.dresult))
| World (G : mgr).
Definition lstep (N : lnode) (x : env * lop) : lnode :=
  let E := x.1 in
  match x.2 with
  | Answer w l => answered (now E) w l N
  | Reanswer l => reanswered E l N
  | Wake => woken (now E) N
  | Ack mine topic held sent => onHandoffAck mine topic held sent N
  | Dispatched declares i vs => dispatched declares i vs N
  | World G => set_mgr G N
  end.
Definition lrun (N : lnode) (l : list (env * lop)) : lnode := foldl lstep N l.
End leave.

(** * Accounting *)

Lemma pickHeirs_None self ids p : pickHeirs self ids = (None, p) → others_of self ids = [].
Proof. unfold pickHeirs. by destruct (others_of self ids). Qed.
Lemma elem_unacked N i : i ∈ unacked N ↔ ∃ j, ln_jobs N !! i = Some j ∧ open_job (ln_acked N) j = true.
Proof.
  unfold unacked. rewrite list_elem_of_filter, elem_of_seq. split.
  - intros [H _]. destruct (ln_jobs N !! i) as [j|]; [by exists j|done].
  - intros (j & E & Ho). rewrite E. split; [done|]. apply lookup_lt_Some in E. lia.
Qed.
Lemma length_unacked N : (length (unacked N) ≤ length (ln_jobs N))%nat.
Proof. unfold unacked. etrans; [apply length_filter|]. by rewrite length_seq. Qed.

(** Sending changes the log and the tasks, and puts a push of every job that is open into the log. *)
Lemma send_one_frame round N i : let N' := send_one round N i in
  ln_jobs N' = ln_jobs N ∧ ln_acked N' = ln_acked N ∧ ln_phase N' = ln_phase N ∧ ln_mgr N' = ln_mgr N ∧
  (∃ l, ln_log N' = ln_log N ++ l ∧ ∀ e, e ∈ l → ∃ v t b ids, e = Push (Some round) v t b ids) ∧
  (∀ j h, ln_jobs N !! i = Some j → jb_heir j = Some h → ∃ v ids, Push (Some round) v (jb_t j) h ids ∈ ln_log N').
Proof.
  cbv zeta. unfold send_one. destruct (ln_jobs N !! i) as [j|]; [|split_and!; [done..|exists []; rewrite app_nil_r; split; [done|by intros ? ?%not_elem_of_nil]|done]].
  destruct (jb_heir j) as [h|] eqn:Eh; [|split_and!; [done..|exists []; rewrite app_nil_r; split; [done|by intros ? ?%not_elem_of_nil]|intros ? ? [= <-] ?; congruence]].
  destruct (isRoot _); split_and!; try done.
  - eexists. split; [done|]. intros e ->%list_elem_of_singleton. by eexists _, _, _, _.
  - intros ? ? [= <-]. rewrite Eh. intros [= <-]. eexists _, _. apply elem_of_app. right. by apply list_elem_of_singleton.
  - eexists. split; [done|]. intros e (b & -> & _)%list_elem_of_fmap. by eexists _, _, _, _.
  - intros ? ? [= <-]. rewrite Eh. intros [= <-]. eexists _, _. apply elem_of_app. right. left.
Qed.

Lemma send_all_frame round l : ∀ N, let N' := foldl (send_one round) N l in
  ln_jobs N' = ln_jobs N ∧ ln_acked N' = ln_acked N ∧ ln_phase N' = ln_phase N ∧ ln_mgr N' = ln_mgr N ∧
  (∃ l', ln_log N' = ln_log N ++ l' ∧ ∀ e, e ∈ l' → ∃ v t b ids, e = Push (Some round) v t b ids) ∧
  (∀ i j h, i ∈ l → ln_jobs N !! i = Some j → jb_heir j = Some h → ∃ v ids, Push (Some round) v (jb_t j) h ids ∈ ln_log N').
Proof.
  induction l as [|i l IH]; intros N; cbn [foldl].
  { split_and!; [done..|exists []; rewrite app_nil_r; split; [done|by intros ? ?%not_elem_of_nil]|by intros i j h ?%not_elem_of_nil]. }
  destruct (send_one_frame round N i) as (A1 & A2 & A3 & A4 & (l1 & A5 & A5') & A6).
  destruct (IH (send_one round N i)) as (B1 & B2 & B3 & B4 & (l2 & B5 & B5') & B6).
  split_and!; [congruence..| |].
  - exists (l1 ++ l2). split; [by rewrite B5, A5, app_assoc|]. intros e [?|?]%elem_of_app; auto.
  - intros i' j h [->|Hi]%elem_of_cons Hj Hh.
    + destruct (A6 j h Hj Hh) as (v & ids & Hin). exists v, ids. rewrite B5. apply elem_of_app. by left.
    + apply (B6 i' j h Hi); [by rewrite A1|done].
Qed.

Section accounts.
Context (self : Z) (hasLookup : bool).

(** What holds of every state; [fresh]: the end has not been reported for any topic. *)
Record base (N : lnode) : Prop := {
  ba_ack : ∀ k, k ∈ ln_acked N → FullAck k ∈ ln_log N ∨ Verified k ∈ ln_log N;
  ba_topics : NoDup (jb_t <$> ln_jobs N);
  ba_none : ∀ j ids, j ∈ ln_jobs N → jb_heir j = None → Heard (jb_t j) ids ∈ ln_log N → others_of self ids = []
}.
Definition fresh (N : lnode) : Prop := ∀ t, NoTarget t ∉ ln_log N.
Definition pushed_in (r : nat) (N : lnode) : Prop :=
  ∀ j h, j ∈ ln_jobs N → jb_heir j = Some h → jb_key j ∉ ln_acked N → ∃ v ids, Push (Some r) v (jb_t j) h ids ∈ ln_log N.
Definition settled (N : lnode) (j : job) : Prop :=
  jb_key j ∈ ln_acked N ∨ (∃ v b ids, Push None v (jb_t j) b ids ∈ ln_log N) ∨ NoTarget (jb_t j) ∈ ln_log N.
Definition at_phase (N : lnode) : Prop :=
  match ln_phase N with
  | Resolving next ws =>
      ws ≠ [] ∧ NoDup ws.*1 ∧ (next ≤ length (ln_jobs N))%nat ∧ (∀ i st, (i, st) ∈ ws → (i < next)%nat) ∧
      (∀ i j, ln_jobs N !! i = Some j → (next ≤ i)%nat ∨ (i, FindK) ∈ ws → jb_heir j = None) ∧ fresh N
  | Retrying r todo => todo ≠ [] ∧ fresh N
  | Waiting r _ _ _ => pushed_in r N ∧ fresh N
  | Gone => (∀ j, j ∈ ln_jobs N → settled N j) ∧ ∀ t, NoTarget t ∈ ln_log N → ∃ j, j ∈ ln_jobs N ∧ jb_t j = t ∧ jb_heir j = None
  end.
Definition leave_ok (N : lnode) : Prop := base N ∧ at_phase N.

Lemma base_grows N N' l : ln_jobs N' = ln_jobs N → ln_acked N' = ln_acked N → ln_log N' = ln_log N ++ l →
  (∀ t ids, Heard t ids ∉ l) → base N → base N'.
Proof.
  intros E1 E2 E3 Hl [H1 H2 H3]. split; rewrite ?E1, ?E2, ?E3; [|done|].
  - intros k Hk. rewrite !elem_of_app. destruct (H1 k Hk); auto.
  - intros j ids Hj Hn [Hh|Hh]%elem_of_app; [by eapply H3|by apply Hl in Hh].
Qed.

Lemma finish_ok N : base N → fresh N → leave_ok (finish N).
Proof.
  intros HB HF. split.
  - eapply (base_grows N (finish N)); [reflexivity..| |exact HB]. intros t ids (j & Hj & _)%list_elem_of_fmap. unfold finish_one, push_of in Hj. by repeat case_match.
  - split; cbn [finish set_phase note ln_jobs ln_acked ln_log].
    + intros j Hj. unfold settled. cbn [finish set_phase note ln_acked ln_log]. destruct (decide (jb_key j ∈ ln_acked N)) as [?|Hn]; [by left|right].
      assert (finish_one N j ∈ finish_one N <$> filter (λ j, jb_key j ∉ ln_acked N) (ln_jobs N)) as Hin
        by (apply list_elem_of_fmap; exists j; split; [done|]; by apply list_elem_of_filter).
      revert Hin. unfold finish_one at 1. destruct (if _ && _ then _ else _) as [b|] eqn:Eb; intros Hin.
      * left. unfold push_of in Hin. eexists _, _, _. apply elem_of_app. right. exact Hin.
      * right. apply elem_of_app. by right.
    + intros t [Ht|Ht]%elem_of_app; [by apply HF in Ht|]. apply list_elem_of_fmap in Ht as (j & Hj & Hin). apply list_elem_of_filter in Hin as [_ Hin].
      exists j. split; [done|]. unfold finish_one, push_of in Hj. destruct (if _ && _ then _ else _) as [b|] eqn:Eb; [done|]. injection Hj as ->. split; [done|].
      destruct (jb_alt j) as [a|]; [|by rewrite bool_decide_eq_false_2 in Eb by (intros H; by apply H)].
      rewrite bool_decide_eq_true_2 in Eb by done. by destruct (bool_decide _).
Qed.

Lemma send_round_ok now r N : base N → fresh N → leave_ok (send_round now r N).
Proof.
  intros HB HF. unfold send_round. destruct (send_all_frame r (unacked N) N) as (A1 & A2 & A3 & A4 & (l & A5 & A5') & A6).
  set (N1 := foldl _ _ _) in *.
  assert (base N1) as HB1.
  { eapply base_grows; [exact A1|exact A2|exact A5| |exact HB]. intros t ids Hin. by apply A5' in Hin as (? & ? & ? & ? & ?). }
  assert (fresh N1) as HF1.
  { intros t. rewrite A5. intros [Hin|Hin]%elem_of_app; [by apply HF in Hin|]. by apply A5' in Hin as (? & ? & ? & ? & ?). }
  destruct (unacked N1) as [|i0 l0] eqn:Eu; [by apply finish_ok|].
  split; [by eapply (base_grows N1 _ []); [done|done|by rewrite app_nil_r|intros ? ? ?%not_elem_of_nil|]|].
  split; [|done]. intros j h Hj Hh Hk. cbn [set_phase ln_jobs ln_acked ln_log] in *.
  apply list_elem_of_lookup in Hj as [i Hi]. rewrite A1 in Hi. apply (A6 i j h); [|done|done].
  apply elem_unacked. exists j. split; [done|]. unfold open_job. rewrite A2 in Hk. apply andb_true_iff. split; apply bool_decide_eq_true; [congruence|done].
Qed.

Lemma enter_round_ok now r N : base N → fresh N → leave_ok (enter_round now r N).
Proof.
  intros HB HF. unfold enter_round. destruct (Nat.ltb _ _); [|by apply finish_ok]. case_bool_decide as Hu; [by apply finish_ok|]. cbn [andb negb].
  destruct r as [|r]; [by apply send_round_ok|]. split; [|done].
  by eapply (base_grows N _ []); [done|done|by rewrite app_nil_r|intros ? ? ?%not_elem_of_nil|].
Qed.
(** A job gets a choice; where it still has none, nobody was heard of. *)
Lemma base_answer N i j j' ids : base N → ln_jobs N !! i = Some j → jb_t j' = jb_t j →
  (jb_heir j' = None → jb_heir j = None ∧ others_of self ids = []) →
  base (note [Heard (jb_t j) ids] (set_jobs (<[i := j']> (ln_jobs N)) N)).
Proof.
  intros [H1 H2 H3] Hi Ht Hn. split; cbn [note set_jobs ln_jobs ln_acked ln_log].
  - intros k Hk. rewrite !elem_of_app. destruct (H1 k Hk); auto.
  - rewrite list_fmap_insert, list_insert_id; [done|]. by rewrite list_lookup_fmap, Hi, Ht.
  - intros j0 ids0 Hj0 Hn0 Hh. apply list_elem_of_lookup in Hj0 as [k Hk]. destruct (decide (i = k)) as [<-|Hne].
    + rewrite list_lookup_insert_eq in Hk by (by eapply lookup_lt_Some). injection Hk as <-. destruct (Hn Hn0) as [Hj Ho]. rewrite Ht in Hh.
      apply elem_of_app in Hh as [Hh|Hh%list_elem_of_singleton]; [|by injection Hh as ->]. eapply (H3 j); [by eapply list_elem_of_lookup_2|done|done].
    + rewrite list_lookup_insert_ne in Hk by done. apply elem_of_app in Hh as [Hh|Hh%list_elem_of_singleton].
      * eapply (H3 j0); [by eapply list_elem_of_lookup_2|done|done].
      * injection Hh as Et _. exfalso. apply Hne. symmetry. eapply (NoDup_lookup _ _ _ _ H2); [by rewrite list_lookup_fmap, Hk|by rewrite list_lookup_fmap, Hi; cbn; rewrite Et].
Qed.
Lemma base_pick N f i : base N → (∀ j, jb_t (f j) = jb_t j ∧ (jb_heir (f j) = None → jb_heir j = None)) → base (set_jobs (alter f i (ln_jobs N)) N).
Proof.
  intros [H1 H2 H3] Hf. split; cbn [set_jobs ln_jobs ln_acked ln_log]; [done| |].
  - replace (jb_t <$> alter f i (ln_jobs N)) with (jb_t <$> ln_jobs N); [done|]. apply list_eq. intros k. rewrite !list_lookup_fmap.
    destruct (decide (i = k)) as [<-|Hne]; [rewrite list_lookup_alter_eq|rewrite list_lookup_alter_ne by done; done].
    destruct (ln_jobs N !! i) as [j|]; [|done]. simpl. by rewrite (proj1 (Hf j)).
  - intros j ids Hj Hn Hh. apply list_elem_of_lookup in Hj as [k Hk]. destruct (decide (i = k)) as [<-|Hne].
    + rewrite list_lookup_alter_eq in Hk. destruct (ln_jobs N !! i) as [j0|] eqn:E; [|done]. injection Hk as <-. destruct (Hf j0) as [Et Ho].
      rewrite Et in Hh. eapply (H3 j0); [by eapply list_elem_of_lookup_2|by apply Ho|done].
    + rewrite list_lookup_alter_ne in Hk by done. eapply (H3 j); [by eapply list_elem_of_lookup_2|done|done].
Qed.
Lemma base_phase N ph : base N → base (set_phase ph N).
Proof. intros [H1 H2 H3]. by split. Qed.

Lemma elem_insert {A} (l : list A) w x y : y ∈ <[w := x]> l → y = x ∨ ∃ k, k ≠ w ∧ l !! k = Some y.
Proof.
  intros Hy. apply list_elem_of_lookup in Hy as [k Hk]. destruct (decide (k = w)) as [->|Hne].
  - destruct (decide (w < length l)%nat) as [Hl|Hl]; [rewrite list_lookup_insert_eq in Hk by done; injection Hk as <-; by left|].
    rewrite list_insert_ge in Hk by lia. apply lookup_lt_Some in Hk. lia.
  - rewrite list_lookup_insert_ne in Hk by done. right. by exists k.
Qed.
Lemma nodup_insert {A} (l : list A) w x : NoDup l → x ∉ l → NoDup (<[w := x]> l).
Proof.
  intros Hnd Hx. destruct (decide (w < length l)%nat) as [Hl|Hl]; [|by rewrite list_insert_ge by lia].
  assert (∀ k y, k ≠ w → l !! k = Some y → y ≠ x) as Hne by (intros k y _ Hk ->; by eapply Hx, list_elem_of_lookup_2).
  apply NoDup_alt. intros a b y. destruct (decide (a = w)) as [->|Ha], (decide (b = w)) as [->|Hb];
    rewrite ?list_lookup_insert_eq, ?list_lookup_insert_ne by done; [done| | |by apply NoDup_lookup].
  - intros [= <-] Hk. by apply Hne in Hk.
  - intros Hk [= <-]. by apply Hne in Hk.
Qed.
Lemma other_worker (ws : list (nat * stage)) w i st k i' st' : NoDup ws.*1 → ws !! w = Some (i, st) → ws !! k = Some (i', st') → k ≠ w → i' ≠ i.
Proof.
  intros Hnd Hw Hk Hne ->. apply Hne. eapply (NoDup_lookup _ _ _ _ Hnd); rewrite list_lookup_fmap; [by rewrite Hk|by rewrite Hw].
Qed.

Lemma settle_worker_ok now w next ws N i st : base N → fresh N → ws !! w = Some (i, st) → NoDup ws.*1 → (next ≤ length (ln_jobs N))%nat →
  (∀ i st, (i, st) ∈ ws → (i < next)%nat) →
  (∀ i' j, ln_jobs N !! i' = Some j → i' ≠ i → (next ≤ i')%nat ∨ (i', FindK) ∈ ws → jb_heir j = None) →
  leave_ok (settle_worker now w next ws N).
Proof.
  intros HB HF Hw Hnd Hle Hlt Hn. unfold settle_worker. destruct (Nat.ltb_spec next (length (ln_jobs N))) as [Hl|Hl].
  - split; [by apply base_phase|]. unfold at_phase. cbn [set_phase ln_phase ln_jobs]. split_and!; [| |lia| | |done].
    + intros E%(f_equal length). rewrite length_insert in E. apply lookup_lt_Some in Hw. simpl in E. lia.
    + rewrite list_fmap_insert. cbn [fst]. apply nodup_insert; [done|]. intros Hin%list_elem_of_fmap. destruct Hin as ([i0 st0] & -> & Hin). apply Hlt in Hin. simpl in Hin. lia.
    + intros i0 st0 [[= -> ->]|(k & _ & Hk)]%elem_insert; [lia|]. apply list_elem_of_lookup_2, Hlt in Hk. lia.
    + intros i0 j Hj Hor. assert (i0 ≠ i) as Hne.
      { destruct Hor as [Hge|[[= -> ]|(k & Hne & Hk)]%elem_insert].
        - apply list_elem_of_lookup_2, Hlt in Hw. lia.
        - apply list_elem_of_lookup_2, Hlt in Hw. lia.
        - by eapply other_worker. }
      apply (Hn i0 j Hj Hne). destruct Hor as [?|[[= ->]|(k & _ & Hk)]%elem_insert]; [left; lia|by left|right; by eapply list_elem_of_lookup_2].
  - destruct (delete w ws) as [|x l] eqn:Ed; [by apply enter_round_ok|]. rewrite <-Ed. split; [by apply base_phase|].
    unfold at_phase. cbn [set_phase ln_phase ln_jobs].
    assert (∀ y, y ∈ delete w ws → ∃ k, k ≠ w ∧ ws !! k = Some y) as Hdel.
    { intros y Hy. apply list_elem_of_lookup in Hy as [k Hk]. destruct (decide (k < w)%nat).
      - rewrite list_lookup_delete_lt in Hk by done. exists k. split; [lia|done].
      - rewrite list_lookup_delete_ge in Hk by lia. exists (S k). split; [lia|done]. }
    split_and!; [by rewrite Ed| |lia| | |done].
    + rewrite list_fmap_delete. eapply sublist_NoDup; [exact Hnd|apply sublist_delete].
    + intros i0 st0 (k & _ & Hk)%Hdel. by apply list_elem_of_lookup_2, Hlt in Hk.
    + intros i0 j Hj Hor. assert (i0 ≠ i) as Hne.
      { destruct Hor as [Hge|(k & Hne & Hk)%Hdel]; [apply list_elem_of_lookup_2, Hlt in Hw; lia|by eapply other_worker]. }
      apply (Hn i0 j Hj Hne). destruct Hor as [?|(k & _ & Hk)%Hdel]; [by left|right; by eapply list_elem_of_lookup_2].
Qed.
Lemma at_phase_fresh N : at_phase N → ln_phase N ≠ Gone → fresh N.
Proof. unfold at_phase. destruct (ln_phase N) as [? ?|? ?|? ? ? ?|]; [by intros (_ & _ & _ & _ & _ & ?)|by intros [_ ?]|by intros [_ ?]|done]. Qed.

Lemma answered_ok now w l N : leave_ok N → leave_ok (answered self hasLookup now w l N).
Proof.
  intros [HB HP]. unfold answered. destruct (ln_phase N) as [next ws| | |] eqn:Ep; try done.
  pose proof HP as HP0. unfold at_phase in HP. rewrite Ep in HP. destruct HP as (Hne & Hnd & Hle & Hlt & Hn & HF).
  destruct (ws !! w) as [[i st]|] eqn:Ew; [|done]. destruct (ln_jobs N !! i) as [j|] eqn:Ej; [|done]. cbv zeta.
  set (ids := default [] l). set (j' := answer_pick self st ids j). set (N1 := note [Heard (jb_t j') ids] _).
  assert (jb_t j' = jb_t j ∧ (jb_heir j' = None → jb_heir j = None ∧ others_of self ids = [])) as [Ht Hj'].
  { unfold j', answer_pick. destruct st.
    - split; [done|]. cbn [with_picks jb_heir fst]. destruct (pickHeirs self ids) as [[h|] a] eqn:E; [done|]. intros _. split; [|by eapply pickHeirs_None].
      apply (Hn i j Ej). right. by eapply list_elem_of_lookup_2.
    - destruct (pickHeirs self ids) as [[h|] a] eqn:E; [done|]. split; [done|]. intros ?. split; [done|]. by eapply pickHeirs_None. }
  assert (base N1) as HB1.
  { unfold N1. rewrite Ht. by eapply base_answer. }
  assert (fresh N1) as HF1.
  { intros t. cbn [N1 note ln_log set_jobs]. intros [H|H%list_elem_of_singleton]%elem_of_app; [by apply HF in H|done]. }
  assert (ln_jobs N1 = <[i := j']> (ln_jobs N)) as EJ by done.
  assert (∀ i' j0, ln_jobs N1 !! i' = Some j0 → i' ≠ i → (next ≤ i')%nat ∨ (i', FindK) ∈ ws → jb_heir j0 = None) as Hn1.
  { intros i' j0. rewrite EJ. intros H Hi. rewrite list_lookup_insert_ne in H by done. by apply (Hn i' j0). }
  assert (next ≤ length (ln_jobs N1))%nat as Hle1 by (by rewrite EJ, length_insert).
  assert (leave_ok (settle_worker now w next ws N1)) as HS by (by eapply settle_worker_ok).
  destruct st; [|exact HS]. destruct (_ && _); [|exact HS].
  split; [by apply base_phase|]. unfold at_phase. cbn [set_phase ln_phase]. change (ln_jobs (set_phase _ N1)) with (ln_jobs N1). split_and!; [| |done| | |done].
  - intros E%(f_equal length). rewrite length_insert in E. apply lookup_lt_Some in Ew. simpl in E. lia.
  - rewrite list_fmap_insert, list_insert_id; [done|]. by rewrite list_lookup_fmap, Ew.
  - intros i0 st0 [[= -> ->]|(k & _ & Hk)]%elem_insert; [by eapply Hlt, list_elem_of_lookup_2|]. by eapply Hlt, list_elem_of_lookup_2.
  - intros i0 j0 Hj0 Hor. apply (Hn1 i0 j0 Hj0).
    + destruct Hor as [Hge|[Heq|(k & Hk1 & Hk)]%elem_insert]; [|done|]; [apply list_elem_of_lookup_2, Hlt in Ew; lia|by eapply other_worker].
    + destruct Hor as [?|[Heq|(k & _ & Hk)]%elem_insert]; [by left|done|right; by eapply list_elem_of_lookup_2].
Qed.

Lemma retry_pick_frame E ids j : jb_t (retry_pick E self ids j) = jb_t j ∧ (jb_heir (retry_pick E self ids j) = None → jb_heir j = None).
Proof. unfold retry_pick. cbv zeta. destruct (head _); [|done]. by case_bool_decide. Qed.

Lemma reanswered_ok E l N : leave_ok N → leave_ok (reanswered self E l N).
Proof.
  intros [HB HP]. unfold reanswered. destruct (ln_phase N) as [|r [|i todo]| |] eqn:Ep; try done.
  unfold at_phase in HP. rewrite Ep in HP. destruct HP as [_ HF]. set (N1 := match l with Some _ => _ | None => N end).
  assert (base N1) as HB1 by (unfold N1; destruct l; [apply base_pick; [done|]; intros j; apply retry_pick_frame|done]).
  assert (fresh N1) as HF1 by (unfold N1; by destruct l).
  destruct todo as [|i' todo]; [by apply send_round_ok|]. split; [by apply base_phase|done].
Qed.

Lemma woken_ok now N : leave_ok N → leave_ok (woken now N).
Proof.
  intros [HB HP]. unfold woken. destruct (ln_phase N) as [| |r dl c p|] eqn:Ep; try done.
  unfold at_phase in HP. rewrite Ep in HP. destruct HP as [Hpu HF]. cbv zeta. destruct (negb _ && _); [by apply enter_round_ok|].
  destruct (if Nat.ltb _ _ then _ else _) as [c' p']. destruct (_ && _); [|by apply enter_round_ok]. split; [by apply base_phase|done].
Qed.

Lemma ack_ok N k e : (e = FullAck k ∨ e = Verified k) → leave_ok N → leave_ok (note [e] (ack_key k N)).
Proof.
  intros He [[H1 H2 H3] HP]. assert (∀ x, x ∈ ln_log N → x ∈ ln_log N ++ [e]) as Hl by (intros x Hx; apply elem_of_app; by left).
  set (N' := note _ _). assert (∀ k', k' ∈ ln_acked N' ↔ k' ∈ ln_acked N ∨ k' = k) as Hk.
  { intros k'. cbn [N' note ack_key ln_acked]. case_bool_decide as Hin; [split; [by left|by intros [?| ->]]|].
    rewrite elem_of_app, list_elem_of_singleton. done. }
  assert (∀ t, NoTarget t ∈ ln_log N' ↔ NoTarget t ∈ ln_log N) as Hnt.
  { intros t. cbn [N' note ack_key ln_log]. rewrite elem_of_app, list_elem_of_singleton. destruct He as [-> | ->]; naive_solver. }
  split; [split; [| exact H2 |]|].
  - intros k' [Hk'| ->]%Hk; [destruct (H1 _ Hk'); [left|right]; by apply Hl|]. cbn [N' note ack_key ln_log]. rewrite !elem_of_app, !list_elem_of_singleton.
    destruct He as [-> | ->]; auto.
  - intros j ids Hj Hn. cbn [N' note ack_key ln_log]. intros [Hh|Hh%list_elem_of_singleton]%elem_of_app; [by eapply H3|]. by destruct He as [-> | ->].
  - unfold at_phase in *. change (ln_phase N') with (ln_phase N). change (ln_jobs N') with (ln_jobs N). assert (fresh N → fresh N') as HFF by (intros H t Ht%Hnt; by apply H in Ht).
    destruct (ln_phase N) as [next ws|r todo|r dl c p|]; [destruct HP as (?&?&?&?&?&?); split_and!; auto|destruct HP; split; auto| |].
    + destruct HP as [Hp HF]. split; [|by apply HFF]. intros j h Hj Hh Hkj. destruct (Hp j h Hj Hh) as (v & ids & Hin); [intros ?; apply Hkj, Hk; by left|].
      exists v, ids. by apply Hl.
    + destruct HP as [Hp Ht]. split; [|intros t Hin%Hnt; by apply Ht]. intros j Hj. unfold settled. rewrite Hk, Hnt.
      destruct (Hp j Hj) as [?|[(v & b & ids & ?)|?]]; [by left; left|right; left|by right; right]. exists v, b, ids. by apply Hl.
Qed.

Lemma frame_ok N N' : ln_jobs N' = ln_jobs N → ln_phase N' = ln_phase N → ln_acked N' = ln_acked N → ln_log N' = ln_log N → leave_ok N → leave_ok N'.
Proof.
  intros E1 E2 E3 E4 [[H1 H2 H3] HP]. split; [split; rewrite ?E1, ?E3, ?E4; done|].
  unfold at_phase, pushed_in, settled, fresh in *. rewrite E1, E2, E3, E4. exact HP.
Qed.

Lemma leave_step N x : leave_ok N → leave_ok (lstep self hasLookup N x).
Proof.
  intros H. destruct x as [E [w l|l| |mine topic held sent|d i vs|G]]; cbn [lstep fst snd].
  - by apply answered_ok.
  - by apply reanswered_ok.
  - by apply woken_ok.
  - unfold onHandoffAck. destruct (negb mine); [done|]. destruct topic; [|done]. destruct (match held, sent with Some _, Some _ => _ | _, _ => _ end); [done|].
    apply ack_ok; [by left|done].
  - unfold dispatched. destruct (ln_tasks N !! i) as [[key n]|]; [|done]. destruct (Nat.eqb _ _); [|done]. cbv zeta.
    destruct (existsb _ _); [apply ack_ok; [by right|]|]; by apply (frame_ok N).
  - by apply (frame_ok N).
Qed.
Lemma leave_run l : ∀ N, leave_ok N → leave_ok (lrun self hasLookup N l).
Proof. induction l as [|x l IH]; intros N H; [done|]. apply IH. by apply leave_step. Qed.

(** The jobs keep their topics and their role objects. *)
Definition names (N : lnode) : list (Z * nat) := (λ j, (jb_t j, jb_ref j)) <$> ln_jobs N.
Lemma names_insert N i j j' : ln_jobs N !! i = Some j → jb_t j' = jb_t j → jb_ref j' = jb_ref j →
  (λ j, (jb_t j, jb_ref j)) <$> <[i := j']> (ln_jobs N) = names N.
Proof. intros Hi Ht Hr. rewrite list_fmap_insert, list_insert_id; [done|]. by rewrite list_lookup_fmap, Hi, Ht, Hr. Qed.
Lemma names_finish N : names (finish N) = names N.
Proof. done. Qed.
Lemma names_send_round now r N : names (send_round now r N) = names N.
Proof.
  unfold send_round. destruct (send_all_frame r (unacked N) N) as (A1 & _). set (N1 := foldl _ _ _) in *.
  assert (names N1 = names N) as E by (unfold names; by rewrite A1). by destruct (unacked N1).
Qed.
Lemma names_enter_round now r N : names (enter_round now r N) = names N.
Proof. unfold enter_round. destruct (_ && _); [|done]. destruct r; [apply names_send_round|done]. Qed.
Lemma names_settle now w next ws N : names (settle_worker now w next ws N) = names N.
Proof. unfold settle_worker. destruct (Nat.ltb _ _); [done|]. by destruct (delete w ws); [apply names_enter_round|]. Qed.
Lemma names_answered now w l N : names (answered self hasLookup now w l N) = names N.
Proof.
  unfold answered. destruct (ln_phase N) as [next ws| | |]; try done. destruct (ws !! w) as [[i st]|]; [|done].
  destruct (ln_jobs N !! i) as [j|] eqn:Ej; [|done]. cbv zeta. set (N1 := note _ _).
  assert (names N1 = names N) as E.
  { apply (names_insert _ _ j); [done|..]; unfold answer_pick; by destruct st, (pickHeirs _ _) as [[?|] ?]. }
  destruct st; [destruct (_ && _); [done|]|]; by rewrite names_settle.
Qed.
Lemma names_step N x : names (lstep self hasLookup N x) = names N.
Proof.
  destruct x as [E [w l|l| |mine topic held sent|d i vs|G]]; cbn [lstep fst snd].
  - apply names_answered.
  - unfold reanswered. destruct (ln_phase N) as [|r [|i todo]| |]; try done. cbv zeta. set (N1 := match l with Some _ => _ | None => N end).
    assert (names N1 = names N) as E1.
    { unfold N1. destruct l as [ids|]; [|done]. unfold names. cbn [set_jobs ln_jobs]. apply list_eq. intros k. rewrite !list_lookup_fmap.
      destruct (decide (i = k)) as [<-|Hne]; [rewrite list_lookup_alter_eq|by rewrite list_lookup_alter_ne by done]. destruct (ln_jobs N !! i) as [j|]; [|done].
      simpl. unfold retry_pick. destruct (head _); [|done]. by case_bool_decide. }
    destruct todo; [by rewrite names_send_round|done].
  - unfold woken. destruct (ln_phase N) as [| |r dl c p|]; try done. cbv zeta. destruct (_ && _); [apply names_enter_round|].
    destruct (if Nat.ltb _ _ then _ else _) as [c' p']. destruct (_ && _); [done|apply names_enter_round].
  - unfold onHandoffAck. by repeat case_match.
  - unfold dispatched. by repeat case_match.
  - done.
Qed.
Lemma names_run l : ∀ N, names (lrun self hasLookup N l) = names N.
Proof. induction l as [|x l IH]; intros N; [done|]. cbn [lrun foldl]. unfold lrun in IH. by rewrite IH, names_step. Qed.

(** What is handed over: the topics whose messages would otherwise go. *)
Lemma elem_collect now nb P G j : jwf (axonRoles G) →
  j ∈ collect self now nb P G ↔ ∃ r, live G (jb_t j) = Some (jb_ref j, r) ∧ cache r ≠ [] ∧
    (isRoot r = true ∨ rootAliveForLeave self now nb G (jb_t j) r = false) ∧ jb_heir j = None ∧ jb_alt j = None.
Proof.
  intros Hw. unfold collect. rewrite list_elem_of_fmap. setoid_rewrite elem_of_sort_cmp. setoid_rewrite list_elem_of_omap. split.
  - intros ([j0 r] & -> & [t ref] & Hin & Hh). unfold holder in Hh. cbn [fst snd] in *. destruct (role_at G ref) as [r0|] eqn:Er; [|done]. simpl in Hh.
    destruct (Nat.eqb _ _) eqn:Ec; [done|]. destruct (_ && _) eqn:Ea; [done|]. injection Hh as <- <-. exists r0. split_and!; try done.
    + apply live_Some. split; [by apply elem_jget|done].
    + intros E. by rewrite E in Ec.
    + cbn [jb_t]. destruct (isRoot r0); [by left|]. by right.
  - intros (r & [Hl Hr]%live_Some & Hc & Ha & E1 & E2). exists (j, r). split; [done|]. exists (jb_t j, jb_ref j). split; [by apply jget_Some_elem|].
    unfold holder. cbn [fst snd]. rewrite Hr. simpl. destruct (cache r) as [|e c] eqn:Ec; [done|]. cbn [length Nat.eqb].
    assert (negb (isRoot r) && rootAliveForLeave self now nb G (jb_t j) r = false) as -> by (destruct Ha as [-> | ->]; [done|apply andb_false_r]).
    destruct j; simpl in *. by subst.
Qed.
Lemma collect_topics now nb P G : jwf (axonRoles G) → NoDup (jb_t <$> collect self now nb P G).
Proof.
  intros Hw. unfold collect. rewrite sort_cmp_perm. unfold jwf in Hw. induction (axonRoles G) as [|[t ref] m IH]; [apply NoDup_nil_2|].
  cbn [fmap list_fmap fst] in Hw. apply NoDup_cons in Hw as [Hni Hw]. cbn [omap list_omap]. destruct (holder self now nb G (t, ref)) as [[j r]|] eqn:Eh; [|by apply IH].
  assert (jb_t j = t) as Ej.
  { unfold holder in Eh. cbn [fst snd] in Eh. destruct (role_at G ref); [|done]. simpl in Eh. destruct (Nat.eqb _ _); [done|]. destruct (_ && _); [done|]. by injection Eh as <- <-. }
  cbn [fmap list_fmap fst]. apply NoDup_cons. split; [|by apply IH]. rewrite Ej. intros Hin. apply Hni.
  apply list_elem_of_fmap in Hin as (j' & Ej' & Hin). apply list_elem_of_fmap in Hin as ([j0 r0] & -> & Hin). apply list_elem_of_omap in Hin as ([t' ref'] & Hin & Hh).
  assert (jb_t j0 = t') as E0.
  { unfold holder in Hh. cbn [fst snd] in Hh. destruct (role_at G ref'); [|done]. simpl in Hh. destruct (Nat.eqb _ _); [done|]. destruct (_ && _); [done|]. by injection Hh as <- <-. }
  cbn [fst] in Ej'. apply list_elem_of_fmap. exists (t', ref'). split; [simpl; congruence|done].
Qed.

Lemma begin_ok hasFind now nb P G : jwf (axonRoles G) → leave_ok (begin_leave self hasFind now nb P G).
Proof.
  intros Hw. unfold begin_leave. destruct hasFind.
  2: { split; [split; cbn; [by intros ? ?%not_elem_of_nil|apply NoDup_nil_2|by intros ? ? ? ? ?%not_elem_of_nil]|].
       unfold at_phase. cbn. split; [by intros ? ?%not_elem_of_nil|by intros ? ?%not_elem_of_nil]. }
  unfold resolve_heirs. cbv zeta. set (jobs := collect self now nb P G). set (n := Nat.min RESOLVERS (length jobs)).
  set (N := mk_lnode _ _ _ _ _ _). assert (base N) as HB.
  { split; cbn [N ln_acked ln_log ln_jobs]; [by intros ? ?%not_elem_of_nil|by apply collect_topics|by intros ? ? ? ? ?%not_elem_of_nil]. }
  assert (fresh N) as HF by (by intros t ?%not_elem_of_nil). destruct (Nat.eqb_spec n 0) as [En|En]; [by apply enter_round_ok|].
  split; [done|]. unfold at_phase. cbn [N ln_phase ln_jobs].
  assert (∀ i st, (i, st) ∈ (λ i, (i, FindK)) <$> List.seq 0 n → (i < n)%nat) as Hlt.
  { intros i st (i' & [= -> ->] & Hi)%list_elem_of_fmap. apply elem_of_seq in Hi. lia. }
  split_and!; [|by rewrite <-list_fmap_compose; rewrite list_fmap_id; apply NoDup_seq|unfold n; lia|done| |done].
  - destruct n; [done|]. simpl. done.
  - intros i j Hj _. apply list_elem_of_lookup_2 in Hj. apply elem_collect in Hj as (r & _ & _ & _ & ? & _); done.
Qed.
End accounts.

(** * Progress *)

Section progress.
Context (self : Z) (hasLookup : bool).

Definition rounds_left (r : nat) (N : lnode) : nat := (HANDOFF_TRIES - r) * S (length (ln_jobs N)).
Definition stage_weight (x : nat * stage) : nat := match x.2 with FindK => 2 | Lookup => 1 end.
#[local] Arguments stage_weight : simpl never.
(** How many lookups and waits a hand-off can still take. *)
Definition remaining (N : lnode) : nat :=
  match ln_phase N with
  | Resolving next ws => 2 * (length (ln_jobs N) - next) + sum_list_with stage_weight ws + rounds_left 0 N
  | Retrying r todo => length todo + S (rounds_left (S r) N)
  | Waiting r _ _ _ => S (rounds_left (S r) N)
  | Gone => 0
  end.
(** The answer of a lookup that is awaited, or a look at the clock past the deadline. *)
Definition advances (N : lnode) (x : env * lop) : bool :=
  match x.2, ln_phase N with
  | Answer w _, Resolving _ ws => bool_decide (ws !! w ≠ None)
  | Reanswer _, Retrying _ _ => true
  | Wake, Waiting _ deadline _ _ => deadline <=? now x.1
  | _, _ => false
  end.
Fixpoint advances_of (N : lnode) (l : list (env * lop)) : nat :=
  match l with
  | [] => 0
  | x :: l => (if advances N x then 1 else 0) + advances_of (lstep self hasLookup N x) l
  end.

Lemma names_length N N' : names N' = names N → length (ln_jobs N') = length (ln_jobs N).
Proof. intros E%(f_equal length). unfold names in E. by rewrite !length_fmap in E. Qed.
Lemma remaining_finish N : remaining (finish N) = 0%nat.
Proof. done. Qed.
Lemma remaining_send_round now r N : (remaining (send_round now r N) ≤ S (rounds_left (S r) N))%nat.
Proof.
  unfold send_round. destruct (send_all_frame r (unacked N) N) as (A1 & _). set (N1 := foldl _ _ _) in *.
  destruct (unacked N1); [rewrite remaining_finish; lia|]. unfold remaining, rounds_left. cbn [set_phase ln_phase ln_jobs]. by rewrite A1.
Qed.
Lemma rounds_split r N : (r < HANDOFF_TRIES)%nat → rounds_left r N = (length (ln_jobs N) + S (rounds_left (S r) N))%nat.
Proof. intros H. unfold rounds_left. replace (HANDOFF_TRIES - r)%nat with (S (HANDOFF_TRIES - S r)) by lia. simpl. lia. Qed.
Lemma remaining_enter_round now r N : (remaining (enter_round now r N) ≤ rounds_left r N)%nat.
Proof.
  unfold enter_round. destruct (Nat.ltb_spec r HANDOFF_TRIES) as [Hr|]; [|cbn [andb]; rewrite remaining_finish; lia]. cbn [andb].
  pose proof (rounds_split r N Hr) as E. case_bool_decide; cbn [negb]; [rewrite remaining_finish; lia|]. destruct r as [|r].
  - pose proof (remaining_send_round now 0 N). lia.
  - rewrite E. unfold remaining. cbn [set_phase ln_phase]. pose proof (length_unacked N) as Hu. unfold rounds_left. cbn [set_phase ln_jobs]. lia.
Qed.

Lemma weight_insert (ws : list (nat * stage)) w x y : ws !! w = Some x →
  (sum_list_with stage_weight (<[w := y]> ws) + stage_weight x = sum_list_with stage_weight ws + stage_weight y)%nat.
Proof. revert w. induction ws as [|z ws IH]; intros [|w] H; simpl in *; [done|done|injection H as ->; lia|]. pose proof (IH _ H). lia. Qed.
Lemma weight_delete (ws : list (nat * stage)) w x : ws !! w = Some x →
  (sum_list_with stage_weight (delete w ws) + stage_weight x = sum_list_with stage_weight ws)%nat.
Proof. revert w. induction ws as [|z ws IH]; intros [|w] H; simpl in *; [done|done|injection H as ->; lia|]. pose proof (IH _ H). lia. Qed.
Lemma weight_pos x : (1 ≤ stage_weight x ≤ 2)%nat.
Proof. destruct x as [? []]; unfold stage_weight; simpl; lia. Qed.

Lemma remaining_settle now w next ws N i st : ws !! w = Some (i, st) → (next ≤ length (ln_jobs N))%nat →
  (remaining (settle_worker now w next ws N) + stage_weight (i, st) ≤
   2 * (length (ln_jobs N) - next) + sum_list_with stage_weight ws + rounds_left 0 N)%nat.
Proof.
  intros Hw Hle. unfold settle_worker. destruct (Nat.ltb_spec next (length (ln_jobs N))) as [Hl|Hl].
  - pose proof (weight_insert ws w _ (next, FindK) Hw) as E. unfold remaining. cbn [set_phase ln_phase ln_jobs]. unfold rounds_left in *. cbn [set_phase ln_jobs].
    change (stage_weight (next, FindK)) with 2%nat in E. lia.
  - pose proof (weight_delete ws w _ Hw) as E. pose proof (remaining_enter_round now 0 N) as Hr.
    destruct (delete w ws) as [|y l] eqn:Ed; [simpl in E; lia|]. unfold remaining. cbn [set_phase ln_phase ln_jobs]. unfold rounds_left in *. cbn [set_phase ln_jobs]. lia.
Qed.

Lemma remaining_answered now w l N : leave_ok self N →
  (remaining (answered self hasLookup now w l N) +
   match ln_phase N with Resolving _ ws => if bool_decide (ws !! w ≠ None) then 1 else 0 | _ => 0 end ≤ remaining N)%nat.
Proof.
  intros [_ HP]. unfold answered. destruct (ln_phase N) as [next ws| | |] eqn:Ep; [|lia..]. unfold at_phase in HP. rewrite Ep in HP.
  destruct HP as (_ & _ & Hle & Hlt & _). destruct (ws !! w) as [[i st]|] eqn:Ew; [|rewrite bool_decide_eq_false_2 by (intros H; by apply H); lia].
  rewrite bool_decide_eq_true_2 by done.
  assert (is_Some (ln_jobs N !! i)) as [j Ej] by (apply lookup_lt_is_Some; apply list_elem_of_lookup_2, Hlt in Ew; lia). rewrite Ej. cbv zeta.
  set (N1 := note _ _). assert (length (ln_jobs N1) = length (ln_jobs N)) as EL by (unfold N1; cbn [note set_jobs ln_jobs]; by rewrite length_insert).
  pose proof (remaining_settle now w next ws N1 i st Ew) as Hs. unfold rounds_left in Hs. rewrite EL in Hs. specialize (Hs Hle).
  unfold remaining at 2. rewrite Ep. unfold rounds_left. pose proof (weight_pos (i, st)).
  destruct st; [destruct (_ && _)|]; [|lia..]. pose proof (weight_insert ws w _ (i, Lookup) Ew) as E. change (stage_weight (i, Lookup)) with 1%nat in E.
  change (stage_weight (i, FindK)) with 2%nat in E. unfold remaining. cbn [set_phase ln_phase]. unfold rounds_left. cbn [set_phase ln_jobs]. rewrite EL. lia.
Qed.

Lemma remaining_step N x : leave_ok self N →
  (remaining (lstep self hasLookup N x) + (if advances N x then 1 else 0) ≤ remaining N)%nat.
Proof.
  intros H. destruct x as [E [w l|l| |mine topic held sent|d i vs|G]]; cbn [lstep fst snd].
  - pose proof (remaining_answered (now E) w l N H) as Ha. unfold advances. cbn [snd]. by destruct (ln_phase N).
  - unfold reanswered, advances. cbn [snd]. destruct H as [_ HP]. unfold at_phase in HP. destruct (ln_phase N) as [|r todo| |] eqn:Ep; [lia| |lia..].
    destruct HP as [Hne _]. destruct todo as [|i todo]; [done|]. set (N1 := match l with Some _ => _ | None => N end).
    assert (length (ln_jobs N1) = length (ln_jobs N)) as EL by (unfold N1; destruct l; [cbn [set_jobs ln_jobs]; apply length_alter|done]).
    unfold remaining at 2. rewrite Ep. unfold rounds_left. rewrite <-EL. destruct todo as [|i' todo].
    + pose proof (remaining_send_round (now E) r N1) as Hs. unfold rounds_left in Hs. simpl length. lia.
    + unfold remaining. cbn [set_phase ln_phase]. unfold rounds_left. cbn [set_phase ln_jobs]. simpl length. lia.
  - unfold woken, advances. cbn [snd fst]. destruct (ln_phase N) as [| |r dl c p|] eqn:Ep; [lia|lia| |lia].
    assert (remaining N = S (rounds_left (S r) N)) as Er by (unfold remaining; by rewrite Ep). pose proof (remaining_enter_round (now E) (S r) N) as He.
    cbv zeta. destruct (negb _ && _); [destruct (dl <=? _); lia|]. destruct (if Nat.ltb _ _ then _ else _) as [c' p'].
    destruct (now E <? dl) eqn:Ed; zb; [|destruct (dl <=? _); cbn [andb]; lia]. rewrite (proj2 (Z.leb_gt dl (now E))) by done. cbn [andb].
    case_bool_decide; cbn [negb]; [lia|]. rewrite Er. unfold remaining. cbn [set_phase ln_phase]. unfold rounds_left. cbn [set_phase ln_jobs]. lia.
  - unfold advances. cbn [snd]. unfold onHandoffAck. repeat case_match; unfold remaining, rounds_left; cbn; rewrite Nat.add_0_r; done.
  - unfold advances. cbn [snd]. unfold dispatched. repeat case_match; unfold remaining, rounds_left; cbn; rewrite Nat.add_0_r; done.
  - unfold advances, remaining, rounds_left. cbn. rewrite Nat.add_0_r. done.
Qed.

Lemma remaining_run l : ∀ N, leave_ok self N → (remaining (lrun self hasLookup N l) + advances_of N l ≤ remaining N)%nat.
Proof.
  induction l as [|x l IH]; intros N H; [simpl; lia|]. cbn [lrun foldl advances_of]. pose proof (remaining_step N x H) as Hs.
  specialize (IH _ (leave_step _ hasLookup _ x H)). unfold lrun in IH. lia.
Qed.
Lemma can_advance N : leave_ok self N → ln_phase N ≠ Gone → ∃ x, advances N x = true.
Proof.
  intros [_ HP] Hg. unfold at_phase in HP. unfold advances. destruct (ln_phase N) as [next ws|r todo|r dl c p|]; [| | |done].
  - destruct HP as [Hne _]. destruct ws as [|y ws]; [done|]. exists (mk_env 0 0 None None true false, Answer 0 None). cbn [snd]. by rewrite bool_decide_eq_true_2.
  - by exists (mk_env 0 0 None None true false, Reanswer None).
  - exists (mk_env dl 0 None None true false, Wake). cbn. apply Z.leb_refl.
Qed.
Lemma remaining_begin hasFind now nb P G : let n := length (collect self now nb P G) in
  (remaining (begin_leave self hasFind now nb P G) ≤ 2 * n + HANDOFF_TRIES * S n)%nat.
Proof.
  cbv zeta. unfold begin_leave. destruct hasFind; [|unfold remaining; cbn; lia]. unfold resolve_heirs. cbv zeta. set (jobs := collect self now nb P G). set (n := Nat.min RESOLVERS (length jobs)).
  destruct (Nat.eqb_spec n 0) as [En|En].
  - etrans; [apply remaining_enter_round|]. unfold rounds_left. cbn [ln_jobs]. lia.
  - unfold remaining. cbn [ln_phase ln_jobs]. unfold rounds_left. cbn [ln_jobs].
    assert (∀ a, sum_list_with stage_weight ((λ i, (i, FindK)) <$> List.seq a n) = 2 * n)%nat as E.
    { clear. induction n as [|n IH]; intros a; [done|]. cbn [List.seq fmap list_fmap sum_list_with]. rewrite IH. change (stage_weight (a, FindK)) with 2%nat. lia. }
    rewrite E. unfold n. lia.
Qed.

(** A deadline is set once, and at most [HANDOFF_ACK_MAX_MS] ahead. *)
Lemma send_round_deadline t r N r' dl c p : ln_phase (send_round t r N) = Waiting r' dl c p → dl ≤ t + HANDOFF_ACK_MAX_MS.
Proof. unfold send_round, window. destruct (unacked _); [done|]. cbn [set_phase ln_phase]. intros [= _ <- _ _]. lia. Qed.
Lemma enter_round_deadline t r N r' dl c p : ln_phase (enter_round t r N) = Waiting r' dl c p → dl ≤ t + HANDOFF_ACK_MAX_MS.
Proof. unfold enter_round. destruct (_ && _); [|done]. destruct r; [apply send_round_deadline|done]. Qed.
Lemma deadline_step N x r dl c p : ln_phase (lstep self hasLookup N x) = Waiting r dl c p →
  dl ≤ now x.1 + HANDOFF_ACK_MAX_MS ∨ ∃ c' p', ln_phase N = Waiting r dl c' p'.
Proof.
  destruct x as [E [w l|l| |mine topic held sent|d i vs|G]]; cbn [lstep fst snd].
  - unfold answered. destruct (ln_phase N) as [next ws| | |] eqn:Ep; [|intros H; right; exists c, p; congruence..].
    destruct (ws !! w) as [[i st]|]; [|congruence]. destruct (ln_jobs N !! i) as [j|]; [|congruence]. cbv zeta.
    assert (∀ N1, ln_phase (settle_worker (now E) w next ws N1) = Waiting r dl c p → dl ≤ now E + HANDOFF_ACK_MAX_MS) as Hs.
    { intros N1. unfold settle_worker. destruct (Nat.ltb _ _); [done|]. destruct (delete w ws); [apply enter_round_deadline|done]. }
    destruct st; [destruct (_ && _); [done|]|]; intros H%Hs; by left.
  - unfold reanswered. destruct (ln_phase N) as [|r0 [|i todo]| |] eqn:Ep; try (intros H; right; exists c, p; congruence). cbv zeta.
    destruct todo; [|done]. intros H%send_round_deadline. by left.
  - unfold woken. destruct (ln_phase N) as [| |r0 dl0 c0 p0|] eqn:Ep; try (intros H; right; exists c, p; congruence). cbv zeta.
    destruct (negb _ && _); [intros H%enter_round_deadline; by left|]. destruct (if Nat.ltb _ _ then _ else _) as [c' p'].
    destruct (_ && _); [|intros H%enter_round_deadline; by left]. cbn [set_phase ln_phase]. intros [= <- <- <- <-]. right. by exists c0, p0.
  - unfold onHandoffAck. repeat case_match; intros Hd; right; by exists c, p.
  - unfold dispatched. repeat case_match; intros Hd; right; by exists c, p.
  - intros H. right. by exists c, p.
Qed.
End progress.

(** * Order *)

#[export] Instance cmp_jobs_comparator P : Comparator (cmp_jobs P).
Proof.
  split.
  - intros a b. unfold cmp_le, cmp_jobs. cbv zeta. destruct (tier P a - tier P b =? 0) eqn:E1, (tier P b - tier P a =? 0) eqn:E2; zb; lia.
  - intros a b c. unfold cmp_le, cmp_jobs. cbv zeta.
    destruct (tier P a - tier P b =? 0) eqn:E1, (tier P b - tier P c =? 0) eqn:E2, (tier P a - tier P c =? 0) eqn:E3; zb; lia.
Qed.
Lemma collect_sorted self now nb P G i k a b ra rb : jwf (axonRoles G) → (i < k)%nat →
  collect self now nb P G !! i = Some a → collect self now nb P G !! k = Some b →
  live G (jb_t a) = Some (jb_ref a, ra) → live G (jb_t b) = Some (jb_ref b, rb) → cmp_jobs P (a, ra) (b, rb) ≤ 0.
Proof.
  intros Hw Hik Ha Hb Hra Hrb. unfold collect in Ha, Hb. set (l := omap (holder self now nb G) (axonRoles G)) in *.
  pose proof (sort_cmp_sorted (cmp_jobs P) l) as Hs.
  assert (∀ x, x ∈ sort_cmp (cmp_jobs P) l → live G (jb_t x.1) = Some (jb_ref x.1, x.2)) as Hin.
  { intros x Hx. apply elem_of_sort_cmp, list_elem_of_omap in Hx as ([t ref] & Hp & Hh). unfold holder in Hh. cbn [fst snd] in Hh.
    destruct (role_at G ref) as [r|] eqn:Er; [|done]. simpl in Hh. destruct (Nat.eqb _ _); [done|]. destruct (_ && _); [done|]. injection Hh as <-.
    apply live_Some. split; [by apply elem_jget|done]. }
  rewrite list_lookup_fmap in Ha, Hb. destruct (sort_cmp (cmp_jobs P) l !! i) as [xa|] eqn:Ea; [|done]. destruct (sort_cmp (cmp_jobs P) l !! k) as [xb|] eqn:Eb; [|done].
  injection Ha as <-. injection Hb as <-. pose proof (Hin xa ltac:(by eapply list_elem_of_lookup_2)) as E1. pose proof (Hin xb ltac:(by eapply list_elem_of_lookup_2)) as E2.
  rewrite E1 in Hra. rewrite E2 in Hrb. injection Hra as <-. injection Hrb as <-. destruct xa as [ja xa], xb as [jb xb]. cbn [fst snd] in *.
  rewrite <-(take_drop_middle _ _ _ Eb) in Hs. change (cmp_le (cmp_jobs P) (ja, xa) (jb, xb)). refine (StronglySorted_app_1_elem_of _ _ _ _ _ Hs _ _); [|left].
  apply list_elem_of_lookup. exists i. rewrite lookup_take_lt by done. exact Ea.
Qed.

(** * Properties *)

(** A node that is not leaving sends nothing. *)
Lemma idle_step self hasLookup N x : ln_phase N = Gone → ln_tasks N = [] →
  let N' := lstep self hasLookup N x in
  ln_phase N' = Gone ∧ ln_tasks N' = [] ∧ ln_jobs N' = ln_jobs N ∧
  ∀ round v t b ids, Push round v t b ids ∈ ln_log N' → Push round v t b ids ∈ ln_log N.
Proof.
  intros Hp Ht. destruct x as [E [w o|o| |mine topic held sent|d i vs|G]]; cbn [lstep fst snd]; try done.
  - unfold answered. by rewrite Hp.
  - unfold reanswered. by rewrite Hp.
  - unfold woken. by rewrite Hp.
  - unfold onHandoffAck. destruct (negb mine); [done|]. destruct topic as [tid|]; [|done].
    destruct (match held, sent with Some h, Some s => h <? s | _, _ => false end); [done|]. cbn. split_and!; [done..|].
    intros round v t b ids [?|H%list_elem_of_singleton]%elem_of_app; [done|discriminate H].
  - unfold dispatched. by rewrite Ht.
Qed.
Lemma idle_run self hasLookup now_ nb P G l : let N := lrun self hasLookup (begin_leave self false now_ nb P G) l in
  ln_phase N = Gone ∧ ln_jobs N = [] ∧ ∀ round v t b ids, Push round v t b ids ∉ ln_log N.
Proof.
  cbv zeta. unfold begin_leave. set (N0 := mk_lnode _ _ _ _ _ _).
  assert (ln_phase N0 = Gone ∧ ln_tasks N0 = [] ∧ ln_jobs N0 = [] ∧ ∀ round v t b ids, Push round v t b ids ∉ ln_log N0) as H
    by (split_and!; [done..|]; intros ? ? ? ? ?; apply not_elem_of_nil).
  clearbody N0. revert N0 H. induction l as [|x l IH]; intros N0 (H1 & H2 & H3 & H4); [done|]. apply IH.
  destruct (idle_step self hasLookup N0 x H1 H2) as (I1 & I2 & I3 & I4). split_and!; [done|done|congruence|].
  intros round v t b ids Hin. by eapply H4, I4.
Qed.

(** C8. No topic leaves silently.  Whatever the lookups answer, whoever acknowledges and whatever the
    roles become meanwhile: where the adapter can find neighbours at all (else nothing whatever is
    sent, and every topic goes with the node), when the hand-off is over, every topic whose messages this node held as
    root, or held without knowing its root alive, is acknowledged or verified, or its state was pushed
    once more to a last target, or nobody was ever heard of to push it to.  A topic counts as handed
    over only on a full acknowledgement for it or on a push of its holder that was taken.  While the
    node waits, every topic that is not, has been pushed to its heir in this round; and sole copies
    are looked up first, then replicated roots, in each class the larger first. *)
Theorem departure_accounts self hasLookup hasFind now_ nb P G l : jwf (axonRoles G) →
  let N := lrun self hasLookup (begin_leave self hasFind now_ nb P G) l in
  (hasFind = false → ln_phase N = Gone ∧ ln_jobs N = [] ∧ ∀ round v t b ids, Push round v t b ids ∉ ln_log N) ∧
  (hasFind = true → ln_phase N = Gone → ∀ t ref r, live G t = Some (ref, r) → cache r ≠ [] →
     isRoot r = true ∨ rootAliveForLeave self now_ nb G t r = false →
     ∃ j, j ∈ ln_jobs N ∧ jb_t j = t ∧ jb_ref j = ref ∧
       (jb_key j ∈ ln_acked N ∨ (∃ v b ids, Push None v t b ids ∈ ln_log N) ∨
        (NoTarget t ∈ ln_log N ∧ ∀ ids, Heard t ids ∈ ln_log N → others_of self ids = []))) ∧
  (∀ k, k ∈ ln_acked N → FullAck k ∈ ln_log N ∨ Verified k ∈ ln_log N) ∧
  (∀ round d c p, ln_phase N = Waiting round d c p → ∀ j h, j ∈ ln_jobs N → jb_heir j = Some h → jb_key j ∉ ln_acked N →
     ∃ v ids, Push (Some round) v (jb_t j) h ids ∈ ln_log N) ∧
  (∀ i k a b ra rb, (i < k)%nat → collect self now_ nb P G !! i = Some a → collect self now_ nb P G !! k = Some b →
     live G (jb_t a) = Some (jb_ref a, ra) → live G (jb_t b) = Some (jb_ref b, rb) → cmp_jobs P (a, ra) (b, rb) ≤ 0).
Proof.
  intros Hw N. destruct (leave_run self hasLookup l _ (begin_ok self hasFind now_ nb P G Hw)) as [[H1 H2 H3] HP]. fold N in H1, H2, H3, HP.
  split_and!; [| |done| |intros; by eapply collect_sorted].
  - intros ->. by apply idle_run.
  - intros -> Hg t ref r Hl Hc Ha. unfold at_phase in HP. rewrite Hg in HP. destruct HP as [HP Ht].
    assert (names N = names (begin_leave self true now_ nb P G)) as En by apply names_run.
    assert (names (begin_leave self true now_ nb P G) = (λ j, (jb_t j, jb_ref j)) <$> collect self now_ nb P G) as Eb.
    { unfold begin_leave, resolve_heirs. cbv zeta. destruct (Nat.eqb _ _); [by rewrite names_enter_round|done]. }
    assert ((t, ref) ∈ names N) as Hin.
    { rewrite En, Eb. apply list_elem_of_fmap. exists (mk_job t ref None None). split; [done|]. apply elem_collect; [done|]. by exists r. }
    apply list_elem_of_fmap in Hin as (j & [= -> ->] & Hj). exists j. split_and!; [done..|].
    destruct (HP j Hj) as [?|[?|Hn]]; [by left|by right; left|right; right]. split; [done|]. intros ids Hh.
    destruct (Ht _ Hn) as (j' & Hj' & Et & En'). rewrite <-Et in Hh. by apply (H3 j').
  - intros round d c p Hph. unfold at_phase in HP. rewrite Hph in HP. apply HP.
Qed.

(** C19. A departure ends.  Of all that can happen, at most two lookups and [HANDOFF_TRIES] more per
    topic, and [HANDOFF_TRIES] waits, are the hand-off's own steps; as long as it is not over, one of
    them can be taken, and every wait has a deadline at most [HANDOFF_ACK_MAX_MS] after its beginning
    that nothing moves. *)
Theorem departure_ends self hasLookup hasFind now_ nb P G l : jwf (axonRoles G) →
  let N := lrun self hasLookup (begin_leave self hasFind now_ nb P G) l in
  let n := length (collect self now_ nb P G) in
  (advances_of self hasLookup (begin_leave self hasFind now_ nb P G) l ≤ 2 * n + HANDOFF_TRIES * S n)%nat ∧
  (ln_phase N ≠ Gone → ∃ x, advances N x = true) ∧
  (∀ x r d c p, ln_phase (lstep self hasLookup N x) = Waiting r d c p →
     d ≤ now x.1 + HANDOFF_ACK_MAX_MS ∨ ∃ c' p', ln_phase N = Waiting r d c' p').
Proof.
  intros Hw N n. pose proof (begin_ok self hasFind now_ nb P G Hw) as Hb. split_and!.
  - pose proof (remaining_run self hasLookup l _ Hb) as H1. pose proof (remaining_begin self hasFind now_ nb P G) as H2. cbv zeta in H2. fold n in H2. lia.
  - apply (can_advance self). by apply leave_run.
  - intros x r d c p. apply deadline_step.
Qed.

(** * Runs *)

Definition body (m : string) (ts : Z) : entry := mk_entry m ts "{}" None 1.
Definition demo_role (t : Z) (root : bool) (es : list entry) : role := with_cache es (makeRole t root 0).
Definition two_roles (r1 r2 : role) : mgr := put_axonRoles [(4, 0%nat); (5, 1%nat)] (put_heap [r1; r2] (new_mgr (default_cfg 1))).
Definition demo_mgr : mgr := two_roles (demo_role 4 false [body "b" 2]) (demo_role 5 true [body "m" 3]).
Definition at_time (n : Z) (o : lop) : env * lop := (mk_env n 0 (Some []) None true false, o).
Definition begun (G : mgr) : lnode := begin_leave 1 true 0 (Some []) (λ _, Replicate.new_repl) G.
Definition yes : option Ingress.dresult := Some (Ingress.DVerdict true JUndef).
Definition pushes (N : lnode) : list (option nat * verb * Z * Z * list string) :=
  omap (λ e, match e with Push r v t b ids => Some (r, v, t, b, ids) | _ => None end) (ln_log N).

Lemma departure_accounts_witness :
  let N := lrun 1 false (begun demo_mgr) [at_time 10 (Answer 0 (Some [JBig 7])); at_time 11 (Answer 0 (Some [JBig 7]));
    at_time 40 (Ack true (Some (idHex 5)) (Some 1) (Some 1)); at_time 50 (Dispatched (Some true) 0 [yes]); at_time 60 Wake] in
  ln_phase N = Gone ∧ jb_t <$> ln_jobs N = [5; 4] ∧
  ∃ j, j ∈ ln_jobs N ∧ jb_t j = 4 ∧ jb_ref j = 0%nat ∧
    (jb_key j ∈ ln_acked N ∨ (∃ v b ids, Push None v 4 b ids ∈ ln_log N) ∨ (NoTarget 4 ∈ ln_log N ∧ ∀ ids, Heard 4 ids ∈ ln_log N → others_of 1 ids = [])).
Proof.
  cbv zeta. split_and!; [vm_compute; reflexivity..|].
  eapply (departure_accounts 1 false true 0 (Some []) (λ _, Replicate.new_repl) demo_mgr).
  - apply NoDup_cons; split; [|apply NoDup_cons; split; [by apply not_elem_of_nil|apply NoDup_nil_2]]. simpl. by intros [?|?%not_elem_of_nil]%elem_of_cons.
  - reflexivity.
  - vm_compute. reflexivity.
  - vm_compute. reflexivity.
  - done.
  - right. vm_compute. reflexivity.
Defined.

Lemma departure_ends_witness : let N := lrun 1 false (begun demo_mgr) [at_time 10 (Answer 0 (Some [JBig 7]))] in
  ln_phase N ≠ Gone ∧ ∃ x, advances N x = true.
Proof.
  cbv zeta. split; [vm_compute; done|].
  eapply (departure_ends 1 false true 0 (Some []) (λ _, Replicate.new_repl) demo_mgr [at_time 10 (Answer 0 (Some [JBig 7]))]).
  - apply NoDup_cons; split; [|apply NoDup_cons; split; [by apply not_elem_of_nil|apply NoDup_nil_2]]. simpl. by intros [?|?%not_elem_of_nil]%elem_of_cons.
  - vm_compute. done.
Defined.

(** A root whose lookups were all rejected is not pushed to anybody: there is no spray, and no retry. *)
Example rejected_lookup_is_final :
  let N := lrun 1 true (begun (two_roles (demo_role 4 true []) (demo_role 5 true [body "m" 3])))
    [at_time 10 (Answer 0 None); at_time 11 (Answer 0 None)] in
  ln_phase N = Gone ∧ pushes N = [] ∧ NoTarget 5 ∈ ln_log N.
Proof. cbv zeta. split_and!; [vm_compute; done..|]. vm_compute. right. right. left. Qed.

(** A write that is stamped after the push is not in it, and the acknowledgement of the push covers it. *)
Example acknowledged_without_the_last_write :
  let G := λ es, two_roles (demo_role 4 true []) (demo_role 5 true es) in
  let N := lrun 1 true (begun (G [body "m" 3])) [at_time 10 (Answer 0 (Some [JBig 7])); at_time 20 (World (G [body "m" 3; body "n" 4]));
    at_time 40 (Ack true (Some (idHex 5)) (Some 1) (Some 1)); at_time 60 Wake] in
  ln_phase N = Gone ∧ pushes N = [(Some 0%nat, Handoff, 5, 7, ["m"])].
Proof. vm_compute. done. Qed.

(** A root that holds deletions and no messages hands nothing over. *)
Example deletions_are_not_handed_over :
  let r := with_tombstones [("m", mk_tomb 1000 3 None None None None [])] (demo_role 5 true []) in
  let N := begun (two_roles (demo_role 4 true []) r) in
  ln_phase N = Gone ∧ ln_log N = [].
Proof. vm_compute. done. Qed.

(** A holder that leaves replicates to the last target: [REPLICATE] from a node that is going. *)
Example holder_replicates_at_the_end :
  let N := lrun 1 false (begun (two_roles (demo_role 4 false [body "b" 2]) (demo_role 5 true [])))
    [at_time 10 (Answer 0 (Some [JBig 7; JBig 6])); at_time 800 Wake; at_time 800 (Reanswer None); at_time 1600 Wake] in
  ln_phase N = Gone ∧
  pushes N = [(Some 0%nat, Replicated, 4, 7, ["b"]); (Some 0%nat, Replicated, 4, 6, ["b"]);
              (Some 1%nat, Replicated, 4, 7, ["b"]); (Some 1%nat, Replicated, 4, 6, ["b"]); (None, Replicated, 4, 6, ["b"])].
Proof. vm_compute. done. Qed.
