(* ===== verification/Sync.v ===== *)
(** Sync.v - the transfer of a topic's state between two nodes (src/src/pubsub/syncEngine.js):
    what a push or a replay carries ([_syncSnapshot], [_syncDelta], [_syncPush],
    [_syncAnswerPull]), when a pull is sent ([_syncPull]), and what a receiver does with it
    ([_syncIngest]: the hand-over to an heir, the replica, the replay).

    [JSON.parse], the hash, the signature primitive and the region table are parameters; [others]
    is what runs at the awaits of the ingestion.  The replica is modelled with the topic lifetime
    armed: its grant rule is [Lifetime.onReplicate]. *)
From stdpp Require Import base gmap sets list strings.
From Stdlib Require Import ZArith Lia.
From S2P Require Import Prelude HexId Role TopicStore RootClaim.
From S2P Require Import Canonical SignedRecords Transcripts TopicId Stamped.
From S2P Require SubTree Lifetime Ingress Deliver.
#[local] Open Scope Z_scope.
#[local] Open Scope js_scope.
#[local] Set Default Proof Using "Type".

(** * What travels *)

Definition METRICS_LEASE_MS : Z := 70000.
(** The seats a push carries at most. *)
Definition PUSH_SUBS_MAX : nat := 256.

Definition wire_of (e : entry) : json :=
  JObject [("json", JText (e_json e)); ("publishTs", JNumber (publishTs e)); ("msgId", JText (e_msgId e));
           ("seq", match e_seq e with Some z => JNumber z | None => JUndefined end)].

(** A push or a replay as it arrives: [msgs] where it is an array, the seats (an id where it is a
    text), the leases where they are finite, the sender's generation as [_genNorm] reads it. *)
Record payload := mk_payload {
  pa_from : option string; pa_msgs : option (list json); pa_dels : list delmark;
  pa_subs : option (list (option string * option Z * bool)); pa_metrics : option Z; pa_standing : option Z;
  pa_gen : option gentag; pa_issuedAt : option Z
}.

Definition syncSnapshot (cf : mcfg) (now : Z) (r : role) : list json * list delmark :=
  (wire_of <$> cache r, activeDels cf now r).
Definition syncDelta (cf : mcfg) (now : Z) (r : role) (sinceHw : Z) : list json * list delmark :=
  (wire_of <$> filter (λ e, sinceHw < publishTs e) (cache r), activeDels cf now r).

Definition lease_left (now until : Z) : Z := if now <? until then until - now else 0.
(** [_syncPush]: the frame; where it goes and under which verb is the caller's. *)
Definition syncPush (cf : mcfg) (standingLease armed : bool) (now : Z) (r : role) (full : bool) : payload :=
  let '(msgs, dels) := if full then syncSnapshot cf now r else ([], []) in
  let leases := full && replicateSubs cf && isRoot r in
  mk_payload (Some (idHex (nodeId cf))) (Some msgs) dels
    (if leases && negb (jsize (subscribers r) =? 0)
     then Some ((λ p, (Some p.1, Some (s_since p.2), bool_decide (p.1 ∈ children r))) <$> take PUSH_SUBS_MAX (subscribers r)) else None)
    (if leases then Some (lease_left now (metricsOn r)) else None)
    (if leases && standingLease then Some (lease_left now (standingUntil r)) else None)
    (if armed then if isRoot r then Some (lc (idHex (nodeId cf)), to_int32 (epoch r)) else standbyGen r else None)
    (if armed then Some now else None).

(** [_syncAnswerPull]: the replay and the node it goes to. *)
Definition syncAnswerPull (now : Z) (G : mgr) (t : Z) (parentId : string) (sinceHw : option Z) : option (Z * list json * list delmark) :=
  match live G t with
  | None => None
  | Some (_, r) =>
      if Nat.eqb (length (cache r)) 0 && Nat.eqb (length (activeDels (mcf G) now r)) 0 then None
      else
        let '(msgs, dels) := syncDelta (mcf G) now r (default 0 sinceHw) in
        if (Nat.eqb (length msgs) 0 && Nat.eqb (length dels) 0) || negb (ids_isHexId (lc parentId)) then None
        else (λ b, (b, msgs, dels)) <$> idBigS parentId
  end.

(** [_syncPull] under SPLIT_UNION: the record of low waters by child, and whether a pull goes out. *)
Definition syncPull (pulledLw : jmap string Z) (target lw : Z) : jmap string Z * bool :=
  let peerHex := lc (idHex target) in
  match jget pulledLw peerHex with
  | Some prev => if lw <? prev then (jset pulledLw peerHex lw, true) else (pulledLw, false)
  | None => (jset pulledLw peerHex lw, true)
  end.

(** * Taking in *)

(** [admitPushedRole] *)
Definition admitPushedRole (E : env) (G : mgr) : mgr * bool :=
  if neverRoot (mcf G) then (put_adm (bump "bridge" (adm G)) G, false)
  else if saturated E then (put_adm (bump "saturated" (adm G)) G, false)
  else (G, true).

(** What the receiver of a hand-over did: the refusals that stay silent, and the counts of a transfer
    that ran, with the acknowledgement where the leaver named itself. *)
Inductive heir :=
| HGated | HRefused | HUnborn | HCut (t : tally)
| HTaken (t : tally) (ack : option (Z * Z * Z)).

Section ingest.
Context (JSON_parse : string → option json) (sha256 : bytes → bytes)
  (ed_verify : bytes → bytes → bytes → js_result bool) (resolveRegion : json → option Z) (ks : keyspace).
Context (others : nat → mgr → mgr) (clock : nat → Z) (verified : Z → delmark → bool).

(** Deletions, then the batch: the tally, or nothing where the deletions met the cut. *)
Definition take_in (k : nat) (G : mgr) (ref : nat) (t : Z) (p : payload) (c : option cut) (g : option gentag)
    : mgr * js_result (option tally) :=
  let '(G, delsOk) := applyDels others clock verified k G ref t (pa_dels p) c g in
  if delsOk then
    match ingestStampedBatch JSON_parse sha256 ed_verify resolveRegion ks others clock (k + length (pa_dels p))%nat G ref (default [] (pa_msgs p)) c with
    | (G, Ok ta) => (G, Ok (Some ta))
    | (G, Throw x) => (G, Throw x)
    end
  else (G, Ok None).

Definition counts (p : payload) (o : option tally) : tally :=
  match o with
  | Some ta => ta
  | None => let n := Z.of_nat (length (default [] (pa_msgs p))) in mk_tally 0 0 n true
  end.

(** HANDOFF; [E'] is what [handoffArrived] reads after the awaits. *)
Definition handoff_role (E : env) (G : mgr) (t : Z) : mgr * (heir + nat) :=
  match live G t with
  | Some (ref, r) => match gate_of r with Some _ => (G, inl HGated) | None => (G, inr ref) end
  | None =>
      let '(G, ok) := admitPushedRole E G in
      if negb ok then (G, inl HRefused)
      else match Ingress.becomeRoot E G t with
           | (G, Some ref) => (G, inr ref)
           | (G, None) => (G, inl HUnborn)
           end
  end.
Definition ingestHandoff (k : nat) (E E' : env) (corr : string) (G : mgr) (t : Z) (p : payload) : mgr * js_result heir :=
  match handoff_role E G t with
  | (G, inl h) => (G, Ok h)
  | (G, inr ref) =>
      match take_in k G ref t p (cutCapture G ref) None with
      | (G, Throw x) => (G, Throw x)
      | (G, Ok o) =>
          let ta := counts p o in
          if ta_refused ta then (G, Ok (HCut ta))
          else
            let leaver := lc <$> pa_from p in
            let G := handoffArrived E' corr G t (default "" leaver) in
            let sent := Z.of_nat (length (default [] (pa_msgs p))) in
            (G, Ok (HTaken ta (l ← leaver; if ids_isHexId l then (λ b, (b, ta_held ta, sent)) <$> idBigS l else None)))
      end
  end.

(** What a replica keeps of its principal for its own promotion. *)
Definition seed_subs (self : string) (l : list (option string * option Z * bool)) : jmap string isub :=
  foldl (λ m x, match x with
                | (Some id, since, child) =>
                    if ids_isHexId (lc id) && negb (bool_decide (lc id = self)) then jset m (lc id) (mk_isub (default 0 since) child) else m
                | _ => m
                end) [] l.
Definition clamp_lease (now max v : Z) : Z := let v := Z.min (Z.max 0 v) max in if 0 <? v then now + v else 0.
Definition stash (cf : mcfg) (standingLease : bool) (now : Z) (p : payload) (r : role) : role :=
  let r := match pa_subs p with
           | Some l => if replicateSubs cf then
                         let m := seed_subs (lc (idHex (nodeId cf))) l in with_inheritedSubs (if jsize m =? 0 then None else Some m) r
                       else r
           | None => r
           end in
  let r := match pa_standing p with
           | Some v => if standingLease then with_inheritedStandingUntil (clamp_lease now Deliver.STANDING_LEASE_MAX_MS v) r else r
           | None => r
           end in
  match pa_metrics p with
  | Some v => if replicateSubs cf then with_inheritedMetricsOn (clamp_lease now METRICS_LEASE_MS v) r else r
  | None => r
  end.

(** The state of an appointment, and what is stashed with it. *)
Definition ingestAppointed (k : nat) (E' : Lifetime.lenv) (L : Lifetime.life) (t : Z) (ref : nat) (p : payload)
    : Lifetime.life * js_result unit :=
  let G := Lifetime.l_mgr L in
  let g := match pa_gen p with Some g => Some g | None => role_at G ref ≫= standbyGen end in
  match take_in k G ref t p (cutCapture G ref) g with
  | (G, Throw x) => (Lifetime.lput_mgr G L, Throw x)
  | (G, Ok _) =>
      (Lifetime.lput_mgr (upd G ref (stash (mcf G) (Lifetime.e_standingLease E') (Lifetime.e_wall E') p)) L, Ok tt)
  end.

(** REPLICATE, from the sender [from]: union at a root, else an appointment and its state. *)
Definition ingestReplicate (k : nat) (E E' : Lifetime.lenv) (L : Lifetime.life) (t : Z) (from : string) (p : payload)
    : Lifetime.life * js_result unit :=
  match live (Lifetime.l_mgr L) t with
  | Some (ref, r) =>
      if isRoot r then
        match take_in k (Lifetime.l_mgr L) ref t p (cutCapture (Lifetime.l_mgr L) ref) None with
        | (G, Ok _) => (Lifetime.lput_mgr G L, Ok tt)
        | (G, Throw x) => (Lifetime.lput_mgr G L, Throw x)
        end
      else
        let '(L, v) := Lifetime.onReplicate E L t (Lifetime.mk_grant from (pa_gen p) (pa_issuedAt p)) in
        match v with
        | Lifetime.VGrant => ingestAppointed k E' L t ref p
        | _ => (L, Ok tt)
        end
  | None =>
      let '(L', v) := Lifetime.onReplicate E L t (Lifetime.mk_grant from (pa_gen p) (pa_issuedAt p)) in
      match v with
      | Lifetime.VGrant => ingestAppointed k E' L' t (length (heap (Lifetime.l_mgr L))) p
      | _ => (L', Ok tt)
      end
  end.

(** REPLAY_UP: only where the role lives. *)
Definition ingestReplay (k : nat) (G : mgr) (t : Z) (p : payload) : mgr * js_result unit :=
  match live G t with
  | Some (ref, _) =>
      match take_in k G ref t p (cutCapture G ref) None with
      | (G, Ok _) => (G, Ok tt)
      | (G, Throw x) => (G, Throw x)
      end
  | None => (G, Ok tt)
  end.
End ingest.

(** * The store across a change of root *)

Definition store_same (r r' : role) : Prop := cache r' = cache r ∧ cacheIds r' = cacheIds r ∧ tombstones r' = tombstones r.
Definition stores_kept (ref : nat) (G G' : mgr) : Prop :=
  ∀ r, role_at G ref = Some r → ∃ r', role_at G' ref = Some r' ∧ store_same r r'.
#[export] Instance store_same_preorder : PreOrder store_same.
Proof. split; [intros r; by repeat split|]. intros r1 r2 r3 (?&?&?) (?&?&?). repeat split; congruence. Qed.
#[export] Instance stores_kept_preorder ref : PreOrder (stores_kept ref).
Proof.
  split; [intros G r Hr; by exists r|]. intros G1 G2 G3 A B r Hr. destruct (A r Hr) as (r2 & H2 & S2). destruct (B r2 H2) as (r3 & H3 & S3).
  exists r3. split; [done|]. by etrans.
Qed.
Lemma stores_upd ref ref' G f : (∀ r, store_same r (f r)) → stores_kept ref G (upd G ref' f).
Proof.
  intros Hf r Hr. rewrite role_at_upd. destruct (decide (ref' = ref)); [|by exists r]. rewrite Hr. simpl. eauto.
Qed.
Lemma stores_heap ref G G' : heap G' = heap G → stores_kept ref G G'.
Proof. intros E r Hr. exists r. unfold role_at in *. by rewrite E. Qed.
Lemma store_same_map_merge f r : store_same r (map_merge f r).
Proof. by repeat split. Qed.
Lemma store_same_upd_merge f r : store_same r (upd_merge f r).
Proof. by repeat split. Qed.
Lemma store_same_closeCorr corr r : store_same r (closeCorr corr r).
Proof. unfold closeCorr. cbv zeta. etrans; [|apply store_same_map_merge]. done. Qed.
Lemma store_same_supersede c ms : ∀ r, store_same r (supersede c ms r).1.
Proof.
  induction ms as [|[corr m] ms IH]; intros r; [done|]. cbn [supersede]. destruct (decide _); [|by apply IH]. destruct (_ <=? _); [done|].
  etrans; [apply (store_same_closeCorr corr)|apply IH].
Qed.

Lemma stores_step_down ref E G ref' why tok : stores_kept ref G (set_ E G ref' false why tok).1.
Proof.
  unfold set_. destruct (role_at G ref') as [r|]; [|done]. destruct (Bool.eqb _ _); [done|]. cbn [negb andb].
  destruct (_ && negb _); [apply stores_upd; intros ?; apply store_same_upd_merge|]. cbv zeta. cbn [fst].
  etrans; [|by apply stores_upd]. destruct (_ && _); [|done]. apply stores_upd. intros ?. apply store_same_map_merge.
Qed.
Lemma stores_demote ref E G t h why tok b : stores_kept ref G (demote E G t h why tok b).1.
Proof.
  unfold demote. destruct (live G t) as [[ref' r]|]; [|done]. destruct (negb _); [done|]. destruct (idBigS h); [|done]. destruct (_ =? _); [done|].
  pose proof (stores_step_down ref E G ref' why tok) as H. destruct (set_ _ _ _ _ _ _) as [G1 committed]. cbn [fst] in H.
  destruct (negb committed); [exact H|]. cbv zeta. etrans; [exact H|]. apply stores_heap. by destruct (_ || _).
Qed.
Lemma stores_offer ref E corr G t : stores_kept ref G (mergeOffer E corr G t).
Proof.
  unfold mergeOffer. destruct (live G t) as [[ref' r]|] eqn:El; [|done]. apply live_Some in El as [_ Hr].
  destruct (merge r ≫= candidate_) as [c|]; [|done]. destruct (_ || _); [done|].
  pose proof (store_same_supersede c (openMerges r) r) as Hs. destruct (supersede c (openMerges r) r) as [r' standing]. cbn [fst] in Hs. cbv zeta.
  assert (stores_kept ref G (upd G ref' (λ _, r'))) as H1.
  { intros r0 Hr0. rewrite role_at_upd. destruct (decide (ref' = ref)) as [->|]; [|by exists r0]. rewrite Hr0. rewrite Hr in Hr0. injection Hr0 as <-. by exists r'. }
  destruct standing; [exact H1|]. etrans; [exact H1|].
  match goal with |- stores_kept _ ?X (emit ?Y _) => transitivity Y; [|by apply stores_heap] end. by apply stores_upd.
Qed.
Lemma stores_closer ref E G t b : stores_kept ref G (liveCloserRoot E G t b).1.
Proof.
  apply stores_heap. unfold liveCloserRoot, rootTombstoned. repeat case_match; simplify_eq; done.
Qed.
Lemma stores_handoff ref E corr G t l : stores_kept ref G (handoffArrived E corr G t l).
Proof.
  unfold handoffArrived. set (G1 := match jget (rootBeacons G) t with Some _ => _ | None => _ end).
  assert (stores_kept ref G G1) as H1 by (apply stores_heap; subst G1; destruct (jget _ t); [destruct (decide _)|]; done).
  pose proof (stores_closer ref E G1 t true) as H2. destruct (liveCloserRoot E G1 t true) as [G2 [c|]]; cbn [fst] in *; [|by etrans].
  etrans; [exact H1|]. etrans; [exact H2|]. destruct (decide _); [|done]. unfold mergeCandidate. destruct (live G2 t) as [[ref' r]|]; [|apply stores_demote].
  destruct (_ && hasCustody _ _ _); [|apply stores_demote]. destruct (decide _); [done|].
  destruct (idBigS _); [|done]. destruct (negb _); [done|].
  destruct (match merge r ≫= candidate_ with Some _ => _ | None => _ end); cbn [fst].
  - apply stores_upd. intros ?. apply store_same_upd_merge.
  - etrans; [|apply stores_offer]. apply stores_upd. intros ?. apply store_same_upd_merge.
Qed.

(** * A batch that is taken *)

Definition known (r : role) (id : string) : bool := bool_decide (id ∈ cacheIds r) || jhas (tombstones r) id.
Definition weight (m : json) : Z := match shape m with Some s => strlen (st_json s) + 80 | None => 0 end.
Fixpoint weights (msgs : list json) : Z := match msgs with [] => 0 | m :: msgs => weight m + weights msgs end.
(** The messages fit beside what is held. *)
Definition roomy (cf : mcfg) (r : role) (msgs : list json) : Prop :=
  Z.of_nat (length (cache r)) + Z.of_nat (length msgs) ≤ cacheMax cf ∧ cacheBytes r + weights msgs ≤ cacheBytesMax cf.

Lemma weight_nonneg m : 0 ≤ weight m.
Proof. unfold weight. destruct (shape m) as [s|]; [|done]. pose proof (strlen_nonneg (st_json s)). lia. Qed.

Lemma weights_nonneg msgs : 0 ≤ weights msgs.
Proof. induction msgs as [|m l IH]; cbn [weights]; [done|]. pose proof (weight_nonneg m). lia. Qed.

(** A push that fits evicts nothing. *)
Lemma push_role_fits cf e r : latestOnly r ≠ Some true → store_ok r → Z.of_nat (length (cache r)) + 1 ≤ cacheMax cf →
  cacheBytes r + (strlen (e_json e) + 80) ≤ cacheBytesMax cf → push_role cf e r = (push e r, []).
Proof.
  intros Hl Hok H1 H2. unfold push_role. cbv zeta. assert (over cf (push e r) = false) as Ho.
  { unfold over. cbn. rewrite length_app. cbn [length]. apply orb_false_iff. split; apply Z.ltb_ge; lia. }
  cbn [evict_loop]. rewrite Ho. unfold is_latestOnly. change (latestOnly (push e r)) with (latestOnly r). by rewrite bool_decide_eq_false_2 by done.
Qed.

Lemma known_push e r id : known r id = true → known (push e r) id = true.
Proof.
  unfold known. rewrite !orb_true_iff, !bool_decide_eq_true. cbn. intros [?|?]; [left; set_solver|by right].
Qed.

Lemma known_pushed e r : known (push e r) (e_msgId e) = true.
Proof. unfold known. cbn. by rewrite bool_decide_eq_true_2 by set_solver. Qed.

Section taking.
Context (JSON_parse : string → option json) (sha256 : bytes → bytes)
  (ed_verify : bytes → bytes → bytes → js_result bool) (resolveRegion : json → option Z) (ks : keyspace).
Context (others : nat → mgr → mgr) (clock : nat → Z) (verified : Z → delmark → bool).
Context (Hothers : ∀ k G, others k G = G).

(** No message of the batch is of a metrics topic, which keeps its newest body only. *)
Definition plain (msgs : list json) : Prop := ∀ m s env, m ∈ msgs → shape m = Some s → JSON_parse (st_json s) = Some env →
  isMetricTopicName (as_text (field (field env "topic") "name")) = false.

(** The role at [ref] can still take [msgs], and the messages [ids] are held or deleted there. *)
Definition taking (ref : nat) (t : Z) (msgs : list json) (ids : list string) (G : mgr) : Prop := ∃ r,
  role_at G ref = Some r ∧ topicId r = t ∧ store_ok r ∧ latestOnly r ≠ Some true ∧ roomy (mcf G) r msgs ∧ ∀ id, id ∈ ids → known r id = true.

Lemma taking_frame ref t msgs ids G G' : heap G' = heap G → mcf G' = mcf G → taking ref t msgs ids G → taking ref t msgs ids G'.
Proof. intros E1 E2 (r & Hr & ?). exists r. unfold role_at in *. by rewrite E1, E2. Qed.
Lemma taking_upd ref t msgs ids G f : (∀ r, store_ok r → store_ok (f r) ∧ topicId (f r) = topicId r ∧ store_same r (f r) ∧ cacheBytes (f r) = cacheBytes r ∧
    (latestOnly r ≠ Some true → latestOnly (f r) ≠ Some true)) →
  taking ref t msgs ids G → taking ref t msgs ids (upd G ref f).
Proof.
  intros Hf (r & Hr & Ht & Hok & Hl & [R1 R2] & Hk). destruct (Hf r Hok) as (F1 & F2 & (F3 & F4 & F5) & F6 & F7). exists (f r). rewrite role_at_upd_eq, Hr.
  split_and!; [done|congruence|done|by apply F7| |].
  - change (mcf (upd G ref f)) with (mcf G). split; [by rewrite F3|by rewrite F6].
  - intros id Hid. specialize (Hk id Hid). unfold known in *. by rewrite F4, F5.
Qed.
Lemma taking_drop ref t m msgs ids G : taking ref t (m :: msgs) ids G → taking ref t msgs ids G.
Proof.
  intros (r & Hr & Ht & Hok & Hl & [R1 R2] & Hk). exists r. split_and!; try done. pose proof (weight_nonneg m). cbn [weights length] in *. split; lia.
Qed.

(** The cut at a role depends on its generation, its gate and its place alone. *)
Definition cut_same (r r' : role) : Prop :=
  merge r' = merge r ∧ gen r' = gen r ∧ dismantling r' = dismantling r ∧ retired r' = retired r ∧ topicId r' = topicId r.
Definition cuts_kept (ref : nat) (G G' : mgr) : Prop :=
  axonRoles G' = axonRoles G ∧ ∀ r, role_at G ref = Some r → ∃ r', role_at G' ref = Some r' ∧ cut_same r r'.
#[local] Instance cuts_kept_preorder ref : PreOrder (cuts_kept ref).
Proof.
  split; [intros G; split; [done|]; intros r Hr; exists r; split; [done|by repeat split]|].
  intros G1 G2 G3 [A1 A2] [B1 B2]. split; [congruence|]. intros r Hr. destruct (A2 r Hr) as (r2 & H2 & S2). destruct (B2 r2 H2) as (r3 & H3 & S3).
  exists r3. split; [done|]. destruct S2 as (?&?&?&?&?), S3 as (?&?&?&?&?). repeat split; congruence.
Qed.
Lemma cuts_upd ref G f : (∀ r, cut_same r (f r)) → cuts_kept ref G (upd G ref f).
Proof. intros Hf. split; [done|]. intros r Hr. rewrite role_at_upd_eq, Hr. simpl. eauto. Qed.
Lemma cuts_heap ref G G' : heap G' = heap G → axonRoles G' = axonRoles G → cuts_kept ref G G'.
Proof. intros E1 E2. split; [done|]. intros r Hr. exists r. unfold role_at in *. rewrite E1. split; [done|by repeat split]. Qed.
Lemma cuts_hold ref G G' c r : role_at G ref = Some r → cuts_kept ref G G' → cutHolds G' ref c = cutHolds G ref c.
Proof. intros Hr [Ha H]. destruct (H r Hr) as (r' & Hr' & ?&?&?&?&?). by eapply cutHolds_ext. Qed.

Lemma deliver_cut G t id ts sq : heap (deliverToApp G t id ts sq) = heap G ∧ axonRoles (deliverToApp G t id ts sq) = axonRoles G ∧ mcf (deliverToApp G t id ts sq) = mcf G.
Proof. unfold deliverToApp, raise_seen. repeat case_match; done. Qed.

(** What the tombstones make of a role for one message. *)
Lemma tombstoned_known r id json : store_ok r →
  let '(r1, dead) := tombstoned (signerOf JSON_parse) r id json in
  store_ok r1 ∧ cut_same r r1 ∧ cache r1 = cache r ∧ cacheIds r1 = cacheIds r ∧ cacheBytes r1 = cacheBytes r ∧ latestOnly r1 = latestOnly r ∧
  (∀ id', id' ≠ id → known r1 id' = known r id') ∧
  match dead with
  | Ok true => r1 = r ∧ known r id = true
  | Ok false => jget (tombstones r1) id = None
  | Throw x => signerOf JSON_parse json = Throw x
  end.
Proof using Type.
  intros Hok. unfold tombstoned. destruct (jget (tombstones r) id) as [tb|] eqn:Eg; [|split_and!; [done|by repeat split|done..]].
  assert (known r id = true) as Hkn by (unfold known, jhas; rewrite Eg; apply orb_true_r).
  set (r2 := with_tombstones (jdel (tombstones r) id) r).
  assert (store_ok r2 ∧ cut_same r r2 ∧ cache r2 = cache r ∧ cacheIds r2 = cacheIds r ∧ cacheBytes r2 = cacheBytes r ∧ latestOnly r2 = latestOnly r ∧
    (∀ id', id' ≠ id → known r2 id' = known r id') ∧ jget (tombstones r2) id = None) as H2.
  { split_and!; [|by repeat split|done|done|done|done| |].
    - destruct Hok as [H1 H2 H3 H4 H5 H6]. split; cbn; try done; [|by apply jwf_jdel].
      intros i. rewrite jhas_true, jget_jdel. intros [v Hv]. apply H5, jhas_true. destruct (decide _); [done|by exists v].
    - intros id' Hne. unfold known, jhas. cbn. by rewrite jget_jdel_ne by done.
    - cbn. apply jget_jdel_eq. }
  destruct (t_signer tb) as [s|]; [|split_and!; [done|by repeat split|done..]]. destruct (decide (s = "")); [split_and!; [done|by repeat split|done..]|].
  destruct (signerOf JSON_parse json) as [[a|]|x] eqn:Es; [|exact H2|split_and!; [done|by repeat split|done..]].
  destruct (decide _); [split_and!; [done|by repeat split|done..]|exact H2].
Qed.
Lemma taking_const ref t msgs ids G r r1 : role_at G ref = Some r → store_ok r1 → topicId r1 = t → latestOnly r1 ≠ Some true → roomy (mcf G) r1 msgs →
  (∀ id, id ∈ ids → known r1 id = true) → taking ref t msgs ids (upd G ref (λ _, r1)).
Proof using Type. intros Hr H1 H2 H3 H4 H5. exists r1. rewrite role_at_upd_eq, Hr. by split_and!. Qed.
Lemma cuts_const ref G r r1 : role_at G ref = Some r → cut_same r r1 → cuts_kept ref G (upd G ref (λ _, r1)).
Proof using Type. intros Hr Hs. split; [done|]. intros r0 Hr0. rewrite Hr in Hr0. injection Hr0 as <-. exists r1. by rewrite role_at_upd_eq, Hr. Qed.

(** A message that is written and reported is held from then on. *)
Lemma push_taken ref t m msgs ids c G r e : role_at G ref = Some r → topicId r = t → store_ok r → latestOnly r ≠ Some true →
  roomy (mcf G) r (m :: msgs) → weight m = strlen (e_json e) + 80 → (∀ id, id ∈ ids → id ≠ e_msgId e → known r id = true) →
  e_msgId e ∉ cacheIds r → jget (tombstones r) (e_msgId e) = None →
  let '(G', b) := cachePush G ref e c in
  b = cutHolds G ref c ∧ (b = true → taking ref t msgs (e_msgId e :: ids) G' ∧ cuts_kept ref G G') ∧ (b = false → G' = G).
Proof using Type.
  intros Hr Ht Hok Hl [R1 R2] Hw Hk Hi Hg. unfold cachePush. destruct (cutHolds G ref c); cbn [negb]; [|done]. rewrite Hr.
  assert (superseded e r = false) as -> by (unfold superseded, is_latestOnly; by rewrite bool_decide_eq_false_2).
  pose proof (weight_nonneg m). pose proof (weights_nonneg msgs).
  cbn [length weights] in R1, R2.
  rewrite (push_role_fits (mcf G) e r Hl Hok) by lia. assert (observe (upd G ref (λ _, push e r)) (topicId r) [] = upd G ref (λ _, push e r)) as ->
    by (unfold observe; by destruct (tombAuthority _)).
  split; [done|]. split; [intros _|done]. split; [|by apply (cuts_const ref G r)].
  apply (taking_const _ _ _ _ _ r); try done.
  - apply push_ok; [done|done|]. unfold jhas. by rewrite Hg.
  - split; cbn; [rewrite length_app; cbn [length]; lia|lia].
  - intros id [->|Hid]%elem_of_cons; [apply known_pushed|].
    destruct (decide (id = e_msgId e)) as [->|Hne]; [apply known_pushed|]. by apply known_push, Hk.
Qed.

(** One message behind its checks: held, it is known from then on; and where the cut holds and its
    stamp is no future, it is held. *)
Lemma adopt_taken k G ref t c json ts id sq m msgs ids : taking ref t (m :: msgs) ids G → weight m = strlen json + 80 →
  let '(G', o) := adopt JSON_parse others clock k G ref c json ts id sq in
  (o = Ok Held → taking ref t msgs (id :: ids) G' ∧ cuts_kept ref G G') ∧
  (cutHolds G ref c = true → ts ≤ clock k + FUTURE_TOLERANCE_MS → (∃ a, signerOf JSON_parse json = Ok a) → o = Ok Held).
Proof using Hothers.
  intros HT Hw. pose proof (taking_drop _ _ _ _ _ _ HT) as HD. pose proof HT as (r & Hr & Ht & Hok & Hl & HR & Hk). unfold adopt. rewrite Hr. cbv zeta.
  destruct (_ <? ts) eqn:Ef; zb; [split; [done|intros; lia]|].
  destruct (bool_decide (id ∈ cacheIds r)) eqn:Ei.
  { split; [|done]. intros _. split; [|done]. destruct HD as (r0 & Hr0 & A1 & A2 & A3 & A4 & A5). exists r0. split_and!; try done.
    intros id' [->|?]%elem_of_cons; [|by apply A5]. rewrite Hr in Hr0. injection Hr0 as <-. unfold known. by rewrite Ei. }
  apply bool_decide_eq_false in Ei. pose proof (tombstoned_known r id json Hok) as H1.
  destruct (tombstoned (signerOf JSON_parse) r id json) as [r1 [dead|x]].
  2: { split; [done|]. intros _ _ [a Ha]. destruct H1 as (_&_&_&_&_&_&_&H1). congruence. }
  destruct H1 as (Hok1 & Hc1 & E1 & E2 & E3 & E4 & Hkn & Hd).
  set (G1 := upd G ref (λ _, r1)). assert (role_at G1 ref = Some r1) as Hr1 by (unfold G1; by rewrite role_at_upd_eq, Hr).
  assert (cuts_kept ref G G1) as HC1 by (by apply (cuts_const ref G r)). assert (topicId r1 = t) as Ht1 by (destruct Hc1 as (_&_&_&_&->); done).
  assert (roomy (mcf G1) r1 (m :: msgs)) as HR1 by (unfold roomy; rewrite E1, E3; exact HR).
  destruct dead.
  { split; [intros _|done]. destruct Hd as [-> Hkd]. split; [|done]. apply (taking_const _ _ _ _ _ r); try done.
    - destruct HD as (r0 & Hr0 & _ & _ & _ & HR0 & _). rewrite Hr in Hr0. by injection Hr0 as <-.
    - intros id' [->|?]%elem_of_cons; [done|by apply Hk]. }
  pose proof (push_taken ref t m msgs ids c G1 r1 (mk_entry id ts json sq 0) Hr1 Ht1 Hok1 ltac:(by rewrite E4) HR1 Hw) as Hp. cbn [e_msgId] in Hp.
  specialize (Hp ltac:(intros id' Hid Hne; rewrite Hkn by done; by apply Hk) ltac:(by rewrite E2) Hd).
  destruct (cachePush G1 ref _ c) as [G2 b]. destruct Hp as (Hb & Hp & _). rewrite (cuts_hold _ _ _ _ _ Hr HC1) in Hb.
  destruct b; [|split; [done|congruence]]. destruct (Hp eq_refl) as [HT2 HC2]. split; [|done]. intros _.
  set (G3 := if _ && _ then _ else G2). assert (heap G3 = heap G2 ∧ axonRoles G3 = axonRoles G2 ∧ mcf G3 = mcf G2) as (F1 & F2 & F3)
    by (unfold G3; destruct (_ && _); [rewrite Hothers|]; done). clearbody G3.
  destruct (deliver_cut (emit (upd (emit G3 (ConfirmPending (topicId r) id)) ref (λ r, raise_seq sq (raise_lastTs ts r))) (FanoutBody ref id)) (topicId r) id ts sq) as (D1 & D2 & D3).
  assert (∀ r, cut_same r (raise_seq sq (raise_lastTs ts r)) ∧ store_same r (raise_seq sq (raise_lastTs ts r)) ∧
    cacheBytes (raise_seq sq (raise_lastTs ts r)) = cacheBytes r ∧ latestOnly (raise_seq sq (raise_lastTs ts r)) = latestOnly r ∧
    (store_ok r → store_ok (raise_seq sq (raise_lastTs ts r)))) as Hraise.
  { intros r0. unfold raise_lastTs. destruct (lastTs r0 <? ts); (split_and!; [unfold raise_seq; by repeat case_match..|]); intros Hr0; apply raise_seq_ok; [|done]. by destruct Hr0. }
  split.
  - eapply (taking_frame _ _ _ _ (upd G3 ref (λ r, raise_seq sq (raise_lastTs ts r)))); [by rewrite D1|by rewrite D3|].
    apply taking_upd; [|by eapply taking_frame]. intros r0 Hr0. destruct (Hraise r0) as ((_&_&_&_&A1) & A2 & A3 & A4 & A5). rewrite A4. split_and!; try done; [by apply A5|by apply A2..].
  - etrans; [exact HC1|]. etrans; [exact HC2|]. transitivity G3; [by apply cuts_heap|].
    transitivity (upd G3 ref (λ r, raise_seq sq (raise_lastTs ts r))); [apply cuts_upd; intros r0; apply Hraise|]. apply cuts_heap; [by rewrite D1|by rewrite D2].
Qed.
Local Abbreviation stamped_in := (ingestStamped JSON_parse sha256 ed_verify resolveRegion ks others clock).
Local Abbreviation batch_in := (batch_loop JSON_parse sha256 ed_verify resolveRegion ks others clock).

(** A message that verifies, written for this topic under its id, by a signer that has a text, and with
    a stamp that no clock reading here takes for the future. *)
Definition honest_msg (t : Z) (m : json) : Prop := ∃ s id env x, shape m = Some s ∧ st_msgId s = Some id ∧ JSON_parse (st_json s) = Some env ∧
  verifyEnvelope sha256 ed_verify ks env = Ok (EOk x) ∧ field env "msgId" = JText id ∧ bound_topic sha256 resolveRegion ks env = Ok t ∧
  (∃ a, truthy_text (field env "signerPubkey") = Ok a) ∧ ∀ k, st_publishTs s ≤ clock k + FUTURE_TOLERANCE_MS.

Lemma noteMetric_taken name r : store_ok r → latestOnly r ≠ Some true → isMetricTopicName name = false →
  let r' := noteMetricRole name r in store_ok r' ∧ topicId r' = topicId r ∧ store_same r r' ∧ cacheBytes r' = cacheBytes r ∧ latestOnly r' ≠ Some true ∧ cut_same r r'.
Proof using Type.
  intros Hok Hl Hm. unfold noteMetricRole. destruct (latestOnly r) as [b|] eqn:E; [by repeat split; try apply Hok; rewrite ?E|].
  rewrite Hm. split_and!; [by destruct Hok|done|by repeat split|done|done|by repeat split].
Qed.

Lemma stamped_taken k G ref t c m s msgs ids : taking ref t (m :: msgs) ids G → plain (m :: msgs) → shape m = Some s →
  let '(G', o) := stamped_in k G ref c s in
  (o = Ok Held → ∃ id, st_msgId s = Some id ∧ taking ref t msgs (id :: ids) G' ∧ cuts_kept ref G G') ∧
  (honest_msg t m → cutHolds G ref c = true → o = Ok Held).
Proof using Hothers.
  intros HT Hp Hs. unfold ingestStamped. destruct (JSON_parse (st_json s)) as [env|] eqn:Ej.
  2: { split; [done|]. intros (s' & id & env & x & Hs' & _ & Hj & _). rewrite Hs in Hs'. injection Hs' as <-. congruence. }
  cbv zeta. rewrite !Hothers. pose proof HT as (r & Hr & Ht & Hok & Hl & HR & Hk). rewrite Hr.
  assert (isMetricTopicName (as_text (field (field env "topic") "name")) = false) as Hm by (eapply Hp; [left|done|done]).
  set (G1 := upd G ref _). destruct (noteMetric_taken (as_text (field (field env "topic") "name")) r Hok Hl Hm) as (N1 & N2 & N3 & N4 & N5 & N6).
  set (r1 := noteMetricRole _ r) in *. assert (role_at G1 ref = Some r1) as Hr1 by (unfold G1; by rewrite role_at_upd_eq, Hr).
  assert (taking ref t (m :: msgs) ids G1) as HT1.
  { exists r1. destruct N3 as (F1 & F2 & F3). split_and!; [done|congruence|done|done| |].
    - unfold roomy in *. rewrite F1, N4. exact HR.
    - intros id Hid. specialize (Hk id Hid). unfold known in *. by rewrite F2, F3. }
  assert (cuts_kept ref G G1) as HC1.
  { split; [done|]. intros r0 Hr0. rewrite Hr in Hr0. injection Hr0 as <-. by exists r1. }
  assert (weight m = strlen (st_json s) + 80) as Hw by (unfold weight; by rewrite Hs).
  assert (honest_msg t m → ∃ id x, st_msgId s = Some id ∧ verifyEnvelope sha256 ed_verify ks env = Ok (EOk x) ∧ field env "msgId" = JText id ∧
    bound_topic sha256 resolveRegion ks env = Ok t ∧ (∃ a, signerOf JSON_parse (st_json s) = Ok a) ∧ ∀ k, st_publishTs s ≤ clock k + FUTURE_TOLERANCE_MS) as Hh.
  { intros (s' & id & env' & x & Hs' & Hid & Hj & Hv & Hf & Hb & Ha & Hts). rewrite Hs in Hs'. injection Hs' as <-. unfold Stamped.signerOf. rewrite Hj. rewrite Ej in Hj. injection Hj as <-. by exists id, x. }
  destruct (verifyEnvelope sha256 ed_verify ks env) as [[x|why]|ex] eqn:Ev; [|split; [done|intros (?&?&?&?&_)%Hh; done]..].
  destruct (st_msgId s) as [id|]; [|split; [done|intros (?&?&?&_)%Hh; done]].
  destruct (text_is (field env "msgId") id) eqn:Ei; cbn [negb].
  2: { split; [done|]. intros (id' & ? & [= <-] & _ & Hf & _)%Hh. unfold text_is in Ei. by rewrite Hf, bool_decide_eq_true_2 in Ei. }
  destruct (bound_topic sha256 resolveRegion ks env) as [stid|]; [|split; [done|intros (?&?&?&?&?&?&_)%Hh; done]].
  destruct (stid =? topicId r) eqn:Et; cbn [negb].
  2: { split; [done|]. intros (? & ? & _ & _ & _ & [= ->] & _)%Hh. rewrite Ht, Z.eqb_refl in Et. done. }
  pose proof (adopt_taken (S (S k)) G1 ref t c (st_json s) (st_publishTs s) id (st_seq s) m msgs ids HT1 Hw) as Ha. fold G1.
  destruct (adopt _ _ _ _ _ _ _ _ _ _ _) as [G2 o]. destruct Ha as [Ha1 Ha2]. split.
  - intros ->. destruct (Ha1 eq_refl) as [H1 H2]. exists id. split_and!; [done|done|by etrans].
  - intros (? & ? & _ & _ & _ & _ & Hsg & Hts)%Hh Hc. apply Ha2; [|apply Hts|done]. by rewrite (cuts_hold _ _ _ _ _ Hr HC1).
Qed.

Lemma batch_counts msgs : ∀ k G ref c t0 G' t', batch_in k G ref c msgs t0 = (G', Ok t') →
  ta_held t' + ta_rejected t' = ta_held t0 + ta_rejected t0 + Z.of_nat (length msgs) ∧ ta_rejected t0 ≤ ta_rejected t' ∧
  (ta_refused t0 = true → ta_refused t' = true).
Proof using Type.
  induction msgs as [|m msgs IH]; intros k G ref c t0 G' t'; cbn [batch_loop].
  { intros [= _ <-]. split_and!; [simpl; lia|lia|done]. }
  destruct (ta_refused t0) eqn:Er.
  - intros (H1 & H2 & H3)%IH. cbn in *. rewrite Er in H3. split_and!; [lia|lia|auto].
  - destruct (match shape m with Some s => _ | None => _ end) as [G1 [o|x]]; [|done]. cbv zeta. cbn [ta_n ta_held ta_rejected ta_refused].
    intros (H1 & H2 & H3)%IH. destruct o; cbn in *; split_and!; (done || lia).
Qed.

Lemma batch_taken msgs : ∀ k G ref t c t0 ids, taking ref t msgs ids G → plain msgs → ta_refused t0 = false →
  let '(G', res) := batch_in k G ref c msgs t0 in
  (∀ t', res = Ok t' → ta_rejected t' = ta_rejected t0 → ∃ ids', taking ref t [] ids' G' ∧ (∀ id, id ∈ ids → id ∈ ids') ∧
     ∀ m, m ∈ msgs → ∃ s id, shape m = Some s ∧ st_msgId s = Some id ∧ id ∈ ids') ∧
  ((∀ m, m ∈ msgs → honest_msg t m) → cutHolds G ref c = true → ∃ t', res = Ok t' ∧ ta_rejected t' = ta_rejected t0 ∧ ta_refused t' = false).
Proof using Hothers.
  induction msgs as [|m msgs IH]; intros k G ref t c t0 ids HT Hp Hr0; cbn [batch_loop].
  { split; [|intros _ _; by exists t0]. intros t' _ _. exists ids. split_and!; [done|done|by intros ? ?%not_elem_of_nil]. }
  rewrite Hr0. assert (plain msgs) as Hp' by (intros m' s env Hin; apply Hp; by right).
  destruct (shape m) as [s|] eqn:Es.
  2: { cbv zeta. set (t1 := mk_tally _ _ _ _). set (G2 := if _ =? 0 then _ else G). destruct (batch_in _ G2 ref c msgs t1) as [G' res] eqn:Eb. split.
    - intros t' -> Hrej. apply batch_counts in Eb as (_ & Hle & _). cbn in Hle. lia.
    - intros Hh _. destruct (Hh m ltac:(left)) as (s & ? & ? & ? & Hs & _). congruence. }
  pose proof (stamped_taken k G ref t c m s msgs ids HT Hp Es) as Hst. destruct (stamped_in k G ref c s) as [G1 o]. destruct Hst as [Hst1 Hst2].
  destruct o as [o|x]; [|split; [done|]; intros Hh Hc; specialize (Hst2 (Hh m ltac:(left)) Hc); done].
  cbv zeta. set (t1 := mk_tally _ _ _ _). set (G2 := if _ =? 0 then _ else G1). assert (G2 = G1) as EG by (unfold G2; destruct (_ =? 0); [apply Hothers|done]).
  clearbody G2. subst G2. destruct o.
  - destruct (Hst1 eq_refl) as (id & Hid & HT1 & HC1). pose proof (IH (k + 4)%nat G1 ref t c t1 (id :: ids) HT1 Hp' Hr0) as H.
    destruct (batch_in (k + 4) G1 ref c msgs t1) as [G' res]. destruct H as [H1 H2]. split.
    + intros t' Hres Hrej. destruct (H1 t' Hres Hrej) as (ids' & A1 & A2 & A3). exists ids'. split_and!; [done| |].
      * intros i Hi. apply A2. by right.
      * intros m' [->|Hm]%elem_of_cons; [exists s, id; split_and!; [done|done|apply A2; left]|by apply A3].
    + intros Hh Hc. destruct HT as (r & Hr & _). destruct (H2 ltac:(intros m' Hm; apply Hh; by right) ltac:(by rewrite (cuts_hold _ _ _ _ _ Hr HC1))) as (t' & E1 & E2 & E3).
      exists t'. split_and!; [done|exact E2|done].
  - destruct (batch_in (k + 4) G1 ref c msgs t1) as [G' res] eqn:Eb. split.
    + intros t' -> Hrej. apply batch_counts in Eb as (_ & Hle & _). cbn in Hle. lia.
    + intros Hh Hc. specialize (Hst2 (Hh m ltac:(left)) Hc). done.
  - destruct (batch_in (k + 4) G1 ref c msgs t1) as [G' res] eqn:Eb. split.
    + intros t' -> Hrej. apply batch_counts in Eb as (_ & Hle & _). cbn in Hle. lia.
    + intros Hh Hc. specialize (Hst2 (Hh m ltac:(left)) Hc). done.
Qed.
(** Deletions make room and mark their targets. *)
Lemma applyKill_latest G now ref r t m c g G' b : role_at G ref = Some r → applyKill G now (Some ref) t m c g = (G', b) → cutHolds G ref c = true →
  ∃ r', role_at G' ref = Some r' ∧ latestOnly r' = latestOnly r.
Proof using Type.
  intros Hr H Hc. destruct (applyKill_cases G now ref r t m c g Hr Hc) as (G1 & f & E & Eh & _ & _ & Ef). rewrite H in E. injection E as -> _.
  exists (f r). unfold role_at in *. rewrite Eh, list_lookup_alter_eq, Hr. split; [done|]. rewrite Ef. cbv zeta.
  assert (∀ r, latestOnly (raise_seq (km_seq m) r) = latestOnly r) as E1 by (intros r0; unfold raise_seq; by repeat case_match).
  destruct (jget _ _); [cbn; by rewrite E1|]. unfold drop_target. cbn. destruct (list_find _ _) as [[]|]; cbn; by rewrite E1.
Qed.
Lemma dels_taken ref t c g dels : ∀ k G r, role_at G ref = Some r → store_ok r →
  let '(G', ok) := applyDels others clock verified k G ref t dels c g in
  (cutHolds G ref c = true → ok = true) ∧
  (ok = true → ∃ r', role_at G' ref = Some r' ∧ store_ok r' ∧ latestOnly r' = latestOnly r ∧ mcf G' = mcf G ∧ cuts_kept ref G G' ∧
     (∀ x, x ∈ cache r' → x ∈ cache r) ∧ (∀ id, jhas (tombstones r) id = true → jhas (tombstones r') id = true) ∧
     ∀ d, d ∈ dels → dm_msgId d ≠ "" → jhas (tombstones r') (dm_msgId d) = true).
Proof using Hothers.
  induction dels as [|d dels IH]; intros k G r Hr Hok; cbn [applyDels].
  { split; [done|]. intros _. exists r. split_and!; try done. by intros ? ?%not_elem_of_nil. }
  destruct (decide (dm_msgId d = "")) as [He|He].
  { pose proof (IH (S k) G r Hr Hok) as H. destruct (applyDels _ _ _ _ _ _ _ _ _ _) as [G' ok]. destruct H as [H1 H2]. split; [done|]. intros Ho.
    destruct (H2 Ho) as (r' & A1 & A2 & A3 & A4 & A5 & A6 & A7 & A8). exists r'. split_and!; try done. intros d' [->|?]%elem_of_cons ?; [done|by apply A8]. }
  set (X := if _ && _ then _ else (G, d)). assert (∃ d', X = (G, d') ∧ dm_msgId d' = dm_msgId d) as (d' & -> & Ed).
  { unfold X. destruct (_ && _); [|by exists d]. rewrite Hothers. eexists. split; [done|]. by destruct (verified t d). }
destruct (cutHolds G ref c) eqn:Hc.
  2: { unfold applyKill. cbn [mbind option_bind]. rewrite Hr. cbn [fmap option_fmap option_map]. rewrite Hc. cbn [negb]. by split. }
  destruct (applyKill_killed G (clock k) ref r t (kill_of d') c g Hr Hok Hc) as (G1 & r1 & E & Hr1 & Hk & Ha & Em & _). rewrite E.
  destruct (applyKill_latest _ _ _ _ _ _ _ _ _ _ Hr E Hc) as (r1' & Hr1' & El). rewrite Hr1 in Hr1'. injection Hr1' as <-.
  destruct Hk as [F1 F2 (tb1 & Ht1 & _) F4 F5]. destruct F1 as (P1 & P2 & P3 & P4 & P5 & _).
  assert (cuts_kept ref G G1) as HC1.
  { split; [done|]. intros r0 Hr0. rewrite Hr in Hr0. injection Hr0 as <-. exists r1. split; [done|]. by repeat split. }
  assert (∀ id, jhas (tombstones r) id = true → jhas (tombstones r1) id = true) as Hmono.
  { intros id. rewrite !jhas_true. intros [v Hv]. destruct (decide (id = km_target (kill_of d'))) as [->|Hne]; [by exists tb1|]. exists v. by rewrite F4. }
  pose proof (IH (S k) G1 r1 Hr1 F2) as H. destruct (applyDels _ _ _ _ _ _ _ _ _ _) as [G' ok]. destruct H as [H1 H2]. split.
  - intros _. apply H1. by rewrite (cuts_hold _ _ _ _ _ Hr HC1).
  - intros Ho. destruct (H2 Ho) as (r' & A1 & A2 & A3 & A4 & A5 & A6 & A7 & A8). exists r'. split_and!; try done.
    + congruence.
    + congruence.
    + by etrans.
    + intros x Hx. by apply A6, F5 in Hx as [? _].
    + intros id Hid. by apply A7, Hmono.
    + intros d0 [->|?]%elem_of_cons ?; [|by apply A8]. apply A7, jhas_true. exists tb1. cbn in Ht1. by rewrite Ed in Ht1.
Qed.

Lemma bsum_perm l l' : l ≡ₚ l' → bsum l = bsum l'.
Proof using Type. unfold bsum. induction 1; cbn; lia. Qed.
Lemma subset_room cf r r' msgs : store_ok r → store_ok r' → (∀ x, x ∈ cache r' → x ∈ cache r) → roomy cf r msgs → roomy cf r' msgs.
Proof using Type.
  intros Hok Hok' Hs [R1 R2]. assert (cache r' ⊆+ cache r) as Hm.
  { apply NoDup_submseteq; [|exact Hs]. apply (NoDup_fmap_1 e_msgId). apply Hok'. }
  pose proof (submseteq_length _ _ Hm). apply submseteq_Permutation in Hm as [l Hl]. pose proof (bsum_perm _ _ Hl) as Hb. rewrite bsum_app in Hb.
  assert (0 ≤ bsum l) as H0. { apply bsum_nonneg. intros e He. apply (so_nonneg _ Hok). rewrite Hl. apply elem_of_app. by right. }
  rewrite (so_bytes _ Hok) in R2. split; [lia|]. rewrite (so_bytes _ Hok'). lia.
Qed.
(** The role a transfer goes into. *)
Record receives (G : mgr) (ref : nat) (t : Z) (r : role) (msgs : list json) : Prop := {
  rc_role : role_at G ref = Some r;
  rc_topic : topicId r = t;
  rc_ok : store_ok r;
  rc_plain : latestOnly r ≠ Some true;
  rc_room : roomy (mcf G) r msgs
}.
(** What was sent is held, or deleted, at the role; a deletion may be undone by a body of the batch
    that its signer did not write ([_tombstoned]), which is then held. *)
Definition has_all (r : role) (p : payload) : Prop :=
  (∀ m, m ∈ default [] (pa_msgs p) → ∃ s id, shape m = Some s ∧ st_msgId s = Some id ∧ known r id = true) ∧
  ∀ d, d ∈ pa_dels p → dm_msgId d ≠ "" → known r (dm_msgId d) = true.

Lemma take_in_taken k G ref t p c g r : let msgs := default [] (pa_msgs p) in receives G ref t r msgs → plain msgs →
  let '(G', res) := take_in JSON_parse sha256 ed_verify resolveRegion ks others clock verified k G ref t p c g in
  (∀ ta, res = Ok (Some ta) → ta_held ta + ta_rejected ta = Z.of_nat (length msgs) ∧ 0 ≤ ta_rejected ta ∧
     (ta_rejected ta = 0 → ∃ r', role_at G' ref = Some r' ∧ has_all r' p)) ∧
  ((∀ m, m ∈ msgs → honest_msg t m) → cutHolds G ref c = true → ∃ ta, res = Ok (Some ta) ∧ ta_rejected ta = 0 ∧ ta_refused ta = false).
Proof using Hothers.
  intros msgs0. remember msgs0 as msgs eqn:E0. subst msgs0. intros [Hr Ht Hok Hl HR] Hp. unfold take_in. rewrite <- E0. pose proof (dels_taken ref t c g (pa_dels p) k G r Hr Hok) as Hd.
  destruct (applyDels _ _ _ _ _ _ _ _ _ _) as [G1 ok]. destruct Hd as [Hd1 Hd2]. destruct ok; [|split; [done|intros _ Hc; by specialize (Hd1 Hc)]].
  destruct (Hd2 eq_refl) as (r1 & Hr1 & Hok1 & El & Em & HC & Hsub & Hmono & Hdel).
  assert (taking ref t msgs (dm_msgId <$> filter (λ d, dm_msgId d ≠ "") (pa_dels p)) G1) as HT.
  { exists r1. assert (topicId r1 = t) as Et. { destruct HC as [_ HC]. destruct (HC r Hr) as (r1' & Hr1' & _ & _ & _ & _ & E). rewrite Hr1 in Hr1'. injection Hr1' as <-. congruence. }
    split_and!; [done|done|done|by rewrite El|rewrite Em; apply (subset_room _ r); [done..|exact HR]|].
    intros id (d & -> & [Hne Hin]%list_elem_of_filter)%list_elem_of_fmap. unfold known. rewrite Hdel by done. apply orb_true_r. }
  unfold ingestStampedBatch. pose proof (batch_taken msgs (k + length (pa_dels p)) G1 ref t c (mk_tally 0 0 0 false) _ HT Hp eq_refl) as Hb.
  destruct (batch_in _ G1 ref c msgs _) as [G2 res] eqn:Eb. destruct Hb as [Hb1 Hb2].
  destruct res as [ta'|x]; [split|split; [done|intros Hh Hc; destruct (Hb2 Hh) as (ta & ? & _); [by rewrite (cuts_hold _ _ _ _ _ Hr HC)|done]]].
  - intros ta Hres. injection Hres as ->. pose proof (batch_counts _ _ _ _ _ _ _ _ Eb) as (C1 & C2 & _). cbn in C1, C2.
    split_and!; [lia|done|]. intros H0. destruct (Hb1 ta eq_refl H0) as (ids' & (r' & Hr' & _ & Hok' & _ & _ & Hk) & Hinc & Hall). exists r'. split; [done|]. split.
    + rewrite <- E0. intros m Hm. destruct (Hall m Hm) as (s & id & ? & ? & Hid). exists s, id. split_and!; [done|done|by apply Hk].
    + intros d Hd Hne. apply Hk, Hinc, list_elem_of_fmap. exists d. split; [done|]. by apply list_elem_of_filter.
  - intros Hh Hc. destruct (Hb2 Hh) as (ta & [= ->] & ? & ?); [by rewrite (cuts_hold _ _ _ _ _ Hr HC)|]. by exists ta.
Qed.

Local Abbreviation handoff_in := (ingestHandoff JSON_parse sha256 ed_verify resolveRegion ks others clock verified).

(** C9. A full acknowledgement means what it says.  Take a heir that ingests a hand-over - whatever
    its messages and deletions are - in one uninterrupted run, into a role with room for them beside
    what it holds (and not of a metrics topic).  If it acknowledges with all that was sent counted as
    held, it holds each message of the transfer under its id, or has it deleted, and so for each
    deletion; and the change of root that may follow in the same step keeps it so. *)
Theorem full_ack_is_held k E E' corr G t p G0 ref r G' ta dst held sent :
  handoff_role E G t = (G0, inr ref) → receives G0 ref t r (default [] (pa_msgs p)) → plain (default [] (pa_msgs p)) →
  handoff_in k E E' corr G t p = (G', Ok (HTaken ta (Some (dst, held, sent)))) → sent ≤ held →
  ∃ r', role_at G' ref = Some r' ∧ has_all r' p.
Proof using Hothers.
  intros Hrole Hrec Hp H Hle. unfold ingestHandoff in H. rewrite Hrole in H. pose proof (take_in_taken k G0 ref t p (cutCapture G0 ref) None r Hrec Hp) as Ht. cbv zeta in Ht.
  destruct (take_in _ _ _ _ _ _ _ _ _ _ _ _ _ _ _) as [G1 [o|x]]; [|done]. destruct Ht as [Ht _]. destruct (ta_refused (counts p o)) eqn:Er; [done|].
  destruct o as [ta'|]; [|done]. cbn [counts] in *. injection H as <- <- Hack.
  destruct (Ht ta' eq_refl) as (C1 & C2 & C3). destruct (pa_from p) as [f|]; [|done]. cbn in Hack. destruct (ids_isHexId (lc f)); [|done].
  destruct (idBigS (lc f)); [|done]. injection Hack as _ <- <-. destruct C3 as (r1 & Hr1 & Hall); [lia|].
  destruct (stores_handoff ref E' corr G1 t (lc f) r1 Hr1) as (r' & Hr' & S1 & S2 & S3). exists r'. split; [done|].
  assert (∀ id, known r1 id = true → known r' id = true) as Hk by (intros id; unfold known; by rewrite S2, S3).
  destruct Hall as [A1 A2]. split; [|intros d Hd Hne; by apply Hk, A2]. intros m Hm. destruct (A1 m Hm) as (s & id & ? & ? & ?). exists s, id. split_and!; auto.
Qed.

(** C10. An honest hand-over arrives.  Take a sender whose messages verify for the topic, under their
    ids, by signers that have a text, in a topic that is none of the metrics topics (which keep their
    newest body only), and with stamps at most [FUTURE_TOLERANCE_MS] ahead of the heir's clock; and a
    heir that admits the hand-over, is at no cut and has room for it beside what it holds.  In one
    uninterrupted run the heir takes the push in completely: it acknowledges to the sender with all
    messages counted as held, and then holds, or has deleted, every message and every active deletion
    of the sender. *)
Theorem honest_push_arrives k E E' corr G t G0 ref r cfS sl armed nowS rS :
  handoff_role E G t = (G0, inr ref) → receives G0 ref t r (wire_of <$> cache rS) → cutHolds G0 ref (cutCapture G0 ref) = true →
  plain (wire_of <$> cache rS) → (∀ e, e ∈ cache rS → honest_msg t (wire_of e)) → 0 ≤ nodeId cfS < 2 ^ 264 →
  let n := Z.of_nat (length (cache rS)) in
  ∃ G' ta r', handoff_in k E E' corr G t (syncPush cfS sl armed nowS rS true) = (G', Ok (HTaken ta (Some (nodeId cfS, n, n)))) ∧
    role_at G' ref = Some r' ∧
    (∀ e, e ∈ cache rS → known r' (e_msgId e) = true) ∧
    (∀ id tb, jget (tombstones rS) id = Some tb → nowS < t_exp tb → id ≠ "" → known r' id = true).
Proof using Hothers.
  intros Hrole Hrec Hcut Hp Hh Hid n. set (p := syncPush cfS sl armed nowS rS true).
  assert (default [] (pa_msgs p) = wire_of <$> cache rS) as Em by done.
  unfold ingestHandoff. rewrite Hrole. pose proof (take_in_taken k G0 ref t p (cutCapture G0 ref) None r) as Ht. cbv zeta in Ht. rewrite Em in Ht.
  specialize (Ht Hrec Hp). destruct (take_in _ _ _ _ _ _ _ _ _ _ _ _ _ _ _) as [G1 res]. destruct Ht as [Ht1 Ht2].
  destruct Ht2 as (ta & -> & Hrej & Href); [by intros m (e & -> & He)%list_elem_of_fmap; apply Hh|done|]. cbn [counts]. rewrite Href.
  destruct (Ht1 ta eq_refl) as (C1 & _ & C3). destruct (C3 Hrej) as (r1 & Hr1 & A1 & A2). rewrite length_fmap in C1.
  destruct (idHex_spec _ Hid) as (I1 & I2 & I3). change (pa_from p) with (Some (idHex (nodeId cfS))). cbn [fmap option_fmap option_map default mbind option_bind].
  rewrite I2, I3. unfold idBigS. rewrite I1. cbn [fmap option_fmap option_map]. rewrite Em, length_fmap. fold n.
  assert (ta_held ta = n) as -> by lia. destruct (stores_handoff ref E' corr G1 t (idHex (nodeId cfS)) r1 Hr1) as (r' & Hr' & S1 & S2 & S3).
  assert (∀ id, known r1 id = true → known r' id = true) as Hk by (intros id; unfold known; by rewrite S2, S3).
  eexists _, ta, r'. split; [reflexivity|]. split_and!; [done| |].
  - intros e He. apply Hk. destruct (A1 (wire_of e)) as (s & id & Hs & Hi & Hkn); [rewrite Em; by apply list_elem_of_fmap_2|].
    unfold wire_of, shape in Hs. cbn in Hs. injection Hs as <-. cbn in Hi. injection Hi as <-. done.
  - intros id tb Htb Hexp Hne. apply Hk. set (d := mk_delmark id (t_killTs tb) (t_signer tb) (t_seq tb) (if tombAuthority cfS then t_kill tb else None)).
    apply (A2 d); [|done]. change (pa_dels p) with (activeDels cfS nowS rS). apply list_elem_of_fmap. exists (id, tb). split; [done|].
    apply list_elem_of_filter. split; [apply Is_true_eq_left, Z.ltb_lt; exact Hexp|by apply jget_Some_elem].
Qed.
End taking.

(** * On the wire, by example *)

Definition demo_heir : mgr := new_mgr (default_cfg 5).
Definition demo_env : env := mk_env 600 600 (Some []) None true false.
Definition demo_root : role := push (mk_entry demo_id 500 "good" (Some 1) 0) (makeRole demo_t true 0).
Definition demo_seated : mgr := (handoff_role demo_env demo_heir demo_t).1.
Local Abbreviation demo_handoff M p :=
  (ingestHandoff demo_parse toy_sha demo_verify toy_region production (λ _ G, G) (λ _, 600) (λ _ _, true) 0 demo_env demo_env "c0" M demo_t p).
Definition demo_push : payload := syncPush (default_cfg 7) true true 600 demo_root true.
Definition demo_new : role := match role_at demo_seated 0 with Some r => r | None => demo_root end.

Lemma fresh_store_ok r : cache r = [] → cacheIds r = ∅ → cacheBytes r = 0 → tombstones r = [] → store_ok r.
Proof.
  intros E1 E2 E3 E4. split; rewrite ?E1, ?E2, ?E3, ?E4; try done; [set_solver|apply NoDup_nil_2|by intros ? ?%not_elem_of_nil|apply NoDup_nil_2].
Qed.
Lemma demo_new_receives msgs : roomy (default_cfg 5) demo_new msgs → receives demo_seated 0 demo_t demo_new msgs.
Proof. intros H. split; [by vm_compute..| |by vm_compute|exact H]. apply fresh_store_ok; by vm_compute. Qed.
Lemma demo_plain : plain demo_parse (wire_of <$> cache demo_root).
Proof.
  intros m s env Hm Hs He. apply list_elem_of_fmap in Hm as (e & -> & Hin%list_elem_of_singleton). subst e. vm_compute in Hs. injection Hs as <-.
  vm_compute in He. injection He as <-. by vm_compute.
Qed.
Lemma demo_honest e : e ∈ cache demo_root → honest_msg demo_parse toy_sha demo_verify toy_region production (λ _, 600) demo_t (wire_of e).
Proof.
  intros ->%list_elem_of_singleton. destruct (shape (wire_of (mk_entry demo_id 500 "good" (Some 1) 80))) as [s|] eqn:Es; [|by vm_compute in Es].
  exists s, demo_id, (demo_env_of []). eexists. split_and!; [exact Es|by vm_compute in Es; injection Es as <-; vm_compute..|by eexists|].
  intros _. vm_compute in Es. injection Es as <-. by vm_compute.
Qed.

Lemma full_ack_is_held_witness : (demo_handoff demo_heir demo_push).2 = Ok (HTaken (mk_tally 1 1 0 false) (Some (7, 1, 1))) ∧
  ∃ r', role_at (demo_handoff demo_heir demo_push).1 0 = Some r' ∧ has_all r' demo_push.
Proof.
  assert ((demo_handoff demo_heir demo_push).2 = Ok (HTaken (mk_tally 1 1 0 false) (Some (7, 1, 1)))) as H by (vm_compute; reflexivity).
  split; [exact H|]. destruct (demo_handoff demo_heir demo_push) as [G' res] eqn:E. cbn [fst snd] in *. subst res.
  eapply (full_ack_is_held demo_parse toy_sha demo_verify toy_region production (λ _ G, G) (λ _, 600) (λ _ _, true) (λ _ _, eq_refl)
    0 demo_env demo_env "c0" demo_heir demo_t demo_push demo_seated 0 demo_new G' (mk_tally 1 1 0 false) 7 1 1).
  - vm_compute. reflexivity.
  - apply demo_new_receives. split; vm_compute; discriminate.
  - exact demo_plain.
  - exact E.
  - done.
Defined.

Lemma honest_push_arrives_witness : ∃ G' ta r',
  demo_handoff demo_heir demo_push = (G', Ok (HTaken ta (Some (7, 1, 1)))) ∧ role_at G' 0 = Some r' ∧
  (∀ e, e ∈ cache demo_root → known r' (e_msgId e) = true) ∧
  (∀ id tb, jget (tombstones demo_root) id = Some tb → 600 < t_exp tb → id ≠ "" → known r' id = true).
Proof.
  apply (honest_push_arrives demo_parse toy_sha demo_verify toy_region production (λ _ G, G) (λ _, 600) (λ _ _, true) (λ _ _, eq_refl)
    0 demo_env demo_env "c0" demo_heir demo_t demo_seated 0 demo_new (default_cfg 7) true true 600 demo_root).
  - vm_compute. reflexivity.
  - apply demo_new_receives. split; vm_compute; discriminate.
  - vm_compute. reflexivity.
  - exact demo_plain.
  - exact demo_honest.
  - split; vm_compute; [discriminate|reflexivity].
Defined.

(** Texts of two open posts. *)
Definition second_id : string := computeMsgId toy_sha JNullV (JText "ho").
Definition two_parse (s : string) : option json :=
  if decide (s = "more") then
    Some (JObject [("msgId", JText second_id); ("seq", JNumber 2); ("ts", JNumber 510); ("topic", demo_topic); ("message", JText "ho")])
  else demo_parse s.
Definition two_root : role := push (mk_entry second_id 510 "more" (Some 2) 0) demo_root.
Definition small_heir : mgr :=
  new_mgr (mk_mcfg 5 true false false false true false false 0 90000 5000 4 300000 1 (16 * 1024 * 1024) 20000 5000).

(** Without room the acknowledgement counts what was adopted, not what is held: a heir that keeps one
    message acknowledges both, and the first, which the second displaced, is nowhere in its state. *)
Example acknowledged_and_evicted :
  let '(G', res) := ingestHandoff two_parse toy_sha demo_verify toy_region production (λ _ G, G) (λ _, 600) (λ _ _, true)
    0 demo_env demo_env "c0" small_heir demo_t (syncPush (default_cfg 7) true true 600 two_root true) in
  res = Ok (HTaken (mk_tally 2 2 0 false) (Some (7, 2, 2))) ∧
  (λ r, (e_json <$> cache r, known r demo_id)) <$> role_at G' 0 = Some (["more"], false).
Proof. vm_compute. by split. Qed.

(** A heir that holds a replica of the topic takes the transfer, acknowledges it in full, and is as
    much a replica as before: it does not become the root. *)
Example heir_with_a_replica_stays_one :
  let G := alloc demo_heir demo_t (with_backupOf (Some (idHex 7)) (makeRole demo_t false 0)) in
  let '(G', res) := demo_handoff G demo_push in
  res = Ok (HTaken (mk_tally 1 1 0 false) (Some (7, 1, 1))) ∧
  (λ r, (isRoot r, backupOf r)) <$> role_at G' 0 = Some (false, Some (idHex 7)).
Proof. vm_compute. by split. Qed.
